(* ===== verification/_CoqProject ===== *)
-Q . S2P
Prelude.v
Bits.v
Varint.v
Slice.v
Parse.v
Files.v
Hash.v
IO.v
Keys.v
Entries.v
SkipList.v
Iterator.v
Merging.v
DBIterator.v
DeltaAmend.v
HashMap.v
MemoryTable.v
UnorderedTable.v
LRU.v
LRUSafe.v
WriteBatch.v
BatchIndex.v
WAL.v
Patch.v
Version.v
VersionSet.v
DBImpl.v
DBSpec.v
Txn.v
DBOpen.v
Table.v
Block.v
Sst.v
S1Table.v
S1Get.v
S1Scan.v
BlockCache.v
SstIterator.v
DBFlush.v
Compaction.v
DBCompact.v
DBScan.v
TxnWait.v
TxnLock.v
TxnSteps.v
LockFrame.v
PessTxn.v
PessLocks.v
PessSteps.v
PessSafe.v
