(* ===== verification/Prelude.v ===== *)
(** * Prelude

    A verification development for the storage engine of this repository: the
    persistent key-value database in src/db with its tables (src/table), its
    memory tables and iterators (src/core) and the byte-level code below them
    (src/base).  It is a shallow embedding: every operation of the C++ code is a
    Rocq function under the name of the source where that is free, the state it
    changes is passed along, and a virtual class is a type class of operations
    with a second class for its laws.

    ** The program and its model

    A database keeps, for every column family, one memory table that is written,
    a queue of immutable ones on their way to disk, and a [Version]: four levels
    of table files.  A write ([DBImpl::WriteImpl]) makes room, appends its batch
    to the write-ahead log and puts the updates in the memory tables under
    consecutive sequence numbers.  A read asks the memory tables and then the
    files, the newest first.  A full memory table is written as a table file of
    level 0 and the change of the version is appended to the manifest.  Opening
    a database replays the manifest and then the logs.

    From the bottom up (file of the development: source):

    - [Prelude]: machine words, results, tactics and lemmas shared by all files.
    - [Bits]: base/bit-ops.h.  [Varint]: base/varint-encoding.  [Slice]:
      base/slice.h, the writers and the cursor [BufferReader].  [Parse]:
      base/slice.cc, numbers and escapes.  [Hash]: base/hash.cc, base/crc32.c.
      [Files]: db/files, the names of files.
    - [IO]: base/io-utils.h and port/file-posix.cc; the class [WritableFile].
    - [Keys]: core/key-boundle and the comparators; the class [ComparatorLaws].
      [Entries]: the abstract table, a sorted list of entries, to which memory
      tables, blocks and table files are all related.
    - [SkipList]: core/skip-list.h, also as steps of one writer among readers.
      [MemoryTable]: core/ordered-memory-table; the classes [MemTable] and
      [MemScan], what the database asks of a memory table.  [HashMap]:
      core/hash-map-v2.h, also as steps of writers among readers;
      [UnorderedTable]: core/unordered-memory-table, the second instance of
      [MemTable].
    - [LRU]: a shard of the cache, core/lru-cache-v1, and base/lock-group;
      [LRUSafe]: what stays true of it.  [BlockCache]: its shards and
      table/block-cache.
    - [Iterator], [Merging], [DBIterator]: include/mai/iterator.h,
      core/merging.cc, db/db-iterator: iterators as a class of operations, the
      merge of several, and the reader's view at a snapshot.
    - [WriteBatch], [WAL], [Patch]: the batch, the log and the record of the
      manifest, each with its encoder and decoder.
    - [Version], [VersionSet]: db/version and db/column-family: files by level,
      the builder of versions, the inputs of a compaction, the manifest and its
      recovery; the class [EnvOps].
    - [Table], [Block], [Sst], [SstIterator]: src/table: properties and bloom
      filter, blocks, table files, their iterator.
    - [S1Table], [S1Get], [S1Scan]: table/plain-block-builder and
      table/s1-table-{builder,reader}: the table files of families with the
      option [use_unordered_table], whose index is a hash table; their lookups
      and their iterator.
    - [DBImpl], [DBSpec], [DBOpen], [DBFlush]: db/db-impl.cc: writing and
      reading; the specification they meet; opening again, column families and
      the deletion of files; the flush of memory tables and db/table-cache.cc.
    - [Compaction]: db/compaction-impl.cc, the merge of table files into one.
      [DBCompact]: the compaction of a family (db-impl.cc, [CompactFileTable] to
      [BackgroundWork]) and db/snapshot-impl.h.
    - [DBScan]: the iterator of a reader over all of this (db-impl.cc,
      [NewIterator]).
    - [DeltaAmend]: core/delta-amend-iterator, an iterator amended by another.
      [BatchIndex]: txn/write-batch-with-index, the batch of a transaction.
      [Txn]: txn/transaction-base and txn/optimism-transaction, and the
      interleaving of transactions with other writes.
    - [TxnWait], [TxnLock], [TxnSteps]: txn/transaction-lock-mgr: who waits for
      whom and the search for deadlocks, the locks of keys, and the interleaving
      of the requests of many transactions.
    - [PessTxn]: txn/pessimistic-transaction{,-db} and txn/transaction-db: the
      transactions that hold locks, as objects of a store that the tables of the
      expirable and of the named ones point into.  [LockFrame] and [PessLocks]
      say what a request or an unlocking leaves alone and who holds which key,
      [PessSteps] runs the operations of many of them as steps with one
      invariant, [PessSafe] has what follows from it.

    ** How state and effects are modelled

    A w-bit integer is a [Z], arithmetic is followed by [wrap w]; bytes are
    [list Z].  [Error] is the enumeration [error] of the kinds of errors, the
    message is left out; [outcome] adds to a result [Undef] (an access the
    language does not define: a null pointer, an index out of range, a view cut
    behind its end) and [OutOfFuel].  A pointer to a node of a skip list is an
    index of a store; a pointer to a column family is its place in the list of
    families, which only grows.  A reference count is left out.  The environment
    (files, directories, clock) is a type parameter with the operations of the
    classes [EnvOps], [DirOps], [FileOps] and [FlushOps]; what is relied on is in
    [EnvReliable], [DirReliable], [ReopenReliable] and [FlushLaws], and
    [DBOpen.Disk], a map from names to contents, satisfies all of them.  Debug
    checks ([DCHECK], [NOREACHED]) are no code, as in a release build.

    Loops are structural where there is a structure; otherwise they have fuel
    and a theorem that it is enough: the number of bytes that are left for
    decoders ([Slice], [WriteBatch], [Patch]) and logs ([WAL], [Recovery],
    [Redo]: a record takes at least a header), 2n + 1 turns over n files for
    [GetOverlappingInputs], the nodes of every level for a search in a skip list
    ([search_fuel]), two turns for the room of a write, the number of entries
    for the iterators and the flush.  No theorem assumes that a loop ends.

    ** The theorems

    - What is written is read back: [Varint.varint_roundtrip],
      [WriteBatch.WriteBatch_replay], [WAL.WAL_roundtrip],
      [Patch.VersionPatch_roundtrip], [Files.ParseName_roundtrip],
      [Parse.ParseEscaped_ToReadable].
    - Lookups and scans answer by the entries alone:
      [MemoryTable.OrderedMemoryTable_Get], [Block.Block_Seek_first_ge],
      [Sst.SstTable_Get] and [SstIterator.SstIterator_scan] (unless the first
      entry has the sequence number 0: then the builder makes a file that its
      reader misreads, [Sst.last_level_unreadable]), [S1Get.S1Table_Get] and
      [S1Scan.S1Table_scan] for hash tables, [Version.Version_Get_newest], the
      scans of every iterator up to [DBIterator.sources_scan].
    - Concurrency of the skip list: [SkipList.SkipList_reader_sees_current] by
      induction on the steps, [SkipList.SkipList_obstruction_free]; and of the
      hash map: [HashMap.HashMap_reader_finds].
    - The two memory tables are the same to a client:
      [UnorderedTable.UnorderedMemoryTable_ordered].
    - The cache: whatever clients do that is allowed ([LRUSafe.allowed]: a load
      needs its stripe of locks free and room for its handle), a shard stays
      well-formed and its operations are defined ([LRUSafe.Shard_ops_defined]),
      what is held stays ([LRUSafe.held_stays]), and the cache of blocks shows
      what is in the files ([BlockCache.BlockCache_transparent]).
    - The manifest: [VersionSet.Recovery_of_manifest], for every sequence of
      changes in an environment that does not fail, when the manifest was written
      in the blocks in which it is read (32 KiB) or fits in one block (with the
      default option of 4096 bytes a longer one is misread,
      [WAL.WAL_block_size_mismatch]); [Version.VersionBuilder_files].
    - The database refines lists of records: [DBSpec.NewDB_ready],
      [DBSpec.WriteImpl_refines], [DBSpec.Get_answers],
      [DBFlush.CompactMemoryTable_keeps]; a scan shows what lookups find,
      [DBScan.NewIterator_scans]; a compaction into a level above the last
      changes nothing that a reader may see as long as no filter of a lower level
      admits an old deletion, which the code drops just then, and but for old
      views of keys that are in memory tables: [Compaction.Run_keeps_lookups],
      [DBCompact.compact_files_keeps_views]; a crash and a restart lose nothing
      that was written to the one log in which all families have their records:
      [DBImpl.Redo_of_writes], [DBOpen.Recovery_after_writes] (with several logs
      they do, [DBOpen.filter_is_inverted]); no file in use is deleted:
      [DBOpen.DeleteObsoleteFiles_safe].
    - Optimistic transactions: [Txn.Commit_decides]; by induction on the steps of
      all transactions, a commit that succeeds is as if the transaction had run
      alone ([Txn.Commit_serializes]); the batch of a transaction finds its own
      updates ([BatchIndex.BatchIndex_reads_writes]), though the code reads what
      it has found through a view of a string that is gone: if the bytes are
      still there, the transaction reads its own updates
      ([Txn.txn_Get_answers]) and its iterator shows them
      ([DeltaAmend.DeltaAmend_amends], [BatchIndex.BatchIndex_iterates]).
    - Locks, by induction on the steps of all transactions: an exclusive lock has
      one holder ([TxnSteps.exclusive_locks]), nobody waits in a circle
      ([TxnSteps.no_deadlock]), every request returns or waits
      ([TxnSteps.requests_end]).
    - Pessimistic transactions, by induction on the steps of all, under the
      discipline of [PessSteps] (a transaction is not begun again, given a lock
      timeout or a batch while it holds keys, updates are under exclusive locks,
      and reads under shared ones count if the transaction expires): two under
      way never hold a key that one of them holds exclusively
      ([PessSafe.exclusive_keys]), locks are taken from expired transactions
      only ([PessSafe.stolen_expired]), and a commit that gets to its write is
      as if the transaction had run alone ([PessSafe.pess_Commit_serializes]).
      The examples at the end of [PessSafe] are without the discipline.
    - Errors: [WAL.WAL_append_ignores_errors], and the examples under "What goes
      wrong", each a run of the code that does not do what it is meant to.

    ** What is not modelled

    An operation under the lock of the database is one step: the background
    threads and the places where the lock is given up are left out (what they
    run under the lock is modelled).  The database has sorted table files only:
    those of hash tables ([S1Table]) are related to lists of entries, not to the
    database.  The readers of tables read their files as they do without a cache,
    to which the cache of blocks is related ([BlockCache]), and a call of the
    cache is one step; floating-point scores and memory usage are parameters.
    src/sql, src/lang, src/nyaa and src/asm are programs of their own on top of,
    or beside, the database.  The steps of the pessimistic transactions leave
    out the creation and the deletion of column families beside them, and a
    transaction that is begun again has nothing locked (what happens otherwise is
    shown at the end of [PessSafe]).  The restart of a database that has been
    flushed is covered by the manifest ([VersionSet]) and by the logs ([DBOpen])
    each on its own. *)

From stdpp Require Export base numbers option list sorting gmap.
From Stdlib Require Export ZArith Lia.

Open Scope Z_scope.

(** ** Machine integers

    A w-bit unsigned integer is a [Z] in [0, 2^w); C++ arithmetic on it is the
    arithmetic of [Z] followed by [wrap w].  A signed w-bit value is obtained
    from its bit pattern by [sgn w] (two's complement). *)

Definition wrap (w x : Z) : Z := x mod 2 ^ w.

Definition sgn (w x : Z) : Z :=
  let y := wrap w x in if y <? 2 ^ (w - 1) then y else y - 2 ^ w.

Definition is_u (w x : Z) : Prop := 0 <= x < 2 ^ w.

#[global] Instance is_u_dec w x : Decision (is_u w x).
Proof. unfold is_u. apply _. Defined.

Lemma wrap_small w x : is_u w x -> wrap w x = x.
Proof. unfold is_u, wrap. apply Z.mod_small. Qed.

Lemma sgn_small w x : 0 < w -> - 2 ^ (w - 1) <= x < 2 ^ (w - 1) -> sgn w x = x.
Proof.
  intros Hw Hx. assert (E : 2 ^ w = 2 * 2 ^ (w - 1)) by (rewrite <- Z.pow_succ_r by lia; f_equal; lia). unfold sgn, wrap.
  destruct (Z.leb_spec 0 x).
  - rewrite Z.mod_small by lia. destruct (Z.ltb_spec x (2 ^ (w - 1))); lia.
  - rewrite <- (Z.mod_add x 1), Z.mod_small by lia. destruct (Z.ltb_spec (x + 1 * 2 ^ w) (2 ^ (w - 1))); lia.
Qed.

Lemma wrap_is_u w x : 0 <= w -> is_u w (wrap w x).
Proof. intros. unfold is_u, wrap. apply Z.mod_pos_bound. lia. Qed.

(** Two folds whose steps agree on the elements of the list. *)
Lemma fold_left_Forall_ext {A B} (P : B -> Prop) (f g : A -> B -> A) l x :
  (forall a b, P b -> f a b = g a b) -> Forall P l -> fold_left f l x = fold_left g l x.
Proof.
  intros Hfg Hl. revert x. induction Hl as [|b l Hb _ IH]; intros x; [done|].
  simpl. rewrite Hfg by done. apply IH.
Qed.

(** The byte strings of the program ([std::string], [std::string_view] and
    [const char *] with a length): the bytes as unsigned integers. *)
Abbreviation bytes := (list Z).

Definition is_byte (b : Z) : Prop := is_u 8 b.

Definition byte_str (s : bytes) : Prop := Forall is_byte s.

#[global] Instance byte_str_dec s : Decision (byte_str s).
Proof. unfold byte_str, is_byte. apply _. Defined.

(** [zlen s] is [s.size()]. *)
Definition zlen {A} (s : list A) : Z := Z.of_nat (length s).

Lemma zlen_nil {A} : zlen (@nil A) = 0.
Proof. reflexivity. Qed.

Lemma zlen_cons {A} (x : A) s : zlen (x :: s) = 1 + zlen s.
Proof. unfold zlen. simpl. lia. Qed.

Lemma zlen_app {A} (s t : list A) : zlen (s ++ t) = zlen s + zlen t.
Proof. unfold zlen. rewrite length_app. lia. Qed.

Lemma zlen_nonneg {A} (s : list A) : 0 <= zlen s.
Proof. unfold zlen. lia. Qed.

Lemma zlen_0 {A} (s : list A) : zlen s = 0 -> s = [].
Proof. destruct s; unfold zlen; simpl; [done | lia]. Qed.

(** [s.substr(pos, n)]: [None] when [pos > s.size()] (the code would throw),
    and at most [n] bytes otherwise. *)
Definition substr (s : bytes) (pos n : Z) : option bytes :=
  if zlen s <? pos then None
  else Some (take (Z.to_nat (Z.min n (zlen s - pos))) (drop (Z.to_nat pos) s)).

Lemma substr_app s t u :
  substr (s ++ t ++ u) (zlen s) (zlen t) = Some t.
Proof.
  unfold substr. rewrite !zlen_app.
  pose proof (zlen_nonneg t). pose proof (zlen_nonneg u).
  destruct (Z.ltb_spec (zlen s + (zlen t + zlen u)) (zlen s)); [lia|].
  f_equal. rewrite Z.min_l by lia. unfold zlen.
  rewrite !Nat2Z.id, drop_app_length, take_app_length. done.
Qed.

(** ** Bits

    The bridge from the bit operations of the code to arithmetic. *)

Lemma shiftl_mul a k : 0 <= k -> Z.shiftl a k = a * 2 ^ k.
Proof. apply Z.shiftl_mul_pow2. Qed.

Lemma shiftr_div a k : 0 <= k -> Z.shiftr a k = a / 2 ^ k.
Proof. apply Z.shiftr_div_pow2. Qed.

Lemma land_ones_mod a k : 0 <= k -> Z.land a (Z.ones k) = a mod 2 ^ k.
Proof. apply Z.land_ones. Qed.

Lemma testbit_above b k n :
  0 <= b < 2 ^ k -> 0 <= k <= n -> Z.testbit b n = false.
Proof.
  intros Hb Hn. destruct (Z.eq_dec b 0) as [->|]; [apply Z.bits_0|].
  apply Z.bits_above_log2; [lia|]. apply Z.log2_lt_pow2; [lia|].
  apply Z.lt_le_trans with (2 ^ k); [lia|]. apply Z.pow_le_mono_r; lia.
Qed.

Lemma land_disjoint a b k :
  0 <= k -> 0 <= b < 2 ^ k -> Z.land (a * 2 ^ k) b = 0.
Proof.
  intros Hk Hb. rewrite <- shiftl_mul by done. apply Z.bits_inj'. intros n Hn.
  rewrite Z.land_spec, Z.bits_0, Z.shiftl_spec by done.
  destruct (Z.ltb_spec n k).
  - rewrite Z.testbit_neg_r by lia. done.
  - rewrite (testbit_above b k) by lia. apply andb_false_r.
Qed.

(** Disjoint [or] is addition. *)
Lemma lor_disjoint a b k :
  0 <= k -> 0 <= b < 2 ^ k -> Z.lor (a * 2 ^ k) b = a * 2 ^ k + b.
Proof.
  intros Hk Hb. pose proof (land_disjoint a b k Hk Hb) as H.
  rewrite <- Z.lxor_lor by done. symmetry. by apply Z.add_nocarry_lxor.
Qed.

Lemma lor_is_u w a b : 0 <= w -> is_u w a -> is_u w b -> is_u w (Z.lor a b).
Proof.
  unfold is_u. intros Hw Ha Hb. assert (0 <= Z.lor a b) by (apply Z.lor_nonneg; lia).
  split; [done|]. destruct (Z.eq_dec (Z.lor a b) 0) as [->|]; [apply Z.pow_pos_nonneg; lia|].
  apply Z.log2_lt_pow2; [lia|]. rewrite Z.log2_lor by lia.
  destruct (Z.eq_dec a 0) as [->|], (Z.eq_dec b 0) as [->|]; rewrite ?Z.lor_0_r, ?Z.lor_0_l in *;
    try lia; apply Z.max_lub_lt; try (apply Z.log2_lt_pow2; lia).
  all: assert (w <> 0) by (intros ->; lia); change (Z.log2 0) with 0; lia.
Qed.

(** Testing one bit with a mask. *)
Lemma land_bit x k : 0 <= k -> negb (Z.land x (Z.shiftl 1 k) =? 0) = Z.testbit x k.
Proof.
  intros Hk. rewrite Z.shiftl_mul_pow2, Z.mul_1_l by done.
  destruct (Z.testbit x k) eqn:E.
  - apply negb_true_iff, Z.eqb_neq. intros H0. apply (f_equal (fun y => Z.testbit y k)) in H0.
    by rewrite Z.land_spec, E, Z.pow2_bits_true, Z.bits_0 in H0.
  - apply negb_false_iff, Z.eqb_eq. apply Z.bits_inj'. intros n Hn.
    rewrite Z.land_spec, Z.bits_0, Z.pow2_bits_eqb by done.
    destruct (Z.eqb_spec k n) as [->|]; [by rewrite E | apply andb_false_r].
Qed.

(** Testing the bits [k, w) of a w-bit value is a comparison. *)
Lemma land_le x y : 0 <= x -> Z.land x y <= x.
Proof.
  intros Hx. assert (Z.ldiff (Z.land x y) x = 0) as E.
  { apply Z.bits_inj'. intros n Hn. rewrite Z.ldiff_spec, Z.land_spec, Z.bits_0.
    by destruct (Z.testbit x n), (Z.testbit y n). }
  pose proof (Z.sub_nocarry_ldiff x (Z.land x y) E).
  assert (0 <= Z.ldiff x (Z.land x y)) by (apply Z.ldiff_nonneg; lia). lia.
Qed.

Lemma high_mask_zero w k x :
  0 <= k <= w -> is_u w x -> (Z.land x (2 ^ w - 2 ^ k) =? 0) = (x <? 2 ^ k).
Proof.
  intros Hk Hx. unfold is_u in Hx.
  assert (H2 : 2 ^ w = 2 ^ (w - k) * 2 ^ k) by (rewrite <- Z.pow_add_r; f_equal; lia).
  assert (0 < 2 ^ k) by (apply Z.pow_pos_nonneg; lia).
  assert (Z.land x (2 ^ w - 2 ^ k) = x / 2 ^ k * 2 ^ k) as ->.
  { replace (2 ^ w - 2 ^ k) with (Z.shiftl (Z.ones (w - k)) k).
    2: { rewrite shiftl_mul, Z.ones_equiv by lia. nia. }
    transitivity (Z.shiftl (Z.land (Z.shiftr x k) (Z.ones (w - k))) k).
    - apply Z.bits_inj'. intros n Hn.
      rewrite Z.land_spec, !Z.shiftl_spec by done.
      destruct (Z.ltb_spec n k).
      + rewrite !(Z.testbit_neg_r _ (n - k)) by lia. apply andb_false_r.
      + rewrite Z.land_spec, Z.shiftr_spec by lia. repeat f_equal. lia.
    - rewrite land_ones_mod, shiftr_div, shiftl_mul by lia.
      rewrite Z.mod_small; [done|].
      split; [apply Z.div_pos; lia|]. apply Z.div_lt_upper_bound; lia. }
  pose proof (Z.div_mod x (2 ^ k) ltac:(lia)).
  pose proof (Z.mod_pos_bound x (2 ^ k) ltac:(lia)).
  destruct (Z.ltb_spec x (2 ^ k)) as [Hlt|Hge].
  - rewrite Z.div_small by lia. done.
  - apply Z.eqb_neq. intros Hz.
    assert (1 <= x / 2 ^ k) by (apply Z.div_le_lower_bound; lia). nia.
Qed.

(** ** Errors

    The codes of [mai::Error] (include/mai/error.h) without the message
    text, which no code under verification inspects. *)
Inductive error :=
  | kOk | kNotFound | kCorruption | kNotSupported | kInvalidArgument
  | kIOError | kEOF | kTimeout | kTryAgain | kBusy.

#[global] Instance error_eq_dec : EqDecision error.
Proof. solve_decision. Defined.

Definition ok (e : error) : bool := bool_decide (e = kOk).

Lemma ok_spec e : reflect (e = kOk) (ok e).
Proof. unfold ok. apply bool_decide_reflect. Qed.

(** ** Outcomes

    The result of code that may run out of the fuel of its model or step
    outside what C++ defines (a read past a view, a failed debug check). *)
Inductive outcome (A : Type) := Done (a : A) | Undef | OutOfFuel.
Arguments Done {A} a.
Arguments Undef {A}.
Arguments OutOfFuel {A}.

Lemma Done_inj {A} (x y : A) : Done x = Done y -> x = y.
Proof. by intros [= ->]. Qed.

Definition obind {A B} (m : outcome A) (k : A -> outcome B) : outcome B :=
  match m with Done a => k a | Undef => Undef | OutOfFuel => OutOfFuel end.

(** A partial read: [None] is undefined behaviour. *)
(** A loop that does something to every element in turn. *)
Fixpoint traverse {A B} (f : A -> outcome B) (l : list A) : outcome (list B) :=
  match l with
  | [] => Done []
  | x :: l => obind (f x) (fun y => obind (traverse f l) (fun l => Done (y :: l)))
  end.

Definition ofopt {A} (m : option A) : outcome A :=
  match m with Some a => Done a | None => Undef end.

Declare Scope outcome_scope.
Delimit Scope outcome_scope with out.
Notation "'do!' x ':=' m 'in' k" := (obind m (fun x => k))
  (at level 10, x pattern, m at level 100, k at level 200) : outcome_scope.

(** The binary search of [std::lower_bound] and of the tables: the first
    position in [first, first + count) at which [pred] is false. *)
Fixpoint bsearch (fuel : nat) (pred : Z -> outcome bool) (first count : Z) : outcome Z :=
  if count <=? 0 then Done first
  else match fuel with
  | O => OutOfFuel
  | S fuel =>
    let step := count / 2 in
    let it := first + step in
    obind (pred it) (fun b =>
      if b then bsearch fuel pred (it + 1) (count - (step + 1)) else bsearch fuel pred first step)
  end.

Lemma bsearch_spec fuel pred first count k :
  (forall i, first <= i < first + count -> pred i = Done (i <? k)) ->
  first <= k <= first + Z.max 0 count -> (Z.to_nat count <= fuel)%nat ->
  bsearch fuel pred first count = Done k.
Proof.
  revert first count. induction fuel as [|fuel IH]; intros first count Hp Hk Hf; cbn [bsearch].
  - destruct (Z.leb_spec count 0); [f_equal; lia | lia].
  - destruct (Z.leb_spec count 0); [f_equal; lia|].
    pose proof (Z.div_mod count 2 ltac:(lia)). pose proof (Z.mod_pos_bound count 2 ltac:(lia)).
    rewrite Hp by lia. cbn [obind]. destruct (Z.ltb_spec (first + count / 2) k).
    + apply IH; [|lia|lia]. intros i Hi. apply Hp. lia.
    + apply IH; [|lia|lia]. intros i Hi. apply Hp. lia.
Qed.

(** A downward-closed test on [0, n) is a comparison with a threshold. *)
Lemma threshold (p : nat -> bool) (n : nat) :
  (forall i j, (i <= j < n)%nat -> p j = true -> p i = true) ->
  exists c, (c <= n)%nat /\ forall i, (i < n)%nat -> p i = true <-> (i < c)%nat.
Proof.
  induction n as [|n IH]; intros Hp; [exists 0%nat; split; [lia | intros i Hi; lia]|].
  destruct IH as (c & Hc & Hi); [intros i j Hij; apply Hp; lia|].
  destruct (p n) eqn:E.
  - exists (S n). split; [done|]. intros i Hin. split; [lia|]. intros _. apply (Hp i n); [lia | done].
  - exists c. split; [lia|]. intros i Hin. destruct (decide (i = n)) as [->|]; [|apply Hi; lia].
    rewrite E. split; [done | lia].
Qed.

(** ** Tactics *)

(** Case analysis on the boolean comparisons of [Z] and [nat] in the goal. *)
Ltac case_cmp :=
  match goal with
  | |- context [Z.ltb ?a ?b] => destruct (Z.ltb_spec a b)
  | |- context [Z.leb ?a ?b] => destruct (Z.leb_spec a b)
  | |- context [Z.eqb ?a ?b] => destruct (Z.eqb_spec a b)
  | |- context [Z.gtb ?a ?b] => rewrite (Z.gtb_ltb a b)
  | |- context [Z.geb ?a ?b] => rewrite (Z.geb_leb a b)
  | |- context [Nat.ltb ?a ?b] => destruct (Nat.ltb_spec a b)
  | |- context [Nat.leb ?a ?b] => destruct (Nat.leb_spec a b)
  | |- context [Nat.eqb ?a ?b] => destruct (Nat.eqb_spec a b)
  end.

Ltac case_cmps := repeat (case_cmp; try lia).

(** A decidable fact of closed terms. *)
Ltac by_compute := match goal with |- ?P => apply (bool_decide_unpack P); vm_compute; exact I end.

(** Case analysis on [ok e]: [e] is [kOk] or the call failed. *)
Ltac case_ok :=
  match goal with
  | |- context [ok ?e] => destruct (ok_spec e) as [?Hok|?Hok]; [subst e|]
  end.

(** Splits a conjunction of booleans equal to [true]. *)
Ltac split_bool :=
  rewrite ?andb_true_iff, ?orb_false_iff, ?negb_true_iff, ?negb_false_iff in *; destruct_and?.

Create HintDb mai discriminated.
Create Rewrite HintDb zlen.
#[export] Hint Resolve zlen_nonneg wrap_is_u : mai.
#[export] Hint Rewrite @zlen_nil @zlen_cons @zlen_app : zlen.

Lemma StronglySorted_impl {A} (R S : A -> A -> Prop) l :
  (forall a b, R a b -> S a b) -> StronglySorted R l -> StronglySorted S l.
Proof.
  intros H. induction 1 as [|a l _ IH Hl]; constructor; [done|]. eapply Forall_impl; [exact Hl|]. eauto.
Qed.

Lemma filter_none {A} (Q : A -> Prop) `{!forall x, Decision (Q x)} l : Forall (fun x => ~ Q x) l -> filter Q l = [].
Proof. induction 1 as [|x l Hx _ IH]; [done|]. by rewrite filter_cons_False, IH. Qed.

Lemma filter_all {A} (Q : A -> Prop) `{!forall x, Decision (Q x)} l : Forall Q l -> filter Q l = l.
Proof. induction 1 as [|x l Hx _ IH]; [done|]. by rewrite filter_cons_True, IH. Qed.

Lemma Forall_filter {A} (P Q : A -> Prop) `{!forall x, Decision (Q x)} l : Forall P l -> Forall P (filter Q l).
Proof.
  rewrite !Forall_forall. intros Hl x Hx. apply list_elem_of_filter in Hx as [_ Hx]. by apply Hl.
Qed.

Lemma filter_iff_in {A} (P Q : A -> Prop) `{!forall x, Decision (P x), !forall x, Decision (Q x)} (l : list A) :
  (forall x, x ∈ l -> P x <-> Q x) -> filter P l = filter Q l.
Proof.
  induction l as [|x l IH]; intros Hx; [done|]. rewrite !filter_cons, IH by (intros y Hy; apply Hx; by right).
  specialize (Hx x ltac:(by left)). destruct (decide (P x)), (decide (Q x)); tauto.
Qed.

Lemma StronglySorted_map {A C} (f : A -> C) (R : C -> C -> Prop) l :
  StronglySorted (fun a b => R (f a) (f b)) l -> StronglySorted R (map f l).
Proof. induction 1 as [|x l _ IH Hx]; cbn; constructor; [done|]. by apply Forall_map. Qed.

(** A relation that does not depend on the order holds in every order. *)
Lemma StronglySorted_perm {A} (R : A -> A -> Prop) (l k : list A) :
  (forall a b, R a b -> R b a) -> l ≡ₚ k -> StronglySorted R l -> StronglySorted R k.
Proof.
  intros Hsym. induction 1 as [|x l k Hp IH|x y l|l k m _ IH1 _ IH2]; intros Hs; [done | | | by apply IH2, IH1].
  - apply StronglySorted_inv in Hs as [Hs Hx]. constructor; [by apply IH | by rewrite <- Hp].
  - apply StronglySorted_inv in Hs as [Hs Hy]. apply StronglySorted_inv in Hs as [Hs Hx].
    apply Forall_cons in Hy as [Hyx Hy]. repeat (constructor; try done). by apply Hsym.
Qed.

Lemma StronglySorted_and {A} (R S T : A -> A -> Prop) (l : list A) :
  (forall a b, R a b -> S a b -> T a b) -> StronglySorted R l -> StronglySorted S l -> StronglySorted T l.
Proof.
  intros Hi. induction 1 as [|x l _ IH Hx]; intros Hs; [constructor|]. apply StronglySorted_inv in Hs as [Hs Hy].
  constructor; [by apply IH|]. rewrite Forall_forall in *. intros a Ha. by apply Hi; [apply Hx | apply Hy].
Qed.

Lemma StronglySorted_reverse {A} (R : A -> A -> Prop) (l : list A) :
  StronglySorted R l -> StronglySorted (fun a b => R b a) (reverse l).
Proof.
  induction 1 as [|x l _ IH Hx]; [constructor|]. rewrite reverse_cons. apply StronglySorted_app. split_and!.
  - intros a b Ha ->%list_elem_of_singleton. rewrite elem_of_reverse in Ha. rewrite Forall_forall in Hx. by apply Hx.
  - done.
  - repeat constructor.
Qed.

Lemma StronglySorted_sublist {A} (R : A -> A -> Prop) l k : sublist l k -> StronglySorted R k -> StronglySorted R l.
Proof.
  induction 1 as [|x l k H IH|x l k H IH]; intros Hk; [done| |].
  - apply StronglySorted_inv in Hk as [Hk Hx]. constructor; [by apply IH|].
    apply Forall_forall. intros y Hy. rewrite Forall_forall in Hx. apply Hx. by eapply sublist_subseteq.
  - apply StronglySorted_inv in Hk as [Hk _]. by apply IH.
Qed.
