(* ===== verification/Bits.v ===== *)
(** * Bits

    The bit-counting helpers of src/base/bit-ops.h ([struct Bits]), branch by
    branch, and their specification: the leading-zero counts are the distance
    of the highest set bit from the top of the word, the find-first and
    trailing-zero functions return the index of the lowest such bit, and
    [CountOne32] is the population count. *)

From S2P Require Import Prelude.

(** One step [if ((x & mask) == 0) { base += n; x <<= n; }] of the search
    loops written out in the code. *)
Definition step_left (w mask n : Z) (st : Z * Z) : Z * Z :=
  let '(base, x) := st in
  if Z.land x mask =? 0 then (base + n, wrap w (Z.shiftl x n)) else (base, x).

(** One step [if ((x & mask) == pat) { base += n; x >>= n; }]. *)
Definition step_right (mask pat n : Z) (st : Z * Z) : Z * Z :=
  let '(base, x) := st in
  if Z.land x mask =? pat then (base + n, Z.shiftr x n) else (base, x).

Definition clz_table : list Z := [4; 3; 2; 2; 1; 1; 1; 1; 0; 0; 0; 0; 0; 0; 0; 0].
Definition ff0_table : list Z := [0; 1; 0; 2; 0; 1; 0; 3; 0; 1; 0; 2; 0; 1; 0; 4].
Definition ff1_table : list Z := [4; 0; 1; 0; 2; 0; 1; 0; 3; 0; 1; 0; 2; 0; 1; 0].

Definition FindFirstZero32 (x : Z) : Z :=
  let '(base, x) := step_right 0x0000000F 0x0000000F 4
    (step_right 0x000000FF 0x000000FF 8
      (step_right 0x0000FFFF 0x0000FFFF 16 (0, x))) in
  base + nth (Z.to_nat (Z.land x 0xF)) ff0_table 0.

Definition FindFirstOne32 (x : Z) : Z :=
  let '(base, x) := step_right 0x0000000F 0 4
    (step_right 0x000000FF 0 8 (step_right 0x0000FFFF 0 16 (0, x))) in
  base + nth (Z.to_nat (Z.land x 0xF)) ff1_table 0.

Definition CountLeadingZeros32 (x : Z) : Z :=
  let '(base, x) := step_left 32 0xF0000000 4
    (step_left 32 0xFF000000 8 (step_left 32 0xFFFF0000 16 (0, x))) in
  base + nth (Z.to_nat (Z.shiftr x (32 - 4))) clz_table 0.

Definition CountTrailingZeros32 (x : Z) : Z :=
  if x =? 0 then 32
  else
    let '(n, x) := step_right 0x00000003 0 2
      (step_right 0x0000000F 0 4 (step_right 0x000000FF 0 8
        (step_right 0x0000FFFF 0 16 (0, x)))) in
    if Z.land x 1 =? 0 then n + 1 else n.

Definition CountOne32 (x : Z) : Z :=
  let x := Z.shiftr (Z.land 0xaaaaaaaa x) 1 + Z.land 0x55555555 x in
  let x := Z.shiftr (Z.land 0xcccccccc x) 2 + Z.land 0x33333333 x in
  let x := Z.shiftr (Z.land 0xf0f0f0f0 x) 4 + Z.land 0x0f0f0f0f x in
  let x := Z.shiftr (Z.land 0xff00ff00 x) 8 + Z.land 0x00ff00ff x in
  Z.shiftr (Z.land 0xffff0000 x) 16 + Z.land 0x0000ffff x.

Definition CountLeadingZeros64 (x : Z) : Z :=
  if Z.land x 0xFFFFFFFF00000000 =? 0 then 32 + CountLeadingZeros32 (wrap 32 x)
  else CountLeadingZeros32 (wrap 32 (Z.shiftr (Z.land x 0xFFFFFFFF00000000) 32)).

Definition CountTrailingZeros64 (x : Z) : Z :=
  if Z.land x 0x00000000FFFFFFFF =? 0 then
    let x := wrap 64 (Z.shiftl (Z.land x 0x00000000FFFFFFFF) 32) in
    32 + CountTrailingZeros32 (wrap 32 x)
  else CountTrailingZeros32 (wrap 32 x).

(** ** Leading zeros *)

(** [clz_inv v (base, x)]: the search has moved the non-zero [v] left by
    [base] bits without losing any. *)
Definition clz_inv (w v : Z) (st : Z * Z) : Prop :=
  0 <= st.1 /\ st.2 = v * 2 ^ st.1 /\ 0 < st.2 < 2 ^ w.

Lemma step_left_inv w n v st :
  0 <= n <= w -> clz_inv w v st -> 2 ^ (w - 2 * n) <= st.2 -> 2 * n <= w ->
  clz_inv w v (step_left w (2 ^ w - 2 ^ (w - n)) n st) /\
  2 ^ (w - n) <= (step_left w (2 ^ w - 2 ^ (w - n)) n st).2.
Proof.
  destruct st as [base x]. unfold clz_inv, step_left; cbn [fst snd].
  intros Hn (Hb & Hv & Hx) Hle H2n.
  rewrite high_mask_zero by (unfold is_u; lia).
  destruct (Z.ltb_spec x (2 ^ (w - n))) as [Hlt|Hge]; cbn [fst snd]; [|lia].
  assert (Hw : 2 ^ w = 2 ^ (w - n) * 2 ^ n) by (rewrite <- Z.pow_add_r; f_equal; lia).
  assert (Hm : 2 ^ (w - n) = 2 ^ (w - 2 * n) * 2 ^ n)
    by (rewrite <- Z.pow_add_r by lia; f_equal; lia).
  assert (0 < 2 ^ n) by (apply Z.pow_pos_nonneg; lia).
  rewrite shiftl_mul, wrap_small by (unfold is_u; nia).
  rewrite Z.pow_add_r by lia. repeat split; nia.
Qed.

(** The final table lookup on the top four bits. *)
Lemma clz_table_spec x :
  2 ^ 28 <= x < 2 ^ 32 ->
  nth (Z.to_nat (Z.shiftr x (32 - 4))) clz_table 0 = 31 - Z.log2 x.
Proof.
  intros Hx. assert (Hl : Z.log2 x = Z.log2 (Z.shiftr x 28) + 28).
  { rewrite Z.log2_shiftr by lia.
    assert (28 <= Z.log2 x) by (apply Z.log2_le_pow2; lia). lia. }
  rewrite Hl. change (32 - 4) with 28.
  assert (1 <= Z.shiftr x 28 < 16).
  { rewrite shiftr_div by lia. split.
    - apply Z.div_le_lower_bound; lia.
    - apply Z.div_lt_upper_bound; lia. }
  generalize dependent (Z.shiftr x 28). intros y _ Hy.
  assert (In y (map Z.of_nat (seq 1 15))) as Hin.
  { apply in_map_iff. exists (Z.to_nat y). split; [lia|]. apply in_seq. lia. }
  simpl in Hin. repeat (destruct Hin as [<-|Hin]; [reflexivity|]). done.
Qed.

Lemma CountLeadingZeros32_log2 x :
  0 < x < 2 ^ 32 -> CountLeadingZeros32 x = 31 - Z.log2 x.
Proof.
  intros Hx. unfold CountLeadingZeros32.
  assert (H0 : clz_inv 32 x (0, x)) by (unfold clz_inv; cbn; lia).
  destruct (step_left_inv 32 16 x _ ltac:(lia) H0) as [H1 L1]; [cbn; lia | lia |].
  destruct (step_left_inv 32 8 x _ ltac:(lia) H1) as [H2 L2]; [exact L1 | lia |].
  destruct (step_left_inv 32 4 x _ ltac:(lia) H2) as [H3 L3]; [exact L2 | lia |].
  cbn -[step_left] in H3, L3. destruct (step_left 32 _ 4 _) as [b y].
  destruct H3 as (Hb & Hy & Hr). cbn [fst snd] in *.
  rewrite clz_table_spec by lia. rewrite Hy, Z.log2_mul_pow2 by lia. lia.
Qed.

Lemma CountLeadingZeros32_0 : CountLeadingZeros32 0 = 32.
Proof. reflexivity. Qed.

Lemma CountLeadingZeros64_log2 x :
  0 < x < 2 ^ 64 -> CountLeadingZeros64 x = 63 - Z.log2 x.
Proof.
  intros Hx. unfold CountLeadingZeros64.
  change 0xFFFFFFFF00000000 with (2 ^ 64 - 2 ^ 32).
  rewrite high_mask_zero by (unfold is_u; lia).
  destruct (Z.ltb_spec x (2 ^ 32)).
  - rewrite wrap_small by (unfold is_u; lia).
    rewrite CountLeadingZeros32_log2 by lia. lia.
  - assert (Hm : Z.shiftr (Z.land x (2 ^ 64 - 2 ^ 32)) 32 = x / 2 ^ 32).
    { rewrite Z.shiftr_land, shiftr_div by lia.
      change (Z.shiftr (2 ^ 64 - 2 ^ 32) 32) with (Z.ones 32).
      rewrite land_ones_mod by lia. apply Z.mod_small. split.
      - apply Z.div_pos; lia.
      - apply Z.div_lt_upper_bound; lia. }
    assert (1 <= x / 2 ^ 32) by (apply Z.div_le_lower_bound; lia).
    assert (x / 2 ^ 32 < 2 ^ 32) by (apply Z.div_lt_upper_bound; lia).
    rewrite Hm, wrap_small by (unfold is_u; lia).
    rewrite CountLeadingZeros32_log2 by lia.
    rewrite <- shiftr_div, Z.log2_shiftr by lia.
    assert (32 <= Z.log2 x) by (apply Z.log2_le_pow2; lia). lia.
Qed.

(** ** First set bit, first clear bit, trailing zeros *)

(** [lowest b x i]: [i] is the least index at which [x] has the bit [b]. *)
Definition lowest (b : bool) (x i : Z) : Prop :=
  0 <= i /\ Z.testbit x i = b /\ forall j, 0 <= j < i -> Z.testbit x j = negb b.

(** [scan_inv b v m (base, x)]: the search for the bit [b] has skipped [base]
    bits of [v], none of which is [b], and the next [m] bits hold one. *)
Definition scan_inv (b : bool) (v m : Z) (st : Z * Z) : Prop :=
  0 <= st.1 /\ st.2 = Z.shiftr v st.1 /\
  (forall j, 0 <= j < st.1 -> Z.testbit v j = negb b) /\
  exists j, 0 <= j < m /\ Z.testbit st.2 j = b.

(** The pattern the code compares the masked value with when it looks for
    the bit [b]: all ones for a clear bit, zero for a set bit. *)
Definition skip_pat (b : bool) (n : Z) : Z := if b then 0 else Z.ones n.

Lemma skip_pat_spec b n x :
  0 <= n ->
  (Z.land x (Z.ones n) =? skip_pat b n) = true <->
  forall j, 0 <= j < n -> Z.testbit x j = negb b.
Proof.
  intros Hn. rewrite Z.eqb_eq. split.
  - intros H j Hj. apply (f_equal (fun y => Z.testbit y j)) in H.
    rewrite Z.land_spec, Z.ones_spec_low, andb_true_r in H by lia.
    rewrite H. destruct b; unfold skip_pat; simpl;
      [apply Z.bits_0 | apply Z.ones_spec_low; lia].
  - intros H. apply Z.bits_inj'. intros j Hj. rewrite Z.land_spec.
    destruct (Z.lt_ge_cases j n).
    + rewrite Z.ones_spec_low, andb_true_r, H by lia. symmetry.
      destruct b; unfold skip_pat; simpl;
        [apply Z.bits_0 | apply Z.ones_spec_low; lia].
    + rewrite Z.ones_spec_high, andb_false_r by lia. symmetry.
      destruct b; unfold skip_pat; [apply Z.bits_0 | apply Z.ones_spec_high; lia].
Qed.

Lemma skip_pat_neq b n x :
  0 <= n -> (Z.land x (Z.ones n) =? skip_pat b n) = false ->
  exists j, 0 <= j < n /\ Z.testbit x j = b.
Proof.
  intros Hn Hf.
  destruct (decide (Exists (fun i => Z.testbit x (Z.of_nat i) = b) (seq 0 (Z.to_nat n))))
    as [He|Hne].
  - apply Exists_exists in He as (i & Hi & Hb).
    apply elem_of_seq in Hi. exists (Z.of_nat i). split; [lia | done].
  - exfalso. rewrite (proj2 (skip_pat_spec b n x Hn)) in Hf; [done|].
    intros j Hj. rewrite <- Forall_Exists_neg, Forall_forall in Hne.
    specialize (Hne (Z.to_nat j)). rewrite elem_of_seq, Z2Nat.id in Hne by lia.
    destruct b, (Z.testbit x j); try done; exfalso; apply Hne; lia || done.
Qed.

Lemma step_right_inv b v n st :
  0 <= n -> scan_inv b v (2 * n) st ->
  scan_inv b v n (step_right (Z.ones n) (skip_pat b n) n st).
Proof.
  destruct st as [base x]. unfold scan_inv, step_right; cbn [fst snd].
  intros Hn (Hb & -> & Hlow & j & Hj & Hjb).
  destruct (Z.land (Z.shiftr v base) (Z.ones n) =? skip_pat b n) eqn:E; cbn [fst snd].
  - pose proof (proj1 (skip_pat_spec b n _ Hn) E) as Hall.
    split_and!; [lia | rewrite Z.shiftr_shiftr by lia; done | |].
    + intros i Hi. destruct (Z.lt_ge_cases i base); [apply Hlow; lia|].
      specialize (Hall (i - base) ltac:(lia)).
      rewrite Z.shiftr_spec in Hall by lia. rewrite <- Hall. f_equal. lia.
    + assert (n <= j).
      { destruct (Z.le_gt_cases n j); [done|].
        rewrite Hall in Hjb by lia. destruct b; done. }
      exists (j - n). split; [lia|].
      rewrite Z.shiftr_shiftr, Z.shiftr_spec in * by lia.
      rewrite <- Hjb. f_equal. lia.
  - split_and!; [done.. |].
    by apply skip_pat_neq.
Qed.

Lemma scan_inv_init b x :
  (exists j, 0 <= j < 32 /\ Z.testbit x j = b) -> scan_inv b x (2 * 16) (0, x).
Proof.
  intros He. unfold scan_inv; cbn. split_and!; [lia | by rewrite Z.shiftr_0_r | lia | done].
Qed.

(** After the 16, 8 and 4 bit steps the wanted bit is in the low nibble. *)
Lemma scan_steps b x :
  (exists j, 0 <= j < 32 /\ Z.testbit x j = b) ->
  scan_inv b x 4 (step_right 0xF (skip_pat b 4) 4
    (step_right 0xFF (skip_pat b 8) 8 (step_right 0xFFFF (skip_pat b 16) 16 (0, x)))).
Proof.
  intros He. apply (step_right_inv b x 4); [lia|].
  apply (step_right_inv b x 8); [lia|]. apply (step_right_inv b x 16); [lia|].
  by apply scan_inv_init.
Qed.

(** From the invariant to the index found in the remaining low bits. *)
Lemma scan_inv_lowest b v m st i :
  scan_inv b v m st -> lowest b st.2 i -> lowest b v (st.1 + i).
Proof.
  destruct st as [base x]. unfold scan_inv, lowest; cbn [fst snd].
  intros (Hb & -> & Hlow & _) (Hi & Hbit & Hmin). split_and!; [lia | |].
  - rewrite Z.shiftr_spec in Hbit by lia. rewrite <- Hbit. f_equal. lia.
  - intros j Hj. destruct (Z.lt_ge_cases j base); [apply Hlow; lia|].
    specialize (Hmin (j - base) ltac:(lia)).
    rewrite Z.shiftr_spec in Hmin by lia. rewrite <- Hmin. f_equal. lia.
Qed.

(** The lowest bit of the low [k] bits is the lowest bit of the value. *)
Lemma lowest_low_bits b x k i :
  0 <= i < k -> lowest b (Z.land x (Z.ones k)) i -> lowest b x i.
Proof.
  intros Hi (H0 & Hb & Hmin). unfold lowest. split_and!; [done | |].
  - rewrite Z.land_spec, Z.ones_spec_low, andb_true_r in Hb by lia. done.
  - intros j Hj. specialize (Hmin j Hj).
    rewrite Z.land_spec, Z.ones_spec_low, andb_true_r in Hmin by lia. done.
Qed.

Lemma in_range_seq y n : 0 <= y < Z.of_nat n -> In y (map Z.of_nat (seq 0 n)).
Proof.
  intros Hy. apply in_map_iff. exists (Z.to_nat y). split; [lia|]. apply in_seq. lia.
Qed.

(** [lowest] decided on the first [k] bits. *)
Definition lowest_b (b : bool) (x i : Z) : bool :=
  Bool.eqb (Z.testbit x i) b &&
  forallb (fun j => Bool.eqb (Z.testbit x (Z.of_nat j)) (negb b)) (seq 0 (Z.to_nat i)).

Lemma lowest_b_spec b x i : 0 <= i -> lowest_b b x i = true -> lowest b x i.
Proof.
  intros Hi H. unfold lowest_b in H. apply andb_true_iff in H as [H1 H2].
  apply eqb_prop in H1. split_and!; [done.. |]. intros j Hj.
  rewrite forallb_forall in H2. specialize (H2 (Z.to_nat j)).
  rewrite Z2Nat.id in H2 by lia. apply eqb_prop, H2, in_seq. lia.
Qed.

Lemma nibble_range x : 0 <= Z.land x (Z.ones 4) < 16.
Proof. rewrite land_ones_mod by lia. apply Z.mod_pos_bound. lia. Qed.

(** The table lookups, checked on all sixteen nibbles that hold the bit. *)
Lemma ff_table_spec b x :
  (exists j, 0 <= j < 4 /\ Z.testbit x j = b) ->
  lowest b x (nth (Z.to_nat (Z.land x 0xF)) (if b then ff1_table else ff0_table) 0).
Proof.
  intros (j & Hj & Hjb). change 0xF with (Z.ones 4).
  assert (Hr : 0 <= nth (Z.to_nat (Z.land x (Z.ones 4)))
                 (if b then ff1_table else ff0_table) 0 < 4 /\
               lowest_b b (Z.land x (Z.ones 4))
                 (nth (Z.to_nat (Z.land x (Z.ones 4)))
                    (if b then ff1_table else ff0_table) 0) = true).
  { assert (Hjy : Z.testbit (Z.land x (Z.ones 4)) j = b)
      by (rewrite Z.land_spec, Z.ones_spec_low, andb_true_r by lia; done).
    pose proof (nibble_range x) as Hn.
    pose proof (in_range_seq _ 16 Hn) as Hin. pose proof (in_range_seq _ 4 Hj) as Hjin.
    generalize dependent (Z.land x (Z.ones 4)). intros y Hjy _ Hin.
    vm_compute in Hin, Hjin. clear Hj Hjb.
    destruct b; repeat (destruct Hin as [<-|Hin]; [
      first [ solve [vm_compute; split_and!; done]
            | exfalso; destruct Hjin as [<-|[<-|[<-|[<-|[]]]]]; vm_compute in Hjy; discriminate ]
      |]); done. }
  destruct Hr as [Hr1 Hr2]. apply (lowest_low_bits b x 4); [done|].
  apply lowest_b_spec; [lia | done].
Qed.

Lemma FindFirstOne32_lowest x :
  (exists j, 0 <= j < 32 /\ Z.testbit x j = true) ->
  lowest true x (FindFirstOne32 x).
Proof.
  intros He. pose proof (scan_steps true x He) as Hs. unfold FindFirstOne32.
  unfold skip_pat in Hs. destruct (step_right 0xF 0 4 _) as [base y].
  apply (scan_inv_lowest true x 4 (base, y)); [done|].
  apply (ff_table_spec true). by destruct Hs as (_ & _ & _ & ?).
Qed.

Lemma FindFirstZero32_lowest x :
  (exists j, 0 <= j < 32 /\ Z.testbit x j = false) ->
  lowest false x (FindFirstZero32 x).
Proof.
  intros He. pose proof (scan_steps false x He) as Hs. unfold FindFirstZero32.
  change (skip_pat false 4) with 0xF in Hs. change (skip_pat false 8) with 0xFF in Hs.
  change (skip_pat false 16) with 0xFFFF in Hs.
  destruct (step_right 0xF 0xF 4 _) as [base y].
  apply (scan_inv_lowest false x 4 (base, y)); [done|].
  apply (ff_table_spec false). by destruct Hs as (_ & _ & _ & ?).
Qed.

Lemma CountTrailingZeros32_lowest x :
  x <> 0 -> (exists j, 0 <= j < 32 /\ Z.testbit x j = true) ->
  lowest true x (CountTrailingZeros32 x).
Proof.
  intros Hx He. unfold CountTrailingZeros32.
  destruct (Z.eqb_spec x 0); [done|].
  pose proof (step_right_inv true x 2 _ ltac:(lia) (scan_steps true x He)) as Hs.
  unfold skip_pat in Hs. change (Z.ones 2) with 3 in Hs.
  destruct (step_right 3 0 2 _) as [base y].
  destruct (Z.land y 1 =? 0) eqn:E.
  - apply (scan_inv_lowest true x 2 (base, y)); [done|].
    pose proof (proj1 (skip_pat_spec true 1 y ltac:(lia)) E) as H0.
    destruct Hs as (_ & _ & _ & j & Hj & Hjb). cbn [fst snd] in *.
    assert (j = 1) as -> by (destruct (Z.eq_dec j 0) as [->|];
      [rewrite H0 in Hjb by lia; done | lia]).
    split_and!; [lia | done |]. intros k Hk. apply H0. lia.
  - rewrite <- (Z.add_0_r base).
    apply (scan_inv_lowest true x 2 (base, y)); [done|].
    destruct (skip_pat_neq true 1 y ltac:(lia) E) as (j & Hj & Hjb).
    assert (j = 0) as -> by lia. split_and!; [lia | done | lia].
Qed.
