(* ===== verification/Varint.v ===== *)
(** * Varint

    The variable-length integers of src/base/varint-encoding.{h,cc}: seven
    bits per byte, the most significant group first, the top bit of a byte
    set on every byte but the last.  The encoders are the code's cascade of
    tests and labels; [groups] is the encoding they are meant to compute. *)

From S2P Require Import Prelude Bits.

(** [TEST_OR_SET(c)]: the seven-bit group number [c], stored in a [uint8_t]. *)
Definition TEST_OR_SET (v c : Z) : Z :=
  wrap 8 (Z.shiftr (Z.land v (Z.shiftl 0x7f (c * 7))) (c * 7)).

(** The labels of [Encode]: [b] is the byte set before the jump; each label
    stores it with the continuation bit and falls into the next one. *)
Definition bit_07 (v b : Z) : bytes := [Z.lor b 0x80; TEST_OR_SET v 0].
Definition bit_14 (v b : Z) : bytes := Z.lor b 0x80 :: bit_07 v (TEST_OR_SET v 1).
Definition bit_21 (v b : Z) : bytes := Z.lor b 0x80 :: bit_14 v (TEST_OR_SET v 2).
Definition bit_28 (v b : Z) : bytes := Z.lor b 0x80 :: bit_21 v (TEST_OR_SET v 3).
Definition bit_35 (v b : Z) : bytes := Z.lor b 0x80 :: bit_28 v (TEST_OR_SET v 4).
Definition bit_42 (v b : Z) : bytes := Z.lor b 0x80 :: bit_35 v (TEST_OR_SET v 5).
Definition bit_49 (v b : Z) : bytes := Z.lor b 0x80 :: bit_42 v (TEST_OR_SET v 6).
Definition bit_56 (v b : Z) : bytes := Z.lor b 0x80 :: bit_49 v (TEST_OR_SET v 7).
Definition bit_63 (v b : Z) : bytes := Z.lor b 0x80 :: bit_56 v (TEST_OR_SET v 8).

(** [Varint32::Encode]. *)
Definition Encode32 (v : Z) : bytes :=
  let b4 := wrap 8 (Z.shiftr (Z.land v (Z.shiftl 0xF 28)) 28) in
  if negb (b4 =? 0) then bit_28 v b4
  else if negb (TEST_OR_SET v 3 =? 0) then bit_21 v (TEST_OR_SET v 3)
  else if negb (TEST_OR_SET v 2 =? 0) then bit_14 v (TEST_OR_SET v 2)
  else if negb (TEST_OR_SET v 1 =? 0) then bit_07 v (TEST_OR_SET v 1)
  else [TEST_OR_SET v 0].

(** [Varint64::Encode]: three guarded blocks, each of which may fall through. *)
Definition Encode64 (v : Z) : bytes :=
  let low :=
    if negb (Z.land v 0xFFFFF80 =? 0) then
      if negb (TEST_OR_SET v 3 =? 0) then bit_21 v (TEST_OR_SET v 3)
      else if negb (TEST_OR_SET v 2 =? 0) then bit_14 v (TEST_OR_SET v 2)
      else if negb (TEST_OR_SET v 1 =? 0) then bit_07 v (TEST_OR_SET v 1)
      else [TEST_OR_SET v 0]
    else [TEST_OR_SET v 0] in
  let mid :=
    if negb (Z.land v 0x1FFFFF0000000 =? 0) then
      if negb (TEST_OR_SET v 6 =? 0) then bit_42 v (TEST_OR_SET v 6)
      else if negb (TEST_OR_SET v 5 =? 0) then bit_35 v (TEST_OR_SET v 5)
      else if negb (TEST_OR_SET v 4 =? 0) then bit_28 v (TEST_OR_SET v 4)
      else low
    else low in
  if negb (Z.land v 0xFFFE000000000000 =? 0) then
    let b9 := wrap 8 (Z.shiftr (Z.land v (Z.shiftl 0x1 63)) 63) in
    if negb (b9 =? 0) then bit_63 v b9
    else if negb (TEST_OR_SET v 8 =? 0) then bit_56 v (TEST_OR_SET v 8)
    else if negb (TEST_OR_SET v 7 =? 0) then bit_49 v (TEST_OR_SET v 7)
    else mid
  else mid.

(** [Varint64::Decode]: the value and the number of bytes read; [None] when
    the buffer ends before a byte without the continuation bit (the code
    would read past it). *)
Fixpoint decode_loop (out i : Z) (s : bytes) : option (Z * Z) :=
  match s with
  | [] => None
  | b :: s =>
    if 0x80 <=? b then
      decode_loop (wrap 64 (Z.shiftl (Z.lor out (Z.land b 0x7f)) 7)) (i + 1) s
    else Some (Z.lor out b, i + 1)
  end.

Definition Decode64 (s : bytes) : option (Z * Z) := decode_loop 0 0 s.

(** [Varint32::Decode]: the 64-bit decoder truncated. *)
Definition Decode32 (s : bytes) : option (Z * Z) :=
  '(v, n) ← Decode64 s; Some (wrap 32 v, n).

Definition Sizeof64 (v : Z) : Z :=
  if v =? 0 then 1 else (64 - CountLeadingZeros64 v + 6) / 7.

Definition Sizeof32 (v : Z) : Z :=
  if v =? 0 then 1 else (32 - CountLeadingZeros32 v + 6) / 7.

Definition kMaxLen64 : Z := 10.
Definition kMaxLen32 : Z := 5.

(** ** Reference encoding *)

(** The [k] low seven-bit groups of [v], most significant first. *)
Fixpoint groups (k : nat) (v : Z) : bytes :=
  match k with
  | O => []
  | S O => [v mod 128]
  | S k' => (128 + v / 128 ^ Z.of_nat k' mod 128) :: groups k' v
  end.

Lemma TEST_OR_SET_div v c : 0 <= c -> TEST_OR_SET v c = v / 128 ^ c mod 128.
Proof.
  intros Hc. unfold TEST_OR_SET. rewrite Z.shiftr_land.
  rewrite Z.shiftr_shiftl_l, Z.sub_diag, Z.shiftl_0_r by lia.
  change 0x7f with (Z.ones 7). rewrite land_ones_mod, shiftr_div by lia.
  rewrite (Z.mul_comm c), Z.pow_mul_r by lia. change (2 ^ 7) with 128.
  apply wrap_small. unfold is_u. pose proof (Z.mod_pos_bound (v / 128 ^ c) 128). lia.
Qed.

Lemma lor_0x80 b : 0 <= b < 128 -> Z.lor b 0x80 = 128 + b.
Proof.
  intros. rewrite Z.lor_comm. change 0x80 with (1 * 2 ^ 7). by rewrite lor_disjoint.
Qed.

Lemma mod128_bound x : 0 <= x mod 128 < 128.
Proof. apply Z.mod_pos_bound. lia. Qed.

Lemma length_groups k v : length (groups k v) = k.
Proof. induction k as [|[|k] IH]; simpl in *; lia. Qed.

Lemma groups_S k v :
  groups (S (S k)) v = (128 + v / 128 ^ Z.of_nat (S k) mod 128) :: groups (S k) v.
Proof. reflexivity. Qed.

(** Each label writes the groups below the byte already in [b]. *)
Ltac label_step :=
  rewrite lor_0x80 by (rewrite ?TEST_OR_SET_div by lia; auto using mod128_bound);
  rewrite TEST_OR_SET_div by lia.

Lemma bit_07_groups v b : 0 <= b < 128 -> bit_07 v b = (128 + b) :: groups 1 v.
Proof. intros. unfold bit_07. label_step. by rewrite Z.pow_0_r, Z.div_1_r. Qed.

Lemma label_groups v b k f g :
  (forall b', 0 <= b' < 128 -> f v b' = (128 + b') :: groups (S k) v) ->
  (forall v' b', g v' b' = Z.lor b' 0x80 :: f v' (TEST_OR_SET v' (Z.of_nat (S k)))) ->
  0 <= b < 128 -> g v b = (128 + b) :: groups (S (S k)) v.
Proof.
  intros Hf Hg Hb. rewrite Hg, lor_0x80, TEST_OR_SET_div by lia.
  by rewrite Hf by apply mod128_bound.
Qed.

Ltac label H k := intros; eapply (label_groups _ _ k); [apply H | reflexivity | done].

Lemma bit_14_groups v b : 0 <= b < 128 -> bit_14 v b = (128 + b) :: groups 2 v.
Proof. label (bit_07_groups v) 0%nat. Qed.
Lemma bit_21_groups v b : 0 <= b < 128 -> bit_21 v b = (128 + b) :: groups 3 v.
Proof. label (bit_14_groups v) 1%nat. Qed.
Lemma bit_28_groups v b : 0 <= b < 128 -> bit_28 v b = (128 + b) :: groups 4 v.
Proof. label (bit_21_groups v) 2%nat. Qed.
Lemma bit_35_groups v b : 0 <= b < 128 -> bit_35 v b = (128 + b) :: groups 5 v.
Proof. label (bit_28_groups v) 3%nat. Qed.
Lemma bit_42_groups v b : 0 <= b < 128 -> bit_42 v b = (128 + b) :: groups 6 v.
Proof. label (bit_35_groups v) 4%nat. Qed.
Lemma bit_49_groups v b : 0 <= b < 128 -> bit_49 v b = (128 + b) :: groups 7 v.
Proof. label (bit_42_groups v) 5%nat. Qed.
Lemma bit_56_groups v b : 0 <= b < 128 -> bit_56 v b = (128 + b) :: groups 8 v.
Proof. label (bit_49_groups v) 6%nat. Qed.
Lemma bit_63_groups v b : 0 <= b < 128 -> bit_63 v b = (128 + b) :: groups 9 v.
Proof. label (bit_56_groups v) 7%nat. Qed.

(** The number of groups of the minimal encoding. *)
Definition n_groups (v : Z) : Z := if v =? 0 then 1 else Z.log2 v / 7 + 1.

Lemma n_groups_range v c :
  0 <= c -> 128 ^ c <= v < 128 ^ (c + 1) -> n_groups v = c + 1.
Proof.
  intros Hc Hv. assert (0 < 128 ^ c) by (apply Z.pow_pos_nonneg; lia).
  unfold n_groups. destruct (Z.eqb_spec v 0); [lia|]. f_equal.
  change 128 with (2 ^ 7) in Hv. rewrite <- !Z.pow_mul_r in Hv by lia.
  assert (7 * c <= Z.log2 v) by (apply Z.log2_le_pow2; lia).
  assert (Z.log2 v < 7 * (c + 1)) by (apply Z.log2_lt_pow2; lia).
  symmetry. apply Z.div_unique with (Z.log2 v - 7 * c); lia.
Qed.

Lemma group_top v c :
  0 <= c -> 128 ^ c <= v < 128 ^ (c + 1) ->
  1 <= v / 128 ^ c < 128 /\ TEST_OR_SET v c = v / 128 ^ c.
Proof.
  intros Hc Hv. assert (0 < 128 ^ c) by (apply Z.pow_pos_nonneg; lia).
  rewrite Z.pow_add_r in Hv by lia. change (128 ^ 1) with 128 in Hv.
  assert (1 <= v / 128 ^ c < 128) as Hr.
  { split; [apply Z.div_le_lower_bound; lia | apply Z.div_lt_upper_bound; lia]. }
  split; [done|]. rewrite TEST_OR_SET_div, Z.mod_small by lia. done.
Qed.

Lemma group_zero v c : 0 <= c -> 0 <= v < 128 ^ c -> TEST_OR_SET v c = 0.
Proof.
  intros Hc Hv. rewrite TEST_OR_SET_div, Z.div_small by lia. reflexivity.
Qed.

(** The jump taken at group [c]: its label writes all the groups. *)
Lemma jump_groups v c (f : Z -> Z -> bytes) :
  0 < c -> 128 ^ c <= v < 128 ^ (c + 1) ->
  (forall b, 0 <= b < 128 -> f v b = (128 + b) :: groups (Z.to_nat c) v) ->
  f v (TEST_OR_SET v c) = groups (Z.to_nat (n_groups v)) v.
Proof.
  intros Hc Hv Hf. destruct (group_top v c ltac:(lia) Hv) as [Hb He].
  rewrite He, Hf, (n_groups_range v c) by lia.
  destruct (Z.to_nat c) as [|k] eqn:Ek; [lia|].
  replace (Z.to_nat (c + 1)) with (S (S k)) by lia.
  rewrite groups_S. do 2 f_equal. replace (Z.of_nat (S k)) with c by lia.
  symmetry. by apply Z.mod_small; lia.
Qed.

Ltac jump c H :=
  rewrite (proj2 (Z.eqb_neq (TEST_OR_SET _ c) 0))
    by (match goal with |- TEST_OR_SET ?v _ <> _ =>
          let G := fresh in pose proof (group_top v c ltac:(lia) ltac:(lia)) as G; lia end);
  cbn [negb]; apply (jump_groups _ c); [lia | lia | apply H].

Ltac skip c := rewrite (group_zero _ c), Z.eqb_refl by lia; cbn [negb].

Lemma single_group v :
  0 <= v < 128 -> [TEST_OR_SET v 0] = groups (Z.to_nat (n_groups v)) v.
Proof.
  intros Hv. rewrite TEST_OR_SET_div by lia.
  assert (n_groups v = 1) as ->.
  { destruct (Z.eq_dec v 0) as [->|]; [done|]. apply (n_groups_range v 0); lia. }
  cbn. by rewrite Z.div_1_r.
Qed.

(** The lowest block, shared by the two encoders. *)
Lemma low_block v :
  0 <= v < 128 ^ 4 ->
  (if negb (TEST_OR_SET v 3 =? 0) then bit_21 v (TEST_OR_SET v 3)
   else if negb (TEST_OR_SET v 2 =? 0) then bit_14 v (TEST_OR_SET v 2)
   else if negb (TEST_OR_SET v 1 =? 0) then bit_07 v (TEST_OR_SET v 1)
   else [TEST_OR_SET v 0]) = groups (Z.to_nat (n_groups v)) v.
Proof.
  intros Hv.
  destruct (Z.lt_ge_cases v (128 ^ 3)); [skip 3 | jump 3 bit_21_groups].
  destruct (Z.lt_ge_cases v (128 ^ 2)); [skip 2 | jump 2 bit_14_groups].
  destruct (Z.lt_ge_cases v (128 ^ 1)); [skip 1 | jump 1 bit_07_groups].
  apply single_group. lia.
Qed.

Lemma top_bits v w k :
  0 <= k < w -> is_u w v ->
  wrap 8 (Z.shiftr (Z.land v (Z.shiftl (Z.ones (w - k)) k)) k) = wrap 8 (v / 2 ^ k).
Proof.
  intros Hk Hv. unfold is_u in Hv. f_equal. rewrite Z.shiftr_land.
  rewrite Z.shiftr_shiftl_l, Z.sub_diag, Z.shiftl_0_r, land_ones_mod, shiftr_div by lia.
  apply Z.mod_small. split; [apply Z.div_pos; lia|].
  apply Z.div_lt_upper_bound; [lia|]. rewrite <- Z.pow_add_r by lia.
  replace (k + (w - k)) with w by lia. lia.
Qed.

Lemma Encode32_groups v : is_u 32 v -> Encode32 v = groups (Z.to_nat (n_groups v)) v.
Proof.
  intros Hv. unfold Encode32. pose proof (top_bits v 32 28 ltac:(lia) Hv) as Ht.
  change (Z.ones (32 - 28)) with 0xF in Ht. rewrite Ht. clear Ht.
  unfold is_u in Hv. change (2 ^ 28) with (128 ^ 4).
  destruct (Z.lt_ge_cases v (128 ^ 4)).
  - rewrite Z.div_small by lia. apply low_block. lia.
  - destruct (group_top v 4 ltac:(lia) ltac:(lia)) as [Hb He].
    rewrite wrap_small by (unfold is_u; lia).
    destruct (Z.eqb_spec (v / 128 ^ 4) 0); [lia|]. cbn [negb]. rewrite <- He.
    apply (jump_groups _ 4); [lia | lia | apply bit_28_groups].
Qed.

Lemma Encode64_groups v : is_u 64 v -> Encode64 v = groups (Z.to_nat (n_groups v)) v.
Proof.
  intros Hv. unfold Encode64.
  change 0xFFFE000000000000 with (2 ^ 64 - 2 ^ 49). rewrite high_mask_zero by (done || lia).
  pose proof (top_bits v 64 63 ltac:(lia) Hv) as Ht.
  change (Z.ones (64 - 63)) with 1 in Ht. rewrite Ht. clear Ht.
  unfold is_u in Hv. change (2 ^ 63) with (128 ^ 9).
  destruct (Z.ltb_spec v (2 ^ 49)) as [Hlt|Hge]; cbn [negb].
  - change 0x1FFFFF0000000 with (2 ^ 49 - 2 ^ 28). rewrite high_mask_zero by (unfold is_u; lia).
    destruct (Z.ltb_spec v (2 ^ 28)) as [Hlt2|Hge2]; cbn [negb].
    + change 0xFFFFF80 with (2 ^ 28 - 2 ^ 7). rewrite high_mask_zero by (unfold is_u; lia).
      destruct (Z.ltb_spec v (2 ^ 7)); cbn [negb];
        [apply single_group; lia | apply low_block; lia].
    + destruct (Z.lt_ge_cases v (128 ^ 6)); [skip 6 | jump 6 bit_42_groups].
      destruct (Z.lt_ge_cases v (128 ^ 5)); [skip 5 | jump 5 bit_35_groups].
      jump 4 bit_28_groups.
  - destruct (Z.lt_ge_cases v (128 ^ 9)).
    + rewrite Z.div_small by lia. cbn [negb Z.eqb wrap].
      change (wrap 8 0 =? 0) with true. cbn [negb].
      destruct (Z.lt_ge_cases v (128 ^ 8)); [skip 8 | jump 8 bit_56_groups].
      jump 7 bit_49_groups.
    + destruct (group_top v 9 ltac:(lia) ltac:(lia)) as [Hb He].
      rewrite wrap_small by (unfold is_u; lia).
      destruct (Z.eqb_spec (v / 128 ^ 9) 0); [lia|]. cbn [negb]. rewrite <- He.
      apply (jump_groups _ 9); [lia | lia | apply bit_63_groups].
Qed.

(** ** Decoding *)

Lemma lor_128 q r : 0 <= r < 128 -> Z.lor (q * 128) r = q * 128 + r.
Proof. intros. change 128 with (2 ^ 7). by apply lor_disjoint. Qed.

Lemma land_0x7f r : 0 <= r < 128 -> Z.land (128 + r) 0x7f = r.
Proof.
  intros. change 0x7f with (Z.ones 7). rewrite land_ones_mod by lia.
  symmetry. apply Z.mod_unique with 1; lia.
Qed.

Lemma decode_groups k v i rest :
  0 <= v < 2 ^ 64 ->
  decode_loop (v / 128 ^ Z.of_nat (S k) * 128) i (groups (S k) v ++ rest) =
  Some (v, i + Z.of_nat (S k)).
Proof.
  intros Hv. revert i. induction k as [|k IH]; intros i.
  - cbn [groups app decode_loop]. change (Z.of_nat 1) with 1. rewrite Z.pow_1_r.
    pose proof (mod128_bound v). destruct (Z.leb_spec 128 (v mod 128)); [lia|].
    rewrite lor_128 by lia.
    do 2 f_equal. pose proof (Z.div_mod v 128). lia.
  - rewrite groups_S. cbn [app decode_loop].
    set (q := v / 128 ^ Z.of_nat (S k)).
    assert (Hq : v / 128 ^ Z.of_nat (S (S k)) = q / 128).
    { unfold q. rewrite Z.div_div by (try apply Z.pow_nonzero; lia). f_equal.
      rewrite (Nat2Z.inj_succ (S k)), Z.pow_succ_r by lia. lia. }
    rewrite Hq. pose proof (mod128_bound q) as Hm.
    destruct (Z.leb_spec 128 (128 + q mod 128)); [|lia].
    rewrite land_0x7f, lor_128 by lia.
    assert (q / 128 * 128 + q mod 128 = q) as -> by (pose proof (Z.div_mod q 128); lia).
    assert (Hqv : 0 <= q * 128 <= v).
    { assert (128 <= 128 ^ Z.of_nat (S k)).
      { rewrite <- (Z.pow_1_r 128) at 1. apply Z.pow_le_mono_r; lia. }
      pose proof (Z.mul_div_le v (128 ^ Z.of_nat (S k)) ltac:(lia)).
      assert (0 <= q) by (apply Z.div_pos; lia). unfold q in *. nia. }
    rewrite shiftl_mul, wrap_small by (unfold is_u; lia). change (2 ^ 7) with 128.
    rewrite IH. f_equal. f_equal. lia.
Qed.

Lemma n_groups_pos v : 0 <= v -> 1 <= n_groups v.
Proof.
  intros. unfold n_groups. destruct (Z.eqb_spec v 0); [lia|].
  pose proof (Z.log2_nonneg v). assert (0 <= Z.log2 v / 7) by (apply Z.div_pos; lia). lia.
Qed.

Lemma n_groups_enough v : 0 <= v -> v < 128 ^ n_groups v.
Proof.
  intros Hv. unfold n_groups. destruct (Z.eqb_spec v 0); [subst; reflexivity|].
  change 128 with (2 ^ 7). rewrite <- Z.pow_mul_r; [| lia |].
  - apply Z.log2_lt_pow2; [lia|].
    pose proof (Z.div_mod (Z.log2 v) 7). pose proof (Z.mod_pos_bound (Z.log2 v) 7). lia.
  - pose proof (Z.log2_nonneg v). assert (0 <= Z.log2 v / 7) by (apply Z.div_pos; lia). lia.
Qed.

Lemma n_groups_bound w v : is_u w v -> 1 <= w -> n_groups v <= (w - 1) / 7 + 1.
Proof.
  unfold is_u. intros Hv Hw. unfold n_groups. destruct (Z.eqb_spec v 0).
  - assert (0 <= (w - 1) / 7) by (apply Z.div_pos; lia). lia.
  - assert (Z.log2 v < w) by (apply Z.log2_lt_pow2; lia).
    assert (Z.log2 v / 7 <= (w - 1) / 7) by (apply Z.div_le_mono; lia). lia.
Qed.

Lemma Sizeof64_groups v : is_u 64 v -> Sizeof64 v = n_groups v.
Proof.
  unfold is_u. intros Hv. unfold Sizeof64, n_groups. destruct (Z.eqb_spec v 0); [done|].
  rewrite CountLeadingZeros64_log2 by lia.
  replace (64 - (63 - Z.log2 v) + 6) with (Z.log2 v + 1 * 7) by lia.
  rewrite Z.div_add by lia. done.
Qed.

Lemma Sizeof32_groups v : is_u 32 v -> Sizeof32 v = n_groups v.
Proof.
  unfold is_u. intros Hv. unfold Sizeof32, n_groups. destruct (Z.eqb_spec v 0); [done|].
  rewrite CountLeadingZeros32_log2 by lia.
  replace (32 - (31 - Z.log2 v) + 6) with (Z.log2 v + 1 * 7) by lia.
  rewrite Z.div_add by lia. done.
Qed.

Lemma zlen_groups v : 0 <= v -> zlen (groups (Z.to_nat (n_groups v)) v) = n_groups v.
Proof. intros. pose proof (n_groups_pos v). unfold zlen. rewrite length_groups. lia. Qed.

Lemma zlen_Encode64 v : is_u 64 v -> zlen (Encode64 v) = n_groups v.
Proof. intros H. rewrite Encode64_groups, zlen_groups by (done || apply H). done. Qed.

Lemma zlen_Encode32 v : is_u 32 v -> zlen (Encode32 v) = n_groups v.
Proof. intros H. rewrite Encode32_groups, zlen_groups by (done || apply H). done. Qed.

Lemma is_u_32_64 v : is_u 32 v -> is_u 64 v.
Proof. unfold is_u. lia. Qed.

(** The two encoders agree on 32-bit values. *)
Lemma Encode32_64 v : is_u 32 v -> Encode32 v = Encode64 v.
Proof. intros. by rewrite Encode32_groups, Encode64_groups by auto using is_u_32_64. Qed.

Lemma Decode64_Encode64 v rest :
  is_u 64 v -> Decode64 (Encode64 v ++ rest) = Some (v, zlen (Encode64 v)).
Proof.
  intros Hv. pose proof Hv as [H0 H1].
  rewrite zlen_Encode64, Encode64_groups by done.
  pose proof (n_groups_pos v H0). pose proof (n_groups_enough v H0).
  destruct (Z.to_nat (n_groups v)) as [|k] eqn:Ek; [lia|].
  assert (Z.of_nat (S k) = n_groups v) as Hk by lia.
  pose proof (decode_groups k v 0 rest ltac:(lia)) as Hd.
  rewrite Hk, Z.div_small in Hd by lia. exact Hd.
Qed.

Lemma Decode32_Encode32 v rest :
  is_u 32 v -> Decode32 (Encode32 v ++ rest) = Some (v, zlen (Encode32 v)).
Proof.
  intros Hv. rewrite Encode32_64 by done. unfold Decode32.
  rewrite Decode64_Encode64 by auto using is_u_32_64. simpl. by rewrite wrap_small.
Qed.

Lemma Encode64_some v : Encode64 v <> [].
Proof.
  unfold Encode64. destruct (negb (Z.land v 0xFFFFF80 =? 0)); repeat case_match;
    intros E; repeat apply app_eq_nil in E as [? E]; done.
Qed.

Lemma Encode64_not_nil v : is_u 64 v -> Encode64 v <> [].
Proof.
  intros Hv He. pose proof (zlen_Encode64 v Hv) as Hl. rewrite He, zlen_nil in Hl.
  pose proof (n_groups_pos v (proj1 Hv)). lia.
Qed.

Lemma byte_str_groups k v : byte_str (groups k v).
Proof.
  unfold byte_str, is_byte, is_u. induction k as [|[|k] IH]; [constructor | |].
  - constructor; [|done]. pose proof (mod128_bound v). lia.
  - rewrite groups_S. constructor; [|done].
    pose proof (mod128_bound (v / 128 ^ Z.of_nat (S k))). lia.
Qed.

#[export] Hint Resolve is_u_32_64 Encode64_not_nil : mai.

#[global] Arguments Encode32 : simpl never.
#[global] Arguments Encode64 : simpl never.
#[global] Arguments Decode32 : simpl never.
#[global] Arguments Decode64 : simpl never.

(** ** Properties *)

(** Decoding what either encoder wrote gives the value back and consumes
    exactly the bytes written, whatever follows them. *)
Theorem varint_roundtrip v rest :
  is_u 64 v ->
  Decode64 (Encode64 v ++ rest) = Some (v, zlen (Encode64 v)) /\
  (is_u 32 v -> Decode32 (Encode32 v ++ rest) = Some (v, zlen (Encode32 v))).
Proof. split; [by apply Decode64_Encode64 | by apply Decode32_Encode32]. Qed.

Lemma varint_roundtrip_witness :
  Decode64 (Encode64 624485 ++ [7]) = Some (624485, zlen (Encode64 624485)) /\
  (is_u 32 624485 ->
   Decode32 (Encode32 624485 ++ [7]) = Some (624485, zlen (Encode32 624485))).
Proof. apply varint_roundtrip. unfold is_u. lia. Defined.

(** The cascades of tests and labels of both encoders write the minimal
    base-128 encoding, most significant group first with the continuation bit
    on every byte but the last; [Sizeof] is its length, and it fits the
    [kMaxLen] bytes the callers allocate. *)
Theorem varint_canonical v :
  is_u 64 v ->
  Encode64 v = groups (Z.to_nat (Sizeof64 v)) v /\
  zlen (Encode64 v) = Sizeof64 v /\ 1 <= Sizeof64 v <= kMaxLen64 /\
  (is_u 32 v ->
    Encode32 v = Encode64 v /\ Sizeof32 v = Sizeof64 v /\ Sizeof32 v <= kMaxLen32).
Proof.
  intros Hv. pose proof (n_groups_pos v (proj1 Hv)).
  pose proof (n_groups_bound 64 v Hv ltac:(lia)) as Hb. change ((64 - 1) / 7) with 9 in Hb.
  rewrite Sizeof64_groups by done. unfold kMaxLen64, kMaxLen32. split_and!; [| | lia | lia |].
  - by apply Encode64_groups.
  - by apply zlen_Encode64.
  - intros H32. rewrite Encode32_64, Sizeof32_groups by done.
    pose proof (n_groups_bound 32 v H32 ltac:(lia)) as Hb'.
    change ((32 - 1) / 7) with 4 in Hb'. split_and!; [done | done | lia].
Qed.

Lemma varint_canonical_witness :
  Encode64 300 = groups (Z.to_nat (Sizeof64 300)) 300 /\
  zlen (Encode64 300) = Sizeof64 300 /\ 1 <= Sizeof64 300 <= kMaxLen64 /\
  (is_u 32 300 ->
    Encode32 300 = Encode64 300 /\ Sizeof32 300 = Sizeof64 300 /\
    Sizeof32 300 <= kMaxLen32).
Proof. apply varint_canonical. unfold is_u. lia. Defined.
