(* ===== verification/Slice.v ===== *)
(** * Slice

    src/base/slice.h: the fixed-width and variable-length writers, the
    fixed-width readers, and [BufferReader], the cursor with which every
    on-disk structure of the storage engine is decoded.  The host is little
    endian, as the [reinterpret_cast]s of the code require.

    A reader operation is a state transformer on the cursor; it is [None]
    where the code throws ([substr] past the end) or reads outside the
    buffer.  [at_ pre rest] is a cursor that has consumed [pre] and still has
    [rest] ahead; the [_at] lemmas say that each reader undoes its writer. *)

From S2P Require Import Prelude Bits Varint.

(** ** Little-endian words *)

Fixpoint le_bytes (n : nat) (v : Z) : bytes :=
  match n with
  | O => []
  | S n => v mod 256 :: le_bytes n (v / 256)
  end.

Fixpoint le_val (s : bytes) : Z :=
  match s with
  | [] => 0
  | b :: s => b + 256 * le_val s
  end.

Lemma length_le_bytes n v : length (le_bytes n v) = n.
Proof. revert v. induction n; simpl; auto. Qed.

Lemma zlen_le_bytes n v : zlen (le_bytes n v) = Z.of_nat n.
Proof. unfold zlen. by rewrite length_le_bytes. Qed.

Lemma le_val_le_bytes n v : le_val (le_bytes n v) = v mod 256 ^ Z.of_nat n.
Proof.
  revert v. induction n as [|n IH]; intros v.
  - simpl. by rewrite Z.mod_1_r.
  - cbn [le_bytes le_val]. rewrite IH, Nat2Z.inj_succ, Z.pow_succ_r by lia.
    assert (0 < 256 ^ Z.of_nat n) by (apply Z.pow_pos_nonneg; lia).
    rewrite Z.rem_mul_r by lia. lia.
Qed.

Lemma le_bytes_le_val s : byte_str s -> le_bytes (length s) (le_val s) = s.
Proof.
  induction 1 as [|b s Hb _ IH]; [done|]. unfold is_byte, is_u in Hb.
  cbn [length le_bytes le_val]. rewrite (Z.mul_comm 256).
  rewrite Z.mod_add, Z.mod_small, Z.div_add, Z.div_small, Z.add_0_l by lia. by rewrite IH.
Qed.

Lemma byte_str_le_bytes n v : byte_str (le_bytes n v).
Proof.
  revert v. induction n; intros v; constructor; [|apply IHn].
  unfold is_byte, is_u. apply Z.mod_pos_bound. lia.
Qed.

Lemma le_bytes_wrap n v : le_bytes n (v mod 256 ^ Z.of_nat n) = le_bytes n v.
Proof.
  revert v. induction n as [|n IH]; intros v; [done|]. cbn [le_bytes].
  assert (0 < 256 ^ Z.of_nat n) by (apply Z.pow_pos_nonneg; lia).
  rewrite Nat2Z.inj_succ, Z.pow_succ_r by lia. rewrite Z.rem_mul_r by lia.
  f_equal.
  - rewrite (Z.mul_comm 256), Z.mod_add, Z.mod_mod by lia. done.
  - rewrite (Z.mul_comm 256), Z.div_add by lia.
    rewrite (Z.div_small (v mod 256)) by (apply Z.mod_pos_bound; lia). apply IH.
Qed.

(** ** Writers *)

Definition GetByte (v : Z) : bytes := [wrap 8 v].
Definition GetU16 (v : Z) : bytes := le_bytes 2 v.
Definition GetU32 (v : Z) : bytes := le_bytes 4 v.
Definition GetU64 (v : Z) : bytes := le_bytes 8 v.
Definition GetString (s : bytes) : bytes := Encode64 (zlen s) ++ s.
Definition GetPad (n : Z) : bytes := replicate (Z.to_nat n) 0.
Definition GetV32 (v : Z) : bytes := Encode32 v.
Definition GetV64 (v : Z) : bytes := Encode64 v.

Definition WriteFixed32 (buf : bytes) (v : Z) : bytes := buf ++ le_bytes 4 v.
Definition WriteFixed64 (buf : bytes) (v : Z) : bytes := buf ++ le_bytes 8 v.
Definition WriteVarint32 (buf : bytes) (v : Z) : bytes := buf ++ Encode32 v.
Definition WriteVarint64 (buf : bytes) (v : Z) : bytes := buf ++ Encode64 v.
Definition WriteString (buf s : bytes) : bytes := WriteVarint64 buf (zlen s) ++ s.

(** ** Fixed-width readers: the first bytes of the view, [None] when it is
    shorter than the word. *)

Definition SetFixed (n : nat) (s : bytes) : option Z :=
  if (length s <? n)%nat then None else Some (le_val (take n s)).

Definition SetFixed16 (s : bytes) : option Z := SetFixed 2 s.
Definition SetFixed32 (s : bytes) : option Z := SetFixed 4 s.
Definition SetFixed64 (s : bytes) : option Z := SetFixed 8 s.

Lemma SetFixed_le_bytes n v rest :
  SetFixed n (le_bytes n v ++ rest) = Some (v mod 256 ^ Z.of_nat n).
Proof.
  unfold SetFixed. rewrite length_app, length_le_bytes.
  destruct (Nat.ltb_spec (n + length rest) n); [lia|].
  rewrite take_app_length' by (by rewrite length_le_bytes). by rewrite le_val_le_bytes.
Qed.

(** An array of [n] 32-bit words. *)
Fixpoint read_words (n : nat) (s : bytes) : list Z :=
  match n with O => [] | S n => le_val (take 4 s) :: read_words n (drop 4 s) end.

Lemma read_words_GetU32 rs rest :
  Forall (is_u 32) rs -> read_words (length rs) (concat (map GetU32 rs) ++ rest) = rs.
Proof.
  induction 1 as [|r rs Hr _ IH]; [done|]. cbn [length read_words map concat]. unfold GetU32 at 1 3.
  rewrite <- app_assoc, take_app_length', drop_app_length' by (by rewrite length_le_bytes).
  rewrite IH, le_val_le_bytes, Z.mod_small by exact Hr. done.
Qed.

(** ** BufferReader *)

Record BufferReader := { buf_ : bytes; position_ : Z }.

Definition BR (A : Type) : Type := BufferReader -> option (A * BufferReader).

Definition br_ret {A} (x : A) : BR A := fun r => Some (x, r).
Definition br_bind {A B} (m : BR A) (k : A -> BR B) : BR B :=
  fun r => '(x, r') ← m r; k x r'.

Declare Scope br_scope.
Delimit Scope br_scope with br.
Notation "'let!' x ':=' m 'in' k" := (br_bind m (fun x => k))
  (at level 10, x pattern, m at level 100, k at level 200) : br_scope.

(** [position_ += n] on a [size_t]. *)
Definition advance (r : BufferReader) (n : Z) : BufferReader :=
  {| buf_ := buf_ r; position_ := wrap 64 (position_ r + n) |}.

Definition Eof (r : BufferReader) : bool := zlen (buf_ r) <=? position_ r.

Definition Remaining (r : BufferReader) : option bytes :=
  if zlen (buf_ r) <? position_ r then None
  else Some (drop (Z.to_nat (position_ r)) (buf_ r)).

Definition ReadByte : BR Z := fun r =>
  b ← buf_ r !! Z.to_nat (position_ r); Some (b, advance r 1).

Definition ReadFixed (n : nat) : BR Z := fun r =>
  result ← substr (buf_ r) (position_ r) (Z.of_nat n);
  v ← SetFixed n result; Some (v, advance r (Z.of_nat n)).

Definition ReadFixed32 : BR Z := ReadFixed 4.
Definition ReadFixed64 : BR Z := ReadFixed 8.

Definition ReadVarint32 : BR Z := fun r =>
  '(v, n) ← Decode32 (drop (Z.to_nat (position_ r)) (buf_ r)); Some (v, advance r n).

Definition ReadVarint64 : BR Z := fun r =>
  '(v, n) ← Decode64 (drop (Z.to_nat (position_ r)) (buf_ r)); Some (v, advance r n).

(** [ReadString(uint64_t len)]. *)
Definition ReadStringN (len : Z) : BR bytes := fun r =>
  result ← substr (buf_ r) (position_ r) len; Some (result, advance r len).

(** [ReadString()]. *)
Definition ReadString : BR bytes :=
  (let! len := ReadVarint64 in
   if len =? 0 then br_ret [] else ReadStringN len)%br.

Definition at_ (pre rest : bytes) : BufferReader :=
  {| buf_ := pre ++ rest; position_ := zlen pre |}.

(** Every buffer the code handles is smaller than the address space. *)
Definition in_memory (s : bytes) : Prop := zlen s < 2 ^ 64.

Lemma at_app pre s rest : at_ pre (s ++ rest) = {| buf_ := (pre ++ s) ++ rest; position_ := zlen pre |}.
Proof. unfold at_. by rewrite app_assoc. Qed.

Lemma advance_at pre s rest :
  in_memory (pre ++ s ++ rest) ->
  advance (at_ pre (s ++ rest)) (zlen s) = at_ (pre ++ s) rest.
Proof.
  unfold in_memory, advance, at_. rewrite !zlen_app. intros Hm. cbn.
  pose proof (zlen_nonneg pre). pose proof (zlen_nonneg s). pose proof (zlen_nonneg rest).
  rewrite wrap_small by (unfold is_u; lia). by rewrite app_assoc.
Qed.

Lemma drop_at pre rest : drop (Z.to_nat (position_ (at_ pre rest))) (buf_ (at_ pre rest)) = rest.
Proof. cbn. unfold zlen. by rewrite Nat2Z.id, drop_app_length. Qed.

Lemma substr_at pre s rest n :
  n = zlen s -> substr (buf_ (at_ pre (s ++ rest))) (position_ (at_ pre (s ++ rest))) n = Some s.
Proof. intros ->. apply substr_app. Qed.

Lemma Eof_at pre rest : Eof (at_ pre rest) = bool_decide (rest = []).
Proof.
  unfold Eof, at_. cbn. rewrite zlen_app. case_bool_decide as H.
  - subst. rewrite zlen_nil. apply Z.leb_le. lia.
  - apply Z.leb_gt. pose proof (zlen_nonneg rest).
    assert (zlen rest <> 0) by (intros E; apply H, zlen_0, E). lia.
Qed.

Lemma br_bind_Some {A B} (m : BR A) (k : A -> BR B) r x r' :
  m r = Some (x, r') -> br_bind m k r = k x r'.
Proof. unfold br_bind. intros ->. done. Qed.

Lemma ReadByte_at pre b rest :
  in_memory (pre ++ [b] ++ rest) ->
  ReadByte (at_ pre ([b] ++ rest)) = Some (b, at_ (pre ++ [b]) rest).
Proof.
  intros Hm. unfold ReadByte. rewrite <- advance_at by done. cbn. unfold zlen.
  rewrite Nat2Z.id, lookup_app_r, Nat.sub_diag by lia. done.
Qed.

Lemma GetByte_at pre v rest :
  in_memory (pre ++ GetByte v ++ rest) ->
  ReadByte (at_ pre (GetByte v ++ rest)) = Some (wrap 8 v, at_ (pre ++ GetByte v) rest).
Proof. apply ReadByte_at. Qed.

Lemma ReadFixed_at n pre v rest :
  in_memory (pre ++ le_bytes n v ++ rest) ->
  ReadFixed n (at_ pre (le_bytes n v ++ rest)) =
  Some (v mod 256 ^ Z.of_nat n, at_ (pre ++ le_bytes n v) rest).
Proof.
  intros Hm. unfold ReadFixed. rewrite substr_at by (by rewrite zlen_le_bytes). cbn.
  pose proof (SetFixed_le_bytes n v []) as Hs. rewrite app_nil_r in Hs. rewrite Hs. cbn.
  rewrite <- advance_at by done. by rewrite zlen_le_bytes.
Qed.

Lemma ReadFixed32_at pre v rest :
  is_u 32 v -> in_memory (pre ++ GetU32 v ++ rest) ->
  ReadFixed32 (at_ pre (GetU32 v ++ rest)) = Some (v, at_ (pre ++ GetU32 v) rest).
Proof.
  intros Hv Hm. unfold ReadFixed32, GetU32. rewrite ReadFixed_at by done.
  by rewrite Z.mod_small.
Qed.

Lemma ReadFixed64_at pre v rest :
  is_u 64 v -> in_memory (pre ++ GetU64 v ++ rest) ->
  ReadFixed64 (at_ pre (GetU64 v ++ rest)) = Some (v, at_ (pre ++ GetU64 v) rest).
Proof.
  intros Hv Hm. unfold ReadFixed64, GetU64. rewrite ReadFixed_at by done.
  by rewrite Z.mod_small.
Qed.

Lemma ReadVarint64_at pre v rest :
  is_u 64 v -> in_memory (pre ++ GetV64 v ++ rest) ->
  ReadVarint64 (at_ pre (GetV64 v ++ rest)) = Some (v, at_ (pre ++ GetV64 v) rest).
Proof.
  intros Hv Hm. unfold ReadVarint64, GetV64. rewrite drop_at, Decode64_Encode64 by done.
  cbn. by rewrite <- advance_at by done.
Qed.

Lemma ReadVarint32_at pre v rest :
  is_u 32 v -> in_memory (pre ++ GetV32 v ++ rest) ->
  ReadVarint32 (at_ pre (GetV32 v ++ rest)) = Some (v, at_ (pre ++ GetV32 v) rest).
Proof.
  intros Hv Hm. unfold ReadVarint32, GetV32. rewrite drop_at, Decode32_Encode32 by done.
  cbn. by rewrite <- advance_at by done.
Qed.

Lemma ReadStringN_at pre s rest :
  in_memory (pre ++ s ++ rest) ->
  ReadStringN (zlen s) (at_ pre (s ++ rest)) = Some (s, at_ (pre ++ s) rest).
Proof.
  intros Hm. unfold ReadStringN. rewrite substr_at by done. cbn.
  by rewrite advance_at by done.
Qed.

Lemma zlen_is_u s pre rest : in_memory (pre ++ s ++ rest) -> is_u 64 (zlen s).
Proof.
  unfold in_memory, is_u. rewrite !zlen_app. intros.
  pose proof (zlen_nonneg pre). pose proof (zlen_nonneg s). pose proof (zlen_nonneg rest). lia.
Qed.

Lemma in_memory_app_r s t : in_memory (s ++ t) -> in_memory t.
Proof. unfold in_memory. rewrite zlen_app. pose proof (zlen_nonneg s). lia. Qed.

Lemma in_memory_app_l s t : in_memory (s ++ t) -> in_memory s.
Proof. unfold in_memory. rewrite zlen_app. pose proof (zlen_nonneg t). lia. Qed.

Lemma in_memory_is_u s : in_memory s -> is_u 64 (zlen s).
Proof. unfold in_memory, is_u. pose proof (zlen_nonneg s). lia. Qed.

Lemma in_memory_GetString pre s rest :
  in_memory (pre ++ GetString s ++ rest) -> is_u 64 (zlen s).
Proof.
  intros H%in_memory_app_r%in_memory_app_l. unfold GetString in H.
  by apply in_memory_is_u, (in_memory_app_r (Encode64 (zlen s))).
Qed.

Lemma ReadString_at pre s rest :
  in_memory (pre ++ GetString s ++ rest) ->
  ReadString (at_ pre (GetString s ++ rest)) = Some (s, at_ (pre ++ GetString s) rest).
Proof.
  intros Hm. pose proof (in_memory_GetString pre s rest Hm) as Hs.
  unfold ReadString, GetString in *. rewrite <- app_assoc in *.
  erewrite br_bind_Some by (by apply ReadVarint64_at).
  destruct (Z.eqb_spec (zlen s) 0) as [E|].
  - apply zlen_0 in E as ->. cbn. unfold GetV64. by rewrite app_nil_r.
  - rewrite ReadStringN_at by (unfold GetV64; by rewrite <- app_assoc).
    unfold GetV64. by rewrite <- app_assoc.
Qed.

(** ** Filling *)

(** [RoundBytesFill<T>] for [sizeof(T) = k]: whole words first, then the
    first bytes of one more word. *)
Fixpoint fill_words (k rounds : nat) (zag : Z) : bytes :=
  match rounds with
  | O => []
  | S r => le_bytes k zag ++ fill_words k r zag
  end.

Definition RoundBytesFill (k : nat) (zag : Z) (n : Z) : bytes :=
  let rounds := Z.to_nat (n / Z.of_nat k) in
  let rest := Z.to_nat (n mod Z.of_nat k) in
  fill_words k rounds zag ++ take rest (le_bytes k zag).

Definition Round16BytesFill := RoundBytesFill 2.
Definition Round32BytesFill := RoundBytesFill 4.
Definition Round64BytesFill := RoundBytesFill 8.

Lemma length_fill_words k r zag : length (fill_words k r zag) = (r * k)%nat.
Proof. induction r; simpl; rewrite ?length_app, ?length_le_bytes; lia. Qed.

Lemma lookup_fill_words k r zag i :
  (i < r * k)%nat -> fill_words k r zag !! i = le_bytes k zag !! (i mod k)%nat.
Proof.
  revert i. induction r as [|r IH]; intros i Hi; [simpl in Hi; lia|].
  cbn [fill_words]. assert (k <> 0%nat) by (intros ->; lia).
  destruct (Nat.lt_ge_cases i k).
  - rewrite lookup_app_l by (rewrite length_le_bytes; lia). by rewrite Nat.mod_small.
  - rewrite lookup_app_r by (rewrite length_le_bytes; lia).
    rewrite length_le_bytes, IH by lia.
    replace i with (i - k + 1 * k)%nat at 2 by lia. by rewrite Nat.Div0.mod_add.
Qed.

(** ** Properties *)

(** The cursor undoes every writer: after any prefix and before any rest,
    reading what [GetU32], [GetU64], [GetV32], [GetV64] or [GetString] wrote
    returns the value and leaves the cursor just behind it. *)
Theorem BufferReader_roundtrip pre rest v s :
  is_u 32 v -> in_memory (pre ++ GetU64 v ++ rest) ->
  in_memory (pre ++ GetString s ++ rest) ->
  ReadFixed32 (at_ pre (GetU32 v ++ rest)) = Some (v, at_ (pre ++ GetU32 v) rest) /\
  ReadFixed64 (at_ pre (GetU64 v ++ rest)) = Some (v, at_ (pre ++ GetU64 v) rest) /\
  ReadVarint32 (at_ pre (GetV32 v ++ rest)) = Some (v, at_ (pre ++ GetV32 v) rest) /\
  ReadVarint64 (at_ pre (GetV64 v ++ rest)) = Some (v, at_ (pre ++ GetV64 v) rest) /\
  ReadString (at_ pre (GetString s ++ rest)) = Some (s, at_ (pre ++ GetString s) rest).
Proof.
  intros Hv Hm Hs.
  assert (Hl : zlen (GetV64 v) <= 5).
  { unfold GetV64. rewrite zlen_Encode64 by auto with mai.
    pose proof (n_groups_bound 32 v Hv ltac:(lia)) as Hb. exact Hb. }
  assert (forall w, zlen w <= 8 -> in_memory (pre ++ w ++ rest)) as Hw.
  { intros w Hw. unfold in_memory, GetU64 in *. rewrite !zlen_app, ?zlen_le_bytes in *. lia. }
  split_and!.
  - apply ReadFixed32_at; [done|]. apply Hw. unfold GetU32. by rewrite zlen_le_bytes.
  - apply ReadFixed64_at; auto with mai.
  - apply ReadVarint32_at; [done|]. apply Hw. unfold GetV32. rewrite Encode32_64 by done.
    unfold GetV64 in Hl. lia.
  - apply ReadVarint64_at; [auto with mai|]. apply Hw. lia.
  - by apply ReadString_at.
Qed.

Lemma BufferReader_roundtrip_witness :
  let pre := [1; 2] in let rest := [9] in let v := 1000 in let s := [65; 66; 67] in
  ReadFixed32 (at_ pre (GetU32 v ++ rest)) = Some (v, at_ (pre ++ GetU32 v) rest) /\
  ReadFixed64 (at_ pre (GetU64 v ++ rest)) = Some (v, at_ (pre ++ GetU64 v) rest) /\
  ReadVarint32 (at_ pre (GetV32 v ++ rest)) = Some (v, at_ (pre ++ GetV32 v) rest) /\
  ReadVarint64 (at_ pre (GetV64 v ++ rest)) = Some (v, at_ (pre ++ GetV64 v) rest) /\
  ReadString (at_ pre (GetString s ++ rest)) = Some (s, at_ (pre ++ GetString s) rest).
Proof. intros. apply BufferReader_roundtrip; [unfold is_u; lia | reflexivity | reflexivity]. Defined.

(** [RoundBytesFill] writes exactly [n] bytes, the byte at offset [i]
    being byte [i mod sizeof(T)] of the pattern. *)
Theorem RoundBytesFill_spec k zag n i :
  (0 < k)%nat -> 0 <= n -> (i < Z.to_nat n)%nat ->
  zlen (RoundBytesFill k zag n) = n /\
  RoundBytesFill k zag n !! i = le_bytes k zag !! (i mod k)%nat.
Proof.
  intros Hk Hn Hi. unfold RoundBytesFill.
  pose proof (Z.div_mod n (Z.of_nat k) ltac:(lia)) as Hd.
  pose proof (Z.mod_pos_bound n (Z.of_nat k) ltac:(lia)) as Hr.
  assert (0 <= n / Z.of_nat k) by (apply Z.div_pos; lia).
  set (q := Z.to_nat (n / Z.of_nat k)) in *.
  set (r := Z.to_nat (n mod Z.of_nat k)) in *.
  assert (Hnat : Z.to_nat n = (q * k + r)%nat) by nia.
  split.
  - unfold zlen. rewrite length_app, length_fill_words, length_take, length_le_bytes. nia.
  - destruct (Nat.lt_ge_cases i (q * k)).
    + rewrite lookup_app_l by (by rewrite length_fill_words). by apply lookup_fill_words.
    + rewrite lookup_app_r by (by rewrite length_fill_words).
      rewrite length_fill_words, lookup_take_lt by lia. f_equal.
      replace i with (i - q * k + q * k)%nat at 2 by lia.
      rewrite Nat.Div0.mod_add, Nat.mod_small by lia. done.
Qed.

Lemma RoundBytesFill_spec_witness :
  zlen (RoundBytesFill 4 0x64636261 7) = 7 /\
  RoundBytesFill 4 0x64636261 7 !! 5%nat = le_bytes 4 0x64636261 !! (5 mod 4)%nat.
Proof. apply RoundBytesFill_spec; lia. Defined.
