(* ===== verification/Parse.v ===== *)
(** * Parse

    The text half of src/base/slice.cc: [ToReadable], the integer parsers
    [ParseI64], [ParseU64], [ParseH64], [ParseO64], [ParseI32], the number
    classifier [LikeNumber] and the unescaping of [ParseEscaped].

    A parser returns the code of the source (0, negative for a bad character,
    positive for an overflow) and the value stored through [val], [None] when
    nothing is stored.  Characters are bytes; the comparisons of the source
    are made on [char], and a byte above 127 fails every range test there as
    it does here. *)

From S2P Require Import Prelude.

(** ** ToReadable *)

(** [isprint] of the C locale. *)
Definition isprint (c : Z) : bool := (32 <=? c) && (c <=? 126).

Definition hex_alpha (d : Z) : Z := if d <? 10 then 48 + d else 87 + d.

Definition readable_char (c : Z) : bytes :=
  if isprint c then [c]
  else [92; 120; hex_alpha (Z.shiftr (Z.land c 0xf0) 4); hex_alpha (Z.land c 0x0f)].

Definition ToReadable (raw : bytes) : bytes := concat (map readable_char raw).

(** ** Integers *)

(** The loop of the signed, unsigned and octal parsers: [top] is the largest
    digit character, [lim] the constant from which [l * base] is subtracted,
    [neg] the extra unit of the negative range.  Words are [w] bits wide. *)
Fixpoint digit_loop (w base top lim : Z) (neg : bool) (l : Z) (s : bytes) : Z * option Z :=
  match s with
  | [] => (0, Some l)
  | c :: s =>
    if (c <? 48) || (top <? c) then (-1, None)
    else
      let d := wrap w (lim - wrap w (l * base)) in
      let e := c - 48 in
      let d := wrap w (d + if neg then 1 else 0) in
      if d <? e then (1, None)
      else digit_loop w base top lim neg (wrap w (wrap w (l * base) + e)) s
  end.

(** The sign prefix shared by [ParseI64] and [ParseI32]: [s[0]] of an empty
    string is its terminating NUL. *)
Definition strip_sign (s : bytes) : bool * bytes :=
  match s with
  | c :: t => if (c =? 45) || (c =? 43) then (c =? 45, t) else (false, s)
  | [] => (false, [])
  end.

Definition apply_sign (w : Z) (neg : bool) (r : Z * option Z) : Z * option Z :=
  match r with
  | (0, Some l) => (0, Some (sgn w (l * if neg then wrap w (-1) else 1)))
  | _ => r
  end.

Definition ParseI64 (s : bytes) : Z * option Z :=
  let '(neg, s) := strip_sign s in
  if zlen s =? 0 then (-1, None)
  else if 19 <? zlen s then (1, None)
  else apply_sign 64 neg (digit_loop 64 10 57 0x7fffffffffffffff neg 0 s).

Definition ParseU64 (s : bytes) : Z * option Z :=
  if zlen s =? 0 then (-1, None)
  else if 20 <? zlen s then (1, None)
  else digit_loop 64 10 57 0xffffffffffffffff false 0 s.

Definition ParseO64 (s : bytes) : Z * option Z :=
  if zlen s =? 0 then (-1, None)
  else if 22 <? zlen s then (1, None)
  else digit_loop 64 8 55 0xffffffffffffffff false 0 s.

Definition ParseI32 (s : bytes) : Z * option Z :=
  let '(neg, s) := strip_sign s in
  if zlen s =? 0 then (-1, None)
  else if 10 <? zlen s then (1, None)
  else apply_sign 32 neg (digit_loop 32 10 57 0x7fffffff neg 0 s).

Definition hex_digit (c : Z) : option Z :=
  if (48 <=? c) && (c <=? 57) then Some (c - 48)
  else if (97 <=? c) && (c <=? 102) then Some (c - 97 + 10)
  else if (65 <=? c) && (c <=? 70) then Some (c - 65 + 10)
  else None.

Fixpoint hex_loop (l : Z) (s : bytes) : Z * option Z :=
  match s with
  | [] => (0, Some l)
  | c :: s =>
    match hex_digit c with
    | None => (-1, None)
    | Some e => hex_loop (Z.lor (wrap 64 (Z.shiftl l 4)) e) s
    end
  end.

Definition ParseH64 (s : bytes) : Z * option Z :=
  if zlen s =? 0 then (-1, None)
  else if 16 <? zlen s then (1, None)
  else hex_loop 0 s.

(** ** ParseEscaped *)

(** The inner loops of [\0ooo] and [\xhh]: at most [n] more digits. *)
Fixpoint oct_escape (n : nat) (v : Z) (s : bytes) : Z * bytes :=
  match n, s with
  | S n, cc :: s' =>
    if (48 <=? cc) && (cc <=? 55)
    then oct_escape n (wrap 8 (Z.shiftl v 3 + (cc - 48))) s'
    else (v, s)
  | _, _ => (v, s)
  end.

Fixpoint hex_escape (n : nat) (v : Z) (s : bytes) : Z * bytes :=
  match n, s with
  | S n, cc :: s' =>
    match hex_digit cc with
    | Some e => hex_escape n (wrap 8 (Z.shiftl v 4 + e)) s'
    | None => (v, s)
    end
  | _, _ => (v, s)
  end.

(** The one-character escapes of the [switch]. *)
Definition simple_escape (c : Z) : option Z :=
  if c =? 97 then Some 7 else if c =? 98 then Some 8 else if c =? 102 then Some 12
  else if c =? 110 then Some 10 else if c =? 114 then Some 13 else if c =? 116 then Some 9
  else if c =? 118 then Some 11 else if c =? 92 then Some 92 else if c =? 39 then Some 39
  else if c =? 34 then Some 34 else None.

(** The outer loop; every turn consumes a character, so [length s] turns are
    enough ([None] is out of fuel).  The result is the code and [*rv]. *)
Fixpoint escape_loop (fuel : nat) (rv s : bytes) : option (Z * bytes) :=
  match fuel, s with
  | _, [] => Some (0, rv)
  | O, _ => None
  | S fuel, c :: s =>
    if negb (c =? 92) then escape_loop fuel (rv ++ [c]) s
    else match s with
    | [] => Some (0, rv ++ [92])
    | c :: s =>
      match simple_escape c with
      | Some v => escape_loop fuel (rv ++ [v]) s
      | None =>
        if c =? 48 then
          let '(v, s) := oct_escape 3 0 s in escape_loop fuel (rv ++ [v]) s
        else if c =? 120 then
          let '(v, s) := hex_escape 2 0 s in escape_loop fuel (rv ++ [v]) s
        else Some (-1, rv)
      end
    end
  end.

Definition ParseEscaped (s : bytes) : option (Z * bytes) := escape_loop (length s) [] s.

(** ** LikeNumber *)

Inductive num_state :=
  | kInit | kPrefixSign | kPrefixZero | kPrefix0x | kPrevDot | kPrefixExp | kPrefixExpSign
  | kOct | kDec | kDecSgined | kHex | kFloat | kExponent.

#[global] Instance num_state_eq_dec : EqDecision num_state.
Proof. solve_decision. Defined.

(** One turn of the loop on the character [c]; [None] is [return 0]. *)
Definition like_step (st : num_state) (c : Z) : option num_state :=
  if (c =? 45) || (c =? 43) then
    match st with
    | kPrefixExp => Some kPrefixExpSign
    | kInit => Some kPrefixSign
    | _ => None
    end
  else if c =? 48 then
    match st with
    | kInit => Some kPrefixZero
    | kPrefixSign => Some kDecSgined
    | kPrefixZero => Some kOct
    | kPrefix0x => Some kHex
    | kPrevDot => Some kFloat
    | kPrefixExp | kPrefixExpSign => Some kExponent
    | _ => Some st
    end
  else if (c =? 120) || (c =? 88) then
    match st with kPrefixZero => Some kPrefix0x | _ => None end
  else if (48 <? c) && (c <=? 55) then
    match st with
    | kInit => Some kDec
    | kPrefixZero => Some kOct
    | kPrefix0x => Some kHex
    | kPrefixSign => Some kDecSgined
    | kPrevDot => Some kFloat
    | kPrefixExp | kPrefixExpSign => Some kExponent
    | _ => Some st
    end
  else if (55 <? c) && (c <=? 57) then
    match st with
    | kInit => Some kDec
    | kPrefix0x => Some kHex
    | kPrefixSign => Some kDecSgined
    | kPrevDot => Some kFloat
    | kPrefixExp | kPrefixExpSign => Some kExponent
    | kDecSgined | kDec | kHex | kFloat | kExponent => Some st
    | _ => None
    end
  else if ((97 <=? c) && (c <=? 102)) || ((65 <=? c) && (c <=? 70)) then
    let to_exp := match st with
      | kDec | kDecSgined | kPrefixZero | kFloat => true | _ => false end in
    if ((c =? 101) || (c =? 69)) && to_exp then Some kPrefixExp
    else match st with kPrefix0x | kHex => Some kHex | _ => None end
  else if c =? 46 then
    match st with
    | kInit | kPrefixSign | kDecSgined | kPrefixZero | kDec => Some kPrevDot
    | _ => None
    end
  else None.

Fixpoint like_loop (st : num_state) (s : bytes) : option num_state :=
  match s with
  | [] => Some st
  | c :: s => match like_step st c with Some st => like_loop st s | None => None end
  end.

(** The kinds returned: the characters ['o'], ['s'], ['d'], ['h'], ['f'] and
    ['e'], or 0. *)
Definition LikeNumber (s : bytes) : Z :=
  match like_loop kInit s with
  | Some kOct => 111
  | Some kDecSgined => 115
  | Some kPrefixZero | Some kDec => 100
  | Some kHex => 104
  | Some kFloat => 102
  | Some kExponent => 101
  | _ => 0
  end.

(** ** The value of a digit string *)

Definition digits (top : Z) (s : bytes) : Prop := Forall (fun c => 48 <= c <= top) s.

Definition num (base l : Z) (s : bytes) : Z :=
  fold_left (fun l c => l * base + (c - 48)) s l.

Lemma num_app base l s t : num base l (s ++ t) = num base (num base l s) t.
Proof. apply fold_left_app. Qed.

Lemma num_ge base top l s : 1 <= base -> 0 <= l -> digits top s -> l <= num base l s.
Proof.
  intros Hb Hl Hs. revert l Hl. induction Hs as [|c s Hc _ IH]; intros l Hl; [simpl; lia|].
  simpl. specialize (IH (l * base + (c - 48)) ltac:(nia)). nia.
Qed.

Lemma num_bound base l s :
  2 <= base -> 0 <= l -> digits (47 + base) s ->
  num base l s < (l + 1) * base ^ zlen s.
Proof.
  intros Hb Hl Hs. revert l Hl. induction Hs as [|c s Hc _ IH]; intros l Hl.
  - rewrite zlen_nil, Z.pow_0_r. simpl. lia.
  - rewrite zlen_cons, Z.pow_add_r, Z.pow_1_r by (pose proof (zlen_nonneg s); lia). simpl.
    specialize (IH (l * base + (c - 48)) ltac:(nia)).
    assert (0 < base ^ zlen s) by (apply Z.pow_pos_nonneg; [lia | apply zlen_nonneg]). nia.
Qed.

(** The loop reads [s] exactly as long as the value before the next digit,
    times the base, stays within the limit. *)
Lemma digit_loop_app w base top lim (neg : bool) l s t :
  1 <= base -> 0 <= w -> top <= 47 + base -> digits top s -> t <> [] -> 0 <= l ->
  lim + (if neg then 1 else 0) < 2 ^ w -> 0 <= lim ->
  base <= lim ->
  num base l s <= lim + (if neg then 1 else 0) ->
  digit_loop w base top lim neg l (s ++ t) =
  digit_loop w base top lim neg (num base l s) t.
Proof.
  intros Hb Hw Htop Hs Ht Hl Hlim Hlim0 Hbl. revert l Hl.
  induction Hs as [|c s Hc Hs IH]; intros l Hl Hn; [done|]. simpl.
  destruct (Z.ltb_spec c 48); [lia|]. destruct (Z.ltb_spec top c); [lia|]. simpl in Hn |- *.
  pose proof (num_ge base top (l * base + (c - 48)) s Hb ltac:(nia) Hs) as Hge.
  assert (Hlb : 0 <= l * base) by nia.
  rewrite (wrap_small w (l * base)) by (unfold is_u; lia).
  assert (Hwd : wrap w (wrap w (lim - l * base) + (if neg then 1 else 0)) =
          lim - l * base + (if neg then 1 else 0)).
  { unfold wrap. rewrite Zplus_mod_idemp_l. apply Z.mod_small. lia. }
  rewrite Hwd. destruct (Z.ltb_spec (lim - l * base + (if neg then 1 else 0)) (c - 48)); [lia|].
  rewrite wrap_small by (unfold is_u; lia). apply IH; lia.
Qed.

(** The last digit. *)
Lemma digit_loop_last w base top lim (neg : bool) P c :
  48 <= c <= top ->
  digit_loop w base top lim neg P [c] =
  (let q := wrap w (P * base) in
   if wrap w (lim - q + if neg then 1 else 0) <? c - 48 then (1, None)
   else (0, Some (wrap w (q + (c - 48))))).
Proof.
  intros Hc. simpl. destruct (Z.ltb_spec c 48); [lia|]. destruct (Z.ltb_spec top c); [lia|].
  simpl. unfold wrap at 1. unfold wrap at 1. rewrite Zplus_mod_idemp_l. reflexivity.
Qed.

(** A character that is no digit is always refused. *)
Lemma digit_loop_sound w base top lim neg l s v :
  digit_loop w base top lim neg l s = (0, Some v) -> digits top s.
Proof.
  revert l. induction s as [|c s IH]; intros l; [constructor|]. simpl.
  destruct (Z.ltb_spec c 48), (Z.ltb_spec top c); simpl; try discriminate.
  destruct (_ <? c - 48); [discriminate|]. intros H1. constructor; [lia|]. by eapply IH.
Qed.

Lemma digits_app top s t : digits top (s ++ t) <-> digits top s /\ digits top t.
Proof. apply Forall_app. Qed.

Lemma last_digit (s : bytes) : s <> [] -> exists p c, s = p ++ [c].
Proof. intros H. destruct (exists_last H) as (p & c & ->). eauto. Qed.

Lemma num_last base p c top :
  0 < base -> 48 <= c <= top -> top <= 47 + base -> num base 0 (p ++ [c]) / base = num base 0 p.
Proof.
  intros Hb Hc Ht. rewrite num_app. simpl. symmetry. apply Z.div_unique with (c - 48); lia.
Qed.

(** What a decimal loop of width [w] returns, for any string whose proper
    prefixes stay in range. *)
Lemma digit_loop_spec w base top lim (neg : bool) p c :
  let b := if neg then 1 else 0 in
  2 <= base -> 0 <= w -> top <= 47 + base -> digits top (p ++ [c]) ->
  0 <= lim -> base <= lim -> lim + b < 2 ^ w -> num base 0 p <= lim + b ->
  digit_loop w base top lim neg 0 (p ++ [c]) =
  (let q := wrap w (num base 0 p * base) in
   if wrap w (lim - q + b) <? c - 48 then (1, None)
   else (0, Some (wrap w (q + (c - 48))))).
Proof.
  intros b Hb Hw Ht [Hp Hc]%digits_app H0 Hbl Hlim Hn. apply Forall_inv in Hc.
  rewrite digit_loop_app by (done || lia). by apply digit_loop_last.
Qed.

Lemma num_split p c :
  digits 57 (p ++ [c]) ->
  num 10 0 (p ++ [c]) = num 10 0 p * 10 + (c - 48) /\
  num 10 0 (p ++ [c]) / 10 = num 10 0 p /\ 0 <= num 10 0 p /\ 48 <= c <= 57.
Proof.
  intros [Hp Hc]%digits_app. apply Forall_inv in Hc. split_and!.
  - by rewrite num_app.
  - apply (num_last 10 p c 57); lia.
  - by apply (num_ge 10 57).
  - lia.
  - lia.
Qed.

Lemma num_digits_bound s n : digits 57 s -> zlen s <= n -> num 10 0 s < 10 ^ n.
Proof.
  intros Hs Hn. pose proof (num_bound 10 0 s ltac:(lia) ltac:(lia) Hs).
  assert (10 ^ zlen s <= 10 ^ n) by (apply Z.pow_le_mono_r; lia). lia.
Qed.

(** The verdict on a digit string with value [v]: right below the limit and
    just above it, but once [v / 10 * 10] itself exceeds the limit the test
    is made with a wrapped difference. *)
Definition verdict (w lim v : Z) (neg : bool) : Z * option Z :=
  let b := if neg then 1 else 0 in
  if v <=? lim + b then (0, Some v)
  else if v / 10 * 10 <=? lim + b then (1, None)
  else if wrap w (lim - wrap w (v / 10 * 10) + b) <? v mod 10 then (1, None)
  else (0, Some (wrap w v)).

Lemma digit_loop_verdict w lim neg s n :
  digits 57 s -> 1 <= zlen s <= n -> 10 <= lim -> lim + 1 < 2 ^ w \/ (lim + 1 = 2 ^ w /\ neg = false) ->
  10 ^ (n - 1) <= lim -> 0 <= w ->
  digit_loop w 10 57 lim neg 0 s = verdict w lim (num 10 0 s) neg.
Proof.
  intros Hs Hn Hl Hlim Hpow Hw.
  destruct (last_digit s) as (p & c & ->); [intros ->; rewrite zlen_nil in Hn; lia|].
  destruct (num_split p c Hs) as (Hv & Hd & Hp0 & Hc). rewrite zlen_app, zlen_cons, zlen_nil in Hn.
  assert (num 10 0 p < 10 ^ (n - 1)).
  { apply num_digits_bound; [|lia]. by apply digits_app in Hs as [? _]. }
  assert (Hm : num 10 0 (p ++ [c]) mod 10 = c - 48)
    by (rewrite Hv; symmetry; apply Z.mod_unique with (num 10 0 p); lia).
  rewrite digit_loop_spec; [| lia.. | exact Hs | lia | lia | destruct neg; lia | destruct neg; lia].
  unfold verdict. rewrite Hd, Hm, Hv. cbn zeta.
  set (P := num 10 0 p) in *. set (b := if neg then 1 else 0).
  assert (0 <= b <= 1) by (unfold b; destruct neg; lia).
  assert (lim + b < 2 ^ w) by (unfold b; destruct neg, Hlim; lia).
  destruct (Z.leb_spec (P * 10 + (c - 48)) (lim + b)).
  - rewrite (wrap_small w (P * 10)) by (unfold is_u; lia).
    rewrite (wrap_small w (lim - _ + b)) by (unfold is_u; lia).
    destruct (Z.ltb_spec (lim - P * 10 + b) (c - 48)); [lia|].
    by rewrite wrap_small by (unfold is_u; lia).
  - destruct (Z.leb_spec (P * 10) (lim + b)).
    + rewrite (wrap_small w (P * 10)) by (unfold is_u; lia).
      rewrite (wrap_small w (lim - _ + b)) by (unfold is_u; lia).
      destruct (Z.ltb_spec (lim - P * 10 + b) (c - 48)); [done|lia].
    + replace (wrap w (wrap w (P * 10) + (c - 48))) with (wrap w (P * 10 + (c - 48))); [done|].
      unfold wrap. by rewrite Zplus_mod_idemp_l.
Qed.

Lemma strip_sign_digits s top : digits top s -> top <= 57 -> strip_sign s = (false, s).
Proof.
  destruct 1 as [|c s Hc _]; [done|]. intros. unfold strip_sign.
  destruct (Z.eqb_spec c 45), (Z.eqb_spec c 43); try lia. done.
Qed.

Lemma ParseU64_verdict s :
  digits 57 s -> 1 <= zlen s <= 20 ->
  ParseU64 s = verdict 64 0xffffffffffffffff (num 10 0 s) false.
Proof.
  intros Hs Hn. unfold ParseU64. destruct (Z.eqb_spec (zlen s) 0); [lia|].
  destruct (Z.ltb_spec 20 (zlen s)); [lia|].
  apply (digit_loop_verdict _ _ _ _ 20);
    [exact Hs | lia | lia | right; split; [lia | done] | lia | lia].
Qed.

Definition sign_prefix (neg : bool) : bytes := if neg then [45] else [].

Lemma ParseI64_verdict neg s :
  digits 57 s -> 1 <= zlen s <= 19 ->
  ParseI64 (sign_prefix neg ++ s) =
  apply_sign 64 neg (verdict 64 0x7fffffffffffffff (num 10 0 s) neg).
Proof.
  intros Hs Hn. unfold ParseI64.
  assert (strip_sign (sign_prefix neg ++ s) = (neg, s)) as ->.
  { destruct neg; [done|]. by apply (strip_sign_digits s 57). }
  destruct (Z.eqb_spec (zlen s) 0); [lia|]. destruct (Z.ltb_spec 19 (zlen s)); [lia|].
  f_equal. apply (digit_loop_verdict _ _ _ _ 19); [exact Hs | lia | lia | left; lia | lia | lia].
Qed.

(** ** Properties *)

(** C33: [ParseI64] on an optional minus sign and at most 19 digits returns the
    exact value whenever it is in the range of [int64_t]; it reports the
    overflow up to 9223372036854775809; and from 9223372036854775810 on, the
    subtraction [0x7fff... - l * 10] wraps, no overflow is reported, and the
    value modulo 2^64 is stored. *)
Theorem ParseI64_spec neg s :
  let V := num 10 0 s in
  let limit := if neg : bool then 2 ^ 63 else 2 ^ 63 - 1 in
  digits 57 s -> 1 <= zlen s <= 19 ->
  ParseI64 (sign_prefix neg ++ s) =
    (if V <=? limit then (0, Some (if neg then - V else V))
     else if V <? 9223372036854775810 then (1, None)
     else (0, Some (sgn 64 (if neg then - V else V)))).
Proof.
  intros V limit Hs Hn. rewrite ParseI64_verdict by done. fold V.
  assert (HV : 0 <= V) by (by apply (num_ge 10 57)).
  pose proof (num_digits_bound s 19 Hs ltac:(lia)) as HB. fold V in HB.
  unfold verdict, limit. clear Hs Hn. clearbody V. clear limit.
  assert (Hsg : forall v, sgn 64 (v * (if neg then wrap 64 (-1) else 1)) =
                sgn 64 (if neg then - v else v)).
  { intros v. destruct neg; [|by rewrite Z.mul_1_r]. unfold sgn, wrap.
    rewrite Zmult_mod_idemp_r. by replace (v * -1) with (- v) by lia. }
  assert (Hlim : 0x7fffffffffffffff + (if neg then 1 else 0) =
                 (if neg then 2 ^ 63 else 2 ^ 63 - 1)) by (by destruct neg).
  rewrite Hlim. destruct (Z.leb_spec V (if neg then 2 ^ 63 else 2 ^ 63 - 1)).
  - cbn [apply_sign]. rewrite Hsg. do 2 f_equal. unfold sgn, wrap.
    destruct neg; cbn zeta.
    + destruct (Z.eq_dec V 0) as [->|]; [reflexivity|].
      replace ((- V) mod 2 ^ 64) with (2 ^ 64 - V)
        by (apply Z.mod_unique with (-1); lia).
      destruct (Z.ltb_spec (2 ^ 64 - V) (2 ^ (64 - 1))); lia.
    + rewrite Z.mod_small by lia. destruct (Z.ltb_spec V (2 ^ (64 - 1))); lia.
  - pose proof (Z.div_mod V 10). pose proof (Z.mod_pos_bound V 10).
    assert (Hr : (V / 10 * 10 <=? (if neg then 2 ^ 63 else 2 ^ 63 - 1)) =
            (V <? 9223372036854775810)).
    { destruct (Z.leb_spec (V / 10 * 10) (if neg then 2 ^ 63 else 2 ^ 63 - 1)),
        (Z.ltb_spec V 9223372036854775810); destruct neg; lia. }
    rewrite Hr. destruct (Z.ltb_spec V 9223372036854775810); [done|].
    rewrite (wrap_small 64 (V / 10 * 10)) by (unfold is_u; lia).
    replace (wrap 64 (0x7fffffffffffffff - V / 10 * 10 + (if neg then 1 else 0)))
      with (0x7fffffffffffffff - V / 10 * 10 + (if neg then 1 else 0) + 2 ^ 64)
      by (unfold wrap; apply Z.mod_unique with (-1); destruct neg; lia).
    destruct (Z.ltb_spec (0x7fffffffffffffff - V / 10 * 10 + (if neg then 1 else 0) + 2 ^ 64)
                (V mod 10)); [destruct neg; lia|].
    cbn [apply_sign]. rewrite Hsg. by rewrite (wrap_small 64 V) by (unfold is_u; lia).
Qed.

Lemma ParseI64_spec_witness :
  ParseI64 (sign_prefix true ++ repeat 57 19) = (0, Some 8446744073709551617).
Proof.
  rewrite (ParseI64_spec true (repeat 57 19)); [reflexivity | | split; reflexivity || discriminate].
  apply Forall_forall. intros c Hc. vm_compute in Hc.
  repeat (apply elem_of_cons in Hc as [->|Hc]; [lia|]). by apply elem_of_nil in Hc.
Defined.

(** [ParseU64] accepts only strings of 1 to 20 digits; below 2^64 the value
    is exact, and above it the overflow is reported as long as the value
    without its last digit, times ten, still fits 64 bits. *)
Theorem ParseU64_spec s :
  (forall v, ParseU64 s = (0, Some v) -> digits 57 s /\ 1 <= zlen s <= 20) /\
  (digits 57 s -> 1 <= zlen s <= 20 ->
   let V := num 10 0 s in
   ParseU64 s =
     (if V <? 2 ^ 64 then (0, Some V)
      else if V / 10 * 10 <? 2 ^ 64 then (1, None)
      else if wrap 64 (V / 10 * 10) + V mod 10 <? 2 ^ 64 then (0, Some (wrap 64 V))
      else (1, None))).
Proof.
  split.
  - intros v. unfold ParseU64. pose proof (zlen_nonneg s).
    destruct (Z.eqb_spec (zlen s) 0); [discriminate|].
    destruct (Z.ltb_spec 20 (zlen s)); [discriminate|].
    intros Hd%digit_loop_sound. split; [done | lia].
  - intros Hs Hn V. rewrite ParseU64_verdict by done. fold V. unfold verdict.
    clearbody V. cbn zeta. rewrite !Z.add_0_r.
    replace (V <=? 0xffffffffffffffff) with (V <? 2 ^ 64)
      by (destruct (Z.ltb_spec V (2 ^ 64)), (Z.leb_spec V 0xffffffffffffffff); lia).
    replace (V / 10 * 10 <=? 0xffffffffffffffff) with (V / 10 * 10 <? 2 ^ 64)
      by (destruct (Z.ltb_spec (V / 10 * 10) (2 ^ 64)),
            (Z.leb_spec (V / 10 * 10) 0xffffffffffffffff); lia).
    pose proof (wrap_is_u 64 (V / 10 * 10) ltac:(lia)) as [H0 H1].
    set (q := wrap 64 (V / 10 * 10)) in *.
    rewrite (wrap_small 64 (_ - q)) by (unfold is_u; lia).
    destruct (V <? 2 ^ 64), (V / 10 * 10 <? 2 ^ 64); try done.
    destruct (Z.ltb_spec (0xffffffffffffffff - q) (V mod 10)),
      (Z.ltb_spec (q + V mod 10) (2 ^ 64)); done || lia.
Qed.

Lemma digits_repeat d n : 48 <= d <= 57 -> digits 57 (repeat d n).
Proof. intros. induction n; constructor; [lia | done]. Qed.

Lemma ParseU64_spec_witness : ParseU64 (repeat 57 20) = (0, Some 7766279631452241919).
Proof.
  destruct (ParseU64_spec (repeat 57 20)) as [_ H].
  rewrite H; [reflexivity | apply digits_repeat; lia | split; reflexivity || discriminate].
Defined.

(** ** Unescaping undoes ToReadable *)

Lemma hex_digit_alpha d : 0 <= d < 16 -> hex_digit (hex_alpha d) = Some d.
Proof.
  intros Hd. unfold hex_digit, hex_alpha. destruct (Z.ltb_spec d 10).
  - destruct (Z.leb_spec 48 (48 + d)), (Z.leb_spec (48 + d) 57); try lia. simpl. f_equal. lia.
  - destruct (Z.leb_spec 48 (87 + d)), (Z.leb_spec (87 + d) 57); try lia. simpl.
    destruct (Z.leb_spec 97 (87 + d)), (Z.leb_spec (87 + d) 102); try lia. simpl. f_equal. lia.
Qed.

Lemma nibbles c :
  is_byte c ->
  0 <= Z.shiftr (Z.land c 0xf0) 4 < 16 /\ 0 <= Z.land c 0x0f < 16 /\
  Z.shiftr (Z.land c 0xf0) 4 * 16 + Z.land c 0x0f = c.
Proof.
  unfold is_byte, is_u. intros Hc.
  assert (Z.shiftr (Z.land c 0xf0) 4 = c / 16) as ->.
  { rewrite Z.shiftr_land. change (Z.shiftr 0xf0 4) with (Z.ones 4).
    rewrite land_ones_mod, shiftr_div by lia. apply Z.mod_small.
    split; [apply Z.div_pos; lia | apply Z.div_lt_upper_bound; lia]. }
  change 0x0f with (Z.ones 4). rewrite land_ones_mod by lia. change (2 ^ 4) with 16.
  pose proof (Z.div_mod c 16). pose proof (Z.mod_pos_bound c 16).
  assert (c / 16 < 16) by (apply Z.div_lt_upper_bound; lia).
  assert (0 <= c / 16) by (apply Z.div_pos; lia). lia.
Qed.

Lemma hex_escape_byte c s :
  is_byte c ->
  hex_escape 2 0 (hex_alpha (Z.shiftr (Z.land c 0xf0) 4) :: hex_alpha (Z.land c 0x0f) :: s) =
  (c, s).
Proof.
  intros Hc. destruct (nibbles c Hc) as (H1 & H2 & H3). unfold is_byte, is_u in Hc.
  cbn [hex_escape]. rewrite !hex_digit_alpha by done. rewrite !shiftl_mul by lia.
  rewrite (wrap_small 8 (0 * 2 ^ 4 + _)) by (unfold is_u; lia).
  rewrite wrap_small by (unfold is_u; lia). f_equal. lia.
Qed.

Lemma escape_loop_readable s fuel rv :
  byte_str s -> 92 ∉ s -> (length (ToReadable s) <= fuel)%nat ->
  escape_loop fuel rv (ToReadable s) = Some (0, rv ++ s).
Proof.
  intros Hs. revert fuel rv. induction Hs as [|c s Hc Hs IH]; intros fuel rv Hn Hf.
  - rewrite app_nil_r. by destruct fuel.
  - apply not_elem_of_cons in Hn as [Hc92 Hn]. unfold ToReadable in *.
    cbn [map concat] in *. rewrite length_app in Hf. unfold readable_char in *.
    destruct (isprint c).
    + destruct fuel as [|fuel]; simpl in Hf; [lia|]. cbn [app escape_loop].
      destruct (Z.eqb_spec c 92); [done|]. cbn [negb].
      rewrite IH by (done || lia). by rewrite <- app_assoc.
    + destruct fuel as [|fuel]; simpl in Hf; [lia|]. cbn [app escape_loop].
      change (negb (92 =? 92)) with false. change (simple_escape 120) with (@None Z).
      change (120 =? 48) with false. change (120 =? 120) with true. cbn iota.
      rewrite hex_escape_byte by done. rewrite IH by (done || lia). by rewrite <- app_assoc.
Qed.

Lemma oct_escape_le n v s : (length (oct_escape n v s).2 <= length s)%nat.
Proof.
  revert v s. induction n; intros v [|c s]; simpl; try lia.
  destruct (_ && _); simpl; [|lia]. etrans; [apply IHn|]. lia.
Qed.

Lemma hex_escape_le n v s : (length (hex_escape n v s).2 <= length s)%nat.
Proof.
  revert v s. induction n; intros v [|c s]; simpl; try lia.
  destruct (hex_digit c); simpl; [|lia]. etrans; [apply IHn|]. lia.
Qed.

Lemma escape_loop_total fuel rv s :
  (length s <= fuel)%nat -> is_Some (escape_loop fuel rv s).
Proof.
  revert rv s. induction fuel as [|fuel IH]; intros rv [|c s] Hf;
    cbn [escape_loop length] in *; [eauto | lia | eauto |].
  destruct (negb _); [apply IH; lia|]. destruct s as [|c' s]; [eauto|].
  cbn [length] in Hf.
  destruct (simple_escape c'); [apply IH; lia|].
  destruct (c' =? 48).
  - pose proof (oct_escape_le 3 0 s). destruct (oct_escape 3 0 s). cbn [snd] in *. apply IH. lia.
  - destruct (c' =? 120); [|eauto].
    pose proof (hex_escape_le 2 0 s). destruct (hex_escape 2 0 s). cbn [snd] in *. apply IH. lia.
Qed.

(** [ParseEscaped] terminates on every input, and it undoes [ToReadable]
    on every byte string without a backslash. *)
Theorem ParseEscaped_ToReadable s :
  is_Some (ParseEscaped s) /\
  (byte_str s -> 92 ∉ s -> ParseEscaped (ToReadable s) = Some (0, s)).
Proof.
  split; [by apply escape_loop_total|]. intros Hs Hn. unfold ParseEscaped.
  by rewrite escape_loop_readable.
Qed.

Lemma ParseEscaped_ToReadable_witness :
  ParseEscaped (ToReadable [0; 65; 255; 10]) = Some (0, [0; 65; 255; 10]).
Proof.
  apply ParseEscaped_ToReadable.
  - repeat constructor; discriminate.
  - apply (bool_decide_unpack (92 ∉ [0; 65; 255; 10])). exact I.
Defined.

(** ** LikeNumber *)

Definition is_hex (c : Z) : Prop :=
  48 <= c <= 57 \/ 97 <= c <= 102 \/ 65 <= c <= 70.

(** How the accepting states are reached in one step. *)
Ltac like_cases :=
  unfold like_step in *;
  repeat case_match; try discriminate; split_bool; simplify_eq; naive_solver lia.

Lemma like_step_kDec st c :
  like_step st c = Some kDec ->
  (st = kDec /\ 48 <= c <= 57) \/ (st = kInit /\ 49 <= c <= 57).
Proof. intros H. destruct st; like_cases. Qed.

Lemma like_step_kPrefixZero st c :
  like_step st c = Some kPrefixZero -> st = kInit /\ c = 48.
Proof. intros H. destruct st; like_cases. Qed.

Lemma like_step_kPrefixSign st c :
  like_step st c = Some kPrefixSign -> st = kInit /\ (c = 45 \/ c = 43).
Proof. intros H. destruct st; like_cases. Qed.

Lemma like_step_kPrefix0x st c :
  like_step st c = Some kPrefix0x -> st = kPrefixZero /\ (c = 120 \/ c = 88).
Proof. intros H. destruct st; like_cases. Qed.

Lemma like_step_kOct st c :
  like_step st c = Some kOct -> (st = kOct \/ st = kPrefixZero) /\ 48 <= c <= 55.
Proof. intros H. destruct st; like_cases. Qed.

Lemma like_step_kDecSgined st c :
  like_step st c = Some kDecSgined -> (st = kDecSgined \/ st = kPrefixSign) /\ 48 <= c <= 57.
Proof. intros H. destruct st; like_cases. Qed.

Lemma like_step_kHex st c :
  like_step st c = Some kHex -> (st = kHex \/ st = kPrefix0x) /\ is_hex c.
Proof. unfold is_hex. intros H. destruct st; like_cases. Qed.

Lemma like_step_not_kInit st c : like_step st c <> Some kInit.
Proof. intros H. destruct st; like_cases. Qed.

(** The runs that end in each state, read backwards. *)
Lemma like_loop_app st s t :
  like_loop st (s ++ t) = (st' ← like_loop st s; like_loop st' t).
Proof. revert st. induction s as [|c s IH]; intros st; [done|]. simpl. by destruct (like_step st c). Qed.

Lemma like_loop_snoc st s c st' :
  like_loop st (s ++ [c]) = Some st' ->
  exists st1, like_loop st s = Some st1 /\ like_step st1 c = Some st'.
Proof.
  rewrite like_loop_app. destruct (like_loop st s) as [st1|]; simpl; [|done].
  destruct (like_step st1 c) eqn:E; [|done]. intros [= ->]. eauto.
Qed.

Lemma like_kInit s : like_loop kInit s = Some kInit -> s = [].
Proof.
  destruct s as [|c s _] using rev_ind; [done|].
  intros (st1 & _ & H)%like_loop_snoc. by apply like_step_not_kInit in H.
Qed.

Lemma like_kPrefixZero s : like_loop kInit s = Some kPrefixZero -> s = [48].
Proof.
  destruct s as [|c s _] using rev_ind; [done|].
  intros (st1 & H1 & (-> & ->)%like_step_kPrefixZero)%like_loop_snoc.
  by apply like_kInit in H1 as ->.
Qed.

Lemma like_kDec s :
  like_loop kInit s = Some kDec -> exists c t, s = c :: t /\ 49 <= c <= 57 /\ digits 57 t.
Proof.
  induction s as [|c s IH] using rev_ind; [done|].
  intros (st1 & H1 & [[-> Hc]|[-> Hc]]%like_step_kDec)%like_loop_snoc.
  - destruct (IH H1) as (c0 & t & -> & H0 & Ht). exists c0, (t ++ [c]). split_and!; [done | lia.. |].
    apply digits_app. split; [done|]. by apply Forall_singleton.
  - apply like_kInit in H1 as ->. exists c, []. split_and!; [done | lia.. | constructor].
Qed.

Lemma like_kDecSgined s :
  like_loop kInit s = Some kDecSgined ->
  exists c t, s = c :: t /\ (c = 45 \/ c = 43) /\ t <> [] /\ digits 57 t.
Proof.
  induction s as [|c s IH] using rev_ind; [done|].
  intros (st1 & H1 & [[->| ->] Hc]%like_step_kDecSgined)%like_loop_snoc.
  - destruct (IH H1) as (c0 & t & -> & H0 & _ & Ht).
    exists c0, (t ++ [c]). split_and!; [done.. | by destruct t |].
    apply digits_app. split; [done|]. by apply Forall_singleton.
  - destruct s as [|c0 s _] using rev_ind; [done|].
    apply like_loop_snoc in H1 as (st0 & H0 & (-> & H1)%like_step_kPrefixSign).
    apply like_kInit in H0 as ->. exists c0, [c]. split_and!; [done.. |]. by apply Forall_singleton.
Qed.

Lemma like_kOct s :
  like_loop kInit s = Some kOct -> exists t, s = 48 :: t /\ t <> [] /\ digits 55 t.
Proof.
  induction s as [|c s IH] using rev_ind; [done|].
  intros (st1 & H1 & [[->| ->] Hc]%like_step_kOct)%like_loop_snoc.
  - destruct (IH H1) as (t & -> & _ & Ht).
    exists (t ++ [c]). split_and!; [done | by destruct t |].
    apply digits_app. split; [done|]. by apply Forall_singleton.
  - apply like_kPrefixZero in H1 as ->. exists [c]. split_and!; [done.. |]. by apply Forall_singleton.
Qed.

Lemma like_kHex s :
  like_loop kInit s = Some kHex ->
  exists x t, s = 48 :: x :: t /\ (x = 120 \/ x = 88) /\ t <> [] /\ Forall is_hex t.
Proof.
  induction s as [|c s IH] using rev_ind; [done|].
  intros (st1 & H1 & [[->| ->] Hc]%like_step_kHex)%like_loop_snoc.
  - destruct (IH H1) as (x & t & -> & Hx & _ & Ht).
    exists x, (t ++ [c]). split_and!; [done.. | by destruct t |].
    apply Forall_app. split; [done|]. by apply Forall_singleton.
  - destruct s as [|x s _] using rev_ind; [done|].
    apply like_loop_snoc in H1 as (st0 & H0 & (-> & Hx)%like_step_kPrefix0x).
    apply like_kPrefixZero in H0 as ->. exists x, [c]. split_and!; [done.. |].
    by apply Forall_singleton.
Qed.

(** And forwards. *)
Ltac like_fwd := unfold like_step; repeat case_match; split_bool; try done; lia.

Lemma run_kDec t : digits 57 t -> like_loop kDec t = Some kDec.
Proof.
  induction 1 as [|c t Hc _ IH]; [done|]. simpl.
  assert (like_step kDec c = Some kDec) as -> by like_fwd. done.
Qed.

Lemma run_kDecSgined t : digits 57 t -> like_loop kDecSgined t = Some kDecSgined.
Proof.
  induction 1 as [|c t Hc _ IH]; [done|]. simpl.
  assert (like_step kDecSgined c = Some kDecSgined) as -> by like_fwd. done.
Qed.

Lemma run_kOct t : digits 55 t -> like_loop kOct t = Some kOct.
Proof.
  induction 1 as [|c t Hc _ IH]; [done|]. simpl.
  assert (like_step kOct c = Some kOct) as -> by like_fwd. done.
Qed.

Lemma run_kHex t : Forall is_hex t -> like_loop kHex t = Some kHex.
Proof.
  unfold is_hex. induction 1 as [|c t Hc _ IH]; [done|]. simpl.
  assert (like_step kHex c = Some kHex) as -> by like_fwd. done.
Qed.

(** [LikeNumber] recognises exactly the decimals without a leading zero
    ('d'), the signed decimals ('s'), the octals after a zero ('o') and the
    hexadecimals after 0x ('h'). *)
Theorem LikeNumber_spec s :
  (LikeNumber s = 100 <->
    s = [48] \/ exists c t, s = c :: t /\ 49 <= c <= 57 /\ digits 57 t) /\
  (LikeNumber s = 115 <->
    exists c t, s = c :: t /\ (c = 45 \/ c = 43) /\ t <> [] /\ digits 57 t) /\
  (LikeNumber s = 111 <-> exists t, s = 48 :: t /\ t <> [] /\ digits 55 t) /\
  (LikeNumber s = 104 <->
    exists x t, s = 48 :: x :: t /\ (x = 120 \/ x = 88) /\ t <> [] /\ Forall is_hex t).
Proof.
  unfold LikeNumber. split_and!; (split; [
    destruct (like_loop kInit s) as [[]|] eqn:E; try discriminate; intros _;
    eauto using like_kPrefixZero, like_kDec, like_kDecSgined, like_kOct, like_kHex |]).
  - intros [->|(c & t & -> & Hc & Ht)]; [done|]. cbn [like_loop].
    assert (like_step kInit c = Some kDec) as -> by like_fwd. by rewrite run_kDec.
  - intros (c & t & -> & Hc & Hne & Ht). destruct Ht as [|d t Hd Ht]; [done|]. cbn [like_loop].
    assert (like_step kInit c = Some kPrefixSign) as -> by (destruct Hc as [-> | ->]; done).
    assert (like_step kPrefixSign d = Some kDecSgined) as -> by like_fwd.
    by rewrite run_kDecSgined.
  - intros (t & -> & Hne & Ht). destruct Ht as [|d t Hd Ht]; [done|]. cbn [like_loop].
    change (like_step kInit 48) with (Some kPrefixZero). cbn iota.
    assert (like_step kPrefixZero d = Some kOct) as -> by like_fwd. by rewrite run_kOct.
  - intros (x & t & -> & Hx & Hne & Ht). destruct Ht as [|d t Hd Ht]; [done|]. cbn [like_loop].
    change (like_step kInit 48) with (Some kPrefixZero). cbn iota.
    assert (like_step kPrefixZero x = Some kPrefix0x) as -> by (destruct Hx as [-> | ->]; done).
    unfold is_hex in Hd.
    assert (like_step kPrefix0x d = Some kHex) as -> by like_fwd. by rewrite run_kHex.
Qed.
