(* ===== verification/Files.v ===== *)
(** * Files

    src/db/files.{h,cc}: the names of the files of a database, and the parser
    that tells from a name what a file is. *)

From Stdlib Require Import Strings.String Strings.Ascii.
From S2P Require Import Prelude Parse.

Definition str (s : string) : bytes := map (fun a => Z.of_N (N_of_ascii a)) (list_ascii_of_string s).

Inductive Kind := kUnknown | kLog | kSST_Table | kXMT_Table | kS1T_Table | kManifest | kCurrent | kLock.
#[global] Instance Kind_eq_dec : EqDecision Kind.
Proof. solve_decision. Defined.

Definition kLockName : bytes := str "LOCK".
Definition kCurrentName : bytes := str "CURRENT".
Definition kManifestPrefix : bytes := str "MANIFEST-".
Definition kLogPostfix : bytes := str ".log".
Definition kSstTablePostfix : bytes := str ".sst".
Definition kXmtTablePostfix : bytes := str ".xmt".
Definition kS1tTablePostfix : bytes := str ".s1t".
Definition kManifestPrefixLength : Z := 9.
Definition kLogPostfixLength : Z := 4.
Definition kTablePostfixLength : Z := 4.

(** [%llu]: a 64-bit word has at most 20 digits. *)
Fixpoint decimal_loop (fuel : nat) (v : Z) : bytes :=
  match fuel with
  | O => []
  | S fuel => if v <? 10 then [48 + v] else decimal_loop fuel (v / 10) ++ [48 + v mod 10]
  end.
Definition decimal (v : Z) : bytes := decimal_loop 20 v.

(** [snprintf] into a buffer of 260 bytes. *)
Definition printed (s : bytes) : bytes := take 259 s.

Definition LogFileName (db_name : bytes) (number : Z) : bytes :=
  printed (db_name ++ str "/" ++ decimal number ++ str ".log").

Definition table_ext (k : Kind) : bytes :=
  match k with
  | kSST_Table => kSstTablePostfix
  | kXMT_Table => kXmtTablePostfix
  | kS1T_Table => kS1tTablePostfix
  | _ => str ".ERROR"
  end.

Definition TableFileName (cf_path : bytes) (k : Kind) (number : Z) : bytes :=
  printed (cf_path ++ str "/" ++ decimal number ++ table_ext k).

Definition TableFileName' (db_name cf_name : bytes) (k : Kind) (number : Z) : bytes :=
  printed (db_name ++ str "/" ++ cf_name ++ str "/" ++ decimal number ++ table_ext k).

Definition ManifestFileName (db_name : bytes) (number : Z) : bytes :=
  printed (db_name ++ str "/MANIFEST-" ++ decimal number).

Definition CurrentFileName (db_name : bytes) : bytes := printed (db_name ++ str "/CURRENT").
Definition LockFileName (db_name : bytes) : bytes := db_name ++ str "/LOCK".

(** ** ParseName *)

Definition IsNumber (maybe : bytes) : bool :=
  negb (bool_decide (maybe = [])) && forallb (fun c => (48 <=? c) && (c <=? 57)) maybe.

Definition starts_with (pat s : bytes) : bool := bool_decide (take (length pat) s = pat).

(** [find] and [rfind] of [std::string]; [npos] is the largest word. *)
Definition npos : Z := 2 ^ 64 - 1.

Fixpoint rfind_loop (pat s : bytes) (n : nat) : Z :=
  if starts_with pat (drop n s) then Z.of_nat n
  else match n with O => npos | S n => rfind_loop pat s n end.

Definition rfind (pat s : bytes) : Z :=
  if zlen s <? zlen pat then npos else rfind_loop pat s (length s - length pat).

(** [atoll] of a string of digits. *)
Definition atoll (s : bytes) : Z := sgn 64 (num 10 0 s).

(** A name with the postfix [ext]: its number, when it is one.  [Some] means
    that this branch of the cascade is taken. *)
Definition by_postfix (ext : bytes) (k : Kind) (name : bytes) : option (Kind * Z) :=
  if rfind ext name =? wrap 64 (zlen name - 4) then
    let buf := take (Z.to_nat (Z.min (zlen name) (wrap 64 (zlen name - 4)))) name in
    Some (if IsNumber buf then (k, wrap 64 (atoll buf)) else (kUnknown, npos))
  else None.

Definition ParseName (name : bytes) : Kind * Z :=
  if bool_decide (name = kLockName) then (kLock, npos)
  else if bool_decide (name = kCurrentName) then (kCurrent, npos)
  else if starts_with kManifestPrefix name then
    let buf := drop (Z.to_nat kManifestPrefixLength) name in
    if IsNumber buf then (kManifest, wrap 64 (atoll buf)) else (kUnknown, npos)
  else
    default (kUnknown, npos)
      (match by_postfix kLogPostfix kLog name with
       | Some r => Some r
       | None => match by_postfix kSstTablePostfix kSST_Table name with
         | Some r => Some r
         | None => match by_postfix kXmtTablePostfix kXMT_Table name with
           | Some r => Some r
           | None => by_postfix kS1tTablePostfix kS1T_Table name
           end
         end
       end).

(** A name of three digits has no postfix, but [rfind] and the length agree on
    the largest word. *)
Example three_digits_are_a_log : ParseName (str "123") = (kLog, 123).
Proof. vm_compute. reflexivity. Qed.

(** ** Printing and parsing numbers *)

Lemma decimal_loop_spec fuel v :
  0 <= v < 10 ^ Z.of_nat fuel -> (0 < fuel)%nat ->
  digits 57 (decimal_loop fuel v) /\ decimal_loop fuel v <> [] /\ num 10 0 (decimal_loop fuel v) = v /\
  zlen (decimal_loop fuel v) <= Z.of_nat fuel.
Proof.
  revert v. induction fuel as [|fuel IH]; intros v Hv Hf; [lia|]. cbn [decimal_loop].
  destruct (Z.ltb_spec v 10).
  - split_and!; [apply Forall_singleton; lia | done | cbn; lia | unfold zlen; cbn; lia].
  - rewrite Nat2Z.inj_succ, Z.pow_succ_r in Hv by lia.
    assert (0 < fuel)%nat as Hf' by (destruct fuel; [cbn in Hv; lia | lia]).
    destruct (IH (v / 10)) as (H1 & H2 & H3 & H4); [|done|].
    { split; [apply Z.div_pos; lia | apply Z.div_lt_upper_bound; lia]. }
    pose proof (Z.mod_pos_bound v 10 ltac:(lia)). split_and!.
    + apply digits_app. split; [done|]. apply Forall_singleton. lia.
    + by intros [_ ?]%app_eq_nil.
    + rewrite num_app, H3. cbn [num fold_left]. pose proof (Z.div_mod v 10). lia.
    + rewrite zlen_app. unfold zlen at 2. cbn [length]. lia.
Qed.

Lemma decimal_spec v :
  is_u 63 v -> IsNumber (decimal v) = true /\ digits 57 (decimal v) /\ wrap 64 (atoll (decimal v)) = v /\
  1 <= zlen (decimal v) <= 20.
Proof.
  intros Hv. unfold is_u in Hv. destruct (decimal_loop_spec 20 v) as (H1 & H2 & H3 & H4).
  { split; [lia|]. etransitivity; [apply Hv|]. done. }
  { lia. }
  fold (decimal v) in *. split_and!; [| done | | | lia].
  - unfold IsNumber. rewrite bool_decide_eq_false_2 by done. cbn [negb andb].
    apply forallb_forall. intros c Hc%list_elem_of_In. unfold digits in H1. rewrite Forall_forall in H1.
    specialize (H1 c Hc). apply andb_true_iff. split; apply Z.leb_le; lia.
  - unfold atoll, sgn. rewrite H3, (wrap_small 64 v) by (unfold is_u; lia).
    change (64 - 1) with 63. destruct (Z.ltb_spec v (2 ^ 63)); [|lia]. apply wrap_small. unfold is_u. lia.
  - destruct (decimal v) as [|c s]; [done|]. rewrite zlen_cons in *. pose proof (zlen_nonneg s). lia.
Qed.

(** *** Searching for a postfix *)

Lemma rfind_loop_npos pat s n : rfind_loop pat s n <= Z.of_nat n \/ rfind_loop pat s n = npos.
Proof.
  induction n as [|n IH]; cbn [rfind_loop]; destruct (starts_with _ _); try (left; lia); [by right | lia].
Qed.

Lemma rfind_loop_here pat s n :
  Z.of_nat n < npos -> rfind_loop pat s n = Z.of_nat n <-> starts_with pat (drop n s) = true.
Proof.
  intros Hn. destruct n as [|n]; cbn [rfind_loop]; destruct (starts_with _ _) eqn:E; try done.
  split; [|done]. intros ?. exfalso. pose proof (rfind_loop_npos pat s n) as [?|?]; lia.
Qed.

Lemma by_postfix_app ext ext' k p :
  length ext = 4%nat -> length ext' = 4%nat -> zlen p < 2 ^ 32 ->
  by_postfix ext k (p ++ ext') =
  if bool_decide (ext = ext') then Some (if IsNumber p then (k, wrap 64 (atoll p)) else (kUnknown, npos))
  else None.
Proof.
  intros H4 H4' Hp. unfold by_postfix, rfind. pose proof (zlen_nonneg p).
  assert (zlen (p ++ ext') = zlen p + 4) as Hz by (rewrite zlen_app; unfold zlen; rewrite H4'; lia).
  rewrite Hz. replace (zlen p + 4 - 4) with (zlen p) by lia. rewrite wrap_small by (unfold is_u; lia).
  destruct (Z.ltb_spec (zlen p + 4) (zlen ext)) as [Hl|_]; [unfold zlen in *; lia|].
  rewrite length_app, H4, H4', Nat.add_sub.
  pose proof (rfind_loop_here ext (p ++ ext') (length p)) as Hr.
  rewrite drop_app_length in Hr. unfold starts_with in Hr. rewrite take_ge in Hr by lia.
  specialize (Hr ltac:(unfold npos, zlen in *; lia)).
  replace (take _ (p ++ ext')) with p.
  2: { rewrite Z.min_r by lia. unfold zlen. by rewrite Nat2Z.id, take_app_length. }
  unfold zlen at 1. rewrite bool_decide_eq_true in Hr.
  destruct (Z.eqb_spec (rfind_loop ext (p ++ ext') (length p)) (Z.of_nat (length p))) as [E|E].
  - rewrite bool_decide_eq_true_2; [done|]. symmetry. by apply Hr.
  - rewrite bool_decide_eq_false_2; [done|]. intros ->. by apply E, Hr.
Qed.

(** A number is none of the fixed names and does not begin like a manifest. *)
Lemma ParseName_number p ext :
  digits 57 p -> p <> [] -> length ext = 4%nat -> zlen p < 2 ^ 32 ->
  ParseName (p ++ ext) =
  default (kUnknown, npos)
    (if bool_decide (kLogPostfix = ext) then Some (if IsNumber p then (kLog, wrap 64 (atoll p)) else (kUnknown, npos))
     else if bool_decide (kSstTablePostfix = ext) then Some (if IsNumber p then (kSST_Table, wrap 64 (atoll p)) else (kUnknown, npos))
     else if bool_decide (kXmtTablePostfix = ext) then Some (if IsNumber p then (kXMT_Table, wrap 64 (atoll p)) else (kUnknown, npos))
     else if bool_decide (kS1tTablePostfix = ext) then Some (if IsNumber p then (kS1T_Table, wrap 64 (atoll p)) else (kUnknown, npos))
     else None).
Proof.
  intros Hd Hne H4 Hp. unfold ParseName. destruct p as [|c p]; [done|].
  apply Forall_cons in Hd as [Hc _].
  assert (forall l d r, d :: r = l -> 57 < d -> bool_decide ((c :: p) ++ ext = l) = false) as Hno
    by (intros l d r <- Hdd; apply bool_decide_eq_false_2; intros [= -> _]; lia).
  rewrite (Hno kLockName 76 (str "OCK")), (Hno kCurrentName 67 (str "URRENT")) by done.
  assert (starts_with kManifestPrefix ((c :: p) ++ ext) = false) as ->.
  { apply bool_decide_eq_false_2. cbn. intros [= E _]. cbn in E. lia. }
  rewrite !by_postfix_app by done. by repeat case_bool_decide.
Qed.

Lemma printed_short s : zlen s <= 259 -> printed s = s.
Proof. intros H. apply take_ge. unfold zlen in H. lia. Qed.

(** ** Properties *)

(** For every file number below 2^63 and a directory path that fits the
    buffer, the name made for a log, a table of any kind, or a manifest is the
    directory, a slash and a base name that [ParseName] maps back to that kind
    and number; [CURRENT] and [LOCK] are recognised too. *)
Theorem ParseName_roundtrip d n :
  is_u 63 n -> zlen d <= 229 ->
  (exists b, LogFileName d n = d ++ str "/" ++ b /\ ParseName b = (kLog, n)) /\
  (forall k, k ∈ [kSST_Table; kXMT_Table; kS1T_Table] ->
    exists b, TableFileName d k n = d ++ str "/" ++ b /\ ParseName b = (k, n)) /\
  (exists b, ManifestFileName d n = d ++ str "/" ++ b /\ ParseName b = (kManifest, n)) /\
  (exists b, CurrentFileName d = d ++ str "/" ++ b /\ ParseName b = (kCurrent, npos)) /\
  (exists b, LockFileName d = d ++ str "/" ++ b /\ ParseName b = (kLock, npos)).
Proof.
  intros Hn Hd. destruct (decimal_spec n Hn) as (H1 & H2 & H3 & H4).
  assert (decimal n <> []) as Hne by (intros E; rewrite E, zlen_nil in H4; lia).
  assert (Hshort : forall pre ext : bytes, zlen pre + zlen ext <= 10 ->
    printed (d ++ pre ++ decimal n ++ ext) = d ++ pre ++ decimal n ++ ext)
    by (intros; apply printed_short; rewrite !zlen_app; lia).
  split_and!.
  - exists (decimal n ++ kLogPostfix). split; [by apply Hshort|].
    rewrite ParseName_number by (done || lia). rewrite bool_decide_eq_true_2 by done.
    cbn [default]. by rewrite H1, H3.
  - intros k Hk. exists (decimal n ++ table_ext k). split; [apply Hshort; by destruct k|].
    rewrite !elem_of_cons, elem_of_nil in Hk. destruct_or!; subst k; try done.
    all: rewrite ParseName_number by (done || lia); repeat (rewrite bool_decide_eq_false_2 by done);
      rewrite bool_decide_eq_true_2 by done; cbn [default]; by rewrite H1, H3.
  - exists (kManifestPrefix ++ decimal n). split.
    + unfold ManifestFileName. rewrite <- (app_nil_r (decimal n)) at 1.
      rewrite (Hshort (str "/MANIFEST-") []) by done. by rewrite app_nil_r.
    + unfold ParseName. rewrite bool_decide_eq_false_2, bool_decide_eq_false_2 by done.
      assert (starts_with kManifestPrefix (kManifestPrefix ++ decimal n) = true) as -> by
        (apply bool_decide_eq_true_2; apply take_app_length).
      change (Z.to_nat kManifestPrefixLength) with (length kManifestPrefix).
      rewrite drop_app_length. by rewrite H1, H3.
  - exists (str "CURRENT"). split; [|done]. apply printed_short. rewrite zlen_app. unfold zlen at 2. cbn. lia.
  - by exists (str "LOCK").
Qed.

Lemma ParseName_roundtrip_witness :
  exists b, LogFileName (str "/tmp/db") 42 = str "/tmp/db" ++ str "/" ++ b /\ ParseName b = (kLog, 42).
Proof. apply (ParseName_roundtrip (str "/tmp/db") 42); [done | by vm_compute]. Defined.
