(* ===== verification/Hash.v ===== *)
(** * Hash

    src/base/hash.cc and src/base/crc32.c: the string hashes used by the bloom
    filters, the hash tables and the lock stripes, and the table-driven CRC-32
    with which the log and the table blocks are protected.  [char] is signed;
    arithmetic on the [int] of [Js] wraps (two's complement). *)

From S2P Require Import Prelude.

(** [*s] of a [const char *], promoted to [int]. *)
Definition schar (b : Z) : Z := sgn 8 b.

Definition Js (s : bytes) : Z :=
  wrap 32 (fold_left (fun hash c =>
    sgn 32 (Z.lxor hash (sgn 32 (Z.shiftl hash 5 + schar c + Z.shiftr hash 2))))
    s 1315423911).

Definition Sdbm (s : bytes) : Z :=
  fold_left (fun hash c =>
    let hash := wrap 32 (65599 * hash + schar c) in
    wrap 32 (schar c + Z.shiftl hash 6 + Z.shiftl hash 16 - hash)) s 0.

Definition Rs (s : bytes) : Z :=
  fst (fold_left (fun '(hash, a) c =>
    (wrap 32 (hash * a + schar c), wrap 32 (a * 378551))) s (0, 63689)).

Definition Elf (s : bytes) : Z :=
  fold_left (fun hash c =>
    let hash := wrap 32 (Z.shiftl hash 4 + schar c) in
    let x := Z.land hash 0xF0000000 in
    if negb (x =? 0) then Z.ldiff (Z.lxor hash (Z.shiftr x 24)) x else hash) s 0.

Definition Bkdr (s : bytes) : Z :=
  fold_left (fun hash c => wrap 32 (hash * 131 + schar c)) s 0.

(** [Hash::kBloomFilterHashs]. *)
Definition kBloomFilterHashs : list (bytes -> Z) := [Js; Rs; Bkdr; Sdbm; Elf].

(** ** CRC-32 *)

Definition crc32_tab : list Z := [
   0x00000000; 0x77073096; 0xee0e612c; 0x990951ba; 0x076dc419; 0x706af48f;
   0xe963a535; 0x9e6495a3; 0x0edb8832; 0x79dcb8a4; 0xe0d5e91e; 0x97d2d988;
   0x09b64c2b; 0x7eb17cbd; 0xe7b82d07; 0x90bf1d91; 0x1db71064; 0x6ab020f2;
   0xf3b97148; 0x84be41de; 0x1adad47d; 0x6ddde4eb; 0xf4d4b551; 0x83d385c7;
   0x136c9856; 0x646ba8c0; 0xfd62f97a; 0x8a65c9ec; 0x14015c4f; 0x63066cd9;
   0xfa0f3d63; 0x8d080df5; 0x3b6e20c8; 0x4c69105e; 0xd56041e4; 0xa2677172;
   0x3c03e4d1; 0x4b04d447; 0xd20d85fd; 0xa50ab56b; 0x35b5a8fa; 0x42b2986c;
   0xdbbbc9d6; 0xacbcf940; 0x32d86ce3; 0x45df5c75; 0xdcd60dcf; 0xabd13d59;
   0x26d930ac; 0x51de003a; 0xc8d75180; 0xbfd06116; 0x21b4f4b5; 0x56b3c423;
   0xcfba9599; 0xb8bda50f; 0x2802b89e; 0x5f058808; 0xc60cd9b2; 0xb10be924;
   0x2f6f7c87; 0x58684c11; 0xc1611dab; 0xb6662d3d; 0x76dc4190; 0x01db7106;
   0x98d220bc; 0xefd5102a; 0x71b18589; 0x06b6b51f; 0x9fbfe4a5; 0xe8b8d433;
   0x7807c9a2; 0x0f00f934; 0x9609a88e; 0xe10e9818; 0x7f6a0dbb; 0x086d3d2d;
   0x91646c97; 0xe6635c01; 0x6b6b51f4; 0x1c6c6162; 0x856530d8; 0xf262004e;
   0x6c0695ed; 0x1b01a57b; 0x8208f4c1; 0xf50fc457; 0x65b0d9c6; 0x12b7e950;
   0x8bbeb8ea; 0xfcb9887c; 0x62dd1ddf; 0x15da2d49; 0x8cd37cf3; 0xfbd44c65;
   0x4db26158; 0x3ab551ce; 0xa3bc0074; 0xd4bb30e2; 0x4adfa541; 0x3dd895d7;
   0xa4d1c46d; 0xd3d6f4fb; 0x4369e96a; 0x346ed9fc; 0xad678846; 0xda60b8d0;
   0x44042d73; 0x33031de5; 0xaa0a4c5f; 0xdd0d7cc9; 0x5005713c; 0x270241aa;
   0xbe0b1010; 0xc90c2086; 0x5768b525; 0x206f85b3; 0xb966d409; 0xce61e49f;
   0x5edef90e; 0x29d9c998; 0xb0d09822; 0xc7d7a8b4; 0x59b33d17; 0x2eb40d81;
   0xb7bd5c3b; 0xc0ba6cad; 0xedb88320; 0x9abfb3b6; 0x03b6e20c; 0x74b1d29a;
   0xead54739; 0x9dd277af; 0x04db2615; 0x73dc1683; 0xe3630b12; 0x94643b84;
   0x0d6d6a3e; 0x7a6a5aa8; 0xe40ecf0b; 0x9309ff9d; 0x0a00ae27; 0x7d079eb1;
   0xf00f9344; 0x8708a3d2; 0x1e01f268; 0x6906c2fe; 0xf762575d; 0x806567cb;
   0x196c3671; 0x6e6b06e7; 0xfed41b76; 0x89d32be0; 0x10da7a5a; 0x67dd4acc;
   0xf9b9df6f; 0x8ebeeff9; 0x17b7be43; 0x60b08ed5; 0xd6d6a3e8; 0xa1d1937e;
   0x38d8c2c4; 0x4fdff252; 0xd1bb67f1; 0xa6bc5767; 0x3fb506dd; 0x48b2364b;
   0xd80d2bda; 0xaf0a1b4c; 0x36034af6; 0x41047a60; 0xdf60efc3; 0xa867df55;
   0x316e8eef; 0x4669be79; 0xcb61b38c; 0xbc66831a; 0x256fd2a0; 0x5268e236;
   0xcc0c7795; 0xbb0b4703; 0x220216b9; 0x5505262f; 0xc5ba3bbe; 0xb2bd0b28;
   0x2bb45a92; 0x5cb36a04; 0xc2d7ffa7; 0xb5d0cf31; 0x2cd99e8b; 0x5bdeae1d;
   0x9b64c2b0; 0xec63f226; 0x756aa39c; 0x026d930a; 0x9c0906a9; 0xeb0e363f;
   0x72076785; 0x05005713; 0x95bf4a82; 0xe2b87a14; 0x7bb12bae; 0x0cb61b38;
   0x92d28e9b; 0xe5d5be0d; 0x7cdcefb7; 0x0bdbdf21; 0x86d3d2d4; 0xf1d4e242;
   0x68ddb3f8; 0x1fda836e; 0x81be16cd; 0xf6b9265b; 0x6fb077e1; 0x18b74777;
   0x88085ae6; 0xff0f6a70; 0x66063bca; 0x11010b5c; 0x8f659eff; 0xf862ae69;
   0x616bffd3; 0x166ccf45; 0xa00ae278; 0xd70dd2ee; 0x4e048354; 0x3903b3c2;
   0xa7672661; 0xd06016f7; 0x4969474d; 0x3e6e77db; 0xaed16a4a; 0xd9d65adc;
   0x40df0b66; 0x37d83bf0; 0xa9bcae53; 0xdebb9ec5; 0x47b2cf7f; 0x30b5ffe9;
   0xbdbdf21c; 0xcabac28a; 0x53b39330; 0x24b4a3a6; 0xbad03605; 0xcdd70693;
   0x54de5729; 0x23d967bf; 0xb3667a2e; 0xc4614ab8; 0x5d681b02; 0x2a6f2b94;
   0xb40bbe37; 0xc30c8ea1; 0x5a05df1b; 0x2d02ef8d].

(** One turn of the loop: [crc = tab[(crc ^ *p++) & 0xFF] ^ (crc >> 8)]. *)
Definition crc_step (crc b : Z) : Z :=
  Z.lxor (nth (Z.to_nat (Z.land (Z.lxor crc b) 0xFF)) crc32_tab 0) (Z.shiftr crc 8).

Definition crc32 (crc : Z) (s : bytes) : Z :=
  Z.lxor (fold_left crc_step s (Z.lxor crc 0xFFFFFFFF)) 0xFFFFFFFF.

(** ** The bit-by-bit definition of the polynomial *)

Definition poly : Z := 0xedb88320.

Definition bit_step (x : Z) : Z :=
  Z.lxor (Z.shiftr x 1) (if Z.odd x then poly else 0).

Fixpoint bit_steps (n : nat) (x : Z) : Z :=
  match n with O => x | S n => bit_steps n (bit_step x) end.

(** The CRC computed one bit at a time. *)
Definition crc32_ref (crc : Z) (s : bytes) : Z :=
  Z.lxor (fold_left (fun x b => bit_steps 8 (Z.lxor x b)) s (Z.lxor crc 0xFFFFFFFF)) 0xFFFFFFFF.

Lemma bit_step_lxor a b : bit_step (Z.lxor a b) = Z.lxor (bit_step a) (bit_step b).
Proof.
  unfold bit_step. rewrite Z.shiftr_lxor.
  assert (Z.odd (Z.lxor a b) = xorb (Z.odd a) (Z.odd b)) as ->
    by (rewrite <- !Z.bit0_odd; apply Z.lxor_spec).
  destruct (Z.odd a), (Z.odd b); simpl xorb; cbn iota;
    apply Z.bits_inj'; intros n Hn; rewrite !Z.lxor_spec, ?Z.bits_0;
    destruct (Z.testbit (Z.shiftr a 1) n), (Z.testbit (Z.shiftr b 1) n), (Z.testbit poly n); done.
Qed.

Lemma bit_steps_lxor n a b : bit_steps n (Z.lxor a b) = Z.lxor (bit_steps n a) (bit_steps n b).
Proof. revert a b. induction n; intros; simpl; [done|]. by rewrite bit_step_lxor. Qed.

Lemma bit_step_shiftl y k : 0 <= k -> bit_step (Z.shiftl y (k + 1)) = Z.shiftl y k.
Proof.
  intros Hk. unfold bit_step.
  assert (Z.odd (Z.shiftl y (k + 1)) = false) as ->.
  { rewrite <- Z.bit0_odd, Z.shiftl_spec by lia. apply Z.testbit_neg_r. lia. }
  rewrite Z.lxor_0_r, Z.shiftr_shiftl_l by lia. f_equal. lia.
Qed.

Lemma bit_steps_shiftl n y : bit_steps n (Z.shiftl y (Z.of_nat n)) = y.
Proof.
  induction n as [|n IH]; [apply Z.shiftl_0_r|]. cbn [bit_steps].
  replace (Z.of_nat (S n)) with (Z.of_nat n + 1) by lia. by rewrite bit_step_shiftl by lia.
Qed.

(** Every entry of the table is eight bit steps of its index. *)
Lemma crc32_tab_steps : crc32_tab = map (fun i => bit_steps 8 (Z.of_nat i)) (seq 0 256).
Proof. vm_compute. reflexivity. Qed.

Lemma crc32_tab_lookup i : 0 <= i < 256 -> nth (Z.to_nat i) crc32_tab 0 = bit_steps 8 i.
Proof.
  intros Hi. rewrite crc32_tab_steps.
  rewrite (nth_indep _ 0 (bit_steps 8 (Z.of_nat 0)))
    by (rewrite length_map, length_seq; lia).
  rewrite (map_nth (fun i => bit_steps 8 (Z.of_nat i))), seq_nth by lia. f_equal. lia.
Qed.

Lemma split_byte x : x = Z.lxor (Z.shiftl (Z.shiftr x 8) 8) (Z.land x 0xFF).
Proof.
  change 0xFF with (Z.ones 8). apply Z.bits_inj'. intros n Hn.
  rewrite Z.lxor_spec, Z.land_spec, Z.shiftl_spec by done.
  destruct (Z.lt_ge_cases n 8).
  - rewrite (Z.testbit_neg_r _ (n - 8)), Z.ones_spec_low by lia. by destruct (Z.testbit x n).
  - rewrite Z.shiftr_spec, Z.ones_spec_high by lia. replace (n - 8 + 8) with n by lia.
    by destruct (Z.testbit x n).
Qed.

Lemma crc_step_bits crc b :
  is_byte b -> crc_step crc b = bit_steps 8 (Z.lxor crc b).
Proof.
  intros Hb. unfold crc_step.
  assert (Hr : 0 <= Z.land (Z.lxor crc b) 0xFF < 256).
  { change 0xFF with (Z.ones 8). rewrite land_ones_mod by lia. apply Z.mod_pos_bound. lia. }
  rewrite crc32_tab_lookup by done.
  rewrite (split_byte (Z.lxor crc b)) at 2. rewrite bit_steps_lxor.
  change 8 with (Z.of_nat 8) at 3. rewrite bit_steps_shiftl, Z.shiftr_lxor.
  assert (Z.shiftr b 8 = 0) as ->.
  { rewrite shiftr_div by lia. apply Z.div_small, Hb. }
  by rewrite Z.lxor_0_r, Z.lxor_comm.
Qed.

Lemma lxor_ones_cancel x m : Z.lxor (Z.lxor x m) m = x.
Proof. by rewrite Z.lxor_assoc, Z.lxor_nilpotent, Z.lxor_0_r. Qed.

(** Checksums can be computed in pieces. *)
Lemma crc32_app crc s t : crc32 (crc32 crc s) t = crc32 crc (s ++ t).
Proof. unfold crc32. by rewrite lxor_ones_cancel, fold_left_app. Qed.

Lemma lxor_is_u w a b : 0 <= w -> is_u w a -> is_u w b -> is_u w (Z.lxor a b).
Proof.
  unfold is_u. intros Hw [Ha0 Ha1] [Hb0 Hb1]. split; [apply Z.lxor_nonneg; lia|].
  destruct (Z.eq_dec (Z.lxor a b) 0) as [E|E]; [rewrite E; apply Z.pow_pos_nonneg; lia|].
  assert (0 <= Z.lxor a b) by (apply Z.lxor_nonneg; lia).
  apply Z.log2_lt_pow2; [lia|]. eapply Z.le_lt_trans; [apply Z.log2_lxor; lia|].
  destruct (Z.eq_dec w 0) as [->|]; [change (2 ^ 0) with 1 in *; exfalso; apply E;
    replace a with 0 by lia; replace b with 0 by lia; done|].
  assert (forall x, 0 <= x < 2 ^ w -> Z.log2 x < w) as Hl.
  { intros x Hx. destruct (Z.eq_dec x 0) as [->|]; [cbn; lia|]. apply Z.log2_lt_pow2; lia. }
  apply Z.max_lub_lt; apply Hl; lia.
Qed.

Lemma crc_tab_is_u i : is_u 32 (nth i crc32_tab 0).
Proof.
  destruct (nth_in_or_default i crc32_tab 0) as [Hin|Hd]; [|rewrite Hd; unfold is_u; lia].
  assert (forallb (fun x => (0 <=? x) && (x <? 2 ^ 32)) crc32_tab = true) as HF
    by (vm_compute; reflexivity).
  rewrite forallb_forall in HF. apply HF in Hin. split_bool. unfold is_u. lia.
Qed.

Lemma crc32_is_u crc s : is_u 32 crc -> is_u 32 (crc32 crc s).
Proof.
  intros Hc. unfold crc32. apply lxor_is_u; [lia| |unfold is_u; lia].
  assert (is_u 32 (Z.lxor crc 0xFFFFFFFF)) as H by (apply lxor_is_u; unfold is_u in *; lia).
  revert H. generalize (Z.lxor crc 0xFFFFFFFF). induction s as [|b s IH]; intros x Hx; [done|].
  simpl. apply IH. unfold crc_step. apply lxor_is_u; [lia | apply crc_tab_is_u |].
  rewrite shiftr_div by lia. unfold is_u in *. split; [apply Z.div_pos; lia|].
  apply Z.le_lt_trans with x; [|lia]. apply Z.div_le_upper_bound; lia.
Qed.

Lemma fold_crc_bits s x :
  byte_str s ->
  fold_left crc_step s x = fold_left (fun x b => bit_steps 8 (Z.lxor x b)) s x.
Proof.
  intros Hs. apply (fold_left_Forall_ext is_byte); [|exact Hs].
  intros a b Hb. by apply crc_step_bits.
Qed.

(** ** Properties *)

(** C32: the table-driven [crc32] computes, on every byte string and from every
    starting value, the bit-by-bit CRC of the polynomial edb88320; it can be
    continued over the pieces of a split buffer, and stays in 32 bits. *)
Theorem crc32_correct crc s t :
  byte_str s ->
  crc32 crc s = crc32_ref crc s /\ crc32 (crc32 crc s) t = crc32 crc (s ++ t) /\
  (is_u 32 crc -> is_u 32 (crc32 crc s)).
Proof.
  intros Hs. split_and!; [| apply crc32_app | apply crc32_is_u].
  unfold crc32, crc32_ref. by rewrite fold_crc_bits by exact Hs.
Qed.

Lemma crc32_correct_witness :
  crc32 0 [49; 50; 51; 52; 53; 54; 55; 56; 57] = crc32_ref 0 [49; 50; 51; 52; 53; 54; 55; 56; 57].
Proof. apply (crc32_correct 0 _ []). repeat constructor; discriminate. Defined.
