(* ===== verification/IO.v ===== *)
(** * IO

    src/base/io-utils.h and src/port/file-posix.cc: files and the readers and
    writers the log and the tables use.

    [WritableFile] is the interface of include/mai/env.h as a class of
    operations with its law [WritableFileLaws]: an append that succeeds has
    extended the contents by the data.  [PosixWritableFile] (over the results
    the [write] system call gives) and [BufferedWritableFile] (over any file)
    are its implementations; the log writer is a client of the class alone. *)

From S2P Require Import Prelude Varint Slice.

(** ** Reading *)

(** [MemPosixSequentialFile]: the mapped bytes and the position. *)
Record SequentialFile := mkSeq { sf_data : bytes; sf_pos : Z }.

(** [Read(n)]: at or past the end the error is [kEOF] (even for [n = 0]); a
    read that crosses the end is short and succeeds. *)
Definition seq_Read (n : Z) (f : SequentialFile) : error * bytes * SequentialFile :=
  if zlen (sf_data f) <=? sf_pos f then (kEOF, [], f)
  else
    let read_size := if n <? zlen (sf_data f) - sf_pos f then n else zlen (sf_data f) - sf_pos f in
    (kOk, take (Z.to_nat read_size) (drop (Z.to_nat (sf_pos f)) (sf_data f)),
     mkSeq (sf_data f) (sf_pos f + read_size)).

Definition seq_Skip (n : Z) (f : SequentialFile) : error * SequentialFile :=
  if zlen (sf_data f) <=? sf_pos f then (kEOF, f)
  else
    let new_pos := sf_pos f + n in
    let new_pos := if zlen (sf_data f) <? new_pos then zlen (sf_data f) else new_pos in
    (kOk, mkSeq (sf_data f) new_pos).

(** [FileReader]. *)
Record FileReader := mkFR { fr_file : SequentialFile; fr_error : error; fr_read_size : Z }.

Definition NewFileReader (f : SequentialFile) : FileReader := mkFR f kOk 0.

Definition fr_Read (n : Z) (r : FileReader) : bytes * FileReader :=
  let '(e, result, f) := seq_Read n (fr_file r) in
  if bool_decide (e = kEOF) then (GetPad n, mkFR f e (fr_read_size r))
  else if ok e then (result, mkFR f e (fr_read_size r + zlen result))
  else (result, mkFR f e (fr_read_size r)).

(** [ReadByte], [ReadFixed16], [ReadFixed32] and [ReadFixed64]: a short view
    fails the size check of [SetFixed]. *)
Definition fr_ReadFixed (k : nat) (r : FileReader) : option (Z * FileReader) :=
  let '(result, r) := fr_Read (Z.of_nat k) r in
  v ← SetFixed k result; Some (v, r).

Definition fr_ReadByte (r : FileReader) : option (Z * FileReader) :=
  let '(result, r) := fr_Read 1 r in b ← result !! 0%nat; Some (b, r).

Definition fr_Skip (n : Z) (r : FileReader) : FileReader :=
  let '(e, f) := seq_Skip n (fr_file r) in
  mkFR f e (if ok e then fr_read_size r + n else fr_read_size r).

(** The reader stands between [pre] and [rest]. *)
Definition reader_at (r : FileReader) (pre rest : bytes) : Prop :=
  sf_data (fr_file r) = pre ++ rest /\ sf_pos (fr_file r) = zlen pre.

Lemma fr_Read_at r pre d rest :
  reader_at r pre (d ++ rest) -> d ++ rest <> [] ->
  exists r', fr_Read (zlen d) r = (d, r') /\ reader_at r' (pre ++ d) rest /\ fr_error r' = kOk.
Proof.
  intros [Hd Hp] Hne. assert (0 < zlen d + zlen rest).
  { rewrite <- zlen_app. pose proof (zlen_nonneg (d ++ rest)).
    assert (zlen (d ++ rest) <> 0) by (intros E; by apply Hne, zlen_0). lia. }
  pose proof (zlen_nonneg rest). pose proof (zlen_nonneg d).
  unfold fr_Read, seq_Read. rewrite Hd, Hp, !zlen_app.
  destruct (Z.leb_spec (zlen pre + (zlen d + zlen rest)) (zlen pre)); [lia|].
  replace (if zlen d <? _ then zlen d else _) with (zlen d) by (case_cmps).
  assert (take (Z.to_nat (zlen d)) (drop (Z.to_nat (zlen pre)) (pre ++ d ++ rest)) = d) as ->
    by (unfold zlen; by rewrite !Nat2Z.id, drop_app_length, take_app_length).
  eexists. split; [reflexivity|]. split; [|done]. unfold reader_at. simpl.
  by rewrite zlen_app, <- app_assoc.
Qed.

Lemma fr_Read_eof r pre n :
  reader_at r pre [] ->
  fr_Read n r = (GetPad n, mkFR (fr_file r) kEOF (fr_read_size r)).
Proof.
  intros [Hd Hp]. unfold fr_Read, seq_Read. rewrite Hd, Hp, app_nil_r.
  by destruct (Z.leb_spec (zlen pre) (zlen pre)); [|lia].
Qed.

Lemma fr_Skip_at r pre d rest :
  reader_at r pre (d ++ rest) -> d <> [] ->
  exists r', fr_Skip (zlen d) r = r' /\ reader_at r' (pre ++ d) rest.
Proof.
  intros [Hd Hp] Hne. assert (0 < zlen d).
  { pose proof (zlen_nonneg d). assert (zlen d <> 0) by (intros E; by apply Hne, zlen_0). lia. }
  pose proof (zlen_nonneg rest). eexists. split; [reflexivity|].
  unfold fr_Skip, seq_Skip, reader_at. rewrite Hd, Hp, !zlen_app.
  destruct (Z.leb_spec (zlen pre + (zlen d + zlen rest)) (zlen pre)); [lia|].
  destruct (Z.ltb_spec (zlen pre + (zlen d + zlen rest)) (zlen pre + zlen d)); [lia|].
  simpl. by rewrite <- app_assoc.
Qed.

Lemma fr_ReadFixed_at k r pre v rest :
  (0 < k)%nat -> reader_at r pre (le_bytes k v ++ rest) ->
  exists r', fr_ReadFixed k r = Some (v mod 256 ^ Z.of_nat k, r') /\
    reader_at r' (pre ++ le_bytes k v) rest /\ fr_error r' = kOk.
Proof.
  intros Hk Hr. unfold fr_ReadFixed.
  destruct (fr_Read_at r pre (le_bytes k v) rest) as (r' & Hrd & Hat & He); [done | |].
  { by destruct k; [lia|]. }
  rewrite zlen_le_bytes in Hrd. rewrite Hrd.
  pose proof (SetFixed_le_bytes k v []) as Hs. rewrite app_nil_r in Hs. rewrite Hs. eauto.
Qed.

Lemma fr_ReadByte_at r pre b rest :
  reader_at r pre ([b] ++ rest) ->
  exists r', fr_ReadByte r = Some (b, r') /\ reader_at r' (pre ++ [b]) rest /\ fr_error r' = kOk.
Proof.
  intros Hr. unfold fr_ReadByte.
  destruct (fr_Read_at r pre [b] rest) as (r' & Hrd & Hat & He); [done..|].
  change (zlen [b]) with 1 in Hrd. rewrite Hrd. eauto.
Qed.

(** [MemPosixRandomAccessFile::Read]. *)
Definition ra_Read (data : bytes) (offset n : Z) : error * bytes :=
  if zlen data <? offset then (kIOError, [])
  else
    let n := if zlen data - offset <? n then zlen data - offset else n in
    (kOk, take (Z.to_nat n) (drop (Z.to_nat offset) data)).

(** [RandomAccessFileReader]: the view and the error left in [error_]. *)
Definition rr_Read (data : bytes) (offset n : Z) : bytes * error :=
  let '(e, result) := ra_Read data offset n in
  if bool_decide (e = kEOF) then (result, e)
  else if ok e then (result, e) else (GetPad n, e).

Definition rr_ReadFixed (k : nat) (data : bytes) (offset : Z) : option (Z * error) :=
  let '(result, e) := rr_Read data offset (Z.of_nat k) in
  v ← SetFixed k result; Some (v, e).

Definition rr_ReadByte (data : bytes) (offset : Z) : option (Z * error) :=
  let '(result, e) := rr_Read data offset 1 in b ← result !! 0%nat; Some (b, e).

(** [ReadVarint32] and [ReadVarint64]: the value, its length and the error. *)
Definition rr_ReadVarint32 (data : bytes) (offset : Z) : option (Z * Z * error) :=
  let '(result, e) := rr_Read data offset kMaxLen32 in
  '(v, n) ← Decode32 result; Some (v, n, e).

Definition rr_ReadVarint64 (data : bytes) (offset : Z) : option (Z * Z * error) :=
  let '(result, e) := rr_Read data offset kMaxLen64 in
  '(v, n) ← Decode64 result; Some (v, n, e).

(** ** Writing *)

Class WritableFile (F : Type) := {
  contents : F -> bytes;
  wf_Append : bytes -> F -> error * F;
  wf_Flush : F -> error * F;
}.

Class WritableFileLaws (F : Type) `{WritableFile F} : Prop := {
  wf_Append_ok d f f' : wf_Append d f = (kOk, f') -> contents f' = contents f ++ d;
  wf_Flush_ok f f' : wf_Flush f = (kOk, f') -> contents f' = contents f;
}.

(** A file on which no call fails. *)
Class ReliableFile (F : Type) `{WritableFile F} : Prop := {
  rel_Append d f : exists f', wf_Append d f = (kOk, f');
  rel_Flush f : exists f', wf_Flush f = (kOk, f');
}.

(** *** PosixWritableFile *)

(** What one [write(fd, src, left)] does: an error other than [EINTR], an
    interrupted call, or the first [k] bytes written. *)
Inductive write_result := WFail | WInterrupted | WWritten (k : nat).

(** The file, [filesize_] and the results of the coming calls of [write]; when
    they are used up a call writes all it is given. *)
Record PosixFile := mkPosix { pf_data : bytes; pf_size : Z; pf_os : list write_result }.

Fixpoint posix_loop (os : list write_result) (src : bytes) (data : bytes) :
    error * bytes * list write_result :=
  match src, os with
  | [], _ => (kOk, data, os)
  | _, [] => (kOk, data ++ src, [])
  | _, WFail :: os => (kIOError, data, os)
  | _, WInterrupted :: os => posix_loop os src data
  | _, WWritten k :: os => posix_loop os (drop k src) (data ++ take k src)
  end.

Definition posix_Append (d : bytes) (f : PosixFile) : error * PosixFile :=
  let '(e, data, os) := posix_loop (pf_os f) d (pf_data f) in
  (e, mkPosix data (if ok e then pf_size f + zlen d else pf_size f) os).

#[export] Instance PosixFile_ops : WritableFile PosixFile := {
  contents := pf_data;
  wf_Append := posix_Append;
  wf_Flush f := (kOk, f);
}.

Lemma posix_loop_ok os d data data' os' :
  posix_loop os d data = (kOk, data', os') -> data' = data ++ d.
Proof.
  revert d data. induction os as [|r os IH]; intros [|b d] data;
    try (destruct r); simpl; intros E; simplify_eq; rewrite ?app_nil_r; try done.
  - by apply IH in E.
  - apply IH in E. rewrite <- app_assoc in E. by rewrite take_drop in E.
Qed.

#[export] Instance PosixFile_laws : WritableFileLaws PosixFile.
Proof.
  split.
  - intros d f f'. cbn [wf_Append contents PosixFile_ops]. unfold posix_Append.
    destruct (posix_loop _ d _) as [[e data] os] eqn:E. intros [= -> <-].
    simpl. by apply posix_loop_ok in E.
  - by intros f f' [= <-].
Qed.

(** *** A file in memory, on which nothing fails *)

Record MemFile := mkMem { mem_data : bytes }.

#[export] Instance MemFile_ops : WritableFile MemFile := {
  contents := mem_data;
  wf_Append d f := (kOk, mkMem (mem_data f ++ d));
  wf_Flush f := (kOk, f);
}.

#[export] Instance MemFile_laws : WritableFileLaws MemFile.
Proof. split; [by intros d f f' [= <-] | by intros f f' [= <-]]. Qed.

#[export] Instance MemFile_reliable : ReliableFile MemFile.
Proof. split; intros; eexists; reflexivity. Qed.

(** *** BufferedWritableFile *)

Definition kBufferSize : Z := 16 * 1024.

Record BufferedFile (F : Type) := mkBuf { bf_file : F; bf_buf : bytes }.
Arguments mkBuf {F} _ _.
Arguments bf_file {F} _.
Arguments bf_buf {F} _.

Section buffered.
Context {F : Type} `{!WritableFile F}.

(** [Flush]: the buffer is cleared whether or not the append succeeds. *)
Definition buffered_Flush (f : BufferedFile F) : error * BufferedFile F :=
  if zlen (bf_buf f) =? 0 then (kOk, f)
  else let '(rs, file) := wf_Append (bf_buf f) (bf_file f) in (rs, mkBuf file []).

Definition buffered_Append (data : bytes) (f : BufferedFile F) : error * BufferedFile F :=
  if kBufferSize <=? zlen data then
    let '(rs, f) := buffered_Flush f in
    if ok rs then
      let '(rs, file) := wf_Append data (bf_file f) in (rs, mkBuf file (bf_buf f))
    else (rs, f)
  else
    let '(rs, f) :=
      if kBufferSize <? zlen (bf_buf f) + zlen data then buffered_Flush f else (kOk, f) in
    if ok rs then (rs, mkBuf (bf_file f) (bf_buf f ++ data)) else (rs, f).

#[export] Instance BufferedFile_ops : WritableFile (BufferedFile F) := {
  contents f := contents (bf_file f) ++ bf_buf f;
  wf_Append := buffered_Append;
  wf_Flush := buffered_Flush;
}.

Context `{!WritableFileLaws F}.

Lemma buffered_Flush_ok f f' :
  buffered_Flush f = (kOk, f') -> contents f' = contents f /\ bf_buf f' = [].
Proof.
  unfold buffered_Flush. destruct (Z.eqb_spec (zlen (bf_buf f)) 0) as [E|].
  - intros [= <-]. split; [done | by apply zlen_0].
  - destruct (wf_Append (bf_buf f) (bf_file f)) as [rs file] eqn:E. intros [= -> <-].
    simpl. apply wf_Append_ok in E. by rewrite E, app_nil_r.
Qed.

Lemma buffered_Append_ok d f f' :
  buffered_Append d f = (kOk, f') -> contents f' = contents f ++ d.
Proof.
  unfold buffered_Append. destruct (Z.leb_spec kBufferSize (zlen d)).
  - destruct (buffered_Flush f) as [rs g] eqn:E. case_ok; [|by intros [= -> <-]].
    apply buffered_Flush_ok in E as [Hc Hb].
    destruct (wf_Append d (bf_file g)) as [rs file] eqn:E. intros [= -> <-].
    apply wf_Append_ok in E. rewrite <- Hc. simpl. rewrite E, Hb, !app_nil_r. done.
  - destruct (_ <? _).
    + destruct (buffered_Flush f) as [rs g] eqn:E. case_ok; [|by intros [= -> <-]].
      apply buffered_Flush_ok in E as [Hc Hb].
      intros [= <-]. rewrite <- Hc. simpl. by rewrite app_assoc.
    + intros [= <-]. simpl. by rewrite app_assoc.
Qed.

#[export] Instance BufferedFile_laws : WritableFileLaws (BufferedFile F).
Proof.
  split; [apply buffered_Append_ok | intros f f' [E _]%buffered_Flush_ok; exact E].
Qed.

#[export] Instance BufferedFile_reliable `{!ReliableFile F} : ReliableFile (BufferedFile F).
Proof.
  assert (forall f, exists f', buffered_Flush f = (kOk, f')) as Hf.
  { intros f. unfold buffered_Flush. destruct (_ =? 0); [eauto|].
    destruct (rel_Append (bf_buf f) (bf_file f)) as [g ->]. eauto. }
  split; [|exact Hf]. intros d f. cbn [wf_Append BufferedFile_ops]. unfold buffered_Append.
  destruct (Hf f) as [g Hg]. rewrite Hg. destruct (_ <=? _); simpl.
  - destruct (rel_Append d (bf_file g)) as [h ->]. eauto.
  - destruct (_ <? _); simpl; eauto.
Qed.
End buffered.

(** *** FileWriter *)

Record FileWriter (F : Type) := mkFW { fw_file : F; written_position_ : Z }.
Arguments mkFW {F} _ _.
Arguments fw_file {F} _.
Arguments written_position_ {F} _.

Section file_writer.
Context {F : Type} `{!WritableFile F}.

Definition NewFileWriter (f : F) : FileWriter F := mkFW f 0.

Definition fw_Write (buf : bytes) (w : FileWriter F) : error * FileWriter F :=
  let '(rs, f) := wf_Append buf (fw_file w) in
  (rs, mkFW f (if ok rs then written_position_ w + zlen buf else written_position_ w)).

Definition fw_WritePad (n : Z) : FileWriter F -> error * FileWriter F := fw_Write (GetPad n).
Definition fw_WriteByte (b : Z) : FileWriter F -> error * FileWriter F := fw_Write (GetByte b).
Definition fw_WriteFixed16 (v : Z) : FileWriter F -> error * FileWriter F := fw_Write (GetU16 v).
Definition fw_WriteFixed32 (v : Z) : FileWriter F -> error * FileWriter F := fw_Write (GetU32 v).
Definition fw_WriteFixed64 (v : Z) : FileWriter F -> error * FileWriter F := fw_Write (GetU64 v).
Definition fw_WriteVarint32 (v : Z) : FileWriter F -> error * FileWriter F := fw_Write (Encode32 v).
Definition fw_WriteVarint64 (v : Z) : FileWriter F -> error * FileWriter F := fw_Write (Encode64 v).
Definition fw_Flush (w : FileWriter F) : error * FileWriter F :=
  let '(rs, f) := wf_Flush (fw_file w) in (rs, mkFW f (written_position_ w)).

(** On a reliable file every write appends its bytes. *)
Lemma fw_Write_reliable `{!WritableFileLaws F, !ReliableFile F} d w :
  exists w', fw_Write d w = (kOk, w') /\
    contents (fw_file w') = contents (fw_file w) ++ d /\
    written_position_ w' = written_position_ w + zlen d.
Proof.
  unfold fw_Write. destruct (rel_Append d (fw_file w)) as [f E]. rewrite E.
  eexists. split; [done|]. simpl. split; [by apply wf_Append_ok | done].
Qed.
End file_writer.

(** ** Properties *)

(** Appends that all succeed, in order. *)
Fixpoint appends {F} `{WritableFile F} (ds : list bytes) (f : F) : error * F :=
  match ds with
  | [] => (kOk, f)
  | d :: ds => let '(rs, f) := wf_Append d f in if ok rs then appends ds f else (rs, f)
  end.

Lemma appends_ok {F} `{WritableFileLaws F} ds (f f' : F) :
  appends ds f = (kOk, f') -> contents f' = contents f ++ concat ds.
Proof.
  revert f. induction ds as [|d ds IH]; intros f; simpl.
  - intros [= <-]. by rewrite app_nil_r.
  - destruct (wf_Append d f) as [rs g] eqn:E. case_ok.
    + apply wf_Append_ok in E. intros Ha%IH.
      by rewrite Ha, E, <- app_assoc.
    + by intros [= -> _].
Qed.

Lemma buffered_Append_bound d (f : BufferedFile PosixFile) e f' :
  zlen (bf_buf f) <= kBufferSize -> buffered_Append d f = (e, f') ->
  zlen (bf_buf f') <= kBufferSize.
Proof.
  intros Hb. assert (forall g e', buffered_Flush f = (e', g) -> bf_buf g = []) as Hf.
  { intros g e'. unfold buffered_Flush. destruct (Z.eqb_spec (zlen (bf_buf f)) 0) as [E|].
    - intros [= _ <-]. by apply zlen_0.
    - destruct (wf_Append _ _). by intros [= _ <-]. }
  assert (Hk : 0 <= kBufferSize) by (unfold kBufferSize; lia).
  unfold buffered_Append. destruct (Z.leb_spec kBufferSize (zlen d)).
  - destruct (buffered_Flush f) as [rs g]; pose proof (Hf g rs eq_refl) as E.
    case_ok; [destruct (wf_Append _ _)|]; intros [= _ <-]; simpl; by rewrite E.
  - destruct (Z.ltb_spec kBufferSize (zlen (bf_buf f) + zlen d)).
    + destruct (buffered_Flush f) as [rs g]; pose proof (Hf g rs eq_refl) as E.
      case_ok; intros [= _ <-]; simpl; rewrite E; [|done]. simpl. lia.
    + cbn. intros [= _ <-]. simpl. rewrite zlen_app. lia.
Qed.

(** Whatever the system calls return, when a run of appends to a buffered
    POSIX file and the final flush all report success, the file holds exactly
    the old bytes followed by all the data in order and the buffer is empty;
    the buffer never outgrows [kBufferSize]; and a flush always empties the
    buffer, so one that fails has dropped the bytes in it. *)
Theorem BufferedWritableFile_refines ds (f f' f'' : BufferedFile PosixFile) :
  appends ds f = (kOk, f') -> wf_Flush f' = (kOk, f'') ->
  pf_data (bf_file f'') = pf_data (bf_file f) ++ bf_buf f ++ concat ds /\
  bf_buf f'' = [] /\
  (forall d g e g', zlen (bf_buf g) <= kBufferSize ->
    wf_Append d (g : BufferedFile PosixFile) = (e, g') -> zlen (bf_buf g') <= kBufferSize) /\
  (forall g e g', wf_Flush (g : BufferedFile PosixFile) = (e, g') -> bf_buf g' = []).
Proof.
  intros Ha%appends_ok Hf. destruct (buffered_Flush_ok _ _ Hf) as [Hc Hb].
  split_and!; [| done | |].
  - change (pf_data (bf_file f'')) with (contents (bf_file f'')).
    rewrite <- (app_nil_r (contents (bf_file f''))), <- Hb.
    change (contents f'' = contents (bf_file f) ++ bf_buf f ++ concat ds).
    rewrite Hc, Ha. simpl. by rewrite <- app_assoc.
  - intros d g e g' Hg. by apply buffered_Append_bound.
  - intros g e g'. cbn [wf_Flush BufferedFile_ops]. unfold buffered_Flush.
    destruct (Z.eqb_spec (zlen (bf_buf g)) 0) as [E|].
    + intros [= _ <-]. by apply zlen_0.
    + destruct (wf_Append _ _). by intros [= _ <-].
Qed.

Lemma BufferedWritableFile_refines_witness :
  let f := mkBuf (mkPosix [1] 1 [WInterrupted; WWritten 1]) [2] in
  pf_data (bf_file (snd (wf_Flush (snd (appends [[3; 4]; [5]] f))))) = [1; 2; 3; 4; 5].
Proof.
  intros f. edestruct (BufferedWritableFile_refines [[3; 4]; [5]] f) as (H & _);
    [reflexivity | reflexivity | exact H].
Defined.
