(* ===== verification/Keys.v ===== *)
(** * Keys

    src/core/key-boundle.{h,cc}, src/core/bytewise-comparator.cc and
    src/core/internal-key-comparator.cc: the tag of a record, the internal key
    (user key followed by its tag), and the orders the tables are sorted by.

    [Comparator] is the interface of include/mai/comparator.h and
    [ComparatorLaws] the total-order contract its clients rely on: the
    bytewise comparator discharges it, and the internal-key order is derived
    from it for any user comparator. *)

From S2P Require Import Prelude Bits Varint Slice Hash.

(** ** Tags *)

Inductive flag_ := kFlagValue | kFlagDeletion | kFlagValueForSeek.

Definition flag_code (f : flag_) : Z :=
  match f with kFlagValue => 0 | kFlagDeletion => 1 | kFlagValueForSeek => 2 end.

(** A [Tag]: the version and the raw flag byte. *)
Record Tag := mkTag { sequence_number : Z; flag : Z }.

#[global] Instance Tag_eq_dec : EqDecision Tag.
Proof. solve_decision. Defined.

Definition kMaxSequenceNumber : Z := 0x00ffffffffffffff.

Definition kTagSize : Z := 8.

(** [Tag::Encode], on 64-bit words. *)
Definition TagEncode (t : Tag) : Z :=
  Z.lor (wrap 64 (Z.shiftl (sequence_number t) 8)) (flag t).

Definition TagDecode (tag : Z) : Tag :=
  mkTag (Z.shiftr tag 8) (wrap 8 (Z.land tag 0xff)).

Definition tag_ok (t : Tag) : Prop := is_u 56 (sequence_number t) /\ is_u 8 (flag t).

Lemma TagEncode_add t :
  tag_ok t -> TagEncode t = sequence_number t * 256 + flag t /\ is_u 64 (TagEncode t).
Proof.
  destruct t as [sn f]. unfold tag_ok, TagEncode, is_u; cbn. intros [Hs Hf].
  rewrite shiftl_mul, wrap_small by (unfold is_u; lia). rewrite lor_disjoint by lia.
  change (2 ^ 8) with 256 in *. lia.
Qed.

Lemma TagDecode_Encode t : tag_ok t -> TagDecode (TagEncode t) = t.
Proof.
  intros Ht. destruct (TagEncode_add t Ht) as [E _]. destruct t as [sn f].
  unfold tag_ok, is_u in Ht; cbn in *. unfold TagDecode. rewrite E.
  change 0xff with (Z.ones 8). rewrite land_ones_mod, shiftr_div by lia.
  change (2 ^ 8) with 256 in *. f_equal.
  - symmetry. apply Z.div_unique with f; lia.
  - unfold wrap. change (2 ^ 8) with 256. rewrite Z.mod_mod by lia.
    symmetry. apply Z.mod_unique with sn; lia.
Qed.

(** ** Internal keys *)

Definition MakeKey (user_key : bytes) (version flag : Z) : bytes :=
  user_key ++ le_bytes 8 (TagEncode (mkTag version flag)).

(** [ParseTaggedKey]: [None] when it returns [false]. *)
Definition ParseTaggedKey (tagged_key : bytes) : option (bytes * Tag) :=
  if zlen tagged_key <? kTagSize then None
  else
    let n := Z.to_nat (zlen tagged_key - kTagSize) in
    Some (take n tagged_key, TagDecode (le_val (drop n tagged_key))).

(** [ExtractUserKey] and [ExtractTag]: [None] when the key is shorter than a
    tag, where [remove_suffix] has no defined result. *)
Definition ExtractUserKey (key : bytes) : option bytes :=
  if zlen key <? kTagSize then None
  else Some (take (Z.to_nat (zlen key - kTagSize)) key).

Definition ExtractTag (key : bytes) : option Tag :=
  if zlen key <? kTagSize then None
  else Some (TagDecode (le_val (drop (Z.to_nat (zlen key - kTagSize)) key))).

(** [KeyBoundle]: the user key, the tag and the value laid out in one block.
    [user_key_size_] is a [uint32_t]; the tag is written at that offset, so the
    layout below is that of keys shorter than 4 GiB. *)
Record KeyBoundle := mkKB { kb_data : bytes; size_ : Z; user_key_size_ : Z }.

Definition KeyBoundleNew (key value : bytes) (version flags : Z) : KeyBoundle :=
  {| kb_data := key ++ le_bytes 8 (TagEncode (mkTag version flags)) ++ value;
     size_ := zlen key + zlen value + kTagSize;
     user_key_size_ := wrap 32 (zlen key) |}.

(** [KeyBoundle::New(key, version)], the probe of a seek. *)
Definition KeyBoundleForSeek (key : bytes) (version : Z) : KeyBoundle :=
  KeyBoundleNew key [] version (flag_code kFlagValueForSeek).

Definition kb_slice (kb : KeyBoundle) (pos n : Z) : bytes :=
  take (Z.to_nat n) (drop (Z.to_nat pos) (kb_data kb)).

Definition kb_user_key (kb : KeyBoundle) : bytes := kb_slice kb 0 (user_key_size_ kb).
Definition kb_key (kb : KeyBoundle) : bytes := kb_slice kb 0 (user_key_size_ kb + kTagSize).
Definition kb_value (kb : KeyBoundle) : bytes :=
  kb_slice kb (user_key_size_ kb + kTagSize) (size_ kb - user_key_size_ kb - kTagSize).
Definition kb_tag (kb : KeyBoundle) : Tag :=
  TagDecode (le_val (kb_slice kb (user_key_size_ kb) kTagSize)).

(** [KeyBoundle::MakeRedo]: the record of the write-ahead log. *)
Definition MakeRedo (key value : bytes) (cfid flag : Z) (redo : bytes) : bytes :=
  let redo := WriteVarint32 redo cfid in
  let redo := redo ++ [wrap 8 flag] in
  let redo := WriteVarint64 redo (zlen key) ++ key in
  if negb (flag =? flag_code kFlagDeletion)
  then WriteVarint64 redo (zlen value) ++ value
  else redo.

Lemma parse_app user_key tag :
  is_u 64 tag ->
  ParseTaggedKey (user_key ++ le_bytes 8 tag) = Some (user_key, TagDecode tag).
Proof.
  intros Ht. unfold ParseTaggedKey, kTagSize. rewrite zlen_app, zlen_le_bytes.
  pose proof (zlen_nonneg user_key). destruct (Z.ltb_spec (zlen user_key + Z.of_nat 8) 8); [lia|].
  replace (Z.to_nat (zlen user_key + Z.of_nat 8 - 8)) with (length user_key)
    by (unfold zlen; lia).
  rewrite take_app_length, drop_app_length, le_val_le_bytes. rewrite Z.mod_small; [done|].
  exact Ht.
Qed.

Lemma ParseTaggedKey_MakeKey uk sn fl :
  tag_ok (mkTag sn fl) -> ParseTaggedKey (MakeKey uk sn fl) = Some (uk, mkTag sn fl).
Proof.
  intros Ht. unfold MakeKey. destruct (TagEncode_add _ Ht) as [_ H64].
  by rewrite parse_app, TagDecode_Encode.
Qed.

Lemma ParseTaggedKey_Extract k :
  ParseTaggedKey k =
  match ExtractUserKey k, ExtractTag k with Some u, Some t => Some (u, t) | _, _ => None end.
Proof. unfold ParseTaggedKey, ExtractUserKey, ExtractTag. by destruct (zlen k <? kTagSize). Qed.

Lemma zlen_MakeKey uk sn fl : zlen (MakeKey uk sn fl) = zlen uk + 8.
Proof. unfold MakeKey. by rewrite zlen_app, zlen_le_bytes. Qed.

Lemma ExtractUserKey_MakeKey uk sn fl : ExtractUserKey (MakeKey uk sn fl) = Some uk.
Proof.
  unfold ExtractUserKey. rewrite zlen_MakeKey. unfold kTagSize.
  pose proof (zlen_nonneg uk). destruct (Z.ltb_spec (zlen uk + 8) 8); [lia|].
  f_equal. unfold MakeKey. replace (Z.to_nat (zlen uk + 8 - 8)) with (length uk)
    by (unfold zlen; lia). by rewrite take_app_length.
Qed.

Lemma ExtractTag_MakeKey uk sn fl :
  tag_ok (mkTag sn fl) -> ExtractTag (MakeKey uk sn fl) = Some (mkTag sn fl).
Proof.
  intros Ht. pose proof (ParseTaggedKey_MakeKey uk sn fl Ht) as Hp.
  rewrite ParseTaggedKey_Extract, ExtractUserKey_MakeKey in Hp.
  destruct (ExtractTag _); congruence.
Qed.

(** Both constructors lay the key out as [MakeKey] does. *)
Lemma kb_views key value sn fl :
  let kb := KeyBoundleNew key value sn fl in
  zlen key < 2 ^ 32 ->
  kb_user_key kb = key /\ kb_key kb = MakeKey key sn fl /\ kb_value kb = value.
Proof.
  cbn zeta. intros Hk. pose proof (zlen_nonneg key).
  unfold kb_user_key, kb_key, kb_value, kb_slice, KeyBoundleNew, MakeKey, kTagSize.
  cbn [kb_data size_ user_key_size_]. rewrite wrap_small by (unfold is_u; lia).
  change (Z.to_nat 0) with 0%nat. rewrite !drop_0. split_and!.
  - unfold zlen. by rewrite Nat2Z.id, take_app_length.
  - rewrite app_assoc. apply take_app_length'.
    rewrite length_app, length_le_bytes. unfold zlen. lia.
  - rewrite app_assoc, drop_app_length'
      by (rewrite length_app, length_le_bytes; unfold zlen; lia).
    apply take_ge. unfold zlen. lia.
Qed.

Lemma kb_tag_New key value sn fl :
  tag_ok (mkTag sn fl) -> zlen key < 2 ^ 32 ->
  kb_tag (KeyBoundleNew key value sn fl) = mkTag sn fl.
Proof.
  intros Ht Hk. pose proof (zlen_nonneg key).
  unfold kb_tag, kb_slice, KeyBoundleNew, kTagSize; cbn [kb_data user_key_size_].
  rewrite wrap_small by (unfold is_u; lia).
  replace (Z.to_nat (zlen key)) with (length key) by (unfold zlen; lia).
  rewrite drop_app_length. change (Z.to_nat 8) with 8%nat.
  rewrite take_app_length' by (by rewrite length_le_bytes).
  destruct (TagEncode_add _ Ht) as [_ H64].
  rewrite le_val_le_bytes, Z.mod_small by exact H64. by apply TagDecode_Encode.
Qed.

(** ** Comparators *)

(** The contract of [Comparator::Compare] (include/mai/comparator.h): a total
    preorder read off the sign of the result. *)
Class ComparatorLaws (cmp : bytes -> bytes -> Z) : Prop := {
  cmp_refl x : cmp x x = 0;
  cmp_sym x y : cmp x y < 0 <-> 0 < cmp y x;
  cmp_trans x y z : cmp x y <= 0 -> cmp y z <= 0 -> cmp x z <= 0;
}.

(** A comparator that tells distinct strings apart. *)
Class ComparatorExact (cmp : bytes -> bytes -> Z) : Prop :=
  cmp_exact x y : cmp x y = 0 -> x = y.

Section comparator_facts.
Context (cmp : bytes -> bytes -> Z) `{!ComparatorLaws cmp}.

Lemma cmp_ge x y : 0 <= cmp x y -> cmp y x <= 0.
Proof. intros H. destruct (Z.le_gt_cases (cmp y x) 0) as [?|Hg]; [done|]. apply cmp_sym in Hg. lia. Qed.

Lemma cmp_lt_le_trans x y z : cmp x y < 0 -> cmp y z <= 0 -> cmp x z < 0.
Proof.
  intros H1 H2. destruct (Z.lt_ge_cases (cmp x z) 0) as [?|Hg]; [done|].
  apply cmp_ge in Hg. pose proof (cmp_trans y z x H2 Hg). apply cmp_sym in H1. lia.
Qed.

Lemma cmp_le_lt_trans x y z : cmp x y <= 0 -> cmp y z < 0 -> cmp x z < 0.
Proof.
  intros H1 H2. destruct (Z.lt_ge_cases (cmp x z) 0) as [?|Hg]; [done|].
  apply cmp_ge in Hg. pose proof (cmp_trans z x y Hg H1). apply cmp_sym in H2. lia.
Qed.

Lemma cmp_eq_sym x y : cmp x y = 0 -> cmp y x = 0.
Proof.
  intros H. destruct (Z.lt_trichotomy (cmp y x) 0) as [Hl|[?|Hg]]; [|done|].
  - apply cmp_sym in Hl. lia.
  - apply cmp_sym in Hg. lia.
Qed.

Lemma cmp_eq_trans x y z : cmp x y = 0 -> cmp y z = 0 -> cmp x z = 0.
Proof.
  intros H1 H2. pose proof (cmp_eq_sym _ _ H1). pose proof (cmp_eq_sym _ _ H2).
  pose proof (cmp_trans x y z). pose proof (cmp_trans z y x). pose proof (cmp_sym x z). lia.
Qed.

Lemma cmp_le_refl x : cmp x x <= 0.
Proof. by rewrite cmp_refl. Qed.

Lemma cmp_lt_irrefl x : ~ cmp x x < 0.
Proof. rewrite cmp_refl. lia. Qed.
End comparator_facts.

(** *** The bytewise comparator *)

(** [memcmp] of the first [n] bytes; only the sign of the result is used. *)
Fixpoint memcmp (l r : bytes) (n : nat) : Z :=
  match n, l, r with
  | S n, x :: l, y :: r => if x =? y then memcmp l r n else x - y
  | _, _, _ => 0
  end.

Definition BytewiseCompare (lhs rhs : bytes) : Z :=
  let min_len := Nat.min (length lhs) (length rhs) in
  let r := memcmp lhs rhs min_len in
  if r =? 0 then
    if zlen lhs <? zlen rhs then -1 else if zlen rhs <? zlen lhs then 1 else r
  else r.

Definition BytewiseHash (value : bytes) : Z := Js value.

(** The length of the common prefix of the first [n] bytes. *)
Fixpoint diff_index (s l : bytes) (n : nat) : nat :=
  match n, s, l with
  | S n, x :: s, y :: l => if x =? y then S (diff_index s l n) else O
  | _, _, _ => O
  end.

(** The last loop of [FindShortestSeparator] and the loop of
    [FindShortSuccessor]: increment the first byte that is not 0xff and cut
    behind it. *)
Fixpoint bump_first (s : bytes) : option bytes :=
  match s with
  | [] => None
  | x :: s => if negb (x =? 0xff) then Some [x + 1] else (x ::.) <$> bump_first s
  end.

Definition FindShortestSeparator (start limit : bytes) : bytes :=
  let min_length := Nat.min (length start) (length limit) in
  let i := diff_index start limit min_length in
  if (min_length <=? i)%nat then start
  else match start !! i, limit !! i with
  | Some start_byte, Some limit_byte =>
    if limit_byte <=? start_byte then start
    else if (Z.of_nat i <? zlen limit - 1) || (start_byte + 1 <? limit_byte)
    then take i start ++ [start_byte + 1]
    else match bump_first (drop (S i) start) with
      | Some t => take (S i) start ++ t
      | None => start
      end
  | _, _ => start
  end.

Definition FindShortSuccessor (key : bytes) : bytes :=
  match bump_first key with Some t => t | None => key end.

(** [BytewiseCompare] is the lexicographic comparison. *)
Fixpoint lex (l r : bytes) : Z :=
  match l, r with
  | [], [] => 0
  | [], _ :: _ => -1
  | _ :: _, [] => 1
  | x :: l, y :: r => if x =? y then lex l r else x - y
  end.

Lemma BytewiseCompare_lex l r : BytewiseCompare l r = lex l r.
Proof.
  unfold BytewiseCompare, zlen. revert r.
  induction l as [|x l IH]; intros [|y r]; try done.
  cbn [length Nat.min memcmp lex]. destruct (Z.eqb_spec x y) as [->|Hne].
  - rewrite <- (IH r). destruct (_ =? 0); [|done]. repeat case_cmp; lia.
  - destruct (Z.eqb_spec (x - y) 0); [lia|done].
Qed.

#[export] Instance lex_laws : ComparatorLaws lex.
Proof.
  split.
  - induction x as [|a x IH]; [done|]. simpl. by rewrite Z.eqb_refl.
  - induction x as [|a x IH]; intros [|b y]; simpl; try lia.
    rewrite (Z.eqb_sym b a). destruct (Z.eqb_spec a b); [apply IH | lia].
  - induction x as [|a x IH]; intros [|b y] [|c z]; simpl; try lia.
    destruct (Z.eqb_spec a b) as [->|], (Z.eqb_spec b c) as [->|]; simpl; [apply IH | lia | |].
    + destruct (Z.eqb_spec a c); lia.
    + destruct (Z.eqb_spec a c); lia.
Qed.

#[export] Instance lex_exact : ComparatorExact lex.
Proof.
  intros x. induction x as [|a x IH]; intros [|b y]; simpl; try lia; [done|].
  destruct (Z.eqb_spec a b) as [->|]; [intros ->%IH; done | lia].
Qed.

#[export] Instance BytewiseCompare_laws : ComparatorLaws BytewiseCompare.
Proof.
  split; intros *; rewrite ?BytewiseCompare_lex; [apply cmp_refl | apply cmp_sym | apply cmp_trans].
Qed.

#[export] Instance BytewiseCompare_exact : ComparatorExact BytewiseCompare.
Proof. intros x y. rewrite BytewiseCompare_lex. apply lex_exact. Qed.

(** *** The internal-key comparator *)

(** The parts [Compare] works on: a key shorter than a tag leaves the parsed
    key as constructed (empty user key, tag 0). *)
Definition parsed (k : bytes) : bytes * Tag :=
  match ParseTaggedKey k with Some p => p | None => ([], mkTag 0 0) end.

Definition InternalCompare (ucmp : bytes -> bytes -> Z) (lhs rhs : bytes) : Z :=
  let '(lkey, ltag) := parsed lhs in
  let '(rkey, rtag) := parsed rhs in
  let rv := ucmp lkey rkey in
  if negb (rv =? 0) then rv
  else if sequence_number ltag <? sequence_number rtag then 1
  else if sequence_number rtag <? sequence_number ltag then -1
  else 0.

Section internal_compare.
Context (ucmp : bytes -> bytes -> Z) `{!ComparatorLaws ucmp}.

#[local] Abbreviation icmp := (InternalCompare ucmp).

#[export] Instance InternalCompare_laws : ComparatorLaws (InternalCompare ucmp).
Proof.
  unfold InternalCompare. split.
  - intros x. destruct (parsed x) as [k t]. rewrite cmp_refl. simpl. case_cmps.
  - intros x y. destruct (parsed x) as [k t], (parsed y) as [k' t'].
    pose proof (cmp_sym k k'). pose proof (cmp_sym k' k).
    destruct (Z.eqb_spec (ucmp k k') 0), (Z.eqb_spec (ucmp k' k) 0); simpl; try lia.
    case_cmps.
  - intros x y z. destruct (parsed x) as [k t], (parsed y) as [k' t'], (parsed z) as [k'' t''].
    pose proof (cmp_trans k k' k''). pose proof (cmp_lt_le_trans ucmp k k' k'').
    pose proof (cmp_le_lt_trans ucmp k k' k'').
    destruct (Z.eqb_spec (ucmp k k') 0), (Z.eqb_spec (ucmp k' k'') 0),
      (Z.eqb_spec (ucmp k k'') 0); simpl; try lia; case_cmps.
    all: exfalso.
    all: pose proof (cmp_eq_sym ucmp k k'); pose proof (cmp_eq_sym ucmp k' k'').
    all: pose proof (cmp_trans k'' k' k); pose proof (cmp_ge ucmp k'' k).
    all: pose proof (cmp_sym k k''); lia.
Qed.

(** On keys made by [MakeKey] the order is: user key first, newest first. *)
Lemma InternalCompare_MakeKey u1 s1 f1 u2 s2 f2 :
  tag_ok (mkTag s1 f1) -> tag_ok (mkTag s2 f2) ->
  icmp (MakeKey u1 s1 f1) (MakeKey u2 s2 f2) =
  if negb (ucmp u1 u2 =? 0) then ucmp u1 u2
  else if s1 <? s2 then 1 else if s2 <? s1 then -1 else 0.
Proof.
  intros H1 H2. unfold InternalCompare, parsed.
  by rewrite !ParseTaggedKey_MakeKey.
Qed.
End internal_compare.

(** ** Shortening *)

Lemma lex_app p a b : lex (p ++ a) (p ++ b) = lex a b.
Proof. induction p as [|x p IH]; [done|]. simpl. by rewrite Z.eqb_refl. Qed.

Lemma lex_cons_lt x y a b : x < y -> lex (x :: a) (y :: b) < 0.
Proof. intros. simpl. destruct (Z.eqb_spec x y); lia. Qed.

(** Two strings in order: a proper prefix, or a first difference. *)
Lemma lex_lt_inv s l :
  lex s l < 0 ->
  (exists t, l = s ++ t) \/
  exists p x s' y l', s = p ++ x :: s' /\ l = p ++ y :: l' /\ x < y.
Proof.
  revert l. induction s as [|x s IH]; intros [|y l]; simpl; try lia; [eauto|].
  destruct (Z.eqb_spec x y) as [->|Hne].
  - intros [(t & ->)|(p & a & s' & b & l' & -> & -> & ?)]%IH; [eauto|].
    right. exists (y :: p), a, s', b, l'. done.
  - intros. right. exists [], x, s, y, l. split_and!; [done..|lia].
Qed.

Lemma diff_index_prefix s t : diff_index s (s ++ t) (length s) = length s.
Proof. induction s as [|x s IH]; [done|]. simpl. by rewrite Z.eqb_refl, IH. Qed.

Lemma diff_index_diff p x s y l n :
  x <> y -> (length p < n)%nat -> diff_index (p ++ x :: s) (p ++ y :: l) n = length p.
Proof.
  intros Hne. revert n. induction p as [|z p IH]; intros [|n] Hn; simpl in *; try lia.
  - by destruct (Z.eqb_spec x y).
  - rewrite Z.eqb_refl, IH by lia. done.
Qed.

Lemma bump_first_spec s t :
  bump_first s = Some t -> byte_str s ->
  lex s t < 0 /\ (length t <= length s)%nat /\ byte_str t.
Proof.
  intros Hb Hs. revert t Hb. induction Hs as [|x s Hx Hs IH]; intros t; [done|]. simpl.
  destruct (Z.eqb_spec x 0xff) as [->|Hne]; simpl.
  - destruct (bump_first s) as [t'|]; [|done]. intros [= <-].
    destruct (IH t' eq_refl) as (H1 & H2 & H3). simpl. split_and!; [done | lia |].
    by constructor.
  - intros [= <-]. simpl. unfold is_byte, is_u in Hx. change (2 ^ 8) with 256 in Hx.
    split_and!; [destruct (Z.eqb_spec x (x + 1)); lia | lia |].
    apply Forall_singleton. unfold is_byte, is_u. lia.
Qed.

(** The two shapes of the result. *)
Lemma FindShortestSeparator_cases s l :
  lex s l < 0 ->
  FindShortestSeparator s l = s \/
  exists p x s' y l', s = p ++ x :: s' /\ l = p ++ y :: l' /\ x < y /\
    ((FindShortestSeparator s l = p ++ [x + 1] /\ (l' <> [] \/ x + 1 < y)) \/
     exists t, bump_first s' = Some t /\ FindShortestSeparator s l = p ++ x :: t).
Proof.
  intros [(t & ->)|(p & x & s' & y & l' & -> & -> & Hxy)]%lex_lt_inv.
  - left. unfold FindShortestSeparator. rewrite length_app, Nat.min_l by lia.
    rewrite diff_index_prefix. by destruct (Nat.leb_spec (length s) (length s)); [|lia].
  - unfold FindShortestSeparator. rewrite !length_app. cbn [length].
    set (n := Nat.min _ _). assert (length p < n)%nat by (unfold n; lia).
    rewrite diff_index_diff by lia. destruct (Nat.leb_spec n (length p)); [lia|].
    rewrite !list_lookup_middle by done. destruct (Z.leb_spec y x); [lia|].
    rewrite take_app_length, zlen_app, zlen_cons.
    replace (drop (S (length p)) (p ++ x :: s')) with s'
      by (rewrite drop_app_ge by lia; by replace (S (length p) - length p)%nat with 1%nat by lia).
    replace (take (S (length p)) (p ++ x :: s')) with (p ++ [x])
      by (rewrite take_app_ge by lia; by replace (S (length p) - length p)%nat with 1%nat by lia).
    destruct (_ || _) eqn:E.
    + right. exists p, x, s', y, l'. split_and!; [done..|]. left. split; [done|].
      apply orb_true_iff in E as [E|E]; [left | right; lia]. intros ->. rewrite zlen_nil in E.
      unfold zlen in E. lia.
    + destruct (bump_first s') as [t|] eqn:Eb; [|by left]. right.
      exists p, x, s', y, l'. split_and!; [done..|]. right. exists t. by rewrite <- app_assoc.
Qed.

(** ** Properties *)

(** [Tag::Decode] undoes [Tag::Encode] exactly when the version is below
    2^56 (the debug check admits one bit more), and for such versions an
    internal key parses back to its user key and tag, as do the views of a
    [KeyBoundle]. *)
Theorem internal_key_roundtrip uk value sn fl :
  is_u 64 sn -> is_u 8 fl -> zlen uk < 2 ^ 32 ->
  (TagDecode (TagEncode (mkTag sn fl)) = mkTag sn fl <-> sn <= kMaxSequenceNumber) /\
  (sn <= kMaxSequenceNumber ->
    ParseTaggedKey (MakeKey uk sn fl) = Some (uk, mkTag sn fl) /\
    kb_key (KeyBoundleNew uk value sn fl) = MakeKey uk sn fl /\
    kb_user_key (KeyBoundleNew uk value sn fl) = uk /\
    kb_value (KeyBoundleNew uk value sn fl) = value /\
    kb_tag (KeyBoundleNew uk value sn fl) = mkTag sn fl).
Proof.
  unfold kMaxSequenceNumber. intros Hs Hf Hlen.
  assert (Hok : sn <= 0x00ffffffffffffff -> tag_ok (mkTag sn fl))
    by (unfold tag_ok, is_u in *; cbn; lia).
  split; [split|].
  - unfold TagDecode, TagEncode, is_u in *; cbn. intros [= E _]. rewrite <- E.
    rewrite shiftl_mul by lia. set (w := wrap 64 (sn * 2 ^ 8)).
    assert (0 <= w < 2 ^ 64) as Hw by (apply wrap_is_u; lia).
    rewrite Z.shiftr_lor, shiftr_div by lia.
    assert (Z.shiftr fl 8 = 0) as -> by (rewrite shiftr_div by lia; by apply Z.div_small).
    rewrite Z.lor_0_r. assert (w / 2 ^ 8 < 2 ^ 56) by (apply Z.div_lt_upper_bound; lia). lia.
  - intros H. by apply TagDecode_Encode, Hok.
  - intros H%Hok. destruct (kb_views uk value sn fl Hlen) as (H1 & H2 & H3).
    split_and!; [by apply ParseTaggedKey_MakeKey | done.. | by apply kb_tag_New].
Qed.

Lemma internal_key_roundtrip_witness :
  TagDecode (TagEncode (mkTag (2 ^ 56) 0)) <> mkTag (2 ^ 56) 0 /\
  ParseTaggedKey (MakeKey [97; 98] 7 1) = Some ([97; 98], mkTag 7 1).
Proof.
  split.
  - intros H. apply (internal_key_roundtrip [] [] (2 ^ 56) 0) in H; [|unfold is_u; lia.. | reflexivity].
    revert H. unfold kMaxSequenceNumber. lia.
  - apply (internal_key_roundtrip [97; 98] [] 7 1);
      [unfold is_u; lia.. | reflexivity | discriminate].
Defined.

(** Over any user order, [InternalKeyComparator::Compare] is a total
    preorder that sorts by user key first and newest version first, and it is
    blind to the flag. *)
Theorem InternalCompare_order ucmp u1 s1 f1 u2 s2 f2 :
  ComparatorLaws ucmp ->
  tag_ok (mkTag s1 f1) -> tag_ok (mkTag s2 f2) ->
  ComparatorLaws (InternalCompare ucmp) /\
  (InternalCompare ucmp (MakeKey u1 s1 f1) (MakeKey u2 s2 f2) < 0 <->
    ucmp u1 u2 < 0 \/ (ucmp u1 u2 = 0 /\ s2 < s1)) /\
  (InternalCompare ucmp (MakeKey u1 s1 f1) (MakeKey u2 s2 f2) = 0 <->
    ucmp u1 u2 = 0 /\ s1 = s2).
Proof.
  intros Hl H1 H2. split; [apply _|]. rewrite InternalCompare_MakeKey by done.
  destruct (Z.eqb_spec (ucmp u1 u2) 0); simpl; case_cmps; lia.
Qed.

Lemma InternalCompare_order_witness :
  InternalCompare BytewiseCompare (MakeKey [97] 9 0) (MakeKey [97] 3 1) < 0.
Proof.
  apply (InternalCompare_order BytewiseCompare [97] 9 0 [97] 3 1);
    [apply _ | unfold tag_ok, is_u; simpl; lia.. |]. right. split; [reflexivity | lia].
Defined.

(** For [start < limit], [FindShortestSeparator] returns a string that is
    no longer than [start] and lies in [start, limit); [FindShortSuccessor]
    returns one that is no longer than its key and not below it. *)
Theorem FindShortestSeparator_spec start limit :
  byte_str start -> byte_str limit -> BytewiseCompare start limit < 0 ->
  let sep := FindShortestSeparator start limit in
  BytewiseCompare start sep <= 0 /\ BytewiseCompare sep limit < 0 /\
  (length sep <= length start)%nat /\ byte_str sep /\
  BytewiseCompare start (FindShortSuccessor start) <= 0 /\
  (length (FindShortSuccessor start) <= length start)%nat.
Proof.
  intros Hs Hl. cbn zeta. rewrite !BytewiseCompare_lex. intros Hlt.
  assert (lex start (FindShortSuccessor start) <= 0 /\
          (length (FindShortSuccessor start) <= length start)%nat) as [? ?].
  { unfold FindShortSuccessor. destruct (bump_first start) as [t|] eqn:E.
    - destruct (bump_first_spec _ _ E Hs) as (? & ? & _). lia.
    - rewrite cmp_refl. lia. }
  destruct (FindShortestSeparator_cases start limit Hlt)
    as [->|(p & x & s' & y & l' & -> & -> & Hxy & [[-> Hor]|(t & Ht & ->)])].
  - rewrite cmp_refl. split_and!; done || lia.
  - apply Forall_app in Hs as [Hp Hx]. apply Forall_app in Hl as [_ Hy].
    apply Forall_inv in Hx, Hy. unfold is_byte, is_u in *. change (2 ^ 8) with 256 in *.
    rewrite !lex_app. split_and!; [| | rewrite !length_app; simpl; lia | | done | done].
    + simpl. destruct (Z.eqb_spec x (x + 1)); lia.
    + simpl. destruct (Z.eqb_spec (x + 1) y); [|lia]. destruct l', Hor; done || lia.
    + apply Forall_app. split; [done|]. apply Forall_singleton. unfold is_byte, is_u. lia.
  - apply Forall_app in Hs as [Hp Hx]. inversion_clear Hx as [|? ? Hx0 Hs'].
    destruct (bump_first_spec _ _ Ht Hs') as (? & ? & ?).
    rewrite !lex_app. split_and!; [| | rewrite !length_app; simpl; lia | | done | done].
    + simpl. rewrite Z.eqb_refl. lia.
    + by apply lex_cons_lt.
    + apply Forall_app. split; [done|]. by constructor.
Qed.

Lemma FindShortestSeparator_spec_witness :
  FindShortestSeparator [97; 49; 97] [97; 50] = [97; 49; 98] /\
  BytewiseCompare (FindShortestSeparator [97; 49; 97] [97; 50]) [97; 50] < 0.
Proof.
  split; [reflexivity|]. apply FindShortestSeparator_spec;
    [repeat constructor; discriminate.. | reflexivity].
Defined.
