(* ===== verification/Entries.v ===== *)
(** * Entries

    The abstract view of a table: a list of key-value pairs, sorted by a
    comparator.  Memory tables, blocks and sorted tables are related to it:
    [first_ge] is what a seek finds, [table_get] what a lookup returns, and
    [table_get_visible] says what that means for the versions of a key. *)

From S2P Require Import Prelude Slice Keys.

Abbreviation kv := (bytes * bytes)%type.

Section entries.
Context (cmp : bytes -> bytes -> Z).

Definition kv_lt (a b : kv) : Prop := cmp (fst a) (fst b) < 0.
Definition below (t : bytes) (e : kv) : Prop := cmp (fst e) t < 0.

(** The first entry at or above [t]. *)
Fixpoint first_ge (t : bytes) (es : list kv) : option kv :=
  match es with
  | [] => None
  | e :: es => if cmp (fst e) t <? 0 then first_ge t es else Some e
  end.

Lemma first_ge_split t lo es :
  Forall (below t) lo -> first_ge t (lo ++ es) = first_ge t es.
Proof.
  induction 1 as [|e lo He _ IH]; [done|]. simpl. unfold below in He.
  destruct (Z.ltb_spec (cmp (fst e) t) 0); [done|lia].
Qed.

Lemma first_ge_here t e es : 0 <= cmp (fst e) t -> first_ge t (e :: es) = Some e.
Proof. intros He. simpl. destruct (Z.ltb_spec (cmp (fst e) t) 0); [lia|done]. Qed.

Lemma first_ge_Some t es e :
  first_ge t es = Some e ->
  exists lo hi, es = lo ++ e :: hi /\ Forall (below t) lo /\ 0 <= cmp (fst e) t.
Proof.
  induction es as [|x es IH]; simpl; [done|].
  destruct (Z.ltb_spec (cmp (fst x) t) 0) as [Hx|Hx].
  - intros (lo & hi & -> & Hlo & He)%IH. exists (x :: lo), hi. split_and!; [done| |done].
    by constructor.
  - intros [= <-]. by exists [], es.
Qed.

Lemma first_ge_None t es : first_ge t es = None <-> Forall (below t) es.
Proof.
  induction es as [|x es IH]; simpl; [split; [by constructor | done]|].
  rewrite Forall_cons, <- IH. unfold below.
  destruct (Z.ltb_spec (cmp (fst x) t) 0); [tauto|]. split; [done | lia].
Qed.

Lemma first_ge_app t es es' :
  first_ge t (es ++ es') =
  match first_ge t es with Some e => Some e | None => first_ge t es' end.
Proof.
  induction es as [|x es IH]; simpl; [done|]. by destruct (_ <? 0).
Qed.

Lemma sorted_lookup (l : list kv) i j a b :
  StronglySorted kv_lt l -> (i < j)%nat -> l !! i = Some a -> l !! j = Some b -> kv_lt a b.
Proof.
  intros Hs Hij Ha Hb. rewrite <- (take_drop_middle l i a Ha) in Hs, Hb.
  pose proof (lookup_lt_Some _ _ _ Ha).
  rewrite lookup_app_r in Hb by (rewrite length_take; lia). rewrite length_take in Hb.
  replace (j - Nat.min i (length l))%nat with (S (j - i - 1)) in Hb by lia. simpl in Hb.
  apply StronglySorted_app_1_r in Hs. apply StronglySorted_inv in Hs as [_ Hs].
  rewrite Forall_forall in Hs. apply Hs. eapply list_elem_of_lookup_2; eauto.
Qed.

(** In a sorted list everything behind the first entry at or above [t] is too. *)
Lemma first_ge_least `{!ComparatorLaws cmp} t es e e' :
  StronglySorted kv_lt es -> first_ge t es = Some e -> e' ∈ es -> 0 <= cmp (fst e') t ->
  e' = e \/ kv_lt e e'.
Proof.
  intros Hs (lo & hi & -> & Hlo & _)%first_ge_Some Hin He'.
  apply elem_of_app in Hin as [Hin|Hin].
  - rewrite Forall_forall in Hlo. apply Hlo in Hin. unfold below in Hin. lia.
  - apply StronglySorted_app_1_r, StronglySorted_inv in Hs as [_ Hhi].
    rewrite Forall_forall in Hhi. apply list_elem_of_In in Hin as [->|Hin]; [auto|].
    right. by apply Hhi, list_elem_of_In.
Qed.
End entries.

(** ** Lookups *)

Section lookup.
Context (ucmp : bytes -> bytes -> Z) `{!ComparatorLaws ucmp}.

#[local] Abbreviation icmp := (InternalCompare ucmp).

(** What a table of the entries [es] answers for the internal key [t]. *)
Definition table_get (t : bytes) (es : list kv) : error + Tag * bytes :=
  match first_ge icmp t es with
  | Some (k, v) =>
    if ucmp (fst (parsed k)) (fst (parsed t)) =? 0 then inr (snd (parsed k), v) else inl kNotFound
  | None => inl kNotFound
  end.

(** An entry for version [s] of the user key [u]. *)
Definition versioned (u : bytes) (s : Z) (e : kv) : Prop :=
  exists f v, e = (MakeKey u s f, v) /\ tag_ok (mkTag s f).

Lemma parsed_MakeKey u s f : tag_ok (mkTag s f) -> parsed (MakeKey u s f) = (u, mkTag s f).
Proof. intros H. unfold parsed. by rewrite ParseTaggedKey_MakeKey. Qed.

(** A lookup for a user key at version [sq] returns the newest version that is
    not newer than [sq], and fails only when there is none. *)
Lemma table_get_visible uk sq fl es :
  tag_ok (mkTag sq fl) -> StronglySorted (kv_lt icmp) es ->
  Forall (fun e => exists u s, versioned u s e) es ->
  match table_get (MakeKey uk sq fl) es with
  | inr (tag, v) =>
    (exists u, tag_ok tag /\ (MakeKey u (sequence_number tag) (flag tag), v) ∈ es /\ ucmp u uk = 0) /\
    sequence_number tag <= sq /\
    forall u s e, e ∈ es -> versioned u s e -> ucmp u uk = 0 -> s <= sq -> s <= sequence_number tag
  | inl err => err = kNotFound /\
    forall u s e, e ∈ es -> versioned u s e -> ucmp u uk = 0 -> sq < s
  end.
Proof.
  intros Ht Hs Hall. unfold table_get. rewrite (parsed_MakeKey uk) by done. cbn [fst].
  assert (Hge : forall u s e, versioned u s e -> ucmp u uk = 0 ->
    (0 <= icmp (fst e) (MakeKey uk sq fl) <-> s <= sq)).
  { intros u s e (f & v & -> & Hf) Hu. cbn [fst]. rewrite InternalCompare_MakeKey, Hu by done.
    cbn [negb Z.eqb]. case_cmps. }
  destruct (first_ge icmp (MakeKey uk sq fl) es) as [[k v]|] eqn:E.
  2:{ split; [done|]. rewrite first_ge_None, Forall_forall in E.
      intros u s e He Hv Hu. specialize (E e He). unfold below in E.
      destruct (Hge u s e Hv Hu) as [_ H]. lia. }
  pose proof (first_ge_Some _ _ _ _ E) as (lo & hi & Hes & _ & Hkt). cbn [fst] in Hkt.
  assert (Hin : (k, v) ∈ es) by (subst es; apply elem_of_app; right; by left).
  rewrite Forall_forall in Hall. destruct (Hall _ Hin) as (u & s & f & v' & [= -> <-] & Htag).
  rewrite parsed_MakeKey by done. cbn [fst snd].
  assert (Hleast : forall u' s' e, e ∈ es -> versioned u' s' e -> ucmp u' uk = 0 -> s' <= sq ->
    ucmp u uk = 0 /\ s' <= s).
  { intros u' s' e He Hv Hu' Hs'. apply (Hge _ _ _ Hv Hu') in Hs'.
    destruct (first_ge_least icmp _ es _ e Hs E He Hs') as [->|Hlt].
    - destruct Hv as (f' & v' & [= Hk ->] & Htag').
      pose proof (parsed_MakeKey u s f Htag) as E1. rewrite Hk, parsed_MakeKey in E1 by done.
      injection E1 as -> -> ->. split; [done | lia].
    - destruct Hv as (f' & v' & -> & Htag'). unfold kv_lt in Hlt. cbn [fst] in Hlt.
      rewrite InternalCompare_MakeKey in Hlt, Hkt by done. cbn [negb] in *.
      pose proof (cmp_eq_sym ucmp _ _ Hu') as Hu''.
      destruct (Z.eqb_spec (ucmp u u') 0) as [E0|E0]; cbn [negb] in Hlt.
      + split; [by apply (cmp_eq_trans ucmp u u' uk) | revert Hlt; case_cmps].
      + pose proof (cmp_lt_le_trans ucmp u u' uk Hlt ltac:(lia)).
        destruct (Z.eqb_spec (ucmp u uk) 0); cbn [negb] in Hkt; lia. }
  destruct (Z.eqb_spec (ucmp u uk) 0) as [Hu|Hu].
  - split_and!; [by exists u | by apply (Hge u s (MakeKey u s f, v)); [by exists f, v | ..] |].
    intros u' s' e He Hv Hu' Hs'. by apply (Hleast u' s' e).
  - split; [done|]. intros u' s' e He Hv Hu'. destruct (Z.le_gt_cases s' sq) as [Hle|]; [|lia].
    by destruct (Hleast u' s' e He Hv Hu' Hle).
Qed.
(** A lookup passes the entries of smaller user keys and of newer versions. *)
Lemma table_get_cons u sq fl k s f v es :
  tag_ok (mkTag sq fl) -> tag_ok (mkTag s f) ->
  table_get (MakeKey u sq fl) ((MakeKey k s f, v) :: es) =
  if (ucmp k u <? 0) || ((ucmp k u =? 0) && (sq <? s)) then table_get (MakeKey u sq fl) es
  else if ucmp k u =? 0 then inr (mkTag s f, v) else inl kNotFound.
Proof.
  intros Ht Ht'. unfold table_get. cbn [first_ge fst]. rewrite InternalCompare_MakeKey by done.
  rewrite !(parsed_MakeKey u) by done. cbn [fst].
  destruct (Z.eqb_spec (ucmp k u) 0) as [E|E]; cbn [negb].
  - rewrite E. cbn [Z.ltb Z.compare orb andb].
    destruct (Z.ltb_spec s sq), (Z.ltb_spec sq s); try lia; cbn [Z.ltb Z.compare]; try done;
      rewrite parsed_MakeKey by done; cbn [fst snd]; by rewrite E.
  - destruct (Z.ltb_spec (ucmp k u) 0); cbn [orb andb]; [done|]. rewrite parsed_MakeKey by done. cbn [fst].
    by destruct (Z.eqb_spec (ucmp k u) 0).
Qed.

(** A user key below all those of the entries is not found. *)
Lemma table_get_above u sq fl es :
  tag_ok (mkTag sq fl) ->
  Forall (fun e => exists k s f v, e = (MakeKey k s f, v) /\ tag_ok (mkTag s f) /\ 0 < ucmp k u) es ->
  table_get (MakeKey u sq fl) es = inl kNotFound.
Proof.
  intros Ht [|e es' (k & s & f & v & -> & Ht' & Hk) _]; [done|].
  rewrite table_get_cons by done.
  destruct (Z.ltb_spec (ucmp k u) 0), (Z.eqb_spec (ucmp k u) 0); [lia..|done].
Qed.
End lookup.
