(* ===== verification/SkipList.v ===== *)
(** * SkipList

    src/core/skip-list.h: the skip list of the ordered memory table.

    Nodes live in a store; a [Node *] is an index of it, and the head is node
    0.  [rep s L] says which nodes the chain of every level visits.  A writer
    links a new node level by level from the bottom while readers go on
    searching; [machine] interleaves the turns of a search with these stores
    (each [set_next] is one atomic step, as the release stores make it), and
    [SkipList_reader_sees_current] is what a reader relies on. *)

From S2P Require Import Prelude Slice Keys Entries.

Definition kMaxHeight : nat := 12.
Definition kBranching : Z := 4.

Record Node (K : Type) := mkNode { node_key : K; next_ : list (option nat) }.
Arguments mkNode {K} _ _.
Arguments node_key {K} _.
Arguments next_ {K} _.

Record SkipList (K : Type) := mkList { heap : list (Node K); max_height_ : nat }.
Arguments mkList {K} _ _.
Arguments heap {K} _.
Arguments max_height_ {K} _.

(** The nodes behind [x] in a chain of nodes end with this one. *)
Definition final : nat -> list nat -> nat := foldl (fun _ y => y).

Section skip_list.
Context {K : Type} (Key0 : K) (compare : K -> K -> Z).

Definition head_ : nat := 0.

Definition NewSkipList : SkipList K := mkList [mkNode Key0 (replicate kMaxHeight None)] 1.

Definition key_of (s : SkipList K) (x : nat) : option K := node_key <$> heap s !! x.

(** [next(n)] and [set_next(n, y)]; there is no pointer beyond the height. *)
Definition next (s : SkipList K) (x n : nat) : option (option nat) :=
  node ← heap s !! x; next_ node !! n.

Definition set_next (x n : nat) (y : option nat) (s : SkipList K) : option (SkipList K) :=
  node ← heap s !! x;
  if decide (n < length (next_ node))%nat then
    Some (mkList (<[x := mkNode (node_key node) (<[n := y]> (next_ node))]> (heap s)) (max_height_ s))
  else None.

Definition KeyIsAfterNode (s : SkipList K) (key : K) (n : option nat) : outcome bool :=
  match n with
  | None => Done false
  | Some p => obind (ofopt (key_of s p)) (fun k => Done (compare k key <? 0))
  end.

(** The loop of the three searches: [after next] keeps searching in this
    list, otherwise the search goes down.  The result is the node it ends at,
    the one behind it, and [prev]. *)
Fixpoint search (fuel : nat) (after : option nat -> outcome bool) (s : SkipList K) (x level : nat)
    (prev : list (option nat)) : outcome (nat * option nat * list (option nat)) :=
  match fuel with
  | O => OutOfFuel
  | S fuel =>
    (do! n := ofopt (next s x level) in
     do! a := after n in
     if a : bool then do! n := ofopt n in search fuel after s n level prev
     else
       let prev := <[level := Some x]> prev in
       match level with
       | O => Done (x, n, prev)
       | S level => search fuel after s x level prev
       end)%out
  end.

(** One turn of that loop, as a reader ([prev] is null) takes it. *)
Inductive turn := At (x level : nat) | Found (x : nat) (n : option nat).

Definition search_turn (after : option nat -> outcome bool) (s : SkipList K) (x level : nat) : outcome turn :=
  (do! n := ofopt (next s x level) in
   do! a := after n in
   if a : bool then do! n := ofopt n in Done (At n level)
   else Done (match level with O => Found x n | S level => At x level end))%out.

(** A level visits every node at most once. *)
Definition search_fuel (s : SkipList K) : nat := kMaxHeight * S (length (heap s)).

Definition search_from_head (after : option nat -> outcome bool) (s : SkipList K) :
    outcome (nat * option nat * list (option nat)) :=
  search (search_fuel s) after s head_ (max_height_ s - 1) (replicate kMaxHeight None).

(** [FindGreaterOrEqual]: the node found and [prev]. *)
Definition FindGreaterOrEqual (key : K) (s : SkipList K) : outcome (option nat * list (option nat)) :=
  obind (search_from_head (KeyIsAfterNode s key) s) (fun '(_, n, prev) => Done (n, prev)).

Definition FindLessThan (key : K) (s : SkipList K) : outcome nat :=
  obind (search_from_head (KeyIsAfterNode s key) s) (fun '(x, _, _) => Done x).

Definition FindLast (s : SkipList K) : outcome nat :=
  obind (search_from_head (fun n => Done (bool_decide (is_Some n))) s) (fun '(x, _, _) => Done x).

(** [RandomHeight] from the numbers the engine gives. *)
Fixpoint random_height (more height : nat) (rand : list Z) : nat * list Z :=
  match more with
  | O => (height, rand)
  | S more =>
    match rand with
    | [] => (height, [])
    | r :: rand => if r mod kBranching =? 0 then random_height more (S height) rand else (height, rand)
    end
  end.
Definition RandomHeight (rand : list Z) : nat * list Z := random_height (kMaxHeight - 1) 1 rand.

(** One turn of the loop that links the node [x]. *)
Definition link (x : nat) (prev : list (option nat)) (i : nat) (s : SkipList K) : outcome (SkipList K) :=
  (do! p := ofopt (mjoin (prev !! i)) in
   do! n := ofopt (next s p i) in
   do! s := ofopt (set_next x i n s) in
   ofopt (set_next p i (Some x) s))%out.

Fixpoint link_all (x : nat) (prev : list (option nat)) (levels : list nat) (s : SkipList K) : outcome (SkipList K) :=
  match levels with
  | [] => Done s
  | i :: levels => obind (link x prev i s) (link_all x prev levels)
  end.

(** [Put] up to that loop: the node, [prev], its height and the numbers left. *)
Definition begin_put (key : K) (rand : list Z) (s : SkipList K) :
    outcome (nat * list (option nat) * nat * list Z * SkipList K) :=
  obind (FindGreaterOrEqual key s) (fun '(_, prev) =>
    let '(height, rand) := RandomHeight rand in
    let prev := foldl (fun prev i => <[i := Some head_]> prev) prev (seq (max_height_ s) (height - max_height_ s)) in
    Done (length (heap s), prev, height, rand,
          mkList (heap s ++ [mkNode key (replicate height None)]) (Nat.max height (max_height_ s)))).

Definition Put (key : K) (rand : list Z) (s : SkipList K) : outcome (SkipList K * list Z) :=
  obind (begin_put key rand s) (fun '(x, prev, height, rand, s) =>
    obind (link_all x prev (seq 0 height) s) (fun s => Done (s, rand))).

Definition Contains (key : K) (s : SkipList K) : outcome bool :=
  obind (FindGreaterOrEqual key s) (fun '(x, _) =>
    match x with
    | None => Done false
    | Some x => obind (ofopt (key_of s x)) (fun k => Done (compare key k =? 0))
    end).

(** The iterator: [node_] in the list. *)
Definition sl_Seek (target : K) (s : SkipList K) : outcome (option nat) :=
  obind (FindGreaterOrEqual target s) (fun '(x, _) => Done x).
Definition sl_SeekToFirst (s : SkipList K) : outcome (option nat) := ofopt (next s head_ 0).
Definition sl_SeekToLast (s : SkipList K) : outcome (option nat) :=
  obind (FindLast s) (fun x => Done (if decide (x = head_) then None else Some x)).
Definition sl_Next (node : option nat) (s : SkipList K) : outcome (option nat) :=
  obind (ofopt node) (fun x => ofopt (next s x 0)).
Definition sl_Prev (node : option nat) (s : SkipList K) : outcome (option nat) :=
  obind (ofopt node) (fun x =>
  obind (ofopt (key_of s x)) (fun k =>
  obind (FindLessThan k s) (fun x => Done (if decide (x = head_) then None else Some x)))).

(** The keys of a loop [for (iter.SeekToFirst(); iter.Valid(); iter.Next())]. *)
Fixpoint sl_scan (fuel : nat) (node : option nat) (s : SkipList K) : outcome (list K) :=
  match node with
  | None => Done []
  | Some x =>
    match fuel with
    | O => OutOfFuel
    | S fuel =>
      (do! k := ofopt (key_of s x) in
       do! node := sl_Next node s in
       do! ks := sl_scan fuel node s in Done (k :: ks))%out
    end
  end.
Definition keys_in (s : SkipList K) : outcome (list K) :=
  obind (sl_SeekToFirst s) (fun node => sl_scan (length (heap s)) node s).

(** *** One writer among readers

    A [Put] is a step up to its linking loop (the search changes nothing, and
    the new node is not reachable), then one per level, since only
    [prev[i]->set_next] of the loop's turn can be seen; a search takes a turn
    at a time.  [max_height_] is read without synchronization, so that a
    search may start at any earlier height. *)
Record machine := mkMachine {
  m_list : SkipList K;
  m_writer : option (nat * list (option nat) * nat * nat);
  m_readers : gmap nat (K * nat * nat);
}.

Inductive mstep (m : machine) : machine -> Prop :=
  | put_begins key rand x prev height rand' s' :
      m_writer m = None -> Contains key (m_list m) = Done false ->
      begin_put key rand (m_list m) = Done (x, prev, height, rand', s') ->
      mstep m (mkMachine s' (Some (x, prev, 0%nat, height)) (m_readers m))
  | put_links x prev i height s' :
      m_writer m = Some (x, prev, i, height) -> (i < height)%nat -> link x prev i (m_list m) = Done s' ->
      mstep m (mkMachine s' (Some (x, prev, S i, height)) (m_readers m))
  | put_ends x prev height :
      m_writer m = Some (x, prev, height, height) ->
      mstep m (mkMachine (m_list m) None (m_readers m))
  | seek_begins id target height :
      m_readers m !! id = None -> (1 <= height <= max_height_ (m_list m))%nat ->
      mstep m (mkMachine (m_list m) (m_writer m) (<[id := (target, head_, (height - 1)%nat)]> (m_readers m)))
  | seek_turns id target x level x' level' :
      m_readers m !! id = Some (target, x, level) ->
      search_turn (KeyIsAfterNode (m_list m) target) (m_list m) x level = Done (At x' level') ->
      mstep m (mkMachine (m_list m) (m_writer m) (<[id := (target, x', level')]> (m_readers m)))
  | seek_ends id target x level x' n :
      m_readers m !! id = Some (target, x, level) ->
      search_turn (KeyIsAfterNode (m_list m) target) (m_list m) x level = Done (Found x' n) ->
      mstep m (mkMachine (m_list m) (m_writer m) (delete id (m_readers m))).

Definition m_init : machine := mkMachine NewSkipList None ∅.

End skip_list.

(** ** Chains *)

Section chains.
Context {K : Type}.

(** From [x], the chain of level [i] visits the nodes [l] and ends. *)
Fixpoint path (s : SkipList K) (i x : nat) (l : list nat) : Prop :=
  match l with
  | [] => next s x i = Some None
  | y :: l => next s x i = Some (Some y) /\ path s i y l
  end.

Lemma final_app x l k : final x (l ++ k) = final (final x l) k.
Proof. apply foldl_app. Qed.

Lemma final_in x l : final x l = x \/ final x l ∈ l.
Proof.
  revert x. induction l as [|y l IH]; intros x; [by left|]. cbn. right. destruct (IH y) as [->|H]; by constructor.
Qed.

Lemma path_app (s : SkipList K) i x l k : path s i x (l ++ k) -> path s i (final x l) k.
Proof. revert x. induction l as [|y l IH]; intros x; [done|]. intros [_ H]. by apply IH. Qed.

Lemma path_next (s : SkipList K) i x l k : path s i x (l ++ k) -> next s (final x l) i = Some (head k).
Proof. intros H%path_app. destruct k; [done|]. apply H. Qed.

Lemma path_frame (s s' : SkipList K) i x l :
  (forall y, y ∈ (x :: l) -> next s' y i = next s y i) -> path s i x l -> path s' i x l.
Proof.
  revert x. induction l as [|y l IH]; intros x Hs; cbn [path].
  - by rewrite Hs by (by left).
  - intros [Hn Hp]. rewrite Hs by (by left). split; [done|]. apply IH; [|done]. intros z Hz. apply Hs. by right.
Qed.

(** [s] with an arrow changed. *)
Lemma set_next_spec x n y (s : SkipList K) :
  is_Some (next s x n) ->
  exists s', set_next x n y s = Some s' /\ max_height_ s' = max_height_ s /\ length (heap s') = length (heap s) /\
    (forall z, key_of s' z = key_of s z) /\
    (forall z m, next s' z m = if decide (z = x /\ m = n) then Some y else next s z m).
Proof.
  intros [o Ho]. unfold set_next. unfold next in Ho. destruct (heap s !! x) as [node|] eqn:E; [|done]. cbn in *.
  pose proof (lookup_lt_Some _ _ _ Ho) as Hlt. pose proof (lookup_lt_Some _ _ _ E) as Hx.
  rewrite decide_True by done. eexists. split; [reflexivity|]. cbn. split; [done|]. split; [apply length_insert|].
  split.
  - intros z. unfold key_of. cbn. destruct (decide (z = x)) as [->|Hz].
    + by rewrite list_lookup_insert_eq, E by done.
    + by rewrite list_lookup_insert_ne by done.
  - intros z m. unfold next. cbn. destruct (decide (z = x)) as [->|Hz].
    + rewrite list_lookup_insert_eq by done. cbn. rewrite E. cbn. destruct (decide (m = n)) as [->|Hm].
      * by rewrite list_lookup_insert_eq, decide_True by done.
      * rewrite list_lookup_insert_ne by done. rewrite decide_False; [done | tauto].
    + rewrite list_lookup_insert_ne by done. rewrite decide_False; [done | tauto].
Qed.

(** ** The representation *)

(** The nodes before and from the point where [P] stops. *)
Definition lo (P : nat -> bool) (l : list nat) : list nat := filter (fun p => P p = true) l.
Definition hi (P : nat -> bool) (l : list nat) : list nat := filter (fun p => P p = false) l.

Definition downward (P : nat -> bool) (l : list nat) : Prop :=
  StronglySorted (fun p q => P q = true -> P p = true) l.

Lemma lo_hi P l : downward P l -> l = lo P l ++ hi P l.
Proof.
  unfold lo, hi. induction 1 as [|p l Hs IH Hp]; [done|]. rewrite !filter_cons. destruct (P p) eqn:E.
  - rewrite decide_True, decide_False by done. cbn. by f_equal.
  - rewrite decide_False, decide_True by done. assert (filter (fun q => P q = true) l = []) as H.
    { apply filter_none. eapply Forall_impl; [exact Hp|]. cbn. intros q Hq Hq'. specialize (Hq Hq'). congruence. }
    rewrite H in *. cbn in *. by f_equal.
Qed.

Record rep (s : SkipList K) (L : nat -> list nat) : Prop := {
  rep_path : forall i, (i < kMaxHeight)%nat -> path s i head_ (L i);
  rep_sub : forall i, (S i < kMaxHeight)%nat -> sublist (L (S i)) (L i);
  rep_top : forall i, (max_height_ s <= i < kMaxHeight)%nat -> L i = [];
  rep_height : (1 <= max_height_ s <= kMaxHeight)%nat;
  rep_nodes : forall p, p ∈ L 0%nat -> (0 < p < length (heap s))%nat;
  rep_nodup : NoDup (L 0%nat);
}.

Lemma rep_sub0 (s : SkipList K) L i : rep s L -> (i < kMaxHeight)%nat -> sublist (L i) (L 0%nat).
Proof.
  intros Hr. induction i as [|i IH]; intros Hi; [done|]. etrans; [by apply (rep_sub _ _ Hr)|]. apply IH. lia.
Qed.

Lemma rep_length (s : SkipList K) L i : rep s L -> (i < kMaxHeight)%nat -> (length (L i) <= length (heap s))%nat.
Proof.
  intros Hr Hi. pose proof (sublist_length _ _ (rep_sub0 s L i Hr Hi)) as Hl.
  assert (length (L 0%nat) <= length (seq 0 (length (heap s))))%nat as Hl0; [|rewrite length_seq in Hl0; lia].
  apply NoDup_incl_length; [apply NoDup_ListNoDup, (rep_nodup _ _ Hr)|].
  intros p Hp. apply in_seq. apply list_elem_of_In, (rep_nodes _ _ Hr) in Hp. lia.
Qed.

Lemma rep_head (s : SkipList K) L : rep s L -> (head_ < length (heap s))%nat.
Proof.
  intros Hr. pose proof (path_next s 0 head_ [] (L 0%nat) (rep_path _ _ Hr 0 ltac:(unfold kMaxHeight; lia))) as Hn.
  unfold next in Hn. cbn [final foldl] in Hn. destruct (heap s !! head_) as [node|] eqn:E0; [|done].
  by apply lookup_lt_Some in E0.
Qed.

(** The search stops where [P] does, at every level. *)
Lemma search_spec (s : SkipList K) L after P fuel x i prev B :
  rep s L -> downward P (L 0%nat) -> after None = Done false ->
  (forall p, p ∈ L 0%nat -> after (Some p) = Done (P p)) ->
  (i < kMaxHeight)%nat -> length prev = kMaxHeight ->
  (exists A, lo P (L i) = A ++ B /\ x = final head_ A) ->
  (i * S (length (heap s)) + length B < fuel)%nat ->
  exists prev', search fuel after s x i prev = Done (final head_ (lo P (L 0%nat)), head (hi P (L 0%nat)), prev') /\
    length prev' = kMaxHeight /\
    (forall j, (j <= i)%nat -> prev' !! j = Some (Some (final head_ (lo P (L j))))) /\
    (forall j, (i < j)%nat -> prev' !! j = prev !! j).
Proof.
  intros Hr Hdown Hnone Hafter. revert x i prev B.
  induction fuel as [|fuel IH]; intros x i prev B Hi Hlen (A & HA & ->) Hfuel; [lia|].
  assert (Hsub : sublist (L i) (L 0%nat)) by (by apply (rep_sub0 s)).
  pose proof (lo_hi P (L i) (StronglySorted_sublist _ _ _ Hsub Hdown)) as Hsplit.
  pose proof (rep_path _ _ Hr i Hi) as Hpath. rewrite Hsplit, HA, <- app_assoc in Hpath.
  pose proof (path_next _ _ _ _ _ Hpath) as Hnext. cbn [search]. rewrite Hnext. cbn [ofopt obind].
  destruct B as [|y B]; cbn [app head] in *.
  - assert (after (head (hi P (L i))) = Done false) as ->.
    { destruct (hi P (L i)) as [|z H] eqn:E; [done|]. cbn.
      assert (z ∈ hi P (L i)) as Hz by (rewrite E; by left). apply list_elem_of_filter in Hz as [Hz Hin].
      rewrite Hafter; [by rewrite Hz | by eapply sublist_subseteq]. }
    cbn [obind]. rewrite app_nil_r in HA. rewrite <- HA. destruct i as [|i].
    + eexists. split; [reflexivity|]. split; [by rewrite length_insert|]. split.
      * intros j Hj. replace j with 0%nat by lia. by rewrite list_lookup_insert_eq by lia.
      * intros j Hj. by rewrite list_lookup_insert_ne by lia.
    + assert (exists B' A', lo P (L i) = A' ++ B' /\ final head_ (lo P (L (S i))) = final head_ A') as (B' & A' & HA' & Ex).
      { destruct (final_in head_ (lo P (L (S i)))) as [E|E].
        - exists (lo P (L i)), []. by rewrite E.
        - apply list_elem_of_filter in E as [Hp Hin].
          assert (final head_ (lo P (L (S i))) ∈ lo P (L i)) as Hin'.
          { apply list_elem_of_filter. split; [done|]. eapply sublist_subseteq; [by apply (rep_sub s L Hr)|done]. }
          apply list_elem_of_split in Hin' as (l1 & l2 & E'). exists l2, (l1 ++ [final head_ (lo P (L (S i)))]).
          rewrite <- app_assoc. split; [done|]. by rewrite final_app. }
      destruct (IH (final head_ (lo P (L (S i)))) i (<[S i := Some (final head_ (lo P (L (S i))))]> prev) B')
        as (prev' & -> & H1 & H2 & H3); [lia | by rewrite length_insert | by exists A' | |].
      { pose proof (rep_length s L i Hr ltac:(lia)) as Hn. rewrite (lo_hi P (L i)) in Hn
          by (eapply StronglySorted_sublist; [apply (rep_sub0 s L i Hr); lia | done]).
        rewrite HA', !length_app in Hn. cbn in Hfuel. lia. }
      exists prev'. split; [done|]. split; [done|]. split.
      * intros j Hj. destruct (decide (j = S i)) as [->|Hne]; [|apply H2; lia].
        by rewrite H3, list_lookup_insert_eq by lia.
      * intros j Hj. by rewrite H3, list_lookup_insert_ne by lia.
  - assert (y ∈ lo P (L i)) as Hy by (rewrite HA; set_solver). apply list_elem_of_filter in Hy as [Hy Hin].
    rewrite Hafter by (by eapply sublist_subseteq). rewrite Hy. cbn [ofopt obind].
    apply (IH y i prev B); [done|done| |cbn in Hfuel; lia].
    exists (A ++ [y]). rewrite <- app_assoc. split; [done|]. by rewrite final_app.
Qed.

Lemma search_from_head_spec (s : SkipList K) L after P :
  rep s L -> downward P (L 0%nat) -> after None = Done false ->
  (forall p, p ∈ L 0%nat -> after (Some p) = Done (P p)) ->
  exists prev', search_from_head after s = Done (final head_ (lo P (L 0%nat)), head (hi P (L 0%nat)), prev') /\
    length prev' = kMaxHeight /\
    (forall j, (j < max_height_ s)%nat -> prev' !! j = Some (Some (final head_ (lo P (L j))))).
Proof.
  intros Hr Hd Hn Ha. pose proof (rep_height _ _ Hr) as Hh. unfold search_from_head.
  destruct (search_spec s L after P (search_fuel s) head_ (max_height_ s - 1) (replicate kMaxHeight None)
    (lo P (L (max_height_ s - 1)%nat)) Hr Hd Hn Ha) as (prev' & -> & H1 & H2 & _);
    [lia | done | by exists [] | | exists prev'; split_and!; [done..|]; intros j Hj; apply H2; lia].
  pose proof (rep_length s L (max_height_ s - 1) Hr ltac:(lia)) as Hlen.
  rewrite (lo_hi P (L (max_height_ s - 1)%nat)), length_app in Hlen
    by (eapply StronglySorted_sublist; [apply (rep_sub0 s L _ Hr); lia | done]).
  unfold search_fuel. unfold kMaxHeight in *. nia.
Qed.
End chains.

(** ** Linking a node *)

Section linking.
Context {K : Type}.

Lemma path_insert (s s' : SkipList K) i a l r x :
  path s i a (l ++ r) -> NoDup (a :: (l ++ r)) -> x ∉ (a :: (l ++ r)) ->
  next s' x i = Some (head r) -> next s' (final a l) i = Some (Some x) ->
  (forall y, y <> x -> y <> final a l -> next s' y i = next s y i) ->
  path s' i a (l ++ (x :: r)).
Proof.
  revert a. induction l as [|y l IH]; intros a Hp Hnd Hx Hnx Hnf Hother.
  - cbn [app path final foldl] in *. split; [done|]. apply NoDup_cons in Hnd as [Ha Hnd].
    destruct r as [|z r]; [done|]. cbn [path] in *. split; [done|]. destruct Hp as [_ Hp].
    eapply path_frame; [|exact Hp]. intros w Hw. apply Hother; [|intros ->; done].
    intros ->. apply Hx. by right.
  - cbn [app path] in *. destruct Hp as [Hn Hp]. apply NoDup_cons in Hnd as [Ha Hnd].
    apply not_elem_of_cons in Hx as [Hxa Hx]. split; [|by apply IH].
    rewrite Hother; [done | congruence|]. intros E. apply Ha.
    destruct (final_in y l) as [E'|E']; cbn [final foldl] in E; fold (final y l) in E; rewrite E.
    + rewrite E'. by left.
    + right. apply elem_of_app. by left.
Qed.

Lemma lo_hi_sublist P l k : sublist l k -> sublist (lo P l) (lo P k) /\ sublist (hi P l) (hi P k).
Proof.
  unfold lo, hi. induction 1 as [|x l k H [IH1 IH2]|x l k H [IH1 IH2]]; [by split| |].
  - rewrite !filter_cons. destruct (P x) eqn:E.
    + rewrite !decide_True, !decide_False by done. split; [by constructor | done].
    + rewrite !decide_False, !decide_True by done. split; [done | by constructor].
  - rewrite !(filter_cons _ x k). destruct (P x) eqn:E.
    + rewrite decide_True, decide_False by done. split; [by constructor | done].
    + rewrite decide_False, decide_True by done. split; [done | by constructor].
Qed.

(** The chains with the node [x] in the lowest [k] of them. *)
Definition inserted (P : nat -> bool) (x k : nat) (L : nat -> list nat) (i : nat) : list nat :=
  if decide (i < k)%nat then lo P (L i) ++ (x :: hi P (L i)) else L i.

(** A new node, not linked yet at the levels from [k]. *)
Record fresh (s : SkipList K) (L : nat -> list nat) (P : nat -> bool) (x : nat) (prev : list (option nat)) (k height : nat) :
    Prop := {
  fr_rep : rep s (inserted P x k L);
  fr_nodup : NoDup (L 0%nat);
  fr_zero : 0%nat ∉ L 0%nat;
  fr_sub : forall i, (S i < kMaxHeight)%nat -> sublist (L (S i)) (L i);
  fr_down : downward P (L 0%nat);
  fr_new : (x ∉ L 0%nat) /\ (0 < x < length (heap s))%nat;
  fr_next : forall i, (i < height)%nat -> is_Some (next s x i);
  fr_prev : forall i, (k <= i < height)%nat -> prev !! i = Some (Some (final head_ (lo P (L i))));
  fr_height : (height <= max_height_ s)%nat;
}.

Lemma fresh_sub0 (s : SkipList K) L P x prev k height i :
  fresh s L P x prev k height -> (i < kMaxHeight)%nat -> sublist (L i) (L 0%nat).
Proof.
  intros Hf. induction i as [|i IH]; intros Hi; [done|]. etrans; [by apply (fr_sub _ _ _ _ _ _ _ Hf)|]. apply IH. lia.
Qed.

Lemma fresh_split (s : SkipList K) L P x prev k height i :
  fresh s L P x prev k height -> (i < kMaxHeight)%nat -> L i = lo P (L i) ++ hi P (L i).
Proof.
  intros Hf Hi. apply lo_hi. eapply StronglySorted_sublist; [by eapply fresh_sub0 | apply (fr_down _ _ _ _ _ _ _ Hf)].
Qed.

(** Linking the node at the next level. *)
Lemma link_fresh (s : SkipList K) L P x prev k height :
  fresh s L P x prev k height -> (k < height)%nat ->
  exists s', link x prev k s = Done s' /\ fresh s' L P x prev (S k) height /\
    (forall z, key_of s' z = key_of s z).
Proof.
  intros Hf Hk. pose proof (fr_rep _ _ _ _ _ _ _ Hf) as Hr. pose proof (rep_height _ _ Hr) as Hmax.
  pose proof (fr_height _ _ _ _ _ _ _ Hf) as Hh. assert (Hk12 : (k < kMaxHeight)%nat) by lia.
  destruct (fr_new _ _ _ _ _ _ _ Hf) as [Hxn Hx0].
  pose proof (rep_path _ _ Hr k Hk12) as Hpath. unfold inserted in Hpath. rewrite decide_False in Hpath by lia.
  pose proof (fresh_split _ _ _ _ _ _ _ k Hf Hk12) as Hsplit. rewrite Hsplit in Hpath.
  pose proof (fresh_sub0 _ _ _ _ _ _ _ k Hf Hk12) as Hsub.
  assert (Hnd : NoDup (head_ :: (lo P (L k) ++ hi P (L k)))).
  { rewrite <- Hsplit. constructor; [|eapply sublist_NoDup; [apply (fr_nodup _ _ _ _ _ _ _ Hf) | done]].
    intros H. apply (fr_zero _ _ _ _ _ _ _ Hf). by eapply sublist_subseteq. }
  assert (Hxk : x ∉ (head_ :: (lo P (L k) ++ hi P (L k)))).
  { rewrite <- Hsplit. apply not_elem_of_cons. split; [unfold head_; lia|]. intros H. apply Hxn. by eapply sublist_subseteq. }
  set (p := final head_ (lo P (L k))) in *.
  assert (Hpx : p <> x).
  { intros E. apply Hxk. rewrite <- E. destruct (final_in head_ (lo P (L k))) as [E'|E']; unfold p.
    - rewrite E'. by left.
    - right. apply elem_of_app. by left. }
  pose proof (path_next _ _ _ _ _ Hpath) as Hpn. fold p in Hpn.
  unfold link. rewrite (fr_prev _ _ _ _ _ _ _ Hf k) by lia. cbn [mjoin option_join ofopt obind]. fold p. rewrite Hpn. cbn [ofopt obind].
  destruct (set_next_spec x k (head (hi P (L k))) s (fr_next _ _ _ _ _ _ _ Hf k Hk)) as (s1 & -> & M1 & Hl1 & K1 & N1).
  cbn [ofopt obind].
  assert (is_Some (next s1 p k)) as Hp1 by (rewrite N1, decide_False by tauto; by eexists).
  destruct (set_next_spec p k (Some x) s1 Hp1) as (s2 & -> & M2 & Hl2 & K2 & N2). cbn [ofopt].
  assert (Hnext : forall z m, (m <> k \/ (z <> x /\ z <> p)) -> next s2 z m = next s z m).
  { intros z m Hzm. rewrite N2, N1, !decide_False by tauto. done. }
  exists s2. split; [done|]. split; [|intros z; by rewrite K2, K1]. split.
  - split.
    + intros i Hi. unfold inserted. destruct (decide (i < S k)%nat) as [Hik|Hik].
      * destruct (decide (i = k)) as [->|Hne].
        -- apply (path_insert s); [done|done|done| | |].
           ++ rewrite N2, decide_False by (intros [E _]; by apply Hpx). by rewrite N1, decide_True by done.
           ++ fold p. by rewrite N2, decide_True by done.
           ++ intros y Hy1 Hy2. apply Hnext. by right.
        -- pose proof (rep_path _ _ Hr i Hi) as Hpi. unfold inserted in Hpi. rewrite decide_True in Hpi by lia.
           eapply path_frame; [|exact Hpi]. intros y _. apply Hnext. by left.
      * pose proof (rep_path _ _ Hr i Hi) as Hpi. unfold inserted in Hpi. rewrite decide_False in Hpi by lia.
        eapply path_frame; [|exact Hpi]. intros y _. apply Hnext. left. lia.
    + intros i Hi. pose proof (fr_sub _ _ _ _ _ _ _ Hf i Hi) as Hs. destruct (lo_hi_sublist P _ _ Hs) as [Hs1 Hs2].
      unfold inserted. destruct (decide (S i < S k)%nat), (decide (i < S k)%nat); try lia; [| |done].
      * apply sublist_app; [done | by constructor].
      * rewrite (fresh_split _ _ _ _ _ _ _ (S i) Hf) by done. apply sublist_app; [done | by constructor].
    + intros i Hi. unfold inserted. rewrite decide_False by lia. pose proof (rep_top _ _ Hr i) as Ht. unfold inserted in Ht.
      rewrite decide_False in Ht by lia. apply Ht. lia.
    + lia.
    + intros y. unfold inserted. rewrite decide_True by lia. intros Hy. rewrite Hl2, Hl1.
      apply elem_of_app in Hy as [Hy|[->|Hy]%elem_of_cons]; [|done|];
        apply list_elem_of_filter in Hy as [_ Hy]; pose proof (rep_nodes _ _ Hr y) as Hn; unfold inserted in Hn;
        (destruct (decide (0 < k)%nat); [|by apply Hn]); apply Hn;
        rewrite (fresh_split _ _ _ _ _ _ _ 0%nat Hf) in Hy by (unfold kMaxHeight; lia);
        apply elem_of_app in Hy as [Hy|Hy]; apply elem_of_app; first [by left | right; by right].
    + unfold inserted. rewrite decide_True by lia. pose proof (fr_nodup _ _ _ _ _ _ _ Hf) as Hn.
      rewrite (fresh_split _ _ _ _ _ _ _ 0%nat Hf) in Hn, Hxn by (unfold kMaxHeight; lia).
      apply NoDup_app. apply NoDup_app in Hn as (Hn1 & Hn2 & Hn3). apply not_elem_of_app in Hxn as [Hx1 Hx2].
      split_and!; [done| |by constructor]. intros y Hy [->|Hy']%elem_of_cons; [done|]. by apply (Hn2 y).
  - apply (fr_nodup _ _ _ _ _ _ _ Hf).
  - apply (fr_zero _ _ _ _ _ _ _ Hf).
  - apply (fr_sub _ _ _ _ _ _ _ Hf).
  - apply (fr_down _ _ _ _ _ _ _ Hf).
  - split; [done|]. by rewrite Hl2, Hl1.
  - intros i Hi. destruct (fr_next _ _ _ _ _ _ _ Hf i Hi) as [o Ho].
    rewrite N2. destruct (decide _); [by eexists|]. rewrite N1. destruct (decide _); [by eexists | by exists o].
  - intros i Hi. apply (fr_prev _ _ _ _ _ _ _ Hf). lia.
  - lia.
Qed.
End linking.

(** ** Sorted lists of keys *)

Section ordered.
Context {K : Type} (Key0 : K) (bytes_of : K -> bytes) (cmp : bytes -> bytes -> Z) `{!ComparatorLaws cmp}.

Definition compare_by (a b : K) : Z := cmp (bytes_of a) (bytes_of b).
#[local] Abbreviation compare := compare_by.

Definition key_lt (a b : K) : Prop := compare a b < 0.

(** The list holds the keys [ks], in this order. *)
Definition holds (s : SkipList K) (L : nat -> list nat) (ks : list K) : Prop :=
  rep s L /\ map (key_of s) (L 0%nat) = map Some ks /\ StronglySorted key_lt ks.

Definition before (s : SkipList K) (key : K) (p : nat) : bool :=
  match key_of s p with Some k => compare k key <? 0 | None => false end.

(** The keys below [key] and the others. *)
Definition keys_lt (key : K) (ks : list K) : list K := filter (fun k => (compare k key <? 0) = true) ks.
Definition keys_ge (key : K) (ks : list K) : list K := filter (fun k => (compare k key <? 0) = false) ks.

Lemma map_before s key l ks :
  map (key_of s) l = map Some ks ->
  map (key_of s) (lo (before s key) l) = map Some (keys_lt key ks) /\
  map (key_of s) (hi (before s key) l) = map Some (keys_ge key ks).
Proof.
  revert ks. unfold lo, hi, keys_lt, keys_ge. induction l as [|p l IH]; intros [|k ks] H; try done.
  cbn [map] in H. injection H as Hk H. destruct (IH ks H) as [IH1 IH2]. rewrite !filter_cons.
  assert (before s key p = (compare k key <? 0)) as -> by (unfold before; by rewrite Hk).
  destruct (compare k key <? 0); [rewrite !decide_True, !decide_False by done | rewrite !decide_False, !decide_True by done];
    cbn [map]; by rewrite Hk, IH1, IH2.
Qed.

Lemma before_downward s key l ks :
  map (key_of s) l = map Some ks -> StronglySorted key_lt ks -> downward (before s key) l.
Proof.
  revert ks. unfold downward. induction l as [|p l IH]; intros [|k ks] H Hs; try done; [constructor|].
  cbn [map] in H. injection H as Hk H. apply StronglySorted_inv in Hs as [Hs Hks]. constructor; [by apply (IH ks)|].
  apply Forall_forall. intros q Hq. unfold before. rewrite Hk.
  apply list_elem_of_In, (in_map (key_of s)) in Hq. rewrite H in Hq. apply in_map_iff in Hq as (k' & <- & Hk').
  rewrite Forall_forall in Hks. apply list_elem_of_In, Hks in Hk'. unfold key_lt, compare_by in *. rewrite !Z.ltb_lt.
  intros Hlt. apply (cmp_lt_le_trans cmp _ (bytes_of k')); [done | lia].
Qed.

Lemma holds_after s L ks key :
  holds s L ks -> forall p, p ∈ L 0%nat -> KeyIsAfterNode compare s key (Some p) = Done (before s key p).
Proof.
  intros (_ & Hk & _) p Hp. cbn. unfold before.
  apply list_elem_of_In, (in_map (key_of s)) in Hp. rewrite Hk in Hp. by apply in_map_iff in Hp as (k & <- & _).
Qed.

Lemma search_holds s L ks key :
  holds s L ks ->
  exists prev, search_from_head (KeyIsAfterNode compare s key) s =
      Done (final head_ (lo (before s key) (L 0%nat)), head (hi (before s key) (L 0%nat)), prev) /\
    length prev = kMaxHeight /\
    (forall j, (j < max_height_ s)%nat -> prev !! j = Some (Some (final head_ (lo (before s key) (L j))))).
Proof.
  intros Hh. pose proof Hh as (Hr & Hk & Hs).
  apply search_from_head_spec; [done | by eapply before_downward | done | by eapply holds_after].
Qed.

Lemma filter_ext_in (P Q : nat -> bool) b (l : list nat) :
  (forall p, p ∈ l -> P p = Q p) -> filter (fun p => P p = b) l = filter (fun p => Q p = b) l.
Proof.
  induction l as [|p l IH]; intros H; [done|]. rewrite !filter_cons, IH by (intros q Hq; apply H; by right).
  rewrite (H p) by (by left). done.
Qed.

(** *** Starting to put a key *)

Lemma random_height_bounds n h rand :
  (1 <= h)%nat -> (h <= fst (random_height n h rand) <= h + n)%nat.
Proof.
  revert h rand. induction n as [|n IH]; intros h rand Hh; cbn; [lia|]. destruct rand as [|r rand]; cbn; [lia|].
  destruct (_ =? 0); cbn; [|lia]. specialize (IH (S h) rand ltac:(lia)). lia.
Qed.

Lemma RandomHeight_bounds rand : (1 <= fst (RandomHeight rand) <= kMaxHeight)%nat.
Proof. pose proof (random_height_bounds (kMaxHeight - 1) 1 rand ltac:(lia)). unfold RandomHeight, kMaxHeight in *. lia. Qed.

Lemma fold_insert (prev : list (option nat)) a n j :
  length prev = kMaxHeight -> (a + n <= kMaxHeight)%nat ->
  let prev' := foldl (fun prev i => <[i := Some head_]> prev) prev (seq a n) in
  prev' !! j = if decide (a <= j < a + n)%nat then Some (Some head_) else prev !! j.
Proof.
  revert a prev. induction n as [|n IH]; intros a prev Hl Hn; cbn [seq foldl].
  { rewrite decide_False by lia. done. }
  cbn zeta. rewrite IH by (rewrite ?length_insert; lia).
  destruct (decide (S a <= j < S a + n)%nat), (decide (a <= j < a + S n)%nat); try lia; [done| |].
  - assert (j = a) as -> by lia. by rewrite list_lookup_insert_eq by lia.
  - by rewrite list_lookup_insert_ne by lia.
Qed.

Lemma key_of_app s (node : Node K) m x :
  (x < length (heap s))%nat -> key_of (mkList (heap s ++ [node]) m) x = key_of s x.
Proof. intros Hx. unfold key_of. cbn. by rewrite lookup_app_l. Qed.

Lemma next_app s (node : Node K) m x i :
  (x < length (heap s))%nat -> next (mkList (heap s ++ [node]) m) x i = next s x i.
Proof. intros Hx. unfold next. cbn. by rewrite lookup_app_l. Qed.

Lemma begin_put_fresh key rand s L ks :
  holds s L ks ->
  exists x prev height s', begin_put compare key rand s = Done (x, prev, height, snd (RandomHeight rand), s') /\
    height = fst (RandomHeight rand) /\ fresh s' L (before s' key) x prev 0 height /\ key_of s' x = Some key /\
    map (key_of s') (L 0%nat) = map Some ks.
Proof.
  intros Hh. pose proof Hh as (Hr & Hk & Hs). unfold begin_put, FindGreaterOrEqual.
  destruct (search_holds s L ks key Hh) as (prev & -> & Hlen & Hprev). cbn [obind].
  pose proof (RandomHeight_bounds rand) as Hrh. destruct (RandomHeight rand) as [height rand'] eqn:Er. cbn [fst snd] in *.
  eexists _, _, _, _. split; [reflexivity|]. split; [done|]. pose proof (rep_height _ _ Hr) as Hmax.
  set (s' := mkList _ _).
  assert (Hold : forall p, p ∈ L 0%nat -> key_of s' p = key_of s p)
    by (intros p Hp; apply key_of_app; by apply (rep_nodes _ _ Hr)).
  assert (Hmap : map (key_of s') (L 0%nat) = map Some ks).
  { rewrite <- Hk. apply map_ext_in. intros p Hp. by apply Hold, list_elem_of_In. }
  assert (Hlo : forall i, (i < kMaxHeight)%nat -> lo (before s' key) (L i) = lo (before s key) (L i)).
  { intros i Hi. apply filter_ext_in. intros p Hp. unfold before.
    rewrite Hold; [done|]. eapply sublist_subseteq; [by apply (rep_sub0 s)|done]. }
  split; [|split; [|done]].
  - split.
    + split; unfold inserted; cbn [Nat.ltb].
      * intros i Hi. rewrite decide_False by lia. eapply path_frame; [|by apply (rep_path _ _ Hr)].
        intros y Hy. apply next_app. apply elem_of_cons in Hy as [->|Hy].
        -- by eapply rep_head.
        -- apply (rep_nodes _ _ Hr). eapply sublist_subseteq; [by apply (rep_sub0 s)|done].
      * intros i Hi. rewrite !decide_False by lia. by apply (rep_sub _ _ Hr).
      * intros i Hi. rewrite decide_False by lia. apply (rep_top _ _ Hr). cbn in Hi. lia.
      * cbn. lia.
      * intros p. rewrite decide_False by lia. intros Hp%(rep_nodes _ _ Hr). cbn. rewrite length_app. lia.
      * rewrite decide_False by lia. apply (rep_nodup _ _ Hr).
    + apply (rep_nodup _ _ Hr).
    + intros H0%(rep_nodes _ _ Hr). lia.
    + apply (rep_sub _ _ Hr).
    + by eapply before_downward.
    + split; [intros Hx%(rep_nodes _ _ Hr); lia|]. cbn. rewrite length_app. cbn.
      pose proof (rep_head _ _ Hr). unfold head_ in *. lia.
    + intros i Hi. unfold next. cbn. rewrite lookup_app_r, Nat.sub_diag by done. cbn. by rewrite lookup_replicate_2.
    + intros i Hi. rewrite Hlo by lia. rewrite fold_insert by lia. destruct (decide _) as [Hd|Hd].
      * rewrite (rep_top _ _ Hr i) by lia. done.
      * apply Hprev. lia.
    + cbn. lia.
  - unfold key_of. cbn. by rewrite lookup_app_r, Nat.sub_diag by done.
Qed.

(** *** Putting a key *)

(** Where the new key goes. *)
Definition put_keys (key : K) (ks : list K) : list K := keys_lt key ks ++ key :: keys_ge key ks.

(** Behind a key that is not below [key] no key is. *)
Lemma keys_lt_none key k ks : (compare k key <? 0) = false -> Forall (key_lt k) ks -> keys_lt key ks = [].
Proof.
  intros E Hk. apply filter_none. eapply Forall_impl; [exact Hk|]. cbn. intros q Hq Hq'. unfold key_lt, compare_by in *.
  apply Z.ltb_ge in E. apply Z.ltb_lt in Hq'.
  pose proof (cmp_lt_le_trans cmp (bytes_of k) (bytes_of q) (bytes_of key) Hq ltac:(lia)). lia.
Qed.

Lemma keys_split key ks : StronglySorted key_lt ks -> ks = keys_lt key ks ++ keys_ge key ks.
Proof.
  unfold keys_lt, keys_ge. induction 1 as [|k ks Hs IH Hk]; [done|]. rewrite !filter_cons.
  destruct (compare k key <? 0) eqn:E.
  - rewrite decide_True, decide_False by done. cbn. by f_equal.
  - rewrite decide_False, decide_True by done. pose proof (keys_lt_none key k ks E Hk) as H. unfold keys_lt in H.
    rewrite H in *. cbn in *. by f_equal.
Qed.

Lemma put_keys_sorted key ks :
  StronglySorted key_lt ks -> Forall (fun k => compare k key <> 0) ks -> StronglySorted key_lt (put_keys key ks).
Proof.
  unfold put_keys, keys_lt, keys_ge. intros Hs Hne. induction Hs as [|k ks Hs IH Hk]; [by repeat constructor|].
  apply Forall_cons in Hne as [Hkne Hne]. specialize (IH Hne). rewrite !filter_cons.
  destruct (compare k key <? 0) eqn:E.
  - rewrite decide_True, decide_False by done. cbn [app]. constructor; [exact IH|]. apply Z.ltb_lt in E.
    apply Forall_app. split; [by apply Forall_filter|]. constructor; [exact E | by apply Forall_filter].
  - rewrite decide_False, decide_True by done. pose proof (keys_lt_none key k ks E Hk) as H. unfold keys_lt in H.
    rewrite H in *. cbn [app] in *. apply StronglySorted_inv in IH as [Hs' Hk'].
    assert (key_lt key k) as Hlt.
    { unfold key_lt, compare_by in *. apply Z.ltb_ge in E. apply cmp_sym. lia. }
    constructor; [constructor; [done | by apply Forall_filter]|]. constructor; [done|].
    eapply Forall_impl; [apply Forall_filter, Hk|]. intros q Hq. unfold key_lt, compare_by in *.
    apply (cmp_lt_le_trans cmp _ (bytes_of k)); [done | lia].
Qed.

(** With the new node linked at [k] levels the list holds the old or the new
    keys. *)
Lemma fresh_holds s L x prev k height key ks :
  fresh s L (before s key) x prev k height -> key_of s x = Some key ->
  map (key_of s) (L 0%nat) = map Some ks -> StronglySorted key_lt ks -> Forall (fun k => compare k key <> 0) ks ->
  holds s (inserted (before s key) x k L) (if decide (k = 0)%nat then ks else put_keys key ks).
Proof.
  intros Hf Hx Hk Hs Hne. split; [apply (fr_rep _ _ _ _ _ _ _ Hf)|]. unfold inserted. destruct (decide (k = 0)%nat) as [->|H0].
  - rewrite decide_False by lia. by split.
  - rewrite decide_True by lia. destruct (map_before s key _ _ Hk) as [H1 H2]. split; [|by apply put_keys_sorted].
    unfold put_keys. rewrite !map_app. cbn [map]. by rewrite H1, H2, Hx.
Qed.

Lemma fresh_ext (s : SkipList K) L P Q x prev k height :
  (forall p, p ∈ L 0%nat -> P p = Q p) -> fresh s L P x prev k height -> fresh s L Q x prev k height.
Proof.
  intros HPQ Hf. assert (Hlo : forall i, (i < kMaxHeight)%nat -> lo P (L i) = lo Q (L i) /\ hi P (L i) = hi Q (L i)).
  { intros i Hi. pose proof (fresh_sub0 _ _ _ _ _ _ _ i Hf Hi) as Hsub. unfold lo, hi.
    split; apply filter_ext_in; intros p Hp; apply HPQ; by eapply sublist_subseteq. }
  assert (Hins : forall i, (i < kMaxHeight)%nat -> inserted P x k L i = inserted Q x k L i).
  { intros i Hi. unfold inserted. destruct (Hlo i Hi) as [-> ->]. done. }
  destruct Hf as [Hr Hn Hz Hs Hd Hnew Hnx Hp Hh]. pose proof (rep_height _ _ Hr) as Hmax.
  split; [|done..| |done|done| |done].
  - destruct Hr as [R1 R2 R3 R4 R5 R6]. split.
    + intros i Hi. rewrite <- Hins by done. by apply R1.
    + intros i Hi. rewrite <- !Hins by lia. by apply R2.
    + intros i Hi. rewrite <- Hins by lia. by apply R3.
    + done.
    + intros p. rewrite <- Hins by (unfold kMaxHeight; lia). apply R5.
    + rewrite <- Hins by (unfold kMaxHeight; lia). done.
  - unfold downward in *. clear -Hd HPQ. revert HPQ. induction Hd as [|p l Hd IH Hp]; intros HPQ; constructor.
    + apply IH. intros q Hq. apply HPQ. by right.
    + apply Forall_forall. intros q Hq. rewrite Forall_forall in Hp. specialize (Hp q Hq).
      rewrite <- (HPQ p), <- (HPQ q) by (by constructor). exact Hp.
  - intros i Hi. rewrite Hp by done. destruct (Hlo i ltac:(lia)) as [-> _]. done.
Qed.

Lemma link_all_fresh s L x prev k n height key ks :
  fresh s L (before s key) x prev k height -> (k + n = height)%nat -> key_of s x = Some key ->
  map (key_of s) (L 0%nat) = map Some ks ->
  exists s', link_all x prev (seq k n) s = Done s' /\ fresh s' L (before s' key) x prev height height /\
    key_of s' x = Some key /\ map (key_of s') (L 0%nat) = map Some ks.
Proof.
  revert s k. induction n as [|n IH]; intros s k Hf Hn Hx Hk; cbn [seq link_all].
  - replace height with k in * by lia. eauto.
  - destruct (link_fresh _ _ _ _ _ _ _ Hf ltac:(lia)) as (s1 & -> & Hf1 & Hk1). cbn [obind].
    apply IH; [|lia|by rewrite Hk1 | by rewrite (map_ext _ _ Hk1)].
    eapply fresh_ext; [|exact Hf1]. intros p _. unfold before. by rewrite Hk1.
Qed.

Lemma Put_holds key rand s L ks :
  holds s L ks -> Forall (fun k => compare k key <> 0) ks ->
  exists s' L', Put compare key rand s = Done (s', snd (RandomHeight rand)) /\ holds s' L' (put_keys key ks).
Proof.
  intros Hh Hne. pose proof Hh as (_ & _ & Hs).
  destruct (begin_put_fresh key rand s L ks Hh) as (x & prev & height & s1 & Hb & Hheight & Hf & Hx & Hk).
  unfold Put. rewrite Hb. cbn [obind].
  destruct (link_all_fresh s1 L x prev 0 height height key ks Hf eq_refl Hx Hk) as (s2 & -> & Hf2 & Hx2 & Hk2).
  cbn [obind]. eexists _, _. split; [reflexivity|].
  pose proof (fresh_holds s2 L x prev height height key ks Hf2 Hx2 Hk2 Hs Hne) as H.
  pose proof (RandomHeight_bounds rand). rewrite decide_False in H by lia. exact H.
Qed.

Lemma New_holds : holds (NewSkipList Key0) (fun _ => []) [].
Proof.
  split; [|by split; [|constructor]]. split; cbn; try done.
  - intros i Hi. exact (lookup_replicate_2 kMaxHeight None i Hi).
  - unfold kMaxHeight. lia.
  - intros p Hp. by apply not_elem_of_nil in Hp.
  - constructor.
Qed.
(** *** Searching *)

Lemma holds_keys s L ks : holds s L ks -> keys_in s = Done ks.
Proof.
  intros (Hr & Hk & _). pose proof (rep_path _ _ Hr 0 ltac:(unfold kMaxHeight; lia)) as Hp.
  pose proof (rep_length s L 0 Hr ltac:(unfold kMaxHeight; lia)) as Hlen.
  assert (H : forall n l x (ks : list K), path s 0 x l -> map (key_of s) l = map Some ks -> (length l <= n)%nat ->
    sl_scan n (head l) s = Done ks /\ next s x 0 = Some (head l)).
  { clear -s. induction n as [|n IH]; intros [|y l] x [|k ks] Hp Hk Hn; cbn in Hn; try lia; try done.
    cbn [map] in Hk. injection Hk as Hy Hk. destruct Hp as [Hn' Hp].
    split; [|done]. cbn [head sl_scan]. rewrite Hy. cbn [ofopt obind].
    destruct (IH l y ks Hp Hk ltac:(lia)) as [Hs Hnx]. unfold sl_Next. cbn [ofopt obind]. rewrite Hnx.
    cbn [ofopt obind]. by rewrite Hs. }
  destruct (H (length (heap s)) (L 0%nat) head_ ks Hp Hk Hlen) as [Hs Hn]. unfold keys_in, sl_SeekToFirst.
  by rewrite Hn.
Qed.

Lemma head_keys (s : SkipList K) l ks : map (key_of s) l = map Some ks -> mbind (M := option) (key_of s) (head l) = head ks.
Proof. destruct l as [|x l], ks as [|k ks]; try done. cbn. congruence. Qed.

(** [FindGreaterOrEqual] finds the first key that is not below the target. *)
Lemma Find_holds s L ks key :
  holds s L ks ->
  exists l prev, FindGreaterOrEqual compare key s = Done (head l, prev) /\
    map (key_of s) l = map Some (keys_ge key ks).
Proof.
  intros Hh. pose proof Hh as (_ & Hk & _). unfold FindGreaterOrEqual.
  destruct (search_holds s L ks key Hh) as (prev & -> & _). cbn [obind]. eexists _, _. split; [done|].
  by apply map_before.
Qed.

(** Behind a key that is above [key] no key is equal to it. *)
Lemma above_other key k ks :
  (compare k key <? 0) = false -> compare k key <> 0 -> Forall (key_lt k) ks -> Forall (fun k => compare k key <> 0) ks.
Proof.
  intros Hk Hne Hr. eapply Forall_impl; [exact Hr|]. cbn. intros q Hq. unfold key_lt, compare_by in *. apply Z.ltb_ge in Hk.
  assert (cmp (bytes_of key) (bytes_of k) < 0) as Hlt by (apply cmp_sym; lia).
  pose proof (cmp_lt_le_trans cmp _ _ (bytes_of q) Hlt ltac:(lia)) as Hkq. apply cmp_sym in Hkq. lia.
Qed.

Lemma Contains_holds s L ks key :
  holds s L ks -> exists b, Contains compare key s = Done b /\ (b = false <-> Forall (fun k => compare k key <> 0) ks).
Proof.
  intros Hh. pose proof Hh as (_ & _ & Hs). destruct (Find_holds s L ks key Hh) as (l & prev & E & Hl).
  unfold Contains. rewrite E. cbn [obind].
  assert (Hlt : Forall (fun k => compare k key <> 0) (keys_lt key ks)).
  { apply Forall_forall. intros k Hk. apply list_elem_of_filter in Hk as [Hk _]. apply Z.ltb_lt in Hk. lia. }
  assert (Hall : Forall (fun k => compare k key <> 0) ks <-> Forall (fun k => compare k key <> 0) (keys_ge key ks)).
  { rewrite (keys_split key ks Hs) at 1. rewrite Forall_app. tauto. }
  destruct l as [|x l], (keys_ge key ks) as [|k r] eqn:Eg; try done; cbn [head map] in *.
  - exists false. split; [done|]. by rewrite Hall.
  - injection Hl as Hx Hl. rewrite Hx. cbn [ofopt obind]. eexists. split; [done|]. rewrite Hall, Z.eqb_neq, Forall_cons.
    assert (compare key k <> 0 <-> compare k key <> 0) as -> by (split; intros Hne E'; by apply Hne, (cmp_eq_sym cmp)).
    split; [|by intros [H _]]. intros Hne. split; [done|].
    rewrite (keys_split key ks Hs), Eg in Hs. apply StronglySorted_app_1_r in Hs. apply StronglySorted_inv in Hs as [_ Hr].
    assert (k ∈ keys_ge key ks) as Hk by (rewrite Eg; by left). apply list_elem_of_filter in Hk as [Hk _].
    by apply (above_other key k).
Qed.

(** *** The iterator *)

Lemma keys_lt_at ka k kb : StronglySorted key_lt (ka ++ k :: kb) -> keys_lt k (ka ++ k :: kb) = ka.
Proof.
  intros Hs. unfold keys_lt. rewrite filter_app, filter_cons. rewrite decide_False
    by (unfold compare_by; rewrite cmp_refl; done).
  assert (filter (fun q => (compare q k <? 0) = true) kb = []) as ->.
  { apply (keys_lt_none k k); [unfold compare_by; by rewrite cmp_refl|].
    apply StronglySorted_app_1_r in Hs. by apply StronglySorted_inv in Hs as [_ Hs]. }
  rewrite app_nil_r. apply filter_all, Forall_forall. intros q Hq. apply Z.ltb_lt.
  apply (StronglySorted_app_1_elem_of _ _ _ _ _ Hs); [done | by left].
Qed.

(** The nodes before the one that holds a key. *)
Lemma lo_at s L ks A x B k :
  holds s L ks -> L 0%nat = A ++ x :: B -> key_of s x = Some k -> lo (before s k) (L 0%nat) = A.
Proof.
  intros (_ & Hk & Hs) HL Hx. destruct (map_before s k _ _ Hk) as [Hlo _].
  pose proof (lo_hi (before s k) (L 0%nat) (before_downward _ _ _ _ Hk Hs)) as Hsplit.
  rewrite HL, map_app in Hk. symmetry in Hk. apply map_eq_app in Hk as (ka & kb' & -> & Hka & Hkb).
  destruct kb' as [|k' kb]; [done|]. cbn [map] in Hkb. rewrite Hx in Hkb. injection Hkb as -> Hkb.
  rewrite keys_lt_at in Hlo by done. rewrite HL in Hsplit at 1. apply app_inj_1 in Hsplit as [HA _]; [by rewrite HL in *|].
  apply (f_equal length) in Hlo, Hka. rewrite !length_map in *. lia.
Qed.

Definition node_at (x : nat) : option nat := if decide (x = head_) then None else Some x.

Lemma final_last x l : 0%nat ∉ l -> node_at (final head_ l) = last l /\ (l <> [] -> last l = Some (final x l)).
Proof.
  induction l as [|y l IH] using rev_ind; [done|]. intros H0. rewrite final_app, last_snoc. cbn. unfold node_at.
  rewrite decide_False; [by rewrite final_app|]. intros ->. apply H0, elem_of_app. right. by left.
Qed.

Lemma holds_zero s L ks : holds s L ks -> 0%nat ∉ L 0%nat.
Proof. intros (Hr & _) H%(rep_nodes _ _ Hr). lia. Qed.

Lemma Prev_holds s L ks A x B :
  holds s L ks -> L 0%nat = A ++ x :: B -> sl_Prev compare (Some x) s = Done (last A).
Proof.
  intros Hh HL. pose proof (holds_zero _ _ _ Hh) as H0. pose proof Hh as (Hr & Hk & Hs).
  assert (is_Some (key_of s x)) as [k Hx].
  { rewrite HL in Hk. assert (key_of s x ∈ map (key_of s) (A ++ x :: B)) as Hin
      by (apply list_elem_of_In, in_map, in_app_iff; right; by left).
    rewrite Hk in Hin. apply list_elem_of_In, in_map_iff in Hin as (k & <- & _). by eexists. }
  unfold sl_Prev. cbn [ofopt obind]. rewrite Hx. cbn [ofopt obind]. unfold FindLessThan.
  destruct (search_holds s L ks k Hh) as (prev & -> & _). cbn [obind]. rewrite (lo_at s L ks A x B k Hh HL Hx).
  rewrite HL in H0. apply not_elem_of_app in H0 as [H0 _]. f_equal. exact (proj1 (final_last 0 _ H0)).
Qed.

Lemma SeekToLast_holds s L ks : holds s L ks -> sl_SeekToLast s = Done (last (L 0%nat)).
Proof.
  intros Hh. pose proof (holds_zero _ _ _ Hh) as H0. pose proof Hh as (Hr & _ & _).
  assert (Hd : downward (fun _ => true) (L 0%nat)).
  { clear. unfold downward. induction (L 0%nat); constructor; [done|]. by apply Forall_forall. }
  unfold sl_SeekToLast, FindLast.
  destruct (search_from_head_spec s L (fun n => Done (bool_decide (is_Some n))) (fun _ => true) Hr Hd ltac:(done)
    ltac:(done)) as (prev & -> & _). cbn [obind].
  assert (lo (fun _ => true) (L 0%nat) = L 0%nat) as -> by (by apply filter_all, Forall_forall).
  f_equal. exact (proj1 (final_last 0 _ H0)).
Qed.

Lemma Next_holds s L ks A x B : holds s L ks -> L 0%nat = A ++ x :: B -> sl_Next (Some x) s = Done (head B).
Proof.
  intros (Hr & _) HL. pose proof (rep_path _ _ Hr 0 ltac:(unfold kMaxHeight; lia)) as Hp. rewrite HL in Hp.
  change (A ++ x :: B) with (A ++ [x] ++ B) in Hp. rewrite app_assoc in Hp. apply path_next in Hp.
  rewrite final_app in Hp. unfold sl_Next. cbn [ofopt obind]. cbn in Hp. by rewrite Hp.
Qed.

(** *** The machine *)

Lemma begin_put_heap key rand s x prev height rand' s' :
  begin_put compare key rand s = Done (x, prev, height, rand', s') -> exists node, heap s' = heap s ++ [node].
Proof.
  unfold begin_put. destruct (FindGreaterOrEqual _ _ _) as [[n prev'] | |]; cbn [obind]; [|done..].
  destruct (RandomHeight rand) as [h r]. intros [= _ _ _ _ <-]. by eexists.
Qed.

(** What the writer has done of its [Put] when the chains are [L] and the keys
    [ks]. *)
Inductive writing (s : SkipList K) (L : nat -> list nat) (ks : list K) :
    option (nat * list (option nat) * nat * nat) -> Prop :=
  | writes_nothing : holds s L ks -> writing s L ks None
  | writes x prev i height key L0 ks0 :
      fresh s L0 (before s key) x prev i height -> (i <= height)%nat -> (0 < height)%nat ->
      key_of s x = Some key -> map (key_of s) (L0 0%nat) = map Some ks0 ->
      StronglySorted key_lt ks0 -> Forall (fun k => compare k key <> 0) ks0 ->
      L = inserted (before s key) x i L0 -> ks = (if decide (i = 0)%nat then ks0 else put_keys key ks0) ->
      writing s L ks (Some (x, prev, i, height)).

Lemma writing_holds s L ks w : writing s L ks w -> holds s L ks.
Proof. destruct 1 as [H|x prev i height key L0 ks0 Hf Hi Hh Hx Hk Hs Hne -> ->]; [done|]. by eapply fresh_holds. Qed.

(** Where a search stands. *)
Definition reading (s : SkipList K) (L : nat -> list nat) (r : K * nat * nat) : Prop :=
  let '(target, x, level) := r in
  (level < kMaxHeight)%nat /\ (x = head_ \/ x ∈ lo (before s target) (L level)).

Definition minv (m : machine) : Prop :=
  exists L ks, writing (m_list m) L ks (m_writer m) /\ map_Forall (fun _ => reading (m_list m) L) (m_readers m).

(** A search in such a place is [final] of a part of the chain. *)
Lemma reading_split s L target x level :
  reading s L (target, x, level) ->
  exists A B, lo (before s target) (L level) = A ++ B /\ x = final head_ A.
Proof.
  intros [_ [->|Hx]]; [by exists [], (lo (before s target) (L level))|].
  apply list_elem_of_split in Hx as (A & B & E). exists (A ++ [x]), B. rewrite <- app_assoc. split; [done|].
  by rewrite final_app.
Qed.

Lemma turn_reading s L ks target x level :
  holds s L ks -> reading s L (target, x, level) ->
  match search_turn (KeyIsAfterNode compare s target) s x level with
  | Done (At x' level') => reading s L (target, x', level') /\
      ((level' < level)%nat \/ (level' = level /\ exists k, key_of s x' = Some k /\ k ∈ keys_lt target ks))
  | Done (Found _ n) => mbind (M := option) (key_of s) n = head (keys_ge target ks)
  | _ => False
  end.
Proof.
  intros Hh Hx. pose proof Hh as (Hr & Hk & Hs). destruct (reading_split _ _ _ _ _ Hx) as (A & B & HA & ->).
  destruct Hx as [Hl Hx]. set (P := before s target) in *.
  assert (Hd : downward P (L 0%nat)) by (by eapply before_downward).
  pose proof (rep_sub0 s L level Hr Hl) as Hsub.
  pose proof (lo_hi P (L level) (StronglySorted_sublist _ _ _ Hsub Hd)) as Hsplit.
  pose proof (rep_path _ _ Hr level Hl) as Hp. rewrite Hsplit, HA, <- app_assoc in Hp.
  pose proof (path_next _ _ _ _ _ Hp) as Hn. unfold search_turn. rewrite Hn. cbn [ofopt obind].
  destruct B as [|y B]; cbn [app head].
  - rewrite app_nil_r in HA.
    assert (KeyIsAfterNode compare s target (head (hi P (L level))) = Done false) as ->.
    { destruct (hi P (L level)) as [|z r] eqn:E; [done|]. cbn [head].
      assert (z ∈ hi P (L level)) as Hz by (rewrite E; by left). apply list_elem_of_filter in Hz as [Hz Hin].
      rewrite (holds_after s L ks target Hh) by (by eapply sublist_subseteq). by fold P; rewrite Hz. }
    cbn [obind]. destruct level as [|level].
    + apply head_keys. by apply map_before.
    + split; [|left; lia]. split; [lia|]. destruct Hx as [Hx|Hx]; [by left|right].
      eapply sublist_subseteq; [|exact Hx]. apply lo_hi_sublist. by apply (rep_sub s L Hr).
  - assert (y ∈ lo P (L level)) as Hy by (rewrite HA; apply elem_of_app; right; by left).
    pose proof Hy as [Hyb Hin]%list_elem_of_filter. pose proof (sublist_subseteq _ _ Hsub y Hin) as Hin0.
    rewrite (holds_after s L ks target Hh) by done. fold P. rewrite Hyb. cbn [obind ofopt].
    split; [by split; [|right]|]. right. split; [done|].
    assert (y ∈ lo P (L 0%nat)) as Hy0 by (by apply list_elem_of_filter).
    destruct (map_before s target _ _ Hk) as [Hlo _]. apply list_elem_of_In, (in_map (key_of s)) in Hy0.
    fold P in Hlo. rewrite Hlo in Hy0. apply in_map_iff in Hy0 as (k & Ek & Hin'). exists k. split; [done|].
    by apply list_elem_of_In.
Qed.
Lemma reading_mono (s s' : SkipList K) L L' r :
  (forall i p, (i < kMaxHeight)%nat -> p ∈ L i -> key_of s' p = key_of s p /\ p ∈ L' i) ->
  reading s L r -> reading s' L' r.
Proof.
  intros H. destruct r as [[target x] level]. intros [Hl [Hx|Hx]]; (split; [done|]); [by left|right].
  apply list_elem_of_filter in Hx as [Hb Hx]. destruct (H level x Hl Hx) as [Hk Hx']. apply list_elem_of_filter.
  split; [|done]. unfold before in *. by rewrite Hk.
Qed.

Lemma inserted_grows (s : SkipList K) L0 P x prev k height i p :
  fresh s L0 P x prev k height -> (i < kMaxHeight)%nat -> p ∈ inserted P x k L0 i -> p ∈ inserted P x (S k) L0 i.
Proof.
  intros Hf Hi. unfold inserted. destruct (decide (i < k)%nat).
  - rewrite decide_True by lia. done.
  - destruct (decide (i < S k)%nat); [|done]. rewrite (fresh_split _ _ _ _ _ _ _ i Hf Hi) at 1.
    intros [Hp|Hp]%elem_of_app; apply elem_of_app; [by left | right; by right].
Qed.

Lemma mstep_minv m m' : mstep compare m m' -> minv m -> minv m'.
Proof.
  intros Hstep (L & ks & Hw & Hr). pose proof (writing_holds _ _ _ _ Hw) as Hh.
  destruct Hstep as [key rand x prev height rand' s' Em Hc Hb|x prev i height s' Em Hi Hlink|x prev height Em
                    |id target height Hid Hht|id target x level x' level' Hid Ht|id target x level x' n Hid Ht]; cbn.
  - destruct (Contains_holds _ _ _ key Hh) as (b & Hb' & Hne). rewrite Hc in Hb'. injection Hb' as <-.
    destruct (begin_put_fresh key rand _ L ks Hh) as (x' & prev' & height' & s'' & E & Eh & Hf & Hx & Hk).
    destruct (begin_put_heap _ _ _ _ _ _ _ _ Hb) as (node & Hnode). rewrite E in Hb. injection Hb as <- <- <- _ <-.
    pose proof (RandomHeight_bounds rand) as Hbd. pose proof Hh as (Hrep & _ & Hs).
    exists (inserted (before s'' key) x' 0 L), ks. split.
    + econstructor; [exact Hf | lia | lia | done | done | done | by apply Hne | done | done].
    + eapply map_Forall_impl; [exact Hr|]. cbn. intros _ r. apply (reading_mono (m_list m) _ L). intros i p Hi Hp. split.
      * unfold key_of. rewrite Hnode, lookup_app_l; [done|]. apply (rep_nodes _ _ Hrep).
        eapply sublist_subseteq; [by apply (rep_sub0 (m_list m)) | done].
      * unfold inserted. by rewrite decide_False by lia.
  - inversion Hw as [|x0 prev0 i0 height0 key L0 ks0 Hf _ Hh0 Hx Hk Hs Hne HL Hks E]; [congruence|].
    rewrite Em in E. injection E as -> -> -> ->.
    destruct (link_fresh _ _ _ _ _ _ _ Hf Hi) as (s1 & E1 & Hf1 & Hkey). rewrite Hlink in E1. injection E1 as <-.
    assert (Hf2 : fresh s' L0 (before s' key) x prev (S i) height)
      by (eapply fresh_ext; [|exact Hf1]; intros p _; unfold before; by rewrite Hkey).
    exists (inserted (before s' key) x (S i) L0), (put_keys key ks0). split.
    + econstructor; [exact Hf2 | lia | lia | by rewrite Hkey | by rewrite (map_ext _ _ Hkey) | done | done | done | done].
    + eapply map_Forall_impl; [exact Hr|]. cbn. intros _ r. apply (reading_mono (m_list m) _ L). intros j p Hj Hp. split; [apply Hkey|].
      assert (forall n, inserted (before s' key) x n L0 j = inserted (before (m_list m) key) x n L0 j) as ->.
      { intros n. unfold inserted, lo, hi. by rewrite !(filter_ext_in (before s' key) (before (m_list m) key))
          by (intros q _; unfold before; by rewrite Hkey). }
      rewrite HL in Hp. by eapply inserted_grows.
  - exists L, ks. split; [by constructor | done].
  - exists L, ks. split; [done|]. apply map_Forall_insert_2; [|done]. destruct Hh as (Hrep & _).
    pose proof (rep_height _ _ Hrep). split; [lia | by left].
  - exists L, ks. split; [done|]. apply map_Forall_insert_2; [|done].
    pose proof (turn_reading _ _ _ _ _ _ Hh (Hr _ _ Hid)) as H. rewrite Ht in H. apply H.
  - exists L, ks. split; [done|]. by apply map_Forall_delete.
Qed.

Lemma reachable_minv m : rtc (mstep compare) (m_init Key0) m -> minv m.
Proof.
  intros H. assert (Hi : minv (m_init Key0)).
  { exists (fun _ => []), []. split; [constructor; apply New_holds | apply map_Forall_empty]. }
  induction H as [|m m1 m2 H1 H2 IH]; [done|]. apply IH. by eapply mstep_minv.
Qed.

(** C29: However the steps of the one writer are interleaved with those of any
    number of searches, the list holds a strictly sorted sequence of keys at
    every moment (the keys a scan yields then), and every turn of a search is
    defined: it goes down a level, or on to a node of the list whose key is
    below the target, or it ends; and when it ends it has found the first key
    at or above the target among the keys the list holds at that moment. *)
Theorem SkipList_reader_sees_current m id target x level :
  rtc (mstep compare) (m_init Key0) m -> m_readers m !! id = Some (target, x, level) ->
  exists ks, keys_in (m_list m) = Done ks /\ StronglySorted key_lt ks /\
    match search_turn (KeyIsAfterNode compare (m_list m) target) (m_list m) x level with
    | Done (At x' level') => (level' < level)%nat \/
        (level' = level /\ exists k, key_of (m_list m) x' = Some k /\ k ∈ keys_lt target ks)
    | Done (Found _ n) => mbind (M := option) (key_of (m_list m)) n = head (keys_ge target ks)
    | _ => False
    end.
Proof.
  intros Hm Hid. destruct (reachable_minv m Hm) as (L & ks & Hw & Hr). pose proof (writing_holds _ _ _ _ Hw) as Hh.
  exists ks. split; [by apply (holds_keys _ L)|]. split; [apply Hh|].
  pose proof (turn_reading _ _ _ _ _ _ Hh (Hr _ _ Hid)) as H.
  destruct (search_turn _ _ _ _) as [[x' level'|x' n] | |]; [apply H | done..].
Qed.
(** A search that runs alone takes the turns of [search]. *)
Lemma search_turns m id target fuel x level prev x' n prev' :
  m_readers m !! id = Some (target, x, level) ->
  search fuel (KeyIsAfterNode compare (m_list m) target) (m_list m) x level prev = Done (x', n, prev') ->
  exists k m', (k <= fuel)%nat /\ nsteps (mstep compare) k m m' /\
    m_list m' = m_list m /\ m_writer m' = m_writer m /\ m_readers m' = delete id (m_readers m).
Proof.
  revert m x level prev. induction fuel as [|fuel IH]; intros m x level prev Hid; cbn [search]; [done|].
  pose proof (fun y l => seek_turns compare m id target x level y l Hid) as Hturn.
  pose proof (fun y n => seek_ends compare m id target x level y n Hid) as Hend. unfold search_turn in *.
  destruct (ofopt (next (m_list m) x level)) as [o| |]; cbn [obind] in *; [|done..].
  destruct (KeyIsAfterNode compare (m_list m) target o) as [[]| |]; cbn [obind] in *; [| |done..].
  - destruct (ofopt o) as [y| |]; cbn [obind] in *; [|done..]. intros Hs.
    destruct (IH (mkMachine (m_list m) (m_writer m) (<[id := (target, y, level)]> (m_readers m))) y level prev
      (lookup_insert_eq (m_readers m) id _) Hs) as (k & m' & Hk & Hn & Hl & Hw & Hr).
    exists (S k), m'. split; [lia|]. split; [econstructor; [by apply (Hturn y level) | exact Hn]|].
    cbn in *. rewrite Hr. split_and!; [done..|]. apply delete_insert_eq.
  - destruct level as [|level].
    + intros [= <- <- _]. exists 1%nat. eexists. split; [lia|]. split; [apply nsteps_once; by apply (Hend x o)|]. done.
    + intros Hs. destruct (IH (mkMachine (m_list m) (m_writer m) (<[id := (target, x, level)]> (m_readers m))) x level _
      (lookup_insert_eq (m_readers m) id _) Hs) as (k & m' & Hk & Hn & Hl & Hw & Hr).
      exists (S k), m'. split; [lia|]. split; [econstructor; [by apply (Hturn x level) | exact Hn]|].
      cbn in *. rewrite Hr. split_and!; [done..|]. apply delete_insert_eq.
Qed.

(** A writer that runs alone. *)
Lemma writer_ends m x prev i height :
  minv m -> m_writer m = Some (x, prev, i, height) ->
  exists m', nsteps (mstep compare) (S (height - i)) m m' /\ m_writer m' = None /\ m_readers m' = m_readers m.
Proof.
  remember (height - i)%nat as d eqn:Ed. revert m i Ed. induction d as [|d IH]; intros m i Ed Hm Ew.
  - pose proof Hm as (L & ks & Hw & _). rewrite Ew in Hw. inversion Hw; subst. replace i with height in * by lia.
    eexists. split; [apply nsteps_once; by eapply put_ends | done].
  - pose proof Hm as (L & ks & Hw & _). rewrite Ew in Hw. inversion Hw as [|? ? ? ? key L0 ks0 Hf]; subst.
    destruct (link_fresh _ _ _ _ _ _ _ Hf ltac:(lia)) as (s' & E & _ & _).
    pose proof (put_links compare m x prev i height s' Ew ltac:(lia) E) as Hstep.
    destruct (IH _ (S i) ltac:(lia) (mstep_minv _ _ Hstep Hm) eq_refl) as (m' & Hn & Hnone & Hsame).
    exists m'. split; [by econstructor | done].
Qed.

(** C30: Nobody waits: from every reachable state any search that runs alone
    ends within the fuel of its loop, with the list and the writer as they
    are, and a writer that runs alone completes its [Put] within a step per
    level and one more. *)
Theorem SkipList_obstruction_free m :
  rtc (mstep compare) (m_init Key0) m ->
  (forall id r, m_readers m !! id = Some r ->
    exists n m', (n <= search_fuel (m_list m))%nat /\ nsteps (mstep compare) n m m' /\
      m_list m' = m_list m /\ m_writer m' = m_writer m /\ m_readers m' = delete id (m_readers m)) /\
  (is_Some (m_writer m) ->
    exists n m', (n <= S kMaxHeight)%nat /\ nsteps (mstep compare) n m m' /\
      m_writer m' = None /\ m_readers m' = m_readers m).
Proof.
  intros Hm%reachable_minv. pose proof Hm as (L & ks & Hw & Hrd). pose proof (writing_holds _ _ _ _ Hw) as Hh.
  pose proof Hh as (Hr & Hk & Hs). split.
  - intros id [[target x] level] Hid. pose proof (Hrd _ _ Hid) as Hx.
    destruct (reading_split _ _ _ _ _ Hx) as (A & B & HA & Ex). pose proof Hx as [Hl _].
    pose proof (rep_length _ L level Hr Hl) as Hlen. pose proof (rep_sub0 _ L level Hr Hl) as Hsub.
    pose proof (before_downward _ target _ _ Hk Hs) as Hd.
    rewrite (lo_hi (before (m_list m) target) (L level)) in Hlen by (by eapply StronglySorted_sublist).
    rewrite HA, !length_app in Hlen.
    destruct (search_spec (m_list m) L (KeyIsAfterNode compare (m_list m) target) (before (m_list m) target)
      (search_fuel (m_list m)) x level (replicate kMaxHeight None) B Hr Hd eq_refl
      (holds_after _ _ _ target Hh) Hl eq_refl ltac:(by exists A)) as (prev' & E & _).
    { unfold search_fuel, kMaxHeight in *. nia. }
    by eapply search_turns.
  - intros [[[[x prev] i] height] Ew]. destruct (writer_ends m x prev i height Hm Ew) as (m' & Hn & Hnone & Hsame).
    exists (S (height - i)), m'. split; [|done]. rewrite Ew in Hw. inversion Hw as [|? ? ? ? key L0 ks0 Hf]; subst.
    pose proof (fr_height _ _ _ _ _ _ _ Hf). pose proof (rep_height _ _ Hr). lia.
Qed.
End ordered.

(** ** A run *)

(** One key is in the list, a second one is being linked, and a search has
    begun. *)
Lemma sample_run :
  exists s, rtc (mstep (compare_by id lex)) (m_init ([] : bytes)) s /\
    m_readers s !! 7%nat = Some ([97], 0%nat, 0%nat) /\ is_Some (m_writer s) /\
    keys_in (m_list s) = Done [[97]; [98]].
Proof.
  eexists. split; [|split_and!].
  - eapply rtc_l; [eapply (put_begins _ _ [98] [1]); vm_compute; reflexivity|].
    eapply rtc_l; [eapply put_links; [vm_compute; reflexivity | lia | vm_compute; reflexivity]|].
    eapply rtc_l; [eapply put_ends; vm_compute; reflexivity|].
    eapply rtc_l; [eapply (seek_begins _ _ 7 [97] 1); [vm_compute; reflexivity | vm_compute; lia]|].
    eapply rtc_l; [eapply (put_begins _ _ [97] [4; 0; 1]); vm_compute; reflexivity|].
    eapply rtc_l; [eapply put_links; [vm_compute; reflexivity | lia | vm_compute; reflexivity]|].
    apply rtc_refl.
  - vm_compute. reflexivity.
  - vm_compute. by eexists.
  - vm_compute. reflexivity.
Qed.

Lemma SkipList_reader_sees_current_witness :
  exists s ks, keys_in (m_list s) = Done ks /\ StronglySorted (key_lt id lex) ks /\
    match search_turn (KeyIsAfterNode (compare_by id lex) (m_list s) [97]) (m_list s) 0 0 with
    | Done (At x' level') => (level' < 0)%nat \/
        (level' = 0%nat /\ exists k, key_of (m_list s) x' = Some k /\ k ∈ keys_lt id lex [97] ks)
    | Done (Found _ n) => mbind (M := option) (key_of (m_list s)) n = head (keys_ge id lex [97] ks)
    | _ => False
    end.
Proof.
  destruct sample_run as (s & Hm & Hr & _). exists s. exact (SkipList_reader_sees_current [] id lex s 7 [97] 0 0 Hm Hr).
Defined.

Lemma SkipList_obstruction_free_witness :
  exists s s', rtc (mstep (compare_by id lex)) s s' /\ is_Some (m_writer s) /\ m_writer s' = None.
Proof.
  destruct sample_run as (s & Hm & _ & Hw & _). exists s.
  destruct (proj2 (SkipList_obstruction_free [] id lex s Hm) Hw) as (n & s' & _ & Hn & Hnone & _).
  exists s'. split; [|done]. apply rtc_nsteps. by exists n.
Defined.
