(* ===== verification/Iterator.v ===== *)
(** * Iterator

    include/mai/iterator.h: the interface between the tables and the readers
    of the database, as a class of operations, and what a client relies on:
    [runs] says which entries successive steps of an iterator produce. *)

From S2P Require Import Prelude Slice Keys Entries.

(** The virtual methods of [Iterator]; [it_current] is [key()] and [value()]. *)
Class Iterator (I : Type) := {
  it_Valid : I -> bool;
  it_SeekToFirst : I -> outcome I;
  it_SeekToLast : I -> outcome I;
  it_Seek : bytes -> I -> outcome I;
  it_Next : I -> outcome I;
  it_Prev : I -> outcome I;
  it_current : I -> option kv;
  it_error : I -> error;
}.

Inductive Direction := kForward | kReserve.

Section runs.
Context {I : Type} `{!Iterator I}.

(** Standing on the first of the entries [es], [step] goes through the rest
    and then off the end. *)
Fixpoint runs (step : I -> outcome I) (it : I) (es : list kv) : Prop :=
  match es with
  | [] => it_Valid it = false
  | e :: es =>
    it_Valid it = true /\ it_current it = Some e /\
    exists it', step it = Done it' /\ runs step it' es
  end.

Abbreviation forward := (runs it_Next).
Abbreviation backward := (runs it_Prev).

(** The loop [for (; iter->Valid(); iter->Next())]. *)
Fixpoint scan (fuel : nat) (it : I) : outcome (list kv) :=
  if it_Valid it then
    match fuel with
    | O => OutOfFuel
    | S fuel =>
      (do! e := ofopt (it_current it) in
       do! it := it_Next it in
       do! es := scan fuel it in Done (e :: es))%out
    end
  else Done [].

Lemma runs_Valid step it es : runs step it es -> it_Valid it = bool_decide (es <> []).
Proof. destruct es; [done|]. by intros [? _]. Qed.

Lemma forward_scan it es fuel :
  runs it_Next it es -> (length es <= fuel)%nat -> scan fuel it = Done es.
Proof.
  revert it fuel. induction es as [|e es IH]; intros it fuel.
  - intros Hv _. destruct fuel; cbn in *; by rewrite Hv.
  - intros (Hv & Hc & it' & Hn & Hr) Hf. destruct fuel as [|fuel]; cbn in Hf; [lia|].
    cbn [scan]. rewrite Hv, Hc, Hn. cbn [ofopt obind]. by rewrite (IH it' fuel Hr) by lia.
Qed.

Lemma scan_forward it es fuel : scan fuel it = Done es -> runs it_Next it es.
Proof.
  revert it es. induction fuel as [|fuel IH]; intros it es; cbn [scan]; destruct (it_Valid it) eqn:Hv; intros Hs;
    try discriminate Hs; [by injection Hs as <-| |by injection Hs as <-].
  destruct (it_current it) as [e|] eqn:Hc; [cbn [ofopt obind] in Hs | discriminate Hs].
  destruct (it_Next it) as [it'| |] eqn:Hn; [cbn [obind] in Hs | discriminate Hs..].
  destruct (scan fuel it') as [es'| |] eqn:Hs'; [cbn [obind] in Hs | discriminate Hs..]. injection Hs as <-.
  split_and!; [done..|]. exists it'. split; [done | by apply IH].
Qed.
End runs.

Abbreviation forward := (runs it_Next).
Abbreviation backward := (runs it_Prev).

(** One of two iterators: the dispatch of the virtual methods. *)
Definition either {A B} (f : A -> outcome A) (g : B -> outcome B) (x : A + B) : outcome (A + B) :=
  match x with
  | inl a => obind (f a) (fun a => Done (inl a))
  | inr b => obind (g b) (fun b => Done (inr b))
  end.

Definition either_Iterator {A B} `{Iterator A, Iterator B} : Iterator (A + B) := {|
  it_Valid x := match x with inl a => it_Valid a | inr b => it_Valid b end;
  it_SeekToFirst := either it_SeekToFirst it_SeekToFirst;
  it_SeekToLast := either it_SeekToLast it_SeekToLast;
  it_Seek t := either (it_Seek t) (it_Seek t);
  it_Next := either it_Next it_Next;
  it_Prev := either it_Prev it_Prev;
  it_current x := match x with inl a => it_current a | inr b => it_current b end;
  it_error x := match x with inl a => it_error a | inr b => it_error b end;
|}.

(** The iterator that stands for an error ([core::ErrorInternalIterator] and
    [Iterator::AsError]): never valid, and no operation does anything.  A
    factory returns an iterator or an error. *)
#[export] Instance error_ops : Iterator error := {
  it_Valid _ := false;
  it_SeekToFirst := Done;
  it_SeekToLast := Done;
  it_Seek _ := Done;
  it_Next := Done;
  it_Prev := Done;
  it_current _ := None;
  it_error e := e;
}.

#[export] Instance sum_Iterator {I} `{Iterator I} : Iterator (error + I) := either_Iterator.

(** Both alternatives run as they do alone. *)
Lemma inl_runs {A B} `{Iterator A, Iterator B} (a : A) es :
  forward a es -> runs (Iterator0 := either_Iterator) (it_Next (Iterator := either_Iterator)) (inl a : A + B) es.
Proof.
  revert a. induction es as [|e es IH]; intros a; [done|].
  intros (Hv & Hc & a' & Hn & Hr). cbn [runs]. split_and!; [done..|].
  exists (inl a'). cbn. rewrite Hn. split; [done | by apply IH].
Qed.

Lemma inr_runs {A B} `{Iterator A, Iterator B} (b : B) es :
  forward b es -> runs (Iterator0 := either_Iterator) (it_Next (Iterator := either_Iterator)) (inr b : A + B) es.
Proof.
  revert b. induction es as [|e es IH]; intros b; [done|].
  intros (Hv & Hc & b' & Hn & Hr). cbn [runs]. split_and!; [done..|].
  exists (inr b'). cbn. rewrite Hn. split; [done | by apply IH].
Qed.

Lemma sum_runs {I} `{Iterator I} it es : forward it es -> forward (inr it : error + I) es.
Proof. apply inr_runs. Qed.

(** ** The reference iterator *)

(** A list of entries and a position in it; past either end there is none. *)
Record Cursor := mkCursor { c_entries : list kv; c_at : option nat }.

Definition c_current (c : Cursor) : option kv := i ← c_at c; c_entries c !! i.

Definition c_move (i : option nat) (c : Cursor) : outcome Cursor := Done (mkCursor (c_entries c) i).

Definition Cursor_ops (cmp : bytes -> bytes -> Z) : Iterator Cursor := {|
  it_Valid c := bool_decide (is_Some (c_current c));
  it_SeekToFirst c := c_move (Some 0%nat) c;
  it_SeekToLast c := c_move (Some (pred (length (c_entries c)))) c;
  it_Seek t c := c_move (fst <$> list_find (fun e => 0 <= cmp (fst e) t) (c_entries c)) c;
  it_Next c := c_move (S <$> c_at c) c;
  it_Prev c := c_move (n ← c_at c; if decide (n = 0)%nat then None else Some (pred n)) c;
  it_current := c_current;
  it_error _ := kOk;
|}.

Section cursor.
Context (cmp : bytes -> bytes -> Z).
#[local] Instance cursor_ops : Iterator Cursor := Cursor_ops cmp.

Lemma cursor_forward es i : forward (mkCursor es (Some i)) (drop i es).
Proof.
  remember (drop i es) as l eqn:El. revert i El. induction l as [|e l IH]; intros i El; cbn [runs].
  - cbn. unfold c_current. cbn. apply bool_decide_eq_false_2. intros [e He].
    apply drop_S in He. by rewrite He in El.
  - assert (es !! i = Some e) as He by (rewrite <- (Nat.add_0_r i), <- lookup_drop, <- El; done).
    split_and!; [by apply bool_decide_eq_true_2; exists e | exact He |].
    exists (mkCursor es (Some (S i))). split; [done|]. apply IH.
    rewrite (drop_S _ _ _ He) in El. by injection El.
Qed.

Lemma cursor_SeekToFirst es : exists c, it_SeekToFirst (mkCursor es None) = Done c /\ forward c es.
Proof. eexists. split; [reflexivity|]. apply (cursor_forward es 0). Qed.
End cursor.

(** ** Going both ways *)

(** The places of an iterator over [es], as cuts: [front n] is that of the entry
    behind the first [n], [back n] that of the last of the first [n]. *)
Definition front {A} (es : list A) (n : nat) : option nat := if (n <? length es)%nat then Some n else None.
Definition back (n : nat) : option nat := match n with O => None | S m => Some m end.

(** What an iterator over [es] promises that may be turned round: [R] tells the
    place it is at ([None] off either end). *)
Class Bidi {I : Type} `{!Iterator I} (es : list kv) (R : I -> option nat -> Prop) : Prop := {
  bi_valid i p : R i p -> it_Valid i = bool_decide (is_Some p);
  bi_current i n : R i (Some n) -> it_current i = es !! n /\ (n < length es)%nat;
  bi_error i p : R i p -> it_error i = kOk;
  bi_first i p : R i p -> exists i', it_SeekToFirst i = Done i' /\ R i' (front es 0);
  bi_last i p : R i p -> exists i', it_SeekToLast i = Done i' /\ R i' (back (length es));
  bi_next i n : R i (Some n) -> exists i', it_Next i = Done i' /\ R i' (front es (S n));
  bi_prev i n : R i (Some n) -> exists i', it_Prev i = Done i' /\ R i' (back n);
}.

Lemma bidi_forward {I} `{!Iterator I} es R (H : Bidi es R) i n :
  R i (front es n) -> runs it_Next i (drop n es).
Proof.
  remember (drop n es) as l eqn:El. revert i n El. induction l as [|e l IH]; intros i n El Hi; cbn [runs].
  - rewrite (bi_valid _ _ Hi). symmetry in El. apply (f_equal length) in El. rewrite length_drop in El. cbn in El.
    unfold front. destruct (Nat.ltb_spec n (length es)); [lia | done].
  - assert (He : es !! n = Some e) by (rewrite <- (Nat.add_0_r n), <- lookup_drop, <- El; done).
    pose proof (lookup_lt_Some _ _ _ He) as Hn. unfold front in Hi.
    destruct (Nat.ltb_spec n (length es)); [|lia]. destruct (bi_current _ _ Hi) as [Hc _].
    rewrite (bi_valid _ _ Hi). split_and!; [done | by rewrite Hc|].
    destruct (bi_next _ _ Hi) as (i' & E & Hi'). exists i'. split; [done|]. apply (IH _ (S n)); [|done].
    rewrite (drop_S _ _ _ He) in El. by injection El.
Qed.

Lemma bidi_backward {I} `{!Iterator I} es R (H : Bidi es R) i n :
  (n <= length es)%nat -> R i (back n) -> runs it_Prev i (reverse (take n es)).
Proof.
  revert i. induction n as [|n IH]; intros i Hn Hi; cbn [back] in Hi.
  - rewrite take_0. change (it_Valid i = false). by rewrite (bi_valid _ _ Hi).
  - destruct (lookup_lt_is_Some_2 es n Hn) as [e He]. rewrite (take_S_r _ _ _ He), reverse_app. change (reverse [e]) with [e].
    cbn [app runs]. rewrite (bi_valid _ _ Hi). destruct (bi_current _ _ Hi) as [Hc _].
    split_and!; [done | by rewrite Hc|]. destruct (bi_prev _ _ Hi) as (i' & E & Hi'). exists i'.
    split; [done|]. apply IH; [lia | done].
Qed.

(** The reference iterator. *)
Definition cursor_at (es : list kv) (c : Cursor) (p : option nat) : Prop :=
  c_entries c = es /\ (forall n, p = Some n -> c_at c = Some n /\ (n < length es)%nat) /\ (p = None -> c_current c = None).

Lemma cursor_bidi cmp es : Bidi (Iterator0 := Cursor_ops cmp) es (cursor_at es).
Proof.
  assert (Hfront : forall n, cursor_at es (mkCursor es (Some n)) (front es n)).
  { intros n. unfold front. destruct (Nat.ltb_spec n (length es)); split_and!; [done | | done | done | done |].
    - by intros m [= <-].
    - intros _. cbn. apply lookup_ge_None. lia. }
  split; cbn.
  - intros [es' c] p (<- & Hs & Hn). cbn in *. destruct p as [n|]; [|by rewrite Hn].
    destruct (Hs n eq_refl) as [-> Hl]. apply bool_decide_eq_true_2. unfold c_current. cbn. by apply lookup_lt_is_Some.
  - intros [es' c] n (<- & Hs & _). cbn in *. destruct (Hs n eq_refl) as [-> Hl]. done.
  - done.
  - intros [es' c] p (<- & _). eexists. split; [reflexivity | apply Hfront].
  - intros [es' c] p (<- & _). eexists. split; [reflexivity|]. destruct es' as [|x l]; [by split_and!|].
    split_and!; [done | | done]. intros n [= <-]. cbn. split; [done | lia].
  - intros [es' c] n (<- & Hs & _). cbn in *. destruct (Hs n eq_refl) as [-> Hl]. eexists. split; [reflexivity | apply Hfront].
  - intros [es' c] n (<- & Hs & _). cbn in *. destruct (Hs n eq_refl) as [-> Hl]. eexists. split; [reflexivity|].
    destruct n as [|n]; cbn; [by split_and!|]. split_and!; [done | | done]. intros m [= <-]. split; [done | lia].
Qed.
