(* ===== verification/Merging.v ===== *)
(** * Merging

    src/core/merging.cc and src/core/iterator-warpper.{h,cc}: the iterator
    that merges the sorted entries of its children, each behind a wrapper that
    caches whether it is valid and its key. *)

From S2P Require Import Prelude Slice Keys Entries Iterator.

(** ** IteratorWarpper *)

Record IteratorWarpper (I : Type) := mkWarp { delegated_ : I; w_valid_ : bool; key_ : bytes }.
Arguments mkWarp {I}.
Arguments delegated_ {I}.
Arguments w_valid_ {I}.
Arguments key_ {I}.

Section warpper.
Context {I : Type} `{!Iterator I}.

Definition NewIteratorWarpper (delegated : I) : IteratorWarpper I := mkWarp delegated false [].

(** [Update] after every move. *)
Definition Update (w : IteratorWarpper I) (delegated : I) : IteratorWarpper I :=
  let valid := it_Valid delegated in
  mkWarp delegated valid
    (if valid then match it_current delegated with Some e => fst e | None => key_ w end else key_ w).

Definition w_move (f : I -> outcome I) (w : IteratorWarpper I) : outcome (IteratorWarpper I) :=
  obind (f (delegated_ w)) (fun d => Done (Update w d)).

#[export] Instance Warpper_ops : Iterator (IteratorWarpper I) := {
  it_Valid := w_valid_;
  it_SeekToFirst := w_move it_SeekToFirst;
  it_SeekToLast := w_move it_SeekToLast;
  it_Seek target := w_move (it_Seek target);
  it_Next := w_move it_Next;
  it_Prev := w_move it_Prev;
  it_current w := e ← it_current (delegated_ w); Some (key_ w, snd e);
  it_error w := it_error (delegated_ w);
}.
End warpper.

(** ** MergingIterator *)

Record MergingIterator (I : Type) := mkMerging {
  children_ : list (IteratorWarpper I); current_ : option nat; direction_ : Direction
}.
Arguments mkMerging {I}.
Arguments children_ {I}.
Arguments current_ {I}.
Arguments direction_ {I}.

Section merging.
Context {I : Type} `{!Iterator I} (cmp : bytes -> bytes -> Z).

#[local] Abbreviation W := (IteratorWarpper I).

Definition NewMerging (children : list I) : MergingIterator I :=
  mkMerging (map NewIteratorWarpper children) None kForward.

(** The best child so far and its key, child [i] being next. *)
Fixpoint find_best (better : bytes -> bytes -> bool) (cs : list (nat * W)) (best : option (nat * W)) :
    option nat :=
  match cs with
  | [] => option_map fst best
  | (i, c) :: cs =>
    let best :=
      if w_valid_ c then
        match best with
        | None => Some (i, c)
        | Some (j, b) => if better (key_ c) (key_ b) then Some (i, c) else best
        end
      else best in
    find_best better cs best
  end.

Definition numbered {A} (l : list A) : list (nat * A) := zip (seq 0 (length l)) l.

Definition FindSmallest (children : list W) : option nat :=
  find_best (fun k s => cmp k s <? 0) (numbered children) None.

(** [FindLargest] goes from the last child to the first. *)
Definition FindLargest (children : list W) : option nat :=
  find_best (fun k s => 0 <? cmp k s) (reverse (numbered children)) None.

Definition m_child (it : MergingIterator I) : option W := i ← current_ it; children_ it !! i.

Definition m_Valid (it : MergingIterator I) : bool :=
  match m_child it with Some c => w_valid_ c | None => false end.

Definition m_SeekToFirst (it : MergingIterator I) : outcome (MergingIterator I) :=
  obind (traverse it_SeekToFirst (children_ it)) (fun cs => Done (mkMerging cs (FindSmallest cs) kForward)).

Definition m_SeekToLast (it : MergingIterator I) : outcome (MergingIterator I) :=
  obind (traverse it_SeekToLast (children_ it)) (fun cs => Done (mkMerging cs (FindLargest cs) kReserve)).

Definition m_Seek (target : bytes) (it : MergingIterator I) : outcome (MergingIterator I) :=
  obind (traverse (it_Seek target) (children_ it)) (fun cs => Done (mkMerging cs (FindSmallest cs) kForward)).

(** What [Next] and [Prev] do to a child other than [current_] when the
    direction changes; [key] is the key of the current one. *)
Definition turn_forward (key : bytes) (c : W) : outcome W :=
  obind (it_Seek key c) (fun c =>
    if w_valid_ c && (cmp key (key_ c) =? 0) then it_Next c else Done c).

Definition turn_backward (key : bytes) (c : W) : outcome W :=
  obind (it_Seek key c) (fun c => if w_valid_ c then it_Prev c else it_SeekToLast c).

Definition turn (f : bytes -> W -> outcome W) (i : nat) (key : bytes) (cs : list W) : outcome (list W) :=
  traverse (fun '(j, c) => if (j =? i)%nat then Done c else f key c) (numbered cs).

Definition m_Next (it : MergingIterator I) : outcome (MergingIterator I) :=
  (do! i := ofopt (current_ it) in
   do! c := ofopt (children_ it !! i) in
   do! cs := (match direction_ it with
              | kForward => Done (children_ it)
              | kReserve => turn turn_forward i (key_ c) (children_ it)
              end) in
   do! c := it_Next c in
   let cs := <[i := c]> cs in
   Done (mkMerging cs (FindSmallest cs) kForward))%out.

Definition m_Prev (it : MergingIterator I) : outcome (MergingIterator I) :=
  (do! i := ofopt (current_ it) in
   do! c := ofopt (children_ it !! i) in
   do! cs := (match direction_ it with
              | kReserve => Done (children_ it)
              | kForward => turn turn_backward i (key_ c) (children_ it)
              end) in
   do! c := it_Prev c in
   let cs := <[i := c]> cs in
   Done (mkMerging cs (FindLargest cs) kReserve))%out.

Definition m_error (it : MergingIterator I) : error :=
  match filter (fun c => negb (ok (it_error c)) = true) (children_ it) with
  | [] => kOk
  | c :: _ => it_error c
  end.

Definition Merging_ops : Iterator (MergingIterator I) := {|
  it_Valid := m_Valid;
  it_SeekToFirst := m_SeekToFirst;
  it_SeekToLast := m_SeekToLast;
  it_Seek := m_Seek;
  it_Next := m_Next;
  it_Prev := m_Prev;
  it_current it := m_child it ≫= it_current;
  it_error := m_error;
|}.
#[local] Existing Instance Merging_ops.

(** [Merging::NewMergingIterator]: an error iterator without children, the
    child itself when there is one. *)
Definition Merged : Type := error + (I + MergingIterator I).

Definition NewMergingIterator (children : list I) : Merged :=
  match children with
  | [] => inl kOk
  | [c] => inr (inl c)
  | _ => inr (inr (NewMerging children))
  end.

Definition Merged_ops : Iterator Merged := sum_Iterator (H := either_Iterator).

(** No child has failed. *)
Lemma NewMerging_error cs :
  cs <> [] -> Forall (fun c => it_error c = kOk) cs -> it_error (Iterator := Merged_ops) (NewMergingIterator cs) = kOk.
Proof.
  intros Hne He. destruct cs as [|i [|j l]]; [done | by apply Forall_inv in He |].
  cbn [it_error Merged_ops sum_Iterator either_Iterator NewMergingIterator Merging_ops m_error children_ NewMerging].
  unfold m_error. rewrite filter_none; [done|]. cbn [children_ NewMerging]. apply Forall_map. eapply Forall_impl; [exact He|].
  intros x Hx. cbn. by rewrite Hx.
Qed.

(** ** Merging forward *)

Definition kv_le (a b : kv) : Prop := cmp (fst a) (fst b) <= 0.

(** A child stands before the entries [es], and its cache is up to date. *)
Record tracks (c : W) (es : list kv) : Prop := {
  t_forward : forward (delegated_ c) es;
  t_valid : w_valid_ c = bool_decide (es <> []);
  t_key : forall e es', es = e :: es' -> key_ c = fst e;
}.

Lemma Update_tracks w d es : forward d es -> tracks (Update w d) es.
Proof.
  intros Hf. constructor; cbn; [done | by eapply runs_Valid |].
  intros e es' ->. cbn [runs] in Hf. by destruct Hf as (-> & -> & _).
Qed.

Lemma tracks_Next c e es : tracks c (e :: es) -> exists c', it_Next c = Done c' /\ tracks c' es.
Proof.
  intros [(_ & _ & d & Hn & Hf) _ _]. cbn [it_Next Warpper_ops]. unfold w_move. rewrite Hn.
  eexists. split; [reflexivity | by apply Update_tracks].
Qed.

Lemma tracks_current c e es : tracks c (e :: es) -> it_current c = Some e.
Proof.
  intros [(_ & Hc & _) _ Hk]. cbn. rewrite Hc. cbn. rewrite (Hk e es eq_refl). by destruct e.
Qed.

(** The search finds a child at least as good as the others. *)
Lemma find_best_spec better (R : bytes -> bytes -> Prop) (l : list (nat * W)) best :
  (forall k, R k k) -> (forall a b c, R a b -> R b c -> R a c) ->
  (forall k s, if better k s : bool then R k s else R s k) ->
  match find_best better l best with
  | None => best = None /\ forall i c, (i, c) ∈ l -> w_valid_ c = false
  | Some i => exists c, (best = Some (i, c) \/ ((i, c) ∈ l /\ w_valid_ c = true)) /\
      (forall j b, (j, b) ∈ l -> w_valid_ b = true -> R (key_ c) (key_ b)) /\
      (forall j b, best = Some (j, b) -> R (key_ c) (key_ b))
  end.
Proof.
  intros Hrefl Htrans Hb. revert best. induction l as [|[i c] l IH]; intros best; cbn [find_best].
  { destruct best as [[i c]|]; cbn.
    - exists c. split; [by left|]. split; [by intros j b H%elem_of_nil|]. intros j b [= -> ->]. apply Hrefl.
    - split; [done|]. by intros i c H%elem_of_nil. }
  set (best' := if w_valid_ c then _ else best). specialize (IH best').
  destruct (find_best better l best') as [k|].
  - destruct IH as (x & H1 & H2 & H3). exists x.
    assert (Hcase : (best' = Some (i, c) /\ w_valid_ c = true /\ forall j b, best = Some (j, b) -> R (key_ c) (key_ b)) \/
                    (best' = best /\ (w_valid_ c = true -> exists j b, best = Some (j, b) /\ R (key_ b) (key_ c)))).
    { unfold best'. destruct (w_valid_ c); [|by right]. destruct best as [[j b]|]; [|by left].
      pose proof (Hb (key_ c) (key_ b)) as Hbc. destruct (better (key_ c) (key_ b)); [left|right].
      - split_and!; [done..|]. by intros ? ? [= -> ->].
      - split; [done|]. intros _. by exists j, b. }
    destruct Hcase as [(E & Hv & Hle)|(E & Hle)]; rewrite E in *.
    + split_and!.
      * destruct H1 as [[= -> ->]|[H1 H1']]; right; (split; [|done]); [by left | by right].
      * intros j b [[= -> ->]|Hin]%elem_of_cons Hbv; [by apply (H3 i) | by apply (H2 j)].
      * intros j b Eb. apply (Htrans _ (key_ c)); [by apply (H3 i) | by apply (Hle j)].
    + split_and!.
      * destruct H1 as [->|[H1 H1']]; [by left | right; split; [by right | done]].
      * intros j b [[= -> ->]|Hin]%elem_of_cons Hbv; [|by apply (H2 j)].
        destruct (Hle Hbv) as (j' & b' & Eb & HR). apply (Htrans _ (key_ b')); [by apply (H3 j') | done].
      * done.
  - destruct IH as [E IH]. unfold best' in E. destruct (w_valid_ c) eqn:Hv.
    + destruct best as [[j b]|]; [by destruct (better _ _) | done].
    + split; [done|]. intros j b [[= -> ->]|Hin]%elem_of_cons; [done | by apply (IH j)].
Qed.

Lemma numbered_lookup {A} (l : list A) i x : (i, x) ∈ numbered l <-> l !! i = Some x.
Proof.
  unfold numbered. rewrite list_elem_of_lookup. split.
  - intros [k Hk]. apply lookup_zip_Some in Hk as [[H1 H2]%lookup_seq H3]. cbn in H1. by subst.
  - intros Hi. exists i. apply lookup_zip_Some. split; [|done].
    apply lookup_seq. split; [done|]. by apply lookup_lt_Some in Hi.
Qed.

Context `{!ComparatorLaws cmp}.

Lemma FindSmallest_spec cs ess :
  Forall2 tracks cs ess ->
  match FindSmallest cs with
  | None => Forall (fun es => es = []) ess
  | Some i => exists e es, ess !! i = Some (e :: es) /\
      forall j e' es', ess !! j = Some (e' :: es') -> kv_le e e'
  end.
Proof.
  intros Ht. pose proof (find_best_spec (fun k s => cmp k s <? 0) (fun a b => cmp a b <= 0) (numbered cs) None
    (cmp_le_refl cmp) (cmp_trans (cmp:=cmp))) as H.
  unfold FindSmallest. destruct (find_best _ _ None) as [i|].
  - destruct H as (c & [?|[Hin Hv]] & Hle & _); [|done|].
    { intros k s. destruct (Z.ltb_spec (cmp k s) 0); [lia | by apply cmp_ge]. }
    apply numbered_lookup in Hin. destruct (Forall2_lookup_l _ _ _ _ _ Ht Hin) as (es & Hes & Hc).
    rewrite (t_valid _ _ Hc), bool_decide_eq_true in Hv. destruct es as [|e es]; [done|].
    exists e, es. split; [done|]. intros j e' es' Hj.
    destruct (Forall2_lookup_r _ _ _ _ _ Ht Hj) as (b & Hb & Hbt).
    specialize (Hle j b (proj2 (numbered_lookup cs j b) Hb)). unfold kv_le.
    rewrite <- (t_key _ _ Hc e es), <- (t_key _ _ Hbt e' es') by done. apply Hle.
    by rewrite (t_valid _ _ Hbt).
  - destruct H as [_ H]. { intros k s. destruct (Z.ltb_spec (cmp k s) 0); [lia | by apply cmp_ge]. }
    apply Forall_lookup. intros i es Hes. destruct (Forall2_lookup_r _ _ _ _ _ Ht Hes) as (c & Hc & Hct).
    specialize (H i c (proj2 (numbered_lookup cs i c) Hc)). rewrite (t_valid _ _ Hct) in H.
    apply bool_decide_eq_false in H. by apply dec_stable in H.
Qed.

Lemma concat_alter (ess : list (list kv)) i e es :
  ess !! i = Some (e :: es) -> concat ess ≡ₚ e :: concat (<[i := es]> ess).
Proof.
  intros Hi. rewrite insert_take_drop by (by eapply lookup_lt_Some).
  rewrite <- (take_drop_middle ess i _ Hi) at 1. rewrite !concat_app. cbn [concat app].
  symmetry. apply Permutation_middle.
Qed.

(** Where the merging iterator stands: its children are before [ess]. *)
Record merges (it : MergingIterator I) (ess : list (list kv)) : Prop := {
  g_children : Forall2 tracks (children_ it) ess;
  g_current : current_ it = FindSmallest (children_ it);
  g_direction : direction_ it = kForward;
  g_sorted : Forall (StronglySorted kv_le) ess;
}.

Lemma merges_Next it ess i e es :
  merges it ess -> FindSmallest (children_ it) = Some i -> ess !! i = Some (e :: es) ->
  m_Valid it = true /\ m_child it ≫= it_current = Some e /\
  exists it', m_Next it = Done it' /\ merges it' (<[i := es]> ess).
Proof.
  intros [Ht Hc Hd Hs] Hi Hes. destruct (Forall2_lookup_r _ _ _ _ _ Ht Hes) as (c & Hlc & Htc).
  unfold m_Valid, m_child, m_Next. rewrite Hc, Hi. cbn [mbind option_bind]. rewrite Hlc.
  cbn [mbind option_bind ofopt obind]. split_and!.
  - by rewrite (t_valid _ _ Htc).
  - by apply tracks_current with es.
  - destruct (tracks_Next c e es Htc) as (c' & Hn & Htc'). rewrite Hd. cbn [ofopt obind].
    rewrite Hlc. cbn [ofopt obind]. rewrite Hn. cbn [obind]. eexists. split; [reflexivity|].
    constructor; cbn [children_ current_ direction_]; try done.
    + by apply Forall2_insert.
    + apply Forall_insert; [done|]. rewrite Forall_lookup in Hs.
      by apply Hs, StronglySorted_inv in Hes as [? _].
Qed.

(** The smallest head is below everything that is left. *)
Lemma least_head ess i j e es es' e' :
  Forall (StronglySorted kv_le) ess -> ess !! i = Some (e :: es) ->
  (forall j e' es', ess !! j = Some (e' :: es') -> kv_le e e') ->
  <[i := es]> ess !! j = Some es' -> e' ∈ es' -> kv_le e e'.
Proof.
  rewrite Forall_lookup. intros Hs Hi Hle Hj He'. destruct (decide (i = j)) as [<-|Hij].
  - rewrite list_lookup_insert_eq in Hj by (by eapply lookup_lt_Some). injection Hj as <-.
    apply Hs, StronglySorted_inv in Hi as [_ Hall]. rewrite Forall_forall in Hall. by apply Hall.
  - rewrite list_lookup_insert_ne in Hj by done. destruct es' as [|h es']; [by apply elem_of_nil in He'|].
    pose proof (Hle j h es' Hj) as Hh. apply elem_of_cons in He' as [->|He']; [done|].
    apply Hs, StronglySorted_inv in Hj as [_ Hall]. rewrite Forall_forall in Hall.
    specialize (Hall _ He'). unfold kv_le in *. by apply (cmp_trans _ (fst h)).
Qed.

Lemma merges_done it ess :
  merges it ess -> FindSmallest (children_ it) = None -> Forall (fun es => es = []) ess ->
  exists l, l ≡ₚ concat ess /\ StronglySorted kv_le l /\ runs m_Next it l.
Proof.
  intros Hg Hf Hall. exists []. split_and!; [| constructor |].
  - clear Hg. induction Hall as [|es ess -> _ IH]; [done | exact IH].
  - cbn. unfold m_Valid, m_child. by rewrite (g_current _ _ Hg), Hf.
Qed.

Lemma merges_forward it ess :
  merges it ess ->
  exists l, l ≡ₚ concat ess /\ StronglySorted kv_le l /\ runs m_Next it l.
Proof.
  remember (length (concat ess)) as m eqn:Hm. revert it ess Hm.
  induction m as [|m IH]; intros it ess Hm Hg; pose proof (FindSmallest_spec _ _ (g_children _ _ Hg)) as Hf.
  all: destruct (FindSmallest (children_ it)) as [i|] eqn:Ei.
  1, 3: destruct Hf as (e & es & Hes & Hle); pose proof (concat_alter _ _ _ _ Hes) as Hp.
  1: by rewrite Hp in Hm.
  - destruct (merges_Next it ess i e es Hg Ei Hes) as (Hv & Hcur & it' & Hn & Hg').
    rewrite Hp in Hm. cbn in Hm. injection Hm as Hm.
    destruct (IH it' _ Hm Hg') as (l & Hl & Hsl & Hr). exists (e :: l). split_and!.
    + by rewrite Hl, Hp.
    + constructor; [done|]. apply Forall_forall. intros e' He'. rewrite Hl in He'.
      apply list_elem_of_In, in_concat in He' as (es' & [j Hj]%list_elem_of_In%list_elem_of_lookup & He').
      apply list_elem_of_In in He'.
      apply (least_head ess i j e es es' e'); [exact (g_sorted _ _ Hg) | done..].
    + cbn [runs]. split_and!; [done..|]. by exists it'.
  - by apply (merges_done it ess).
  - by apply (merges_done it ess).
Qed.
(** A move that places an iterator before the entries [es]. *)
Definition places {J} `{Iterator J} (move : J -> outcome J) (it : J) (es : list kv) : Prop :=
  exists it', move it = Done it' /\ forward it' es.

Lemma traverse_places (move : I -> outcome I) cs ess :
  Forall2 (places move) cs ess ->
  exists ws, traverse (w_move move) (map NewIteratorWarpper cs) = Done ws /\ Forall2 tracks ws ess.
Proof.
  induction 1 as [|c es cs ess (c' & Hc & Hf) _ (ws & E & IH)]; [by exists []|].
  cbn [map traverse]. unfold w_move at 1. cbn [delegated_ NewIteratorWarpper]. rewrite Hc. cbn [obind].
  rewrite E. cbn [obind]. eexists. split; [reflexivity|]. constructor; [by apply Update_tracks | done].
Qed.

(** Merging works for both ways to place the children. *)
Lemma merged_places (move : forall J, Iterator J -> J -> outcome J) cs ess :
  move = (fun J H => @it_SeekToFirst J H) \/ (exists t, move = (fun J H => @it_Seek J H t)) ->
  cs <> [] -> Forall2 (places (move I _)) cs ess -> Forall (StronglySorted kv_le) ess ->
  exists l, l ≡ₚ concat ess /\ StronglySorted kv_le l /\
    places (H := Merged_ops) (move _ Merged_ops) (NewMergingIterator cs) l.
Proof.
  intros Hmove Hne Hcs Hs.
  assert (Hm : exists l it', l ≡ₚ concat ess /\ StronglySorted kv_le l /\
    move _ Merging_ops (NewMerging cs) = Done it' /\ runs m_Next it' l).
  { destruct (traverse_places _ _ _ Hcs) as (ws & E & Ht).
    assert (merges (mkMerging ws (FindSmallest ws) kForward) ess) as Hg by by constructor.
    destruct (merges_forward _ _ Hg) as (l & Hp & Hsl & Hr).
    exists l, (mkMerging ws (FindSmallest ws) kForward). split_and!; [done..| |done].
    destruct Hmove as [->|[t ->]]; cbn [it_SeekToFirst it_Seek Merging_ops];
      [unfold m_SeekToFirst | unfold m_Seek]; cbn [children_ NewMerging];
      change (traverse (w_move ?f)) with (traverse (w_move f)); cbn [it_SeekToFirst it_Seek Warpper_ops];
      rewrite E; done. }
  destruct cs as [|c [|c2 cs]]; [done| |].
  - inversion Hcs as [|? es ? ess' (c' & Hc & Hf) Hnil]; subst. inversion Hnil; subst.
    exists es. cbn [concat]. rewrite app_nil_r. split_and!; [done | by apply Forall_inv in Hs |].
    exists (inr (inl c')). split; [|by apply sum_runs, inl_runs].
    cbn [NewMergingIterator]. by destruct Hmove as [->|[t ->]]; cbn in *; rewrite Hc.
  - destruct Hm as (l & it' & Hp & Hsl & E & Hr). exists l. split_and!; [done..|].
    exists (inr (inr it')). split; [|by apply sum_runs, inr_runs].
    cbn [NewMergingIterator]. by destruct Hmove as [->|[t ->]]; cbn in *; rewrite E.
Qed.

(** ** Properties *)

(** C31: the iterator over any children (one, or several behind wrappers), each
    of which a seek places before sorted entries, goes through all the entries
    of all the children in order: a sorted list that is a permutation of their
    concatenation. *)
Theorem MergingIterator_merges t cs ess :
  cs <> [] -> Forall (StronglySorted kv_le) ess ->
  (Forall2 (places it_SeekToFirst) cs ess ->
   exists l it, l ≡ₚ concat ess /\ StronglySorted kv_le l /\
     it_SeekToFirst (Iterator := Merged_ops) (NewMergingIterator cs) = Done it /\
     scan (Iterator0 := Merged_ops) (length l) it = Done l) /\
  (Forall2 (places (it_Seek t)) cs ess ->
   exists l it, l ≡ₚ concat ess /\ StronglySorted kv_le l /\
     it_Seek (Iterator := Merged_ops) t (NewMergingIterator cs) = Done it /\
     scan (Iterator0 := Merged_ops) (length l) it = Done l).
Proof.
  intros Hne Hs. split; intros Hcs.
  - destruct (merged_places (fun J H => @it_SeekToFirst J H) cs ess ltac:(by left) Hne Hcs Hs)
      as (l & Hp & Hsl & it & E & Hr).
    exists l, it. split_and!; [done..|]. by apply (forward_scan (Iterator0 := Merged_ops)).
  - destruct (merged_places (fun J H => @it_Seek J H t) cs ess ltac:(by right; exists t) Hne Hcs Hs)
      as (l & Hp & Hsl & it & E & Hr).
    exists l, it. split_and!; [done..|]. by apply (forward_scan (Iterator0 := Merged_ops)).
Qed.
End merging.

Lemma MergingIterator_merges_witness :
  let es1 := [([97], [1]); ([99], [2])] in
  let es2 := [([98], [3])] in
  exists l it, l ≡ₚ concat [es1; es2] /\ StronglySorted (kv_le lex) l /\
    it_SeekToFirst (Iterator := Merged_ops (Iterator0 := Cursor_ops lex) lex)
      (NewMergingIterator [mkCursor es1 None; mkCursor es2 None]) = Done it /\
    scan (Iterator0 := Merged_ops (Iterator0 := Cursor_ops lex) lex) (length l) it = Done l.
Proof.
  intros es1 es2. apply (MergingIterator_merges (Iterator0 := Cursor_ops lex) lex []); [done| |].
  - repeat apply Forall_cons_2; [| |done]; repeat first [apply SSorted_cons | apply SSorted_nil
      | apply Forall_cons_2 | apply Forall_nil_2 | by unfold kv_le].
  - repeat apply Forall2_cons_2; [apply cursor_SeekToFirst.. | apply Forall2_nil_2].
Defined.
