(* ===== verification/DBIterator.v ===== *)
(** * DBIterator

    src/db/db-iterator.{h,cc}: the iterator a reader of the database gets.  It
    goes over the versioned entries of an internal iterator and shows, for
    every user key, the newest version that the snapshot can see, unless that
    is a deletion.

    The loops run with the fuel [fuel], the number of entries they may pass. *)

From S2P Require Import Prelude Slice Keys Entries Iterator Merging.

(** ** The iterator *)

(** The capacity of [saved_value_] is no part of its value. *)
Record DBIterator (I : Type) := mkDBI {
  iter_ : I; db_error_ : error; db_saved_key_ : bytes; db_saved_value_ : bytes;
  db_direction_ : Direction; valid_ : bool
}.
Arguments mkDBI {I}.
Arguments iter_ {I}.
Arguments db_error_ {I}.
Arguments db_saved_key_ {I}.
Arguments db_saved_value_ {I}.
Arguments db_direction_ {I}.
Arguments valid_ {I}.

Section db_iterator.
Context {I : Type} `{!Iterator I} (ucmp : bytes -> bytes -> Z).
Context (last_sequence_number_ : Z) (fuel : nat).

#[local] Abbreviation DB := (DBIterator I).

Definition NewDBIterator (iter : I) : DB := mkDBI iter kOk [] [] kForward false.

Definition set_iter (i : I) (d : DB) : DB :=
  mkDBI i (db_error_ d) (db_saved_key_ d) (db_saved_value_ d) (db_direction_ d) (valid_ d).
Definition set_saved_key (k : bytes) (d : DB) : DB :=
  mkDBI (iter_ d) (db_error_ d) k (db_saved_value_ d) (db_direction_ d) (valid_ d).
Definition set_saved_value (v : bytes) (d : DB) : DB :=
  mkDBI (iter_ d) (db_error_ d) (db_saved_key_ d) v (db_direction_ d) (valid_ d).
Definition set_direction (dir : Direction) (d : DB) : DB :=
  mkDBI (iter_ d) (db_error_ d) (db_saved_key_ d) (db_saved_value_ d) dir (valid_ d).
Definition set_valid (v : bool) (d : DB) : DB :=
  mkDBI (iter_ d) (db_error_ d) (db_saved_key_ d) (db_saved_value_ d) (db_direction_ d) v.

Definition ClearSavedValue : DB -> DB := set_saved_value [].

(** [ParseTaggedKey] into [ikey], which keeps its value when it fails. *)
Definition parse_into (ikey : bytes * Tag) (key : bytes) : bytes * Tag :=
  match ParseTaggedKey key with Some p => p | None => ikey end.

(** [FindNextUserEntry]; the storage for [skip] is [saved_key_]. *)
Fixpoint FindNextUserEntry (fuel : nat) (ikey : bytes * Tag) (skipping : bool) (d : DB) : outcome DB :=
  match fuel with
  | O => OutOfFuel
  | S fuel =>
    (do! e := ofopt (it_current (iter_ d)) in
     let '(user_key, tag) as ikey := parse_into ikey (fst e) in
     let visible := sequence_number tag <=? last_sequence_number_ in
     let deletion := flag tag =? flag_code kFlagDeletion in
     let value := flag tag =? flag_code kFlagValue in
     let hidden := skipping && (ucmp user_key (db_saved_key_ d) <=? 0) in
     if visible && negb deletion && value && negb hidden then
       Done (set_saved_key [] (set_valid true d))
     else
       let '(skipping, d) :=
         if visible && deletion then (true, set_saved_key user_key d) else (skipping, d) in
       do! i := it_Next (iter_ d) in
       let d := set_iter i d in
       if it_Valid i then FindNextUserEntry fuel ikey skipping d
       else Done (set_valid false (set_saved_key [] d)))%out
  end.

Definition no_ikey : bytes * Tag := ([], mkTag 0 0).

(** [FindPrevUserEntry]: its loop, with the type of the last entry taken. *)
Fixpoint find_prev (fuel : nat) (ikey : bytes * Tag) (value_type : Z) (d : DB) : outcome (Z * DB) :=
  match fuel with
  | O => OutOfFuel
  | S fuel =>
    (do! e := ofopt (it_current (iter_ d)) in
     let '(user_key, tag) as ikey := parse_into ikey (fst e) in
     let visible := sequence_number tag <=? last_sequence_number_ in
     if visible && negb (value_type =? flag_code kFlagDeletion) &&
        (ucmp user_key (db_saved_key_ d) <? 0)
     then Done (value_type, d)
     else
       do! (value_type, d) :=
         (if visible then
            if flag tag =? flag_code kFlagDeletion then
              Done (flag tag, ClearSavedValue (set_saved_key [] d))
            else
              do! uk := ofopt (ExtractUserKey (fst e)) in
              Done (flag tag, set_saved_value (snd e) (set_saved_key uk d))
          else Done (value_type, d)) in
       do! i := it_Prev (iter_ d) in
       let d := set_iter i d in
       if it_Valid i then find_prev fuel ikey value_type d else Done (value_type, d))%out
  end.

Definition FindPrevUserEntry (d : DB) : outcome DB :=
  (do! (value_type, d) := (if it_Valid (iter_ d)
                           then find_prev fuel no_ikey (flag_code kFlagDeletion) d
                           else Done (flag_code kFlagDeletion, d)) in
   if value_type =? flag_code kFlagDeletion then
     Done (set_direction kForward (ClearSavedValue (set_saved_key [] (set_valid false d))))
   else Done (set_valid true d))%out.

Definition db_SeekToFirst (d : DB) : outcome DB :=
  let d := ClearSavedValue (set_direction kForward d) in
  (do! i := it_SeekToFirst (iter_ d) in
   let d := set_iter i d in
   if it_Valid i then FindNextUserEntry fuel no_ikey false d else Done (set_valid false d))%out.

Definition db_SeekToLast (d : DB) : outcome DB :=
  let d := ClearSavedValue (set_direction kReserve d) in
  obind (it_SeekToLast (iter_ d)) (fun i => FindPrevUserEntry (set_iter i d)).

Definition db_Seek (target : bytes) (d : DB) : outcome DB :=
  let d := set_saved_key [] (ClearSavedValue (set_direction kForward d)) in
  let key := MakeKey target last_sequence_number_ (flag_code kFlagValueForSeek) in
  (do! i := it_Seek key (iter_ d) in
   let d := set_iter i d in
   if it_Valid i then FindNextUserEntry fuel no_ikey false d else Done (set_valid false d))%out.

(** [Next]: after turning round, the internal iterator is moved into the
    entries of the current key; else that key is the one to skip. *)
Definition db_Next (d : DB) : outcome DB :=
  match db_direction_ d with
  | kReserve =>
    let d := set_direction kForward d in
    (do! i := (if negb (it_Valid (iter_ d)) then it_SeekToFirst (iter_ d) else it_Next (iter_ d)) in
     let d := set_iter i d in
     if negb (it_Valid i) then Done (set_saved_key [] (set_valid false d))
     else FindNextUserEntry fuel no_ikey true d)%out
  | kForward =>
    (do! e := ofopt (it_current (iter_ d)) in
     do! uk := ofopt (ExtractUserKey (fst e)) in
     FindNextUserEntry fuel no_ikey true (set_saved_key uk d))%out
  end.

(** Going back to the entries before those of the current key. *)
Fixpoint turn_back (fuel : nat) (d : DB) : outcome (bool * DB) :=
  match fuel with
  | O => OutOfFuel
  | S fuel =>
    (do! i := it_Prev (iter_ d) in
     let d := set_iter i d in
     if negb (it_Valid i) then Done (false, ClearSavedValue (set_saved_key [] (set_valid false d)))
     else
       do! e := ofopt (it_current i) in
       do! uk := ofopt (ExtractUserKey (fst e)) in
       if ucmp uk (db_saved_key_ d) <? 0 then Done (true, d) else turn_back fuel d)%out
  end.

Definition db_Prev (d : DB) : outcome DB :=
  match db_direction_ d with
  | kForward =>
    (do! e := ofopt (it_current (iter_ d)) in
     do! uk := ofopt (ExtractUserKey (fst e)) in
     do! (more, d) := turn_back fuel (set_saved_key uk d) in
     if more then FindPrevUserEntry (set_direction kReserve d) else Done d)%out
  | kReserve => FindPrevUserEntry d
  end.

Definition db_current (d : DB) : option kv :=
  match db_direction_ d with
  | kForward => e ← it_current (iter_ d); uk ← ExtractUserKey (fst e); Some (uk, snd e)
  | kReserve => Some (db_saved_key_ d, db_saved_value_ d)
  end.

Definition DBIterator_ops : Iterator DB := {|
  it_Valid := valid_;
  it_SeekToFirst := db_SeekToFirst;
  it_SeekToLast := db_SeekToLast;
  it_Seek := db_Seek;
  it_Next := db_Next;
  it_Prev := db_Prev;
  it_current := db_current;
  it_error d := if ok (db_error_ d) then it_error (iter_ d) else db_error_ d;
|}.
#[local] Existing Instance DBIterator_ops.

(** ** Going forward *)

Definition hidden_by (skip : option bytes) (uk : bytes) : bool :=
  match skip with Some s => ucmp uk s <=? 0 | None => false end.

(** What is shown of the entries [es] when everything up to the key [skip] is
    to be left out. *)
Fixpoint visible (skip : option bytes) (es : list kv) : list kv :=
  match es with
  | [] => []
  | (k, v) :: es =>
    let '(uk, tag) := parsed k in
    if sequence_number tag <=? last_sequence_number_ then
      if flag tag =? flag_code kFlagDeletion then visible (Some uk) es
      else if hidden_by skip uk then visible skip es
      else (uk, v) :: visible (Some uk) es
    else visible skip es
  end.

(** The entries of the database: versions, each a value or a deletion. *)
Definition entry_ok (e : kv) : Prop :=
  exists u s f v, e = (MakeKey u s f, v) /\ tag_ok (mkTag s f) /\
    (f = flag_code kFlagValue \/ f = flag_code kFlagDeletion).

Definition skip_of (skipping : bool) (d : DB) : option bytes :=
  if skipping then Some (db_saved_key_ d) else None.

(** The search stops at the first entry shown, or at the end. *)
Lemma FindNextUserEntry_spec n ikey skipping d es :
  forward (iter_ d) es -> es <> [] -> Forall entry_ok es -> (length es <= n)%nat ->
  exists d', FindNextUserEntry n ikey skipping d = Done d' /\ db_direction_ d' = db_direction_ d /\
    match visible (skip_of skipping d) es with
    | [] => valid_ d' = false
    | (uk, v) :: rest => valid_ d' = true /\
        exists s f es', forward (iter_ d') ((MakeKey uk s f, v) :: es') /\ tag_ok (mkTag s f) /\
          Forall entry_ok es' /\ f = flag_code kFlagValue /\ s <= last_sequence_number_ /\
          (length es' < length es)%nat /\ rest = visible (Some uk) es'
    end.
Proof.
  revert ikey skipping d es. induction n as [|n IH]; intros ikey skipping d es Hf Hne Hok Hlen;
    destruct es as [|e es]; cbn in Hlen; try done; try lia.
  pose proof Hf as Hf0. destruct Hf as (Hv & Hc & i' & Hn & Hr).
  apply Forall_cons in Hok as [(u & s & f & v & -> & Ht & Hfl) Hok].
  cbn [FindNextUserEntry]. rewrite Hc. cbn [ofopt obind fst].
  assert (parse_into ikey (MakeKey u s f) = (u, mkTag s f)) as ->
    by (unfold parse_into; by rewrite ParseTaggedKey_MakeKey).
  cbn [visible]. rewrite parsed_MakeKey by done. cbn [sequence_number flag].
  assert (Hskip : forall d', (if skipping then true else false) && (ucmp u (db_saved_key_ d') <=? 0)
    = hidden_by (skip_of skipping d') u) by (intros d'; by destruct skipping).
  assert (Hrec : forall skipping' d', iter_ d' = iter_ d -> db_direction_ d' = db_direction_ d ->
    exists d'', (do! i := it_Next (iter_ d') in
       if it_Valid i then FindNextUserEntry n (u, mkTag s f) skipping' (set_iter i d')
       else Done (set_valid false (set_saved_key [] (set_iter i d'))))%out = Done d'' /\
      db_direction_ d'' = db_direction_ d /\
      match visible (skip_of skipping' d') es with
      | [] => valid_ d'' = false
      | (uk, v) :: rest => valid_ d'' = true /\
          exists s f es', forward (iter_ d'') ((MakeKey uk s f, v) :: es') /\ tag_ok (mkTag s f) /\
            Forall entry_ok es' /\ f = flag_code kFlagValue /\ s <= last_sequence_number_ /\
            (length es' < S (length es))%nat /\ rest = visible (Some uk) es'
      end).
  { intros skipping' d' Hd Hdir. rewrite Hd, Hn. cbn [obind]. rewrite (runs_Valid _ _ _ Hr).
    destruct es as [|e2 es]; cbn [bool_decide].
    - rewrite bool_decide_eq_false_2 by (by intros []). eexists. split; [reflexivity|]. done.
    - rewrite bool_decide_eq_true_2 by done.
      destruct (IH (u, mkTag s f) skipping' (set_iter i' d') (e2 :: es)) as (d2 & E & Hdir2 & Hres); [done..|lia|].
      exists d2. split; [exact E|]. split; [by rewrite Hdir2|].
      change (skip_of skipping' (set_iter i' d')) with (skip_of skipping' d') in Hres.
      destruct (visible (skip_of skipping' d') (e2 :: es)) as [|[uk v'] rest]; [done|].
      destruct Hres as (Hv' & s' & f' & es' & H1 & H2 & H3 & H4 & H5 & H6 & H7).
      split; [done|]. exists s', f', es'. split_and!; try done. lia. }
  destruct (Z.leb_spec s last_sequence_number_) as [Hs|Hs]; cbn [andb]; [|by apply Hrec].
  destruct Hfl as [->| ->]; cbn [Z.eqb flag_code negb andb].
  - change (flag_code kFlagValue =? flag_code kFlagDeletion) with false.
    change (flag_code kFlagValue =? flag_code kFlagValue) with true. cbn [negb andb].
    specialize (Hskip d). destruct (skipping && _) eqn:Eh; destruct skipping; cbn [andb] in Eh; try done.
    all: cbn [skip_of hidden_by]; rewrite ?Eh; cbn [negb andb]; try by apply (Hrec true).
    all: eexists; (split; [reflexivity|]); (split; [reflexivity|]); (split; [reflexivity|]).
    all: exists s, (flag_code kFlagValue), es; split_and!; done || (cbn; lia).
  - change (flag_code kFlagDeletion =? flag_code kFlagDeletion) with true. cbn [negb andb].
    by apply (Hrec true (set_saved_key u d)).
Qed.
Context `{!ComparatorLaws ucmp}.

(** From an entry shown, the iterator goes on through the rest. *)
Lemma db_Next_forward d uk s f v es :
  db_direction_ d = kForward -> valid_ d = true -> forward (iter_ d) ((MakeKey uk s f, v) :: es) ->
  tag_ok (mkTag s f) -> f = flag_code kFlagValue -> s <= last_sequence_number_ ->
  Forall entry_ok es -> (length es < fuel)%nat ->
  forward d ((uk, v) :: visible (Some uk) es).
Proof.
  remember (visible (Some uk) es) as out eqn:Hout.
  revert d uk s f v es Hout. induction out as [|[u2 v2] out IH];
    intros d uk s f v es Hout Hdir Hv Hf Ht Hfl Hs Hok Hfuel.
  all: cbn [runs it_Valid it_current it_Next DBIterator_ops].
  all: pose proof Hf as (_ & Hc & _); unfold db_current, db_Next; rewrite Hdir, Hc;
    cbn [mbind option_bind ofopt obind fst snd]; rewrite ExtractUserKey_MakeKey;
    cbn [mbind option_bind ofopt obind].
  all: split; [done|]; split; [done|].
  all: destruct (FindNextUserEntry_spec fuel no_ikey true (set_saved_key uk d) ((MakeKey uk s f, v) :: es))
    as (d' & E & Hdir' & Hres); [exact Hf | done | | cbn [length]; lia |];
    [constructor; [exists uk, s, f, v; auto | done] |].
  all: exists d'; split; [exact E|]; cbn [skip_of db_saved_key_ set_saved_key] in Hres.
  all: assert (visible (Some uk) ((MakeKey uk s f, v) :: es) = visible (Some uk) es) as Hvis
    by (cbn [visible]; rewrite parsed_MakeKey by done; cbn [sequence_number flag];
        subst f; destruct (Z.leb_spec s last_sequence_number_); [|lia];
        cbn [hidden_by]; rewrite cmp_refl; done).
  all: rewrite Hvis, <- Hout in Hres.
  { exact Hres. }
  destruct Hres as (Hv' & s' & f' & es' & H1 & H2 & H3 & H4 & H5 & H6 & H7). cbn [length] in H6.
  apply (IH d' u2 s' f' v2 es'); try done; [by rewrite Hdir' | lia].
Qed.

(** A fresh iterator over an internal iterator that a move puts before [es]. *)
Lemma db_open i es d :
  forward i es -> Forall entry_ok es -> (length es <= fuel)%nat -> db_direction_ d = kForward ->
  exists d', (if it_Valid i then FindNextUserEntry fuel no_ikey false (set_iter i d)
              else Done (set_valid false (set_iter i d))) = Done d' /\ forward d' (visible None es).
Proof.
  intros Hf Hok Hlen Hdir. rewrite (runs_Valid _ _ _ Hf). destruct es as [|e es].
  { rewrite bool_decide_eq_false_2 by (by intros []). eexists. split; [reflexivity|]. done. }
  rewrite bool_decide_eq_true_2 by done.
  destruct (FindNextUserEntry_spec fuel no_ikey false (set_iter i d) (e :: es)) as (d' & E & Hd & Hres);
    [done..|]. exists d'. split; [exact E|]. cbn [skip_of] in Hres.
  destruct (visible None (e :: es)) as [|[uk v] rest]; [exact Hres|].
  destruct Hres as (Hv' & s' & f' & es' & H1 & H2 & H3 & H4 & H5 & H6 & ->). cbn [length] in *.
  apply (db_Next_forward d' uk s' f' v es'); try done; [by rewrite Hd | lia].
Qed.
(** *** What is visible *)

Definition lookup_key (u : bytes) : bytes :=
  MakeKey u last_sequence_number_ (flag_code kFlagValueForSeek).

(** The lookup of [u] finds the value [v]. *)
Definition shows (es : list kv) (u v : bytes) : Prop :=
  exists s, table_get ucmp (lookup_key u) es = inr (mkTag s (flag_code kFlagValue), v).

Definition user_above (k : bytes) (e : kv) : Prop :=
  exists u s f v, e = (MakeKey u s f, v) /\ tag_ok (mkTag s f) /\ ucmp k u <= 0.

Context (Hsq : is_u 56 last_sequence_number_).

Lemma lookup_tag : tag_ok (mkTag last_sequence_number_ (flag_code kFlagValueForSeek)).
Proof. split; [exact Hsq | done]. Qed.

Lemma shows_below k u es v :
  Forall (user_above k) es -> ucmp u k < 0 -> ~ shows es u v.
Proof.
  intros Hall Hlt [s E]. unfold lookup_key in E. rewrite table_get_above in E; [done | apply lookup_tag |].
  eapply Forall_impl; [exact Hall|]. intros e (x & s' & f & v' & -> & Ht & Hle).
  exists x, s', f, v'. split_and!; [done..|]. apply cmp_sym. by apply (cmp_lt_le_trans ucmp u k x).
Qed.

(** The entries behind an entry are not below its user key. *)
Lemma sorted_above u s f v es :
  tag_ok (mkTag s f) -> StronglySorted (kv_lt (InternalCompare ucmp)) ((MakeKey u s f, v) :: es) ->
  Forall entry_ok es -> Forall (user_above u) es.
Proof.
  intros Ht [_ Hs]%StronglySorted_inv Hok. rewrite Forall_forall in Hs, Hok. apply Forall_forall.
  intros e He. destruct (Hok e He) as (u' & s' & f' & v' & -> & Ht' & _). specialize (Hs _ He).
  unfold kv_lt in Hs. cbn [fst] in Hs. rewrite InternalCompare_MakeKey in Hs by done.
  exists u', s', f', v'. split_and!; [done..|]. destruct (Z.eqb_spec (ucmp u u') 0); cbn [negb] in Hs; lia.
Qed.

(** One entry in front: only the lookups of its own user key see it. *)
Lemma shows_cons `{!ComparatorExact ucmp} u s f v es x y :
  tag_ok (mkTag s f) -> Forall (user_above u) es ->
  shows ((MakeKey u s f, v) :: es) x y <->
  if bool_decide (x = u) && (s <=? last_sequence_number_) then f = flag_code kFlagValue /\ y = v
  else shows es x y.
Proof.
  intros Ht Hall. unfold shows at 1, lookup_key. setoid_rewrite table_get_cons; [|apply lookup_tag | done].
  case_bool_decide as Ex; cbn [andb].
  - subst x. rewrite cmp_refl. cbn [Z.ltb Z.compare Z.eqb orb andb].
    destruct (Z.leb_spec s last_sequence_number_), (Z.ltb_spec last_sequence_number_ s); try lia; [|done].
    split; [by intros [s' [= _ -> ->]] | intros [-> ->]; by exists s].
  - destruct (Z.ltb_spec (ucmp u x) 0) as [Hlt|Hge]; cbn [orb]; [done|].
    destruct (Z.eqb_spec (ucmp u x) 0) as [E|E]; cbn [andb].
    { exfalso. apply Ex. symmetry. by apply cmp_exact. }
    split; [by intros [s' ?]|]. intros Hsh. exfalso.
    apply (shows_below u x es y Hall); [|done]. apply cmp_sym. lia.
Qed.

Lemma visible_shows `{!ComparatorExact ucmp} skip es u v :
  StronglySorted (kv_lt (InternalCompare ucmp)) es -> Forall entry_ok es ->
  (forall k, skip = Some k -> Forall (user_above k) es) ->
  (u, v) ∈ visible skip es <-> hidden_by skip u = false /\ shows es u v.
Proof.
  intros Hs Hok. revert skip. induction es as [|e es IH]; intros skip Hskip.
  { cbn. split; [by intros ?%elem_of_nil | intros [_ [? ?]]; done]. }
  apply Forall_cons in Hok as [(k & s & f & v0 & -> & Ht & Hfl) Hok].
  pose proof (sorted_above _ _ _ _ _ Ht Hs Hok) as Habove.
  apply StronglySorted_inv in Hs as [Hs _].
  assert (Hk : forall k', Some k = Some k' -> Forall (user_above k') es) by (by intros ? [= <-]).
  assert (Hsk : forall k', skip = Some k' -> Forall (user_above k') es /\ ucmp k' k <= 0).
  { intros k' ->. specialize (Hskip k' eq_refl). apply Forall_cons in Hskip as [(u' & s' & f' & v' & E & Ht' & Hle) H2].
    split; [done|]. injection E as E _. pose proof (parsed_MakeKey k s f Ht) as Hp.
    rewrite E, parsed_MakeKey in Hp by done. by injection Hp as ->. }
  specialize (IH Hs Hok).
  assert (IHskip : (u, v) ∈ visible skip es <-> hidden_by skip u = false /\ shows es u v)
    by (apply IH; intros k' E; by apply Hsk).
  cbn [visible]. rewrite parsed_MakeKey by done. cbn [sequence_number flag].
  rewrite shows_cons by done. destruct (Z.leb_spec s last_sequence_number_) as [Hle|Hgt];
    [rewrite andb_true_r | by rewrite andb_false_r].
  assert (Hcase : forall b : bool, hidden_by (Some k) u = b -> if b then ucmp u k <= 0 else 0 < ucmp u k)
    by (intros b; cbn; destruct (Z.leb_spec (ucmp u k) 0); by intros <-).
  assert (Hnot : hidden_by skip u = true -> ucmp u k <= 0).
  { destruct skip as [k'|]; [|done]. cbn. rewrite Z.leb_le. intros Hle'.
    by apply (cmp_trans u k' k), Hsk. }
  assert (Hbel : ucmp u k <= 0 -> u <> k -> ~ shows es u v).
  { intros Hle' Hne. apply (shows_below k); [done|].
    destruct (Z.eq_dec (ucmp u k) 0) as [E|]; [by apply cmp_exact in E | lia]. }
  destruct Hfl as [->| ->].
  - change (flag_code kFlagValue =? flag_code kFlagDeletion) with false. cbn iota.
    destruct (hidden_by skip k) eqn:Eh.
    + rewrite IHskip. case_bool_decide as E; [|done]. subst u. rewrite Eh. by split; intros [? _].
    + rewrite elem_of_cons, (IH (Some k) Hk). specialize (Hcase _ eq_refl).
      destruct (hidden_by (Some k) u) eqn:Eu; case_bool_decide as E; try (subst u).
      * rewrite Eh. split; [intros [[= ->]|[? _]]; done | intros (_ & _ & ->); by left].
      * split; [intros [[= ? _]|[? _]]; done|]. intros [_ Hsh]. by destruct (Hbel Hcase E).
      * rewrite cmp_refl in Hcase. lia.
      * split; [intros [[= ? _]|[_ ?]]; [done|] | by intros [_ ?]; right].
        split; [|done]. destruct (hidden_by skip u); [|done]. specialize (Hnot eq_refl). lia.
  - change (flag_code kFlagDeletion =? flag_code kFlagDeletion) with true. cbn iota.
    rewrite (IH (Some k) Hk). specialize (Hcase _ eq_refl).
    destruct (hidden_by (Some k) u) eqn:Eu; case_bool_decide as E; try (subst u).
    * split; [by intros [? _] | by intros (_ & ? & _)].
    * split; [by intros [? _]|]. intros [_ Hsh]. by destruct (Hbel Hcase E).
    * rewrite cmp_refl in Hcase. lia.
    * split; [|by intros [_ ?]]. intros [_ Hsh]. split; [|done].
      destruct (hidden_by skip u); [|done]. specialize (Hnot eq_refl). lia.
Qed.

Definition user_lt (a b : kv) : Prop := ucmp (fst a) (fst b) < 0.

Lemma visible_sorted `{!ComparatorExact ucmp} skip es :
  StronglySorted (kv_lt (InternalCompare ucmp)) es -> Forall entry_ok es ->
  (forall k, skip = Some k -> Forall (user_above k) es) ->
  StronglySorted user_lt (visible skip es).
Proof.
  intros Hs Hok. revert skip. induction es as [|e es IH]; intros skip Hskip; [constructor|].
  apply Forall_cons in Hok as [(k & s & f & v0 & -> & Ht & Hfl) Hok].
  pose proof (sorted_above _ _ _ _ _ Ht Hs Hok) as Habove.
  apply StronglySorted_inv in Hs as [Hs _]. specialize (IH Hs Hok).
  assert (Hk : forall k', Some k = Some k' -> Forall (user_above k') es) by (by intros ? [= <-]).
  assert (Hsk : forall k', skip = Some k' -> Forall (user_above k') es)
    by (intros k' E; specialize (Hskip k' E); by apply Forall_cons in Hskip as [_ ?]).
  cbn [visible]. rewrite parsed_MakeKey by done. cbn [sequence_number flag].
  destruct (s <=? _); [|by apply IH]. destruct (f =? _); [by apply IH|].
  destruct (hidden_by skip k); [by apply IH|]. constructor; [by apply IH|].
  apply Forall_forall. intros [u v] Hin. apply visible_shows in Hin as [Hh _]; [|done..].
  unfold user_lt. cbn in *. apply Z.leb_gt in Hh. by apply cmp_sym.
Qed.
(** ** Properties *)

(** Everything a scan shows: the user keys in order, each with the value the
    lookup of it at this snapshot finds. *)
Definition snapshot_of (es out : list kv) : Prop :=
  StronglySorted user_lt out /\ forall u v, (u, v) ∈ out <-> shows es u v.

Lemma db_SeekToFirst_snapshot `{!ComparatorExact ucmp} it es :
  places it_SeekToFirst it es ->
  StronglySorted (kv_lt (InternalCompare ucmp)) es -> Forall entry_ok es -> (length es <= fuel)%nat ->
  exists d out, db_SeekToFirst (NewDBIterator it) = Done d /\ forward d out /\ snapshot_of es out.
Proof.
  intros (i & Hi & Hf) Hs Hok Hlen. unfold db_SeekToFirst, NewDBIterator, ClearSavedValue.
  cbn [iter_ set_direction set_saved_value]. rewrite Hi. cbn [obind].
  destruct (db_open i es (mkDBI it kOk [] [] kForward false)) as (d & E & Hr); [done..|].
  exists d, (visible None es). split; [exact E|]. split; [done|]. split.
  - by apply visible_sorted.
  - intros u v. rewrite visible_shows by done. split; [by intros [_ ?] | done].
Qed.

(** Over an internal iterator that [SeekToFirst] places before the sorted
    entries of the database, the iterator at a snapshot shows exactly the user
    keys whose newest visible version is a value, in order and each once, with
    that value: the same answers that lookups give. *)
Theorem DBIterator_scan `{!ComparatorExact ucmp} it es :
  places it_SeekToFirst it es ->
  StronglySorted (kv_lt (InternalCompare ucmp)) es -> Forall entry_ok es -> (length es <= fuel)%nat ->
  exists d out, db_SeekToFirst (NewDBIterator it) = Done d /\ scan (length out) d = Done out /\
    snapshot_of es out.
Proof.
  intros Hp Hs Hok Hlen. destruct (db_SeekToFirst_snapshot it es Hp Hs Hok Hlen) as (d & out & E & Hf & Hsn).
  exists d, out. split_and!; [done | by apply forward_scan | done..].
Qed.
End db_iterator.

Lemma DBIterator_scan_witness :
  let es := [(MakeKey [97] 7 0, [1]); (MakeKey [97] 3 0, [2]); (MakeKey [98] 4 1, []); (MakeKey [98] 2 0, [5]);
             (MakeKey [99] 1 0, [3])] in
  exists d out, db_SeekToFirst (Iterator0 := Cursor_ops lex) lex 5 5 (NewDBIterator (mkCursor es None)) = Done d /\
    scan (Iterator0 := DBIterator_ops (Iterator0 := Cursor_ops lex) lex 5 5) (length out) d = Done out /\
    snapshot_of lex 5 es out.
Proof.
  intros es. apply (DBIterator_scan (Iterator0 := Cursor_ops lex) lex 5 5);
    [done | intros x y; apply lex_exact | apply cursor_SeekToFirst | | | cbn; lia].
  - repeat first [apply SSorted_cons | apply SSorted_nil | apply Forall_cons_2
                  | apply Forall_nil_2 | reflexivity].
  - repeat apply Forall_cons_2; [.. | apply Forall_nil_2]; eexists _, _, _, _;
      (split; [reflexivity | split; [done | auto]]).
Defined.

(** ** Over several sources *)

Section sources.
Context {I : Type} `{!Iterator I} (ucmp : bytes -> bytes -> Z) `{!ComparatorLaws ucmp, !ComparatorExact ucmp}.

#[local] Abbreviation icmp := (InternalCompare ucmp).

(** A list sorted without ties is the only sorted order of its entries. *)
Lemma sorted_unique (all l : list kv) :
  StronglySorted (kv_lt icmp) all -> StronglySorted (kv_le icmp) l -> l ≡ₚ all -> l = all.
Proof.
  revert l. induction all as [|e all IH]; intros l Hs Hl Hp; [by apply Permutation_nil_r|].
  destruct l as [|x l]; [by apply Permutation_nil_l in Hp|].
  apply StronglySorted_inv in Hs as [Hs He]. apply StronglySorted_inv in Hl as [Hl Hx].
  rewrite Forall_forall in He, Hx.
  assert (x = e) as ->.
  { assert (x ∈ e :: all) as Hin by (rewrite <- Hp; by left).
    assert (e ∈ x :: l) as Hin' by (rewrite Hp; by left).
    apply elem_of_cons in Hin as [->|Hin]; [done|]. apply elem_of_cons in Hin' as [->|Hin']; [done|].
    specialize (He _ Hin). specialize (Hx _ Hin'). unfold kv_lt, kv_le in *.
    pose proof (InternalCompare_laws ucmp). pose proof (cmp_lt_le_trans icmp (fst e) (fst x) (fst e) He Hx) as Hc.
    by apply (cmp_lt_irrefl icmp) in Hc. }
  f_equal. apply IH; [done..|]. by apply Permutation_cons_inv in Hp.
Qed.

(** A reader of the database: memory tables and files as children of a
    merging iterator, each placed before its own sorted entries, with the
    snapshot iterator on top.  When no two entries of the sources have the same
    internal key, a scan shows exactly what lookups in the sorted union of all
    the entries answer. *)
Theorem sources_scan sq fuel cs ess all :
  is_u 56 sq -> cs <> [] -> Forall2 (places it_SeekToFirst) cs ess ->
  Forall (StronglySorted (kv_le icmp)) ess -> all ≡ₚ concat ess ->
  StronglySorted (kv_lt icmp) all -> Forall entry_ok all -> (length all <= fuel)%nat ->
  exists d out,
    db_SeekToFirst (Iterator0 := Merged_ops icmp) ucmp sq fuel (NewDBIterator (NewMergingIterator cs)) = Done d /\
    scan (Iterator0 := DBIterator_ops (Iterator0 := Merged_ops icmp) ucmp sq fuel) (length out) d = Done out /\
    snapshot_of ucmp sq all out.
Proof.
  intros Hsq Hne Hcs Hsort Hp Hs Hok Hlen. pose proof (InternalCompare_laws ucmp) as Hl.
  destruct (merged_places icmp (fun J H => @it_SeekToFirst J H) cs ess ltac:(by left) Hne Hcs Hsort)
    as (l & Hpl & Hsl & Hplace).
  rewrite <- Hp in Hpl. rewrite (sorted_unique all l Hs Hsl Hpl) in Hplace.
  destruct (db_SeekToFirst_snapshot (Iterator0 := Merged_ops icmp) ucmp sq fuel Hsq _ all Hplace Hs Hok Hlen)
    as (d & out & E & Hf & Hsn).
  exists d, out. split_and!; [done | | done..].
  by apply (forward_scan (Iterator0 := DBIterator_ops (Iterator0 := Merged_ops icmp) ucmp sq fuel)).
Qed.
End sources.

Lemma sources_scan_witness :
  let es1 := [(MakeKey [97] 3 1, []); (MakeKey [98] 4 0, [4])] in
  let es2 := [(MakeKey [97] 2 0, [2]); (MakeKey [98] 1 0, [1])] in
  exists d out,
    db_SeekToFirst (Iterator0 := Merged_ops (Iterator0 := Cursor_ops lex) (InternalCompare lex)) lex 5 4
      (NewDBIterator (NewMergingIterator [mkCursor es1 None; mkCursor es2 None])) = Done d /\
    scan (Iterator0 := DBIterator_ops (Iterator0 := Merged_ops (Iterator0 := Cursor_ops lex) (InternalCompare lex))
      lex 5 4) (length out) d = Done out /\
    snapshot_of lex 5 [(MakeKey [97] 3 1, []); (MakeKey [97] 2 0, [2]); (MakeKey [98] 4 0, [4]); (MakeKey [98] 1 0, [1])] out.
Proof.
  intros es1 es2.
  apply (sources_scan (Iterator0 := Cursor_ops lex) lex 5 4 _ [es1; es2]); [done | done | | | | | | cbn; lia].
  - repeat apply Forall2_cons_2; [apply cursor_SeekToFirst.. | apply Forall2_nil_2].
  - repeat apply Forall_cons_2; [| |done]; repeat first [apply SSorted_cons | apply SSorted_nil
      | apply Forall_cons_2 | apply Forall_nil_2 | by unfold kv_le].
  - apply (bool_decide_unpack (_ ≡ₚ _)). vm_compute. exact Logic.I.
  - repeat first [apply SSorted_cons | apply SSorted_nil | apply Forall_cons_2
                  | apply Forall_nil_2 | reflexivity].
  - repeat apply Forall_cons_2; [.. | apply Forall_nil_2]; eexists _, _, _, _;
      (split; [reflexivity | split; [done | auto]]).
Defined.
