(* ===== verification/DeltaAmend.v ===== *)
(** * DeltaAmend

    src/core/delta-amend-iterator.{h,cc}: the iterator of a transaction over a
    family, which shows what the database holds ([base_iter_], by user keys)
    amended by what the transaction has written ([delta_iter_], by tagged keys).
    It can be turned round at any time: [DeltaAmend_amends].

    The loop of [UpdateCurrent] passes deletions; its fuel is the number of
    entries of both iterators. *)

From S2P Require Import Prelude Slice Keys Entries Iterator Merging.

Record DeltaAmendIterator (B D : Type) := mkAmend {
  base_iter_ : B;
  delta_iter_ : D;
  da_error_ : error;
  da_direction_ : Direction;
  current_at_base_ : bool;
  equal_keys_ : bool
}.
Arguments mkAmend {B D}.
Arguments base_iter_ {B D}.
Arguments delta_iter_ {B D}.
Arguments da_error_ {B D}.
Arguments da_direction_ {B D}.
Arguments current_at_base_ {B D}.
Arguments equal_keys_ {B D}.

Section amend_iterator.
Context {B D : Type} `{!Iterator B, !Iterator D} (cmp : bytes -> bytes -> Z) (fuel : nat).

#[local] Abbreviation DA := (DeltaAmendIterator B D).

Definition NewDeltaAmendIterator (base : B) (delta : D) : DA := mkAmend base delta kOk kForward true false.

Definition set_base_iter (b : B) (d : DA) : DA :=
  mkAmend b (delta_iter_ d) (da_error_ d) (da_direction_ d) (current_at_base_ d) (equal_keys_ d).
Definition set_delta_iter (i : D) (d : DA) : DA :=
  mkAmend (base_iter_ d) i (da_error_ d) (da_direction_ d) (current_at_base_ d) (equal_keys_ d).
Definition set_da_error (e : error) (d : DA) : DA :=
  mkAmend (base_iter_ d) (delta_iter_ d) e (da_direction_ d) (current_at_base_ d) (equal_keys_ d).
Definition set_da_direction (dir : Direction) (d : DA) : DA :=
  mkAmend (base_iter_ d) (delta_iter_ d) (da_error_ d) dir (current_at_base_ d) (equal_keys_ d).
Definition set_at_base (b : bool) (d : DA) : DA :=
  mkAmend (base_iter_ d) (delta_iter_ d) (da_error_ d) (da_direction_ d) b (equal_keys_ d).
Definition set_equal_keys (b : bool) (d : DA) : DA :=
  mkAmend (base_iter_ d) (delta_iter_ d) (da_error_ d) (da_direction_ d) (current_at_base_ d) b.

Definition da_Valid (d : DA) : bool :=
  if current_at_base_ d then it_Valid (base_iter_ d) else it_Valid (delta_iter_ d).

(** A step in the direction of the iterator. *)
Definition advance {I} `{!Iterator I} (dir : Direction) (i : I) : outcome I :=
  match dir with kForward => it_Next i | kReserve => it_Prev i end.

Definition AdvanceBase (d : DA) : outcome DA :=
  obind (advance (da_direction_ d) (base_iter_ d)) (fun b => Done (set_base_iter b d)).
Definition AdvanceDelta (d : DA) : outcome DA :=
  obind (advance (da_direction_ d) (delta_iter_ d)) (fun i => Done (set_delta_iter i d)).

(** The comparison in the direction of the iterator. *)
Definition dir_cmp (dir : Direction) (a b : bytes) : Z := match dir with kForward => cmp a b | kReserve => - cmp a b end.

Fixpoint update_current (fuel : nat) (d : DA) : outcome DA :=
  match fuel with
  | O => OutOfFuel
  | S fuel =>
    if negb (it_Valid (delta_iter_ d)) && negb (ok (it_error (delta_iter_ d))) then Done (set_at_base false d)
    else
      (do! delta_key := (if it_Valid (delta_iter_ d)
                         then do! e := ofopt (it_current (delta_iter_ d)) in Done (parsed (fst e))
                         else Done ([], mkTag 0 0)) in
       let deletion := flag (snd delta_key) =? flag_code kFlagDeletion in
       let d := set_equal_keys false d in
       if negb (it_Valid (base_iter_ d)) then
         if negb (ok (it_error (base_iter_ d))) then Done (set_at_base true d)
         else if negb (it_Valid (delta_iter_ d)) then Done d
         else if deletion then do! d := AdvanceDelta d in update_current fuel d
         else Done (set_at_base false d)
       else if negb (it_Valid (delta_iter_ d)) then Done (set_at_base true d)
       else
         do! b := ofopt (it_current (base_iter_ d)) in
         let rv := dir_cmp (da_direction_ d) (fst delta_key) (fst b) in
         if rv <=? 0 then
           let d := if rv =? 0 then set_equal_keys true d else d in
           if negb deletion then Done (set_at_base false d)
           else
             do! d := AdvanceDelta d in
             do! d := (if equal_keys_ d then AdvanceBase d else Done d) in update_current fuel d
         else Done (set_at_base true d))%out
  end.

Definition UpdateCurrent (d : DA) : outcome DA := update_current fuel (set_da_error kOk d).

Definition da_SeekToFirst (d : DA) : outcome DA :=
  let d := set_da_direction kForward d in
  (do! b := it_SeekToFirst (base_iter_ d) in
   do! i := it_SeekToFirst (delta_iter_ d) in UpdateCurrent (set_delta_iter i (set_base_iter b d)))%out.

Definition da_SeekToLast (d : DA) : outcome DA :=
  let d := set_da_direction kReserve d in
  (do! b := it_SeekToLast (base_iter_ d) in
   do! i := it_SeekToLast (delta_iter_ d) in UpdateCurrent (set_delta_iter i (set_base_iter b d)))%out.

Definition da_Seek (target : bytes) (d : DA) : outcome DA :=
  let d := set_da_direction kForward d in
  (do! b := it_Seek target (base_iter_ d) in
   do! i := it_Seek target (delta_iter_ d) in UpdateCurrent (set_delta_iter i (set_base_iter b d)))%out.

Definition da_Advance (d : DA) : outcome DA :=
  (do! d := (if equal_keys_ d then do! d := AdvanceBase d in AdvanceDelta d
             else if current_at_base_ d then AdvanceBase d else AdvanceDelta d) in
   UpdateCurrent d)%out.

(** The other end of the one that is past its end. *)
Definition seek_end {I} `{!Iterator I} (dir : Direction) (i : I) : outcome I :=
  match dir with kForward => it_SeekToFirst i | kReserve => it_SeekToLast i end.

(** Turning round into the direction [dir], in [Next] and [Prev]. *)
Definition turn_round (dir : Direction) (d : DA) : outcome DA :=
  let d := set_equal_keys false (set_da_direction dir d) in
  (do! d := (if negb (it_Valid (base_iter_ d)) then
               do! b := seek_end dir (base_iter_ d) in Done (set_base_iter b d)
             else if negb (it_Valid (delta_iter_ d)) then
               do! i := seek_end dir (delta_iter_ d) in Done (set_delta_iter i d)
             else if current_at_base_ d then AdvanceDelta d else AdvanceBase d) in
   if it_Valid (delta_iter_ d) && it_Valid (base_iter_ d) then
     do! e := ofopt (it_current (delta_iter_ d)) in
     do! b := ofopt (it_current (base_iter_ d)) in
     Done (if cmp (fst (parsed (fst e))) (fst b) =? 0 then set_equal_keys true d else d)
   else Done d)%out.

Definition da_move (dir : Direction) (d : DA) : outcome DA :=
  if negb (da_Valid d) then Done (set_da_error kNotSupported d)
  else
    (do! d := (match dir, da_direction_ d with
               | kForward, kForward | kReserve, kReserve => Done d
               | _, _ => turn_round dir d
               end) in
     da_Advance d)%out.

Definition da_Next : DA -> outcome DA := da_move kForward.
Definition da_Prev : DA -> outcome DA := da_move kReserve.

Definition da_current (d : DA) : option kv :=
  if current_at_base_ d then it_current (base_iter_ d)
  else e ← it_current (delta_iter_ d); u ← ExtractUserKey (fst e); Some (u, snd e).

Definition da_iter_error (d : DA) : error :=
  if negb (ok (it_error (base_iter_ d))) then it_error (base_iter_ d)
  else if negb (ok (it_error (delta_iter_ d))) then it_error (delta_iter_ d)
  else da_error_ d.

Definition DeltaAmend_ops : Iterator DA := {|
  it_Valid := da_Valid;
  it_SeekToFirst := da_SeekToFirst;
  it_SeekToLast := da_SeekToLast;
  it_Seek := da_Seek;
  it_Next := da_Next;
  it_Prev := da_Prev;
  it_current := da_current;
  it_error := da_iter_error;
|}.
End amend_iterator.

(** ** What it shows *)

Section amend.
Context (cmp : bytes -> bytes -> Z) `{!ComparatorLaws cmp}.

Definition ukey (d : kv) : bytes := fst (parsed (fst d)).
Definition is_deletion (d : kv) : bool := flag (snd (parsed (fst d))) =? flag_code kFlagDeletion.

(** The key [k] is not written in [ds]. *)
Definition unwritten (ds : list kv) (k : bytes) : Prop := Forall (fun d => cmp (ukey d) k <> 0) ds.

#[local] Instance unwritten_dec ds k : Decision (unwritten ds k).
Proof. unfold unwritten. apply _. Defined.

(** The entries of the base under keys the delta does not write, and what the
    delta puts. *)
Definition live (bs ds : list kv) : list kv :=
  filter (fun b => unwritten ds (fst b)) bs ++
  map (fun d => (ukey d, snd d)) (filter (fun d => is_deletion d = false) ds).

(** In order of the keys: what an iterator over [bs] amended by [ds] shows. *)
Definition amended (bs ds es : list kv) : Prop := StronglySorted (kv_lt cmp) es /\ es ≡ₚ live bs ds.

Definition delta_lt (a b : kv) : Prop := cmp (ukey a) (ukey b) < 0.

Definition delta_ok (ds : list kv) : Prop :=
  StronglySorted delta_lt ds /\ Forall (fun d => ExtractUserKey (fst d) = Some (ukey d)) ds.

(** Every key on the left is below every key on the right. *)
Definition cut (bl dl br dr : list kv) : Prop :=
  forall x y, x ∈ map fst bl ++ map ukey dl -> y ∈ map fst br ++ map ukey dr -> cmp x y < 0.

Lemma live_keys bs ds e : e ∈ live bs ds -> fst e ∈ map fst bs ++ map ukey ds.
Proof.
  unfold live. rewrite !elem_of_app. intros [He|He].
  - apply list_elem_of_filter in He as [_ He]. left. by apply list_elem_of_fmap_2.
  - apply list_elem_of_fmap in He as (d & -> & Hd). apply list_elem_of_filter in Hd as [_ Hd]. right. cbn.
    by apply (list_elem_of_fmap_2 ukey).
Qed.

Lemma unwritten_app ds ds' k : unwritten (ds ++ ds') k <-> unwritten ds k /\ unwritten ds' k.
Proof. unfold unwritten. apply Forall_app. Qed.

Lemma cut_live bl dl br dr : cut bl dl br dr -> live (bl ++ br) (dl ++ dr) ≡ₚ live bl dl ++ live br dr.
Proof.
  intros Hc. unfold live. rewrite !filter_app, map_app.
  assert (Hl : filter (fun b => unwritten (dl ++ dr) (fst b)) bl = filter (fun b => unwritten dl (fst b)) bl).
  { apply filter_iff_in. intros b Hb. rewrite unwritten_app. split; [tauto|]. intros H. split; [done|].
    apply Forall_forall. intros d Hd. assert (cmp (fst b) (ukey d) < 0); [|rewrite (cmp_sym (fst b)) in *; lia].
    apply Hc; apply elem_of_app; [left | right]; by apply list_elem_of_fmap_2. }
  assert (Hr : filter (fun b => unwritten (dl ++ dr) (fst b)) br = filter (fun b => unwritten dr (fst b)) br).
  { apply filter_iff_in. intros b Hb. rewrite unwritten_app. split; [tauto|]. intros H. split; [|done].
    apply Forall_forall. intros d Hd. assert (cmp (ukey d) (fst b) < 0); [|lia].
    apply Hc; apply elem_of_app; [right | left]; by apply list_elem_of_fmap_2. }
  rewrite Hl, Hr. solve_Permutation.
Qed.

Lemma amended_unique bs ds es es' : amended bs ds es -> amended bs ds es' -> es = es'.
Proof.
  intros [Hs Hp] [Hs' Hp']. apply (StronglySorted_unique_strong (kv_lt cmp)); [|done..|by rewrite Hp, Hp'].
  intros a b _ _ Hab Hba. unfold kv_lt in *. rewrite (cmp_sym (fst a)) in Hab. lia.
Qed.

Lemma cut_amended bl dl br dr el er :
  cut bl dl br dr -> amended bl dl el -> amended br dr er -> amended (bl ++ br) (dl ++ dr) (el ++ er).
Proof.
  intros Hc [Hsl Hpl] [Hsr Hpr]. split; [|by rewrite cut_live, Hpl, Hpr].
  apply StronglySorted_app. split_and!; [|done..]. intros a b Ha Hb. rewrite Hpl in Ha. rewrite Hpr in Hb.
  apply Hc; by apply live_keys.
Qed.

(** Two lists without an entry of equal keys are in some order an amended one. *)
Lemma live_distinct bs ds :
  StronglySorted (kv_lt cmp) bs -> StronglySorted delta_lt ds ->
  StronglySorted (fun a b => cmp (fst a) (fst b) <> 0) (live bs ds).
Proof.
  intros Hb Hd. unfold live. apply StronglySorted_app. split_and!.
  - intros a e Ha He. apply list_elem_of_filter in Ha as [Ha _]. apply list_elem_of_fmap in He as (d & -> & He).
    apply list_elem_of_filter in He as [_ He]. cbn. unfold unwritten in Ha. rewrite Forall_forall in Ha. specialize (Ha d He).
    intros E. apply Ha. by apply cmp_eq_sym.
  - eapply StronglySorted_sublist; [apply sublist_filter|]. eapply StronglySorted_impl; [|exact Hb]. unfold kv_lt. lia.
  - apply StronglySorted_map. cbn [fst].
    eapply StronglySorted_sublist; [apply sublist_filter|]. eapply StronglySorted_impl; [|exact Hd]. unfold delta_lt. lia.
Qed.

#[local] Instance kv_le_dec a b : Decision (kv_le cmp a b).
Proof. unfold kv_le. apply _. Defined.

#[local] Instance kv_le_trans : Transitive (kv_le cmp).
Proof. intros a b c. unfold kv_le. apply cmp_trans. Qed.

#[local] Instance kv_le_total : Total (kv_le cmp).
Proof. intros a b. unfold kv_le. pose proof (cmp_sym (fst b) (fst a)). lia. Qed.

Lemma amended_exists bs ds :
  StronglySorted (kv_lt cmp) bs -> StronglySorted delta_lt ds -> exists es, amended bs ds es.
Proof.
  intros Hb Hd. exists (merge_sort (kv_le cmp) (live bs ds)). split; [|apply merge_sort_Permutation].
  apply (StronglySorted_and (kv_le cmp) (fun a b => cmp (fst a) (fst b) <> 0)).
  - unfold kv_le, kv_lt. lia.
  - apply (StronglySorted_merge_sort (kv_le cmp)).
  - apply (StronglySorted_perm _ (live bs ds)); [|symmetry; apply merge_sort_Permutation | by apply live_distinct].
    intros a b Hab E. apply Hab. by apply cmp_eq_sym.
Qed.

(** The parts of an amended list at a cut. *)
Lemma amended_cut bl dl br dr es :
  StronglySorted (kv_lt cmp) (bl ++ br) -> StronglySorted delta_lt (dl ++ dr) -> cut bl dl br dr ->
  amended (bl ++ br) (dl ++ dr) es -> exists el er, es = el ++ er /\ amended bl dl el /\ amended br dr er.
Proof.
  intros (_ & Hbl & Hbr)%StronglySorted_app (_ & Hdl & Hdr)%StronglySorted_app Hc He.
  destruct (amended_exists bl dl Hbl Hdl) as [el Hel], (amended_exists br dr Hbr Hdr) as [er Her].
  exists el, er. split_and!; [|done..]. by eapply amended_unique, cut_amended.
Qed.
End amend.

(** ** Places and cuts *)

#[local] Instance Direction_eq_dec : EqDecision Direction.
Proof. solve_decision. Defined.

Section places.
Context {A : Type}.

(** What is in front of an iterator in the direction [dir] at the cut [n], and
    what is behind it. *)
Definition rest (dir : Direction) (l : list A) (n : nat) : list A :=
  match dir with kForward => drop n l | kReserve => reverse (take n l) end.
Definition turned (dir : Direction) : Direction := match dir with kForward => kReserve | kReserve => kForward end.
Definition passed (dir : Direction) : list A -> nat -> list A := rest (turned dir).

Definition place (dir : Direction) (l : list A) (n : nat) : option nat :=
  match dir with kForward => front l n | kReserve => back n end.

(** The cut one entry further. *)
Definition further (dir : Direction) (n : nat) : nat := match dir with kForward => S n | kReserve => pred n end.

Lemma front_lt (l : list A) n : (n < length l)%nat -> front l n = Some n.
Proof. intros H. unfold front. by destruct (Nat.ltb_spec n (length l)); [|lia]. Qed.

Lemma front_ge (l : list A) n : (length l <= n)%nat -> front l n = None.
Proof. intros H. unfold front. by destruct (Nat.ltb_spec n (length l)); [lia|]. Qed.

(** The entry in front. *)
Lemma rest_cons dir (l : list A) n x r :
  (n <= length l)%nat -> rest dir l n = x :: r -> exists i, l !! i = Some x /\ place dir l n = Some i /\
    place (turned dir) l (further dir n) = Some i /\ (further dir n <= length l)%nat /\
    rest dir l (further dir n) = r /\ (forall y, y ∈ passed dir l (further dir n) <-> y = x \/ y ∈ passed dir l n).
Proof.
  intros Hn. destruct dir; cbn [rest place turned further passed].
  - intros E. assert (Hx : l !! n = Some x) by (rewrite <- (Nat.add_0_r n), <- lookup_drop, E; done).
    pose proof (lookup_lt_Some _ _ _ Hx) as Hlt. exists n. split_and!; [done | by rewrite front_lt | done | lia | |].
    + rewrite (drop_S _ _ _ Hx) in E. by injection E.
    + intros y. unfold passed. cbn [rest turned]. rewrite (take_S_r _ _ _ Hx), !elem_of_reverse, elem_of_app, list_elem_of_singleton. tauto.
  - destruct n as [|n]; [by rewrite take_0|]. intros E. destruct (lookup_lt_is_Some_2 l n Hn) as [z Hz].
    rewrite (take_S_r _ _ _ Hz), reverse_app in E. injection E as <- Er. exists n.
    split_and!; [done | done | by rewrite front_lt | lia | done |].
    intros y. unfold passed. cbn [rest turned pred]. rewrite (drop_S _ _ _ Hz), elem_of_cons. done.
Qed.

(** Seen from the other side. *)
Lemma rest_turned dir (l : list A) n x r :
  (n <= length l)%nat -> rest dir l n = x :: r ->
  rest (turned dir) l (further dir n) = x :: rest (turned dir) l n /\ further (turned dir) (further dir n) = n.
Proof.
  intros Hn. destruct dir; cbn [rest turned further].
  - intros E. assert (Hx : l !! n = Some x) by (rewrite <- (Nat.add_0_r n), <- lookup_drop, E; done).
    by rewrite (take_S_r _ _ _ Hx), reverse_app.
  - destruct n as [|n]; [by rewrite take_0|]. intros E. destruct (lookup_lt_is_Some_2 l n Hn) as [z Hz].
    rewrite (take_S_r _ _ _ Hz), reverse_app in E. injection E as <- Er. cbn [pred]. by rewrite (drop_S _ _ _ Hz).
Qed.

(** Nothing in front: the end that the other side starts from. *)
Lemma rest_nil_end dir (l : list A) n :
  (n <= length l)%nat -> rest dir l n = [] -> n = match turned dir with kForward => 0%nat | kReserve => length l end.
Proof.
  intros Hn E%(f_equal length). destruct dir; cbn [rest turned] in *; rewrite ?length_reverse, ?length_drop, ?length_take in E; cbn in E; lia.
Qed.

Lemma rest_nil dir (l : list A) n : (n <= length l)%nat -> rest dir l n = [] -> place dir l n = None.
Proof.
  intros Hn. destruct dir; cbn [rest place].
  - intros E%(f_equal length). rewrite length_drop in E. cbn in E. apply front_ge. lia.
  - intros E%(f_equal length). rewrite length_reverse, length_take in E. cbn in E. assert (n = 0)%nat as -> by lia. done.
Qed.
End places.

(** An iterator at a cut, seen in either direction. *)
Lemma bidi_rest {I} `{!Iterator I} es R `{!Bidi es R} dir i n :
  (n <= length es)%nat -> R i (place dir es n) ->
  it_error i = kOk /\
  match rest dir es n with
  | [] => it_Valid i = false
  | e :: _ => it_Valid i = true /\ it_current i = Some e /\
    exists i', advance dir i = Done i' /\ R i' (place dir es (further dir n))
  end.
Proof.
  intros Hn Hi. split; [by eapply bi_error|]. destruct (rest dir es n) as [|e r] eqn:Er.
  - rewrite (rest_nil dir es n Hn Er) in Hi. by rewrite (bi_valid _ _ Hi).
  - destruct (rest_cons dir es n e r Hn Er) as (k & Hk & Hp & Ht & _). rewrite Hp in Hi.
    rewrite (bi_valid _ _ Hi). destruct (bi_current _ _ Hi) as [Hc _]. split_and!; [done | by rewrite Hc|].
    destruct dir; cbn [advance place turned further] in *.
    + assert (k = n) as -> by (unfold front in Hp; destruct (_ <? _)%nat; by simplify_eq). by apply bi_next.
    + destruct n as [|n]; [done|]. injection Hp as ->. by apply bi_prev.
Qed.

Lemma bidi_end {I} `{!Iterator I} es R `{!Bidi es R} dir i p :
  R i p -> exists i', seek_end dir i = Done i' /\
    R i' (place dir es (match dir with kForward => 0 | kReserve => length es end)%nat).
Proof. intros Hi. destruct dir; cbn [seek_end place]; [by eapply bi_first | by eapply bi_last]. Qed.

(** ** Amending *)

Section amends.
Context {B D : Type} `{!Iterator B, !Iterator D} (cmp : bytes -> bytes -> Z) `{!ComparatorLaws cmp}.
Context (bs ds : list kv) (RB : B -> option nat -> Prop) (RD : D -> option nat -> Prop) `{!Bidi bs RB, !Bidi ds RD}.
Context (es : list kv) (Hbs : StronglySorted (kv_lt cmp) bs) (Hds : delta_ok cmp ds) (Hes : amended cmp bs ds es).

#[local] Abbreviation DA := (DeltaAmendIterator B D).
#[local] Abbreviation cut_at nb nd := (cut cmp (take nb bs) (take nd ds) (drop nb bs) (drop nd ds)).

(** The two halves of what is shown, at a cut. *)
Record split_at (nb nd : nat) (el er : list kv) : Prop := {
  sp_cut : cut_at nb nd;
  sp_es : es = el ++ er;
  sp_left : amended cmp (take nb bs) (take nd ds) el;
  sp_right : amended cmp (drop nb bs) (drop nd ds) er;
}.

Lemma cut_split nb nd : cut_at nb nd -> exists el er, split_at nb nd el er.
Proof.
  intros Hc. destruct Hds as [Hd _]. pose proof Hes as He.
  rewrite <- (take_drop nb bs), <- (take_drop nd ds) in He.
  destruct (amended_cut cmp (take nb bs) (take nd ds) (drop nb bs) (drop nd ds) es) as (el & er & E & Hl & Hr);
    [by rewrite take_drop | by rewrite take_drop | done | done |]. by exists el, er.
Qed.

(** What is between two cuts. *)
Lemma split_between nb nd nb' nd' el er el' er' em :
  (nb <= nb')%nat -> (nd <= nd')%nat -> split_at nb nd el er -> split_at nb' nd' el' er' ->
  amended cmp (take (nb' - nb) (drop nb bs)) (take (nd' - nd) (drop nd ds)) em -> el' = el ++ em /\ er = em ++ er'.
Proof.
  intros Hb Hd [_ E _ Hr] [Hc' E' _ Hr'] Hm.
  assert (Hdb : forall l : list kv, forall n n', (n <= n')%nat -> drop n l = take (n' - n) (drop n l) ++ drop n' l).
  { intros l n n' Hn. rewrite <- (take_drop (n' - n) (drop n l)) at 1. by rewrite drop_drop, Nat.add_comm, Nat.sub_add by done. }
  assert (er = em ++ er').
  { eapply amended_unique; [done | exact Hr|]. rewrite (Hdb bs nb nb' Hb), (Hdb ds nd nd' Hd). apply cut_amended; [done | | done..].
    assert (Hin : forall l : list kv, forall n n', (n <= n')%nat -> forall x, x ∈ take (n' - n) (drop n l) -> x ∈ take n' l).
    { intros l n n' Hn x Hx. rewrite take_drop_commute, Nat.add_comm, Nat.sub_add in Hx by done.
      by eapply (sublist_subseteq _ _), Hx; apply sublist_drop. }
    intros x y Hx Hy. apply Hc'; [|done]. rewrite elem_of_app in *.
    destruct Hx as [Hx|Hx]; [left | right]; apply list_elem_of_fmap in Hx as (z & -> & Hz); by eapply list_elem_of_fmap_2, Hin. }
  split; [|done]. subst er. rewrite E, app_assoc in E'. by apply app_inv_tail in E'.
Qed.

Definition keys (l k : list kv) : list bytes := map fst l ++ map ukey k.

Lemma elem_keys x (l k : list kv) : x ∈ keys l k <-> (exists b, b ∈ l /\ x = fst b) \/ (exists d, d ∈ k /\ x = ukey d).
Proof.
  unfold keys. rewrite elem_of_app, !list_elem_of_fmap. naive_solver.
Qed.

(** The cut in the direction [dir]. *)
Definition dir_cut (dir : Direction) (nb nd : nat) : Prop :=
  forall x y, x ∈ keys (passed dir bs nb) (passed dir ds nd) -> y ∈ keys (rest dir bs nb) (rest dir ds nd) ->
  dir_cmp cmp dir x y < 0.

Lemma dir_cut_cut dir nb nd : dir_cut dir nb nd <-> cut_at nb nd.
Proof.
  assert (Hk : forall l k x, x ∈ keys (reverse l) (reverse k) <-> x ∈ keys l k).
  { intros l k x. rewrite !elem_keys. by setoid_rewrite elem_of_reverse. }
  unfold dir_cut, cut. fold (keys (take nb bs) (take nd ds)). fold (keys (drop nb bs) (drop nd ds)).
  destruct dir; unfold passed; cbn [rest turned dir_cmp]; setoid_rewrite Hk; [done|].
  split; intros H x y Hx Hy; specialize (H y x Hy Hx); pose proof (cmp_sym x y); pose proof (cmp_sym y x); lia.
Qed.

Lemma dir_cut_turned dir nb nd : dir_cut (turned dir) nb nd <-> dir_cut dir nb nd.
Proof. by rewrite !dir_cut_cut. Qed.

Lemma dir_cmp_refl dir x : dir_cmp cmp dir x x = 0.
Proof. destruct dir; cbn; rewrite cmp_refl; lia. Qed.

(** The rests are sorted in the direction. *)
Lemma rest_sorted dir (l : list kv) f n (R : kv -> kv -> Prop) :
  (forall a b, R a b <-> cmp (f a) (f b) < 0) -> StronglySorted R l ->
  StronglySorted (fun a b => dir_cmp cmp dir (f a) (f b) < 0) (rest dir l n).
Proof.
  intros HR Hl. assert (Hs : StronglySorted (fun a b => cmp (f a) (f b) < 0) l) by (by eapply StronglySorted_impl; [|exact Hl]; apply HR).
  destruct dir; cbn [rest dir_cmp].
  - rewrite <- (take_drop n l) in Hs. by apply StronglySorted_app in Hs as (_ & _ & Hs).
  - rewrite <- (take_drop n l) in Hs. apply StronglySorted_app in Hs as (_ & Hs & _). apply StronglySorted_reverse in Hs.
    eapply StronglySorted_impl; [|exact Hs]. cbn. intros a b. rewrite (cmp_sym (f b)). lia.
Qed.

Lemma base_sorted dir n b r : rest dir bs n = b :: r -> Forall (fun y => dir_cmp cmp dir (fst b) (fst y) < 0) r.
Proof.
  intros E. pose proof (rest_sorted dir bs fst n (kv_lt cmp) ltac:(done) Hbs) as H. rewrite E in H. by apply StronglySorted_inv in H as [_ H].
Qed.

Lemma delta_sorted dir n d r : rest dir ds n = d :: r -> Forall (fun y => dir_cmp cmp dir (ukey d) (ukey y) < 0) r.
Proof.
  intros E. pose proof (rest_sorted dir ds ukey n (delta_lt cmp) ltac:(done) (proj1 Hds)) as H. rewrite E in H.
  by apply StronglySorted_inv in H as [_ H].
Qed.

(** What has passed when the first entries of the rests go too. *)
Inductive goes (dir : Direction) (l : list kv) (n : nat) : bool -> nat -> list kv -> Prop :=
| goes_not : goes dir l n false n []
| goes_one x r : rest dir l n = x :: r -> goes dir l n true (further dir n) [x].

(** The cut moves over entries that are below what is left. *)
Lemma dir_cut_goes dir nb nd mb md nb' nd' eb ed :
  (nb <= length bs)%nat -> (nd <= length ds)%nat -> dir_cut dir nb nd ->
  goes dir bs nb mb nb' eb -> goes dir ds nd md nd' ed ->
  (forall x y, x ∈ keys eb ed -> y ∈ keys (rest dir bs nb') (rest dir ds nd') -> dir_cmp cmp dir x y < 0) ->
  dir_cut dir nb' nd'.
Proof.
  intros Hnb Hnd Hc Hb Hd Hlt x y Hx Hy.
  assert (Hp : forall l n m n' e, (n <= length l)%nat -> goes dir l n m n' e ->
    (forall z, z ∈ passed dir l n' -> z ∈ e \/ z ∈ passed dir l n) /\ (forall z, z ∈ rest dir l n' -> z ∈ rest dir l n)).
  { intros l n m n' e Hn [|z r Er]; [by split; [right|]|]. destruct (rest_cons dir l n z r Hn Er) as (i & _ & _ & _ & _ & Er' & Hz).
    split; [intros w; rewrite Hz; intros [->|]; [by left; left | by right]|]. intros w Hw. rewrite Er', Er in *. by right. }
  destruct (Hp _ _ _ _ _ Hnb Hb) as [Hb1 Hb2], (Hp _ _ _ _ _ Hnd Hd) as [Hd1 Hd2].
  assert (Hx' : x ∈ keys eb ed \/ x ∈ keys (passed dir bs nb) (passed dir ds nd)).
  { rewrite !elem_keys in *. destruct Hx as [(z & Hz & ->)|(z & Hz & ->)]; [apply Hb1 in Hz as [Hz|Hz] | apply Hd1 in Hz as [Hz|Hz]]; eauto 6. }
  destruct Hx' as [Hx'|Hx']; [by apply Hlt|]. apply Hc; [done|].
  rewrite !elem_keys in *. destruct Hy as [(z & Hz & ->)|(z & Hz & ->)]; eauto.
Qed.

Lemma goes_between dir l n m n' e :
  (n <= length l)%nat -> goes dir l n m n' e ->
  match dir with
  | kForward => (n <= n')%nat /\ take (n' - n) (drop n l) = e
  | kReserve => (n' <= n)%nat /\ take (n - n') (drop n' l) = e
  end.
Proof.
  intros Hn [|x r Er]; [by destruct dir; rewrite Nat.sub_diag|].
  destruct (rest_cons dir l n x r Hn Er) as (i & Hi & Hp & Ht & Hf & _). destruct dir; cbn [further place turned] in *.
  - assert (i = n) as -> by (unfold front in Hp; destruct (_ <? _)%nat; by simplify_eq).
    split; [lia|]. replace (S n - n)%nat with 1%nat by lia. by rewrite (drop_S _ _ _ Hi).
  - destruct n as [|n]; [done|]. injection Hp as ->. split; [cbn; lia|]. cbn [pred].
    replace (S i - i)%nat with 1%nat by lia. by rewrite (drop_S _ _ _ Hi).
Qed.

(** The halves when the cut moves over [eb] and [ed], which show as [em]. *)
Lemma split_goes dir nb nd el er mb md nb' nd' eb ed em :
  (nb <= length bs)%nat -> (nd <= length ds)%nat -> split_at nb nd el er ->
  goes dir bs nb mb nb' eb -> goes dir ds nd md nd' ed -> dir_cut dir nb' nd' -> amended cmp eb ed em ->
  exists el' er', split_at nb' nd' el' er' /\
    match dir with kForward => el' = el ++ em /\ er = em ++ er' | kReserve => el = el' ++ em /\ er' = em ++ er end.
Proof.
  intros Hnb Hnd Hs Hb Hd Hc Hm. apply dir_cut_cut in Hc. destruct (cut_split nb' nd' Hc) as (el' & er' & Hs'). exists el', er'.
  split; [done|]. apply goes_between in Hb, Hd; [|done..]. destruct dir; destruct Hb as [Hb Eb], Hd as [Hd Ed]; rewrite <- Eb, <- Ed in Hm.
  - by apply (split_between nb nd nb' nd').
  - by apply (split_between nb' nd' nb nd).
Qed.

(** What few entries show. *)
Definition shown (d : kv) : kv := (ukey d, snd d).

Lemma amended_base b : amended cmp [b] [] [b].
Proof. split; [repeat constructor|]. unfold live. rewrite filter_cons_True by constructor. done. Qed.

Lemma amended_delta d : amended cmp [] [d] (if is_deletion d then [] else [shown d]).
Proof.
  split; [by destruct (is_deletion d); repeat constructor|]. unfold live.
  destruct (is_deletion d) eqn:E; [rewrite (filter_cons_False _ d) by congruence | rewrite (filter_cons_True _ d) by done]; done.
Qed.

Lemma amended_both b d : cmp (ukey d) (fst b) = 0 -> amended cmp [b] [d] (if is_deletion d then [] else [shown d]).
Proof.
  intros Hk. destruct (amended_delta d) as [Hs Hp]. split; [done|]. rewrite Hp. unfold live.
  rewrite (filter_cons_False _ b); [done|]. intros H. unfold unwritten in H. by apply Forall_inv in H.
Qed.

(** ** The operations *)

(** Where the two iterators stand. *)
Record stands (dir : Direction) (nb nd : nat) (d : DA) : Prop := {
  sd_base : RB (base_iter_ d) (place dir bs nb);
  sd_delta : RD (delta_iter_ d) (place dir ds nd);
  sd_nb : (nb <= length bs)%nat;
  sd_nd : (nd <= length ds)%nat;
  sd_dir : da_direction_ d = dir;
}.

(** The iterator knows which of the entries in front is its current one. *)
Inductive settled (dir : Direction) (d : DA) : list kv -> list kv -> Prop :=
| st_off : settled dir d [] []
| st_base b rb rd : current_at_base_ d = true -> equal_keys_ d = false ->
    (forall x, head rd = Some x -> dir_cmp cmp dir (fst b) (ukey x) < 0) -> settled dir d (b :: rb) rd
| st_delta rb x rd : current_at_base_ d = false -> equal_keys_ d = false -> is_deletion x = false ->
    (forall b, head rb = Some b -> dir_cmp cmp dir (ukey x) (fst b) < 0) -> settled dir d rb (x :: rd)
| st_both b rb x rd : current_at_base_ d = false -> equal_keys_ d = true -> is_deletion x = false ->
    cmp (ukey x) (fst b) = 0 -> settled dir d (b :: rb) (x :: rd).

Lemma AdvanceBase_ok dir nb nd d b rb :
  stands dir nb nd d -> rest dir bs nb = b :: rb ->
  exists i, AdvanceBase d = Done (set_base_iter i d) /\ stands dir (further dir nb) nd (set_base_iter i d).
Proof.
  intros [Hb Hd Hnb Hnd Hdir] Er. destruct (bidi_rest bs RB dir _ nb Hnb Hb) as [_ H]. rewrite Er in H.
  destruct H as (_ & _ & i & E & Hi). exists i. unfold AdvanceBase. rewrite Hdir, E. split; [done|].
  destruct (rest_cons dir bs nb b rb Hnb Er) as (_ & _ & _ & _ & Hf & _). by split.
Qed.

Lemma AdvanceDelta_ok dir nb nd d x rd :
  stands dir nb nd d -> rest dir ds nd = x :: rd ->
  exists i, AdvanceDelta d = Done (set_delta_iter i d) /\ stands dir nb (further dir nd) (set_delta_iter i d).
Proof.
  intros [Hb Hd Hnb Hnd Hdir] Er. destruct (bidi_rest ds RD dir _ nd Hnd Hd) as [_ H]. rewrite Er in H.
  destruct H as (_ & _ & i & E & Hi). exists i. unfold AdvanceDelta. rewrite Hdir, E. split; [done|].
  destruct (rest_cons dir ds nd x rd Hnd Er) as (_ & _ & _ & _ & Hf & _). by split.
Qed.

(** The orders of the direction. *)
Lemma dir_cmp_lt_le dir x y z : dir_cmp cmp dir x y < 0 -> dir_cmp cmp dir y z <= 0 -> dir_cmp cmp dir x z < 0.
Proof.
  destruct dir; cbn.
  - apply cmp_lt_le_trans. done.
  - intros H1 H2. pose proof (cmp_sym y x). pose proof (cmp_sym z y). pose proof (cmp_sym z x).
    pose proof (cmp_le_lt_trans cmp z y x). pose proof (cmp_sym y z). lia.
Qed.

Lemma dir_cmp_le_lt dir x y z : dir_cmp cmp dir x y <= 0 -> dir_cmp cmp dir y z < 0 -> dir_cmp cmp dir x z < 0.
Proof.
  destruct dir; cbn.
  - apply cmp_le_lt_trans. done.
  - intros H1 H2. pose proof (cmp_sym y x). pose proof (cmp_sym z y). pose proof (cmp_sym z x).
    pose proof (cmp_lt_le_trans cmp z y x). pose proof (cmp_sym x y). lia.
Qed.

Lemma dir_cmp_sym dir x y : dir_cmp cmp dir x y < 0 <-> 0 < dir_cmp cmp dir y x.
Proof. pose proof (cmp_sym x y). pose proof (cmp_sym y x). destruct dir; cbn; lia. Qed.

Lemma dir_cmp_0 dir x y : dir_cmp cmp dir x y = 0 <-> cmp x y = 0.
Proof. destruct dir; cbn; lia. Qed.

(** What is below the first of a rest is below all of it. *)
Lemma below_bases dir nb x :
  (forall b, head (rest dir bs nb) = Some b -> dir_cmp cmp dir x (fst b) < 0) ->
  forall b, b ∈ rest dir bs nb -> dir_cmp cmp dir x (fst b) < 0.
Proof.
  intros H b Hb. destruct (rest dir bs nb) as [|b0 r] eqn:E; [by apply not_elem_of_nil in Hb|].
  specialize (H b0 eq_refl). apply elem_of_cons in Hb as [->|Hb]; [done|]. apply base_sorted in E. rewrite Forall_forall in E.
  eapply dir_cmp_lt_le; [exact H|]. specialize (E b Hb). lia.
Qed.

Lemma below_deltas dir nd x :
  (forall d, head (rest dir ds nd) = Some d -> dir_cmp cmp dir x (ukey d) < 0) ->
  forall d, d ∈ rest dir ds nd -> dir_cmp cmp dir x (ukey d) < 0.
Proof.
  intros H d Hd. destruct (rest dir ds nd) as [|d0 r] eqn:E; [by apply not_elem_of_nil in Hd|].
  specialize (H d0 eq_refl). apply elem_of_cons in Hd as [->|Hd]; [done|]. apply delta_sorted in E. rewrite Forall_forall in E.
  eapply dir_cmp_lt_le; [exact H|]. specialize (E d Hd). lia.
Qed.

(** The cut moves over the first entry of one side, or of both under one key. *)
Lemma cut_base dir nb nd b rb :
  (nb <= length bs)%nat -> (nd <= length ds)%nat -> dir_cut dir nb nd -> rest dir bs nb = b :: rb ->
  (forall x, head (rest dir ds nd) = Some x -> dir_cmp cmp dir (fst b) (ukey x) < 0) -> dir_cut dir (further dir nb) nd.
Proof.
  intros Hnb Hnd Hc Eb Hx. eapply dir_cut_goes; [exact Hnb | exact Hnd | exact Hc | by eapply goes_one | by constructor |].
  intros z y Hz Hy. apply elem_keys in Hz as [(c & ->%list_elem_of_singleton & ->)|(c & Hcc & _)]; [|by apply not_elem_of_nil in Hcc].
  destruct (rest_cons dir bs nb b rb Hnb Eb) as (_ & _ & _ & _ & _ & Er & _). rewrite Er in Hy.
  apply elem_keys in Hy as [(c & Hcc & ->)|(c & Hcc & ->)].
  - apply base_sorted in Eb. rewrite Forall_forall in Eb. by apply Eb.
  - by apply (below_deltas dir nd).
Qed.

Lemma cut_delta dir nb nd x rd :
  (nb <= length bs)%nat -> (nd <= length ds)%nat -> dir_cut dir nb nd -> rest dir ds nd = x :: rd ->
  (forall b, head (rest dir bs nb) = Some b -> dir_cmp cmp dir (ukey x) (fst b) < 0) -> dir_cut dir nb (further dir nd).
Proof.
  intros Hnb Hnd Hc Ed Hb. eapply dir_cut_goes; [exact Hnb | exact Hnd | exact Hc | by constructor | by eapply goes_one |].
  intros z y Hz Hy. apply elem_keys in Hz as [(c & Hcc & _)|(c & ->%list_elem_of_singleton & ->)]; [by apply not_elem_of_nil in Hcc|].
  destruct (rest_cons dir ds nd x rd Hnd Ed) as (_ & _ & _ & _ & _ & Er & _). rewrite Er in Hy.
  apply elem_keys in Hy as [(c & Hcc & ->)|(c & Hcc & ->)].
  - by apply (below_bases dir nb).
  - apply delta_sorted in Ed. rewrite Forall_forall in Ed. by apply Ed.
Qed.

Lemma cut_both dir nb nd b rb x rd :
  (nb <= length bs)%nat -> (nd <= length ds)%nat -> dir_cut dir nb nd -> rest dir bs nb = b :: rb -> rest dir ds nd = x :: rd ->
  cmp (ukey x) (fst b) = 0 -> dir_cut dir (further dir nb) (further dir nd).
Proof.
  intros Hnb Hnd Hc Eb Ed Hk. eapply dir_cut_goes; [exact Hnb | exact Hnd | exact Hc | by eapply goes_one | by eapply goes_one |].
  destruct (rest_cons dir bs nb b rb Hnb Eb) as (_ & _ & _ & _ & _ & Erb & _).
  destruct (rest_cons dir ds nd x rd Hnd Ed) as (_ & _ & _ & _ & _ & Erd & _). rewrite Erb, Erd.
  apply base_sorted in Eb. apply delta_sorted in Ed. rewrite Forall_forall in Eb, Ed.
  assert (H1 : dir_cmp cmp dir (ukey x) (fst b) <= 0) by (rewrite (proj2 (dir_cmp_0 dir _ _) Hk); lia).
  assert (H2 : dir_cmp cmp dir (fst b) (ukey x) <= 0) by (rewrite (proj2 (dir_cmp_0 dir _ _) (cmp_eq_sym cmp _ _ Hk)); lia).
  intros z y Hz Hy. apply elem_keys in Hz, Hy.
  destruct Hz as [(c & ->%list_elem_of_singleton & ->)|(c & ->%list_elem_of_singleton & ->)], Hy as [(e & He & ->)|(e & He & ->)].
  - by apply Eb.
  - eapply dir_cmp_le_lt; [exact H2 | by apply Ed].
  - eapply dir_cmp_le_lt; [exact H1 | by apply Eb].
  - by apply Ed.
Qed.

Lemma rest_further dir (l : list kv) n x r : (n <= length l)%nat -> rest dir l n = x :: r -> rest dir l (further dir n) = r.
Proof. intros Hn E. by destruct (rest_cons dir l n x r Hn E) as (_ & _ & _ & _ & _ & Er & _). Qed.

(** What shows nothing is passed without changing the halves. *)
Lemma split_skip dir nb nd el er mb md nb' nd' eb ed :
  (nb <= length bs)%nat -> (nd <= length ds)%nat -> split_at nb nd el er ->
  goes dir bs nb mb nb' eb -> goes dir ds nd md nd' ed -> dir_cut dir nb' nd' -> amended cmp eb ed [] ->
  split_at nb' nd' el er.
Proof.
  intros Hnb Hnd Hs Hb Hd Hc Hm. destruct (split_goes dir nb nd el er mb md nb' nd' eb ed []) as (el' & er' & Hs' & H); [done..|].
  destruct dir; destruct H as [E1 E2]; rewrite ?app_nil_r in *; cbn in *; by subst.
Qed.

(** [UpdateCurrent] passes what shows nothing. *)
Lemma update_current_ok fuel dir nb nd d el er :
  stands dir nb nd d -> dir_cut dir nb nd -> split_at nb nd el er ->
  (length (rest dir bs nb) + length (rest dir ds nd) < fuel)%nat ->
  exists d' nb' nd', update_current cmp fuel d = Done d' /\ stands dir nb' nd' d' /\ dir_cut dir nb' nd' /\
    split_at nb' nd' el er /\ settled dir d' (rest dir bs nb') (rest dir ds nd') /\ da_error_ d' = da_error_ d.
Proof.
  revert nb nd d. induction fuel as [|fuel IH]; intros nb nd d Hst Hc Hs Hf; [lia|].
  pose proof Hst as [Hb Hd Hnb Hnd Hdir]. cbn [update_current]. cbv zeta.
  change (base_iter_ (set_equal_keys false d)) with (base_iter_ d). change (delta_iter_ (set_equal_keys false d)) with (delta_iter_ d).
  change (da_direction_ (set_equal_keys false d)) with (da_direction_ d).
  destruct (bidi_rest bs RB dir _ nb Hnb Hb) as [Hbe Hbr], (bidi_rest ds RD dir _ nd Hnd Hd) as [Hde Hdr].
  rewrite Hde, Hbe. change (negb (ok kOk)) with false. rewrite andb_false_r. cbn iota.
  set (d0 := set_equal_keys false d).
  assert (Hdone : forall at_base eq, settled dir (set_at_base at_base (set_equal_keys eq d0)) (rest dir bs nb) (rest dir ds nd) ->
    exists d'' nb' nd', Done (set_at_base at_base (set_equal_keys eq d0)) = Done d'' /\ stands dir nb' nd' d'' /\ dir_cut dir nb' nd' /\
    split_at nb' nd' el er /\ settled dir d'' (rest dir bs nb') (rest dir ds nd') /\ da_error_ d'' = da_error_ d).
  { intros at_base eq Hse. eexists _, nb, nd. by split_and!. }
  assert (Hst0 : forall eq, stands dir nb nd (set_equal_keys eq d0)) by (intros eq; by split).
  destruct (rest dir ds nd) as [|x rd] eqn:Ed.
  - rewrite Hdr. cbn [negb andb]. cbn iota. cbn [obind]. destruct (rest dir bs nb) as [|b rb] eqn:Eb.
    + rewrite Hbr. cbn [negb]. cbn iota. apply (Hdone (current_at_base_ d) false). constructor.
    + destruct Hbr as (-> & _). cbn [negb]. cbn iota. by apply (Hdone true false), st_base.
  - destruct Hdr as (-> & -> & _). cbn [negb andb ofopt obind]. cbn iota. fold (is_deletion x) (ukey x).
    destruct (rest dir bs nb) as [|b rb] eqn:Eb.
    + rewrite Hbr. cbn [negb]. cbn iota. destruct (is_deletion x) eqn:Hx; [|by apply (Hdone false false), st_delta].
      destruct (AdvanceDelta_ok dir nb nd d0 x rd (Hst0 false) Ed) as (i & -> & Hst'). cbn [obind].
      assert (Hc' : dir_cut dir nb (further dir nd)) by (eapply cut_delta; [done..|]; by rewrite Eb).
      destruct (IH nb (further dir nd) (set_delta_iter i d0) Hst' Hc') as (d' & nb' & nd' & -> & H').
      * eapply (split_skip dir nb nd); [exact Hnb | exact Hnd | exact Hs | constructor | by eapply goes_one | exact Hc' |].
        pose proof (amended_delta x) as Ha. by rewrite Hx in Ha.
      * rewrite (rest_further dir ds nd x rd Hnd Ed), Eb. cbn in *. lia.
      * by exists d', nb', nd'.
    + destruct Hbr as (-> & -> & _). cbn [negb ofopt obind]. cbn iota. rewrite Hdir.
      pose proof (dir_cmp_sym dir (fst b) (ukey x)) as Hsym.
      destruct (Z.leb_spec (dir_cmp cmp dir (ukey x) (fst b)) 0) as [Hle|Hgt].
      2:{ apply (Hdone true false), st_base; [done..|]. intros y [= <-]. lia. }
      pose proof (dir_cmp_0 dir (ukey x) (fst b)) as H0. set (eq := dir_cmp cmp dir (ukey x) (fst b) =? 0).
      replace (if eq then set_equal_keys true d0 else d0) with (set_equal_keys eq d0) by (by destruct eq).
      destruct (is_deletion x) eqn:Hx; cbn [negb]; cbn iota.
      2:{ apply (Hdone false eq). subst eq. destruct (Z.eqb_spec (dir_cmp cmp dir (ukey x) (fst b)) 0).
          - apply st_both; [done..|]. by apply H0.
          - apply st_delta; [done..|]. intros y [= <-]. lia. }
      destruct (AdvanceDelta_ok dir nb nd (set_equal_keys eq d0) x rd (Hst0 eq) Ed) as (i & -> & Hst'). cbn [obind].
      change (equal_keys_ (set_delta_iter i (set_equal_keys eq d0))) with eq. set (d1 := set_delta_iter i (set_equal_keys eq d0)) in *.
      pose proof (amended_delta x) as Ha. rewrite Hx in Ha. cbn [length] in Hf.
      destruct eq eqn:Heq; subst eq; [apply Z.eqb_eq, H0 in Heq | apply Z.eqb_neq in Heq].
      * destruct (AdvanceBase_ok dir nb (further dir nd) d1 b rb Hst' Eb) as (j & -> & Hst''). cbn [obind].
        assert (Hc' : dir_cut dir (further dir nb) (further dir nd)) by (by eapply cut_both).
        destruct (IH (further dir nb) (further dir nd) (set_base_iter j d1) Hst'' Hc') as (d' & nb' & nd' & -> & H').
        -- eapply (split_skip dir nb nd); [exact Hnb | exact Hnd | exact Hs | by eapply goes_one | by eapply goes_one | exact Hc' |].
           pose proof (amended_both b x Heq) as Hab. by rewrite Hx in Hab.
        -- rewrite (rest_further dir ds nd x rd Hnd Ed), (rest_further dir bs nb b rb Hnb Eb). lia.
        -- by exists d', nb', nd'.
      * cbn [obind]. assert (Hc' : dir_cut dir nb (further dir nd)).
        { eapply cut_delta; [exact Hnb | exact Hnd | exact Hc | exact Ed |]. rewrite Eb. intros y [= <-]. lia. }
        destruct (IH nb (further dir nd) d1 Hst' Hc') as (d' & nb' & nd' & -> & H').
        -- eapply (split_skip dir nb nd); [exact Hnb | exact Hnd | exact Hs | constructor | by eapply goes_one | exact Hc' | exact Ha].
        -- rewrite (rest_further dir ds nd x rd Hnd Ed), Eb. cbn [length]. lia.
        -- by exists d', nb', nd'.
Qed.

(** The current entry, and the cut behind it. *)
Inductive standing (dir : Direction) (nb nd : nat) (d : DA) : option kv -> Prop :=
| standing_off : rest dir bs nb = [] -> rest dir ds nd = [] -> da_Valid d = false -> standing dir nb nd d None
| standing_on e mb md nb' nd' eb ed i j :
    da_Valid d = true -> da_current d = Some e ->
    goes dir bs nb mb nb' eb -> goes dir ds nd md nd' ed -> dir_cut dir nb' nd' -> amended cmp eb ed [e] ->
    (if equal_keys_ d then obind (AdvanceBase d) AdvanceDelta
     else if current_at_base_ d then AdvanceBase d else AdvanceDelta d) = Done (set_delta_iter i (set_base_iter j d)) ->
    stands dir nb' nd' (set_delta_iter i (set_base_iter j d)) ->
    standing dir nb nd d (Some e).

Lemma ukey_extract x rd dir nd : rest dir ds nd = x :: rd -> ExtractUserKey (fst x) = Some (ukey x).
Proof.
  intros E. destruct Hds as [_ Hk]. rewrite Forall_forall in Hk. apply Hk.
  assert (Hx : x ∈ rest dir ds nd) by (rewrite E; by left). destruct dir; cbn [rest] in Hx.
  - by eapply (sublist_subseteq _ _), Hx; apply sublist_drop.
  - rewrite elem_of_reverse in Hx. by eapply (sublist_subseteq _ _), Hx; apply sublist_take.
Qed.

Lemma settled_standing dir nb nd d :
  stands dir nb nd d -> dir_cut dir nb nd -> settled dir d (rest dir bs nb) (rest dir ds nd) -> exists e, standing dir nb nd d e.
Proof.
  intros Hst Hc Hse. pose proof Hst as [Hb Hd Hnb Hnd Hdir].
  destruct (bidi_rest bs RB dir _ nb Hnb Hb) as [_ Hbr], (bidi_rest ds RD dir _ nd Hnd Hd) as [_ Hdr].
  inversion Hse as [E1 E2|b rb rd Hat Heq Hlt E1 E2|rb x rd Hat Heq Hdel Hlt E1 E2|b rb x rd Hat Heq Hdel Hk E1 E2]; symmetry in E1, E2.
  - rewrite E1 in Hbr. rewrite E2 in Hdr. exists None. apply standing_off; [done..|]. unfold da_Valid. by destruct (current_at_base_ d).
  - rewrite E1 in Hbr. destruct Hbr as (Hv & Hcur & _). exists (Some b).
    destruct (AdvanceBase_ok dir nb nd d b rb Hst E1) as (i & Ea & Hst').
    eapply (standing_on dir nb nd d b true false _ _ _ _ (delta_iter_ d) i); unfold da_Valid, da_current; rewrite ?Hat, ?Heq;
      [done | done | by eapply goes_one | by constructor | | apply amended_base | done | done].
    by eapply cut_base.
  - rewrite E2 in Hdr. destruct Hdr as (Hv & Hcur & _). exists (Some (shown x)).
    destruct (AdvanceDelta_ok dir nb nd d x rd Hst E2) as (i & Ea & Hst'). pose proof (amended_delta x) as Ha. rewrite Hdel in Ha.
    eapply (standing_on dir nb nd d (shown x) false true _ _ _ _ i (base_iter_ d)); unfold da_Valid, da_current; rewrite ?Hat, ?Heq;
      [done | | by constructor | by eapply goes_one | | exact Ha | by rewrite Ea | done].
    2: by eapply cut_delta.
    rewrite Hcur. cbn. by rewrite (ukey_extract x rd dir nd E2).
  - rewrite E2 in Hdr. destruct Hdr as (Hv & Hcur & _). exists (Some (shown x)).
    destruct (AdvanceBase_ok dir nb nd d b rb Hst E1) as (j & Eb & Hst').
    destruct (AdvanceDelta_ok dir (further dir nb) nd (set_base_iter j d) x rd Hst' E2) as (i & Ea & Hst'').
    pose proof (amended_both b x Hk) as Ha. rewrite Hdel in Ha.
    eapply (standing_on dir nb nd d (shown x) true true _ _ _ _ i j); unfold da_Valid, da_current; rewrite ?Hat, ?Heq;
      [done | | by eapply goes_one | by eapply goes_one | by eapply cut_both | exact Ha | by rewrite Eb | done].
    rewrite Hcur. cbn. by rewrite (ukey_extract x rd dir nd E2).
Qed.

(** The halves on both sides of the current entry [e]. *)
Definition around (dir : Direction) (e : kv) (el er el' er' : list kv) : Prop :=
  match dir with kForward => el' = el ++ [e] /\ er = e :: er' | kReserve => el = el' ++ [e] /\ er' = e :: er end.

(** The state between operations. *)
Record settled_at (dir : Direction) (d : DA) (el er : list kv) : Prop := {
  sa_cut : exists nb nd, stands dir nb nd d /\ dir_cut dir nb nd /\ split_at nb nd el er /\
    settled dir d (rest dir bs nb) (rest dir ds nd);
  sa_error : da_error_ d = kOk;
}.

Context (fuel : nat) (Hfuel : (length bs + length ds < fuel)%nat).

Lemma UpdateCurrent_ok dir nb nd d el er :
  stands dir nb nd d -> dir_cut dir nb nd -> split_at nb nd el er ->
  exists d', UpdateCurrent cmp fuel d = Done d' /\ settled_at dir d' el er.
Proof.
  intros Hst Hc Hs. assert (Hl : forall (l : list kv) n, (length (rest dir l n) <= length l)%nat).
  { intros l n. destruct dir; cbn [rest]; rewrite ?length_reverse, ?length_take, ?length_drop; lia. }
  pose proof (Hl bs nb). pose proof (Hl ds nd).
  destruct (update_current_ok fuel dir nb nd (set_da_error kOk d) el er) as (d' & nb' & nd' & E & Hst' & Hc' & Hs' & Hse & He);
    [by destruct Hst | done | done | lia |].
  exists d'. split; [done|]. split; [by exists nb', nd' | done].
Qed.

Lemma da_Advance_ok dir d el er :
  settled_at dir d el er -> da_Valid d = true ->
  exists e d' el' er', da_current d = Some e /\ da_Advance cmp fuel d = Done d' /\ settled_at dir d' el' er' /\ around dir e el er el' er'.
Proof.
  intros [(nb & nd & Hst & Hc & Hs & Hse) _] Hv.
  destruct (settled_standing dir nb nd d Hst Hc Hse) as [e [_ _ Hv'|e' mb md nb' nd' eb ed i j _ Hcur Hgb Hgd Hc' Ha Hadv Hst']]; [congruence|].
  destruct (split_goes dir nb nd el er mb md nb' nd' eb ed [e']) as (el' & er' & Hs' & Har); [by destruct Hst.. | done | done | done | done | done|].
  destruct (UpdateCurrent_ok dir nb' nd' _ el' er' Hst' Hc' Hs') as (d' & E & Hd').
  exists e', d', el', er'. split_and!; [done | | done | by destruct dir].
  unfold da_Advance. change (obind (AdvanceBase d) (fun d => AdvanceDelta d)) with (obind (AdvanceBase d) (AdvanceDelta (B := B) (D := D))).
  rewrite Hadv. done.
Qed.

(** ** Turning round *)

Lemma dir_cmp_turned dir x y : dir_cmp cmp (turned dir) x y < 0 <-> dir_cmp cmp dir y x < 0.
Proof. pose proof (cmp_sym x y). pose proof (cmp_sym y x). destruct dir; cbn; lia. Qed.

Lemma further_le dir (l : list kv) n x r : (n <= length l)%nat -> rest dir l n = x :: r -> (further dir n <= length l)%nat.
Proof. intros Hn E. by destruct (rest_cons dir l n x r Hn E) as (_ & _ & _ & _ & H & _). Qed.

Lemma place_turned dir (l : list kv) n x r :
  (n <= length l)%nat -> rest dir l n = x :: r -> place dir l n = place (turned dir) l (further dir n).
Proof. intros Hn E. by destruct (rest_cons dir l n x r Hn E) as (i & _ & -> & -> & _). Qed.

(** The check for equal keys, where there are none. *)
Lemma check_unequal dir nb nd (d : DA) :
  stands dir nb nd d ->
  (forall b x rb rd, rest dir bs nb = b :: rb -> rest dir ds nd = x :: rd -> cmp (ukey x) (fst b) <> 0) ->
  (if it_Valid (delta_iter_ d) && it_Valid (base_iter_ d) then
     do! e := ofopt (it_current (delta_iter_ d)) in
     do! b := ofopt (it_current (base_iter_ d)) in
     Done (if cmp (fst (parsed (fst e))) (fst b) =? 0 then set_equal_keys true d else d)
   else Done d)%out = Done d.
Proof.
  intros [Hb Hd Hnb Hnd _] Hne. destruct (bidi_rest bs RB dir _ nb Hnb Hb) as [_ Hbr], (bidi_rest ds RD dir _ nd Hnd Hd) as [_ Hdr].
  destruct (rest dir ds nd) as [|x rd]; [by rewrite Hdr|]. destruct Hdr as (-> & -> & _).
  destruct (rest dir bs nb) as [|b rb]; [by rewrite Hbr|]. destruct Hbr as (-> & -> & _).
  cbn [andb ofopt obind]. cbn iota. fold (ukey x). destruct (Z.eqb_spec (cmp (ukey x) (fst b)) 0) as [E|]; [|done].
  by apply (Hne b x rb rd) in E.
Qed.

(** The iterator that is not current goes over to the other side of the cut. *)
Lemma turn_delta dir nb nd (d : DA) b rb :
  stands dir nb nd d -> rest dir bs nb = b :: rb ->
  let d0 := set_equal_keys false (set_da_direction (turned dir) d) in
  exists i, (if negb (it_Valid (delta_iter_ d0)) then
               do! i := seek_end (turned dir) (delta_iter_ d0) in Done (set_delta_iter i d0)
             else AdvanceDelta d0)%out = Done (set_delta_iter i d0) /\
    stands (turned dir) (further dir nb) nd (set_delta_iter i d0).
Proof.
  intros [Hb Hd Hnb Hnd Hdir] Eb d0. change (delta_iter_ d0) with (delta_iter_ d).
  pose proof (further_le dir bs nb b rb Hnb Eb) as Hnb'. rewrite (place_turned dir bs nb b rb Hnb Eb) in Hb.
  destruct (bidi_rest ds RD dir _ nd Hnd Hd) as [_ Hdr]. destruct (rest dir ds nd) as [|x rd] eqn:Ed.
  - rewrite Hdr. cbn [negb]. cbn iota. destruct (bidi_end ds RD (turned dir) _ _ Hd) as (i & -> & Hi).
    rewrite <- (rest_nil_end dir ds nd Hnd Ed) in Hi. exists i. split; [done|]. by split.
  - destruct Hdr as (-> & _). cbn [negb]. cbn iota. destruct (rest_turned dir ds nd x rd Hnd Ed) as [Er Ef].
    pose proof (further_le dir ds nd x rd Hnd Ed) as Hnd'. rewrite (place_turned dir ds nd x rd Hnd Ed) in Hd.
    destruct (AdvanceDelta_ok (turned dir) (further dir nb) (further dir nd) d0 x _ ltac:(by split) Er) as (i & -> & Hst).
    rewrite Ef in Hst. by exists i.
Qed.

Lemma turn_base dir nb nd (d : DA) x rd :
  stands dir nb nd d -> rest dir ds nd = x :: rd ->
  let d0 := set_equal_keys false (set_da_direction (turned dir) d) in
  exists i, (if negb (it_Valid (base_iter_ d0)) then
               do! i := seek_end (turned dir) (base_iter_ d0) in Done (set_base_iter i d0)
             else AdvanceBase d0)%out = Done (set_base_iter i d0) /\
    stands (turned dir) nb (further dir nd) (set_base_iter i d0).
Proof.
  intros [Hb Hd Hnb Hnd Hdir] Ed d0. change (base_iter_ d0) with (base_iter_ d).
  pose proof (further_le dir ds nd x rd Hnd Ed) as Hnd'. rewrite (place_turned dir ds nd x rd Hnd Ed) in Hd.
  destruct (bidi_rest bs RB dir _ nb Hnb Hb) as [_ Hbr]. destruct (rest dir bs nb) as [|b rb] eqn:Eb.
  - rewrite Hbr. cbn [negb]. cbn iota. destruct (bidi_end bs RB (turned dir) _ _ Hb) as (i & -> & Hi).
    rewrite <- (rest_nil_end dir bs nb Hnb Eb) in Hi. exists i. split; [done|]. by split.
  - destruct Hbr as (-> & _). cbn [negb]. cbn iota. destruct (rest_turned dir bs nb b rb Hnb Eb) as [Er Ef].
    pose proof (further_le dir bs nb b rb Hnb Eb) as Hnb'. rewrite (place_turned dir bs nb b rb Hnb Eb) in Hb.
    destruct (AdvanceBase_ok (turned dir) (further dir nb) (further dir nd) d0 b _ ltac:(by split) Er) as (i & -> & Hst).
    rewrite Ef in Hst. by exists i.
Qed.

Lemma turn_round_ok dir nb nd (d : DA) :
  stands dir nb nd d -> dir_cut dir nb nd ->
  (if current_at_base_ d then rest dir bs nb <> [] else rest dir ds nd <> []) ->
  exists d', turn_round cmp (turned dir) d = Done d' /\ equal_keys_ d' = false /\ current_at_base_ d' = current_at_base_ d /\
    if current_at_base_ d then stands (turned dir) (further dir nb) nd d' else stands (turned dir) nb (further dir nd) d'.
Proof.
  intros Hst Hc Hcur. pose proof Hst as [Hb Hd Hnb Hnd Hdir]. unfold turn_round. cbv zeta.
  pose proof (turn_delta dir nb nd d) as Htd. pose proof (turn_base dir nb nd d) as Htb. cbv zeta in Htd, Htb.
  set (d0 := set_equal_keys false (set_da_direction (turned dir) d)) in *.
  destruct (bidi_rest bs RB dir _ nb Hnb Hb) as [_ Hbr], (bidi_rest ds RD dir _ nd Hnd Hd) as [_ Hdr].
  assert (Hlt : forall b x, b ∈ passed dir bs nb -> x ∈ rest dir ds nd -> cmp (ukey x) (fst b) <> 0).
  { intros b x Hib Hix E. assert (H : dir_cmp cmp dir (fst b) (ukey x) < 0) by (apply Hc; apply elem_keys; eauto).
    apply (cmp_eq_sym cmp), (dir_cmp_0 dir) in E. lia. }
  assert (Hlt' : forall b x, b ∈ rest dir bs nb -> x ∈ passed dir ds nd -> cmp (ukey x) (fst b) <> 0).
  { intros b x Hib Hix E. assert (H : dir_cmp cmp dir (ukey x) (fst b) < 0) by (apply Hc; apply elem_keys; eauto).
    apply (dir_cmp_0 dir) in E. lia. }
  change (current_at_base_ d0) with (current_at_base_ d). destruct (current_at_base_ d) eqn:Ecur.
  - destruct (rest dir bs nb) as [|b rb] eqn:Eb; [done|]. destruct (Htd b rb Hst eq_refl) as (i & Hi & Hst').
    change (base_iter_ d0) with (base_iter_ d). destruct Hbr as (-> & _). cbn [negb]. cbn iota. rewrite Hi. cbn [obind].
    rewrite (check_unequal _ _ _ _ Hst'); [by eexists|]. destruct (rest_turned dir bs nb b rb Hnb Eb) as [Er _].
    intros b' x rb' rd' [= <- _]%(eq_trans (eq_sym Er)) Ex. apply Hlt'; [by left|]. unfold passed. rewrite Ex. by left.
  - destruct (rest dir ds nd) as [|x rd] eqn:Ed; [done|]. destruct (Htb x rd Hst eq_refl) as (i & Hi & Hst').
    change (delta_iter_ d0) with (delta_iter_ d). destruct Hdr as (-> & _). cbn [negb]. cbn iota.
    destruct (negb (it_Valid (base_iter_ d0))); rewrite Hi; cbn [obind].
    all: rewrite (check_unequal _ _ _ _ Hst'); [by eexists|]; destruct (rest_turned dir ds nd x rd Hnd Ed) as [Er _].
    all: intros b x' rb' rd' Ex [= <- _]%(eq_trans (eq_sym Er)); apply Hlt; [|by left]; unfold passed; rewrite Ex; by left.
Qed.

Lemma da_turn_ok dir d el er :
  settled_at dir d el er -> da_Valid d = true ->
  exists d', da_move cmp fuel (turned dir) d = Done d' /\ settled_at (turned dir) d' el er.
Proof.
  intros [(nb & nd & Hst & Hc & Hs & Hse) _] Hv. pose proof Hst as [_ _ Hnb Hnd Hdir].
  assert (Hcur : if current_at_base_ d then rest dir bs nb <> [] else rest dir ds nd <> []).
  { destruct (settled_standing dir nb nd d Hst Hc Hse) as [e [_ _ Hv'|]]; [congruence|].
    inversion Hse as [E1 E2|? ? ? -> ? ? E1 E2|? ? ? -> ? ? ? E1 E2|? ? ? ? -> ? ? ? E1 E2]; try done.
    exfalso. symmetry in E1, E2. unfold da_Valid in Hv. destruct Hst as [Hb Hd _ _ _].
    destruct (bidi_rest bs RB dir _ nb Hnb Hb) as [_ Hbr], (bidi_rest ds RD dir _ nd Hnd Hd) as [_ Hdr].
    rewrite E1 in Hbr. rewrite E2 in Hdr. by destruct (current_at_base_ d); congruence. }
  destruct (turn_round_ok dir nb nd d Hst Hc Hcur) as (d1 & E1 & Heq & Hat & Hst1).
  assert (Hmove : da_move cmp fuel (turned dir) d = da_Advance cmp fuel d1).
  { unfold da_move. rewrite Hv. cbn [negb]. cbn iota. rewrite Hdir. by destruct dir; cbn [turned] in *; rewrite E1. }
  rewrite Hmove. unfold da_Advance. rewrite Heq, Hat. apply dir_cut_turned in Hc.
  destruct (current_at_base_ d).
  - destruct (rest dir bs nb) as [|b rb] eqn:Eb; [done|]. destruct (rest_turned dir bs nb b rb Hnb Eb) as [Er Ef].
    destruct (AdvanceBase_ok (turned dir) _ nd d1 b _ Hst1 Er) as (i & -> & Hst2). rewrite Ef in Hst2. cbn [obind].
    by apply (UpdateCurrent_ok (turned dir) nb nd).
  - destruct (rest dir ds nd) as [|x rd] eqn:Ed; [done|]. destruct (rest_turned dir ds nd x rd Hnd Ed) as [Er Ef].
    destruct (AdvanceDelta_ok (turned dir) nb _ d1 x _ Hst1 Er) as (i & -> & Hst2). rewrite Ef in Hst2. cbn [obind].
    by apply (UpdateCurrent_ok (turned dir) nb nd).
Qed.

Lemma amended_nil l : amended cmp [] [] l -> l = [].
Proof. intros [_ Hp]. by apply Permutation_nil_r in Hp. Qed.

(** Where the iterator is in what is shown. *)
Lemma settled_place dir d el er :
  settled_at dir d el er -> es = el ++ er /\
  if da_Valid d then exists e n, da_current d = Some e /\ place dir es (length el) = Some n /\ es !! n = Some e
  else place dir es (length el) = None.
Proof.
  intros Hsa. pose proof Hsa as [(nb & nd & Hst & Hc & [_ Ees Hl Hr] & Hse) _]. split; [done|].
  destruct (da_Valid d) eqn:Hv.
  - destruct (da_Advance_ok dir d el er Hsa Hv) as (e & d' & el' & er' & Hcur & _ & _ & Har). rewrite Hcur.
    destruct dir; cbn [around place] in *; destruct Har as [E1 E2].
    + subst er. exists e, (length el). split; [done|]. rewrite Ees, list_lookup_middle by done. split; [|done].
      apply front_lt. rewrite length_app. cbn. lia.
    + subst el. exists e, (length el'). rewrite length_app, Nat.add_comm. split_and!; [done..|].
      rewrite Ees, <- app_assoc. by apply list_lookup_middle.
  - destruct (settled_standing dir nb nd d Hst Hc Hse) as [e [E1 E2 _|]]; [|congruence].
    destruct dir; cbn [rest place] in *.
    + rewrite E1, E2 in Hr. apply amended_nil in Hr as ->. rewrite app_nil_r in Ees. apply front_ge. by rewrite Ees.
    + apply (f_equal reverse) in E1, E2. rewrite reverse_involutive in E1, E2. rewrite E1, E2 in Hl. by apply amended_nil in Hl as ->.
Qed.

(** The place of the iterator in [es]; a fresh one is nowhere. *)
Definition amends_at (d : DA) (p : option nat) : Prop :=
  (da_error_ d = kOk /\ RB (base_iter_ d) None /\ RD (delta_iter_ d) None /\ p = None) \/
  exists dir el er, settled_at dir d el er /\ p = place dir es (length el).

Lemma split_start : split_at 0 0 [] es.
Proof.
  split; rewrite ?drop_0; [| done | | done].
  - intros x y Hx. by apply not_elem_of_nil in Hx.
  - split; [constructor | done].
Qed.

Lemma split_end : split_at (length bs) (length ds) es [].
Proof.
  split; rewrite ?app_nil_r, ?firstn_all, ?drop_all; [| done | done |].
  - intros x y _ Hy. by apply not_elem_of_nil in Hy.
  - split; [constructor | done].
Qed.

(** Both start at an end. *)
Lemma seek_ends dir d p :
  amends_at d p -> exists b i,
    seek_end dir (base_iter_ d) = Done b /\ seek_end dir (delta_iter_ d) = Done i /\
    forall d', d' = set_delta_iter i (set_base_iter b (set_da_direction dir d)) ->
    match dir with kForward => stands dir 0 0 d' | kReserve => stands dir (length bs) (length ds) d' end.
Proof.
  intros Hd. assert (H : exists q r, RB (base_iter_ d) q /\ RD (delta_iter_ d) r).
  { destruct Hd as [(_ & Hb & Hd & _)|(dir' & el & er & [(nb & nd & [Hb Hd _ _ _] & _) _] & _)]; eauto. }
  destruct H as (q & r & Hb & Hr). destruct (bidi_end bs RB dir _ _ Hb) as (b & Eb & Hb').
  destruct (bidi_end ds RD dir _ _ Hr) as (i & Ei & Hi'). exists b, i. split_and!; [done..|]. intros d' ->.
  destruct dir; (split; [done | done | cbn; lia | cbn; lia | done]).
Qed.

(** A step, in the direction the iterator has or against it. *)
Lemma da_move_ok dir d n :
  amends_at d (Some n) -> exists d', da_move cmp fuel dir d = Done d' /\
    amends_at d' (match dir with kForward => front es (S n) | kReserve => back n end).
Proof.
  intros [(_ & _ & _ & ?)|(dir' & el & er & Hs & Ep)]; [done|].
  destruct (settled_place dir' d el er Hs) as [_ H]. destruct (da_Valid d) eqn:Hv; [clear H | congruence].
  assert (Hdir : da_direction_ d = dir') by (by destruct Hs as [(nb & nd & [_ _ _ _ E] & _) _]).
  assert (Hn : length el = match dir' with kForward => n | kReserve => S n end).
  { destruct dir'; cbn [place] in Ep; [unfold front in Ep; destruct (_ <? _)%nat; by simplify_eq|].
    destruct (length el); [done|]. by injection Ep as ->. }
  destruct (decide (dir = dir')) as [<-|Hne].
  - destruct (da_Advance_ok dir d el er Hs Hv) as (e & d' & el' & er' & _ & E & Hs' & Har). exists d'. split.
    + unfold da_move. rewrite Hv, Hdir. by destruct dir.
    + right. exists dir, el', er'. split; [done|]. destruct dir; cbn [around place] in *; destruct Har as [E1 E2].
      * by rewrite E1, length_app, Hn, Nat.add_comm.
      * rewrite E1, length_app, Nat.add_comm in Hn. injection Hn as ->. done.
  - assert (dir = turned dir') as -> by (by destruct dir, dir').
    destruct (da_turn_ok dir' d el er Hs Hv) as (d' & E & Hs'). exists d'. split; [done|]. right. exists (turned dir'), el, er.
    split; [done|]. by destruct dir'; cbn [turned place] in *; rewrite Hn.
Qed.

Lemma DeltaAmend_bidi : Bidi (Iterator0 := DeltaAmend_ops cmp fuel) es amends_at.
Proof.
  split.
  - intros d p [(_ & Hb & Hd & ->)|(dir & el & er & Hs & ->)]; cbn [it_Valid DeltaAmend_ops].
    + unfold da_Valid. rewrite (bi_valid _ _ Hb), (bi_valid _ _ Hd). by destruct (current_at_base_ d).
    + destruct (settled_place dir d el er Hs) as [_ H]. destruct (da_Valid d); [|by rewrite H]. by destruct H as (e & n & _ & -> & _).
  - intros d n [(_ & _ & _ & ?)|(dir & el & er & Hs & Ep)]; [done|]. cbn [it_current DeltaAmend_ops].
    destruct (settled_place dir d el er Hs) as [_ H]. destruct (da_Valid d); [|congruence].
    destruct H as (e & m & -> & Em & He). assert (m = n) as -> by congruence. rewrite He. split; [done|]. by eapply lookup_lt_Some.
  - intros d p H. cbn [it_error DeltaAmend_ops]. unfold da_iter_error.
    assert (H' : exists q r, RB (base_iter_ d) q /\ RD (delta_iter_ d) r /\ da_error_ d = kOk).
    { destruct H as [(? & Hb & Hd & _)|(dir' & el & er & [(nb & nd & [Hb Hd _ _ _] & _) ?] & _)]; eauto. }
    destruct H' as (q & r & Hb & Hd & He). by rewrite (bi_error _ _ Hb), (bi_error _ _ Hd), He.
  - intros d p H. destruct (seek_ends kForward d p H) as (b & i & Eb & Ei & Hst). cbn [it_SeekToFirst DeltaAmend_ops].
    unfold da_SeekToFirst. cbn [seek_end base_iter_ delta_iter_ set_da_direction] in *. cbv zeta. rewrite Eb, Ei. cbn [obind].
    destruct (UpdateCurrent_ok kForward 0 0 _ [] es (Hst _ eq_refl)) as (d' & -> & Hd'); [|apply split_start|].
    + apply (dir_cut_cut kForward), split_start.
    + exists d'. split; [done|]. right. by exists kForward, [], es.
  - intros d p H. destruct (seek_ends kReserve d p H) as (b & i & Eb & Ei & Hst). cbn [it_SeekToLast DeltaAmend_ops].
    unfold da_SeekToLast. cbn [seek_end base_iter_ delta_iter_ set_da_direction] in *. cbv zeta. rewrite Eb, Ei. cbn [obind].
    destruct (UpdateCurrent_ok kReserve _ _ _ es [] (Hst _ eq_refl)) as (d' & -> & Hd'); [|apply split_end|].
    + apply (dir_cut_cut kReserve), split_end.
    + exists d'. split; [done|]. right. by exists kReserve, es, [].
  - intros d n H. by apply (da_move_ok kForward).
  - intros d n H. by apply (da_move_ok kReserve).
Qed.
End amends.

(** ** Properties *)

(** C20: whatever the order of the steps, forward and backward, the iterator of a
    transaction goes over the entries of the database that the transaction has
    not written and those it has put, in the order of the keys: over two
    iterators that can be turned round it is one itself. *)
Theorem DeltaAmend_amends {B D : Type} `{!Iterator B, !Iterator D} cmp `{!ComparatorLaws cmp} bs ds RB RD es fuel :
  Bidi bs RB -> Bidi ds RD -> StronglySorted (kv_lt cmp) bs -> delta_ok cmp ds -> (length bs + length ds < fuel)%nat ->
  amended cmp bs ds es ->
  exists R : DeltaAmendIterator B D -> option nat -> Prop,
    Bidi (Iterator0 := DeltaAmend_ops cmp fuel) es R /\
    forall b d, RB b None -> RD d None -> R (NewDeltaAmendIterator b d) None.
Proof.
  intros HB HD Hbs Hds Hf Hes. exists (amends_at cmp bs ds RB RD es). split; [by apply DeltaAmend_bidi|].
  intros b d Hb Hd. by left.
Qed.

Lemma DeltaAmend_amends_witness :
  let bs := [([97], [1]); ([98], [2]); ([100], [4])] in
  let ds := [(MakeKey [97] 9 1, []); (MakeKey [98] 9 0, [22]); (MakeKey [99] 9 0, [33])] in
  let es := [([98], [22]); ([99], [33]); ([100], [4])] in
  (exists R : DeltaAmendIterator Cursor Cursor -> option nat -> Prop,
    Bidi (Iterator0 := DeltaAmend_ops (Iterator0 := Cursor_ops lex) (Iterator1 := Cursor_ops lex) lex 7) es R /\
    forall b d, cursor_at bs b None -> cursor_at ds d None -> R (NewDeltaAmendIterator b d) None) /\
  (do! it := da_SeekToFirst (Iterator0 := Cursor_ops lex) (Iterator1 := Cursor_ops lex) lex 7
     (NewDeltaAmendIterator (mkCursor bs None) (mkCursor ds None)) in
   do! it := da_Next (Iterator0 := Cursor_ops lex) (Iterator1 := Cursor_ops lex) lex 7 it in
   do! it := da_Prev (Iterator0 := Cursor_ops lex) (Iterator1 := Cursor_ops lex) lex 7 it in
   Done (da_current (Iterator0 := Cursor_ops lex) (Iterator1 := Cursor_ops lex) it))%out = Done (Some ([98], [22])).
Proof.
  intros bs ds es. split; [|reflexivity].
  apply (DeltaAmend_amends (Iterator0 := Cursor_ops lex) (Iterator1 := Cursor_ops lex) lex bs ds (cursor_at bs) (cursor_at ds) es 7).
  - apply cursor_bidi.
  - apply cursor_bidi.
  - repeat first [apply SSorted_cons | apply SSorted_nil | apply Forall_cons_2 | apply Forall_nil_2 | reflexivity].
  - split; repeat first [apply SSorted_cons | apply SSorted_nil | apply Forall_cons_2 | apply Forall_nil_2 | reflexivity].
  - cbn. lia.
  - split; [repeat first [apply SSorted_cons | apply SSorted_nil | apply Forall_cons_2 | apply Forall_nil_2 | reflexivity]|].
    apply (bool_decide_unpack (_ ≡ₚ _)). vm_compute. exact Logic.I.
Defined.
