(* ===== verification/HashMap.v ===== *)
(** * HashMap

    src/core/hash-map-v2.h: the hash map under the unordered memory table and
    the cache.

    The nodes live in a store; a [Node *] is an index of it, and the buckets are
    the first [n_slots] nodes.  [Put] runs in turns, each of which reads or
    changes one arrow, as the loads and stores of the code do; the iterator
    walks along the arrows.  [machine] interleaves the turns of writers with
    those of readers: with one writer at a time a reader finds what was there
    when it began ([HashMap_reader_finds]); two writers may lose an entry
    ([two_writers_lose]). *)

From S2P Require Import Prelude Slice Keys Entries SkipList.

Record Node (K : Type) := mkNode { next_ : option nat; key_ : K }.
Arguments mkNode {K} _ _.
Arguments next_ {K} _.
Arguments key_ {K} _.

(** [buckets_] are the first [n_slots_] nodes of [nodes]. *)
Record HashMap (K : Type) := mkMap { n_slots_ : nat; nodes : list (Node K); n_entries_ : Z }.
Arguments mkMap {K} _ _ _.
Arguments n_slots_ {K} _.
Arguments nodes {K} _.
Arguments n_entries_ {K} _.

(** Where a [Put] is: it looks for the place of its node, with the node read
    last and the one behind it; it has found it; it swaps the arrow; it counts. *)
Inductive putting :=
  | Walking (node pp : nat) (p : option nat)
  | Reading (node pp : nat)
  | Swapping (node pp : nat) (old_val : option nat)
  | Counting.

(** [Iterator]: [slot_] and [node_] in the map. *)
Record HIterator := mkHI { slot_ : nat; node_ : option nat }.

Section hash_map.
Context {K : Type} (Key0 : K) (cmp : K -> K -> Z) (hash : K -> Z).

(** The buckets are filled with zeroes. *)
Definition NewHashMap (initial_slots : nat) : HashMap K := mkMap initial_slots (replicate initial_slots (mkNode None Key0)) 0.

Definition next (m : HashMap K) (x : nat) : option (option nat) := next_ <$> nodes m !! x.
Definition key_of (m : HashMap K) (x : nat) : option K := key_ <$> nodes m !! x.

Definition set_next (x : nat) (y : option nat) (m : HashMap K) : option (HashMap K) :=
  node ← nodes m !! x; Some (mkMap (n_slots_ m) (<[x := mkNode y (key_ node)]> (nodes m)) (n_entries_ m)).

(** [hash % n_slots_]; the remainder by 0 is not defined. *)
Definition slot_of (key : K) (m : HashMap K) : outcome nat :=
  if (n_slots_ m =? 0)%nat then Undef else Done (Z.to_nat (hash key mod Z.of_nat (n_slots_ m))).

(** [NewNode] *)
Definition NewNode (key : K) (m : HashMap K) : nat * HashMap K :=
  (length (nodes m), mkMap (n_slots_ m) (nodes m ++ [mkNode None key]) (n_entries_ m)).

(** [Put] up to its first loop. *)
Definition put_begin (key : K) (m : HashMap K) : outcome (HashMap K * putting) :=
  (do! slot := slot_of key m in
   let '(node, m) := NewNode key m in
   do! p := ofopt (next m slot) in
   Done (m, Walking node slot p))%out.

(** A turn of [Put]; it has ended when there is no state.  The second loop goes
    on as long as the exchange succeeds. *)
Definition put_turn (w : putting) (m : HashMap K) : outcome (HashMap K * option putting) :=
  (match w with
   | Walking node pp None => do! m := ofopt (set_next node None m) in Done (m, Some (Reading node pp))
   | Walking node pp (Some p) =>
     do! k := ofopt (key_of m p) in
     do! key := ofopt (key_of m node) in
     if 0 <=? cmp k key then do! m := ofopt (set_next node (Some p) m) in Done (m, Some (Reading node pp))
     else do! p' := ofopt (next m p) in Done (m, Some (Walking node p p'))
   | Reading node pp => do! old_val := ofopt (next m pp) in Done (m, Some (Swapping node pp old_val))
   | Swapping node pp old_val =>
     do! n := ofopt (next m pp) in
     if bool_decide (n = old_val) then do! m := ofopt (set_next pp (Some node) m) in Done (m, Some w)
     else Done (m, Some Counting)
   | Counting => Done (mkMap (n_slots_ m) (nodes m) (wrap 64 (n_entries_ m + 1)), None)
   end)%out.

Fixpoint put_turns (fuel : nat) (w : putting) (m : HashMap K) : outcome (HashMap K) :=
  match fuel with
  | O => OutOfFuel
  | S fuel =>
    (do! (m, w) := put_turn w m in
     match w with None => Done m | Some w => put_turns fuel w m end)%out
  end.

(** A chain has at most all nodes, and five turns follow. *)
Definition put_fuel (m : HashMap K) : nat := length (nodes m) + 6.

Definition Put (key : K) (m : HashMap K) : outcome (HashMap K) :=
  (do! (m, w) := put_begin key m in put_turns (put_fuel m) w m)%out.

(** The loop of [FindGreaterOrEqual] and [FindEqual]. *)
Fixpoint find (fuel : nat) (stop : Z -> bool) (key : K) (p : option nat) (m : HashMap K) : outcome (option nat) :=
  match p with
  | None => Done None
  | Some x =>
    match fuel with
    | O => OutOfFuel
    | S fuel =>
      (do! k := ofopt (key_of m x) in
       if stop (cmp k key) then Done (Some x)
       else do! p := ofopt (next m x) in find fuel stop key p m)%out
    end
  end.

Definition find_from (stop : Z -> bool) (key : K) (m : HashMap K) : outcome HIterator :=
  (do! index := slot_of key m in
   do! p := ofopt (next m index) in
   do! r := find (length (nodes m)) stop key p m in
   Done (match r with Some x => mkHI index (Some x) | None => mkHI (n_slots_ m) None end))%out.

Definition FindGreaterOrEqual : K -> HashMap K -> outcome HIterator := find_from (fun c => 0 <=? c).
Definition FindEqual : K -> HashMap K -> outcome HIterator := find_from (fun c => c =? 0).

(** *** The iterator *)

Definition NewHIterator (m : HashMap K) : HIterator := mkHI (n_slots_ m) None.
Definition hi_Valid (it : HIterator) (m : HashMap K) : bool := (slot_ it <? n_slots_ m)%nat && bool_decide (is_Some (node_ it)).
Definition hi_key (it : HIterator) (m : HashMap K) : option K := x ← node_ it; key_of m x.
Definition hi_Seek (key : K) (m : HashMap K) : outcome HIterator := FindGreaterOrEqual key m.
Definition hi_Seek2 (key : K) (m : HashMap K) : outcome HIterator := FindEqual key m.

(** The first bucket from [slot] on that is not empty; [n] are left. *)
Fixpoint first_bucket (n slot : nat) (m : HashMap K) : outcome (option (nat * nat)) :=
  match n with
  | O => Done None
  | S n =>
    (do! p := ofopt (next m slot) in
     match p with Some x => Done (Some (slot, x)) | None => first_bucket n (S slot) m end)%out
  end.

Definition hi_Next (it : HIterator) (m : HashMap K) : outcome HIterator :=
  (do! x := ofopt (node_ it) in
   do! p := ofopt (next m x) in
   match p with
   | Some y => Done (mkHI (slot_ it) (Some y))
   | None =>
     do! r := first_bucket (n_slots_ m - S (slot_ it)) (S (slot_ it)) m in
     Done (match r with Some (slot, y) => mkHI slot (Some y) | None => mkHI (Nat.max (S (slot_ it)) (n_slots_ m)) None end)
   end)%out.

(** On a map without entries the iterator stays where it is. *)
Definition hi_SeekToFirst (it : HIterator) (m : HashMap K) : outcome HIterator :=
  (do! r := first_bucket (n_slots_ m) 0 m in
   Done (match r with Some (slot, y) => mkHI slot (Some y) | None => it end))%out.

(** The keys of a loop [for (iter.SeekToFirst(); iter.Valid(); iter.Next())]. *)
Fixpoint hi_scan (fuel : nat) (it : HIterator) (m : HashMap K) : outcome (list K) :=
  if hi_Valid it m then
    match fuel with
    | O => OutOfFuel
    | S fuel =>
      (do! k := ofopt (hi_key it m) in
       do! it := hi_Next it m in
       do! ks := hi_scan fuel it m in Done (k :: ks))%out
    end
  else Done [].

Definition all_keys (m : HashMap K) : outcome (list K) :=
  (do! it := hi_SeekToFirst (NewHIterator m) m in hi_scan (length (nodes m)) it m)%out.
End hash_map.

(** ** Chains *)

Section chains.
Context {K : Type}.

(** From [x] on, the arrows visit the nodes [l] and end. *)
Fixpoint path (m : HashMap K) (x : nat) (l : list nat) : Prop :=
  match l with
  | [] => next m x = Some None
  | y :: l => next m x = Some (Some y) /\ path m y l
  end.

Lemma chain_app (m : HashMap K) x l k : path m x (l ++ k) -> path m (final x l) k.
Proof. revert x. induction l as [|y l IH]; intros x; [done|]. intros [_ H]. by apply IH. Qed.

Lemma chain_next (m : HashMap K) x l k : path m x (l ++ k) -> next m (final x l) = Some (head k).
Proof. intros H%chain_app. destruct k; [done|]. apply H. Qed.

Lemma chain_frame (m m' : HashMap K) x l : (forall y, y ∈ (x :: l) -> next m' y = next m y) -> path m x l -> path m' x l.
Proof.
  revert x. induction l as [|y l IH]; intros x Hs; cbn [path].
  - by rewrite Hs by (by left).
  - intros [Hn Hp]. rewrite Hs by (by left). split; [done|]. apply IH; [|done]. intros z Hz. apply Hs. by right.
Qed.

Lemma path_unique (m : HashMap K) x l k : path m x l -> path m x k -> l = k.
Proof.
  revert x k. induction l as [|y l IH]; intros x [|z k]; cbn [path]; try done.
  - intros E1 [E2 _]. congruence.
  - intros [E1 _] E2. congruence.
  - intros [E1 Hl] [E2 Hk]. assert (z = y) as -> by congruence. f_equal. by eapply IH.
Qed.

Lemma map_set_next_spec x y (m : HashMap K) :
  (x < length (nodes m))%nat ->
  exists m', set_next x y m = Some m' /\ n_slots_ m' = n_slots_ m /\ n_entries_ m' = n_entries_ m /\ length (nodes m') = length (nodes m) /\
    (forall z, key_of m' z = key_of m z) /\ (forall z, next m' z = if decide (z = x) then Some y else next m z).
Proof.
  intros [node Hn]%lookup_lt_is_Some_2. unfold set_next. rewrite Hn. cbn [mbind option_bind]. eexists. split; [reflexivity|]. cbn.
  split_and!; [done | done | apply length_insert | |].
  - intros z. unfold key_of. cbn. destruct (decide (z = x)) as [->|Hz]; [|by rewrite list_lookup_insert_ne].
    rewrite list_lookup_insert_eq by (by eapply lookup_lt_Some). by rewrite Hn.
  - intros z. unfold next. cbn. destruct (decide (z = x)) as [->|Hz]; [|by rewrite list_lookup_insert_ne].
    by rewrite list_lookup_insert_eq by (by eapply lookup_lt_Some).
Qed.

(** The chain of every bucket. *)
Record rep (m : HashMap K) (L : nat -> list nat) : Prop := {
  rep_length : (n_slots_ m <= length (nodes m))%nat;
  rep_path : forall i, (i < n_slots_ m)%nat -> path m i (L i);
  rep_nodes : forall i x, (i < n_slots_ m)%nat -> x ∈ L i -> (n_slots_ m <= x < length (nodes m))%nat;
  rep_nodup : forall i, (i < n_slots_ m)%nat -> NoDup (L i);
  rep_apart : forall i j x, (i < n_slots_ m)%nat -> (j < n_slots_ m)%nat -> x ∈ L i -> x ∈ L j -> i = j;
}.

Lemma rep_final m L i A B : rep m L -> (i < n_slots_ m)%nat -> L i = A ++ B -> (final i A < length (nodes m))%nat.
Proof.
  intros Hr Hi Hl. pose proof (rep_length _ _ Hr). destruct (final_in i A) as [->|Hin]; [lia|].
  apply (rep_nodes _ _ Hr i); [done|]. rewrite Hl. apply elem_of_app. by left.
Qed.

Lemma rep_short m L i : rep m L -> (i < n_slots_ m)%nat -> (length (L i) <= length (nodes m))%nat.
Proof.
  intros Hr Hi. assert (length (L i) <= length (seq 0 (length (nodes m))))%nat as Hl; [|by rewrite length_seq in Hl].
  apply NoDup_incl_length; [by apply NoDup_ListNoDup, (rep_nodup _ _ Hr)|].
  intros x Hx%list_elem_of_In%(rep_nodes _ _ Hr); [|done]. apply in_seq. lia.
Qed.

(** A node that no bucket has yet. *)
Definition fresh (m : HashMap K) (L : nat -> list nat) (x : nat) : Prop :=
  (n_slots_ m <= x < length (nodes m))%nat /\ forall i, (i < n_slots_ m)%nat -> x ∉ L i.

(** The buckets with the node [x] behind the nodes [A] of bucket [i]. *)
Definition inserted (L : nat -> list nat) (i x : nat) (A B : list nat) (j : nat) : list nat :=
  if decide (j = i) then A ++ x :: B else L j.

Lemma chain_insert (m m' : HashMap K) x p A B z :
  path m x (A ++ B) -> p = final x A -> next m z = Some (head B) -> NoDup (x :: A ++ B) -> z ∉ (x :: A ++ B) ->
  (forall y, next m' y = if decide (y = p) then Some (Some z) else next m y) -> path m' x (A ++ z :: B).
Proof.
  intros Hp -> Hz. revert x Hp. induction A as [|y A IH]; intros x; cbn [app path final foldl]; intros Hp Hnd Hn Hs.
  - split; [rewrite Hs; by rewrite decide_True|]. apply not_elem_of_cons in Hn as [Hzx Hzb].
    destruct B as [|b B]; cbn [path head] in *; rewrite Hs, decide_False by done; [done|]. split; [done|].
    apply (chain_frame m); [|apply Hp]. intros y Hy. rewrite Hs, decide_False; [done|]. intros ->. by apply NoDup_cons in Hnd as [? _].
  - destruct Hp as [Hxy Hp]. apply not_elem_of_cons in Hn as [Hzx Hn]. split.
    + rewrite Hs, decide_False; [done|]. apply NoDup_cons in Hnd as [Hx _]. intros ->. apply Hx.
      change (foldl _ y A) with (final y A).
      destruct (final_in y A) as [E|E]; [rewrite E; by left | right; apply elem_of_app; by left].
    + apply IH; try done. by apply NoDup_cons in Hnd as [_ ?].
Qed.

(** The exchange puts a node that points to the rest of the chain into it. *)
Lemma insert_rep m m' L i z A B :
  rep m L -> fresh m L z -> (i < n_slots_ m)%nat -> L i = A ++ B -> next m z = Some (head B) ->
  n_slots_ m' = n_slots_ m -> length (nodes m') = length (nodes m) ->
  (forall y, next m' y = if decide (y = final i A) then Some (Some z) else next m y) -> rep m' (inserted L i z A B).
Proof.
  intros Hr [Hz Hfr] Hi Hl Hnz Es El Hs.
  assert (Hin : forall j x, (j < n_slots_ m)%nat -> x ∈ inserted L i z A B j -> (x = z /\ j = i) \/ x ∈ L j).
  { intros j x Hj. unfold inserted. case_decide as Ej; [|by right]. subst j. rewrite Hl, elem_of_app, elem_of_cons, elem_of_app. tauto. }
  assert (Hnot : z ∉ (i :: A ++ B)) by (rewrite <- Hl; apply not_elem_of_cons; split; [lia | by apply Hfr]).
  assert (Hnd : NoDup (i :: A ++ B)).
  { rewrite <- Hl. constructor; [|by apply (rep_nodup _ _ Hr)]. intros Hx%(rep_nodes _ _ Hr); [lia | done]. }
  split; rewrite ?Es, ?El.
  - apply (rep_length _ _ Hr).
  - intros j Hj. unfold inserted. case_decide as Ej.
    + subst j. eapply chain_insert; [rewrite <- Hl; by apply (rep_path _ _ Hr) | reflexivity | done | done | done | done].
    + apply (chain_frame m); [|by apply (rep_path _ _ Hr)]. intros y Hy. rewrite Hs, decide_False; [done|]. intros ->.
      apply elem_of_cons in Hy as [Hy|Hy].
      * destruct (final_in i A) as [E|E]; [congruence|]. rewrite Hy in E.
        pose proof (rep_nodes _ _ Hr i j Hi ltac:(rewrite Hl; apply elem_of_app; by left)). lia.
      * destruct (final_in i A) as [E|E].
        -- rewrite E in Hy. pose proof (rep_nodes _ _ Hr j i Hj Hy). lia.
        -- apply Ej. symmetry. apply (rep_apart _ _ Hr i j (final i A)); try done. rewrite Hl. apply elem_of_app. by left.
  - intros j x Hj [[-> _]|Hx]%Hin; [done | by apply (rep_nodes _ _ Hr j) | done].
  - intros j Hj. unfold inserted. case_decide as Ej; [|by apply (rep_nodup _ _ Hr)]. subst j.
    apply NoDup_cons in Hnd as [_ Hnd]. apply not_elem_of_cons in Hnot as [_ Hnot]. rewrite <- Permutation_middle. by constructor.
  - intros j k x Hj Hk [[-> ->]|Hx]%Hin [[E ->]|Hy]%Hin; try done.
    + by destruct (Hfr k Hk).
    + subst x. by destruct (Hfr j Hj).
    + by apply (rep_apart _ _ Hr j k x).
Qed.
End chains.

(** ** Sorted chains *)

(** The buckets 0, …, n - 1 one after the other. *)
Definition in_buckets {A} (qs : nat -> list A) (n : nat) : list A := concat (map qs (seq 0 n)).

Lemma buckets_put {A} (qs : nat -> list A) i q p n :
  (i < n)%nat -> q ≡ₚ p :: qs i -> in_buckets (fun j => if decide (j = i) then q else qs j) n ≡ₚ p :: in_buckets qs n.
Proof.
  unfold in_buckets. intros Hi Hq. replace n with (i + S (n - S i))%nat by lia. rewrite seq_app, !map_app, !concat_app. cbn [seq map concat].
  rewrite !Nat.add_0_l, decide_True by done.
  assert (E : forall s k, (forall j, j ∈ seq s k -> j <> i) -> map (fun j => if decide (j = i) then q else qs j) (seq s k) = map qs (seq s k)).
  { intros s k Hs. apply map_ext_in. intros j Hj%list_elem_of_In. rewrite decide_False; [done | by apply Hs]. }
  rewrite !E.
  - rewrite Hq. cbn [app]. rewrite <- Permutation_middle. done.
  - intros j Hj%list_elem_of_In%in_seq. lia.
  - intros j Hj%list_elem_of_In%in_seq. lia.
Qed.

Lemma elem_of_buckets {A} (qs : nat -> list A) n p : p ∈ in_buckets qs n <-> exists i, (i < n)%nat /\ p ∈ qs i.
Proof.
  unfold in_buckets. rewrite list_elem_of_In, in_concat. split.
  - intros (l & (i & <- & Hi%in_seq)%in_map_iff & Hp). exists i. split; [lia | by apply list_elem_of_In].
  - intros (i & Hi & Hp). exists (qs i). split; [apply in_map_iff; exists i; split; [done | apply in_seq; lia] | by apply list_elem_of_In].
Qed.

Section ordered.
Context {K : Type} (bytes_of : K -> bytes) (cmp : bytes -> bytes -> Z) (hash : K -> Z) `{!ComparatorLaws cmp}.

#[local] Abbreviation compare := (compare_by bytes_of cmp).
#[local] Abbreviation put_keys := (put_keys bytes_of cmp).
#[local] Abbreviation keys_lt := (keys_lt bytes_of cmp).
#[local] Abbreviation keys_ge := (keys_ge bytes_of cmp).

Definition key_le (a b : K) : Prop := compare a b <= 0.

(** The buckets hold the keys [ks], in this order, each in its own. *)
Record holds (m : HashMap K) (L : nat -> list nat) (ks : nat -> list K) : Prop := {
  ho_rep : rep m L;
  ho_keys : forall i, (i < n_slots_ m)%nat -> map (key_of m) (L i) = map Some (ks i);
  ho_sorted : forall i, (i < n_slots_ m)%nat -> StronglySorted key_le (ks i);
  ho_slots : forall i k, (i < n_slots_ m)%nat -> k ∈ ks i -> slot_of hash k m = Done i;
}.

Definition put_at (i : nat) (key : K) (ks : nat -> list K) (j : nat) : list K :=
  if decide (j = i) then put_keys key (ks i) else ks j.

(** Whether the key of a node is below [key]. *)
Definition before (m : HashMap K) (key : K) (x : nat) : Prop := exists k, key_of m x = Some k /\ compare k key < 0.

Lemma slot_of_lt key (m : HashMap K) i : slot_of hash key m = Done i -> (i < n_slots_ m)%nat.
Proof.
  unfold slot_of. destruct (Nat.eqb_spec (n_slots_ m) 0); [done|]. intros [= <-].
  pose proof (Z.mod_pos_bound (hash key) (Z.of_nat (n_slots_ m)) ltac:(lia)). lia.
Qed.

Lemma slot_of_same key (m m' : HashMap K) : n_slots_ m' = n_slots_ m -> slot_of hash key m' = slot_of hash key m.
Proof. unfold slot_of. by intros ->. Qed.

Lemma slot_of_done key (m : HashMap K) : (0 < n_slots_ m)%nat -> exists i, slot_of hash key m = Done i.
Proof. intros Hn. unfold slot_of. destruct (Nat.eqb_spec (n_slots_ m) 0); [lia|]. eauto. Qed.

(** A list of nodes that is cut where the keys are no longer below [key]. *)
Lemma below_keys (m : HashMap K) key A ka :
  Forall (before m key) A -> map (key_of m) A = map Some ka -> Forall (fun k => compare k key < 0) ka.
Proof.
  intros Ha. revert ka. induction Ha as [|x A (k0 & Hk0 & Hlt) _ IH]; intros [|k ka] Ea; try done; cbn in Ea.
  injection Ea as E1 E2. constructor; [|by apply IH]. by assert (k0 = k) as -> by congruence.
Qed.

Lemma above_keys (m : HashMap K) key B kb :
  map (key_of m) B = map Some kb -> StronglySorted key_le kb -> (forall y, head B = Some y -> ~ before m key y) ->
  Forall (fun k => 0 <= compare k key) kb.
Proof.
  intros Eb Hs Hb. destruct kb as [|k kb]; [constructor|]. destruct B as [|y B]; [done|]. cbn in Eb. injection Eb as E1 _.
  assert (H0 : 0 <= compare k key).
  { destruct (Z.lt_ge_cases (compare k key) 0) as [Hl|]; [|done]. by destruct (Hb y eq_refl); exists k. }
  apply StronglySorted_inv in Hs as [_ Hs]. constructor; [done|]. eapply Forall_impl; [exact Hs|]. intros q Hq.
  unfold key_le, compare_by in *. destruct (Z.lt_ge_cases (cmp (bytes_of q) (bytes_of key)) 0) as [Hl|]; [|done].
  pose proof (cmp_le_lt_trans cmp _ _ _ Hq Hl). lia.
Qed.

Lemma keys_cut key ka kb :
  Forall (fun k => compare k key < 0) ka -> Forall (fun k => 0 <= compare k key) kb ->
  keys_lt key (ka ++ kb) = ka /\ keys_ge key (ka ++ kb) = kb.
Proof.
  intros Ha Hb. unfold SkipList.keys_lt, SkipList.keys_ge. rewrite !filter_app. split.
  - rewrite filter_all, filter_none, app_nil_r; [done|..]; eapply Forall_impl; try done; cbn; lia.
  - rewrite filter_none, filter_all; [done|..]; eapply Forall_impl; try done; cbn; lia.
Qed.

Lemma cut_keys (m : HashMap K) key A B ks :
  map (key_of m) (A ++ B) = map Some ks -> StronglySorted key_le ks -> Forall (before m key) A ->
  (forall y, head B = Some y -> ~ before m key y) ->
  map (key_of m) A = map Some (keys_lt key ks) /\ map (key_of m) B = map Some (keys_ge key ks).
Proof.
  intros Hk Hs Ha Hb. rewrite map_app in Hk. symmetry in Hk. apply map_eq_app in Hk as (ka & kb & -> & Ea & Eb).
  symmetry in Ea, Eb. assert (Hsb : StronglySorted key_le kb) by (clear -Hs; induction ka; cbn in Hs; [done | apply StronglySorted_inv in Hs as [? _]; auto]).
  destruct (keys_cut key ka kb) as [-> ->]; [by eapply below_keys | by eapply above_keys | done].
Qed.

Lemma put_keys_le key ks : StronglySorted key_le ks -> StronglySorted key_le (put_keys key ks).
Proof.
  intros Hs. unfold SkipList.put_keys, SkipList.keys_lt, SkipList.keys_ge. induction Hs as [|k ks Hs IH Hk]; [by repeat constructor|].
  rewrite !filter_cons. destruct (Z.ltb_spec (compare k key) 0) as [Hlt|Hge].
  - rewrite decide_True, decide_False by done. cbn [app]. constructor; [exact IH|]. apply Forall_app. split; [by apply Forall_filter|].
    constructor; [unfold key_le; lia | by apply Forall_filter].
  - rewrite decide_False, decide_True by done.
    assert (Hnone : filter (fun k0 => (compare k0 key <? 0) = true) ks = []).
    { apply filter_none. eapply Forall_impl; [exact Hk|]. intros q Hq Hx%Z.ltb_lt. unfold key_le, compare_by in *.
      pose proof (cmp_le_lt_trans cmp _ _ _ Hq Hx). lia. }
    rewrite Hnone in *. cbn [app] in *. apply StronglySorted_inv in IH as [IH _].
    assert (Hkk : key_le key k) by (unfold key_le, compare_by in *; by apply cmp_ge).
    constructor; [constructor; [done | by apply Forall_filter]|]. constructor; [done|].
    eapply Forall_impl; [apply Forall_filter; exact Hk|]. intros q Hq. unfold key_le, compare_by in *. by eapply cmp_trans.
Qed.

Lemma elem_of_put_keys key ks k : k ∈ put_keys key ks <-> k = key \/ k ∈ ks.
Proof.
  unfold SkipList.put_keys, SkipList.keys_lt, SkipList.keys_ge. rewrite elem_of_app, elem_of_cons, !list_elem_of_filter.
  split; [tauto|]. intros [->|Hin]; [tauto|]. destruct (compare k key <? 0); auto.
Qed.

(** *** Putting a key *)

(** Where a [Put] of [key] in bucket [i] is, with the turns that are left but
    those of the first loop: it has swapped the arrow when less than three are. *)
Inductive writing (m : HashMap K) (L : nat -> list nat) (i : nat) (key : K) : nat -> putting -> Prop :=
  | writing_walks node A B :
      fresh m L node -> key_of m node = Some key -> L i = A ++ B -> Forall (before m key) A ->
      writing m L i key (5 + length B) (Walking node (final i A) (head B))
  | writing_reads node A B :
      fresh m L node -> key_of m node = Some key -> L i = A ++ B -> Forall (before m key) A ->
      (forall y, head B = Some y -> ~ before m key y) -> next m node = Some (head B) ->
      writing m L i key 4 (Reading node (final i A))
  | writing_swaps node A B :
      fresh m L node -> key_of m node = Some key -> L i = A ++ B -> Forall (before m key) A ->
      (forall y, head B = Some y -> ~ before m key y) -> next m node = Some (head B) ->
      writing m L i key 3 (Swapping node (final i A) (head B))
  | writing_swapped node pp old_val :
      next m pp = Some (Some node) -> old_val <> Some node ->
      writing m L i key 2 (Swapping node pp old_val)
  | writing_counts : writing m L i key 1 Counting.

Lemma before_same (m m' : HashMap K) key x : (forall z, key_of m' z = key_of m z) -> before m' key x <-> before m key x.
Proof. intros E. unfold before. by setoid_rewrite E. Qed.

Lemma fresh_not_final (m : HashMap K) L i node A B : rep m L -> fresh m L node -> (i < n_slots_ m)%nat -> L i = A ++ B -> node <> final i A.
Proof.
  intros Hr [Hn Hf] Hi Hl ->. destruct (final_in i A) as [E|E]; [lia|]. apply (Hf i Hi). rewrite Hl. apply elem_of_app. by left.
Qed.

(** The arrow of a node that no bucket has. *)
Lemma set_fresh (m m' : HashMap K) L ks node y :
  holds m L ks -> fresh m L node -> set_next node y m = Some m' ->
  holds m' L ks /\ fresh m' L node /\ (forall z, key_of m' z = key_of m z) /\ n_slots_ m' = n_slots_ m /\ n_entries_ m' = n_entries_ m /\
  next m' node = Some y.
Proof.
  intros [Hr Hk Hs Hb] [Hn Hf] Hset. destruct (map_set_next_spec node y m ltac:(lia)) as (m1 & E & Es & Ee & El & Ek & En).
  rewrite E in Hset. injection Hset as ->. split_and!; try done.
  - split.
    + destruct Hr as [R1 R2 R3 R4 R5]. split; rewrite ?Es, ?El; try done. intros i Hi. apply (chain_frame m); [|by apply R2].
      intros x Hx. rewrite En, decide_False; [done|]. intros ->. apply elem_of_cons in Hx as [->|Hx]; [lia | by apply (Hf i)].
    + intros i. rewrite Es. intros Hi. rewrite (map_ext _ _ Ek). by apply Hk.
    + intros i. rewrite Es. apply Hs.
    + intros i k. rewrite Es. intros Hi Hin. rewrite (slot_of_same k m) by done. by apply Hb.
  - split; rewrite Es, ?El; done.
  - by rewrite En, decide_True.
Qed.

(** What a turn leaves: the same buckets, or those with the node. *)
Definition turned (m : HashMap K) (L : nat -> list nat) (ks : nat -> list K) (i : nat) (key : K) (n n' : nat) (m' : HashMap K) (w' : putting) : Prop :=
  (n <> 3)%nat /\ (n' < 3 <-> n < 3)%nat /\ holds m' L ks /\ writing m' L i key n' w' \/
  (n = 3)%nat /\ (n' = 2)%nat /\ exists node A B, fresh m L node /\ L i = A ++ B /\
    holds m' (inserted L i node A B) (put_at i key ks) /\ writing m' (inserted L i node A B) i key n' w'.

Lemma put_turn_ok (m : HashMap K) L ks i key n w :
  holds m L ks -> slot_of hash key m = Done i -> writing m L i key n w ->
  exists m' w', put_turn compare w m = Done (m', w') /\ n_slots_ m' = n_slots_ m /\ (forall z, key_of m' z = key_of m z) /\
    match w' with
    | None => n = 1%nat /\ n_entries_ m' = wrap 64 (n_entries_ m + 1) /\ holds m' L ks
    | Some w' => n_entries_ m' = n_entries_ m /\ exists n', (n' < n)%nat /\
        turned m L ks i key n n' m' w'
    end.
Proof.
  intros Hh Hslot Hw. pose proof (slot_of_lt _ _ _ Hslot) as Hi. pose proof (ho_rep _ _ _ Hh) as Hr.
  destruct Hw as [node A B Hf Hkey Hl HA|node A B Hf Hkey Hl HA HB Hn|node A B Hf Hkey Hl HA HB Hn|node pp old_val Hpp Hold|].
  - (* the first loop *)
    assert (Hstop : forall m1 y, set_next node y m = Some m1 -> y = head B -> (forall y0, head B = Some y0 -> ~ before m key y0) ->
      exists n', (n' < 5 + length B)%nat /\ turned m L ks i key (5 + length B) n' m1 (Reading node (final i A))).
    { intros m1 y Hset -> HB. destruct (set_fresh m m1 L ks node (head B) Hh Hf Hset) as (Hh1 & Hf1 & Ek1 & Es1 & Ee1 & En1).
      exists 4%nat. split; [lia|]. left. split_and!; [lia | lia | done |]. apply (writing_reads _ _ _ _ node A B); try done.
      - by rewrite Ek1.
      - eapply Forall_impl; [exact HA|]. intros x. apply before_same. intros z. by rewrite Ek1.
      - intros y0 Hy0 Hx. apply (HB y0 Hy0). by apply (before_same m1 m). }
    assert (Hset : forall y, exists m1, set_next node y m = Some m1).
    { intros y. destruct (map_set_next_spec node y m) as (m1 & E & _); [|by exists m1]. destruct Hf as [Hf _]. lia. }
    destruct B as [|y B]; cbn [head put_turn].
    + destruct (Hset None) as [m1 E1]. rewrite E1. cbn [ofopt obind]. eexists _, _. split; [reflexivity|].
      destruct (set_fresh m m1 L ks node None Hh Hf E1) as (_ & _ & Ek1 & Es1 & Ee1 & _). split_and!; [done | intros z; by rewrite Ek1 | done |].
      by apply (Hstop m1 None).
    + assert (Hky : exists ky, key_of m y = Some ky).
      { pose proof (ho_keys _ _ _ Hh i Hi) as Hk. rewrite Hl, map_app in Hk. symmetry in Hk. apply map_eq_app in Hk as (ka & kb & _ & _ & Eb).
        destruct kb as [|ky kb]; [done|]. cbn in Eb. injection Eb as Eb _. by exists ky. }
      destruct Hky as [ky Eky]. rewrite Eky, Hkey. cbn [ofopt obind]. destruct (Z.leb_spec 0 (compare ky key)) as [Hge|Hlt].
      * destruct (Hset (Some y)) as [m1 E1]. rewrite E1. cbn [ofopt obind]. eexists _, _. split; [reflexivity|].
        destruct (set_fresh m m1 L ks node (Some y) Hh Hf E1) as (_ & _ & Ek1 & Es1 & Ee1 & _). split_and!; [done | intros z; by rewrite Ek1 | done |].
        apply (Hstop m1 (Some y)); [done | done |]. intros y0 [= <-] (k0 & Hk0 & Hlt). assert (k0 = ky) as -> by congruence. lia.
      * assert (Hl' : L i = (A ++ [y]) ++ B) by (by rewrite <- app_assoc).
        assert (Hny : next m y = Some (head B)).
        { pose proof (chain_next m i (A ++ [y]) B) as Hp. rewrite <- Hl' in Hp. specialize (Hp (rep_path _ _ Hr i Hi)).
          unfold final in Hp. by rewrite foldl_snoc in Hp. }
        rewrite Hny. cbn [ofopt obind]. eexists _, _. split; [reflexivity|]. split_and!; [done | done | done |].
        exists (5 + length B)%nat. split; [cbn; lia|]. left. split_and!; [cbn; lia | cbn; lia | done |].
        replace y with (final i (A ++ [y])) at 1 by (unfold final; by rewrite foldl_snoc).
        apply writing_walks; try done. apply Forall_app. split; [done|]. constructor; [by exists ky | constructor].
  - (* the arrow is read *)
    cbn [put_turn]. pose proof (chain_next m i A B) as Hp. rewrite <- Hl in Hp. rewrite (Hp (rep_path _ _ Hr i Hi)). cbn [ofopt obind].
    eexists _, _. split; [reflexivity|]. split_and!; [done | done | done |]. exists 3%nat. split; [lia|]. left. split_and!; [lia | lia | done |].
    by apply writing_swaps.
  - (* the arrow is swapped *)
    cbn [put_turn]. pose proof (chain_next m i A B) as Hp. rewrite <- Hl in Hp. rewrite (Hp (rep_path _ _ Hr i Hi)). cbn [ofopt obind].
    rewrite bool_decide_eq_true_2 by done. pose proof (rep_final m L i A B Hr Hi Hl) as Hfin.
    destruct (map_set_next_spec (final i A) (Some node) m Hfin) as (m1 & E1 & Es & Ee & El & Ek & En). rewrite E1. cbn [ofopt obind].
    eexists _, _. split; [reflexivity|]. split_and!; [done | intros z; by rewrite Ek | done |]. exists 2%nat. split; [lia|]. right. split_and!; [done | done |].
    exists node, A, B. split_and!; [done | done | |].
    + split.
      * by eapply insert_rep.
      * intros j. rewrite Es. intros Hj. unfold inserted, put_at. case_decide as Ej; [|rewrite (map_ext _ _ Ek); by apply (ho_keys _ _ _ Hh)].
        subst j. rewrite (map_ext _ _ Ek). pose proof (ho_keys _ _ _ Hh i Hi) as Hk. rewrite Hl in Hk.
        destruct (cut_keys m key A B (ks i) Hk (ho_sorted _ _ _ Hh i Hi) HA HB) as [Ea Eb].
        unfold SkipList.put_keys. rewrite !map_app. cbn [map]. by rewrite Ea, Eb, Hkey.
      * intros j. rewrite Es. intros Hj. unfold put_at. case_decide; [subst j; apply put_keys_le|]; by apply (ho_sorted _ _ _ Hh).
      * intros j k. rewrite Es, (slot_of_same k m) by done. intros Hj. unfold put_at. case_decide; [subst j|by apply (ho_slots _ _ _ Hh)].
        intros [->|Hin]%elem_of_put_keys; [done | by apply (ho_slots _ _ _ Hh)].
    + apply writing_swapped; [by rewrite En, decide_True|]. intros Hx. destruct Hf as [_ Hf]. apply (Hf i Hi). rewrite Hl.
      destruct B as [|y B]; [done|]. cbn in Hx. injection Hx as ->. apply elem_of_app. right. by left.
  - (* the exchange fails *)
    cbn [put_turn]. rewrite Hpp. cbn [ofopt obind]. rewrite bool_decide_eq_false_2 by congruence. eexists _, _. split; [reflexivity|].
    split_and!; [done | done | done |]. exists 1%nat. split; [lia|]. left. split_and!; [lia | lia | done | constructor].
  - cbn [put_turn]. eexists _, None. split; [reflexivity|]. split_and!; [done | done | done | done |].
    destruct Hh as [[R1 R2 R3 R4 R5] H2 H3 H4]. split; try done. split; try done. intros j Hj. apply (chain_frame m); [done | by apply R2].
Qed.

Lemma put_turns_ok fuel m L ks i key n w :
  holds m L ks -> slot_of hash key m = Done i -> writing m L i key n w -> (n <= fuel)%nat ->
  exists m' L', put_turns compare fuel w m = Done m' /\ n_slots_ m' = n_slots_ m /\ n_entries_ m' = wrap 64 (n_entries_ m + 1) /\
    holds m' L' (if decide (n < 3)%nat then ks else put_at i key ks).
Proof.
  revert m L ks n w. induction fuel as [|fuel IH]; intros m L ks n w Hh Hs Hw Hn; [destruct Hw; lia|].
  destruct (put_turn_ok m L ks i key n w Hh Hs Hw) as (m1 & w1 & E1 & Es1 & Ek1 & Hnext). cbn [put_turns]. rewrite E1. cbn [obind].
  destruct w1 as [w1|].
  - destruct Hnext as (Ee1 & n1 & Hn1 & Ht). assert (Hs1 : slot_of hash key m1 = Done i) by (by rewrite (slot_of_same key m)).
    destruct Ht as [(Hn3 & Hiff & Hh1 & Hw1)|(-> & -> & node & A & B & _ & _ & Hh1 & Hw1)].
    + destruct (IH m1 L ks n1 w1 Hh1 Hs1 Hw1 ltac:(lia)) as (m' & L' & -> & Es' & Ee' & Hh'). exists m', L'. rewrite Es', Ee', Es1, Ee1.
      split_and!; [done..|]. destruct (decide (n1 < 3)%nat), (decide (n < 3)%nat); (done || lia).
    + destruct (IH m1 _ _ 2%nat w1 Hh1 Hs1 Hw1 ltac:(lia)) as (m' & L' & -> & Es' & Ee' & Hh'). exists m', L'. rewrite Es', Ee', Es1, Ee1.
      rewrite decide_True in Hh' by lia. rewrite decide_False by lia. done.
  - destruct Hnext as (-> & Ee1 & Hh1). exists m1, L. rewrite decide_True by lia. done.
Qed.

Lemma map_New_holds Key0 n : holds (NewHashMap Key0 n) (fun _ => []) (fun _ => []).
Proof.
  split; cbn; try done; [|by intros; constructor | by intros i k _ ?%not_elem_of_nil].
  split; cbn; try done; [by rewrite length_replicate | | by intros i x _ ?%not_elem_of_nil | by intros; constructor | by intros i j x _ _ ?%not_elem_of_nil].
  intros i Hi. unfold next. cbn. by rewrite lookup_replicate_2.
Qed.

(** A node with the key is there, without an arrow, and the walk begins. *)
Lemma put_begin_ok m L ks i key :
  holds m L ks -> slot_of hash key m = Done i ->
  exists m' w, put_begin hash key m = Done (m', w) /\ n_slots_ m' = n_slots_ m /\ n_entries_ m' = n_entries_ m /\
    holds m' L ks /\ writing m' L i key (5 + length (L i)) w /\ length (nodes m') = S (length (nodes m)).
Proof.
  intros [Hr Hk Hs Hb] Hslot. pose proof (slot_of_lt _ _ _ Hslot) as Hi. pose proof (rep_length _ _ Hr) as Hlen. unfold put_begin. rewrite Hslot. cbn [obind NewNode].
  set (m1 := mkMap (n_slots_ m) (nodes m ++ [mkNode None key]) (n_entries_ m)).
  assert (Hold : forall x, (x < length (nodes m))%nat -> next m1 x = next m x /\ key_of m1 x = key_of m x)
    by (intros x Hx; unfold next, key_of, m1; cbn; by rewrite !lookup_app_l).
  assert (Hpath : forall j, (j < n_slots_ m)%nat -> path m1 j (L j)).
  { intros j Hj. apply (chain_frame m); [|by apply (rep_path _ _ Hr)]. intros x [->|Hx]%elem_of_cons; apply Hold; [lia|].
    by apply (rep_nodes _ _ Hr j). }
  pose proof (chain_next m1 i [] (L i) (Hpath i Hi)) as Hn. cbn in Hn. rewrite Hn. cbn [ofopt obind].
  exists m1, (Walking (length (nodes m)) (final i []) (head (L i))). split_and!; try done.
  - split; cbn [n_slots_ m1]; try done.
    + destruct Hr as [R1 R2 R3 R4 R5]. split; cbn [n_slots_ nodes m1]; rewrite ?length_app; cbn [length]; try done; [lia|].
      intros j x Hj Hx. specialize (R3 j x Hj Hx). lia.
    + intros j Hj. rewrite <- Hk by done. apply map_ext_in. intros x Hx%list_elem_of_In. apply Hold. by apply (rep_nodes _ _ Hr j).
  - apply (writing_walks _ _ _ _ _ [] (L i)); [| |done|constructor].
    + split; [cbn; rewrite length_app; cbn; lia|]. cbn [n_slots_ m1]. intros j Hj Hx%(rep_nodes _ _ Hr); [lia | done].
    + unfold key_of, m1. cbn. by rewrite lookup_app_r, Nat.sub_diag.
  - cbn. rewrite length_app. cbn. lia.
Qed.

Lemma map_Put_holds m L ks key :
  holds m L ks -> (0 < n_slots_ m)%nat ->
  exists i m' L', slot_of hash key m = Done i /\ Put compare hash key m = Done m' /\ n_slots_ m' = n_slots_ m /\
    n_entries_ m' = wrap 64 (n_entries_ m + 1) /\ holds m' L' (put_at i key ks).
Proof.
  intros Hh Hn. destruct (slot_of_done key m Hn) as [i Hi]. destruct (put_begin_ok m L ks i key Hh Hi) as (m1 & w & E1 & Es1 & Ee1 & Hh1 & Hw & Hl).
  pose proof (rep_short m L i (ho_rep _ _ _ Hh) (slot_of_lt _ _ _ Hi)) as Hshort.
  destruct (put_turns_ok (put_fuel m1) m1 L ks i key _ w Hh1 ltac:(by rewrite (slot_of_same key m)) Hw) as (m' & L' & E2 & Es2 & Ee2 & Hh2).
  { unfold put_fuel. lia. }
  exists i, m', L'. unfold Put. rewrite E1. cbn [obind]. rewrite E2, Es2, Ee2, Es1, Ee1. rewrite decide_False in Hh2 by lia. done.
Qed.

(** *** Searching *)

Lemma find_spec (stop : Z -> bool) key m x l ks fuel :
  path m x l -> map (key_of m) l = map Some ks -> (length l <= fuel)%nat ->
  exists r, find compare fuel stop key (head l) m = Done r /\
    match r with
    | None => Forall (fun k => stop (compare k key) = false) ks
    | Some y => exists A B ka k kb, l = A ++ y :: B /\ ks = ka ++ k :: kb /\ map (key_of m) A = map Some ka /\ key_of m y = Some k /\
        Forall (fun k => stop (compare k key) = false) ka /\ stop (compare k key) = true
    end.
Proof.
  revert x ks fuel. induction l as [|y l IH]; intros x [|k ks] fuel Hp Hk Hf; try done.
  - exists None. split; [|constructor]. by destruct fuel.
  - cbn [map] in Hk. injection Hk as Hy Hk. destruct Hp as [_ Hp]. destruct fuel as [|fuel]; cbn in Hf; [lia|]. cbn [head find]. rewrite Hy. cbn [ofopt obind].
    destruct (stop (compare k key)) eqn:Es.
    + exists (Some y). split; [done|]. by exists [], l, [], k, ks.
    + pose proof (chain_next m y [] l Hp) as Hn. cbn in Hn. rewrite Hn. cbn [ofopt obind].
      destruct (IH y ks fuel Hp Hk ltac:(lia)) as (r & -> & Hr). exists r. split; [done|]. destruct r as [z|]; [|by constructor].
      destruct Hr as (A & B & ka & k' & kb & -> & -> & Ea & Ez & Hka & Hk'). exists (y :: A), B, (k :: ka), k', kb. cbn. rewrite Ea, Hy. split_and!; try done. by constructor.
Qed.

Lemma find_from_spec (stop : Z -> bool) key m L ks i :
  holds m L ks -> slot_of hash key m = Done i ->
  exists r, find_from compare hash stop key m = Done (match r with Some x => mkHI i (Some x) | None => mkHI (n_slots_ m) None end) /\
    match r with
    | None => Forall (fun k => stop (compare k key) = false) (ks i)
    | Some y => exists A B ka k kb, L i = A ++ y :: B /\ ks i = ka ++ k :: kb /\ map (key_of m) A = map Some ka /\ key_of m y = Some k /\
        Forall (fun k => stop (compare k key) = false) ka /\ stop (compare k key) = true
    end.
Proof.
  intros Hh Hi. pose proof (slot_of_lt _ _ _ Hi) as Hlt. pose proof (rep_path _ _ (ho_rep _ _ _ Hh) i Hlt) as Hp. unfold find_from. rewrite Hi. cbn [obind].
  pose proof (chain_next m i [] (L i) Hp) as Hn. cbn in Hn. rewrite Hn. cbn [ofopt obind].
  destruct (find_spec stop key m i (L i) (ks i) (length (nodes m)) Hp (ho_keys _ _ _ Hh i Hlt) (rep_short _ _ _ (ho_rep _ _ _ Hh) Hlt)) as (r & -> & Hr).
  exists r. done.
Qed.

(** *** Walking through the map *)

(** The nodes of the buckets from [s] on. *)
Definition nodes_from (m : HashMap K) (L : nat -> list nat) (s : nat) : list nat := concat (map L (seq s (n_slots_ m - s))).

Lemma nodes_from_S (m : HashMap K) L s : (s < n_slots_ m)%nat -> nodes_from m L s = L s ++ nodes_from m L (S s).
Proof. intros Hs. unfold nodes_from. by replace (n_slots_ m - s)%nat with (S (n_slots_ m - S s)) by lia. Qed.

Lemma first_bucket_spec m L n s :
  rep m L -> (s + n = n_slots_ m)%nat ->
  exists r, first_bucket n s m = Done r /\
    match r with
    | None => nodes_from m L s = []
    | Some (t, y) => (s <= t < n_slots_ m)%nat /\ exists l, L t = y :: l /\ nodes_from m L s = (y :: l) ++ nodes_from m L (S t)
    end.
Proof.
  intros Hr. revert s. induction n as [|n IH]; intros s Hs.
  - exists None. split; [done|]. unfold nodes_from. by replace (n_slots_ m - s)%nat with 0%nat by lia.
  - cbn [first_bucket]. pose proof (rep_path _ _ Hr s ltac:(lia)) as Hp. pose proof (chain_next m s [] (L s) Hp) as Hn. cbn in Hn. rewrite Hn. cbn [ofopt obind].
    rewrite nodes_from_S by lia. destruct (L s) as [|y l] eqn:El; cbn [head].
    + destruct (IH (S s) ltac:(lia)) as (r & -> & Hr'). exists r. split; [done|]. destruct r as [[t y]|]; [|done].
      destruct Hr' as [Ht (l & Hl & E)]. split; [lia|]. exists l. done.
    + exists (Some (s, y)). split; [done|]. split; [lia|]. exists l. done.
Qed.

Lemma scan_spec m L fuel s A y B ks :
  rep m L -> (s < n_slots_ m)%nat -> L s = A ++ y :: B -> map (key_of m) (y :: B ++ nodes_from m L (S s)) = map Some ks ->
  (length ks <= fuel)%nat -> hi_scan fuel (mkHI s (Some y)) m = Done ks.
Proof.
  intros Hr. revert s A y B ks. induction fuel as [|fuel IH]; intros s A y B [|k ks] Hs Hl Hk Hf; try done; cbn in Hf; [lia|].
  cbn [map app] in Hk. injection Hk as Hy Hk. cbn [hi_scan]. unfold hi_Valid. cbn [slot_ node_].
  rewrite bool_decide_eq_true_2 by done. destruct (Nat.ltb_spec s (n_slots_ m)); [|lia]. cbn [andb]. unfold hi_key. cbn [node_ mbind option_bind].
  rewrite Hy. cbn [ofopt obind]. unfold hi_Next. cbn [node_ slot_ ofopt obind].
  pose proof (chain_next m s (A ++ [y]) B) as Hp. rewrite <- app_assoc in Hp. cbn [app] in Hp. rewrite <- Hl in Hp. specialize (Hp (rep_path _ _ Hr s Hs)).
  unfold final in Hp. rewrite foldl_snoc in Hp. rewrite Hp. cbn [ofopt obind].
  destruct B as [|z B]; cbn [head obind].
  - destruct (first_bucket_spec m L (n_slots_ m - S s) (S s) Hr ltac:(lia)) as (r & -> & Hr'). cbn [obind]. destruct r as [[t z]|].
    + destruct Hr' as [Ht (l & Hlt & E)]. cbn [app] in Hk. rewrite E in Hk. rewrite (IH t [] z l ks); [done | lia | done | exact Hk | lia].
    + cbn [app] in Hk. rewrite Hr' in Hk. destruct ks; [|done]. cbn [map] in Hk. destruct fuel; cbn [hi_scan]; unfold hi_Valid; cbn [slot_ node_];
        by rewrite andb_false_r.
  - rewrite (IH s (A ++ [y]) z B ks); [done | done | by rewrite <- app_assoc | exact Hk | lia].
Qed.

Lemma nodes_from_NoDup m L s : rep m L -> (s <= n_slots_ m)%nat -> NoDup (nodes_from m L s) /\
  forall x, x ∈ nodes_from m L s -> exists j, (s <= j < n_slots_ m)%nat /\ x ∈ L j.
Proof.
  intros Hr Hs. remember (n_slots_ m - s)%nat as n eqn:En. revert s Hs En. induction n as [|n IH]; intros s Hs En.
  - unfold nodes_from. rewrite <- En. cbn. split; [constructor | by intros x ?%not_elem_of_nil].
  - rewrite nodes_from_S by lia. destruct (IH (S s)) as [IH1 IH2]; [lia..|]. split.
    + apply NoDup_app. split_and!; [by apply (rep_nodup _ _ Hr); lia | | done].
      intros x Hx (j & Hj & Hxj)%IH2. pose proof (rep_apart _ _ Hr s j x ltac:(lia) ltac:(lia) Hx Hxj). lia.
    + intros x [Hx|Hx]%elem_of_app; [exists s; split; [lia | done]|]. destruct (IH2 x Hx) as (j & Hj & Hxj). exists j. split; [lia | done].
Qed.

Lemma map_keys_from m L ks s : holds m L ks -> map (key_of m) (nodes_from m L s) = map Some (concat (map ks (seq s (n_slots_ m - s)))).
Proof.
  intros Hh. unfold nodes_from. rewrite !concat_map, !map_map. f_equal. apply map_ext_in. intros i Hi%in_seq. apply (ho_keys _ _ _ Hh). lia.
Qed.

(** The iterator goes through all keys, bucket by bucket. *)
Lemma all_keys_holds m L ks : holds m L ks -> all_keys m = Done (concat (map ks (seq 0 (n_slots_ m)))).
Proof.
  intros Hh. pose proof (ho_rep _ _ _ Hh) as Hr. unfold all_keys, hi_SeekToFirst, NewHIterator.
  destruct (first_bucket_spec m L (n_slots_ m) 0 Hr eq_refl) as (r & -> & Hr'). cbn [obind].
  pose proof (map_keys_from m L ks 0 Hh) as Hk. rewrite Nat.sub_0_r in Hk.
  assert (Hlen : (length (concat (map ks (seq 0 (n_slots_ m)))) <= length (nodes m))%nat).
  { rewrite <- (length_map Some), <- Hk, length_map. destruct (nodes_from_NoDup m L 0 Hr ltac:(lia)) as [Hnd Hin].
    assert (length (nodes_from m L 0) <= length (seq 0 (length (nodes m))))%nat as Hle; [|by rewrite length_seq in Hle].
    apply NoDup_incl_length; [by apply NoDup_ListNoDup|]. intros x Hx%list_elem_of_In. destruct (Hin x Hx) as (j & Hj & Hxj).
    pose proof (rep_nodes _ _ Hr j x ltac:(lia) Hxj). apply in_seq. lia. }
  destruct r as [[t y]|].
  - destruct Hr' as [Ht (l & Hl & E)]. rewrite E in Hk. eapply (scan_spec m L _ t [] y l); try done. lia.
  - rewrite Hr' in Hk. destruct (concat _); [|done]. destruct (length (nodes m)); cbn [hi_scan]; unfold hi_Valid; cbn [slot_ node_]; by rewrite andb_false_r.
Qed.
(** *** The map as a collection of keys *)

Lemma put_keys_perm key ks : put_keys key ks ≡ₚ key :: ks.
Proof.
  unfold SkipList.put_keys. rewrite <- Permutation_middle. apply perm_skip. unfold SkipList.keys_lt, SkipList.keys_ge.
  induction ks as [|k ks IH]; [done|]. rewrite !filter_cons. destruct (compare k key <? 0) eqn:E.
  - rewrite decide_True, decide_False by done. cbn. by rewrite IH.
  - rewrite decide_False, decide_True by done. rewrite <- Permutation_middle. by rewrite IH.
Qed.

(** The map holds the keys [es], in any order. *)
Definition map_holds (m : HashMap K) (es : list K) : Prop :=
  (0 < n_slots_ m)%nat /\ exists L ks, holds m L ks /\ in_buckets ks (n_slots_ m) ≡ₚ es.

Lemma New_map_holds Key0 n : (0 < n)%nat -> map_holds (NewHashMap Key0 n) [].
Proof.
  intros Hn. split; [done|]. exists (fun _ => []), (fun _ => []). split; [apply map_New_holds|].
  unfold in_buckets. induction (seq 0 _); done.
Qed.

Lemma Put_map_holds m es key : map_holds m es -> exists m', Put compare hash key m = Done m' /\ map_holds m' (key :: es).
Proof.
  intros (Hn & L & ks & Hh & Hes). destruct (map_Put_holds m L ks key Hh Hn) as (i & m' & L' & Hi & E & Es & _ & Hh').
  exists m'. split; [done|]. split; [lia|]. exists L', (put_at i key ks). split; [done|]. rewrite Es, <- Hes. unfold put_at.
  apply buckets_put; [by eapply slot_of_lt | apply put_keys_perm].
Qed.

(** [Seek2] finds a key that compares equal, if there is one with the same hash. *)
Lemma Seek2_map_holds m es key :
  map_holds m es ->
  exists it, hi_Seek2 compare hash key m = Done it /\
    if hi_Valid it m then exists e, hi_key it m = Some e /\ e ∈ es /\ compare e key = 0
    else forall e, e ∈ es -> hash e = hash key -> compare e key <> 0.
Proof.
  intros (Hn & L & ks & Hh & Hes). destruct (slot_of_done key m Hn) as [i Hi]. pose proof (slot_of_lt _ _ _ Hi) as Hlt.
  destruct (find_from_spec (fun c => c =? 0) key m L ks i Hh Hi) as (r & E & Hr). unfold hi_Seek2, FindEqual. rewrite E. eexists. split; [reflexivity|].
  destruct r as [x|]; unfold hi_Valid; cbn [slot_ node_].
  - rewrite bool_decide_eq_true_2 by done. destruct (Nat.ltb_spec i (n_slots_ m)); [|lia]. cbn [andb].
    destruct Hr as (A & B & ka & k & kb & _ & Eks & _ & Hx & _ & Hk%Z.eqb_eq). exists k. split_and!; [done | | done].
    rewrite <- Hes. apply elem_of_buckets. exists i. split; [done|]. rewrite Eks. apply elem_of_app. right. by left.
  - rewrite bool_decide_eq_false_2 by (by intros [? ?]). rewrite andb_false_r. intros e He Hhe.
    rewrite <- Hes in He. apply elem_of_buckets in He as (j & Hj & He). pose proof (ho_slots _ _ _ Hh j e Hj He) as Hslot.
    assert (j = i) as -> by (unfold slot_of in *; rewrite Hhe in Hslot; congruence). rewrite Forall_forall in Hr. by apply Z.eqb_neq, Hr.
Qed.

Lemma all_keys_map_holds m es : map_holds m es -> exists ks, all_keys m = Done ks /\ ks ≡ₚ es.
Proof. intros (_ & L & ks & Hh & Hes). eexists. split; [by eapply all_keys_holds | done]. Qed.
End ordered.

(** ** Writers among readers *)

Section machine.
Context {K : Type} (bytes_of : K -> bytes) (cmp : bytes -> bytes -> Z) (hash : K -> Z) `{!ComparatorLaws cmp}.

#[local] Abbreviation compare := (compare_by bytes_of cmp).
#[local] Abbreviation holds := (holds bytes_of cmp hash).
#[local] Abbreviation before := (before bytes_of cmp).
#[local] Abbreviation writing := (writing bytes_of cmp).

(** The nodes of a bucket. *)
Fixpoint chain (fuel : nat) (p : option nat) (m : HashMap K) : outcome (list nat) :=
  match p with
  | None => Done []
  | Some x =>
    match fuel with
    | O => OutOfFuel
    | S fuel => (do! p := ofopt (next m x) in do! l := chain fuel p m in Done (x :: l))%out
    end
  end.

Definition bucket (i : nat) (m : HashMap K) : outcome (list nat) :=
  (do! p := ofopt (next m i) in chain (length (nodes m)) p m)%out.

(** A reader looks for [target], will look at the node [p], and [seen] is what
    the bucket had when it began. *)
Record machine := mkMachine {
  h_map : HashMap K;
  h_writers : gmap nat putting;
  h_readers : gmap nat (K * option nat * list nat);
}.

(** [exclusive] tells whether a [Put] begins only when no other is under way. *)
Inductive hstep (exclusive : bool) (s : machine) : machine -> Prop :=
  | put_begins id key m w :
      h_writers s !! id = None -> (exclusive = true -> h_writers s = ∅) -> put_begin hash key (h_map s) = Done (m, w) ->
      hstep exclusive s (mkMachine m (<[id := w]> (h_writers s)) (h_readers s))
  | put_goes_on id w m w' :
      h_writers s !! id = Some w -> put_turn compare w (h_map s) = Done (m, Some w') ->
      hstep exclusive s (mkMachine m (<[id := w']> (h_writers s)) (h_readers s))
  | put_ends id w m :
      h_writers s !! id = Some w -> put_turn compare w (h_map s) = Done (m, None) ->
      hstep exclusive s (mkMachine m (delete id (h_writers s)) (h_readers s))
  | seek_begins id target i p seen :
      h_readers s !! id = None -> slot_of hash target (h_map s) = Done i -> next (h_map s) i = Some p -> bucket i (h_map s) = Done seen ->
      hstep exclusive s (mkMachine (h_map s) (h_writers s) (<[id := (target, p, seen)]> (h_readers s)))
  | seek_turns id target x seen k p :
      h_readers s !! id = Some (target, Some x, seen) -> key_of (h_map s) x = Some k -> (0 <=? compare k target) = false ->
      next (h_map s) x = Some p ->
      hstep exclusive s (mkMachine (h_map s) (h_writers s) (<[id := (target, p, seen)]> (h_readers s)))
  | seek_ends id r :
      h_readers s !! id = Some r ->
      hstep exclusive s (mkMachine (h_map s) (h_writers s) (delete id (h_readers s))).

Definition h_init (Key0 : K) (n : nat) : machine := mkMachine (NewHashMap Key0 n) ∅ ∅.

(** *** One writer *)

Lemma chain_path (m : HashMap K) x l fuel : path m x l -> (length l <= fuel)%nat -> chain fuel (head l) m = Done l.
Proof.
  revert x fuel. induction l as [|y l IH]; intros x [|fuel] Hp Hf; cbn in Hf; try done; [lia|]. destruct Hp as [_ Hp].
  cbn [head chain]. pose proof (chain_next m y [] l Hp) as Hn. cbn in Hn. rewrite Hn. cbn [ofopt obind]. by rewrite (IH y) by (done || lia).
Qed.

Lemma bucket_rep (m : HashMap K) L i : rep m L -> (i < n_slots_ m)%nat -> bucket i m = Done (L i).
Proof.
  intros Hr Hi. pose proof (rep_path _ _ Hr i Hi) as Hp. unfold bucket. pose proof (chain_next m i [] (L i) Hp) as Hn. cbn in Hn. rewrite Hn. cbn [ofopt obind].
  apply (chain_path m i); [done | by apply rep_short].
Qed.

(** What a reader may rely on. *)
Definition reading (m : HashMap K) (L : nat -> list nat) (target : K) (p : option nat) (seen : list nat) : Prop :=
  exists i, slot_of hash target m = Done i /\ (forall z, z ∈ seen -> z ∈ L i) /\
    match p with
    | None => forall z, z ∈ seen -> before m target z
    | Some y => y ∈ L i /\ forall z, z ∈ seen -> sublist [z; y] (L i) -> before m target z
    end.

Record minv (s : machine) : Prop := {
  mi_buckets : exists L ks, holds (h_map s) L ks /\
    (h_writers s = ∅ \/ exists id i key n w, h_writers s = {[id := w]} /\ slot_of hash key (h_map s) = Done i /\ writing (h_map s) L i key n w) /\
    forall id target p seen, h_readers s !! id = Some (target, p, seen) -> reading (h_map s) L target p seen;
  mi_slots : (0 < n_slots_ (h_map s))%nat;
}.

Lemma sublist_without (x : nat) (l A B : list nat) : x ∉ l -> x ∉ A ++ B -> sublist l (A ++ x :: B) -> sublist l (A ++ B).
Proof.
  intros Hl Hab Hs. assert (Hf : forall k : list nat, x ∉ k -> filter (fun y => y <> x) k = k).
  { intros k Hk. apply filter_all. apply Forall_forall. intros y Hy ->. done. }
  rewrite <- (Hf l Hl), <- (Hf (A ++ B) Hab). assert (E : filter (fun y => y <> x) (A ++ B) = filter (fun y => y <> x) (A ++ x :: B)).
  { rewrite !filter_app, filter_cons, decide_False; [done | tauto]. }
  rewrite E. clear -Hs. induction Hs as [|y l k Hs IH|y l k Hs IH]; rewrite ?filter_cons; [constructor | |].
  - case_decide; [by constructor | done].
  - case_decide; [by constructor | done].
Qed.

Lemma reading_insert m m' L i node A B target p seen :
  rep m L -> fresh m L node -> (i < n_slots_ m)%nat -> L i = A ++ B -> n_slots_ m' = n_slots_ m -> (forall z, key_of m' z = key_of m z) ->
  reading m L target p seen -> reading m' (inserted L i node A B) target p seen.
Proof.
  intros Hr [Hn Hf] Hi Hl Es Ek (j & Hj & Hin & Hp). exists j. split; [by rewrite (slot_of_same hash target m)|].
  assert (Hb : forall z, before m target z -> before m' target z) by (intros z; by apply before_same).
  assert (Hjlt : (j < n_slots_ m)%nat) by (by eapply slot_of_lt).
  assert (Hmono : forall z, z ∈ L j -> z ∈ inserted L i node A B j).
  { intros z. unfold inserted. case_decide as E; [subst j|done]. rewrite Hl, !elem_of_app, elem_of_cons. tauto. }
  split; [by auto|]. destruct p as [y|]; [|by auto]. destruct Hp as [Hy Hp]. split; [by auto|]. intros z Hz Hs. apply Hb, Hp; [done|].
  unfold inserted in Hs. case_decide as E; [subst j|done]. rewrite Hl. eapply sublist_without; [| | exact Hs].
  - intros [->|[->|[]%elem_of_nil]%elem_of_cons]%elem_of_cons; [apply (Hf i Hi); by apply Hin | by apply (Hf i Hi)].
  - rewrite <- Hl. by apply Hf.
Qed.

Lemma reading_same m m' L target p seen :
  n_slots_ m' = n_slots_ m -> (forall z, key_of m' z = key_of m z) -> reading m L target p seen -> reading m' L target p seen.
Proof.
  intros Es Ek (j & Hj & Hin & Hp). exists j. split; [by rewrite (slot_of_same hash target m)|]. split; [done|].
  assert (Hb : forall z, before m target z -> before m' target z) by (intros z; by apply before_same).
  destruct p as [y|]; [|by auto]. destruct Hp as [Hy Hp]. split; [done|]. auto.
Qed.

(** With distinct elements, what comes before [y] is in the part before it. *)
Lemma sublist_pair (l A B : list nat) z y : NoDup l -> l = A ++ y :: B -> sublist [z; y] l <-> z ∈ A.
Proof.
  intros Hnd ->. split.
  - intros Hs. apply NoDup_app in Hnd as (_ & Hab & Hnb). apply NoDup_cons in Hnb as [Hyb _].
    apply sublist_app_r in Hs as (l1 & l2 & E & H1 & H2). destruct l1 as [|z1 [|y1 [|? ?]]]; cbn in E.
    + subst l2. exfalso. apply sublist_cons_r in H2 as [H2|(l' & E & H2)].
      * apply Hyb. apply (sublist_subseteq _ _ H2). right. by left.
      * injection E as -> <-. apply Hyb. apply (sublist_subseteq _ _ H2). by left.
    + injection E as <- <-. apply (sublist_subseteq _ _ H1). by left.
    + injection E as <- <- <-. exfalso. apply (Hab y); [|by left]. apply (sublist_subseteq _ _ H1). right. by left.
    + done.
  - intros (A1 & A2 & ->)%list_elem_of_split. rewrite <- app_assoc. cbn [app]. apply sublist_inserts_l.
    constructor. apply sublist_inserts_l. constructor. apply sublist_nil_l.
Qed.

(** A new node changes no key. *)
Lemma put_begin_keys key m m' w : put_begin hash key m = Done (m', w) -> forall x, (x < length (nodes m))%nat -> key_of m' x = key_of m x.
Proof.
  unfold put_begin. destruct (slot_of hash key m) as [i| |]; cbn [obind NewNode]; [|done..]. destruct (next _ i); cbn [ofopt obind]; [|done].
  intros [= <- _] x Hx. unfold key_of. cbn. by rewrite lookup_app_l.
Qed.

Lemma reading_known m m' L target p seen :
  rep m L -> n_slots_ m' = n_slots_ m -> (forall x, (x < length (nodes m))%nat -> key_of m' x = key_of m x) ->
  reading m L target p seen -> reading m' L target p seen.
Proof.
  intros Hr Es Ek (j & Hj & Hin & Hp). exists j. split; [by rewrite (slot_of_same hash target m)|]. split; [done|].
  assert (Hb : forall z, z ∈ seen -> before m target z -> before m' target z).
  { intros z Hz (k & Hk & Hlt). exists k. split; [|done]. rewrite Ek; [done|]. apply (rep_nodes _ _ Hr j); [by eapply slot_of_lt | by apply Hin]. }
  destruct p as [y|]; [|by auto]. destruct Hp as [Hy Hp]. split; [done|]. auto.
Qed.

Lemma reading_turn m L ks target x seen k p :
  holds m L ks -> reading m L target (Some x) seen -> key_of m x = Some k -> (0 <=? compare k target) = false -> next m x = Some p ->
  reading m L target p seen.
Proof.
  intros Hh (i & Hi & Hin & Hx & Hs) Hk Hlt%Z.leb_gt Hn. exists i. split; [done|]. split; [done|].
  pose proof (ho_rep _ _ _ _ _ _ Hh) as Hr. assert (Hi' : (i < n_slots_ m)%nat) by (by eapply slot_of_lt).
  pose proof (rep_nodup _ _ Hr i Hi') as Hnd. apply list_elem_of_split in Hx as (A & B & El).
  pose proof (chain_next m i (A ++ [x]) B) as Hp. rewrite <- app_assoc in Hp. cbn [app] in Hp. rewrite <- El in Hp. specialize (Hp (rep_path _ _ Hr i Hi')).
  unfold final in Hp. rewrite foldl_snoc in Hp. assert (p = head B) as -> by congruence.
  assert (Hbx : before m target x) by (by exists k).
  assert (HA : forall z, z ∈ seen -> z ∈ A -> before m target z) by (intros z Hz Hza; apply Hs; [done|]; by apply (sublist_pair _ A B)).
  destruct B as [|y B]; cbn [head].
  - intros z Hz. specialize (Hin z Hz). rewrite El in Hin. apply elem_of_app in Hin as [Hza|[->|[]%elem_of_nil]%elem_of_cons]; [by apply HA | done].
  - split; [rewrite El; apply elem_of_app; right; right; by left|]. intros z Hz Hsub.
    apply (sublist_pair _ (A ++ [x]) B) in Hsub; [|done | by rewrite El, <- app_assoc].
    apply elem_of_app in Hsub as [Hza|[->|[]%elem_of_nil]%elem_of_cons]; [by apply HA | done].
Qed.

Lemma hstep_minv s s' : minv s -> hstep true s s' -> minv s'.
Proof.
  intros [(L & ks & Hh & Hw & Hrd) Hn] Hs. pose proof (ho_rep _ _ _ _ _ _ Hh) as Hr.
  assert (Hwriter : forall id w, h_writers s !! id = Some w ->
    exists i key n, h_writers s = {[id := w]} /\ slot_of hash key (h_map s) = Done i /\ writing (h_map s) L i key n w).
  { intros id w E. destruct Hw as [Hw|(id' & i & key & n & w' & Hw & H1 & H2)]; [by rewrite Hw, lookup_empty in E|].
    rewrite Hw in E |- *. apply lookup_singleton_Some in E as [-> ->]. by exists i, key, n. }
  destruct Hs as [id key m w Hid Hex E|id w m w' Hid E|id w m Hid E|id target i p seen Hid Hi Hp Hseen|id target x seen k p Hid Hk Hlt Hp|id r Hid].
  - destruct (slot_of_done hash key (h_map s) Hn) as [i Hi]. destruct (put_begin_ok bytes_of cmp hash (h_map s) L ks i key Hh Hi) as (m1 & w1 & E1 & Es & _ & Hh1 & Hw1 & _).
    rewrite E in E1. injection E1 as <- <-. split; cbn; [|by rewrite Es]. exists L, ks. split; [done|]. split.
    + right. exists id, i, key, (5 + length (L i))%nat, w. rewrite (Hex eq_refl). split_and!; [done | by rewrite (slot_of_same hash key (h_map s)) | done].
    + intros id' target p seen Hid'. specialize (Hrd id' target p seen Hid'). pose proof (put_begin_keys key (h_map s) m w E) as Hkeys.
      eapply (reading_known (h_map s)); [exact Hr | exact Es | exact Hkeys | exact Hrd].
  - destruct (Hwriter id w Hid) as (i & key & n & Ew & Hi & Hwr).
    destruct (put_turn_ok bytes_of cmp hash (h_map s) L ks i key n w Hh Hi Hwr) as (m1 & w1 & E1 & Es & Ek & Ht). rewrite E in E1. injection E1 as <- <-.
    destruct Ht as (_ & n1 & _ & Ht). rewrite Ew, insert_singleton, decide_True by done.
    assert (Hi1 : slot_of hash key m = Done i) by (by rewrite (slot_of_same hash key (h_map s))).
    split; cbn; [|by rewrite Es]. destruct Ht as [(_ & _ & Hh1 & Hw1)|(_ & _ & node & A & B & Hf & El & Hh1 & Hw1)].
    + exists L, ks. split; [done|]. split; [right; by exists id, i, key, n1, w'|]. intros id' target p seen Hid'. eapply reading_same; [exact Es | exact Ek | by eapply Hrd].
    + eexists _, _. split; [exact Hh1|]. split; [right; by exists id, i, key, n1, w'|]. intros id' target p seen Hid'.
      eapply reading_insert; [exact Hr | exact Hf | by eapply slot_of_lt | exact El | exact Es | exact Ek | by eapply Hrd].
  - destruct (Hwriter id w Hid) as (i & key & n & Ew & Hi & Hwr).
    destruct (put_turn_ok bytes_of cmp hash (h_map s) L ks i key n w Hh Hi Hwr) as (m1 & w1 & E1 & Es & Ek & Ht). rewrite E in E1. injection E1 as <- <-.
    destruct Ht as (_ & _ & Hh1). split; cbn; [|by rewrite Es]. exists L, ks. split; [done|]. split; [left; by rewrite Ew, delete_singleton_eq|].
    intros id' target p seen Hid'. eapply reading_same; [exact Es | exact Ek | by eapply Hrd].
  - split; cbn; [|done]. exists L, ks. split; [done|]. split; [done|]. intros id' target' p' seen'.
    intros [[<- [= <- <- <-]]|[_ Hid']]%lookup_insert_Some; [|by eapply Hrd].
    assert (Hil : (i < n_slots_ (h_map s))%nat) by (by eapply slot_of_lt). rewrite (bucket_rep _ L i Hr Hil) in Hseen. injection Hseen as <-.
    pose proof (rep_path _ _ Hr i Hil) as Hpath. pose proof (chain_next (h_map s) i [] (L i) Hpath) as Hhead. cbn in Hhead. assert (p = head (L i)) as -> by congruence.
    exists i. split; [done|]. split; [done|]. pose proof (rep_nodup _ _ Hr i Hil) as Hnd. destruct (L i) as [|y l] eqn:El; cbn [head].
    + by intros z ?%not_elem_of_nil.
    + split; [by left|]. intros z Hz Hsub%(sublist_pair _ [] l); [by apply not_elem_of_nil in Hsub | done | done].
  - split; cbn; [|done]. exists L, ks. split; [done|]. split; [done|]. intros id' target' p' seen'.
    intros [[<- [= <- <- <-]]|[_ Hid']]%lookup_insert_Some; [|by eapply Hrd]. eapply reading_turn; [exact Hh | by eapply Hrd | exact Hk | exact Hlt | exact Hp].
  - split; cbn; [|done]. exists L, ks. split; [done|]. split; [done|]. intros id' target p seen [_ Hid']%lookup_delete_Some. by eapply Hrd.
Qed.

Lemma reachable_map Key0 n s : (0 < n)%nat -> rtc (hstep true) (h_init Key0 n) s -> minv s.
Proof.
  intros Hn Hs. remember (h_init Key0 n) as s0 eqn:E0. assert (Hok : minv s0).
  { subst. split; cbn; [|done]. exists (fun _ => []), (fun _ => []). split; [apply map_New_holds|]. split; [by left|]. by intros id target p seen ?%lookup_empty_Some. }
  clear E0. induction Hs as [|s1 s2 s3 H1 _ IH]; [done|]. by apply IH, (hstep_minv s1).
Qed.

(** C27: While one writer puts keys, in every state that the turns of the writer
    and of the readers reach, a reader that looks for [target] is safe and
    misses nothing: if it is at the end of the chain, every key that was in the
    bucket when it began is below [target]; if it is at a node, the node is in
    the bucket, and when its key is not below [target], the key is no greater
    than any key not below [target] that was there when it began. *)
Theorem HashMap_reader_finds Key0 n s id target p seen :
  (0 < n)%nat -> rtc (hstep true) (h_init Key0 n) s -> h_readers s !! id = Some (target, p, seen) ->
  match p with
  | None => forall z, z ∈ seen -> exists k, key_of (h_map s) z = Some k /\ compare k target < 0
  | Some y => exists i l k, slot_of hash target (h_map s) = Done i /\ bucket i (h_map s) = Done l /\ y ∈ l /\ key_of (h_map s) y = Some k /\
      (0 <= compare k target -> forall z, z ∈ seen -> exists kz, key_of (h_map s) z = Some kz /\ (compare kz target < 0 \/ compare k kz <= 0))
  end.
Proof.
  intros Hn Hs Hid. destruct (reachable_map Key0 n s Hn Hs) as [(L & ks & Hh & _ & Hrd) _]. pose proof (ho_rep _ _ _ _ _ _ Hh) as Hr.
  destruct (Hrd id target p seen Hid) as (i & Hi & Hin & Hp). destruct p as [y|]; [|done].
  assert (Hil : (i < n_slots_ (h_map s))%nat) by (by eapply slot_of_lt). destruct Hp as [Hy Hp].
  destruct (list_elem_of_split _ _ Hy) as (A & B & El). pose proof (ho_keys _ _ _ _ _ _ Hh i Hil) as Hk. rewrite El in Hk.
  rewrite map_app in Hk. symmetry in Hk. apply map_eq_app in Hk as (ka & [|k kb] & Eks & Ea & Eb); [done|]. cbn in Eb. injection Eb as Ey Eb.
  exists i, (L i), k. split_and!; [done | by apply bucket_rep | done | done |]. intros Hge z Hz. specialize (Hin z Hz). rewrite El in Hin.
  apply elem_of_app in Hin as [HzA|[->|HzB]%elem_of_cons].
  - destruct (Hp z Hz) as (kz & Hkz & Hlt); [apply (sublist_pair _ A B); [by apply (rep_nodup _ _ Hr) | done | done]|]. exists kz. auto.
  - exists k. split; [done|]. right. unfold compare_by. by rewrite cmp_refl.
  - apply list_elem_of_In, (in_map (key_of (h_map s))) in HzB. rewrite <- Eb in HzB. apply in_map_iff in HzB as (kz & Ekz & Hkz).
    exists kz. split; [done|]. right. pose proof (ho_sorted _ _ _ _ _ _ Hh i Hil) as Hs'. rewrite Eks in Hs'.
    apply StronglySorted_app in Hs' as (_ & _ & Hs'). apply StronglySorted_inv in Hs' as [_ Hs']. rewrite Forall_forall in Hs'.
    apply Hs'. by apply list_elem_of_In.
Qed.
End machine.

(** ** Runs *)

Module Run.
#[local] Abbreviation cmp := (compare_by (fun k : bytes => k) lex).
Definition one_slot (k : bytes) : Z := 0.

Definition m0 : HashMap bytes := NewHashMap [] 1.
Definition map_of (ks : list bytes) : outcome (HashMap bytes) := foldl (fun o k => obind o (Put cmp one_slot k)) (Done m0) ks.

(** A schedule of the machine. *)
Inductive act := Begin (id : nat) (key : bytes) | Turn (id : nat) | Seek (id : nat) (target : bytes) | Look (id : nat).

Definition act_step (exclusive : bool) (x : act) (s : machine) : option (machine (K := bytes)) :=
  match x with
  | Begin id key =>
    if bool_decide (h_writers s !! id = None) && (negb exclusive || bool_decide (h_writers s = ∅)) then
      match put_begin one_slot key (h_map s) with
      | Done (m, w) => Some (mkMachine m (<[id := w]> (h_writers s)) (h_readers s)) | _ => None end
    else None
  | Turn id =>
    w ← h_writers s !! id;
    match put_turn cmp w (h_map s) with
    | Done (m, Some w') => Some (mkMachine m (<[id := w']> (h_writers s)) (h_readers s))
    | Done (m, None) => Some (mkMachine m (delete id (h_writers s)) (h_readers s))
    | _ => None
    end
  | Seek id target =>
    match h_readers s !! id, slot_of one_slot target (h_map s) with
    | None, Done i =>
      p ← next (h_map s) i;
      match bucket i (h_map s) with Done seen => Some (mkMachine (h_map s) (h_writers s) (<[id := (target, p, seen)]> (h_readers s))) | _ => None end
    | _, _ => None
    end
  | Look id =>
    match h_readers s !! id with
    | Some (target, Some y, seen) =>
      k ← key_of (h_map s) y;
      if 0 <=? cmp k target then None
      else p ← next (h_map s) y; Some (mkMachine (h_map s) (h_writers s) (<[id := (target, p, seen)]> (h_readers s)))
    | _ => None
    end
  end.

Fixpoint run (exclusive : bool) (xs : list act) (s : machine) : option (machine (K := bytes)) :=
  match xs with [] => Some s | x :: xs => s ← act_step exclusive x s; run exclusive xs s end.

Lemma act_hstep exclusive x s s' : act_step exclusive x s = Some s' -> hstep (fun k => k) lex one_slot exclusive s s'.
Proof.
  destruct x as [id key|id|id target|id]; cbn [act_step].
  - case_bool_decide as Hid; [|done]. destruct (negb exclusive || bool_decide (h_writers s = ∅)) eqn:Ex; [|done]. cbn [andb].
    destruct (put_begin one_slot key (h_map s)) as [[m w]| |] eqn:E; try done. intros [= <-]. apply (put_begins _ _ _ _ _ _ key); [done | | exact E].
    intros ->. by apply bool_decide_eq_true in Ex.
  - destruct (h_writers s !! id) as [w|] eqn:Hid; [|done]. cbn [mbind option_bind]. destruct (put_turn cmp w (h_map s)) as [[m [w'|]]| |] eqn:E; try done; intros [= <-].
    + by apply (put_goes_on _ _ _ _ _ _ w).
    + by apply (put_ends _ _ _ _ _ _ w).
  - destruct (h_readers s !! id) eqn:Hid; [done|]. destruct (slot_of one_slot target (h_map s)) as [i| |] eqn:Hi; [|done..].
    destruct (next (h_map s) i) as [p|] eqn:Hp; [|done]. cbn [mbind option_bind]. destruct (bucket i (h_map s)) as [seen| |] eqn:Hb; [|done..].
    intros [= <-]. by apply (seek_begins _ _ _ _ _ _ target i).
  - destruct (h_readers s !! id) as [[[target [y|]] seen]|] eqn:Hid; [|done..]. destruct (key_of (h_map s) y) as [k|] eqn:Hk; [|done]. cbn [mbind option_bind].
    destruct (0 <=? cmp k target) eqn:Hc; [done|]. destruct (next (h_map s) y) as [p|] eqn:Hp; [|done]. cbn [mbind option_bind]. intros [= <-].
    by apply (seek_turns _ _ _ _ _ _ target y seen k).
Qed.

Lemma run_steps exclusive xs s s' : run exclusive xs s = Some s' -> rtc (hstep (fun k => k) lex one_slot exclusive) s s'.
Proof.
  revert s. induction xs as [|x xs IH]; intros s; cbn [run]; [by intros [= <-]|]. destruct (act_step exclusive x s) as [s1|] eqn:E; [|done].
  cbn [mbind option_bind]. intros Hs. apply (rtc_l _ _ s1); [by apply (act_hstep exclusive x) | by apply IH].
Qed.

Definition start : machine (K := bytes) := h_init [] 1.

(** A key is put while a reader is on its way. *)
Definition among : list act :=
  [Begin 0 [2]; Turn 0; Turn 0; Turn 0; Turn 0; Turn 0; Seek 7 [2; 1]; Begin 0 [3]; Turn 0; Turn 0; Turn 0; Turn 0; Turn 0; Turn 0; Look 7].

(** Two keys are put at the same time. *)
Definition both : list act :=
  [Begin 0 [1]; Begin 1 [2]; Turn 0; Turn 0; Turn 1; Turn 1; Turn 0; Turn 0; Turn 0; Turn 1; Turn 1].
End Run.

(** Three keys in a bucket, in order; a search and the iterator find them. *)
Example three_keys :
  obind (Run.map_of [[3]; [1]; [2]]) all_keys = Done [[1]; [2]; [3]] /\
  obind (Run.map_of [[3]; [1]; [2]]) (fun m => obind (FindGreaterOrEqual (compare_by (fun k => k) lex) Run.one_slot [2; 0] m) (fun it => ofopt (hi_key it m))) = Done [3] /\
  obind (Run.map_of [[3]; [1]; [2]]) (fun m => Done (n_entries_ m)) = Done 3.
Proof. split_and!; vm_compute; reflexivity. Qed.

(** The loop of [Put] ends when the exchange fails: of two writers that have read
    the same arrow one counts its key and does not put it. *)
Example two_writers_lose :
  exists s, rtc (hstep (fun k => k) lex Run.one_slot false) Run.start s /\ h_writers s = ∅ /\
    n_entries_ (h_map s) = 2 /\ all_keys (h_map s) = Done [[1]].
Proof.
  destruct (Run.run false Run.both Run.start) as [s|] eqn:E; [|by vm_compute in E]. exists s. split; [by apply (Run.run_steps false Run.both)|].
  vm_compute in E. injection E as <-. split_and!; vm_compute; reflexivity.
Qed.

Lemma HashMap_reader_finds_witness :
  exists s p seen, h_readers s !! 7%nat = Some ([2; 1], p, seen) /\ h_writers s = ∅ /\ p = Some 2%nat /\ seen = [1%nat] /\
    exists i l k, slot_of Run.one_slot [2; 1] (h_map s) = Done i /\ bucket i (h_map s) = Done l /\ 2%nat ∈ l /\ key_of (h_map s) 2 = Some k.
Proof.
  destruct (Run.run true Run.among Run.start) as [s|] eqn:E; [|by vm_compute in E].
  pose proof (Run.run_steps true _ _ _ E) as Hs. vm_compute in E.
  assert (Hid : h_readers s !! 7%nat = Some ([2; 1], Some 2%nat, [1%nat])) by (injection E as <-; vm_compute; reflexivity).
  exists s, (Some 2%nat), [1%nat]. split; [exact Hid|]. split; [injection E as <-; vm_compute; reflexivity|]. split; [done|]. split; [done|].
  destruct (HashMap_reader_finds (fun k => k) lex Run.one_slot [] 1 s 7 [2; 1] (Some 2%nat) [1%nat] ltac:(lia) Hs Hid) as (i & l & k & H1 & H2 & H3 & H4 & _).
  by exists i, l, k.
Defined.
