(* ===== verification/MemoryTable.v ===== *)
(** * MemoryTable

    src/core/memory-table.h and src/core/ordered-memory-table.{h,cc}: the
    memory table of a column family, a skip list of [KeyBoundle]s in internal
    key order.

    [mem_inv] relates a table to the records put in it; lookups and iterators
    are described by those records only. *)

From S2P Require Import Prelude Slice Keys Entries SkipList Iterator Merging.

(** A call of [Put]. *)
Record put_ := mkPut { p_key : bytes; p_value : bytes; p_version : Z; p_flag : Z }.

Section memory_table.
Context (ucmp : bytes -> bytes -> Z).

#[local] Abbreviation icmp := (InternalCompare ucmp).

Definition KeyComparator : KeyBoundle -> KeyBoundle -> Z := compare_by kb_key icmp.

Record OrderedMemoryTable := mkOMT { table_ : SkipList KeyBoundle; n_entries_ : Z }.

(** The key of the list's head is null and never read. *)
Definition NewOrderedMemoryTable : OrderedMemoryTable := mkOMT (NewSkipList (mkKB [] 0 0)) 0.

(** [rand] are the numbers the list's engine gives. *)
Definition omt_Put (key value : bytes) (version flag : Z) (rand : list Z) (t : OrderedMemoryTable) :
    outcome (OrderedMemoryTable * list Z) :=
  obind (Put KeyComparator (KeyBoundleNew key value version flag) rand (table_ t)) (fun '(l, rand) =>
    Done (mkOMT l (wrap 64 (n_entries_ t + 1)), rand)).

(** [Get]: the tag, and the value when it is assigned. *)
Definition omt_Get (key : bytes) (version : Z) (t : OrderedMemoryTable) : outcome (error + Tag * option bytes) :=
  obind (sl_Seek KeyComparator (KeyBoundleForSeek key version) (table_ t)) (fun node =>
    match node with
    | None => Done (inl kNotFound)
    | Some x =>
      obind (ofopt (key_of (table_ t) x)) (fun kb =>
        if negb (bool_decide (kb_user_key kb = key)) then Done (inl kNotFound)
        else Done (inr (kb_tag kb,
          if flag (kb_tag kb) =? flag_code kFlagValue then Some (kb_value kb) else None)))
    end).

Definition omt_KeyExists (key : bytes) (version : Z) (t : OrderedMemoryTable) : outcome bool :=
  obind (omt_Get key version t) (fun r => Done (match r with inl e => ok e | inr _ => true end)).

Definition NumEntries (t : OrderedMemoryTable) : Z := n_entries_ t.
Definition omt_ApproximateConflictFactor (_ : OrderedMemoryTable) : Z := 0.

(** [IteratorImpl] *)
Record MemIterator := mkMI { mi_table : SkipList KeyBoundle; node_ : option nat }.

Definition omt_NewIterator (t : OrderedMemoryTable) : MemIterator := mkMI (table_ t) None.

Definition mi_move (f : SkipList KeyBoundle -> outcome (option nat)) (it : MemIterator) : outcome MemIterator :=
  obind (f (mi_table it)) (fun node => Done (mkMI (mi_table it) node)).

Definition MemIterator_ops : Iterator MemIterator := {|
  it_Valid it := bool_decide (is_Some (node_ it));
  it_SeekToFirst := mi_move sl_SeekToFirst;
  it_SeekToLast := mi_move sl_SeekToLast;
  it_Seek target it :=
    (do! user_key := ofopt (ExtractUserKey target) in
     do! tag := ofopt (ExtractTag target) in
     mi_move (sl_Seek KeyComparator (KeyBoundleForSeek user_key (sequence_number tag))) it)%out;
  it_Next it := mi_move (sl_Next (node_ it)) it;
  it_Prev it := mi_move (sl_Prev KeyComparator (node_ it)) it;
  it_current it := x ← node_ it; kb ← key_of (mi_table it) x; Some (kb_key kb, kb_value kb);
  it_error _ := kOk;
|}.

End memory_table.

(** ** The records of a table *)

Section records.
Context (ucmp : bytes -> bytes -> Z) `{!ComparatorLaws ucmp}.

#[local] Abbreviation icmp := (InternalCompare ucmp).
#[local] Instance ops : Iterator MemIterator := MemIterator_ops ucmp.

Definition put_ok (p : put_) : Prop :=
  tag_ok (mkTag (p_version p) (p_flag p)) /\ zlen (p_key p) < 2 ^ 32.

Definition boundle (p : put_) : KeyBoundle := KeyBoundleNew (p_key p) (p_value p) (p_version p) (p_flag p).

(** The entry an iterator shows for a record. *)
Definition entry_of (p : put_) : kv := (MakeKey (p_key p) (p_version p) (p_flag p), p_value p).
Definition kb_entry (kb : KeyBoundle) : kv := (kb_key kb, kb_value kb).

Lemma kb_entry_boundle p : put_ok p -> kb_entry (boundle p) = entry_of p.
Proof. intros [_ Hk]. unfold kb_entry, boundle, entry_of. by destruct (kb_views (p_key p) (p_value p) (p_version p) (p_flag p) Hk) as (_ & -> & ->). Qed.

(** The table holds the records [ps], each of its own version of its key. *)
Definition mem_inv (t : OrderedMemoryTable) (ps : list put_) : Prop :=
  (exists L, holds kb_key icmp (table_ t) L (map boundle ps)) /\
  Forall put_ok ps /\ n_entries_ t = wrap 64 (zlen ps).

Lemma mem_inv_sorted t ps : mem_inv t ps -> StronglySorted (kv_lt icmp) (map entry_of ps).
Proof.
  intros ([L (_ & _ & Hs)] & Hok & _). revert Hs. induction Hok as [|p ps Hp Hps IH]; [constructor|].
  cbn. intros [Hs Hf]%StronglySorted_inv. constructor; [by apply IH|]. rewrite Forall_map in *.
  rewrite Forall_forall in *. intros q Hq. specialize (Hf q Hq). unfold key_lt, compare_by, kv_lt in *.
  pose proof (kb_entry_boundle _ Hp) as E1. pose proof (kb_entry_boundle _ (Hps q Hq)) as E2.
  unfold kb_entry in E1, E2. rewrite <- E1, <- E2. exact Hf.
Qed.
(** *** Iterators *)

Lemma mi_forward s L kbs B A bs :
  holds kb_key icmp s L kbs -> L 0%nat = A ++ B -> map (key_of s) B = map Some bs ->
  forward (mkMI s (head B)) (map kb_entry bs).
Proof.
  intros Hh. revert A bs. induction B as [|x B IH]; intros A [|b bs] HL Hk; try done.
  cbn [map] in Hk. injection Hk as Hx Hk. cbn [map runs head]. split; [done|]. split.
  - cbn. by rewrite Hx.
  - exists (mkMI s (head B)). split.
    + cbn. unfold mi_move. cbn [mi_table node_]. by rewrite (Next_holds _ _ _ _ _ _ _ _ Hh HL).
    + apply (IH (A ++ [x])); [by rewrite <- app_assoc | done].
Qed.

Lemma mi_backward s L kbs A B bs :
  holds kb_key icmp s L kbs -> L 0%nat = A ++ B -> map (key_of s) A = map Some bs ->
  backward (mkMI s (last A)) (rev (map kb_entry bs)).
Proof.
  intros Hh. revert B bs. induction A as [|x A IH] using rev_ind; intros B bs HL Hk.
  - by destruct bs.
  - rewrite map_app in Hk. symmetry in Hk. apply map_eq_app in Hk as (b1 & b2 & -> & Hb1 & Hb2).
    destruct b2 as [|b [|? ?]]; try done. cbn [map] in Hb2. injection Hb2 as Hx.
    rewrite last_snoc, map_app, rev_app_distr. cbn [map rev app runs]. split; [done|]. split.
    + cbn. by rewrite <- Hx.
    + rewrite <- app_assoc in HL. exists (mkMI s (last A)). split.
      * cbn. unfold mi_move, KeyComparator. cbn [mi_table node_]. by rewrite (Prev_holds _ _ _ _ _ _ _ _ Hh HL).
      * by apply (IH (x :: B)).
Qed.

Lemma map_entries ps : Forall put_ok ps -> map kb_entry (map boundle ps) = map entry_of ps.
Proof. induction 1 as [|p ps Hp _ IH]; [done|]. cbn. by rewrite kb_entry_boundle, IH. Qed.

(** The probe of a seek stands where its internal key does. *)
Lemma kb_key_probe u s : zlen u < 2 ^ 32 -> kb_key (KeyBoundleForSeek u s) = MakeKey u s (flag_code kFlagValueForSeek).
Proof. intros Hu. by destruct (kb_views u [] s (flag_code kFlagValueForSeek) Hu) as (_ & E & _). Qed.

Lemma probe_compare k u s f :
  tag_ok (mkTag s f) -> icmp k (MakeKey u s (flag_code kFlagValueForSeek)) = icmp k (MakeKey u s f).
Proof.
  intros [Hs Hf]. unfold InternalCompare. assert (tag_ok (mkTag s (flag_code kFlagValueForSeek))) by (split; [done | unfold is_u; cbn; lia]).
  by rewrite !parsed_MakeKey by done.
Qed.

(** The entries not below a key. *)
Definition entries_ge (t : bytes) (es : list kv) : list kv := filter (fun e => (icmp (fst e) t <? 0) = false) es.

Lemma entries_ge_puts kb t ps :
  Forall put_ok ps -> (forall k, icmp k (kb_key kb) = icmp k t) ->
  map kb_entry (keys_ge kb_key icmp kb (map boundle ps)) = entries_ge t (map entry_of ps).
Proof.
  intros Hok Ht. unfold keys_ge, entries_ge. induction Hok as [|p ps Hp _ IH]; [done|]. cbn [map].
  pose proof (kb_entry_boundle _ Hp) as E. unfold kb_entry in E. rewrite !filter_cons.
  assert ((compare_by kb_key icmp (boundle p) kb <? 0) = (icmp (fst (entry_of p)) t <? 0)) as ->
    by (unfold compare_by; rewrite Ht; by rewrite <- E).
  destruct (_ <? 0); [rewrite !decide_False | rewrite !decide_True]; try done. cbn [map]. rewrite IH. f_equal. exact E.
Qed.

(** The iterator of a memory table goes forward and backward through its
    records in internal-key order, and a seek places it before exactly those
    not below the target. *)
Theorem MemIterator_scan t ps u s f :
  mem_inv t ps -> tag_ok (mkTag s f) -> zlen u < 2 ^ 32 ->
  let it := omt_NewIterator t in
  let es := map entry_of ps in
  places it_SeekToFirst it es /\
  (exists it', it_SeekToLast it = Done it' /\ backward it' (rev es)) /\
  places (it_Seek (MakeKey u s f)) it (entries_ge (MakeKey u s f) es).
Proof.
  intros ([L Hh] & Hok & _) Ht Hu. pose proof Hh as (Hr & Hk & Hs). cbn zeta. rewrite <- map_entries by done. split_and!.
  - exists (mkMI (table_ t) (head (L 0%nat))). split; [|by apply (mi_forward _ L (map boundle ps) (L 0%nat) [])].
    pose proof (path_next _ 0 head_ [] (L 0%nat) (rep_path _ _ Hr 0 ltac:(unfold kMaxHeight; lia))) as Hn. cbn in Hn.
    cbn. unfold mi_move, sl_SeekToFirst, omt_NewIterator. cbn [mi_table]. by rewrite Hn.
  - exists (mkMI (table_ t) (last (L 0%nat))). split.
    + cbn. unfold mi_move, omt_NewIterator. cbn [mi_table]. by rewrite (SeekToLast_holds _ _ _ _ _ Hh).
    + apply (mi_backward _ L (map boundle ps) (L 0%nat) []); [done | by rewrite app_nil_r | done].
  - cbn. unfold omt_NewIterator, places. cbn [it_Seek MemIterator_ops]. rewrite ExtractUserKey_MakeKey, ExtractTag_MakeKey by done.
    cbn [ofopt obind sequence_number]. unfold mi_move. cbn [mi_table]. unfold sl_Seek, FindGreaterOrEqual, KeyComparator.
    destruct (search_holds kb_key icmp _ L _ (KeyBoundleForSeek u s) Hh) as (prev & -> & _). cbn [obind].
    eexists. split; [reflexivity|]. rewrite map_entries by done.
    rewrite <- (entries_ge_puts (KeyBoundleForSeek u s))
      by (done || (intros k; rewrite kb_key_probe by done; by apply probe_compare)).
    pose proof (lo_hi _ _ (before_downward kb_key icmp (table_ t) (KeyBoundleForSeek u s) _ _ Hk Hs)) as Hsplit.
    eapply mi_forward; [exact Hh | exact Hsplit |]. by apply (map_before kb_key icmp).
Qed.
(** *** Putting records *)

Lemma filter_map {A B} (f : A -> B) (P : B -> Prop) (Q : A -> Prop) `{!forall x, Decision (P x), !forall x, Decision (Q x)} l :
  (forall x, P (f x) <-> Q x) -> filter P (map f l) = map f (filter Q l).
Proof.
  intros HPQ. induction l as [|x l IH]; [done|]. cbn [map]. rewrite !filter_cons. destruct (decide (Q x)) as [Hx|Hx].
  - rewrite decide_True by by apply HPQ. cbn. by rewrite IH.
  - rewrite decide_False by by rewrite HPQ. exact IH.
Qed.

Lemma put_keys_map p ps :
  exists ps', put_keys kb_key icmp (boundle p) (map boundle ps) = map boundle ps' /\ ps' ≡ₚ p :: ps.
Proof.
  set (b q := compare_by kb_key icmp (boundle q) (boundle p) <? 0).
  exists (filter (fun q => b q = true) ps ++ p :: filter (fun q => b q = false) ps). split.
  - unfold put_keys, keys_lt, keys_ge. rewrite !map_app. cbn [map].
    by rewrite (filter_map boundle _ (fun q => b q = true)), (filter_map boundle _ (fun q => b q = false)).
  - rewrite <- Permutation_middle. constructor. clear. induction ps as [|q ps IH]; [done|].
    rewrite !filter_cons. destruct (b q); [rewrite decide_True, decide_False | rewrite decide_False, decide_True]; try done.
    + cbn. by constructor.
    + rewrite <- Permutation_middle. by constructor.
Qed.

(** [p] is a version of its key that no other record has. *)
Definition other (p q : put_) : Prop := ucmp (p_key q) (p_key p) = 0 -> p_version q <> p_version p.

Lemma omt_Put_inv t ps p rand :
  mem_inv t ps -> put_ok p -> Forall (other p) ps ->
  exists t' ps', omt_Put ucmp (p_key p) (p_value p) (p_version p) (p_flag p) rand t = Done (t', snd (RandomHeight rand)) /\
    mem_inv t' ps' /\ ps' ≡ₚ p :: ps.
Proof.
  intros ([L Hh] & Hok & Hn) Hp Hne. destruct (put_keys_map p ps) as (ps' & Eps & Hperm).
  destruct (Put_holds kb_key icmp (boundle p) rand (table_ t) L (map boundle ps) Hh) as (l & L' & E & Hh').
  { rewrite Forall_map. rewrite Forall_forall in *. intros q Hq Hc. specialize (Hne q Hq). specialize (Hok q Hq).
    unfold compare_by in Hc. pose proof (kb_entry_boundle _ Hp) as E1. pose proof (kb_entry_boundle _ Hok) as E2.
    unfold kb_entry, entry_of in E1, E2. injection E1 as E1 _. injection E2 as E2 _. rewrite E1, E2 in Hc.
    rewrite InternalCompare_MakeKey in Hc by (apply Hp || apply Hok). unfold other in Hne.
    destruct (Z.eqb_spec (ucmp (p_key q) (p_key p)) 0) as [E0|E0]; cbn [negb] in Hc; [|done].
    specialize (Hne E0). revert Hc. case_cmps. }
  unfold omt_Put. unfold KeyComparator. fold (boundle p). rewrite E. cbn [obind]. eexists _, ps'. split; [reflexivity|].
  split; [|done]. rewrite Eps in Hh'. split; [by exists L'|]. split; [rewrite Hperm; by constructor|].
  cbn. rewrite Hn. unfold zlen. rewrite (Permutation_length Hperm). cbn [length]. rewrite Nat2Z.inj_succ. unfold wrap. by rewrite Zplus_mod_idemp_l.
Qed.

(** The calls [ps] one after the other. *)
Fixpoint omt_put_all (ps : list put_) (rand : list Z) (t : OrderedMemoryTable) : outcome (OrderedMemoryTable * list Z) :=
  match ps with
  | [] => Done (t, rand)
  | p :: ps => obind (omt_Put ucmp (p_key p) (p_value p) (p_version p) (p_flag p) rand t) (fun '(t, rand) => omt_put_all ps rand t)
  end.

Lemma New_mem_inv : mem_inv NewOrderedMemoryTable [].
Proof. split; [exists (fun _ => []); apply New_holds | by split]. Qed.

Lemma omt_put_all_inv ps rand t qs :
  mem_inv t qs -> Forall put_ok ps -> ForallOrdPairs other ps -> Forall (fun p => Forall (other p) qs) ps ->
  exists t' ps' rand', omt_put_all ps rand t = Done (t', rand') /\ mem_inv t' ps' /\ ps' ≡ₚ ps ++ qs.
Proof.
  intros Ht Hok Hd. revert rand t qs Ht Hok. induction Hd as [|p ps Hp Hd IH]; intros rand t qs Ht Hok Hq; cbn.
  - by exists t, qs, rand.
  - apply Forall_cons in Hok as [Hpo Hok]. apply Forall_cons in Hq as [Hpq Hq].
    destruct (omt_Put_inv t qs p rand Ht Hpo Hpq) as (t1 & q1 & -> & Ht1 & Hq1). cbn [obind].
    destruct (IH (snd (RandomHeight rand)) t1 q1 Ht1 Hok) as (t2 & q2 & r2 & -> & Ht2 & Hq2).
    { rewrite Forall_forall in *. intros q Hqi. rewrite Hq1. constructor; [|by apply Hq].
      specialize (Hp q Hqi). unfold other in *. intros E E'. by apply Hp; [apply (cmp_eq_sym ucmp) |]. }
    exists t2, q2, r2. split_and!; [done..|]. by rewrite Hq2, Hq1, Permutation_middle.
Qed.
(** *** Lookups *)

Lemma first_ge_head t es : first_ge icmp t es = head (entries_ge t es).
Proof.
  induction es as [|e es IH]; [done|]. unfold entries_ge. cbn [first_ge]. rewrite filter_cons.
  destruct (_ <? 0); [by rewrite decide_False | by rewrite decide_True].
Qed.

(** [Get] answers what the sorted entries do, but does not assign the value of
    a deletion. *)
Lemma omt_Get_table `{!ComparatorExact ucmp} t ps uk sq :
  mem_inv t ps -> is_u 56 sq -> zlen uk < 2 ^ 32 ->
  omt_Get ucmp uk sq t = Done
    match table_get ucmp (MakeKey uk sq (flag_code kFlagValueForSeek)) (map entry_of ps) with
    | inl _ => inl kNotFound
    | inr (tag, v) => inr (tag, if flag tag =? flag_code kFlagValue then Some v else None)
    end.
Proof.
  intros ([L Hh] & Hok & _) Hsq Hu. unfold omt_Get, sl_Seek, KeyComparator.
  destruct (Find_holds kb_key icmp _ _ _ (KeyBoundleForSeek uk sq) Hh) as (l & prev & -> & Hl). cbn [obind].
  assert (Ht : tag_ok (mkTag sq (flag_code kFlagValueForSeek))) by (split; [done | unfold is_u; cbn; lia]).
  unfold table_get. rewrite first_ge_head.
  rewrite <- (entries_ge_puts (KeyBoundleForSeek uk sq)) by (done || (intros k; by rewrite kb_key_probe)).
  rewrite parsed_MakeKey by done. cbn [fst].
  destruct l as [|x l], (keys_ge _ _ _ _) as [|kb kbs] eqn:Eg; try done. cbn [head map] in *. injection Hl as Hx Hl.
  rewrite Hx. cbn [ofopt obind].
  assert (kb ∈ map boundle ps) as Hin.
  { assert (kb ∈ keys_ge kb_key icmp (KeyBoundleForSeek uk sq) (map boundle ps)) as H1 by (rewrite Eg; by left).
    by apply list_elem_of_filter in H1 as [_ H1]. }
  apply list_elem_of_In, in_map_iff in Hin as (p & <- & Hp%list_elem_of_In).
  rewrite Forall_forall in Hok. destruct (Hok p Hp) as [Hpt Hpk].
  pose proof (kb_entry_boundle p (Hok p Hp)) as Ekb. rewrite Ekb. unfold entry_of. rewrite parsed_MakeKey by done.
  destruct (kb_views (p_key p) (p_value p) (p_version p) (p_flag p) Hpk) as (Eu & _ & Ev). fold (boundle p) in Eu, Ev.
  pose proof (kb_tag_New (p_key p) (p_value p) (p_version p) (p_flag p) Hpt Hpk) as Eg'. fold (boundle p) in Eg'.
  rewrite Eu, Ev, Eg'. cbn [fst snd]. destruct (Z.eqb_spec (ucmp (p_key p) uk) 0) as [E|E].
  - apply cmp_exact in E. by rewrite bool_decide_true.
  - rewrite bool_decide_false; [done|]. intros Hu'. by rewrite Hu', cmp_refl in E.
Qed.

(** What a lookup for a key at a version answers when the records are [ps]: the
    newest record of the key that is not newer, with its tag and, unless it is
    a deletion, its value; an error only when the key has no such record. *)
Definition answers (ps : list put_) (uk : bytes) (sq : Z) (r : error + Tag * option bytes) : Prop :=
  match r with
  | inr (tag, v) =>
    exists p, p ∈ ps /\ p_key p = uk /\ p_version p <= sq /\ tag = mkTag (p_version p) (p_flag p) /\
      v = (if p_flag p =? flag_code kFlagValue then Some (p_value p) else None) /\
      forall q, q ∈ ps -> p_key q = uk -> p_version q <= sq -> p_version q <= p_version p
  | inl err => err = kNotFound /\ forall q, q ∈ ps -> p_key q = uk -> sq < p_version q
  end.

(** A lookup in the sorted entries of the records [ps]. *)
Lemma table_get_answers `{!ComparatorExact ucmp} ps es uk sq :
  (forall e, e ∈ es <-> exists p, p ∈ ps /\ e = entry_of p) -> Forall put_ok ps -> StronglySorted (kv_lt icmp) es -> is_u 56 sq ->
  answers ps uk sq
    match table_get ucmp (MakeKey uk sq (flag_code kFlagValueForSeek)) es with
    | inl _ => inl kNotFound
    | inr (tag, v) => inr (tag, if flag tag =? flag_code kFlagValue then Some v else None)
    end.
Proof.
  intros Hes Hok Hs Hsq. rewrite Forall_forall in Hok.
  assert (Ht' : tag_ok (mkTag sq (flag_code kFlagValueForSeek))) by (split; [done | unfold is_u; cbn; lia]).
  pose proof (table_get_visible ucmp uk sq _ es Ht' Hs) as Hvis.
  assert (Hver : Forall (fun e => exists u s, versioned u s e) es).
  { apply Forall_forall. intros e (p & Hp & ->)%Hes. destruct (Hok p Hp) as [Hp' _].
    by exists (p_key p), (p_version p), (p_flag p), (p_value p). }
  specialize (Hvis Hver).
  assert (Hmem : forall q, q ∈ ps -> entry_of q ∈ es /\ versioned (p_key q) (p_version q) (entry_of q)).
  { intros q Hq. split; [apply Hes; by exists q|]. destruct (Hok q Hq) as [Hq' _]. by exists (p_flag q), (p_value q). }
  destruct (table_get _ _ _) as [err|[tag v]].
  - destruct Hvis as [_ Hvis]. split; [done|]. intros q Hq <-. destruct (Hmem q Hq) as [H1 H2].
    eapply Hvis; [exact H1 | exact H2 | apply cmp_refl].
  - destruct Hvis as ((u & Htag & Hin & Eu) & Hle & Hvis).
    apply Hes in Hin as (p & Hin & Ep).
    destruct (Hok p Hin) as [Hpt _]. unfold entry_of in Ep. injection Ep as Ek ->.
    pose proof (ParseTaggedKey_MakeKey (p_key p) _ _ Hpt) as E1. destruct tag as [ts tf]. cbn in *.
    rewrite <- Ek, ParseTaggedKey_MakeKey in E1 by done. injection E1 as -> -> ->.
    apply cmp_exact in Eu. exists p. split_and!; [done..|].
    intros q Hq Hqu Hqs. destruct (Hmem q Hq) as [H1 H2].
    eapply Hvis; [exact H1 | exact H2 | by rewrite Hqu, cmp_refl | done].
Qed.

Lemma omt_Get_answers `{!ComparatorExact ucmp} t ps uk sq :
  mem_inv t ps -> is_u 56 sq -> zlen uk < 2 ^ 32 ->
  exists r, omt_Get ucmp uk sq t = Done r /\ answers ps uk sq r.
Proof.
  intros Ht Hsq Hu. rewrite (omt_Get_table t ps) by done. eexists. split; [done|].
  apply table_get_answers; [|apply Ht | by eapply mem_inv_sorted | done].
  intros e. rewrite list_elem_of_fmap. split; intros (p & H1 & H2); by exists p.
Qed.

Lemma answers_perm ps ps' uk sq r : ps ≡ₚ ps' -> answers ps uk sq r -> answers ps' uk sq r.
Proof.
  intros Hp. destruct r as [err|[tag v]]; cbn.
  - intros [He Hn]. split; [done|]. intros q Hq. apply Hn. by rewrite Hp.
  - intros (p & Hin & H1 & H2 & H3 & H4 & Hn). exists p. rewrite <- Hp. split_and!; [done..|].
    intros q Hq. apply Hn. by rewrite Hp.
Qed.

(** C28: A memory table in which records have been put, each under a version of
    its own, takes them all, and a lookup at a version returns the newest
    record of the key that is not newer, with its tag and, unless it is a
    deletion, its value; it fails only when the key has no such record. *)
Theorem OrderedMemoryTable_Get `{!ComparatorExact ucmp} ps rand :
  Forall put_ok ps -> ForallOrdPairs other ps ->
  exists t rand', omt_put_all ps rand NewOrderedMemoryTable = Done (t, rand') /\
    NumEntries t = wrap 64 (zlen ps) /\
    forall uk sq, is_u 56 sq -> zlen uk < 2 ^ 32 ->
    exists r, omt_Get ucmp uk sq t = Done r /\ answers ps uk sq r.
Proof.
  intros Hok Hd. destruct (omt_put_all_inv ps rand NewOrderedMemoryTable [] New_mem_inv Hok Hd) as (t & ps' & rand' & E & Ht & Hp).
  { by apply Forall_forall. }
  rewrite app_nil_r in Hp. exists t, rand'. split; [done|]. split.
  { unfold NumEntries. destruct Ht as (_ & _ & ->). unfold zlen. by rewrite (Permutation_length Hp). }
  intros uk sq Hsq Hu. destruct (omt_Get_answers t ps' uk sq Ht Hsq Hu) as (r & E' & Hr).
  exists r. split; [done|]. by eapply answers_perm.
Qed.

End records.

(** ** The interface *)

(** What the database asks of a [core::MemoryTable]: the factory's call for the
    user comparator of a family, [Put] and [Get].  [mt_roomy] is the test of
    the memory usage and of the conflict factor (a [float]) against the options
    of the family. *)
Class MemTable (T : Type) := {
  mt_New : (bytes -> bytes -> Z) -> T;
  mt_Put : bytes -> bytes -> Z -> Z -> T -> outcome T;
  mt_Get : bytes -> Z -> T -> outcome (error + Tag * option bytes);
  mt_roomy : T -> bool;
}.

(** A table holds records, takes those of a new version, and answers lookups
    by the records it holds. *)
Class MemTableLaws (T : Type) `{MemTable T} := {
  mt_holds : (bytes -> bytes -> Z) -> T -> list put_ -> Prop;
  mt_New_holds ucmp : mt_holds ucmp (mt_New ucmp) [];
  mt_Put_holds ucmp t ps p : ComparatorLaws ucmp ->
    mt_holds ucmp t ps -> put_ok p -> Forall (other ucmp p) ps ->
    exists t', mt_Put (p_key p) (p_value p) (p_version p) (p_flag p) t = Done t' /\ mt_holds ucmp t' (p :: ps);
  mt_Get_answers ucmp t ps uk sq : ComparatorLaws ucmp -> ComparatorExact ucmp ->
    mt_holds ucmp t ps -> is_u 56 sq -> zlen uk < 2 ^ 32 ->
    exists r, mt_Get uk sq t = Done r /\ answers ps uk sq r;
}.

(** [MemoryTable::KeyExists], which no table overrides. *)
Definition mt_KeyExists {T} `{MemTable T} (key : bytes) (version : Z) (t : T) : outcome bool :=
  obind (mt_Get key version t) (fun r => Done (match r with inl e => ok e | inr _ => true end)).

(** The records that a key exists by. *)
Definition has_key (ps : list put_) (uk : bytes) (sq : Z) : bool :=
  existsb (fun p => bool_decide (p_key p = uk) && (p_version p <=? sq)) ps.

Lemma mt_KeyExists_has {T} `{!MemTable T, !MemTableLaws T} ucmp (t : T) ps uk sq :
  ComparatorLaws ucmp -> ComparatorExact ucmp -> mt_holds ucmp t ps -> is_u 56 sq -> zlen uk < 2 ^ 32 ->
  mt_KeyExists uk sq t = Done (has_key ps uk sq).
Proof.
  intros Hl He Hh Hsq Hk. destruct (mt_Get_answers ucmp t ps uk sq Hl He Hh Hsq Hk) as (r & E & Hr).
  unfold mt_KeyExists. rewrite E. cbn [obind]. f_equal. symmetry. unfold has_key. destruct r as [err|[tag v]]; cbn [answers] in Hr.
  - destruct Hr as [-> Hn]. change (ok kNotFound) with false. apply not_true_iff_false. intros Hx.
    apply existsb_exists in Hx as (p & Hp & [Hpk Hpv]%andb_true_iff). apply bool_decide_eq_true in Hpk.
    specialize (Hn p ltac:(by apply list_elem_of_In) Hpk). lia.
  - destruct Hr as (p & Hp & Hpk & Hpv & _). apply existsb_exists. exists p. split; [by apply list_elem_of_In|].
    rewrite bool_decide_true by done. by apply Z.leb_le.
Qed.

(** An ordered table with its comparator and the numbers its engine will give. *)
Record OrderedTable := mkOrdered { ot_ucmp : bytes -> bytes -> Z; ot_table : OrderedMemoryTable; ot_rand : list Z }.

(** [engine] are the numbers of a new engine (they are always the same), and
    [usage] the test of the memory usage; the conflict factor is 0. *)
Definition Ordered_ops (engine : list Z) (usage : OrderedMemoryTable -> bool) : MemTable OrderedTable := {|
  mt_New ucmp := mkOrdered ucmp NewOrderedMemoryTable engine;
  mt_Put key value version flag t :=
    obind (omt_Put (ot_ucmp t) key value version flag (ot_rand t) (ot_table t)) (fun '(m, rand) =>
      Done (mkOrdered (ot_ucmp t) m rand));
  mt_Get key version t := omt_Get (ot_ucmp t) key version (ot_table t);
  mt_roomy t := usage (ot_table t);
|}.

Lemma other_perm ucmp p ps ps' : ps ≡ₚ ps' -> Forall (other ucmp p) ps -> Forall (other ucmp p) ps'.
Proof. intros <-. done. Qed.

#[refine] Instance Ordered_laws engine usage : MemTableLaws OrderedTable (H := Ordered_ops engine usage) := {|
  mt_holds ucmp t ps := ot_ucmp t = ucmp /\ exists qs, mem_inv ucmp (ot_table t) qs /\ qs ≡ₚ ps;
|}.
Proof.
  - intros ucmp. split; [done|]. exists []. split; [apply New_mem_inv | done].
  - intros ucmp [u m rand] ps p Hl [Hu (qs & Hm & Hp)] Hok Hother. cbn in *. subst u.
    destruct (omt_Put_inv ucmp m qs p rand Hm Hok) as (m' & qs' & -> & Hm' & Hqs); [by rewrite Hp|].
    cbn [obind]. eexists. split; [done|]. split; [done|]. exists qs'. split; [done|]. by rewrite Hqs, Hp.
  - intros ucmp [u m rand] ps uk sq Hl He [Hu (qs & Hm & Hp)] Hsq Hk. cbn in *. subst u.
    destruct (omt_Get_answers ucmp m qs uk sq Hm Hsq Hk) as (r & E & Hr). exists r. split; [done|].
    by eapply answers_perm.
Defined.

(** What the flush of a table asks of it: its iterator and its size. *)
Class MemScan (T I : Type) := {
  mt_NewIterator : T -> I;
  mt_NumEntries : T -> Z;
}.

(** The iterator goes through the entries of the records, in order. *)
Class MemScanLaws (T I : Type) `{!MemTable T, !MemTableLaws T, !Iterator I, !MemScan T I} : Prop := {
  mt_scan ucmp (t : T) ps : ComparatorLaws ucmp -> mt_holds ucmp t ps ->
    exists es, es ≡ₚ map entry_of ps /\ StronglySorted (kv_lt (InternalCompare ucmp)) es /\
      it_error (mt_NewIterator t : I) = kOk /\ places it_SeekToFirst (mt_NewIterator t : I) es;
  mt_count ucmp (t : T) ps : mt_holds ucmp t ps -> mt_NumEntries (I := I) t = wrap 64 (zlen ps);
}.

(** The iterator of an ordered table, with its comparator. *)
Record OrderedIterator := mkOI { oi_ucmp : bytes -> bytes -> Z; oi_iter : MemIterator }.

Definition oi_move (f : Iterator MemIterator -> MemIterator -> outcome MemIterator) (it : OrderedIterator) :
    outcome OrderedIterator :=
  obind (f (MemIterator_ops (oi_ucmp it)) (oi_iter it)) (fun i => Done (mkOI (oi_ucmp it) i)).

#[export] Instance OrderedIterator_ops : Iterator OrderedIterator := {|
  it_Valid it := it_Valid (Iterator := MemIterator_ops (oi_ucmp it)) (oi_iter it);
  it_SeekToFirst := oi_move (fun ops => it_SeekToFirst (Iterator := ops));
  it_SeekToLast := oi_move (fun ops => it_SeekToLast (Iterator := ops));
  it_Seek target := oi_move (fun ops => it_Seek (Iterator := ops) target);
  it_Next := oi_move (fun ops => it_Next (Iterator := ops));
  it_Prev := oi_move (fun ops => it_Prev (Iterator := ops));
  it_current it := it_current (Iterator := MemIterator_ops (oi_ucmp it)) (oi_iter it);
  it_error it := it_error (Iterator := MemIterator_ops (oi_ucmp it)) (oi_iter it);
|}.

#[export] Instance Ordered_scan : MemScan OrderedTable OrderedIterator := {|
  mt_NewIterator t := mkOI (ot_ucmp t) (omt_NewIterator (ot_table t));
  mt_NumEntries t := NumEntries (ot_table t);
|}.

Lemma oi_forward ucmp it es :
  runs (Iterator0 := MemIterator_ops ucmp) (it_Next (Iterator := MemIterator_ops ucmp)) it es ->
  runs (Iterator0 := OrderedIterator_ops) (it_Next (Iterator := OrderedIterator_ops)) (mkOI ucmp it) es.
Proof.
  revert it. induction es as [|e es IH]; intros it; cbn [runs]; [done|]. intros (Hv & Hc & it' & Hn & Hr).
  split; [exact Hv|]. split; [exact Hc|]. exists (mkOI ucmp it'). split; [|by apply IH].
  cbn [it_Next OrderedIterator_ops]. unfold oi_move. cbn [oi_ucmp oi_iter]. by rewrite Hn.
Qed.

#[export] Instance Ordered_scan_laws engine usage :
  MemScanLaws OrderedTable OrderedIterator (MemTable0 := Ordered_ops engine usage) (MemTableLaws0 := Ordered_laws engine usage).
Proof.
  split.
  - intros ucmp [u m rand] ps Hl [Hu (qs & Hm & Hp)]. cbn in Hu, Hm. subst u. exists (map entry_of qs).
    split; [by rewrite Hp|]. split; [by apply (mem_inv_sorted ucmp m)|]. split; [done|].
    pose proof Hm as ([L Hh] & Hok & _). pose proof Hh as (Hr & _ & _). rewrite <- map_entries by done.
    exists (mkOI ucmp (mkMI (table_ m) (head (L 0%nat)))). split.
    + pose proof (path_next _ 0 head_ [] (L 0%nat) (rep_path _ _ Hr 0 ltac:(unfold kMaxHeight; lia))) as Hn. cbn in Hn.
      cbn. unfold oi_move. cbn. unfold mi_move, sl_SeekToFirst, omt_NewIterator. cbn [mi_table]. by rewrite Hn.
    + apply oi_forward. apply (mi_forward ucmp _ L (map boundle qs) (L 0%nat) []); [done..|].
      by destruct Hh as (_ & Hk & _).
  - intros ucmp [u m rand] ps [_ (qs & (_ & _ & Hn) & Hp)]. cbn in *. unfold NumEntries. rewrite Hn. unfold zlen.
    by rewrite (Permutation_length Hp).
Qed.

(** ** A table of three records *)

Definition sample_puts : list put_ :=
  [mkPut [97] [1] 1 0; mkPut [98] [] 2 1; mkPut [97] [3] 3 0].

Lemma sample_puts_ok : Forall put_ok sample_puts.
Proof. repeat (apply Forall_cons_2; [repeat split; (done || vm_compute; congruence)|]). constructor. Qed.

Lemma sample_puts_other : ForallOrdPairs (other lex) sample_puts.
Proof.
  repeat apply FOP_cons; [..|constructor]; repeat (apply Forall_cons_2; [intros ?; vm_compute in *; congruence|]);
    apply Forall_nil_2.
Qed.

Lemma OrderedMemoryTable_Get_witness :
  exists t rand', omt_put_all lex sample_puts [0; 0; 1; 2; 3] NewOrderedMemoryTable = Done (t, rand') /\
    omt_Get lex [97] 2 t = Done (inr (mkTag 1 0, Some [1])) /\
    exists r, omt_Get lex [97] 2 t = Done r /\ answers sample_puts [97] 2 r.
Proof.
  destruct (OrderedMemoryTable_Get lex sample_puts [0; 0; 1; 2; 3] sample_puts_ok sample_puts_other)
    as (t & rand' & E & _ & H). exists t, rand'. split; [exact E|].
  specialize (H [97] 2 ltac:(by vm_compute) ltac:(done)). split; [|exact H].
  vm_compute in E. injection E as <- <-. vm_compute. reflexivity.
Defined.

Lemma MemIterator_scan_witness :
  exists t ps, mem_inv lex t ps /\
    places (H := MemIterator_ops lex) (it_Seek (Iterator := MemIterator_ops lex) (MakeKey [97] 2 0)) (omt_NewIterator t)
      (entries_ge lex (MakeKey [97] 2 0) (map entry_of ps)).
Proof.
  destruct (omt_put_all_inv lex sample_puts [0; 0; 1; 2; 3] NewOrderedMemoryTable [] (New_mem_inv lex)
    sample_puts_ok sample_puts_other ltac:(by apply Forall_forall)) as (t & ps & rand' & _ & Hinv & _).
  exists t, ps. split; [done|].
  apply (MemIterator_scan lex t ps [97] 2 0 Hinv); [by vm_compute | done].
Defined.
