(* ===== verification/UnorderedTable.v ===== *)
(** * UnorderedTable

    src/core/unordered-memory-table.{h,cc}: the memory table of a family with
    the option [use_unordered_table], a [HashMap] of [KeyBoundle]s by their user
    keys.

    It is the second instance of [MemTable] ([Unordered_laws]): what the files
    of the database state about writing, reading and recovering holds for it as
    well.  Its iterator goes bucket by bucket, so it is no instance of
    [MemScan]; it visits every record once ([UnorderedMemoryTable_scan]). *)

From S2P Require Import Prelude Slice Hash Keys Entries SkipList Iterator Merging HashMap MemoryTable.

Section unordered_table.
(** [Comparator::Compare] and [Comparator::Hash] of the user's comparator. *)
Context (ucmp : bytes -> bytes -> Z) (uhash : bytes -> Z).

#[local] Abbreviation icmp := (InternalCompare ucmp).

(** [KeyComparator], by [InternalKeyComparator]; a key always has a tag. *)
Definition kc_Compare : KeyBoundle -> KeyBoundle -> Z := compare_by kb_key icmp.
Definition kc_Hash (key : KeyBoundle) : Z := match ExtractUserKey (kb_key key) with Some user_key => uhash user_key | None => 0 end.

#[local] Abbreviation Table := (HashMap KeyBoundle).

Definition NewUnorderedMemoryTable (initial_slot : nat) : Table := NewHashMap (mkKB [] 0 0) initial_slot.

Definition umt_Put (key value : bytes) (version flag : Z) (t : Table) : outcome Table :=
  HashMap.Put kc_Compare kc_Hash (KeyBoundleNew key value version flag) t.

Definition umt_Get (key : bytes) (version : Z) (t : Table) : outcome (error + Tag * option bytes) :=
  (do! iter := hi_Seek kc_Compare kc_Hash (KeyBoundleForSeek key version) t in
   if negb (hi_Valid iter t) then Done (inl kNotFound)
   else
     do! kb := ofopt (hi_key iter t) in
     if negb (bool_decide (kb_user_key kb = key)) then Done (inl kNotFound)
     else Done (inr (kb_tag kb, if flag (kb_tag kb) =? flag_code kFlagValue then Some (kb_value kb) else None)))%out.

Definition umt_NumEntries (t : Table) : Z := HashMap.n_entries_ t.

(** [IteratorImpl]; [SeekToLast] and [Prev] are no operations of it. *)
Record UnorderedIterator := mkUI { ui_table : Table; iter_ : HIterator; ui_error : error }.

Definition umt_NewIterator (t : Table) : UnorderedIterator := mkUI t (NewHIterator t) kOk.

Definition Noreached (it : UnorderedIterator) : outcome UnorderedIterator := Done (mkUI (ui_table it) (iter_ it) kCorruption).

Definition ui_move (f : Table -> outcome HIterator) (it : UnorderedIterator) : outcome UnorderedIterator :=
  obind (f (ui_table it)) (fun i => Done (mkUI (ui_table it) i (ui_error it))).

Definition UnorderedIterator_ops : Iterator UnorderedIterator := {|
  it_Valid it := hi_Valid (iter_ it) (ui_table it);
  it_SeekToFirst it := ui_move (hi_SeekToFirst (iter_ it)) it;
  it_SeekToLast := Noreached;
  it_Seek target it :=
    (do! user_key := ofopt (ExtractUserKey target) in
     do! tag := ofopt (ExtractTag target) in
     ui_move (hi_Seek kc_Compare kc_Hash (KeyBoundleForSeek user_key (sequence_number tag))) it)%out;
  it_Next it := ui_move (hi_Next (iter_ it)) it;
  it_Prev := Noreached;
  it_current it := kb ← hi_key (iter_ it) (ui_table it); Some (kb_key kb, kb_value kb);
  it_error it := ui_error it;
|}.
End unordered_table.

(** ** The records of a table *)

Section records.
Context (ucmp : bytes -> bytes -> Z) (uhash : bytes -> Z) `{!ComparatorLaws ucmp}.

#[local] Abbreviation icmp := (InternalCompare ucmp).
#[local] Abbreviation boundles qs := (fun i : nat => map boundle (qs i)).
#[local] Abbreviation all qs n := (in_buckets qs n).

(** The buckets hold the records [ps], sorted, each by its user key. *)
Record unordered_inv (t : HashMap KeyBoundle) (ps : list put_) : Prop := {
  ui_records : exists L (qs : nat -> list put_), HashMap.holds kb_key icmp (kc_Hash uhash) t L (boundles qs) /\
    (forall i, (i < HashMap.n_slots_ t)%nat -> StronglySorted (key_lt kb_key icmp) (boundles qs i)) /\ all qs (HashMap.n_slots_ t) ≡ₚ ps;
  ui_ok : Forall put_ok ps;
  ui_slots : (0 < HashMap.n_slots_ t)%nat;
  ui_count : HashMap.n_entries_ t = wrap 64 (zlen ps);
}.

Lemma kc_Hash_New key value version flag : zlen key < 2 ^ 32 -> kc_Hash uhash (KeyBoundleNew key value version flag) = uhash key.
Proof.
  intros Hk. unfold kc_Hash. destruct (kb_views key value version flag Hk) as (_ & -> & _). by rewrite ExtractUserKey_MakeKey.
Qed.

Lemma map_holds_ext m L ks ks' :
  (forall i, ks i = ks' i) -> HashMap.holds kb_key icmp (kc_Hash uhash) m L ks -> HashMap.holds kb_key icmp (kc_Hash uhash) m L ks'.
Proof. intros E [H1 H2 H3 H4]. split; [done|..]; intros i; rewrite <- E; auto. Qed.

Lemma New_unordered n : (0 < n)%nat -> unordered_inv (NewUnorderedMemoryTable n) [].
Proof.
  intros Hn. split; [|constructor|done|done]. exists (fun _ => []), (fun _ => []). split; [apply HashMap.map_New_holds|]. split; [constructor|].
  cbn. induction (seq 0 n); done.
Qed.

Lemma other_compare p q : put_ok p -> put_ok q -> other ucmp p q -> compare_by kb_key icmp (boundle q) (boundle p) <> 0.
Proof.
  intros Hp Hq Hne Hc. unfold compare_by in Hc. pose proof (kb_entry_boundle _ Hp) as E1. pose proof (kb_entry_boundle _ Hq) as E2.
  unfold kb_entry, entry_of in E1, E2. injection E1 as E1 _. injection E2 as E2 _. rewrite E1, E2 in Hc.
  rewrite InternalCompare_MakeKey in Hc by (apply Hp || apply Hq). unfold other in Hne.
  destruct (Z.eqb_spec (ucmp (p_key q) (p_key p)) 0) as [E0|E0]; cbn [negb] in Hc; [|done].
  specialize (Hne E0). revert Hc. case_cmps.
Qed.

Lemma umt_Put_inv t ps p :
  unordered_inv t ps -> put_ok p -> Forall (other ucmp p) ps ->
  exists t', umt_Put ucmp uhash (p_key p) (p_value p) (p_version p) (p_flag p) t = Done t' /\ unordered_inv t' (p :: ps).
Proof.
  intros [(L & qs & Hh & Hs & Hall) Hok Hn Hc] Hp Hne.
  destruct (HashMap.map_Put_holds kb_key icmp (kc_Hash uhash) t L (boundles qs) (boundle p) Hh Hn) as (i & t' & L' & Hi & E & Es & Ee & Hh').
  assert (Hlt : (i < HashMap.n_slots_ t)%nat) by (by eapply HashMap.slot_of_lt). exists t'. split; [exact E|].
  destruct (put_keys_map ucmp p (qs i)) as (q & Eq & Hq). split.
  - exists L', (fun j => if decide (j = i) then q else qs j). split_and!.
    + eapply map_holds_ext; [|exact Hh']. intros j. unfold put_at. by case_decide.
    + intros j. rewrite Es. intros Hj. case_decide as Ej; [subst j | by apply Hs]. rewrite <- Eq. apply put_keys_sorted; [apply _ | by apply Hs |].
      apply Forall_map, Forall_forall. intros x Hx. assert (x ∈ ps) as Hx' by (rewrite <- Hall; apply elem_of_buckets; by exists i).
      rewrite Forall_forall in Hok, Hne. apply other_compare; [done | by apply Hok | by apply Hne].
    + rewrite Es, buckets_put, Hall; done.
  - by constructor.
  - by rewrite Es.
  - rewrite Ee, Hc. rewrite zlen_cons. unfold wrap. rewrite Zplus_mod_idemp_l. f_equal. lia.
Qed.

(** What a bucket answers: the first key not below the probe. *)
Lemma umt_Get_bucket `{!ComparatorExact ucmp} t L qs uk sq i :
  HashMap.holds kb_key icmp (kc_Hash uhash) t L (boundles qs) -> Forall put_ok (qs i) -> is_u 56 sq -> zlen uk < 2 ^ 32 ->
  slot_of (kc_Hash uhash) (KeyBoundleForSeek uk sq) t = Done i ->
  umt_Get ucmp uhash uk sq t = Done
    match table_get ucmp (MakeKey uk sq (flag_code kFlagValueForSeek)) (map entry_of (qs i)) with
    | inl _ => inl kNotFound
    | inr (tag, v) => inr (tag, if flag tag =? flag_code kFlagValue then Some v else None)
    end.
Proof.
  intros Hh Hok Hsq Hu Hi. pose proof (HashMap.slot_of_lt _ _ _ _ Hi) as Hlt. unfold umt_Get, hi_Seek, HashMap.FindGreaterOrEqual, kc_Compare.
  destruct (HashMap.find_from_spec kb_key icmp (kc_Hash uhash) (fun c => 0 <=? c) (KeyBoundleForSeek uk sq) t L (boundles qs) i Hh Hi) as (r & -> & Hr).
  cbn [obind]. assert (Ht : tag_ok (mkTag sq (flag_code kFlagValueForSeek))) by (split; [done | unfold is_u; cbn; lia]).
  unfold table_get. rewrite first_ge_head.
  rewrite <- (entries_ge_puts ucmp (KeyBoundleForSeek uk sq)) by (done || (intros k; by rewrite kb_key_probe)).
  rewrite parsed_MakeKey by done. cbn [fst].
  assert (Hhead : head (keys_ge kb_key icmp (KeyBoundleForSeek uk sq) (map boundle (qs i))) = (x ← r; HashMap.key_of t x)).
  { destruct r as [x|]; cbn [mbind option_bind].
    - destruct Hr as (A & B & ka & k & kb & _ & Eks & _ & Hx & Hka & Hk). rewrite Eks, Hx. unfold keys_ge. rewrite filter_app, filter_none, filter_cons.
      + rewrite decide_True; [done|]. apply Z.leb_le in Hk. apply Z.ltb_ge. lia.
      + eapply Forall_impl; [exact Hka|]. cbn. intros y Hy%Z.leb_gt. apply Z.ltb_lt in Hy. rewrite Hy. done.
    - unfold keys_ge. rewrite filter_none; [done|]. eapply Forall_impl; [exact Hr|]. cbn. intros y Hy%Z.leb_gt. apply Z.ltb_lt in Hy. by rewrite Hy. }
  destruct r as [x|]; unfold hi_Valid; cbn [HashMap.slot_ HashMap.node_ mbind option_bind] in *.
  - destruct (Nat.ltb_spec i (HashMap.n_slots_ t)); [|lia]. rewrite bool_decide_eq_true_2 by done. cbn [andb negb].
    destruct Hr as (A & B & ka & k & kb & _ & Eks & _ & Hx & _). unfold hi_key. cbn [HashMap.node_ mbind option_bind]. rewrite Hx in *. cbn [ofopt obind].
    destruct (keys_ge _ _ _ _) as [|kb0 kbs]; [done|]. cbn [head] in Hhead. injection Hhead as ->. cbn [map head].
    assert (Hin : k ∈ map boundle (qs i)) by (rewrite Eks; apply elem_of_app; right; by left).
    apply list_elem_of_In, in_map_iff in Hin as (p & <- & Hp%list_elem_of_In). rewrite Forall_forall in Hok. destruct (Hok p Hp) as [Hpt Hpk].
    pose proof (kb_entry_boundle p (Hok p Hp)) as Ekb. rewrite Ekb. unfold entry_of. rewrite parsed_MakeKey by done.
    destruct (kb_views (p_key p) (p_value p) (p_version p) (p_flag p) Hpk) as (Eu & _ & Ev). fold (boundle p) in Eu, Ev.
    pose proof (kb_tag_New (p_key p) (p_value p) (p_version p) (p_flag p) Hpt Hpk) as Eg'. fold (boundle p) in Eg'.
    rewrite Eu, Ev, Eg'. cbn [fst snd]. destruct (Z.eqb_spec (ucmp (p_key p) uk) 0) as [E|E].
    + apply cmp_exact in E. by rewrite bool_decide_true.
    + rewrite bool_decide_false; [done|]. intros Hu'. by rewrite Hu', cmp_refl in E.
  - destruct (keys_ge _ _ _ _); [|done]. rewrite bool_decide_eq_false_2 by (by intros [? ?]). by rewrite andb_false_r.
Qed.

Lemma umt_Get_answers `{!ComparatorExact ucmp} t ps uk sq :
  unordered_inv t ps -> is_u 56 sq -> zlen uk < 2 ^ 32 -> exists r, umt_Get ucmp uhash uk sq t = Done r /\ answers ps uk sq r.
Proof.
  intros [(L & qs & Hh & Hs & Hall) Hok Hn _] Hsq Hu. destruct (HashMap.slot_of_done (kc_Hash uhash) (KeyBoundleForSeek uk sq) t Hn) as [i Hi].
  pose proof (HashMap.slot_of_lt _ _ _ _ Hi) as Hlt.
  assert (Hsub : forall p, p ∈ qs i -> p ∈ ps) by (intros p Hp; rewrite <- Hall; apply elem_of_buckets; by exists i).
  assert (Hoki : Forall put_ok (qs i)) by (apply Forall_forall; intros p Hp; rewrite Forall_forall in Hok; by apply Hok, Hsub).
  assert (Hkey : forall p, p ∈ ps -> p_key p = uk -> p ∈ qs i).
  { intros p Hp <-. rewrite <- Hall in Hp. apply elem_of_buckets in Hp as (j & Hj & Hp). assert (j = i) as ->; [|done].
    pose proof (HashMap.ho_slots _ _ _ _ _ _ Hh j (boundle p) Hj) as Hslot. cbn in Hslot. specialize (Hslot ltac:(by apply list_elem_of_fmap_2)).
    rewrite Forall_forall in Hok. assert (Hpk : zlen (p_key p) < 2 ^ 32) by (by apply Hu). unfold slot_of in Hi, Hslot.
    unfold boundle in Hslot. unfold KeyBoundleForSeek in Hi. rewrite kc_Hash_New in Hslot, Hi by done. congruence. }
  rewrite (umt_Get_bucket t L qs uk sq i) by done. eexists. split; [reflexivity|].
  pose proof (table_get_answers ucmp (qs i) (map entry_of (qs i)) uk sq) as Ha.
  assert (Hsorted : StronglySorted (kv_lt icmp) (map entry_of (qs i))).
  { pose proof (Hs i Hlt) as Hsi. cbn in Hsi. clear -Hsi Hoki ComparatorLaws0. revert Hsi. induction Hoki as [|p l Hp Hl IH]; [constructor|].
    cbn. intros [Hs Hf]%StronglySorted_inv. constructor; [by apply IH|]. rewrite Forall_map in *. rewrite Forall_forall in *. intros q Hq.
    specialize (Hf q Hq). unfold key_lt, compare_by, kv_lt in *. pose proof (kb_entry_boundle _ Hp) as E1. pose proof (kb_entry_boundle _ (Hl q Hq)) as E2.
    unfold kb_entry in E1, E2. rewrite <- E1, <- E2. exact Hf. }
  assert (Hes : forall e, e ∈ map entry_of (qs i) <-> exists p, p ∈ qs i /\ e = entry_of p).
  { intros e. rewrite list_elem_of_fmap. split; intros (p & H1 & H2); by exists p. }
  specialize (Ha Hes Hoki Hsorted Hsq). destruct (table_get _ _ _) as [err|[tag v]]; cbn in Ha |- *.
  - destruct Ha as [_ Ha]. split; [done|]. intros q Hq E. apply Ha; [by apply Hkey | done].
  - destruct Ha as (p & Hp & H1 & H2 & H3 & H4 & Hnew). exists p. split_and!; [by apply Hsub | done..|].
    intros q Hq E Hle. apply Hnew; [by apply Hkey | done | done].
Qed.

(** The calls [ps] one after the other. *)
Fixpoint umt_put_all (ps : list put_) (t : HashMap KeyBoundle) : outcome (HashMap KeyBoundle) :=
  match ps with
  | [] => Done t
  | p :: ps => obind (umt_Put ucmp uhash (p_key p) (p_value p) (p_version p) (p_flag p) t) (umt_put_all ps)
  end.

Lemma umt_put_all_inv ps t qs :
  unordered_inv t qs -> Forall put_ok ps -> ForallOrdPairs (other ucmp) ps -> Forall (fun p => Forall (other ucmp p) qs) ps ->
  exists t', umt_put_all ps t = Done t' /\ unordered_inv t' (rev ps ++ qs).
Proof.
  intros Ht Hok Hd. revert t qs Ht Hok. induction Hd as [|p ps Hp Hd IH]; intros t qs Ht Hok Hq; cbn; [by exists t|].
  apply Forall_cons in Hok as [Hpo Hok]. apply Forall_cons in Hq as [Hpq Hq].
  destruct (umt_Put_inv t qs p Ht Hpo Hpq) as (t1 & -> & Ht1). cbn [obind].
  destruct (IH t1 (p :: qs) Ht1 Hok) as (t2 & -> & Ht2).
  { rewrite Forall_forall in *. intros q Hqi. constructor; [|by apply Hq]. specialize (Hp q Hqi). unfold other in *. intros E E'.
    by apply Hp; [apply (cmp_eq_sym ucmp) |]. }
  exists t2. split; [done|]. by rewrite <- app_assoc.
Qed.

(** There is one answer when the versions of a key differ. *)
Lemma one_answer ps uk sq r r' :
  ForallOrdPairs (other ucmp) ps -> answers ps uk sq r -> answers ps uk sq r' -> r = r'.
Proof.
  intros Hd Hr Hr'. destruct r as [err|[tag v]], r' as [err'|[tag' v']]; cbn in Hr, Hr'.
  - destruct Hr as [-> _], Hr' as [-> _]. done.
  - destruct Hr as [_ Hn], Hr' as (p & Hp & E & Hle & _). specialize (Hn p Hp E). lia.
  - destruct Hr' as [_ Hn], Hr as (p & Hp & E & Hle & _). specialize (Hn p Hp E). lia.
  - destruct Hr as (p & Hp & E & Hle & -> & -> & Hnew), Hr' as (p' & Hp' & E' & Hle' & -> & -> & Hnew').
    assert (Ev : p_version p = p_version p') by (specialize (Hnew p' Hp' E' Hle'); specialize (Hnew' p Hp E Hle); lia).
    assert (p = p') as ->; [|done]. pose proof (fun H => ForallOrdPairs_In Hd p p' (proj1 (list_elem_of_In _ _) Hp) H) as Hx.
    destruct (Hx (proj1 (list_elem_of_In _ _) Hp')) as [?|[Ho|Ho]]; [done|..]; exfalso; apply Ho; rewrite ?E, ?E'; try done; apply cmp_refl.
Qed.

(** C25: The two kinds of memory tables agree: after the same records, each under a
    version of its own, have been put in both, with any hash function and any
    number of buckets, every lookup of the unordered table answers as that of
    the ordered one, and both count the records. *)
Theorem UnorderedMemoryTable_ordered `{!ComparatorExact ucmp} slots ps rand :
  (0 < slots)%nat -> Forall put_ok ps -> ForallOrdPairs (other ucmp) ps ->
  exists t u rand', umt_put_all ps (NewUnorderedMemoryTable slots) = Done t /\
    omt_put_all ucmp ps rand NewOrderedMemoryTable = Done (u, rand') /\ umt_NumEntries t = NumEntries u /\
    forall uk sq, is_u 56 sq -> zlen uk < 2 ^ 32 ->
    exists r, umt_Get ucmp uhash uk sq t = Done r /\ omt_Get ucmp uk sq u = Done r.
Proof.
  intros Hs Hok Hd. destruct (umt_put_all_inv ps (NewUnorderedMemoryTable slots) [] (New_unordered slots Hs) Hok Hd) as (t & Et & Ht); [by apply Forall_forall|].
  destruct (omt_put_all_inv ucmp ps rand NewOrderedMemoryTable [] (New_mem_inv ucmp) Hok Hd) as (u & ps' & rand' & Eu & Hu & Hp); [by apply Forall_forall|].
  rewrite app_nil_r in Ht, Hp. exists t, u, rand'. split_and!; [done | done | |].
  - unfold umt_NumEntries, NumEntries. rewrite (ui_count _ _ Ht). destruct Hu as (_ & _ & ->). unfold zlen. by rewrite length_rev, (Permutation_length Hp).
  - intros uk sq Hsq Hk. destruct (umt_Get_answers t (rev ps) uk sq Ht Hsq Hk) as (r & Er & Hr).
    destruct (omt_Get_answers ucmp u ps' uk sq Hu Hsq Hk) as (r' & Er' & Hr'). exists r. split; [done|]. rewrite Er'. f_equal.
    apply (one_answer ps uk sq); [done | by eapply answers_perm | eapply answers_perm; [|exact Hr]]. symmetry. apply Permutation_rev.
Qed.

(** The iterator visits every record once. *)
Lemma ui_runs t L ks fuel s A y B l :
  rep t L -> (s < HashMap.n_slots_ t)%nat -> L s = A ++ y :: B ->
  map (HashMap.key_of t) (y :: B ++ nodes_from t L (S s)) = map Some ks -> (length ks <= fuel)%nat ->
  l = map kb_entry ks ->
  runs (Iterator0 := UnorderedIterator_ops ucmp uhash) (it_Next (Iterator := UnorderedIterator_ops ucmp uhash)) (mkUI t (mkHI s (Some y)) kOk) l.
Proof.
  intros Hr. revert s A y B ks l. induction fuel as [|fuel IH]; intros s A y B [|k ks] l Hs Hl Hk Hf ->; try done; cbn in Hf; [lia|].
  cbn [map app] in Hk. injection Hk as Hy Hk. cbn [map runs]. split.
  { cbn. unfold hi_Valid. cbn [HashMap.slot_ HashMap.node_]. rewrite bool_decide_eq_true_2 by done. destruct (Nat.ltb_spec s (HashMap.n_slots_ t)); [done | lia]. }
  split; [cbn; by rewrite Hy|]. cbn [it_Next UnorderedIterator_ops]. unfold ui_move, hi_Next. cbn [ui_table iter_ HashMap.node_ HashMap.slot_ ofopt obind ui_error].
  pose proof (HashMap.chain_next t s (A ++ [y]) B) as Hp. rewrite <- app_assoc in Hp. cbn [app] in Hp. rewrite <- Hl in Hp. specialize (Hp (rep_path _ _ Hr s Hs)).
  unfold final in Hp. rewrite foldl_snoc in Hp. rewrite Hp. cbn [ofopt obind]. destruct B as [|z B]; cbn [head obind].
  - destruct (first_bucket_spec t L (HashMap.n_slots_ t - S s) (S s) Hr ltac:(lia)) as (r & -> & Hr'). cbn [obind]. destruct r as [[j z]|].
    + destruct Hr' as [Ht (k' & Hlt & E)]. cbn [app] in Hk. rewrite E in Hk. eexists. split; [reflexivity|].
      apply (IH j [] z k' ks); [lia | done | exact Hk | lia | done].
    + cbn [app] in Hk. rewrite Hr' in Hk. destruct ks; [|done]. eexists. split; [reflexivity|]. cbn. unfold hi_Valid. cbn. by rewrite andb_false_r.
  - eexists. split; [reflexivity|]. apply (IH s (A ++ [y]) z B ks); [done | by rewrite <- app_assoc | exact Hk | lia | done].
Qed.

Lemma UnorderedMemoryTable_scan t ps :
  unordered_inv t ps ->
  exists es, es ≡ₚ map entry_of ps /\
    places (H := UnorderedIterator_ops ucmp uhash) (it_SeekToFirst (Iterator := UnorderedIterator_ops ucmp uhash)) (umt_NewIterator t) es.
Proof.
  intros [(L & qs & Hh & Hs & Hall) Hok Hn _]. exists (map entry_of (all qs (HashMap.n_slots_ t))). split; [by rewrite Hall|].
  pose proof (HashMap.ho_rep _ _ _ _ _ _ Hh) as Hr. unfold places. cbn [it_SeekToFirst UnorderedIterator_ops]. unfold ui_move, hi_SeekToFirst, umt_NewIterator.
  cbn [ui_table iter_ ui_error]. destruct (first_bucket_spec t L (HashMap.n_slots_ t) 0 Hr eq_refl) as (r & -> & Hr'). cbn [obind].
  pose proof (map_keys_from _ _ _ t L (boundles qs) 0 Hh) as Hk. rewrite Nat.sub_0_r in Hk.
  assert (Eks : concat (map (boundles qs) (seq 0 (HashMap.n_slots_ t))) = map boundle (all qs (HashMap.n_slots_ t))) by (unfold in_buckets; by rewrite concat_map, map_map).
  rewrite Eks in Hk. assert (Eent : map kb_entry (map boundle (all qs (HashMap.n_slots_ t))) = map entry_of (all qs (HashMap.n_slots_ t))).
  { apply map_entries. by rewrite Hall. }
  destruct r as [[j y]|].
  - destruct Hr' as [Ht (l & Hl & E)]. rewrite E in Hk. eexists. split; [reflexivity|].
    eapply (ui_runs t L (map boundle (all qs (HashMap.n_slots_ t))) _ j [] y l); [done | lia | done | exact Hk | done | done].
  - rewrite Hr' in Hk. destruct (all qs (HashMap.n_slots_ t)); [|done]. eexists. split; [reflexivity|]. cbn. unfold hi_Valid. cbn. by rewrite andb_false_r.
Qed.
End records.

(** ** The interface *)

(** An unordered table with its comparator. *)
Record UnorderedTable := mkUnordered { un_ucmp : bytes -> bytes -> Z; un_table : HashMap KeyBoundle }.

(** [uhash] is the hash of the comparator, [slots] the number of buckets of a
    new table, and [usage] the test of the memory usage and the conflict
    factor. *)
Definition Unordered_ops (uhash : bytes -> Z) (slots : nat) (usage : HashMap KeyBoundle -> bool) : MemTable UnorderedTable := {|
  mt_New ucmp := mkUnordered ucmp (NewUnorderedMemoryTable slots);
  mt_Put key value version flag t :=
    obind (umt_Put (un_ucmp t) uhash key value version flag (un_table t)) (fun m => Done (mkUnordered (un_ucmp t) m));
  mt_Get key version t := umt_Get (un_ucmp t) uhash key version (un_table t);
  mt_roomy t := usage (un_table t);
|}.

Lemma unordered_perm ucmp uhash t ps ps' : ps ≡ₚ ps' -> unordered_inv ucmp uhash t ps -> unordered_inv ucmp uhash t ps'.
Proof.
  intros Hp [(L & qs & H1 & H2 & H3) H4 H5 H6]. split; [|by rewrite <- Hp | done |].
  - exists L, qs. split_and!; [done | done | by rewrite H3].
  - rewrite H6. unfold zlen. by rewrite (Permutation_length Hp).
Qed.

#[refine] Instance Unordered_laws uhash n usage : MemTableLaws UnorderedTable (H := Unordered_ops uhash (S n) usage) := {|
  mt_holds ucmp t ps := un_ucmp t = ucmp /\ unordered_inv ucmp uhash (un_table t) ps;
|}.
Proof.
  - intros ucmp. split; [done|]. apply New_unordered. lia.
  - intros ucmp [u m] ps p Hl [Hu Hm] Hok Hother. cbn in *. subst u.
    destruct (umt_Put_inv ucmp uhash m ps p Hm Hok Hother) as (m' & -> & Hm'). cbn [obind]. eexists. split; [done|]. by split.
  - intros ucmp [u m] ps uk sq Hl He [Hu Hm] Hsq Hk. cbn in *. subst u. by apply umt_Get_answers.
Defined.

(** ** A table of three records *)

Lemma UnorderedMemoryTable_ordered_witness :
  exists t u rand', umt_put_all lex BytewiseHash sample_puts (NewUnorderedMemoryTable 2) = Done t /\
    omt_put_all lex sample_puts [0; 1] NewOrderedMemoryTable = Done (u, rand') /\
    umt_Get lex BytewiseHash [97] 2 t = Done (inr (mkTag 1 0, Some [1])) /\
    exists r, umt_Get lex BytewiseHash [97] 2 t = Done r /\ omt_Get lex [97] 2 u = Done r.
Proof.
  assert (H1 : is_u 56 2) by (by vm_compute). assert (H2 : zlen [97] < 2 ^ 32) by done.
  destruct (UnorderedMemoryTable_ordered lex BytewiseHash 2 sample_puts [0; 1] ltac:(lia) sample_puts_ok sample_puts_other)
    as (t & u & rand' & Et & Eu & _ & H). exists t, u, rand'. split; [exact Et|]. split; [exact Eu|].
  specialize (H [97] 2 H1 H2). split; [|exact H].
  vm_compute in Et. apply Done_inj in Et. subst t. vm_compute. reflexivity.
Defined.
