(* ===== verification/LRU.v ===== *)
(** * LRU

    src/core/lru-cache-v1.{h,cc}, the cache under the table cache and the block
    cache, and the part of src/base/lock-group.{h,cc} that it uses.

    A handle is a node of a heap, a [LRUHandle *] an index of it; the heads of
    the two lists are the nodes 0 and 1 of the heap of their shard.  The lists
    are the pointers of the handles, and [ring] says that they go round through
    the handles of a list.  The table is a [HashMap] of the handles; what its
    comparator reads of a handle, its key and its hash, never changes while the
    handle is in the table, so it is kept with the pointer.

    A shard stays well-formed ([wf]): the lists hold the handles of the table
    that are not deleted, each once, no handle of the table is freed.  From
    this follow that every call of a client is defined ([Shard_ops_defined]) and
    that a handle that somebody holds stays as it is ([held_stays]).  An
    operation is one step. *)

From S2P Require Import Prelude Hash Keys SkipList HashMap.

(** ** Handles *)

(** [value] is gone when the deleter has been called for it; [deleter] tells
    whether there is one. *)
Record LRUHandle (V : Type) := mkHandle {
  next : option nat;
  prev : option nat;
  deleter : bool;
  refs : Z;
  id : Z;
  value : option V;
  key : bytes;
  hash_val : Z;
  flags : Z;
  hits : Z;
}.
Arguments mkHandle {V} _ _ _ _ _ _ _ _ _ _.
Arguments next {V} _.
Arguments prev {V} _.
Arguments deleter {V} _.
Arguments refs {V} _.
Arguments id {V} _.
Arguments value {V} _.
Arguments key {V} _.
Arguments hash_val {V} _.
Arguments flags {V} _.
Arguments hits {V} _.

(** What [malloc] has given; [None] is freed. *)
Abbreviation Heap V := (list (option (LRUHandle V))).

(** What the table knows of a handle: where it is, [key()] and [hash_val]. *)
Record Entry := mkEntry { e_handle : nat; e_key : bytes; e_hash : Z }.

(** ** Stripes of locks *)

(** A stripe is the mutex, held or not. *)
Record LockGroup := mkLG { lazy_init_ : bool; stripes_ : list bool; locks_ : Z }.

Definition NewLockGroup (n_stripes : nat) (lazy_init : bool) : LockGroup := mkLG lazy_init (replicate n_stripes false) 0.

(** The index of [Get(idx)]; a lazy group has no stripes. *)
Definition GetByKey (key : bytes) (g : LockGroup) : outcome nat :=
  if lazy_init_ g || (length (stripes_ g) =? 0)%nat then Undef else Done (Z.to_nat (Js key mod zlen (stripes_ g))).

Definition stripe_TryLock (i : nat) (g : LockGroup) : outcome (bool * LockGroup) :=
  (do! locked := ofopt (stripes_ g !! i : option bool) in
   if locked then Done (false, g) else Done (true, mkLG (lazy_init_ g) (<[i := true]> (stripes_ g)) (wrap 64 (locks_ g + 1))))%out.

Definition stripe_Unlock (i : nat) (g : LockGroup) : LockGroup :=
  mkLG (lazy_init_ g) (<[i := false]> (stripes_ g)) (wrap 64 (locks_ g - 1)).

Section handles.
Context {V : Type}.
Implicit Types (hs : Heap V) (h : LRUHandle V).

Definition handle (x : nat) hs : option (LRUHandle V) := mjoin (hs !! x).

(** A store to the fields of the handle [x]. *)
Definition upd (x : nat) (f : LRUHandle V -> LRUHandle V) hs : outcome (Heap V) :=
  match handle x hs with Some h => Done (<[x := Some (f h)]> hs) | None => Undef end.

Definition set_next (y : option nat) h := mkHandle y (prev h) (deleter h) (refs h) (id h) (value h) (key h) (hash_val h) (flags h) (hits h).
Definition set_prev (y : option nat) h := mkHandle (next h) y (deleter h) (refs h) (id h) (value h) (key h) (hash_val h) (flags h) (hits h).
Definition set_refs (n : Z) h := mkHandle (next h) (prev h) (deleter h) n (id h) (value h) (key h) (hash_val h) (flags h) (hits h).
Definition set_hits (n : Z) h := mkHandle (next h) (prev h) (deleter h) (refs h) (id h) (value h) (key h) (hash_val h) (flags h) n.
Definition set_value (v : option V) h := mkHandle (next h) (prev h) (deleter h) (refs h) (id h) v (key h) (hash_val h) (flags h) (hits h).

Definition is_deletion h : bool := negb (Z.land (flags h) 1 =? 0).

Definition set_flags (val : bool) (bits : Z) h : LRUHandle V :=
  let flags := if val then Z.lor (flags h) bits else Z.land (flags h) (wrap 32 (Z.lnot bits)) in
  mkHandle (next h) (prev h) (deleter h) (refs h) (id h) (value h) (key h) (hash_val h) flags (hits h).

Definition set_deletion (val : bool) : LRUHandle V -> LRUHandle V := set_flags val 1.

Definition AddRef h : LRUHandle V := set_refs (sgn 32 (refs h + 1)) h.
Definition ReleaseRef h : LRUHandle V := set_refs (sgn 32 (refs h - 1)) h.

(** [New]: all fields that are not given are zero. *)
Definition NewHandle (key : bytes) (v : V) (id : Z) hs : nat * Heap V :=
  (length hs, hs ++ [Some (mkHandle None None false 0 id (Some v) key 0 0 0)]).

Definition Free (x : nat) hs : outcome (Heap V) :=
  match handle x hs with Some _ => Done (<[x := None]> hs) | None => Undef end.

(** [intrusive_ptr<LRUHandle>::reset] *)
Definition reset (naked_ naked : option nat) hs : outcome (Heap V) :=
  (do! hs := (match naked_ with Some x => upd x ReleaseRef hs | None => Done hs end) in
   match naked with Some x => upd x AddRef hs | None => Done hs end)%out.

Definition LRU_Remove (x : nat) hs : outcome (Heap V) :=
  (do! h := ofopt (handle x hs) in
   do! p := ofopt (prev h) in
   do! n := ofopt (next h) in
   do! hs := upd p (set_next (Some n)) hs in
   upd n (set_prev (Some p)) hs)%out.

(** [list] is the head of a list; the handle becomes its last. *)
Definition LRU_Insert (list x : nat) hs : outcome (Heap V) :=
  (do! hs := upd x (set_next (Some list)) hs in
   do! l := ofopt (handle list hs) in
   do! p := ofopt (prev l) in
   do! hs := upd x (set_prev (Some p)) hs in
   do! hs := upd p (set_next (Some x)) hs in
   upd list (set_prev (Some x)) hs)%out.

(** [if (x->deleter) { x->deleter(x->key(), x->value); }] *)
Definition call_deleter (x : nat) hs : outcome (Heap V) :=
  (do! h := ofopt (handle x hs) in if deleter h then upd x (set_value None) hs else Done hs)%out.

(** The handle is marked, its value destroyed, and it leaves its list. *)
Definition evict (x : nat) hs : outcome (Heap V) :=
  (do! hs := upd x (set_deletion true) hs in
   do! hs := call_deleter x hs in
   LRU_Remove x hs)%out.
End handles.

(** ** LRUCacheShard *)

Record LRUCacheShard (V : Type) := mkShard {
  capacity_ : Z;
  size_ : Z;
  table_ : HashMap Entry;
  heap_ : Heap V;
}.
Arguments mkShard {V} _ _ _ _.
Arguments capacity_ {V} _.
Arguments size_ {V} _.
Arguments table_ {V} _.
Arguments heap_ {V} _.

Definition kMinLRUTableSlots : Z := 1237.

(** The nodes of the heads of the lists. *)
Definition lru_ : nat := 0.
Definition in_use_ : nat := 1.

(** [KeyComparator], by [Comparator::Bytewise()]. *)
Definition e_compare : Entry -> Entry -> Z := compare_by e_key BytewiseCompare.

(** [LookupHandle]: it is not on the heap. *)
Definition LookupHandle (key : bytes) : Entry := mkEntry 0 key (BytewiseHash key).

Definition NewTable (slots : nat) : HashMap Entry := NewHashMap (mkEntry 0 [] 0) slots.

Section shard.
(** [raw] is what is found where the heads of the lists are made, which have
    only their pointers set.  [crowded] is the test of the conflict factor and
    of the memory usage of the table, and [scaled] the [int] with
    [n_slots * conflict_factor + 7]. *)
Context {V : Type} (raw : LRUHandle V) (crowded : HashMap Entry -> bool) (scaled : HashMap Entry -> Z).

#[local] Abbreviation Shard := (LRUCacheShard V).

Definition NewShard (capacity : Z) : Shard :=
  mkShard capacity 0 (NewTable (Z.to_nat kMinLRUTableSlots))
    [Some (set_prev (Some lru_) (set_next (Some lru_) raw)); Some (set_prev (Some in_use_) (set_next (Some in_use_) raw))].

Definition with_heap (hs : Heap V) (s : Shard) : Shard := mkShard (capacity_ s) (size_ s) (table_ s) hs.

(** [evict] and [--size_] *)
Definition purge_one (x : nat) (s : Shard) : outcome Shard :=
  (do! hs := evict x (heap_ s) in Done (mkShard (capacity_ s) (wrap 64 (size_ s - 1)) (table_ s) hs))%out.

Fixpoint purge_in_use (fuel : nat) (inv : nat) (s : Shard) : outcome Shard :=
  if (inv =? in_use_)%nat then Done s
  else
    match fuel with
    | O => OutOfFuel
    | S fuel =>
      (do! h := ofopt (handle inv (heap_ s)) in
       do! next := ofopt (next h) in
       if refs h =? 1 then do! s := purge_one inv s in purge_in_use fuel next s
       else purge_in_use fuel next s)%out
    end.

(** The first of a list. *)
Definition first (list : nat) (hs : Heap V) : outcome nat :=
  (do! l := ofopt (handle list hs) in ofopt (next l))%out.

(** The oldest handle goes, or moves to the other list when somebody holds it. *)
Definition purge_lru (s : Shard) : outcome Shard :=
  (do! inv := first lru_ (heap_ s) in
   do! h := ofopt (handle inv (heap_ s)) in
   if refs h =? 1 then purge_one inv s
   else if 2 <=? refs h then
     do! hs := LRU_Remove inv (heap_ s) in
     do! hs := LRU_Insert in_use_ inv hs in Done (with_heap hs s)
   else Done s)%out.

Definition new_slots (t : HashMap Entry) : Z :=
  let n := wrap 64 (sgn 32 (scaled t)) in if n <? kMinLRUTableSlots then kMinLRUTableSlots else n.

(** The loop that fills the new table. *)
Fixpoint refill (es : list Entry) (t : HashMap Entry) (hs : Heap V) : outcome (HashMap Entry * Heap V) :=
  match es with
  | [] => Done (t, hs)
  | e :: es =>
    (do! h := ofopt (handle (e_handle e) hs) in
     if is_deletion h then do! hs := Free (e_handle e) hs in refill es t hs
     else do! t := Put e_compare e_hash e t in refill es t hs)%out
  end.

Definition rehash (s : Shard) : outcome Shard :=
  if crowded (table_ s) then
    (do! es := all_keys (table_ s) in
     do! (t, hs) := refill es (NewTable (Z.to_nat (new_slots (table_ s)))) (heap_ s) in
     Done (mkShard (capacity_ s) (size_ s) t hs))%out
  else Done s.

Definition PurgeIfNeeded (force : bool) (s : Shard) : outcome Shard :=
  if (size_ s <=? capacity_ s) && negb force then Done s
  else
    (do! s := purge_lru s in
     do! inv := first in_use_ (heap_ s) in
     do! s := purge_in_use (length (heap_ s)) inv s in
     rehash s)%out.

Definition shard_Insert (k : bytes) (x : nat) (del : bool) (s : Shard) : outcome Shard :=
  (do! hs := upd x (fun h => mkHandle (next h) (prev h) del 1 (id h) (value h) (key h) (BytewiseHash k) 0 10) (heap_ s) in
   do! h := ofopt (handle x hs) in
   do! t := Put e_compare e_hash (mkEntry x (key h) (hash_val h)) (table_ s) in
   do! hs := LRU_Insert lru_ x hs in
   PurgeIfNeeded false (mkShard (capacity_ s) (wrap 64 (size_ s + 1)) t hs))%out.

(** A handle that is found often moves behind all others of its list. *)
Definition shard_Get (key : bytes) (s : Shard) : outcome (option nat * Shard) :=
  (do! iter := hi_Seek2 e_compare e_hash (LookupHandle key) (table_ s) in
   if negb (hi_Valid iter (table_ s)) then Done (None, s)
   else
     do! e := ofopt (hi_key iter (table_ s)) in
     let x := e_handle e in
     do! h := ofopt (handle x (heap_ s)) in
     if is_deletion h then Done (None, s)
     else
       do! hs := upd x (set_hits (sgn 32 (hits h + 1))) (heap_ s) in
       if 17 <=? hits h then
         do! hs := upd x (set_hits 1) hs in
         do! hs := LRU_Remove x hs in
         do! hs := (if refs h =? 1 then LRU_Insert lru_ x hs else if 1 <? refs h then LRU_Insert in_use_ x hs else Done hs) in
         Done (Some x, with_heap hs s)
       else Done (Some x, with_heap hs s))%out.

(** [size_] is left as it is. *)
Definition shard_Remove (key : bytes) (s : Shard) : outcome Shard :=
  (do! (x, s) := shard_Get key s in
   match x with
   | None => Done s
   | Some x =>
     do! h := ofopt (handle x (heap_ s)) in
     if refs h =? 1 then do! hs := evict x (heap_ s) in Done (with_heap hs s) else Done s
   end)%out.

(** The loop of [GetOrLoad]: the handle, or else the stripe is locked.  How long
    it yields between two turns is left out. *)
Fixpoint get_or_lock (fuel : nat) (key : bytes) (stripe : nat) (g : LockGroup) (s : Shard) :
    outcome (option nat * LockGroup * Shard) :=
  match fuel with
  | O => OutOfFuel
  | S fuel =>
    (do! (x, s) := shard_Get key s in
     match x with
     | Some x => Done (Some x, g, s)
     | None =>
       do! (locked, g) := stripe_TryLock stripe g in
       if locked then Done (None, g, s) else get_or_lock fuel key stripe g s
     end)%out
  end.

(** [loader] makes a handle, or fails: then the stripe stays locked.  [result]
    is what the caller's pointer holds. *)
Definition shard_GetOrLoad (fuel : nat) (key : bytes) (result : option nat) (del : bool)
    (loader : bytes -> Heap V -> outcome ((error + nat) * Heap V)) (g : LockGroup) (s : Shard) :
    outcome (error * option nat * LockGroup * Shard) :=
  (do! stripe := GetByKey key g in
   do! (x, g, s) := get_or_lock fuel key stripe g s in
   match x with
   | Some x => do! hs := reset result (Some x) (heap_ s) in Done (kOk, Some x, g, with_heap hs s)
   | None =>
     do! (r, hs) := loader key (heap_ s) in
     match r with
     | inl e => Done (e, result, g, with_heap hs s)
     | inr x =>
       do! hs := upd x AddRef hs in
       do! s := shard_Insert key x del (with_heap hs s) in
       do! s := PurgeIfNeeded false s in
       do! hs := reset result (Some x) (heap_ s) in
       Done (kOk, Some x, stripe_Unlock stripe g, with_heap hs s)
     end
   end)%out.

(** *** The destructor *)

Fixpoint free_deleted (es : list Entry) (hs : Heap V) : outcome (Heap V) :=
  match es with
  | [] => Done hs
  | e :: es =>
    (do! h := ofopt (handle (e_handle e) hs) in
     do! hs := (if is_deletion h then Free (e_handle e) hs else Done hs) in free_deleted es hs)%out
  end.

Fixpoint free_list (fuel : nat) (list : nat) (hs : Heap V) : outcome (Heap V) :=
  (do! x := first list hs in
   if (x =? list)%nat then Done hs
   else
     match fuel with
     | O => OutOfFuel
     | S fuel =>
       do! h := ofopt (handle x hs) in
       do! hs := (if is_deletion h then Done hs else call_deleter x hs) in
       do! hs := LRU_Remove x hs in
       do! hs := Free x hs in free_list fuel list hs
     end)%out.

Definition DeleteShard (s : Shard) : outcome (Heap V) :=
  (do! es := all_keys (table_ s) in
   do! hs := free_deleted es (heap_ s) in
   do! hs := free_list (length hs) in_use_ hs in
   free_list (length hs) lru_ hs)%out.
End shard.

(** ** The lists of handles *)

Section rings.
Context {V : Type}.
Implicit Types (hs : Heap V) (h : LRUHandle V) (l : list nat).

Lemma handle_lt x hs h : handle x hs = Some h -> (x < length hs)%nat.
Proof. unfold handle. intros E. apply lookup_lt_is_Some. by destruct (hs !! x). Qed.

Lemma handle_insert x y hs o : (x < length hs)%nat -> handle y (<[x := o]> hs) = if decide (y = x) then o else handle y hs.
Proof.
  intros Hx. unfold handle. destruct (decide (y = x)) as [->|Hy]; [by rewrite list_lookup_insert_eq | by rewrite list_lookup_insert_ne].
Qed.

Lemma handle_app x hs h : handle x (hs ++ [Some h]) = if decide (x = length hs) then Some h else handle x hs.
Proof.
  unfold handle. destruct (decide (x = length hs)) as [->|Hx]; [by rewrite list_lookup_middle|].
  destruct (decide (x < length hs)%nat); [by rewrite lookup_app_l|].
  rewrite !lookup_ge_None_2; [done | lia | rewrite length_app; cbn; lia].
Qed.

Lemma upd_spec x f hs h :
  handle x hs = Some h ->
  exists hs', upd x f hs = Done hs' /\ length hs' = length hs /\
    forall y, handle y hs' = if decide (y = x) then Some (f h) else handle y hs.
Proof.
  intros Hx. unfold upd. rewrite Hx. eexists. split; [done|]. split; [apply length_insert|]. intros y. apply handle_insert. by eapply handle_lt.
Qed.

(** A handle without its pointers. *)
Definition data h : LRUHandle V := set_prev None (set_next None h).

Definition same_data hs hs' : Prop := length hs' = length hs /\ forall y, data <$> handle y hs' = data <$> handle y hs.

Lemma same_data_refl hs : same_data hs hs.
Proof. done. Qed.

Lemma same_data_trans hs1 hs2 hs3 : same_data hs1 hs2 -> same_data hs2 hs3 -> same_data hs1 hs3.
Proof. intros [H1 H2] [H3 H4]. split; [congruence|]. intros y. by rewrite H4. Qed.

Lemma same_data_handle hs hs' x h : same_data hs hs' -> handle x hs = Some h -> exists h', handle x hs' = Some h' /\ data h' = data h.
Proof. intros [_ H] Hx. specialize (H x). rewrite Hx in H. destruct (handle x hs') as [h'|]; [|done]. apply (inj Some) in H. by exists h'. Qed.

Lemma same_data_upd x f hs hs' :
  (forall h, data (f h) = data h) -> upd x f hs = Done hs' -> same_data hs hs'.
Proof.
  intros Hf E. unfold upd in E. destruct (handle x hs) as [h|] eqn:Hx; [|done]. apply Done_inj in E. subst hs'.
  split; [apply length_insert|]. intros y. rewrite handle_insert by (by eapply handle_lt). case_decide as Hy; [subst y|done]. by rewrite Hx; cbn; rewrite Hf.
Qed.

Definition next_of hs x : option nat := h ← handle x hs; next h.
Definition prev_of hs x : option nat := h ← handle x hs; prev h.

(** Every node of [l] points to the one behind it, and that points back. *)
Fixpoint links hs l : Prop :=
  match l with
  | x :: (y :: _) as l => next_of hs x = Some y /\ prev_of hs y = Some x /\ links hs l
  | _ => True
  end.

(** The list with the head [d] goes round through [l]. *)
Definition ring hs (d : nat) l : Prop := links hs (d :: l ++ [d]).

Lemma links_cons hs x y l : links hs (x :: y :: l) <-> next_of hs x = Some y /\ prev_of hs y = Some x /\ links hs (y :: l).
Proof. done. Qed.

Lemma links_app hs A x B : links hs (A ++ x :: B) <-> links hs (A ++ [x]) /\ links hs (x :: B).
Proof.
  induction A as [|a A IH]; cbn [app]; [cbn; tauto|]. destruct A as [|b A]; cbn [app] in *; rewrite !links_cons; [cbn; tauto|].
  rewrite IH. tauto.
Qed.

Lemma links_keep hs hs' A p :
  (forall y, y ∈ A -> next_of hs' y = next_of hs y) -> (forall y, y ∈ tail (A ++ [p]) -> prev_of hs' y = prev_of hs y) ->
  links hs (A ++ [p]) -> links hs' (A ++ [p]).
Proof.
  induction A as [|a A IH]; cbn [app tail]; [done|]. intros Hn Hp.
  assert (E : exists b B, A ++ [p] = b :: B) by (destruct A as [|b B]; [by exists p, [] | by exists b, (B ++ [p])]).
  destruct E as (b & B & E). rewrite E in *. rewrite !links_cons. intros (H1 & H2 & H3). rewrite Hn by (by left). rewrite Hp by (by left). split_and!; [done..|].
  apply IH; [| |done]; intros y Hy; [apply Hn | apply Hp]; by right.
Qed.

Lemma links_frame hs hs' l : (forall y, y ∈ l -> handle y hs' = handle y hs) -> links hs l -> links hs' l.
Proof.
  destruct l as [|p A _] using rev_ind; [done|]. intros H. apply links_keep; unfold next_of, prev_of; intros y Hy; rewrite H; try done.
  - apply elem_of_app. by left.
  - destruct A as [|a A]; cbn [app tail] in *; [by apply not_elem_of_nil in Hy | by right].
Qed.

Lemma ring_frame hs hs' d l : (forall y, y ∈ d :: l -> handle y hs' = handle y hs) -> ring hs d l -> ring hs' d l.
Proof. intros H. apply links_frame. intros y [->|[Hy| ->%list_elem_of_singleton]%elem_of_app]%elem_of_cons; apply H; by constructor. Qed.

(** Every node of a ring is there. *)
Lemma ring_handle hs d l x : ring hs d l -> x ∈ d :: l -> exists h, handle x hs = Some h /\ is_Some (next h) /\ is_Some (prev h).
Proof.
  intros Hr Hx. assert (Hn : exists y, next_of hs x = Some y).
  { unfold ring in Hr. apply list_elem_of_split in Hx as (A & B & E).
    rewrite app_comm_cons, E, <- app_assoc in Hr. cbn [app] in Hr. apply links_app in Hr as [_ Hr].
    destruct B as [|b B]; cbn [app] in Hr; apply links_cons in Hr as [Hr _]; by eexists. }
  assert (Hp : exists y, prev_of hs x = Some y).
  { unfold ring in Hr. assert (Hx' : x ∈ l ++ [d]) by (apply elem_of_app; rewrite list_elem_of_singleton; apply elem_of_cons in Hx; tauto).
    apply list_elem_of_split in Hx' as (A & B & E). rewrite E in Hr. clear E Hn Hx.
    destruct A as [|a A _] using rev_ind; cbn [app] in Hr; [apply links_cons in Hr; destruct Hr as (_ & Hr & _); by exists d|].
    rewrite <- app_assoc in Hr. cbn [app] in Hr. rewrite app_comm_cons in Hr. apply links_app in Hr as [_ Hr]. apply links_cons in Hr as (_ & Hr & _). by exists a. }
  destruct Hn as [y Hn], Hp as [z Hp]. unfold next_of, prev_of in *. destruct (handle x hs) as [h|]; [|done]. exists h. split_and!; [done | by exists y | by exists z].
Qed.

Lemma next_of_upd x f hs h hs' y :
  handle x hs = Some h -> (forall y, handle y hs' = if decide (y = x) then Some (f h) else handle y hs) ->
  next_of hs' y = (if decide (y = x) then next (f h) else next_of hs y) /\ prev_of hs' y = (if decide (y = x) then prev (f h) else prev_of hs y).
Proof. intros Hx H. unfold next_of, prev_of. rewrite H. by case_decide. Qed.

(** Two stores make [n] the node behind [p]. *)
Lemma join_spec p n hs :
  is_Some (handle p hs) -> is_Some (handle n hs) ->
  exists hs', obind (upd p (set_next (Some n)) hs) (fun hs => upd n (set_prev (Some p)) hs) = Done hs' /\ same_data hs hs' /\
    (forall y, next_of hs' y = if decide (y = p) then Some n else next_of hs y) /\
    (forall y, prev_of hs' y = if decide (y = n) then Some p else prev_of hs y) /\
    (forall y, y <> p -> y <> n -> handle y hs' = handle y hs).
Proof.
  intros [hp Hp] [hn Hn]. destruct (upd_spec p (set_next (Some n)) hs hp Hp) as (hs1 & E1 & _ & H1). rewrite E1. cbn [obind].
  assert (Hn1 : handle n hs1 = Some (if decide (n = p) then set_next (Some n) hp else hn)) by (rewrite H1; by case_decide).
  destruct (upd_spec n (set_prev (Some p)) hs1 _ Hn1) as (hs2 & E2 & _ & H2). exists hs2. split; [done|]. split.
  { eapply same_data_trans; [eapply same_data_upd, E1; by intros [] | eapply same_data_upd, E2; by intros []]. }
  assert (Hne : forall h, next (set_prev (Some p) h) = next h) by done.
  split_and!; intros y.
  - destruct (next_of_upd _ _ _ _ _ y Hn1 H2) as [-> _]. destruct (next_of_upd _ _ _ _ _ y Hp H1) as [-> _]. rewrite Hne.
    destruct (decide (y = n)) as [->|Hy]; [|done]. destruct (decide (n = p)); [done|]. unfold next_of. by rewrite Hn.
  - destruct (next_of_upd _ _ _ _ _ y Hn1 H2) as [_ ->]. destruct (next_of_upd _ _ _ _ _ y Hp H1) as [_ ->].
    destruct (decide (y = n)) as [->|Hy]; [done|]. destruct (decide (y = p)) as [->|]; [|done]. cbn. unfold prev_of. by rewrite Hp.
  - intros Hyp Hyn. rewrite H2, decide_False by done. by rewrite H1, decide_False.
Qed.

Lemma tail_snoc_elem l p (y : nat) : y ∈ tail (l ++ [p]) -> y ∈ tail l \/ (y = p /\ l <> []).
Proof. destruct l; cbn [app tail]; [by intros ?%not_elem_of_nil|]. rewrite elem_of_app, list_elem_of_singleton. intros [?| ->]; [by left | by right]. Qed.

(** [p] and [n] lie at the ends of what is cut out, and the rest of the ring is
    as it was. *)
Lemma ring_join hs hs' d l p n A' B' :
  NoDup (d :: l) -> d :: l ++ [d] = A' ++ p :: n :: B' -> links hs (A' ++ [p]) -> links hs (n :: B') ->
  (forall y, next_of hs' y = if decide (y = p) then Some n else next_of hs y) ->
  (forall y, prev_of hs' y = if decide (y = n) then Some p else prev_of hs y) -> ring hs' d l.
Proof.
  intros Hnd E H1 H2 Hn Hp. unfold ring. rewrite E, links_app.
  assert (Hl : exists B, n :: B' = B ++ [d]).
  { destruct B' as [|b B _] using rev_ind.
    - exists []. assert (L : last (d :: l ++ [d]) = last (A' ++ p :: n :: [])) by by rewrite E. rewrite app_comm_cons, last_snoc in L.
      change (A' ++ [p; n]) with (A' ++ [p] ++ [n]) in L. rewrite app_assoc, last_snoc in L. injection L as ->. done.
    - exists (n :: B). assert (L : last (d :: l ++ [d]) = last (A' ++ p :: n :: B ++ [b])) by by rewrite E. rewrite app_comm_cons, last_snoc in L.
      rewrite !app_comm_cons, app_assoc, last_snoc in L. injection L as ->. done. }
  destruct Hl as [B EB]. rewrite EB in *.
  assert (El : d :: l = A' ++ p :: B).
  { apply (app_inj_tail (d :: l) (A' ++ p :: B) d d). rewrite <- app_assoc. exact E. }
  rewrite El in Hnd. apply NoDup_app in Hnd as (HndA & HndAB & HndB). apply NoDup_cons in HndB as [HpB HndB].
  split.
  - apply (links_keep hs); [| |done].
    + intros y Hy. rewrite Hn, decide_False; [done|]. intros ->. apply (HndAB p Hy). by left.
    + intros y Hy. rewrite Hp, decide_False; [done|]. intros ->.
      assert (Hnn : n ∈ B ++ [d]) by (rewrite <- EB; by left).
      destruct A' as [|a A']; cbn [app tail] in Hy; [by apply not_elem_of_nil in Hy|]. injection El as -> El.
      apply NoDup_cons in HndA as [HaA HndA].
      apply elem_of_app in Hnn as [Hnn|Hnn%list_elem_of_singleton].
      * apply elem_of_app in Hy as [Hy|Hy%list_elem_of_singleton]; [|by subst p]. apply (HndAB n); [by right | by right].
      * subst n. apply elem_of_app in Hy as [Hy|Hy%list_elem_of_singleton]; [done|]. subst p. apply (HndAB a); [by left | by left].
  - rewrite <- EB, links_cons, Hn, Hp, !decide_True by done. split_and!; [done..|]. rewrite EB. apply (links_keep hs); [| |done].
    + intros y Hy. rewrite Hn, decide_False; [done|]. by intros ->.
    + intros y Hy. rewrite Hp, decide_False; [done|]. intros ->. destruct B as [|b B]; cbn [app tail] in *; [by apply not_elem_of_nil in Hy|].
      injection EB as -> EB. apply NoDup_cons in HndB as [HbB _]. apply elem_of_app in Hy as [Hy|Hy%list_elem_of_singleton]; [done|]. subst b.
      destruct A' as [|a A']; cbn [app] in El; injection El as -> El; [by apply HpB; left|]. apply (HndAB a); [by left|]. right. by left.
Qed.

Lemma cons_snoc (d : nat) l : exists A p, d :: l = A ++ [p].
Proof. destruct l as [|b B _] using rev_ind; [by exists [], d | by exists (d :: B), b]. Qed.

Lemma snoc_cons l (d : nat) : exists n B, l ++ [d] = n :: B.
Proof. destruct l as [|a A]; [by exists d, [] | by exists a, (A ++ [d])]. Qed.

Lemma LRU_Remove_ring x hs d A B :
  ring hs d (A ++ x :: B) -> NoDup (d :: A ++ x :: B) ->
  exists hs', LRU_Remove x hs = Done hs' /\ ring hs' d (A ++ B) /\ same_data hs hs' /\
    forall y, y ∉ d :: A ++ x :: B -> handle y hs' = handle y hs.
Proof.
  intros Hr Hnd. destruct (cons_snoc d A) as (A' & p & EA), (snoc_cons B d) as (n & B' & EB).
  assert (Hin : forall y, y ∈ [p; x; n] -> y ∈ d :: A ++ x :: B).
  { assert (Hp : p ∈ d :: A) by (rewrite EA; apply elem_of_app; right; by left).
    assert (Hn : n ∈ B ++ [d]) by (rewrite EB; by left). rewrite elem_of_app, list_elem_of_singleton in Hn.
    intros y Hy. rewrite !elem_of_cons, elem_of_nil in Hy. rewrite elem_of_cons, elem_of_app, elem_of_cons. rewrite elem_of_cons in Hp.
    destruct Hy as [->|[->|[->|[]]]]; tauto. }
  assert (Hh : forall y, y ∈ [p; x; n] -> is_Some (handle y hs)).
  { intros y Hy. destruct (ring_handle hs d _ y Hr (Hin y Hy)) as (h & -> & _). by eexists. }
  assert (EL : d :: (A ++ x :: B) ++ [d] = A' ++ p :: x :: n :: B').
  { rewrite <- app_assoc, <- app_comm_cons, EB, app_comm_cons, EA, <- app_assoc. done. }
  unfold ring in Hr. rewrite EL in Hr. apply links_app in Hr as [H1 Hr]. rewrite !links_cons in Hr. destruct Hr as (_ & Hpx & Hnx & _ & H2).
  unfold prev_of, next_of in Hpx, Hnx. unfold LRU_Remove. destruct (handle x hs) as [h|] eqn:Hx; [|done]. cbn [mbind option_bind] in Hpx, Hnx. cbn [ofopt obind].
  rewrite Hpx. cbn [ofopt obind]. rewrite Hnx. cbn [ofopt obind].
  destruct (join_spec p n hs) as (hs' & -> & Hd & Hn & Hp & Hf); [apply Hh; by left | apply Hh; by do 2 right; left|]. exists hs'. split_and!; [done | | done |].
  - apply (ring_join hs _ _ _ p n A' B'); [| |done..].
    + apply NoDup_cons in Hnd as [Hd0 Hnd]. apply NoDup_app in Hnd as (HA & HAB & HB). apply NoDup_cons in HB as [_ HB]. rewrite elem_of_app, elem_of_cons in Hd0.
      apply NoDup_cons. split; [rewrite elem_of_app; tauto|]. apply NoDup_app. split_and!; [done | | done]. intros y Hy Hy'. apply (HAB y Hy). by right.
    + rewrite <- app_assoc, EB, app_comm_cons, EA, <- app_assoc. done.
  - intros y Hy. apply Hf; intros ->; apply Hy, Hin; [by left | by do 2 right; left].
Qed.

Lemma LRU_Insert_ring x hs d l :
  ring hs d l -> NoDup (d :: l) -> x ∉ d :: l -> is_Some (handle x hs) ->
  exists hs', LRU_Insert d x hs = Done hs' /\ ring hs' d (l ++ [x]) /\ same_data hs hs' /\
    forall y, y ∉ d :: l ++ [x] -> handle y hs' = handle y hs.
Proof.
  intros Hr Hnd Hx [hx Ehx]. destruct (cons_snoc d l) as (A & p & EA).
  assert (Hpl : p ∈ d :: l) by (rewrite EA; apply elem_of_app; right; by left). pose proof (proj1 (proj1 (NoDup_cons _ _) Hnd)) as Hdl.
  assert (Hxd : x <> d) by (intros ->; by apply Hx; left). assert (Hxp : x <> p) by (intros ->; by apply Hx).
  destruct (ring_handle hs d l d Hr ltac:(by left)) as (hd & Ehd & _). destruct (ring_handle hs d l p Hr Hpl) as (hp & Ehp & _).
  unfold ring in Hr. rewrite app_comm_cons, EA, <- app_assoc in Hr. cbn [app] in Hr. apply links_app in Hr as [H1 Hr].
  apply links_cons in Hr as (_ & Hpd & _). unfold prev_of in Hpd. rewrite Ehd in Hpd. cbn [mbind option_bind] in Hpd.
  unfold LRU_Insert. destruct (upd_spec x (set_next (Some d)) hs hx Ehx) as (hs1 & E1 & _ & F1). rewrite E1. cbn [obind].
  assert (Ehd1 : handle d hs1 = Some hd) by (rewrite F1, decide_False by done; done). rewrite Ehd1. cbn [ofopt obind]. rewrite Hpd. cbn [ofopt obind].
  assert (Ehx1 : handle x hs1 = Some (set_next (Some d) hx)) by (by rewrite F1, decide_True).
  destruct (upd_spec x (set_prev (Some p)) hs1 _ Ehx1) as (hs2 & E2 & _ & F2). rewrite E2. cbn [obind].
  assert (Ehp2 : handle p hs2 = Some hp) by (by rewrite F2, decide_False, F1, decide_False by done).
  destruct (upd_spec p (set_next (Some x)) hs2 _ Ehp2) as (hs3 & E3 & _ & F3). rewrite E3. cbn [obind].
  assert (Ehd3 : handle d hs3 = Some (if decide (d = p) then set_next (Some x) hp else hd)).
  { rewrite F3. case_decide; [done|]. by rewrite F2, decide_False. }
  destruct (upd_spec d (set_prev (Some x)) hs3 _ Ehd3) as (hs4 & E4 & _ & F4). exists hs4.
  assert (Hnext : forall y, y <> x -> next_of hs4 y = if decide (y = p) then Some x else next_of hs y).
  { intros y Hy. destruct (next_of_upd _ _ _ _ _ y Ehd3 F4) as [-> _]. destruct (next_of_upd _ _ _ _ _ y Ehp2 F3) as [-> _].
    destruct (next_of_upd _ _ _ _ _ y Ehx1 F2) as [-> _]. destruct (next_of_upd _ _ _ _ _ y Ehx F1) as [-> _]. rewrite !(decide_False (P := y = x)) by done.
    destruct (decide (y = d)) as [->|]; [|done]. cbn [next set_prev]. case_decide; [done|]. unfold next_of. by rewrite Ehd. }
  assert (Hprev : forall y, y <> x -> prev_of hs4 y = if decide (y = d) then Some x else prev_of hs y).
  { intros y Hy. destruct (next_of_upd _ _ _ _ _ y Ehd3 F4) as [_ ->]. destruct (next_of_upd _ _ _ _ _ y Ehp2 F3) as [_ ->].
    destruct (next_of_upd _ _ _ _ _ y Ehx1 F2) as [_ ->]. destruct (next_of_upd _ _ _ _ _ y Ehx F1) as [_ ->]. rewrite !(decide_False (P := y = x)) by done.
    destruct (decide (y = d)) as [->|]; [done|]. destruct (decide (y = p)) as [->|]; [|done]. cbn. unfold prev_of. by rewrite Ehp. }
  assert (Ehx4 : handle x hs4 = Some (set_prev (Some p) (set_next (Some d) hx))) by (by rewrite F4, decide_False, F3, decide_False, F2, decide_True by done).
  split_and!; [done | | |].
  - unfold ring. rewrite <- app_assoc. cbn [app]. change (d :: l ++ [x; d]) with ((d :: l) ++ [x; d]). rewrite EA, <- app_assoc. cbn [app]. apply links_app.
    rewrite EA in Hnd. apply NoDup_app in Hnd as (_ & HAp & _). split.
    + rewrite EA in Hx. apply (links_keep hs); [| |done].
      * intros y Hy. rewrite Hnext; [|intros ->; apply Hx, elem_of_app; by left]. rewrite decide_False; [done|]. intros ->. apply (HAp p Hy). by left.
      * intros y Hy. assert (y ∈ l) as Hyl by (rewrite <- EA in Hy; done).
        rewrite Hprev; [|intros ->; apply Hx; rewrite <- EA; by right]. rewrite decide_False; [done | by intros ->].
    + rewrite !links_cons, (Hnext p), (Hprev d), !decide_True by done.
      unfold next_of, prev_of. rewrite Ehx4. done.
  - repeat (eapply same_data_trans; [eapply same_data_upd, E1; by intros [] |]).
    eapply same_data_trans; [eapply same_data_upd, E2; by intros []|]. eapply same_data_trans; [eapply same_data_upd, E3; by intros []|].
    eapply same_data_upd, E4. by intros [].
  - intros y Hy. rewrite app_comm_cons, elem_of_app, list_elem_of_singleton in Hy.
    rewrite F4, decide_False by (intros ->; apply Hy; left; by left). rewrite F3, decide_False by (intros ->; apply Hy; by left).
    rewrite F2, decide_False by tauto. by rewrite F1, decide_False by tauto.
Qed.
End rings.
