(* ===== verification/LRUSafe.v ===== *)
(** * LRUSafe

    What stays true of a shard of the cache ([LRU]), whatever is done to it:
    [wf] relates the lists, the table and the heap.  Two things are carried
    along: [Φ], a property of keys and values that every handle has, and [pins],
    the handles that somebody holds with what they hold. *)

From S2P Require Import Prelude Hash Keys SkipList HashMap LRU.

Section wf.
Context {V : Type} (crowded : HashMap Entry -> bool) (scaled : HashMap Entry -> Z).
Context (Φ : bool -> bytes -> option V -> Prop) (pins : gmap nat (bytes * option V)).
Implicit Types (hs : Heap V) (h : LRUHandle V) (s : LRUCacheShard V) (l lru use : list nat) (es : list Entry).

(** The handle of an entry of the table; [l] are the handles of the lists. *)
Definition entry_ok hs l (e : Entry) : Prop :=
  exists h, handle (e_handle e) hs = Some h /\ key h = e_key e /\ hash_val h = e_hash e /\ (2 <= e_handle e)%nat /\
    if is_deletion h then e_handle e ∉ l else e_handle e ∈ l /\ 1 <= refs h.

Definition pinned hs (x : nat) (kv : bytes * option V) : Prop :=
  exists h, handle x hs = Some h /\ (key h, value h) = kv /\ is_deletion h = false /\ 2 <= refs h.

(** What does not depend on the pointers. *)
Record data_ok hs l es : Prop := {
  d_entries : Forall (entry_ok hs l) es;
  d_head : exists d, handle lru_ hs = Some d /\ refs d <= 0;
  d_pins : forall x kv, pins !! x = Some kv -> pinned hs x kv /\ x ∈ e_handle <$> es;
  d_values : forall x h, (2 <= x)%nat -> handle x hs = Some h -> Φ (deleter h) (key h) (value h);
}.

Definition rings hs lru use : Prop := ring hs lru_ lru /\ ring hs in_use_ use /\ NoDup (lru_ :: in_use_ :: lru ++ use).

Record heap_ok hs lru use es : Prop := {
  h_rings : rings hs lru use;
  h_listed : forall x, x ∈ lru ++ use -> x ∈ e_handle <$> es;
  h_once : NoDup (e_handle <$> es);
  h_data : data_ok hs (lru ++ use) es;
}.

(** [k] handles have been removed without being counted. *)
Record wf (k : Z) s lru use es : Prop := {
  w_heap : heap_ok (heap_ s) lru use es;
  w_table : map_holds e_key BytewiseCompare e_hash (table_ s) es;
  w_hash : Forall (fun e => e_hash e = BytewiseHash (e_key e)) es;
  w_size : size_ s = wrap 64 (zlen (lru ++ use) + k);
}.

(** *** Pointers *)

Lemma links_same hs hs' l :
  (forall y, next_of hs' y = next_of hs y) -> (forall y, prev_of hs' y = prev_of hs y) -> links hs l -> links hs' l.
Proof. intros Hn Hp. destruct l as [|p A _] using rev_ind; [done|]. by apply links_keep. Qed.

Lemma rings_same hs hs' lru use :
  (forall y, next_of hs' y = next_of hs y) -> (forall y, prev_of hs' y = prev_of hs y) -> rings hs lru use -> rings hs' lru use.
Proof. intros Hn Hp (H1 & H2 & H3). split_and!; [by eapply links_same | by eapply links_same | done]. Qed.

Lemma rings_frame hs hs' lru use :
  (forall y, y ∈ lru_ :: in_use_ :: lru ++ use -> handle y hs' = handle y hs) -> rings hs lru use -> rings hs' lru use.
Proof.
  intros H (H1 & H2 & H3). split_and!; [| |done]; (eapply ring_frame; [|done]); intros y Hy; apply H;
    rewrite !elem_of_cons, elem_of_app in *; tauto.
Qed.

Definition without (x : nat) l : list nat := filter (fun y => y <> x) l.

Lemma without_none x l : x ∉ l -> without x l = l.
Proof.
  unfold without. induction l as [|y l IH]; [done|]. intros [Hy Hl]%not_elem_of_cons. rewrite filter_cons, decide_True by (by intros ->). by rewrite IH.
Qed.

Lemma without_split x A B : NoDup (A ++ x :: B) -> without x (A ++ x :: B) = A ++ B.
Proof.
  intros (_ & HA & HB)%NoDup_app. apply NoDup_cons in HB as [HB _]. unfold without. rewrite filter_app, filter_cons, decide_False by tauto.
  f_equal; apply without_none; [|done]. intros Hx. apply (HA x Hx). by left.
Qed.

Lemma elem_of_without x y l : y ∈ without x l <-> y <> x /\ y ∈ l.
Proof. unfold without. by rewrite list_elem_of_filter. Qed.

Lemma NoDup_without x lru use : NoDup (lru_ :: in_use_ :: lru ++ use) -> NoDup (lru_ :: in_use_ :: without x lru ++ without x use).
Proof.
  intros H. apply (NoDup_filter (fun y => y <> x \/ (y < 2)%nat)) in H. unfold without.
  rewrite !filter_cons, !decide_True in H by (right; unfold lru_, in_use_; lia). rewrite filter_app in H.
  eapply sublist_NoDup; [exact H|]. do 2 apply sublist_skip.
  assert (Hs : forall l, sublist (filter (fun y => y <> x) l) (filter (fun y => y <> x \/ (y < 2)%nat) l)).
  { induction l as [|y l IH]; [done|]. rewrite !filter_cons. destruct (decide (y <> x)).
    - rewrite decide_True by (by left). by apply sublist_skip.
    - case_decide; [by apply sublist_cons | done]. }
  apply sublist_app; apply Hs.
Qed.

(** The two lists with their heads. *)
Lemma lists_apart lru use :
  NoDup (lru_ :: in_use_ :: lru ++ use) ->
  NoDup (lru_ :: lru) /\ NoDup (in_use_ :: use) /\ forall y, y ∈ lru_ :: lru -> y ∉ in_use_ :: use.
Proof.
  intros H. apply NoDup_cons in H as [H0 H]. rewrite elem_of_cons, elem_of_app in H0. apply NoDup_cons in H as [H1 H]. rewrite elem_of_app in H1.
  apply NoDup_app in H as (HA & HAB & HB). split_and!; [apply NoDup_cons; tauto.. |].
  intros y Hy Hy'. apply elem_of_cons in Hy, Hy'. destruct Hy as [->|Hy]; [tauto|]. destruct Hy' as [->|Hy']; [tauto | by apply (HAB y)].
Qed.

(** A handle leaves the list it is in. *)
Lemma remove_rings hs lru use x :
  rings hs lru use -> x ∈ lru ++ use ->
  exists hs', LRU_Remove x hs = Done hs' /\ rings hs' (without x lru) (without x use) /\ same_data hs hs'.
Proof.
  intros (H1 & H2 & Hnd) Hx. pose proof (NoDup_without x lru use Hnd) as Hnd'. destruct (lists_apart lru use Hnd) as (Hl & Hu & Hap).
  apply elem_of_app in Hx as [Hx|Hx]; destruct (list_elem_of_split _ _ Hx) as (A & B & E).
  - assert (Hxu : x ∉ use) by (intros Hy; apply (Hap x); by right). rewrite (without_none x use) in * by done.
    rewrite E in Hl, H1. destruct (LRU_Remove_ring x hs lru_ A B H1 Hl) as (hs' & -> & Hr & Hd & Hf). exists hs'.
    assert (Ew : without x lru = A ++ B) by (rewrite E; apply without_split; by apply NoDup_cons in Hl as [_ ?]). rewrite Ew in *.
    split_and!; [done | | done]. split_and!; [done | | done]. apply (ring_frame hs); [|done]. intros y Hy. apply Hf. rewrite <- E. intros Hy'. by apply (Hap y).
  - assert (Hxl : x ∉ lru) by (intros Hy; apply (Hap x); by right). rewrite (without_none x lru) in * by done.
    rewrite E in Hu, H2. destruct (LRU_Remove_ring x hs in_use_ A B H2 Hu) as (hs' & -> & Hr & Hd & Hf). exists hs'.
    assert (Ew : without x use = A ++ B) by (rewrite E; apply without_split; by apply NoDup_cons in Hu as [_ ?]). rewrite Ew in *.
    split_and!; [done | | done]. split_and!; [| done | done]. apply (ring_frame hs); [|done]. intros y Hy. apply Hf. rewrite <- E. by apply Hap.
Qed.

(** A handle that is in no list becomes the last of one. *)
Lemma insert_lru_rings hs lru use x :
  rings hs lru use -> x ∉ lru_ :: in_use_ :: lru ++ use -> is_Some (handle x hs) ->
  exists hs', LRU_Insert lru_ x hs = Done hs' /\ rings hs' (lru ++ [x]) use /\ same_data hs hs'.
Proof.
  intros (H1 & H2 & Hnd) Hx Hh. destruct (lists_apart lru use Hnd) as (Hl & Hu & Hap).
  assert (Hnd' : NoDup (lru_ :: in_use_ :: (lru ++ [x]) ++ use)).
  { rewrite <- app_assoc. cbn [app]. rewrite <- Permutation_middle. rewrite (Permutation_swap x), (Permutation_swap x). by apply NoDup_cons. }
  rewrite !elem_of_cons, elem_of_app in Hx.
  destruct (LRU_Insert_ring x hs lru_ lru H1 Hl) as (hs' & -> & Hr & Hd & Hf); [rewrite elem_of_cons; tauto | done |].
  exists hs'. split_and!; [done | | done]. split_and!; [done | | done].
  apply (ring_frame hs); [|done]. intros y Hy. apply Hf. destruct (lists_apart _ _ Hnd') as (_ & _ & Hap'). intros Hy'. by apply (Hap' y).
Qed.

Lemma insert_use_rings hs lru use x :
  rings hs lru use -> x ∉ lru_ :: in_use_ :: lru ++ use -> is_Some (handle x hs) ->
  exists hs', LRU_Insert in_use_ x hs = Done hs' /\ rings hs' lru (use ++ [x]) /\ same_data hs hs'.
Proof.
  intros (H1 & H2 & Hnd) Hx Hh. destruct (lists_apart lru use Hnd) as (Hl & Hu & Hap).
  assert (Hnd' : NoDup (lru_ :: in_use_ :: lru ++ use ++ [x])).
  { rewrite app_assoc, <- Permutation_cons_append. rewrite (Permutation_swap x), (Permutation_swap x). by apply NoDup_cons. }
  rewrite !elem_of_cons, elem_of_app in Hx.
  destruct (LRU_Insert_ring x hs in_use_ use H2 Hu) as (hs' & -> & Hr & Hd & Hf); [rewrite elem_of_cons; tauto | done |].
  exists hs'. split_and!; [done | | done]. split_and!; [| done | done].
  apply (ring_frame hs); [|done]. intros y Hy. apply Hf. destruct (lists_apart _ _ Hnd') as (_ & _ & Hap'). by apply Hap'.
Qed.

(** *** Data *)

Lemma data_fields h h' :
  data h' = data h ->
  key h' = key h /\ value h' = value h /\ deleter h' = deleter h /\ refs h' = refs h /\ hash_val h' = hash_val h /\ is_deletion h' = is_deletion h.
Proof.
  intros E. unfold is_deletion. pose proof (f_equal key E) as E1. pose proof (f_equal value E) as E2. pose proof (f_equal deleter E) as E3.
  pose proof (f_equal refs E) as E4. pose proof (f_equal hash_val E) as E5. pose proof (f_equal flags E) as E6. cbn in *. by rewrite E6.
Qed.

Lemma data_ok_same hs hs' l l' es : same_data hs hs' -> (forall y, y ∈ l' <-> y ∈ l) -> data_ok hs l es -> data_ok hs' l' es.
Proof.
  intros Hs Hl [H1 (d & Hd & Hrd) H3 H4]. split.
  - eapply Forall_impl; [exact H1|]. intros e (h & Hh & Hk & Hv & Hge & He). destruct (same_data_handle _ _ _ _ Hs Hh) as (h' & Hh' & E).
    destruct (data_fields _ _ E) as (E1 & _ & _ & E4 & E5 & E6). exists h'. rewrite E1, E4, E5, E6. split_and!; [done..|]. destruct (is_deletion h); by rewrite Hl.
  - destruct (same_data_handle _ _ _ _ Hs Hd) as (d' & Hd' & E). exists d'. destruct (data_fields _ _ E) as (_ & _ & _ & -> & _). done.
  - intros x kv Hx. destruct (H3 x kv Hx) as [(h & Hh & Hkv & Hdel & Hr) Hin]. split; [|done]. destruct (same_data_handle _ _ _ _ Hs Hh) as (h' & Hh' & E).
    destruct (data_fields _ _ E) as (E1 & E2 & _ & E4 & _ & E6). exists h'. by rewrite E1, E2, E4, E6.
  - intros x h' Hx Hh'. assert (Hs' : same_data hs' hs) by (split; [symmetry; apply Hs | intros y; symmetry; apply Hs]).
    destruct (same_data_handle _ _ _ _ Hs' Hh') as (h & Hh & E). destruct (data_fields _ _ E) as (E1 & E2 & E3 & _).
    rewrite <- E1, <- E2, <- E3. by apply (H4 x).
Qed.

Lemma heap_ok_same hs hs' lru use lru' use' es :
  same_data hs hs' -> rings hs' lru' use' -> (forall y, y ∈ lru' ++ use' <-> y ∈ lru ++ use) -> heap_ok hs lru use es -> heap_ok hs' lru' use' es.
Proof.
  intros Hs Hr Hl [_ H2 H3 H4]. split; [done | | done | by eapply data_ok_same]. intros x Hx. by apply H2, Hl.
Qed.

Lemma heap_ok_perm hs lru use es es' : es ≡ₚ es' -> heap_ok hs lru use es -> heap_ok hs lru use es'.
Proof.
  intros Hp [H1 H2 H3 [D1 D2 D3 D4]]. split; [done | | by rewrite <- Hp | split; try done].
  - intros x Hx. rewrite <- Hp. by apply H2.
  - by rewrite <- Hp.
  - intros x kv Hx. rewrite <- Hp. by apply D3.
Qed.

(** A change of one handle. *)
Lemma data_ok_upd hs hs' l l' es x h h' :
  data_ok hs l es -> (2 <= x)%nat -> handle x hs = Some h -> (forall y, handle y hs' = if decide (y = x) then Some h' else handle y hs) ->
  (forall y, y <> x -> y ∈ l' <-> y ∈ l) ->
  Forall (fun e => e_handle e = x -> entry_ok hs' l' e) es ->
  (forall kv, pins !! x = Some kv -> pinned hs' x kv) -> Φ (deleter h') (key h') (value h') -> data_ok hs' l' es.
Proof.
  intros [D1 (d & Hd & Hrd) D3 D4] Hx Hh Hs Hl He Hp HΦ. split.
  - rewrite Forall_forall in *. intros e Hin. destruct (decide (e_handle e = x)) as [E|E]; [by apply He|].
    destruct (D1 e Hin) as (he & Hhe & Hk & Hv & Hge & Hde). exists he. rewrite Hs, decide_False by done. split_and!; [done..|].
    destruct (is_deletion he); by rewrite Hl.
  - exists d. rewrite Hs, decide_False; [done | unfold lru_; lia].
  - intros y kv Hy. destruct (D3 y kv Hy) as [(hy & Hhy & Hr) Hin]. split; [|done]. destruct (decide (y = x)) as [->|E]; [by apply Hp|].
    exists hy. by rewrite Hs, decide_False.
  - intros y hy Hy Hhy. rewrite Hs in Hhy. destruct (decide (y = x)) as [->|E]; [by injection Hhy as <- | by apply (D4 y)].
Qed.

Lemma upd_links x f hs hs' h :
  handle x hs = Some h -> (forall y, handle y hs' = if decide (y = x) then Some (f h) else handle y hs) ->
  next (f h) = next h -> prev (f h) = prev h -> (forall y, next_of hs' y = next_of hs y) /\ (forall y, prev_of hs' y = prev_of hs y).
Proof.
  intros Hh Hs Hn Hp. split; intros y; destruct (next_of_upd _ _ _ _ _ y Hh Hs) as [E1 E2]; rewrite ?E1, ?E2; case_decide as Ey; try done; subst y;
    unfold next_of, prev_of; by rewrite Hh, ?Hn, ?Hp.
Qed.

(** A change that leaves a handle as good as it was. *)
Lemma heap_ok_upd hs lru use es x h f :
  heap_ok hs lru use es -> (2 <= x)%nat -> handle x hs = Some h ->
  next (f h) = next h -> prev (f h) = prev h -> key (f h) = key h -> hash_val (f h) = hash_val h -> is_deletion (f h) = is_deletion h ->
  deleter (f h) = deleter h -> value (f h) = value h -> (1 <= refs h -> 1 <= refs (f h)) -> (is_Some (pins !! x) -> 2 <= refs (f h)) ->
  exists hs', upd x f hs = Done hs' /\ heap_ok hs' lru use es /\ length hs' = length hs /\
    (forall y, handle y hs' = if decide (y = x) then Some (f h) else handle y hs).
Proof.
  intros [H1 H2 H3 H4] Hx Hh En Ep Ek Ev Edel Ed Eval Hr Hpin. destruct (upd_spec x f hs h Hh) as (hs' & E & Hlen & Hs). exists hs'. split_and!; [done | | done | done].
  destruct (upd_links x f hs hs' h Hh Hs En Ep) as [Hn Hp]. split; [by eapply rings_same | done | done |].
  eapply (data_ok_upd hs hs' _ _ _ x h (f h)); try done.
  - apply Forall_forall. intros e Hin Ee. pose proof (d_entries _ _ _ H4) as D1. rewrite Forall_forall in D1. destruct (D1 e Hin) as (he & Hhe & D).
    rewrite Ee, Hh in Hhe. injection Hhe as <-. exists (f h). rewrite Ee, Hs, decide_True by done. rewrite Ek, Ev, Edel. rewrite Ee in D.
    destruct D as (? & ? & ? & D). split_and!; [done..|]. destruct (is_deletion h); [done|]. destruct D as [? D]. auto.
  - intros kv Hkv. destruct (d_pins _ _ _ H4 x kv Hkv) as [(h0 & Hh0 & E1 & E2 & E3) _]. rewrite Hh in Hh0. injection Hh0 as <-.
    exists (f h). rewrite Hs, decide_True, Ek, Eval, Edel by done. split_and!; [done..|]. apply Hpin. by eexists.
  - rewrite Ed, Ek, Eval. by apply (d_values _ _ _ H4 x).
Qed.

Lemma deletion_set h : is_deletion (set_deletion true h) = true.
Proof.
  unfold is_deletion, set_deletion, set_flags. cbn [flags]. apply negb_true_iff, Z.eqb_neq. intros E.
  rewrite Z.land_lor_distr_l in E. apply Z.lor_eq_0_iff in E as [_ E]. done.
Qed.

(** What is listed is in the table. *)
Lemma listed_entry hs lru use es x :
  heap_ok hs lru use es -> x ∈ lru ++ use ->
  exists h, handle x hs = Some h /\ (2 <= x)%nat /\ is_deletion h = false /\ 1 <= refs h.
Proof.
  intros [_ H2 _ H4] Hx. pose proof (H2 x Hx) as Hin. apply list_elem_of_fmap in Hin as (e & -> & He).
  pose proof (d_entries _ _ _ H4) as D1. rewrite Forall_forall in D1. destruct (D1 e He) as (h & Hh & _ & _ & Hge & D).
  exists h. destruct (is_deletion h); [done|]. by destruct D.
Qed.

Section destroyed.
Hypothesis Φ_destroyed : forall k v, Φ true k v -> Φ true k None.

(** The handles with [P] have the same data. *)
Definition unchanged (P : nat -> Prop) hs hs' : Prop := forall y, P y -> data <$> handle y hs' = data <$> handle y hs.

(** A handle that nobody holds is evicted. *)
Lemma evict_ok hs lru use es x h :
  heap_ok hs lru use es -> x ∈ lru ++ use -> handle x hs = Some h -> refs h = 1 ->
  exists hs', evict x hs = Done hs' /\ length hs' = length hs /\ heap_ok hs' (without x lru) (without x use) es /\ unchanged (fun y => y <> x) hs hs'.
Proof.
  intros Hok Hx Hh Hr. destruct (listed_entry _ _ _ _ _ Hok Hx) as (h0 & Hh0 & Hge & _). rewrite Hh in Hh0. injection Hh0 as <-.
  unfold evict. destruct (upd_spec x (set_deletion true) hs h Hh) as (hs1 & E1 & L1 & S1). rewrite E1. cbn [obind].
  assert (Hdel : exists hs2 h2, call_deleter x hs1 = Done hs2 /\ length hs2 = length hs /\
    (forall y, handle y hs2 = if decide (y = x) then Some h2 else handle y hs) /\
    next h2 = next h /\ prev h2 = prev h /\ key h2 = key h /\ hash_val h2 = hash_val h /\ is_deletion h2 = true /\ Φ (deleter h2) (key h2) (value h2)).
  { pose proof (d_values _ _ _ (h_data _ _ _ _ Hok) x h Hge Hh) as HΦ. assert (Hh1 : handle x hs1 = Some (set_deletion true h)) by (by rewrite S1, decide_True).
    unfold call_deleter. rewrite Hh1. cbn [ofopt obind]. destruct (deleter (set_deletion true h)) eqn:Ed.
    - destruct (upd_spec x (set_value None) hs1 _ Hh1) as (hs2 & -> & L2 & S2). exists hs2, (set_value None (set_deletion true h)).
      split_and!; [done | congruence | | done.. | apply deletion_set |].
      + intros y. rewrite S2. case_decide; [done|]. by rewrite S1, decide_False.
      + cbn in *. rewrite Ed in *. by eapply Φ_destroyed.
    - exists hs1, (set_deletion true h). split_and!; [done | done | done | done.. | apply deletion_set | done]. }
  destruct Hdel as (hs2 & h2 & -> & L2 & S2 & En & Ep & Ek & Ev & Edel & HΦ). cbn [obind].
  destruct (upd_links x (fun _ => h2) hs hs2 h Hh S2 En Ep) as [Hn Hp].
  assert (Hr2 : rings hs2 lru use) by (eapply rings_same; [done..|]; apply Hok).
  destruct (remove_rings hs2 lru use x Hr2 Hx) as (hs3 & E3 & Hr3 & Hs3). exists hs3. rewrite E3. split_and!; [done | by rewrite (proj1 Hs3) | | intros y Hy; rewrite (proj2 Hs3), S2; by rewrite decide_False].
  assert (Hl : forall y, y ∈ without x lru ++ without x use <-> y <> x /\ y ∈ lru ++ use) by (intros y; rewrite !elem_of_app, !elem_of_without; tauto).
  split; [done | | by apply Hok |].
  - intros y Hy. apply (h_listed _ _ _ _ Hok). by apply Hl in Hy as [_ ?].
  - eapply data_ok_same; [exact Hs3 | done |]. eapply (data_ok_upd hs hs2 (lru ++ use) _ _ x h h2); try done.
    + apply Hok.
    + intros y Hy. rewrite Hl. tauto.
    + apply Forall_forall. intros e Hin Ee. pose proof (d_entries _ _ _ (h_data _ _ _ _ Hok)) as D1. rewrite Forall_forall in D1.
      destruct (D1 e Hin) as (he & Hhe & D2 & D3 & _). rewrite Ee, Hh in Hhe. injection Hhe as <-. exists h2. rewrite Ee, S2, decide_True by done.
      rewrite Ek, Ev, Edel, Hl. split_and!; [done.. | tauto].
    + intros kv Hkv. destruct (d_pins _ _ _ (h_data _ _ _ _ Hok) x kv Hkv) as [(h0 & Hh0 & _ & _ & Hr0) _]. rewrite Hh in Hh0. injection Hh0 as <-. lia.
Qed.

(** A deleted handle is freed. *)
Lemma Free_ok hs lru use e es h :
  heap_ok hs lru use (e :: es) -> handle (e_handle e) hs = Some h -> is_deletion h = true ->
  exists hs', Free (e_handle e) hs = Done hs' /\ length hs' = length hs /\ heap_ok hs' lru use es /\ unchanged (fun y => y <> e_handle e) hs hs'.
Proof.
  intros [H1 H2 H3 [D1 (d & Hd & Hrd) D3 D4]] Hh Hdel. unfold Free. rewrite Hh. eexists. split; [done|]. split; [apply length_insert|].
  apply Forall_cons in D1 as [(h0 & Hh0 & _ & _ & Hge & D0) D1]. rewrite Hh in Hh0. injection Hh0 as <-. rewrite Hdel in D0.
  cbn in H3. apply NoDup_cons in H3 as [H3' H3]. assert (Hs : forall y, y <> e_handle e -> handle y (<[e_handle e:=None]> hs) = handle y hs).
  { intros y Hy. rewrite handle_insert, decide_False by (done || by eapply handle_lt). done. }
  split; [|intros y Hy; by rewrite Hs]. split; [| | done | split].
  - apply (rings_frame hs); [|done]. intros y Hy. apply Hs. intros ->. rewrite !elem_of_cons in Hy. unfold lru_, in_use_ in Hy. destruct Hy as [?|[?|Hy]]; [lia | lia | done].
  - intros x Hx. specialize (H2 x Hx). cbn in H2. apply elem_of_cons in H2 as [->|H2]; [done | done].
  - rewrite Forall_forall in *. intros e' He'. destruct (D1 e' He') as (h' & Hh' & D). exists h'. rewrite Hs; [done|].
    intros E. apply H3'. rewrite <- E. apply list_elem_of_fmap. by exists e'.
  - exists d. rewrite Hs; [done | unfold lru_; lia].
  - intros x kv Hx. destruct (D3 x kv Hx) as [(hx & Hhx & Hkv & Hdx & Hrx) Hin]. assert (Hne : x <> e_handle e) by (intros ->; congruence).
    split; [exists hx; by rewrite Hs|]. cbn in Hin. apply elem_of_cons in Hin as [?|?]; done.
  - intros x hx Hx Hhx. destruct (decide (x = e_handle e)) as [->|Hne].
    + rewrite handle_insert, decide_True in Hhx by (done || by eapply handle_lt). done.
    + rewrite Hs in Hhx by done. by apply (D4 x).
Qed.

(** *** Purging *)

Lemma first_ring hs d l : ring hs d l -> first d hs = Done (hd d l).
Proof.
  intros Hr. destruct (ring_handle hs d l d Hr ltac:(by left)) as (h & Hh & _). unfold first. rewrite Hh. cbn [ofopt obind].
  unfold ring in Hr. destruct l as [|x l]; cbn [app] in Hr; apply links_cons in Hr as [Hn _]; unfold next_of in Hn; rewrite Hh in Hn;
    cbn [mbind option_bind] in Hn; by rewrite Hn.
Qed.

Lemma ring_next hs d A x B : ring hs d (A ++ x :: B) -> exists h, handle x hs = Some h /\ next h = Some (hd d B).
Proof.
  intros Hr. destruct (ring_handle hs d _ x Hr) as (h & Hh & _); [right; apply elem_of_app; right; by left|]. exists h. split; [done|].
  unfold ring in Hr. rewrite <- app_assoc, app_comm_cons in Hr. cbn [app] in Hr. apply (proj1 (links_app hs (d :: A) x (B ++ [d]))) in Hr as [_ Hr].
  destruct B as [|y B]; cbn [app] in Hr; apply links_cons in Hr as [Hn _]; unfold next_of in Hn; rewrite Hh in Hn; exact Hn.
Qed.

Lemma wf_size_less k s lru use lru' use' :
  size_ s = wrap 64 (zlen (lru ++ use) + k) -> zlen (lru ++ use) = zlen (lru' ++ use') + 1 -> wrap 64 (size_ s - 1) = wrap 64 (zlen (lru' ++ use') + k).
Proof. intros -> ->. unfold wrap. rewrite Zminus_mod_idemp_l. f_equal. lia. Qed.

Lemma purge_one_ok k s lru use es x h :
  wf k s lru use es -> x ∈ lru ++ use -> handle x (heap_ s) = Some h -> refs h = 1 ->
  exists s', purge_one x s = Done s' /\ wf k s' (without x lru) (without x use) es /\ unchanged (fun y => y <> x) (heap_ s) (heap_ s').
Proof.
  intros [W1 W2 W3 W4] Hx Hh Hr. destruct (evict_ok _ _ _ _ _ _ W1 Hx Hh Hr) as (hs' & E & _ & W1' & Hun). unfold purge_one. rewrite E. cbn [obind].
  eexists. split; [done|]. split; [|done]. split; [done..|]. cbn [size_]. apply (wf_size_less k s lru use); [done|].
  destruct (h_rings _ _ _ _ W1) as (_ & _ & Hnd). do 2 (apply NoDup_cons in Hnd as [_ Hnd]).
  assert (Hw : without x lru ++ without x use = without x (lru ++ use)) by (unfold without; by rewrite filter_app). rewrite Hw.
  destruct (list_elem_of_split _ _ Hx) as (A & B & E'). rewrite E' in *. rewrite without_split by done. unfold zlen. rewrite !length_app. cbn. lia.
Qed.

Lemma purge_lru_ok k s lru use es :
  wf k s lru use es ->
  exists s' use', purge_lru s = Done s' /\ wf k s' (tail lru) use' es /\ unchanged (fun y => y ∈ tail lru) (heap_ s) (heap_ s').
Proof.
  intros W. pose proof W as [W1 W2 W3 W4]. pose proof (h_rings _ _ _ _ W1) as (Hl & Hu & Hnd). unfold purge_lru. rewrite (first_ring _ _ _ Hl). cbn [obind].
  destruct lru as [|x lru]; cbn [hd].
  - destruct (d_head _ _ _ (h_data _ _ _ _ W1)) as (d & Hd & Hrd). rewrite Hd. cbn [ofopt obind]. unfold lru_ in *.
    destruct (Z.eqb_spec (refs d) 1); [lia|]. destruct (Z.leb_spec 2 (refs d)); [lia|]. by exists s, use.
  - assert (Hx : x ∈ (x :: lru) ++ use) by by left. destruct (listed_entry _ _ _ _ _ W1 Hx) as (h & Hh & Hge & Hdel & Hr1). rewrite Hh. cbn [ofopt obind].
    pose proof (proj1 (NoDup_cons _ _) Hnd) as [Hn0 _]. do 2 (apply NoDup_cons in Hnd as [_ Hnd]). cbn [app] in Hnd.
    apply NoDup_cons in Hnd as [Hxl Hnd]. rewrite elem_of_app in Hxl.
    assert (El : without x (x :: lru) = lru) by (apply (without_split x [] lru); cbn; apply NoDup_app in Hnd; apply NoDup_cons; tauto). cbn [tail].
    destruct (Z.eqb_spec (refs h) 1) as [Hr|Hr].
    + destruct (purge_one_ok _ _ _ _ _ _ _ W Hx Hh Hr) as (s' & -> & W' & Hun). rewrite El in W'. exists s', (without x use).
      split_and!; [done | done |]. intros y Hy. apply Hun. intros ->. by apply Hxl; left.
    + destruct (Z.leb_spec 2 (refs h)); [|lia].
      destruct (remove_rings _ _ _ _ (h_rings _ _ _ _ W1) Hx) as (hs1 & -> & Hr1' & Hs1). cbn [obind].
      assert (Hxn : x ∉ without x (x :: lru) ++ without x use) by (rewrite elem_of_app, !elem_of_without; tauto).
      destruct (insert_use_rings hs1 _ _ x Hr1') as (hs2 & -> & Hr2 & Hs2).
      { rewrite !elem_of_cons. unfold lru_, in_use_. intros [?|[?|?]]; [lia | lia | done]. }
      { destruct (same_data_handle _ _ _ _ Hs1 Hh) as (h' & -> & _). by eexists. }
      cbn [obind]. pose proof (same_data_trans _ _ _ Hs1 Hs2) as Hs3.
      exists (with_heap hs2 s), (without x use ++ [x]). split; [done|]. split; [|intros y _; apply Hs3].
      rewrite El, (without_none x use) in * by tauto. split; [| done | done |].
      * apply (heap_ok_same (heap_ s) hs2 (x :: lru) use); [exact Hs3 | done | | done]. intros y. rewrite !elem_of_app, elem_of_cons, elem_of_nil, elem_of_cons. tauto.
      * cbn [size_ with_heap]. rewrite W4. unfold zlen. rewrite !length_app. cbn. do 2 f_equal. lia.
Qed.

Lemma purge_in_use_ok fuel k s lru A B es :
  wf k s lru (A ++ B) es -> (length B <= fuel)%nat ->
  exists s' use', purge_in_use fuel (hd in_use_ B) s = Done s' /\ wf k s' lru use' es /\ unchanged (fun y => y ∈ lru) (heap_ s) (heap_ s').
Proof.
  revert s A B. induction fuel as [|fuel IH]; intros s A [|x B] W Hf; cbn in Hf; try lia; cbn [hd purge_in_use]; rewrite ?Nat.eqb_refl; [by exists s, (A ++ [])..|].
  pose proof W as [W1 W2 W3 W4]. pose proof (h_rings _ _ _ _ W1) as (Hl & Hu & Hnd).
  assert (Hx : x ∈ lru ++ A ++ x :: B) by (rewrite !elem_of_app; right; right; by left).
  destruct (listed_entry _ _ _ _ _ W1 Hx) as (h & Hh & Hge & Hdel & Hr1).
  destruct (Nat.eqb_spec x in_use_) as [->|_]; [unfold in_use_ in Hge; lia|]. rewrite Hh. cbn [ofopt obind].
  destruct (ring_next _ _ _ _ _ Hu) as (h' & Hh' & Hn). rewrite Hh in Hh'. injection Hh' as <-. rewrite Hn. cbn [ofopt obind].
  destruct (Z.eqb_spec (refs h) 1) as [Hr|Hr].
  - destruct (purge_one_ok _ _ _ _ _ _ _ W Hx Hh Hr) as (s1 & -> & W' & Hun). cbn [obind].
    do 2 (apply NoDup_cons in Hnd as [_ Hnd]). apply NoDup_app in Hnd as (_ & Hap & Hnd).
    rewrite without_split in W' by done. rewrite (without_none x lru) in W'; [|intros Hxl; apply (Hap x Hxl), elem_of_app; right; by left].
    destruct (IH s1 A B W' ltac:(lia)) as (s' & use' & E & W2' & Hun'). exists s', use'. split_and!; [done | done |].
    intros y Hy. rewrite Hun' by done. apply Hun. intros ->. apply (Hap x Hy), elem_of_app. right. by left.
  - destruct (IH s (A ++ [x]) B) as (s' & use' & E & W2'); [by rewrite <- app_assoc | lia |]. by exists s', use'.
Qed.

Lemma use_short hs lru use : rings hs lru use -> (length use <= length hs)%nat.
Proof.
  intros (_ & Hu & Hnd). do 2 (apply NoDup_cons in Hnd as [_ Hnd]). apply NoDup_app in Hnd as (_ & _ & Hnd).
  assert (length use <= length (seq 0 (length hs)))%nat as Hl; [|by rewrite length_seq in Hl].
  apply NoDup_incl_length; [by apply NoDup_ListNoDup|]. intros x Hx%list_elem_of_In.
  destruct (ring_handle _ _ _ x Hu ltac:(by right)) as (h & Hh%handle_lt & _). apply in_seq. lia.
Qed.

(** *** The new table *)

Lemma refill_ok todo t hs lru use done_ :
  heap_ok hs lru use (todo ++ done_) -> map_holds e_key BytewiseCompare e_hash t done_ ->
  exists t' hs' es', refill todo t hs = Done (t', hs') /\ heap_ok hs' lru use es' /\ unchanged (fun y => y ∈ lru ++ use) hs hs' /\
    map_holds e_key BytewiseCompare e_hash t' es' /\ forall e, e ∈ es' -> e ∈ todo ++ done_.
Proof.
  revert t hs done_. induction todo as [|e todo IH]; intros t hs done_ Hok Ht; cbn [refill].
  - exists t, hs, done_. split_and!; try done.
  - pose proof (d_entries _ _ _ (h_data _ _ _ _ Hok)) as D1. apply Forall_cons in D1 as [(h & Hh & _) _]. rewrite Hh. cbn [ofopt obind].
    destruct (is_deletion h) eqn:Ed.
    + destruct (Free_ok _ _ _ _ _ _ Hok Hh Ed) as (hs1 & -> & _ & Hok1 & Hun). cbn [obind].
      destruct (IH t hs1 done_ Hok1 Ht) as (t' & hs' & es' & -> & H1 & Hun' & H2 & H3). exists t', hs', es'. split_and!; [done | done | | done |].
      * intros y Hy. rewrite Hun' by done. apply Hun. intros ->. destruct (listed_entry _ _ _ _ _ Hok Hy) as (h' & Hh' & _ & Hd & _). congruence.
      * intros e' He'. right. by apply H3.
    + destruct (Put_map_holds e_key BytewiseCompare e_hash t done_ e Ht) as (t1 & E & Ht1). fold e_compare in E. rewrite E. cbn [obind].
      destruct (IH t1 hs (e :: done_)) as (t' & hs' & es' & -> & H1 & Hun & H2 & H3); [|done|].
      * eapply heap_ok_perm; [|exact Hok]. cbn [app]. by rewrite Permutation_middle.
      * exists t', hs', es'. split_and!; try done. intros e' He'. specialize (H3 e' He'). rewrite elem_of_app, elem_of_cons in H3.
        rewrite elem_of_app, elem_of_cons. tauto.
Qed.

Lemma new_slots_pos t : (0 < Z.to_nat (new_slots scaled t))%nat.
Proof. unfold new_slots. destruct (Z.ltb_spec (wrap 64 (sgn 32 (scaled t))) kMinLRUTableSlots); unfold kMinLRUTableSlots in *; lia. Qed.

Lemma rehash_ok k s lru use es :
  wf k s lru use es -> exists s' es', rehash crowded scaled s = Done s' /\ wf k s' lru use es' /\ unchanged (fun y => y ∈ lru ++ use) (heap_ s) (heap_ s').
Proof.
  intros [W1 W2 W3 W4]. unfold rehash. destruct (crowded (table_ s)); [|by exists s, es].
  destruct (all_keys_map_holds _ _ _ _ _ W2) as (ks & -> & Hks). cbn [obind].
  destruct (refill_ok ks (NewTable (Z.to_nat (new_slots scaled (table_ s)))) (heap_ s) lru use []) as (t' & hs' & es' & E & H1 & Hun & H2 & H3).
  - rewrite app_nil_r. eapply heap_ok_perm; [|exact W1]. done.
  - apply New_map_holds, new_slots_pos.
  - rewrite E. cbn [obind]. eexists _, es'. split; [done|]. split; [|done]. split; [done | done | | done].
    rewrite Forall_forall in *. intros e He. apply W3. rewrite <- Hks. specialize (H3 e He). by rewrite app_nil_r in H3.
Qed.

(** The oldest of the handles at most leaves the first list, and the others in it
    are as they were. *)
Lemma PurgeIfNeeded_ok k force s lru use es :
  wf k s lru use es ->
  exists s' lru' use' es', PurgeIfNeeded crowded scaled force s = Done s' /\ wf k s' lru' use' es' /\
    (if (size_ s <=? capacity_ s) && negb force then s' = s /\ lru' = lru else lru' = tail lru) /\ unchanged (fun y => y ∈ lru') (heap_ s) (heap_ s').
Proof.
  intros W. unfold PurgeIfNeeded. destruct ((size_ s <=? capacity_ s) && negb force); [by exists s, lru, use, es|].
  destruct (purge_lru_ok k s lru use es W) as (s1 & use1 & -> & W1 & U1). cbn [obind].
  pose proof (h_rings _ _ _ _ (w_heap _ _ _ _ _ W1)) as Hr. rewrite (first_ring _ _ _ (proj1 (proj2 Hr))). cbn [obind].
  destruct (purge_in_use_ok (length (heap_ s1)) k s1 (tail lru) [] use1 es W1 ltac:(by eapply use_short)) as (s2 & use2 & -> & W2 & U2). cbn [obind].
  destruct (rehash_ok _ _ _ _ _ W2) as (s3 & es3 & -> & W3 & U3). exists s3, (tail lru), use2, es3. split_and!; [done..|].
  intros y Hy. rewrite U3 by (apply elem_of_app; by left). rewrite U2 by done. by apply U1.
Qed.

(** *** The operations *)

Lemma shard_Insert_ok k s lru use es x h kk del :
  wf k s lru use es -> (2 <= x)%nat -> handle x (heap_ s) = Some h -> x ∉ e_handle <$> es -> key h = kk -> Φ del kk (value h) ->
  exists s' lru' use' es', shard_Insert crowded scaled kk x del s = Done s' /\ wf k s' lru' use' es' /\
    (if wrap 64 (size_ s + 1) <=? capacity_ s then lru' = lru ++ [x] /\ (size_ s' <=? capacity_ s') = true else lru' = tail (lru ++ [x])) /\
    (x ∈ lru' -> exists h', handle x (heap_ s') = Some h' /\ key h' = kk /\ value h' = value h /\ refs h' = 1).
Proof.
  intros [W1 W2 W3 W4] Hx Hh Hnew Hk HΦ. unfold shard_Insert.
  set (f := fun h : LRUHandle V => mkHandle (next h) (prev h) del 1 (id h) (value h) (key h) (BytewiseHash kk) 0 10).
  destruct (upd_spec x f (heap_ s) h Hh) as (hs1 & -> & L1 & S1). cbn [obind]. assert (Hh1 : handle x hs1 = Some (f h)) by (by rewrite S1, decide_True).
  rewrite Hh1. cbn [ofopt obind]. change (hash_val (f h)) with (BytewiseHash kk). change (key (f h)) with (key h). rewrite Hk.
  destruct (Put_map_holds e_key BytewiseCompare e_hash (table_ s) es (mkEntry x kk (BytewiseHash kk)) W2) as (t & E & W2'). fold e_compare in E. rewrite E. cbn [obind].
  destruct (upd_links x f _ _ h Hh S1 eq_refl eq_refl) as [Hn Hp]. assert (Hr1 : rings hs1 lru use) by (eapply rings_same; [done..|]; apply W1).
  assert (Hxl : x ∉ lru ++ use) by (intros Hin; by apply Hnew, (h_listed _ _ _ _ W1)).
  destruct (insert_lru_rings hs1 lru use x Hr1) as (hs2 & -> & Hr2 & Hs2).
  { rewrite !elem_of_cons. unfold lru_, in_use_. intros [?|[?|?]]; [lia | lia | done]. }
  { rewrite Hh1. by eexists. }
  cbn [obind]. set (s2 := mkShard (capacity_ s) (wrap 64 (size_ s + 1)) t hs2).
  cut (wf k s2 (lru ++ [x]) use (mkEntry x kk (BytewiseHash kk) :: es)).
  { intros W. destruct (PurgeIfNeeded_ok k false s2 _ _ _ W) as (s' & lru' & use' & es' & -> & W' & Hl & Hun). exists s', lru', use', es'. split_and!; [done | done | |].
    - cbn [size_ capacity_ s2] in Hl. rewrite andb_true_r in Hl. destruct (wrap 64 (size_ s + 1) <=? capacity_ s) eqn:Ec; [|done].
      destruct Hl as [-> ->]. by split.
    - intros Hx'. specialize (Hun x Hx'). cbn [heap_ s2] in Hun. rewrite (proj2 Hs2), Hh1 in Hun. destruct (handle x (heap_ s')) as [h'|]; [|done].
      apply (inj Some) in Hun. destruct (data_fields _ _ Hun) as (E1 & E2 & _ & E4 & _). exists h'. rewrite E1, E2, E4. done. }
  split; [| done | |].
  - cbn [heap_ s2]. split; [done | | |].
    + intros y. rewrite !elem_of_app, list_elem_of_singleton. intros [[Hy| ->]|Hy]; cbn; [right; apply (h_listed _ _ _ _ W1), elem_of_app; by left | by left |].
      right. apply (h_listed _ _ _ _ W1), elem_of_app. by right.
    + cbn. apply NoDup_cons. split; [done | apply W1].
    + eapply (data_ok_same hs1); [done | done |].
      assert (D : data_ok hs1 ((lru ++ [x]) ++ use) es).
      { eapply (data_ok_upd (heap_ s) hs1 (lru ++ use) _ es x h (f h)); try done.
        - apply W1.
        - intros y Hy. rewrite !elem_of_app, list_elem_of_singleton. tauto.
        - apply Forall_forall. intros e He Ee. exfalso. apply Hnew, list_elem_of_fmap. by exists e.
        - intros kv Hkv. exfalso. by apply Hnew, (d_pins _ _ _ (h_data _ _ _ _ W1) x kv).
        - cbn. by rewrite Hk. }
      destruct D as [D1 D2 D3 D4]. split; [constructor; [|done] | done | | done].
      * exists (f h). cbn [e_handle e_key e_hash]. split_and!; [done.. |].
        change (is_deletion (f h)) with false. cbn iota. rewrite !elem_of_app, list_elem_of_singleton. split; [tauto | done].
      * intros y kv Hy. destruct (D3 y kv Hy) as [? ?]. split; [done|]. cbn. by right.
  - constructor; [done | exact W3].
  - cbn [size_ s2]. rewrite W4. unfold wrap, zlen. rewrite Zplus_mod_idemp_l, !length_app. cbn. f_equal. lia.
Qed.

(** What is found in the table. *)
Lemma shard_Get_ok k s lru use es kk :
  wf k s lru use es ->
  exists r s' lru' use', shard_Get kk s = Done (r, s') /\ wf k s' lru' use' es /\ length (heap_ s') = length (heap_ s) /\
    match r with
    | Some x => x ∈ lru' ++ use' /\ exists h, handle x (heap_ s') = Some h /\ key h = kk /\
        exists h0, handle x (heap_ s) = Some h0 /\ refs h = refs h0 /\ value h = value h0
    | None => s' = s
    end.
Proof.
  intros [W1 W2 W3 W4]. unfold shard_Get.
  destruct (Seek2_map_holds e_key BytewiseCompare e_hash (table_ s) es (LookupHandle kk) W2) as (it & Eit & Hit). fold e_compare in Eit. rewrite Eit. cbn [obind].
  destruct (hi_Valid it (table_ s)); cbn [negb]; [|by exists None, s, lru, use].
  destruct Hit as (e & Ee & He & Hc). rewrite Ee. cbn [ofopt obind]. unfold compare_by in Hc. apply cmp_exact in Hc. cbn [e_key LookupHandle] in Hc.
  pose proof (d_entries _ _ _ (h_data _ _ _ _ W1)) as D1. rewrite Forall_forall in D1. destruct (D1 e He) as (h & Hh & Hk & _ & Hge & D).
  rewrite Hh. cbn [ofopt obind]. destruct (is_deletion h) eqn:Hdel; [by exists None, s, lru, use|]. destruct D as [Hx Hr].
  set (x := e_handle e) in *.
  destruct (heap_ok_upd _ _ _ _ x h (set_hits (sgn 32 (hits h + 1))) W1 Hge Hh) as (hs1 & -> & W1' & L1 & S1); try done.
  { intros [kv Hkv]. destruct (d_pins _ _ _ (h_data _ _ _ _ W1) x kv Hkv) as [(h0 & Hh0 & _ & _ & Hr0) _]. rewrite Hh in Hh0. by injection Hh0 as <-. }
  cbn [obind]. set (h1 := set_hits (sgn 32 (hits h + 1)) h) in *. assert (Hh1 : handle x hs1 = Some h1) by (by rewrite S1, decide_True).
  destruct (Z.leb_spec 17 (hits h)) as [_|_].
  - destruct (heap_ok_upd _ _ _ _ x h1 (set_hits 1) W1' Hge Hh1) as (hs2 & -> & W1'' & L2 & S2); try done.
    { intros [kv Hkv]. destruct (d_pins _ _ _ (h_data _ _ _ _ W1) x kv Hkv) as [(h0 & Hh0 & _ & _ & Hr0) _]. rewrite Hh in Hh0. by injection Hh0 as <-. }
    cbn [obind]. assert (Hh2 : handle x hs2 = Some (set_hits 1 h1)) by (by rewrite S2, decide_True).
    destruct (remove_rings hs2 lru use x (h_rings _ _ _ _ W1'') Hx) as (hs3 & -> & Hr3 & Hs3). cbn [obind].
    destruct (same_data_handle _ _ _ _ Hs3 Hh2) as (h3 & Hh3 & E3).
    assert (Hxn : x ∉ lru_ :: in_use_ :: without x lru ++ without x use).
    { rewrite !elem_of_cons, elem_of_app, !elem_of_without. unfold lru_, in_use_. intros [?|[?|?]]; [lia | lia | tauto]. }
    assert (Hfin : forall lru' use' hs4, same_data hs3 hs4 -> rings hs4 lru' use' -> (lru' ++ use' ≡ₚ lru ++ use) ->
      exists r s' lru' use', Done (Some x, with_heap hs4 s) = Done (r, s') /\ wf k s' lru' use' es /\ length (heap_ s') = length (heap_ s) /\
        match r with
        | Some x => x ∈ lru' ++ use' /\ exists h, handle x (heap_ s') = Some h /\ key h = kk /\
            exists h0, handle x (heap_ s) = Some h0 /\ refs h = refs h0 /\ value h = value h0
        | None => s' = s
        end).
    { intros lru' use' hs4 Hs4 Hr4 Hp4. exists (Some x), (with_heap hs4 s), lru', use'. pose proof (same_data_trans _ _ _ Hs3 Hs4) as Hs5. split_and!; [done | | | |].
      - split; [| done | done |].
        + apply (heap_ok_same hs2 hs4 lru use); [done | done | | done]. intros y. by rewrite Hp4.
        + cbn. rewrite W4. unfold zlen. by rewrite Hp4.
      - cbn. rewrite (proj1 Hs5). congruence.
      - by rewrite Hp4.
      - destruct (same_data_handle _ _ _ _ Hs5 Hh2) as (h4 & Hh4 & E4). exists h4. split; [done|].
        destruct (data_fields _ _ E4) as (-> & -> & _ & -> & _). cbn. split; [congruence|]. by exists h. }
    assert (Hperm : forall l, x ∈ l -> NoDup l -> without x l ++ [x] ≡ₚ l).
    { intros l (A & B & ->)%list_elem_of_split Hnd. rewrite without_split by done. rewrite <- Permutation_cons_append. by rewrite Permutation_middle. }
    assert (Hall : without x lru ++ without x use ++ [x] ≡ₚ lru ++ use).
    { destruct (h_rings _ _ _ _ W1) as (_ & _ & Hnd). do 2 (apply NoDup_cons in Hnd as [_ Hnd]).
      rewrite app_assoc. assert (Ew : without x lru ++ without x use = without x (lru ++ use)) by (unfold without; by rewrite filter_app). rewrite Ew. by apply Hperm. }
    destruct (Z.eqb_spec (refs h) 1).
    + destruct (insert_lru_rings hs3 _ _ x Hr3 Hxn ltac:(by eexists)) as (hs4 & -> & Hr4 & Hs4). cbn [obind]. eapply Hfin; [done | done |].
      rewrite <- Hall. rewrite <- app_assoc. apply Permutation_app_head. by rewrite Permutation_app_comm.
    + destruct (Z.ltb_spec 1 (refs h)); [|lia].
      destruct (insert_use_rings hs3 _ _ x Hr3 Hxn ltac:(by eexists)) as (hs4 & -> & Hr4 & Hs4). cbn [obind]. by eapply Hfin.
  - exists (Some x), (with_heap hs1 s), lru, use. split_and!; [done | | done | done |].
    + by split.
    + exists h1. split; [done|]. cbn. split; [congruence|]. by exists h.
Qed.

Lemma shard_Remove_ok k s lru use es kk :
  wf k s lru use es -> exists s' lru' use' k', shard_Remove kk s = Done s' /\ wf k' s' lru' use' es /\ k <= k'.
Proof.
  intros W. unfold shard_Remove. destruct (shard_Get_ok k s lru use es kk W) as (r & s1 & lru1 & use1 & -> & W1 & _ & Hr). cbn [obind].
  destruct r as [x|]; [|exists s1, lru1, use1, k; split; [done|]; split; [done | lia]].
  destruct Hr as [Hx (h & Hh & _)]. rewrite Hh. cbn [ofopt obind]. destruct (Z.eqb_spec (refs h) 1) as [Er|Er]; [|exists s1, lru1, use1, k; split; [done|]; split; [done | lia]].
  destruct W1 as [V1 V2 V3 V4]. destruct (evict_ok _ _ _ _ _ _ V1 Hx Hh Er) as (hs' & -> & _ & V1' & _). cbn [obind].
  exists (with_heap hs' s1), (without x lru1), (without x use1), (k + 1). split; [done|]. split; [|lia]. split; [done.. |]. cbn [size_ with_heap]. rewrite V4. f_equal.
  destruct (h_rings _ _ _ _ V1) as (_ & _ & Hnd). do 2 (apply NoDup_cons in Hnd as [_ Hnd]).
  assert (Ew : without x lru1 ++ without x use1 = without x (lru1 ++ use1)) by (unfold without; by rewrite filter_app). rewrite Ew.
  destruct (list_elem_of_split _ _ Hx) as (A & B & E'). rewrite E' in *. rewrite without_split by done. unfold zlen. rewrite !length_app. cbn. lia.
Qed.

(** A client takes or gives back a reference. *)
Lemma AddRef_ok k s lru use es x h :
  wf k s lru use es -> (2 <= x)%nat -> handle x (heap_ s) = Some h -> 0 <= refs h < 2 ^ 31 - 1 ->
  exists hs', upd x AddRef (heap_ s) = Done hs' /\ wf k (with_heap hs' s) lru use es /\ length hs' = length (heap_ s) /\
    (forall y, handle y hs' = if decide (y = x) then Some (AddRef h) else handle y (heap_ s)) /\ refs (AddRef h) = refs h + 1.
Proof.
  intros [W1 W2 W3 W4] Hx Hh Hr. assert (Er : refs (AddRef h) = refs h + 1) by (cbn; apply sgn_small; lia).
  destruct (heap_ok_upd (heap_ s) lru use es x h AddRef W1 Hx Hh) as (hs' & -> & W1' & L & S); try done; [lia | |].
  { intros [kv Hkv]. destruct (d_pins _ _ _ (h_data _ _ _ _ W1) x kv Hkv) as [(h0 & Hh0 & _ & _ & Hr0) _]. rewrite Hh in Hh0. injection Hh0 as <-. lia. }
  exists hs'. split_and!; try done.
Qed.

Lemma ReleaseRef_ok k s lru use es x h :
  wf k s lru use es -> (2 <= x)%nat -> handle x (heap_ s) = Some h -> 2 <= refs h < 2 ^ 31 -> pins !! x = None ->
  exists hs', upd x ReleaseRef (heap_ s) = Done hs' /\ wf k (with_heap hs' s) lru use es.
Proof.
  intros [W1 W2 W3 W4] Hx Hh Hr Hp. assert (Er : refs (ReleaseRef h) = refs h - 1) by (cbn; apply sgn_small; lia).
  destruct (heap_ok_upd (heap_ s) lru use es x h ReleaseRef W1 Hx Hh) as (hs' & -> & W1' & L & S); try done; [lia | |].
  { rewrite Hp. by intros [? ?]. }
  by exists hs'.
Qed.

(** A handle that a loader has made. *)
Lemma New_ok k s lru use es h :
  wf k s lru use es -> Φ (deleter h) (key h) (value h) -> wf k (with_heap (heap_ s ++ [Some h]) s) lru use es.
Proof.
  intros [[H1 H2 H3 [D1 (d & Hd & Hrd) D3 D4]] W2 W3 W4] HΦ. split; [|done..]. cbn [heap_ with_heap].
  assert (Hs : forall y h', handle y (heap_ s) = Some h' -> handle y (heap_ s ++ [Some h]) = Some h').
  { intros y h' Hy. rewrite handle_app, decide_False; [done|]. apply handle_lt in Hy. lia. }
  split; [| done | done | split].
  - apply (rings_frame (heap_ s)); [|done]. intros y Hy. assert (Hh : exists h', handle y (heap_ s) = Some h').
    { destruct H1 as (R1 & R2 & _). rewrite !elem_of_cons, elem_of_app in Hy.
      destruct Hy as [->|[->|[Hy|Hy]]]; [destruct (ring_handle _ _ _ lru_ R1) as (h' & ? & _) | destruct (ring_handle _ _ _ in_use_ R2) as (h' & ? & _) |
        destruct (ring_handle _ _ _ y R1) as (h' & ? & _) | destruct (ring_handle _ _ _ y R2) as (h' & ? & _)]; try (by exists h'); by constructor. }
    destruct Hh as [h' Hh']. by rewrite (Hs y h' Hh').
  - eapply Forall_impl; [exact D1|]. intros e (h' & Hh' & D). exists h'. by rewrite (Hs _ _ Hh').
  - exists d. by rewrite (Hs _ _ Hd).
  - intros x kv Hx. destruct (D3 x kv Hx) as [(h' & Hh' & D) Hin]. split; [|done]. exists h'. by rewrite (Hs _ _ Hh').
  - intros x h' Hx Hh'. rewrite handle_app in Hh'. case_decide; [by injection Hh' as <- | by apply (D4 x)].
Qed.

(** What a loader has to do: fail, or make one new handle for the key. *)
Definition loads (del : bool) (loader : bytes -> Heap V -> outcome ((error + nat) * Heap V)) (kk : bytes) hs : Prop :=
  (exists e, loader kk hs = Done (inl e, hs)) \/
  exists h, loader kk hs = Done (inr (length hs), hs ++ [Some h]) /\ key h = kk /\ refs h = 0 /\ Φ (deleter h) kk (value h) /\ Φ del kk (value h).

(** The new handle is not the one that goes. *)
Definition room s lru : Prop := (wrap 64 (size_ s + 1) <=? capacity_ s) = true \/ (2 <= length lru)%nat.

Lemma new_stays x lru (b : bool) lru1 lru2 :
  (if b then lru1 = lru ++ [x] else lru1 = tail (lru ++ [x])) -> lru2 = lru1 \/ (b = false /\ lru2 = tail lru1) ->
  b = true \/ (2 <= length lru)%nat -> x ∈ lru1 /\ x ∈ lru2.
Proof.
  assert (Hx : forall l, x ∈ l ++ [x]) by (intros l; apply elem_of_app; right; by left).
  destruct b; intros -> H2 H3; [destruct H2 as [->|[? _]]; [by split | done]|]. destruct H3 as [?|H3]; [done|].
  destruct lru as [|a [|c lru]]; cbn in H3; [lia | lia |]. cbn [tail app] in *. destruct H2 as [->|[_ ->]]; cbn [tail]; split; try (right; apply Hx); apply Hx.
Qed.

Lemma shard_GetOrLoad_ok fuel k s lru use es kk del loader g i :
  wf k s lru use es -> GetByKey kk g = Done i -> stripes_ g !! i = Some false -> (forall x h, handle x (heap_ s) = Some h -> refs h < 2 ^ 31 - 1) ->
  loads del loader kk (heap_ s) -> room s lru ->
  exists e r g' s' lru' use' es',
    shard_GetOrLoad crowded scaled (S fuel) kk None del loader g s = Done (e, r, g', s') /\ wf k s' lru' use' es' /\
    ((e = kOk /\ stripes_ g' = stripes_ g /\ exists x h, r = Some x /\ handle x (heap_ s') = Some h /\ key h = kk /\ 2 <= refs h /\ x ∈ lru' ++ use') \/
     (r = None /\ stripes_ g' = <[i := true]> (stripes_ g) /\ loader kk (heap_ s) = Done (inl e, heap_ s))).
Proof.
  intros W Hi Hfree Href Hload Hroom. unfold shard_GetOrLoad. rewrite Hi. cbn [obind get_or_lock].
  destruct (shard_Get_ok k s lru use es kk W) as (r & s1 & lru1 & use1 & -> & W1 & _ & Hr). cbn [obind]. destruct r as [x|]; cbn [obind].
  - destruct Hr as [Hx (h & Hh & Hk & h0 & Hh0 & Er & _)]. destruct (listed_entry _ _ _ _ _ (w_heap _ _ _ _ _ W1) Hx) as (h' & Hh' & Hge & Hdel & Hr1).
    rewrite Hh in Hh'. injection Hh' as <-. specialize (Href x h0 Hh0).
    destruct (AddRef_ok _ _ _ _ _ x h W1 Hge Hh ltac:(lia)) as (hs' & E & W' & _ & S & Er'). cbn [reset obind]. rewrite E. cbn [obind].
    exists kOk, (Some x), g, (with_heap hs' s1), lru1, use1, es. split_and!; [done | done |]. left. split_and!; [done | done |].
    exists x, (AddRef h). cbn [heap_ with_heap]. rewrite S, decide_True by done. split_and!; [done | done | done | lia | done].
  - subst s1. unfold stripe_TryLock. rewrite Hfree. cbn [ofopt obind]. destruct Hload as [(e & El)|(h & El & Hk & Hr0 & HΦ & HΦ')]; rewrite El; cbn [obind].
    + eexists e, None, _, (with_heap (heap_ s) s), lru, use, es. split; [done|]. split; [by destruct W|]. right. done.
    + set (x := length (heap_ s)). assert (Hge : (2 <= x)%nat).
      { destruct (h_rings _ _ _ _ (w_heap _ _ _ _ _ W)) as (_ & R & _). destruct (ring_handle _ _ _ in_use_ R ltac:(by left)) as (h' & Hh'%handle_lt & _).
        unfold in_use_, x in *. lia. }
      assert (Hh : handle x (heap_ s ++ [Some h]) = Some h) by (by rewrite handle_app, decide_True).
      assert (Wn : wf k (with_heap (heap_ s ++ [Some h]) s) lru use es) by (apply New_ok; [done | by rewrite Hk]).
      destruct (AddRef_ok _ _ _ _ _ x h Wn Hge Hh ltac:(lia)) as (hs1 & E1 & W1' & _ & S1 & Er1). cbn [heap_ with_heap] in E1, S1. rewrite E1. cbn [obind].
      assert (Hnew : x ∉ e_handle <$> es).
      { intros (e & Ex & He)%list_elem_of_fmap. pose proof (d_entries _ _ _ (h_data _ _ _ _ (w_heap _ _ _ _ _ W))) as D. rewrite Forall_forall in D.
        destruct (D e He) as (h' & Hh'%handle_lt & _). unfold x in Ex. lia. }
      destruct (shard_Insert_ok k (with_heap hs1 s) lru use es x (AddRef h) kk del W1' Hge) as (s2 & lru2 & use2 & es2 & E2 & W2 & Hl2 & Hx2); try done.
      { cbn [heap_ with_heap]. by rewrite S1, decide_True. }
      change (with_heap hs1 (with_heap (heap_ s ++ [Some h]) s)) with (with_heap hs1 s). rewrite E2. cbn [obind].
      destruct (PurgeIfNeeded_ok k false s2 _ _ _ W2) as (s3 & lru3 & use3 & es3 & -> & W3 & Hl3 & Hun). cbn [obind reset].
      rewrite andb_true_r in Hl3. cbn [size_ capacity_ with_heap] in Hl2.
      destruct (new_stays x lru (wrap 64 (size_ s + 1) <=? capacity_ s) lru2 lru3) as [Hin2 Hin3]; [| | exact Hroom |].
      { destruct (wrap 64 (size_ s + 1) <=? capacity_ s); [by destruct Hl2 | done]. }
      { destruct (wrap 64 (size_ s + 1) <=? capacity_ s); [destruct Hl2 as [_ Hl2]; rewrite Hl2 in Hl3; left; by destruct Hl3|].
        destruct (size_ s2 <=? capacity_ s2); [left; by destruct Hl3 | by right]. }
      destruct (Hx2 Hin2) as (h2 & Hh2 & Ek2 & _ & Er2). specialize (Hun x Hin3). rewrite Hh2 in Hun.
      destruct (handle x (heap_ s3)) as [h3|] eqn:Hh3; [|done]. apply (inj Some) in Hun. destruct (data_fields _ _ Hun) as (E31 & _ & _ & E34 & _).
      destruct (AddRef_ok _ _ _ _ _ x h3 W3 Hge Hh3 ltac:(lia)) as (hs4 & -> & W4 & _ & S4 & Er4). cbn [obind].
      eexists kOk, (Some x), _, (with_heap hs4 s3), lru3, use3, es3. split_and!; [done | done |]. left. split_and!; [done | |].
      * cbn. rewrite list_insert_insert_eq. by apply list_insert_id.
      * exists x, (AddRef h3). cbn [heap_ with_heap]. rewrite S4, decide_True by done. split_and!; [done | done | | lia |].
        -- cbn [key AddRef set_refs]. congruence.
        -- apply elem_of_app. by left.
Qed.
End destroyed.
End wf.

(** ** Clients of a shard *)

(** What clients do: make a handle and insert it; look for a key; remove it;
    purge; take and give back a reference to a handle; look for a key and load
    it when it is not there, with what the loader gives. *)
Inductive client_op (V : Type) :=
  | OpInsert (kk : bytes) (v : V) (uid : Z) (del : bool)
  | OpGet (kk : bytes)
  | OpRemove (kk : bytes)
  | OpPurge (force : bool)
  | OpHold (x : nat)
  | OpRelease (x : nat)
  | OpLoad (kk : bytes) (del : bool) (r : error + V).
Arguments OpInsert {V} _ _ _ _.
Arguments OpGet {V} _.
Arguments OpRemove {V} _.
Arguments OpPurge {V} _.
Arguments OpHold {V} _.
Arguments OpRelease {V} _.
Arguments OpLoad {V} _ _ _.

(** A loader that fails, or makes a handle with a value. *)
Definition loader_of {V} (r : error + V) (kk : bytes) (hs : Heap V) : outcome ((error + nat) * Heap V) :=
  match r with
  | inl e => Done (inl e, hs)
  | inr v => let '(x, hs) := NewHandle kk v 0 hs in Done (inr x, hs)
  end.

Section clients.
Context {V : Type} (crowded : HashMap Entry -> bool) (scaled : HashMap Entry -> Z).

#[local] Abbreviation State := (LockGroup * LRUCacheShard V)%type.

Definition run_op (op : client_op V) (st : State) : outcome State :=
  let '(g, s) := st in
  (match op with
   | OpInsert kk v uid del =>
     let '(x, hs) := NewHandle kk v uid (heap_ s) in
     do! s := shard_Insert crowded scaled kk x del (with_heap hs s) in Done (g, s)
   | OpGet kk => do! (_, s) := shard_Get kk s in Done (g, s)
   | OpRemove kk => do! s := shard_Remove kk s in Done (g, s)
   | OpPurge force => do! s := PurgeIfNeeded crowded scaled force s in Done (g, s)
   | OpHold x => do! hs := upd x AddRef (heap_ s) in Done (g, with_heap hs s)
   | OpRelease x => do! hs := upd x ReleaseRef (heap_ s) in Done (g, with_heap hs s)
   | OpLoad kk del r =>
     do! (_, _, g, s) := shard_GetOrLoad crowded scaled 1 kk None del (loader_of r) g s in Done (g, s)
   end)%out.

(** A client gives back only what it has, references are not counted past the
    largest [int]; and when something is loaded, its stripe is free and the
    new handle is not the next that goes: there is room for one more, or two
    are before it. *)
Definition allowed (op : client_op V) (st : State) : Prop :=
  let '(g, s) := st in
  match op with
  | OpHold x => (2 <= x)%nat /\ exists h, handle x (heap_ s) = Some h /\ 0 <= refs h < 2 ^ 31 - 1
  | OpRelease x => (2 <= x)%nat /\ exists h, handle x (heap_ s) = Some h /\ 2 <= refs h < 2 ^ 31
  | OpLoad kk _ _ =>
    (exists i, GetByKey kk g = Done i /\ stripes_ g !! i = Some false) /\
    (forall x h, handle x (heap_ s) = Some h -> refs h < 2 ^ 31 - 1) /\
    (wrap 64 (size_ s + 1) <= capacity_ s \/
     exists a b, next_of (heap_ s) lru_ = Some a /\ next_of (heap_ s) a = Some b /\ a <> lru_ /\ b <> lru_)
  | _ => True
  end.

Inductive runs_to : list (client_op V) -> State -> State -> Prop :=
  | runs_nil st : runs_to [] st st
  | runs_cons op ops st st1 st2 : allowed op st -> run_op op st = Done st1 -> runs_to ops st1 st2 -> runs_to (op :: ops) st st2.

(** *** The invariant *)

#[local] Abbreviation any := (fun (_ : bool) (_ : bytes) (_ : option V) => True).

Definition good (pins : gmap nat (bytes * option V)) (k : Z) (s : LRUCacheShard V) : Prop :=
  exists lru use es, wf any pins k s lru use es.

Lemma NewShard_wf Φ raw capacity : refs raw <= 0 -> wf Φ ∅ 0 (NewShard raw capacity : LRUCacheShard V) [] [] [].
Proof.
  intros Hr. split; [split; [split_and! | by intros x ?%not_elem_of_nil | constructor | split] | | constructor | done].
  - done.
  - done.
  - repeat constructor; [by intros ?%list_elem_of_singleton | by intros ?%not_elem_of_nil].
  - constructor.
  - by eexists.
  - by intros x kv ?%lookup_empty_Some.
  - intros x h Hx Hh%handle_lt. cbn in Hh. lia.
  - apply New_map_holds. unfold kMinLRUTableSlots. lia.
Qed.

Lemma NewShard_good raw capacity : refs raw <= 0 -> good ∅ 0 (NewShard raw capacity).
Proof. intros Hr. exists [], [], []. by apply NewShard_wf. Qed.

Lemma room_list Φ pins k (s : LRUCacheShard V) lru use es a b :
  wf Φ pins k s lru use es -> next_of (heap_ s) lru_ = Some a -> next_of (heap_ s) a = Some b -> a <> lru_ -> b <> lru_ -> (2 <= length lru)%nat.
Proof.
  intros W Ha Hb Hna Hnb. destruct (h_rings _ _ _ _ _ _ (w_heap _ _ _ _ _ _ _ W)) as (Hl & _). unfold ring in Hl. destruct lru as [|c [|d lru]]; cbn [app] in Hl.
  - apply links_cons in Hl as [Hn _]. congruence.
  - apply links_cons in Hl as (Hn & _ & Hl). apply links_cons in Hl as [Hn' _]. congruence.
  - cbn. lia.
Qed.

Lemma run_op_good pins k op g s :
  good pins k s -> allowed op (g, s) -> (forall x, op = OpRelease x -> pins !! x = None) ->
  exists g' s' k', run_op op (g, s) = Done (g', s') /\ good pins k' s' /\ k <= k' /\ ((exists kk, op = OpRemove kk) \/ k' = k).
Proof.
  intros (lru & use & es & W) Ha Hp. assert (HΦ : forall (kk : bytes) (v : option V), any true kk v -> any true kk None) by done.
  assert (Hdone : forall (g' : LockGroup) (s' : LRUCacheShard V) lru' use' es', wf any pins k s' lru' use' es' ->
    exists g1 s1 k', Done (g', s') = Done (g1, s1) /\ good pins k' s1 /\ k <= k' /\ ((exists kk, op = OpRemove kk) \/ k' = k)).
  { intros g' s' lru' use' es' W'. exists g', s', k. split_and!; [done | by exists lru', use', es' | lia | by right]. }
  destruct op as [kk v uid del|kk|kk|force|x|x|kk del r]; cbn [run_op allowed] in *.
  - cbn [NewHandle]. set (h := mkHandle None None false 0 uid (Some v) kk 0 0 0).
    assert (Hlen : (2 <= length (heap_ s))%nat).
    { destruct (h_rings _ _ _ _ _ _ (w_heap _ _ _ _ _ _ _ W)) as (_ & R & _). destruct (ring_handle _ _ _ in_use_ R ltac:(by left)) as (h' & Hh'%handle_lt & _).
      unfold in_use_ in *. lia. }
    destruct (shard_Insert_ok crowded scaled any pins HΦ k (with_heap (heap_ s ++ [Some h]) s) lru use es (length (heap_ s)) h kk del) as (s' & lru' & use' & es' & -> & W' & _);
      [by apply New_ok | done | cbn; by rewrite handle_app, decide_True | | done | done | cbn [obind]; by eapply Hdone].
    intros (e & Ex & He)%list_elem_of_fmap. pose proof (d_entries _ _ _ _ _ (h_data _ _ _ _ _ _ (w_heap _ _ _ _ _ _ _ W))) as D. rewrite Forall_forall in D.
    destruct (D e He) as (h' & Hh'%handle_lt & _). lia.
  - destruct (shard_Get_ok any pins k s lru use es kk W) as (r & s' & lru' & use' & -> & W' & _). cbn [obind]. by eapply Hdone.
  - destruct (shard_Remove_ok any pins HΦ k s lru use es kk W) as (s' & lru' & use' & k' & -> & W' & Hk). cbn [obind].
    exists g, s', k'. split_and!; [done | by exists lru', use', es | done | left; by exists kk].
  - destruct (PurgeIfNeeded_ok crowded scaled any pins HΦ k force s lru use es W) as (s' & lru' & use' & es' & -> & W' & _). cbn [obind]. by eapply Hdone.
  - destruct Ha as [Hx (h & Hh & Hr)]. destruct (AddRef_ok any pins k s lru use es x h W Hx Hh Hr) as (hs' & -> & W' & _). cbn [obind]. by eapply Hdone.
  - destruct Ha as [Hx (h & Hh & Hr)]. destruct (ReleaseRef_ok any pins k s lru use es x h W Hx Hh Hr (Hp x eq_refl)) as (hs' & -> & W'). cbn [obind]. by eapply Hdone.
  - destruct Ha as ((i & Hi & Hs) & Href & Hroom).
    destruct (shard_GetOrLoad_ok crowded scaled any pins HΦ 0 k s lru use es kk del (loader_of r) g i W Hi Hs Href) as (e & r' & g' & s' & lru' & use' & es' & -> & W' & _).
    + destruct r as [e|v]; [left; by exists e|]. right. by exists (mkHandle None None false 0 0 (Some v) kk 0 0 0).
    + destruct Hroom as [Hroom|(a & b & Ha & Hb & Hna & Hnb)]; [left; by apply Z.leb_le | right; by eapply room_list].
    + cbn [obind]. by eapply Hdone.
Qed.

Lemma runs_to_good pins k ops g s g' s' :
  good pins k s -> (forall x, OpRelease x ∈ ops -> pins !! x = None) -> runs_to ops (g, s) (g', s') ->
  exists k', good pins k' s' /\ k <= k' /\ ((exists kk, OpRemove kk ∈ ops) \/ k' = k).
Proof.
  intros Hg Hp Hr. remember (g, s) as st eqn:E. remember (g', s') as st' eqn:E'. revert g s k E Hg Hp. induction Hr as [st|op ops st st1 st2 Ha Hop Hr IH]; intros g s k E Hg Hp.
  - rewrite E in E'. injection E' as <- <-. exists k. split_and!; [done | lia | by right].
  - subst st. destruct (run_op_good pins k op g s Hg Ha) as (g1 & s1 & k1 & E1 & Hg1 & Hk1 & H1); [intros x ->; apply Hp; by left|].
    rewrite E1 in Hop. apply Done_inj in Hop. destruct (IH E' g1 s1 k1 (eq_sym Hop) Hg1) as (k2 & Hg2 & Hk2 & H2); [intros x Hx; apply Hp; by right|].
    exists k2. split_and!; [done | lia |]. destruct H1 as [(kk & ->)| ->]; [left; exists kk; by left|].
    destruct H2 as [(kk & Hkk)| ->]; [left; exists kk; by right | by right].
Qed.


(** C23: A handle that somebody holds stays as it is: when a key has been found and
    the caller has taken a reference to its handle, then, whatever clients do
    afterwards, as long as nobody gives back a reference to this handle, it is
    not freed, not marked as deleted, and has the key and the value it had. *)
Theorem held_stays raw capacity g ops0 g0 s0 kk x s h ops g' s' :
  refs raw <= 0 -> runs_to ops0 (g, NewShard raw capacity) (g0, s0) ->
  shard_Get kk s0 = Done (Some x, s) -> handle x (heap_ s) = Some h ->
  runs_to (OpHold x :: ops) (g0, s) (g', s') -> OpRelease x ∉ ops ->
  key h = kk /\ exists h', handle x (heap_ s') = Some h' /\ key h' = kk /\ value h' = value h /\ is_deletion h' = false /\ 2 <= refs h'.
Proof.
  intros Hraw Hr0 Hget Hh Hr Hno. destruct (runs_to_good ∅ 0 ops0 _ _ _ _ (NewShard_good raw capacity Hraw) ltac:(done) Hr0) as (k & (lru & use & es & W) & _).
  destruct (shard_Get_ok any ∅ k s0 lru use es kk W) as (r & s1 & lru1 & use1 & E & W1 & _ & Hx). rewrite Hget in E. apply Done_inj in E. injection E as <- <-.
  destruct Hx as [Hx (h1 & Hh1 & Hk & _)]. rewrite Hh in Hh1. injection Hh1 as <-. split; [done|].
  destruct (listed_entry _ _ _ _ _ _ _ (w_heap _ _ _ _ _ _ _ W1) Hx) as (h1 & Hh1 & Hge & Hdel & Hr1). rewrite Hh in Hh1. injection Hh1 as <-.
  inversion Hr as [|op ops' st st1 st2 Ha Hop Hr']; subst. destruct Ha as [_ (h1 & Hh1 & Hrefs)]. rewrite Hh in Hh1. injection Hh1 as <-.
  destruct (AddRef_ok any ∅ k s lru1 use1 es x h W1 Hge Hh Hrefs) as (hs' & E & W2 & _ & S & Er). cbn [run_op] in Hop. rewrite E in Hop. cbn [obind] in Hop.
  apply Done_inj in Hop. subst st1.
  assert (Hpin : pinned hs' x (key h, value h)) by (exists (AddRef h); rewrite S, decide_True by done; split_and!; [done | done | done | lia]).
  assert (Hg : good {[x := (key h, value h)]} k (with_heap hs' s)).
  { exists lru1, use1, es. destruct W2 as [[H1 H2 H3 [D1 D2 D3 D4]] V2 V3 V4]. split; [|done..]. split; [done.. | split; [done | done | | done]].
    intros y kv Hy. apply lookup_singleton_Some in Hy as [<- <-]. split; [exact Hpin | by apply H2]. }
  destruct (runs_to_good _ k ops g0 _ g' s' Hg) as (k' & (lru' & use' & es' & W') & _); [|exact Hr'|].
  - intros y Hy. apply lookup_singleton_None. intros ->. done.
  - destruct (d_pins _ _ _ _ _ (h_data _ _ _ _ _ _ (w_heap _ _ _ _ _ _ _ W')) x (key h, value h)) as [(h' & Hh' & Hkv & Hd' & Hr2) _]; [by apply lookup_singleton_Some|].
    injection Hkv as Ek Ev. exists h'. split_and!; [done | congruence | done | done | done].
Qed.
End clients.

(** ** Runs *)

Module Runs.
(** No table is crowded, so [scaled] is not used. *)
Definition uncrowded (t : HashMap Entry) : bool := false.
Definition scaled (t : HashMap Entry) : Z := 0.

Definition raw0 : LRUHandle Z := mkHandle None None false 0 0 None [] 0 0 0.
Definition g0 : LockGroup := NewLockGroup 16 false.

Definition allowed_b (op : client_op Z) (st : LockGroup * LRUCacheShard Z) : bool :=
  let '(g, s) := st in
  match op with
  | OpHold x => (2 <=? x)%nat && match handle x (heap_ s) with Some h => (0 <=? refs h) && (refs h <? 2 ^ 31 - 1) | None => false end
  | OpRelease x => (2 <=? x)%nat && match handle x (heap_ s) with Some h => (2 <=? refs h) && (refs h <? 2 ^ 31) | None => false end
  | OpLoad kk _ _ =>
    match GetByKey kk g with Done i => bool_decide (stripes_ g !! i = Some false) | _ => false end &&
    forallb (fun o => match o with Some h => refs h <? 2 ^ 31 - 1 | None => true end) (heap_ s) && (wrap 64 (size_ s + 1) <=? capacity_ s)
  | _ => true
  end.

Lemma allowed_b_ok op st : allowed_b op st = true -> allowed op st.
Proof.
  destruct st as [g s], op as [ | | | |x|x|kk del r]; cbn [allowed_b allowed]; try done.
  - intros [Hx%Nat.leb_le H]%andb_true_iff. split; [done|]. destruct (handle x (heap_ s)) as [h|]; [|done]. apply andb_true_iff in H as [H1 H2].
    exists h. apply Z.leb_le in H1. apply Z.ltb_lt in H2. done.
  - intros [Hx%Nat.leb_le H]%andb_true_iff. split; [done|]. destruct (handle x (heap_ s)) as [h|]; [|done]. apply andb_true_iff in H as [H1 H2].
    exists h. apply Z.leb_le in H1. apply Z.ltb_lt in H2. done.
  - intros [[H1 H2]%andb_true_iff H3%Z.leb_le]%andb_true_iff. split_and!.
    + destruct (GetByKey kk g) as [i| |]; [|done|done]. apply bool_decide_eq_true in H1. by exists i.
    + intros x h Hh. rewrite forallb_forall in H2. apply Z.ltb_lt. apply (H2 (Some h)). unfold handle in Hh.
      destruct (heap_ s !! x) as [o|] eqn:E; [|done]. cbn in Hh. subst o. by eapply list_elem_of_In, list_elem_of_lookup_2.
    + by left.
Qed.

Fixpoint run (ops : list (client_op Z)) (st : LockGroup * LRUCacheShard Z) : option (LockGroup * LRUCacheShard Z) :=
  match ops with
  | [] => Some st
  | op :: ops => if allowed_b op st then match run_op uncrowded scaled op st with Done st => run ops st | _ => None end else None
  end.

Lemma run_runs ops st st' : run ops st = Some st' -> runs_to uncrowded scaled ops st st'.
Proof.
  revert st. induction ops as [|op ops IH]; intros st; cbn; [intros [= ->]; constructor|].
  destruct (allowed_b op st) eqn:Ea; [|done]. destruct (run_op uncrowded scaled op st) as [st1| |] eqn:E; [|done|done].
  intros Hr. econstructor; [by apply allowed_b_ok | exact E | by apply IH].
Qed.

Definition shard0 (capacity : Z) : LRUCacheShard Z := NewShard raw0 capacity.

Definition is_some {A} (o : option A) : bool := match o with Some _ => true | None => false end.

(** Two keys are loaded, one is found, the cache is purged, one is removed. *)
Definition ops1 : list (client_op Z) :=
  [OpLoad [1] false (inr 7); OpLoad [2] true (inr 8); OpGet [1]; OpRelease 2; OpPurge true; OpRemove [2]; OpLoad [3] true (inl kIOError)].


(** Key 1 is found and held; nothing of what follows changes it. *)
Definition ops2 : list (client_op Z) := [OpLoad [1] true (inr 7); OpRelease 2; OpLoad [2] true (inr 8)].
Definition ops3 : list (client_op Z) := [OpPurge true; OpRemove [1]; OpPurge true; OpInsert [1] 9 0 true].

(** What is seen of these runs. *)
Definition ran2 : option (nat * option Z * bool) :=
  '(g1, s0) ← run ops2 (g0, shard0 4);
  match shard_Get [1] s0 with
  | Done (Some x, s) => h ← handle x (heap_ s); Some (x, value h, is_some (run (OpHold 2 :: ops3) (g1, s)))
  | _ => None
  end.

Lemma triple_inj {A B C} (x y : A) (v w : B) (b c : C) : Some (x, v, b) = Some (y, w, c) -> x = y /\ v = w /\ b = c.
Proof. by intros [= -> -> ->]. Qed.

Lemma ran2_spec : ran2 = Some (2%nat, Some 7, true).
Proof. vm_compute. reflexivity. Qed.

Lemma held_stays_witness :
  exists g1 s0 s h g' s', run ops2 (g0, shard0 4) = Some (g1, s0) /\ shard_Get [1] s0 = Done (Some 2%nat, s) /\ handle 2 (heap_ s) = Some h /\
    value h = Some 7 /\ run (OpHold 2 :: ops3) (g1, s) = Some (g', s') /\
    exists h', handle 2 (heap_ s') = Some h' /\ key h' = [1] /\ value h' = Some 7 /\ is_deletion h' = false /\ 2 <= refs h'.
Proof.
  pose proof ran2_spec as E. unfold ran2 in E. destruct (run ops2 (g0, shard0 4)) as [[g1 s0]|] eqn:E1; cbn [mbind option_bind] in E; [|discriminate E].
  destruct (shard_Get [1] s0) as [[[x|] s]| |] eqn:E2; [|discriminate E..]. destruct (handle x (heap_ s)) as [h|] eqn:E3; cbn [mbind option_bind] in E; [|discriminate E].
  apply triple_inj in E as (-> & E4 & E5). destruct (run (OpHold 2 :: ops3) (g1, s)) as [[g' s']|] eqn:E6; [|discriminate E5].
  exists g1, s0, s, h, g', s'. split; [reflexivity|]. split; [exact E2|]. split; [exact E3|]. split; [exact E4|]. split; [exact E6|].
  assert (H : refs raw0 <= 0) by (vm_compute; discriminate).
  assert (Hn : OpRelease 2 ∉ ops3) by (intros Hin%list_elem_of_In; cbn in Hin; repeat destruct Hin as [Hin|Hin]; done).
  destruct (held_stays uncrowded scaled raw0 4 g0 ops2 g1 s0 [1] 2 s h ops3 g' s' H (run_runs _ _ _ E1) E2 E3 (run_runs _ _ _ E6) Hn)
    as (_ & h' & H1 & H2 & H3 & H4 & H5). exists h'. rewrite E4 in H3. exact (conj H1 (conj H2 (conj H3 (conj H4 H5)))).
Defined.

(** *** What goes wrong *)

Definition load (fuel : nat) (kk : bytes) (r : error + Z) (gs : LockGroup * LRUCacheShard Z) crowded :
    outcome (error * option nat * LockGroup * LRUCacheShard Z) :=
  shard_GetOrLoad crowded scaled fuel kk None true (loader_of r) (fst gs) (snd gs).

(** The reference that [GetOrLoad] takes for its caller before [Insert] is lost,
    since [Insert] sets the count.  In a full cache the new handle is evicted and
    its value destroyed before the caller gets it. *)
Example loaded_is_evicted :
  (do! (_, _, g, s) := load 1 [1] (inr 7) (g0, shard0 1) uncrowded in
   do! (e, x, g, s) := load 1 [2] (inr 8) (g, s) uncrowded in
   do! x := ofopt x in do! h := ofopt (handle x (heap_ s)) in Done (e, is_deletion h, value h, refs h))%out = Done (kOk, true, None, 2).
Proof. vm_compute. reflexivity. Qed.

(** When the table is made anew at this moment, the handle has been freed. *)
Example loaded_is_freed :
  (do! (_, _, g, s) := load 1 [1] (inr 7) (g0, shard0 1) uncrowded in load 1 [2] (inr 8) (g, s) (fun _ => true))%out = Undef.
Proof. vm_compute. reflexivity. Qed.

(** A key that is not there and whose stripe is locked is waited for without end. *)
Lemma get_or_lock_waits {V} fuel kk i g (s : LRUCacheShard V) :
  shard_Get kk s = Done (None, s) -> stripes_ g !! i = Some true -> get_or_lock fuel kk i g s = OutOfFuel.
Proof.
  intros Hs Hi. induction fuel as [|fuel IH]; [done|]. cbn [get_or_lock]. rewrite Hs. cbn [obind]. unfold stripe_TryLock. rewrite Hi. exact IH.
Qed.

(** A loader that fails leaves the stripe locked. *)
Example failed_load_locks fuel :
  (do! (e, x, g, s) := load 1 [1] (inl kIOError) (g0, shard0 4) uncrowded in load fuel [1] (inr 7) (g, s) uncrowded)%out = OutOfFuel.
Proof.
  set (o := load 1 [1] (inl kIOError) (g0, shard0 4) uncrowded).
  assert (E : match o with
    | Done (_, _, g, s) => GetByKey [1] g = Done 13%nat /\ stripes_ g !! 13%nat = Some true /\
        match shard_Get [1] s with Done (None, s') => s' = s | _ => False end
    | _ => False
    end) by (vm_compute; repeat split; reflexivity).
  destruct o as [[[[e x] g] s]| |]; [|done|done]. destruct E as (Hi & Hl & Hs). cbn [obind]. unfold load, shard_GetOrLoad. cbn [fst snd]. rewrite Hi. cbn [obind].
  destruct (shard_Get [1] s) as [[[y|] s']| |] eqn:Eg; try done. subst s'. by rewrite (get_or_lock_waits fuel [1] 13 g s Eg Hl).
Qed.

(** [Remove] does not count: the cache holds nothing and is full. *)
Example Remove_keeps_size :
  (st ← run [OpInsert [1] 7 0 true; OpRemove [1]] (g0, shard0 1); Some (size_ (snd st), next_of (heap_ (snd st)) lru_, next_of (heap_ (snd st)) in_use_)) =
  Some (1, Some lru_, Some in_use_).
Proof. vm_compute. reflexivity. Qed.

(** The head of an empty list is looked at as if it were a handle: what its
    storage held before decides whether the size of an empty cache becomes
    2^64 - 1. *)
Example purge_of_nothing :
  (do! s := PurgeIfNeeded uncrowded scaled true (NewShard (set_refs 1 raw0) 4) in Done (size_ s))%out = Done (2 ^ 64 - 1).
Proof. vm_compute. reflexivity. Qed.
End Runs.
