(* ===== verification/WriteBatch.v ===== *)
(** * WriteBatch

    include/mai/write-batch.h and src/db/write-batch.cc: the batch of
    updates that is both the record of the write-ahead log and the unit
    replayed into the memory tables.  A batch is a header (sequence number and
    number of entries) followed by one redo record per update; [Iterate] is
    the replay, here returning the calls made on the handler in order. *)

From S2P Require Import Prelude Varint Slice Keys.

Definition kHeaderSize : Z := 12.

Record WriteBatch := mkBatch { redo_ : bytes; n_entries_ : Z }.

(** The calls received by a [WriteBatch::Stub]. *)
Inductive op :=
  | OpPut (cfid : Z) (key value : bytes)
  | OpDelete (cfid : Z) (key : bytes).

(** The parts of an update. *)
Definition op_cfid (o : op) : Z := match o with OpPut cfid _ _ => cfid | OpDelete cfid _ => cfid end.
Definition op_key (o : op) : bytes := match o with OpPut _ key _ => key | OpDelete _ key => key end.
Definition op_flag (o : op) : Z := match o with OpPut _ _ _ => flag_code kFlagValue | OpDelete _ _ => flag_code kFlagDeletion end.
Definition op_value (o : op) : bytes := match o with OpPut _ _ value => value | OpDelete _ _ => [] end.

(** [std::string::resize(n, 0)]. *)
Definition resize (s : bytes) (n : Z) : bytes :=
  take (Z.to_nat n) s ++ replicate (Z.to_nat n - length s) 0.

Definition NewWriteBatch : WriteBatch := mkBatch (resize [] kHeaderSize) 0.

Definition Put (cfid : Z) (key value : bytes) (b : WriteBatch) : WriteBatch :=
  mkBatch (MakeRedo key value cfid (flag_code kFlagValue) (redo_ b))
          (wrap 32 (n_entries_ b + 1)).

Definition Delete (cfid : Z) (key : bytes) (b : WriteBatch) : WriteBatch :=
  mkBatch (MakeRedo key [] cfid (flag_code kFlagDeletion) (redo_ b))
          (wrap 32 (n_entries_ b + 1)).

Definition Clear (b : WriteBatch) : WriteBatch := mkBatch (resize (redo_ b) kHeaderSize) 0.

(** [redo(sn)]: stores the header and returns the whole buffer. *)
Definition redo (sn : Z) (b : WriteBatch) : bytes :=
  le_bytes 8 sn ++ le_bytes 4 (n_entries_ b) ++ drop (Z.to_nat kHeaderSize) (redo_ b).

(** One turn of [Iterate]; an unknown flag is skipped ([NOREACHED] is a debug
    check). *)
Definition iterate_one : BR (list op) :=
  (let! cfid := ReadVarint32 in
   let! flag := ReadByte in
   let! key := ReadString in
   if flag =? flag_code kFlagValue then
     let! value := ReadString in br_ret [OpPut cfid key value]
   else if flag =? flag_code kFlagDeletion then br_ret [OpDelete cfid key]
   else br_ret [])%br.

(** The loop; each turn reads at least one byte, so the length of the buffer
    is fuel enough. *)
Fixpoint iterate_loop (fuel : nat) (r : BufferReader) : option (list op) :=
  if Eof r then Some []
  else match fuel with
  | O => None
  | S fuel => '(o, r) ← iterate_one r; os ← iterate_loop fuel r; Some (o ++ os)
  end.

(** [WriteBatch::Iterate(buf, len, handler)]. *)
Definition Iterate (buf : bytes) : option (list op) :=
  if zlen buf =? 0 then Some []
  else iterate_loop (length buf) {| buf_ := buf; position_ := 0 |}.

(** [Iterate(handler)] on a batch: the header is skipped. *)
Definition IterateBatch (b : WriteBatch) : option (list op) :=
  Iterate (drop (Z.to_nat kHeaderSize) (redo_ b)).

(** Applying a handler call to a batch. *)
Definition apply_op (b : WriteBatch) (o : op) : WriteBatch :=
  match o with
  | OpPut cfid key value => Put cfid key value b
  | OpDelete cfid key => Delete cfid key b
  end.

(** ** The redo record *)

Definition record (o : op) : bytes :=
  match o with
  | OpPut cfid key value => GetV32 cfid ++ [0] ++ GetString key ++ GetString value
  | OpDelete cfid key => GetV32 cfid ++ [1] ++ GetString key
  end.

Definition op_ok (o : op) : Prop :=
  match o with OpPut cfid _ _ => is_u 32 cfid | OpDelete cfid _ => is_u 32 cfid end.

Lemma MakeRedo_Put key value cfid buf :
  MakeRedo key value cfid (flag_code kFlagValue) buf = buf ++ record (OpPut cfid key value).
Proof.
  unfold MakeRedo, WriteVarint32, WriteVarint64, record, GetV32, GetString.
  cbn [flag_code negb Z.eqb]. change (wrap 8 0) with 0. by rewrite <- !app_assoc.
Qed.

Lemma MakeRedo_Delete key cfid buf :
  MakeRedo key [] cfid (flag_code kFlagDeletion) buf = buf ++ record (OpDelete cfid key).
Proof.
  unfold MakeRedo, WriteVarint32, WriteVarint64, record, GetV32, GetString.
  cbn [flag_code negb Z.eqb Pos.eqb]. change (wrap 8 1) with 1. by rewrite <- !app_assoc.
Qed.

Lemma redo_apply_op b o : redo_ (apply_op b o) = redo_ b ++ record o.
Proof. destruct o; [exact (MakeRedo_Put _ _ _ _) | exact (MakeRedo_Delete _ _ _)]. Qed.

Lemma record_not_nil o : op_ok o -> record o <> [].
Proof.
  destruct o; cbn [record op_ok]; intros Ho E; apply app_eq_nil in E as [E _];
    unfold GetV32 in E; rewrite (Encode32_64 cfid Ho) in E;
    exact (Encode64_not_nil cfid (is_u_32_64 cfid Ho) E).
Qed.

Lemma iterate_one_at pre o rest :
  op_ok o -> in_memory (pre ++ record o ++ rest) ->
  iterate_one (at_ pre (record o ++ rest)) = Some ([o], at_ (pre ++ record o) rest).
Proof.
  intros Ho Hm. unfold iterate_one. destruct o; simpl in Ho; cbn [record] in *;
    repeat (rewrite <- app_assoc in * ); erewrite br_bind_Some by (by apply ReadVarint32_at);
    rewrite app_assoc in Hm; erewrite br_bind_Some by (by apply ReadByte_at);
    rewrite app_assoc in Hm; erewrite br_bind_Some by (by apply ReadString_at); cbn -[at_ GetString GetV32].
  - rewrite app_assoc in Hm. erewrite br_bind_Some by (by apply ReadString_at).
    unfold br_ret. do 2 f_equal. by rewrite <- !app_assoc.
  - unfold br_ret. do 2 f_equal. by rewrite <- !app_assoc.
Qed.

Lemma iterate_loop_at os pre fuel :
  Forall op_ok os -> in_memory (pre ++ concat (map record os)) ->
  (length (concat (map record os)) <= fuel)%nat ->
  iterate_loop fuel (at_ pre (concat (map record os))) = Some os.
Proof.
  intros Hos. revert pre fuel. induction Hos as [|o os Ho Hos IH]; intros pre fuel Hm Hf.
  - destruct fuel; simpl; by rewrite Eof_at, bool_decide_eq_true_2.
  - cbn [map concat] in *. pose proof (record_not_nil o Ho) as Hne.
    destruct fuel as [|fuel]; [rewrite length_app in Hf; destruct (record o); simpl in *; done || lia|].
    cbn [iterate_loop]. rewrite Eof_at, bool_decide_eq_false_2
      by (intros E; apply Hne; by apply app_eq_nil in E as [? _]).
    rewrite iterate_one_at by done. simpl. rewrite IH; [done | by rewrite <- app_assoc |].
    rewrite length_app in Hf. destruct (record o); simpl in *; [done | lia].
Qed.

Lemma redo_fold os b : redo_ (fold_left apply_op os b) = redo_ b ++ concat (map record os).
Proof.
  revert b. induction os as [|o os IH]; intros b; simpl; [by rewrite app_nil_r|].
  by rewrite IH, redo_apply_op, app_assoc.
Qed.

Lemma n_entries_fold os b :
  is_u 32 (n_entries_ b) ->
  n_entries_ (fold_left apply_op os b) = wrap 32 (n_entries_ b + zlen os).
Proof.
  intros Hb. revert b Hb. induction os as [|o os IH]; intros b Hb; simpl.
  - rewrite zlen_nil, Z.add_0_r. by rewrite wrap_small.
  - rewrite IH by (destruct o; simpl; auto with mai lia). rewrite zlen_cons.
    destruct o; simpl; unfold wrap; rewrite Zplus_mod_idemp_l; f_equal; lia.
Qed.

(** ** A batch of updates *)

Lemma batch_parts os sn :
  let b := fold_left apply_op os NewWriteBatch in
  Forall op_ok os -> in_memory (concat (map record os)) -> zlen os < 2 ^ 32 -> is_u 64 sn ->
  IterateBatch b = Some os /\
  Iterate (drop (Z.to_nat kHeaderSize) (redo sn b)) = Some os /\
  SetFixed64 (redo sn b) = Some sn /\
  SetFixed32 (drop 8 (redo sn b)) = Some (zlen os) /\
  Clear b = NewWriteBatch.
Proof.
  intros b Hos Hm Hn Hsn.
  assert (Hb : redo_ b = resize [] kHeaderSize ++ concat (map record os)) by apply redo_fold.
  assert (Hc : n_entries_ b = zlen os).
  { unfold b. rewrite n_entries_fold by (simpl; unfold is_u; lia). simpl.
    apply wrap_small. unfold is_u. pose proof (zlen_nonneg os). lia. }
  assert (Hd : drop (Z.to_nat kHeaderSize) (redo_ b) = concat (map record os))
    by (by rewrite Hb).
  assert (Hit : Iterate (concat (map record os)) = Some os).
  { unfold Iterate. destruct (Z.eqb_spec (zlen (concat (map record os))) 0) as [E|].
    - apply zlen_0 in E. destruct os as [|o os]; [done|]. simpl in E.
      apply Forall_inv in Hos. apply app_eq_nil in E as [E _]. by apply record_not_nil in E.
    - by apply (iterate_loop_at os []). }
  split_and!.
  - unfold IterateBatch. by rewrite Hd.
  - unfold redo. rewrite Hd, app_assoc.
    rewrite drop_app_length' by (by rewrite length_app, !length_le_bytes). done.
  - unfold redo, SetFixed64. rewrite SetFixed_le_bytes, Z.mod_small by exact Hsn. done.
  - unfold redo, SetFixed32. rewrite drop_app_length' by (by rewrite length_le_bytes).
    rewrite SetFixed_le_bytes, Hc, Z.mod_small; [done|].
    change (256 ^ Z.of_nat 4) with (2 ^ 32). pose proof (zlen_nonneg os). lia.
  - unfold Clear, NewWriteBatch. f_equal. rewrite Hb. unfold resize at 1.
    rewrite take_app_length' by done. rewrite length_app.
    change (length (resize [] kHeaderSize)) with 12%nat.
    change (Z.to_nat kHeaderSize) with 12%nat.
    replace (12 - (12 + length (concat (map record os))))%nat with 0%nat by lia.
    by rewrite app_nil_r.
Qed.


(** ** Properties *)

(** Replaying a batch gives back exactly the updates put into it, in
    order; the header holds the sequence number and their number; and a
    cleared batch is a new one. *)
Theorem WriteBatch_replay os sn :
  let b := fold_left apply_op os NewWriteBatch in
  Forall op_ok os -> in_memory (concat (map record os)) -> zlen os < 2 ^ 32 -> is_u 64 sn ->
  IterateBatch b = Some os /\
  Iterate (drop (Z.to_nat kHeaderSize) (redo sn b)) = Some os /\
  SetFixed64 (redo sn b) = Some sn /\
  SetFixed32 (drop 8 (redo sn b)) = Some (zlen os) /\
  Clear b = NewWriteBatch.
Proof. exact (batch_parts os sn). Qed.

Lemma WriteBatch_replay_witness :
  let os := [OpPut 0 [97] [49; 50]; OpDelete 3 [98]; OpPut 1 [] []] in
  IterateBatch (fold_left apply_op os NewWriteBatch) = Some os.
Proof.
  intros os. apply (WriteBatch_replay os 42);
    [repeat constructor; discriminate | reflexivity | reflexivity | unfold is_u; lia].
Defined.
