(* ===== verification/BatchIndex.v ===== *)
(** * BatchIndex

    src/txn/write-batch-with-index.{h,cc}: the batch of a transaction, with an
    index of its updates for every family, a skip list of places in the buffer
    of the batch ordered by the keys found there.

    [AddOrUpdate] looks for the first entry whose key is not below the new one
    and overwrites it, whether or not the keys are equal.  So the index is
    right as long as every new key is in it or above all its keys
    ([BatchIndex_reads_writes]); in general it is what [index_update] says
    ([AddOrUpdate_indexed]).

    [RawGet] and the iterator read through a view of a temporary string that is
    gone: what is then read is given by [freed], a parameter.  [RawGet_view] is
    the search of [RawGet], up to the temporary; [BatchIndex_reads_writes] says
    what it finds without looking at [freed], and what [RawGet] answers if the
    bytes are still there.  The lemmas on the iterator ([BatchIndex_iterates])
    are for views that read as they did. *)

From S2P Require Import Prelude Varint Slice Keys Entries SkipList Iterator Merging DeltaAmend WriteBatch.

(** The union: the size of the key in the buffer, or the key looked up. *)
Record WriteBatchEntry := mkEntry { offset : Z; size : Z; entry_union : Z + bytes }.

Record IndexTable := mkTable { it_list : SkipList WriteBatchEntry; it_rand : list Z }.

Record WriteBatchWithIndex := mkIndexed { wi_batch : WriteBatch; wi_tables : gmap Z IndexTable }.

Definition NewWriteBatchWithIndex : WriteBatchWithIndex := mkIndexed NewWriteBatch ∅.

(** The key that [KeyComparator] takes from an entry. *)
Definition entry_key (buf : bytes) (e : WriteBatchEntry) : bytes :=
  match entry_union e with
  | inl key_size =>
    if 0 <? offset e then
      match Decode64 (drop (Z.to_nat (offset e + 1)) buf) with
      | Some (_, n) => take (Z.to_nat key_size) (drop (Z.to_nat (offset e + 1 + n)) buf)
      | None => []
      end
    else []
  | inr lookup_key => if 0 <? offset e then [] else take (Z.to_nat (size e)) lookup_key
  end.

Definition lookup_entry (key : bytes) : WriteBatchEntry := mkEntry 0 (zlen key) (inr key).

(** The entry of a node is overwritten in its place. *)
Definition overwrite (x : nat) (e : WriteBatchEntry) (s : SkipList WriteBatchEntry) : SkipList WriteBatchEntry :=
  mkList (alter (fun n => mkNode e (next_ n)) x (heap s)) (max_height_ s).

(** [WriteBatchWithIndex::Clear] *)
Definition wi_Clear (w : WriteBatchWithIndex) : WriteBatchWithIndex := mkIndexed (Clear (wi_batch w)) ∅.

Section batch_index.
(** The comparators of the families, and what a view of a string that is gone
    reads. *)
Context (comparator : Z -> bytes -> bytes -> Z) (freed : bytes -> option bytes).

#[local] Abbreviation compare_in buf cfid := (compare_by (entry_key buf) (comparator cfid)).

(** [AddOrUpdate]; [rand] are the random numbers of a table that is made. *)
Definition AddOrUpdate (rand : list Z) (cfid flag : Z) (key value : bytes) (w : WriteBatchWithIndex) : outcome WriteBatchWithIndex :=
  let t := default (mkTable (NewSkipList (mkEntry 0 0 (inl 0))) rand) (wi_tables w !! cfid) in
  let pos := zlen (redo_ (wi_batch w)) in
  let batch :=
    if flag =? flag_code kFlagValue then Put cfid key value (wi_batch w)
    else if flag =? flag_code kFlagDeletion then Delete cfid key (wi_batch w)
    else wi_batch w in
  let buf := redo_ batch in
  let put_offset := pos + Sizeof32 cfid in
  let put := mkEntry put_offset (wrap 64 (zlen buf - put_offset)) (inl (zlen key)) in
  (do! node := sl_Seek (compare_in buf cfid) (lookup_entry key) (it_list t) in
   do! t := match node with
            | Some x => Done (mkTable (overwrite x put (it_list t)) (it_rand t))
            | None => do! (l, rand) := SkipList.Put (compare_in buf cfid) put (it_rand t) (it_list t) in Done (mkTable l rand)
            end in
   Done (mkIndexed batch (<[cfid := t]> (wi_tables w))))%out.

(** The flag, the key and the value, if it is one, of the update at an entry. *)
Definition read_update (buf : bytes) (e : WriteBatchEntry) : outcome (Z * bytes * option bytes) :=
  (do! view := ofopt (substr buf (offset e) (size e)) in
   do! view := ofopt (freed view) in
   do! (flag, rd) := ofopt (ReadByte {| buf_ := view; position_ := 0 |}) in
   do! (n, rd) := ofopt (ReadVarint64 rd) in
   do! (found_key, rd) := ofopt (ReadStringN n rd) in
   do! value := (if flag =? flag_code kFlagValue then do! (v, _) := ofopt (ReadString rd) in Done (Some v) else Done None) in
   Done (flag, found_key, value))%out.

(** [RawGet] up to the temporary: the bytes of the update that it finds. *)
Definition RawGet_view (cfid : Z) (key : bytes) (w : WriteBatchWithIndex) : outcome (option bytes) :=
  match wi_tables w !! cfid with
  | None => Done None
  | Some t =>
    let buf := redo_ (wi_batch w) in
    (do! node := sl_Seek (compare_in buf cfid) (lookup_entry key) (it_list t) in
     match node with
     | None => Done None
     | Some x =>
       do! e := ofopt (key_of (it_list t) x) in
       do! view := ofopt (substr buf (offset e) (size e)) in
       Done (Some view)
     end)%out
  end.

(** [RawGet]: the flag and the value, if it is assigned.  The value is read
    behind the comparison of the keys. *)
Definition RawGet (cfid : Z) (key : bytes) (w : WriteBatchWithIndex) : outcome (error + Z * option bytes) :=
  (do! view := RawGet_view cfid key w in
   match view with
   | None => Done (inl kNotFound)
   | Some view =>
     do! view := ofopt (freed view) in
     do! (flag, rd) := ofopt (ReadByte {| buf_ := view; position_ := 0 |}) in
     do! (n, rd) := ofopt (ReadVarint64 rd) in
     do! (found_key, rd) := ofopt (ReadStringN n rd) in
     if negb (comparator cfid key found_key =? 0) then Done (inl kNotFound)
     else if flag =? flag_code kFlagValue then do! (v, _) := ofopt (ReadString rd) in Done (inr (flag, Some v))
     else Done (inr (flag, None))
   end)%out.

(** [WriteBatchWithIndex::Get] *)
Definition wi_Get (cfid : Z) (key : bytes) (w : WriteBatchWithIndex) : outcome (error + option bytes) :=
  (do! r := RawGet cfid key w in
   Done match r with
        | inl rs => inl rs
        | inr (flag, value) => if flag =? flag_code kFlagDeletion then inl kNotFound else inr value
        end)%out.

(** ** The iterator *)

Record IteratorImpl := mkII {
  ii_cfid : Z; ii_table : SkipList WriteBatchEntry; ii_batch : bytes;
  ii_node : option nat; ii_saved_key : bytes; ii_saved_value : bytes
}.

Definition NewIteratorImpl (cfid : Z) (table : SkipList WriteBatchEntry) (batch : bytes) : IteratorImpl :=
  mkII cfid table batch None [] [].

(** [Update] at the node [iter_] is at; there is none to take a key from when
    it is not valid. *)
Definition ii_Update (i : IteratorImpl) : outcome IteratorImpl :=
  (do! x := ofopt (ii_node i) in
   do! e := ofopt (key_of (ii_table i) x) in
   do! (flag, key, value) := read_update (ii_batch i) e in
   Done (mkII (ii_cfid i) (ii_table i) (ii_batch i) (ii_node i)
     (key ++ le_bytes 8 (TagEncode (mkTag kMaxSequenceNumber flag))) (default [] value)))%out.

Definition ii_Valid (i : IteratorImpl) : bool := bool_decide (is_Some (ii_node i)).

Definition ii_to (node : option nat) (i : IteratorImpl) : IteratorImpl :=
  mkII (ii_cfid i) (ii_table i) (ii_batch i) node (ii_saved_key i) (ii_saved_value i).

Definition ii_step (f : SkipList WriteBatchEntry -> outcome (option nat)) (i : IteratorImpl) : outcome IteratorImpl :=
  (do! node := f (ii_table i) in
   if ii_Valid (ii_to node i) then ii_Update (ii_to node i) else Done (ii_to node i))%out.

(** [Seek] looks for an entry whose offset and size are not set. *)
Definition IteratorImpl_ops : Iterator IteratorImpl := {|
  it_Valid := ii_Valid;
  it_SeekToFirst i := obind (sl_SeekToFirst (ii_table i)) (fun node => ii_Update (ii_to node i));
  it_SeekToLast i := obind (sl_SeekToLast (ii_table i)) (fun node => ii_Update (ii_to node i));
  it_Seek _ _ := Undef;
  it_Next i := ii_step (sl_Next (ii_node i)) i;
  it_Prev i := ii_step (sl_Prev (compare_in (ii_batch i) (ii_cfid i)) (ii_node i)) i;
  it_current i := Some (ii_saved_key i, ii_saved_value i);
  it_error _ := kOk;
|}.

Definition NewIterator (cfid : Z) (w : WriteBatchWithIndex) : error + IteratorImpl :=
  match wi_tables w !! cfid with
  | None => inl kNotFound
  | Some t => inr (NewIteratorImpl cfid (it_list t) (redo_ (wi_batch w)))
  end.

(** The base iterator is lost when the family has no updates. *)
Definition NewIteratorWithBase {B : Type} (cfid : Z) (base : B) (w : WriteBatchWithIndex) :
    error + DeltaAmendIterator B IteratorImpl :=
  match NewIterator cfid w with
  | inl rs => inl rs
  | inr delta => inr (NewDeltaAmendIterator base delta)
  end.
End batch_index.

(** ** What the index holds *)

Definition add_op (rand : list Z) (comparator : Z -> bytes -> bytes -> Z) (o : op) : WriteBatchWithIndex -> outcome WriteBatchWithIndex :=
  AddOrUpdate comparator rand (op_cfid o) (op_flag o) (op_key o) (op_value o).

(** The part of a record from its flag on, where the entry points. *)
Definition update_bytes (o : op) : bytes :=
  match o with
  | OpPut _ key value => [flag_code kFlagValue] ++ GetString key ++ GetString value
  | OpDelete _ key => [flag_code kFlagDeletion] ++ GetString key
  end.

Lemma record_update o : record o = GetV32 (op_cfid o) ++ update_bytes o.
Proof. by destruct o. Qed.

(** The entry [e] is that of the update [o] in the buffer. *)
Definition entry_is (buf : bytes) (e : WriteBatchEntry) (o : op) : Prop :=
  exists pre post, buf = pre ++ update_bytes o ++ post /\ 0 < zlen pre /\
    e = mkEntry (zlen pre) (zlen (update_bytes o)) (inl (zlen (op_key o))).

Lemma entry_is_grows buf more e o : entry_is buf e o -> entry_is (buf ++ more) e o.
Proof. intros (pre & post & -> & Hp & ->). exists pre, (post ++ more). by rewrite <- !app_assoc. Qed.

(** What follows the key. *)
Definition update_rest (o : op) : bytes := match o with OpPut _ _ value => GetString value | OpDelete _ _ => [] end.

Lemma update_parts o : update_bytes o = [op_flag o] ++ GetV64 (zlen (op_key o)) ++ op_key o ++ update_rest o.
Proof. destruct o; cbn [update_bytes op_flag op_key update_rest]; unfold GetString; by rewrite <- ?app_assoc, ?app_nil_r. Qed.

(** The buffer around an entry. *)
Lemma entry_parts buf e o :
  in_memory buf -> entry_is buf e o ->
  exists pre post, buf = pre ++ update_bytes o ++ post /\ 0 < zlen pre /\ is_u 64 (zlen (op_key o)) /\
    in_memory (update_bytes o) /\ e = mkEntry (zlen pre) (zlen (update_bytes o)) (inl (zlen (op_key o))).
Proof.
  intros Hm (pre & post & -> & Hp & ->). exists pre, post. apply in_memory_app_r, in_memory_app_l in Hm.
  split_and!; [done | done | | done | done]. rewrite update_parts, app_assoc in Hm.
  by apply in_memory_app_r, in_memory_app_l, in_memory_is_u in Hm.
Qed.

Lemma entry_is_key buf e o : in_memory buf -> entry_is buf e o -> entry_key buf e = op_key o.
Proof.
  intros Hm (pre & post & -> & Hp & Hk & _ & ->)%entry_parts; [|done]. unfold entry_key. cbn [offset size entry_union].
  destruct (Z.ltb_spec 0 (zlen pre)); [|lia]. rewrite update_parts. unfold GetV64. set (n := Encode64 (zlen (op_key o))).
  set (r := update_rest o ++ post).
  assert (E : pre ++ ([op_flag o] ++ n ++ op_key o ++ update_rest o) ++ post = (pre ++ [op_flag o]) ++ n ++ op_key o ++ r)
    by (subst r; by rewrite <- !app_assoc).
  rewrite E. replace (Z.to_nat (zlen pre + 1)) with (length (pre ++ [op_flag o])) by (rewrite length_app; unfold zlen; cbn; lia).
  rewrite drop_app_length. subst n. rewrite Decode64_Encode64 by done. set (n := Encode64 (zlen (op_key o))).
  replace (Z.to_nat (zlen pre + 1 + zlen n)) with (length ((pre ++ [op_flag o]) ++ n)) by (rewrite !length_app; unfold zlen; cbn; lia).
  rewrite app_assoc, drop_app_length. unfold zlen. by rewrite Nat2Z.id, take_app_length.
Qed.

Lemma lookup_entry_key buf key : entry_key buf (lookup_entry key) = key.
Proof. cbn. unfold zlen. by rewrite Nat2Z.id, firstn_all. Qed.

(** What is read at an entry. *)
Lemma read_at_entry buf e o :
  in_memory buf -> entry_is buf e o ->
  exists view rd1 rd2 rd3, view = update_bytes o /\ substr buf (offset e) (size e) = Some view /\
    ReadByte {| buf_ := view; position_ := 0 |} = Some (op_flag o, rd1) /\
    ReadVarint64 rd1 = Some (zlen (op_key o), rd2) /\ ReadStringN (zlen (op_key o)) rd2 = Some (op_key o, rd3) /\
    (op_flag o = flag_code kFlagValue -> exists rd4, ReadString rd3 = Some (op_value o, rd4)).
Proof.
  intros Hm (pre & post & -> & Hp & Hk & Hv & ->)%entry_parts; [|done]. cbn [offset size].
  exists (update_bytes o). rewrite substr_app. rewrite update_parts in *.
  set (f := [op_flag o]) in *. set (n := GetV64 (zlen (op_key o))) in *.
  exists (at_ f (n ++ op_key o ++ update_rest o)), (at_ (f ++ n) (op_key o ++ update_rest o)), (at_ ((f ++ n) ++ op_key o) (update_rest o)).
  split; [done|]. split; [done|]. split; [exact (ReadByte_at [] (op_flag o) _ Hv)|]. split; [by apply ReadVarint64_at|].
  rewrite app_assoc in Hv. split; [by apply ReadStringN_at|]. intros Hf. destruct o as [c k v|c k]; [|done].
  cbn [op_value update_rest]. rewrite app_assoc in Hv. eexists.
  rewrite <- (app_nil_r (GetString v)). apply ReadString_at. by rewrite app_nil_r.
Qed.

(** ** The skip list *)

Section nodes.
Context (buf : bytes) (cmp : bytes -> bytes -> Z) `{!ComparatorLaws cmp}.

#[local] Abbreviation holds := (holds (entry_key buf) cmp).
#[local] Abbreviation key_lt := (key_lt (entry_key buf) cmp).

(** Where a search ends. *)
Lemma Seek_parts s L ks key :
  holds s L ks -> exists A B, sl_Seek (compare_by (entry_key buf) cmp) key s = Done (head B) /\ L 0%nat = A ++ B /\
    map (key_of s) A = map Some (keys_lt (entry_key buf) cmp key ks) /\
    map (key_of s) B = map Some (keys_ge (entry_key buf) cmp key ks).
Proof.
  intros Hh. pose proof Hh as (_ & Hk & Hs). destruct (search_holds (entry_key buf) cmp s L ks key Hh) as (prev & E & _).
  exists (lo (before (entry_key buf) cmp s key) (L 0%nat)), (hi (before (entry_key buf) cmp s key) (L 0%nat)).
  split; [unfold sl_Seek, FindGreaterOrEqual; by rewrite E|]. split; [|by apply map_before].
  apply lo_hi. by eapply before_downward.
Qed.

(** Overwriting an entry with one in the same place of the order. *)
Lemma overwrite_holds s L A x B ka k kb e :
  holds s L (ka ++ k :: kb) -> L 0%nat = A ++ x :: B -> length ka = length A -> StronglySorted key_lt (ka ++ e :: kb) ->
  holds (overwrite x e s) L (ka ++ e :: kb).
Proof.
  intros (Hr & Hk & _) HL Hlen Hs. split; [|split; [|done]].
  - assert (Hn : forall y i, next (overwrite x e s) y i = next s y i).
    { intros y i. unfold next, overwrite. cbn [heap]. destruct (decide (y = x)) as [->|Hne].
      - rewrite list_lookup_alter_eq. by destruct (heap s !! x).
      - by rewrite list_lookup_alter_ne. }
    destruct Hr. split; cbn [overwrite max_height_ heap]; [| done | done | done | by rewrite length_alter | done].
    intros i Hi. eapply path_frame; [|by apply rep_path]. intros y _. apply Hn.
  - pose proof (rep_nodup _ _ Hr) as Hnd. pose proof (rep_nodes _ _ Hr x) as Hx. rewrite HL in Hk, Hnd, Hx |- *.
    rewrite !map_app in *. cbn [map] in *. apply app_inj_1 in Hk as [Hka Hkb]; [|by rewrite !length_map].
    injection Hkb as Hkx Hkb. apply NoDup_app in Hnd as (_ & Hnx & Hnd). apply NoDup_cons in Hnd as [HxB _].
    assert (Hother : forall y, y <> x -> key_of (overwrite x e s) y = key_of s y).
    { intros y Hy. unfold key_of, overwrite. cbn [heap]. by rewrite list_lookup_alter_ne. }
    f_equal; [|f_equal].
    + rewrite <- Hka. apply map_ext_in. intros y Hy. apply Hother. intros ->. apply (Hnx x); [by apply list_elem_of_In | by left].
    + unfold key_of, overwrite. cbn [heap]. rewrite list_lookup_alter_eq. destruct (lookup_lt_is_Some_2 (heap s) x) as [node ->]; [|done].
      apply Hx, elem_of_app. right. by left.
    + rewrite <- Hkb. apply map_ext_in. intros y Hy. apply Hother. intros ->. by apply HxB, list_elem_of_In.
Qed.

(** Entries whose keys the buffer gives as before. *)
Lemma holds_ext buf' s L ks :
  Forall (fun e => entry_key buf' e = entry_key buf e) ks -> holds s L ks -> SkipList.holds (entry_key buf') cmp s L ks.
Proof.
  intros Hks (Hr & Hk & Hs). split; [done|]. split; [done|]. clear Hk. induction Hs as [|e ks Hs IH He]; [constructor|].
  apply Forall_cons in Hks as [Hke Hks]. constructor; [by apply IH|]. rewrite Forall_forall in *. intros q Hq.
  unfold SkipList.key_lt, compare_by. rewrite Hke, (Hks q Hq). by apply He.
Qed.
End nodes.

(** ** The index of a batch *)

Section index.
Context (comparator : Z -> bytes -> bytes -> Z) (Hcmp : forall cfid, ComparatorLaws (comparator cfid)).
#[local] Existing Instance Hcmp.

(** What an update does to the updates [ix] of its family that are indexed, in
    the order of their keys: the first whose key is not below gives way. *)
Definition index_update (o : op) (ix : list op) : list op :=
  let cmp := comparator (op_cfid o) in
  filter (fun x => (cmp (op_key x) (op_key o) <? 0) = true) ix ++
  o :: tail (filter (fun x => (cmp (op_key x) (op_key o) <? 0) = false) ix).

Definition index (cfid : Z) (os : list op) : list op :=
  fold_left (fun ix o => if op_cfid o =? cfid then index_update o ix else ix) os [].

Lemma index_snoc cfid os o :
  index cfid (os ++ [o]) = if op_cfid o =? cfid then index_update o (index cfid os) else index cfid os.
Proof. unfold index. by rewrite fold_left_app. Qed.

(** The batch holds the updates [os] and their index. *)
Record indexed (os : list op) (w : WriteBatchWithIndex) : Prop := {
  ix_batch : wi_batch w = fold_left apply_op os NewWriteBatch;
  ix_ok : Forall op_ok os;
  ix_memory : in_memory (redo_ (wi_batch w));
  ix_none : forall cfid, wi_tables w !! cfid = None -> index cfid os = [];
  ix_table : forall cfid t, wi_tables w !! cfid = Some t -> exists L es,
    holds (entry_key (redo_ (wi_batch w))) (comparator cfid) (it_list t) L es /\
    Forall2 (entry_is (redo_ (wi_batch w))) es (index cfid os) /\ index cfid os <> [];
}.

Lemma New_indexed : indexed [] NewWriteBatchWithIndex.
Proof. by split. Qed.

(** The keys of entries are those of their updates. *)
Lemma entries_filter buf cmp key b es ix :
  in_memory buf -> Forall2 (entry_is buf) es ix ->
  Forall2 (entry_is buf) (filter (fun e => (compare_by (entry_key buf) cmp e (lookup_entry key) <? 0) = b) es)
    (filter (fun x => (cmp (op_key x) key <? 0) = b) ix).
Proof.
  intros Hm. induction 1 as [|e o es ix He _ IH]; [constructor|]. rewrite !filter_cons.
  assert (E : compare_by (entry_key buf) cmp e (lookup_entry key) = cmp (op_key o) key)
    by (unfold compare_by; by rewrite (entry_is_key buf e o Hm He), lookup_entry_key).
  destruct (decide _) as [H1|H1], (decide _) as [H2|H2]; rewrite E in H1; [by constructor | done..].
Qed.

Lemma entry_is_same_key buf buf' e o :
  in_memory buf -> in_memory buf' -> entry_is buf e o -> entry_is buf' e o -> entry_key buf' e = entry_key buf e.
Proof. intros Hm Hm' He He'. by rewrite (entry_is_key buf e o), (entry_is_key buf' e o). Qed.

(** The entry that [AddOrUpdate] makes. *)
Lemma new_entry buf o :
  op_ok o -> in_memory (buf ++ record o) ->
  entry_is (buf ++ record o) (mkEntry (zlen buf + Sizeof32 (op_cfid o))
    (wrap 64 (zlen (buf ++ record o) - (zlen buf + Sizeof32 (op_cfid o)))) (inl (zlen (op_key o)))) o.
Proof.
  intros Ho Hm. assert (Hc : is_u 32 (op_cfid o)) by (by destruct o). rewrite record_update in *.
  assert (Es : Sizeof32 (op_cfid o) = zlen (GetV32 (op_cfid o))).
  { unfold GetV32. rewrite (Encode32_64 _ Hc), zlen_Encode64 by auto with mai. by apply Sizeof32_groups. }
  exists (buf ++ GetV32 (op_cfid o)), []. rewrite <- !app_assoc, app_nil_r. split; [done|].
  pose proof (zlen_nonneg buf). pose proof (zlen_nonneg (update_bytes o)).
  assert (Hp : 1 <= zlen (GetV32 (op_cfid o))).
  { rewrite <- Es, (Sizeof32_groups _ Hc). apply n_groups_pos. apply Hc. }
  split; [rewrite zlen_app; lia|]. rewrite Es. f_equal; [by rewrite zlen_app|].
  unfold in_memory in Hm. rewrite !zlen_app in *. rewrite wrap_small; [lia|]. unfold is_u. lia.
Qed.

(** A longer buffer gives the same keys. *)
Lemma holds_grows buf more cmp s L es ix :
  in_memory (buf ++ more) -> Forall2 (entry_is buf) es ix -> holds (entry_key buf) cmp s L es ->
  holds (entry_key (buf ++ more)) cmp s L es /\ Forall2 (entry_is (buf ++ more)) es ix.
Proof.
  intros Hm Hf Hh. split.
  - eapply holds_ext; [|exact Hh]. apply Forall_forall. intros e He. apply list_elem_of_lookup in He as [i He].
    destruct (Forall2_lookup_l _ _ _ _ _ Hf He) as (o & _ & Ho).
    eapply entry_is_same_key; [by eapply in_memory_app_l | exact Hm | exact Ho | by apply entry_is_grows].
  - eapply Forall2_impl; [exact Hf|]. intros e o. apply entry_is_grows.
Qed.

(** The list behind [AddOrUpdate] of an update under [key]. *)
Lemma update_list buf cfid s L es rand put key :
  entry_key buf put = key -> holds (entry_key buf) (comparator cfid) s L es ->
  exists node, sl_Seek (compare_by (entry_key buf) (comparator cfid)) (lookup_entry key) s = Done node /\
  exists s' L' rand',
    match node with
    | Some x => Done (mkTable (overwrite x put s) rand)
    | None => (do! (l, rand) := SkipList.Put (compare_by (entry_key buf) (comparator cfid)) put rand s in Done (mkTable l rand))%out
    end = Done (mkTable s' rand') /\
    holds (entry_key buf) (comparator cfid) s' L' (keys_lt (entry_key buf) (comparator cfid) (lookup_entry key) es ++
      put :: tail (keys_ge (entry_key buf) (comparator cfid) (lookup_entry key) es)).
Proof.
  intros Hput Hh. pose proof Hh as (_ & _ & Hs). set (cmp := comparator cfid) in *.
  destruct (Seek_parts buf cmp s L es (lookup_entry key) Hh) as (A & B & E & HL & HA & HB). exists (head B). split; [done|].
  pose proof (keys_split (entry_key buf) cmp (lookup_entry key) es Hs) as Hsplit.
  assert (Hkey : forall e, compare_by (entry_key buf) cmp e put = compare_by (entry_key buf) cmp e (lookup_entry key))
    by (intros e; unfold compare_by; by rewrite Hput, lookup_entry_key).
  assert (Hlo : Forall (fun e => SkipList.key_lt (entry_key buf) cmp e put) (keys_lt (entry_key buf) cmp (lookup_entry key) es)).
  { apply Forall_forall. intros e He. apply list_elem_of_filter in He as [He _]. apply Z.ltb_lt in He. unfold SkipList.key_lt. by rewrite Hkey. }
  destruct B as [|x B], (keys_ge (entry_key buf) cmp (lookup_entry key) es) as [|k kr] eqn:Ege; try done; cbn [head tail].
  - rewrite app_nil_r in Hsplit.
    destruct (Put_holds (entry_key buf) cmp put rand s L es Hh) as (s' & L' & -> & Hh').
    { rewrite Hsplit. eapply Forall_impl; [exact Hlo|]. cbn. unfold SkipList.key_lt. lia. }
    exists s', L', (snd (RandomHeight rand)). split; [done|].
    assert (Ep : put_keys (entry_key buf) cmp put es = keys_lt (entry_key buf) cmp (lookup_entry key) es ++ [put]); [|by rewrite <- Ep].
    assert (H1 : keys_lt (entry_key buf) cmp put es = keys_lt (entry_key buf) cmp (lookup_entry key) es)
      by (apply filter_iff_in; intros e _; by rewrite Hkey).
    assert (H2 : keys_ge (entry_key buf) cmp put es = keys_ge (entry_key buf) cmp (lookup_entry key) es)
      by (apply filter_iff_in; intros e _; by rewrite Hkey).
    unfold put_keys. by rewrite H1, H2, Ege.
  - exists (overwrite x put s), L, rand. split; [done|]. rewrite Hsplit in Hh.
    eapply overwrite_holds; [exact Hh | exact HL | |].
    { apply (f_equal length) in HA. by rewrite !length_map in HA. }
    rewrite Hsplit in Hs. apply StronglySorted_app in Hs as (Hx & H1 & H2). apply StronglySorted_inv in H2 as [H2 H3].
    rewrite Forall_forall in Hlo. apply StronglySorted_app. split_and!; [|done|].
    + intros a b Ha [->|Hb]%elem_of_cons; [by apply Hlo|]. apply Hx; [done | by right].
    + constructor; [done|]. rewrite Forall_forall in *. intros e He. specialize (H3 e He).
      assert (Hk : k ∈ keys_ge (entry_key buf) cmp (lookup_entry key) es) by (rewrite Ege; by left).
      apply list_elem_of_filter in Hk as [Hk _]. rewrite <- Hkey in Hk. apply Z.ltb_ge in Hk. unfold SkipList.key_lt, compare_by in *.
      eapply (cmp_le_lt_trans cmp); [|exact H3]. exact (cmp_ge cmp _ _ Hk).
Qed.

Lemma Forall2_tail {A C} (R : A -> C -> Prop) l k : Forall2 R l k -> Forall2 R (tail l) (tail k).
Proof. by destruct 1. Qed.

Lemma New_table_holds buf cfid : holds (entry_key buf) (comparator cfid) (NewSkipList (mkEntry 0 0 (inl 0))) (fun _ => []) [].
Proof. apply New_holds. Qed.

Lemma AddOrUpdate_indexed rand os w o :
  indexed os w -> op_ok o -> in_memory (redo_ (wi_batch w) ++ record o) ->
  exists w', add_op rand comparator o w = Done w' /\ indexed (os ++ [o]) w'.
Proof.
  intros [Hb Hok _ Hnone Htab] Ho Hm. set (buf := redo_ (wi_batch w)) in *. set (cfid := op_cfid o).
  assert (Hbatch : (if op_flag o =? flag_code kFlagValue then Put cfid (op_key o) (op_value o) (wi_batch w)
      else if op_flag o =? flag_code kFlagDeletion then Delete cfid (op_key o) (wi_batch w) else wi_batch w) = apply_op (wi_batch w) o)
    by (by destruct o).
  assert (Hredo : redo_ (apply_op (wi_batch w) o) = buf ++ record o) by apply redo_apply_op.
  set (t := default (mkTable (NewSkipList (mkEntry 0 0 (inl 0))) rand) (wi_tables w !! cfid)).
  assert (Ht : exists L es, holds (entry_key (buf ++ record o)) (comparator cfid) (it_list t) L es /\
    Forall2 (entry_is (buf ++ record o)) es (index cfid os)).
  { unfold t. destruct (wi_tables w !! cfid) as [t'|] eqn:Et.
    - destruct (Htab cfid t' Et) as (L & es & Hh & Hf & _). exists L, es. by apply holds_grows.
    - exists (fun _ => []), []. rewrite (Hnone cfid Et). split; [apply New_table_holds | constructor]. }
  destruct Ht as (L & es & Hh & Hf). pose proof (new_entry buf o Ho Hm) as Hnew.
  unfold add_op, AddOrUpdate. fold cfid t buf. rewrite Hbatch, Hredo. set (put := mkEntry (zlen buf + _) _ _) in *.
  destruct (update_list (buf ++ record o) cfid (it_list t) L es (it_rand t) put (op_key o) (entry_is_key _ _ _ Hm Hnew) Hh)
    as (node & -> & s' & L' & rand' & E & Hh'). cbn [obind]. rewrite E. cbn [obind]. eexists. split; [reflexivity|].
  assert (Hf' : Forall2 (entry_is (buf ++ record o))
    (keys_lt (entry_key (buf ++ record o)) (comparator cfid) (lookup_entry (op_key o)) es ++
     put :: tail (keys_ge (entry_key (buf ++ record o)) (comparator cfid) (lookup_entry (op_key o)) es)) (index cfid (os ++ [o]))).
  { rewrite index_snoc. subst cfid. rewrite Z.eqb_refl. unfold index_update. apply Forall2_app; [by apply entries_filter|].
    constructor; [done|]. apply Forall2_tail. by apply entries_filter. }
  split; cbn [wi_batch wi_tables]; rewrite ?Hredo.
  - by rewrite fold_left_app, Hb.
  - apply Forall_app. split; [done | by repeat constructor].
  - done.
  - intros c [Hne Hc]%lookup_insert_None. rewrite index_snoc. fold cfid. destruct (Z.eqb_spec cfid c); [done|]. by apply Hnone.
  - intros c t' [[<- <-]|[Hne Hc]]%lookup_insert_Some.
    + eexists L', _. split; [exact Hh'|]. split; [exact Hf'|]. apply Forall2_length in Hf'. intros E0. rewrite E0 in Hf'.
      rewrite length_app in Hf'. cbn in Hf'. lia.
    + rewrite index_snoc. fold cfid. destruct (Z.eqb_spec cfid c); [done|].
      destruct (Htab c t' Hc) as (L0 & es0 & Hh0 & Hf0 & Hne0). exists L0, es0.
      destruct (holds_grows buf (record o) _ _ _ _ _ Hm Hf0 Hh0) as [H1 H2]. by split_and!.
Qed.

(** All the updates of a transaction. *)
Fixpoint add_all (rands : list (list Z)) (os : list op) (w : WriteBatchWithIndex) : outcome WriteBatchWithIndex :=
  match os with
  | [] => Done w
  | o :: os => (do! w := add_op (hd [] rands) comparator o w in add_all (tail rands) os w)%out
  end.

Lemma in_memory_le s t : zlen s <= zlen t -> in_memory t -> in_memory s.
Proof. unfold in_memory. lia. Qed.

Lemma add_all_indexed rands os os0 w :
  indexed os0 w -> Forall op_ok os -> in_memory (redo_ (wi_batch w) ++ concat (map record os)) ->
  exists w', add_all rands os w = Done w' /\ indexed (os0 ++ os) w'.
Proof.
  revert rands os0 w. induction os as [|o os IH]; intros rands os0 w Hw Hok Hm; cbn [add_all].
  { exists w. by rewrite app_nil_r. }
  apply Forall_cons in Hok as [Ho Hok]. cbn [map concat] in Hm. rewrite app_assoc in Hm.
  destruct (AddOrUpdate_indexed (hd [] rands) os0 w o Hw Ho) as (w1 & -> & Hw1); [by eapply in_memory_app_l|]. cbn [obind].
  assert (Hr : redo_ (wi_batch w1) = redo_ (wi_batch w) ++ record o).
  { rewrite (ix_batch _ _ Hw1), (ix_batch _ _ Hw), fold_left_app. apply redo_apply_op. }
  destruct (IH (tail rands) (os0 ++ [o]) w1 Hw1 Hok) as (w' & -> & Hw'); [by rewrite Hr|].
  exists w'. by rewrite <- app_assoc in Hw'.
Qed.

(** What the index answers for a key: the first update not below it, if that
    is of the key. *)
Definition index_get (cfid : Z) (key : bytes) (ix : list op) : error + Z * option bytes :=
  match head (filter (fun x => (comparator cfid (op_key x) key <? 0) = false) ix) with
  | Some o =>
    if comparator cfid key (op_key o) =? 0 then
      inr (op_flag o, if op_flag o =? flag_code kFlagValue then Some (op_value o) else None)
    else inl kNotFound
  | None => inl kNotFound
  end.

(** The update that a search finds. *)
Definition index_view (cfid : Z) (key : bytes) (ix : list op) : option bytes :=
  update_bytes <$> head (filter (fun x => (comparator cfid (op_key x) key <? 0) = false) ix).

Lemma RawGet_found os w cfid key :
  indexed os w -> RawGet_view comparator cfid key w = Done (index_view cfid key (index cfid os)) /\
  forall freed, (forall view, index_view cfid key (index cfid os) = Some view -> freed view = Some view) ->
    RawGet comparator freed cfid key w = Done (index_get cfid key (index cfid os)).
Proof.
  intros [_ _ Hm Hnone Htab]. unfold RawGet, RawGet_view, index_get, index_view. destruct (wi_tables w !! cfid) as [t|] eqn:Et.
  2:{ by rewrite (Hnone cfid Et). }
  destruct (Htab cfid t Et) as (L & es & Hh & Hf & _). set (buf := redo_ (wi_batch w)) in *.
  destruct (Seek_parts buf (comparator cfid) (it_list t) L es (lookup_entry key) Hh) as (A & B & E & _ & _ & HB).
  rewrite E. cbn [obind]. pose proof (entries_filter buf (comparator cfid) key false es (index cfid os) Hm Hf) as Hge.
  fold (keys_ge (entry_key buf) (comparator cfid) (lookup_entry key) es) in Hge.
  destruct Hge as [|e o es' ix' He _]; destruct B as [|x B]; try done; cbn [head]. injection HB as Hx _. rewrite Hx. cbn [ofopt obind].
  destruct (read_at_entry buf e o Hm He) as (view & rd1 & rd2 & rd3 & Ev & E1 & E2 & E3 & E4 & E5).
  rewrite E1. cbn [ofopt obind fmap option_fmap option_map]. rewrite <- Ev. split; [done|]. intros freed Hfreed. rewrite Hfreed by done.
  cbn [ofopt obind]. rewrite E2. cbn [ofopt obind]. rewrite E3. cbn [ofopt obind].
  rewrite E4. cbn [ofopt obind]. destruct (Z.eqb_spec (comparator cfid key (op_key o)) 0); cbn [negb]; cbn iota; [|done].
  destruct (Z.eqb_spec (op_flag o) (flag_code kFlagValue)) as [Ef|]; [|done]. destruct (E5 Ef) as (rd4 & ->). done.
Qed.

(** When the temporary is still there as it is read. *)
Lemma RawGet_indexed freed os w cfid key :
  (forall s, freed s = Some s) -> indexed os w -> RawGet comparator freed cfid key w = Done (index_get cfid key (index cfid os)).
Proof. intros Hfreed Hw. by apply RawGet_found. Qed.
End index.

(** ** Reading what was written *)

Section careful.
Context (comparator : Z -> bytes -> bytes -> Z) (Hcmp : forall cfid, ComparatorLaws (comparator cfid)).
#[local] Existing Instance Hcmp.

#[local] Abbreviation index := (index comparator).
#[local] Abbreviation index_update := (index_update comparator).

(** The update [x] is of [key] in the family [cfid]. *)
Definition of_key (cfid : Z) (key : bytes) (x : op) : Prop := op_cfid x = cfid /\ comparator cfid (op_key x) key = 0.

#[local] Instance of_key_dec cfid key x : Decision (of_key cfid key x).
Proof. unfold of_key. apply _. Defined.

(** The last update of a key. *)
Definition last_update (cfid : Z) (key : bytes) (os : list op) : option op := last (filter (of_key cfid key) os).

(** Every update is of a key that has been written, or above all keys of its
    family that have been. *)
Definition careful (os : list op) : Prop :=
  forall l o r, os = l ++ o :: r ->
    (exists x, x ∈ l /\ of_key (op_cfid o) (op_key o) x) \/
    (forall x, x ∈ l -> op_cfid x = op_cfid o -> comparator (op_cfid o) (op_key x) (op_key o) < 0).

Definition op_lt (cfid : Z) (a b : op) : Prop := comparator cfid (op_key a) (op_key b) < 0.

Lemma elem_of_tail {A} (x : A) l : x ∈ tail l -> x ∈ l.
Proof. destruct l; [done | by right]. Qed.

Lemma index_subset cfid os x : x ∈ index cfid os -> x ∈ os /\ op_cfid x = cfid.
Proof.
  induction os as [|o os IH] using rev_ind; [by intros ?%not_elem_of_nil|]. rewrite index_snoc, elem_of_app, list_elem_of_singleton.
  destruct (Z.eqb_spec (op_cfid o) cfid) as [E|E]; [|by intros [H1 H2]%IH; auto].
  unfold BatchIndex.index_update. rewrite elem_of_app, elem_of_cons. intros [H|[->|H]]; [| by auto |].
  - apply list_elem_of_filter in H as [_ H]. apply IH in H as [H1 H2]. auto.
  - apply elem_of_tail, list_elem_of_filter in H as [_ H]. apply IH in H as [H1 H2]. auto.
Qed.

(** The index before and from the place of an update. *)
Lemma index_parts cfid key ix :
  StronglySorted (op_lt cfid) ix ->
  ix = filter (fun x => (comparator cfid (op_key x) key <? 0) = true) ix ++ filter (fun x => (comparator cfid (op_key x) key <? 0) = false) ix.
Proof.
  induction 1 as [|x ix Hs IH Hx]; [done|]. rewrite !filter_cons. destruct (comparator cfid (op_key x) key <? 0) eqn:E.
  - rewrite decide_True, decide_False by done. cbn [app]. by f_equal.
  - rewrite decide_False, decide_True by done. assert (filter (fun y => (comparator cfid (op_key y) key <? 0) = true) ix = []) as H.
    { apply filter_none. eapply Forall_impl; [exact Hx|]. cbn. intros y Hy Hy'. apply Z.ltb_lt in Hy'. apply Z.ltb_ge in E.
      unfold op_lt in Hy. pose proof (cmp_lt_le_trans (comparator cfid) _ _ key Hy). lia. }
    rewrite H in *. cbn [app] in *. by rewrite <- IH.
Qed.

Lemma index_update_sorted cfid o ix :
  op_cfid o = cfid -> StronglySorted (op_lt cfid) ix -> StronglySorted (op_lt cfid) (index_update o ix).
Proof.
  intros <- Hs. unfold BatchIndex.index_update. pose proof Hs as Hs'. rewrite (index_parts _ (op_key o) _ Hs) in Hs'.
  apply StronglySorted_app in Hs' as (Hx & H1 & H2). apply StronglySorted_app. split_and!; [|done|].
  - intros a b Ha [->|Hb]%elem_of_cons.
    + apply list_elem_of_filter in Ha as [Ha _]. by apply Z.ltb_lt in Ha.
    + apply Hx; [done|]. by apply elem_of_tail.
  - destruct (filter (fun x => (comparator (op_cfid o) (op_key x) (op_key o) <? 0) = false) ix) as [|k kr] eqn:Ek; cbn [tail]; [repeat constructor|].
    apply StronglySorted_inv in H2 as [H2 H3]. constructor; [done|].
    assert (Hk : k ∈ filter (fun x => (comparator (op_cfid o) (op_key x) (op_key o) <? 0) = false) ix) by (rewrite Ek; by left).
    apply list_elem_of_filter in Hk as [Hk _]. apply Z.ltb_ge in Hk. eapply Forall_impl; [exact H3|]. intros y Hy. unfold op_lt in *.
    eapply (cmp_le_lt_trans (comparator _)); [|exact Hy]. exact (cmp_ge _ _ _ Hk).
Qed.

Lemma index_sorted cfid os : StronglySorted (op_lt cfid) (index cfid os).
Proof.
  induction os as [|o os IH] using rev_ind; [constructor|]. rewrite index_snoc.
  destruct (Z.eqb_spec (op_cfid o) cfid) as [E|]; [by apply index_update_sorted | done].
Qed.

(** In a sorted index the first that is not below a key is the one of the key,
    if there is one. *)
Lemma head_of_key cfid key ix :
  StronglySorted (op_lt cfid) ix -> Forall (fun x => op_cfid x = cfid) ix ->
  head (filter (of_key cfid key) ix) =
  match head (filter (fun x => (comparator cfid (op_key x) key <? 0) = false) ix) with
  | Some o => if comparator cfid key (op_key o) =? 0 then Some o else None
  | None => None
  end.
Proof.
  intros Hs Hc. induction Hs as [|x ix Hs IH Hx]; [done|]. apply Forall_cons in Hc as [Hxc Hc]. specialize (IH Hc). rewrite !filter_cons.
  destruct (Z.ltb_spec (comparator cfid (op_key x) key) 0) as [Hlt|Hge].
  - rewrite decide_False by (unfold of_key; lia). by rewrite (decide_False (P := true = false)) by done.
  - rewrite (decide_True (P := false = false)) by done. cbn [head]. destruct (Z.eqb_spec (comparator cfid key (op_key x)) 0) as [E|E].
    + rewrite decide_True; [done|]. split; [done|]. by apply cmp_eq_sym.
    + assert (Hne : comparator cfid (op_key x) key <> 0) by (intros E'; apply E; by apply cmp_eq_sym).
      rewrite decide_False by (unfold of_key; tauto). rewrite filter_none; [done|]. eapply Forall_impl; [exact Hx|].
      intros y Hy [_ Hy0]. unfold op_lt in Hy. pose proof (cmp_lt_le_trans (comparator cfid) _ _ key Hy). lia.
Qed.

Lemma index_family cfid os : Forall (fun x => op_cfid x = cfid) (index cfid os).
Proof. apply Forall_forall. intros x Hx. by apply index_subset in Hx as [_ Hx]. Qed.

Lemma careful_prefix os o : careful (os ++ [o]) -> careful os.
Proof. intros H l x r ->. apply (H l x (r ++ [o])). by rewrite <- app_assoc. Qed.

(** What gives way to a careful update is of its key. *)
Lemma careful_gives_way os o k kr :
  careful (os ++ [o]) -> (forall key, head (filter (of_key (op_cfid o) key) (index (op_cfid o) os)) = last_update (op_cfid o) key os) ->
  filter (fun x => (comparator (op_cfid o) (op_key x) (op_key o) <? 0) = false) (index (op_cfid o) os) = k :: kr ->
  comparator (op_cfid o) (op_key o) (op_key k) = 0.
Proof.
  intros Hc IH Ek. destruct (Hc os o [] eq_refl) as [(x & Hx & Hk)|Hlt].
  - specialize (IH (op_key o)). rewrite head_of_key, Ek in IH by (apply index_sorted || apply index_family). cbn [head] in IH.
    destruct (Z.eqb_spec (comparator (op_cfid o) (op_key o) (op_key k)) 0) as [|E]; [done|]. exfalso.
    symmetry in IH. apply last_None in IH. assert (Hin : x ∈ filter (of_key (op_cfid o) (op_key o)) os) by (by apply list_elem_of_filter).
    rewrite IH in Hin. by apply not_elem_of_nil in Hin.
  - exfalso. assert (Hk : k ∈ filter (fun x => (comparator (op_cfid o) (op_key x) (op_key o) <? 0) = false) (index (op_cfid o) os))
      by (rewrite Ek; by left).
    apply list_elem_of_filter in Hk as [Hk Hin]. apply index_subset in Hin as [Hin Ec]. apply Z.ltb_ge in Hk. specialize (Hlt k Hin Ec). lia.
Qed.

Lemma careful_index os cfid key : careful os -> head (filter (of_key cfid key) (index cfid os)) = last_update cfid key os.
Proof.
  revert cfid key. induction os as [|o os IH] using rev_ind; intros cfid key Hc; [done|]. pose proof (careful_prefix os o Hc) as Hc'.
  unfold last_update. rewrite index_snoc, filter_app, filter_cons. destruct (Z.eqb_spec (op_cfid o) cfid) as [<-|Hne].
  2:{ rewrite decide_False by (intros [? _]; done). rewrite app_nil_r. by apply IH. }
  unfold BatchIndex.index_update. rewrite filter_app, filter_cons. rewrite (filter_nil (of_key (op_cfid o) key)).
  destruct (decide (of_key (op_cfid o) key o)) as [Hk|Hk].
  - rewrite last_snoc, (filter_none (of_key _ _) (filter _ _)); [done|]. apply Forall_forall. intros x Hx [_ Hx0].
    apply list_elem_of_filter in Hx as [Hx _]. apply Z.ltb_lt in Hx. destruct Hk as [_ Hk].
    pose proof (cmp_lt_le_trans (comparator (op_cfid o)) _ _ key Hx). lia.
  - rewrite app_nil_r. fold (last_update (op_cfid o) key os). rewrite <- IH by done.
    rewrite (index_parts (op_cfid o) (op_key o) (index (op_cfid o) os)) at 3 by apply index_sorted. rewrite filter_app.
    destruct (filter (fun x => (comparator (op_cfid o) (op_key x) (op_key o) <? 0) = false) (index (op_cfid o) os)) as [|k kr] eqn:Ek; [done|].
    cbn [tail]. rewrite (filter_cons_False _ k); [done|]. intros [_ Hk0]. apply Hk. split; [done|].
    eapply (cmp_eq_trans (comparator (op_cfid o))); [|exact Hk0]. by eapply careful_gives_way; [| intros; by apply IH |].
Qed.
End careful.

(** ** Going over the updates *)

Section scanning.
Context (comparator : Z -> bytes -> bytes -> Z) (Hcmp : forall cfid, ComparatorLaws (comparator cfid)).
#[local] Existing Instance Hcmp.
Context (freed : bytes -> option bytes) (Hfreed : forall s, freed s = Some s).

#[local] Instance ii_ops : Iterator IteratorImpl := IteratorImpl_ops comparator freed.

(** What the iterator shows of an update. *)
Definition op_entry (o : op) : kv := (MakeKey (op_key o) kMaxSequenceNumber (op_flag o), op_value o).

Section table.
Context (cfid : Z) (s : SkipList WriteBatchEntry) (L : nat -> list nat) (es : list WriteBatchEntry) (ix : list op) (buf : bytes).
Context (Hm : in_memory buf) (Hh : holds (entry_key buf) (comparator cfid) s L es) (Hf : Forall2 (entry_is buf) es ix) (Hne : ix <> []).

(** The iterator at the place [p]. *)
Definition ii_at (i : IteratorImpl) (p : option nat) : Prop :=
  ii_cfid i = cfid /\ ii_table i = s /\ ii_batch i = buf /\
  match p with
  | None => ii_node i = None
  | Some n => exists x o, L 0%nat !! n = Some x /\ ii_node i = Some x /\ ix !! n = Some o /\ (ii_saved_key i, ii_saved_value i) = op_entry o
  end.

(** The node at a place and its entry. *)
Lemma node_entry n x : L 0%nat !! n = Some x -> exists e o, key_of s x = Some e /\ entry_is buf e o /\ ix !! n = Some o.
Proof.
  intros Hx. destruct Hh as (_ & Hk & _). assert (H : (key_of s <$> L 0%nat) !! n = Some (key_of s x)) by (by rewrite list_lookup_fmap, Hx).
  change (key_of s <$> L 0%nat) with (map (key_of s) (L 0%nat)) in H. rewrite Hk in H. change (map Some es) with (Some <$> es) in H.
  rewrite list_lookup_fmap in H. destruct (es !! n) as [e|] eqn:Ee; [|done]. injection H as H.
  destruct (Forall2_lookup_l _ _ _ _ _ Hf Ee) as (o & Ho & He). by exists e, o.
Qed.

Lemma ii_Update_ok i n x :
  L 0%nat !! n = Some x -> ii_cfid i = cfid -> ii_table i = s -> ii_batch i = buf -> ii_node i = Some x ->
  exists i', ii_Update freed i = Done i' /\ ii_at i' (Some n).
Proof.
  intros Hx Hc Hs Hb Hn. destruct (node_entry n x Hx) as (e & o & Hk & He & Ho). unfold ii_Update. rewrite Hn, Hs, Hb. cbn [ofopt obind].
  rewrite Hk. cbn [ofopt obind]. destruct (read_at_entry buf e o Hm He) as (view & rd1 & rd2 & rd3 & _ & E1 & E2 & E3 & E4 & E5).
  assert (Hr : read_update freed buf e = Done (op_flag o, op_key o, if op_flag o =? flag_code kFlagValue then Some (op_value o) else None)).
  { unfold read_update. rewrite E1. cbn [ofopt obind]. rewrite Hfreed. cbn [ofopt obind]. rewrite E2. cbn [ofopt obind].
    rewrite E3. cbn [ofopt obind]. rewrite E4. cbn [ofopt obind]. destruct (Z.eqb_spec (op_flag o) (flag_code kFlagValue)) as [Ef|]; [|done].
    by destruct (E5 Ef) as (rd4 & ->). }
  rewrite Hr. cbn [obind]. eexists. split; [reflexivity|]. split_and!; [done..|]. exists x, o. split_and!; [done..|].
  cbn [ii_saved_key ii_saved_value]. unfold op_entry, MakeKey. f_equal. by destruct o.
Qed.

Lemma length_L : length (L 0%nat) = length ix.
Proof.
  destruct Hh as (_ & Hk & _). apply (f_equal length) in Hk. rewrite !length_map in Hk. rewrite Hk. by eapply Forall2_length.
Qed.

Lemma ii_to_place i p q node :
  ii_at i p -> node = (match q with Some n => L 0%nat !! n | None => None end) -> (forall n, q = Some n -> (n < length ix)%nat) ->
  (exists i', (if ii_Valid (ii_to node i) then ii_Update freed (ii_to node i) else Done (ii_to node i)) = Done i' /\ ii_at i' q) /\
  (q <> None -> exists i', ii_Update freed (ii_to node i) = Done i' /\ ii_at i' q).
Proof.
  intros (Hc & Hs & Hb & _) -> Hq. destruct q as [n|]; [|by split; [eexists|]].
  destruct (lookup_lt_is_Some_2 (L 0%nat) n) as [x Hx]; [rewrite length_L; by apply Hq|]. rewrite Hx.
  destruct (ii_Update_ok (ii_to (Some x) i) n x Hx Hc Hs Hb eq_refl) as (i' & E & Hi').
  split; [|intros _]; exists i'; [|done]. split; [|done]. by assert (ii_Valid (ii_to (Some x) i) = true) as -> by done.
Qed.

Lemma head_lookup {A} (l : list A) : head l = l !! 0%nat.
Proof. by destruct l. Qed.

(** The lists of nodes and of updates have the same places. *)
Lemma front_back : front (map op_entry ix) = front ix /\ length (map op_entry ix) = length ix.
Proof. unfold front. by rewrite length_map. Qed.

Lemma IteratorImpl_bidi : Bidi (map op_entry ix) ii_at.
Proof.
  pose proof Hh as (Hr & _ & _). destruct front_back as [Ef El]. pose proof length_L as HL.
  assert (Hlt : forall n, front ix n = Some n \/ front ix n = None /\ (length ix <= n)%nat).
  { intros n. unfold front. destruct (Nat.ltb_spec n (length ix)); [by left | by right]. }
  assert (Hlk : forall n m, front ix n = Some m -> (m < length ix)%nat).
  { intros n m. unfold front. destruct (Nat.ltb_spec n (length ix)); [by intros [= <-] | done]. }
  assert (Hpos : (0 < length ix)%nat) by (destruct ix; [done | cbn; lia]).
  split; cbn [it_Valid it_current it_error it_SeekToFirst it_SeekToLast it_Next it_Prev ii_ops IteratorImpl_ops].
  - intros i p (_ & _ & _ & Hp). unfold ii_Valid. destruct p as [n|]; [by destruct Hp as (x & o & _ & -> & _) | by rewrite Hp].
  - intros i n (_ & _ & _ & x & o & Hx & _ & Ho & ->). split; [|rewrite El; by eapply lookup_lt_Some].
    change (map op_entry ix) with (op_entry <$> ix). by rewrite list_lookup_fmap, Ho.
  - done.
  - intros i p Hi. pose proof Hi as (_ & -> & _). unfold sl_SeekToFirst.
    pose proof (path_next s 0 head_ [] _ (rep_path _ _ Hr 0 ltac:(unfold kMaxHeight; lia))) as Hn. cbn [final foldl] in Hn.
    rewrite Hn. cbn [ofopt obind]. rewrite Ef. destruct (ii_to_place i p (front ix 0) (head (L 0%nat)) Hi) as [_ H].
    + rewrite head_lookup. destruct (Hlt 0%nat) as [->|[-> ?]]; [done | lia].
    + intros n. apply Hlk.
    + apply H. destruct (Hlt 0%nat) as [->|[_ ?]]; [done | lia].
  - intros i p Hi. pose proof Hi as (_ & -> & _). rewrite (SeekToLast_holds (entry_key buf) (comparator cfid) s L es Hh). cbn [obind]. rewrite El.
    destruct (ii_to_place i p (back (length ix)) (last (L 0%nat)) Hi) as [_ H].
    + rewrite last_lookup, HL. destruct (length ix); [lia | done].
    + intros n. destruct (length ix); [done|]. intros [= ->]. lia.
    + apply H. by destruct (length ix); [lia|].
  - intros i n Hi. pose proof Hi as (_ & Hs & _ & x & o & Hx & Hn & _). unfold ii_step. rewrite Hs, Hn, Ef.
    pose proof (take_drop_middle _ _ _ Hx) as Hsplit.
    rewrite (Next_holds (entry_key buf) (comparator cfid) s L es (take n (L 0%nat)) x (drop (S n) (L 0%nat)) Hh (eq_sym Hsplit)). cbn [obind].
    apply (ii_to_place i (Some n) (front ix (S n))); [done | | intros m; apply Hlk].
    rewrite head_lookup, lookup_drop, Nat.add_0_r. destruct (Hlt (S n)) as [->|[-> ?]]; [done|]. apply lookup_ge_None. lia.
  - intros i n Hi. pose proof Hi as (Hc & Hs & Hb & x & o & Hx & Hn & _). unfold ii_step. rewrite Hs, Hn, Hb, Hc.
    pose proof (take_drop_middle _ _ _ Hx) as Hsplit. pose proof (lookup_lt_Some _ _ _ Hx) as Hlx.
    rewrite (Prev_holds (entry_key buf) (comparator cfid) s L es (take n (L 0%nat)) x (drop (S n) (L 0%nat)) Hh (eq_sym Hsplit)). cbn [obind].
    apply (ii_to_place i (Some n) (back n)); [done | |].
    + rewrite last_lookup, length_take. destruct n as [|n]; [done|]. cbn [back]. rewrite lookup_take_lt by lia. f_equal. lia.
    + intros m. destruct n as [|n]; [done|]. intros [= <-]. lia.
Qed.
End table.

Lemma op_entry_ukey o : ExtractUserKey (fst (op_entry o)) = Some (ukey (op_entry o)) /\ ukey (op_entry o) = op_key o.
Proof.
  unfold ukey, op_entry. cbn [fst]. assert (Ht : tag_ok (mkTag kMaxSequenceNumber (op_flag o))) by (split; destruct o; by vm_compute).
  rewrite (parsed_MakeKey _ _ _ Ht), ExtractUserKey_MakeKey. done.
Qed.

Lemma index_delta_ok os cfid : delta_ok (comparator cfid) (map op_entry (index comparator cfid os)).
Proof.
  split.
  - apply StronglySorted_map. eapply StronglySorted_impl; [|exact (index_sorted comparator Hcmp cfid os)]. intros a b. unfold op_lt, delta_lt.
    by rewrite !(proj2 (op_entry_ukey _)).
  - apply Forall_map, Forall_forall. intros o _. apply op_entry_ukey.
Qed.

(** The iterator of a family over a base. *)
Lemma NewIteratorWithBase_ok {B} `{!Iterator B} os w cfid bs RB (base : B) es fuel :
  indexed comparator os w -> is_Some (wi_tables w !! cfid) -> Bidi bs RB -> StronglySorted (kv_lt (comparator cfid)) bs ->
  amended (comparator cfid) bs (map op_entry (index comparator cfid os)) es ->
  (length bs + length (index comparator cfid os) < fuel)%nat -> RB base None ->
  exists it (R : DeltaAmendIterator B IteratorImpl -> option nat -> Prop), NewIteratorWithBase cfid base w = inr it /\
    Bidi (Iterator0 := DeltaAmend_ops (comparator cfid) fuel) es R /\ R it None.
Proof.
  intros [_ _ Hm _ Htab] [t Et] HB Hbs Hes Hfuel Hbase. destruct (Htab cfid t Et) as (L & ks & Hh & Hf & Hne).
  unfold NewIteratorWithBase, NewIterator. rewrite Et.
  pose proof (IteratorImpl_bidi cfid (it_list t) L ks _ _ Hm Hh Hf Hne) as HD.
  eexists _, (amends_at (comparator cfid) bs _ RB _ es). split; [reflexivity|]. split.
  - pose proof (index_delta_ok os cfid) as Hdelta. apply DeltaAmend_bidi; try done. by rewrite length_map.
  - left. by split_and!.
Qed.
End scanning.

(** ** Properties *)

Lemma batch_room os : zlen (redo_ NewWriteBatch ++ concat (map record os)) = kHeaderSize + zlen (concat (map record os)).
Proof. by rewrite zlen_app. Qed.

Lemma add_all_new comparator (Hcmp : forall cfid, ComparatorLaws (comparator cfid)) rands os :
  Forall op_ok os -> kHeaderSize + zlen (concat (map record os)) < 2 ^ 64 ->
  exists w, add_all comparator rands os NewWriteBatchWithIndex = Done w /\ indexed comparator os w.
Proof.
  intros Hok Hm. apply (add_all_indexed comparator Hcmp rands os [] _ (New_indexed comparator) Hok).
  unfold in_memory. cbn [wi_batch NewWriteBatchWithIndex]. by rewrite batch_room.
Qed.

(** The answer of a read: the flag and the value of an update. *)
Definition update_answer (o : option op) : error + Z * option bytes :=
  match o with
  | Some o => inr (op_flag o, if op_flag o =? flag_code kFlagValue then Some (op_value o) else None)
  | None => inl kNotFound
  end.

(** After careful updates the index answers by the last update of the key. *)
Lemma index_get_careful comparator os cfid key :
  (forall cfid, ComparatorLaws (comparator cfid)) -> careful comparator os ->
  index_get comparator cfid key (index comparator cfid os) = update_answer (last_update comparator cfid key os).
Proof.
  intros Hcmp Hc. unfold index_get, update_answer. rewrite <- (careful_index comparator Hcmp os cfid key Hc).
  rewrite head_of_key; [|apply _ | by apply index_sorted | by apply index_family].
  destruct (head _) as [o|]; [|done]. by destruct (_ =? 0).
Qed.

Lemma RawGet_careful comparator freed os w cfid key :
  (forall cfid, ComparatorLaws (comparator cfid)) -> (forall s, freed s = Some s) -> indexed comparator os w -> careful comparator os ->
  RawGet comparator freed cfid key w = Done (update_answer (last_update comparator cfid key os)).
Proof. intros Hcmp Hfreed Hw Hc. rewrite <- index_get_careful by done. by apply RawGet_indexed. Qed.

(** And its search ends at that update, or at one of a greater key. *)
Lemma index_view_careful comparator os cfid key :
  (forall cfid, ComparatorLaws (comparator cfid)) -> careful comparator os ->
  match last_update comparator cfid key os with
  | Some o => index_view comparator cfid key (index comparator cfid os) = Some (update_bytes o)
  | None => forall view, index_view comparator cfid key (index comparator cfid os) = Some view ->
      exists o, o ∈ os /\ op_cfid o = cfid /\ 0 < comparator cfid (op_key o) key /\ view = update_bytes o
  end.
Proof.
  intros Hcmp Hc. unfold index_view. rewrite <- (careful_index comparator Hcmp os cfid key Hc).
  rewrite head_of_key; [|apply _ | by apply index_sorted | by apply index_family].
  destruct (head _) as [o|] eqn:E; [|done]. destruct (Z.eqb_spec (comparator cfid key (op_key o)) 0) as [E0|E0]; [done|].
  intros view [= <-]. exists o. apply head_Some_elem_of, list_elem_of_filter in E as [Hge Hin].
  apply index_subset in Hin as [Hin Ho]. apply Z.ltb_ge in Hge. split_and!; [done | done | | done].
  assert (comparator cfid (op_key o) key <> 0); [|lia]. intros E1. by apply E0, (cmp_eq_sym (comparator cfid)).
Qed.

(** C21: the batch of a transaction, if every update was of a key written before
    or above all keys of its family: it replays as the updates made to it, in
    their order; the search of a read ends, whatever the random numbers of the
    index, at the last update of the key, or at an update of a greater key or at
    none when the key was not updated. [RawGet] then reads that update through a
    view of a string that is gone: whenever the bytes it finds there are still
    those of the update, it answers by the last update of the key. (Without the
    condition on the keys an update is hidden: [smaller_key_hides_greater].) *)
Theorem BatchIndex_reads_writes comparator rands os :
  (forall cfid, ComparatorLaws (comparator cfid)) ->
  Forall op_ok os -> careful comparator os -> zlen os < 2 ^ 32 -> kHeaderSize + zlen (concat (map record os)) < 2 ^ 64 ->
  exists w, add_all comparator rands os NewWriteBatchWithIndex = Done w /\ IterateBatch (wi_batch w) = Some os /\
    forall cfid key, exists found, RawGet_view comparator cfid key w = Done found /\
      match last_update comparator cfid key os with
      | Some o => found = Some (update_bytes o)
      | None => forall view, found = Some view ->
          exists o, o ∈ os /\ op_cfid o = cfid /\ 0 < comparator cfid (op_key o) key /\ view = update_bytes o
      end /\
      forall freed, (forall view, found = Some view -> freed view = Some view) ->
        RawGet comparator freed cfid key w = Done (update_answer (last_update comparator cfid key os)).
Proof.
  intros Hcmp Hok Hc Hn Hm. destruct (add_all_new comparator Hcmp rands os Hok Hm) as (w & E & Hw).
  exists w. split; [done|]. split.
  - rewrite (ix_batch _ _ _ Hw). apply (batch_parts os 0); [done | | done | by unfold is_u]. unfold in_memory, kHeaderSize in *. lia.
  - intros cfid key. destruct (RawGet_found comparator Hcmp os w cfid key Hw) as [Hv Hr]. eexists. split; [exact Hv|].
    split; [by apply index_view_careful|]. rewrite <- index_get_careful by done. exact Hr.
Qed.

(** The iterator of a transaction over a family it has written to, if the views
    of strings that are gone read as they did: it shows, in both directions,
    what the database holds amended by the updates in the index. *)
Theorem BatchIndex_iterates {B} `{!Iterator B} comparator freed rands os cfid bs RB (base : B) es fuel :
  (forall cfid, ComparatorLaws (comparator cfid)) -> (forall s, freed s = Some s) ->
  Forall op_ok os -> kHeaderSize + zlen (concat (map record os)) < 2 ^ 64 ->
  Bidi bs RB -> RB base None -> StronglySorted (kv_lt (comparator cfid)) bs -> index comparator cfid os <> [] ->
  amended (comparator cfid) bs (map op_entry (index comparator cfid os)) es ->
  (length bs + length (index comparator cfid os) < fuel)%nat ->
  exists w it (R : DeltaAmendIterator B IteratorImpl -> option nat -> Prop),
    add_all comparator rands os NewWriteBatchWithIndex = Done w /\ NewIteratorWithBase cfid base w = inr it /\
    Bidi (Iterator0 := DeltaAmend_ops (Iterator1 := IteratorImpl_ops comparator freed) (comparator cfid) fuel) es R /\ R it None.
Proof.
  intros Hcmp Hfreed Hok Hm HB Hbase Hbs Hne Hes Hfuel. destruct (add_all_new comparator Hcmp rands os Hok Hm) as (w & E & Hw).
  assert (Ht : is_Some (wi_tables w !! cfid)).
  { destruct (wi_tables w !! cfid) as [t|] eqn:Et; [by eexists|]. by apply (ix_none _ _ _ Hw) in Et. }
  destruct (NewIteratorWithBase_ok comparator Hcmp freed Hfreed os w cfid bs RB base es fuel Hw Ht HB Hbs Hes Hfuel Hbase) as (it & R & H).
  by exists w, it, R.
Qed.

Definition sample_updates : list op := [OpPut 0 [97] [1]; OpPut 0 [98] [2]; OpDelete 0 [97]; OpPut 3 [97] [4]; OpPut 0 [99] [5]].

Definition by_lex (_ : Z) : bytes -> bytes -> Z := lex.

Lemma sample_careful : careful by_lex sample_updates.
Proof.
  intros l o r E. unfold sample_updates in E.
  destruct l as [|x1 [|x2 [|x3 [|x4 [|x5 l]]]]]; cbn [app] in E; [injection E as <- _ | injection E as <- <- _ | injection E as <- <- <- _
    | injection E as <- <- <- <- _ | injection E as <- <- <- <- <- _ | by apply (f_equal length) in E; rewrite !length_cons, length_app in E; cbn in E; lia].
  - right. by intros x Hx%not_elem_of_nil.
  - right. by intros x ->%list_elem_of_singleton _.
  - left. exists (OpPut 0 [97] [1]). split; [by left | by split].
  - right. intros x Hx Ec. by repeat (apply elem_of_cons in Hx as [->|Hx]; [done|]); apply not_elem_of_nil in Hx.
  - right. intros x Hx Ec. by repeat (apply elem_of_cons in Hx as [->|Hx]; [done|]); apply not_elem_of_nil in Hx.
Qed.

Lemma BatchIndex_reads_writes_witness :
  exists w, add_all by_lex [[0; 1]; []; [7]] sample_updates NewWriteBatchWithIndex = Done w /\ IterateBatch (wi_batch w) = Some sample_updates /\
    RawGet_view by_lex 0 [98] w = Done (Some (update_bytes (OpPut 0 [98] [2]))) /\
    RawGet_view by_lex 0 [97] w = Done (Some (update_bytes (OpDelete 0 [97]))) /\
    RawGet by_lex Some 0 [98] w = Done (inr (0, Some [2])) /\ RawGet by_lex Some 0 [97] w = Done (inr (1, None)).
Proof.
  destruct (BatchIndex_reads_writes by_lex [[0; 1]; []; [7]] sample_updates) as (w & E & Hi & Hg);
    [intros cfid; exact lex_laws | repeat (apply Forall_cons_2 || apply Forall_nil_2); by vm_compute | exact sample_careful | by vm_compute | by vm_compute |].
  exists w. split; [exact E|]. split; [exact Hi|].
  destruct (Hg 0 [98]) as (f1 & V1 & F1 & R1), (Hg 0 [97]) as (f2 & V2 & F2 & R2).
  rewrite V1, V2, (R1 Some), (R2 Some) by done. cbn in F1, F2. rewrite F1, F2. by split_and!.
Defined.

Lemma BatchIndex_iterates_witness :
  exists w it (R : DeltaAmendIterator Cursor IteratorImpl -> option nat -> Prop),
    add_all by_lex [] sample_updates NewWriteBatchWithIndex = Done w /\
    NewIteratorWithBase 0 (mkCursor [([97], [9]); ([100], [8])] None) w = inr it /\
    Bidi (Iterator0 := DeltaAmend_ops (Iterator0 := Cursor_ops lex) (Iterator1 := IteratorImpl_ops by_lex Some) lex 6)
      [([98], [2]); ([99], [5]); ([100], [8])] R /\ R it None.
Proof.
  apply (BatchIndex_iterates (Iterator0 := Cursor_ops lex) by_lex Some [] sample_updates 0 [([97], [9]); ([100], [8])]
    (cursor_at [([97], [9]); ([100], [8])]) (mkCursor [([97], [9]); ([100], [8])] None) [([98], [2]); ([99], [5]); ([100], [8])] 6).
  - intros cfid. exact lex_laws.
  - done.
  - repeat (apply Forall_cons_2 || apply Forall_nil_2); by vm_compute.
  - by vm_compute.
  - apply cursor_bidi.
  - by split_and!.
  - repeat first [apply SSorted_cons | apply SSorted_nil | apply Forall_cons_2 | apply Forall_nil_2 | reflexivity].
  - by vm_compute.
  - split; [repeat first [apply SSorted_cons | apply SSorted_nil | apply Forall_cons_2 | apply Forall_nil_2 | reflexivity]|].
    apply (bool_decide_unpack (_ ≡ₚ _)). vm_compute. exact Logic.I.
  - apply Nat.ltb_lt. vm_compute. reflexivity.
Defined.

(** ** What goes wrong *)

(** An update of a smaller key takes the place of the next greater one, which
    is still in the batch but can no longer be read through it. *)
Example smaller_key_hides_greater :
  (do! w := add_all by_lex [] [OpPut 0 [98] [2]; OpPut 0 [97] [1]] NewWriteBatchWithIndex in
   do! r := RawGet by_lex Some 0 [98] w in
   Done (r, IterateBatch (wi_batch w)))%out = Done (inl kNotFound, Some [OpPut 0 [98] [2]; OpPut 0 [97] [1]]).
Proof. by vm_compute. Qed.
