(* ===== verification/WAL.v ===== *)
(** * WAL

    src/db/write-ahead-log.{h,cc}: the log of batches and the manifest.  A
    record is split into fragments so that no fragment crosses a block
    boundary; each fragment carries its type, its length and a CRC.

    [LogWriter] works over any [WritableFile]; [LogReader] reads the bytes
    through a [FileReader].  [frags] is the format as a relation: the bytes
    that stand for a record at an offset within a block. *)

From S2P Require Import Prelude Slice Hash IO.

Definition kZeroType : Z := 0.
Definition kFullType : Z := 1.
Definition kFirstType : Z := 2.
Definition kMiddleType : Z := 3.
Definition kLastType : Z := 4.

Definition kHeaderSize : Z := 4 + 2 + 1.
Definition kDefaultBlockSize : Z := 32768.

(** [typed_checksums_[type]]. *)
Definition typed_checksum (type : Z) : Z := crc32 0 [type].

(** ** LogWriter *)

Record LogWriter (F : Type) :=
  mkLW { lw_writer : FileWriter F; lw_block_size : Z; lw_block_offset : Z }.
Arguments mkLW {F} _ _ _.
Arguments lw_writer {F} _.
Arguments lw_block_size {F} _.
Arguments lw_block_offset {F} _.

Section writer.
Context {F : Type} `{!WritableFile F}.

Definition NewLogWriter (file : F) (block_size : Z) : LogWriter F :=
  mkLW (NewFileWriter file) block_size 0.

(** [EmitPhysicalRecord]: the writer's [TRY_RUN] evaluates [rs] instead of
    returning it, so the results of the four writes are dropped. *)
Definition EmitPhysicalRecord (data : bytes) (type : Z) (w : LogWriter F) : error * LogWriter F :=
  let checksum := crc32 (typed_checksum type) data in
  let '(_, wr) := fw_WriteFixed32 checksum (lw_writer w) in
  let '(_, wr) := fw_WriteFixed16 (wrap 16 (zlen data)) wr in
  let '(_, wr) := fw_WriteByte type wr in
  let '(_, wr) := fw_Write data wr in
  (kOk, mkLW wr (lw_block_size w) (lw_block_offset w + (kHeaderSize + zlen data))).

(** The start of a turn of [Append]: pad a block whose rest cannot hold a
    header and begin the next one. *)
Definition next_block (w : LogWriter F) : LogWriter F :=
  let left_over := wrap 64 (lw_block_size w - lw_block_offset w) in
  if left_over <? kHeaderSize then
    let wr := if 0 <? left_over then snd (fw_Write (GetPad left_over) (lw_writer w))
              else lw_writer w in
    mkLW wr (lw_block_size w) 0
  else w.

(** The [do ... while] loop of [Append]. *)
Fixpoint append_loop (fuel : nat) (p : bytes) (begin : bool) (w : LogWriter F) :
    outcome (error * LogWriter F) :=
  match fuel with
  | O => OutOfFuel
  | S fuel =>
    let w := next_block w in
    let avail := wrap 64 (lw_block_size w - lw_block_offset w - kHeaderSize) in
    let fragment_length := if zlen p <? avail then zlen p else avail in
    let end_ := zlen p =? fragment_length in
    let type := if begin && end_ then kFullType else if begin then kFirstType
                else if end_ then kLastType else kMiddleType in
    let '(rs, w) := EmitPhysicalRecord (take (Z.to_nat fragment_length) p) type w in
    let p := drop (Z.to_nat fragment_length) p in
    if ok rs && (0 <? zlen p) then append_loop fuel p false w else Done (rs, w)
  end.

(** Every second turn at least consumes a byte. *)
Definition Append (record : bytes) (w : LogWriter F) : outcome (error * LogWriter F) :=
  append_loop (2 * length record + 2) record true w.

Definition lw_Flush (w : LogWriter F) : error * LogWriter F :=
  let '(rs, wr) := fw_Flush (lw_writer w) in
  (rs, mkLW wr (lw_block_size w) (lw_block_offset w)).
End writer.

(** ** LogReader *)

Record LogReader := mkLR {
  lr_reader : FileReader; lr_verify : bool; lr_block_size : Z;
  lr_error : error; lr_block_offset : Z
}.

Definition NewLogReader (file : SequentialFile) (verify : bool) (block_size : Z) : LogReader :=
  mkLR (NewFileReader file) verify block_size kOk 0.

Definition set_reader (r : LogReader) (rd : FileReader) : LogReader :=
  mkLR rd (lr_verify r) (lr_block_size r) (lr_error r) (lr_block_offset r).

(** [ReadPhysicalRecord]: the type (0 after a failed read), [*result], [*fail]
    and the reader.  [TRY_RUN] gives up after a read that left an error. *)
Definition ReadPhysicalRecord (result : bytes) (fail : Z) (r : LogReader) :
    outcome (Z * bytes * Z * LogReader) :=
  (do! (record_checksum, rd) := ofopt (fr_ReadFixed 4 (lr_reader r)) in
   if negb (ok (fr_error rd)) then Done (0, result, fail + 1, set_reader r rd) else
   do! (len, rd) := ofopt (fr_ReadFixed 2 rd) in
   if negb (ok (fr_error rd)) then Done (0, result, fail + 1, set_reader r rd) else
   do! (type, rd) := ofopt (fr_ReadByte rd) in
   if negb (ok (fr_error rd)) then Done (0, result, fail + 1, set_reader r rd) else
   let '(result, rd) := fr_Read len rd in
   if negb (ok (fr_error rd)) then Done (0, result, fail + 1, set_reader r rd) else
   let fail :=
     if lr_verify r then
       let checksum := crc32 (crc32 0 [type]) result in
       if negb (record_checksum =? checksum) then fail + 1 else fail
     else fail in
   Done (type, result, fail,
         mkLR rd (lr_verify r) (lr_block_size r) (lr_error r)
              (lr_block_offset r + (kHeaderSize + len))))%out.

(** Skipping the padding at the end of a block. *)
Definition skip_pad (r : LogReader) : LogReader :=
  let left_over := wrap 64 (lr_block_size r - lr_block_offset r) in
  if left_over <? kHeaderSize then
    let rd := if 0 <? left_over then fr_Skip left_over (lr_reader r) else lr_reader r in
    mkLR rd (lr_verify r) (lr_block_size r) (lr_error r) 0
  else r.

(** The [do ... while] loop of [Read]; [segment] counts the fragments. *)
Fixpoint read_loop (fuel : nat) (segment fail : Z) (result scratch : bytes) (r : LogReader) :
    outcome (Z * Z * bytes * bytes * LogReader) :=
  match fuel with
  | O => OutOfFuel
  | S fuel =>
    let r := skip_pad r in
    let scratch :=
      if 0 <? segment then (if segment =? 1 then [] else scratch) ++ result else scratch in
    (do! (type, result, fail, r) := ReadPhysicalRecord result fail r in
     if (type =? kMiddleType) || (type =? kFirstType)
     then read_loop fuel (segment + 1) fail result scratch r
     else Done (segment + 1, fail, result, scratch, r))%out
  end.

(** [Read(result, scratch)]: the value returned, [*result], [*scratch] and the
    reader.  Every turn but the last consumes a header. *)
Definition Read (result scratch : bytes) (r : LogReader) :
    outcome (bool * bytes * bytes * LogReader) :=
  if bool_decide (fr_error (lr_reader r) = kEOF) then Done (false, result, scratch, r)
  else
    let fuel := S (length (sf_data (fr_file (lr_reader r)))) in
    (do! (segment, fail, result, scratch, r) := read_loop fuel 0 0 result scratch r in
     let err :=
       if 0 <? fail then
         if negb (ok (fr_error (lr_reader r))) then fr_error (lr_reader r) else kIOError
       else kOk in
     let r := mkLR (lr_reader r) (lr_verify r) (lr_block_size r) err (lr_block_offset r) in
     let '(result, scratch) :=
       if 1 <? segment then (scratch ++ result, scratch ++ result) else (result, scratch) in
     Done (ok err, result, scratch, r))%out.

(** The loop of the log's readers, [while (reader.Read(&result, &scratch))]:
    the records handed to its body. *)
Fixpoint ReadAll (fuel : nat) (result scratch : bytes) (r : LogReader) :
    outcome (list bytes * LogReader) :=
  match fuel with
  | O => OutOfFuel
  | S fuel =>
    (do! (more, result, scratch, r) := Read result scratch r in
     if more then
       do! (rs, r) := ReadAll fuel result scratch r in Done (result :: rs, r)
     else Done ([], r))%out
  end.

(** ** The format *)

Section format.
Context (bs : Z).

(** A fragment on disk. *)
Definition phys (type : Z) (d : bytes) : bytes :=
  le_bytes 4 (crc32 (crc32 0 [type]) d) ++ le_bytes 2 (zlen d) ++ [type] ++ d.

(** The padding written at offset [off] of a block and the offset after it. *)
Definition pad (off : Z) : bytes := if bs - off <? 7 then GetPad (bs - off) else [].
Definition base (off : Z) : Z := if bs - off <? 7 then 0 else off.
Definition room (off : Z) : Z := bs - base off - 7.

(** [frags off first p e off']: at offset [off], the rest [p] of a record is
    written as the bytes [e], ending at offset [off']. *)
Inductive frags : Z -> bool -> bytes -> bytes -> Z -> Prop :=
| frag_last off (first : bool) p :
    zlen p <= room off ->
    frags off first p (pad off ++ phys (if first then kFullType else kLastType) p)
          (base off + (7 + zlen p))
| frag_more off (first : bool) p e off' :
    room off < zlen p ->
    frags bs false (drop (Z.to_nat (room off)) p) e off' ->
    frags off first p
      (pad off ++ phys (if first then kFirstType else kMiddleType)
                       (take (Z.to_nat (room off)) p) ++ e) off'.

(** A sequence of records. *)
Inductive log : Z -> list bytes -> bytes -> Prop :=
| log_nil off : log off [] []
| log_cons off p e off' ps es :
    frags off true p e off' -> log off' ps es -> log off (p :: ps) (e ++ es).

Hypothesis Hbs : 7 < bs <= 65535 + 7.

Lemma room_bound off : 0 <= off <= bs -> 0 <= base off <= bs - 7 /\ 0 <= room off <= 65535.
Proof. unfold room, base. case_cmps. Qed.

Lemma frags_off off first p e off' :
  0 <= off <= bs -> frags off first p e off' -> 0 <= off' <= bs.
Proof.
  intros Ho Hf. induction Hf as [off first p Hp|off first p e off' Hp Hf IH].
  - pose proof (room_bound off Ho). pose proof (zlen_nonneg p). unfold room in *. lia.
  - apply IH. lia.
Qed.

Lemma phys_type_zlen t d : zlen (phys t d) = 7 + zlen d.
Proof. unfold phys. rewrite !zlen_app, !zlen_le_bytes, zlen_cons, zlen_nil. lia. Qed.
End format.

(** ** The writer implements the format *)

Section writer_format.
Context {F : Type} `{!WritableFile F, !WritableFileLaws F, !ReliableFile F}.
Context (bs : Z) (Hbs : 7 < bs <= 65535 + 7).

#[local] Abbreviation written w := (contents (fw_file (lw_writer w))).

Lemma EmitPhysicalRecord_phys d t (w : LogWriter F) :
  is_u 8 t -> zlen d <= 65535 ->
  exists w', EmitPhysicalRecord d t w = (kOk, w') /\ written w' = written w ++ phys t d /\
    lw_block_size w' = lw_block_size w /\
    lw_block_offset w' = lw_block_offset w + (7 + zlen d).
Proof.
  intros Ht Hd. unfold EmitPhysicalRecord, fw_WriteFixed32, fw_WriteFixed16, fw_WriteByte.
  set (crc := crc32 _ _).
  destruct (fw_Write_reliable (GetU32 crc) (lw_writer w)) as (w1 & -> & H1 & _).
  destruct (fw_Write_reliable (GetU16 (wrap 16 (zlen d))) w1) as (w2 & -> & H2 & _).
  destruct (fw_Write_reliable (GetByte t) w2) as (w3 & -> & H3 & _).
  destruct (fw_Write_reliable d w3) as (w4 & -> & H4 & _).
  eexists. split; [reflexivity|]. simpl. split; [|done].
  rewrite H4, H3, H2, H1. unfold GetByte, GetU16, GetU32, phys.
  rewrite (wrap_small 8 t Ht), wrap_small
    by (pose proof (zlen_nonneg d); unfold is_u; lia).
  by rewrite <- !app_assoc.
Qed.

Lemma next_block_pad (w : LogWriter F) :
  lw_block_size w = bs -> 0 <= lw_block_offset w <= bs ->
  written (next_block w) = written w ++ pad bs (lw_block_offset w) /\
  lw_block_size (next_block w) = bs /\
  lw_block_offset (next_block w) = base bs (lw_block_offset w).
Proof.
  intros Hw Ho. unfold next_block, pad, base. rewrite Hw.
  rewrite wrap_small by (unfold is_u; lia). unfold kHeaderSize.
  change (4 + 2 + 1) with 7. destruct (Z.ltb_spec (bs - lw_block_offset w) 7).
  - simpl. split; [|done]. destruct (Z.ltb_spec 0 (bs - lw_block_offset w)).
    + destruct (fw_Write_reliable (GetPad (bs - lw_block_offset w)) (lw_writer w))
        as (w1 & -> & H1 & _). done.
    + replace (bs - lw_block_offset w) with 0 by lia. by rewrite app_nil_r.
  - by rewrite app_nil_r.
Qed.

Lemma append_loop_frags fuel p first (w : LogWriter F) :
  lw_block_size w = bs -> 0 <= lw_block_offset w <= bs ->
  (2 * length p + (if (room bs (lw_block_offset w) =? 0)%Z then 1 else 0) < fuel)%nat ->
  exists e w', append_loop fuel p first w = Done (kOk, w') /\
    frags bs (lw_block_offset w) first p e (lw_block_offset w') /\
    written w' = written w ++ e /\ lw_block_size w' = bs.
Proof.
  revert p first w. induction fuel as [|fuel IH]; intros p first w Hw Ho Hf; [lia|].
  destruct (next_block_pad w Hw Ho) as (N1 & N2 & N3).
  destruct (room_bound bs Hbs _ Ho) as [Hb Hr].
  pose proof (zlen_nonneg p) as Hp0.
  cbn [append_loop]. rewrite N2, N3. change kHeaderSize with 7.
  assert (wrap 64 (bs - base bs (lw_block_offset w) - 7) = room bs (lw_block_offset w)) as ->
    by (unfold room; rewrite wrap_small; unfold is_u; lia).
  set (r := room bs (lw_block_offset w)) in *. set (o := lw_block_offset w) in *.
  destruct (Z.leb_spec (zlen p) r) as [Hle|Hgt].
  - replace (if zlen p <? r then zlen p else r) with (zlen p) by case_cmps.
    rewrite Z.eqb_refl, andb_true_r.
    replace (Z.to_nat (zlen p)) with (length p) by (unfold zlen; lia).
    rewrite firstn_all, drop_all.
    replace (if first then kFullType else if first then kFirstType else kLastType)
      with (if first then kFullType else kLastType) by by destruct first.
    set (t := if first then kFullType else kLastType).
    destruct (EmitPhysicalRecord_phys p t (next_block w)) as (w' & -> & W1 & W2 & W3);
      [by destruct first; apply (bool_decide_unpack (is_u 8 _)) | lia |].
    exists (pad bs o ++ phys t p), w'. split_and!; [done | | | congruence].
    + rewrite W3, N3. by apply frag_last.
    + by rewrite W1, N1, app_assoc.
  - replace (if zlen p <? r then zlen p else r) with r by case_cmps.
    destruct (Z.eqb_spec (zlen p) r); [lia|]. rewrite andb_false_r.
    assert (zlen (take (Z.to_nat r) p) = r) as Ht
      by (unfold zlen in *; rewrite length_take; lia).
    assert (zlen (drop (Z.to_nat r) p) = zlen p - r) as Hd
      by (unfold zlen in *; rewrite length_drop; lia).
    set (t := if first then kFirstType else kMiddleType).
    destruct (EmitPhysicalRecord_phys (take (Z.to_nat r) p) t (next_block w))
      as (w1 & E & W1 & W2 & W3); [by destruct first; apply (bool_decide_unpack (is_u 8 _)) | lia |].
    change (if first then kFirstType else kMiddleType) with t. rewrite E.
    assert (Ho1 : lw_block_offset w1 = bs) by (rewrite W3, N3, Ht; unfold r, room in *; lia).
    destruct (Z.ltb_spec 0 (zlen (drop (Z.to_nat r) p))); [|lia]. cbn [ok andb].
    destruct (IH (drop (Z.to_nat r) p) false w1) as (e & w' & E' & Hfr & Hc & Hs);
      [congruence | lia | |].
    { rewrite Ho1. unfold room, base. rewrite Z.sub_diag. simpl.
      destruct (Z.eqb_spec (bs - 0 - 7) 0); [lia|]. unfold zlen in *.
      destruct (Z.eqb_spec r 0); lia. }
    exists (pad bs o ++ phys t (take (Z.to_nat r) p) ++ e), w'.
    split_and!; [exact E' | | | done].
    + rewrite Ho1 in Hfr. by apply frag_more.
    + by rewrite Hc, W1, N1, <- !app_assoc.
Qed.

Lemma Append_frags p (w : LogWriter F) :
  lw_block_size w = bs -> 0 <= lw_block_offset w <= bs ->
  exists e w', Append p w = Done (kOk, w') /\
    frags bs (lw_block_offset w) true p e (lw_block_offset w') /\
    written w' = written w ++ e /\ lw_block_size w' = bs.
Proof. intros Hw Ho. apply append_loop_frags; [done..|]. destruct (_ =? 0); lia. Qed.
End writer_format.

(** ** The reader reads the format *)

Section reader_format.
Context (bs : Z) (Hbs : 7 < bs <= 65535 + 7).

Lemma ReadPhysicalRecord_at result fail r pre t d rest :
  reader_at (lr_reader r) pre (phys t d ++ rest) -> zlen d <= 65535 -> d ++ rest <> [] ->
  exists r', ReadPhysicalRecord result fail r = Done (t, d, fail, r') /\
    reader_at (lr_reader r') (pre ++ phys t d) rest /\ fr_error (lr_reader r') = kOk /\
    lr_verify r' = lr_verify r /\ lr_block_size r' = lr_block_size r /\
    lr_block_offset r' = lr_block_offset r + (7 + zlen d).
Proof.
  intros Hr Hd Hne. unfold phys in Hr. rewrite <- !app_assoc in Hr.
  set (c := crc32 (crc32 0 [t]) d) in *. unfold ReadPhysicalRecord.
  destruct (fr_ReadFixed_at 4 _ _ _ _ ltac:(lia) Hr) as (r1 & -> & R1 & E1).
  cbn [obind ofopt]. rewrite E1. cbn [negb ok].
  destruct (fr_ReadFixed_at 2 _ _ _ _ ltac:(lia) R1) as (r2 & -> & R2 & E2).
  cbn [obind ofopt]. rewrite E2.
  destruct (fr_ReadByte_at _ _ _ _ R2) as (r3 & E & R3 & E3). rewrite E.
  cbn [obind ofopt]. rewrite E3.
  destruct (fr_Read_at _ _ _ _ R3 Hne) as (r4 & E' & R4 & E4).
  assert (zlen d mod 256 ^ Z.of_nat 2 = zlen d) as ->
    by (apply Z.mod_small; pose proof (zlen_nonneg d); change (256 ^ Z.of_nat 2) with 65536; lia).
  rewrite E', E4.
  assert (c mod 256 ^ Z.of_nat 4 = c) as ->.
  { apply Z.mod_small. apply crc32_is_u, crc32_is_u. unfold is_u. lia. }
  fold c. rewrite Z.eqb_refl. simpl.
  replace (if lr_verify r then fail else fail) with fail by by destruct (lr_verify r).
  eexists. split; [reflexivity|]. simpl. split_and!; [|done..].
  unfold phys. fold c. by rewrite <- !app_assoc in *.
Qed.

Lemma skip_pad_at r pre rest :
  lr_block_size r = bs -> 0 <= lr_block_offset r <= bs ->
  reader_at (lr_reader r) pre (pad bs (lr_block_offset r) ++ rest) ->
  reader_at (lr_reader (skip_pad r)) (pre ++ pad bs (lr_block_offset r)) rest /\
  lr_verify (skip_pad r) = lr_verify r /\ lr_block_size (skip_pad r) = bs /\
  lr_block_offset (skip_pad r) = base bs (lr_block_offset r).
Proof.
  intros Hb Ho. unfold skip_pad, pad, base. rewrite Hb, wrap_small by (unfold is_u; lia).
  change kHeaderSize with 7. destruct (Z.ltb_spec (bs - lr_block_offset r) 7).
  - intros Hr. simpl. split; [|done]. destruct (Z.ltb_spec 0 (bs - lr_block_offset r)).
    + destruct (fr_Skip_at _ _ _ _ Hr) as (r' & E & Hr').
      { unfold GetPad. intros E. apply (f_equal length) in E.
        rewrite length_replicate in E. simpl in E. lia. }
      unfold GetPad, zlen in E. rewrite length_replicate, Z2Nat.id in E by lia. by rewrite E.
    + replace (bs - lr_block_offset r) with 0 in * by lia. by rewrite app_nil_r.
  - intros Hr. by rewrite app_nil_r.
Qed.

Lemma frags_not_nil off first p e off' : frags bs off first p e off' -> e <> [].
Proof.
  destruct 1; intros E; apply app_eq_nil in E as [_ E].
  - pose proof (phys_type_zlen (if first then kFullType else kLastType) p) as H'.
    rewrite E, zlen_nil in H'. pose proof (zlen_nonneg p). lia.
  - apply app_eq_nil in E as [E _]. pose proof (f_equal zlen E) as H'.
    rewrite phys_type_zlen, zlen_nil in H'.
    pose proof (zlen_nonneg (take (Z.to_nat (room bs off)) p)). lia.
Qed.

(** What [Read] returns once the loop is done. *)
Definition joined (segment : Z) (result scratch : bytes) : bytes :=
  if 1 <? segment then scratch ++ result else result.

Lemma read_loop_frags off first p e off' :
  frags bs off first p e off' -> 0 <= off <= bs -> p <> [] ->
  forall fuel segment result scratch r pre rest,
  (length e < fuel)%nat -> 0 <= segment -> first = (segment =? 0) ->
  lr_block_size r = bs -> lr_block_offset r = off ->
  reader_at (lr_reader r) pre (e ++ rest) ->
  exists segment' result' scratch' r',
    read_loop fuel segment 0 result scratch r = Done (segment', 0, result', scratch', r') /\
    joined segment' result' scratch' =
      (if 0 <? segment then (if segment =? 1 then [] else scratch) ++ result else []) ++ p /\
    reader_at (lr_reader r') (pre ++ e) rest /\ fr_error (lr_reader r') = kOk /\
    lr_verify r' = lr_verify r /\ lr_block_size r' = bs /\ lr_block_offset r' = off'.
Proof.
  induction 1 as [off first p Hp|off first p e off' Hp Hf IH];
    intros Ho Hne fuel segment result scratch r pre rest Hfuel Hseg Hfirst Hb Hoff Hr;
    (destruct fuel as [|fuel]; [lia|]); cbn [read_loop];
    destruct (room_bound bs Hbs off Ho) as [Hba Hro];
    rewrite <- Hoff, <- app_assoc in Hr; rewrite <- Hoff in Ho;
    destruct (skip_pad_at r pre _ Hb Ho Hr) as (Hs & Hv & Hb' & Ho'); rewrite Hoff in *.
  - set (t := if first then kFullType else kLastType) in *.
    destruct (ReadPhysicalRecord_at result 0 _ _ _ _ _ Hs) as (r' & -> & R' & E' & V' & B' & O');
      [lia | by destruct p |].
    cbn [obind]. replace ((t =? kMiddleType) || (t =? kFirstType)) with false
      by (unfold t; by destruct first).
    eexists _, _, _, r'. split; [reflexivity|]. split_and!.
    + unfold joined. subst first.
      destruct (Z.eqb_spec segment 0) as [->|]; [done|]. case_cmps; done.
    + by rewrite app_assoc.
    + done.
    + congruence.
    + congruence.
    + by rewrite O', Ho'.
  - set (d := take (Z.to_nat (room bs off)) p) in *.
    assert (zlen d = room bs off) as Hd by (unfold d, zlen in *; rewrite length_take; lia).
    set (t := if first then kFirstType else kMiddleType) in *. rewrite <- app_assoc in Hs.
    destruct (ReadPhysicalRecord_at result 0 _ _ _ _ _ Hs) as (r' & -> & R' & E' & V' & B' & O').
    { lia. }
    { pose proof (frags_not_nil _ _ _ _ _ Hf). by destruct d, e. }
    cbn [obind]. replace ((t =? kMiddleType) || (t =? kFirstType)) with true
      by (unfold t; by destruct first).
    match goal with |- context [read_loop fuel (segment + 1) 0 d ?s r'] => set (scr := s) end.
    assert (Hne' : drop (Z.to_nat (room bs off)) p <> [])
      by (intros E; apply (f_equal length) in E; rewrite length_drop in E;
          unfold zlen in *; simpl in E; lia).
    assert (Hfuel' : (length e < fuel)%nat)
      by (rewrite !length_app in Hfuel; pose proof (phys_type_zlen t d); unfold zlen in *; lia).
    assert (Hseg' : false = (segment + 1 =? 0)) by (symmetry; apply Z.eqb_neq; lia).
    assert (Hb1 : lr_block_size r' = bs) by congruence.
    assert (Hoff1 : lr_block_offset r' = bs) by (rewrite O', Ho', Hd; unfold room; lia).
    destruct (IH ltac:(lia) Hne' fuel (segment + 1) d scr r' _ rest Hfuel' ltac:(lia) Hseg'
                 Hb1 Hoff1 R')
      as (seg' & res' & scr' & r'' & EL & EJ & R2 & E2 & V2 & B2 & O2).
    exists seg', res', scr', r''. split; [exact EL|]. split_and!; [| | done | congruence | done | done].
    + rewrite EJ. destruct (Z.ltb_spec 0 (segment + 1)); [|lia].
      rewrite <- (take_drop (Z.to_nat (room bs off)) p) at 2. fold d. rewrite app_assoc.
      f_equal. f_equal. unfold scr.
      destruct (Z.eqb_spec (segment + 1) 1), (Z.ltb_spec 0 segment); try lia; done.
    + by rewrite <- !app_assoc in *.
Qed.

Lemma Read_frags off p e off' result scratch r pre rest :
  frags bs off true p e off' -> 0 <= off <= bs -> p <> [] ->
  lr_block_size r = bs -> lr_block_offset r = off ->
  reader_at (lr_reader r) pre (e ++ rest) -> fr_error (lr_reader r) <> kEOF ->
  exists scratch' r', Read result scratch r = Done (true, p, scratch', r') /\
    reader_at (lr_reader r') (pre ++ e) rest /\ fr_error (lr_reader r') = kOk /\
    lr_verify r' = lr_verify r /\ lr_block_size r' = bs /\ lr_block_offset r' = off'.
Proof.
  intros Hf Ho Hp Hb Hoff Hr He. unfold Read. rewrite bool_decide_eq_false_2 by done.
  edestruct (read_loop_frags _ _ _ _ _ Hf Ho Hp) with (segment := 0) (r := r)
    (fuel := S (length (sf_data (fr_file (lr_reader r)))))
    as (seg & res & scr & r' & -> & EJ & R' & E' & V' & B' & O'); [|lia|done..|].
  { destruct Hr as [-> _]. rewrite !length_app. lia. }
  cbn [obind]. simpl in EJ. unfold joined in EJ.
  destruct (1 <? seg); rewrite EJ; eexists _, _; split_and!; try reflexivity; done.
Qed.

Lemma Read_eof result scratch r pre :
  reader_at (lr_reader r) pre [] -> lr_block_size r = bs -> 0 <= lr_block_offset r <= bs ->
  fr_error (lr_reader r) <> kEOF ->
  exists r', Read result scratch r = Done (false, result, scratch, r') /\ lr_error r' = kEOF.
Proof.
  intros Hr Hb Ho He. unfold Read. rewrite bool_decide_eq_false_2 by done. cbn [read_loop].
  assert (reader_at (lr_reader (skip_pad r)) pre []) as Hr'.
  { unfold skip_pad. case_cmp; [|done]. simpl. case_cmp; [|done].
    unfold fr_Skip, seq_Skip. destruct Hr as [Hd Hp]. rewrite Hd, Hp, app_nil_r.
    destruct (Z.leb_spec (zlen pre) (zlen pre)); [|lia]. by split. }
  unfold ReadPhysicalRecord, fr_ReadFixed. rewrite (fr_Read_eof _ _ _ Hr').
  eexists. split; reflexivity.
Qed.

Lemma ReadAll_log off ps es :
  log bs off ps es -> 0 <= off <= bs -> Forall (fun p => p <> []) ps ->
  forall fuel result scratch r pre,
  (length ps < fuel)%nat -> lr_block_size r = bs -> lr_block_offset r = off ->
  reader_at (lr_reader r) pre es -> fr_error (lr_reader r) <> kEOF ->
  exists r', ReadAll fuel result scratch r = Done (ps, r') /\ lr_error r' = kEOF.
Proof.
  induction 1 as [off|off p e off' ps es Hf Hl IH]; intros Ho Hne fuel result scratch r pre
    Hfuel Hb Hoff Hr He; (destruct fuel as [|fuel]; [simpl in Hfuel; lia|]); cbn [ReadAll].
  - destruct (Read_eof result scratch r pre) as (r' & -> & E); [done..|lia|done|].
    cbn [obind]. eauto.
  - apply Forall_cons in Hne as [Hp Hps].
    destruct (Read_frags off p e off' result scratch r pre es)
      as (scr & r' & -> & R' & E' & V' & B' & O'); [done..|]. cbn [obind].
    destruct (IH (frags_off _ Hbs _ _ _ _ _ Ho Hf) Hps fuel p scr r' (pre ++ e))
      as (r'' & -> & E''); [simpl in Hfuel; lia | done.. | by rewrite E' |].
    cbn [obind]. eauto.
Qed.
End reader_format.

(** ** Whole logs *)

(** Appending several records, stopping at an error. *)
Fixpoint AppendAll {F} `{WritableFile F} (records : list bytes) (w : LogWriter F) :
    outcome (error * LogWriter F) :=
  match records with
  | [] => Done (kOk, w)
  | p :: ps =>
    (do! (rs, w) := Append p w in if ok rs then AppendAll ps w else Done (rs, w))%out
  end.

Lemma AppendAll_log {F} `{WritableFileLaws F, !ReliableFile F} bs ps (w : LogWriter F) :
  7 < bs <= 65535 + 7 -> lw_block_size w = bs -> 0 <= lw_block_offset w <= bs ->
  exists es w', AppendAll ps w = Done (kOk, w') /\ log bs (lw_block_offset w) ps es /\
    contents (fw_file (lw_writer w')) = contents (fw_file (lw_writer w)) ++ es.
Proof.
  intros Hbs. revert w. induction ps as [|p ps IH]; intros w Hw Ho; cbn [AppendAll].
  - exists [], w. split_and!; [done | constructor | by rewrite app_nil_r].
  - destruct (Append_frags bs Hbs p w Hw Ho) as (e & w1 & -> & Hf & Hc & Hs). cbn [obind ok].
    destruct (IH w1 Hs (frags_off _ Hbs _ _ _ _ _ Ho Hf)) as (es & w' & E & Hl & Hc').
    exists (e ++ es), w'. split_and!; [exact E | by eapply log_cons |].
    by rewrite Hc', Hc, <- app_assoc.
Qed.

(** *** Files that fail *)

Section any_file.
Context {F : Type} `{!WritableFile F}.

Lemma EmitPhysicalRecord_off d t (w : LogWriter F) :
  exists w', EmitPhysicalRecord d t w = (kOk, w') /\ lw_block_size w' = lw_block_size w /\
    lw_block_offset w' = lw_block_offset w + (7 + zlen d).
Proof.
  unfold EmitPhysicalRecord.
  repeat match goal with |- context [let '(_, _) := ?x in _] => destruct x end. eauto.
Qed.

Lemma next_block_off bs (w : LogWriter F) :
  7 < bs <= 65535 + 7 -> lw_block_size w = bs -> 0 <= lw_block_offset w <= bs ->
  lw_block_size (next_block w) = bs /\
  lw_block_offset (next_block w) = base bs (lw_block_offset w).
Proof.
  intros Hbs Hw Ho. unfold next_block, base. rewrite Hw, wrap_small by (unfold is_u; lia).
  change kHeaderSize with 7. by destruct (Z.ltb_spec (bs - lw_block_offset w) 7).
Qed.

Lemma append_loop_total bs fuel p first (w : LogWriter F) :
  7 < bs <= 65535 + 7 -> lw_block_size w = bs -> 0 <= lw_block_offset w <= bs ->
  (2 * length p + (if (room bs (lw_block_offset w) =? 0)%Z then 1 else 0) < fuel)%nat ->
  exists w', append_loop fuel p first w = Done (kOk, w').
Proof.
  intros Hbs. revert p first w. induction fuel as [|fuel IH]; intros p first w Hw Ho Hf; [lia|].
  destruct (next_block_off bs w Hbs Hw Ho) as (N2 & N3).
  destruct (room_bound bs Hbs _ Ho) as [Hb Hr]. pose proof (zlen_nonneg p) as Hp0.
  cbn [append_loop]. rewrite N2, N3. change kHeaderSize with 7.
  assert (wrap 64 (bs - base bs (lw_block_offset w) - 7) = room bs (lw_block_offset w)) as ->
    by (unfold room; rewrite wrap_small; unfold is_u; lia).
  set (r := room bs (lw_block_offset w)) in *.
  set (n := if zlen p <? r then zlen p else r).
  match goal with |- context [EmitPhysicalRecord ?d ?t ?w] =>
    destruct (EmitPhysicalRecord_off d t w) as (w1 & -> & S1 & O1) end. cbn [ok andb].
  destruct (Z.ltb_spec 0 (zlen (drop (Z.to_nat n) p))) as [Hlt|]; [|eauto].
  unfold zlen in Hlt. rewrite length_drop in Hlt.
  assert (n = r) as Hn by (unfold n, zlen in *; case_cmps). rewrite Hn in *.
  assert (lw_block_offset w1 = bs) as Ho1.
  { rewrite O1, N3. unfold zlen. rewrite length_take. unfold r, room in *. lia. }
  apply IH; [congruence | lia |]. rewrite Ho1, length_drop. unfold room, base.
  rewrite Z.sub_diag. simpl. destruct (Z.eqb_spec (bs - 0 - 7) 0); [lia|].
  destruct (Z.eqb_spec r 0); lia.
Qed.
End any_file.

(** ** Properties *)

(** C34: what [LogWriter] appends to an empty file, [LogReader] with the same
    block size reads back: every non-empty record, in order, whole, and then
    the end of the file; both sides terminate. *)
Theorem WAL_roundtrip {F} `{WritableFileLaws F, !ReliableFile F} bs verify records (f : F) :
  7 < bs <= 65535 + 7 -> contents f = [] -> Forall (fun p => p <> []) records ->
  exists w r, AppendAll records (NewLogWriter f bs) = Done (kOk, w) /\
    ReadAll (S (length records)) [] []
      (NewLogReader (mkSeq (contents (fw_file (lw_writer w))) 0) verify bs) = Done (records, r) /\
    lr_error r = kEOF.
Proof.
  intros Hbs Hf Hne.
  destruct (AppendAll_log bs records (NewLogWriter f bs)) as (es & w & E & Hl & Hc);
    [done | done | simpl; lia |].
  destruct (ReadAll_log bs Hbs _ _ _ Hl ltac:(simpl; lia) Hne (S (length records)) [] []
    (NewLogReader (mkSeq (contents (fw_file (lw_writer w))) 0) verify bs) [])
    as (r & Hr & He); [lia | done | done | | done |].
  { split; [|done]. simpl. by rewrite Hc; simpl; rewrite Hf. }
  eauto.
Qed.

Lemma WAL_roundtrip_witness :
  exists w r,
    AppendAll [[1; 2; 3]; replicate 40 7] (NewLogWriter (mkBuf (mkMem []) []) 16) = Done (kOk, w) /\
    ReadAll 3 [] [] (NewLogReader (mkSeq (contents (fw_file (lw_writer w))) 0) true 16)
      = Done ([[1; 2; 3]; replicate 40 7], r) /\ lr_error r = kEOF.
Proof.
  apply (WAL_roundtrip 16 true [[1; 2; 3]; replicate 40 7] (mkBuf (mkMem []) []));
    [lia | reflexivity | by repeat constructor].
Defined.

(** C35: [LogWriter::Append] always terminates and always reports success,
    also when every write to its file fails. *)
Theorem WAL_append_ignores_errors {F} `{WritableFile F} bs record (w : LogWriter F) :
  7 < bs <= 65535 + 7 -> lw_block_size w = bs -> 0 <= lw_block_offset w <= bs ->
  exists w', Append record w = Done (kOk, w').
Proof.
  intros Hbs Hw Ho. apply (append_loop_total bs); [done..|]. destruct (_ =? 0); lia.
Qed.

Lemma WAL_append_ignores_errors_witness :
  exists w', Append [1; 2] (NewLogWriter (mkPosix [] 0 (replicate 4 WFail)) 4096) = Done (kOk, w').
Proof. apply (WAL_append_ignores_errors 4096); [lia | reflexivity | simpl; lia]. Defined.

(** The manifest is written with the option's block size (4096 by default)
    and read with [kDefaultBlockSize]: once a block of the writer ends in
    padding, the reader loses the rest. *)
Example WAL_block_size_mismatch :
  let records := [replicate (4096 - 7 - 3) 1; [2; 2]] in
  exists w r, AppendAll records (NewLogWriter (mkMem []) 4096) = Done (kOk, w) /\
    ReadAll 5 [] [] (NewLogReader (mkSeq (mem_data (fw_file (lw_writer w))) 0) true kDefaultBlockSize)
      = Done ([replicate (4096 - 7 - 3) 1], r) /\ lr_error r = kIOError.
Proof.
  eexists _, _. split; [vm_compute; reflexivity|]. split; [vm_compute; reflexivity|reflexivity].
Qed.

(** A writer on a file that is not empty starts at offset 0 of a block and a
    reader of the file does not: of two records written with the file reopened
    between them, the reader finds the first and a bad checksum. *)
Example reopened_log_misread :
  let append p f := match AppendAll [p] (NewLogWriter f 32) with Done (_, w) => fw_file (lw_writer w) | _ => f end in
  let f := append (replicate 10 5) (append (replicate 19 1) (mkMem [])) in
  match ReadAll 5 [] [] (NewLogReader (mkSeq (contents f) 0) true 32) with
  | Done (records, r) => records = [replicate 19 1] /\ lr_error r = kIOError
  | _ => False
  end.
Proof. by vm_compute. Qed.
