(* ===== verification/Patch.v ===== *)
(** * Patch

    [VersionPatch] of src/db/version.{h,cc}: an edit of the set of versions,
    the record of the manifest.  [fields_] is the bit set of the fields that
    are present; [Encode] writes the present ones in a fixed order, [Decode]
    reads items in any order. *)

From S2P Require Import Prelude Varint Slice.

Record FileMetaData := mkFile {
  number : Z; smallest_key : bytes; largest_key : bytes; size : Z; ctime : Z
}.

#[global] Instance FileMetaData_eq_dec : EqDecision FileMetaData.
Proof. solve_decision. Defined.

(** [Field], in the order of [VERSION_FIELDS]. *)
Definition kLastSequenceNumber : Z := 0.
Definition kNextFileNumber : Z := 1.
Definition kRedoLogNumber : Z := 2.
Definition kRedoLog : Z := 3.
Definition kPrevLogNumber : Z := 4.
Definition kCompactionPoint : Z := 5.
Definition kDeletion : Z := 6.
Definition kCreation : Z := 7.
Definition kMaxColumnFamily : Z := 8.
Definition kAddColumnFamily : Z := 9.
Definition kDropColumnFamily : Z := 10.

Record RedoLog := mkRedoLog { rl_cfid : Z; rl_number : Z }.
Record CompactionPoint := mkPoint { cp_cfid : Z; cp_level : Z; cp_key : bytes }.
Record CFCreation := mkCF { cc_cfid : Z; cc_name : bytes; cc_comparator_name : bytes }.
Record FileDeletion := mkDel { fd_cfid : Z; fd_level : Z; fd_number : Z }.
Record FileCreation := mkCre { fc_cfid : Z; fc_level : Z; fc_file : FileMetaData }.

Record VersionPatch := mkPatch {
  fields_ : Z;
  max_column_family_ : Z;
  cf_deletion_ : Z;
  cf_creation_ : CFCreation;
  last_sequence_number_ : Z;
  next_file_number_ : Z;
  redo_log_ : RedoLog;
  prev_log_number_ : Z;
  compaction_point_ : CompactionPoint;
  redo_log_number_ : Z;
  file_creation_ : list FileCreation;
  file_deletion_ : list FileDeletion
}.

Definition has_field (f : Z) (p : VersionPatch) : bool := Z.testbit (fields_ p) f.
Definition set_field (f : Z) (fields : Z) : Z := Z.lor fields (Z.shiftl 1 f).

(** The setters of the header. *)
Definition SetLastSequenceNumber (v : Z) (p : VersionPatch) : VersionPatch :=
  mkPatch (set_field kLastSequenceNumber (fields_ p)) (max_column_family_ p) (cf_deletion_ p)
    (cf_creation_ p) v (next_file_number_ p) (redo_log_ p) (prev_log_number_ p)
    (compaction_point_ p) (redo_log_number_ p) (file_creation_ p) (file_deletion_ p).
Definition SetNextFileNumber (v : Z) (p : VersionPatch) : VersionPatch :=
  mkPatch (set_field kNextFileNumber (fields_ p)) (max_column_family_ p) (cf_deletion_ p)
    (cf_creation_ p) (last_sequence_number_ p) v (redo_log_ p) (prev_log_number_ p)
    (compaction_point_ p) (redo_log_number_ p) (file_creation_ p) (file_deletion_ p).
Definition SetRedoLogNumber (v : Z) (p : VersionPatch) : VersionPatch :=
  mkPatch (set_field kRedoLogNumber (fields_ p)) (max_column_family_ p) (cf_deletion_ p)
    (cf_creation_ p) (last_sequence_number_ p) (next_file_number_ p) (redo_log_ p)
    (prev_log_number_ p) (compaction_point_ p) v (file_creation_ p) (file_deletion_ p).
Definition SetRedoLog (cfid v : Z) (p : VersionPatch) : VersionPatch :=
  mkPatch (set_field kRedoLog (fields_ p)) (max_column_family_ p) (cf_deletion_ p)
    (cf_creation_ p) (last_sequence_number_ p) (next_file_number_ p) (mkRedoLog cfid v)
    (prev_log_number_ p) (compaction_point_ p) (redo_log_number_ p) (file_creation_ p)
    (file_deletion_ p).
Definition SetPrevLogNumber (v : Z) (p : VersionPatch) : VersionPatch :=
  mkPatch (set_field kPrevLogNumber (fields_ p)) (max_column_family_ p) (cf_deletion_ p)
    (cf_creation_ p) (last_sequence_number_ p) (next_file_number_ p) (redo_log_ p) v
    (compaction_point_ p) (redo_log_number_ p) (file_creation_ p) (file_deletion_ p).
Definition SetMaxColumnFamily (v : Z) (p : VersionPatch) : VersionPatch :=
  mkPatch (set_field kMaxColumnFamily (fields_ p)) v (cf_deletion_ p)
    (cf_creation_ p) (last_sequence_number_ p) (next_file_number_ p) (redo_log_ p)
    (prev_log_number_ p) (compaction_point_ p) (redo_log_number_ p) (file_creation_ p)
    (file_deletion_ p).
Definition SetCompactionPoint (cfid level : Z) (key : bytes) (p : VersionPatch) : VersionPatch :=
  mkPatch (set_field kCompactionPoint (fields_ p)) (max_column_family_ p) (cf_deletion_ p)
    (cf_creation_ p) (last_sequence_number_ p) (next_file_number_ p) (redo_log_ p)
    (prev_log_number_ p) (mkPoint cfid level key) (redo_log_number_ p) (file_creation_ p)
    (file_deletion_ p).
Definition DeleteFile (cfid level n : Z) (p : VersionPatch) : VersionPatch :=
  mkPatch (set_field kDeletion (fields_ p)) (max_column_family_ p) (cf_deletion_ p)
    (cf_creation_ p) (last_sequence_number_ p) (next_file_number_ p) (redo_log_ p)
    (prev_log_number_ p) (compaction_point_ p) (redo_log_number_ p) (file_creation_ p)
    (file_deletion_ p ++ [mkDel cfid level n]).
Definition CreateFile (cfid level : Z) (fmd : FileMetaData) (p : VersionPatch) : VersionPatch :=
  mkPatch (set_field kCreation (fields_ p)) (max_column_family_ p) (cf_deletion_ p)
    (cf_creation_ p) (last_sequence_number_ p) (next_file_number_ p) (redo_log_ p)
    (prev_log_number_ p) (compaction_point_ p) (redo_log_number_ p)
    (file_creation_ p ++ [mkCre cfid level fmd]) (file_deletion_ p).
Definition DropColumnFamily (cfid : Z) (p : VersionPatch) : VersionPatch :=
  mkPatch (set_field kDropColumnFamily (fields_ p)) (max_column_family_ p) cfid
    (cf_creation_ p) (last_sequence_number_ p) (next_file_number_ p) (redo_log_ p)
    (prev_log_number_ p) (compaction_point_ p) (redo_log_number_ p) (file_creation_ p)
    (file_deletion_ p).
Definition AddColumnFamily (name : bytes) (cfid : Z) (cmp : bytes) (p : VersionPatch) :
    VersionPatch :=
  mkPatch (set_field kAddColumnFamily (fields_ p)) (max_column_family_ p) (cf_deletion_ p)
    (mkCF cfid name cmp) (last_sequence_number_ p) (next_file_number_ p) (redo_log_ p)
    (prev_log_number_ p) (compaction_point_ p) (redo_log_number_ p) (file_creation_ p)
    (file_deletion_ p).

(** [Reset]: the fields and the two collections; the scalars keep their old
    values. *)
Definition Reset (p : VersionPatch) : VersionPatch :=
  mkPatch 0 (max_column_family_ p) (cf_deletion_ p) (cf_creation_ p) (last_sequence_number_ p)
    (next_file_number_ p) (redo_log_ p) (prev_log_number_ p) (compaction_point_ p)
    (redo_log_number_ p) [] [].

(** A new patch; the scalars are indeterminate, here zero. *)
Definition NewVersionPatch : VersionPatch :=
  mkPatch 0 0 0 (mkCF 0 [] []) 0 0 (mkRedoLog 0 0) 0 (mkPoint 0 0 []) 0 [] [].

Definition encode_creation (c : FileCreation) : bytes :=
  GetByte kCreation ++ GetV32 (fc_cfid c) ++ GetV32 (wrap 32 (fc_level c)) ++
  GetV64 (number (fc_file c)) ++ GetString (largest_key (fc_file c)) ++
  GetString (smallest_key (fc_file c)) ++ GetV64 (size (fc_file c)) ++ GetV64 (ctime (fc_file c)).

Definition encode_deletion (d : FileDeletion) : bytes :=
  GetByte kDeletion ++ GetV32 (fd_cfid d) ++ GetV32 (wrap 32 (fd_level d)) ++ GetV64 (fd_number d).

Definition Encode (p : VersionPatch) : bytes :=
  (if has_field kPrevLogNumber p then GetByte kPrevLogNumber ++ GetV64 (prev_log_number_ p) else []) ++
  (if has_field kRedoLog p then
     GetByte kRedoLog ++ GetV32 (rl_cfid (redo_log_ p)) ++ GetV64 (rl_number (redo_log_ p))
   else []) ++
  (if has_field kNextFileNumber p then
     GetByte kNextFileNumber ++ GetV64 (next_file_number_ p) else []) ++
  (if has_field kLastSequenceNumber p then
     GetByte kLastSequenceNumber ++ GetV64 (last_sequence_number_ p) else []) ++
  (if has_field kRedoLogNumber p then
     GetByte kRedoLogNumber ++ GetV64 (redo_log_number_ p) else []) ++
  (if has_field kMaxColumnFamily p then
     GetByte kMaxColumnFamily ++ GetV32 (max_column_family_ p) else []) ++
  (if has_field kAddColumnFamily p then
     GetByte kAddColumnFamily ++ GetV32 (cc_cfid (cf_creation_ p)) ++
     GetString (cc_name (cf_creation_ p)) ++ GetString (cc_comparator_name (cf_creation_ p))
   else []) ++
  (if has_field kDropColumnFamily p then
     GetByte kDropColumnFamily ++ GetV64 (cf_deletion_ p) else []) ++
  (if has_field kCompactionPoint p then
     GetByte kCompactionPoint ++ GetV32 (cp_cfid (compaction_point_ p)) ++
     GetV32 (wrap 32 (cp_level (compaction_point_ p))) ++ GetString (cp_key (compaction_point_ p))
   else []) ++
  (if has_field kCreation p then concat (map encode_creation (file_creation_ p)) else []) ++
  (if has_field kDeletion p then concat (map encode_deletion (file_deletion_ p)) else []).

(** One turn of [Decode] after the field byte; an unknown field is skipped
    ([DLOG(FATAL)] is a debug check). *)
Definition decode_field (f : Z) (p : VersionPatch) : BR VersionPatch :=
  (if f =? kPrevLogNumber then let! n := ReadVarint64 in br_ret (SetPrevLogNumber n p)
   else if f =? kRedoLog then
     let! cfid := ReadVarint32 in let! n := ReadVarint64 in br_ret (SetRedoLog cfid n p)
   else if f =? kNextFileNumber then let! n := ReadVarint64 in br_ret (SetNextFileNumber n p)
   else if f =? kMaxColumnFamily then let! n := ReadVarint32 in br_ret (SetMaxColumnFamily n p)
   else if f =? kLastSequenceNumber then
     let! n := ReadVarint64 in br_ret (SetLastSequenceNumber n p)
   else if f =? kRedoLogNumber then let! n := ReadVarint64 in br_ret (SetRedoLogNumber n p)
   else if f =? kCompactionPoint then
     let! cfid := ReadVarint32 in let! level := ReadVarint32 in let! key := ReadString in
     br_ret (SetCompactionPoint cfid (sgn 32 level) key p)
   else if f =? kAddColumnFamily then
     let! cfid := ReadVarint32 in let! name := ReadString in let! cmp := ReadString in
     br_ret (AddColumnFamily name cfid cmp p)
   else if f =? kDropColumnFamily then
     let! cfid := ReadVarint32 in br_ret (DropColumnFamily cfid p)
   else if f =? kDeletion then
     let! cfid := ReadVarint32 in let! level := ReadVarint32 in let! n := ReadVarint64 in
     br_ret (DeleteFile cfid (sgn 32 level) n p)
   else if f =? kCreation then
     let! cfid := ReadVarint32 in let! level := ReadVarint32 in let! n := ReadVarint64 in
     let! largest := ReadString in let! smallest := ReadString in
     let! sz := ReadVarint64 in let! ct := ReadVarint64 in
     br_ret (CreateFile cfid (sgn 32 level) (mkFile n smallest largest sz ct) p)
   else br_ret p)%br.

(** Every turn reads at least the field byte. *)
Fixpoint decode_loop (fuel : nat) (p : VersionPatch) (r : BufferReader) : option VersionPatch :=
  if Eof r then Some p
  else match fuel with
  | O => None
  | S fuel =>
    '(p, r) ← (let! f := ReadByte in decode_field f p)%br r; decode_loop fuel p r
  end.

(** [Decode(buf)] into the patch [p]. *)
Definition Decode (buf : bytes) (p : VersionPatch) : option VersionPatch :=
  decode_loop (length buf) p {| buf_ := buf; position_ := 0 |}.

(** ** Calls of the setters *)

Inductive item :=
  | ILast (v : Z) | INext (v : Z) | IRedoNumber (v : Z) | IRedoLog (cfid v : Z) | IPrev (v : Z)
  | IPoint (cfid level : Z) (key : bytes) | IDeletion (d : FileDeletion)
  | ICreation (c : FileCreation) | IMax (v : Z) | IAdd (name : bytes) (cfid : Z) (cmp : bytes)
  | IDrop (cfid : Z).

Definition apply_item (p : VersionPatch) (i : item) : VersionPatch :=
  match i with
  | ILast v => SetLastSequenceNumber v p
  | INext v => SetNextFileNumber v p
  | IRedoNumber v => SetRedoLogNumber v p
  | IRedoLog cfid v => SetRedoLog cfid v p
  | IPrev v => SetPrevLogNumber v p
  | IPoint cfid level key => SetCompactionPoint cfid level key p
  | IDeletion d => DeleteFile (fd_cfid d) (fd_level d) (fd_number d) p
  | ICreation c => CreateFile (fc_cfid c) (fc_level c) (fc_file c) p
  | IMax v => SetMaxColumnFamily v p
  | IAdd name cfid cmp => AddColumnFamily name cfid cmp p
  | IDrop cfid => DropColumnFamily cfid p
  end.

Definition is_i32 (x : Z) : Prop := - 2 ^ 31 <= x < 2 ^ 31.

(** The arguments are in the range of their C++ types. *)
Definition item_ok (i : item) : Prop :=
  match i with
  | ILast v | INext v | IRedoNumber v | IPrev v => is_u 64 v
  | IRedoLog cfid v => is_u 32 cfid /\ is_u 64 v
  | IPoint cfid level _ => is_u 32 cfid /\ is_i32 level
  | IDeletion d => is_u 32 (fd_cfid d) /\ is_i32 (fd_level d) /\ is_u 64 (fd_number d)
  | ICreation c => is_u 32 (fc_cfid c) /\ is_i32 (fc_level c) /\ is_u 64 (number (fc_file c)) /\
      is_u 64 (size (fc_file c)) /\ is_u 64 (ctime (fc_file c))
  | IMax v | IDrop v => is_u 32 v
  | IAdd _ cfid _ => is_u 32 cfid
  end.

Definition encode_item (i : item) : bytes :=
  match i with
  | ILast v => GetByte kLastSequenceNumber ++ GetV64 v
  | INext v => GetByte kNextFileNumber ++ GetV64 v
  | IRedoNumber v => GetByte kRedoLogNumber ++ GetV64 v
  | IRedoLog cfid v => GetByte kRedoLog ++ GetV32 cfid ++ GetV64 v
  | IPrev v => GetByte kPrevLogNumber ++ GetV64 v
  | IPoint cfid level key =>
      GetByte kCompactionPoint ++ GetV32 cfid ++ GetV32 (wrap 32 level) ++ GetString key
  | IDeletion d => encode_deletion d
  | ICreation c => encode_creation c
  | IMax v => GetByte kMaxColumnFamily ++ GetV32 v
  | IAdd name cfid cmp =>
      GetByte kAddColumnFamily ++ GetV32 cfid ++ GetString name ++ GetString cmp
  | IDrop cfid => GetByte kDropColumnFamily ++ GetV64 cfid
  end.

(** The present fields of a patch, in the order of [Encode]. *)
Definition when (f : Z) (p : VersionPatch) (is_ : list item) : list item :=
  if has_field f p then is_ else [].

Definition items (p : VersionPatch) : list item :=
  when kPrevLogNumber p [IPrev (prev_log_number_ p)] ++
  when kRedoLog p [IRedoLog (rl_cfid (redo_log_ p)) (rl_number (redo_log_ p))] ++
  when kNextFileNumber p [INext (next_file_number_ p)] ++
  when kLastSequenceNumber p [ILast (last_sequence_number_ p)] ++
  when kRedoLogNumber p [IRedoNumber (redo_log_number_ p)] ++
  when kMaxColumnFamily p [IMax (max_column_family_ p)] ++
  when kAddColumnFamily p
    [IAdd (cc_name (cf_creation_ p)) (cc_cfid (cf_creation_ p)) (cc_comparator_name (cf_creation_ p))] ++
  when kDropColumnFamily p [IDrop (cf_deletion_ p)] ++
  when kCompactionPoint p
    [IPoint (cp_cfid (compaction_point_ p)) (cp_level (compaction_point_ p)) (cp_key (compaction_point_ p))] ++
  when kCreation p (map ICreation (file_creation_ p)) ++
  when kDeletion p (map IDeletion (file_deletion_ p)).

Lemma encode_when f p is_ :
  concat (map encode_item (when f p is_)) =
  if has_field f p then concat (map encode_item is_) else [].
Proof. unfold when. by destruct (has_field f p). Qed.

Lemma Encode_items p : Encode p = concat (map encode_item (items p)).
Proof.
  unfold Encode, items. rewrite !map_app, !concat_app, !encode_when, !map_map.
  cbn [map concat encode_item]. rewrite !app_nil_r. reflexivity.
Qed.

Lemma sgn_wrap32 x : is_i32 x -> sgn 32 (wrap 32 x) = x.
Proof.
  unfold is_i32, sgn, wrap. intros Hx. rewrite Z.mod_mod by lia. change (32 - 1) with 31.
  destruct (Z.lt_ge_cases x 0).
  - assert (x mod 2 ^ 32 = x + 2 ^ 32) as ->
      by (symmetry; apply Z.mod_unique with (-1); lia).
    destruct (Z.ltb_spec (x + 2 ^ 32) (2 ^ 31)); lia.
  - rewrite Z.mod_small by lia. destruct (Z.ltb_spec x (2 ^ 31)); lia.
Qed.

Lemma field_at pre f rest :
  is_u 8 f -> in_memory (pre ++ GetByte f ++ rest) ->
  ReadByte (at_ pre (GetByte f ++ rest)) = Some (f, at_ (pre ++ GetByte f) rest).
Proof. intros Hf Hm. by rewrite GetByte_at, wrap_small. Qed.

(** One read of [decode_field], and the choice of its branch. *)
Ltac read_step Hm L :=
  erewrite br_bind_Some by (apply L; solve [exact Hm | auto with mai | eauto | by apply wrap_is_u]);
  rewrite app_assoc in Hm.

Ltac choose_field :=
  unfold decode_field;
  repeat match goal with
  | |- context [?a =? ?b] => let v := eval vm_compute in (a =? b) in change (a =? b) with v
  end; cbv iota.

Lemma GetV64_V32 v : is_u 32 v -> GetV64 v = GetV32 v.
Proof. intros Hv. unfold GetV64, GetV32. by rewrite Encode32_64. Qed.

Lemma decode_item_at i pre rest p :
  item_ok i -> in_memory (pre ++ encode_item i ++ rest) ->
  (let! f := ReadByte in decode_field f p)%br (at_ pre (encode_item i ++ rest)) =
  Some (apply_item p i, at_ (pre ++ encode_item i) rest).
Proof.
  destruct i; cbn [item_ok encode_item]; unfold encode_creation, encode_deletion;
    intros Hi Hm; repeat rewrite <- app_assoc in *; destruct_and?;
    (erewrite br_bind_Some by (apply field_at; [by apply (bool_decide_unpack (is_u 8 _)) | exact Hm]));
    rewrite app_assoc in Hm; choose_field;
    rewrite ?GetV64_V32 in * by done;
    repeat first [read_step Hm ReadVarint64_at | read_step Hm ReadVarint32_at
                 | read_step Hm ReadString_at];
    unfold br_ret; rewrite ?sgn_wrap32 by done; try destruct c as [? ? []]; by rewrite <- ?app_assoc.
Qed.

Lemma encode_item_not_nil i : encode_item i <> [].
Proof. by destruct i. Qed.

Lemma decode_loop_at is_ pre fuel p :
  Forall item_ok is_ -> in_memory (pre ++ concat (map encode_item is_)) ->
  (length (concat (map encode_item is_)) <= fuel)%nat ->
  decode_loop fuel p (at_ pre (concat (map encode_item is_))) = Some (fold_left apply_item is_ p).
Proof.
  intros His. revert pre fuel p. induction His as [|i is_ Hi His IH]; intros pre fuel p Hm Hf.
  - destruct fuel; simpl; by rewrite Eof_at, bool_decide_eq_true_2.
  - cbn [map concat fold_left] in *. pose proof (encode_item_not_nil i) as Hne.
    rewrite length_app in Hf.
    destruct fuel as [|fuel]; [destruct (encode_item i); simpl in Hf; [done | lia]|].
    cbn [decode_loop]. rewrite Eof_at, bool_decide_eq_false_2
      by (intros E; apply Hne; by apply app_eq_nil in E as [? _]).
    rewrite decode_item_at by done. cbn [mbind option_bind]. apply IH.
    + by rewrite <- app_assoc.
    + destruct (encode_item i); simpl in Hf; [done | lia].
Qed.

Lemma Decode_items is_ p :
  Forall item_ok is_ -> in_memory (concat (map encode_item is_)) ->
  Decode (concat (map encode_item is_)) p = Some (fold_left apply_item is_ p).
Proof. intros Hi Hm. by apply (decode_loop_at is_ []). Qed.

(** ** Well-formed patches *)

Definition creation_ok (c : FileCreation) : Prop := item_ok (ICreation c).
Definition deletion_ok (d : FileDeletion) : Prop := item_ok (IDeletion d).

(** The values fit their types, and both collections are non-empty exactly
    when their field is present. *)
Record patch_wf (p : VersionPatch) : Prop := {
  wf_fields n : has_field n p = true -> 0 <= n <= 10;
  wf_creation : has_field kCreation p = negb (bool_decide (file_creation_ p = []));
  wf_deletion : has_field kDeletion p = negb (bool_decide (file_deletion_ p = []));
  wf_scalars : is_u 32 (max_column_family_ p) /\ is_u 32 (cf_deletion_ p) /\
    is_u 32 (cc_cfid (cf_creation_ p)) /\ is_u 64 (last_sequence_number_ p) /\
    is_u 64 (next_file_number_ p) /\ is_u 32 (rl_cfid (redo_log_ p)) /\
    is_u 64 (rl_number (redo_log_ p)) /\ is_u 64 (prev_log_number_ p) /\
    is_u 32 (cp_cfid (compaction_point_ p)) /\ is_i32 (cp_level (compaction_point_ p)) /\
    is_u 64 (redo_log_number_ p);
  wf_creations : Forall creation_ok (file_creation_ p);
  wf_deletions : Forall deletion_ok (file_deletion_ p);
}.

Lemma testbit_set_field f x n : 0 <= f -> Z.testbit (set_field f x) n = Z.testbit x n || (n =? f).
Proof.
  intros Hf. unfold set_field. rewrite Z.lor_spec. f_equal.
  destruct (Z.lt_ge_cases n 0).
  - rewrite Z.testbit_neg_r by lia. symmetry. apply Z.eqb_neq. lia.
  - rewrite Z.shiftl_mul_pow2, Z.mul_1_l, Z.pow2_bits_eqb by done. apply Z.eqb_sym.
Qed.

(** The field a call sets. *)
Definition item_field (i : item) : Z :=
  match i with
  | ILast _ => kLastSequenceNumber | INext _ => kNextFileNumber | IRedoNumber _ => kRedoLogNumber
  | IRedoLog _ _ => kRedoLog | IPrev _ => kPrevLogNumber | IPoint _ _ _ => kCompactionPoint
  | IDeletion _ => kDeletion | ICreation _ => kCreation | IMax _ => kMaxColumnFamily
  | IAdd _ _ _ => kAddColumnFamily | IDrop _ => kDropColumnFamily
  end.

Lemma item_field_range i : 0 <= item_field i <= 10.
Proof. by destruct i. Qed.

Lemma has_field_apply n p i : has_field n (apply_item p i) = has_field n p || (n =? item_field i).
Proof. unfold has_field. destruct i; by apply testbit_set_field. Qed.

Lemma snoc_not_nil {A} (l : list A) x : bool_decide (l ++ [x] = []) = false.
Proof. apply bool_decide_eq_false_2. by destruct l. Qed.

Lemma apply_item_wf p i : patch_wf p -> item_ok i -> patch_wf (apply_item p i).
Proof.
  intros [Hf Hc Hd Hs Hcs Hds] Hi. pose proof (item_field_range i). constructor.
  - intros n. rewrite has_field_apply, orb_true_iff, Z.eqb_eq. intros [?| ->]; auto.
  - rewrite has_field_apply, Hc.
    destruct i; cbn -[Z.eqb]; rewrite ?snoc_not_nil; cbn; by rewrite ?orb_false_r, ?orb_true_r.
  - rewrite has_field_apply, Hd.
    destruct i; cbn -[Z.eqb]; rewrite ?snoc_not_nil; cbn; by rewrite ?orb_false_r, ?orb_true_r.
  - destruct i; cbn [item_ok] in Hi; cbn; tauto.
  - destruct i; cbn; try done. apply Forall_app. split; [done|]. apply Forall_singleton.
    by destruct c.
  - destruct i; cbn; try done. apply Forall_app. split; [done|]. apply Forall_singleton.
    by destruct d.
Qed.

Lemma NewVersionPatch_wf : patch_wf NewVersionPatch.
Proof.
  constructor; try done.
  - intros n. unfold has_field. cbn. by rewrite Z.bits_0.
Qed.

Lemma fold_items_wf is_ p : patch_wf p -> Forall item_ok is_ -> patch_wf (fold_left apply_item is_ p).
Proof.
  intros Hp His. revert p Hp. induction His; intros p Hp; [done|]. apply IHHis. by apply apply_item_wf.
Qed.

Lemma items_ok p : patch_wf p -> Forall item_ok (items p).
Proof.
  intros [_ _ _ (H1 & H2 & H3 & H4 & H5 & H6 & H7 & H8 & H9 & H10 & H11) Hcs Hds].
  assert (Hw : forall f l, Forall item_ok l -> Forall item_ok (when f p l))
    by (intros f l Hl; unfold when; by destruct (has_field f p)).
  unfold items. repeat apply Forall_app_2; apply Hw;
    try (apply Forall_singleton; cbn [item_ok]; done); by apply Forall_map.
Qed.

(** Patches that agree on what is present. *)
Record same_patch (p q : VersionPatch) : Prop := {
  same_fields n : has_field n p = has_field n q;
  same_prev : has_field kPrevLogNumber p = true -> prev_log_number_ p = prev_log_number_ q;
  same_redo_log : has_field kRedoLog p = true -> redo_log_ p = redo_log_ q;
  same_next : has_field kNextFileNumber p = true -> next_file_number_ p = next_file_number_ q;
  same_last : has_field kLastSequenceNumber p = true ->
    last_sequence_number_ p = last_sequence_number_ q;
  same_redo : has_field kRedoLogNumber p = true -> redo_log_number_ p = redo_log_number_ q;
  same_max : has_field kMaxColumnFamily p = true -> max_column_family_ p = max_column_family_ q;
  same_add : has_field kAddColumnFamily p = true -> cf_creation_ p = cf_creation_ q;
  same_drop : has_field kDropColumnFamily p = true -> cf_deletion_ p = cf_deletion_ q;
  same_point : has_field kCompactionPoint p = true -> compaction_point_ p = compaction_point_ q;
  same_creation : file_creation_ p = file_creation_ q;
  same_deletion : file_deletion_ p = file_deletion_ q;
}.

Lemma fold_creations l q :
  fold_left apply_item (map ICreation l) q =
  mkPatch (if bool_decide (l = []) then fields_ q else set_field kCreation (fields_ q))
    (max_column_family_ q) (cf_deletion_ q) (cf_creation_ q) (last_sequence_number_ q)
    (next_file_number_ q) (redo_log_ q) (prev_log_number_ q) (compaction_point_ q)
    (redo_log_number_ q) (file_creation_ q ++ l) (file_deletion_ q).
Proof.
  revert q. induction l as [|[cfid level f] l IH]; intros q; simpl.
  - rewrite app_nil_r. by destruct q.
  - rewrite IH. cbn. rewrite <- app_assoc. f_equal. destruct l; cbn; [done|].
    unfold set_field. rewrite <- Z.lor_assoc. by rewrite Z.lor_diag.
Qed.

Lemma fold_deletions l q :
  fold_left apply_item (map IDeletion l) q =
  mkPatch (if bool_decide (l = []) then fields_ q else set_field kDeletion (fields_ q))
    (max_column_family_ q) (cf_deletion_ q) (cf_creation_ q) (last_sequence_number_ q)
    (next_file_number_ q) (redo_log_ q) (prev_log_number_ q) (compaction_point_ q)
    (redo_log_number_ q) (file_creation_ q) (file_deletion_ q ++ l).
Proof.
  revert q. induction l as [|[cfid level f] l IH]; intros q; simpl.
  - rewrite app_nil_r. by destruct q.
  - rewrite IH. cbn. rewrite <- app_assoc. f_equal. destruct l; cbn; [done|].
    unfold set_field. rewrite <- Z.lor_assoc. by rewrite Z.lor_diag.
Qed.

Lemma fold_when f p l q :
  fold_left apply_item (when f p l) q = if has_field f p then fold_left apply_item l q else q.
Proof. unfold when. by destruct (has_field f p). Qed.

(** Calls of the setters of one field leave the other members alone. *)
Lemma fold_other {A} (P : VersionPatch -> A) f p l q :
  Forall (fun i => forall q, P (apply_item q i) = P q) l ->
  P (fold_left apply_item (when f p l) q) = P q.
Proof.
  intros Hl. rewrite fold_when. destruct (has_field f p); [|done].
  revert q. induction Hl as [|i l Hi _ IH]; intros q; simpl; [done|]. by rewrite IH.
Qed.

Lemma has_field_fold n f p l q :
  Forall (fun i => item_field i = f) l ->
  has_field n (fold_left apply_item (when f p l) q) =
  has_field n q || (has_field f p && negb (bool_decide (l = [])) && (n =? f)).
Proof.
  intros Hl. rewrite fold_when. destruct (has_field f p); [|by rewrite orb_false_r].
  revert q. induction Hl as [|i l Hi _ IH]; intros q; cbn [fold_left].
  - by rewrite orb_false_r.
  - rewrite IH, has_field_apply, Hi. cbn. destruct (n =? f), (bool_decide (l = [])); cbn;
      by rewrite ?orb_true_r, ?orb_false_r.
Qed.

Ltac untouched :=
  repeat (rewrite fold_other by
    (first [by apply Forall_singleton | apply Forall_map, Forall_true; intros ? ?; reflexivity])).

Lemma fold_items_fields p q n :
  patch_wf p -> has_field n (fold_left apply_item (items p) (Reset q)) = has_field n p.
Proof.
  intros [Hf Hc Hd _ _ _]. unfold items. rewrite !fold_left_app.
  rewrite !has_field_fold by first [by apply Forall_singleton | by apply Forall_map, Forall_true].
  replace (has_field n (Reset q)) with false by (symmetry; apply Z.bits_0).
  assert (forall {A} (g : A -> item) l, bool_decide (map g l = []) = bool_decide (l = [])) as Hm
    by (intros A g l; by destruct l).
  rewrite !Hm. destruct (decide (0 <= n <= 10)) as [Hn|Hn].
  - assert (n ∈ (seqZ 0 11)) as Hcases by (apply elem_of_seqZ; lia).
    cbn in Hcases. repeat (apply elem_of_cons in Hcases as [->|Hcases]); [..|by apply elem_of_nil in Hcases]; rewrite ?Hc, ?Hd; cbn -[has_field];
      rewrite ?andb_false_r, ?orb_false_r, ?andb_true_r; cbn -[has_field]; try done.
    + change (Z.of_nat 6 + 0) with kDeletion. rewrite Hd. apply andb_diag.
    + change (Z.of_nat 7 + 0) with kCreation. rewrite Hc. apply andb_diag.
  - assert (has_field n p = false) as ->.
    { destruct (has_field n p) eqn:E; [|done]. by apply Hf in E. }
    assert (forall f, 0 <= f <= 10 -> (n =? f) = false) as Hne
      by (intros f Hff; apply Z.eqb_neq; lia).
    rewrite !Hne by done. by rewrite !andb_false_r.
Qed.

Lemma fold_items_same p q : patch_wf p -> same_patch p (fold_left apply_item (items p) (Reset q)).
Proof.
  intros Hwf. pose proof Hwf as [_ Hc Hd _ _ _]. constructor.
  1: intros n; symmetry; by apply fold_items_fields.
  all: unfold items; rewrite !fold_left_app.
  1-9: intros H; untouched; rewrite fold_when, H; cbn; untouched; try done.
  - by destruct (redo_log_ p).
  - by destruct (cf_creation_ p).
  - by destruct (compaction_point_ p).
  - untouched. rewrite fold_when, Hc, fold_creations. destruct (bool_decide_reflect (file_creation_ p = [])) as [E|_].
    + rewrite E. cbn [negb]. by untouched.
    + cbn -[fold_left]. by untouched.
  - rewrite fold_when, Hd, fold_deletions. destruct (bool_decide_reflect (file_deletion_ p = [])) as [E|_].
    + rewrite E. cbn [negb]. by untouched.
    + cbn -[fold_left]. by untouched.
Qed.

(** ** Properties *)

(** Any patch built by calls of the setters, encoded and decoded into a
    patch that was reset, gives back the same fields: the same ones present,
    with the same values, and the same created and deleted files in order. *)
Theorem VersionPatch_roundtrip calls q :
  let p := fold_left apply_item calls NewVersionPatch in
  Forall item_ok calls -> in_memory (Encode p) ->
  exists p', Decode (Encode p) (Reset q) = Some p' /\ same_patch p p'.
Proof.
  intros p Hc Hm. assert (Hwf : patch_wf p) by (apply fold_items_wf; [apply NewVersionPatch_wf | done]).
  rewrite Encode_items in *. rewrite Decode_items by (done || by apply items_ok).
  eexists. split; [reflexivity|]. by apply fold_items_same.
Qed.

Lemma VersionPatch_roundtrip_witness :
  let p := fold_left apply_item
    [IAdd [97] 1 [98]; INext 300; ICreation (mkCre 1 2 (mkFile 7 [1] [2] 10 11));
     IDeletion (mkDel 1 3 5); INext 400] NewVersionPatch in
  exists p', Decode (Encode p) (Reset NewVersionPatch) = Some p' /\ same_patch p p'.
Proof.
  apply VersionPatch_roundtrip; [|reflexivity].
  repeat constructor; cbn; unfold is_u, is_i32; lia.
Defined.
