(* ===== verification/Version.v ===== *)
(** * Version

    The files of a column family, src/db/version.{h,cc}: [Version] with its
    lookups, and [VersionBuilder], which makes a version from the current one
    and a patch.  Also the file ranges and [SetupOtherInputs] of
    src/db/column-family.cc, which pick the inputs of a compaction.

    A version is its table [files_]: for every level the list of files.  The
    table cache is the parameter [cache_get]: the answer of the table with a
    given number to a lookup of an internal key; [Sst.SstTable_Get] is what it
    relies on. *)

From S2P Require Import Prelude Keys Entries Patch.

Definition kMaxLevel : nat := 4.
Definition kMaxNumberLevel0File : Z := 10.

(** [MaxSizeForLevel]; [10 * kGB] times ten for every level from the first. *)
Definition MaxSizeForLevel (level : nat) : Z :=
  Nat.iter level (fun size => wrap 64 (size * 10)) (10 * 2 ^ 30).

Definition Version : Type := list (list FileMetaData).

Definition NewVersion : Version := replicate kMaxLevel [].

Definition level_files (v : Version) (level : nat) : list FileMetaData := default [] (v !! level).
Definition NumberLevelFiles (v : Version) (level : nat) : Z := zlen (level_files v level).
Definition SizeLevelFiles (v : Version) (level : nat) : Z :=
  fold_left (fun sz f => wrap 64 (sz + size f)) (level_files v level) 0.

(** ** VersionBuilder *)

Section builder.
Context (icmp : bytes -> bytes -> Z).

Definition BySmallestKey (a b : FileMetaData) : bool :=
  let rv := icmp (smallest_key a) (smallest_key b) in
  if negb (rv =? 0) then rv <? 0 else number a <? number b.

(** [emplace] of a [std::set] in that order: an equivalent element stays. *)
Fixpoint emplace (x : FileMetaData) (l : list FileMetaData) : list FileMetaData :=
  match l with
  | [] => [x]
  | y :: l' =>
    if BySmallestKey x y then x :: l
    else if BySmallestKey y x then y :: emplace x l'
    else l
  end.

Record FileEntry := mkEntry { deletion : gset Z; creation : list FileMetaData }.

Definition NewBuilder : list FileEntry := replicate kMaxLevel (mkEntry ∅ []).

(** An index of [levels_]; outside the array the code has no meaning. *)
Definition at_level (level : Z) (f : FileEntry -> FileEntry) (levels : list FileEntry) :
    option (list FileEntry) :=
  if (0 <=? level) && (level <? Z.of_nat kMaxLevel) then Some (alter f (Z.to_nat level) levels) else None.

Definition apply_deletion (d : FileDeletion) (levels : list FileEntry) : option (list FileEntry) :=
  at_level (fd_level d) (fun e => mkEntry ({[ fd_number d ]} ∪ deletion e) (creation e)) levels.

Definition apply_creation (c : FileCreation) (levels : list FileEntry) : option (list FileEntry) :=
  at_level (fc_level c) (fun e =>
    mkEntry (deletion e ∖ {[ number (fc_file c) ]}) (emplace (fc_file c) (creation e))) levels.

Definition Apply (patch : VersionPatch) (levels : list FileEntry) : option (list FileEntry) :=
  levels ← foldl (fun ls d => ls ← ls; apply_deletion d ls) (Some levels) (file_deletion_ patch);
  foldl (fun ls c => ls ← ls; apply_creation c ls) (Some levels) (file_creation_ patch).

(** [Build], level by level. *)
Definition build_level (e : FileEntry) (files : list FileMetaData) : list FileMetaData :=
  filter (fun f => number f ∉ deletion e) files ++ creation e.

Definition Build (current : Version) (levels : list FileEntry) : Version :=
  zip_with build_level levels current.

(** A new builder, [Prepare], [Apply] and [Build]. *)
Definition new_version (patch : VersionPatch) (current : Version) : option Version :=
  levels ← Apply patch NewBuilder; Some (Build current levels).
End builder.

(** ** Version::Get *)

Section get.
Context (icmp : bytes -> bytes -> Z).
Context (cache_get : Z -> bytes -> error + Tag * bytes).

(** The range test: a key outside the range is above one bound or below the
    other, so it holds for every file. *)
Definition in_range (ikey : bytes) (f : FileMetaData) : bool :=
  (0 <=? icmp ikey (smallest_key f)) || (icmp ikey (largest_key f) <=? 0).

(** [std::sort], the newest first. *)
Definition newer (a b : FileMetaData) : Prop := ctime b <= ctime a.
#[global] Instance newer_dec a b : Decision (newer a b).
Proof. unfold newer. apply _. Defined.
Definition sort_newest : list FileMetaData -> list FileMetaData := merge_sort newer.

(** The first file that has the key; any error but [kNotFound] stops. *)
Fixpoint get_files (ikey : bytes) (files : list FileMetaData) : error + Tag * bytes :=
  match files with
  | [] => inl kNotFound
  | f :: files =>
    match cache_get (number f) ikey with
    | inr r => inr r
    | inl e => if bool_decide (e = kNotFound) then get_files ikey files else inl e
    end
  end.

(** The files in the order they are asked. *)
Definition asked (v : Version) (ikey : bytes) : list FileMetaData :=
  sort_newest (filter (fun f => in_range ikey f = true) (level_files v 0)) ++
  concat (map (fun i => filter (fun f => in_range ikey f = true) (level_files v i)) (seq 1 (kMaxLevel - 1))).

Definition Get (v : Version) (key : bytes) (version : Z) : error + Tag * bytes :=
  let ikey := MakeKey key version (flag_code kFlagValueForSeek) in
  get_files ikey (asked v ikey).
End get.

(** ** GetOverlappingInputs *)

Section overlapping.
Context (ucmp : bytes -> bytes -> Z).

(** The user keys of the two ends of a file. *)
Definition file_start (f : FileMetaData) : bytes := default [] (ExtractUserKey (smallest_key f)).
Definition file_limit (f : FileMetaData) : bytes := default [] (ExtractUserKey (largest_key f)).

(** The two comparisons that skip a file. *)
Definition overlaps (user_begin user_end : bytes) (f : FileMetaData) : bool :=
  negb (ucmp (file_limit f) user_begin <? 0) && negb (0 <? ucmp (file_start f) user_end).

(** The loop.  When a file of level 0 widens the range the loop starts again
    with [i = 0], which the increment makes 1. *)
Fixpoint overlap_loop (fuel : nat) (level0 : bool) (files : list FileMetaData) (i : nat)
    (user_begin user_end : bytes) (inputs : list FileMetaData) : outcome (list FileMetaData) :=
  match files !! i with
  | None => Done inputs
  | Some f =>
    match fuel with
    | O => OutOfFuel
    | S fuel =>
      if negb (overlaps user_begin user_end f) then
        overlap_loop fuel level0 files (S i) user_begin user_end inputs
      else if level0 && (ucmp (file_start f) user_begin <? 0) then
        overlap_loop fuel level0 files 1 (file_start f) user_end []
      else if level0 && (0 <? ucmp (file_limit f) user_end) then
        overlap_loop fuel level0 files 1 user_begin (file_limit f) []
      else overlap_loop fuel level0 files (S i) user_begin user_end (inputs ++ [f])
    end
  end.

(** Every restart widens the range to an end of a file it had not reached. *)
Definition overlap_fuel (files : list FileMetaData) : nat := (2 * length files + 1) * length files.

Definition GetOverlappingInputs (v : Version) (level : nat) (begin end_ : bytes) :
    outcome (list FileMetaData) :=
  (do! user_begin := ofopt (ExtractUserKey begin) in
   do! user_end := ofopt (ExtractUserKey end_) in
   let files := level_files v level in
   overlap_loop (overlap_fuel files) (level =? 0)%nat files 0 user_begin user_end [])%out.
End overlapping.

(** ** Compaction inputs *)

Section compaction_inputs.
Context (icmp : bytes -> bytes -> Z).

(** [GetRange], [GetRange2]. *)
Definition widen (r : bytes * bytes) (f : FileMetaData) : bytes * bytes :=
  (if icmp (smallest_key f) (fst r) <? 0 then smallest_key f else fst r,
   if 0 <? icmp (largest_key f) (snd r) then largest_key f else snd r).

Definition GetRange (inputs : list FileMetaData) : bytes * bytes :=
  match inputs with
  | [] => ([], [])
  | f :: fs => fold_left widen fs (smallest_key f, largest_key f)
  end.

Definition GetRange2 (inputs1 inputs2 : list FileMetaData) : bytes * bytes := GetRange (inputs1 ++ inputs2).
End compaction_inputs.

(** [PickCompaction] and [SetupOtherInputs].  The score of a version is a
    [double]; [needs] says whether it reached 1 and [level] is the best level
    that goes with it. *)
Record CompactionContext := mkCtx {
  ctx_level : nat; inputs0 : list FileMetaData; inputs1 : list FileMetaData; ctx_point : bytes
}.

Section pick.
Context (ucmp : bytes -> bytes -> Z).
#[local] Abbreviation icmp := (InternalCompare ucmp).

(** The first file behind the compaction point, else the first file. *)
Definition pick_file (point : bytes) (files : list FileMetaData) : option FileMetaData :=
  match filter (fun f => bool_decide (point = []) || (icmp point (largest_key f) <? 0) = true) files with
  | f :: _ => Some f
  | [] => head files
  end.

Definition SetupOtherInputs (v : Version) (level : nat) (inputs0 : list FileMetaData) :
    outcome CompactionContext :=
  let '(smallest, largest) := GetRange icmp inputs0 in
  obind (GetOverlappingInputs ucmp v (S level) smallest largest) (fun inputs1 =>
    Done (mkCtx level inputs0 inputs1 largest)).

(** The context and the compaction points, with the new one of the level. *)
Definition PickCompaction (needs : bool) (level : nat) (v : Version) (points : list bytes) :
    outcome (option (CompactionContext * list bytes)) :=
  if negb needs then Done None
  else
    (do! f := ofopt (pick_file (default [] (points !! level)) (level_files v level)) in
     do! inputs0 := (if (level =? 0)%nat then
                       let '(smallest, largest) := GetRange icmp [f] in
                       GetOverlappingInputs ucmp v 0 smallest largest
                     else Done [f]) in
     do! ctx := SetupOtherInputs v level inputs0 in
     Done (Some (ctx, <[level := ctx_point ctx]> points)))%out.
End pick.

(** ** Building versions *)

Section building.
Context (icmp : bytes -> bytes -> Z) `{!ComparatorLaws icmp}.

#[local] Abbreviation lt := (BySmallestKey icmp).

Lemma BySmallestKey_irrefl a : lt a a = false.
Proof. unfold BySmallestKey. rewrite cmp_refl. cbn. apply Z.ltb_irrefl. Qed.

Lemma BySmallestKey_trans a b c : lt a b = true -> lt b c = true -> lt a c = true.
Proof.
  unfold BySmallestKey. intros H1 H2.
  destruct (Z.eqb_spec (icmp (smallest_key a) (smallest_key b)) 0) as [E1|E1],
    (Z.eqb_spec (icmp (smallest_key b) (smallest_key c)) 0) as [E2|E2]; cbn [negb] in *;
    rewrite ?Z.ltb_lt in *.
  - rewrite (cmp_eq_trans icmp _ _ _ E1 E2). cbn. apply Z.ltb_lt. lia.
  - assert (icmp (smallest_key a) (smallest_key c) < 0)
      by (apply (cmp_le_lt_trans icmp _ (smallest_key b)); lia).
    destruct (Z.eqb_spec (icmp (smallest_key a) (smallest_key c)) 0); cbn [negb]; [lia | by apply Z.ltb_lt].
  - assert (icmp (smallest_key a) (smallest_key c) < 0)
      by (apply (cmp_lt_le_trans icmp _ (smallest_key b)); lia).
    destruct (Z.eqb_spec (icmp (smallest_key a) (smallest_key c)) 0); cbn [negb]; [lia | by apply Z.ltb_lt].
  - assert (icmp (smallest_key a) (smallest_key c) < 0)
      by (apply (cmp_lt_le_trans icmp _ (smallest_key b)); lia).
    destruct (Z.eqb_spec (icmp (smallest_key a) (smallest_key c)) 0); cbn [negb]; [lia | by apply Z.ltb_lt].
Qed.

(** Files with different numbers are told apart. *)
Lemma BySmallestKey_total a b : number a <> number b -> lt a b = false -> lt b a = true.
Proof.
  unfold BySmallestKey. intros Hn.
  destruct (Z.eqb_spec (icmp (smallest_key a) (smallest_key b)) 0) as [E|E]; cbn [negb].
  - rewrite (cmp_eq_sym icmp _ _ E). cbn. rewrite Z.ltb_ge, Z.ltb_lt. lia.
  - rewrite Z.ltb_ge. intros Hge. assert (icmp (smallest_key b) (smallest_key a) < 0) by (apply cmp_sym; lia).
    destruct (Z.eqb_spec (icmp (smallest_key b) (smallest_key a)) 0); cbn [negb]; [lia | by apply Z.ltb_lt].
Qed.

Definition ordered : list FileMetaData -> Prop := StronglySorted (fun a b => lt a b = true).

Lemma emplace_perm x l : number x ∉ map number l -> emplace icmp x l ≡ₚ x :: l.
Proof.
  induction l as [|y l IH]; intros Hx; cbn [emplace]; [done|].
  cbn [map] in Hx. apply not_elem_of_cons in Hx as [Hy Hx].
  destruct (lt x y) eqn:E; [done|]. rewrite (BySmallestKey_total x y Hy E), IH by done.
  apply perm_swap.
Qed.

Lemma emplace_ordered x l : number x ∉ map number l -> ordered l -> ordered (emplace icmp x l).
Proof.
  induction l as [|y l IH]; intros Hx Hl; cbn [emplace]; [by repeat constructor|].
  cbn [map] in Hx. apply not_elem_of_cons in Hx as [Hy Hx].
  pose proof Hl as Hl'. apply StronglySorted_inv in Hl' as [Hl1 Hl2].
  destruct (lt x y) eqn:E.
  - constructor; [done|]. constructor; [done|]. eapply Forall_impl; [exact Hl2|].
    intros z Hz. by apply (BySmallestKey_trans x y z).
  - rewrite (BySmallestKey_total x y Hy E). constructor; [by apply IH|].
    rewrite emplace_perm by done. constructor; [by apply BySmallestKey_total | done].
Qed.

Lemma emplace_all l : NoDup (map number l) ->
  fold_left (fun c f => emplace icmp f c) l [] ≡ₚ l /\ ordered (fold_left (fun c f => emplace icmp f c) l []).
Proof.
  induction l as [|x l IH] using rev_ind; intros Hnd; [by split; [|constructor]|].
  rewrite map_app in Hnd. apply NoDup_app in Hnd as (Hl & Hx & _). cbn in Hx.
  destruct (IH Hl) as [Hp Ho]. rewrite fold_left_app. cbn [fold_left].
  assert (number x ∉ map number (fold_left (fun c f => emplace icmp f c) l [])) as Hnx.
  { intros Hin. apply (Hx (number x)); [by rewrite <- Hp | by left]. }
  split; [|by apply emplace_ordered]. rewrite emplace_perm by done. rewrite Hp. apply Permutation_cons_append.
Qed.

(** What a patch does at a level. *)
Definition deleted_at (p : VersionPatch) (l : Z) : list Z :=
  map fd_number (filter (fun d => fd_level d = l) (file_deletion_ p)).
Definition created_at (p : VersionPatch) (l : Z) : list FileMetaData :=
  map fc_file (filter (fun c => fc_level c = l) (file_creation_ p)).

Definition in_levels (l : Z) : Prop := 0 <= l < Z.of_nat kMaxLevel.

Definition at_ (levels : list FileEntry) (l : Z) : FileEntry :=
  default (mkEntry ∅ []) (levels !! Z.to_nat l).

Lemma at_level_spec level f levels :
  in_levels level -> length levels = kMaxLevel ->
  exists levels', at_level level f levels = Some levels' /\ length levels' = kMaxLevel /\
    forall l, in_levels l -> at_ levels' l = if decide (l = level) then f (at_ levels l) else at_ levels l.
Proof.
  intros Hin Hlen. unfold at_level, in_levels in *.
  destruct (Z.leb_spec 0 level), (Z.ltb_spec level (Z.of_nat kMaxLevel)); try lia. cbn [andb].
  eexists. split; [reflexivity|]. rewrite length_alter. split; [done|]. intros l Hl. unfold at_.
  destruct (decide (l = level)) as [->|Hne].
  - rewrite list_lookup_alter_eq. destruct (lookup_lt_is_Some_2 levels (Z.to_nat level)) as [e ->]; [lia | done].
  - rewrite list_lookup_alter_ne by lia. done.
Qed.

Lemma apply_deletions_spec ds levels :
  Forall (fun d => in_levels (fd_level d)) ds -> length levels = kMaxLevel ->
  exists levels', foldl (fun ls d => ls ← ls; apply_deletion d ls) (Some levels) ds = Some levels' /\
    length levels' = kMaxLevel /\
    forall l, in_levels l -> at_ levels' l =
      mkEntry (list_to_set (map fd_number (filter (fun d => fd_level d = l) ds)) ∪ deletion (at_ levels l))
              (creation (at_ levels l)).
Proof.
  revert levels. induction ds as [|d ds IH]; intros levels Hds Hlen; cbn [foldl].
  { exists levels. split_and!; [done..|]. intros l Hl. cbn. rewrite union_empty_l_L. by destruct (at_ levels l). }
  apply Forall_cons in Hds as [Hd Hds]. cbn [mbind option_bind]. unfold apply_deletion at 2.
  destruct (at_level_spec (fd_level d)
    (fun e => mkEntry ({[ fd_number d ]} ∪ deletion e) (creation e)) levels Hd Hlen) as (lv & -> & Hl1 & Hat).
  destruct (IH lv Hds Hl1) as (levels' & E & Hl2 & Hat'). exists levels'. split_and!; [exact E | done|].
  intros l Hl. rewrite (Hat' l Hl), (Hat l Hl), filter_cons. destruct (decide (l = fd_level d)) as [->|Hne].
  - rewrite decide_True by done. cbn [deletion creation map]. rewrite list_to_set_cons. f_equal.
    by rewrite (assoc_L (∪)), (comm_L (∪) {[fd_number d]}).
  - by rewrite decide_False by done.
Qed.

Lemma apply_creations_spec cs levels :
  Forall (fun c => in_levels (fc_level c)) cs -> length levels = kMaxLevel ->
  exists levels', foldl (fun ls c => ls ← ls; apply_creation icmp c ls) (Some levels) cs = Some levels' /\
    length levels' = kMaxLevel /\
    forall l, in_levels l ->
      let fs := map fc_file (filter (fun c => fc_level c = l) cs) in
      at_ levels' l = mkEntry (deletion (at_ levels l) ∖ list_to_set (map number fs))
                              (fold_left (fun c f => emplace icmp f c) fs (creation (at_ levels l))).
Proof.
  revert levels. induction cs as [|c cs IH]; intros levels Hcs Hlen; cbn [foldl].
  { exists levels. split_and!; [done..|]. intros l Hl. cbn. rewrite difference_empty_L. by destruct (at_ levels l). }
  apply Forall_cons in Hcs as [Hc Hcs]. cbn [mbind option_bind]. unfold apply_creation at 2.
  destruct (at_level_spec (fc_level c) (fun e => mkEntry (deletion e ∖ {[ number (fc_file c) ]})
    (emplace icmp (fc_file c) (creation e))) levels Hc Hlen) as (lv & -> & Hl1 & Hat).
  destruct (IH lv Hcs Hl1) as (levels' & E & Hl2 & Hat'). exists levels'. split_and!; [exact E | done|].
  intros l Hl. cbn zeta. rewrite (Hat' l Hl), (Hat l Hl), filter_cons. destruct (decide (l = fc_level c)) as [->|Hne].
  - rewrite decide_True by done. cbn [deletion creation map fold_left]. rewrite list_to_set_cons. f_equal.
    apply difference_difference_l_L.
  - by rewrite decide_False by done.
Qed.

(** The levels a patch names exist, and the files it creates at a level have
    different numbers. *)
Record patch_levels (p : VersionPatch) : Prop := {
  lv_deletions : Forall (fun d => in_levels (fd_level d)) (file_deletion_ p);
  lv_creations : Forall (fun c => in_levels (fc_level c)) (file_creation_ p);
  lv_numbers : forall l, NoDup (map number (created_at p l));
}.

Lemma level_files_Build (levels : list FileEntry) (v : list (list FileMetaData)) l e :
  levels !! l = Some e -> (l < length v)%nat -> level_files (Build v levels) l = build_level e (level_files v l).
Proof.
  intros He Hl. destruct (lookup_lt_is_Some_2 v l Hl) as [fs Hfs]. unfold level_files, Build.
  etrans; [apply (f_equal (default [])); exact (lookup_zip_with build_level levels v l)|].
  rewrite He, Hfs. cbn. f_equal. symmetry. exact (f_equal (default []) Hfs).
Qed.

Lemma new_version_spec p v :
  patch_levels p -> length v = kMaxLevel ->
  exists v', new_version icmp p v = Some v' /\ length v' = kMaxLevel /\
    forall l, (l < kMaxLevel)%nat ->
      exists sorted, sorted ≡ₚ created_at p (Z.of_nat l) /\ ordered sorted /\
        level_files v' l =
        filter (fun f => number f ∉ deleted_at p (Z.of_nat l) \/
                         number f ∈ map number (created_at p (Z.of_nat l))) (level_files v l) ++ sorted.
Proof.
  intros [Hd Hc Hn] Hlen. unfold new_version, Apply.
  destruct (apply_deletions_spec (file_deletion_ p) NewBuilder Hd) as (l1 & E1 & Hl1 & Hat1); [done|].
  rewrite E1. cbn [mbind option_bind].
  destruct (apply_creations_spec (file_creation_ p) l1 Hc Hl1) as (l2 & E2 & Hl2 & Hat2).
  rewrite E2. cbn [mbind option_bind]. eexists. split; [reflexivity|]. split.
  { unfold Build. rewrite length_zip_with. lia. }
  intros l Hl. destruct (emplace_all _ (Hn (Z.of_nat l))) as [Hp Ho]. eexists. split; [exact Hp|].
  split; [exact Ho|]. destruct (lookup_lt_is_Some_2 l2 l ltac:(lia)) as [e He].
  rewrite (level_files_Build _ _ _ e He) by lia. unfold build_level.
  assert (Hin : in_levels (Z.of_nat l)) by (unfold in_levels; lia).
  specialize (Hat2 _ Hin). specialize (Hat1 _ Hin). cbn zeta in Hat2. rewrite Hat1 in Hat2.
  assert (at_ NewBuilder (Z.of_nat l) = mkEntry ∅ []) as Enew.
  { unfold at_, NewBuilder. rewrite Nat2Z.id, lookup_replicate_2 by done. done. }
  assert (at_ l2 (Z.of_nat l) = e) as Ee by (unfold at_; by rewrite Nat2Z.id, He).
  rewrite Ee, Enew in Hat2. cbn [deletion creation] in Hat2.
  rewrite Hat2. cbn [deletion creation]. f_equal.
  apply list_filter_iff. intros f. fold (created_at p (Z.of_nat l)) (deleted_at p (Z.of_nat l)).
  rewrite elem_of_difference, elem_of_union, !elem_of_list_to_set.
  destruct (decide (number f ∈ deleted_at p (Z.of_nat l))), (decide (number f ∈ map number (created_at p (Z.of_nat l))));
    rewrite elem_of_empty; tauto.
Qed.

(** Applying a patch to a version gives, at every level, the files that the
    patch does not delete there in their old order, and after them the created
    files sorted by their smallest keys. *)
Theorem VersionBuilder_files p v :
  patch_levels p -> length v = kMaxLevel ->
  exists v', new_version icmp p v = Some v' /\ length v' = kMaxLevel /\
    forall l, (l < kMaxLevel)%nat ->
      exists kept created, level_files v' l = kept ++ created /\
        created ≡ₚ created_at p (Z.of_nat l) /\
        StronglySorted (fun a b => icmp (smallest_key a) (smallest_key b) <= 0) created /\
        sublist kept (level_files v l) /\
        forall f, f ∈ level_files v l ->
          (f ∈ kept <-> number f ∉ deleted_at p (Z.of_nat l) \/
                        number f ∈ map number (created_at p (Z.of_nat l))).
Proof.
  intros Hp Hlen. destruct (new_version_spec p v Hp Hlen) as (v' & E & Hlen' & H).
  exists v'. split_and!; [done..|]. intros l Hl. destruct (H l Hl) as (sorted & Hperm & Hord & Hfiles).
  eexists _, sorted. split_and!; [exact Hfiles | done | | apply sublist_filter |].
  - unfold ordered in Hord. eapply StronglySorted_impl; [|exact Hord]. intros a b.
    unfold BySmallestKey. destruct (Z.eqb_spec (icmp (smallest_key a) (smallest_key b)) 0); cbn [negb]; [lia|].
    rewrite Z.ltb_lt. lia.
  - intros f Hf. rewrite list_elem_of_filter. tauto.
Qed.
End building.

(** ** Lookups *)

Section lookups.
Context (ucmp : bytes -> bytes -> Z) `{!ComparatorLaws ucmp}.
Context (cache_get : Z -> bytes -> error + Tag * bytes) (contents : Z -> list kv).

#[local] Abbreviation icmp := (InternalCompare ucmp).

(** The files of a version in the order of a lookup. *)
Definition lookup_order (v : Version) : list FileMetaData :=
  sort_newest (level_files v 0) ++ concat (map (level_files v) (seq 1 (kMaxLevel - 1))).

(** The two bounds of a file are the right way round, and its table answers
    lookups as its entries say. *)
Record file_ok (f : FileMetaData) : Prop := {
  ok_range : icmp (smallest_key f) (largest_key f) <= 0;
  ok_sorted : StronglySorted (kv_lt icmp) (contents (number f));
  ok_versions : Forall (fun e => exists u s, versioned u s e) (contents (number f));
  ok_get : forall u s fl, tag_ok (mkTag s fl) ->
    cache_get (number f) (MakeKey u s fl) = table_get ucmp (MakeKey u s fl) (contents (number f));
}.

(** Of a user key that both have, [f] has only newer versions. *)
Definition fresher (f g : FileMetaData) : Prop :=
  forall u s e u' s' e', e ∈ contents (number f) -> e' ∈ contents (number g) ->
    versioned u s e -> versioned u' s' e' -> ucmp u u' = 0 -> s' <= s.

(** No file is ever left out. *)
Lemma in_range_always t f : icmp (smallest_key f) (largest_key f) <= 0 -> in_range icmp t f = true.
Proof.
  intros Hr. unfold in_range. destruct (Z.leb_spec 0 (icmp t (smallest_key f))); [done|].
  apply Z.leb_le. apply Z.lt_le_incl. by apply (cmp_lt_le_trans icmp _ (smallest_key f)).
Qed.

Lemma asked_all t v :
  (forall l, Forall file_ok (level_files v l)) -> asked icmp v t = lookup_order v.
Proof.
  intros Hok. unfold asked, lookup_order.
  assert (forall l, filter (fun f => in_range icmp t f = true) (level_files v l) = level_files v l) as H.
  { intros l. apply filter_all. eapply Forall_impl; [apply Hok|]. intros f Hf. by apply in_range_always, ok_range. }
  rewrite H. f_equal. f_equal. apply map_ext. apply H.
Qed.

(** The answer for the files: the newest visible version of all of them. *)
Definition newest_visible (uk : bytes) (sq : Z) (fs : list FileMetaData) (r : error + Tag * bytes) : Prop :=
  match r with
  | inr (tag, v) =>
    (exists f u, f ∈ fs /\ tag_ok tag /\ (MakeKey u (sequence_number tag) (flag tag), v) ∈ contents (number f) /\ ucmp u uk = 0) /\
    sequence_number tag <= sq /\
    forall f u s e, f ∈ fs -> e ∈ contents (number f) -> versioned u s e -> ucmp u uk = 0 -> s <= sq ->
      s <= sequence_number tag
  | inl err => err = kNotFound /\
    forall f u s e, f ∈ fs -> e ∈ contents (number f) -> versioned u s e -> ucmp u uk = 0 -> sq < s
  end.

Lemma get_files_newest uk sq fl fs :
  tag_ok (mkTag sq fl) -> Forall file_ok fs -> StronglySorted fresher fs ->
  newest_visible uk sq fs (get_files cache_get (MakeKey uk sq fl) fs).
Proof.
  intros Ht Hok Hs. induction Hs as [|f fs Hs IH Hf]; cbn [get_files].
  { split; [done|]. by intros f u s e Hin%not_elem_of_nil. }
  apply Forall_cons in Hok as [[Hr Hsort Hv Hget] Hok]. specialize (IH Hok). rewrite (Hget uk sq fl Ht).
  pose proof (table_get_visible ucmp uk sq fl _ Ht Hsort Hv) as Hvis.
  destruct (table_get ucmp (MakeKey uk sq fl) (contents (number f))) as [err|[tag v]].
  - destruct Hvis as [-> Hnone]. rewrite bool_decide_true by done. unfold newest_visible in *.
    destruct (get_files _ _ fs) as [err|[tag v]].
    + destruct IH as [-> Hn]. split; [done|]. intros g u s e [->|Hg]%elem_of_cons He Hve Hu; eauto.
    + destruct IH as ((g & u & Hg & Htag & He & Hu) & Hle & Hn). split_and!; [|done|].
      * exists g, u. split_and!; [by right | done..].
      * intros g' u' s' e' [->|Hg']%elem_of_cons He' Hve Hu' Hs'; [|by eauto].
        specialize (Hnone u' s' e' He' Hve Hu'). lia.
  - destruct Hvis as ((u & Htag & He & Hu) & Hle & Hn). cbn [newest_visible]. split_and!; [|done|].
    { exists f, u. split_and!; [by left | done..]. }
    intros g u' s' e' [->|Hg]%elem_of_cons He' Hve Hu' Hs'; [by eauto|].
    rewrite Forall_forall in Hf. specialize (Hf g Hg).
    assert (Hv0 : versioned u (sequence_number tag) (MakeKey u (sequence_number tag) (flag tag), v))
      by (exists (flag tag), v; by destruct tag).
    apply (Hf u _ _ u' s' e' He He' Hv0 Hve). apply (cmp_eq_trans ucmp u uk u'); [done|].
    by apply cmp_eq_sym.
Qed.

Lemma lookup_order_perm (v : Version) : length v = kMaxLevel -> lookup_order v ≡ₚ concat v.
Proof.
  destruct v as [|l0 [|l1 [|l2 [|l3 [|]]]]]; intros Hl; try discriminate Hl.
  unfold lookup_order. apply Permutation_app; [apply merge_sort_Permutation | done].
Qed.

Lemma newest_visible_perm uk sq fs fs' r : fs ≡ₚ fs' -> newest_visible uk sq fs r -> newest_visible uk sq fs' r.
Proof.
  intros Hp. assert (forall f, f ∈ fs <-> f ∈ fs') as Hin
    by (intros f; rewrite !list_elem_of_In; split; by apply Permutation_in).
  unfold newest_visible. destruct r as [err|[tag v]].
  - intros [-> H]. split; [done|]. intros f u s e Hf. by apply H, Hin.
  - intros ((f & u & Hf & H) & Hle & Hn). split_and!; [|done|].
    + exists f, u. by rewrite <- Hin.
    + intros g u' s e Hg. by apply Hn, Hin.
Qed.

Lemma level_files_concat (v : Version) l f : f ∈ level_files v l -> f ∈ concat v.
Proof.
  intros Hf. unfold level_files in Hf. rewrite list_elem_of_In in *. apply in_concat.
  revert l Hf. induction v as [|fs v IH]; intros [|l] Hf; cbn in Hf; try done.
  - exists fs. split; [by left | done].
  - destruct (IH l Hf) as (x & Hx & Hin). exists x. split; [by right | done].
Qed.

(** [fresher] from the parsed entries. *)
Definition fresher_entries (es es' : list kv) : bool :=
  forallb (fun e => forallb (fun e' =>
    negb (ucmp (fst (parsed (fst e))) (fst (parsed (fst e'))) =? 0) ||
    (sequence_number (snd (parsed (fst e'))) <=? sequence_number (snd (parsed (fst e))))) es') es.

Lemma fresher_entries_spec f g :
  fresher_entries (contents (number f)) (contents (number g)) = true -> fresher f g.
Proof.
  unfold fresher_entries. intros H u s e u' s' e' He He' (fl & v & -> & Ht) (fl' & v' & -> & Ht') Hu.
  rewrite forallb_forall in H. apply list_elem_of_In in He, He'. specialize (H _ He).
  rewrite forallb_forall in H. specialize (H _ He'). cbn [fst] in H.
  rewrite !parsed_MakeKey in H by done. cbn [fst snd sequence_number] in H. rewrite Hu in H. cbn in H.
  by apply Z.leb_le.
Qed.

Lemma Get_visible v uk sq :
  length v = kMaxLevel -> Forall file_ok (concat v) -> StronglySorted fresher (lookup_order v) -> is_u 56 sq ->
  newest_visible uk sq (concat v) (Get icmp cache_get v uk sq).
Proof.
  intros Hlen Hok Hs Hsq. apply (newest_visible_perm _ _ (lookup_order v)); [by apply lookup_order_perm|].
  unfold Get. rewrite asked_all.
  - apply get_files_newest; [by split | eapply Permutation_Forall; [symmetry; by apply lookup_order_perm | done] | done].
  - intros l. apply Forall_forall. intros f Hf. rewrite Forall_forall in Hok. apply Hok.
    apply (level_files_concat v l), Hf.
Qed.

(** C40: A lookup in a version returns the newest value that is not newer than
    the version asked for among the entries of all its files, and reports "not
    found" only when no file has one, provided the files are asked in an order
    in which earlier ones hold newer versions. *)
Theorem Version_Get_newest v uk sq :
  length v = kMaxLevel -> Forall file_ok (concat v) -> StronglySorted fresher (lookup_order v) -> is_u 56 sq ->
  newest_visible uk sq (concat v) (Get icmp cache_get v uk sq).
Proof. apply Get_visible. Qed.
End lookups.

(** Two files of level 0 and one of level 1; the newer file of level 0 has a
    newer version of the key [98]. *)
Definition sample_file (n : Z) (lo hi : bytes) (t : Z) : FileMetaData :=
  mkFile n (MakeKey lo 9 0) (MakeKey hi 1 0) 100 t.

Definition sample_contents (n : Z) : list kv :=
  if n =? 1 then [(MakeKey [97] 4 0, [1]); (MakeKey [98] 5 0, [2])]
  else if n =? 2 then [(MakeKey [98] 8 0, [3])]
  else if n =? 3 then [(MakeKey [98] 2 0, [4]); (MakeKey [99] 1 0, [5])]
  else [].

Definition sample_version : Version :=
  [[sample_file 1 [97] [98] 10; sample_file 2 [98] [98] 20]; [sample_file 3 [98] [99] 5]; []; []].

Lemma VersionBuilder_files_witness :
  let p := CreateFile 0 0 (sample_file 4 [97] [98] 30) (DeleteFile 0 0 1 NewVersionPatch) in
  exists v', new_version (InternalCompare lex) p sample_version = Some v' /\ length v' = kMaxLevel /\
    forall l, (l < kMaxLevel)%nat ->
      exists kept created, level_files v' l = kept ++ created /\
        created ≡ₚ created_at p (Z.of_nat l) /\
        StronglySorted (fun a b => InternalCompare lex (smallest_key a) (smallest_key b) <= 0) created /\
        sublist kept (level_files sample_version l) /\
        forall f, f ∈ level_files sample_version l ->
          (f ∈ kept <-> number f ∉ deleted_at p (Z.of_nat l) \/
                        number f ∈ map number (created_at p (Z.of_nat l))).
Proof.
  intros p. apply (VersionBuilder_files (InternalCompare lex)); [|done]. split; [by repeat constructor..|].
  intros l. destruct (decide (0 = l)) as [<-|Hl]; unfold created_at, p; cbn [file_creation_ CreateFile DeleteFile NewVersionPatch app].
  - apply NoDup_singleton.
  - rewrite filter_cons_False by done. constructor.
Defined.

Lemma Version_Get_newest_witness :
  let get n t := table_get lex t (sample_contents n) in
  Get (InternalCompare lex) get sample_version [98] 6 = inr (mkTag 5 0, [2]) /\
  newest_visible lex sample_contents [98] 6 (concat sample_version)
    (Get (InternalCompare lex) get sample_version [98] 6).
Proof.
  intros get. split; [by vm_compute|]. apply (Version_Get_newest lex get sample_contents); [done| | |by split].
  - repeat first [apply Forall_cons_2 | apply Forall_nil_2]; (split;
      [by vm_compute
      |repeat first [apply SSorted_cons | apply SSorted_nil | apply Forall_cons_2 | apply Forall_nil_2 | reflexivity]
      |repeat first [apply Forall_cons_2 | apply Forall_nil_2]; by eexists _, _, _, _
      |done]).
  - change (lookup_order sample_version) with
      [sample_file 2 [98] [98] 20; sample_file 1 [97] [98] 10; sample_file 3 [98] [99] 5].
    repeat first [apply SSorted_cons | apply SSorted_nil | apply Forall_cons_2 | apply Forall_nil_2];
      apply fresher_entries_spec; by vm_compute.
Defined.

(** ** Overlapping files *)

Section overlapping_files.
Context (ucmp : bytes -> bytes -> Z) `{!ComparatorLaws ucmp}.

Lemma filter_length_lt {A} (P Q : A -> Prop) `{!forall x, Decision (P x), !forall x, Decision (Q x)} l x :
  (forall y, Q y -> P y) -> x ∈ l -> P x -> ~ Q x -> (length (filter Q l) < length (filter P l))%nat.
Proof.
  intros HQP. induction l as [|y l IH]; intros Hx HP HQ; [by apply elem_of_nil in Hx|].
  assert (length (filter Q l) <= length (filter P l))%nat as Hle.
  { clear -HQP. induction l as [|z l IH]; [done|]. rewrite !filter_cons.
    destruct (decide (Q z)), (decide (P z)); cbn [length]; [lia | by exfalso; auto | lia..]. }
  apply elem_of_cons in Hx as [->|Hx].
  - rewrite !filter_cons. destruct (decide (Q y)), (decide (P y)); cbn [length]; done || lia.
  - specialize (IH Hx HP HQ). rewrite !filter_cons.
    destruct (decide (Q y)), (decide (P y)); cbn [length]; [lia | by exfalso; auto | lia..].
Qed.

(** The ends of files the range does not reach yet. *)
Definition unreached (files : list FileMetaData) (b e : bytes) : nat :=
  length (filter (fun f => ucmp (file_start f) b < 0) files) +
  length (filter (fun f => 0 < ucmp (file_limit f) e) files).

Lemma unreached_start files b e f :
  f ∈ files -> ucmp (file_start f) b < 0 -> (unreached files (file_start f) e < unreached files b e)%nat.
Proof.
  intros Hf Hlt. unfold unreached. apply Nat.add_lt_le_mono; [|done].
  apply (filter_length_lt _ _ _ f); [|done|done|by rewrite (cmp_refl (cmp:=ucmp))].
  intros g Hg. cbn beta in *. apply (cmp_lt_le_trans ucmp _ (file_start f)); [done | lia].
Qed.

Lemma unreached_limit files b e f :
  f ∈ files -> 0 < ucmp (file_limit f) e -> (unreached files b (file_limit f) < unreached files b e)%nat.
Proof.
  intros Hf Hlt. unfold unreached. apply Nat.add_le_lt_mono; [done|].
  apply (filter_length_lt _ _ _ f); [|done|done|by rewrite (cmp_refl (cmp:=ucmp))].
  intros g Hg. cbn beta in *. apply cmp_sym in Hg, Hlt. apply cmp_sym.
  apply (cmp_lt_le_trans ucmp _ (file_limit f)); [done | lia].
Qed.

Definition overlapping (b e : bytes) (files : list FileMetaData) : list FileMetaData :=
  filter (fun f => overlaps ucmp b e f = true) files.

(** The range reaches both ends of the file. *)
Definition covered (b e : bytes) (f : FileMetaData) : Prop :=
  0 <= ucmp (file_start f) b /\ ucmp (file_limit f) e <= 0.

Lemma overlapping_snoc b e files f :
  overlapping b e (files ++ [f]) = overlapping b e files ++ (if overlaps ucmp b e f then [f] else []).
Proof.
  unfold overlapping. rewrite filter_app, filter_cons. f_equal. by destruct (overlaps ucmp b e f).
Qed.

(** Below level 0 the loop filters. *)
Lemma overlap_loop_filter fuel files i b e inputs :
  (length files - i <= fuel)%nat ->
  overlap_loop ucmp fuel false files i b e inputs = Done (inputs ++ overlapping b e (drop i files)).
Proof.
  revert i inputs. induction fuel as [|fuel IH]; intros i inputs Hf; cbn [overlap_loop];
    (destruct (files !! i) as [f|] eqn:E; [|rewrite drop_ge by (by apply lookup_ge_None); cbn;
      by rewrite app_nil_r]).
  - apply lookup_lt_Some in E. lia.
  - rewrite (drop_S _ _ _ E). unfold overlapping. rewrite filter_cons. cbn [andb].
    destruct (overlaps ucmp b e f); cbn [negb]; rewrite IH by lia; [|done].
    rewrite decide_True by done. by rewrite <- app_assoc.
Qed.

(** At level 0 [k] is 1 after a restart. *)
Lemma overlap_loop_level0 files fuel i b e inputs k :
  (unreached files b e * length files + (length files - i) <= fuel)%nat -> (k <= i)%nat -> (k = 0 \/ k = 1)%nat ->
  inputs = overlapping b e (drop k (take i files)) -> Forall (covered b e) inputs ->
  exists b' e' k', ucmp b' b <= 0 /\ ucmp e e' <= 0 /\ (k' = 0 \/ k' = 1)%nat /\
    let result := overlapping b' e' (drop k' files) in
    overlap_loop ucmp fuel true files i b e inputs = Done result /\ Forall (covered b' e') result.
Proof.
  revert i b e inputs k. induction fuel as [|fuel IH]; intros i b e inputs k Hfuel Hki Hk Hin Hcov; cbn [overlap_loop];
    (destruct (files !! i) as [f|] eqn:E; [|apply lookup_ge_None in E; rewrite take_ge in Hin by done; subst inputs;
       exists b, e, k; split_and!; [apply (cmp_le_refl ucmp) | apply (cmp_le_refl ucmp) | done..]]).
  { apply lookup_lt_Some in E. lia. }
  pose proof (lookup_lt_Some _ _ _ E) as Hlt. pose proof (list_elem_of_lookup_2 _ _ _ E) as Hf.
  assert (Hsnoc : overlapping b e (drop k (take (S i) files)) =
                  inputs ++ (if overlaps ucmp b e f then [f] else [])).
  { rewrite (take_S_r _ _ _ E), drop_app_le by (rewrite length_take; lia). by rewrite overlapping_snoc, <- Hin. }
  destruct (overlaps ucmp b e f) eqn:Eo; cbn [negb andb].
  2:{ apply (IH (S i) b e inputs k); [lia | lia | done | by rewrite Hsnoc, app_nil_r | done]. }
  destruct (Z.ltb_spec (ucmp (file_start f) b) 0) as [Hs|Hs].
  { pose proof (unreached_start files b e f Hf Hs) as Hu.
    destruct (IH 1%nat (file_start f) e [] 1%nat) as (b' & e' & k' & H1 & H2 & H3 & H4);
      [nia | done | by right | |by constructor|].
    - by rewrite drop_ge by (rewrite length_take; lia).
    - exists b', e', k'. refine (conj _ (conj H2 (conj H3 H4))).
      apply Z.lt_le_incl. by apply (cmp_le_lt_trans ucmp _ (file_start f)). }
  destruct (Z.ltb_spec 0 (ucmp (file_limit f) e)) as [Hl|Hl].
  { pose proof (unreached_limit files b e f Hf Hl) as Hu.
    destruct (IH 1%nat b (file_limit f) [] 1%nat) as (b' & e' & k' & H1 & H2 & H3 & H4);
      [nia | done | by right | |by constructor|].
    - by rewrite drop_ge by (rewrite length_take; lia).
    - exists b', e', k'. refine (conj H1 (conj _ (conj H3 H4))).
      apply Z.lt_le_incl. apply (cmp_lt_le_trans ucmp _ (file_limit f)); [by apply cmp_sym | done]. }
  apply (IH (S i) b e (inputs ++ [f]) k); [lia | lia | done | by rewrite Hsnoc |].
  apply Forall_app. split; [done|]. by repeat constructor.
Qed.

Lemma unreached_le files b e : (unreached files b e <= 2 * length files)%nat.
Proof. unfold unreached. pose proof (length_filter (fun f => ucmp (file_start f) b < 0) files).
  pose proof (length_filter (fun f => 0 < ucmp (file_limit f) e) files). lia. Qed.

(** [GetOverlappingInputs] always ends.  Below level 0 it returns exactly
    the files that overlap the range; at level 0 it widens the range to some
    [b, e] that covers every file it returns, and returns the files overlapping
    that range, of all the files or of all but the first one. *)
Theorem GetOverlappingInputs_spec v level begin end_ ub ue :
  ExtractUserKey begin = Some ub -> ExtractUserKey end_ = Some ue ->
  exists inputs, GetOverlappingInputs ucmp v level begin end_ = Done inputs /\
    ((0 < level)%nat -> inputs = overlapping ub ue (level_files v level)) /\
    (level = 0%nat -> exists b e k,
      ucmp b ub <= 0 /\ ucmp ue e <= 0 /\ (k = 0 \/ k = 1)%nat /\ Forall (covered b e) inputs /\
      inputs = overlapping b e (drop k (level_files v level))).
Proof.
  intros Hb He. unfold GetOverlappingInputs. rewrite Hb, He. cbn [ofopt obind].
  pose proof (unreached_le (level_files v level) ub ue) as Hu. destruct level as [|level]; cbn [Nat.eqb].
  - destruct (overlap_loop_level0 (level_files v 0) (overlap_fuel (level_files v 0)) 0 ub ue [] 0)
      as (b & e & k & H1 & H2 & H3 & H4 & H5); [unfold overlap_fuel; nia | done | by left | done | by constructor |].
    eexists. split; [exact H4|]. split; [lia|]. intros _. by exists b, e, k.
  - eexists. split; [apply overlap_loop_filter; unfold overlap_fuel; nia|]. by split.
Qed.
End overlapping_files.

Lemma GetOverlappingInputs_spec_witness :
  exists inputs, GetOverlappingInputs lex sample_version 0 (MakeKey [97] 9 0) (MakeKey [97] 1 0) = Done inputs /\
    ((0 < 0)%nat -> inputs = overlapping lex [97] [97] (level_files sample_version 0)) /\
    (0%nat = 0%nat -> exists b e k,
      lex b [97] <= 0 /\ lex [97] e <= 0 /\ (k = 0 \/ k = 1)%nat /\ Forall (covered lex b e) inputs /\
      inputs = overlapping lex b e (drop k (level_files sample_version 0))).
Proof. apply (GetOverlappingInputs_spec lex); vm_compute; reflexivity. Defined.

(** Because a restart goes on with the second file, the compaction picked for
    the first file of level 0 takes the second one without it.  When the second
    is newer, its entries go below level 0 and the first one hides them. *)
Example restart_skips_first_file :
  let f0 := sample_file 1 [97] [99] 10 in
  let f1 := sample_file 2 [98] [101] 20 in
  let get n t := table_get lex t (if n =? 1 then [(MakeKey [98] 3 0, [1])] else [(MakeKey [98] 7 0, [2])]) in
  match PickCompaction lex true 0 [[f0; f1]; []; []; []] [] with
  | Done (Some (ctx, _)) => inputs0 ctx = [f1]
  | _ => False
  end /\
  Get (InternalCompare lex) get [[f0; f1]; []; []; []] [98] 9 = inr (mkTag 7 0, [2]) /\
  Get (InternalCompare lex) get [[f0]; [f1]; []; []] [98] 9 = inr (mkTag 3 0, [1]).
Proof. by vm_compute. Qed.
