(* ===== verification/VersionSet.v ===== *)
(** * VersionSet

    The manifest, src/db/version.cc, and the set of column families,
    src/db/column-family.{h,cc}: [VersionSet] logs a patch for every change of
    the files of a family and [Recovery] replays them.

    A family object is its place in the linked list of [ColumnFamilySet],
    which only grows: a dropped family is taken out of the two maps but stays
    linked until its last reference is gone.  The environment is the class
    [EnvOps]; its laws are what the theorem on recovery needs of a file
    system.

    The manifest is written in blocks of the option [block_size] and read in
    blocks of 32 KiB.  What is written is described for every block size
    ([manifest]); [Recovery_of_manifest] asks that the sizes agree or that the
    manifest fits in one block of each. *)

From S2P Require Import Prelude Slice Keys IO WAL Files Patch Version.

(** ** ColumnFamilySet *)

Record ColumnFamilyOptions := mkOpts {
  comparator_Name : bytes; comparator_Compare : bytes -> bytes -> Z; options_dir : bytes;
  options_block_size : Z; block_restart_interval : Z
}.

Record ColumnFamilyImpl := mkFamily {
  cf_name : bytes;
  cf_id : Z;
  cf_options : ColumnFamilyOptions;
  dropped : bool;
  current : Version;
  cf_compaction_point : list bytes;
  redo_log_number : Z
}.

Definition NewFamily (name : bytes) (id : Z) (opts : ColumnFamilyOptions) : ColumnFamilyImpl :=
  mkFamily name id opts false NewVersion (replicate kMaxLevel []) 0.

Definition set_dropped (f : ColumnFamilyImpl) : ColumnFamilyImpl :=
  mkFamily (cf_name f) (cf_id f) (cf_options f) true (current f) (cf_compaction_point f) (redo_log_number f).
(** [Append] of a version. *)
Definition set_current (v : Version) (f : ColumnFamilyImpl) : ColumnFamilyImpl :=
  mkFamily (cf_name f) (cf_id f) (cf_options f) (dropped f) v (cf_compaction_point f) (redo_log_number f).
Definition set_points (p : list bytes) (f : ColumnFamilyImpl) : ColumnFamilyImpl :=
  mkFamily (cf_name f) (cf_id f) (cf_options f) (dropped f) (current f) p (redo_log_number f).
Definition set_redo_log_number (n : Z) (f : ColumnFamilyImpl) : ColumnFamilyImpl :=
  mkFamily (cf_name f) (cf_id f) (cf_options f) (dropped f) (current f) (cf_compaction_point f) n.

Record ColumnFamilySet := mkFamilies {
  families : list ColumnFamilyImpl;
  column_families_ : gmap bytes Z;
  column_family_impls_ : gmap Z nat;
  cfs_max_column_family : Z;
  default_cfd_ : option nat
}.

Definition NewColumnFamilySet : ColumnFamilySet := mkFamilies [] ∅ ∅ 0 None.

Definition set_families (fs : list ColumnFamilyImpl) (s : ColumnFamilySet) : ColumnFamilySet :=
  mkFamilies fs (column_families_ s) (column_family_impls_ s) (cfs_max_column_family s) (default_cfd_ s).

(** An assignment through the pointer [i]. *)
Definition update_family (i : nat) (g : ColumnFamilyImpl -> ColumnFamilyImpl) (s : ColumnFamilySet) :
    ColumnFamilySet := set_families (alter g i (families s)) s.

Definition GetColumnFamily (id : Z) (s : ColumnFamilySet) : option nat := column_family_impls_ s !! id.
Definition GetColumnFamilyByName (name : bytes) (s : ColumnFamilySet) : option nat :=
  id ← column_families_ s !! name; GetColumnFamily id s.

Definition UpdateColumnFamilyId (new_id : Z) (s : ColumnFamilySet) : ColumnFamilySet :=
  mkFamilies (families s) (column_families_ s) (column_family_impls_ s)
    (Z.max new_id (cfs_max_column_family s)) (default_cfd_ s).

Definition NextColumnFamilyId (s : ColumnFamilySet) : Z * ColumnFamilySet :=
  let id := wrap 32 (cfs_max_column_family s + 1) in
  (id, mkFamilies (families s) (column_families_ s) (column_family_impls_ s) id (default_cfd_ s)).

(** [insert] of the two maps: a key that is there keeps its value. *)
Definition insert_new {K V} `{Countable K} (k : K) (v : V) (m : gmap K V) : gmap K V :=
  match m !! k with Some _ => m | None => <[k := v]> m end.

Definition NewColumnFamily (opts : ColumnFamilyOptions) (name : bytes) (id : Z) (s : ColumnFamilySet) :
    ColumnFamilySet :=
  let cfd := length (families s) in
  mkFamilies (families s ++ [NewFamily name id opts])
    (insert_new name id (column_families_ s))
    (insert_new id cfd (column_family_impls_ s))
    (Z.max id (cfs_max_column_family s))
    (if id =? 0 then Some cfd else default_cfd_ s).

(** [RemoveColumnFamily]: erasing the end of the map is undefined. *)
Definition RemoveColumnFamily (f : ColumnFamilyImpl) (s : ColumnFamilySet) : option ColumnFamilySet :=
  match column_family_impls_ s !! cf_id f with
  | None => None
  | Some _ =>
    Some (mkFamilies (families s) (delete (cf_name f) (column_families_ s))
            (delete (cf_id f) (column_family_impls_ s)) (cfs_max_column_family s) (default_cfd_ s))
  end.

Definition Drop (i : nat) (s : ColumnFamilySet) : option ColumnFamilySet :=
  f ← families s !! i; RemoveColumnFamily f (update_family i set_dropped s).

(** ** The parts of a patch *)

Definition apply_redo_log (p : VersionPatch) (s : ColumnFamilySet) : option ColumnFamilySet :=
  if has_field kRedoLog p then
    i ← GetColumnFamily (rl_cfid (redo_log_ p)) s;
    Some (update_family i (set_redo_log_number (rl_number (redo_log_ p))) s)
  else Some s.

Definition apply_drop (p : VersionPatch) (s : ColumnFamilySet) : option ColumnFamilySet :=
  if has_field kDropColumnFamily p then i ← GetColumnFamily (cf_deletion_ p) s; Drop i s else Some s.

(** [Prepare]: the first family found for the files of the patch. *)
Definition builder_cfd (p : VersionPatch) (s : ColumnFamilySet) : option nat :=
  head (omap (fun id => GetColumnFamily id s) (map fc_cfid (file_creation_ p) ++ map fd_cfid (file_deletion_ p))).

(** The builder: [Prepare], [Apply], [Build] and [Append]. *)
Definition apply_files (p : VersionPatch) (s : ColumnFamilySet) : option ColumnFamilySet :=
  if has_field kDeletion p || has_field kCreation p then
    i ← builder_cfd p s;
    f ← families s !! i;
    v ← new_version (InternalCompare (comparator_Compare (cf_options f))) p (current f);
    Some (update_family i (set_current v) s)
  else Some s.

Definition apply_point (p : VersionPatch) (s : ColumnFamilySet) : option ColumnFamilySet :=
  if has_field kCompactionPoint p then
    let point := compaction_point_ p in
    i ← GetColumnFamily (cp_cfid point) s;
    if (0 <=? cp_level point) && (cp_level point <? Z.of_nat kMaxLevel) then
      Some (update_family i (fun f => set_points (<[Z.to_nat (cp_level point) := cp_key point]> (cf_compaction_point f)) f) s)
    else None
  else Some s.

(** ** VersionSet *)

Class EnvOps (E F : Type) := {
  NewWritableFile : bytes -> E -> (error + F) * E;
  NewSequentialFile : bytes -> E -> error + SequentialFile;
  WriteAll : bytes -> bytes -> E -> error * E;
  Sync : F -> error * F;
}.

Record VersionSet (F : Type) := mkSet {
  cfs : ColumnFamilySet;
  vs_block_size : Z;
  last_sequence_number : Z;
  next_file_number : Z;
  prev_log_number : Z;
  vs_redo_log_number : Z;
  manifest_file_number : Z;
  logger_ : option (LogWriter F)
}.
Arguments mkSet {F}.
Arguments cfs {F} _.
Arguments vs_block_size {F} _.
Arguments last_sequence_number {F} _.
Arguments next_file_number {F} _.
Arguments prev_log_number {F} _.
Arguments vs_redo_log_number {F} _.
Arguments manifest_file_number {F} _.
Arguments logger_ {F} _.

Section version_set.
Context {E F : Type} `{!WritableFile F, !EnvOps E F}.
Context (abs_db_path_ : bytes).

Definition NewVersionSet (block_size : Z) : VersionSet F := mkSet NewColumnFamilySet block_size 0 0 0 0 0 None.

Definition set_cfs (s : ColumnFamilySet) (v : VersionSet F) : VersionSet F :=
  mkSet s (vs_block_size v) (last_sequence_number v) (next_file_number v) (prev_log_number v)
    (vs_redo_log_number v) (manifest_file_number v) (logger_ v).
Definition set_numbers (last next prev redo manifest : Z) (v : VersionSet F) : VersionSet F :=
  mkSet (cfs v) (vs_block_size v) last next prev redo manifest (logger_ v).
Definition set_logger (l : option (LogWriter F)) (v : VersionSet F) : VersionSet F :=
  mkSet (cfs v) (vs_block_size v) (last_sequence_number v) (next_file_number v) (prev_log_number v)
    (vs_redo_log_number v) (manifest_file_number v) l.
Definition set_next (next : Z) (v : VersionSet F) : VersionSet F :=
  set_numbers (last_sequence_number v) next (prev_log_number v) (vs_redo_log_number v) (manifest_file_number v) v.
Definition set_manifest (n : Z) (v : VersionSet F) : VersionSet F :=
  set_numbers (last_sequence_number v) (next_file_number v) (prev_log_number v) (vs_redo_log_number v) n v.

Definition AddSequenceNumber (add : Z) (v : VersionSet F) : VersionSet F :=
  set_numbers (wrap 64 (last_sequence_number v + add)) (next_file_number v) (prev_log_number v)
    (vs_redo_log_number v) (manifest_file_number v) v.
Definition UpdateSequenceNumber (val : Z) (v : VersionSet F) : VersionSet F :=
  if last_sequence_number v <? val then
    set_numbers val (next_file_number v) (prev_log_number v) (vs_redo_log_number v) (manifest_file_number v) v
  else v.
Definition GenerateFileNumber (v : VersionSet F) : Z * VersionSet F :=
  (next_file_number v, set_next (wrap 64 (next_file_number v + 1)) v).
Definition ReuseFileNumber (file_number : Z) (v : VersionSet F) : VersionSet F :=
  if wrap 64 (file_number + 1) =? next_file_number v then set_next file_number v else v.

(** *** Writing the manifest *)

Definition WritePatch (patch : VersionPatch) (v : VersionSet F) : outcome (error * VersionSet F) :=
  match logger_ v with
  | None => Undef
  | Some w =>
    (do! (rs, w) := Append (Encode patch) w in
     if negb (ok rs) then Done (rs, set_logger (Some w) v) else
     let '(rs, w) := lw_Flush w in
     if negb (ok rs) then Done (rs, set_logger (Some w) v) else
     let '(rs, f) := Sync (fw_file (lw_writer w)) in
     let w := mkLW (mkFW f (written_position_ (lw_writer w))) (lw_block_size w) (lw_block_offset w) in
     Done (rs, set_logger (Some w) v))%out
  end.

(** The files of a family as creations. *)
Definition create_files (f : ColumnFamilyImpl) (p : VersionPatch) : VersionPatch :=
  fold_left (fun p i => fold_left (fun p fmd => CreateFile (cf_id f) (Z.of_nat i) fmd p) (level_files (current f) i) p)
    (seq 0 kMaxLevel) p.

Definition family_patch (f : ColumnFamilyImpl) (p : VersionPatch) : VersionPatch :=
  create_files f
    (SetRedoLog (cf_id f) (redo_log_number f)
      (AddColumnFamily (cf_name f) (cf_id f) (comparator_Name (cf_options f)) (Reset p))).

(** The loop over the linked list. *)
Fixpoint write_families (fs : list ColumnFamilyImpl) (patch : VersionPatch) (v : VersionSet F) :
    outcome (error * VersionPatch * VersionSet F) :=
  match fs with
  | [] => Done (kOk, patch, v)
  | f :: fs =>
    let patch := family_patch f patch in
    (do! (rs, v) := WritePatch patch v in
     if negb (ok rs) then Done (rs, patch, v) else write_families fs patch v)%out
  end.

Definition numbers_patch (v : VersionSet F) (p : VersionPatch) : VersionPatch :=
  SetPrevLogNumber (prev_log_number v)
    (SetRedoLogNumber (vs_redo_log_number v)
      (SetNextFileNumber (next_file_number v)
        (SetLastSequenceNumber (last_sequence_number v)
          (SetMaxColumnFamily (cfs_max_column_family (cfs v)) (Reset p))))).

Definition WriteCurrentSnapshot (env : E) (v : VersionSet F) : outcome (error * VersionSet F * E) :=
  (do! (rs, patch, v) := write_families (families (cfs v)) NewVersionPatch v in
   if negb (ok rs) then Done (rs, v, env) else
   let patch := numbers_patch v patch in
   let '(rs, env) := WriteAll (CurrentFileName abs_db_path_) (decimal (manifest_file_number v)) env in
   if negb (ok rs) then Done (rs, v, env) else
   do! (rs, v) := WritePatch patch v in Done (rs, v, env))%out.

Definition CreateManifestFile (env : E) (v : VersionSet F) : outcome (error * VersionSet F * E) :=
  let '(n, v) := GenerateFileNumber v in
  let v := set_manifest n v in
  match NewWritableFile (ManifestFileName abs_db_path_ n) env with
  | (inl rs, env) => Done (rs, ReuseFileNumber n v, env)
  | (inr f, env) => WriteCurrentSnapshot env (set_logger (Some (NewLogWriter f (vs_block_size v))) v)
  end.

(** What [LogAndApply] adds to the patch it is given. *)
Definition fill_patch (v : VersionSet F) (p : VersionPatch) : VersionPatch :=
  let p := if has_field kRedoLogNumber p then p else SetRedoLogNumber (vs_redo_log_number v) p in
  let p := if has_field kPrevLogNumber p then p else SetPrevLogNumber (prev_log_number v) p in
  SetLastSequenceNumber (last_sequence_number v) (SetNextFileNumber (next_file_number v) p).

(** A new family is made before its patch is written. *)
Definition add_family (cf_opts : ColumnFamilyOptions) (p : VersionPatch) (s : ColumnFamilySet) :
    VersionPatch * ColumnFamilySet :=
  if has_field kAddColumnFamily p then
    let s := NewColumnFamily cf_opts (cc_name (cf_creation_ p)) (cc_cfid (cf_creation_ p)) s in
    (SetMaxColumnFamily (cfs_max_column_family s) p, s)
  else (p, s).

Definition LogAndApply (cf_opts : ColumnFamilyOptions) (patch : VersionPatch) (env : E) (v : VersionSet F) :
    outcome (error * VersionSet F * E) :=
  let '(patch, s) := add_family cf_opts (fill_patch v patch) (cfs v) in
  (do! s := ofopt (apply_redo_log patch s) in
   do! s := ofopt (apply_drop patch s) in
   let v := set_cfs s v in
   do! (rs, patch, v, env) :=
     match logger_ v with
     | Some _ => Done (kOk, patch, v, env)
     | None =>
       do! (rs, v, env) := CreateManifestFile env v in
       Done (rs, if ok rs then SetNextFileNumber (next_file_number v) patch else patch, v, env)
     end in
   if negb (ok rs) then Done (rs, v, env) else
   do! (rs, v) := WritePatch patch v in
   if negb (ok rs) then Done (rs, v, env) else
   do! s := ofopt (apply_files patch (cfs v)) in
   let v := set_cfs s v in
   Done (kOk, set_numbers (last_sequence_number v) (next_file_number v) (prev_log_number_ patch)
                (redo_log_number_ patch) (manifest_file_number v) v, env))%out.

(** *** Recovery *)

(** The family a record adds; [None] is a corrupted record. *)
Definition apply_add (desc : gmap bytes ColumnFamilyOptions) (p : VersionPatch) (s : ColumnFamilySet) :
    option ColumnFamilySet :=
  if has_field kAddColumnFamily p then
    match desc !! cc_name (cf_creation_ p) with
    | None => None
    | Some opts =>
      if bool_decide (cc_comparator_name (cf_creation_ p) = comparator_Name opts) then
        Some (NewColumnFamily opts (cc_name (cf_creation_ p)) (cc_cfid (cf_creation_ p)) s)
      else None
    end
  else Some s.

(** One record of the manifest; [history] collects the redo logs. *)
Definition apply_record (desc : gmap bytes ColumnFamilyOptions) (p : VersionPatch) (v : VersionSet F) (history : gset Z) :
    outcome (error * VersionSet F * gset Z) :=
  match apply_add desc p (cfs v) with
  | None => Done (kCorruption, v, history)
  | Some s =>
    (do! s := ofopt (apply_drop p s) in
     do! s := ofopt (apply_files p s) in
     do! s := ofopt (apply_point p s) in
     do! s := ofopt (apply_redo_log p s) in
     let s := if has_field kMaxColumnFamily p then UpdateColumnFamilyId (max_column_family_ p) s else s in
     Done (kOk,
       set_numbers
         (if has_field kLastSequenceNumber p then last_sequence_number_ p else last_sequence_number v)
         (if has_field kNextFileNumber p then next_file_number_ p else next_file_number v)
         (if has_field kPrevLogNumber p then prev_log_number_ p else prev_log_number v)
         (if has_field kRedoLogNumber p then redo_log_number_ p else vs_redo_log_number v)
         (manifest_file_number v) (set_cfs s v),
       if has_field kRedoLogNumber p then {[ redo_log_number_ p ]} ∪ history else history))%out
  end.

(** The loop over the records; a record that is not understood ends it. *)
Fixpoint recovery_loop (fuel : nat) (desc : gmap bytes ColumnFamilyOptions) (patch : VersionPatch)
    (record scratch : bytes) (r : LogReader) (v : VersionSet F) (history : gset Z) :
    outcome (error * VersionSet F * gset Z * LogReader) :=
  match fuel with
  | O => OutOfFuel
  | S fuel =>
    (do! (more, record, scratch, r) := Read record scratch r in
     if negb more then Done (kOk, v, history, r) else
     do! patch := ofopt (Decode record (Reset patch)) in
     do! (rs, v, history) := apply_record desc patch v history in
     if negb (ok rs) then Done (rs, v, history, r)
     else recovery_loop fuel desc patch record scratch r v history)%out
  end.

(** Every record takes a header of the file. *)
Definition Recovery (desc : gmap bytes ColumnFamilyOptions) (file_number : Z) (history : gset Z) (env : E)
    (v : VersionSet F) : outcome (error * VersionSet F * gset Z) :=
  match NewSequentialFile (ManifestFileName abs_db_path_ file_number) env with
  | inl rs => Done (rs, v, history)
  | inr file =>
    (do! (rs, v, history, r) :=
       recovery_loop (S (length (sf_data file))) desc NewVersionPatch [] [] (NewLogReader file true kDefaultBlockSize) v history in
     if negb (ok rs) then Done (rs, v, history)
     else if negb (ok (lr_error r)) && negb (bool_decide (lr_error r = kEOF)) then Done (lr_error r, v, history)
     else Done (kOk, set_manifest file_number v, history))%out
  end.
End version_set.

(** ** Sets of families that persist the same *)

(** Families that differ in their compaction points and in the order of the
    files within a level. *)
Record same_family (a b : ColumnFamilyImpl) : Prop := {
  same_cf_name : cf_name a = cf_name b;
  same_cf_id : cf_id a = cf_id b;
  same_cf_options : cf_options a = cf_options b;
  same_dropped : dropped a = dropped b;
  same_redo_number : redo_log_number a = redo_log_number b;
  same_length : length (current a) = kMaxLevel /\ length (current b) = kMaxLevel;
  same_files : forall l, level_files (current a) l ≡ₚ level_files (current b) l;
}.

Record same_families (s t : ColumnFamilySet) : Prop := {
  same_list : Forall2 same_family (families s) (families t);
  same_ids : column_family_impls_ s = column_family_impls_ t;
  same_names : column_families_ s = column_families_ t;
  same_default : default_cfd_ s = default_cfd_ t;
  same_max_le : cfs_max_column_family t <= cfs_max_column_family s;
}.

Lemma length_Apply icmp p levels levels' :
  length levels = kMaxLevel -> Apply icmp p levels = Some levels' -> length levels' = kMaxLevel.
Proof.
  assert (Hat : forall level f (ls ls' : list FileEntry),
    at_level level f ls = Some ls' -> length ls' = length ls).
  { intros level f ls ls'. unfold at_level. destruct (_ && _); [|done]. intros [= <-]. apply length_alter. }
  assert (Hfold : forall {A} (step : A -> list FileEntry -> option (list FileEntry)) (l : list A) acc ls',
    (forall x a b, step x a = Some b -> length b = length a) ->
    foldl (fun ls d => ls ← ls; step d ls) acc l = Some ls' ->
    exists a, acc = Some a /\ length ls' = length a).
  { intros A step l. induction l as [|x l IH]; intros acc ls' Hs; cbn [foldl]; [eauto|].
    intros H. destruct (IH _ _ Hs H) as (a & Ha & Hl). destruct acc as [b|]; cbn in Ha; [|done].
    exists b. split; [done|]. rewrite Hl. by apply (Hs x). }
  intros Hlen. unfold Apply. destruct (foldl _ (Some levels) (file_deletion_ p)) as [l1|] eqn:E1; [|done].
  cbn [mbind option_bind]. intros E2.
  destruct (Hfold _ (fun d ls => apply_deletion d ls) _ _ _ (fun x a b => Hat _ _ a b) E1) as (a & [= <-] & H1).
  destruct (Hfold _ (fun c ls => apply_creation icmp c ls) _ _ _ (fun x a b => Hat _ _ a b) E2) as (b & [= <-] & H2).
  congruence.
Qed.

Lemma level_files_ge (v : list (list FileMetaData)) l : (length v <= l)%nat -> level_files v l = [].
Proof. intros H. exact (f_equal (default []) (lookup_ge_None_2 v l H)). Qed.

(** A patch does the same to versions with the same files. *)
Lemma new_version_same icmp p v w v' :
  length v = kMaxLevel -> length w = kMaxLevel -> (forall l, level_files v l ≡ₚ level_files w l) ->
  new_version icmp p v = Some v' ->
  exists w', new_version icmp p w = Some w' /\ length v' = kMaxLevel /\ length w' = kMaxLevel /\
    forall l, level_files v' l ≡ₚ level_files w' l.
Proof.
  intros Hv Hw Hp. unfold new_version. destruct (Apply icmp p NewBuilder) as [levels|] eqn:E; [|done].
  cbn [mbind option_bind]. intros [= <-]. eexists. split; [reflexivity|].
  pose proof (length_Apply icmp p NewBuilder levels eq_refl E) as Hl.
  assert (Hb : forall u : list (list FileMetaData), length u = kMaxLevel -> length (Build u levels) = kMaxLevel)
    by (intros u Hu; unfold Build; rewrite length_zip_with; lia).
  split_and!; [by apply Hb..|]. intros l. destruct (Nat.lt_ge_cases l kMaxLevel) as [Hlt|Hge].
  - destruct (lookup_lt_is_Some_2 levels l ltac:(lia)) as [e He].
    rewrite !(level_files_Build levels _ l e He) by lia. unfold build_level. by rewrite (Hp l).
  - by rewrite !level_files_ge by (rewrite Hb by done; lia).
Qed.

Lemma update_same i g s t :
  same_families s t -> (forall a b, same_family a b -> same_family (g a) (g b)) ->
  same_families (update_family i g s) (update_family i g t).
Proof.
  intros [Hl Hi Hn Hd Hm] Hg. split; cbn; [|done..].
  apply Forall2_alter; [done|]. intros a b _ _. apply Hg.
Qed.

Lemma set_redo_same n a b :
  same_family a b -> same_family (set_redo_log_number n a) (set_redo_log_number n b).
Proof. intros []. by split. Qed.

Lemma set_dropped_same a b : same_family a b -> same_family (set_dropped a) (set_dropped b).
Proof. intros []. by split. Qed.

Lemma apply_redo_log_same p s t s' :
  same_families s t -> apply_redo_log p s = Some s' ->
  exists t', apply_redo_log p t = Some t' /\ same_families s' t'.
Proof.
  intros Hst. unfold apply_redo_log, GetColumnFamily. destruct (has_field kRedoLog p); [|intros [= <-]; eauto].
  rewrite (same_ids _ _ Hst). destruct (_ !! _) as [i|]; cbn; [|done]. intros [= <-]. eexists. split; [done|].
  apply update_same; [done|]. intros a b. apply set_redo_same.
Qed.

Lemma apply_drop_same p s t s' :
  same_families s t -> apply_drop p s = Some s' ->
  exists t', apply_drop p t = Some t' /\ same_families s' t'.
Proof.
  intros Hst. unfold apply_drop, GetColumnFamily. destruct (has_field kDropColumnFamily p); [|intros [= <-]; eauto].
  rewrite (same_ids _ _ Hst). destruct (_ !! _) as [i|]; cbn; [|done]. unfold Drop, RemoveColumnFamily.
  pose proof (same_list _ _ Hst) as Hl. destruct (families s !! i) as [f|] eqn:Ef; cbn; [|done].
  destruct (Forall2_lookup_l _ _ _ _ _ Hl Ef) as (g & Eg & Hfg). rewrite Eg. cbn.
  rewrite (same_ids _ _ Hst), (same_cf_id _ _ Hfg).
  destruct (column_family_impls_ t !! cf_id g) as [j|]; [|done]. intros H; injection H as <-.
  eexists. split; [done|]. split; cbn.
  - apply Forall2_alter; [done|]. intros a b _ _. apply set_dropped_same.
  - done.
  - by rewrite (same_names _ _ Hst), (same_cf_name _ _ Hfg).
  - apply (same_default _ _ Hst).
  - apply (same_max_le _ _ Hst).
Qed.

Lemma apply_files_same p s t s' :
  same_families s t -> apply_files p s = Some s' ->
  exists t', apply_files p t = Some t' /\ same_families s' t'.
Proof.
  intros Hst. unfold apply_files. destruct (_ || _); [|intros [= <-]; eauto].
  assert (builder_cfd p s = builder_cfd p t) as E.
  { unfold builder_cfd. f_equal. apply list_omap_ext, Forall2_same_length_lookup. split; [done|].
    intros i x y Hx Hy. rewrite Hx in Hy. injection Hy as <-. unfold GetColumnFamily. by rewrite (same_ids _ _ Hst). }
  rewrite E. destruct (builder_cfd p t) as [i|]; cbn; [|done].
  destruct (families s !! i) as [f|] eqn:Ef; cbn; [|done].
  destruct (Forall2_lookup_l _ _ _ _ _ (same_list _ _ Hst) Ef) as (g & Eg & Hfg). rewrite Eg. cbn.
  destruct (new_version _ p (current f)) as [v|] eqn:Ev; cbn; [|done]. intros [= <-].
  destruct (same_length _ _ Hfg) as [Hlf Hlg].
  destruct (new_version_same _ p _ (current g) _ Hlf Hlg (same_files _ _ Hfg) Ev) as (w & Ew & Hv & Hw & Hp).
  rewrite <- (same_cf_options _ _ Hfg), Ew. cbn. eexists. split; [done|].
  destruct Hst as [Hl Hi Hn Hd Hm]. split; cbn; [|done..].
  apply Forall2_same_length_lookup. rewrite !length_alter. split; [by eapply Forall2_length|].
  intros j a b. destruct (decide (j = i)) as [->|Hji].
  - rewrite !list_lookup_alter_eq, Ef, Eg. cbn. intros [= <-] [= <-]. destruct Hfg. by split.
  - rewrite !list_lookup_alter_ne by done. intros Ha Hb.
    destruct (Forall2_lookup_l _ _ _ _ _ Hl Ha) as (b' & Hb' & H). by simplify_eq.
Qed.

Lemma NewColumnFamily_same opts name id s t :
  same_families s t -> same_families (NewColumnFamily opts name id s) (NewColumnFamily opts name id t).
Proof.
  intros [Hl Hi Hn Hd Hm]. unfold NewColumnFamily. split; cbn.
  - apply Forall2_app; [done|]. by repeat constructor.
  - by rewrite Hi, (Forall2_length _ _ _ Hl).
  - by rewrite Hn.
  - by rewrite Hd, (Forall2_length _ _ _ Hl).
  - lia.
Qed.

(** [LogAndApply] moves the redo log before the files, [Recovery] after them. *)
Lemma redo_files_commute p s s1 s2 :
  apply_redo_log p s = Some s1 -> apply_files p s1 = Some s2 ->
  exists s1', apply_files p s = Some s1' /\ apply_redo_log p s1' = Some s2.
Proof.
  unfold apply_redo_log, apply_files, GetColumnFamily. destruct (has_field kRedoLog p).
  2:{ intros [= <-]. eauto. }
  destruct (column_family_impls_ s !! _) as [i|] eqn:Ei; cbn; [|done]. intros [= <-].
  destruct (_ || _); [|intros [= <-]; eexists; split; [done|]; by rewrite Ei].
  change (builder_cfd p (update_family _ _ s)) with (builder_cfd p s).
  destruct (builder_cfd p s) as [j|]; cbn; [|done].
  destruct (families s !! j) as [f|] eqn:Ef.
  2:{ cbn. destruct (decide (i = j)) as [->|]; [rewrite list_lookup_alter_eq | rewrite list_lookup_alter_ne by done];
      by rewrite Ef. }
  assert (exists f', alter (set_redo_log_number (rl_number (redo_log_ p))) i (families s) !! j = Some f' /\
    cf_options f' = cf_options f /\ current f' = current f) as (f' & -> & Ho & Hc).
  { destruct (decide (i = j)) as [->|]; [rewrite list_lookup_alter_eq | rewrite list_lookup_alter_ne by done];
      rewrite Ef; eexists; by split. }
  cbn. rewrite Ho, Hc. destruct (new_version _ p (current f)) as [v|]; cbn; [|done]. intros [= <-].
  eexists. split; [done|]. cbn. rewrite Ei. cbn. f_equal. unfold update_family, set_families. cbn. f_equal.
  destruct (decide (i = j)) as [->|Hij]; [|by apply list_alter_alter_ne].
  rewrite !list_alter_alter_eq. by apply list_alter_ext.
Qed.

(** *** Patches that say the same *)

Section records.
Context {E F : Type} `{!WritableFile F, !EnvOps E F}.

Lemma apply_drop_fields p q s : same_patch p q -> apply_drop p s = apply_drop q s.
Proof.
  intros H. unfold apply_drop. rewrite <- (same_fields _ _ H).
  destruct (has_field kDropColumnFamily p) eqn:E1; [|done]. by rewrite (same_drop _ _ H).
Qed.

Lemma apply_files_fields p q s : same_patch p q -> apply_files p s = apply_files q s.
Proof.
  intros H. unfold apply_files, builder_cfd, new_version, Apply.
  by rewrite <- !(same_fields _ _ H), <- (same_creation _ _ H), <- (same_deletion _ _ H).
Qed.

Lemma apply_point_fields p q s : same_patch p q -> apply_point p s = apply_point q s.
Proof.
  intros H. unfold apply_point. rewrite <- (same_fields _ _ H).
  destruct (has_field kCompactionPoint p) eqn:E1; [|done]. by rewrite (same_point _ _ H).
Qed.

Lemma apply_redo_log_fields p q s : same_patch p q -> apply_redo_log p s = apply_redo_log q s.
Proof.
  intros H. unfold apply_redo_log. rewrite <- (same_fields _ _ H).
  destruct (has_field kRedoLog p) eqn:E1; [|done]. by rewrite (same_redo_log _ _ H).
Qed.

Lemma apply_add_fields desc p q s : same_patch p q -> apply_add desc p s = apply_add desc q s.
Proof.
  intros H. unfold apply_add. rewrite <- (same_fields _ _ H).
  destruct (has_field kAddColumnFamily p) eqn:E1; [|done]. by rewrite (same_add _ _ H).
Qed.

Lemma apply_record_fields desc p q (v : VersionSet F) h :
  same_patch p q -> apply_record desc p v h = apply_record desc q v h.
Proof.
  intros H. unfold apply_record. rewrite <- !(same_fields _ _ H).
  rewrite (apply_add_fields desc p q) by done. destruct (apply_add desc q (cfs v)) as [s|]; [|done].
  rewrite (apply_drop_fields p q) by done; destruct (apply_drop q s) as [s1|]; cbn [ofopt obind]; [|done].
  rewrite (apply_files_fields p q) by done; destruct (apply_files q s1) as [s2|]; cbn [ofopt obind]; [|done].
  rewrite (apply_point_fields p q) by done; destruct (apply_point q s2) as [s3|]; cbn [ofopt obind]; [|done].
  rewrite (apply_redo_log_fields p q) by done; destruct (apply_redo_log q s3) as [s4|]; cbn [ofopt obind]; [|done].
  assert (Hif : forall {A} (b : bool) (x y d : A), (b = true -> x = y) -> (if b then x else d) = (if b then y else d))
    by (intros A [] x y d Hxy; auto).
  rewrite (Hif _ _ _ _ _ (same_last _ _ H)), (Hif _ _ _ _ _ (same_next _ _ H)), (Hif _ _ _ _ _ (same_prev _ _ H)),
    (Hif _ _ _ _ (vs_redo_log_number v) (same_redo _ _ H)).
  destruct (has_field kMaxColumnFamily p) eqn:E1, (has_field kRedoLogNumber p) eqn:E2;
    rewrite ?(same_max _ _ H E1), ?(same_redo _ _ H E2); done.
Qed.

(** The records one after the other. *)
Fixpoint replay (desc : gmap bytes ColumnFamilyOptions) (ps : list VersionPatch) (v : VersionSet F) (h : gset Z) :
    outcome (error * VersionSet F * gset Z) :=
  match ps with
  | [] => Done (kOk, v, h)
  | p :: ps =>
    (do! (rs, v, h) := apply_record desc p v h in
     if ok rs then replay desc ps v h else Done (rs, v, h))%out
  end.

Lemma replay_app desc ps qs (v v' : VersionSet F) h h' :
  replay desc ps v h = Done (kOk, v', h') -> replay desc (ps ++ qs) v h = replay desc qs v' h'.
Proof.
  revert v h. induction ps as [|p ps IH]; intros v h; cbn [replay app]; [by intros [= -> ->]|].
  destruct (apply_record desc p v h) as [[[rs w] k]| |]; cbn [obind]; [|done..].
  destruct (ok_spec rs) as [->|Hrs]; [apply IH | intros [= -> _ _]; done].
Qed.

(** Records at an offset of a log with blocks of [bs] bytes, and the offset
    after them. *)
Inductive logged (bs : Z) : Z -> list bytes -> bytes -> Z -> Prop :=
| logged_nil off : logged bs off [] [] off
| logged_cons off p e off1 ps es off' :
    frags bs off true p e off1 -> logged bs off1 ps es off' -> logged bs off (p :: ps) (e ++ es) off'.

Lemma logged_snoc bs off ps es off1 p e off' :
  logged bs off ps es off1 -> frags bs off1 true p e off' -> logged bs off (ps ++ [p]) (es ++ e) off'.
Proof.
  induction 1 as [off|off q e1 off1 ps es off2 Hq _ IH]; intros Hp; cbn [app].
  - rewrite <- (app_nil_r e). eapply logged_cons; [exact Hp | constructor].
  - rewrite <- app_assoc. eapply logged_cons; [done | by apply IH].
Qed.

Lemma frags_length bs off first p e off' : frags bs off first p e off' -> zlen p <= zlen e.
Proof.
  induction 1 as [off first p Hp|off first p e off' Hp Hf IH].
  - rewrite zlen_app, phys_type_zlen. pose proof (zlen_nonneg (pad bs off)). lia.
  - rewrite !zlen_app, phys_type_zlen. pose proof (zlen_nonneg (pad bs off)).
    rewrite <- (take_drop (Z.to_nat (room bs off)) p) at 1. rewrite zlen_app. lia.
Qed.

(** Within the first block the size of the blocks does not matter. *)
Lemma frags_one_block bs bs' off first p e off' :
  frags bs off first p e off' -> 0 <= off -> off + zlen e <= bs -> off + zlen e <= bs' ->
  frags bs' off first p e off' /\ off' = off + zlen e.
Proof.
  destruct 1 as [off first p Hp|off first p e off' Hp Hf]; intros Ho H1 H2; rewrite !zlen_app, phys_type_zlen in H1, H2.
  - pose proof (zlen_nonneg (pad bs off)). pose proof (zlen_nonneg p).
    assert (Ep : pad bs off = [] /\ base bs off = off /\ pad bs' off = [] /\ base bs' off = off).
    { unfold pad, base. destruct (Z.ltb_spec (bs - off) 7), (Z.ltb_spec (bs' - off) 7); split_and!; done || lia. }
    destruct Ep as (Ep & Eb & Ep' & Eb'). rewrite Ep, Eb. cbn [app]. split; [|rewrite phys_type_zlen; lia].
    pose proof (frag_last bs' off first p ltac:(unfold room; lia)) as Hf. by rewrite Ep', Eb' in Hf.
  - pose proof (zlen_nonneg (pad bs off)). pose proof (frags_not_nil _ _ _ _ _ _ Hf) as Hn.
    assert (0 < zlen e) by (destruct e; [done|]; rewrite zlen_cons; pose proof (zlen_nonneg e); lia).
    assert (Hr : 0 <= room bs off -> zlen (take (Z.to_nat (room bs off)) p) = room bs off).
    { intros Hr. unfold zlen in *. rewrite length_take. lia. }
    pose proof (zlen_nonneg (take (Z.to_nat (room bs off)) p)). unfold room, base in *.
    destruct (Z.ltb_spec (bs - off) 7); [lia|]. specialize (Hr ltac:(lia)). lia.
Qed.

Lemma logged_one_block bs bs' off ps es off' :
  logged bs off ps es off' -> 0 <= off -> off + zlen es <= bs -> off + zlen es <= bs' -> logged bs' off ps es off'.
Proof.
  induction 1 as [off|off p e off1 ps es off' Hf _ IH]; intros Ho H1 H2; [constructor|]. rewrite zlen_app in H1, H2.
  pose proof (zlen_nonneg es). pose proof (zlen_nonneg e). destruct (frags_one_block bs bs' _ _ _ _ _ Hf) as [Hf' E1]; [lia..|].
  subst off1. econstructor; [exact Hf'|]. apply IH; lia.
Qed.

Lemma logged_records bs off ps es off' :
  logged bs off ps es off' -> Forall (fun p => zlen p <= zlen es) ps /\ (length ps <= length es)%nat.
Proof.
  induction 1 as [off|off p e off1 ps es off' Hf Hl [IH1 IH2]]; [by split; [constructor | cbn]|].
  pose proof (frags_length _ _ _ _ _ _ Hf). pose proof (zlen_nonneg es). pose proof (zlen_nonneg e).
  pose proof (frags_not_nil _ _ _ _ _ _ Hf). split.
  - constructor; [rewrite zlen_app; lia|]. eapply Forall_impl; [exact IH1|]. intros q Hq. cbn in *. rewrite zlen_app. lia.
  - rewrite length_app. destruct e; [done|]. cbn. lia.
Qed.

Lemma Decode_Encode p q :
  patch_wf p -> in_memory (Encode p) -> exists p', Decode (Encode p) (Reset q) = Some p' /\ same_patch p p'.
Proof.
  intros Hwf Hm. rewrite Encode_items in *. rewrite Decode_items by (done || by apply items_ok).
  eexists. split; [reflexivity|]. by apply fold_items_same.
Qed.

Lemma recovery_loop_replay desc off ps es off' :
  logged kDefaultBlockSize off (map Encode ps) es off' -> 0 <= off <= kDefaultBlockSize ->
  Forall patch_wf ps -> Forall (fun p => in_memory (Encode p) /\ Encode p <> []) ps ->
  forall fuel patch record scratch r pre (v v' : VersionSet F) h h',
  (length ps < fuel)%nat -> lr_block_size r = kDefaultBlockSize -> lr_block_offset r = off ->
  reader_at (lr_reader r) pre es -> fr_error (lr_reader r) <> kEOF ->
  replay desc ps v h = Done (kOk, v', h') ->
  exists r', recovery_loop fuel desc patch record scratch r v h = Done (kOk, v', h', r') /\ lr_error r' = kEOF.
Proof.
  assert (Hbs : 7 < kDefaultBlockSize <= 65535 + 7) by (unfold kDefaultBlockSize; lia).
  remember (map Encode ps) as recs eqn:Er. intros Hl. revert ps Er.
  induction Hl as [off|off rec e off1 recs es off' Hf Hl IH]; intros ps Er Ho Hwf Henc fuel patch record scratch r
    pre v v' h h' Hfuel Hb Hoff Hr He Hrep; (destruct fuel as [|fuel]; [lia|]); cbn [recovery_loop].
  - destruct ps; [|done]. cbn [replay] in Hrep. injection Hrep as -> ->.
    destruct (Read_eof kDefaultBlockSize record scratch r pre) as (r' & -> & E'); [done..|lia|done|].
    cbn [obind negb]. eauto.
  - destruct ps as [|p ps]; [done|]. injection Er as -> ->.
    apply Forall_cons in Hwf as [Hp Hwf]. apply Forall_cons in Henc as [[Hm Hne] Henc].
    destruct (Read_frags kDefaultBlockSize Hbs off (Encode p) e off1 record scratch r pre es)
      as (scr & r' & -> & R' & E' & V' & B' & O'); [done..|]. cbn [obind negb].
    destruct (Decode_Encode p patch Hp Hm) as (p' & -> & Hsame). cbn [ofopt obind].
    cbn [replay] in Hrep. rewrite (apply_record_fields desc p p') in Hrep by done.
    destruct (apply_record desc p' v h) as [[[rs w] k]| |]; cbn [obind] in *; [|done..].
    destruct (ok_spec rs) as [->|Hrs]; [|by injection Hrep as -> _ _].
    cbn [negb]. apply (IH ps eq_refl (frags_off _ Hbs _ _ _ _ _ Ho Hf) Hwf Henc) with (pre := pre ++ e);
      [cbn in Hfuel; lia | done.. | by rewrite E' | done].
Qed.
End records.

(** *** The manifest being written *)

Class EnvReliable (E F : Type) `{WritableFile F, !EnvOps E F} : Prop := {
  env_new name (env : E) : exists f env', NewWritableFile name env = (inr f, env') /\ contents f = [];
  env_current name d (env : E) : exists env' : E, WriteAll name d env = (kOk, env');
  env_sync (f : F) : exists f', Sync f = (kOk, f') /\ contents f' = contents f;
}.

Section writing.
Context {E F : Type} `{!WritableFile F, !WritableFileLaws F, !ReliableFile F, !EnvOps E F, !EnvReliable E F}.

(** A size of the blocks of a log: the length of a fragment has 16 bits. *)
Definition block_size_ok (bs : Z) : Prop := 7 < bs <= 65535 + 7.

(** The log file holds the patches [ps]. *)
Definition manifest (v : VersionSet F) (ps : list VersionPatch) : Prop :=
  exists w, logger_ v = Some w /\ block_size_ok (lw_block_size w) /\
    0 <= lw_block_offset w <= lw_block_size w /\
    logged (lw_block_size w) 0 (map Encode ps) (contents (fw_file (lw_writer w))) (lw_block_offset w).

Lemma WritePatch_manifest p v ps :
  manifest v ps -> exists v', WritePatch p v = Done (kOk, v') /\ manifest v' (ps ++ [p]) /\
    exists l, v' = set_logger l v.
Proof.
  intros (w & Hw & Hbs & Ho & Hl). unfold WritePatch. rewrite Hw.
  destruct (Append_frags (lw_block_size w) Hbs (Encode p) w eq_refl Ho) as (e & w1 & -> & Hf & Hc & Hs1).
  cbn [obind ok]. change (negb (ok kOk)) with false. cbn iota. unfold lw_Flush, fw_Flush.
  destruct (rel_Flush (fw_file (lw_writer w1))) as [f1 Ef1]. rewrite Ef1. change (negb (ok kOk)) with false. cbn.
  destruct (env_sync f1) as (f2 & -> & Hc2). eexists. split; [reflexivity|]. split; [|by eexists].
  eexists. split; [reflexivity|]. cbn. rewrite Hs1. split; [exact Hbs|]. split; [by apply (frags_off _ Hbs _ _ _ _ _ Ho Hf)|].
  rewrite Hc2, (wf_Flush_ok _ _ Ef1), Hc, map_app. by eapply logged_snoc.
Qed.

Fixpoint family_patches (fs : list ColumnFamilyImpl) (p : VersionPatch) : list VersionPatch :=
  match fs with [] => [] | f :: fs => let p := family_patch f p in p :: family_patches fs p end.
Definition last_patch (fs : list ColumnFamilyImpl) (p : VersionPatch) : VersionPatch :=
  fold_left (fun p f => family_patch f p) fs p.

Lemma write_families_manifest fs p v ps :
  manifest v ps -> exists v', write_families fs p v = Done (kOk, last_patch fs p, v') /\
    manifest v' (ps ++ family_patches fs p) /\ exists l, v' = set_logger l v.
Proof.
  revert p v ps. induction fs as [|f fs IH]; intros p v ps Hm; cbn [write_families family_patches].
  { exists v. rewrite app_nil_r. split_and!; [done..|]. exists (logger_ v). by destruct v. }
  destruct (WritePatch_manifest (family_patch f p) v ps Hm) as (v1 & -> & Hm1 & l & ->). cbn [obind].
  change (negb (ok kOk)) with false. cbn iota.
  destruct (IH (family_patch f p) _ _ Hm1) as (v2 & -> & Hm2 & l' & ->). eexists. split; [reflexivity|].
  rewrite <- app_assoc in Hm2. split; [exact Hm2 | by eexists].
Qed.

(** The patches of a snapshot. *)
Definition snapshot_patches (v : VersionSet F) : list VersionPatch :=
  family_patches (families (cfs v)) NewVersionPatch ++
  [numbers_patch v (last_patch (families (cfs v)) NewVersionPatch)].

Lemma CreateManifestFile_manifest db (env : E) v :
  block_size_ok (vs_block_size v) ->
  let v0 := set_manifest (next_file_number v) (set_next (wrap 64 (next_file_number v + 1)) v) in
  exists v' env', CreateManifestFile db env v = Done (kOk, v', env') /\
    manifest v' (snapshot_patches v0) /\ exists l, v' = set_logger l v0.
Proof.
  intros Hb v0. unfold CreateManifestFile, GenerateFileNumber. fold v0.
  destruct (env_new (F := F) (ManifestFileName db (next_file_number v)) env) as (f & env1 & -> & Hf).
  assert (Hm : manifest (set_logger (Some (NewLogWriter f (vs_block_size v0))) v0) []).
  { eexists. split; [reflexivity|]. cbn. rewrite Hf. split; [exact Hb|]. split; [unfold block_size_ok in Hb; lia | constructor]. }
  unfold WriteCurrentSnapshot. change (cfs (set_logger ?l v0)) with (cfs v0).
  destruct (write_families_manifest (families (cfs v0)) NewVersionPatch _ _ Hm) as (v1 & -> & Hm1 & l & ->).
  cbn [obind]. change (negb (ok kOk)) with false. cbn iota.
  destruct (env_current (F := F) (CurrentFileName db)
    (decimal (manifest_file_number (set_logger l (set_logger (Some (NewLogWriter f (vs_block_size v0))) v0)))) env1)
    as (env2 & ->).
  change (negb (ok kOk)) with false. cbn iota.
  match goal with |- context [WritePatch ?p ?w] => destruct (WritePatch_manifest p w _ Hm1) as (v2 & -> & Hm2 & l2 & ->) end.
  cbn [obind]. eexists _, _. split; [reflexivity|]. split; [|by eexists]. exact Hm2.
Qed.
End writing.

(** *** The patches of a snapshot *)

Definition creations (f : ColumnFamilyImpl) : list FileCreation :=
  concat (map (fun i => map (mkCre (cf_id f) (Z.of_nat i)) (level_files (current f) i)) (seq 0 kMaxLevel)).

Definition family_items (f : ColumnFamilyImpl) : list item :=
  IAdd (cf_name f) (cf_id f) (comparator_Name (cf_options f)) :: IRedoLog (cf_id f) (redo_log_number f) ::
  map ICreation (creations f).

Lemma family_patch_items f p : family_patch f p = fold_left apply_item (family_items f) (Reset p).
Proof.
  unfold family_patch, family_items. cbn [fold_left apply_item].
  generalize (SetRedoLog (cf_id f) (redo_log_number f)
    (AddColumnFamily (cf_name f) (cf_id f) (comparator_Name (cf_options f)) (Reset p))). intros q.
  unfold create_files, creations. revert q. generalize (seq 0 kMaxLevel). intros is_.
  induction is_ as [|i is_ IH]; intros q; cbn [fold_left map concat]; [done|].
  rewrite map_app, fold_left_app, <- IH. f_equal. generalize (level_files (current f) i). intros fs. revert q.
  induction fs as [|x fs IHfs]; intros q; cbn [fold_left map]; [done|]. by rewrite <- IHfs.
Qed.

Lemma family_patch_spec f p :
  let q := family_patch f p in
  (forall n, has_field n q = (n =? kAddColumnFamily) || (n =? kRedoLog) ||
     (negb (bool_decide (creations f = [])) && (n =? kCreation))) /\
  cf_creation_ q = mkCF (cf_id f) (cf_name f) (comparator_Name (cf_options f)) /\
  redo_log_ q = mkRedoLog (cf_id f) (redo_log_number f) /\
  file_creation_ q = creations f /\ file_deletion_ q = [].
Proof.
  intros q. unfold q. rewrite family_patch_items. unfold family_items. cbn [fold_left].
  rewrite fold_creations. split_and!; [|done..]. intros n. unfold has_field. cbn -[Z.testbit set_field creations].
  assert (H0 : forall m, Z.testbit 0 m = false) by apply Z.bits_0.
  destruct (bool_decide_reflect (creations f = [])); rewrite !testbit_set_field by done;
    rewrite H0; cbn [orb andb negb];
    by destruct (n =? kAddColumnFamily), (n =? kRedoLog), (n =? kCreation).
Qed.

Lemma created_at_creations f p l :
  file_creation_ p = creations f ->
  created_at p l = if (0 <=? l) && (l <? Z.of_nat kMaxLevel) then level_files (current f) (Z.to_nat l) else [].
Proof.
  intros Hp. unfold created_at. rewrite Hp. unfold creations.
  assert (Hf : forall i, map fc_file (filter (fun c => fc_level c = l)
      (map (mkCre (cf_id f) (Z.of_nat i)) (level_files (current f) i))) =
      if decide (Z.of_nat i = l) then level_files (current f) i else []).
  { intros i. generalize (level_files (current f) i). intros fs. destruct (decide (Z.of_nat i = l)) as [<-|Hne].
    - induction fs as [|x fs IH]; [done|]. cbn [map]. rewrite filter_cons_True by done. cbn [map]. by rewrite IH.
    - induction fs as [|x fs IH]; [done|]. cbn [map]. by rewrite filter_cons_False. }
  change (seq 0 kMaxLevel) with [0%nat; 1%nat; 2%nat; 3%nat]. cbn [map concat].
  rewrite !filter_app, !map_app, !Hf, filter_nil. cbn [map].
  destruct (Z.leb_spec 0 l), (Z.ltb_spec l (Z.of_nat kMaxLevel)); cbn [andb]; change (Z.of_nat kMaxLevel) with 4 in *;
    repeat (destruct (decide _); [try lia|]); try lia; cbn [app]; rewrite ?app_nil_r; try done;
    try (f_equal; lia).
Qed.

(** *** Replaying a snapshot *)

(** A family that can be logged and recovered with the options [desc]. *)
Record family_ok (desc : gmap bytes ColumnFamilyOptions) (f : ColumnFamilyImpl) : Prop := {
  fam_desc : desc !! cf_name f = Some (cf_options f);
  fam_laws : ComparatorLaws (comparator_Compare (cf_options f));
  fam_dropped : dropped f = false;
  fam_length : length (current f) = kMaxLevel;
  fam_numbers : forall l, NoDup (map number (level_files (current f) l));
  fam_id : is_u 32 (cf_id f);
  fam_redo : is_u 64 (redo_log_number f);
  fam_files : Forall creation_ok (creations f);
}.

(** The set with the given families, all of them live. *)
Definition register (fs : list ColumnFamilyImpl) : ColumnFamilySet :=
  fold_left (fun s f => NewColumnFamily (cf_options f) (cf_name f) (cf_id f) s) fs NewColumnFamilySet.

Lemma insert_new_None {K V} `{Countable K} (k j : K) (v : V) (m : gmap K V) :
  m !! j = None -> k <> j -> insert_new k v m !! j = None.
Proof. intros Hm Hk. unfold insert_new. destruct (m !! k); [done|]. by rewrite lookup_insert_ne. Qed.

Lemma insert_new_same {K V} `{Countable K} (k : K) (v : V) (m : gmap K V) :
  m !! k = None -> insert_new k v m !! k = Some v.
Proof. intros Hm. unfold insert_new. by rewrite Hm, lookup_insert_eq. Qed.

Lemma register_snoc fs f :
  register (fs ++ [f]) = NewColumnFamily (cf_options f) (cf_name f) (cf_id f) (register fs).
Proof. unfold register. by rewrite fold_left_app. Qed.

Lemma register_id fs id : id ∉ map cf_id fs -> column_family_impls_ (register fs) !! id = None.
Proof.
  induction fs as [|f fs IH] using rev_ind; [intros _; apply lookup_empty|].
  rewrite map_app. intros [Hid Hf]%not_elem_of_app. rewrite register_snoc. cbn.
  apply insert_new_None; [by apply IH|]. intros Hk. apply Hf. rewrite <- Hk. by left.
Qed.

Lemma length_register fs : length (families (register fs)) = length fs.
Proof.
  induction fs as [|f fs IH] using rev_ind; [done|]. rewrite register_snoc. cbn. rewrite !length_app, IH. done.
Qed.

Lemma register_max fs (m : Z) : Forall (fun f => cf_id f <= m) fs -> 0 <= m -> cfs_max_column_family (register fs) <= m.
Proof.
  intros Hf Hm. induction fs as [|f fs IH] using rev_ind; [done|].
  apply Forall_app in Hf as [Hfs Hf]. rewrite Forall_singleton in Hf. rewrite register_snoc.
  apply Z.max_lub; [exact Hf | exact (IH Hfs)].
Qed.

Lemma creation_levels f c : c ∈ creations f -> in_levels (fc_level c) /\ fc_cfid c = cf_id f.
Proof.
  unfold creations. intros Hc. apply list_elem_of_In, in_concat in Hc as (l & Hl & Hc).
  apply in_map_iff in Hl as (i & <- & Hi). apply in_map_iff in Hc as (fmd & <- & _).
  apply in_seq in Hi. unfold in_levels. cbn [fc_level fc_cfid]. split; [lia | done].
Qed.

Lemma creations_nil f l : creations f = [] -> length (current f) = kMaxLevel -> level_files (current f) l = [].
Proof.
  intros Hc Hl. destruct (Nat.lt_ge_cases l kMaxLevel) as [Hlt|]; [|by apply level_files_ge; lia].
  assert (created_at (fold_left apply_item (map ICreation (creations f)) NewVersionPatch) (Z.of_nat l) = []) as H
    by (by rewrite Hc).
  rewrite (created_at_creations f) in H by (by rewrite fold_creations).
  rewrite Nat2Z.id in H. destruct (Z.leb_spec 0 (Z.of_nat l)), (Z.ltb_spec (Z.of_nat l) (Z.of_nat kMaxLevel)); try lia.
  exact H.
Qed.

(** The files of a family's patch, applied to the family just added. *)
Lemma family_files desc f p :
  family_ok desc f ->
  exists v, new_version (InternalCompare (comparator_Compare (cf_options f))) (family_patch f p) NewVersion = Some v /\
    length v = kMaxLevel /\ forall l, level_files v l ≡ₚ level_files (current f) l.
Proof.
  intros Hok. pose proof (fam_laws _ _ Hok) as Hlaws. destruct (family_patch_spec f p) as (_ & _ & _ & Hc & Hd).
  destruct (new_version_spec (InternalCompare (comparator_Compare (cf_options f))) (family_patch f p) NewVersion)
    as (v & Hv & Hlen & Hl); [| done |].
  { split.
    - rewrite Hd. constructor.
    - rewrite Hc. apply Forall_forall. intros c H. by apply (creation_levels f c).
    - intros l. rewrite (created_at_creations f) by done. destruct (_ && _); [apply (fam_numbers _ _ Hok) | constructor]. }
  exists v. split_and!; [done..|]. intros l. destruct (Nat.lt_ge_cases l kMaxLevel) as [Hlt|Hge].
  - destruct (Hl l Hlt) as (sorted & Hp & _ & ->). rewrite Hp, (created_at_creations f) by done.
    rewrite Nat2Z.id. destruct (Z.leb_spec 0 (Z.of_nat l)), (Z.ltb_spec (Z.of_nat l) (Z.of_nat kMaxLevel)); try lia.
    cbn [andb]. assert (level_files NewVersion l = []) as ->; [|done].
    exact (f_equal (default []) (lookup_replicate_2 kMaxLevel ([] : list FileMetaData) l Hlt)).
  - rewrite !level_files_ge; [done | rewrite (fam_length _ _ Hok) | rewrite Hlen]; done.
Qed.

Lemma Reset_wf p : patch_wf p -> patch_wf (Reset p).
Proof.
  intros [_ _ _ H _ _]. split; [|done|done|exact H|constructor|constructor].
  intros n Hn. unfold has_field in Hn. cbn in Hn. by rewrite Z.bits_0 in Hn.
Qed.

Lemma family_patch_wf desc f p : family_ok desc f -> patch_wf p -> patch_wf (family_patch f p).
Proof.
  intros Hf Hp. rewrite family_patch_items. apply fold_items_wf; [by apply Reset_wf|]. unfold family_items.
  apply Forall_cons_2; [exact (fam_id _ _ Hf)|]. apply Forall_cons_2; [split; [exact (fam_id _ _ Hf) | exact (fam_redo _ _ Hf)]|].
  apply Forall_map. exact (fam_files _ _ Hf).
Qed.

Lemma family_patches_wf desc fs p :
  Forall (family_ok desc) fs -> patch_wf p ->
  Forall (fun q => patch_wf q /\ has_field kAddColumnFamily q = true) (family_patches fs p) /\ patch_wf (last_patch fs p).
Proof.
  intros Hfs. revert p. induction Hfs as [|f fs Hf Hfs IH]; intros p Hp; [by split; [constructor|]|].
  pose proof (family_patch_wf desc f p Hf Hp) as Hw. destruct (IH _ Hw) as [H1 H2]. split; [|exact H2].
  constructor; [|exact H1]. split; [done|]. by rewrite (proj1 (family_patch_spec f p)).
Qed.

Section snapshot.
Context {E F : Type} `{!WritableFile F, !EnvOps E F}.
Context (desc : gmap bytes ColumnFamilyOptions).

Lemma apply_family f p (v : VersionSet F) h :
  family_ok desc f -> column_family_impls_ (cfs v) !! cf_id f = None ->
  exists f', same_family f f' /\
    apply_record desc (family_patch f p) v h =
    Done (kOk, set_cfs (set_families (families (cfs v) ++ [f'])
                          (NewColumnFamily (cf_options f) (cf_name f) (cf_id f) (cfs v))) v, h).
Proof.
  intros Hok Hid. destruct (family_patch_spec f p) as (Hf & Hadd & Hredo & Hc & Hd).
  set (t := NewColumnFamily (cf_options f) (cf_name f) (cf_id f) (cfs v)).
  assert (Hget : GetColumnFamily (cf_id f) t = Some (length (families (cfs v)))) by (by apply insert_new_same).
  assert (Hnew : families t !! length (families (cfs v)) = Some (NewFamily (cf_name f) (cf_id f) (cf_options f)))
    by (unfold t; cbn; by rewrite lookup_app_r, Nat.sub_diag).
  assert (Halter : forall g x, alter g (length (families (cfs v))) (families (cfs v) ++ [x]) = families (cfs v) ++ [g x])
    by (intros g x; rewrite <- (Nat.add_0_r (length _)); by rewrite alter_app_r).
  assert (Hfiles : exists w, apply_files (family_patch f p) t =
      Some (set_families (families (cfs v) ++ [set_current w (NewFamily (cf_name f) (cf_id f) (cf_options f))]) t) /\
      length w = kMaxLevel /\ forall l, level_files w l ≡ₚ level_files (current f) l).
  { destruct (bool_decide_reflect (creations f = [])) as [E0|E0].
    - exists NewVersion. unfold apply_files. rewrite !Hf. split_and!; [done..|].
      intros l. rewrite (creations_nil f l E0 (fam_length _ _ Hok)).
      destruct (Nat.lt_ge_cases l kMaxLevel) as [Hlt|Hge]; [|by rewrite level_files_ge].
      by rewrite (f_equal (default []) (lookup_replicate_2 kMaxLevel ([] : list FileMetaData) l Hlt)
                  : level_files NewVersion l = []).
    - destruct (family_files desc f p Hok) as (w & Hw & Hl & Hp). exists w. split_and!; [|done..].
      unfold apply_files. rewrite !Hf. cbn [kDeletion kCreation Z.eqb Pos.eqb andb orb negb].
      unfold builder_cfd. rewrite Hc, Hd.
      destruct (creations f) as [|c cs] eqn:Ec; [done|].
      assert (fc_cfid c = cf_id f) as Hcid by (apply (creation_levels f c); rewrite Ec; by left).
      cbn [map app omap list_omap head]. rewrite Hcid, Hget. cbn [head mbind option_bind].
      rewrite Hnew. cbn [mbind option_bind cf_options current NewFamily]. rewrite Hw. cbn [mbind option_bind].
      unfold update_family. f_equal. f_equal. unfold t. cbn [families NewColumnFamily]. apply Halter. }
  destruct Hfiles as (w & Hw & Hlw & Hpw).
  exists (set_redo_log_number (redo_log_number f) (set_current w (NewFamily (cf_name f) (cf_id f) (cf_options f)))).
  split.
  { split; [done..| | done | |].
    - by rewrite (fam_dropped _ _ Hok).
    - by rewrite (fam_length _ _ Hok).
    - intros l. by rewrite (Hpw l). }
  unfold apply_record, apply_add. rewrite !Hf, Hadd. cbn [cc_name cc_comparator_name cc_cfid].
  cbn [kAddColumnFamily kRedoLog kMaxColumnFamily kLastSequenceNumber kNextFileNumber kPrevLogNumber kRedoLogNumber
       kCreation Z.eqb Pos.eqb orb].
  rewrite (fam_desc _ _ Hok), bool_decide_true by done. fold t.
  unfold apply_drop. rewrite Hf. cbn [kDropColumnFamily kAddColumnFamily kRedoLog kCreation Z.eqb Pos.eqb orb].
  rewrite andb_false_r. cbn [ofopt obind]. rewrite Hw. cbn [ofopt obind].
  unfold apply_point. rewrite Hf. cbn [kCompactionPoint kAddColumnFamily kRedoLog kCreation Z.eqb Pos.eqb orb].
  rewrite andb_false_r. cbn [ofopt obind].
  unfold apply_redo_log. rewrite Hf, Hredo. cbn [kAddColumnFamily kRedoLog Z.eqb Pos.eqb orb rl_cfid rl_number].
  unfold GetColumnFamily in *. cbn [column_family_impls_ set_families]. rewrite Hget. cbn [mbind option_bind ofopt obind].
  unfold update_family. cbn [families set_families]. rewrite Halter.
  destruct v; reflexivity.
Qed.

(** The families [fs] replayed into a set. *)
Record replayed (fs : list ColumnFamilyImpl) (t : ColumnFamilySet) : Prop := {
  rp_list : Forall2 same_family fs (families t);
  rp_ids : column_family_impls_ t = column_family_impls_ (register fs);
  rp_names : column_families_ t = column_families_ (register fs);
  rp_default : default_cfd_ t = default_cfd_ (register fs);
  rp_max : cfs_max_column_family t = cfs_max_column_family (register fs);
}.

Lemma replayed_snoc fs f f' t :
  replayed fs t -> same_family f f' ->
  replayed (fs ++ [f])
    (set_families (families t ++ [f']) (NewColumnFamily (cf_options f) (cf_name f) (cf_id f) t)).
Proof.
  intros [Hl Hi Hn Hd Hm] Hf. pose proof (Forall2_length _ _ _ Hl) as Hlen.
  split; rewrite ?register_snoc; cbn; rewrite ?length_register, <- ?Hlen, ?Hi, ?Hn, ?Hd, ?Hm; [|done..].
  apply Forall2_app; [done|]. constructor; [done | constructor].
Qed.

Lemma replay_families fs p (v : VersionSet F) h pre :
  Forall (family_ok desc) fs -> NoDup (map cf_id (pre ++ fs)) -> replayed pre (cfs v) ->
  exists t, replay desc (family_patches fs p) v h = Done (kOk, set_cfs t v, h) /\ replayed (pre ++ fs) t.
Proof.
  revert p v pre. induction fs as [|f fs IH]; intros p v pre Hok Hnd Hr; cbn [family_patches replay].
  { exists (cfs v). rewrite app_nil_r. split; [by destruct v | done]. }
  apply Forall_cons in Hok as [Hf Hok].
  assert (column_family_impls_ (cfs v) !! cf_id f = None) as Hid.
  { rewrite (rp_ids _ _ Hr). apply register_id. rewrite map_app in Hnd.
    apply NoDup_app in Hnd as (_ & Hd & _). intros Hin. apply (Hd _ Hin). by left. }
  destruct (apply_family f p v h Hf Hid) as (f' & Hsame & ->). cbn [obind]. change (ok kOk) with true. cbn iota.
  destruct (IH (family_patch f p) (set_cfs (set_families (families (cfs v) ++ [f'])
      (NewColumnFamily (cf_options f) (cf_name f) (cf_id f) (cfs v))) v) (pre ++ [f]) Hok) as (t & Ht & Hrt).
  - by rewrite <- app_assoc.
  - by apply replayed_snoc.
  - exists t. split; [exact Ht|]. by rewrite <- app_assoc in Hrt.
Qed.

Lemma numbers_record (u : VersionSet F) p (v : VersionSet F) h :
  apply_record desc (numbers_patch u p) v h =
  Done (kOk, set_numbers (last_sequence_number u) (next_file_number u) (prev_log_number u) (vs_redo_log_number u)
          (manifest_file_number v) (set_cfs (UpdateColumnFamilyId (cfs_max_column_family (cfs u)) (cfs v)) v),
        {[ vs_redo_log_number u ]} ∪ h).
Proof. reflexivity. Qed.

(** What a set must be like when its manifest is created. *)
Record snapshot_ok (v : VersionSet F) : Prop := {
  sn_families : Forall (family_ok desc) (families (cfs v));
  sn_nodup : NoDup (map cf_id (families (cfs v)));
  sn_ids : column_family_impls_ (cfs v) = column_family_impls_ (register (families (cfs v)));
  sn_names : column_families_ (cfs v) = column_families_ (register (families (cfs v)));
  sn_default : default_cfd_ (cfs v) = default_cfd_ (register (families (cfs v)));
  sn_max : Forall (fun f => cf_id f <= cfs_max_column_family (cfs v)) (families (cfs v));
  sn_max_pos : 0 <= cfs_max_column_family (cfs v);
  sn_block : block_size_ok (vs_block_size v);
}.

Lemma replay_snapshot b v :
  snapshot_ok v ->
  exists (rec : VersionSet F) h, replay desc (snapshot_patches v) (NewVersionSet b) ∅ = Done (kOk, rec, h) /\
    same_families (cfs v) (cfs rec) /\ prev_log_number rec = prev_log_number v /\
    vs_redo_log_number rec = vs_redo_log_number v /\ last_sequence_number rec = last_sequence_number v /\
    next_file_number rec = next_file_number v.
Proof.
  intros []. destruct (replay_families (families (cfs v)) NewVersionPatch (NewVersionSet b) ∅ [])
    as (t & Ht & []); [done | done | by split; constructor |].
  unfold snapshot_patches. rewrite (replay_app _ _ _ _ _ _ _ Ht). cbn [replay]. rewrite numbers_record.
  cbn [obind]. change (ok kOk) with true. cbn iota. eexists _, _. split; [reflexivity|]. split; [|done].
  cbn [app] in *. split; cbn; [done | by rewrite sn_ids0 | by rewrite sn_names0 | by rewrite sn_default0 |].
  rewrite rp_max0. pose proof (register_max (families (cfs v)) _ sn_max0 sn_max_pos0). lia.
Qed.
End snapshot.

(** *** One call of [LogAndApply] *)

Lemma apply_redo_log_max p s s' : apply_redo_log p s = Some s' -> cfs_max_column_family s' = cfs_max_column_family s.
Proof.
  unfold apply_redo_log. destruct (has_field kRedoLog p); [|by intros [= <-]].
  destruct (GetColumnFamily _ s); cbn; [|done]. by intros [= <-].
Qed.

Lemma apply_redo_log_ids p s s' :
  apply_redo_log p s = Some s' -> column_family_impls_ s' = column_family_impls_ s.
Proof.
  unfold apply_redo_log. destruct (has_field kRedoLog p); [|by intros [= <-]].
  destruct (GetColumnFamily _ s); cbn; [|done]. by intros [= <-].
Qed.

Lemma apply_drop_max p s s' : apply_drop p s = Some s' -> cfs_max_column_family s' = cfs_max_column_family s.
Proof.
  unfold apply_drop, Drop, RemoveColumnFamily. destruct (has_field kDropColumnFamily p); [|by intros [= <-]].
  destruct (GetColumnFamily _ s) as [i|]; cbn; [|done]. destruct (families s !! i); cbn; [|done].
  destruct (_ !! _); [|done]. by intros [= <-].
Qed.

Lemma apply_files_maps p s s' :
  apply_files p s = Some s' ->
  cfs_max_column_family s' = cfs_max_column_family s /\ column_family_impls_ s' = column_family_impls_ s.
Proof.
  unfold apply_files. destruct (_ || _); [|by intros [= <-]].
  destruct (builder_cfd p s) as [i|]; cbn; [|done]. destruct (families s !! i); cbn; [|done].
  destruct (new_version _ _ _); cbn; [|done]. by intros [= <-].
Qed.

Lemma apply_point_same p s t :
  same_families s t ->
  (has_field kCompactionPoint p = true ->
     is_Some (GetColumnFamily (cp_cfid (compaction_point_ p)) s) /\ in_levels (cp_level (compaction_point_ p))) ->
  exists t', apply_point p t = Some t' /\ same_families s t'.
Proof.
  intros Hst Hp. unfold apply_point. destruct (has_field kCompactionPoint p); [|eauto].
  destruct (Hp eq_refl) as [[i Hi] [Hl1 Hl2]]. unfold GetColumnFamily in *. rewrite <- (same_ids _ _ Hst), Hi.
  cbn [mbind option_bind]. apply Z.leb_le in Hl1. apply Z.ltb_lt in Hl2. rewrite Hl1, Hl2. cbn [andb].
  eexists. split; [done|]. destruct Hst as [Hl Hids Hn Hd Hm]. split; cbn; [|done..].
  apply Forall2_same_length_lookup. rewrite length_alter. split; [by eapply Forall2_length|].
  intros j a b Ha Hb. destruct (Forall2_lookup_l _ _ _ _ _ Hl Ha) as (b' & Hb' & []).
  destruct (decide (j = i)) as [->|Hne].
  - rewrite list_lookup_alter_eq, Hb' in Hb. injection Hb as <-. by split.
  - rewrite list_lookup_alter_ne, Hb' in Hb by done. injection Hb as <-. by split.
Qed.

(** The changes of a call, in the order of [Recovery]. *)
Lemma recovery_order p s s1 s2 s3 :
  (has_field kDropColumnFamily p = true -> has_field kRedoLog p = false) ->
  apply_redo_log p s = Some s1 -> apply_drop p s1 = Some s2 -> apply_files p s2 = Some s3 ->
  exists a b, apply_drop p s = Some a /\ apply_files p a = Some b /\ apply_redo_log p b = Some s3.
Proof.
  intros Hdr Hr Hd Hf. destruct (has_field kDropColumnFamily p) eqn:E.
  - specialize (Hdr eq_refl). unfold apply_redo_log in *. rewrite Hdr in *. injection Hr as <-. eauto.
  - unfold apply_drop in *. rewrite E in *. injection Hd as <-.
    destruct (redo_files_commute p s s1 s3 Hr Hf) as (b & Hb & Hb'). eauto.
Qed.

Lemma has_field_unless k i p n :
  item_field i = k -> has_field n (if has_field k p then p else apply_item p i) = has_field n p || (n =? k).
Proof.
  intros Hi. destruct (has_field k p) eqn:E; [|by rewrite has_field_apply, Hi].
  destruct (Z.eqb_spec n k) as [->|]; rewrite ?E; by rewrite ?orb_false_r.
Qed.

Lemma has_field_fill {F} (v : VersionSet F) p n :
  has_field n (fill_patch v p) =
  has_field n p || (n =? kRedoLogNumber) || (n =? kPrevLogNumber) || (n =? kNextFileNumber) || (n =? kLastSequenceNumber).
Proof.
  unfold fill_patch. change (SetLastSequenceNumber ?a ?q) with (apply_item q (ILast a)).
  change (SetNextFileNumber ?a ?q) with (apply_item q (INext a)).
  change (SetPrevLogNumber ?a ?q) with (apply_item q (IPrev a)).
  change (SetRedoLogNumber ?a ?q) with (apply_item q (IRedoNumber a)).
  rewrite !has_field_apply, (has_field_unless kPrevLogNumber), (has_field_unless kRedoLogNumber) by done. done.
Qed.

Lemma unless_keeps {A} (P : VersionPatch -> A) (b : bool) p i :
  P (apply_item p i) = P p -> P (if b then p else apply_item p i) = P p.
Proof. by destruct b. Qed.

(** The other fields of a filled patch. *)
Lemma fill_patch_keeps {F} (v : VersionSet F) p :
  let q := fill_patch v p in
  cf_creation_ q = cf_creation_ p /\ cf_deletion_ q = cf_deletion_ p /\ redo_log_ q = redo_log_ p /\
  compaction_point_ q = compaction_point_ p /\ file_creation_ q = file_creation_ p /\ file_deletion_ q = file_deletion_ p /\
  last_sequence_number_ q = last_sequence_number v /\ next_file_number_ q = next_file_number v.
Proof.
  intros q. unfold q, fill_patch. destruct (has_field kRedoLogNumber p);
    match goal with |- context [has_field kPrevLogNumber ?x] => destruct (has_field kPrevLogNumber x) end; done.
Qed.

Lemma fill_patch_wf {F} (v : VersionSet F) p :
  patch_wf p -> is_u 64 (last_sequence_number v) -> is_u 64 (next_file_number v) -> is_u 64 (prev_log_number v) ->
  is_u 64 (vs_redo_log_number v) -> patch_wf (fill_patch v p).
Proof.
  intros Hp Hl Hn Hpr Hr. unfold fill_patch.
  change (SetLastSequenceNumber ?a ?q) with (apply_item q (ILast a)).
  change (SetNextFileNumber ?a ?q) with (apply_item q (INext a)).
  change (SetPrevLogNumber ?a ?q) with (apply_item q (IPrev a)).
  change (SetRedoLogNumber ?a ?q) with (apply_item q (IRedoNumber a)).
  do 2 (apply apply_item_wf; [|done]).
  match goal with |- patch_wf (if ?b then ?x else _) => assert (patch_wf x) as Hx end.
  { destruct (has_field kRedoLogNumber p); [done | by apply apply_item_wf]. }
  match goal with |- patch_wf (if ?b then _ else _) => destruct b end; [done | by apply apply_item_wf].
Qed.

Section call.
Context {E F : Type} `{!WritableFile F, !WritableFileLaws F, !ReliableFile F, !EnvOps E F, !EnvReliable E F}.
Context (desc : gmap bytes ColumnFamilyOptions).

(** What the callers of [LogAndApply] see to. *)
Record call_ok (v : VersionSet F) (opts : ColumnFamilyOptions) (p : VersionPatch) : Prop := {
  call_wf : patch_wf p;
  call_add : has_field kAddColumnFamily p = true ->
    desc !! cc_name (cf_creation_ p) = Some opts /\ cc_comparator_name (cf_creation_ p) = comparator_Name opts;
  call_drop : has_field kDropColumnFamily p = true ->
    has_field kRedoLog p = false /\ has_field kCompactionPoint p = false;
  call_point : has_field kCompactionPoint p = true ->
    is_Some (GetColumnFamily (cp_cfid (compaction_point_ p)) (cfs v)) /\ in_levels (cp_level (compaction_point_ p));
  call_max : has_field kMaxColumnFamily p = false;
  call_first : logger_ v = None -> has_field kAddColumnFamily p = false /\ has_field kDropColumnFamily p = false;
}.

(** Replaying the patch [q] that a call stored takes a set like the one before
    the call to one like the one after it. *)
Lemma record_of_call opts (q : VersionPatch) s s1 s2 s3 s4 (rec : VersionSet F) h :
  s1 = (if has_field kAddColumnFamily q
        then NewColumnFamily opts (cc_name (cf_creation_ q)) (cc_cfid (cf_creation_ q)) s else s) ->
  (has_field kAddColumnFamily q = true ->
    desc !! cc_name (cf_creation_ q) = Some opts /\ cc_comparator_name (cf_creation_ q) = comparator_Name opts) ->
  (has_field kMaxColumnFamily q = true -> max_column_family_ q <= cfs_max_column_family s1) ->
  (has_field kDropColumnFamily q = true -> has_field kRedoLog q = false /\ has_field kCompactionPoint q = false) ->
  (has_field kCompactionPoint q = true ->
    is_Some (GetColumnFamily (cp_cfid (compaction_point_ q)) s) /\ in_levels (cp_level (compaction_point_ q))) ->
  apply_redo_log q s1 = Some s2 -> apply_drop q s2 = Some s3 -> apply_files q s3 = Some s4 ->
  same_families s (cfs rec) ->
  exists t, same_families s4 t /\
    apply_record desc q rec h =
    Done (kOk,
      set_numbers
        (if has_field kLastSequenceNumber q then last_sequence_number_ q else last_sequence_number rec)
        (if has_field kNextFileNumber q then next_file_number_ q else next_file_number rec)
        (if has_field kPrevLogNumber q then prev_log_number_ q else prev_log_number rec)
        (if has_field kRedoLogNumber q then redo_log_number_ q else vs_redo_log_number rec)
        (manifest_file_number rec) (set_cfs t rec),
      if has_field kRedoLogNumber q then {[ redo_log_number_ q ]} ∪ h else h).
Proof.
  intros Es1 Hadd Hmax Hdrop Hpoint Hr Hd Hf Hsame.
  assert (exists t1, apply_add desc q (cfs rec) = Some t1 /\ same_families s1 t1) as (t1 & Et1 & Ht1).
  { unfold apply_add. destruct (has_field kAddColumnFamily q); [|subst s1; eauto].
    destruct (Hadd eq_refl) as [-> ->]. rewrite bool_decide_true by done. subst s1.
    eexists. split; [done | by apply NewColumnFamily_same]. }
  destruct (recovery_order q s1 s2 s3 s4 (fun H => proj1 (Hdrop H)) Hr Hd Hf) as (a & b & Ha & Hb & Hc).
  destruct (apply_drop_same q s1 t1 a Ht1 Ha) as (ta & Eta & Hta).
  destruct (apply_files_same q a ta b Hta Hb) as (tb & Etb & Htb).
  destruct (apply_point_same q b tb Htb) as (tc & Etc & Htc).
  { intros Hq. destruct (Hpoint Hq) as [[i Hi] Hl]. split; [|done].
    destruct (apply_files_maps q a b Hb) as [_ Hids]. unfold GetColumnFamily in *. rewrite Hids.
    assert (a = s1) as ->.
    { unfold apply_drop in Ha. destruct (has_field kDropColumnFamily q) eqn:E1; [|by injection Ha].
      destruct (Hdrop eq_refl). congruence. }
    subst s1. destruct (has_field kAddColumnFamily q); [|by exists i]. cbn. unfold insert_new.
    destruct (column_family_impls_ s !! cc_cfid (cf_creation_ q)) eqn:E2; [by exists i|].
    rewrite lookup_insert_ne; [by exists i|]. intros E3. congruence. }
  destruct (apply_redo_log_same q b tc s4 Htc Hc) as (td & Etd & Htd).
  unfold apply_record. rewrite Et1, Eta. cbn [ofopt obind]. rewrite Etb. cbn [ofopt obind]. rewrite Etc. cbn [ofopt obind].
  rewrite Etd. cbn [ofopt obind]. eexists. split; [|reflexivity].
  destruct (has_field kMaxColumnFamily q) eqn:Em; [|done]. specialize (Hmax eq_refl).
  pose proof (apply_redo_log_max _ _ _ Hr). pose proof (apply_drop_max _ _ _ Hd).
  pose proof (proj1 (apply_files_maps _ _ _ Hf)).
  destruct Htd as [Hl1 Hl2 Hl3 Hl4 Hl5]. split; cbn; [done..|]. lia.
Qed.

Definition numbers_ok (v : VersionSet F) : Prop :=
  is_u 64 (last_sequence_number v) /\ is_u 64 (next_file_number v) /\ is_u 64 (prev_log_number v) /\
  is_u 64 (vs_redo_log_number v) /\ is_u 32 (cfs_max_column_family (cfs v)).

(** The manifest says what the set is: replaying its patches into a new set
    gives the same families and log numbers. *)
Definition tracks (b : Z) (v : VersionSet F) (rec : VersionSet F) : Prop :=
  exists ps h, manifest v ps /\ Forall patch_wf ps /\ Forall (fun p => Encode p <> []) ps /\
    replay desc ps (NewVersionSet b) ∅ = Done (kOk, rec, h) /\ same_families (cfs v) (cfs rec) /\
    prev_log_number rec = prev_log_number v /\ vs_redo_log_number rec = vs_redo_log_number v.

Lemma Encode_not_nil p :
  has_field kNextFileNumber p = true \/ has_field kAddColumnFamily p = true -> Encode p <> [].
Proof.
  unfold Encode. intros Hp H.
  repeat match goal with H : _ ++ _ = [] |- _ => apply app_eq_nil in H as [? H] end.
  destruct Hp as [E0|E0]; repeat match goal with H : (if ?b then _ else _) = [] |- _ => destruct b eqn:?; try discriminate H end;
    congruence.
Qed.

(** Fields that every logged patch has, with the values of the set. *)
Record stamped (q : VersionPatch) (v : VersionSet F) : Prop := {
  st_wf : patch_wf q;
  st_has : has_field kRedoLogNumber q = true /\ has_field kPrevLogNumber q = true /\
    has_field kNextFileNumber q = true /\ has_field kLastSequenceNumber q = true;
  st_last : last_sequence_number_ q = last_sequence_number v;
  st_next : next_file_number_ q = next_file_number v;
}.

(** Writing the patch and applying its files. *)
Lemma write_tracks b (q : VersionPatch) (v v1 rec : VersionSet F) ps h t s4 :
  manifest v ps -> Forall patch_wf ps -> Forall (fun p => Encode p <> []) ps ->
  replay desc ps (NewVersionSet b) ∅ = Done (kOk, rec, h) ->
  stamped q v -> same_families s4 t ->
  apply_record desc q rec h =
    Done (kOk,
      set_numbers
        (if has_field kLastSequenceNumber q then last_sequence_number_ q else last_sequence_number rec)
        (if has_field kNextFileNumber q then next_file_number_ q else next_file_number rec)
        (if has_field kPrevLogNumber q then prev_log_number_ q else prev_log_number rec)
        (if has_field kRedoLogNumber q then redo_log_number_ q else vs_redo_log_number rec)
        (manifest_file_number rec) (set_cfs t rec),
      if has_field kRedoLogNumber q then {[ redo_log_number_ q ]} ∪ h else h) ->
  WritePatch q v = Done (kOk, v1) ->
  let v' := set_numbers (last_sequence_number v1) (next_file_number v1) (prev_log_number_ q) (redo_log_number_ q)
              (manifest_file_number v1) (set_cfs s4 v1) in
  exists rec' : VersionSet F, tracks b v' rec' /\ last_sequence_number rec' = last_sequence_number v' /\
    next_file_number rec' = next_file_number v'.
Proof.
  intros Hm Hwf Hne Hrep [Hq (F1 & F2 & F3 & F4) Hl Hn] Hs Hrec Hw v'.
  destruct (WritePatch_manifest q v ps Hm) as (v2 & Hw2 & Hm2 & l & ->). rewrite Hw in Hw2. injection Hw2 as ->.
  rewrite F1, F2, F3, F4 in Hrec.
  match type of Hrec with _ = Done (_, ?r, _) => exists r end. split; [|by split; [exact Hl | exact Hn]].
  exists (ps ++ [q]), ({[ redo_log_number_ q ]} ∪ h). split_and!; [| | | |done..].
  - destruct Hm2 as (w & Hw' & H). exists w. by split.
  - apply Forall_app_2; [done|]. apply Forall_cons_2; [done | apply Forall_nil_2].
  - apply Forall_app_2; [done|]. apply Forall_cons_2; [|apply Forall_nil_2]. apply Encode_not_nil. by left.
  - rewrite (replay_app _ _ _ _ _ _ _ Hrep). cbn [replay]. rewrite Hrec. reflexivity.
Qed.

Lemma redo_twice q s s1 : apply_redo_log q s = Some s1 -> apply_redo_log q s1 = Some s1.
Proof.
  unfold apply_redo_log, GetColumnFamily. destruct (has_field kRedoLog q); [|done].
  destruct (column_family_impls_ s !! _) as [i|] eqn:E0; cbn; [|done]. intros [= <-]. cbn. rewrite E0. cbn.
  unfold update_family, set_families. cbn. rewrite list_alter_alter_eq. repeat f_equal.
Qed.

Lemma register_ext fs gs :
  Forall2 (fun f g => cf_options f = cf_options g /\ cf_name f = cf_name g /\ cf_id f = cf_id g) fs gs ->
  register fs = register gs.
Proof.
  unfold register. generalize NewColumnFamilySet. induction fs as [|f fs IH] in gs |- *; intros s H; inversion H; subst; [done|].
  cbn [fold_left]. destruct_and?. erewrite IH by done. congruence.
Qed.

Lemma snapshot_ok_redo (q : VersionPatch) (v : VersionSet F) s :
  snapshot_ok desc v -> is_u 64 (rl_number (redo_log_ q)) -> apply_redo_log q (cfs v) = Some s ->
  snapshot_ok desc (set_cfs s v).
Proof.
  intros Hv Hq. unfold apply_redo_log. destruct (has_field kRedoLog q).
  2:{ intros [= <-]. by destruct v. }
  destruct (GetColumnFamily _ _) as [i|]; cbn; [|done]. intros [= <-]. destruct Hv as [H1 H2 H3 H4 H5 H6 H7 H8].
  assert (Hreg : register (alter (set_redo_log_number (rl_number (redo_log_ q))) i (families (cfs v))) = register (families (cfs v))).
  { apply register_ext, Forall2_same_length_lookup. rewrite length_alter. split; [done|]. intros j a b.
    destruct (decide (j = i)) as [->|]; [rewrite list_lookup_alter_eq | rewrite list_lookup_alter_ne by done];
      intros Ha Hb; rewrite Hb in Ha; cbn in Ha; by injection Ha as <-. }
  assert (Hid : map cf_id (alter (set_redo_log_number (rl_number (redo_log_ q))) i (families (cfs v))) = map cf_id (families (cfs v))).
  { generalize (families (cfs v)). intros l. clear. revert i. induction l as [|x l IH]; intros [|i]; cbn; [done..|].
    f_equal. apply IH. }
  unfold set_cfs, update_family, set_families.
  split; cbn [cfs families column_family_impls_ column_families_ default_cfd_ cfs_max_column_family vs_block_size];
    rewrite ?Hreg, ?Hid; [|done..| |done|done]; (apply Forall_alter; [done|]); intros f _; [|done].
  intros []. by split.
Qed.

Lemma add_family_spec opts q0 s q s1 :
  add_family opts q0 s = (q, s1) ->
  s1 = (if has_field kAddColumnFamily q0
        then NewColumnFamily opts (cc_name (cf_creation_ q0)) (cc_cfid (cf_creation_ q0)) s else s) /\
  q = (if has_field kAddColumnFamily q0 then apply_item q0 (IMax (cfs_max_column_family s1)) else q0).
Proof. unfold add_family. destruct (has_field kAddColumnFamily q0); by intros [= <- <-]. Qed.

(** The hypotheses of [record_of_call] for the patch a call stores. *)
Lemma stored_patch opts p (v : VersionSet F) q s1 :
  numbers_ok v -> call_ok v opts p -> add_family opts (fill_patch v p) (cfs v) = (q, s1) ->
  stamped q v /\ is_u 32 (cfs_max_column_family s1) /\
  s1 = (if has_field kAddColumnFamily q
        then NewColumnFamily opts (cc_name (cf_creation_ q)) (cc_cfid (cf_creation_ q)) (cfs v) else cfs v) /\
  (has_field kAddColumnFamily q = true ->
    desc !! cc_name (cf_creation_ q) = Some opts /\ cc_comparator_name (cf_creation_ q) = comparator_Name opts) /\
  (has_field kMaxColumnFamily q = true -> max_column_family_ q <= cfs_max_column_family s1) /\
  (has_field kDropColumnFamily q = true -> has_field kRedoLog q = false /\ has_field kCompactionPoint q = false) /\
  (has_field kCompactionPoint q = true ->
    is_Some (GetColumnFamily (cp_cfid (compaction_point_ q)) (cfs v)) /\ in_levels (cp_level (compaction_point_ q))) /\
  (logger_ v = None -> has_field kAddColumnFamily q = false /\ has_field kDropColumnFamily q = false).
Proof.
  intros (N1 & N2 & N3 & N4 & N5) [Cwf Cadd Cdrop Cpoint Cmax Cfirst] Ea.
  destruct (add_family_spec _ _ _ _ _ Ea) as [Es Eq].
  destruct (fill_patch_keeps v p) as (K1 & K2 & K3 & K4 & K5 & K6 & K7 & K8).
  pose proof (has_field_fill v p) as Hfill. pose proof (fill_patch_wf v p Cwf N1 N2 N3 N4) as Hwf.
  set (q0 := fill_patch v p) in *. clearbody q0.
  assert (H0 : forall n, n <> kRedoLogNumber -> n <> kPrevLogNumber -> n <> kNextFileNumber -> n <> kLastSequenceNumber ->
    has_field n q0 = has_field n p).
  { intros n A1 A2 A3 A4. rewrite Hfill. rewrite <- Z.eqb_neq in A1, A2, A3, A4. by rewrite A1, A2, A3, A4, !orb_false_r. }
  assert (Hq : forall n, n <> kMaxColumnFamily -> has_field n q = has_field n q0).
  { intros n Hn. rewrite Eq. destruct (has_field kAddColumnFamily q0); [|done].
    rewrite has_field_apply. cbn [item_field]. apply Z.eqb_neq in Hn. by rewrite Hn, orb_false_r. }
  assert (Hsc : cf_creation_ q = cf_creation_ q0 /\ cf_deletion_ q = cf_deletion_ q0 /\ redo_log_ q = redo_log_ q0 /\
    compaction_point_ q = compaction_point_ q0 /\ last_sequence_number_ q = last_sequence_number_ q0 /\
    next_file_number_ q = next_file_number_ q0) by (rewrite Eq; by destruct (has_field kAddColumnFamily q0)).
  destruct Hsc as (S1 & S2 & S3 & S4 & S5 & S6).
  assert (Hu : is_u 32 (cfs_max_column_family s1)).
  { rewrite Es. destruct (has_field kAddColumnFamily q0); [|done]. cbn. rewrite K1.
    destruct Cwf as [_ _ _ (_ & _ & Hid & _) _ _]. unfold is_u in *. lia. }
  split_and!.
  - split; [| |congruence|congruence].
    + rewrite Eq. destruct (has_field kAddColumnFamily q0); [|done]. by apply apply_item_wf.
    + rewrite !Hq, !Hfill by done. cbn. rewrite !orb_true_r. by rewrite ?orb_true_r.
  - done.
  - rewrite Hq, S1 by done. exact Es.
  - rewrite Hq, H0, S1, K1 by done. exact Cadd.
  - intros Hm. rewrite Eq in Hm |- *. destruct (has_field kAddColumnFamily q0); [by cbn|].
    rewrite H0 in Hm by done. congruence.
  - rewrite !Hq, !H0 by done. exact Cdrop.
  - rewrite !Hq, !H0, S4, K4 by done. exact Cpoint.
  - rewrite !Hq, !H0 by done. exact Cfirst.
Qed.

Lemma stamped_next (q : VersionPatch) (v w : VersionSet F) :
  stamped q v -> last_sequence_number w = last_sequence_number v -> is_u 64 (next_file_number w) ->
  stamped (SetNextFileNumber (next_file_number w) q) w /\
  (forall n, has_field n (SetNextFileNumber (next_file_number w) q) = has_field n q).
Proof.
  intros [Hwf (F1 & F2 & F3 & F4) Hl Hn] Hw Hu. change (SetNextFileNumber ?a ?q) with (apply_item q (INext a)).
  assert (Hf : forall n, has_field n (apply_item q (INext (next_file_number w))) = has_field n q).
  { intros n. rewrite has_field_apply. cbn [item_field]. destruct (Z.eqb_spec n kNextFileNumber) as [->|]; [by rewrite F3|].
    by rewrite orb_false_r. }
  split; [|done]. split; [by apply apply_item_wf | by rewrite !Hf | cbn; congruence | done].
Qed.

(** A patch differs from another only in the next file number. *)
Lemma next_same (n : Z) q s :
  (forall f, has_field f (SetNextFileNumber n q) = has_field f q) ->
  apply_drop (SetNextFileNumber n q) s = apply_drop q s /\
  apply_files (SetNextFileNumber n q) s = apply_files q s /\
  apply_redo_log (SetNextFileNumber n q) s = apply_redo_log q s.
Proof. intros H. unfold apply_drop, apply_files, apply_redo_log. by rewrite !H. Qed.

Lemma log_next_step db opts p (env env' : E) (v v' rec : VersionSet F) b :
  numbers_ok v -> call_ok v opts p -> tracks b v rec ->
  LogAndApply db opts p env v = Done (kOk, v', env') ->
  numbers_ok v' /\ exists rec' : VersionSet F, tracks b v' rec' /\
    last_sequence_number rec' = last_sequence_number v' /\ next_file_number rec' = next_file_number v'.
Proof.
  intros Hn Hc (ps & h & Hm & Hwf & Hne & Hrep & Hsame & _). unfold LogAndApply.
  destruct (add_family opts (fill_patch v p) (cfs v)) as [q s1] eqn:Ea.
  destruct (stored_patch opts p v q s1 Hn Hc Ea) as (Hst & Hmax & Es & Hadd & Hqm & Hdrop & Hpoint & _).
  destruct (apply_redo_log q s1) as [s2|] eqn:E2; cbn [ofopt obind]; [|done].
  destruct (apply_drop q s2) as [s3|] eqn:E3; cbn [ofopt obind]; [|done].
  destruct Hm as (w & Hw & Hmw). assert (Hm1 : manifest (set_cfs s3 v) ps) by (exists w; by split).
  cbn [logger_ set_cfs]. rewrite Hw. cbn [obind]. change (negb (ok kOk)) with false. cbn iota.
  destruct (WritePatch_manifest q _ ps Hm1) as (v1 & Hw1 & _ & l & Ev1). rewrite Hw1. cbn [obind].
  change (negb (ok kOk)) with false. cbn iota.
  assert (cfs v1 = s3) as -> by (by subst v1).
  destruct (apply_files q s3) as [s4|] eqn:E4; cbn [ofopt obind]; [|done]. intros [= <- _].
  destruct (record_of_call opts q (cfs v) s1 s2 s3 s4 rec h Es Hadd Hqm Hdrop Hpoint E2 E3 E4 Hsame) as (t & Ht & Hrec).
  assert (Hst' : stamped q (set_cfs s3 v)) by (destruct Hst; by split).
  destruct (write_tracks b q _ v1 rec ps h t s4 Hm1 Hwf Hne Hrep Hst' Ht Hrec Hw1) as (rec' & Htr).
  split; [|by exists rec'].
  destruct Hst as [Hqwf _ _ _]. destruct Hqwf as [_ _ _ (_ & _ & _ & _ & _ & _ & _ & U1 & _ & _ & U2) _ _].
  subst v1. destruct Hn as (N1 & N2 & N3 & N4 & N5). split_and!; [done..|].
  cbn. rewrite (proj1 (apply_files_maps _ _ _ E4)), (apply_drop_max _ _ _ E3), (apply_redo_log_max _ _ _ E2). done.
Qed.

Lemma snapshot_patches_wf (v : VersionSet F) :
  snapshot_ok desc v -> numbers_ok v ->
  Forall patch_wf (snapshot_patches v) /\ Forall (fun p => Encode p <> []) (snapshot_patches v).
Proof.
  intros Hs (N1 & N2 & N3 & N4 & N5). unfold snapshot_patches.
  destruct (family_patches_wf desc _ NewVersionPatch (sn_families _ _ Hs) NewVersionPatch_wf) as [H1 H2].
  split; (apply Forall_app_2; [eapply Forall_impl; [exact H1|] | apply Forall_cons_2; [|constructor]]).
  - by intros q [].
  - unfold numbers_patch. change (SetPrevLogNumber ?a ?q) with (apply_item q (IPrev a)).
    change (SetRedoLogNumber ?a ?q) with (apply_item q (IRedoNumber a)).
    change (SetNextFileNumber ?a ?q) with (apply_item q (INext a)).
    change (SetLastSequenceNumber ?a ?q) with (apply_item q (ILast a)).
    change (SetMaxColumnFamily ?a ?q) with (apply_item q (IMax a)).
    do 5 (apply apply_item_wf; [|done]). by apply Reset_wf.
  - intros q [_ Hq]. apply Encode_not_nil. by right.
  - apply Encode_not_nil. by left.
Qed.

Lemma log_first_step db opts p (env env' : E) (v v' : VersionSet F) b :
  numbers_ok v -> call_ok v opts p -> logger_ v = None -> snapshot_ok desc v ->
  LogAndApply db opts p env v = Done (kOk, v', env') ->
  numbers_ok v' /\ exists rec' : VersionSet F, tracks b v' rec' /\
    last_sequence_number rec' = last_sequence_number v' /\ next_file_number rec' = next_file_number v'.
Proof.
  intros Hn Hc Hlog Hsnap. unfold LogAndApply.
  destruct (add_family opts (fill_patch v p) (cfs v)) as [q s1] eqn:Ea.
  destruct (stored_patch opts p v q s1 Hn Hc Ea) as (Hst & Hmax & Es & Hadd & Hqm & Hdrop & Hpoint & Hfirst).
  destruct (Hfirst Hlog) as [Fadd Fdrop]. rewrite Fadd in Es. subst s1.
  destruct (apply_redo_log q (cfs v)) as [s2|] eqn:E2; cbn [ofopt obind]; [|done].
  assert (E3 : apply_drop q s2 = Some s2) by (unfold apply_drop; by rewrite Fdrop).
  rewrite E3. cbn [ofopt obind]. cbn [logger_ set_cfs]. rewrite Hlog.
  pose proof (st_wf _ _ Hst) as Hqwf.
  assert (Hsnap1 : snapshot_ok desc (set_cfs s2 v)).
  { apply (snapshot_ok_redo q); [done | | done]. by destruct Hqwf as [_ _ _ (_ & _ & _ & _ & _ & _ & U & _) _ _]. }
  destruct (CreateManifestFile_manifest db env (set_cfs s2 v) (sn_block _ _ Hsnap1)) as (v2 & env2 & Hcr & Hm2 & l2 & Ev2).
  rewrite Hcr. cbn [obind]. change (ok kOk) with true. cbn iota. cbn [negb].
  set (v0 := set_manifest _ _) in *.
  assert (Hsnap0 : snapshot_ok desc v0) by (destruct Hsnap1; by split).
  destruct (replay_snapshot desc b v0 Hsnap0) as (rec & h & Hrep & Hsame & _).
  assert (Hu : is_u 64 (next_file_number v2)) by (subst v2; apply wrap_is_u; lia).
  destruct (stamped_next q v v2 Hst ltac:(by subst v2) Hu) as [Hst2 Hf2].
  set (q2 := SetNextFileNumber (next_file_number v2) q) in *.
  destruct (next_same (next_file_number v2) q s2 Hf2) as (X1 & X2 & X3). fold q2 in X1, X2, X3.
  destruct (WritePatch_manifest q2 v2 _ Hm2) as (v3 & Hw3 & _ & l3 & Ev3). rewrite Hw3. cbn [obind].
  change (negb (ok kOk)) with false. cbn iota. assert (cfs v3 = s2) as -> by (by subst v3 v2).
  rewrite X2. destruct (apply_files q s2) as [s4|] eqn:E4; cbn [ofopt obind]; [|done]. intros [= <- _].
  destruct (record_of_call opts q2 s2 s2 s2 s2 s4 rec h) as (t & Ht & Hrec).
  - by rewrite Hf2, Fadd.
  - rewrite Hf2. congruence.
  - rewrite Hf2. intros Hm. specialize (Hqm Hm). pose proof (apply_redo_log_max _ _ _ E2). cbn. lia.
  - rewrite !Hf2. exact Hdrop.
  - rewrite Hf2. intros Hp. destruct (Hpoint Hp) as [Hg Hl]. split; [|done]. cbn.
    assert (column_family_impls_ s2 = column_family_impls_ (cfs v)) as Hids.
    { by apply (apply_redo_log_ids q). }
    unfold GetColumnFamily in *. by rewrite Hids.
  - rewrite X3. by apply (redo_twice q (cfs v)).
  - by rewrite X1.
  - by rewrite X2.
  - exact Hsame.
  - assert (Hwfs : Forall patch_wf (snapshot_patches v0) /\ Forall (fun p => Encode p <> []) (snapshot_patches v0)).
    { apply snapshot_patches_wf; [done|]. destruct Hn as (N1 & N2 & N3 & N4 & N5). split_and!; [done| |done..|].
      - apply wrap_is_u. lia.
      - cbn. by rewrite (apply_redo_log_max _ _ _ E2). }
    destruct Hwfs as [Hwf Hne].
    destruct (write_tracks b q2 v2 v3 rec _ h t s4 Hm2 Hwf Hne Hrep Hst2 Ht Hrec Hw3) as (rec' & Htr).
    split; [|by exists rec'].
    pose proof (st_wf _ _ Hst2) as Hq2wf. destruct Hq2wf as [_ _ _ (_ & _ & _ & _ & _ & _ & _ & U1 & _ & _ & U2) _ _].
    subst v3. destruct Hn as (N1 & N2 & N3 & N4 & N5). split_and!; [by subst v2 | done | done | done |].
    cbn. rewrite (proj1 (apply_files_maps _ _ _ E4)), (apply_redo_log_max _ _ _ E2). done.
Qed.

(** The sets that the operations reach from [v0]. *)
Inductive reaches (db : bytes) (v0 : VersionSet F) (env0 : E) : VersionSet F -> E -> Prop :=
| reach_start : reaches db v0 env0 v0 env0
| reach_sequence v env n : reaches db v0 env0 v env -> reaches db v0 env0 (AddSequenceNumber n v) env
| reach_update v env n :
    reaches db v0 env0 v env -> is_u 64 n -> reaches db v0 env0 (UpdateSequenceNumber n v) env
| reach_file v env : reaches db v0 env0 v env -> reaches db v0 env0 (snd (GenerateFileNumber v)) env
| reach_reuse v env n :
    reaches db v0 env0 v env -> is_u 64 n -> reaches db v0 env0 (ReuseFileNumber n v) env
| reach_family v env :
    reaches db v0 env0 v env -> cfs_max_column_family (cfs v) + 1 < 2 ^ 32 ->
    reaches db v0 env0 (set_cfs (snd (NextColumnFamilyId (cfs v))) v) env
| reach_log v env opts p v' env' :
    reaches db v0 env0 v env -> call_ok v opts p -> LogAndApply db opts p env v = Done (kOk, v', env') ->
    reaches db v0 env0 v' env'.

Definition recoverable (b : Z) (v : VersionSet F) : Prop :=
  numbers_ok v /\ ((logger_ v = None /\ snapshot_ok desc v) \/ exists rec, tracks b v rec).

Lemma log_step db opts p (env env' : E) (v v' : VersionSet F) b :
  recoverable b v -> call_ok v opts p -> LogAndApply db opts p env v = Done (kOk, v', env') ->
  numbers_ok v' /\ exists rec' : VersionSet F, tracks b v' rec' /\
    last_sequence_number rec' = last_sequence_number v' /\ next_file_number rec' = next_file_number v'.
Proof.
  intros [Hn [[Hl Hs]|[rec Ht]]] Hc Hlog; [by eapply log_first_step | by eapply log_next_step].
Qed.

(** Other operations leave the families and the log numbers alone. *)
Lemma recoverable_same b (v w : VersionSet F) :
  recoverable b v -> numbers_ok w -> logger_ w = logger_ v -> vs_block_size w = vs_block_size v ->
  prev_log_number w = prev_log_number v -> vs_redo_log_number w = vs_redo_log_number v ->
  families (cfs w) = families (cfs v) -> column_family_impls_ (cfs w) = column_family_impls_ (cfs v) ->
  column_families_ (cfs w) = column_families_ (cfs v) -> default_cfd_ (cfs w) = default_cfd_ (cfs v) ->
  cfs_max_column_family (cfs v) <= cfs_max_column_family (cfs w) -> recoverable b w.
Proof.
  intros [Hn H] Hw Hlog Hb Hp Hr Hf Hi Hna Hd Hm. split; [done|]. destruct H as [[Hl Hs]|[rec Ht]].
  - left. split; [congruence|]. destruct Hs as [S1 S2 S3 S4 S5 S6 S7 S8].
    split; rewrite ?Hf, ?Hi, ?Hna, ?Hd, ?Hb; try done; [|lia].
    eapply Forall_impl; [exact S6|]. intros f H. cbn in *. lia.
  - right. exists rec. destruct Ht as (ps & h & Hmf & Hwf & Hne & Hrep & [T1 T2 T3 T4 T5] & Hp' & Hr').
    exists ps, h. split_and!; [|done..| |congruence|congruence].
    + destruct Hmf as (l & Hl & Hrest). exists l. split; [congruence | exact Hrest].
    + split; [by rewrite Hf | congruence.. | lia].
Qed.

Lemma reaches_recoverable db b (v0 v : VersionSet F) (env0 env : E) :
  recoverable b v0 -> reaches db v0 env0 v env -> recoverable b v.
Proof.
  intros H0. induction 1 as [|v env n _ IH|v env n _ IH Hu|v env _ IH|v env n _ IH Hu|v env _ IH Hu|v env opts p v' env' _ IH Hc Hl];
    [done| | | | | |].
  all: pose proof IH as [(N1 & N2 & N3 & N4 & N5) _].
  - eapply recoverable_same; [exact IH | split_and!; [by apply wrap_is_u | done..] | done..].
  - unfold UpdateSequenceNumber. destruct (_ <? _); [|done].
    eapply recoverable_same; [exact IH | done..].
  - eapply recoverable_same; [exact IH | split_and!; [done | by apply wrap_is_u | done..] | done..].
  - unfold ReuseFileNumber. destruct (_ =? _); [|done]. eapply recoverable_same; [exact IH | done..].
  - unfold is_u in N5. assert (wrap 32 (cfs_max_column_family (cfs v) + 1) = cfs_max_column_family (cfs v) + 1) as E1
      by (apply wrap_small; unfold is_u; lia).
    eapply recoverable_same; [exact IH | | done..|]; cbn; rewrite E1; [|lia].
    refine (conj N1 (conj N2 (conj N3 (conj N4 _)))). unfold is_u. cbn. lia.
  - destruct (log_step db opts p env env' v v' b IH Hc Hl) as (Hn & rec & Ht & _). split; [done|]. right. by exists rec.
Qed.

End call.

(** ** A file system in memory

    What is read back is the string that stands for the disk. *)

#[export] Instance MemEnv : EnvOps bytes MemFile := {
  NewWritableFile _ disk := (inr (mkMem []), disk);
  NewSequentialFile _ disk := inr (mkSeq disk 0);
  WriteAll _ _ disk := (kOk, disk);
  Sync f := (kOk, f);
}.

#[export] Instance MemEnv_reliable : EnvReliable bytes MemFile.
Proof. split; intros; eexists; [eexists|..]; by split. Qed.

(** The comparator is called [l], the families [d] and [x]. *)
Definition sample_options : ColumnFamilyOptions := mkOpts [108] lex [] 4096 16.
Definition sample_desc : gmap bytes ColumnFamilyOptions :=
  <[[120] := sample_options]> {[ [100] := sample_options ]}.

(** A new database, as [NewDB] leaves it before its first call. *)
Definition sample_new : VersionSet MemFile :=
  set_numbers 1 1 0 0 0 (set_cfs (NewColumnFamily sample_options [100] 0 NewColumnFamilySet)
    (NewVersionSet kDefaultBlockSize)).

Definition sample_call (p : VersionPatch) (v : VersionSet MemFile) : VersionSet MemFile :=
  match LogAndApply [47] sample_options p ([] : bytes) v with Done (_, v, _) => v | _ => v end.

Definition sample_first : VersionPatch := SetRedoLogNumber 0 (SetPrevLogNumber 0 NewVersionPatch).
Definition sample_second : VersionPatch :=
  CreateFile 0 0 (sample_file 4 [97] [98] 30) (CreateFile 0 0 (sample_file 3 [98] [99] 20) (SetRedoLog 0 1 NewVersionPatch)).

Definition sample_logged : VersionSet MemFile := sample_call sample_second (sample_call sample_first sample_new).

Definition manifest_bytes (v : VersionSet MemFile) : bytes :=
  match logger_ v with Some w => mem_data (fw_file (lw_writer w)) | None => [] end.

Lemma call_ok_simple desc (v : VersionSet MemFile) opts calls :
  let p := fold_left apply_item calls NewVersionPatch in
  Forall item_ok calls -> has_field kAddColumnFamily p = false -> has_field kDropColumnFamily p = false ->
  has_field kCompactionPoint p = false -> has_field kMaxColumnFamily p = false -> call_ok desc v opts p.
Proof.
  intros p Hi H1 H2 H3 H4. split; try congruence; [|done].
  apply fold_items_wf; [apply NewVersionPatch_wf | done].
Qed.


(** Recovering a set and starting to write again. *)
Definition reopen (v : VersionSet MemFile) : VersionSet MemFile :=
  match Recovery [47] sample_desc (manifest_file_number v) ∅ (manifest_bytes v) (NewVersionSet kDefaultBlockSize) with
  | Done (_, rec, _) => rec
  | _ => NewVersionSet 0
  end.

(** A dropped family stays linked after [Recovery]; the next manifest starts
    with a snapshot that adds it again, and the recovery after that has it. *)
Example dropped_family_returns :
  let add := AddColumnFamily [120] 1 [108] NewVersionPatch in
  let v1 := sample_call add (sample_call sample_first sample_new) in
  let v2 := reopen (sample_call (DropColumnFamily 1 NewVersionPatch) v1) in
  let v3 := reopen (sample_call sample_first v2) in
  GetColumnFamilyByName [120] (cfs v2) = None /\ GetColumnFamilyByName [120] (cfs v3) = Some 1%nat.
Proof. by vm_compute. Qed.

(** A first call that adds a family writes it twice, in the snapshot and in its
    patch, and [Recovery] makes two families of it. *)
Example added_family_twice :
  let add := AddColumnFamily [120] 1 [108] NewVersionPatch in
  map cf_id (families (cfs (reopen (sample_call add sample_new)))) = [0; 1; 1].
Proof. by vm_compute. Qed.
