(* ===== verification/DBImpl.v ===== *)
(** * DBImpl

    src/db/db-impl.{h,cc}, src/core/pipeline-queue.h and the memory tables of
    src/db/column-family.{h,cc}: writing to the database, reading from it, and
    redoing its write-ahead log.

    The tables of a family are kept beside the version set, under the family's
    index there; [MemTable] is their interface.  The lock of the database
    makes every operation one step; background work is not run here. *)

From S2P Require Import Prelude Slice Keys Entries IO Files WriteBatch WAL Patch Version VersionSet MemoryTable.

(** ** PipelineQueue *)

Section pipeline_queue.
Context {A : Type}.

Definition q_Add (value : A) (queue : list A) : list A := queue ++ [value].
Definition q_Take (queue : list A) : option (A * list A) :=
  match queue with [] => None | x :: queue => Some (x, queue) end.
Definition q_Peek (queue : list A) : option A := head queue.
Definition q_PeekAll (queue result : list A) : list A := result ++ queue.
Definition q_InProgress (queue : list A) : bool := bool_decide (queue <> []).
End pipeline_queue.

(** ** The state *)

(** The memory tables of a family that is installed; an immutable one is kept
    with its [associated_file_number]. *)
Record Tables (T : Type) := mkTables {
  mutable_ : T;
  immutable_pipeline_ : list (T * Z);
  background_error_ : error;
  background_progress_ : bool;
}.
Arguments mkTables {T}.
Arguments mutable_ {T} _.
Arguments immutable_pipeline_ {T} _.
Arguments background_error_ {T} _.
Arguments background_progress_ {T} _.

Record DBImpl (E F T : Type) := mkDB {
  env_ : E;
  versions_ : VersionSet F;
  tables_ : gmap nat (Tables T);
  db_logger_ : option (LogWriter F);
  log_file_number_ : Z;
  flush_request_ : Z;
  bkg_active_ : Z;
  bkg_error_ : error;
  shutting_down_ : bool;
  total_wal_size_ : Z;
}.
Arguments mkDB {E F T}.
Arguments env_ {E F T} _.
Arguments versions_ {E F T} _.
Arguments tables_ {E F T} _.
Arguments db_logger_ {E F T} _.
Arguments log_file_number_ {E F T} _.
Arguments flush_request_ {E F T} _.
Arguments bkg_active_ {E F T} _.
Arguments bkg_error_ {E F T} _.
Arguments shutting_down_ {E F T} _.
Arguments total_wal_size_ {E F T} _.

(** ** WritingHandler *)

Record WritingHandler := mkHandler {
  redo_log_number_ : Z; filter_ : bool;
  wh_last_sequence_number_ : Z; size_count_ : Z; sequence_number_count_ : Z;
}.

Definition NewWritingHandler (redo_log_number : Z) (filter : bool) : WritingHandler :=
  mkHandler redo_log_number filter 0 0 0.

Definition ResetLastSequenceNumber (sn : Z) (h : WritingHandler) : WritingHandler :=
  mkHandler (redo_log_number_ h) (filter_ h) sn (size_count_ h) 0.

Definition wh_sequence_number (h : WritingHandler) : Z :=
  wrap 64 (wh_last_sequence_number_ h + sequence_number_count_ h).

Section handler.
Context {T : Type} `{!MemTable T}.
Context (column_families_ : ColumnFamilySet).

(** [EnsureGetTable]: the family whose table takes the update, unless the log
    is filtered for it.  A family that is not there is a null pointer. *)
Definition EnsureGetTable (cfid : Z) (h : WritingHandler) : outcome (option nat) :=
  (do! i := ofopt (if cfid =? 0 then default_cfd_ column_families_ else GetColumnFamily cfid column_families_) in
   do! impl := ofopt (families column_families_ !! i) in
   Done (if filter_ h && (redo_log_number impl <? redo_log_number_ h) then None else Some i))%out.

(** One update: the table is a null pointer when the family is not installed. *)
Definition handle (cfid : Z) (key value : bytes) (flag : Z) (st : WritingHandler * gmap nat (Tables T)) :
    outcome (WritingHandler * gmap nat (Tables T)) :=
  let '(h, tables) := st in
  (do! i := EnsureGetTable cfid h in
   do! (size, tables) :=
     match i ≫= fun i => t ← tables !! i; Some (i, t) with
     | None => Done (size_count_ h, tables)
     | Some (i, t) =>
       do! m := mt_Put key value (wh_sequence_number h) flag (mutable_ t) in
       Done (wrap 64 (size_count_ h + (zlen key + 4 + 8) + zlen value),
             <[i := mkTables m (immutable_pipeline_ t) (background_error_ t) (background_progress_ t)]> tables)
     end in
   Done (mkHandler (redo_log_number_ h) (filter_ h) (wh_last_sequence_number_ h) size
           (wrap 64 (sequence_number_count_ h + 1)), tables))%out.

Definition handle_op (o : op) : WritingHandler * gmap nat (Tables T) -> outcome (WritingHandler * gmap nat (Tables T)) :=
  match o with
  | OpPut cfid key value => handle cfid key value (flag_code kFlagValue)
  | OpDelete cfid key => handle cfid key [] (flag_code kFlagDeletion)
  end.

(** The calls [WriteBatch::Iterate] makes. *)
Fixpoint handle_ops (os : list op) (st : WritingHandler * gmap nat (Tables T)) :
    outcome (WritingHandler * gmap nat (Tables T)) :=
  match os with
  | [] => Done st
  | o :: os => obind (handle_op o st) (handle_ops os)
  end.
End handler.

(** ** Writing *)

Section db_impl.
Context {E F T : Type} `{!WritableFile F, !EnvOps E F, !MemTable T}.
Context (abs_db_path_ : bytes) (options_ : ColumnFamilyOptions).
(** [ColumnFamilyImpl::NeedsCompaction]: the score of the version, a [double]. *)
Context (needs_compaction : Version -> bool).

#[local] Abbreviation DB := (DBImpl E F T).

Definition set_versions (v : VersionSet F) (db : DB) : DB :=
  mkDB (env_ db) v (tables_ db) (db_logger_ db) (log_file_number_ db) (flush_request_ db) (bkg_active_ db)
    (bkg_error_ db) (shutting_down_ db) (total_wal_size_ db).
Definition set_env (e : E) (db : DB) : DB :=
  mkDB e (versions_ db) (tables_ db) (db_logger_ db) (log_file_number_ db) (flush_request_ db) (bkg_active_ db)
    (bkg_error_ db) (shutting_down_ db) (total_wal_size_ db).
Definition set_tables (t : gmap nat (Tables T)) (db : DB) : DB :=
  mkDB (env_ db) (versions_ db) t (db_logger_ db) (log_file_number_ db) (flush_request_ db) (bkg_active_ db)
    (bkg_error_ db) (shutting_down_ db) (total_wal_size_ db).
Definition set_log (l : option (LogWriter F)) (number : Z) (db : DB) : DB :=
  mkDB (env_ db) (versions_ db) (tables_ db) l number (flush_request_ db) (bkg_active_ db) (bkg_error_ db)
    (shutting_down_ db) (total_wal_size_ db).
Definition add_flush_request (db : DB) : DB :=
  mkDB (env_ db) (versions_ db) (tables_ db) (db_logger_ db) (log_file_number_ db) (flush_request_ db + 1)
    (bkg_active_ db) (bkg_error_ db) (shutting_down_ db) (total_wal_size_ db).
Definition add_bkg_active (db : DB) : DB :=
  mkDB (env_ db) (versions_ db) (tables_ db) (db_logger_ db) (log_file_number_ db) (flush_request_ db)
    (bkg_active_ db + 1) (bkg_error_ db) (shutting_down_ db) (total_wal_size_ db).

Definition set_file (f : F) (w : LogWriter F) : LogWriter F :=
  mkLW (mkFW f (written_position_ (lw_writer w))) (lw_block_size w) (lw_block_offset w).

(** [RenewLogger]: the results of flushing the old log are dropped. *)
Definition RenewLogger (db : DB) : error * DB :=
  let old := w ← db_logger_ db;
    let '(_, f) := wf_Flush (fw_file (lw_writer w)) in
    let '(_, f) := Sync f in Some (set_file f w) in
  let db := set_log old (log_file_number_ db) db in
  let '(n, v) := GenerateFileNumber (versions_ db) in
  match NewWritableFile (LogFileName abs_db_path_ n) (env_ db) with
  | (inl rs, e) => (rs, set_env e (set_versions (ReuseFileNumber n v) db))
  | (inr f, e) => (kOk, set_env e (set_versions v (set_log (Some (NewLogWriter f kDefaultBlockSize)) n db)))
  end.

Definition update_tables (i : nat) (f : Tables T -> Tables T) (db : DB) : DB :=
  set_tables (alter f i (tables_ db)) db.

(** [MakeImmutablePipeline]: the new table is for the comparator of family [i]. *)
Definition MakeImmutablePipeline (i : nat) (redo_log_number : Z) (db : DB) : outcome DB :=
  (do! f := ofopt (families (cfs (versions_ db)) !! i) in
   do! _ := ofopt (tables_ db !! i) in
   Done (update_tables i (fun t =>
     mkTables (mt_New (comparator_Compare (cf_options f))) (q_Add (mutable_ t, redo_log_number) (immutable_pipeline_ t))
       (background_error_ t) (background_progress_ t)) db))%out.

(** [MaybeScheduleCompaction]: the thread it starts runs when the lock is free. *)
Definition MaybeScheduleCompaction (i : nat) (db : DB) : outcome DB :=
  if 0 <? bkg_active_ db then Done db
  else if shutting_down_ db then Done db
  else
    (do! f := ofopt (families (cfs (versions_ db)) !! i) in
     do! t := ofopt (tables_ db !! i) in
     if negb (q_InProgress (immutable_pipeline_ t)) && negb (needs_compaction (current f)) then Done db
     else Done (update_tables i (fun t =>
       mkTables (mutable_ t) (immutable_pipeline_ t) (background_error_ t) true) (add_bkg_active db)))%out.

(** The loop of [MakeRoomForWrite] for family [i]; the turn that waits ends it,
    as what happens while it waits is not its own. *)
Fixpoint room_loop (fuel : nat) (i : nat) (db : DB) : outcome (error * DB) :=
  match fuel with
  | O => OutOfFuel
  | S fuel =>
    (do! f := ofopt (families (cfs (versions_ db)) !! i) in
     do! t := ofopt (tables_ db !! i) in
     if negb (ok (background_error_ t)) then Done (background_error_ t, db)
     else if mt_roomy (mutable_ t) then Done (kOk, db)
     else if q_InProgress (immutable_pipeline_ t) then Done (kOk, db)
     else if background_progress_ t && (kMaxNumberLevel0File <? NumberLevelFiles (current f) 0) then Done (kOk, db)
     else
       let '(rs, db) := RenewLogger db in
       if negb (ok rs) then Done (rs, db) else
       do! (rs, v, e) := LogAndApply abs_db_path_ options_ (SetRedoLogNumber (log_file_number_ db) NewVersionPatch)
         (env_ db) (versions_ db) in
       let db := set_env e (set_versions v db) in
       if negb (ok rs) then Done (rs, db) else
       do! db := MakeImmutablePipeline i (log_file_number_ db) db in
       do! db := MaybeScheduleCompaction i db in
       room_loop fuel i db)%out
  end.

(** A turn that renews the log leaves the pipeline in progress, so the next one
    is the last. *)
Definition MakeRoomForWrite (i : nat) (db : DB) : outcome (error * DB) :=
  if negb (ok (bkg_error_ db)) then Done (bkg_error_ db, db) else room_loop 2 i db.

Fixpoint make_rooms (cfds : list nat) (db : DB) : outcome (error * DB) :=
  match cfds with
  | [] => Done (kOk, db)
  | i :: cfds => obind (MakeRoomForWrite i db) (fun '(rs, db) => if ok rs then make_rooms cfds db else Done (rs, db))
  end.

(** [LogWriter::Sync(true)] *)
Definition lw_Sync (w : LogWriter F) : error * LogWriter F :=
  let '(rs, f) := Sync (fw_file (lw_writer w)) in (rs, set_file f w).

(** [WriteImpl]; [callback] is the [Prepare] of the callback, if there is one
    (its other methods do nothing in every implementation).  What [Iterate]
    returns is not looked at. *)
Definition WriteImpl (sync : bool) (batch : WriteBatch) (callback : option (DB -> outcome error)) (db : DB) :
    outcome (error * DB) :=
  let last_version := last_sequence_number (versions_ db) in
  (do! (rs, db) := make_rooms (seq 0 (length (families (cfs (versions_ db))))) db in
   if negb (ok rs) then Done (rs, db) else
   do! rs := match callback with Some prepare => prepare db | None => Done kOk end in
   if negb (ok rs) then Done (rs, db) else
   do! w := ofopt (db_logger_ db) in
   do! (rs, w) := Append (redo (wrap 64 (last_version + 1)) batch) w in
   let db := set_log (Some w) (log_file_number_ db) db in
   if negb (ok rs) then Done (rs, db) else
   let db := add_flush_request db in
   let '(rs, w) := if sync then lw_Flush w else (kOk, w) in
   let '(rs, w) := if sync && ok rs then lw_Sync w else (rs, w) in
   let db := set_log (Some w) (log_file_number_ db) db in
   if negb (ok rs) then Done (rs, db) else
   do! os := ofopt (IterateBatch batch) in
   do! (h, tables) := handle_ops (cfs (versions_ db)) os
     (ResetLastSequenceNumber (wrap 64 (last_version + 1)) (NewWritingHandler 0 false), tables_ db) in
   Done (kOk, set_versions (AddSequenceNumber (sequence_number_count_ h) (versions_ db)) (set_tables tables db)))%out.

(** *** Redo *)

(** The loop over the records of a log. *)
Fixpoint redo_loop (fuel : nat) (column_families : ColumnFamilySet) (result scatch : bytes) (r : LogReader)
    (st : WritingHandler * gmap nat (Tables T)) (update_sequence_number : Z) :
    outcome (LogReader * gmap nat (Tables T) * Z) :=
  match fuel with
  | O => OutOfFuel
  | S fuel =>
    (do! (more, result, scatch, r) := Read result scatch r in
     if negb more then Done (r, snd st, update_sequence_number) else
     do! sn := ofopt (SetFixed64 (take 8 result)) in
     do! _ := ofopt (SetFixed32 (take 4 (drop 8 result))) in
     let result := drop (Z.to_nat WriteBatch.kHeaderSize) result in
     do! os := ofopt (Iterate result) in
     do! st := handle_ops column_families os (ResetLastSequenceNumber sn (fst st), snd st) in
     redo_loop fuel column_families result scatch r st (wrap 64 (sn + sequence_number_count_ (fst st))))%out
  end.

(** [Redo]: the log's tables and the sequence number to go on from. *)
Definition Redo (log_file_number : Z) (update_sequence_number : Z) (filter : bool) (db : DB) :
    outcome (error * DB * Z) :=
  match NewSequentialFile (LogFileName abs_db_path_ log_file_number) (env_ db) with
  | inl rs => Done (rs, db, update_sequence_number)
  | inr file =>
    (do! (r, tables, update) := redo_loop (S (length (sf_data file))) (cfs (versions_ db)) [] []
       (NewLogReader file true kDefaultBlockSize) (NewWritingHandler log_file_number filter, tables_ db)
       update_sequence_number in
     let db := set_tables tables db in
     if negb (ok (lr_error r)) && negb (bool_decide (lr_error r = kEOF)) then Done (lr_error r, db, update)
     else Done (kOk, db, update))%out
  end.
End db_impl.

(** *** A new database *)

(** The methods of [Env] about directories. *)
Class DirOps (E : Type) := {
  FileExists : bytes -> E -> error;
  MakeDirectory : bytes -> bool -> E -> error * E;
  GetAbsolutePath : bytes -> E -> bytes;
  GetChildren : bytes -> E -> error + list bytes;
  GetFileSize : bytes -> E -> error + Z;
  DeleteFile : bytes -> bool -> E -> error * E;
}.

(** ["default"] *)
Definition kDefaultColumnFamilyName : bytes := [100; 101; 102; 97; 117; 108; 116].

Record ColumnFamilyDescriptor := mkDescriptor { cfd_name : bytes; cfd_options : ColumnFamilyOptions }.

(** [cf_opts]: for a name given twice the last options. *)
Definition cf_opts (desc : list ColumnFamilyDescriptor) : gmap bytes ColumnFamilyOptions :=
  foldl (fun m d => <[cfd_name d := cfd_options d]> m) ∅ desc.

(** The order of [std::map]. *)
Definition name_le (a b : bytes * ColumnFamilyOptions) : Prop := lex (fst a) (fst b) <= 0.
#[global] Instance name_le_dec a b : Decision (name_le a b).
Proof. unfold name_le. apply _. Defined.
Definition in_order (m : gmap bytes ColumnFamilyOptions) : list (bytes * ColumnFamilyOptions) :=
  merge_sort name_le (map_to_list m).

Section new_db.
Context {E F T : Type} `{!WritableFile F, !EnvOps E F, !DirOps E, !MemTable T}.
Context (abs_db_path_ : bytes) (options_ : ColumnFamilyOptions).

#[local] Abbreviation DB := (DBImpl E F T).

(** [block_size] is the option, which the manifest is written with. *)
Definition NewDBImpl (block_size : Z) (env : E) : DB :=
  mkDB env (NewVersionSet block_size) ∅ None 0 0 0 kOk false 0.

(** [ColumnFamilyImpl::GetDir] *)
Definition GetDir (f : ColumnFamilyImpl) (env : E) : bytes :=
  if bool_decide (options_dir (cf_options f) = []) then abs_db_path_ ++ [47] ++ cf_name f
  else GetAbsolutePath (options_dir (cf_options f)) env ++ [47] ++ cf_name f.

(** [ColumnFamilyImpl::Install] of family [i]. *)
Definition Install (i : nat) (db : DB) : outcome (error * DB) :=
  (do! f := ofopt (families (cfs (versions_ db)) !! i) in
   let t := match tables_ db !! i with
            | Some t => mkTables (mt_New (comparator_Compare (cf_options f))) (immutable_pipeline_ t) (background_error_ t)
                          (background_progress_ t)
            | None => mkTables (mt_New (comparator_Compare (cf_options f))) [] kOk false
            end in
   let '(rs, e) := MakeDirectory (GetDir f (env_ db)) false (env_ db) in
   Done (rs, set_env e (set_tables (<[i := t]> (tables_ db)) db)))%out.

Definition set_families_of (s : ColumnFamilySet) (db : DB) : DB := set_versions (set_cfs s (versions_ db)) db.

(** The loop over the families of [NewDB]. *)
Fixpoint install_all (cfds : list nat) (db : DB) : outcome (error * DB) :=
  match cfds with
  | [] => Done (kOk, db)
  | i :: cfds =>
    (do! (rs, db) := Install i db in
     if negb (ok rs) then Done (rs, db) else
     install_all cfds (set_families_of
       (update_family i (set_redo_log_number (log_file_number_ db)) (cfs (versions_ db))) db))%out
  end.

(** The families of [NewDB]: the default one, then the others by name. *)
Definition new_families (opts : gmap bytes ColumnFamilyOptions) (s : ColumnFamilySet) : ColumnFamilySet :=
  let s := NewColumnFamily (default options_ (opts !! kDefaultColumnFamilyName)) kDefaultColumnFamilyName 0 s in
  foldl (fun s opt =>
    if bool_decide (fst opt = kDefaultColumnFamilyName) then s
    else let '(cfid, s) := NextColumnFamilyId s in NewColumnFamily (snd opt) (fst opt) cfid s) s (in_order opts).

Definition NewDB (desc : list ColumnFamilyDescriptor) (db : DB) : outcome (error * DB) :=
  let rs := FileExists abs_db_path_ (env_ db) in
  let '(rs, db) := if ok rs then (rs, db)
    else let '(rs, e) := MakeDirectory abs_db_path_ true (env_ db) in (rs, set_env e db) in
  if negb (ok rs) then Done (rs, db) else
  let '(rs, db) := RenewLogger abs_db_path_ db in
  if negb (ok rs) then Done (rs, db) else
  let db := set_families_of (new_families (cf_opts desc) (cfs (versions_ db))) db in
  (do! (rs, db) := install_all (seq 0 (length (families (cfs (versions_ db))))) db in
   if negb (ok rs) then Done (rs, db) else
   let patch := SetRedoLogNumber (log_file_number_ db) (SetPrevLogNumber 0 NewVersionPatch) in
   let db := set_versions (AddSequenceNumber 1 (versions_ db)) db in
   do! (rs, v, e) := LogAndApply abs_db_path_ options_ patch (env_ db) (versions_ db) in
   Done (rs, set_env e (set_versions v db)))%out.
End new_db.

(** ** Reading *)

(** A [ColumnFamily *]: whether its handle is of this database, and the family. *)
Record ColumnFamilyHandle := mkCFHandle { h_mine : bool; h_impl : nat }.

Record GetContext (T : Type) := mkGetCtx {
  in_mem : list T; gc_last_sequence_number : Z; gc_cfd : nat; gc_current : Version;
}.
Arguments mkGetCtx {T}.
Arguments in_mem {T} _.
Arguments gc_last_sequence_number {T} _.
Arguments gc_cfd {T} _.
Arguments gc_current {T} _.

Section reading.
Context {E F T : Type} `{!MemTable T}.
(** The tables of the files of a family, through the table cache. *)
Context (cache_get : nat -> Z -> bytes -> error + Tag * bytes).

#[local] Abbreviation DB := (DBImpl E F T).

(** [PrepareForGet]; [snapshot] is the snapshot's sequence number. *)
Definition PrepareForGet (snapshot : option Z) (cf : option ColumnFamilyHandle) (db : DB) :
    outcome (error + GetContext T) :=
  match cf with
  | None => Done (inl kCorruption)
  | Some handle =>
    if negb (h_mine handle) then Done (inl kCorruption) else
    (do! impl := ofopt (families (cfs (versions_ db)) !! h_impl handle) in
     if dropped impl then Done (inl kCorruption) else
     do! t := ofopt (tables_ db !! h_impl handle) in
     Done (inr (mkGetCtx (q_PeekAll (map fst (immutable_pipeline_ t)) [mutable_ t])
       (default (last_sequence_number (versions_ db)) snapshot) (h_impl handle) (current impl))))%out
  end.

(** The loop of [Get] over the memory tables: the result of the first that
    has the key. *)
Fixpoint get_in_mem (key : bytes) (version : Z) (tables : list T) : outcome (option (error + option bytes)) :=
  match tables with
  | [] => Done None
  | t :: tables =>
    (do! r := mt_Get key version t in
     match r with
     | inr (tag, value) =>
       Done (Some (if flag tag =? flag_code kFlagDeletion then inl kNotFound else inr value))
     | inl _ => get_in_mem key version tables
     end)%out
  end.

(** [Get]: the value when it is assigned.  What [PrepareForGet] returns is not
    looked at: when it fails, the version of the context is no pointer. *)
Definition db_Get (snapshot : option Z) (cf : option ColumnFamilyHandle) (key : bytes) (db : DB) :
    outcome (error + option bytes) :=
  (do! ctx := PrepareForGet snapshot cf db in
   match ctx with
   | inl _ => Undef
   | inr ctx =>
     do! r := get_in_mem key (gc_last_sequence_number ctx) (in_mem ctx) in
     match r with
     | Some r => Done r
     | None =>
       do! impl := ofopt (families (cfs (versions_ db)) !! gc_cfd ctx) in
       Done match Version.Get (InternalCompare (comparator_Compare (cf_options impl))) (cache_get (gc_cfd ctx))
              (gc_current ctx) key (gc_last_sequence_number ctx) with
            | inl rs => inl rs
            | inr (tag, value) => if flag tag =? flag_code kFlagDeletion then inl kNotFound else inr (Some value)
            end
     end
   end)%out.

(** Its loop over the memory tables: the version in the first that has the key. *)
Fixpoint find_latest (key : bytes) (curr_seq : Z) (tables : list T) : outcome (option Z) :=
  match tables with
  | [] => Done None
  | t :: tables =>
    (do! r := mt_Get key curr_seq t in
     match r with inr (tag, _) => Done (Some (Keys.sequence_number tag)) | inl _ => find_latest key curr_seq tables end)%out
  end.

(** [GetLatestSequenceForKey] of family [i]. *)
Definition GetLatestSequenceForKey (i : nat) (cache_only : bool) (key : bytes) (db : DB) : outcome (error * Z) :=
  let curr_seq := last_sequence_number (versions_ db) in
  (do! impl := ofopt (families (cfs (versions_ db)) !! i) in
   do! t := ofopt (tables_ db !! i) in
   do! found := find_latest key curr_seq (mutable_ t :: map fst (immutable_pipeline_ t)) in
   Done match found with
   | Some seq => (kOk, seq)
   | None =>
     if cache_only then (kNotFound, kMaxSequenceNumber)
     else match Version.Get (InternalCompare (comparator_Compare (cf_options impl))) (cache_get i) (current impl) key curr_seq with
          | inr (tag, _) => (kOk, Keys.sequence_number tag)
          | inl rs => (rs, kMaxSequenceNumber)
          end
   end)%out.
End reading.

(** ** Redo restores what was written *)

Section handlers.
Context {T : Type} `{!MemTable T}.
Context (column_families : ColumnFamilySet).

#[local] Abbreviation handle_ops := (handle_ops column_families).

(** Handlers that treat updates alike. *)
Definition same_handler (h k : WritingHandler) : Prop :=
  filter_ h = false /\ filter_ k = false /\ wh_last_sequence_number_ h = wh_last_sequence_number_ k /\
  sequence_number_count_ h = sequence_number_count_ k.

Lemma handle_same cfid key value flag h k (t t' : gmap nat (Tables T)) h' :
  same_handler h k -> handle column_families cfid key value flag (h, t) = Done (h', t') ->
  exists k', handle column_families cfid key value flag (k, t) = Done (k', t') /\ same_handler h' k' /\
    sequence_number_count_ h' = wrap 64 (sequence_number_count_ h + 1) /\
    wh_last_sequence_number_ h' = wh_last_sequence_number_ h.
Proof.
  intros (Hf & Kf & Hl & Hc). unfold handle, EnsureGetTable, wh_sequence_number. rewrite Hf, Kf, Hl, Hc. cbn [andb].
  destruct (ofopt (if cfid =? 0 then _ else _)) as [i| |]; cbn [obind]; [|done..].
  destruct (ofopt (families column_families !! i)) as [impl| |]; cbn [obind mbind option_bind]; [|done..].
  destruct (t !! i) as [tab|]; cbn [obind mbind option_bind].
  - match goal with |- context [mt_Put ?a ?b ?c ?d ?e] => destruct (mt_Put a b c d e) as [m| |] end;
      cbn [obind]; [|done..]. intros [= <- <-].
    eexists. split; [reflexivity|]. unfold same_handler. cbn. by rewrite ?Hc, ?Hl.
  - intros [= <- <-]. eexists. split; [reflexivity|]. unfold same_handler. cbn. by rewrite ?Hc, ?Hl.
Qed.

Lemma handle_ops_same os h k (t t' : gmap nat (Tables T)) h' :
  same_handler h k -> is_u 64 (sequence_number_count_ h) -> handle_ops os (h, t) = Done (h', t') ->
  exists k', handle_ops os (k, t) = Done (k', t') /\ same_handler h' k' /\
    sequence_number_count_ h' = wrap 64 (sequence_number_count_ h + zlen os).
Proof.
  revert h k t. induction os as [|o os IH]; intros h k t Hs Hu; cbn [DBImpl.handle_ops].
  - intros [= <- <-]. exists k. rewrite zlen_nil, Z.add_0_r, wrap_small by done. done.
  - assert (exists cfid key value flag, forall st, handle_op column_families o st = handle column_families cfid key value flag st)
      as (cfid & key & value & flag & Ho) by (destruct o; eauto).
    rewrite !Ho. destruct (handle _ _ _ _ _ (h, t)) as [[h1 t1]| |] eqn:E; cbn [obind]; [|done..]. intros Hos.
    destruct (handle_same _ _ _ _ _ _ _ _ _ Hs E) as (k1 & -> & Hs1 & Hc1 & _). cbn [obind].
    destruct (IH h1 k1 t1 Hs1 ltac:(rewrite Hc1; auto with mai lia) Hos) as (k' & Ek & Hs' & Hc').
    exists k'. split; [done|]. split; [done|]. rewrite Hc', Hc1, zlen_cons. unfold wrap.
    rewrite Zplus_mod_idemp_l. f_equal. lia.
Qed.

(** The records of a log one after the other. *)
Fixpoint redo_records (recs : list bytes) (st : WritingHandler * gmap nat (Tables T)) (update : Z) :
    outcome (gmap nat (Tables T) * Z) :=
  match recs with
  | [] => Done (snd st, update)
  | result :: recs =>
    (do! sn := ofopt (SetFixed64 (take 8 result)) in
     do! _ := ofopt (SetFixed32 (take 4 (drop 8 result))) in
     do! os := ofopt (Iterate (drop (Z.to_nat WriteBatch.kHeaderSize) result)) in
     do! st := handle_ops os (ResetLastSequenceNumber sn (fst st), snd st) in
     redo_records recs st (wrap 64 (sn + sequence_number_count_ (fst st))))%out
  end.

Lemma redo_loop_records off recs es off' :
  logged kDefaultBlockSize off recs es off' -> 0 <= off <= kDefaultBlockSize -> Forall (fun p => p <> []) recs ->
  forall fuel result scratch r pre st update tables update',
  (length recs < fuel)%nat -> lr_block_size r = kDefaultBlockSize -> lr_block_offset r = off ->
  reader_at (lr_reader r) pre es -> fr_error (lr_reader r) <> kEOF ->
  redo_records recs st update = Done (tables, update') ->
  exists r', redo_loop fuel column_families result scratch r st update = Done (r', tables, update') /\ lr_error r' = kEOF.
Proof.
  assert (Hbs : 7 < kDefaultBlockSize <= 65535 + 7) by (unfold kDefaultBlockSize; lia).
  induction 1 as [off|off rec e off1 recs es off' Hf Hl IH]; intros Ho Hne fuel result scratch r pre st update tables update'
    Hfuel Hb Hoff Hr He Hrec; (destruct fuel as [|fuel]; [lia|]); cbn [redo_loop].
  - cbn [redo_records] in Hrec. injection Hrec as <- <-.
    destruct (Read_eof kDefaultBlockSize result scratch r pre) as (r' & -> & E'); [done..|lia|done|].
    cbn [obind negb]. eauto.
  - apply Forall_cons in Hne as [Hne1 Hne].
    destruct (Read_frags kDefaultBlockSize Hbs off rec e off1 result scratch r pre es)
      as (scr & r' & -> & R' & E' & V' & B' & O'); [done..|]. cbn [obind negb]. cbn [redo_records] in Hrec.
    destruct (ofopt (SetFixed64 (take 8 rec))) as [sn| |]; cbn [obind] in *; [|done..].
    destruct (ofopt (SetFixed32 (take 4 (drop 8 rec)))) as [n| |]; cbn [obind] in *; [|done..].
    destruct (ofopt (Iterate _)) as [os| |]; cbn [obind] in *; [|done..].
    destruct (handle_ops os _) as [st'| |]; cbn [obind] in *; [|done..].
    apply (IH (frags_off _ Hbs _ _ _ _ _ Ho Hf) Hne) with (pre := pre ++ e);
      [cbn in Hfuel; lia | done.. | by rewrite E' | done].
Qed.
End handlers.

(** ** What a write does *)

Section writes.
Context {E F T : Type} `{!WritableFile F, !WritableFileLaws F, !ReliableFile F, !EnvOps E F, !EnvReliable E F, !MemTable T}.
Context (path : bytes) (options : ColumnFamilyOptions) (needs_compaction : Version -> bool).

#[local] Abbreviation DB := (DBImpl E F T).
#[local] Abbreviation written w := (contents (fw_file (lw_writer w))).

(** There is room in every family. *)
Definition roomy (db : DB) : Prop :=
  forall i, (i < length (families (cfs (versions_ db))))%nat ->
    MakeRoomForWrite path options needs_compaction i db = Done (kOk, db).

(** The batch that [Put] and [Delete] make of the updates [os]. *)
Definition batch_of (os : list op) : WriteBatch := fold_left apply_op os NewWriteBatch.

Definition batch_ok (os : list op) : Prop :=
  Forall op_ok os /\ in_memory (concat (map record os)) /\ zlen os < 2 ^ 32.

Lemma make_rooms_roomy (db : DB) cfds :
  roomy db -> Forall (fun i => (i < length (families (cfs (versions_ db))))%nat) cfds ->
  make_rooms path options needs_compaction cfds db = Done (kOk, db).
Proof.
  intros Hr. induction 1 as [|i cfds Hi _ IH]; [done|]. cbn [make_rooms]. rewrite Hr by done. exact IH.
Qed.

Lemma set_file_written f (w : LogWriter F) :
  written (set_file f w) = contents f /\ lw_block_size (set_file f w) = lw_block_size w /\
  lw_block_offset (set_file f w) = lw_block_offset w.
Proof. done. Qed.

(** Flushing and syncing change nothing of the log. *)
Lemma flush_sync sync (w : LogWriter F) :
  exists w', (let '(rs, w) := if sync : bool then lw_Flush w else (kOk, w) in
              if sync && ok rs then lw_Sync (E := E) w else (rs, w)) = (kOk, w') /\
    written w' = written w /\ lw_block_size w' = lw_block_size w /\ lw_block_offset w' = lw_block_offset w.
Proof.
  destruct sync; [|by exists w]. unfold lw_Flush, fw_Flush.
  destruct (rel_Flush (fw_file (lw_writer w))) as (f & Ef). rewrite Ef. cbn [ok andb]. unfold lw_Sync. cbn.
  destruct (env_sync (E := E) f) as (f' & -> & Hc). eexists. split; [reflexivity|]. cbn.
  by rewrite Hc, (wf_Flush_ok _ _ Ef).
Qed.

Lemma redo_header os sn :
  batch_ok os -> is_u 64 sn ->
  redo sn (batch_of os) <> [] /\ SetFixed64 (take 8 (redo sn (batch_of os))) = Some sn /\
  is_Some (SetFixed32 (take 4 (drop 8 (redo sn (batch_of os))))) /\
  Iterate (drop (Z.to_nat WriteBatch.kHeaderSize) (redo sn (batch_of os))) = Some os /\
  IterateBatch (batch_of os) = Some os.
Proof.
  intros (Hos & Hm & Hn) Hsn. destruct (batch_parts os sn Hos Hm Hn Hsn) as (H1 & H2 & _ & _ & _).
  fold (batch_of os) in *. split_and!; [ | | |exact H2|exact H1].
  - unfold redo. intros E'%(f_equal length). rewrite length_app, length_le_bytes in E'. cbn in E'. lia.
  - unfold redo, SetFixed64. rewrite take_app_length' by (by rewrite length_le_bytes).
    rewrite <- (app_nil_r (le_bytes 8 sn)), SetFixed_le_bytes, Z.mod_small by exact Hsn. done.
  - unfold redo, SetFixed32. rewrite drop_app_length' by (by rewrite length_le_bytes).
    rewrite take_app_length' by (by rewrite length_le_bytes).
    rewrite <- (app_nil_r (le_bytes 4 _)), SetFixed_le_bytes. by eexists.
Qed.

(** What a successful write leaves behind. *)
Lemma WriteImpl_roomy sync os (db db' : DB) w :
  roomy db -> batch_ok os -> db_logger_ db = Some w ->
  lw_block_size w = kDefaultBlockSize -> 0 <= lw_block_offset w <= kDefaultBlockSize ->
  WriteImpl path options needs_compaction sync (batch_of os) None db = Done (kOk, db') ->
  let sn := wrap 64 (last_sequence_number (versions_ db) + 1) in
  exists e w' h, frags kDefaultBlockSize (lw_block_offset w) true (redo sn (batch_of os)) e (lw_block_offset w') /\
    written w' = written w ++ e /\ lw_block_size w' = kDefaultBlockSize /\
    db_logger_ db' = Some w' /\ cfs (versions_ db') = cfs (versions_ db) /\
    last_sequence_number (versions_ db') = wrap 64 (last_sequence_number (versions_ db) + sequence_number_count_ h) /\
    handle_ops (cfs (versions_ db)) os (ResetLastSequenceNumber sn (NewWritingHandler 0 false), tables_ db) =
      Done (h, tables_ db').
Proof.
  intros Hr Hb Hw Hbs Hoff. cbn zeta. set (sn := wrap 64 _).
  assert (Hsn : is_u 64 sn) by (apply wrap_is_u; lia). destruct (redo_header os sn Hb Hsn) as (_ & _ & _ & _ & Hit).
  unfold WriteImpl. rewrite make_rooms_roomy by (done || (apply Forall_forall; intros i Hi; apply elem_of_seq in Hi; lia)).
  cbn [obind ok negb]. rewrite Hw. cbn [ofopt obind]. fold sn.
  destruct (Append_frags kDefaultBlockSize ltac:(unfold kDefaultBlockSize; lia) (redo sn (batch_of os)) w Hbs Hoff)
    as (e & w1 & -> & Hf & Hc & Hs1). cbn [obind ok negb].
  destruct (flush_sync sync w1) as (w2 & E2 & Hc2 & Hs2 & Ho2).
  destruct (if sync then lw_Flush w1 else (kOk, w1)) as [rs1 w1']. rewrite E2. cbn [ok negb].
  rewrite Hit. cbn [ofopt obind]. cbn [set_log add_flush_request versions_ tables_].
  destruct (handle_ops _ _ _) as [[h tables]| |] eqn:Eh; cbn [obind]; [|done..]. intros [= <-].
  exists e, w2, h. cbn. rewrite Ho2, Hc2, Hs2. by split_and!.
Qed.
(** Successful writes of batches, none of which makes room. *)
Inductive writes : DB -> list (list op) -> DB -> Prop :=
  | writes_nil db : writes db [] db
  | writes_cons sync os oss db db1 db2 :
      roomy db -> batch_ok os -> WriteImpl path options needs_compaction sync (batch_of os) None db = Done (kOk, db1) ->
      writes db1 oss db2 -> writes db (os :: oss) db2.

(** The records they log, when redone, make the same tables. *)
Lemma writes_records db oss db' :
  writes db oss db' -> forall w, db_logger_ db = Some w ->
  lw_block_size w = kDefaultBlockSize -> 0 <= lw_block_offset w <= kDefaultBlockSize ->
  exists recs es w', logged kDefaultBlockSize (lw_block_offset w) recs es (lw_block_offset w') /\
    written w' = written w ++ es /\ db_logger_ db' = Some w' /\ cfs (versions_ db') = cfs (versions_ db) /\
    Forall (fun p => p <> []) recs /\
    forall h update, filter_ h = false ->
      redo_records (cfs (versions_ db)) recs (h, tables_ db) update =
        Done (tables_ db', if oss is [] then update else wrap 64 (last_sequence_number (versions_ db') + 1)).
Proof.
  assert (Hbs : 7 < kDefaultBlockSize <= 65535 + 7) by (unfold kDefaultBlockSize; lia).
  induction 1 as [db|sync os oss db db1 db2 Hroom Hb Hwr Hws IH]; intros w Hw Hs Ho.
  { exists [], [], w. rewrite app_nil_r. split_and!; [constructor | done..]. }
  destruct (WriteImpl_roomy sync os db db1 w Hroom Hb Hw Hs Ho Hwr)
    as (e & w1 & h1 & Hf & Hc1 & Hs1 & Hw1 & Hcfs1 & Hl1 & Hh1).
  destruct (IH w1 Hw1 Hs1 (frags_off _ Hbs _ _ _ _ _ Ho Hf)) as (recs & es & w2 & Hlog & Hc2 & Hw2 & Hcfs2 & Hne & Hredo).
  set (sn := wrap 64 (last_sequence_number (versions_ db) + 1)) in *.
  assert (Hsn : is_u 64 sn) by (apply wrap_is_u; lia).
  destruct (redo_header os sn Hb Hsn) as (Hne1 & Hfix & [n Hn] & Hit & _).
  exists (redo sn (batch_of os) :: recs), (e ++ es), w2.
  split_and!; [by eapply logged_cons | by rewrite Hc2, Hc1, app_assoc | done | by rewrite Hcfs2 | by constructor |].
  intros h update Hh. cbn [redo_records]. rewrite Hfix, Hn, Hit. cbn [ofopt obind fst snd].
  destruct (handle_ops_same (cfs (versions_ db)) os (ResetLastSequenceNumber sn (NewWritingHandler 0 false))
    (ResetLastSequenceNumber sn h) (tables_ db) (tables_ db1) h1) as (h2 & -> & Hsame & Hcount);
    [by split_and! | by unfold is_u | exact Hh1 |].
  cbn [obind fst]. rewrite <- Hcfs1. destruct Hsame as (_ & Hf2 & _ & Hcnt). rewrite (Hredo h2 _ Hf2).
  f_equal. f_equal. destruct Hws; [|done]. rewrite Hl1, <- Hcnt. unfold sn, wrap.
  rewrite Zplus_mod_idemp_l, (Zplus_mod_idemp_l _ 1). f_equal. lia.
Qed.

(** The families of a log that is not filtered are found as in another set. *)
Definition finds_same (s t : ColumnFamilySet) : Prop :=
  forall cfid h, filter_ h = false -> EnsureGetTable s cfid h = EnsureGetTable t cfid h.

Lemma handle_ops_finds s t os h tables :
  finds_same s t -> filter_ h = false ->
  handle_ops (T := T) s os (h, tables) = handle_ops t os (h, tables) /\
  forall st, handle_ops t os (h, tables) = Done st -> filter_ (fst st) = false.
Proof.
  intros Hst. revert h tables. induction os as [|o os IH]; intros h tables Hh; cbn [handle_ops].
  { split; [done|]. by intros st [= <-]. }
  assert (exists cfid key value flag, forall c st, handle_op (T := T) c o st = handle c cfid key value flag st)
    as (cfid & key & value & flag & Ho) by (destruct o; do 4 eexists; intros; reflexivity).
  rewrite !Ho. unfold handle. rewrite (Hst cfid h Hh). destruct (EnsureGetTable t cfid h) as [i| |]; cbn [obind]; [|by split..].
  match goal with |- context [obind (obind ?x _) _] => destruct x as [[size m]| |] end; cbn [obind]; [by apply IH | by split..].
Qed.

Lemma redo_loop_finds s t fuel : finds_same s t -> forall result scratch r h tables update, filter_ h = false ->
  redo_loop (T := T) fuel s result scratch r (h, tables) update = redo_loop fuel t result scratch r (h, tables) update.
Proof.
  intros Hst. induction fuel as [|fuel IH]; intros result scratch r h tables update Hh; [done|]. cbn [redo_loop].
  destruct (Read result scratch r) as [[[[more res] scr] r']| |]; cbn [obind]; [|done..]. destruct (negb more); [done|].
  destruct (ofopt (SetFixed64 (take 8 res))) as [sn| |]; cbn [obind]; [|done..].
  destruct (ofopt (SetFixed32 (take 4 (drop 8 res)))) as [n| |]; cbn [obind]; [|done..].
  destruct (ofopt (Iterate _)) as [os| |]; cbn [obind fst snd]; [|done..].
  destruct (handle_ops_finds s t os (ResetLastSequenceNumber sn h) tables Hst Hh) as [-> Hf].
  destruct (handle_ops t os _) as [[h' tables']| |]; cbn [obind]; [|done..]. apply IH. by apply (Hf _ eq_refl).
Qed.

Lemma Redo_writes (db db' crashed : DB) oss f w n update :
  writes db oss db' -> db_logger_ db = Some (NewLogWriter f kDefaultBlockSize) -> contents f = [] ->
  db_logger_ db' = Some w -> finds_same (cfs (versions_ crashed)) (cfs (versions_ db)) -> tables_ crashed = tables_ db ->
  NewSequentialFile (LogFileName path n) (env_ crashed) = inr (mkSeq (written w) 0) ->
  Redo path n update false crashed =
    Done (kOk, set_tables (tables_ db') crashed,
          if oss is [] then update else wrap 64 (last_sequence_number (versions_ db') + 1)).
Proof.
  intros Hws Hlog Hf Hw Hcfs Htab Hfile. unfold Redo. rewrite Hfile.
  destruct (writes_records db oss db' Hws _ Hlog eq_refl ltac:(unfold kDefaultBlockSize; cbn; lia))
    as (recs & es & w' & Hl & Hc & Hw' & _ & Hne & Hredo).
  rewrite Hw in Hw'. injection Hw' as <-. cbn in Hc. rewrite Hf in Hc. cbn in Hc.
  destruct (redo_loop_records (cfs (versions_ db)) _ _ _ _ Hl ltac:(unfold kDefaultBlockSize; cbn; lia) Hne
    (S (length es)) [] [] (NewLogReader (mkSeq (written w) 0) true kDefaultBlockSize) []
    (NewWritingHandler n false, tables_ crashed) update (tables_ db')
    (if oss is [] then update else wrap 64 (last_sequence_number (versions_ db') + 1)))
    as (r & Eredo & He).
  { pose proof (proj2 (logged_records _ _ _ _ _ Hl)). lia. }
  { done. } { done. } { split; [|done]. cbn. by rewrite Hc. } { done. }
  { rewrite Htab. by apply Hredo. }
  cbn [sf_data]. rewrite Hc at 1. rewrite (redo_loop_finds _ _ _ Hcfs) by done. rewrite Eredo. cbn [obind]. rewrite He. done.
Qed.

(** C18: Redoing the log of any sequence of successful writes (synced or not), none
    of which made room, onto the tables from before them gives exactly the tables
    the writes left, and, when there was a write, the number after the last one
    used: nothing that is in the log is lost, reordered or renumbered by a
    restart. *)
Theorem Redo_of_writes (db db' crashed : DB) oss f w n update :
  writes db oss db' -> db_logger_ db = Some (NewLogWriter f kDefaultBlockSize) -> contents f = [] ->
  db_logger_ db' = Some w -> cfs (versions_ crashed) = cfs (versions_ db) -> tables_ crashed = tables_ db ->
  NewSequentialFile (LogFileName path n) (env_ crashed) = inr (mkSeq (written w) 0) ->
  Redo path n update false crashed =
    Done (kOk, set_tables (tables_ db') crashed,
          if oss is [] then update else wrap 64 (last_sequence_number (versions_ db') + 1)).
Proof.
  intros Hws Hlog Hf Hw Hcfs. apply (Redo_writes db db' crashed oss f w n update Hws Hlog Hf Hw). by rewrite Hcfs.
Qed.
End writes.

(** ** A database of one family *)

Module Sample.
#[export] Instance ops : MemTable OrderedTable := Ordered_ops [3; 0; 1; 2; 4; 0; 0; 1] (fun _ => true).
#[export] Instance laws : MemTableLaws OrderedTable := Ordered_laws _ _.

Definition no_compaction (_ : Version) : bool := false.

Definition new_tables : Tables OrderedTable := mkTables (mt_New lex) [] kOk false.

(** As [NewDB] leaves it, with an empty log. *)
Definition db : DBImpl bytes MemFile OrderedTable :=
  mkDB [] sample_new {[ 0%nat := new_tables ]} (Some (NewLogWriter (mkMem []) kDefaultBlockSize)) 0 0 0 kOk false 0.

Definition write {E} `{!EnvOps E MemFile} (os : list op) (db : DBImpl E MemFile OrderedTable) : DBImpl E MemFile OrderedTable :=
  match WriteImpl [47] sample_options no_compaction true (batch_of os) None db with Done (_, db) => db | _ => db end.

Definition first_batch : list op := [OpPut 0 [97] [1]; OpPut 0 [98] [2]].
Definition second_batch : list op := [OpDelete 0 [98]; OpPut 0 [97] [3; 3]].
Definition written_db : DBImpl bytes MemFile OrderedTable := write second_batch (write first_batch db).

Definition log_bytes {E} (db : DBImpl E MemFile OrderedTable) : bytes :=
  match db_logger_ db with Some w => mem_data (fw_file (lw_writer w)) | None => [] end.

(** The database again, with the log on the disk. *)
Definition restarted : DBImpl bytes MemFile OrderedTable :=
  mkDB (log_bytes written_db) sample_new {[ 0%nat := new_tables ]} None 0 0 0 kOk false 0.

Lemma roomy_one_family {E} `{!EnvOps E MemFile} (d : DBImpl E MemFile OrderedTable) :
  length (families (cfs (versions_ d))) = 1%nat ->
  MakeRoomForWrite [47] sample_options no_compaction 0 d = Done (kOk, d) ->
  roomy [47] sample_options no_compaction d.
Proof. intros Hn Hr i Hi. assert (i = 0%nat) as -> by lia. exact Hr. Qed.

Lemma write_ok {E} `{!EnvOps E MemFile} os (d : DBImpl E MemFile OrderedTable) :
  match WriteImpl [47] sample_options no_compaction true (batch_of os) None d with Done (rs, _) => ok rs | _ => false end = true ->
  WriteImpl [47] sample_options no_compaction true (batch_of os) None d = Done (kOk, write os d).
Proof. unfold write. destruct (WriteImpl _ _ _ _ _ _ _) as [[rs d']| |]; [|done..]. by destruct (ok_spec rs) as [->|]; [|destruct rs]. Qed.

Lemma room_ok {E} `{!EnvOps E MemFile} (d : DBImpl E MemFile OrderedTable) :
  length (families (cfs (versions_ d))) = 1%nat -> bkg_error_ d = kOk ->
  (background_error_ <$> tables_ d !! 0%nat) = Some kOk ->
  roomy [47] sample_options no_compaction d.
Proof.
  intros Hn Hb Ht. apply roomy_one_family; [done|]. unfold MakeRoomForWrite. rewrite Hb. cbn [ok negb room_loop].
  destruct (families (cfs (versions_ d))) as [|f fs] eqn:Ef; [done|].
  destruct (tables_ d !! 0%nat) as [t|] eqn:Et; [|done]. cbn in Ht. injection Ht as Ht.
  cbn [lookup list_lookup ofopt obind]. by rewrite Ht.
Qed.

Lemma sample_writes : writes [47] sample_options no_compaction db [first_batch; second_batch] written_db.
Proof.
  apply (writes_cons _ _ _ true _ _ _ (write first_batch db)).
  - by apply room_ok; vm_compute.
  - split; [by repeat constructor | by vm_compute].
  - apply write_ok. by vm_compute.
  - apply (writes_cons _ _ _ true _ _ _ written_db); [| | |apply writes_nil].
    + by apply room_ok; vm_compute.
    + split; [by repeat constructor | by vm_compute].
    + apply write_ok. by vm_compute.
Qed.
End Sample.
Import Sample.

Lemma Redo_of_writes_witness :
  Redo [47] 1 0 false restarted = Done (kOk, set_tables (tables_ written_db) restarted, 6).
Proof.
  assert (Ew : exists w, db_logger_ written_db = Some w).
  { assert (bool_decide (is_Some (db_logger_ written_db)) = true) as H by (by vm_compute).
    apply bool_decide_eq_true in H as [w H]. by exists w. }
  destruct Ew as [w Ew].
  assert (Hn : wrap 64 (last_sequence_number (versions_ written_db) + 1) = 6) by (by vm_compute). rewrite <- Hn.
  apply (Redo_of_writes [47] sample_options no_compaction db written_db restarted
    [first_batch; second_batch] (mkMem []) w 1 0 sample_writes eq_refl eq_refl Ew eq_refl eq_refl).
  cbn [restarted env_]. unfold log_bytes. rewrite Ew. reflexivity.
Defined.
