(* ===== verification/DBSpec.v ===== *)
(** * DBSpec

    The database against its specification.  A column family is abstractly the
    list of the records ever written to it, a record being a key, a value, a
    version and a flag ([put_]); [db_holds] says that the memory tables and the
    files of every family together hold such lists.  [WriteImpl] prepends the
    updates of a batch ([abstract_write]), whatever room it has to make, and
    [Get] answers by the list alone. *)

From S2P Require Import Prelude Slice Keys Entries IO Files WriteBatch WAL Patch Version VersionSet MemoryTable DBImpl.

(** Of a user key that both have, [ps] has only newer versions. *)
Definition fresher_puts (ps qs : list put_) : Prop :=
  forall p q, p ∈ ps -> q ∈ qs -> p_key p = p_key q -> p_version q <= p_version p.

(** What [Get] shows of the answer of a table. *)
Definition shown (r : error + Tag * option bytes) : error + option bytes :=
  match r with
  | inl e => inl e
  | inr (tag, v) => if flag tag =? flag_code kFlagDeletion then inl kNotFound else inr v
  end.

(** A record that a write makes. *)
Definition written_ok (p : put_) : Prop :=
  put_ok p /\ (p_flag p = flag_code kFlagValue \/ p_flag p = flag_code kFlagDeletion).

Lemma answers_first ps qs uk sq x : answers ps uk sq (inr x) -> fresher_puts ps qs -> answers (ps ++ qs) uk sq (inr x).
Proof.
  destruct x as [tag v]. intros (p & Hp & Hk & Hv & Ht & Hval & Hn) Hf. exists p.
  split_and!; [by apply elem_of_app; left | done..|]. intros q [Hq|Hq]%elem_of_app Hqk Hqs; [by apply Hn|].
  apply (Hf p q Hp Hq). congruence.
Qed.

Lemma answers_rest ps qs uk sq e r : answers ps uk sq (inl e) -> answers qs uk sq r -> answers (ps ++ qs) uk sq r.
Proof.
  intros [_ Hn]. destruct r as [e'|[tag v]]; cbn.
  - intros [-> Hn']. split; [done|]. intros q [Hq|Hq]%elem_of_app Hk; [by apply Hn | by apply Hn'].
  - intros (p & Hp & Hk & Hv & Ht & Hval & Hn'). exists p. split_and!; [by apply elem_of_app; right | done..|].
    intros q [Hq|Hq]%elem_of_app Hqk Hqs; [|by apply Hn']. specialize (Hn q Hq Hqk). lia.
Qed.

Lemma fresher_concat ps pss qs :
  Forall (fresher_puts ps) pss -> fresher_puts ps qs -> fresher_puts ps (concat pss ++ qs).
Proof.
  intros Hs Hq p q Hp [Hin|Hin]%elem_of_app; [|by apply Hq]. apply list_elem_of_In, in_concat in Hin as (l & Hl & Hin).
  rewrite Forall_forall in Hs. apply (Hs l); [by apply list_elem_of_In | done | by apply list_elem_of_In].
Qed.

(** ** One family *)

Section family.
Context {T : Type} `{!MemTable T, !MemTableLaws T}.
Context (ucmp : bytes -> bytes -> Z) `{!ComparatorLaws ucmp, !ComparatorExact ucmp}.

(** The loops over the memory tables, the newest first: both stop at the first
    that has the key. *)
Lemma in_mem_answers tables pss pf key sq :
  Forall2 (mt_holds ucmp) tables pss -> StronglySorted fresher_puts (pss ++ [pf]) -> is_u 56 sq -> zlen key < 2 ^ 32 ->
  exists o : option (Tag * option bytes),
    get_in_mem key sq tables = Done ((fun x => shown (inr x)) <$> o) /\
    find_latest key sq tables = Done ((fun x => Keys.sequence_number (fst x)) <$> o) /\
    match o with
    | Some x => answers (concat pss ++ pf) key sq (inr x)
    | None => answers (concat pss) key sq (inl kNotFound)
    end.
Proof.
  intros Ht. induction Ht as [|t ps tables pss Hps _ IH]; intros Hs Hsq Hk; cbn [get_in_mem find_latest].
  { exists None. split_and!; [done..|]. split; [done|]. by intros q Hq%not_elem_of_nil. }
  cbn [app] in Hs. apply StronglySorted_inv in Hs as [Hs Hfst]. destruct (IH Hs Hsq Hk) as (o & Eo & Eo' & Ho).
  destruct (mt_Get_answers ucmp t ps key sq _ _ Hps Hsq Hk) as (r & -> & Hr). cbn [obind concat]. rewrite <- app_assoc.
  destruct r as [e|[tag v]].
  - exists o. split_and!; [exact Eo | exact Eo'|]. destruct o as [x|]; by eapply answers_rest.
  - exists (Some (tag, v)). split_and!; [done..|].
    apply answers_first; [done|]. apply Forall_app in Hfst as [H1 H2]. apply fresher_concat; [done|]. by apply Forall_inv in H2.
Qed.

Lemma get_in_mem_answers tables pss pf key sq :
  Forall2 (mt_holds ucmp) tables pss -> StronglySorted fresher_puts (pss ++ [pf]) -> is_u 56 sq -> zlen key < 2 ^ 32 ->
  exists o, get_in_mem key sq tables = Done o /\
    match o with
    | Some s => exists r, s = shown r /\ answers (concat pss ++ pf) key sq r
    | None => answers (concat pss) key sq (inl kNotFound)
    end.
Proof.
  intros Ht Hs Hsq Hk. destruct (in_mem_answers tables pss pf key sq Ht Hs Hsq Hk) as (o & E & _ & Ho). eexists. split; [exact E|].
  destruct o as [x|]; cbn; [by exists (inr x) | done].
Qed.

(** The files of a version hold the records [pf]. *)
Record files_hold (cache_get : Z -> bytes -> error + Tag * bytes) (contents : Z -> list kv) (v : Version) (pf : list put_) :
    Prop := {
  fh_levels : length v = kMaxLevel;
  fh_ok : Forall (file_ok ucmp cache_get contents) (concat v);
  fh_order : StronglySorted (fresher ucmp contents) (lookup_order v);
  fh_all : forall p, put_ok p -> (p ∈ pf <-> exists f, f ∈ concat v /\ entry_of p ∈ contents (number f));
}.

Lemma files_answer cache_get contents v pf key sq :
  files_hold cache_get contents v pf -> Forall written_ok pf -> is_u 56 sq -> zlen key < 2 ^ 32 ->
  exists r, answers pf key sq r /\
    match Version.Get (InternalCompare ucmp) cache_get v key sq with
    | inl rs => r = inl rs
    | inr (tag, _) => exists value, r = inr (tag, value)
    end /\
    match Version.Get (InternalCompare ucmp) cache_get v key sq with
    | inl rs => inl rs
    | inr (tag, value) => if flag tag =? flag_code kFlagDeletion then inl kNotFound else inr (Some value)
    end = shown r.
Proof.
  intros [Hlen Hok Hord Hall] Hw Hsq Hk. rewrite Forall_forall in Hw.
  pose proof (Get_visible ucmp cache_get contents v key sq Hlen Hok Hord Hsq) as Hv.
  destruct (Version.Get _ _ _ _ _) as [rs|[tag value]]; cbn [newest_visible] in Hv.
  - destruct Hv as [-> Hn]. exists (inl kNotFound). split; [|done]. split; [done|]. intros q Hq Hqk.
    destruct (Hw q Hq) as [Hqok _]. apply Hall in Hq as (f & Hf & Hin); [|done].
    apply (Hn f (p_key q) (p_version q) (entry_of q) Hf Hin); [|rewrite Hqk; by apply cmp_refl].
    exists (p_flag q), (p_value q). split; [done | apply Hqok].
  - destruct Hv as ((f & u & Hf & Htag & Hin & Hu) & Hle & Hn). apply cmp_exact in Hu. subst u.
    set (p := mkPut key value (Keys.sequence_number tag) (flag tag)).
    assert (Hp : put_ok p) by (split; [by destruct tag | done]).
    assert (Hpin : p ∈ pf) by (apply Hall; [done|]; by exists f).
    destruct (Hw p Hpin) as [_ Hfl]. cbn in Hfl.
    exists (inr (tag, if flag tag =? flag_code kFlagValue then Some value else None)). split.
    + exists p. split_and!; [done | done | done | by destruct tag | done |].
      intros q Hq Hqk Hqs. destruct (Hw q Hq) as [Hqok _]. apply Hall in Hq as (g & Hg & Hing); [|done].
      apply (Hn g (p_key q) (p_version q) (entry_of q) Hg Hing); [|rewrite Hqk; by apply cmp_refl | done].
      exists (p_flag q), (p_value q). split; [done | apply Hqok].
    + split; [by eexists|]. cbn [shown]. destruct Hfl as [-> | ->]; done.
Qed.

(** A family holds the records [ps], none newer than [last]: those of its
    mutable table, of an immutable one, if any, and of its files, each newer
    than the next. *)
Definition family_holds (cache_get : Z -> bytes -> error + Tag * bytes) (contents : Z -> list kv) (last : Z)
    (v : Version) (t : Tables T) (ps : list put_) : Prop :=
  exists pm pis pf,
    mt_holds ucmp (mutable_ t) pm /\ Forall2 (mt_holds ucmp) (map fst (immutable_pipeline_ t)) pis /\
    (length pis <= 1)%nat /\ files_hold cache_get contents v pf /\
    ps = (pm ++ concat pis) ++ pf /\ StronglySorted fresher_puts ((pm :: pis) ++ [pf]) /\
    Forall written_ok ps /\ Forall (fun p => p_version p <= last) ps.

Lemma family_older cache_get contents last last' v t ps :
  last <= last' -> family_holds cache_get contents last v t ps -> family_holds cache_get contents last' v t ps.
Proof.
  intros Hl (pm & pis & pf & H1 & H2 & H3 & H4 & H5 & H6 & H7 & H8). exists pm, pis, pf. split_and!; [done..|].
  eapply Forall_impl; [exact H8|]. cbn. lia.
Qed.

(** Putting a record newer than all others. *)
Lemma family_put cache_get contents s v t ps p :
  family_holds cache_get contents (s - 1) v t ps -> written_ok p -> p_version p = s ->
  exists m, mt_Put (p_key p) (p_value p) (p_version p) (p_flag p) (mutable_ t) = Done m /\
    family_holds cache_get contents s v
      (mkTables m (immutable_pipeline_ t) (background_error_ t) (background_progress_ t)) (p :: ps).
Proof.
  intros (pm & pis & pf & Hm & Him & Hone & Hfiles & -> & Hs & Hw & Hlast) Hp Hv.
  assert (Hnew : Forall (fun q => p_version q < p_version p) ((pm ++ concat pis) ++ pf))
    by (eapply Forall_impl; [exact Hlast|]; cbn; lia).
  pose proof Hnew as Hnew'. rewrite !Forall_app in Hnew'. destruct Hnew' as [[Hn1 Hn2] Hn3].
  destruct (mt_Put_holds ucmp (mutable_ t) pm p _ Hm (proj1 Hp)) as (m & -> & Hm').
  { eapply Forall_impl; [exact Hn1|]. cbn. intros q Hq _. lia. }
  exists m. split; [done|]. exists (p :: pm), pis, pf. cbn. split_and!; [done..| | |].
  - cbn [app] in Hs. apply StronglySorted_inv in Hs as [Hs Hf]. constructor; [done|].
    assert (H : Forall (Forall (fun q => p_version q < p_version p)) (pis ++ [pf])).
    { apply Forall_app. split; [|by repeat constructor]. by apply Forall_concat. }
    rewrite Forall_forall in *. intros l Hl a q [->|Ha]%elem_of_cons Hq Hk; [|by apply (Hf l Hl)].
    specialize (H l Hl). rewrite Forall_forall in H. specialize (H q Hq). lia.
  - constructor; [done | exact Hw].
  - constructor; [lia|]. eapply Forall_impl; [exact Hlast|]. cbn. lia.
Qed.

(** The mutable table becomes an immutable one. *)
Lemma family_roll cache_get contents last v t ps n e b :
  family_holds cache_get contents last v t ps -> immutable_pipeline_ t = [] ->
  family_holds cache_get contents last v (mkTables (mt_New ucmp) (q_Add (mutable_ t, n) (immutable_pipeline_ t)) e b) ps.
Proof.
  intros (pm & pis & pf & Hm & Him & Hone & Hfiles & -> & Hs & Hw & Hlast) Hq. rewrite Hq in *. cbn in Him.
  apply Forall2_nil_inv_l in Him as ->. exists [], [pm], pf.
  cbn [mutable_ immutable_pipeline_ q_Add app map fst concat length] in *. rewrite !app_nil_r in *.
  split_and!; [apply mt_New_holds | by repeat constructor | done | done | done | | done..].
  constructor; [done|]. repeat (apply Forall_cons_2 || apply Forall_nil_2); by intros p q Hp%not_elem_of_nil.
Qed.
End family.

(** ** The database *)

Section database.
Context {E F T : Type} `{!WritableFile F, !EnvOps E F, !MemTable T, !MemTableLaws T}.
Context (cache_get : nat -> Z -> bytes -> error + Tag * bytes) (contents : nat -> Z -> list kv).

#[local] Abbreviation DB := (DBImpl E F T).

(** The records of every family. *)
Definition history : Type := nat -> list put_.

Definition tables_hold (s : ColumnFamilySet) (tables : gmap nat (Tables T)) (last : Z) (H : history) : Prop :=
  forall i f t, families s !! i = Some f -> tables !! i = Some t ->
    ComparatorLaws (comparator_Compare (cf_options f)) /\ ComparatorExact (comparator_Compare (cf_options f)) /\
    family_holds (comparator_Compare (cf_options f)) (cache_get i) (contents i) last (current f) t (H i).

Definition db_holds (db : DB) (H : history) : Prop :=
  tables_hold (cfs (versions_ db)) (tables_ db) (last_sequence_number (versions_ db)) H.

Lemma db_Get_answers (db : DB) H snapshot i f t key :
  db_holds db H -> families (cfs (versions_ db)) !! i = Some f -> tables_ db !! i = Some t -> dropped f = false ->
  let sq := default (last_sequence_number (versions_ db)) snapshot in
  is_u 56 sq -> zlen key < 2 ^ 32 ->
  exists r, db_Get cache_get snapshot (Some (mkCFHandle true i)) key db = Done (shown r) /\ answers (H i) key sq r.
Proof.
  intros Hdb Hf Ht Hd sq Hsq Hk. destruct (Hdb i f t Hf Ht) as (Hl & He & pm & pis & pf & Hm & Him & _ & Hfiles & -> & Hs & Hw & _).
  unfold db_Get, PrepareForGet. cbn [h_mine h_impl negb]. rewrite Hf. cbn [ofopt obind]. rewrite Hd, Ht. cbn [ofopt obind].
  cbn [in_mem gc_last_sequence_number gc_cfd gc_current]. fold sq. unfold q_PeekAll. cbn [app].
  destruct (get_in_mem_answers (comparator_Compare (cf_options f)) (mutable_ t :: map fst (immutable_pipeline_ t))
    (pm :: pis) pf key sq ltac:(by constructor) Hs Hsq Hk) as (o & -> & Ho). cbn [obind]. cbn [concat] in Ho.
  destruct o as [s|].
  - destruct Ho as (r & -> & Hr). by exists r.
  - rewrite Hf. cbn [ofopt obind]. apply Forall_app in Hw as [_ Hw].
    destruct (files_answer _ _ _ _ _ key sq Hfiles Hw Hsq Hk) as (r & Hr & _ & E').
    exists r. split; [by rewrite <- E'|]. by eapply answers_rest.
Qed.

(** [GetLatestSequenceForKey] gives the version of the newest record. *)
Lemma GetLatestSequence_answers (db : DB) H i f t key :
  db_holds db H -> families (cfs (versions_ db)) !! i = Some f -> tables_ db !! i = Some t ->
  is_u 56 (last_sequence_number (versions_ db)) -> zlen key < 2 ^ 32 ->
  exists rs seq, GetLatestSequenceForKey cache_get i false key db = Done (rs, seq) /\
    ((rs = kOk /\ (exists p, p ∈ H i /\ p_key p = key /\ p_version p = seq) /\ forall q, q ∈ H i -> p_key q = key -> p_version q <= seq) \/
     (rs = kNotFound /\ forall q, q ∈ H i -> p_key q <> key)).
Proof.
  intros Hdb Hf Ht Hsq Hk. destruct (Hdb i f t Hf Ht) as (Hl & He & pm & pis & pf & Hm & Him & _ & Hfiles & -> & Hs & Hw & Hlast).
  set (last := last_sequence_number (versions_ db)) in *. rewrite Forall_forall in Hlast.
  assert (Hans : forall r, answers ((pm ++ concat pis) ++ pf) key last r ->
    match r with
    | inr (tag, _) => (exists p, p ∈ (pm ++ concat pis) ++ pf /\ p_key p = key /\ p_version p = Keys.sequence_number tag) /\
        forall q, q ∈ (pm ++ concat pis) ++ pf -> p_key q = key -> p_version q <= Keys.sequence_number tag
    | inl e => e = kNotFound /\ forall q, q ∈ (pm ++ concat pis) ++ pf -> p_key q <> key
    end).
  { intros [e|[tag v]].
    - intros [-> Hn]. split; [done|]. intros q Hq Hqk. specialize (Hn q Hq Hqk). specialize (Hlast q Hq). lia.
    - intros (p & Hp & Hpk & _ & -> & _ & Hn). cbn. split; [by exists p|]. intros q Hq Hqk. apply Hn; auto. }
  unfold GetLatestSequenceForKey. fold last. rewrite Hf, Ht. cbn [ofopt obind].
  destruct (in_mem_answers (comparator_Compare (cf_options f)) (mutable_ t :: map fst (immutable_pipeline_ t)) (pm :: pis) pf key last
    ltac:(by constructor) Hs Hsq Hk) as (o & _ & -> & Ho). cbn [obind concat] in *. destruct o as [[tag v]|]; cbn [fmap option_fmap option_map fst].
  - eexists _, _. split; [reflexivity|]. left. split; [done|]. exact (Hans (inr (tag, v)) Ho).
  - assert (Hw' : Forall written_ok pf) by (by apply Forall_app in Hw as [_ Hw]).
    destruct (files_answer _ _ _ _ _ key last Hfiles Hw' Hsq Hk) as (r & Hr & Er & _).
    pose proof (Hans r ltac:(by eapply answers_rest)) as Hr'.
    destruct (Version.Get _ _ _ _ _) as [rs|[tag value]].
    + subst r. destruct Hr' as [-> Hn]. eexists _, _. split; [reflexivity|]. by right.
    + destruct Er as [v ->]. eexists _, _. split; [reflexivity|]. left. by split.
Qed.

(** C17: While the families hold the records [H], [Get] on a family that is open
    and not dropped answers, at a snapshot or at the last version, by the
    newest record of the key that is not newer: its value, or "not found" when
    that record is a deletion or there is none.  ([db_holds] has no more than one
    immutable table for a family; of two, [Get] would ask the older one first,
    [DBOpen.older_immutable_first].) *)
Theorem Get_answers (db : DB) H snapshot i f t key :
  db_holds db H -> families (cfs (versions_ db)) !! i = Some f -> tables_ db !! i = Some t -> dropped f = false ->
  let sq := default (last_sequence_number (versions_ db)) snapshot in
  is_u 56 sq -> zlen key < 2 ^ 32 ->
  exists r, db_Get cache_get snapshot (Some (mkCFHandle true i)) key db = Done (shown r) /\ answers (H i) key sq r.
Proof. apply db_Get_answers. Qed.

(** *** Updates *)

(** The record an update makes under version [sn]. *)
Definition op_put (sn : Z) (o : op) : put_ :=
  match o with
  | OpPut _ key value => mkPut key value sn (flag_code kFlagValue)
  | OpDelete _ key => mkPut key [] sn (flag_code kFlagDeletion)
  end.

Definition family_of (s : ColumnFamilySet) (o : op) : option nat :=
  if op_cfid o =? 0 then default_cfd_ s else GetColumnFamily (op_cfid o) s.

(** The update is for a family that is there, with a key of less than 4 GiB. *)
Definition op_known (s : ColumnFamilySet) (o : op) : Prop :=
  exists i f, family_of s o = Some i /\ families s !! i = Some f /\ zlen (p_key (op_put 0 o)) < 2 ^ 32.

Definition prepend (i : nat) (p : put_) (H : history) : history := fun j => if decide (j = i) then p :: H j else H j.

Fixpoint abstract_write (s : ColumnFamilySet) (os : list op) (sn : Z) (H : history) : history :=
  match os with
  | [] => H
  | o :: os =>
    abstract_write s os (sn + 1) (match family_of s o with Some i => prepend i (op_put sn o) H | None => H end)
  end.

Lemma handle_op_unfold s o st :
  handle_op s o st = handle s (op_cfid o) (p_key (op_put 0 o)) (p_value (op_put 0 o)) (p_flag (op_put 0 o)) st.
Proof. by destruct o. Qed.

Lemma op_put_written sn o s : is_u 56 sn -> op_known s o -> written_ok (op_put sn o) /\ p_version (op_put sn o) = sn.
Proof.
  intros Hsn (i & f & _ & _ & Hk). split; [|by destruct o]. destruct o; (split; [split; [split; [done|]|]|]); cbn in *;
    (done || (by unfold is_u; cbn; lia) || by auto).
Qed.

Lemma tables_hold_older s tables last last' H : last <= last' -> tables_hold s tables last H -> tables_hold s tables last' H.
Proof.
  intros Hl Ht i f t Hf Hti. destruct (Ht i f t Hf Hti) as (H1 & H2 & H3). split_and!; [done..|]. by eapply family_older.
Qed.

Lemma handle_op_holds s o (h : WritingHandler) tables H :
  let sn := wh_last_sequence_number_ h + sequence_number_count_ h in
  tables_hold s tables (sn - 1) H -> op_known s o -> filter_ h = false ->
  0 <= wh_last_sequence_number_ h -> 0 <= sequence_number_count_ h -> sn < 2 ^ 56 ->
  exists h' tables', handle_op s o (h, tables) = Done (h', tables') /\ filter_ h' = false /\
    wh_last_sequence_number_ h' = wh_last_sequence_number_ h /\
    sequence_number_count_ h' = sequence_number_count_ h + 1 /\
    tables_hold s tables' sn (match family_of s o with Some i => prepend i (op_put sn o) H | None => H end) /\
    (forall i, (fun t => background_error_ t) <$> tables' !! i = (fun t => background_error_ t) <$> tables !! i).
Proof.
  intros sn Ht Hko Hf Hl0 Hc0 Hsn. assert (His : is_u 56 sn) by (unfold is_u; lia).
  destruct (op_put_written sn o s His Hko) as [Hw Hv]. destruct Hko as (i & f & Hi & Hfi & _).
  assert (Hfields : p_key (op_put 0 o) = p_key (op_put sn o) /\ p_value (op_put 0 o) = p_value (op_put sn o) /\
    p_flag (op_put 0 o) = p_flag (op_put sn o)) by (by destruct o). destruct Hfields as (Ek & Ev & Ef).
  rewrite handle_op_unfold. unfold handle, EnsureGetTable. fold (family_of s o). rewrite Hi, Ek, Ev, Ef. cbn [ofopt obind].
  rewrite Hfi, Hf. cbn [ofopt obind andb mbind option_bind].
  assert (Hseq : wh_sequence_number h = sn) by (unfold wh_sequence_number; apply wrap_small; unfold is_u; lia).
  rewrite Hseq. assert (Hcount : wrap 64 (sequence_number_count_ h + 1) = sequence_number_count_ h + 1)
    by (apply wrap_small; unfold is_u; lia).
  destruct (tables !! i) as [t|] eqn:Eti; cbn [obind mbind option_bind].
  - destruct (Ht i f t Hfi Eti) as (Hlaws & Hex & Hfam).
    destruct (family_put _ _ _ sn _ t (H i) (op_put sn o) Hfam Hw Hv) as (m & Hm & Hfam'). rewrite Hv in Hm.
    rewrite Hm. cbn [obind]. eexists _, _. split; [reflexivity|]. cbn. split_and!; [done..| |].
    + intros j g t' Hg Htj. destruct (decide (j = i)) as [->|Hne].
      * rewrite lookup_insert_eq in Htj. injection Htj as <-. rewrite Hfi in Hg. injection Hg as <-.
        unfold prepend. rewrite decide_True by done. by split_and!.
      * rewrite lookup_insert_ne in Htj by done. unfold prepend. rewrite decide_False by done.
        destruct (Ht j g t' Hg Htj) as (H1 & H2 & H3). split_and!; [done..|]. eapply family_older; [|exact H3]. lia.
    + intros j. destruct (decide (j = i)) as [->|Hne]; [|by rewrite lookup_insert_ne].
      rewrite lookup_insert_eq, Eti. done.
  - eexists _, _. split; [reflexivity|]. cbn. split_and!; [done..| |done].
    intros j g t' Hg Htj. destruct (decide (j = i)) as [->|Hne]; [congruence|].
    unfold prepend. rewrite decide_False by done.
    destruct (Ht j g t' Hg Htj) as (H1 & H2 & H3). split_and!; [done..|]. eapply family_older; [|exact H3]. lia.
Qed.

Lemma handle_ops_holds s os (h : WritingHandler) tables H :
  let sn := wh_last_sequence_number_ h + sequence_number_count_ h in
  tables_hold s tables (sn - 1) H -> Forall (op_known s) os -> filter_ h = false ->
  0 <= wh_last_sequence_number_ h -> 0 <= sequence_number_count_ h -> sn + zlen os <= 2 ^ 56 ->
  exists h' tables', handle_ops s os (h, tables) = Done (h', tables') /\
    sequence_number_count_ h' = sequence_number_count_ h + zlen os /\
    tables_hold s tables' (sn - 1 + zlen os) (abstract_write s os sn H) /\
    (forall i, (fun t => background_error_ t) <$> tables' !! i = (fun t => background_error_ t) <$> tables !! i).
Proof.
  intros sn. unfold sn. clear sn. revert h tables H. induction os as [|o os IH]; intros h tables H Ht Hk Hf Hl0 Hc0 Hsn.
  { exists h, tables. rewrite zlen_nil, !Z.add_0_r. by split_and!. }
  apply Forall_cons in Hk as [Hko Hk]. rewrite zlen_cons in *. pose proof (zlen_nonneg os).
  destruct (handle_op_holds s o h tables H Ht Hko Hf Hl0 Hc0 ltac:(lia)) as (h1 & t1 & E1 & Hf1 & Hl1 & Hc1 & Ht1 & Hb1).
  cbn [handle_ops abstract_write]. rewrite E1. cbn [obind].
  destruct (IH h1 t1 (match family_of s o with Some i => prepend i (op_put (wh_last_sequence_number_ h + sequence_number_count_ h) o) H | None => H end))
    as (h2 & t2 & E2 & Hc2 & Ht2 & Hb2); [|done|done|lia|lia|lia|].
  { rewrite Hl1, Hc1. eapply tables_hold_older; [|exact Ht1]. lia. }
  exists h2, t2. split; [exact E2|]. split; [lia|]. rewrite Hl1, Hc1 in Ht2. split.
  - eapply tables_hold_older with (last := wh_last_sequence_number_ h + (sequence_number_count_ h + 1) - 1 + zlen os); [lia|].
    rewrite Z.add_assoc in Ht2. rewrite Z.add_assoc. exact Ht2.
  - intros i. by rewrite Hb2, Hb1.
Qed.
End database.

(** ** Writes *)

Section writing.
Context {E F T : Type} `{!WritableFile F, !WritableFileLaws F, !ReliableFile F, !EnvOps E F, !EnvReliable E F}.
Context `{!MemTable T, !MemTableLaws T}.
Context (path : bytes) (options : ColumnFamilyOptions) (needs_compaction : Version -> bool).
Context (cache_get : nat -> Z -> bytes -> error + Tag * bytes) (contents : nat -> Z -> list kv).

#[local] Abbreviation DB := (DBImpl E F T).

(** A patch that only sets the number of the log. *)
Lemma LogAndApply_redo n (env : E) (v : VersionSet F) ps :
  manifest v ps ->
  exists v' ps', LogAndApply path options (SetRedoLogNumber n NewVersionPatch) env v = Done (kOk, v', env) /\
    manifest v' ps' /\ cfs v' = cfs v /\ last_sequence_number v' = last_sequence_number v.
Proof.
  intros Hm. unfold LogAndApply.
  set (p := fill_patch v (SetRedoLogNumber n NewVersionPatch)).
  assert (Hadd : add_family options p (cfs v) = (p, cfs v)) by reflexivity.
  rewrite Hadd.
  assert (Hredo : apply_redo_log p (cfs v) = Some (cfs v)) by reflexivity.
  assert (Hdrop : apply_drop p (cfs v) = Some (cfs v)) by reflexivity.
  rewrite Hredo. cbn [ofopt obind]. rewrite Hdrop. cbn [ofopt obind].
  assert (Hfiles : forall s, apply_files p s = Some s) by reflexivity.
  assert (Hv : set_cfs (cfs v) v = v) by (by destruct v). rewrite Hv.
  pose proof Hm as (w & Hw & _). rewrite Hw. cbn [obind]. change (negb (ok kOk)) with false. cbn iota.
  clearbody p.
  destruct (WritePatch_manifest p v ps Hm) as (v1 & -> & Hm1 & l & ->). cbn [obind]. change (negb (ok kOk)) with false. cbn iota.
  rewrite Hfiles. cbn [ofopt obind]. eexists _, _. split; [reflexivity|]. split; [exact Hm1|]. done.
Qed.

(** The database can be written: both logs are open and no background work has
    failed. *)
Record ready (db : DB) : Prop := {
  rd_error : bkg_error_ db = kOk;
  rd_manifest : exists ps, manifest (versions_ db) ps;
  rd_log : exists w, db_logger_ db = Some w /\ lw_block_size w = kDefaultBlockSize /\
    0 <= lw_block_offset w <= kDefaultBlockSize;
  rd_tables : forall i f, families (cfs (versions_ db)) !! i = Some f ->
    exists t, tables_ db !! i = Some t /\ background_error_ t = kOk;
}.

(** What making room keeps. *)
Record room_made (db db' : DB) : Prop := {
  rm_ready : ready db';
  rm_cfs : cfs (versions_ db') = cfs (versions_ db);
  rm_last : last_sequence_number (versions_ db') = last_sequence_number (versions_ db);
  rm_holds : forall H, db_holds cache_get contents db H -> db_holds cache_get contents db' H;
}.

Lemma room_made_refl db : ready db -> room_made db db.
Proof. done. Qed.

Lemma room_made_trans db1 db2 db3 : room_made db1 db2 -> room_made db2 db3 -> room_made db1 db3.
Proof. intros [R1 C1 L1 H1] [R2 C2 L2 H2]. split; [done | congruence | congruence | auto]. Qed.

Lemma RenewLogger_ready (db : DB) :
  ready db -> exists db', RenewLogger path db = (kOk, db') /\ room_made db db' /\ tables_ db' = tables_ db.
Proof.
  intros [He (ps & Hm) (w & Hw & Hb & Ho) Ht]. unfold RenewLogger. rewrite Hw. cbn [mbind option_bind].
  destruct (wf_Flush (fw_file (lw_writer w))) as [rs1 f1]. destruct (Sync f1) as [rs2 f2].
  unfold GenerateFileNumber. cbn [set_log versions_ env_].
  destruct (env_new (F := F) (LogFileName path (next_file_number (versions_ db))) (env_ db)) as (f & e & -> & Hf).
  eexists. split; [reflexivity|]. split; [|done]. split; cbn; [|done..].
  split; cbn; [done | | | done].
  - exists ps. exact Hm.
  - eexists. split; [reflexivity|]. cbn. unfold kDefaultBlockSize. lia.
Qed.

Lemma update_tables_holds (db : DB) i g H :
  (forall f t ps, families (cfs (versions_ db)) !! i = Some f -> tables_ db !! i = Some t ->
    ComparatorLaws (comparator_Compare (cf_options f)) -> ComparatorExact (comparator_Compare (cf_options f)) ->
    family_holds (comparator_Compare (cf_options f)) (cache_get i) (contents i) (last_sequence_number (versions_ db)) (current f) t ps ->
    family_holds (comparator_Compare (cf_options f)) (cache_get i) (contents i) (last_sequence_number (versions_ db)) (current f) (g t) ps) ->
  db_holds cache_get contents db H -> db_holds cache_get contents (update_tables i g db) H.
Proof.
  intros Hg Hdb j f t Hf Ht. cbn in *. destruct (decide (j = i)) as [->|Hne].
  - rewrite lookup_alter_eq in Ht. destruct (tables_ db !! i) as [t0|] eqn:E0; [|done]. injection Ht as <-.
    destruct (Hdb i f t0 Hf E0) as (H1 & H2 & H3). split_and!; [done..|]. by apply Hg.
  - rewrite lookup_alter_ne in Ht by done. by apply Hdb.
Qed.

Lemma update_tables_ready (db : DB) i g :
  (forall t, background_error_ t = kOk -> background_error_ (g t) = kOk) -> ready db -> ready (update_tables i g db).
Proof.
  intros Hg [He Hm Hw Ht]. split; [done..|]. cbn. intros j f Hf. destruct (Ht j f Hf) as (t & Et & Hok).
  destruct (decide (j = i)) as [->|Hne].
  - exists (g t). rewrite lookup_alter_eq, Et. split; [done | by apply Hg].
  - exists t. by rewrite lookup_alter_ne.
Qed.

Lemma MaybeSchedule_ready (db : DB) i f :
  ready db -> families (cfs (versions_ db)) !! i = Some f ->
  exists db', MaybeScheduleCompaction needs_compaction i db = Done db' /\ room_made db db' /\
    (fun t => immutable_pipeline_ t) <$> tables_ db' !! i = (fun t => immutable_pipeline_ t) <$> tables_ db !! i.
Proof.
  intros Hr Hf. unfold MaybeScheduleCompaction. destruct (0 <? bkg_active_ db); [by exists db|].
  destruct (shutting_down_ db); [by exists db|]. rewrite Hf. cbn [ofopt obind].
  destruct (rd_tables _ Hr i f Hf) as (t & Et & _). rewrite Et. cbn [ofopt obind].
  destruct (_ && _); [exists db; by rewrite Et|]. eexists. split; [reflexivity|]. split.
  - split; [| done | done |].
    + apply update_tables_ready; [done|]. destruct Hr. by split.
    + intros H Hdb. by apply (update_tables_holds (add_bkg_active db)).
  - cbn. rewrite lookup_alter_eq, Et. done.
Qed.

(** Making room succeeds and changes nothing of what the families hold. *)
Lemma MakeRoom_ready (db : DB) i :
  ready db -> (i < length (families (cfs (versions_ db))))%nat ->
  exists db', MakeRoomForWrite path options needs_compaction i db = Done (kOk, db') /\ room_made db db'.
Proof.
  intros Hr [f Hf]%lookup_lt_is_Some. unfold MakeRoomForWrite. rewrite (rd_error _ Hr). change (negb (ok kOk)) with false. cbn iota.
  destruct (rd_tables _ Hr i f Hf) as (t & Et & Hok). cbn [room_loop]. rewrite Hf, Et. cbn [ofopt obind]. rewrite Hok.
  change (negb (ok kOk)) with false. cbn iota.
  destruct (mt_roomy (mutable_ t)); [by exists db|]. destruct (q_InProgress (immutable_pipeline_ t)) eqn:Eq; [by exists db|].
  destruct (_ && _); [by exists db|].
  destruct (RenewLogger_ready db Hr) as (db1 & -> & Hrm1 & Etab1). change (negb (ok kOk)) with false. cbn iota.
  destruct (rd_manifest _ (rm_ready _ _ Hrm1)) as (ps & Hman).
  destruct (LogAndApply_redo (log_file_number_ db1) (env_ db1) (versions_ db1) ps Hman) as (v' & ps' & -> & Hman' & Hcfs' & Hlast').
  cbn [obind]. change (negb (ok kOk)) with false. cbn iota.
  set (db2 := set_env (env_ db1) (set_versions v' db1)).
  assert (Hrm2 : room_made db1 db2).
  { destruct (rm_ready _ _ Hrm1) as [H1 H2 H3 H4]. split; [|exact Hcfs' | exact Hlast'|].
    - split; [done | by exists ps' | done |]. cbn. rewrite Hcfs'. exact H4.
    - intros H Hdb j g t' Hg Ht'. cbn in *. rewrite Hcfs' in Hg. rewrite Hlast'. by apply Hdb. }
  assert (Hf2 : families (cfs (versions_ db2)) !! i = Some f) by (cbn; by rewrite Hcfs', (rm_cfs _ _ Hrm1)).
  assert (Et2 : tables_ db2 !! i = Some t) by (cbn; by rewrite Etab1).
  unfold MakeImmutablePipeline. rewrite Hf2, Et2. cbn [ofopt obind].
  set (db3 := update_tables i _ db2).
  assert (Hq : immutable_pipeline_ t = []) by (apply bool_decide_eq_false in Eq; by apply dec_stable in Eq).
  assert (Hrm3 : room_made db2 db3).
  { split; [| done | done |].
    - apply update_tables_ready; [done | by apply (rm_ready _ _ Hrm2)].
    - intros H. apply update_tables_holds. intros f' t' ps0 Hf' Ht' Hl Hx Hfam. rewrite Hf2 in Hf'. rewrite Et2 in Ht'.
      injection Hf' as <-. injection Ht' as <-. by apply family_roll. }
  assert (Hf3 : families (cfs (versions_ db3)) !! i = Some f) by exact Hf2.
  destruct (MaybeSchedule_ready db3 i f (rm_ready _ _ Hrm3) Hf3) as (db4 & -> & Hrm4 & Hpipe). cbn [obind].
  assert (Hf4 : families (cfs (versions_ db4)) !! i = Some f) by (by rewrite (rm_cfs _ _ Hrm4)).
  destruct (rd_tables _ (rm_ready _ _ Hrm4) i f Hf4) as (t4 & Et4 & Hok4). cbn [room_loop].
  rewrite Hf4, Et4. cbn [ofopt obind]. rewrite Hok4. change (negb (ok kOk)) with false. cbn iota.
  assert (Hall : room_made db db4) by (do 3 (eapply room_made_trans; [eassumption|]); exact Hrm4).
  destruct (mt_roomy (mutable_ t4)); [by exists db4|].
  assert (q_InProgress (immutable_pipeline_ t4) = true) as ->; [|by exists db4].
  rewrite Et4 in Hpipe. unfold db3 in Hpipe. cbn in Hpipe. rewrite lookup_alter_eq, Etab1, Et in Hpipe. cbn in Hpipe.
  injection Hpipe as ->. unfold q_InProgress, q_Add. by rewrite Hq.
Qed.

Lemma make_rooms_ready cfds (db : DB) :
  ready db -> Forall (fun i => (i < length (families (cfs (versions_ db))))%nat) cfds ->
  exists db', make_rooms path options needs_compaction cfds db = Done (kOk, db') /\ room_made db db'.
Proof.
  intros Hr Hi. revert db Hr Hi. induction cfds as [|i cfds IH]; intros db Hr Hi; [by exists db|].
  apply Forall_cons in Hi as [Hi His]. destruct (MakeRoom_ready db i Hr Hi) as (db1 & E1 & Hrm). cbn [make_rooms].
  rewrite E1. cbn [obind ok]. destruct (IH db1 (rm_ready _ _ Hrm)) as (db2 & E2 & Hrm2).
  { by rewrite (rm_cfs _ _ Hrm). }
  exists db2. split; [exact E2 | by eapply room_made_trans].
Qed.

(** A write with a callback: room is made, the callback looks at the database
    and, when it agrees, the batch is written. *)
Lemma WriteImpl_prepared sync os callback (db : DB) H :
  let last := last_sequence_number (versions_ db) in
  ready db -> db_holds cache_get contents db H -> batch_ok os -> Forall (op_known (cfs (versions_ db))) os ->
  0 <= last -> last + 1 + zlen os <= 2 ^ 56 ->
  exists db1 db', room_made db db1 /\
    WriteImpl path options needs_compaction sync (batch_of os) callback db =
      (do! rs := match callback with Some prepare => prepare db1 | None => Done kOk end in
       if negb (ok rs) then Done (rs, db1) else Done (kOk, db'))%out /\
    ready db' /\ cfs (versions_ db') = cfs (versions_ db) /\
    last_sequence_number (versions_ db') = last + zlen os /\
    db_holds cache_get contents db' (abstract_write (cfs (versions_ db)) os (last + 1) H).
Proof.
  intros last Hr Hdb Hb Hk Hl0 Hl. pose proof (zlen_nonneg os) as Hlen.
  destruct (make_rooms_ready (seq 0 (length (families (cfs (versions_ db))))) db Hr) as (db1 & E1 & Hrm).
  { apply Forall_forall. intros i Hi. apply elem_of_seq in Hi. lia. }
  pose proof Hrm as [Hr1 Hcfs1 Hlast1 Hh1]. pose proof (Hh1 H Hdb) as Hdb1.
  unfold WriteImpl. fold last. rewrite E1. cbn [obind ok negb].
  assert (Esn : wrap 64 (last + 1) = last + 1) by (apply wrap_small; unfold is_u; lia). rewrite Esn.
  destruct (rd_log _ Hr1) as (w & Hw & Hbs & Hoff). rewrite Hw. cbn [ofopt obind].
  assert (Hsn : is_u 64 (last + 1)) by (unfold is_u; lia).
  assert (Hbs0 : 7 < kDefaultBlockSize <= 65535 + 7) by (unfold kDefaultBlockSize; lia).
  destruct (redo_header os (last + 1) Hb Hsn) as (_ & _ & _ & _ & Hit).
  destruct (Append_frags kDefaultBlockSize ltac:(unfold kDefaultBlockSize; lia) (redo (last + 1) (batch_of os)) w Hbs Hoff)
    as (e & w1 & -> & Hf & Hc & Hs1). cbn [obind ok negb].
  destruct (flush_sync (E := E) sync w1) as (w2 & E2 & Hc2 & Hs2 & Ho2).
  destruct (if sync then lw_Flush w1 else (kOk, w1)) as [rs1 w1']. rewrite E2. cbn [ok negb].
  rewrite Hit. cbn [ofopt obind]. cbn [set_log add_flush_request versions_ tables_].
  set (h0 := ResetLastSequenceNumber (last + 1) (NewWritingHandler 0 false)).
  destruct (handle_ops_holds cache_get contents (cfs (versions_ db1)) os h0 (tables_ db1) H)
    as (h & tables & Eh & Hcount & Ht & Hbe).
  { cbn. replace (last + 1 + 0 - 1) with last by lia. unfold db_holds in Hdb1. by rewrite Hlast1 in Hdb1. }
  { by rewrite Hcfs1. } { done. } { cbn. lia. } { cbn. lia. } { cbn. lia. }
  rewrite Eh. cbn [obind]. eexists db1, _. split; [exact Hrm|]. split; [reflexivity|]. cbn in Hcount.
  assert (Elast : wrap 64 (last_sequence_number (versions_ db1) + sequence_number_count_ h) = last + zlen os).
  { rewrite Hlast1, Hcount. apply wrap_small. unfold is_u. fold last. lia. }
  cbn in Ht. replace (last + 1 + 0 - 1 + zlen os) with (last + zlen os) in Ht by lia.
  replace (last + 1 + 0) with (last + 1) in Ht by lia.
  cbn [set_versions set_tables versions_ AddSequenceNumber set_numbers last_sequence_number cfs].
  split_and!; [| exact Hcfs1 | exact Elast |].
  - split; cbn.
    + exact (rd_error _ Hr1).
    + destruct (rd_manifest _ Hr1) as (ps & wm & Hm). by exists ps, wm.
    + exists w2. rewrite Ho2, Hs2. split_and!; [done | done |..]; by apply (frags_off _ Hbs0 _ _ _ _ _ Hoff Hf).
    + intros i f Hfi. destruct (rd_tables _ Hr1 i f Hfi) as (t & Et & Hok). specialize (Hbe i). rewrite Et in Hbe. cbn in Hbe.
      destruct (tables !! i) as [t'|]; [|done]. injection Hbe as Hbe. exists t'. split; [done | congruence].
  - unfold db_holds. cbn. rewrite Elast. rewrite <- Hcfs1. exact Ht.
Qed.

Lemma WriteImpl_holds sync os (db : DB) H :
  let last := last_sequence_number (versions_ db) in
  ready db -> db_holds cache_get contents db H -> batch_ok os -> Forall (op_known (cfs (versions_ db))) os ->
  0 <= last -> last + 1 + zlen os <= 2 ^ 56 ->
  exists db', WriteImpl path options needs_compaction sync (batch_of os) None db = Done (kOk, db') /\
    ready db' /\ cfs (versions_ db') = cfs (versions_ db) /\
    last_sequence_number (versions_ db') = last + zlen os /\
    db_holds cache_get contents db' (abstract_write (cfs (versions_ db)) os (last + 1) H).
Proof.
  intros last Hr Hdb Hb Hk Hl0 Hl. destruct (WriteImpl_prepared sync os None db H Hr Hdb Hb Hk Hl0 Hl) as (db1 & db' & _ & E1 & Hw).
  by exists db'.
Qed.

(** C5: On a reliable file system a write of a batch to a database that is
    ready, whose families hold the records [H] ([db_holds]: with no more than one
    immutable table each) and are those of the updates, succeeds, whether or not
    it syncs and however much room it has to make; the database is ready again,
    the updates have got the next version numbers in their order, and the
    families hold what they held with the updates of the batch in front. *)
Theorem WriteImpl_refines sync os (db : DB) H :
  let last := last_sequence_number (versions_ db) in
  ready db -> db_holds cache_get contents db H -> batch_ok os -> Forall (op_known (cfs (versions_ db))) os ->
  0 <= last -> last + 1 + zlen os <= 2 ^ 56 ->
  exists db', WriteImpl path options needs_compaction sync (batch_of os) None db = Done (kOk, db') /\
    ready db' /\ cfs (versions_ db') = cfs (versions_ db) /\
    last_sequence_number (versions_ db') = last + zlen os /\
    db_holds cache_get contents db' (abstract_write (cfs (versions_ db)) os (last + 1) H).
Proof. apply WriteImpl_holds. Qed.
End writing.

(** ** A new database *)

Class DirReliable (E : Type) `{DirOps E} : Prop := {
  dir_make name b (env : E) : exists env' : E, MakeDirectory name b env = (kOk, env');
}.

Section new_database.
Context {E F T : Type} `{!WritableFile F, !WritableFileLaws F, !ReliableFile F, !EnvOps E F, !EnvReliable E F}.
Context `{!DirOps E, !DirReliable E, !MemTable T, !MemTableLaws T}.
Context (path : bytes) (options : ColumnFamilyOptions).
Context (cache_get : nat -> Z -> bytes -> error + Tag * bytes) (contents : nat -> Z -> list kv).

#[local] Abbreviation DB := (DBImpl E F T).

Definition options_ok (o : ColumnFamilyOptions) : Prop :=
  ComparatorLaws (comparator_Compare o) /\ ComparatorExact (comparator_Compare o).

(** A family without files whose options are in order. *)
Definition new_family (f : ColumnFamilyImpl) : Prop := options_ok (cf_options f) /\ current f = NewVersion.

(** The tables of the families are new. *)
Definition new_tables (db : DB) : Prop :=
  forall i t, tables_ db !! i = Some t ->
    exists f, families (cfs (versions_ db)) !! i = Some f /\
      t = mkTables (mt_New (comparator_Compare (cf_options f))) [] kOk false.

(** What installing families keeps. *)
Record installed (db db' : DB) : Prop := {
  in_cfs : exists s, versions_ db' = set_cfs s (versions_ db) /\ length (families s) = length (families (cfs (versions_ db)));
  in_new : Forall new_family (families (cfs (versions_ db')));
  in_tables : new_tables db';
  in_log : db_logger_ db' = db_logger_ db /\ log_file_number_ db' = log_file_number_ db /\ bkg_error_ db' = bkg_error_ db;
  in_grows : forall i, is_Some (tables_ db !! i) -> is_Some (tables_ db' !! i);
}.

Lemma installed_trans db1 db2 db3 : installed db1 db2 -> installed db2 db3 -> installed db1 db3.
Proof.
  intros [(s & E1 & L1) _ _ (A1 & A2 & A3) G1] [(s' & E2 & L2) N2 T2 (B1 & B2 & B3) G2].
  split; [|done|done|by rewrite B1, B2, B3|auto]. exists s'. rewrite E2, E1 in *. split; [done|]. cbn in *. by rewrite L2.
Qed.

Lemma families_update i n s (f : ColumnFamilyImpl) :
  families s !! i = Some f -> families (update_family i (set_redo_log_number n) s) !! i = Some (set_redo_log_number n f).
Proof. intros Hf. cbn. by rewrite list_lookup_alter_eq, Hf. Qed.

Lemma Forall_alter {A} (P : A -> Prop) g i (l : list A) : (forall x, P x -> P (g x)) -> Forall P l -> Forall P (alter g i l).
Proof.
  intros Hg Hl. apply Forall_lookup. intros j x Hx. rewrite Forall_lookup in Hl. destruct (decide (j = i)) as [->|Hne].
  - rewrite list_lookup_alter_eq in Hx. destruct (l !! i) as [y|] eqn:Ey; [|done]. injection Hx as <-. eauto.
  - rewrite list_lookup_alter_ne in Hx by done. eauto.
Qed.

(** One turn of the loop. *)
Lemma Install_turn i (db : DB) :
  (i < length (families (cfs (versions_ db))))%nat -> Forall new_family (families (cfs (versions_ db))) -> new_tables db ->
  exists db1, Install path i db = Done (kOk, db1) /\
    let db2 := set_families_of (update_family i (set_redo_log_number (log_file_number_ db1)) (cfs (versions_ db1))) db1 in
    installed db db2 /\ is_Some (tables_ db2 !! i).
Proof.
  intros [f Hf]%lookup_lt_is_Some Hn Ht. unfold Install. rewrite Hf. cbn [ofopt obind].
  set (t := match tables_ db !! i with Some t => _ | None => _ end).
  assert (Et : t = mkTables (mt_New (comparator_Compare (cf_options f))) [] kOk false).
  { unfold t. destruct (tables_ db !! i) as [t0|] eqn:E0; [|done]. destruct (Ht i t0 E0) as (f' & Hf' & ->).
    rewrite Hf in Hf'. by injection Hf' as <-. }
  destruct (dir_make (GetDir path f (env_ db)) false (env_ db)) as (e & ->).
  eexists. split; [reflexivity|]. cbn zeta. split; [split|].
  - eexists. split; [reflexivity|]. cbn. by rewrite length_alter.
  - cbn. by apply Forall_alter.
  - intros j t' Hj. cbn in Hj. destruct (decide (j = i)) as [->|Hne].
    + rewrite lookup_insert_eq in Hj. injection Hj as <-. exists (set_redo_log_number (log_file_number_ db) f).
      split; [by apply families_update | exact Et].
    + rewrite lookup_insert_ne in Hj by done. destruct (Ht j t' Hj) as (g & Hg & ->). exists g.
      split; [|done]. cbn. by rewrite list_lookup_alter_ne.
  - done.
  - intros j Hj. cbn. destruct (decide (j = i)) as [->|Hne]; [by rewrite lookup_insert_eq; eexists | by rewrite lookup_insert_ne].
  - cbn. rewrite lookup_insert_eq. by eexists.
Qed.

Lemma install_all_ok cfds (db : DB) :
  Forall (fun i => (i < length (families (cfs (versions_ db))))%nat) cfds ->
  Forall new_family (families (cfs (versions_ db))) -> new_tables db ->
  exists db', install_all path cfds db = Done (kOk, db') /\ installed db db' /\
    forall i, i ∈ cfds -> is_Some (tables_ db' !! i).
Proof.
  revert db. induction cfds as [|i cfds IH]; intros db Hi Hn Ht.
  { exists db. split; [done|]. split; [|by intros i Hi'%not_elem_of_nil]. split; [|done|done|done|done].
    exists (cfs (versions_ db)). by destruct (versions_ db). }
  apply Forall_cons in Hi as [Hi His]. destruct (Install_turn i db Hi Hn Ht) as (db1 & E1 & H1 & Hi1).
  cbn [install_all]. rewrite E1. cbn [obind]. change (negb (ok kOk)) with false. cbn iota.
  set (db2 := set_families_of _ db1) in *. destruct (in_cfs _ _ H1) as (s & Es & Els).
  destruct (IH db2) as (db3 & E3 & H3 & Hi3); [|by apply (in_new _ _ H1)|by apply (in_tables _ _ H1)|].
  { rewrite Es. cbn. by rewrite Els. }
  exists db3. split; [exact E3|]. split; [by eapply installed_trans|].
  intros j [->|Hj]%elem_of_cons; [|by apply Hi3]. by apply (in_grows _ _ H3).
Qed.

(** The families of a new database are new. *)
Lemma new_families_new opts s :
  options_ok options -> map_Forall (fun _ => options_ok) opts -> Forall new_family (families s) ->
  Forall new_family (families (new_families options opts s)) /\ (0 < length (families (new_families options opts s)))%nat.
Proof.
  intros Ho Hopts Hs. unfold new_families.
  assert (Hsnoc : forall o name id s, options_ok o -> Forall new_family (families s) ->
    Forall new_family (families (NewColumnFamily o name id s)) /\ (0 < length (families (NewColumnFamily o name id s)))%nat).
  { intros o name id s0 Hoo H0. cbn. rewrite length_app. split; [|cbn; lia]. apply Forall_app. split; [done|].
    apply Forall_cons_2; [by split | apply Forall_nil_2]. }
  assert (Hin : Forall (fun opt => options_ok (snd opt)) (in_order opts)).
  { apply Forall_forall. intros [k o] Hk. unfold in_order in Hk. rewrite (merge_sort_Permutation name_le) in Hk.
    apply elem_of_map_to_list in Hk. exact (Hopts k o Hk). }
  set (s0 := NewColumnFamily _ _ 0 s).
  assert (Hs0 : Forall new_family (families s0) /\ (0 < length (families s0))%nat).
  { apply Hsnoc; [|done]. destruct (opts !! kDefaultColumnFamilyName) as [o|] eqn:Eo; cbn; [exact (Hopts _ o Eo) | done]. }
  clearbody s0. revert s0 Hs0. induction Hin as [|opt l Hopt _ IH]; intros s0 Hs0; [done|]. cbn [foldl]. apply IH.
  destruct (bool_decide _); [done|]. by apply Hsnoc; [|apply Hs0].
Qed.

(** The first patch of a set creates the manifest. *)
Lemma LogAndApply_first n (env : E) (v : VersionSet F) :
  logger_ v = None -> block_size_ok (vs_block_size v) ->
  exists v' env' ps, LogAndApply path options (SetRedoLogNumber n (SetPrevLogNumber 0 NewVersionPatch)) env v = Done (kOk, v', env') /\
    manifest v' ps /\ cfs v' = cfs v /\ last_sequence_number v' = last_sequence_number v.
Proof.
  intros Hl Hb. unfold LogAndApply. set (p := fill_patch v (SetRedoLogNumber n (SetPrevLogNumber 0 NewVersionPatch))).
  assert (Hadd : add_family options p (cfs v) = (p, cfs v)) by reflexivity. rewrite Hadd.
  assert (Hredo : apply_redo_log p (cfs v) = Some (cfs v)) by reflexivity.
  assert (Hdrop : apply_drop p (cfs v) = Some (cfs v)) by reflexivity.
  rewrite Hredo. cbn [ofopt obind]. rewrite Hdrop. cbn [ofopt obind].
  assert (Hfiles : forall m s, apply_files (SetNextFileNumber m p) s = Some s) by reflexivity.
  assert (Hv : set_cfs (cfs v) v = v) by (by destruct v). rewrite Hv, Hl. clearbody p.
  destruct (CreateManifestFile_manifest path env v Hb) as (v1 & env1 & -> & Hm1 & l & ->). cbn [obind].
  change (ok kOk) with true. cbn [obind negb]. change (negb (ok kOk)) with false. cbn iota.
  match goal with |- context [WritePatch ?p ?w] => destruct (WritePatch_manifest p w _ Hm1) as (v2 & -> & Hm2 & l2 & ->) end.
  cbn [obind]. change (negb (ok kOk)) with false. cbn iota. rewrite Hfiles. cbn [ofopt obind].
  eexists _, _, _. split; [reflexivity|]. split; [exact Hm2|]. done.
Qed.

Lemma RenewLogger_new (db : DB) :
  db_logger_ db = None ->
  exists f e v, RenewLogger path db = (kOk, set_env e (set_versions v (set_log (Some (NewLogWriter f kDefaultBlockSize))
      (next_file_number (versions_ db)) db))) /\ cfs v = cfs (versions_ db) /\ logger_ v = logger_ (versions_ db) /\
    vs_block_size v = vs_block_size (versions_ db) /\ last_sequence_number v = last_sequence_number (versions_ db).
Proof.
  intros Hl. unfold RenewLogger. rewrite Hl. cbn [mbind option_bind]. unfold GenerateFileNumber. cbn [set_log versions_ env_].
  destruct (env_new (F := F) (LogFileName path (next_file_number (versions_ db))) (env_ db)) as (f & e & -> & Hf).
  eexists _, _, _. split; [reflexivity|]. done.
Qed.

Lemma NewDB_holds bs desc (env : E) :
  block_size_ok bs -> options_ok options -> Forall (fun d => options_ok (cfd_options d)) desc ->
  exists db : DB, NewDB path options desc (NewDBImpl bs env) = Done (kOk, db) /\
    ready db /\ last_sequence_number (versions_ db) = 1 /\
    (0 < length (families (cfs (versions_ db))))%nat /\ db_holds cache_get contents db (fun _ => []).
Proof.
  intros Hbs Ho Hdesc. unfold NewDB. set (db0 := NewDBImpl _ env).
  assert (exists e, (if ok (FileExists path (env_ db0)) then (FileExists path (env_ db0), db0)
      else let '(rs, e) := MakeDirectory path true (env_ db0) in (rs, set_env e db0)) = (kOk, set_env e db0)) as (e & ->).
  { destruct (ok_spec (FileExists path (env_ db0))) as [->|Hne].
    - exists (env_ db0). by destruct db0.
    - destruct (dir_make path true (env_ db0)) as (e & ->). by exists e. }
  change (negb (ok kOk)) with false. cbn iota.
  destruct (RenewLogger_new (set_env e db0) eq_refl) as (f & e1 & v1 & -> & Hv1 & Hl1 & Hb1 & Hs1).
  change (negb (ok kOk)) with false. cbn iota. cbn in Hv1, Hl1, Hb1, Hs1.
  set (db1 := set_families_of _ _).
  assert (Hopts : map_Forall (fun _ => options_ok) (cf_opts desc)).
  { unfold cf_opts. assert (H : map_Forall (fun _ => options_ok) (∅ : gmap bytes ColumnFamilyOptions)) by apply map_Forall_empty.
    revert H. generalize (∅ : gmap bytes ColumnFamilyOptions). clear -Hdesc.
    induction Hdesc as [|d desc Hd _ IH]; intros m Hm; [done|]. cbn. apply IH. by apply map_Forall_insert_2. }
  destruct (new_families_new (cf_opts desc) (cfs v1) Ho Hopts ltac:(rewrite Hv1; constructor)) as [Hnew Hpos].
  destruct (install_all_ok (seq 0 (length (families (cfs (versions_ db1))))) db1) as (db2 & E2 & Hin & Hall).
  { apply Forall_forall. intros i Hi. apply elem_of_seq in Hi. lia. }
  { exact Hnew. }
  { intros i t Hi. cbn in Hi. by rewrite lookup_empty in Hi. }
  rewrite E2. cbn [obind]. change (negb (ok kOk)) with false. cbn iota.
  destruct Hin as [(s & Es & Els) Hnew2 Htab2 (L1 & L2 & L3) _].
  destruct (LogAndApply_first (log_file_number_ db2) (env_ (set_versions (AddSequenceNumber 1 (versions_ db2)) db2))
    (versions_ (set_versions (AddSequenceNumber 1 (versions_ db2)) db2))) as (v3 & e3 & ps & E3 & Hm3 & Hc3 & Hs3).
  { cbn. rewrite Es. cbn. exact Hl1. } { cbn. rewrite Es. cbn. rewrite Hb1. exact Hbs. }
  rewrite E3. cbn [obind]. eexists. split; [reflexivity|]. cbn in Hc3, Hs3. rewrite Es in Hs3. cbn in Hs3. rewrite Hs1 in Hs3.
  assert (Hlen : length (families (cfs (versions_ db2))) = length (families (cfs (versions_ db1)))) by (rewrite Es; cbn; exact Els).
  split_and!.
  - split; cbn.
    + by rewrite L3.
    + by exists ps.
    + rewrite L1. cbn. eexists. split; [reflexivity|]. cbn. unfold kDefaultBlockSize. lia.
    + intros i g Hg. rewrite Hc3 in Hg. pose proof (lookup_lt_Some _ _ _ Hg) as Hi. rewrite Hlen in Hi.
      destruct (Hall i) as [t Ht]; [apply elem_of_seq; lia|]. exists t. split; [done|].
      destruct (Htab2 i t Ht) as (g' & _ & ->). done.
  - cbn. rewrite Hs3. done.
  - cbn. rewrite Hc3, Hlen. exact Hpos.
  - intros i g t Hg Ht. cbn in Hg, Ht. rewrite Hc3 in Hg. cbn. rewrite Hs3.
    rewrite Forall_lookup in Hnew2. destruct (Hnew2 i g Hg) as [[Hlaw Hex] Hcur]. split_and!; [done..|].
    destruct (Htab2 i t Ht) as (g' & Hg' & ->). rewrite Hg in Hg'. injection Hg' as <-. rewrite Hcur.
    exists [], [], []. cbn. split_and!; [apply mt_New_holds | constructor | lia | | done | | constructor | constructor].
    + split; [done | constructor | constructor |]. intros p Hp. split; [by intros H%not_elem_of_nil|].
      intros (g' & H & _). cbn in H. by apply not_elem_of_nil in H.
    + repeat constructor; by intros p q Hp%not_elem_of_nil.
Qed.

(** C26: on a reliable file system, with options in range and blocks of the
    manifest of 8 to 65542 bytes, creating a database succeeds: it is then ready for writes, its last
    version is 1, and every family holds nothing. *)
Theorem NewDB_ready bs desc (env : E) :
  block_size_ok bs -> options_ok options -> Forall (fun d => options_ok (cfd_options d)) desc ->
  exists db : DB, NewDB path options desc (NewDBImpl bs env) = Done (kOk, db) /\
    ready db /\ last_sequence_number (versions_ db) = 1 /\
    (0 < length (families (cfs (versions_ db))))%nat /\ db_holds cache_get contents db (fun _ => []).
Proof. apply NewDB_holds. Qed.
End new_database.

(** ** A database of one family *)

Import DBImpl.Sample.

#[export] Instance MemDirs : DirOps bytes := {
  FileExists _ _ := kIOError;
  MakeDirectory _ _ disk := (kOk, disk);
  GetAbsolutePath name _ := name;
  GetChildren _ _ := inr [];
  GetFileSize _ _ := inl kIOError;
  DeleteFile _ _ disk := (kOk, disk);
}.

#[export] Instance MemDirs_reliable : DirReliable bytes.
Proof. split. intros. by eexists. Qed.

Definition no_files (_ : nat) (_ : Z) (_ : bytes) : error + Tag * bytes := inl kNotFound.
Definition no_contents (_ : nat) (_ : Z) : list kv := [].

Definition sample_created : DBImpl bytes MemFile OrderedTable :=
  match NewDB [47] sample_options [] (NewDBImpl kDefaultBlockSize []) with Done (_, db) => db | _ => NewDBImpl 0 [] end.

Definition sample_batch : list op := [OpPut 0 [97] [1]; OpDelete 0 [98]; OpPut 0 [97] [2]].

Definition sample_put : DBImpl bytes MemFile OrderedTable :=
  match WriteImpl [47] sample_options no_compaction true (batch_of sample_batch) None sample_created with
  | Done (_, db) => db | _ => sample_created
  end.

Lemma sample_options_ok : options_ok sample_options.
Proof. split; apply _. Qed.

Lemma sample_created_ok :
  NewDB [47] sample_options [] (NewDBImpl kDefaultBlockSize []) = Done (kOk, sample_created) /\
  ready sample_created /\ db_holds no_files no_contents sample_created (fun _ => []).
Proof.
  destruct (NewDB_holds [47] sample_options no_files no_contents kDefaultBlockSize [] [] ltac:(by split) sample_options_ok ltac:(constructor))
    as (db & E & Hr & _ & _ & Hh).
  assert (sample_created = db) as -> by (unfold sample_created; by rewrite E).
  exact (conj E (conj Hr Hh)).
Qed.

Lemma sample_default : exists f, default_cfd_ (cfs (versions_ sample_created)) = Some 0%nat /\
  families (cfs (versions_ sample_created)) !! 0%nat = Some f.
Proof.
  assert (H : bool_decide (is_Some (families (cfs (versions_ sample_created)) !! 0%nat)) = true) by (by vm_compute).
  apply bool_decide_eq_true in H as [f Hf]. exists f. split; [by vm_compute | exact Hf].
Qed.

Lemma sample_known : Forall (op_known (cfs (versions_ sample_created))) sample_batch.
Proof.
  destruct sample_default as (f & Hd & Hf).
  repeat (apply Forall_cons_2 || apply Forall_nil_2); exists 0%nat, f; unfold family_of; cbn [op_cfid Z.eqb];
    (split_and!; [exact Hd | exact Hf | done]).
Qed.

Lemma sample_batch_ok : batch_ok sample_batch.
Proof. split; [repeat (apply Forall_cons_2 || apply Forall_nil_2); by vm_compute | split; by vm_compute]. Qed.

Lemma sample_last : last_sequence_number (versions_ sample_created) = 1.
Proof. by vm_compute. Qed.

Lemma sample_room : 0 <= last_sequence_number (versions_ sample_created) /\
  last_sequence_number (versions_ sample_created) + 1 + zlen sample_batch <= 2 ^ 56.
Proof. rewrite sample_last. by vm_compute. Qed.

Lemma sample_open : match families (cfs (versions_ sample_put)) !! 0%nat with Some f => negb (dropped f) | None => false end = true.
Proof. by vm_compute. Qed.

Lemma NewDB_ready_witness :
  exists db : DBImpl bytes MemFile OrderedTable,
    NewDB [47] sample_options [] (NewDBImpl kDefaultBlockSize []) = Done (kOk, db) /\ ready db /\
    last_sequence_number (versions_ db) = 1.
Proof.
  destruct (NewDB_ready [47] sample_options no_files no_contents kDefaultBlockSize [] ([] : bytes) ltac:(by split) sample_options_ok ltac:(constructor))
    as (db & E & Hr & Hl & _).
  exists db. exact (conj E (conj Hr Hl)).
Defined.

Lemma WriteImpl_refines_witness :
  exists db', WriteImpl [47] sample_options no_compaction true (batch_of sample_batch) None sample_created = Done (kOk, db') /\
    ready db' /\ last_sequence_number (versions_ db') = 1 + 3 /\
    db_holds no_files no_contents db' (abstract_write (cfs (versions_ sample_created)) sample_batch (1 + 1) (fun _ => [])).
Proof.
  destruct sample_created_ok as (_ & Hr & Hh). destruct sample_room as [Hl1 Hl2].
  destruct (WriteImpl_refines [47] sample_options no_compaction no_files no_contents true sample_batch sample_created
    (fun _ => []) Hr Hh sample_batch_ok sample_known Hl1 Hl2) as (db' & E & Hr' & _ & Hlast & Hh').
  rewrite sample_last in Hlast, Hh'. exists db'. exact (conj E (conj Hr' (conj Hlast Hh'))).
Defined.

Lemma Get_answers_witness :
  db_Get no_files None (Some (mkCFHandle true 0)) [97] sample_put = Done (inr (Some [2])) /\
  exists H r, db_Get no_files (Some 2) (Some (mkCFHandle true 0)) [97] sample_put = Done (shown r) /\ answers (H 0%nat) [97] 2 r.
Proof.
  split; [vm_compute; reflexivity|]. destruct sample_created_ok as (_ & Hr & Hh). destruct sample_room as [Hl1 Hl2].
  destruct (WriteImpl_holds [47] sample_options no_compaction no_files no_contents true sample_batch sample_created
    (fun _ => []) Hr Hh sample_batch_ok sample_known Hl1 Hl2) as (db' & E & Hr' & _ & _ & Hh').
  assert (Edb : sample_put = db') by (unfold sample_put; rewrite E; exact eq_refl). rewrite Edb.
  pose proof sample_open as Ho. rewrite Edb in Ho.
  destruct (families (cfs (versions_ db')) !! 0%nat) as [f|] eqn:Hf; [|discriminate Ho]. apply negb_true_iff in Ho.
  destruct (rd_tables _ Hr' 0%nat f Hf) as (t & Ht & _).
  eexists. apply (Get_answers no_files no_contents db' _ (Some 2) 0 f t [97] Hh' Hf Ht Ho).
  - split; [discriminate | reflexivity].
  - reflexivity.
Defined.
