(* ===== verification/Txn.v ===== *)
(** * Txn

    src/txn/transaction-base.{h,cc} and src/txn/optimism-transaction.{h,cc}:
    the optimistic transactions.  A transaction collects its updates in a batch
    and remembers for every key it locks the last version of the database at
    that time ([TrackKey]); [Commit] writes the batch if none of these keys has
    got a newer record since ([CheckTransactionForConflicts], the callback of
    the write).

    [Commit_decides] is the decision of a commit in both directions.  A step
    relation ([step]) interleaves the operations of any number of transactions,
    the two halves of [GetForUpdate] apart, with writes of others and with the
    background work; in whatever state it reaches, a commit that succeeds
    leaves the database as if the transaction had run alone at that moment
    ([Commit_serializes]). *)

From stdpp Require Import gmap relations.
From S2P Require Import Prelude Slice Keys Entries IO SkipList WriteBatch BatchIndex WAL Version VersionSet MemoryTable DBImpl DBSpec.

(** ** The data *)

Inductive State :=
  | STARTED | AWAITING_PREPARE | PREPARED | AWAITING_COMMIT | COMMITED | AWAITING_ROLLBACK | ROLLEDBACK | LOCKS_STOLEN.

#[global] Instance State_eq_dec : EqDecision State.
Proof. solve_decision. Defined.

Record TxnKeyInfo := mkKeyInfo { ti_seq : Z; n_writes : Z; n_reads : Z; ti_exclusive : bool }.

Definition NewTxnKeyInfo (seq : Z) : TxnKeyInfo := mkKeyInfo seq 0 0 false.

Abbreviation TxnKeyMap := (gmap bytes TxnKeyInfo).
Abbreviation TxnKeyMaps := (gmap Z TxnKeyMap).

(** [TransactionBase]; of the write options only [sync] is looked at. *)
Record TransactionBase := mkTxn {
  write_opts_ : bool; start_time_ : Z; snapshot_ : option Z;
  write_batch_ : WriteBatchWithIndex; txn_keys_ : TxnKeyMaps; state_ : State
}.

Definition NewTransactionBase (opts : bool) (now : Z) : TransactionBase :=
  mkTxn opts now None NewWriteBatchWithIndex ∅ STARTED.

Definition set_state (s : State) (t : TransactionBase) : TransactionBase :=
  mkTxn (write_opts_ t) (start_time_ t) (snapshot_ t) (write_batch_ t) (txn_keys_ t) s.
Definition set_batch (w : WriteBatchWithIndex) (t : TransactionBase) : TransactionBase :=
  mkTxn (write_opts_ t) (start_time_ t) (snapshot_ t) w (txn_keys_ t) (state_ t).
Definition set_keys (m : TxnKeyMaps) (t : TransactionBase) : TransactionBase :=
  mkTxn (write_opts_ t) (start_time_ t) (snapshot_ t) (write_batch_ t) m (state_ t).

Definition Reinitialize (opts : bool) (now : Z) (t : TransactionBase) : TransactionBase :=
  mkTxn opts now None (wi_Clear (write_batch_ t)) ∅ STARTED.

(** [TransactionBase::Clear] *)
Definition txn_Clear (t : TransactionBase) : TransactionBase :=
  mkTxn (write_opts_ t) (start_time_ t) None (wi_Clear (write_batch_ t)) ∅ (state_ t).

(** [OptimismTransactionDB::BeginTransaction] *)
Definition BeginTransaction (opts : bool) (now : Z) (old_txn : option TransactionBase) : TransactionBase :=
  match old_txn with Some t => Reinitialize opts now t | None => NewTransactionBase opts now end.

(** [OptimismTransaction::Rollback] *)
Definition Rollback (t : TransactionBase) : error * TransactionBase := (kOk, set_state ROLLEDBACK (txn_Clear t)).

Definition TrackKey (cfid : Z) (key : bytes) (seq : Z) (read_only exclusive : bool) (key_map : TxnKeyMaps) : TxnKeyMaps :=
  let keys := default ∅ (key_map !! cfid) in
  let info := match keys !! key with
              | None => NewTxnKeyInfo seq
              | Some info =>
                if seq <? ti_seq info then mkKeyInfo seq (n_writes info) (n_reads info) (ti_exclusive info) else info
              end in
  let info := mkKeyInfo (ti_seq info)
    (if read_only then n_writes info else wrap 32 (n_writes info + 1))
    (if read_only then wrap 32 (n_reads info + 1) else n_reads info)
    (ti_exclusive info || exclusive) in
  <[cfid := <[key := info]> keys]> key_map.

(** A transaction tracks a key of a family with some information. *)
Definition tracked (m : TxnKeyMaps) (cfid : Z) (key : bytes) (info : TxnKeyInfo) : Prop :=
  exists keys, m !! cfid = Some keys /\ keys !! key = Some info.

Lemma TrackKey_tracked cfid key seq ro ex m c k info :
  tracked (TrackKey cfid key seq ro ex m) c k info ->
  (exists info0, tracked m c k info0 /\ ti_seq info = ti_seq info0) \/ (c = cfid /\ k = key /\ ti_seq info = seq).
Proof.
  unfold tracked, TrackKey. intros (keys & [[<- <-]|[Hne Hm]]%lookup_insert_Some & Hk); [|left; exists info; split; [by exists keys | done]].
  apply lookup_insert_Some in Hk as [[<- <-]|[Hne Hk]]; cbn [ti_seq].
  - destruct (m !! cfid) as [keys|] eqn:Em; cbn [default from_option id]; [|by right].
    destruct (keys !! key) as [info|] eqn:Ek; [|by right].
    destruct (seq <? ti_seq info); [by right|]. left. exists info. split; [by exists keys | done].
  - left. exists info. split; [|done]. destruct (m !! cfid) as [keys|] eqn:Em; [by exists keys | done].
Qed.

Lemma tracked_inj m c k info info' : tracked m c k info -> tracked m c k info' -> info = info'.
Proof. intros (keys & Hm & Hk) (keys' & Hm' & Hk'). congruence. Qed.

Lemma TrackKey_other cfid key seq ro ex m c k info :
  (c, k) <> (cfid, key) -> tracked (TrackKey cfid key seq ro ex m) c k info <-> tracked m c k info.
Proof.
  intros Hne. unfold tracked, TrackKey. destruct (decide (c = cfid)) as [->|Hc].
  - rewrite lookup_insert_eq. split.
    + intros (keys & [= <-] & Hk). rewrite lookup_insert_ne in Hk by congruence. destruct (m !! cfid) as [keys|]; [by exists keys | done].
    + intros (keys & Hm & Hk). rewrite Hm. eexists. split; [done|]. cbn. by rewrite lookup_insert_ne by congruence.
  - by rewrite lookup_insert_ne.
Qed.

(** A key is tracked exclusively once it has been locked so. *)
Lemma TrackKey_same cfid key seq ro ex m :
  exists info, tracked (TrackKey cfid key seq ro ex m) cfid key info /\
    ((forall info0, ~ tracked m cfid key info0) /\ ti_exclusive info = ex \/
     exists info0, tracked m cfid key info0 /\ ti_exclusive info = ti_exclusive info0 || ex).
Proof.
  unfold tracked, TrackKey. eexists. split; [eexists; split; apply lookup_insert_eq|]. cbn [ti_exclusive].
  destruct (m !! cfid) as [keys|] eqn:Em; cbn [default from_option id].
  - destruct (keys !! key) as [info|] eqn:Ek; cbn [ti_exclusive NewTxnKeyInfo].
    + right. exists info. split; [by exists keys|]. by destruct (seq <? ti_seq info).
    + left. split; [|done]. intros info0 (keys' & [= <-] & Hk). congruence.
  - left. split; [|done]. by intros info0 (keys' & [=] & _).
Qed.

(** What is tracked stays so, with a version that is not newer. *)
Lemma TrackKey_keeps cfid key seq ro ex m c k info :
  tracked m c k info -> exists info', tracked (TrackKey cfid key seq ro ex m) c k info' /\ ti_seq info' <= ti_seq info.
Proof.
  intros (keys & Hm & Hk). unfold tracked, TrackKey. destruct (decide (c = cfid)) as [->|Hc].
  - rewrite Hm. cbn [default from_option id]. destruct (decide (k = key)) as [->|Hne].
    + rewrite Hk. eexists. split; [eexists; split; apply lookup_insert_eq|]. cbn [ti_seq].
      destruct (Z.ltb_spec seq (ti_seq info)); cbn [ti_seq]; lia.
    + exists info. split; [|lia]. eexists. split; [apply lookup_insert_eq|]. by rewrite lookup_insert_ne.
  - exists info. split; [|lia]. exists keys. by rewrite lookup_insert_ne.
Qed.

Lemma TrackKey_not_empty cfid key seq ro ex m : (forall c, m !! c <> Some ∅) -> forall c, TrackKey cfid key seq ro ex m !! c <> Some ∅.
Proof. unfold TrackKey. intros Hm c [[_ H]|[_ H]]%lookup_insert_Some; [by apply insert_non_empty in H | by apply (Hm c)]. Qed.

Section operations.
Context {E F T : Type} `{!WritableFile F, !EnvOps E F, !MemTable T}.
Context (path : bytes) (options : ColumnFamilyOptions) (needs_compaction : Version -> bool).
Context (cache_get : nat -> Z -> bytes -> error + Tag * bytes).
(** The comparators of the families, what a view of a string that is gone
    reads, and the orders of the unordered maps. *)
Context (comparator : Z -> bytes -> bytes -> Z) (freed : bytes -> option bytes).
Context (order_families : TxnKeyMaps -> list (Z * TxnKeyMap)) (order_keys : TxnKeyMap -> list (bytes * TxnKeyInfo)).

#[local] Abbreviation DB := (DBImpl E F T).

Definition GetLatestSequenceNumber (db : DB) : Z := last_sequence_number (versions_ db).

Definition GetColumnFamilyImpl (cfid : Z) (db : DB) : error + nat :=
  match GetColumnFamily cfid (cfs (versions_ db)) with Some i => inr i | None => inl kCorruption end.

(** [ColumnFamily::id] of a handle. *)
Definition handle_id (cf : ColumnFamilyHandle) (db : DB) : outcome Z :=
  (do! f := ofopt (families (cfs (versions_ db)) !! h_impl cf) in Done (cf_id f))%out.

(** ** Conflicts *)

Definition CheckKey (i : nat) (earliest_seq key_seq : Z) (key : bytes) (cache_only : bool) (db : DB) : outcome error :=
  let '(need_to_read_sst, rs) :=
    if earliest_seq =? kMaxSequenceNumber then (true, if cache_only then kTryAgain else kOk)
    else if key_seq <? earliest_seq then (true, if cache_only then kTryAgain else kOk)
    else (false, kOk) in
  if ok rs then
    (do! (rs, seq) := GetLatestSequenceForKey cache_get i (negb need_to_read_sst) key db in
     Done (if bool_decide (rs = kNotFound) then kOk else if negb (ok rs) then rs
           else if key_seq <? seq then kBusy else rs))%out
  else Done rs.

(** The loops of [CheckTransactionForConflicts]. *)
Fixpoint check_keys (i : nat) (keys : list (bytes * TxnKeyInfo)) (db : DB) : outcome error :=
  match keys with
  | [] => Done kOk
  | (key, info) :: keys =>
    (do! rs := CheckKey i kMaxSequenceNumber (ti_seq info) key false db in
     if negb (ok rs) then Done rs else check_keys i keys db)%out
  end.

Fixpoint check_families (maps : list (Z * TxnKeyMap)) (db : DB) : outcome error :=
  match maps with
  | [] => Done kOk
  | (cfid, keys) :: maps =>
    match GetColumnFamilyImpl cfid db with
    | inl rs => Done rs
    | inr i =>
      (do! rs := check_keys i (order_keys keys) db in
       if negb (ok rs) then Done rs else check_families maps db)%out
    end
  end.

Definition CheckTransactionForConflicts (t : TransactionBase) (db : DB) : outcome error :=
  check_families (order_families (txn_keys_ t)) db.

(** ** OptimismTransaction *)

Definition Commit (t : TransactionBase) (db : DB) : outcome (error * TransactionBase * DB) :=
  (do! (rs, db) := WriteImpl path options needs_compaction (write_opts_ t) (wi_batch (write_batch_ t))
                     (Some (CheckTransactionForConflicts t)) db in
   Done (rs, if ok rs then set_state COMMITED (txn_Clear t) else t, db))%out.

Definition TryLock (cf : ColumnFamilyHandle) (key : bytes) (read_only exclusive do_validate : bool) (t : TransactionBase) (db : DB) :
    outcome (error * TransactionBase) :=
  if negb do_validate then Done (kOk, t) else
  let seq := match snapshot_ t with Some sq => sq | None => GetLatestSequenceNumber db end in
  (do! cfid := handle_id cf db in
   Done (kOk, set_keys (TrackKey cfid key seq read_only exclusive (txn_keys_ t)) t))%out.

(** ** TransactionBase *)

(** What the four updates have in common. *)
Definition update (validate : bool) (flag : Z) (rand : list Z) (cf : ColumnFamilyHandle) (key value : bytes)
    (t : TransactionBase) (db : DB) : outcome (error * TransactionBase) :=
  (do! (rs, t) := TryLock cf key false true validate t db in
   if ok rs then
     do! cfid := handle_id cf db in
     do! w := AddOrUpdate comparator rand cfid flag key value (write_batch_ t) in Done (rs, set_batch w t)
   else Done (rs, t))%out.

Definition txn_Put := update true (flag_code kFlagValue).
Definition txn_Delete (rand : list Z) (cf : ColumnFamilyHandle) (key : bytes) := update true (flag_code kFlagDeletion) rand cf key [].
Definition PutUntracked := update false (flag_code kFlagValue).
Definition DeleteUntracked (rand : list Z) (cf : ColumnFamilyHandle) (key : bytes) := update false (flag_code kFlagDeletion) rand cf key [].

(** [TransactionBase::Get]; [opts] is the snapshot of the read options. *)
Definition txn_Get (opts : option Z) (cf : ColumnFamilyHandle) (key : bytes) (t : TransactionBase) (db : DB) :
    outcome (error + option bytes) :=
  (do! cfid := handle_id cf db in
   do! r := RawGet comparator freed cfid key (write_batch_ t) in
   match r with
   | inr (flag, value) => Done (if flag =? flag_code kFlagDeletion then inl kNotFound else inr value)
   | inl _ => db_Get cache_get opts (Some cf) key db
   end)%out.

Definition GetForUpdate (opts : option Z) (cf : ColumnFamilyHandle) (key : bytes) (exclusive do_validate : bool)
    (t : TransactionBase) (db : DB) : outcome ((error + option bytes) * TransactionBase) :=
  if negb do_validate && bool_decide (is_Some opts) then Done (inl kCorruption, t) else
  (do! (rs, t) := TryLock cf key true exclusive do_validate t db in
   if ok rs then do! r := txn_Get opts cf key t db in Done (r, t) else Done (inl rs, t))%out.
End operations.

(** ** What a commit decides *)

Section spec.
Context {E F T : Type} `{!WritableFile F, !WritableFileLaws F, !ReliableFile F, !EnvOps E F, !EnvReliable E F}.
Context `{!MemTable T, !MemTableLaws T}.
Context (path : bytes) (options : ColumnFamilyOptions) (needs_compaction : Version -> bool).
Context (cache_get : nat -> Z -> bytes -> error + Tag * bytes) (contents : nat -> Z -> list kv).
Context (order_families : TxnKeyMaps -> list (Z * TxnKeyMap)) (order_keys : TxnKeyMap -> list (bytes * TxnKeyInfo)).
Context (Hfamilies : forall m, order_families m ≡ₚ map_to_list m) (Hkeys : forall m, order_keys m ≡ₚ map_to_list m).

#[local] Abbreviation DB := (DBImpl E F T).
#[local] Abbreviation db_holds := (db_holds cache_get contents).
#[local] Abbreviation last_of db := (last_sequence_number (versions_ db)).
#[local] Abbreviation commit_of := (Commit path options needs_compaction cache_get order_families order_keys).

(** A key of family [i] has a record newer than [seq]. *)
Definition newer (H : history) (i : nat) (key : bytes) (seq : Z) : Prop :=
  exists p, p ∈ H i /\ p_key p = key /\ seq < p_version p.

(** A key that can be looked up: of less than 4 GiB and of a family that is there. *)
Definition located (s : ColumnFamilySet) (cfid : Z) (key : bytes) (i : nat) : Prop :=
  GetColumnFamily cfid s = Some i /\ (i < length (families s))%nat /\ zlen key < 2 ^ 32.

(** A tracked key has a newer record. *)
Definition conflict (s : ColumnFamilySet) (H : history) (m : TxnKeyMaps) : Prop :=
  exists cfid key info i, tracked m cfid key info /\ GetColumnFamily cfid s = Some i /\ newer H i key (ti_seq info).

(** The verdict of a check: fine, or busy exactly when there is a conflict. *)
Definition verdict (rs : error) (P : Prop) : Prop := rs = kOk /\ ~ P \/ rs = kBusy /\ P.

Lemma CheckKey_verdict (db : DB) H i key seq :
  ready db -> db_holds db H -> is_u 56 (last_of db) -> (i < length (families (cfs (versions_ db))))%nat -> zlen key < 2 ^ 32 ->
  exists rs, CheckKey cache_get i kMaxSequenceNumber seq key false db = Done rs /\ verdict rs (newer H i key seq).
Proof.
  intros Hr Hdb Hl Hi Hk. destruct (lookup_lt_is_Some_2 _ _ Hi) as [f Hf]. destruct (rd_tables _ Hr i f Hf) as (t & Ht & _).
  destruct (GetLatestSequence_answers cache_get contents db H i f t key Hdb Hf Ht Hl Hk) as (rs & sq & E1 & Hrs).
  unfold CheckKey. rewrite Z.eqb_refl. cbn [ok bool_decide negb decide]. change (ok kOk) with true. cbn iota. rewrite E1. cbn [obind].
  eexists. split; [reflexivity|]. destruct Hrs as [(-> & (p & Hp & Hpk & <-) & Hn)|[-> Hn]].
  - change (bool_decide (kOk = kNotFound)) with false. change (negb (ok kOk)) with false. cbn iota.
    destruct (Z.ltb_spec seq (p_version p)); [right | left]; (split; [done|]); [by exists p|].
    intros (q & Hq & Hqk & Hlt). specialize (Hn q Hq Hqk). lia.
  - left. split; [done|]. intros (q & Hq & Hqk & _). by apply (Hn q).
Qed.

Lemma check_keys_verdict (db : DB) H i keys :
  ready db -> db_holds db H -> is_u 56 (last_of db) -> (i < length (families (cfs (versions_ db))))%nat ->
  Forall (fun x => zlen (fst x) < 2 ^ 32) keys ->
  exists rs, check_keys cache_get i keys db = Done rs /\
    verdict rs (Exists (fun x => newer H i (fst x) (ti_seq (snd x))) keys).
Proof.
  intros Hr Hdb Hl Hi. induction 1 as [|[key info] keys Hk _ IH]; cbn [check_keys].
  { exists kOk. split; [done|]. left. split; [done|]. by intros ?%Exists_nil. }
  destruct (CheckKey_verdict db H i key (ti_seq info) Hr Hdb Hl Hi Hk) as (rs & -> & [[-> Hn]|[-> Hn]]); cbn [obind].
  - change (negb (ok kOk)) with false. cbn iota. destruct IH as (rs & -> & Hv). exists rs. split; [done|].
    unfold verdict. rewrite Exists_cons. cbn. unfold verdict in Hv. tauto.
  - exists kBusy. split; [done|]. right. split; [done|]. by left.
Qed.

Lemma check_families_verdict (db : DB) H maps :
  ready db -> db_holds db H -> is_u 56 (last_of db) ->
  Forall (fun x => forall key info, snd x !! key = Some info -> exists i, located (cfs (versions_ db)) (fst x) key i) maps ->
  Forall (fun x : Z * TxnKeyMap => snd x <> ∅) maps ->
  exists rs, check_families cache_get order_keys maps db = Done rs /\
    verdict rs (Exists (fun x => exists key info i, snd x !! key = Some info /\
      GetColumnFamily (fst x) (cfs (versions_ db)) = Some i /\ newer H i key (ti_seq info)) maps).
Proof.
  intros Hr Hdb Hl. induction 1 as [|[cfid keys] maps Hx _ IH]; intros Hne; cbn [check_families].
  { exists kOk. split; [done|]. left. split; [done|]. by intros ?%Exists_nil. }
  apply Forall_cons in Hne as [Hk0 Hne]. cbn [fst snd] in *. destruct (IH Hne) as (rs' & E' & Hv'). clear IH.
  destruct (map_choose keys Hk0) as (key0 & info0 & H0). destruct (Hx key0 info0 H0) as (i & Hi & Hlt & _).
  unfold GetColumnFamilyImpl. rewrite Hi.
  destruct (check_keys_verdict db H i (order_keys keys) Hr Hdb Hl Hlt) as (rs & E1 & Hv).
  { rewrite Hkeys. apply Forall_forall. intros [key info] Hin%elem_of_map_to_list. by destruct (Hx key info Hin) as (? & _ & _ & ?). }
  rewrite E1. cbn [obind].
  assert (Hex : Exists (fun x => newer H i (fst x) (ti_seq (snd x))) (order_keys keys) <->
    exists key info i, keys !! key = Some info /\ GetColumnFamily cfid (cfs (versions_ db)) = Some i /\ newer H i key (ti_seq info)).
  { rewrite Hkeys, Exists_exists. split.
    - intros ([key info] & Hin%elem_of_map_to_list & Hn). by exists key, info, i.
    - intros (key & info & j & Hin & Hj & Hn). rewrite Hi in Hj. injection Hj as <-. exists (key, info).
      by split; [apply elem_of_map_to_list|]. }
  destruct Hv as [[-> Hn]|[-> Hn]].
  - change (negb (ok kOk)) with false. cbn iota. exists rs'. split; [done|]. unfold verdict. rewrite Exists_cons. cbn [fst snd].
    rewrite <- Hex. unfold verdict in Hv'. tauto.
  - exists kBusy. split; [done|]. right. split; [done|]. left. cbn [fst snd]. by rewrite <- Hex.
Qed.

(** What is tracked can be looked up; no family is tracked without a key. *)
Definition trackable (s : ColumnFamilySet) (m : TxnKeyMaps) : Prop :=
  (forall cfid key info, tracked m cfid key info -> exists i, located s cfid key i) /\ forall cfid, m !! cfid <> Some ∅.

Lemma CheckTransaction_verdict (db : DB) H t :
  ready db -> db_holds db H -> is_u 56 (last_of db) -> trackable (cfs (versions_ db)) (txn_keys_ t) ->
  exists rs, CheckTransactionForConflicts cache_get order_families order_keys t db = Done rs /\
    verdict rs (conflict (cfs (versions_ db)) H (txn_keys_ t)).
Proof.
  intros Hr Hdb Hl [Hloc Hne]. unfold CheckTransactionForConflicts.
  destruct (check_families_verdict db H (order_families (txn_keys_ t)) Hr Hdb Hl) as (rs & E1 & Hv).
  - rewrite Hfamilies. apply Forall_forall. intros [cfid keys] Hin%elem_of_map_to_list key info Hk. cbn in *. eapply Hloc. by exists keys.
  - rewrite Hfamilies. apply Forall_forall. intros [cfid keys] Hin%elem_of_map_to_list. cbn. intros ->. by apply (Hne cfid).
  - exists rs. split; [done|]. assert (Hex : conflict (cfs (versions_ db)) H (txn_keys_ t) <->
      Exists (fun x => exists key info i, snd x !! key = Some info /\
        GetColumnFamily (fst x) (cfs (versions_ db)) = Some i /\ newer H i key (ti_seq info)) (order_families (txn_keys_ t))).
    { rewrite Hfamilies, Exists_exists. split.
      - intros (cfid & key & info & i & (keys & Hm & Hk) & Hi & Hn). exists (cfid, keys). split; [by apply elem_of_map_to_list|]. by exists key, info, i.
      - intros ([cfid keys] & Hin%elem_of_map_to_list & key & info & i & Hk & Hi & Hn). exists cfid, key, info, i. split; [by exists keys | done]. }
    unfold verdict. by rewrite Hex.
Qed.

(** A batch that can be written. *)
Definition fits (os : list op) (db : DB) : Prop :=
  batch_ok os /\ Forall (op_known (cfs (versions_ db))) os /\ 0 <= last_of db /\ last_of db + 1 + zlen os <= 2 ^ 56.

Lemma Commit_verdict t os (db : DB) H :
  ready db -> db_holds db H -> trackable (cfs (versions_ db)) (txn_keys_ t) -> wi_batch (write_batch_ t) = batch_of os -> fits os db ->
  exists rs t' db', commit_of t db = Done (rs, t', db') /\ verdict rs (conflict (cfs (versions_ db)) H (txn_keys_ t)) /\
    ready db' /\ cfs (versions_ db') = cfs (versions_ db) /\
    if ok rs then
      t' = set_state COMMITED (txn_Clear t) /\ last_of db' = last_of db + zlen os /\
      db_holds db' (abstract_write (cfs (versions_ db)) os (last_of db + 1) H)
    else t' = t /\ last_of db' = last_of db /\ db_holds db' H.
Proof.
  intros Hr Hdb Ht Hb (Hok & Hkn & Hl0 & Hl). pose proof (zlen_nonneg os).
  destruct (WriteImpl_prepared path options needs_compaction cache_get contents (write_opts_ t) os
    (Some (CheckTransactionForConflicts cache_get order_families order_keys t)) db H Hr Hdb Hok Hkn Hl0 Hl)
    as (db1 & db' & [Hr1 Hc1 Hl1 Hh1] & Ew & Hr' & Hc' & Hl' & Hh').
  destruct (CheckTransaction_verdict db1 H t Hr1 (Hh1 H Hdb)) as (rs & Ec & Hv); [rewrite Hl1; unfold is_u; lia | by rewrite Hc1 |].
  unfold Commit. rewrite Hb, Ew, Ec. cbn [obind]. rewrite Hc1 in Hv. destruct Hv as [[-> Hn]|[-> Hn]].
  - change (negb (ok kOk)) with false. cbn iota. cbn [obind]. eexists _, _, _. split; [reflexivity|].
    change (ok kOk) with true. cbn iota. split_and!; try done. by left.
  - change (negb (ok kBusy)) with true. cbn iota. cbn [obind]. eexists _, _, _. split; [reflexivity|].
    change (ok kBusy) with false. cbn iota. split_and!; try done; [by right | by apply Hh1].
Qed.

(** C13: The commit of an optimistic transaction on a database that is ready is
    decided by the records alone, whatever room the write makes and in whatever
    order the tracked keys are visited: it succeeds, and the updates of the
    transaction get the next versions, exactly when no tracked key has a record
    newer than the version it was tracked with; otherwise it is busy, nothing
    is written and the transaction is as it was. *)
Theorem Commit_decides t os (db : DB) H :
  ready db -> db_holds db H -> trackable (cfs (versions_ db)) (txn_keys_ t) -> wi_batch (write_batch_ t) = batch_of os -> fits os db ->
  exists rs t' db', commit_of t db = Done (rs, t', db') /\ verdict rs (conflict (cfs (versions_ db)) H (txn_keys_ t)) /\
    ready db' /\ cfs (versions_ db') = cfs (versions_ db) /\
    if ok rs then
      t' = set_state COMMITED (txn_Clear t) /\ last_of db' = last_of db + zlen os /\
      db_holds db' (abstract_write (cfs (versions_ db)) os (last_of db + 1) H)
    else t' = t /\ last_of db' = last_of db /\ db_holds db' H.
Proof. apply Commit_verdict. Qed.

(** What the reads of a transaction depend on besides. *)
Context (comparator : Z -> bytes -> bytes -> Z) (freed : bytes -> option bytes).

(** Family [i] is open, and [f] is found by its number. *)
Definition usable (db : DB) (i : nat) (f : ColumnFamilyImpl) (key : bytes) : Prop :=
  families (cfs (versions_ db)) !! i = Some f /\ dropped f = false /\
  GetColumnFamily (cf_id f) (cfs (versions_ db)) = Some i /\ zlen key < 2 ^ 32.

(** [x] is what [Get] shows at the last version. *)
Definition current_answer (H : history) (last : Z) (i : nat) (key : bytes) (x : error + option bytes) : Prop :=
  exists r, x = shown r /\ answers (H i) key last r.

(** The read of a transaction answers by its own last update of the key, and
    by the database when it has made none: by the newest record of the key. *)
Theorem txn_Get_answers t os (db : DB) H i f key :
  (forall cfid, ComparatorLaws (comparator cfid)) -> (forall s, freed s = Some s) ->
  ready db -> db_holds db H -> is_u 56 (last_of db) -> usable db i f key ->
  indexed comparator os (write_batch_ t) -> careful comparator os ->
  exists r, txn_Get cache_get comparator freed None (mkCFHandle true i) key t db = Done r /\
    match last_update comparator (cf_id f) key os with
    | Some (OpPut _ _ value) => r = inr (Some value)
    | Some (OpDelete _ _) => r = inl kNotFound
    | None => current_answer H (last_of db) i key r
    end.
Proof.
  intros Hcmp Hfreed Hr Hdb Hl (Hf & Hd & _ & Hk) Hw Hc. unfold txn_Get, handle_id. cbn [h_impl]. rewrite Hf. cbn [ofopt obind].
  rewrite (RawGet_careful comparator freed os (write_batch_ t) (cf_id f) key Hcmp Hfreed Hw Hc). cbn [obind].
  destruct (last_update comparator (cf_id f) key os) as [[c k v|c k]|].
  - eexists. by split.
  - eexists. by split.
  - destruct (rd_tables _ Hr i f Hf) as (tb & Htb & _).
    destruct (db_Get_answers cache_get contents db H None i f tb key Hdb Hf Htb Hd Hl Hk) as (r & Eg & Ha).
    exists (shown r). split; [exact Eg|]. by exists r.
Qed.

(** ** Transactions that run at the same time *)

(** A transaction with the updates it has made and the reads it has locked the
    key of: the family, the key and the answer. *)
Record session := mkSession {
  s_txn : TransactionBase; s_ops : list op; s_reads : list (nat * bytes * (error + option bytes))
}.

(** The database, the records it holds and the transactions that have begun. *)
Record system := mkSystem { sy_db : DB; sy_hist : history; sy_sessions : gmap nat session }.

Definition set_session (n : nat) (s : session) (sy : system) : system :=
  mkSystem (sy_db sy) (sy_hist sy) (<[n := s]> (sy_sessions sy)).

(** Operations of the transactions, writes of others, and what background work
    may change. *)
Inductive step : system -> system -> Prop :=
  | step_begin sy n opts now :
      step sy (set_session n (mkSession (BeginTransaction opts now (s_txn <$> sy_sessions sy !! n)) [] []) sy)
  | step_lock sy n s i f key read_only exclusive t :
      sy_sessions sy !! n = Some s -> usable (sy_db sy) i f key ->
      TryLock (mkCFHandle true i) key read_only exclusive true (s_txn s) (sy_db sy) = Done (kOk, t) ->
      step sy (set_session n (mkSession t (s_ops s) (s_reads s)) sy)
  | step_read sy n s i f key info x :
      sy_sessions sy !! n = Some s -> usable (sy_db sy) i f key -> tracked (txn_keys_ (s_txn s)) (cf_id f) key info ->
      RawGet comparator freed (cf_id f) key (write_batch_ (s_txn s)) = Done (inl kNotFound) ->
      txn_Get cache_get comparator freed None (mkCFHandle true i) key (s_txn s) (sy_db sy) = Done x ->
      step sy (set_session n (mkSession (s_txn s) (s_ops s) ((i, key, x) :: s_reads s)) sy)
  | step_update sy n s i f o validate rand t :
      sy_sessions sy !! n = Some s -> usable (sy_db sy) i f (op_key o) -> op_cfid o = cf_id f ->
      update comparator validate (op_flag o) rand (mkCFHandle true i) (op_key o) (op_value o) (s_txn s) (sy_db sy) = Done (kOk, t) ->
      step sy (set_session n (mkSession t (s_ops s ++ [o]) (s_reads s)) sy)
  | step_rollback sy n s :
      sy_sessions sy !! n = Some s -> step sy (set_session n (mkSession (snd (Rollback (s_txn s))) [] []) sy)
  | step_commit sy n s t db :
      sy_sessions sy !! n = Some s -> fits (s_ops s) (sy_db sy) -> commit_of (s_txn s) (sy_db sy) = Done (kOk, t, db) ->
      step sy (mkSystem db (abstract_write (cfs (versions_ (sy_db sy))) (s_ops s) (last_of (sy_db sy) + 1) (sy_hist sy))
        (<[n := mkSession t [] []]> (sy_sessions sy)))
  | step_busy sy n s rs t db :
      sy_sessions sy !! n = Some s -> fits (s_ops s) (sy_db sy) -> commit_of (s_txn s) (sy_db sy) = Done (rs, t, db) -> rs <> kOk ->
      step sy (mkSystem db (sy_hist sy) (<[n := mkSession t (s_ops s) (s_reads s)]> (sy_sessions sy)))
  | step_write sy sync os db :
      fits os (sy_db sy) ->
      WriteImpl path options needs_compaction sync (batch_of os) None (sy_db sy) = Done (kOk, db) ->
      step sy (mkSystem db (abstract_write (cfs (versions_ (sy_db sy))) os (last_of (sy_db sy) + 1) (sy_hist sy)) (sy_sessions sy))
  | step_background sy db :
      ready db -> db_holds db (sy_hist sy) -> last_of db = last_of (sy_db sy) ->
      column_family_impls_ (cfs (versions_ db)) = column_family_impls_ (cfs (versions_ (sy_db sy))) ->
      length (families (cfs (versions_ db))) = length (families (cfs (versions_ (sy_db sy)))) ->
      step sy (mkSystem db (sy_hist sy) (sy_sessions sy)).

(** *** What every step keeps *)

Record session_ok (s : ColumnFamilySet) (H : history) (last : Z) (n : session) : Prop := {
  so_batch : wi_batch (write_batch_ (s_txn n)) = batch_of (s_ops n);
  so_snapshot : snapshot_ (s_txn n) = None;
  so_trackable : trackable s (txn_keys_ (s_txn n));
  so_seq : forall cfid key info, tracked (txn_keys_ (s_txn n)) cfid key info -> ti_seq info <= last;
  so_reads : forall i key x, (i, key, x) ∈ s_reads n -> exists cfid info, GetColumnFamily cfid s = Some i /\
    tracked (txn_keys_ (s_txn n)) cfid key info /\ (~ newer H i key (ti_seq info) -> current_answer H last i key x);
}.

Record system_ok (sy : system) : Prop := {
  sk_ready : ready (sy_db sy);
  sk_holds : db_holds (sy_db sy) (sy_hist sy);
  sk_last : is_u 56 (last_of (sy_db sy));
  sk_sessions : map_Forall (fun _ s => session_ok (cfs (versions_ (sy_db sy))) (sy_hist sy) (last_of (sy_db sy)) s) (sy_sessions sy);
}.

(** The records have only got newer ones. *)
Definition grown (H : history) (last : Z) (H' : history) (last' : Z) : Prop :=
  last <= last' /\ (forall i p, p ∈ H i -> p ∈ H' i) /\ forall i p, p ∈ H' i -> p ∈ H i \/ last < p_version p.

Lemma grown_refl H last : grown H last H last.
Proof. split_and!; [lia | done | auto]. Qed.

(** The families are found as before. *)
Definition same_directory (s s' : ColumnFamilySet) : Prop :=
  column_family_impls_ s' = column_family_impls_ s /\ length (families s') = length (families s).

Lemma session_later s s' H H' last last' n :
  same_directory s s' -> grown H last H' last' -> session_ok s H last n -> session_ok s' H' last' n.
Proof.
  intros [Ed El] (Hl & Hsub & Hnew) [Hb Hs [Ht Ht'] Hq Hr]. split; [done | done | | |].
  - split; [|done]. intros cfid key info Hti. destruct (Ht cfid key info Hti) as (i & Hi & Hlt & Hk). exists i. unfold located, GetColumnFamily in *.
    by rewrite Ed, El.
  - intros cfid key info Hti. specialize (Hq cfid key info Hti). lia.
  - intros i key x Hx. destruct (Hr i key x Hx) as (cfid & info & Hi & Hti & Hc). exists cfid, info. unfold GetColumnFamily in *. rewrite Ed.
    split_and!; [done..|]. specialize (Hq cfid key info Hti). intros Hn'.
    destruct Hc as (r & -> & Hr').
    { intros (p & Hp & Hpk & Hlt). apply Hn'. exists p. auto. }
    exists r. split; [done|].
    assert (Hold : forall q, q ∈ H' i -> p_key q = key -> q ∈ H i /\ p_version q <= last).
    { intros q Hq' Hqk. destruct (Z.le_gt_cases (p_version q) (ti_seq info)) as [Hle|Hgt]; [|exfalso; apply Hn'; by exists q].
      destruct (Hnew i q Hq'); [|lia]. split; [done | lia]. }
    destruct r as [e|[tag v]]; cbn in *.
    + destruct Hr' as [-> Hn]. split; [done|]. intros q Hq' Hqk. destruct (Hold q Hq' Hqk). specialize (Hn q ltac:(done) Hqk). lia.
    + destruct Hr' as (p & Hp & Hpk & Hpv & -> & -> & Hn). exists p. split_and!; [auto | done | lia | done..|].
      intros q Hq' Hqk _. destruct (Hold q Hq' Hqk). auto.
Qed.

(** *** The steps *)

Lemma New_session_ok s H last t : wi_batch (write_batch_ t) = batch_of [] -> snapshot_ t = None -> txn_keys_ t = ∅ -> session_ok s H last (mkSession t [] []).
Proof.
  intros Hb Hs Hk. split; cbn [s_txn s_ops s_reads]; [done | done | | |]; rewrite ?Hk.
  - split; [by intros cfid key info (keys & Hm & _) | done].
  - by intros cfid key info (keys & Hm & _).
  - by intros i key x Hx%not_elem_of_nil.
Qed.

Lemma Clear_batch_of os : Clear (batch_of os) = batch_of [].
Proof. unfold Clear, batch_of. by rewrite redo_fold. Qed.

Lemma BeginTransaction_session s H last opts now old :
  match old with Some n => session_ok s H last n | None => True end ->
  session_ok s H last (mkSession (BeginTransaction opts now (s_txn <$> old)) [] []).
Proof.
  destruct old as [n|]; intros Hn; apply New_session_ok; try done. cbn. by rewrite (so_batch _ _ _ _ Hn), Clear_batch_of.
Qed.

Lemma Clear_session s H last n st : session_ok s H last n -> session_ok s H last (mkSession (set_state st (txn_Clear (s_txn n))) [] []).
Proof. intros Hn. apply New_session_ok; try done. cbn. by rewrite (so_batch _ _ _ _ Hn), Clear_batch_of. Qed.

(** A key is locked. *)
Lemma lock_session s H last n cfid key ro ex i :
  located s cfid key i -> session_ok s H last n ->
  session_ok s H last (mkSession (set_keys (TrackKey cfid key last ro ex (txn_keys_ (s_txn n))) (s_txn n)) (s_ops n) (s_reads n)).
Proof.
  intros Hloc [Hb Hs [Ht Hne] Hq Hr]. split; cbn; [done | done | split | |].
  - intros c k info [(info0 & Hi & _)|(-> & -> & _)]%TrackKey_tracked; [by eapply Ht | by exists i].
  - by apply TrackKey_not_empty.
  - intros c k info [(info0 & Hi & ->)|(-> & -> & ->)]%TrackKey_tracked; [by eapply Hq | lia].
  - intros j k x Hx. destruct (Hr j k x Hx) as (c & info & Hj & Hti & Hc).
    destruct (TrackKey_keeps cfid key last ro ex _ _ _ _ Hti) as (info' & Hti' & Hle). exists c, info'. split_and!; [done..|].
    intros Hn. apply Hc. intros (p & Hp & Hpk & Hlt). apply Hn. exists p. split_and!; [done..|]. lia.
Qed.

Lemma TryLock_session (db : DB) H n i f key ro ex rs t :
  usable db i f key -> session_ok (cfs (versions_ db)) H (last_of db) n ->
  TryLock (mkCFHandle true i) key ro ex true (s_txn n) db = Done (rs, t) ->
  session_ok (cfs (versions_ db)) H (last_of db) (mkSession t (s_ops n) (s_reads n)).
Proof.
  intros (Hf & _ & Hi & Hk) Hn. unfold TryLock, handle_id. cbn [negb h_impl]. rewrite Hf, (so_snapshot _ _ _ _ Hn). cbn [ofopt obind].
  intros [= <- <-]. eapply lock_session; [|done]. split_and!; [exact Hi | by eapply lookup_lt_Some | done].
Qed.

(** The batch gets the update. *)
Lemma AddOrUpdate_batch rand o (w w' : WriteBatchWithIndex) :
  AddOrUpdate comparator rand (op_cfid o) (op_flag o) (op_key o) (op_value o) w = Done w' -> wi_batch w' = apply_op (wi_batch w) o.
Proof.
  unfold AddOrUpdate. destruct (sl_Seek _ _ _) as [node| |]; cbn [obind]; [|done..]. destruct (match node with Some _ => _ | None => _ end); cbn [obind]; [|done..].
  intros [= <-]. by destruct o.
Qed.

Lemma update_session (db : DB) H n i f o validate rand rs t :
  usable db i f (op_key o) -> op_cfid o = cf_id f -> session_ok (cfs (versions_ db)) H (last_of db) n ->
  update comparator validate (op_flag o) rand (mkCFHandle true i) (op_key o) (op_value o) (s_txn n) db = Done (rs, t) -> rs = kOk ->
  session_ok (cfs (versions_ db)) H (last_of db) (mkSession t (s_ops n ++ [o]) (s_reads n)).
Proof.
  intros Hu Hid Hn Hup ->. unfold update in Hup.
  destruct (TryLock _ _ _ _ _ _ _) as [[rs1 t1]| |] eqn:El; cbn [obind] in Hup; [|done..].
  assert (Hn1 : session_ok (cfs (versions_ db)) H (last_of db) (mkSession t1 (s_ops n) (s_reads n))).
  { destruct validate; [by eapply TryLock_session|]. injection El as <- <-. by destruct n. }
  destruct (ok_spec rs1) as [->|]; [|by injection Hup as -> ->].
  destruct Hu as (Hf & _). unfold handle_id in Hup. cbn [h_impl] in Hup. rewrite Hf in Hup. cbn [ofopt obind] in Hup. rewrite <- Hid in Hup.
  destruct (AddOrUpdate _ _ _ _ _ _ _) as [w'| |] eqn:Ea; cbn [obind] in Hup; [|done..]. injection Hup as <-.
  destruct Hn1 as [Hb Hs Ht Hq Hr]. split; cbn in *; [|done..].
  rewrite (AddOrUpdate_batch _ _ _ _ Ea), Hb. unfold batch_of. by rewrite fold_left_app.
Qed.

(** What [Get] answers after the key has been locked. *)
Lemma read_session (db : DB) H n i f key info x :
  ready db -> db_holds db H -> is_u 56 (last_of db) ->
  usable db i f key -> tracked (txn_keys_ (s_txn n)) (cf_id f) key info ->
  RawGet comparator freed (cf_id f) key (write_batch_ (s_txn n)) = Done (inl kNotFound) ->
  txn_Get cache_get comparator freed None (mkCFHandle true i) key (s_txn n) db = Done x ->
  session_ok (cfs (versions_ db)) H (last_of db) n ->
  session_ok (cfs (versions_ db)) H (last_of db) (mkSession (s_txn n) (s_ops n) ((i, key, x) :: s_reads n)).
Proof.
  intros Hr Hdb Hl (Hf & Hd & Hi & Hk) Hti Hraw Hget [Hb Hs Ht Hq Hrd]. unfold txn_Get, handle_id in Hget. cbn [h_impl] in Hget.
  rewrite Hf in Hget. cbn [ofopt obind] in Hget. rewrite Hraw in Hget. cbn [obind] in Hget.
  destruct (rd_tables _ Hr i f Hf) as (tb & Htb & _).
  destruct (db_Get_answers cache_get contents db H None i f tb key Hdb Hf Htb Hd Hl Hk) as (r & Eg & Ha).
  rewrite Eg in Hget. injection Hget as <-. split; cbn; [done..|].
  intros j k y [[= -> -> ->]|Hy]%elem_of_cons; [|by apply Hrd].
  exists (cf_id f), info. split_and!; [done..|]. intros _. by exists r.
Qed.

(** A write adds newer records only. *)
Lemma abstract_write_grown s os sn H last :
  last < sn -> grown H last (abstract_write s os sn H) (sn - 1 + zlen os).
Proof.
  revert sn H last. induction os as [|o os IH]; intros sn H last Hlt; cbn [abstract_write].
  - rewrite zlen_nil. split_and!; [lia | done | auto].
  - rewrite zlen_cons. set (H1 := match family_of s o with Some i => prepend i (op_put sn o) H | None => H end).
    destruct (IH (sn + 1) H1 sn ltac:(lia)) as (Hl & Hsub & Hnew).
    assert (Hp : forall i p, p ∈ H1 i -> p ∈ H i \/ p_version p = sn).
    { intros i p. unfold H1, prepend. destruct (family_of s o) as [j|]; [|auto]. destruct (decide (i = j)); [|auto].
      intros [->|Hp]%elem_of_cons; [right; by destruct o | by left]. }
    split_and!; [lia | |].
    + intros i p Hpi. apply Hsub. unfold H1, prepend. destruct (family_of s o) as [j|]; [|done]. destruct (decide (i = j)); [by right | done].
    + intros i p Hpi. destruct (Hnew i p Hpi) as [Hpi'|]; [|right; lia]. destruct (Hp i p Hpi'); [by left | right; lia].
Qed.

Lemma fits_last os (db : DB) : fits os db -> is_u 56 (last_of db + zlen os).
Proof. intros (_ & _ & Hl0 & Hl). pose proof (zlen_nonneg os). unfold is_u. lia. Qed.

(** The sessions of a system whose database and records have moved on. *)
Lemma sessions_later (m : gmap nat session) s s' H H' last last' :
  same_directory s s' -> grown H last H' last' ->
  map_Forall (fun _ n => session_ok s H last n) m -> map_Forall (fun _ n => session_ok s' H' last' n) m.
Proof. intros Hd Hg Hm k n Hn. eapply session_later; [done..|]. by apply (Hm k). Qed.

Lemma set_session_ok n s sy :
  system_ok sy -> session_ok (cfs (versions_ (sy_db sy))) (sy_hist sy) (last_of (sy_db sy)) s -> system_ok (set_session n s sy).
Proof. intros [Hr Hh Hl Hs] Hn. split; [done..|]. by apply map_Forall_insert_2. Qed.

Lemma commit_ok n s t db rs sy :
  system_ok sy -> sy_sessions sy !! n = Some s -> fits (s_ops s) (sy_db sy) -> commit_of (s_txn s) (sy_db sy) = Done (rs, t, db) ->
  verdict rs (conflict (cfs (versions_ (sy_db sy))) (sy_hist sy) (txn_keys_ (s_txn s))) /\
  ready db /\ cfs (versions_ db) = cfs (versions_ (sy_db sy)) /\
  (if ok rs then t = set_state COMMITED (txn_Clear (s_txn s)) else t = s_txn s) /\
  let H' := if ok rs then abstract_write (cfs (versions_ (sy_db sy))) (s_ops s) (last_of (sy_db sy) + 1) (sy_hist sy) else sy_hist sy in
  db_holds db H' /\ is_u 56 (last_of db) /\ grown (sy_hist sy) (last_of (sy_db sy)) H' (last_of db).
Proof.
  intros [Hr Hh Hl Hs] Hn Hf Hc. pose proof (Hs n s Hn) as Hso.
  destruct (Commit_verdict (s_txn s) (s_ops s) (sy_db sy) (sy_hist sy) Hr Hh (so_trackable _ _ _ _ Hso) (so_batch _ _ _ _ Hso) Hf)
    as (rs' & t' & db' & E1 & Hv & Hr' & Hc' & Hb). rewrite Hc in E1. injection E1 as <- <- <-.
  split_and!; [done..| |]; destruct (ok rs); destruct Hb as (Ht & Hlb & Hhb); try done.
  - cbn zeta. rewrite Hlb. split_and!; [done | by apply fits_last |].
    pose proof (abstract_write_grown (cfs (versions_ (sy_db sy))) (s_ops s) (last_of (sy_db sy) + 1) (sy_hist sy) (last_of (sy_db sy)) ltac:(lia)) as Hg.
    by replace (last_of (sy_db sy) + 1 - 1) with (last_of (sy_db sy)) in Hg by lia.
  - cbn zeta. rewrite Hlb. split_and!; [done | done | apply grown_refl].
Qed.

Lemma same_directory_eq s s' : s' = s -> same_directory s s'.
Proof. by intros ->. Qed.

Lemma system_step_ok sy sy' : step sy sy' -> system_ok sy -> system_ok sy'.
Proof.
  intros Hst Hok. pose proof Hok as [Hr Hh Hl Hs]. destruct Hst.
  - apply set_session_ok; [done|]. apply BeginTransaction_session. destruct (sy_sessions sy !! n) as [s|] eqn:En; [by apply (Hs n)|done].
  - apply set_session_ok; [done|]. eapply TryLock_session; [done | by eapply Hs | done].
  - apply set_session_ok; [done|]. eapply read_session; [done..|]. by eapply Hs.
  - apply set_session_ok; [done|]. eapply update_session; [done | done | by eapply Hs | done | done].
  - apply set_session_ok; [done|]. apply Clear_session. by eapply Hs.
  - destruct (commit_ok n s t db kOk sy) as (_ & Hr' & Hc & -> & Hh' & Hl' & Hg); [done..|].
    change (ok kOk) with true in Hh', Hg. cbn iota in Hh', Hg. split; [done..|]. cbn [sy_db sy_hist sy_sessions].
    apply map_Forall_insert_2.
    + apply (Clear_session _ _ _ s). eapply session_later; [by apply same_directory_eq | exact Hg | by eapply Hs].
    + eapply sessions_later; [by apply same_directory_eq | exact Hg | exact Hs].
  - destruct (commit_ok n s t db rs sy) as (_ & Hr' & Hc & Ht & Hh' & Hl' & Hg); [done..|].
    assert (Hrs : ok rs = false) by (unfold ok; by apply bool_decide_eq_false). rewrite Hrs in *. subst t.
    split; [done..|]. cbn [sy_db sy_hist sy_sessions]. rewrite insert_id by (by destruct s).
    eapply sessions_later; [by apply same_directory_eq | exact Hg | exact Hs].
  - destruct (WriteImpl_holds path options needs_compaction cache_get contents sync os (sy_db sy) (sy_hist sy)) as (db' & E1 & Hr' & Hc & Hlb & Hh');
      [done | done | apply H.. |]. rewrite H0 in E1. injection E1 as <-.
    split; [done | done | cbn; rewrite Hlb; by apply fits_last |]. cbn [sy_db sy_hist sy_sessions].
    eapply sessions_later; [by apply same_directory_eq | | exact Hs]. rewrite Hlb.
    pose proof (abstract_write_grown (cfs (versions_ (sy_db sy))) os (last_of (sy_db sy) + 1) (sy_hist sy) (last_of (sy_db sy)) ltac:(lia)) as Hg.
    by replace (last_of (sy_db sy) + 1 - 1) with (last_of (sy_db sy)) in Hg by lia.
  - split; cbn [sy_db sy_hist sy_sessions]; [done | done | congruence |].
    eapply sessions_later; [split; done | | exact Hs]. replace (last_of db) with (last_of (sy_db sy)). apply grown_refl.
Qed.

Lemma steps_ok sy sy' : rtc step sy sy' -> system_ok sy -> system_ok sy'.
Proof. induction 1; intros Hok; [done|]. eauto using system_step_ok. Qed.

(** [GetForUpdate] is a lock followed by a read, unless the transaction reads
    its own update. *)
Lemma GetForUpdate_steps sy n s i f key exclusive x t :
  system_ok sy -> sy_sessions sy !! n = Some s -> usable (sy_db sy) i f key ->
  RawGet comparator freed (cf_id f) key (write_batch_ (s_txn s)) = Done (inl kNotFound) ->
  GetForUpdate cache_get comparator freed None (mkCFHandle true i) key exclusive true (s_txn s) (sy_db sy) = Done (x, t) ->
  rtc step sy (set_session n (mkSession t (s_ops s) ((i, key, x) :: s_reads s)) sy).
Proof.
  intros Hok Hn Hu Hraw. unfold GetForUpdate. cbn [negb andb]. pose proof (so_snapshot _ _ _ _ (sk_sessions _ Hok n s Hn)) as Hsn.
  assert (El : TryLock (mkCFHandle true i) key true exclusive true (s_txn s) (sy_db sy) =
    Done (kOk, set_keys (TrackKey (cf_id f) key (last_of (sy_db sy)) true exclusive (txn_keys_ (s_txn s))) (s_txn s))).
  { destruct Hu as (Hf & _). unfold TryLock, handle_id. cbn [negb h_impl]. by rewrite Hf, Hsn. }
  rewrite El. cbn [obind]. change (ok kOk) with true. cbn iota. set (t1 := set_keys _ _) in *.
  destruct (txn_Get _ _ _ _ _ _ _ _) as [x'| |] eqn:Eg; cbn [obind]; [|done..]. intros [= -> <-].
  eapply rtc_l; [by eapply (step_lock sy n s i f key true exclusive t1)|].
  assert (Htr : exists info, tracked (txn_keys_ t1) (cf_id f) key info).
  { cbn. unfold tracked, TrackKey. eexists _, _. split; apply lookup_insert_eq. }
  destruct Htr as [info Htr]. apply rtc_once.
  assert (Eset : set_session n (mkSession t1 (s_ops s) ((i, key, x) :: s_reads s)) sy =
    set_session n (mkSession t1 (s_ops s) ((i, key, x) :: s_reads s)) (set_session n (mkSession t1 (s_ops s) (s_reads s)) sy)).
  { unfold set_session. cbn [sy_db sy_hist sy_sessions]. by rewrite insert_insert_eq. }
  rewrite Eset. apply (step_read _ n (mkSession t1 (s_ops s) (s_reads s)) i f key info x); [apply lookup_insert_eq | done..].
Qed.

(** C3: However the operations of transactions, writes of others and
    background work have interleaved, a commit that succeeds leaves the
    database as if the transaction had run alone at that moment: every read of
    a key that it had locked before reading it is what a read would answer just
    before the commit, no key it has locked, to read or to write, has a record
    newer than the lock, and the families hold what they held with the updates
    of the transaction, in their order and under the next versions, in front.
    (In the steps the reads are of keys that the transaction has not updated
    itself, a commit and a write are one step each, families are neither created
    nor dropped, and the background work leaves the records as they are.) *)
Theorem Commit_serializes sy sy' n s t db :
  system_ok sy -> rtc step sy sy' -> sy_sessions sy' !! n = Some s -> fits (s_ops s) (sy_db sy') ->
  commit_of (s_txn s) (sy_db sy') = Done (kOk, t, db) ->
  (forall i key x, (i, key, x) ∈ s_reads s -> current_answer (sy_hist sy') (last_of (sy_db sy')) i key x) /\
  ~ conflict (cfs (versions_ (sy_db sy'))) (sy_hist sy') (txn_keys_ (s_txn s)) /\
  db_holds db (abstract_write (cfs (versions_ (sy_db sy'))) (s_ops s) (last_of (sy_db sy') + 1) (sy_hist sy')).
Proof.
  intros Hok Hst Hn Hf Hc. pose proof (steps_ok _ _ Hst Hok) as Hok'.
  destruct (commit_ok n s t db kOk sy' Hok' Hn Hf Hc) as ([[_ Hno]|[? _]] & _ & _ & _ & Hh & _); [|done].
  split_and!; [| exact Hno | exact Hh]. intros i key x Hx.
  destruct (so_reads _ _ _ _ (sk_sessions _ Hok' n s Hn) i key x Hx) as (cfid & info & Hi & Hti & Hcur).
  apply Hcur. intros Hnew. apply Hno. by exists cfid, key, info, i.
Qed.
End spec.

(** ** A transaction beside a write *)

Import DBImpl.Sample.

Module Beside.
Definition cmp_of (_ : Z) : bytes -> bytes -> Z := comparator_Compare sample_options.
Definition order_f (m : TxnKeyMaps) : list (Z * TxnKeyMap) := map_to_list m.
Definition order_k (m : TxnKeyMap) : list (bytes * TxnKeyInfo) := map_to_list m.
Definition here : ColumnFamilyHandle := mkCFHandle true 0.

(** The key is read for update and not found, then put. *)
Definition begun : TransactionBase := BeginTransaction true 0 None.
Definition reading : TransactionBase :=
  match GetForUpdate no_files cmp_of Some None here [97] true true begun sample_created with Done (_, t) => t | _ => begun end.
Definition putting : TransactionBase :=
  match txn_Put cmp_of [] here [97] [9] reading sample_created with Done (_, t) => t | _ => begun end.

(** Another write, of the key [key], comes between. *)
Definition later (key : bytes) : DBImpl bytes IO.MemFile OrderedTable := write [OpPut 0 key [5]] sample_created.

Definition commit (key : bytes) : outcome (error * TransactionBase * DBImpl bytes IO.MemFile OrderedTable) :=
  Commit [47] sample_options no_compaction no_files order_f order_k putting (later key).
End Beside.

(** The commit is busy when the other write is of the key that was read. *)
Example write_between :
  match Beside.commit [98] with Done (rs, _, _) => rs | _ => kEOF end = kOk /\
  match Beside.commit [97] with Done (rs, _, _) => rs | _ => kEOF end = kBusy.
Proof. split; vm_compute; reflexivity. Qed.

Module Beside_ok.
Import Beside.

Lemma opened db : families (cfs (versions_ db)) = families (cfs (versions_ sample_created)) -> column_family_impls_ (cfs (versions_ db)) =
    column_family_impls_ (cfs (versions_ sample_created)) ->
  exists f, usable (E := bytes) (F := IO.MemFile) (T := OrderedTable) db 0 f [97] /\ cf_id f = 0.
Proof.
  intros Ef Ei. unfold usable, GetColumnFamily. rewrite Ef, Ei.
  assert (H : match families (cfs (versions_ sample_created)) !! 0%nat with
    | Some f => negb (dropped f) && (cf_id f =? 0) | None => false end = true) by (vm_compute; reflexivity).
  destruct (families (cfs (versions_ sample_created)) !! 0%nat) as [f|]; [|done]. apply andb_true_iff in H as [Hd%negb_true_iff Hi%Z.eqb_eq].
  exists f. rewrite Hi. split_and!; [done | done | vm_compute; reflexivity | done | done].
Qed.

Definition start : system (E := bytes) (F := IO.MemFile) (T := OrderedTable) := mkSystem sample_created (fun _ => []) ∅.

Definition put_op : op := OpPut 0 [97] [9].
Definition side_op : op := OpPut 0 [98] [5].

(** The transaction has read and put, and another key has been written. *)
Definition halfway : system := set_session 0 (mkSession putting [put_op] [(0%nat, [97], inl kNotFound)]) start.
Definition finish : system :=
  mkSystem (later [98]) (abstract_write (cfs (versions_ sample_created)) [side_op] (1 + 1) (fun _ => [])) (sy_sessions halfway).

#[local] Abbreviation step := (step [47] sample_options no_compaction no_files no_contents order_f order_k cmp_of Some).
#[local] Abbreviation system_ok := (system_ok no_files no_contents).

Lemma start_ok : system_ok start.
Proof.
  destruct sample_created_ok as (_ & Hr & Hh). split; [exact Hr | exact Hh | | done].
  change (sy_db start) with sample_created. rewrite sample_last. by vm_compute.
Qed.

Lemma order_f_perm m : order_f m ≡ₚ map_to_list m.
Proof. done. Qed.
Lemma order_k_perm m : order_k m ≡ₚ map_to_list m.
Proof. done. Qed.

Lemma fits_one (o : op) (db : DBImpl bytes IO.MemFile OrderedTable) :
  op_ok o -> zlen (record o) < 2 ^ 40 -> last_sequence_number (versions_ db) <= 10 -> 0 <= last_sequence_number (versions_ db) ->
  op_cfid o = 0 -> zlen (op_key o) < 2 ^ 32 ->
  match default_cfd_ (cfs (versions_ db)) with Some i => bool_decide (is_Some (families (cfs (versions_ db)) !! i)) | None => false end = true ->
  fits [o] db.
Proof.
  intros Ho Hlen Hl Hl0 Hid Hk Hd. split_and!; [split_and! | | done |].
  - by repeat constructor.
  - cbn [map concat]. rewrite app_nil_r. unfold in_memory. lia.
  - by vm_compute.
  - apply Forall_cons_2; [|constructor]. unfold op_known, family_of. rewrite Hid. cbn [Z.eqb].
    destruct (default_cfd_ _) as [i|]; [|done]. apply bool_decide_eq_true in Hd as [f Hf]. exists i, f. split_and!; [done | done | by destruct o].
  - change (zlen [o]) with 1. lia.
Qed.

Lemma started : rtc step start halfway.
Proof.
  eapply rtc_l; [apply (step_begin _ _ _ _ _ _ _ _ _ start 0 true 0)|]. cbn [start sy_sessions]. rewrite lookup_empty. cbn [fmap option_fmap option_map].
  change (BeginTransaction true 0 None) with begun. set (sy1 := set_session 0 (mkSession begun [] []) start).
  assert (Hok : system_ok sy1).
  { apply set_session_ok; [exact start_ok|]. by apply New_session_ok. }
  destruct (opened sample_created eq_refl eq_refl) as (f & Hu & Hf).
  assert (Hn : sy_sessions sy1 !! 0%nat = Some (mkSession begun [] [])) by apply lookup_insert_eq.
  etrans.
  { eapply (GetForUpdate_steps _ _ _ no_files no_contents order_f order_k cmp_of Some sy1 0 (mkSession begun [] []) 0 f [97] true
      (inl kNotFound) reading Hok Hn Hu); [by rewrite Hf | vm_compute; reflexivity]. }
  set (sy2 := set_session 0 (mkSession reading [] [(0%nat, [97], inl kNotFound)]) sy1).
  assert (Hn2 : sy_sessions sy2 !! 0%nat = Some (mkSession reading [] [(0%nat, [97], inl kNotFound)])) by apply lookup_insert_eq.
  apply rtc_once. assert (Eh : halfway = set_session 0 (mkSession putting ([] ++ [put_op]) [(0%nat, [97], inl kNotFound)]) sy2).
  { unfold halfway, sy2, sy1, set_session. cbn [sy_db sy_hist sy_sessions start app]. by rewrite !insert_insert_eq. }
  rewrite Eh. eapply (step_update _ _ _ _ _ _ _ _ _ sy2 0 (mkSession reading [] _) 0 f put_op true [] putting Hn2 Hu); [by rewrite Hf|].
  vm_compute. reflexivity.
Qed.

Lemma finished : rtc step start finish.
Proof.
  eapply rtc_r; [exact started|].
  assert (Ef : finish = mkSystem (later [98]) (abstract_write (cfs (versions_ (sy_db halfway))) [side_op]
    (last_sequence_number (versions_ (sy_db halfway)) + 1) (sy_hist halfway)) (sy_sessions halfway)).
  { unfold finish. change (sy_db halfway) with sample_created. by rewrite sample_last. }
  rewrite Ef. clear Ef. apply (step_write _ _ _ _ _ _ _ _ _ halfway true [side_op]).
  - apply fits_one; by vm_compute.
  - change (sy_db halfway) with sample_created. unfold later. fold side_op. refine (write_ok [side_op] sample_created _). vm_compute. reflexivity.
Qed.

Lemma late_open : exists f, usable (later [98]) 0 f [97] /\ cf_id f = 0.
Proof. apply opened; vm_compute; reflexivity. Qed.

Lemma cmp_of_laws cfid : ComparatorLaws (cmp_of cfid).
Proof. exact (proj1 sample_options_ok). Qed.

Lemma putting_indexed : indexed cmp_of [put_op] (write_batch_ putting).
Proof.
  destruct (add_all_indexed cmp_of cmp_of_laws [] [put_op] [] NewWriteBatchWithIndex (New_indexed cmp_of)) as (w & Ew & Hw).
  - by repeat constructor.
  - by vm_compute.
  - assert (E1 : add_all cmp_of [] [put_op] NewWriteBatchWithIndex = Done (write_batch_ putting)) by (vm_compute; reflexivity).
    rewrite E1 in Ew. apply Done_inj in Ew. rewrite Ew. exact Hw.
Qed.

Lemma one_careful : careful cmp_of [put_op].
Proof.
  intros l o r Hs. right. destruct l as [|x l]; [by intros ? ?%not_elem_of_nil|]. injection Hs as _ Hs. by destruct l.
Qed.

Lemma finish_fits : fits [put_op] (sy_db finish).
Proof. apply fits_one; by vm_compute. Qed.
End Beside_ok.

Lemma Commit_serializes_witness :
  exists t db, Beside.commit [98] = Done (kOk, t, db) /\
    current_answer (sy_hist Beside_ok.finish) (last_sequence_number (versions_ (Beside.later [98]))) 0 [97] (inl kNotFound).
Proof.
  destruct (match Beside.commit [98] with Done r => Some r | _ => None end) as [[[rs t] db]|] eqn:Ec.
  2:{ exfalso. assert (H : bool_decide (is_Some (match Beside.commit [98] with Done r => Some r | _ => None end)) = true)
        by (vm_compute; reflexivity). rewrite Ec in H. discriminate H. }
  assert (Hc : Beside.commit [98] = Done (rs, t, db)) by (destruct (Beside.commit [98]); [by injection Ec as -> | done | done]).
  assert (rs = kOk) as -> by (pose proof (proj1 write_between) as H; by rewrite Hc in H).
  exists t, db. split; [exact Hc|].
  destruct (Commit_serializes [47] sample_options no_compaction no_files no_contents Beside.order_f Beside.order_k
    Beside_ok.order_f_perm Beside_ok.order_k_perm Beside.cmp_of Some Beside_ok.start Beside_ok.finish 0
    (mkSession Beside.putting [Beside_ok.put_op] [(0%nat, [97], inl kNotFound)]) t db Beside_ok.start_ok Beside_ok.finished) as (Hr & _).
  - apply lookup_insert_eq.
  - exact Beside_ok.finish_fits.
  - exact Hc.
  - apply Hr. by left.
Defined.

Lemma Commit_decides_witness :
  exists rs t db, Beside.commit [98] = Done (rs, t, db) /\
    verdict rs (conflict (cfs (versions_ (Beside.later [98]))) (sy_hist Beside_ok.finish) (txn_keys_ Beside.putting)).
Proof.
  pose proof (steps_ok _ _ _ no_files no_contents Beside.order_f Beside.order_k
    Beside_ok.order_f_perm Beside_ok.order_k_perm Beside.cmp_of Some _ _ Beside_ok.finished Beside_ok.start_ok) as [Hr Hh _ Hs].
  pose proof (Hs 0%nat (mkSession Beside.putting [Beside_ok.put_op] [(0%nat, [97], inl kNotFound)]) (lookup_insert_eq _ _ _)) as Hso.
  destruct (Commit_decides [47] sample_options no_compaction no_files no_contents Beside.order_f Beside.order_k
    Beside_ok.order_f_perm Beside_ok.order_k_perm Beside.putting [Beside_ok.put_op] (sy_db Beside_ok.finish) (sy_hist Beside_ok.finish)
    Hr Hh (so_trackable _ _ _ _ Hso) (so_batch _ _ _ _ Hso) Beside_ok.finish_fits) as (rs & t & db & E1 & Hv & _).
  exists rs, t, db. exact (conj E1 Hv).
Defined.

Lemma txn_Get_answers_witness :
  exists r, txn_Get no_files Beside.cmp_of Some None Beside.here [97] Beside.putting (Beside.later [98]) = Done r /\ r = inr (Some [9]).
Proof.
  pose proof (steps_ok _ _ _ no_files no_contents Beside.order_f Beside.order_k
    Beside_ok.order_f_perm Beside_ok.order_k_perm Beside.cmp_of Some _ _ Beside_ok.finished Beside_ok.start_ok) as [Hr Hh Hl _].
  destruct (Beside_ok.late_open) as (f & Hu & Hf).
  destruct (txn_Get_answers no_files no_contents Beside.cmp_of Some Beside.putting [Beside_ok.put_op] (Beside.later [98])
    (sy_hist Beside_ok.finish) 0 f [97] Beside_ok.cmp_of_laws (fun s => eq_refl) Hr Hh Hl Hu Beside_ok.putting_indexed Beside_ok.one_careful) as (r & E1 & H).
  rewrite Hf in H. exists r. split; [exact E1 | exact H].
Defined.
