(* ===== verification/DBOpen.v ===== *)
(** * DBOpen

    src/db/db-impl.cc: opening a database again ([Recovery]), its column
    families, and the deletion of files it no longer needs.

    [Recovery_after_writes] is about a database whose families have all their
    records in the newest log; the last part shows what goes wrong with more
    than one log. *)

From S2P Require Import Prelude Slice Keys Entries IO Files WriteBatch WAL Patch Version VersionSet MemoryTable DBImpl DBSpec.

(** Reading a whole file, and opening one to append to it; a random-access
    file is its bytes. *)
Class FileOps (E F : Type) := {
  NewRandomAccessFile : bytes -> E -> error + bytes;
  AppendWritableFile : bytes -> E -> (error + F) * E;
}.

(** The numbers of the logs to redo, from those of the families and the
    [history] of the manifest: the logs of the families and all newer than
    them; and the newest. *)
Definition redo_numbers (cfds : list ColumnFamilyImpl) (history : gset Z) : gset Z * Z :=
  let numbers := list_to_set (map redo_log_number cfds) in
  let max_number := foldl (fun m f => if m <? redo_log_number f then redo_log_number f else m) 0 cfds in
  let newer := filter (fun n => max_number < n) history in
  (numbers ∪ newer, foldl Z.max max_number (elements newer)).

(** The order of [std::set]. *)
Definition ascending (s : gset Z) : list Z := merge_sort Z.le (elements s).

Section db_open.
Context {E F T : Type} `{!WritableFile F, !EnvOps E F, !DirOps E, !FileOps E F, !MemTable T}.
Context (abs_db_path_ : bytes) (options_ : ColumnFamilyOptions).
Context (create_missing_column_families : bool).

#[local] Abbreviation DB := (DBImpl E F T).

(** [FileReader::ReadAll] *)
Definition ReadAllFile (name : bytes) (env : E) : error + bytes :=
  match NewRandomAccessFile name env with
  | inl rs => inl rs
  | inr file => let '(rs, result) := ra_Read file 0 (zlen file) in if ok rs then inr result else inl rs
  end.

(** [GetTotalWalSize]: of all files of the directory, as it is. *)
Fixpoint total_size (names : list bytes) (env : E) (size : Z) : error + Z :=
  match names with
  | [] => inr size
  | name :: names =>
    match GetFileSize (abs_db_path_ ++ [47] ++ name) env with
    | inl rs => inl rs
    | inr n => total_size names env (wrap 64 (size + n))
    end
  end.
Definition GetTotalWalSize (env : E) : error + Z :=
  match GetChildren abs_db_path_ env with inl rs => inl rs | inr children => total_size children env 0 end.

Definition set_wal_size (n : Z) (db : DB) : DB :=
  mkDB (env_ db) (versions_ db) (tables_ db) (db_logger_ db) (log_file_number_ db) (flush_request_ db) (bkg_active_ db)
    (bkg_error_ db) (shutting_down_ db) n.

(** [InternalNewColumnFamily] and the id it gives. *)
Definition InternalNewColumnFamily (name : bytes) (options : ColumnFamilyOptions) (db : DB) : outcome (error * Z * DB) :=
  match GetColumnFamilyByName name (cfs (versions_ db)) with
  | Some _ => Done (kCorruption, 0, db)
  | None =>
    let '(new_id, s) := NextColumnFamilyId (cfs (versions_ db)) in
    let db := set_families_of s db in
    (do! (rs, v, e) := LogAndApply abs_db_path_ options (AddColumnFamily name new_id (comparator_Name options) NewVersionPatch)
       (env_ db) (versions_ db) in
     Done (rs, new_id, set_env e (set_versions v db)))%out
  end.

(** [NewColumnFamily] and the family. *)
Definition db_NewColumnFamily (name : bytes) (options : ColumnFamilyOptions) (db : DB) : outcome (error * option nat * DB) :=
  (do! (rs, cfid, db) := InternalNewColumnFamily name options db in
   if negb (ok rs) then Done (rs, None, db) else
   do! i := ofopt (GetColumnFamily cfid (cfs (versions_ db))) in
   do! (rs, db) := Install abs_db_path_ i db in
   if negb (ok rs) then Done (rs, None, db) else
   Done (rs, Some i, set_families_of (update_family i (set_redo_log_number (log_file_number_ db)) (cfs (versions_ db))) db))%out.

(** [DropColumnFamily], once no background work is in progress for it; then
    [Uninstall]. *)
Definition DropColumnFamilyOf (cf : option ColumnFamilyHandle) (db : DB) : outcome (error * DB) :=
  match cf with
  | None => Done (kCorruption, db)
  | Some handle =>
    (do! cfd := ofopt (families (cfs (versions_ db)) !! h_impl handle) in
     if cf_id cfd =? 0 then Done (kCorruption, db)
     else if negb (h_mine handle) then Done (kCorruption, db)
     else if dropped cfd then Done (kCorruption, db) else
     do! (rs, v, e) := LogAndApply abs_db_path_ (cf_options cfd) (DropColumnFamily (cf_id cfd) NewVersionPatch)
       (env_ db) (versions_ db) in
     let db := set_env e (set_versions v db) in
     if negb (ok rs) then Done (rs, db) else
     let '(rs, e) := DeleteFile (GetDir abs_db_path_ cfd (env_ db)) true (env_ db) in
     Done (rs, set_env e db))%out
  end.

Definition ReleaseColumnFamily (cf : option ColumnFamilyHandle) : error :=
  match cf with None => kOk | Some handle => if h_mine handle then kOk else kCorruption end.

Definition GetAllColumnFamilies (db : DB) : list ColumnFamilyHandle :=
  map (mkCFHandle true)
    (filter (fun i => match families (cfs (versions_ db)) !! i with Some f => negb (dropped f) | None => false end = true)
       (seq 0 (length (families (cfs (versions_ db)))))).

(** The families that the options have and the manifest does not. *)
Fixpoint add_missing (opts : list (bytes * ColumnFamilyOptions)) (db : DB) : outcome (error * DB) :=
  match opts with
  | [] => Done (kOk, db)
  | (name, o) :: opts =>
    (do! (rs, _, db) := InternalNewColumnFamily name o db in
     if ok rs then add_missing opts db else Done (rs, db))%out
  end.

Fixpoint install_missing (cfds : list nat) (db : DB) : outcome (error * DB) :=
  match cfds with
  | [] => Done (kOk, db)
  | i :: cfds =>
    match tables_ db !! i with
    | Some _ => install_missing cfds db
    | None =>
      (do! (rs, db) := Install abs_db_path_ i db in
       if ok rs then install_missing cfds db else Done (rs, db))%out
    end
  end.

Fixpoint redo_all (numbers : list Z) (max_number update : Z) (db : DB) : outcome (error * DB * Z) :=
  match numbers with
  | [] => Done (kOk, db, update)
  | number :: numbers =>
    (do! (rs, db, update) := Redo abs_db_path_ number update (negb (max_number =? number)) db in
     if ok rs then redo_all numbers max_number update db else Done (rs, db, update))%out
  end.

(** [Recovery]; the new [LogWriter] begins a block wherever the old log ends. *)
Definition db_Recovery (desc : list ColumnFamilyDescriptor) (db : DB) : outcome (error * DB) :=
  match ReadAllFile (CurrentFileName abs_db_path_) (env_ db) with
  | inl rs => Done (rs, db)
  | inr result =>
    if negb (IsNumber result) then Done (kCorruption, db) else
    let manifest_file_number := wrap 64 (atoll result) in
    (do! (rs, v, history) := Recovery abs_db_path_ (cf_opts desc) manifest_file_number ∅ (env_ db) (versions_ db) in
     let db := set_versions v db in
     if negb (ok rs) then Done (rs, db) else
     do! (rs, db) :=
       if create_missing_column_families then
         add_missing (in_order (foldl (fun m f => delete (cf_name f) m) (cf_opts desc) (families (cfs v)))) db
       else Done (kOk, db) in
     if negb (ok rs) then Done (rs, db) else
     do! (rs, db) := install_missing (seq 0 (length (families (cfs (versions_ db))))) db in
     if negb (ok rs) then Done (rs, db) else
     let '(numbers, max_number) := redo_numbers (families (cfs (versions_ db))) history in
     do! (rs, db, update) := redo_all (ascending numbers) max_number 0 db in
     if negb (ok rs) then Done (rs, db) else
     let log_file_number := vs_redo_log_number (versions_ db) in
     let db := set_versions (UpdateSequenceNumber update (versions_ db)) (set_log (db_logger_ db) log_file_number db) in
     match AppendWritableFile (LogFileName abs_db_path_ log_file_number) (env_ db) with
     | (inl rs, e) => Done (rs, set_env e db)
     | (inr f, e) =>
       let db := set_env e (set_log (Some (NewLogWriter f kDefaultBlockSize)) log_file_number db) in
       match GetTotalWalSize (env_ db) with
       | inl rs => Done (rs, db)
       | inr size => Done (kOk, set_wal_size size db)
       end
     end)%out
  end.

(** [Open], up to the handles it returns. *)
Definition Open (create_if_missing error_if_exists : bool) (desc : list ColumnFamilyDescriptor) (db : DB) :
    outcome (error * DB) :=
  if negb (ok (FileExists (CurrentFileName abs_db_path_) (env_ db))) then
    if negb create_if_missing then Done (kCorruption, db) else NewDB abs_db_path_ options_ desc db
  else if error_if_exists then Done (kCorruption, db) else db_Recovery desc db.

(** *** DeleteObsoleteFiles *)

(** The entries of a directory by number, for the kinds wanted. *)
Definition collect (kinds : list Kind) (dir : bytes) (children : list bytes) (cleanup : gmap Z bytes) : gmap Z bytes :=
  foldl (fun m name =>
    let '(kind, number) := ParseName name in
    if bool_decide (kind ∈ kinds) then <[number := dir ++ [47] ++ name]> m else m) cleanup children.

(** The order of [std::map]. *)
Definition number_le (a b : Z * bytes) : Prop := fst a <= fst b.
#[global] Instance number_le_dec a b : Decision (number_le a b).
Proof. unfold number_le. apply _. Defined.

(** The files that are deleted for family [i]; a directory that cannot be
    listed leaves [children] as it was. *)
Definition obsolete (i : nat) (db : DB) : outcome (gmap Z bytes) :=
  match GetChildren abs_db_path_ (env_ db) with
  | inl _ => Done ∅
  | inr children =>
    (do! cfd := ofopt (families (cfs (versions_ db)) !! i) in
     let cleanup := collect [kLog; kManifest] abs_db_path_ children ∅ in
     let cleanup := delete (manifest_file_number (versions_ db)) (delete (log_file_number_ db) cleanup) in
     let cleanup := foldl (fun m f => delete (redo_log_number f) m) cleanup (families (cfs (versions_ db))) in
     let dir := GetDir abs_db_path_ cfd (env_ db) in
     let children := match GetChildren dir (env_ db) with inr children => children | inl _ => children end in
     let cleanup := collect [kSST_Table; kS1T_Table; kXMT_Table] dir children cleanup in
     Done (foldl (fun m f => delete (number f) m) cleanup (concat (map (level_files (current cfd)) (seq 0 kMaxLevel)))))%out
  end.

(** The results of the deletions are only logged.  [Invalidate] of the table
    cache is left out: the cache is no part of this state, and a reader that it
    forgets is made again from the file when it is asked for. *)
Definition DeleteObsoleteFiles (i : nat) (db : DB) : outcome DB :=
  obind (obsolete i db) (fun cleanup =>
    Done (set_env (foldl (fun e '(_, name) => snd (DeleteFile name false e)) (env_ db)
      (merge_sort number_le (map_to_list cleanup))) db)).
End db_open.

(** ** What is deleted *)

Section obsolete_files.
Context {E F T : Type} `{!DirOps E}.
Context (abs_db_path_ : bytes).

#[local] Abbreviation DB := (DBImpl E F T).

(** A file that may be deleted for the family [cfd]: a log that is neither
    written nor the first of a family, an old manifest, or a table that the
    current version of the family does not have. *)
Definition may_delete (db : DB) (cfd : ColumnFamilyImpl) (name : bytes) : Prop :=
  exists child kind n, ParseName child = (kind, n) /\
    Forall (fun f => number f <> n) (concat (map (level_files (current cfd)) (seq 0 kMaxLevel))) /\
    ((kind ∈ [kLog; kManifest] /\ name = abs_db_path_ ++ [47] ++ child /\ n <> log_file_number_ db /\
      n <> manifest_file_number (versions_ db) /\
      Forall (fun f => redo_log_number f <> n) (families (cfs (versions_ db)))) \/
     (kind ∈ [kSST_Table; kS1T_Table; kXMT_Table] /\ name = GetDir abs_db_path_ cfd (env_ db) ++ [47] ++ child)).

(** An entry of [collect] is an old one or one of the directory. *)
Lemma collect_spec kinds dir children m n name :
  collect kinds dir children m !! n = Some name ->
  m !! n = Some name \/ exists child kind, ParseName child = (kind, n) /\ kind ∈ kinds /\ name = dir ++ [47] ++ child.
Proof.
  unfold collect. revert m. induction children as [|c cs IH]; intros m; cbn [foldl]; [by left|]. intros H.
  destruct (ParseName c) as [k j] eqn:Ec. destruct (IH _ H) as [Hm|]; [|by right]. case_bool_decide; [|by left].
  destruct (decide (j = n)) as [->|Hne].
  - rewrite lookup_insert_eq in Hm. injection Hm as <-. right. by exists c, k.
  - rewrite lookup_insert_ne in Hm by done. by left.
Qed.

Lemma foldl_delete {A} (key : A -> Z) (l : list A) (m : gmap Z bytes) n name :
  foldl (fun m x => delete (key x) m) m l !! n = Some name -> m !! n = Some name /\ Forall (fun x => key x <> n) l.
Proof.
  revert m. induction l as [|x l IH]; intros m; cbn [foldl]; [by split|]. intros H.
  destruct (IH _ H) as [Hm Hl]. apply lookup_delete_Some in Hm as [Hne Hm]. split; [done|]. by apply Forall_cons_2.
Qed.

Lemma obsolete_spec i (db : DB) cfd m n name :
  families (cfs (versions_ db)) !! i = Some cfd -> obsolete abs_db_path_ i db = Done m -> m !! n = Some name ->
  may_delete db cfd name.
Proof.
  intros Hi. unfold obsolete. destruct (GetChildren abs_db_path_ (env_ db)) as [rs|children].
  { intros [= <-]. by rewrite lookup_empty. }
  rewrite Hi. cbn [ofopt obind]. intros [= <-] [Hm Hcur]%foldl_delete.
  apply collect_spec in Hm as [Hm|(child & kind & Hp & Hk & ->)].
  - apply foldl_delete in Hm as [Hm Hredo]. apply lookup_delete_Some in Hm as [Hman Hm].
    apply lookup_delete_Some in Hm as [Hlog Hm].
    apply collect_spec in Hm as [Hm|(child & kind & Hp & Hk & ->)]; [by rewrite lookup_empty in Hm|].
    exists child, kind, n. split_and!; [done..|]. left. by split_and!; [| |auto..].
  - exists child, kind, n. split_and!; [done..|]. by right.
Qed.

(** C19: The files that [DeleteObsoleteFiles] deletes, in the order of their
    numbers, are only old logs, old manifests and table files of the family
    that its current version does not have: never the log that is written, the
    log a family begins with, the current manifest, [CURRENT] or a table that
    is in use by the current version. *)
Theorem DeleteObsoleteFiles_safe i (db db' : DB) cfd :
  families (cfs (versions_ db)) !! i = Some cfd -> DeleteObsoleteFiles abs_db_path_ i db = Done db' ->
  exists names, Forall (may_delete db cfd) names /\
    db' = set_env (foldl (fun e name => snd (DeleteFile name false e)) (env_ db) names) db.
Proof.
  intros Hi. unfold DeleteObsoleteFiles. destruct (obsolete abs_db_path_ i db) as [m| |] eqn:Em; cbn [obind]; [|done..].
  intros [= <-]. set (l := merge_sort _ _). exists (map snd l). split.
  - apply Forall_forall. intros name (p & -> & Hp)%list_elem_of_fmap. unfold l in Hp.
    rewrite (merge_sort_Permutation number_le) in Hp. destruct p as [n name]. apply elem_of_map_to_list in Hp.
    by eapply obsolete_spec.
  - f_equal. generalize (env_ db). induction l as [|[n name] l IH]; intros e; [done|]. cbn [foldl map snd]. apply IH.
Qed.
End obsolete_files.

(** ** Opening again what was written *)

(** A directory that is made leaves the files as they were; the directory can
    be listed, its files have sizes, and logs can be appended to. *)
Class ReopenReliable (E F : Type) `{EnvOps E F, DirOps E, FileOps E F} : Prop := {
  make_keeps dir b name (env env' : E) rs :
    MakeDirectory dir b env = (rs, env') -> NewSequentialFile name env' = NewSequentialFile name env;
  list_ok dir (env : E) : exists names, GetChildren dir env = inr names;
  size_ok name (env : E) : exists n, GetFileSize name env = inr n;
  append_ok name (env : E) : exists (f : F) (env' : E), AppendWritableFile name env = (inr f, env');
}.

Section reopen.
Context {E F T : Type} `{!WritableFile F, !WritableFileLaws F, !ReliableFile F, !EnvOps E F, !EnvReliable E F}.
Context `{!DirOps E, !DirReliable E, !FileOps E F, !ReopenReliable E F, !MemTable T}.
Context (path : bytes) (options : ColumnFamilyOptions) (needs_compaction : Version -> bool).

#[local] Abbreviation DB := (DBImpl E F T).

Definition fresh_table (f : ColumnFamilyImpl) : Tables T := mkTables (mt_New (comparator_Compare (cf_options f))) [] kOk false.

(** Every family is installed and its tables are new. *)
Definition fresh_tables (db : DB) : Prop :=
  forall i, tables_ db !! i = fresh_table <$> families (cfs (versions_ db)) !! i.

Lemma same_lookup s t i : same_families s t ->
  match families s !! i, families t !! i with
  | Some f, Some g => same_family f g
  | None, None => True
  | _, _ => False
  end.
Proof.
  intros Hst. pose proof (same_list _ _ Hst) as Hl. destruct (families s !! i) as [f|] eqn:Ef.
  - destruct (Forall2_lookup_l _ _ _ _ _ Hl Ef) as (g & -> & Hg). done.
  - apply lookup_ge_None in Ef. rewrite (Forall2_length _ _ _ Hl) in Ef. apply lookup_ge_None in Ef as ->. done.
Qed.

Lemma same_finds s t : same_families s t -> finds_same t s.
Proof.
  intros Hst cfid h Hh. unfold EnsureGetTable, GetColumnFamily. rewrite (same_ids _ _ Hst), (same_default _ _ Hst), Hh.
  cbn [andb]. destruct (if cfid =? 0 then _ else _) as [i|]; cbn [ofopt obind]; [|done].
  pose proof (same_lookup s t i Hst) as Hi. by destruct (families s !! i), (families t !! i).
Qed.

(** Installing the families of a database without tables. *)
Lemma install_missing_ok fs n k (db : DB) :
  families (cfs (versions_ db)) = fs -> (k + n = length fs)%nat ->
  (forall i, tables_ db !! i = if decide (i < k)%nat then fresh_table <$> fs !! i else None) ->
  exists db', install_missing path (seq k n) db = Done (kOk, db') /\
    versions_ db' = versions_ db /\ (forall i, tables_ db' !! i = fresh_table <$> fs !! i) /\
    (forall name, NewSequentialFile name (env_ db') = NewSequentialFile name (env_ db)) /\
    bkg_error_ db' = bkg_error_ db /\ shutting_down_ db' = shutting_down_ db.
Proof.
  revert k db. induction n as [|n IH]; intros k db Hfs Hn Ht; cbn [seq install_missing].
  { exists db. split_and!; try done. intros i. rewrite Ht. destruct (decide _); [done|].
    by rewrite (lookup_ge_None_2 fs i) by lia. }
  rewrite Ht, decide_False by lia. unfold Install.
  destruct (lookup_lt_is_Some_2 fs k ltac:(lia)) as [f Hf]. rewrite Hfs, Hf. cbn [ofopt obind].
  rewrite Ht, decide_False by lia. destruct (dir_make (GetDir path f (env_ db)) false (env_ db)) as (e & He). rewrite He.
  cbn [obind]. change (ok kOk) with true. cbn iota.
  edestruct (IH (S k)) as (db' & -> & Hv & Ht' & Hr & He1 & He2); [exact Hfs | lia | |].
  - intros i. cbn. destruct (decide (i = k)) as [->|Hne].
    + rewrite lookup_insert_eq, decide_True, Hf by lia. done.
    + rewrite lookup_insert_ne, Ht by done. destruct (decide (i < k)%nat), (decide (i < S k)%nat); done || lia.
  - exists db'. split_and!; try done. intros name. rewrite Hr. cbn. eapply make_keeps, He.
Qed.

(** The numbers to redo when all families begin with log [n], the newest. *)
Lemma redo_numbers_one cfds history n :
  0 <= n -> Forall (fun f => redo_log_number f = n) cfds -> cfds <> [] -> (forall k, k ∈ history -> k <= n) ->
  redo_numbers cfds history = ({[ n ]}, n).
Proof.
  intros Hn Hc Hne Hh. unfold redo_numbers.
  assert (Hmax : forall m, 0 <= m <= n -> foldl (fun m f => if m <? redo_log_number f then redo_log_number f else m) m cfds = n).
  { destruct cfds as [|f fs]; [done|]. apply Forall_cons in Hc as [Hf Hfs]. intros m Hm. cbn [foldl].
    assert ((if m <? redo_log_number f then redo_log_number f else m) = n) as ->
      by (destruct (Z.ltb_spec m (redo_log_number f)); lia).
    clear -Hfs. induction Hfs as [|g gs Hg _ IH]; [done|]. cbn [foldl]. rewrite Hg, Z.ltb_irrefl. exact IH. }
  rewrite Hmax by lia.
  assert (filter (fun k => n < k) history = ∅) as ->.
  { apply set_eq. intros k. rewrite elem_of_filter. split; [|set_solver]. intros [H1 H2]. specialize (Hh k H2). lia. }
  rewrite elements_empty. f_equal. apply set_eq. intros k.
  rewrite elem_of_union, elem_of_list_to_set, list_elem_of_fmap, elem_of_singleton. rewrite Forall_forall in Hc. split.
  - intros [(f & -> & Hf)|Hk]; [by apply Hc | set_solver].
  - intros ->. left. destruct cfds as [|f fs]; [done|]. exists f. split; [symmetry; apply Hc|]; left.
Qed.

Lemma ascending_one n : ascending {[ n ]} = [n].
Proof. unfold ascending. by rewrite elements_singleton. Qed.

Lemma total_size_ok names (env : E) size : exists n, total_size path names env size = inr n.
Proof.
  revert size. induction names as [|name names IH]; intros size; cbn [total_size]; [by eexists|].
  destruct (size_ok (path ++ [47] ++ name) env) as (n & ->). apply IH.
Qed.

Lemma GetTotalWalSize_ok (env : E) : exists n, GetTotalWalSize path env = inr n.
Proof. unfold GetTotalWalSize. destruct (list_ok path env) as (names & ->). apply total_size_ok. Qed.

(** What the disk holds after a crash: the name of the manifest, a manifest
    from which the versions [rec] of the families are recovered, and the log
    [n] as far as it was written. *)
Record crash_disk (desc : list ColumnFamilyDescriptor) (n : Z) (log : bytes) (block_size : Z) (rec : VersionSet F)
    (db' : DB) (env : E) : Prop := {
  cd_current : exists m, is_u 63 m /\ ReadAllFile (CurrentFileName path) env = inr (decimal m) /\
    exists history, Recovery path (cf_opts desc) m ∅ env (NewVersionSet block_size) = Done (kOk, rec, history) /\
      forall k, k ∈ history -> k <= n;
  cd_same : same_families (cfs (versions_ db')) (cfs rec);
  cd_redo : vs_redo_log_number rec = n;
  cd_last : last_sequence_number rec <= last_sequence_number (versions_ db');
  cd_log : NewSequentialFile (LogFileName path n) env = inr (mkSeq log 0);
}.

(** The state that is opened again. *)
Record reopened (n : Z) (oss : list (list op)) (rec : VersionSet F) (db' db2 : DB) : Prop := {
  ro_tables : tables_ db2 = tables_ db';
  ro_cfs : cfs (versions_ db2) = cfs rec;
  ro_last : last_sequence_number (versions_ db2) =
    if oss is [] then Z.max 0 (last_sequence_number rec) else last_sequence_number (versions_ db') + 1;
  ro_log : log_file_number_ db2 = n /\ is_Some (db_logger_ db2);
  ro_errors : bkg_error_ db2 = kOk /\ shutting_down_ db2 = false;
}.

Lemma decimal_number m : is_u 63 m -> IsNumber (decimal m) = true /\ wrap 64 (atoll (decimal m)) = m.
Proof. intros Hm. by destruct (decimal_spec m Hm) as (H1 & _ & H2 & _). Qed.

Lemma finish_update update (v : VersionSet F) :
  cfs (UpdateSequenceNumber update v) = cfs v /\ vs_redo_log_number (UpdateSequenceNumber update v) = vs_redo_log_number v /\
  last_sequence_number (UpdateSequenceNumber update v) = Z.max update (last_sequence_number v).
Proof.
  unfold UpdateSequenceNumber. destruct (Z.ltb_spec (last_sequence_number v) update); split_and!; try done; cbn; lia.
Qed.

Lemma db_Recovery_writes desc (db db' : DB) oss f w n block_size rec env :
  fresh_tables db -> Forall (fun g => redo_log_number g = n) (families (cfs (versions_ db))) ->
  families (cfs (versions_ db)) <> [] -> 0 <= n ->
  db_logger_ db = Some (NewLogWriter f kDefaultBlockSize) -> contents f = [] ->
  writes path options needs_compaction db oss db' -> db_logger_ db' = Some w -> cfs (versions_ db') = cfs (versions_ db) ->
  0 <= last_sequence_number (versions_ db') < 2 ^ 64 - 1 ->
  crash_disk desc n (contents (fw_file (lw_writer w))) block_size rec db' env ->
  exists db2, db_Recovery path false desc (NewDBImpl block_size env) = Done (kOk, db2) /\ reopened n oss rec db' db2.
Proof.
  intros Hfresh Hredo Hne Hn Hlog Hf Hws Hw Hcfs Hlast [(m & Hm & Hcur & history & Hrec & Hhist) Hsame Hrn Hle Hfile].
  rewrite Hcfs in Hsame. destruct (decimal_number m Hm) as [Hnum Hval].
  unfold db_Recovery. cbn [env_ versions_ NewDBImpl]. rewrite Hcur, Hnum, Hval. cbn [negb]. rewrite Hrec. cbn [obind].
  change (negb (ok kOk)) with false. cbn iota. cbn [obind]. change (negb (ok kOk)) with false. cbn iota.
  cbn [set_versions versions_ NewDBImpl env_ tables_].
  edestruct (install_missing_ok (families (cfs rec)) (length (families (cfs rec))) 0) as (db1 & -> & Hv1 & Ht1 & Hr1 & He1 & He2);
    [| |intros i; by destruct (decide _); [lia|] |]; [reflexivity | lia |].
  cbn [obind]. change (negb (ok kOk)) with false. cbn iota. change (versions_ db1 = rec) in Hv1. rewrite Hv1.
  assert (Hl : length (families (cfs (versions_ db))) = length (families (cfs rec)))
    by exact (Forall2_length _ _ _ (same_list _ _ Hsame)).
  rewrite (redo_numbers_one _ _ n Hn); [| | intros Enil; rewrite Enil in Hl; by destruct (families (cfs (versions_ db))) | done].
  2:{ apply Forall_lookup. intros i g Hg. pose proof (same_lookup _ _ i Hsame) as Hi. rewrite Hg in Hi.
      destruct (families (cfs (versions_ db)) !! i) as [g0|] eqn:E0; [|done]. rewrite Forall_lookup in Hredo.
      rewrite <- (same_redo_number _ _ Hi). by apply (Hredo i). }
  rewrite ascending_one. cbn [redo_all]. rewrite Z.eqb_refl. cbn [negb].
  rewrite (Redo_writes path options needs_compaction db db' db1 oss f w n 0 Hws Hlog Hf Hw).
  - cbn [obind]. change (ok kOk) with true. cbn iota. cbn [obind negb]. cbn [set_tables versions_ db_logger_ set_versions set_log env_].
    rewrite Hv1. destruct (append_ok (F := F) (LogFileName path (vs_redo_log_number rec)) (env_ db1)) as (f2 & e2 & ->).
    cbn [set_env set_log env_]. change (negb (ok kOk)) with false. cbn iota. destruct (GetTotalWalSize_ok e2) as (size & ->).
    eexists. split; [reflexivity|].
    match goal with |- context [UpdateSequenceNumber ?u rec] => destruct (finish_update u rec) as (U1 & U2 & U3) end.
    split; cbn -[UpdateSequenceNumber]; [done | done | | | done].
    + rewrite U3. destruct oss; [done|]. rewrite wrap_small by (unfold is_u; lia). lia.
    + split; [done|]. by eexists.
  - rewrite Hv1. by apply same_finds.
  - apply map_eq. intros i. rewrite Ht1, Hfresh. pose proof (same_lookup _ _ i Hsame) as Hi.
    destruct (families (cfs (versions_ db)) !! i) as [g|], (families (cfs rec) !! i) as [g'|]; [|done..]. cbn.
    unfold fresh_table. by rewrite (same_cf_options _ _ Hi).
  - by rewrite Hr1.
Qed.

(** A family with the same tables and files answers the same. *)
Lemma db_Get_same cache_get sq i key (db1 db2 : DB) :
  same_families (cfs (versions_ db1)) (cfs (versions_ db2)) -> tables_ db2 = tables_ db1 ->
  current <$> families (cfs (versions_ db2)) !! i = current <$> families (cfs (versions_ db1)) !! i ->
  db_Get cache_get (Some sq) (Some (mkCFHandle true i)) key db2 = db_Get cache_get (Some sq) (Some (mkCFHandle true i)) key db1.
Proof.
  intros Hs Ht Hc. unfold db_Get, PrepareForGet. cbn [h_mine h_impl negb]. rewrite Ht.
  pose proof (same_lookup _ _ i Hs) as Hi.
  destruct (families (cfs (versions_ db1)) !! i) as [f|] eqn:Ef, (families (cfs (versions_ db2)) !! i) as [g|] eqn:Eg; [|done..].
  cbn in Hc. injection Hc as Hc. cbn [ofopt obind]. rewrite (same_dropped _ _ Hi), Hc. destruct (dropped g); [done|].
  destruct (tables_ db1 !! i) as [t|]; cbn [ofopt obind]; [|done]. cbn [gc_cfd gc_last_sequence_number in_mem gc_current default].
  destruct (get_in_mem _ _ _) as [[r|]| |]; cbn [obind]; [done | |done..]. rewrite Ef, Eg. cbn [ofopt obind].
  by rewrite (same_cf_options _ _ Hi).
Qed.

(** C2: Opening a database again after a crash, when all families have their
    records in one log.  Let every family begin with the same log [n] and with
    an empty memory table, let that log be empty, and let the database only have
    done writes of batches since then, none of which made room (so there is no
    newer log and no new file).  Let the disk hold ([crash_disk]) a readable
    CURRENT, a manifest from which [VersionSet.Recovery] gives the same families
    back, log number [n] among the rest and no newer log (C1 says when), and log
    [n] up to its last written byte, whether it was synced or not.  Then recovery
    succeeds, the memory tables are those of the database that crashed, a family
    with the same files answers every [Get] at every snapshot as it did, and the
    next version is past all those used.  With families that begin with different
    logs it is not so: the code skips logs in the middle
    ([middle_log_is_skipped]) and redoes just the wrong records
    ([filter_is_inverted]). *)
Theorem Recovery_after_writes cache_get desc (db db' : DB) oss f w n block_size rec env :
  fresh_tables db -> Forall (fun g => redo_log_number g = n) (families (cfs (versions_ db))) ->
  families (cfs (versions_ db)) <> [] -> 0 <= n ->
  db_logger_ db = Some (NewLogWriter f kDefaultBlockSize) -> contents f = [] ->
  writes path options needs_compaction db oss db' -> db_logger_ db' = Some w ->
  0 <= last_sequence_number (versions_ db') < 2 ^ 64 - 1 ->
  crash_disk desc n (contents (fw_file (lw_writer w))) block_size rec db' env ->
  exists db2, db_Recovery path false desc (NewDBImpl block_size env) = Done (kOk, db2) /\ reopened n oss rec db' db2 /\
    forall i key sq, current <$> families (cfs rec) !! i = current <$> families (cfs (versions_ db')) !! i ->
      db_Get cache_get (Some sq) (Some (mkCFHandle true i)) key db2 =
      db_Get cache_get (Some sq) (Some (mkCFHandle true i)) key db'.
Proof.
  intros Hfresh Hredo Hne Hn Hlog Hf Hws Hw Hlast Hdisk.
  assert (Hcfs : cfs (versions_ db') = cfs (versions_ db)).
  { destruct (writes_records path options needs_compaction db oss db' Hws _ Hlog eq_refl ltac:(unfold kDefaultBlockSize; cbn; lia))
      as (recs & es & w' & _ & _ & _ & Hc & _). exact Hc. }
  destruct (db_Recovery_writes desc db db' oss f w n block_size rec env) as (db2 & E2 & Hro); [done..|].
  exists db2. split; [done|]. split; [done|]. intros i key sq Hcur. apply db_Get_same.
  - rewrite (ro_cfs _ _ _ _ _ Hro). apply (cd_same _ _ _ _ _ _ _ Hdisk).
  - apply (ro_tables _ _ _ _ _ Hro).
  - by rewrite (ro_cfs _ _ _ _ _ Hro).
Qed.
End reopen.

(** ** A disk in memory *)

Import DBImpl.Sample.

(** The files by their names. *)
Definition Disk : Type := gmap bytes bytes.

(** The name of a file within a directory. *)
Definition child_of (dir name : bytes) : option bytes :=
  if starts_with (dir ++ [47]) name then Some (drop (length dir + 1) name) else None.

#[export] Instance DiskEnv : EnvOps Disk MemFile := {
  NewWritableFile name disk := (inr (mkMem []), <[name := []]> disk);
  NewSequentialFile name disk := match disk !! name with Some b => inr (mkSeq b 0) | None => inl kIOError end;
  WriteAll name data disk := (kOk, <[name := data]> disk);
  Sync f := (kOk, f);
}.
#[export] Instance DiskDirs : DirOps Disk := {
  FileExists name disk := match disk !! name with Some _ => kOk | None => kIOError end;
  MakeDirectory _ _ disk := (kOk, disk);
  GetAbsolutePath name _ := name;
  GetChildren dir disk := inr (omap (child_of dir) (map fst (map_to_list disk)));
  GetFileSize name disk := inr (zlen (default [] (disk !! name)));
  DeleteFile name _ disk := (kOk, delete name disk);
}.
#[export] Instance DiskFiles : FileOps Disk MemFile := {
  NewRandomAccessFile name disk := match disk !! name with Some b => inr b | None => inl kIOError end;
  AppendWritableFile name disk := (inr (mkMem (default [] (disk !! name))), disk);
}.

#[export] Instance DiskEnv_reliable : EnvReliable Disk MemFile.
Proof. split; intros; eexists; [eexists|..]; by split. Qed.
#[export] Instance DiskDirs_reliable : DirReliable Disk.
Proof. split. intros. by eexists. Qed.
#[export] Instance Disk_reopen : ReopenReliable Disk MemFile.
Proof. split; intros; [|eexists..]; [by simplify_eq/= | done | done | by eexists]. Qed.

(** A new database with log 0 and manifest 1, after two batches. *)
Definition disk_db : DBImpl Disk MemFile OrderedTable :=
  mkDB ∅ (sample_call sample_first sample_new) {[ 0%nat := new_tables ]} (Some (NewLogWriter (mkMem []) kDefaultBlockSize))
    0 0 0 kOk false 0.
Definition disk_written : DBImpl Disk MemFile OrderedTable := write second_batch (write first_batch disk_db).

(** What is left of it. *)
Definition crashed : Disk :=
  <[CurrentFileName [47] := decimal (manifest_file_number (versions_ disk_written))]>
  (<[ManifestFileName [47] (manifest_file_number (versions_ disk_written)) := manifest_bytes (versions_ disk_written)]>
  {[LogFileName [47] 0 := log_bytes disk_written]}).

Definition recovered : VersionSet MemFile * gset Z :=
  match Recovery [47] (cf_opts [mkDescriptor [100] sample_options]) 1 ∅ crashed (NewVersionSet 4096) with
  | Done (_, v, h) => (v, h) | _ => (NewVersionSet 0, ∅)
  end.

Lemma recovered_ok :
  Recovery [47] (cf_opts [mkDescriptor [100] sample_options]) 1 ∅ crashed (NewVersionSet 4096) =
  Done (kOk, fst recovered, snd recovered).
Proof.
  assert (H : match Recovery [47] (cf_opts [mkDescriptor [100] sample_options]) 1 ∅ crashed (NewVersionSet 4096) with
    | Done (rs, _, _) => ok rs | _ => false end = true) by (by vm_compute).
  unfold recovered. destruct (Recovery _ _ _ _ _ _) as [[[rs v] h]| |]; [|discriminate H..].
  destruct (ok_spec rs) as [->|]; [done | by destruct rs].
Qed.

(** What two sets of families that are the same have in common. *)
Definition family_data (f : ColumnFamilyImpl) := (cf_name f, cf_id f, dropped f, redo_log_number f, current f).

Lemma same_data s t :
  map family_data (families s) = map family_data (families t) -> map cf_options (families s) = map cf_options (families t) ->
  Forall (fun f => length (current f) = kMaxLevel) (families s) ->
  column_family_impls_ s = column_family_impls_ t -> column_families_ s = column_families_ t ->
  default_cfd_ s = default_cfd_ t -> cfs_max_column_family t <= cfs_max_column_family s -> same_families s t.
Proof.
  intros Hd Ho Hl H1 H2 H3 H4. split; [|done..]. revert Hd Ho Hl. generalize (families t).
  induction (families s) as [|f fs IH]; intros [|g gs]; cbn [map]; intros Hd Ho Hl; try discriminate; constructor.
  - injection Hd as E1 E2 E3 E4 E5. injection Ho as E6. apply Forall_inv in Hl. split; try congruence; [by rewrite <- E5|].
    intros l. by rewrite E5.
  - injection Hd. injection Ho. intros. apply Forall_inv_tail in Hl. by apply IH.
Qed.

Lemma disk_families s :
  bool_decide (map family_data (families s) = map family_data (families (cfs sample_new))) = true ->
  Forall (fun f => length (current f) = kMaxLevel) (families s) /\ Forall (fun f => redo_log_number f = 0) (families s) /\
  length (families s) = 1%nat.
Proof.
  intros H%bool_decide_eq_true. destruct (families s) as [|f [|g gs]]; [discriminate H| |discriminate H].
  cbn in H. injection H as _ _ _ E4 E5. split_and!; [|by apply Forall_cons_2; [|apply Forall_nil_2]|done].
  apply Forall_cons_2; [by rewrite E5 | apply Forall_nil_2].
Qed.

Lemma disk_writes : writes [47] sample_options no_compaction disk_db [first_batch; second_batch] disk_written.
Proof.
  apply (writes_cons _ _ _ true _ _ _ (write first_batch disk_db)).
  - by apply room_ok; vm_compute.
  - split; [by repeat constructor | by vm_compute].
  - apply write_ok. by vm_compute.
  - apply (writes_cons _ _ _ true _ _ _ disk_written); [| | |apply writes_nil].
    + by apply room_ok; vm_compute.
    + split; [by repeat constructor | by vm_compute].
    + apply write_ok. by vm_compute.
Qed.

Lemma disk_crash w : db_logger_ disk_written = Some w ->
  crash_disk [47] [mkDescriptor [100] sample_options] 0 (contents (fw_file (lw_writer w))) 4096 (fst recovered) disk_written crashed.
Proof.
  intros Hw. split.
  - exists 1. split_and!; [by split | by vm_compute |]. exists (snd recovered). split; [exact recovered_ok|].
    assert (H : bool_decide (set_Forall (fun k => k <= 0) (snd recovered)) = true) by (by vm_compute).
    apply bool_decide_eq_true in H. exact H.
  - apply same_data.
    + by_compute.
    + reflexivity.
    + apply disk_families. by vm_compute.
    + by_compute.
    + by_compute.
    + by_compute.
    + by vm_compute.
  - by vm_compute.
  - by vm_compute.
  - assert (H : contents (fw_file (lw_writer w)) = log_bytes disk_written) by (unfold log_bytes; by rewrite Hw).
    rewrite H. by vm_compute.
Qed.

Lemma Recovery_after_writes_witness :
  exists db2 : DBImpl Disk MemFile OrderedTable,
    db_Recovery [47] false [mkDescriptor [100] sample_options] (NewDBImpl 4096 crashed) = Done (kOk, db2) /\
    tables_ db2 = tables_ disk_written /\ last_sequence_number (versions_ db2) = 6 /\
    db_Get no_files (Some 5) (Some (mkCFHandle true 0)) [97] db2 = Done (inr (Some [3; 3])).
Proof.
  assert (Hw : bool_decide (is_Some (db_logger_ disk_written)) = true) by (by vm_compute).
  apply bool_decide_eq_true in Hw as [w Hw].
  destruct (disk_families (cfs (versions_ disk_db)) ltac:(by vm_compute)) as (_ & Hredo & Hlen).
  destruct (Recovery_after_writes [47] sample_options no_compaction no_files [mkDescriptor [100] sample_options]
    disk_db disk_written [first_batch; second_batch] (mkMem []) w 0 4096 (fst recovered) crashed) as (db2 & E2 & Hro & Hget).
  - intros [|i]; [by vm_compute|]. cbn [disk_db tables_]. rewrite lookup_singleton_ne by done.
    rewrite lookup_ge_None_2; [done|]. rewrite Hlen. lia.
  - exact Hredo.
  - intros E. rewrite E in Hlen. discriminate Hlen.
  - done.
  - done.
  - done.
  - exact disk_writes.
  - exact Hw.
  - by_compute.
  - exact (disk_crash w Hw).
  - exists db2. split_and!; [exact E2 | exact (ro_tables _ _ _ _ _ Hro) | |].
    + rewrite (ro_last _ _ _ _ _ Hro). by_compute.
    + rewrite Hget by by_compute. vm_compute. reflexivity.
Defined.

(** With the log of the second batch still to be redone (number 0) a stray log
    2 and a stray table 7 are deleted, and nothing else. *)
Definition littered : DBImpl Disk MemFile OrderedTable :=
  set_env (<[LogFileName [47] 2 := []]> (<[[47] ++ [47; 100] ++ [47; 55] ++ kSstTablePostfix := []]> crashed)) disk_written.

Lemma DeleteObsoleteFiles_safe_witness :
  match DeleteObsoleteFiles [47] 0 littered with Done db => bool_decide (env_ db = crashed) | _ => false end = true /\
  exists db' cfd names, Forall (may_delete [47] littered cfd) names /\
    db' = set_env (foldl (fun e name => snd (DeleteFile name false e)) (env_ littered) names) littered.
Proof.
  split; [vm_compute; reflexivity|].
  assert (H1 : bool_decide (is_Some (families (cfs (versions_ littered)) !! 0%nat)) = true) by (by vm_compute).
  apply bool_decide_eq_true in H1 as [cfd H1].
  assert (H2 : match DeleteObsoleteFiles [47] 0 littered with Done _ => true | _ => false end = true) by (by vm_compute).
  destruct (DeleteObsoleteFiles [47] 0 littered) as [db'| |] eqn:E2; [|discriminate H2..].
  exists db', cfd. exact (DeleteObsoleteFiles_safe [47] 0 littered db' cfd H1 E2).
Defined.

(** ** What goes wrong *)

(** Two families whose first logs are 1 and 7: log 5 is not redone though the
    first family may have records there, and as it is no family's first log it
    is among those that are deleted. *)
Example middle_log_is_skipped :
  let family n := set_redo_log_number n (NewFamily [120] 1 sample_options) in
  elements (fst (redo_numbers [family 1; family 7] {[ 1; 5; 7 ]})) ≡ₚ [1; 7].
Proof. by_compute. Qed.

(** Of log 5 that is not the newest, the records of a family that begins with
    log 1, which needs them, are skipped, and those of one that begins with
    log 7, which has them in its files, are not. *)
Example filter_is_inverted :
  let s := mkFamilies [set_redo_log_number 1 (NewFamily [120] 0 sample_options); set_redo_log_number 7 (NewFamily [121] 1 sample_options)]
             ∅ {[ 1 := 1%nat ]} 1 (Some 0%nat) in
  EnsureGetTable s 0 (NewWritingHandler 5 true) = Done None /\
  EnsureGetTable s 1 (NewWritingHandler 5 true) = Done (Some 1%nat).
Proof. by vm_compute. Qed.

(** A record of a family that was dropped is a null pointer when it is redone. *)
Example redo_of_dropped_family :
  EnsureGetTable (cfs sample_new) 3 (NewWritingHandler 5 true) = Undef.
Proof. by vm_compute. Qed.

(** Two immutable tables: [Get] finds the older value first. *)
Example older_immutable_first :
  let put v n := match mt_Put [97] v n 0 (mt_New (T := OrderedTable) lex) with Done t => t | _ => mt_New lex end in
  let tables := mkTables (mt_New lex) [(put [1] 1, 2); (put [2] 2, 3)] kOk false in
  db_Get no_files (Some 5) (Some (mkCFHandle true 0)) [97] (set_tables {[ 0%nat := tables ]} disk_db) = Done (inr (Some [1])).
Proof. vm_compute. reflexivity. Qed.
