(* ===== verification/Table.v ===== *)
(** * Table

    src/table/table.{h,cc}: the properties stored at the end of a table and
    the handles of its blocks; src/table/filter-block-builder.h and
    src/table/key-bloom-filter.{h,cc}: the bloom filter, as it is built and as
    it is read back. *)

From S2P Require Import Prelude Bits Varint Slice Hash.

Definition kHmtMagicNumber : Z := 0x746d6800.
Definition kXmtMagicNumber : Z := 0x746d7800.
Definition kSstMagicNumber : Z := 0x74737300.
Definition kS1tMagicNumber : Z := 0x74317300.

(** ** Properties *)

Record TableProperties := mkProps {
  unordered : bool; last_level : bool; block_size : Z; num_entries : Z;
  index_position : Z; index_size : Z; filter_position : Z; filter_size : Z;
  last_version : Z; p_smallest_key : bytes; p_largest_key : bytes
}.

Definition NewTableProperties : TableProperties := mkProps false false 0 0 0 0 0 0 0 [] [].

Definition bool_byte (b : bool) : bytes := [if b then 1 else 0].

Definition WriteProperties (props : TableProperties) : bytes :=
  bool_byte (unordered props) ++ bool_byte (last_level props) ++
  GetU32 (block_size props) ++ GetU32 (wrap 32 (num_entries props)) ++
  GetU64 (index_position props) ++ GetU32 (wrap 32 (index_size props)) ++
  GetU64 (filter_position props) ++ GetU32 (wrap 32 (filter_size props)) ++
  GetU64 (last_version props) ++
  GetV64 (zlen (p_smallest_key props)) ++ p_smallest_key props ++
  GetV64 (zlen (p_largest_key props)) ++ p_largest_key props.

(** A read followed by the check of [TRY_RUN]: [inl] is the early return of
    an I/O error at the end of the buffer. *)
Definition try_run {A B} (m : BR A) (k : A -> BR (error + B)) : BR (error + B) :=
  (let! x := m in fun r => if Eof r then Some (inl kIOError, r) else k x r)%br.

Notation "'let?' x ':=' m 'in' k" := (try_run m (fun x => k))
  (at level 10, x pattern, m at level 100, k at level 200) : br_scope.

Definition read_properties : BR (error + TableProperties) :=
  (let? unordered := ReadByte in
   let? last_level := ReadByte in
   let? block_size := ReadFixed32 in
   let? num_entries := ReadFixed32 in
   let? index_position := ReadFixed64 in
   let? index_size := ReadFixed32 in
   let? filter_position := ReadFixed64 in
   let? filter_size := ReadFixed32 in
   let? last_version := ReadFixed64 in
   let? smallest_key := ReadString in
   let! largest_key := ReadString in
   br_ret (inr (mkProps (negb (unordered =? 0)) (negb (last_level =? 0)) block_size num_entries
     index_position index_size filter_position filter_size last_version
     smallest_key largest_key)))%br.

Definition ReadProperties (buf : bytes) : option (error + TableProperties) :=
  '(p, _) ← read_properties {| buf_ := buf; position_ := 0 |}; Some p.

Record props_ok (p : TableProperties) : Prop := {
  ok_block_size : is_u 32 (block_size p);
  ok_entries : is_u 32 (num_entries p);
  ok_index_position : is_u 64 (index_position p);
  ok_index_size : is_u 32 (index_size p);
  ok_filter_position : is_u 64 (filter_position p);
  ok_filter_size : is_u 32 (filter_size p);
  ok_version : is_u 64 (last_version p);
}.

Lemma try_run_Some {A B} (m : BR A) (k : A -> BR (error + B)) r x r' :
  m r = Some (x, r') -> Eof r' = false -> try_run m k r = k x r'.
Proof. intros Hm He. unfold try_run, br_bind. rewrite Hm. cbn. by rewrite He. Qed.

Lemma Eof_at_app pre s rest : s <> [] -> Eof (at_ pre (s ++ rest)) = false.
Proof. intros Hs. rewrite Eof_at. apply bool_decide_eq_false_2. by destruct s. Qed.

Lemma GetString_not_nil s : is_u 64 (zlen s) -> GetString s <> [].
Proof.
  intros Hs E. unfold GetString in E. apply app_eq_nil in E as [E _].
  by apply (Encode64_not_nil (zlen s)).
Qed.

Lemma bool_byte_negb (b : bool) : negb ((if b then 1 else 0) =? 0) = b.
Proof. by destruct b. Qed.

Lemma WriteProperties_alt props :
  WriteProperties props =
  bool_byte (unordered props) ++ bool_byte (last_level props) ++
  GetU32 (block_size props) ++ GetU32 (wrap 32 (num_entries props)) ++
  GetU64 (index_position props) ++ GetU32 (wrap 32 (index_size props)) ++
  GetU64 (filter_position props) ++ GetU32 (wrap 32 (filter_size props)) ++
  GetU64 (last_version props) ++
  GetString (p_smallest_key props) ++ GetString (p_largest_key props) ++ [].
Proof. unfold WriteProperties, GetString, GetV64. by rewrite app_nil_r, <- !app_assoc. Qed.

Ltac try_step Hm L :=
  erewrite try_run_Some; [ | apply L; solve [exact Hm | auto] | apply Eof_at_app; solve [done | auto]];
  rewrite app_assoc in Hm.

Lemma ReadProperties_Write props :
  props_ok props -> in_memory (WriteProperties props) ->
  ReadProperties (WriteProperties props) = Some (inr props).
Proof.
  intros [H1 H2 H3 H4 H5 H6 H7] Hm. rewrite WriteProperties_alt in *.
  rewrite !wrap_small in * by done.
  set (sm := p_smallest_key props) in *. set (lg := p_largest_key props) in *.
  assert (Hl : GetString lg <> []).
  { do 10 apply in_memory_app_r in Hm. apply GetString_not_nil.
    by apply (in_memory_GetString [] lg []). }
  assert (Hs : GetString sm <> []).
  { do 9 apply in_memory_app_r in Hm. apply GetString_not_nil.
    by apply (in_memory_GetString [] sm (GetString lg ++ [])). }
  unfold ReadProperties, read_properties.
  match goal with |- context [{| buf_ := ?b; position_ := 0 |}] =>
    change {| buf_ := b; position_ := 0 |} with (at_ [] b);
    change (in_memory ([] ++ b)) in Hm end.
  unfold bool_byte in *.
  try_step Hm ReadByte_at. try_step Hm ReadByte_at.
  try_step Hm ReadFixed32_at. try_step Hm ReadFixed32_at. try_step Hm ReadFixed64_at.
  try_step Hm ReadFixed32_at. try_step Hm ReadFixed64_at. try_step Hm ReadFixed32_at.
  try_step Hm ReadFixed64_at. try_step Hm ReadString_at.
  erewrite br_bind_Some by (apply ReadString_at; exact Hm).
  unfold br_ret. cbn [mbind option_bind]. rewrite !bool_byte_negb. by destruct props.
Qed.

(** ** Block handles *)

Record BlockHandle := mkBH { bh_offset : Z; bh_size : Z }.

Definition bh_Encode (h : BlockHandle) : bytes := GetV64 (bh_offset h) ++ GetV64 (bh_size h).

Definition bh_Decode (buf : bytes) : option BlockHandle :=
  '(offset, varint_len) ← Decode64 buf;
  '(size, _) ← Decode64 (drop (Z.to_nat varint_len) buf);
  Some (mkBH offset size).

Lemma bh_Decode_Encode h rest :
  is_u 64 (bh_offset h) -> is_u 64 (bh_size h) -> bh_Decode (bh_Encode h ++ rest) = Some h.
Proof.
  intros Ho Hs. unfold bh_Decode, bh_Encode, GetV64. rewrite <- app_assoc, Decode64_Encode64 by done.
  cbn [mbind option_bind]. unfold zlen. rewrite Nat2Z.id, drop_app_length, Decode64_Encode64 by done.
  by destruct h.
Qed.

(** ** FilterBlockBuilder and KeyBloomFilter *)

(** The bit array is a list of 32-bit words. *)
Definition set_bit (i : Z) (bits : list Z) : list Z :=
  alter (fun w => Z.lor w (Z.shiftl 1 (i mod 32))) (Z.to_nat (i / 32)) bits.

Definition test_bit (i : Z) (bits : list Z) : bool :=
  match bits !! Z.to_nat (i / 32) with
  | Some w => negb (Z.land w (Z.shiftl 1 (i mod 32)) =? 0)
  | None => false
  end.

Record FilterBlockBuilder := mkFilter {
  data_bytes_ : Z; hashs_ : list (bytes -> Z); bits_ : list Z
}.

Definition NewFilterBlockBuilder (data_bytes : Z) (hashs : list (bytes -> Z)) : FilterBlockBuilder :=
  mkFilter data_bytes hashs (replicate (Z.to_nat (data_bytes / 4)) 0).

Definition n_bits (f : FilterBlockBuilder) : Z := data_bytes_ f * 8.

Definition AddKey (key : bytes) (f : FilterBlockBuilder) : FilterBlockBuilder :=
  mkFilter (data_bytes_ f) (hashs_ f)
    (fold_left (fun bits h => set_bit (h key mod n_bits f) bits) (hashs_ f) (bits_ f)).

Definition fb_Finish (f : FilterBlockBuilder) : bytes := concat (map GetU32 (bits_ f)).

Definition MayExist (key : bytes) (f : FilterBlockBuilder) : bool :=
  forallb (fun h => test_bit (h key mod n_bits f) (bits_ f)) (hashs_ f).

(** [RoundDown] and [RoundUp] of src/base/base.h; [m] is a power of two. *)
Definition RoundDown (x m : Z) : Z := Z.land x (- m).
Definition RoundUp (x m : Z) : Z := RoundDown (wrap 64 (x + m - 1)) m.

Definition ComputeBoomFilterSize (approximated_n_entries alignment bits : Z) : Z :=
  if approximated_n_entries =? 0 then alignment * 2
  else
    let result := wrap 64 (approximated_n_entries * (bits * 2) + 7) / 8 in
    wrap 64 (RoundUp result alignment + alignment).

Record KeyBloomFilter := mkBloom { buckets_ : list Z; bf_hashs : list (bytes -> Z) }.

(** The reader's filter, from the block without its checksum. *)
Definition NewKeyBloomFilter (block : bytes) (hashs : list (bytes -> Z)) : KeyBloomFilter :=
  mkBloom (read_words (Z.to_nat (zlen block / 4)) block) hashs.

Definition bloom_bits (f : KeyBloomFilter) : Z := zlen (buckets_ f) * 32.

Fixpoint may_exists (hashs : list (bytes -> Z)) (key : bytes) (f : KeyBloomFilter) : bool :=
  match hashs with
  | [] => true
  | h :: hashs =>
    if negb (test_bit (h key mod bloom_bits f) (buckets_ f)) then false
    else may_exists hashs key f
  end.

Definition MayExists (key : bytes) (f : KeyBloomFilter) : bool := may_exists (bf_hashs f) key f.

Fixpoint ensure_not_exists (hashs : list (bytes -> Z)) (key : bytes) (f : KeyBloomFilter) : bool :=
  match hashs with
  | [] => false
  | h :: hashs =>
    if negb (test_bit (h key mod bloom_bits f) (buckets_ f)) then true
    else ensure_not_exists hashs key f
  end.

Definition EnsureNotExists (key : bytes) (f : KeyBloomFilter) : bool :=
  ensure_not_exists (bf_hashs f) key f.

Definition ApproximateCount (f : KeyBloomFilter) : Z :=
  fold_left (fun count w => count + CountOne32 w) (buckets_ f) 0 / zlen (bf_hashs f).

Lemma test_bit_testbit i bits :
  test_bit i bits =
  match bits !! Z.to_nat (i / 32) with Some w => Z.testbit w (i mod 32) | None => false end.
Proof.
  unfold test_bit. destruct (bits !! _); [|done]. apply land_bit. apply Z.mod_pos_bound. lia.
Qed.

Lemma length_set_bit i bits : length (set_bit i bits) = length bits.
Proof. apply length_alter. Qed.

Lemma test_set_same i bits :
  0 <= i < zlen bits * 32 -> test_bit i (set_bit i bits) = true.
Proof.
  intros Hi. rewrite test_bit_testbit. unfold set_bit. rewrite list_lookup_alter_eq.
  assert (Z.to_nat (i / 32) < length bits)%nat as Hlt.
  { pose proof (Z.div_lt_upper_bound i 32 (zlen bits) ltac:(lia) ltac:(lia)).
    pose proof (Z.div_pos i 32 ltac:(lia) ltac:(lia)). unfold zlen in *. lia. }
  destruct (lookup_lt_is_Some_2 bits _ Hlt) as [w ->]. unfold fmap, option_fmap, option_map.
  pose proof (Z.mod_pos_bound i 32 ltac:(lia)).
  rewrite Z.lor_spec, Z.shiftl_mul_pow2, Z.mul_1_l, Z.pow2_bits_true by lia. apply orb_true_r.
Qed.

Lemma test_set_mono i j bits : test_bit j bits = true -> test_bit j (set_bit i bits) = true.
Proof.
  rewrite !test_bit_testbit. unfold set_bit.
  destruct (decide (Z.to_nat (i / 32) = Z.to_nat (j / 32))) as [->|Hne].
  - rewrite list_lookup_alter_eq. destruct (bits !! _); [|done]. unfold fmap, option_fmap, option_map.
    rewrite Z.lor_spec. by intros ->.
  - by rewrite list_lookup_alter_ne.
Qed.

Lemma set_bit_u32 i bits : Forall (is_u 32) bits -> Forall (is_u 32) (set_bit i bits).
Proof.
  intros Hb. unfold set_bit. apply Forall_alter; [done|]. intros w _ Hw.
  pose proof (Z.mod_pos_bound i 32 ltac:(lia)). apply lor_is_u; [lia | done |].
  unfold is_u. rewrite Z.shiftl_mul_pow2, Z.mul_1_l by lia. split; [apply Z.pow_nonneg; lia|].
  apply Z.pow_lt_mono_r; lia.
Qed.

(** The state between calls of [AddKey]. *)
Record filter_ok (f : FilterBlockBuilder) : Prop := {
  f_length : zlen (bits_ f) * 4 = data_bytes_ f;
  f_pos : 0 < data_bytes_ f;
  f_words : Forall (is_u 32) (bits_ f);
}.

Lemma NewFilter_ok n hashs : 0 < n -> n mod 4 = 0 -> filter_ok (NewFilterBlockBuilder n hashs).
Proof.
  intros Hn Hm. constructor; cbn; [|done|].
  - unfold zlen. rewrite length_replicate. pose proof (Z.div_mod n 4 ltac:(lia)).
    pose proof (Z.div_pos n 4 ltac:(lia) ltac:(lia)). lia.
  - apply Forall_replicate. unfold is_u. lia.
Qed.

Lemma fold_set_bit_spec (g : (bytes -> Z) -> Z) hs bits :
  let r := fold_left (fun bits h => set_bit (g h) bits) hs bits in
  length r = length bits /\ (Forall (is_u 32) bits -> Forall (is_u 32) r) /\
  (forall j, test_bit j bits = true -> test_bit j r = true) /\
  (forall h, h ∈ hs -> 0 <= g h < zlen bits * 32 -> test_bit (g h) r = true).
Proof.
  revert bits. induction hs as [|h hs IH]; intros bits; cbn [fold_left].
  - split_and!; [done..|]. intros h Hh. by apply elem_of_nil in Hh.
  - destruct (IH (set_bit (g h) bits)) as (H1 & H2 & H3 & H4). rewrite length_set_bit in H1.
    split_and!; [done | | |].
    + intros Hb. by apply H2, set_bit_u32.
    + intros j Hj. by apply H3, test_set_mono.
    + intros h' [->|Hh']%elem_of_cons Hr; [by apply H3, test_set_same|].
      apply H4; [done|]. unfold zlen in *. by rewrite length_set_bit.
Qed.

Lemma AddKey_ok key f : filter_ok f -> filter_ok (AddKey key f).
Proof.
  intros [Hl Hp Hw]. unfold AddKey.
  destruct (fold_set_bit_spec (fun h => h key mod n_bits f) (hashs_ f) (bits_ f)) as (H1 & H2 & _).
  constructor; cbn; [|done|auto]. unfold zlen in *. by rewrite H1.
Qed.

Lemma MayExist_AddKey key key' f :
  filter_ok f -> key = key' \/ MayExist key f = true -> MayExist key (AddKey key' f) = true.
Proof.
  intros [Hl Hp Hw] Hor. unfold MayExist, AddKey. cbn [n_bits data_bytes_ hashs_ bits_].
  destruct (fold_set_bit_spec (fun h => h key' mod n_bits f) (hashs_ f) (bits_ f)) as (_ & _ & H3 & H4).
  apply forallb_forall. intros h Hh. destruct Hor as [->|Hm].
  - apply (H4 h); [by apply list_elem_of_In|].
    pose proof (Z.mod_pos_bound (h key') (n_bits f)). unfold n_bits in *. lia.
  - apply H3. unfold MayExist in Hm. rewrite forallb_forall in Hm. by apply Hm.
Qed.

(** The filter read from the finished block is the filter that was built. *)
Lemma KeyBloomFilter_Finish key f :
  filter_ok f -> MayExists key (NewKeyBloomFilter (fb_Finish f) (hashs_ f)) = MayExist key f.
Proof.
  intros [Hl Hp Hw]. unfold MayExists, NewKeyBloomFilter, fb_Finish, MayExist. cbn [bf_hashs].
  assert (Hz : zlen (concat (map GetU32 (bits_ f))) = zlen (bits_ f) * 4).
  { unfold zlen. clear. induction (bits_ f) as [|w ws IH]; [done|]. cbn [map concat length].
    rewrite length_app. unfold GetU32 at 1. rewrite length_le_bytes. lia. }
  rewrite Hz, Z.div_mul by lia. unfold zlen at 1. rewrite Nat2Z.id.
  pose proof (read_words_GetU32 (bits_ f) [] Hw) as Hr. rewrite app_nil_r in Hr. rewrite Hr.
  set (b := mkBloom _ _).
  assert (Hn : bloom_bits b = n_bits f) by (unfold bloom_bits, n_bits; cbn; lia).
  assert (Hb : buckets_ b = bits_ f) by done. clearbody b.
  induction (hashs_ f) as [|h hs IH]; [done|]. cbn [may_exists forallb].
  rewrite Hn, Hb, <- IH. by destruct (test_bit _ _).
Qed.

Lemma EnsureNotExists_negb key f : EnsureNotExists key f = negb (MayExists key f).
Proof.
  unfold EnsureNotExists, MayExists. induction (bf_hashs f) as [|h hs IH]; [done|].
  cbn [ensure_not_exists may_exists]. by destruct (test_bit _ _).
Qed.

(** A run of additions keeps what was found and adds the new keys. *)
Lemma fold_AddKey key ks f :
  filter_ok f -> key ∈ ks \/ MayExist key f = true ->
  let f' := fold_left (fun f k => AddKey k f) ks f in
  filter_ok f' /\ hashs_ f' = hashs_ f /\ MayExist key f' = true.
Proof.
  revert f. induction ks as [|k ks IH]; intros f Hf Hor; cbn [fold_left].
  - destruct Hor as [Hin|]; [by apply elem_of_nil in Hin | done].
  - destruct (IH (AddKey k f) (AddKey_ok k f Hf)) as (H1 & H2 & H3); [|done].
    destruct Hor as [[->|]%elem_of_cons|]; [|by left|]; right; apply MayExist_AddKey; auto.
Qed.

Lemma fold_AddKey_ok ks f :
  filter_ok f -> let f' := fold_left (fun f k => AddKey k f) ks f in
  filter_ok f' /\ hashs_ f' = hashs_ f /\ data_bytes_ f' = data_bytes_ f.
Proof.
  revert f. induction ks as [|k ks IH]; intros f Hf; cbn [fold_left]; [done|].
  destruct (IH (AddKey k f) (AddKey_ok k f Hf)) as (H1 & H2 & H3). done.
Qed.

(** ** Properties *)

(** The properties and the block handles of a table are read back as they
    were written. *)
Theorem TableProperties_roundtrip props h rest :
  props_ok props -> in_memory (WriteProperties props) ->
  is_u 64 (bh_offset h) -> is_u 64 (bh_size h) ->
  ReadProperties (WriteProperties props) = Some (inr props) /\
  bh_Decode (bh_Encode h ++ rest) = Some h.
Proof. intros. split; [by apply ReadProperties_Write | by apply bh_Decode_Encode]. Qed.

Lemma TableProperties_roundtrip_witness :
  let p := mkProps false true 4096 3 100 50 150 64 9 [97; 0; 0; 0; 0; 0; 0; 0; 1] [98] in
  ReadProperties (WriteProperties p) = Some (inr p) /\
  bh_Decode (bh_Encode (mkBH 300 7)) = Some (mkBH 300 7).
Proof.
  intros p. apply (TableProperties_roundtrip p (mkBH 300 7) []);
    [constructor; unfold is_u; cbn; lia | reflexivity | unfold is_u; cbn; lia..].
Defined.

(** The bloom filter has no false negatives: every key added is found, by
    the builder and by the reader's filter made from the finished block, for
    any hash functions; and the reader never rules out such a key. *)
Theorem BloomFilter_no_false_negatives n hashs keys key :
  0 < n -> n mod 4 = 0 -> key ∈ keys ->
  let f := fold_left (fun f k => AddKey k f) keys (NewFilterBlockBuilder n hashs) in
  MayExist key f = true /\
  MayExists key (NewKeyBloomFilter (fb_Finish f) hashs) = true /\
  EnsureNotExists key (NewKeyBloomFilter (fb_Finish f) hashs) = false.
Proof.
  intros Hn Hm Hk. cbn zeta.
  destruct (fold_AddKey key keys _ (NewFilter_ok n hashs Hn Hm) (or_introl Hk)) as (H1 & H2 & H3).
  set (f := fold_left _ _ _) in *. cbn [hashs_ NewFilterBlockBuilder] in H2.
  rewrite EnsureNotExists_negb, <- H2, KeyBloomFilter_Finish by done. by rewrite H3.
Qed.

Lemma BloomFilter_no_false_negatives_witness :
  let f := fold_left (fun f k => AddKey k f) [[97]; [98; 99]] (NewFilterBlockBuilder 8 kBloomFilterHashs) in
  MayExist [98; 99] f = true /\
  MayExists [98; 99] (NewKeyBloomFilter (fb_Finish f) kBloomFilterHashs) = true /\
  EnsureNotExists [98; 99] (NewKeyBloomFilter (fb_Finish f) kBloomFilterHashs) = false.
Proof.
  apply BloomFilter_no_false_negatives; [lia | reflexivity |]. right. left.
Defined.
