(* ===== verification/Block.v ===== *)
(** * Block

    src/table/data-block-builder.{h,cc} and src/table/block-iterator.{h,cc}:
    the sorted blocks of the SST tables.  Keys are prefix-compressed against
    the previous key; every [n_restart] entries compression restarts, and the
    offsets of the restarts follow the entries.

    [block_of] is the format: the groups of entries between restarts and where
    each begins.  The builder produces it, the iterator reads it. *)

From S2P Require Import Prelude Varint Slice Keys Entries Iterator.

(** ** DataBlockBuilder *)

Record DataBlockBuilder := mkDBB {
  n_restart_ : Z; bb_buf : bytes; bb_restarts : list Z; last_key_ : bytes;
  count_ : Z; has_finish_ : bool
}.

Definition NewDataBlockBuilder (n_restart : Z) : DataBlockBuilder :=
  mkDBB n_restart [] [] [] 0 false.

Definition bb_Reset (b : DataBlockBuilder) : DataBlockBuilder :=
  mkDBB (n_restart_ b) [] [] [] 0 false.

(** [ExtractPrefix]: the length of the common prefix with the last key. *)
Definition ExtractPrefix (last_key input : bytes) : Z :=
  Z.of_nat (diff_index last_key input (Nat.min (length input) (length last_key))).

(** An entry that shares [shared] bytes with the previous key. *)
Definition entry (shared : Z) (key value : bytes) : bytes :=
  GetV64 shared ++ GetV64 (zlen key - shared) ++ drop (Z.to_nat shared) key ++
  GetV64 (zlen value) ++ value.

Definition bb_Add (key value : bytes) (b : DataBlockBuilder) : DataBlockBuilder :=
  let '(restarts, shared) :=
    if count_ b =? 0 then (bb_restarts b ++ [wrap 32 (zlen (bb_buf b))], 0)
    else (bb_restarts b, ExtractPrefix (last_key_ b) key) in
  mkDBB (n_restart_ b) (bb_buf b ++ entry shared key value) restarts key
        ((count_ b + 1) mod n_restart_ b) (has_finish_ b).

Definition restart_array (restarts : list Z) : bytes :=
  concat (map GetU32 restarts) ++ GetU32 (wrap 32 (zlen restarts)).

(** [Finish]: an empty builder gives an empty block. *)
Definition bb_Finish (b : DataBlockBuilder) : bytes * DataBlockBuilder :=
  if zlen (bb_buf b) =? 0 then ([], b)
  else
    let buf := bb_buf b ++ restart_array (bb_restarts b) in
    (buf, mkDBB (n_restart_ b) buf (bb_restarts b) (last_key_ b) (count_ b) true).

Definition CurrentSizeEstimate (b : DataBlockBuilder) : Z :=
  zlen (bb_buf b) + zlen (bb_restarts b) * 4 + 4.

(** ** BlockIterator *)

Record BlockIterator := mkBI {
  bi_data : bytes; restarts_ : list Z; curr_restart_ : Z; curr_local_ : Z;
  local_ : list kv; bi_error : error
}.

Definition n_restarts (it : BlockIterator) : Z := zlen (restarts_ it).

(** The constructor.  The cursor is not initialised; no position is valid
    while [local_] is empty. *)
Definition NewBlockIterator (block : bytes) : option BlockIterator :=
  let block_size := zlen block in
  if block_size <? 4 then None
  else
    n ← SetFixed32 (drop (Z.to_nat (block_size - 4)) block);
    let idx := block_size - 4 - n * 4 in
    if idx <? 0 then None
    else Some (mkBI (take (Z.to_nat idx) block)
                    (read_words (Z.to_nat n) (drop (Z.to_nat idx) block)) 0 0 [] kOk).

Definition bi_Valid (it : BlockIterator) : bool :=
  ok (bi_error it) &&
  ((0 <=? curr_restart_ it) && (curr_restart_ it <? n_restarts it)) &&
  ((0 <=? curr_local_ it) && (curr_local_ it <? zlen (local_ it))).

(** [Read(prev_key, start, kv)]: the entry at offset [start] and the offset
    behind it. *)
Definition bi_Read (prev_key : bytes) (start : Z) (it : BlockIterator) : option (kv * Z) :=
  '(kv, reader) ←
    (let! shared_len := ReadVarint64 in
     let! private_len := ReadVarint64 in
     let! result := ReadStringN private_len in
     let! value := ReadString in
     br_ret (take (Z.to_nat shared_len) prev_key ++ result, value))%br
    {| buf_ := drop (Z.to_nat start) (bi_data it); position_ := 0 |};
  Some (kv, start + position_ reader).

(** The loop of [PrepareRead]: the entries of a group.  A failed iterator
    stops after the first read. *)
Fixpoint prepare_loop (fuel : nat) (it : BlockIterator) (last_key : bytes) (p end_ : Z)
    (local : list kv) : outcome (list kv) :=
  if p <? end_ then
    match fuel with
    | O => OutOfFuel
    | S fuel =>
      obind (ofopt (bi_Read last_key p it)) (fun '(kv, p) =>
        if ok (bi_error it) then prepare_loop fuel it (fst kv) p end_ (local ++ [kv])
        else Done local)
    end
  else Done local.

Definition PrepareRead (i : Z) (it : BlockIterator) : outcome BlockIterator :=
  (do! p := ofopt (restarts_ it !! Z.to_nat i) in
   do! end_ := (if i =? n_restarts it - 1 then Done (zlen (bi_data it))
                else ofopt (restarts_ it !! Z.to_nat (i + 1))) in
   do! local := prepare_loop (length (bi_data it)) it [] p end_ [] in
   Done (mkBI (bi_data it) (restarts_ it) (curr_restart_ it) (curr_local_ it) local (bi_error it)))%out.

Definition set_cursor (restart loc : Z) (it : BlockIterator) : BlockIterator :=
  mkBI (bi_data it) (restarts_ it) restart loc (local_ it) (bi_error it).

Definition bi_SeekToFirst (it : BlockIterator) : outcome BlockIterator :=
  obind (PrepareRead 0 it) (fun it => Done (set_cursor 0 0 it)).

Definition bi_SeekToLast (it : BlockIterator) : outcome BlockIterator :=
  obind (PrepareRead (n_restarts it - 1) it) (fun it =>
    Done (set_cursor (n_restarts it - 1) (zlen (local_ it) - 1) it)).

(** [Seek]: a binary search among the restarts, then [std::lower_bound] in the
    group found and in the one after it.  [curr_restart_] is set to the first
    of the two in both cases. *)
Definition seek_pred (cmp : bytes -> bytes -> Z) (target : bytes) (it : BlockIterator) (i : Z) :
    outcome bool :=
  (do! p := ofopt (restarts_ it !! Z.to_nat i) in
   do! (e, _) := ofopt (bi_Read [] p it) in
   Done (negb (cmp target (fst e) <? 0)))%out.

Definition lower_bound (cmp : bytes -> bytes -> Z) (target : bytes) (local : list kv) : outcome Z :=
  bsearch (length local) (fun i =>
    obind (ofopt (local !! Z.to_nat i)) (fun e => Done (cmp (fst e) target <? 0)))
    0 (zlen local).

Definition seek_in (cmp : bytes -> bytes -> Z) (target : bytes) (first i : Z) (it : BlockIterator) :
    outcome (bool * BlockIterator) :=
  (do! it := PrepareRead i it in
   do! j := lower_bound cmp target (local_ it) in
   if j =? zlen (local_ it) then Done (false, it) else Done (true, set_cursor first j it))%out.

Definition bi_Seek (cmp : bytes -> bytes -> Z) (target : bytes) (it : BlockIterator) :
    outcome BlockIterator :=
  (do! first := bsearch (length (restarts_ it)) (seek_pred cmp target it) 0 (n_restarts it) in
   let first := if negb (first =? 0) then first - 1 else first in
   let first := if n_restarts it <=? first then 0 else first in
   let not_found it := Done (mkBI (bi_data it) (restarts_ it) (curr_restart_ it) (curr_local_ it)
                                  (local_ it) kNotFound) in
   if n_restarts it <=? first then not_found it else
   do! (found, it) := seek_in cmp target first first it in
   if found then Done it else
   if n_restarts it <=? first + 1 then not_found it else
   do! (found, it) := seek_in cmp target first (first + 1) it in
   if found then Done it else not_found it)%out.

(** [Next] and [Prev]; [local_.size() - 1] is an unsigned word. *)
Definition bi_Next (it : BlockIterator) : outcome BlockIterator :=
  if wrap 64 (zlen (local_ it) - 1) <=? wrap 64 (curr_local_ it) then
    if curr_restart_ it <? n_restarts it - 1 then
      obind (PrepareRead (curr_restart_ it + 1) it) (fun it =>
        Done (set_cursor (curr_restart_ it + 1) 0 it))
    else Done (set_cursor (curr_restart_ it + 1) 0 it)
  else Done (set_cursor (curr_restart_ it) (curr_local_ it + 1) it).

Definition bi_Prev (it : BlockIterator) : outcome BlockIterator :=
  if curr_local_ it =? 0 then
    if 0 <? curr_restart_ it then
      obind (PrepareRead (curr_restart_ it - 1) it) (fun it =>
        Done (set_cursor (curr_restart_ it - 1) (zlen (local_ it) - 1) it))
    else Done (set_cursor (curr_restart_ it - 1) (zlen (local_ it) - 1) it)
  else Done (set_cursor (curr_restart_ it) (curr_local_ it - 1) it).

Definition bi_current (it : BlockIterator) : option kv := local_ it !! Z.to_nat (curr_local_ it).

(** ** The format *)

(** The entries of a group, each compressed against the key before it. *)
Fixpoint enc_entries (prev : bytes) (es : list kv) : bytes :=
  match es with
  | [] => []
  | (k, v) :: es => entry (ExtractPrefix prev k) k v ++ enc_entries k es
  end.

Definition enc_group (g : list kv) : bytes := enc_entries [] g.
Definition enc_groups (gs : list (list kv)) : bytes := concat (map enc_group gs).

(** Where each group begins. *)
Fixpoint offsets (base : Z) (gs : list (list kv)) : list Z :=
  match gs with [] => [] | g :: gs => base :: offsets (base + zlen (enc_group g)) gs end.

(** The block of a list of groups. *)
Definition block_of (gs : list (list kv)) : bytes := enc_groups gs ++ restart_array (offsets 0 gs).

(** The last key of a group. *)
Definition last_key (prev : bytes) (es : list kv) : bytes :=
  match last es with Some (k, _) => k | None => prev end.

Lemma last_key_cons prev k v es : last_key prev ((k, v) :: es) = last_key k es.
Proof. unfold last_key. rewrite last_cons. by destruct (last es) as [[]|]. Qed.

Lemma enc_entries_snoc prev es k v :
  enc_entries prev (es ++ [(k, v)]) =
  enc_entries prev es ++ entry (ExtractPrefix (last_key prev es) k) k v.
Proof.
  revert prev. induction es as [|[k' v'] es IH]; intros prev.
  - simpl. by rewrite app_nil_r.
  - cbn [app enc_entries]. rewrite last_key_cons, IH. by rewrite app_assoc.
Qed.

Lemma ExtractPrefix_nil k : ExtractPrefix [] k = 0.
Proof. unfold ExtractPrefix. by rewrite Nat.min_0_r. Qed.

Lemma enc_groups_snoc gs g : enc_groups (gs ++ [g]) = enc_groups gs ++ enc_group g.
Proof. unfold enc_groups. rewrite map_app, concat_app. simpl. by rewrite app_nil_r. Qed.

Lemma offsets_snoc base gs g :
  offsets base (gs ++ [g]) = offsets base gs ++ [base + zlen (enc_groups gs)].
Proof.
  revert base. induction gs as [|h gs IH]; intros base; simpl.
  - unfold enc_groups, zlen. simpl. by rewrite Z.add_0_r.
  - rewrite IH. unfold enc_groups. simpl. rewrite zlen_app. by rewrite Z.add_assoc.
Qed.

Lemma length_offsets base gs : length (offsets base gs) = length gs.
Proof. revert base. induction gs; intros; simpl; auto. Qed.

Lemma lookup_offsets base gs i :
  (i < length gs)%nat -> offsets base gs !! i = Some (base + zlen (enc_groups (take i gs))).
Proof.
  revert base i. induction gs as [|g gs IH]; intros base [|i] Hi; simpl in *; try lia.
  - unfold enc_groups, zlen. simpl. by rewrite Z.add_0_r.
  - rewrite IH by lia. unfold enc_groups. simpl. rewrite zlen_app. f_equal. lia.
Qed.

(** ** The builder produces the format *)

(** The builder holds the groups [gs]: non-empty, at most [n] long, all but
    the last full. *)
Record holds (n : nat) (b : DataBlockBuilder) (gs : list (list kv)) : Prop := {
  h_restart : n_restart_ b = Z.of_nat n;
  h_buf : bb_buf b = enc_groups gs;
  h_restarts : bb_restarts b = offsets 0 gs;
  h_groups : Forall (fun g => (0 < length g <= n)%nat) gs;
  h_count : count_ b = match last gs with Some g => Z.of_nat (length g) mod Z.of_nat n | None => 0 end;
  h_last : match last gs with Some g => last_key_ b = last_key [] g | None => True end;
  h_open : has_finish_ b = false;
}.

Lemma holds_new n : holds n (NewDataBlockBuilder (Z.of_nat n)) [].
Proof. by constructor. Qed.

Lemma holds_Reset n b gs : holds n b gs -> holds n (bb_Reset b) [].
Proof. intros []. by constructor. Qed.

Lemma last_key_snoc prev es k v : last_key prev (es ++ [(k, v)]) = k.
Proof. unfold last_key. by rewrite last_snoc. Qed.

Lemma bb_Add_holds n b gs k v :
  (0 < n)%nat -> holds n b gs -> zlen (bb_buf b) < 2 ^ 32 ->
  exists gs', holds n (bb_Add k v b) gs' /\ concat gs' = concat gs ++ [(k, v)] /\ gs' <> [] /\
    last_key_ (bb_Add k v b) = k.
Proof.
  intros Hn [Hr Hb Hrs Hg Hc Hl Ho] Hlen. unfold bb_Add.
  pose proof (zlen_nonneg (bb_buf b)) as Hnn.
  destruct (Z.eqb_spec (count_ b) 0) as [E|E].
  - exists (gs ++ [[(k, v)]]). split; [|split_and!; [by rewrite concat_app | by destruct gs | done]].
    constructor; cbn; try done.
    + rewrite Hb, enc_groups_snoc. unfold enc_group. simpl.
      by rewrite ExtractPrefix_nil, app_nil_r.
    + rewrite Hrs, offsets_snoc, Hb, wrap_small by (rewrite <- Hb; unfold is_u; lia). done.
    + apply Forall_app. split; [done|]. apply Forall_singleton. simpl. lia.
    + rewrite last_snoc, E, Hr. done.
    + by rewrite last_snoc.
  - destruct (last gs) as [g|] eqn:El; [|lia].
    apply last_Some in El as [gs0 ->]. apply Forall_app in Hg as [Hg0 Hg].
    apply Forall_inv in Hg.
    assert (length g < n)%nat.
    { destruct (decide (length g = n)) as [En|]; [|lia]. exfalso. apply E.
      rewrite Hc, En. by rewrite Z.mod_same by lia. }
    exists (gs0 ++ [g ++ [(k, v)]]). split; [|split_and!; [|by destruct gs0|done]].
    + constructor; cbn; try done.
      * rewrite Hb, !enc_groups_snoc. unfold enc_group. rewrite enc_entries_snoc, Hl.
        by rewrite app_assoc.
      * by rewrite Hrs, !offsets_snoc.
      * apply Forall_app. split; [done|]. apply Forall_singleton. rewrite length_app. simpl. lia.
      * rewrite last_snoc, length_app, Hc, Hr. rewrite Zplus_mod_idemp_l. f_equal. simpl. lia.
      * by rewrite last_snoc, last_key_snoc.
    + rewrite !concat_app. simpl. by rewrite !app_nil_r, app_assoc.
Qed.

(** ** Reading an entry *)

Lemma diff_index_take a b n : take (diff_index a b n) a = take (diff_index a b n) b.
Proof.
  revert a b. induction n as [|n IH]; intros [|x a] [|y b]; simpl; try done.
  destruct (Z.eqb_spec x y) as [->|]; [|done]. simpl. by rewrite IH.
Qed.

Lemma diff_index_le a b n : (diff_index a b n <= n)%nat.
Proof.
  revert a b. induction n as [|n IH]; intros [|x a] [|y b]; simpl; try lia.
  destruct (x =? y); [pose proof (IH a b)|]; lia.
Qed.

Lemma ExtractPrefix_le prev k : 0 <= ExtractPrefix prev k <= zlen k.
Proof.
  unfold ExtractPrefix, zlen. pose proof (diff_index_le prev k (Nat.min (length k) (length prev))). lia.
Qed.

Lemma shared_prefix prev k :
  take (Z.to_nat (ExtractPrefix prev k)) prev ++ drop (Z.to_nat (ExtractPrefix prev k)) k = k.
Proof. unfold ExtractPrefix. rewrite Nat2Z.id, diff_index_take. apply take_drop. Qed.

Lemma bi_Read_entry it pre prev k v post :
  bi_data it = pre ++ entry (ExtractPrefix prev k) k v ++ post -> in_memory (bi_data it) ->
  in_memory k ->
  bi_Read prev (zlen pre) it =
  Some ((k, v), zlen (pre ++ entry (ExtractPrefix prev k) k v)).
Proof.
  intros Hd Hm Hk. rewrite Hd in Hm. apply in_memory_app_r in Hm. unfold bi_Read. rewrite Hd.
  replace (drop (Z.to_nat (zlen pre)) (pre ++ _)) with (entry (ExtractPrefix prev k) k v ++ post)
    by (unfold zlen; by rewrite Nat2Z.id, drop_app_length).
  set (s := ExtractPrefix prev k) in *. pose proof (ExtractPrefix_le prev k) as Hs. fold s in Hs.
  set (rest := drop (Z.to_nat s) k).
  assert (Hrest : zlen k - s = zlen rest) by (unfold rest, zlen in *; rewrite length_drop; lia).
  unfold in_memory in Hk. change (entry s k v ++ post) with
    ((GetV64 s ++ GetV64 (zlen k - s) ++ rest ++ GetString v) ++ post) in *.
  rewrite Hrest in *. rewrite <- !app_assoc in *.
  change {| buf_ := _; position_ := 0 |} with (at_ [] (GetV64 s ++ GetV64 (zlen rest) ++ rest ++ GetString v ++ post)).
  erewrite br_bind_Some by (apply ReadVarint64_at; [unfold is_u; lia | exact Hm]).
  erewrite br_bind_Some by (apply ReadVarint64_at; [pose proof (zlen_nonneg rest); unfold is_u; lia | exact Hm]).
  rewrite app_assoc in Hm.
  erewrite br_bind_Some by (apply ReadStringN_at; exact Hm). rewrite app_assoc in Hm.
  erewrite br_bind_Some by (apply ReadString_at; exact Hm). unfold br_ret. cbn [mbind option_bind].
  unfold rest, s. rewrite shared_prefix. do 2 f_equal. unfold entry. fold s. fold rest. cbn [position_ at_].
  rewrite zlen_app, Hrest. f_equal. cbn [app].
  unfold GetString, GetV64. rewrite !zlen_app. lia.
Qed.

(** ** The iterator reads the format *)

Record reads (it : BlockIterator) (gs : list (list kv)) : Prop := {
  r_data : bi_data it = enc_groups gs;
  r_restarts : restarts_ it = offsets 0 gs;
  r_groups : Forall (fun g => g <> []) gs;
  r_memory : in_memory (enc_groups gs);
  r_keys : Forall (fun e => in_memory (fst e)) (concat gs);
  r_error : bi_error it = kOk;
}.

Lemma n_restarts_reads it gs : reads it gs -> n_restarts it = zlen gs.
Proof. intros [_ H _ _ _ _]. unfold n_restarts, zlen. by rewrite H, length_offsets. Qed.

Lemma enc_groups_split gs i g :
  gs !! i = Some g ->
  enc_groups gs = enc_groups (take i gs) ++ enc_group g ++ enc_groups (drop (S i) gs).
Proof.
  intros Hi. rewrite <- (take_drop_middle gs i g Hi) at 1. unfold enc_groups.
  by rewrite map_app, concat_app.
Qed.

Lemma entry_pos s k v : (0 < length (entry s k v))%nat.
Proof.
  unfold entry. rewrite !length_app. unfold GetV64 at 1.
  destruct (Encode64 s) eqn:E; [|simpl; lia].
  exfalso. revert E. unfold Encode64, bit_21, bit_14, bit_07, bit_28, bit_35, bit_42, bit_49, bit_56, bit_63.
  by repeat destruct (negb _).
Qed.

Lemma length_enc_entries prev es : (length es <= length (enc_entries prev es))%nat.
Proof.
  revert prev. induction es as [|[k v] es IH]; intros prev; simpl; [lia|].
  rewrite length_app. pose proof (entry_pos (ExtractPrefix prev k) k v). specialize (IH k). lia.
Qed.

Lemma prepare_loop_entries es : forall it fuel prev pre post loc,
  bi_data it = pre ++ enc_entries prev es ++ post -> in_memory (bi_data it) ->
  bi_error it = kOk -> Forall (fun e => in_memory (fst e)) es -> (length es <= fuel)%nat ->
  prepare_loop fuel it prev (zlen pre) (zlen (pre ++ enc_entries prev es)) loc = Done (loc ++ es).
Proof.
  induction es as [|[k v] es IH]; intros it fuel prev pre post loc Hd Hm He Hk Hf.
  - simpl. rewrite app_nil_r.
    destruct fuel; simpl; destruct (Z.ltb_spec (zlen pre) (zlen pre)); try lia; by rewrite app_nil_r.
  - destruct fuel as [|fuel]; [simpl in Hf; lia|]. cbn [enc_entries prepare_loop] in *.
    apply Forall_cons in Hk as [Hk Hks]. rewrite <- app_assoc in Hd.
    pose proof (entry_pos (ExtractPrefix prev k) k v) as Hpos.
    destruct (Z.ltb_spec (zlen pre) (zlen (pre ++ entry (ExtractPrefix prev k) k v ++ enc_entries k es)))
      as [_|Hge]; [|unfold zlen in Hge; rewrite !length_app in Hge; lia].
    rewrite (bi_Read_entry it pre prev k v (enc_entries k es ++ post)) by done.
    cbn [obind ofopt]. rewrite He. cbn [ok fst].
    rewrite app_assoc. change (ok kOk) with true. cbn iota.
    rewrite (IH it fuel k (pre ++ entry (ExtractPrefix prev k) k v) post); [| | done..|simpl in Hf; lia].
    + by rewrite <- app_assoc.
    + by rewrite Hd, <- !app_assoc.
Qed.

Lemma PrepareRead_group it gs i g :
  reads it gs -> gs !! i = Some g ->
  PrepareRead (Z.of_nat i) it =
  Done (mkBI (bi_data it) (restarts_ it) (curr_restart_ it) (curr_local_ it) g (bi_error it)).
Proof.
  intros Hr Hi. pose proof (n_restarts_reads it gs Hr) as Hn. destruct Hr as [Hd Hrs Hg Hm Hk He].
  pose proof (lookup_lt_Some _ _ _ Hi) as Hlt. pose proof (enc_groups_split gs i g Hi) as Hs.
  unfold PrepareRead. rewrite Hn, Hrs, Nat2Z.id, lookup_offsets by done.
  cbn [ofopt obind]. rewrite Z.add_0_l.
  assert ((if Z.of_nat i =? zlen gs - 1 then Done (zlen (bi_data it))
           else ofopt (offsets 0 gs !! Z.to_nat (Z.of_nat i + 1))) =
          Done (zlen (enc_groups (take i gs) ++ enc_group g))) as ->.
  { destruct (Z.eqb_spec (Z.of_nat i) (zlen gs - 1)) as [E|E]; unfold zlen in E.
    - f_equal. rewrite Hd, Hs. rewrite drop_ge by lia. cbn. by rewrite app_nil_r.
    - replace (Z.to_nat (Z.of_nat i + 1)) with (S i) by lia. rewrite lookup_offsets by lia.
      rewrite (take_S_r _ _ _ Hi), enc_groups_snoc. done. }
  cbn [obind]. unfold enc_group.
  rewrite (prepare_loop_entries g it _ [] _ (enc_groups (drop (S i) gs)) []); [done| | |done| |].
  - by rewrite Hd, Hs.
  - by rewrite Hd.
  - rewrite <- (take_drop_middle gs i g Hi), concat_app in Hk. apply Forall_app in Hk as [_ Hk].
    simpl in Hk. by apply Forall_app in Hk as [Hk _].
  - rewrite Hd, Hs, !length_app. pose proof (length_enc_entries [] g). unfold enc_group. lia.
Qed.

Lemma bi_Read_head it gs i e g :
  reads it gs -> gs !! i = Some (e :: g) ->
  exists p p', restarts_ it !! i = Some p /\ bi_Read [] p it = Some (e, p').
Proof.
  intros [Hd Hrs Hg Hm Hk He] Hi. pose proof (lookup_lt_Some _ _ _ Hi) as Hlt.
  destruct e as [k v]. eexists _, _. split; [by rewrite Hrs, lookup_offsets|]. rewrite Z.add_0_l.
  apply (bi_Read_entry it _ [] k v (enc_entries k g ++ enc_groups (drop (S i) gs))).
  - rewrite Hd, (enc_groups_split gs i _ Hi). unfold enc_group. simpl. by rewrite <- app_assoc.
  - by rewrite Hd.
  - rewrite <- (take_drop_middle gs i _ Hi), concat_app in Hk. apply Forall_app in Hk as [_ Hk].
    simpl in Hk. by apply Forall_cons in Hk as [Hk _].
Qed.

(** Moving the cursor keeps the block. *)
Lemma reads_same it it' gs :
  reads it gs -> bi_data it' = bi_data it -> restarts_ it' = restarts_ it ->
  bi_error it' = kOk -> reads it' gs.
Proof. intros [] H1 H2 H3. constructor; congruence. Qed.

(** *** The constructor *)

Lemma length_restart_array rs : length (restart_array rs) = (4 * length rs + 4)%nat.
Proof.
  unfold restart_array. rewrite length_app. unfold GetU32 at 2. rewrite length_le_bytes.
  f_equal. induction rs as [|r rs IH]; [done|]. cbn [map concat length].
  rewrite length_app. unfold GetU32 at 1. rewrite length_le_bytes, IH. lia.
Qed.

Lemma offsets_u32 gs base :
  0 <= base -> base + zlen (enc_groups gs) < 2 ^ 32 -> Forall (is_u 32) (offsets base gs).
Proof.
  revert base. induction gs as [|g gs IH]; intros base Hb Hlt; constructor.
  - pose proof (zlen_nonneg (enc_groups (g :: gs))). unfold is_u. lia.
  - unfold enc_groups in *. simpl in Hlt. rewrite zlen_app in Hlt.
    pose proof (zlen_nonneg (enc_group g)). apply IH; lia.
Qed.

Lemma length_groups_enc gs :
  Forall (fun g => g <> []) gs -> (length gs <= length (enc_groups gs))%nat.
Proof.
  induction 1 as [|g gs Hg _ IH]; [done|]. unfold enc_groups in *. cbn [map concat length].
  rewrite length_app. destruct g as [|[k v] g]; [done|].
  pose proof (length_enc_entries [] ((k, v) :: g)). unfold enc_group at 1. cbn [length] in *. lia.
Qed.

Lemma NewBlockIterator_block gs :
  gs <> [] -> Forall (fun g => g <> []) gs -> zlen (enc_groups gs) < 2 ^ 32 ->
  Forall (fun e => in_memory (fst e)) (concat gs) ->
  exists it, NewBlockIterator (block_of gs) = Some it /\ reads it gs /\ bi_Valid it = false.
Proof.
  intros Hne Hg Hlt Hk. unfold NewBlockIterator, block_of.
  pose proof (length_groups_enc gs Hg) as Hlen.
  assert (zlen gs < 2 ^ 32) by (unfold zlen in *; lia).
  set (data := enc_groups gs) in *. set (rs := offsets 0 gs).
  assert (Hrs : length rs = length gs) by apply length_offsets.
  assert (zlen (data ++ restart_array rs) = zlen data + zlen gs * 4 + 4) as ->
    by (rewrite zlen_app; unfold zlen; rewrite length_restart_array, Hrs; lia).
  pose proof (zlen_nonneg data). pose proof (zlen_nonneg gs).
  destruct (Z.ltb_spec (zlen data + zlen gs * 4 + 4) 4); [lia|].
  replace (drop (Z.to_nat (zlen data + zlen gs * 4 + 4 - 4)) (data ++ restart_array rs))
    with (le_bytes 4 (zlen gs) ++ []).
  2: { unfold restart_array. rewrite app_assoc, drop_app_length'.
       - unfold GetU32. rewrite app_nil_r, wrap_small; unfold zlen in *; rewrite ?Hrs; [done|].
         unfold is_u. lia.
       - rewrite length_app. pose proof (length_restart_array rs) as Hl.
         unfold restart_array in Hl. rewrite length_app in Hl. unfold GetU32 at 2 in Hl.
         rewrite length_le_bytes in Hl. unfold zlen. lia. }
  unfold SetFixed32. rewrite SetFixed_le_bytes, Z.mod_small by (change (256 ^ Z.of_nat 4) with (2 ^ 32); lia).
  cbn [mbind option_bind].
  destruct (Z.ltb_spec (zlen data + zlen gs * 4 + 4 - 4 - zlen gs * 4) 0); [lia|].
  eexists. split; [reflexivity|]. split; [|unfold bi_Valid; cbn; by rewrite ?andb_false_r].
  replace (Z.to_nat (zlen data + zlen gs * 4 + 4 - 4 - zlen gs * 4)) with (length data)
    by (unfold zlen; lia).
  constructor; cbn; try done.
  - by rewrite take_app_length.
  - rewrite drop_app_length. unfold restart_array. replace (Z.to_nat (zlen gs)) with (length rs)
      by (rewrite Hrs; unfold zlen; lia). apply read_words_GetU32, offsets_u32; [done | exact Hlt].
  - unfold in_memory, data in *. lia.
Qed.

(** ** Iterating *)

(** The [Iterator] of a block whose keys are compared by [cmp]. *)
Definition Block_ops (cmp : bytes -> bytes -> Z) : Iterator BlockIterator := {|
  it_Valid := bi_Valid;
  it_SeekToFirst := bi_SeekToFirst;
  it_SeekToLast := bi_SeekToLast;
  it_Seek := bi_Seek cmp;
  it_Next := bi_Next;
  it_Prev := bi_Prev;
  it_current it := if bi_Valid it then bi_current it else None;
  it_error := bi_error;
|}.

(** The cursor stands on entry [j] of group [i]. *)
Record stands (it : BlockIterator) (gs : list (list kv)) (i j : nat) (g : list kv) : Prop := {
  s_reads : reads it gs;
  s_group : gs !! i = Some g;
  s_local : local_ it = g;
  s_restart : curr_restart_ it = Z.of_nat i;
  s_index : curr_local_ it = Z.of_nat j;
  s_lt : (j < length g)%nat;
}.

Lemma reads_length it gs i g :
  reads it gs -> gs !! i = Some g ->
  (length g <= length (enc_groups gs))%nat /\ (length gs <= length (enc_groups gs))%nat.
Proof.
  intros [_ _ Hg _ _ _] Hi. split; [|by apply length_groups_enc].
  rewrite (enc_groups_split gs i g Hi), !length_app. pose proof (length_enc_entries [] g).
  unfold enc_group. lia.
Qed.

Lemma stands_Valid it gs i j g : stands it gs i j g -> bi_Valid it = true.
Proof.
  intros [Hr Hg Hl Hi Hj Hlt]. pose proof (lookup_lt_Some _ _ _ Hg).
  unfold bi_Valid. rewrite (n_restarts_reads _ _ Hr), (r_error _ _ Hr), Hl, Hi, Hj.
  change (ok kOk) with true. unfold zlen.
  repeat (case_cmp; try lia); done.
Qed.

Lemma stands_current it gs i j g : stands it gs i j g -> bi_current it = g !! j.
Proof. intros [Hr Hg Hl Hi Hj Hlt]. unfold bi_current. by rewrite Hl, Hj, Nat2Z.id. Qed.

(** [Next] moves to the next entry, or past the end. *)
Lemma bi_Next_stands it gs i j g :
  stands it gs i j g ->
  exists it', bi_Next it = Done it' /\
    ((S j < length g)%nat /\ stands it' gs i (S j) g \/
     S j = length g /\
       ((exists g', stands it' gs (S i) 0 g') \/ (S i = length gs /\ bi_Valid it' = false))).
Proof.
  intros Hs. pose proof Hs as [Hr Hg Hl Hi Hj Hlt].
  destruct (reads_length it gs i g Hr Hg) as [Hb1 Hb2].
  pose proof (r_memory _ _ Hr) as Hm. unfold in_memory, zlen in Hm.
  unfold bi_Next. rewrite Hl, Hj, Hi, (n_restarts_reads _ _ Hr).
  rewrite !wrap_small by (unfold is_u, zlen; lia). unfold zlen.
  destruct (Z.leb_spec (Z.of_nat (length g) - 1) (Z.of_nat j)) as [Hle|Hgt].
  - assert (S j = length g) as Ej by lia.
    destruct (Z.ltb_spec (Z.of_nat i) (Z.of_nat (length gs) - 1)) as [Hlt'|Hge].
    + destruct (lookup_lt_is_Some_2 gs (S i) ltac:(lia)) as [g' Hg'].
      replace (Z.of_nat i + 1) with (Z.of_nat (S i)) by lia.
      rewrite (PrepareRead_group it gs (S i) g' Hr Hg'). cbn [obind]. eexists. split; [reflexivity|].
      right. split; [done|]. left. exists g'. constructor; cbn; try done.
      * apply (reads_same it); cbn; eauto using r_error.
      * rewrite Hi. lia.
      * pose proof (r_groups _ _ Hr) as Hne. rewrite Forall_lookup in Hne.
        specialize (Hne _ _ Hg'). destruct g'; simpl; [done|lia].
    + eexists. split; [reflexivity|]. right. split; [done|]. right.
      pose proof (lookup_lt_Some _ _ _ Hg). split; [lia|].
      unfold bi_Valid. cbn. rewrite (n_restarts_reads (set_cursor _ _ it) gs)
        by (apply (reads_same it); cbn; eauto using r_error). unfold zlen.
      destruct (Z.ltb_spec (Z.of_nat i + 1) (Z.of_nat (length gs))); [lia|].
      by rewrite !andb_false_r.
  - eexists. split; [reflexivity|]. left. split; [lia|]. constructor; cbn; try done; try lia.
    apply (reads_same it); cbn; eauto using r_error.
Qed.

Lemma stands_forward cmp it gs i j g :
  stands it gs i j g ->
  runs (Iterator0 := Block_ops cmp) bi_Next it (drop j g ++ concat (drop (S i) gs)).
Proof.
  remember (length (drop j g ++ concat (drop (S i) gs))) as m eqn:Hm.
  revert it i j g Hm. induction m as [|m IH]; intros it i j g Hm Hs.
  - pose proof (s_lt _ _ _ _ _ Hs). rewrite length_app, length_drop in Hm. lia.
  - pose proof (s_lt _ _ _ _ _ Hs) as Hlt. destruct (lookup_lt_is_Some_2 g j Hlt) as [e He].
    rewrite (drop_S _ _ _ He) in *. cbn [app length runs] in *. injection Hm as Hm.
    cbn [it_Valid it_current Block_ops].
    rewrite (stands_Valid _ _ _ _ _ Hs), (stands_current _ _ _ _ _ Hs), He.
    split_and!; [done..|].
    destruct (bi_Next_stands _ _ _ _ _ Hs) as (it' & Hn & [[H1 H2]|[H1 [(g' & H2)|[H2 H3]]]]);
      exists it'; (split; [exact Hn|]).
    + by apply IH.
    + rewrite drop_ge in * by lia. cbn [app] in *.
      pose proof (s_group _ _ _ _ _ H2) as Hg'. rewrite (drop_S _ _ _ Hg') in *. cbn [concat] in *.
      by apply (IH it' (S i) 0%nat g').
    + rewrite (drop_ge g) by lia. by rewrite (drop_ge gs) by lia.
Qed.

Lemma bi_SeekToFirst_stands it gs :
  reads it gs -> gs <> [] ->
  exists it' g, bi_SeekToFirst it = Done it' /\ stands it' gs 0 0 g.
Proof.
  intros Hr Hne. destruct gs as [|g gs]; [done|]. unfold bi_SeekToFirst.
  change 0 with (Z.of_nat 0). rewrite (PrepareRead_group it _ 0 g Hr eq_refl). cbn [obind].
  eexists _, g. split; [reflexivity|]. constructor; cbn; try done.
  - apply (reads_same it); cbn; eauto using r_error.
  - pose proof (r_groups _ _ Hr) as H. apply Forall_cons in H as [H _]. destruct g; simpl; [done|lia].
Qed.

Lemma block_SeekToFirst cmp it gs :
  reads it gs -> gs <> [] ->
  exists it', bi_SeekToFirst it = Done it' /\ runs (Iterator0 := Block_ops cmp) bi_Next it' (concat gs).
Proof.
  intros Hr Hgs. destruct (bi_SeekToFirst_stands it gs Hr Hgs) as (it' & g & E & Hs).
  exists it'. split; [done|]. pose proof (s_group _ _ _ _ _ Hs) as Hg.
  pose proof (stands_forward cmp _ _ _ _ _ Hs) as Hf.
  destruct gs; [done|]. simpl in Hg. injection Hg as ->. by rewrite skipn_cons, !drop_0 in Hf.
Qed.

(** ** Seeking *)

Section seek.
Context (cmp : bytes -> bytes -> Z) `{!ComparatorLaws cmp}.

#[local] Abbreviation kv_lt := (kv_lt cmp).
#[local] Abbreviation below := (below cmp).

Lemma lower_bound_spec t g :
  StronglySorted kv_lt g ->
  exists j, lower_bound cmp t g = Done (Z.of_nat j) /\ (j <= length g)%nat /\
    Forall (below t) (take j g) /\ (forall e, g !! j = Some e -> 0 <= cmp (fst e) t).
Proof.
  intros Hs.
  destruct (threshold (fun i => match g !! i with Some e => cmp (fst e) t <? 0 | None => false end)
    (length g)) as (c & Hc & Hi).
  { intros i j Hij. destruct (decide (i = j)) as [->|]; [done|].
    destruct (lookup_lt_is_Some_2 g i ltac:(lia)) as [a Ha].
    destruct (lookup_lt_is_Some_2 g j ltac:(lia)) as [b Hb]. rewrite Ha, Hb.
    intros Hlt%Z.ltb_lt. apply Z.ltb_lt.
    pose proof (sorted_lookup cmp g i j a b Hs ltac:(lia) Ha Hb) as Hab. unfold kv_lt in Hab.
    pose proof (cmp_lt_le_trans cmp (fst a) (fst b) t). lia. }
  exists c. split_and!; [| done | |].
  - unfold lower_bound. apply bsearch_spec; unfold zlen; [|lia|lia].
    intros i Hin. destruct (lookup_lt_is_Some_2 g (Z.to_nat i) ltac:(lia)) as [e He].
    rewrite He. cbn [ofopt obind]. f_equal. specialize (Hi (Z.to_nat i) ltac:(lia)).
    rewrite He in Hi. apply eq_true_iff_eq. rewrite Hi. rewrite Z.ltb_lt. lia.
  - apply Forall_lookup. intros i e He. pose proof (lookup_lt_Some _ _ _ He) as Hlt.
    rewrite length_take in Hlt. rewrite lookup_take_lt in He by lia.
    specialize (Hi i ltac:(lia)). rewrite He in Hi. unfold below. apply Z.ltb_lt, Hi. lia.
  - intros e He. pose proof (lookup_lt_Some _ _ _ He) as Hlt.
    specialize (Hi c Hlt). rewrite He in Hi. destruct (Z.ltb_spec (cmp (fst e) t) 0); [|lia].
    destruct Hi as [Hi _]. specialize (Hi eq_refl). lia.
Qed.

(** What a seek leaves behind: the entry [e] of group [i], and everything
    before it is below the target.  [curr_restart_] is [r]. *)
Record sought (t : bytes) (it : BlockIterator) (gs : list (list kv)) (r i j : nat) (g : list kv) (e : kv) :
    Prop := {
  k_reads : reads it gs;
  k_group : gs !! i = Some g;
  k_entry : g !! j = Some e;
  k_local : local_ it = g;
  k_restart : curr_restart_ it = Z.of_nat r;
  k_index : curr_local_ it = Z.of_nat j;
  k_before : Forall (below t) (concat (take i gs) ++ take j g);
  k_at : 0 <= cmp (fst e) t;
}.

Lemma group_sorted gs i g :
  StronglySorted kv_lt (concat gs) -> gs !! i = Some g -> StronglySorted kv_lt g.
Proof.
  intros Hs Hi. rewrite <- (take_drop_middle gs i g Hi), concat_app in Hs.
  apply StronglySorted_app_1_r in Hs. simpl in Hs. by apply StronglySorted_app_1_l in Hs.
Qed.

Lemma seek_in_spec t it gs r i g :
  reads it gs -> StronglySorted kv_lt (concat gs) -> gs !! i = Some g ->
  Forall (below t) (concat (take i gs)) ->
  exists found it', seek_in cmp t (Z.of_nat r) (Z.of_nat i) it = Done (found, it') /\
    reads it' gs /\
    if found : bool then exists j e, sought t it' gs r i j g e
    else Forall (below t) g.
Proof.
  intros Hr Hs Hi Hb. unfold seek_in. rewrite (PrepareRead_group it gs i g Hr Hi). cbn [obind local_].
  destruct (lower_bound_spec t g (group_sorted gs i g Hs Hi)) as (j & -> & Hj & Hlo & Hat).
  cbn [obind]. set (it' := mkBI _ _ _ _ _ _).
  assert (reads it' gs) as Hr' by (apply (reads_same it); cbn; eauto using r_error).
  destruct (Z.eqb_spec (Z.of_nat j) (zlen g)) as [E|E]; unfold zlen in E.
  - exists false, it'. split_and!; [done..|]. rewrite take_ge in Hlo by lia. done.
  - eexists true, _. split_and!; [reflexivity | | ].
    + apply (reads_same it'); cbn; eauto using r_error.
    + destruct (lookup_lt_is_Some_2 g j ltac:(lia)) as [e He]. exists j, e. constructor; cbn; auto.
      * apply (reads_same it'); cbn; eauto using r_error.
      * by apply Forall_app.
Qed.

Lemma group_head gs i g :
  Forall (fun g : list kv => g <> []) gs -> gs !! i = Some g -> exists e g', g = e :: g'.
Proof. rewrite Forall_lookup. intros Hne Hi. specialize (Hne _ _ Hi). destruct g; [done|eauto]. Qed.

(** Heads of groups are in order, and bound the groups before them. *)
Lemma before_head gs i e g e' :
  StronglySorted kv_lt (concat gs) -> gs !! i = Some (e :: g) -> e' ∈ concat (take i gs) ->
  kv_lt e' e.
Proof.
  intros Hs Hi He'. rewrite <- (take_drop_middle gs i _ Hi), concat_app in Hs.
  eapply StronglySorted_app_1_elem_of; [exact Hs | exact He' |]. simpl. by left.
Qed.

Lemma seek_threshold t it gs :
  reads it gs -> StronglySorted kv_lt (concat gs) ->
  exists c, bsearch (length (restarts_ it)) (seek_pred cmp t it) 0 (n_restarts it)
      = Done (Z.of_nat c) /\ (c <= length gs)%nat /\
    (forall i e g, gs !! i = Some (e :: g) -> 0 <= cmp t (fst e) <-> (i < c)%nat).
Proof.
  intros Hr Hs. pose proof (r_groups _ _ Hr) as Hne.
  assert (Hpred : forall i e g, gs !! i = Some (e :: g) ->
    seek_pred cmp t it (Z.of_nat i) = Done (negb (cmp t (fst e) <? 0))).
  { intros i e g Hi. destruct (bi_Read_head it gs i e g Hr Hi) as (p & p' & Hp & Hrd).
    unfold seek_pred. rewrite Nat2Z.id, Hp. cbn [ofopt obind]. by rewrite Hrd. }
  destruct (threshold (fun i => match gs !! i with
      | Some (e :: _) => negb (cmp t (fst e) <? 0) | _ => false end) (length gs)) as (c & Hc & Hi).
  { intros i j Hij. destruct (decide (i = j)) as [->|]; [done|].
    destruct (lookup_lt_is_Some_2 gs i ltac:(lia)) as [a Ha].
    destruct (lookup_lt_is_Some_2 gs j ltac:(lia)) as [b Hb].
    destruct (group_head gs i a Hne Ha) as (ea & ga & ->).
    destruct (group_head gs j b Hne Hb) as (eb & gb & ->). rewrite Ha, Hb.
    assert (kv_lt ea eb) as Hab.
    { apply (before_head gs j eb gb ea Hs Hb).
      assert (take j gs !! i = Some (ea :: ga)) as Hti by (rewrite lookup_take_lt by lia; done).
      rewrite <- (take_drop_middle _ _ _ Hti), concat_app. simpl.
      apply elem_of_app. right. by left. }
    unfold kv_lt in Hab. rewrite !negb_true_iff, !Z.ltb_ge. intros H.
    pose proof (cmp_ge cmp t (fst eb) H). pose proof (cmp_lt_le_trans cmp (fst ea) (fst eb) t).
    pose proof (cmp_sym (cmp:=cmp) (fst ea) t). lia. }
  exists c. split_and!; [| done |].
  - apply bsearch_spec; rewrite ?(n_restarts_reads _ _ Hr); unfold zlen; [|lia|].
    + intros i Hin. destruct (lookup_lt_is_Some_2 gs (Z.to_nat i) ltac:(lia)) as [g Hg].
      destruct (group_head gs _ g Hne Hg) as (e & g' & ->).
      replace i with (Z.of_nat (Z.to_nat i)) at 1 by lia. rewrite (Hpred _ _ _ Hg). f_equal.
      specialize (Hi (Z.to_nat i) ltac:(lia)). rewrite Hg in Hi.
      apply eq_true_iff_eq. rewrite Hi, Z.ltb_lt. lia.
    + rewrite (r_restarts _ _ Hr), length_offsets. lia.
  - intros i e g Hg. pose proof (lookup_lt_Some _ _ _ Hg) as Hlt. specialize (Hi i Hlt).
    rewrite Hg in Hi. rewrite <- Hi, negb_true_iff, Z.ltb_ge. done.
Qed.

Lemma concat_take_S (gs : list (list kv)) i g :
  gs !! i = Some g -> concat (take (S i) gs) = concat (take i gs) ++ g.
Proof.
  intros Hi. rewrite (take_S_r _ _ _ Hi), concat_app. simpl. by rewrite app_nil_r.
Qed.

Lemma bi_Seek_spec t it gs :
  reads it gs -> gs <> [] -> StronglySorted kv_lt (concat gs) ->
  exists it', bi_Seek cmp t it = Done it' /\
    ((exists r i j g e, sought t it' gs r i j g e /\ (r = i \/ (S r = i /\ j = 0%nat))) \/
     (Forall (below t) (concat gs) /\ bi_error it' = kNotFound)).
Proof.
  intros Hr Hne Hs. destruct (seek_threshold t it gs Hr Hs) as (c & Hc & Hcl & Hheads).
  unfold bi_Seek. rewrite Hc. cbn [obind]. set (f := pred c).
  replace (if negb (Z.of_nat c =? 0) then Z.of_nat c - 1 else Z.of_nat c) with (Z.of_nat f)
    by (unfold f; destruct (Z.eqb_spec (Z.of_nat c) 0); simpl; lia).
  assert (f < length gs)%nat as Hf by (unfold f; destruct gs; simpl in *; [done | lia]).
  rewrite (n_restarts_reads _ _ Hr). unfold zlen.
  destruct (Z.leb_spec (Z.of_nat (length gs)) (Z.of_nat f)); [lia|].
  destruct (Z.leb_spec (Z.of_nat (length gs)) (Z.of_nat f)); [lia|].
  destruct (lookup_lt_is_Some_2 gs f Hf) as [g Hg].
  destruct (group_head gs f g (r_groups _ _ Hr) Hg) as (e & g' & ->).
  assert (Hbefore : Forall (below t) (concat (take f gs))).
  { destruct c as [|c]; [by constructor|]. apply Forall_forall. intros e' He'.
    pose proof (before_head gs f e g' e' Hs Hg He') as Hlt.
    assert (0 <= cmp t (fst e)) as Ht by (apply (Hheads f e g' Hg); unfold f; lia).
    unfold below, kv_lt in *. pose proof (cmp_ge cmp t (fst e) Ht).
    by apply (cmp_lt_le_trans cmp _ (fst e)). }
  destruct (seek_in_spec t it gs f f _ Hr Hs Hg Hbefore) as (found & it1 & -> & Hr1 & Hres).
  cbn [obind]. destruct found.
  { destruct Hres as (j & e' & Hk). exists it1. split; [done|]. left.
    exists f, f, j, (e :: g'), e'. auto. }
  rewrite (n_restarts_reads _ _ Hr1). unfold zlen.
  pose proof (concat_take_S gs f _ Hg) as HS.
  assert (Hb' : Forall (below t) (concat (take (S f) gs))) by (rewrite HS; by apply Forall_app).
  destruct (Z.leb_spec (Z.of_nat (length gs)) (Z.of_nat f + 1)).
  { eexists. split; [reflexivity|]. right. split; [|done]. by rewrite take_ge in Hb' by lia. }
  destruct (lookup_lt_is_Some_2 gs (S f) ltac:(lia)) as [g2 Hg2].
  destruct (group_head gs (S f) g2 (r_groups _ _ Hr) Hg2) as (e2 & g2' & ->).
  assert (Hhead : ~ below t e2).
  { intros Hlt. unfold below in Hlt. pose proof (cmp_sym (cmp:=cmp) (fst e2) t).
    assert (0 <= cmp t (fst e2)) as Ht by lia. apply (Hheads (S f) e2 g2' Hg2) in Ht.
    unfold f in Ht. lia. }
  replace (Z.of_nat f + 1) with (Z.of_nat (S f)) by lia.
  destruct (seek_in_spec t it1 gs f (S f) _ Hr1 Hs Hg2 Hb') as (found & it2 & -> & Hr2 & Hres2).
  cbn [obind]. destruct found.
  - destruct Hres2 as (j & e' & Hk). exists it2. split; [done|]. left.
    exists f, (S f), j, (e2 :: g2'), e'. split; [done|]. right. split; [done|].
    pose proof (k_before _ _ _ _ _ _ _ _ Hk) as Hall. apply Forall_app in Hall as [_ Hall].
    destruct j as [|j]; [done|]. by apply Forall_inv in Hall.
  - by apply Forall_inv in Hres2.
Qed.
End seek.

(** ** Properties *)

(** Adding entries in order. *)
Definition build (n : nat) (es : list kv) : DataBlockBuilder :=
  fold_left (fun b e => bb_Add (fst e) (snd e) b) es (NewDataBlockBuilder (Z.of_nat n)).

Lemma build_snoc n es k v : build n (es ++ [(k, v)]) = bb_Add k v (build n es).
Proof. unfold build. by rewrite fold_left_app. Qed.

Lemma bb_Add_grows k v b : zlen (bb_buf b) <= zlen (bb_buf (bb_Add k v b)).
Proof.
  unfold bb_Add. destruct (count_ b =? 0); cbn; rewrite zlen_app;
    match goal with |- context [zlen (entry ?s ?k ?v)] => pose proof (zlen_nonneg (entry s k v)) end; lia.
Qed.

Lemma build_holds n es :
  (0 < n)%nat -> zlen (bb_buf (build n es)) < 2 ^ 32 ->
  exists gs, holds n (build n es) gs /\ concat gs = es /\ (es <> [] -> gs <> []).
Proof.
  intros Hn. induction es as [|[k v] es IH] using rev_ind; intros Hlt.
  - exists []. split_and!; [apply holds_new | done | done].
  - rewrite build_snoc in *. pose proof (bb_Add_grows k v (build n es)).
    destruct IH as (gs & Hh & Hes & _); [lia|].
    destruct (bb_Add_holds n (build n es) gs k v Hn Hh ltac:(lia)) as (gs' & H1 & H2 & H3 & _).
    exists gs'. split_and!; [done | by rewrite H2, Hes | done].
Qed.

Lemma Finish_block n b gs : holds n b gs -> gs <> [] -> fst (bb_Finish b) = block_of gs.
Proof.
  intros [Hr Hb Hrs Hg Hc Hl Ho] Hne. unfold bb_Finish, block_of. rewrite Hb, Hrs.
  destruct (Z.eqb_spec (zlen (enc_groups gs)) 0) as [E|]; [|done].
  apply zlen_0 in E. pose proof (length_groups_enc gs) as Hlen.
  rewrite E in Hlen. destruct gs as [|g gs]; [done|]. exfalso.
  assert (Forall (fun g : list kv => g <> []) (g :: gs)) as Hg'.
  { eapply Forall_impl; [exact Hg|]. intros x Hx ->. simpl in Hx. lia. }
  specialize (Hlen Hg'). simpl in Hlen. lia.
Qed.

Lemma build_block n es :
  (0 < n)%nat -> es <> [] -> zlen (bb_buf (build n es)) < 2 ^ 32 ->
  Forall (fun e => in_memory (fst e)) es ->
  exists gs it, concat gs = es /\ gs <> [] /\
    NewBlockIterator (fst (bb_Finish (build n es))) = Some it /\ reads it gs /\ bi_Valid it = false.
Proof.
  intros Hn Hne Hlt Hk. destruct (build_holds n es Hn Hlt) as (gs & Hh & Hes & Hgs).
  specialize (Hgs Hne). rewrite (Finish_block n _ gs Hh Hgs).
  destruct (NewBlockIterator_block gs) as (it & Hit & Hr & Hv); [done | | | by rewrite Hes |].
  - eapply Forall_impl; [exact (h_groups _ _ _ Hh)|]. intros x Hx ->. simpl in Hx. lia.
  - by rewrite <- (h_buf _ _ _ Hh).
  - exists gs, it. done.
Qed.

(** The block of the entries [es], whatever the restart interval, is read
    back by [SeekToFirst] and [Next] as exactly [es], in order; until then the
    iterator is not valid. *)
Theorem Block_roundtrip n es :
  (0 < n)%nat -> es <> [] -> zlen (bb_buf (build n es)) < 2 ^ 32 ->
  Forall (fun e => in_memory (fst e)) es ->
  exists it it', NewBlockIterator (fst (bb_Finish (build n es))) = Some it /\
    bi_Valid it = false /\ bi_SeekToFirst it = Done it' /\
    scan (Iterator0 := Block_ops lex) (length es) it' = Done es.
Proof.
  intros Hn Hne Hlt Hk. destruct (build_block n es Hn Hne Hlt Hk) as (gs & it & Hes & Hgs & Hit & Hr & Hv).
  destruct (block_SeekToFirst lex it gs Hr Hgs) as (it' & E & Hf).
  exists it, it'. split_and!; [done..|]. rewrite Hes in Hf.
  by apply (forward_scan (Iterator0 := Block_ops lex)).
Qed.

Lemma Block_roundtrip_witness :
  let es := [([97; 98], [1]); ([97; 99], [2]); ([97; 99; 100], []); ([98], [3])] in
  exists it it', NewBlockIterator (fst (bb_Finish (build 2 es))) = Some it /\
    bi_Valid it = false /\ bi_SeekToFirst it = Done it' /\
    scan (Iterator0 := Block_ops lex) 4 it' = Done es.
Proof.
  intros es. apply (Block_roundtrip 2 es); [lia | done | reflexivity | by repeat constructor].
Defined.

(** What the builder keeps of the entries besides its buffer. *)
Lemma build_fields n es :
  n_restart_ (build n es) = Z.of_nat n /\ last_key_ (build n es) = last_key [] es.
Proof.
  induction es as [|[k v] es [IH1 IH2]] using rev_ind; [done|].
  rewrite build_snoc, last_key_snoc. unfold bb_Add. by destruct (count_ _ =? 0).
Qed.

Lemma bb_Finish_fields b :
  n_restart_ (snd (bb_Finish b)) = n_restart_ b /\ last_key_ (snd (bb_Finish b)) = last_key_ b.
Proof. unfold bb_Finish. by destruct (_ =? 0). Qed.

Lemma bb_buf_build n es : es <> [] -> bb_buf (build n es) <> [].
Proof.
  destruct es as [|[k v] es _] using rev_ind; [done|]. intros _. rewrite build_snoc. unfold bb_Add, entry.
  destruct (count_ _ =? 0); cbn; intros [_ [E _]%app_eq_nil]%app_eq_nil;
    by apply Encode64_some in E.
Qed.

Lemma Finish_build_nil n es : zlen (fst (bb_Finish (build n es))) = 0 <-> es = [].
Proof.
  split; [|by intros ->]. intros H%zlen_0. destruct es as [|e es]; [done|]. exfalso.
  pose proof (bb_buf_build n (e :: es) ltac:(done)) as Hb. revert H. unfold bb_Finish.
  destruct (Z.eqb_spec (zlen (bb_buf (build n (e :: es)))) 0) as [E%zlen_0|]; [done|].
  by intros [E _]%app_eq_nil.
Qed.

Lemma Finish_size b : zlen (bb_buf b) <= zlen (fst (bb_Finish b)).
Proof.
  unfold bb_Finish. destruct (Z.eqb_spec (zlen (bb_buf b)) 0) as [E|]; [rewrite E; done|].
  cbn [fst]. rewrite zlen_app. pose proof (zlen_nonneg (restart_array (bb_restarts b))). lia.
Qed.

Lemma block_seek cmp n es t :
  ComparatorLaws cmp -> (0 < n)%nat -> es <> [] -> zlen (bb_buf (build n es)) < 2 ^ 32 ->
  Forall (fun e => in_memory (fst e)) es -> StronglySorted (kv_lt cmp) es ->
  exists it it', NewBlockIterator (fst (bb_Finish (build n es))) = Some it /\
    bi_Seek cmp t it = Done it' /\
    match first_ge cmp t es with
    | Some e => bi_Valid it' = true /\ bi_current it' = Some e
    | None => bi_Valid it' = false /\ bi_error it' = kNotFound
    end.
Proof.
  intros Hl Hn Hne Hlt Hk Hs.
  destruct (build_block n es Hn Hne Hlt Hk) as (gs & it & Hes & Hgs & Hit & Hr & Hv).
  subst es. destruct (bi_Seek_spec cmp t it gs Hr Hgs Hs) as (it' & E & Hcase).
  exists it, it'. split_and!; [done..|].
  destruct Hcase as [(r & i & j & g & e & [Kr Kg Ke Kl Krs Ki Kb Ka] & Hri)|[Hall Herr]].
  - assert (concat gs = (concat (take i gs) ++ take j g) ++ e :: drop (S j) g ++ concat (drop (S i) gs)) as Esplit.
    { rewrite <- (take_drop_middle gs i g Kg) at 1. rewrite concat_app. cbn [concat].
      rewrite <- (take_drop_middle g j e Ke) at 1. by rewrite <- !app_assoc. }
    rewrite Esplit, first_ge_split, first_ge_here by done.
    pose proof (lookup_lt_Some _ _ _ Kg). pose proof (lookup_lt_Some _ _ _ Ke).
    split; [|unfold bi_current; by rewrite Kl, Ki, Nat2Z.id].
    unfold bi_Valid. rewrite (r_error _ _ Kr), (n_restarts_reads _ _ Kr), Krs, Ki, Kl.
    change (ok kOk) with true. unfold zlen. repeat (case_cmp; try lia); done.
  - rewrite <- (app_nil_r (concat gs)), first_ge_split by done. simpl.
    unfold bi_Valid. by rewrite Herr.
Qed.

(** In a block of strictly increasing keys, [Seek] finds the first entry
    whose key is at or above the target, and fails with [kNotFound] exactly
    when there is none. *)
Theorem Block_Seek_first_ge cmp n es t :
  ComparatorLaws cmp -> (0 < n)%nat -> es <> [] -> zlen (bb_buf (build n es)) < 2 ^ 32 ->
  Forall (fun e => in_memory (fst e)) es -> StronglySorted (kv_lt cmp) es ->
  exists it it', NewBlockIterator (fst (bb_Finish (build n es))) = Some it /\
    bi_Seek cmp t it = Done it' /\
    match first_ge cmp t es with
    | Some e => bi_Valid it' = true /\ bi_current it' = Some e
    | None => bi_Valid it' = false /\ bi_error it' = kNotFound
    end.
Proof. apply block_seek. Qed.

Lemma Block_Seek_first_ge_witness :
  let es := [([97], [1]); ([99], [2]); ([101], []); ([103], [3])] in
  exists it it', NewBlockIterator (fst (bb_Finish (build 2 es))) = Some it /\
    bi_Seek lex [100] it = Done it' /\ bi_Valid it' = true /\ bi_current it' = Some ([101], []).
Proof.
  intros es. apply (Block_Seek_first_ge lex 2 es [100]);
    [apply _ | lia | done | reflexivity | by repeat constructor |
     repeat first [apply SSorted_cons | apply SSorted_nil | apply Forall_cons_2
                  | apply Forall_nil_2 | reflexivity]].
Defined.

(** When the entry found lies in the group after the one the search chose,
    [curr_restart_] names the wrong group, and going on repeats entries. *)
Example Seek_then_scan_repeats :
  let es := [([97], []); ([99], []); ([101], []); ([103], [])] in
  exists it it', NewBlockIterator (fst (bb_Finish (build 2 es))) = Some it /\
    bi_Seek lex [100] it = Done it' /\
    scan (Iterator0 := Block_ops lex) 10 it' = Done [([101], []); ([103], []); ([101], []); ([103], [])].
Proof.
  eexists _, _. split; [vm_compute; reflexivity|]. split; [vm_compute; reflexivity|].
  vm_compute. reflexivity.
Qed.
