(* ===== verification/Sst.v ===== *)
(** * Sst

    src/table/sst-table-builder.{h,cc} and src/table/sst-table-reader.{h,cc}:
    a sorted table.  The builder streams the entries into data blocks and
    writes, behind them, the filter, the index (a block whose keys are the
    last keys of the data blocks and whose values are their handles), the
    properties and the footer.  The reader goes the other way.

    The block cache is transparent here: a block is read from the (immutable)
    file whenever it is asked for. *)

From S2P Require Import Prelude Varint Slice Hash IO Keys Entries Table Block.

(** ** SstTableBuilder *)

Record SstTableBuilder (F : Type) := mkSB {
  sb_writer : FileWriter F;
  block_size_ : Z;
  sb_n_restart : Z;
  approximated_n_entries_ : Z;
  error_ : error;
  has_seen_first_key_ : bool;
  is_last_level_ : bool;
  props_ : TableProperties;
  block_builder_ : option DataBlockBuilder;
  index_builder_ : option DataBlockBuilder;
  filter_builder_ : option FilterBlockBuilder
}.
Arguments mkSB {F}.
Arguments sb_writer {F}.
Arguments block_size_ {F}.
Arguments sb_n_restart {F}.
Arguments approximated_n_entries_ {F}.
Arguments error_ {F}.
Arguments has_seen_first_key_ {F}.
Arguments is_last_level_ {F}.
Arguments props_ {F}.
Arguments block_builder_ {F}.
Arguments index_builder_ {F}.
Arguments filter_builder_ {F}.

Section builder.
Context {F : Type} `{!WritableFile F} (ucmp : bytes -> bytes -> Z).

#[local] Abbreviation icmp := (InternalCompare ucmp).

Definition NewSstTableBuilder (file : F) (block_size n_restart approximated_n_entries : Z) :
    SstTableBuilder F :=
  mkSB (NewFileWriter file) block_size n_restart approximated_n_entries kOk false false
    (mkProps false false (wrap 32 block_size) 0 0 0 0 0 0 [] []) None None None.

Definition set_writer (w : FileWriter F) (e : error) (b : SstTableBuilder F) : SstTableBuilder F :=
  mkSB w (block_size_ b) (sb_n_restart b) (approximated_n_entries_ b) e (has_seen_first_key_ b)
    (is_last_level_ b) (props_ b) (block_builder_ b) (index_builder_ b) (filter_builder_ b).

Definition set_props (p : TableProperties) (b : SstTableBuilder F) : SstTableBuilder F :=
  mkSB (sb_writer b) (block_size_ b) (sb_n_restart b) (approximated_n_entries_ b) (error_ b)
    (has_seen_first_key_ b) (is_last_level_ b) p (block_builder_ b) (index_builder_ b)
    (filter_builder_ b).

Definition set_builders (bb ib : DataBlockBuilder) (fb : FilterBlockBuilder) (b : SstTableBuilder F) :
    SstTableBuilder F :=
  mkSB (sb_writer b) (block_size_ b) (sb_n_restart b) (approximated_n_entries_ b) (error_ b)
    (has_seen_first_key_ b) (is_last_level_ b) (props_ b) (Some bb) (Some ib) (Some fb).

(** [WriteBlock]: the checksum, then the block; an empty handle on error. *)
Definition WriteBlock (block : bytes) (b : SstTableBuilder F) : BlockHandle * SstTableBuilder F :=
  let checksum := crc32 0 block in
  let offset := written_position_ (sb_writer b) in
  let handle := mkBH offset (4 + zlen block) in
  let '(e, w) := fw_WriteFixed32 checksum (sb_writer b) in
  if negb (ok e) then (mkBH 0 0, set_writer w e b)
  else
    let '(e, w) := fw_Write block w in
    if negb (ok e) then (mkBH 0 0, set_writer w e b) else (handle, set_writer w e b).

(** The builders, created at the first [Add]. *)
Definition new_filter (b : SstTableBuilder F) : FilterBlockBuilder :=
  NewFilterBlockBuilder
    (ComputeBoomFilterSize (approximated_n_entries_ b) (block_size_ b) (zlen kBloomFilterHashs) - 4)
    kBloomFilterHashs.

Definition default_builder (b : SstTableBuilder F) (d : option DataBlockBuilder) : DataBlockBuilder :=
  match d with Some d => d | None => NewDataBlockBuilder (sb_n_restart b) end.

Definition update_props (p : TableProperties) (key : bytes) (seq : Z) : TableProperties :=
  mkProps (unordered p) (last_level p) (block_size p) (wrap 64 (num_entries p + 1))
    (index_position p) (index_size p) (filter_position p) (filter_size p)
    (if last_version p <? seq then seq else last_version p)
    (if icmp key (p_smallest_key p) <? 0 then key else p_smallest_key p)
    (if 0 <? icmp key (p_largest_key p) then key else p_largest_key p).

Definition first_props (p : TableProperties) (key : bytes) : TableProperties :=
  mkProps (unordered p) (last_level p) (block_size p) (num_entries p)
    (index_position p) (index_size p) (filter_position p) (filter_size p) (last_version p) key key.

(** The first part of [Add]: everything before the size test. *)
Definition add_entry (key value : bytes) (b : SstTableBuilder F) : SstTableBuilder F :=
  let bb := default_builder b (block_builder_ b) in
  let ib := default_builder b (index_builder_ b) in
  let fb := match filter_builder_ b with Some f => f | None => new_filter b end in
  let '(user_key, tag) := parsed key in
  let seen := has_seen_first_key_ b in
  let last := if negb seen && (sequence_number tag =? 0) then true else is_last_level_ b in
  let props := if seen then props_ b else first_props (props_ b) key in
  let bb := if last then bb_Add user_key value bb else bb_Add key value bb in
  mkSB (sb_writer b) (block_size_ b) (sb_n_restart b) (approximated_n_entries_ b) (error_ b)
    true last props (Some bb) (Some ib) (Some (AddKey user_key fb)).

(** Closing the current data block: write it and index it by its last key. *)
Definition close_block (bb ib : DataBlockBuilder) (fb : FilterBlockBuilder) (b : SstTableBuilder F) :
    SstTableBuilder F :=
  let '(block, bb) := bb_Finish bb in
  let '(handle, b) := WriteBlock block b in
  if negb (ok (error_ b)) then b
  else set_builders (bb_Reset bb) (bb_Add (last_key_ bb) (bh_Encode handle) ib) fb b.

(** [Add]; after a failed write it returns without updating the properties. *)
Definition sb_Add (key value : bytes) (b : SstTableBuilder F) : SstTableBuilder F :=
  let b := add_entry key value b in
  match block_builder_ b, index_builder_ b, filter_builder_ b with
  | Some bb, Some ib, Some fb =>
    let flush := block_size_ b <=? CurrentSizeEstimate bb in
    let b := if flush then close_block bb ib fb b else b in
    if flush && negb (ok (error_ b)) then b
    else set_props (update_props (props_ b) key (sequence_number (snd (parsed key)))) b
  | _, _, _ => b
  end.

Definition footer_props (p : TableProperties) (index filter : BlockHandle) : TableProperties :=
  mkProps (unordered p) (last_level p) (block_size p) (num_entries p)
    (bh_offset index) (bh_size index) (bh_offset filter) (bh_size filter) (last_version p)
    (p_smallest_key p) (p_largest_key p).

(** [Finish]; a builder to which nothing was added has no filter to finish. *)
Definition sb_Finish (b : SstTableBuilder F) : outcome (error * SstTableBuilder F) :=
  match block_builder_ b, index_builder_ b, filter_builder_ b with
  | Some bb, Some ib, Some fb =>
    let '(last_block, bb) := bb_Finish bb in
    let '(handle, b) := if zlen last_block =? 0 then (mkBH 0 0, b) else WriteBlock last_block b in
    if negb (zlen last_block =? 0) && negb (ok (error_ b)) then Done (error_ b, b) else
    let ib := if zlen last_block =? 0 then ib else bb_Add (last_key_ bb) (bh_Encode handle) ib in
    let '(filter, b) := WriteBlock (fb_Finish fb) b in
    if negb (ok (error_ b)) then Done (error_ b, b) else
    let '(index, b) := WriteBlock (fst (bb_Finish ib)) b in
    if negb (ok (error_ b)) then Done (error_ b, b) else
    let b := set_props (footer_props (props_ b) index filter) b in
    let '(props, b) := WriteBlock (WriteProperties (props_ b)) b in
    if negb (ok (error_ b)) then Done (error_ b, b) else
    let '(e, w) := fw_WriteFixed64 (bh_offset props) (sb_writer b) in
    let b := set_writer w e b in
    if negb (ok e) then Done (e, b) else
    let '(e, w) := fw_WriteFixed32 kSstMagicNumber (sb_writer b) in
    let b := set_writer w e b in
    if negb (ok e) then Done (e, b) else
    let '(e, w) := fw_Flush (sb_writer b) in
    let b := set_writer w e b in
    if negb (ok e) then Done (e, b) else Done (kOk, b)
  | _, _, _ => Undef
  end.

(** [Abandon]; [Truncate] is a method of the file. *)
Definition sb_Abandon (Truncate : F -> error * F) (b : SstTableBuilder F) : SstTableBuilder F :=
  let w := sb_writer b in
  let '(e, file) := Truncate (fw_file w) in
  mkSB (mkFW file (written_position_ w)) (block_size_ b) (sb_n_restart b) (approximated_n_entries_ b) e false false
    (mkProps false false (wrap 32 (block_size_ b)) 0 0 0 0 0 0 [] []) None None None.

Definition sb_NumEntries (b : SstTableBuilder F) : Z := num_entries (props_ b).

(** [FileSize]; [GetFileSize] is a method of the file. *)
Definition sb_FileSize (GetFileSize : F -> error + Z) (b : SstTableBuilder F) : Z :=
  match GetFileSize (fw_file (sb_writer b)) with inl _ => 0 | inr size => size end.
End builder.

(** ** SstTableReader *)

(** [ReadBlock]: the error and the view left in [result].  After a bad
    checksum the view still holds the checksum; one too short for a checksum
    cannot be looked at. *)
Definition ReadBlock (data : bytes) (verify : bool) (h : BlockHandle) : outcome (error * bytes) :=
  let '(e, buf) := ra_Read data (bh_offset h) (bh_size h) in
  if negb (ok e) then Done (e, buf)
  else
    obind (ofopt (SetFixed32 buf)) (fun checksum =>
      if verify && negb (checksum =? crc32 0 (drop 4 buf)) then Done (kIOError, buf)
      else Done (kOk, drop 4 buf)).

Record SstTableReader := mkSR {
  sr_file : bytes; sr_verify : bool; sr_props : TableProperties; sr_filter : KeyBloomFilter
}.

(** [Prepare] of a reader of the file [data] (of size [file_size_ = zlen
    data]).  [TRY_RUN0] looks at the error of the reader, not at the result of
    [ReadBlock], so a bad checksum of the properties goes unnoticed. *)
Definition Prepare (data : bytes) (verify : bool) : outcome (error + SstTableReader) :=
  let file_size := zlen data in
  if file_size <? 12 then Done (inl kCorruption) else
  (do! (magic_num, e) := ofopt (rr_ReadFixed 4 data (file_size - 4)) in
   if negb (ok e) then Done (inl e) else
   if negb (magic_num =? kSstMagicNumber) then Done (inl kCorruption) else
   do! (position, e) := ofopt (rr_ReadFixed 8 data (file_size - 12)) in
   if negb (ok e) then Done (inl e) else
   if file_size - 12 <=? position then Done (inl kCorruption) else
   do! (_, result) := ReadBlock data verify (mkBH position (file_size - 12 - position)) in
   do! props := ofopt (ReadProperties result) in
   match props with
   | inl e => Done (inl e)
   | inr props =>
     if unordered props then Done (inl kCorruption) else
     do! (e, _) := (if verify
                    then ReadBlock data verify (mkBH (index_position props) (index_size props))
                    else Done (kOk, [])) in
     if negb (ok e) then Done (inl e) else
     do! (e, filter) := ReadBlock data verify (mkBH (filter_position props) (filter_size props)) in
     if negb (ok e) then Done (inl e) else
     Done (inr (mkSR data verify props (NewKeyBloomFilter filter kBloomFilterHashs)))
   end)%out.

(** [NewIndexIterator] and [NewBlockIterator]: [inl] is the error iterator. *)
Definition sr_NewBlockIterator (r : SstTableReader) (verify : bool) (h : BlockHandle) :
    outcome (error + BlockIterator) :=
  obind (ReadBlock (sr_file r) verify h) (fun '(e, block) =>
    if negb (ok e) then Done (inl e)
    else obind (ofopt (NewBlockIterator block)) (fun it => Done (inr it))).

Definition NewIndexIterator (r : SstTableReader) : outcome (error + BlockIterator) :=
  sr_NewBlockIterator r (sr_verify r) (mkBH (index_position (sr_props r)) (index_size (sr_props r))).

(** [Get]: an iterator that could not be made is not valid, so its error
    becomes [kNotFound]. *)
Definition sr_Get (ucmp : bytes -> bytes -> Z) (verify_checksums : bool) (target : bytes)
    (r : SstTableReader) : outcome (error + Tag * bytes) :=
  (do! index_iter := NewIndexIterator r in
   match index_iter with
   | inl _ => Done (inl kNotFound)
   | inr index_iter =>
     do! index_iter := bi_Seek (InternalCompare ucmp) target index_iter in
     if negb (bi_Valid index_iter) then Done (inl kNotFound) else
     do! entry := ofopt (bi_current index_iter) in
     do! bh := ofopt (bh_Decode (snd entry)) in
     do! iter := sr_NewBlockIterator r verify_checksums bh in
     match iter with
     | inl _ => Done (inl kNotFound)
     | inr iter =>
       do! iter := bi_Seek (InternalCompare ucmp) target iter in
       if negb (bi_Valid iter) then Done (inl kNotFound) else
       do! (key, value) := ofopt (bi_current iter) in
       let '(user_key, tag) := parsed key in
       do! target_user_key := ofopt (ExtractUserKey target) in
       if negb (ucmp user_key target_user_key =? 0) then Done (inl kNotFound)
       else Done (inr (tag, value))
     end
   end)%out.

(** ** The format *)

(** A block in the file, behind its checksum. *)
Definition frame (s : bytes) : bytes := GetU32 (crc32 0 s) ++ s.

Definition data_block (n : nat) (es : list kv) : bytes := fst (bb_Finish (build n es)).

Definition frames (n : nat) (blocks : list (list kv)) : bytes :=
  concat (map (fun es => frame (data_block n es)) blocks).

(** The entries of the index: the last key of every block and its handle. *)
Fixpoint index_of (n : nat) (base : Z) (blocks : list (list kv)) : list kv :=
  match blocks with
  | [] => []
  | es :: blocks =>
    (last_key [] es, bh_Encode (mkBH base (4 + zlen (data_block n es)))) ::
    index_of n (base + zlen (frame (data_block n es))) blocks
  end.

Lemma zlen_frame s : zlen (frame s) = 4 + zlen s.
Proof. unfold frame, GetU32. by rewrite zlen_app, zlen_le_bytes. Qed.

Lemma frames_snoc n blocks es : frames n (blocks ++ [es]) = frames n blocks ++ frame (data_block n es).
Proof. unfold frames. rewrite map_app, concat_app. simpl. by rewrite app_nil_r. Qed.

Lemma index_of_snoc n base blocks es :
  index_of n base (blocks ++ [es]) =
  index_of n base blocks ++
    [(last_key [] es, bh_Encode (mkBH (base + zlen (frames n blocks)) (4 + zlen (data_block n es))))].
Proof.
  revert base. induction blocks as [|b blocks IH]; intros base; cbn [app index_of].
  - unfold frames, zlen. cbn. by rewrite Z.add_0_r.
  - rewrite IH. unfold frames. cbn [map concat]. by rewrite zlen_app, Z.add_assoc.
Qed.

(** The properties as [Finish] writes them, and the whole file. *)
Definition final_props (n : nat) (p : TableProperties) (blocks : list (list kv)) (filter : bytes) :
    TableProperties :=
  footer_props p
    (mkBH (zlen (frames n blocks ++ frame filter)) (4 + zlen (data_block n (index_of n 0 blocks))))
    (mkBH (zlen (frames n blocks)) (4 + zlen filter)).

Definition sst_body (n : nat) (blocks : list (list kv)) (filter : bytes) : bytes :=
  (frames n blocks ++ frame filter) ++ frame (data_block n (index_of n 0 blocks)).

Definition sst_image (n : nat) (p : TableProperties) (blocks : list (list kv)) (filter : bytes) : bytes :=
  ((sst_body n blocks filter ++ frame (WriteProperties (final_props n p blocks filter))) ++
   GetU64 (zlen (sst_body n blocks filter))) ++ GetU32 kSstMagicNumber.

(** ** The builder *)

Section build_table.
Context {F : Type} `{!WritableFile F, !WritableFileLaws F, !ReliableFile F}.
Context (ucmp : bytes -> bytes -> Z) (n : nat).

#[local] Abbreviation SB := (SstTableBuilder F).

Lemma WriteBlock_reliable block (b : SB) :
  written_position_ (sb_writer b) = zlen (contents (fw_file (sb_writer b))) ->
  exists w, WriteBlock block b =
      (mkBH (written_position_ (sb_writer b)) (4 + zlen block), set_writer w kOk b) /\
    contents (fw_file w) = contents (fw_file (sb_writer b)) ++ frame block /\
    written_position_ w = zlen (contents (fw_file w)).
Proof.
  intros Hpos. unfold WriteBlock, fw_WriteFixed32.
  destruct (fw_Write_reliable (GetU32 (crc32 0 block)) (sb_writer b)) as (w1 & E1 & C1 & P1).
  destruct (fw_Write_reliable block w1) as (w2 & E2 & C2 & P2).
  rewrite E1. cbn -[GetU32 fw_Write]. rewrite E2. cbn. exists w2. split; [done|].
  rewrite P2, P1, C2, C1, Hpos. unfold frame. rewrite !zlen_app, <- app_assoc. split; [done | lia].
Qed.

(** The user keys of the entries in the filter. *)
Definition filter_of (f : FilterBlockBuilder) (es : list kv) : FilterBlockBuilder :=
  fold_left (fun f e => AddKey (fst (parsed (fst e))) f) es f.

Definition filter_or_new (b : SB) : FilterBlockBuilder :=
  match filter_builder_ b with Some f => f | None => new_filter b end.

(** The state after adding [es]: [blocks] are written, [cur] is in the block
    builder.  [f0] is the empty filter. *)
Record sb_inv (f0 : FilterBlockBuilder) (es : list kv) (blocks : list (list kv)) (cur : list kv) (b : SB) :
    Prop := {
  v_entries : concat blocks ++ cur = es;
  v_error : error_ b = kOk;
  v_last : is_last_level_ b = false;
  v_n : sb_n_restart b = Z.of_nat n;
  v_contents : contents (fw_file (sb_writer b)) = frames n blocks;
  v_pos : written_position_ (sb_writer b) = zlen (contents (fw_file (sb_writer b)));
  v_block : default_builder b (block_builder_ b) = build n cur;
  v_index : default_builder b (index_builder_ b) = build n (index_of n 0 blocks);
  v_filter : filter_or_new b = filter_of f0 es;
  v_open : es <> [] -> is_Some (block_builder_ b) /\ is_Some (index_builder_ b) /\ is_Some (filter_builder_ b);
  v_seen : has_seen_first_key_ b = bool_decide (es <> []);
  v_groups : Forall (fun g : list kv => g <> []) blocks;
  v_props : unordered (props_ b) = false /\ last_level (props_ b) = false /\
    is_u 32 (block_size (props_ b)) /\ is_u 64 (last_version (props_ b)) /\
    num_entries (props_ b) = wrap 64 (zlen es);
}.

Lemma sb_inv_new file block_size approx :
  contents file = [] ->
  sb_inv (new_filter (NewSstTableBuilder file block_size (Z.of_nat n) approx)) [] [] []
    (NewSstTableBuilder file block_size (Z.of_nat n) approx).
Proof.
  intros Hf. constructor; cbn; try done.
  - by rewrite Hf.
  - split_and!; [done..| |by unfold is_u |done]. by apply wrap_is_u.
Qed.

Lemma add_entry_inv f0 es blocks cur (b : SB) u s k v :
  sb_inv f0 es blocks cur b -> versioned u s (k, v) -> (es = [] -> s <> 0) ->
  let b' := add_entry k v b in
  sb_writer b' = sb_writer b /\ error_ b' = kOk /\ is_last_level_ b' = false /\
  sb_n_restart b' = Z.of_nat n /\ has_seen_first_key_ b' = true /\
  block_builder_ b' = Some (build n (cur ++ [(k, v)])) /\
  index_builder_ b' = Some (build n (index_of n 0 blocks)) /\
  filter_builder_ b' = Some (filter_of f0 (es ++ [(k, v)])) /\
  (let p := props_ b' in unordered p = false /\ last_level p = false /\
    is_u 32 (block_size p) /\ is_u 64 (last_version p) /\ num_entries p = wrap 64 (zlen es)).
Proof.
  intros Hv (f & v' & [= -> <-] & Htag) Hfirst. destruct Hv. unfold add_entry. cbn zeta.
  rewrite parsed_MakeKey by done. cbn [sequence_number]. rewrite v_seen0, v_last0, v_block0, v_index0.
  assert ((negb (bool_decide (es <> [])) && (s =? 0)) = false) as ->.
  { case_bool_decide as H; [done|]. cbn [negb andb]. apply Z.eqb_neq. auto. }
  cbn. rewrite build_snoc. unfold filter_of. rewrite fold_left_app. cbn. rewrite parsed_MakeKey by done.
  fold (filter_of f0 es). unfold filter_or_new in v_filter0. rewrite v_filter0.
  destruct v_props0 as (P1 & P2 & P3 & P4 & P5).
  split_and!; try done; by case_bool_decide.
Qed.

Lemma close_block_inv (b : SB) blocks cur ib fb :
  cur <> [] -> ib = build n (index_of n 0 blocks) ->
  contents (fw_file (sb_writer b)) = frames n blocks ->
  written_position_ (sb_writer b) = zlen (contents (fw_file (sb_writer b))) ->
  exists w, close_block (build n cur) ib fb b =
      set_builders (build n []) (build n (index_of n 0 (blocks ++ [cur]))) fb (set_writer w kOk b) /\
    contents (fw_file w) = frames n (blocks ++ [cur]) /\
    written_position_ w = zlen (contents (fw_file w)).
Proof.
  intros Hne -> Hc Hp. unfold close_block.
  destruct (bb_Finish_fields (build n cur)) as [Hr Hl]. destruct (build_fields n cur) as [Hr' Hl'].
  rewrite (surjective_pairing (bb_Finish (build n cur))). fold (data_block n cur).
  destruct (WriteBlock_reliable (data_block n cur) b Hp) as (w & E & Hcw & Hpw). rewrite E.
  cbn [error_ set_writer ok negb bool_decide]. exists w. split_and!; [|by rewrite Hcw, Hc, frames_snoc | done].
  change (negb (ok kOk)) with false. cbn iota.
  f_equal.
  - unfold bb_Reset. rewrite Hr, Hr'. done.
  - rewrite index_of_snoc, build_snoc, Hl, Hl'. by rewrite Z.add_0_l, Hp, Hc.
Qed.

Lemma sb_Add_inv f0 es blocks cur (b : SB) u s k v :
  sb_inv f0 es blocks cur b -> versioned u s (k, v) -> (es = [] -> s <> 0) ->
  exists blocks' cur', sb_inv f0 (es ++ [(k, v)]) blocks' cur' (sb_Add ucmp k v b).
Proof.
  intros Hv Hver Hfirst.
  destruct (add_entry_inv f0 es blocks cur b u s k v Hv Hver Hfirst)
    as (Hw & He & Hl & Hn & Hs & Hb & Hi & Hf & Hp).
  unfold sb_Add. cbn zeta. set (b1 := add_entry k v b) in *. rewrite Hb, Hi, Hf.
  destruct Hver as (f & v' & [= -> <-] & Htag). rewrite parsed_MakeKey by done. cbn [snd sequence_number].
  destruct Hv as [Hes _ _ _ Hc Hpos _ _ _ _ _ Hg _].
  assert (Hprops : forall p : SB, props_ p = props_ b1 ->
    let q := update_props ucmp (props_ p) (MakeKey u s f) s in
    unordered q = false /\ last_level q = false /\ is_u 32 (block_size q) /\
    is_u 64 (last_version q) /\ num_entries q = wrap 64 (zlen (es ++ [(MakeKey u s f, v)]))).
  { intros p ->. destruct Hp as (H1 & H2 & H3 & H4 & H5). cbn. split_and!; try done.
    - destruct Htag as [Hs56 _]. cbn in Hs56. unfold is_u in *. destruct (_ <? _); [split; [lia|]|done].
      etransitivity; [apply Hs56|]. done.
    - rewrite H5, zlen_app. unfold wrap. by rewrite Zplus_mod_idemp_l. }
  destruct (block_size_ b1 <=? _).
  - destruct (close_block_inv b1 blocks (cur ++ [(MakeKey u s f, v)]) _
      (filter_of f0 (es ++ [(MakeKey u s f, v)]))
      ltac:(by destruct cur) eq_refl ltac:(by rewrite Hw) ltac:(by rewrite Hw)) as (w & E & Hcw & Hpw).
    rewrite E. cbn -[build update_props filter_of]. change (negb (ok kOk)) with false. cbn iota.
    exists (blocks ++ [cur ++ [(MakeKey u s f, v)]]), []. constructor; cbn -[build update_props filter_of];
      try done.
    + rewrite concat_app. cbn. by rewrite !app_nil_r, app_assoc, Hes.
    + rewrite Hs. symmetry. apply bool_decide_eq_true_2. by destruct es.
    + apply Forall_app. split; [done|]. apply Forall_singleton. by destruct cur.
    + by apply (Hprops b1).
  - exists blocks, (cur ++ [(MakeKey u s f, v)]). cbn -[build update_props filter_of].
    constructor; cbn -[build update_props filter_of]; try done.
    + by rewrite app_assoc, Hes.
    + by rewrite Hw.
    + by rewrite Hw.
    + by rewrite Hb.
    + by rewrite Hi.
    + unfold filter_or_new. cbn -[filter_of]. by rewrite Hf.
    + rewrite Hs. symmetry. apply bool_decide_eq_true_2. by destruct es.
    + by apply (Hprops b1).
Qed.

Definition add_all (es : list kv) (b : SB) : SB :=
  fold_left (fun b e => sb_Add ucmp (fst e) (snd e) b) es b.

Lemma add_all_inv f0 (b : SB) es :
  sb_inv f0 [] [] [] b -> Forall (fun e => exists u s, versioned u s e) es ->
  (forall e es', es = e :: es' -> exists u s, versioned u s e /\ s <> 0) ->
  exists blocks cur, sb_inv f0 es blocks cur (add_all es b).
Proof.
  intros Hb. induction es as [|[k v] es IH] using rev_ind; intros Hall Hfirst.
  { by exists [], []. }
  apply Forall_app in Hall as [Hall Hk%Forall_inv].
  destruct IH as (blocks & cur & Hv); [done | |].
  { intros e es' ->. by apply (Hfirst e (es' ++ [(k, v)])). }
  destruct (decide (es = [])) as [->|Hne].
  - destruct (Hfirst (k, v) [] eq_refl) as (u & s & Hver & Hs).
    unfold add_all. rewrite fold_left_app.
    by eapply (sb_Add_inv _ [] _ _ _ u s).
  - destruct Hk as (u & s & Hver). unfold add_all. rewrite fold_left_app.
    by eapply (sb_Add_inv _ es _ _ _ u s).
Qed.

(** The last block is written when it is not empty. *)
Lemma finish_last f0 es blocks cur (b : SB) :
  sb_inv f0 es blocks cur b ->
  let bb := build n cur in let ib := build n (index_of n 0 blocks) in
  let block := data_block n cur in
  exists w blocks', concat blocks' = es /\ Forall (fun g : list kv => g <> []) blocks' /\
    contents (fw_file w) = frames n blocks' /\ written_position_ w = zlen (contents (fw_file w)) /\
    exists handle, (if zlen block =? 0 then (mkBH 0 0, b) else WriteBlock block b) =
        (handle, set_writer w kOk b) /\
      (if zlen block =? 0 then ib else bb_Add (last_key_ (snd (bb_Finish bb))) (bh_Encode handle) ib) =
      build n (index_of n 0 blocks').
Proof.
  intros []. cbn zeta. destruct (Z.eqb_spec (zlen (data_block n cur)) 0) as [E|E].
  - apply Finish_build_nil in E as ->. exists (sb_writer b), blocks.
    split_and!; try done; [by rewrite <- v_entries0, app_nil_r|].
    exists (mkBH 0 0). split; [|done]. f_equal. unfold set_writer. rewrite <- v_error0. by destruct b.
  - destruct (WriteBlock_reliable (data_block n cur) b v_pos0) as (w & Ew & Hcw & Hpw).
    exists w, (blocks ++ [cur]). split_and!.
    + by rewrite concat_app, <- v_entries0; cbn; rewrite app_nil_r.
    + apply Forall_app. split; [done|]. apply Forall_singleton. intros ->. by apply E.
    + by rewrite Hcw, v_contents0, frames_snoc.
    + done.
    + eexists. split; [exact Ew|]. destruct (bb_Finish_fields (build n cur)) as [_ ->].
      destruct (build_fields n cur) as [_ ->].
      by rewrite index_of_snoc, build_snoc, Z.add_0_l, v_pos0, v_contents0.
Qed.

Lemma sb_Finish_image f0 es blocks cur (b : SB) :
  sb_inv f0 es blocks cur b -> es <> [] ->
  exists blocks' b', concat blocks' = es /\ Forall (fun g : list kv => g <> []) blocks' /\
    sb_Finish b = Done (kOk, b') /\
    contents (fw_file (sb_writer b')) = sst_image n (props_ b) blocks' (fb_Finish (filter_of f0 es)).
Proof.
  intros Hv Hne. destruct (finish_last _ _ _ _ _ Hv) as (w & blocks' & Hes & Hg & Hc & Hp & h & Ew & Ei).
  destruct Hv. destruct (v_open0 Hne) as ([bb Hbb] & [ib Hib] & [fb Hfb]).
  unfold sb_Finish. rewrite Hbb, Hib, Hfb. unfold filter_or_new in v_filter0.
  rewrite Hbb in v_block0. rewrite Hib in v_index0. rewrite Hfb in v_filter0. cbn in v_block0, v_index0.
  subst bb ib fb. exists blocks'. set (filter := fb_Finish (filter_of f0 es)).
  rewrite (surjective_pairing (bb_Finish (build n cur))). fold (data_block n cur).
  rewrite Ew. cbn zeta. rewrite Ei.
  change (error_ (set_writer w kOk b)) with kOk. change (negb (ok kOk)) with false.
  rewrite andb_false_r. cbn iota. fold (data_block n (index_of n 0 blocks')).
  destruct (WriteBlock_reliable filter (set_writer w kOk b)) as (w2 & E2 & C2 & P2); [done|].
  rewrite E2. clear E2 Ew. cbn [error_ set_writer sb_writer]. change (negb (ok kOk)) with false. cbn iota.
  set (index := data_block n (index_of n 0 blocks')).
  destruct (WriteBlock_reliable index (set_writer w2 kOk (set_writer w kOk b))) as (w3 & E3 & C3 & P3); [done|].
  rewrite E3. clear E3. cbn [error_ set_writer sb_writer set_props props_].
  change (negb (ok kOk)) with false. cbn iota.
  set (props := footer_props _ _ _).
  match goal with |- context [WriteBlock (WriteProperties props) ?b4] =>
    destruct (WriteBlock_reliable (WriteProperties props) b4) as (w4 & E4 & C4 & P4); [done|] end.
  rewrite E4. clear E4. cbn [error_ set_writer sb_writer set_props props_ bh_offset].
  change (negb (ok kOk)) with false. cbn iota. unfold fw_WriteFixed64, fw_WriteFixed32.
  destruct (fw_Write_reliable (GetU64 (written_position_ w3)) w4) as (w5 & E5 & C5 & P5).
  rewrite E5. change (negb (ok kOk)) with false. cbn [sb_writer].
  destruct (fw_Write_reliable (GetU32 kSstMagicNumber) w5) as (w6 & E6 & C6 & P6).
  cbn iota. cbn [set_writer sb_writer]. rewrite E6. change (negb (ok kOk)) with false. cbn iota.
  cbn [set_writer sb_writer]. unfold fw_Flush.
  destruct (rel_Flush (fw_file w6)) as [f7 E7]. rewrite E7. change (negb (ok kOk)) with false. cbn iota.
  eexists. split_and!; [exact Hes | exact Hg | reflexivity |]. cbn [set_writer sb_writer fw_file].
  apply wf_Flush_ok in E7. rewrite E7, C6, C5, C4. unfold sst_image, sst_body.
  cbn [sb_writer set_writer set_props] in *.
  assert (props = final_props n (props_ b) blocks' filter) as ->.
  { unfold props, final_props. rewrite P2, Hp, C2, Hc. done. }
  rewrite P3, C3, C2, Hc. done.
Qed.
End build_table.

(** ** The reader *)

Lemma ra_Read_at pre s post :
  ra_Read (pre ++ s ++ post) (zlen pre) (zlen s) = (kOk, s).
Proof.
  unfold ra_Read. rewrite !zlen_app. pose proof (zlen_nonneg s). pose proof (zlen_nonneg post).
  destruct (Z.ltb_spec (zlen pre + (zlen s + zlen post)) (zlen pre)); [lia|].
  destruct (Z.ltb_spec (zlen pre + (zlen s + zlen post) - zlen pre) (zlen s)); [lia|].
  unfold zlen. by rewrite !Nat2Z.id, drop_app_length, take_app_length.
Qed.

Lemma rr_ReadFixed_at k pre v post :
  rr_ReadFixed k (pre ++ le_bytes k v ++ post) (zlen pre) = Some (v mod 256 ^ Z.of_nat k, kOk).
Proof.
  unfold rr_ReadFixed, rr_Read. rewrite <- (zlen_le_bytes k v), ra_Read_at.
  change (bool_decide (kOk = kEOF)) with false. change (ok kOk) with true. cbn -[SetFixed le_bytes].
  pose proof (SetFixed_le_bytes k v []) as H. rewrite app_nil_r in H. by rewrite H, zlen_le_bytes.
Qed.

Lemma ReadBlock_frame verify pre s post :
  ReadBlock (pre ++ frame s ++ post) verify (mkBH (zlen pre) (4 + zlen s)) = Done (kOk, s).
Proof.
  unfold ReadBlock. cbn [bh_offset bh_size]. rewrite <- zlen_frame, ra_Read_at.
  change (negb (ok kOk)) with false. cbn iota. unfold frame, SetFixed32.
  unfold GetU32. rewrite SetFixed_le_bytes. cbn [ofopt obind].
  change (drop 4 (le_bytes 4 (crc32 0 s) ++ s)) with s.
  rewrite Z.mod_small by (apply (crc32_is_u 0 s); by unfold is_u).
  by rewrite Z.eqb_refl, andb_false_r.
Qed.

(** Where the block that an entry of the index names is. *)
Lemma index_of_find n cmp base blocks t :
  ComparatorLaws cmp -> Forall (fun g : list kv => g <> []) blocks ->
  StronglySorted (kv_lt cmp) (concat blocks) ->
  match first_ge cmp t (index_of n base blocks) with
  | Some (_, v) => exists l es r, blocks = l ++ es :: r /\
      v = bh_Encode (mkBH (base + zlen (frames n l)) (4 + zlen (data_block n es))) /\
      first_ge cmp t (concat blocks) = first_ge cmp t es
  | None => first_ge cmp t (concat blocks) = None
  end.
Proof.
  intros Hl. revert base. induction blocks as [|es blocks IH]; intros base Hg Hs; [done|].
  apply Forall_cons in Hg as [Hne Hg]. cbn [index_of first_ge fst]. cbn [concat] in *.
  pose proof (StronglySorted_app_1_l _ _ _ Hs) as Hse.
  destruct (exists_last Hne) as (es0 & [k v] & ->). rewrite last_key_snoc.
  rewrite first_ge_app. destruct (Z.ltb_spec (cmp k t) 0) as [Hlt|Hge].
  - assert (first_ge cmp t (es0 ++ [(k, v)]) = None) as ->.
    { apply first_ge_None, Forall_app. split; [|by constructor].
      apply Forall_forall. intros e He.
      assert (kv_lt cmp e (k, v)) by (eapply StronglySorted_app_1_elem_of; [exact Hse | done | by left]).
      unfold kv_lt, below in *. cbn [fst] in *. apply (cmp_lt_le_trans cmp _ k); [done | lia]. }
    specialize (IH (base + zlen (frame (data_block n (es0 ++ [(k, v)])))) Hg
      (StronglySorted_app_1_r _ _ _ Hs)).
    destruct (first_ge cmp t (index_of _ _ _)) as [[k' v']|]; [|done].
    destruct IH as (l & es & r & -> & -> & E). exists ((es0 ++ [(k, v)]) :: l), es, r.
    split_and!; [done | | done]. unfold frames. cbn [map concat].
    rewrite zlen_app. by rewrite Z.add_assoc.
  - exists [], (es0 ++ [(k, v)]), blocks. split_and!; [done | unfold frames, zlen; cbn; by rewrite Z.add_0_r |].
    destruct (first_ge cmp t (es0 ++ [(k, v)])) eqn:E; [done|].
    apply first_ge_None, Forall_app in E as [_ E%Forall_inv]. unfold below in E. cbn [fst] in E. lia.
Qed.

(** The keys of the index are keys of entries. *)
Lemma index_of_keys n base blocks :
  (blocks <> [] -> index_of n base blocks <> []) /\
  (Forall (fun g : list kv => g <> []) blocks ->
   forall e, e ∈ index_of n base blocks -> exists e', e' ∈ concat blocks /\ fst e = fst e').
Proof.
  split; [by destruct blocks|]. revert base.
  induction blocks as [|es blocks IH]; intros base Hg e; [by intros He%elem_of_nil|].
  apply Forall_cons in Hg as [Hne Hg]. cbn [index_of concat].
  destruct (exists_last Hne) as (es0 & [k v] & ->). rewrite last_key_snoc.
  intros [->|He]%elem_of_cons.
  - exists (k, v). split; [|done]. apply elem_of_app. left. apply elem_of_app. right. by left.
  - destruct (IH _ Hg e He) as (e' & He' & E). exists e'. split; [|done]. apply elem_of_app. by right.
Qed.

(** The index is sorted like the entries. *)
Lemma index_of_sorted n cmp base blocks :
  Forall (fun g : list kv => g <> []) blocks -> StronglySorted (kv_lt cmp) (concat blocks) ->
  StronglySorted (kv_lt cmp) (index_of n base blocks).
Proof.
  revert base. induction blocks as [|es blocks IH]; intros base Hg Hs; [constructor|].
  apply Forall_cons in Hg as [Hne Hg]. cbn [index_of concat] in *.
  set (base' := base + zlen (frame (data_block n es))).
  destruct (exists_last Hne) as (es0 & [k v] & ->). rewrite last_key_snoc.
  constructor; [by apply IH, (StronglySorted_app_1_r _ _ _ Hs)|].
  apply Forall_forall. intros e He. destruct (index_of_keys n base' blocks) as [_ Hk].
  destruct (Hk Hg e He) as (e' & He' & E). unfold kv_lt. cbn [fst]. rewrite E.
  assert (kv_lt cmp (k, v) e') as Hlt; [|exact Hlt].
  eapply StronglySorted_app_1_elem_of; [exact Hs | | done]. apply elem_of_app. right. by left.
Qed.

(** The parts of the image, where they are. *)
Section image.
Context (n : nat) (p : TableProperties) (blocks : list (list kv)) (filter : bytes).

#[local] Abbreviation image := (sst_image n p blocks filter).
#[local] Abbreviation fprops := (final_props n p blocks filter).
#[local] Abbreviation index := (data_block n (index_of n 0 blocks)).

Lemma image_block l es r :
  blocks = l ++ es :: r -> exists post, image = frames n l ++ frame (data_block n es) ++ post.
Proof.
  intros E. assert (frames n blocks = frames n l ++ frame (data_block n es) ++ frames n r) as Ef.
  { rewrite E. unfold frames. rewrite map_app, concat_app. done. }
  unfold sst_image. set (tail := frame (WriteProperties _)). unfold sst_body at 1.
  rewrite Ef, <- !app_assoc. by eexists.
Qed.

Lemma image_filter : exists post, image = frames n blocks ++ frame filter ++ post.
Proof. unfold sst_image, sst_body. rewrite <- !app_assoc. by eexists. Qed.

Lemma image_index : exists post, image = (frames n blocks ++ frame filter) ++ frame index ++ post.
Proof. unfold sst_image, sst_body. eexists. rewrite <- !app_assoc. reflexivity. Qed.

Lemma image_props :
  image = sst_body n blocks filter ++ frame (WriteProperties fprops) ++
          (GetU64 (zlen (sst_body n blocks filter)) ++ GetU32 kSstMagicNumber).
Proof. unfold sst_image. by rewrite <- !app_assoc. Qed.

Lemma zlen_image :
  zlen image = zlen (sst_body n blocks filter) + (4 + zlen (WriteProperties fprops)) + 12.
Proof.
  unfold sst_image, GetU64, GetU32. rewrite !zlen_app, !zlen_le_bytes, zlen_frame. lia.
Qed.

Lemma image_sizes :
  zlen image < 2 ^ 32 ->
  zlen (frames n blocks) + 4 + zlen filter + 4 + zlen index + 4 + zlen (WriteProperties fprops) < 2 ^ 32.
Proof.
  intros H. rewrite zlen_image in H. unfold sst_body in H. rewrite !zlen_app, !zlen_frame in H. lia.
Qed.

Lemma final_props_ok :
  zlen image < 2 ^ 32 -> is_u 32 (block_size p) -> is_u 32 (num_entries p) -> is_u 64 (last_version p) ->
  props_ok fprops.
Proof.
  intros H%image_sizes H1 H2 H3. pose proof (zlen_nonneg (frames n blocks)). pose proof (zlen_nonneg filter).
  pose proof (zlen_nonneg index). pose proof (zlen_nonneg (WriteProperties fprops)).
  unfold final_props, footer_props.
  constructor; cbn [block_size num_entries index_position index_size filter_position filter_size
    last_version bh_offset bh_size]; try done; unfold is_u; rewrite ?zlen_app, ?zlen_frame; lia.
Qed.

Lemma Prepare_image verify :
  zlen image < 2 ^ 32 -> props_ok fprops -> unordered p = false ->
  Prepare image verify = Done (inr (mkSR image verify fprops (NewKeyBloomFilter filter kBloomFilterHashs))).
Proof.
  intros Hlt Hok Hu. pose proof (image_sizes Hlt) as Hsz. unfold Prepare. cbn zeta.
  pose proof zlen_image as Hz. pose proof (zlen_nonneg (WriteProperties fprops)).
  pose proof (zlen_nonneg (sst_body n blocks filter)).
  destruct (Z.ltb_spec (zlen image) 12); [lia|].
  set (body := sst_body n blocks filter) in *. set (fr := frame (WriteProperties fprops)).
  assert (Hfr : zlen fr = 4 + zlen (WriteProperties fprops)) by apply zlen_frame.
  assert (E1 : rr_ReadFixed 4 image (zlen image - 4) = Some (kSstMagicNumber, kOk)).
  { replace (zlen image - 4) with (zlen ((body ++ fr) ++ GetU64 (zlen body)))
      by (rewrite Hz; unfold GetU64; rewrite !zlen_app, zlen_le_bytes; lia).
    unfold sst_image. fold body fr. unfold GetU32. rewrite <- (app_nil_r (le_bytes 4 _)).
    by rewrite rr_ReadFixed_at. }
  assert (E2 : rr_ReadFixed 8 image (zlen image - 12) = Some (zlen body, kOk)).
  { replace (zlen image - 12) with (zlen (body ++ fr)) by (rewrite Hz, zlen_app; lia).
    unfold sst_image. fold body fr. rewrite <- app_assoc. unfold GetU64 at 1.
    rewrite rr_ReadFixed_at, Z.mod_small; [done|]. change (256 ^ Z.of_nat 8) with (2 ^ 64). lia. }
  rewrite E1. cbn [ofopt obind]. change (negb (ok kOk)) with false. cbn iota. rewrite Z.eqb_refl.
  cbn [negb]. rewrite E2. cbn [ofopt obind]. change (negb (ok kOk)) with false. cbn iota.
  destruct (Z.leb_spec (zlen image - 12) (zlen body)); [lia|].
  replace (zlen image - 12 - zlen body) with (4 + zlen (WriteProperties fprops)) by lia.
  rewrite image_props at 1. rewrite ReadBlock_frame. cbn [obind].
  rewrite ReadProperties_Write; [|done|unfold in_memory; pose proof (zlen_nonneg (frames n blocks));
    pose proof (zlen_nonneg filter); pose proof (zlen_nonneg index); lia].
  cbn [ofopt obind]. change (unordered fprops) with (unordered p). rewrite Hu.
  destruct image_index as [pi Ei]. destruct image_filter as [pf Ef].
  assert (Hi : ReadBlock image verify (mkBH (index_position fprops) (index_size fprops)) = Done (kOk, index))
    by (rewrite Ei; apply ReadBlock_frame).
  assert (Hf : ReadBlock image verify (mkBH (filter_position fprops) (filter_size fprops)) = Done (kOk, filter))
    by (rewrite Ef; apply ReadBlock_frame).
  rewrite Hi, Hf. by destruct verify.
Qed.

(** A block of the file, as an iterator that seeks. *)
Lemma sr_Seek_block cmp r verify pre es post t :
  ComparatorLaws cmp -> (0 < n)%nat -> es <> [] ->
  zlen (sr_file r) < 2 ^ 32 -> Forall (fun e => in_memory (fst e)) es -> StronglySorted (kv_lt cmp) es ->
  sr_file r = pre ++ frame (data_block n es) ++ post ->
  exists it it', sr_NewBlockIterator r verify (mkBH (zlen pre) (4 + zlen (data_block n es))) = Done (inr it) /\
    bi_Seek cmp t it = Done it' /\
    match first_ge cmp t es with
    | Some e => bi_Valid it' = true /\ bi_current it' = Some e
    | None => bi_Valid it' = false
    end.
Proof.
  intros Hl Hn Hne Hlt Hk Hs Hf. unfold sr_NewBlockIterator. rewrite Hf, ReadBlock_frame.
  destruct (block_seek cmp n es t Hl Hn Hne) as (it & it' & E1 & E2 & E3); [|done..|].
  - pose proof (Finish_size (build n es)) as Hsz. fold (data_block n es) in Hsz.
    rewrite Hf, !zlen_app, zlen_frame in Hlt. pose proof (zlen_nonneg pre). pose proof (zlen_nonneg post). lia.
  - exists it, it'. cbn [obind]. change (negb (ok kOk)) with false. cbn iota. fold (data_block n es) in E1.
    rewrite E1. split_and!; [done..|]. by destruct (first_ge cmp t es) as [e|]; [|destruct E3].
Qed.
End image.

(** ** Lookups in the file *)

(** A file for which the lemmas above find every block answers like the list
    of its entries. *)
Lemma sr_Get_blocks ucmp n p blocks filter verify verify' uk sq fl :
  ComparatorLaws ucmp -> (0 < n)%nat -> blocks <> [] -> Forall (fun g : list kv => g <> []) blocks ->
  Forall (fun e => in_memory (fst e)) (concat blocks) ->
  StronglySorted (kv_lt (InternalCompare ucmp)) (concat blocks) -> tag_ok (mkTag sq fl) ->
  zlen (sst_image n p blocks filter) < 2 ^ 32 ->
  sr_Get ucmp verify' (MakeKey uk sq fl)
    (mkSR (sst_image n p blocks filter) verify (final_props n p blocks filter)
      (NewKeyBloomFilter filter kBloomFilterHashs)) =
  Done (table_get ucmp (MakeKey uk sq fl) (concat blocks)).
Proof.
  intros Hl Hn Hne Hg Hm Hs Ht Hlt. set (t := MakeKey uk sq fl). set (r := mkSR _ _ _ _).
  set (icmp := InternalCompare ucmp) in *. pose proof (InternalCompare_laws ucmp) as Hil.
  pose proof (image_sizes n p blocks filter Hlt) as Hsz.
  pose proof (index_of_sorted n icmp 0 blocks Hg Hs) as Hsi.
  destruct (image_index n p blocks filter) as [pi Ei].
  unfold sr_Get, NewIndexIterator.
  destruct (sr_Seek_block n icmp r verify (frames n blocks ++ frame filter) (index_of n 0 blocks) pi t)
    as (ii & ii' & E1 & E2 & E3); try done.
  { by destruct blocks. }
  { apply Forall_forall. intros e He. destruct (index_of_keys n 0 blocks) as [_ Hki].
    destruct (Hki Hg e He) as (e' & He' & ->). rewrite Forall_forall in Hm. by apply Hm. }
  change (index_position (sr_props r)) with (zlen (frames n blocks ++ frame filter)).
  change (index_size (sr_props r)) with (4 + zlen (data_block n (index_of n 0 blocks))).
  change (sr_verify r) with verify.
  rewrite E1. cbn [obind]. fold icmp. rewrite E2. cbn [obind]. unfold table_get. fold icmp.
  pose proof (index_of_find n icmp 0 blocks t Hil Hg Hs) as Hfind.
  destruct (first_ge icmp t (index_of n 0 blocks)) as [[k v]|].
  2:{ rewrite E3, Hfind. done. }
  destruct E3 as [-> ->]. destruct Hfind as (l & es & rr & E & -> & ->). cbn [negb ofopt obind snd].
  destruct (image_block n p blocks filter l es rr E) as [post Ep].
  pose proof (f_equal zlen Ep) as Hz. rewrite !zlen_app, zlen_frame in Hz.
  pose proof (zlen_nonneg (frames n l)). pose proof (zlen_nonneg post).
  pose proof (zlen_nonneg (data_block n es)).
  rewrite <- (app_nil_r (bh_Encode _)), bh_Decode_Encode by (cbn [bh_offset bh_size]; unfold is_u; lia).
  cbn [ofopt obind]. rewrite Z.add_0_l.
  rewrite E, concat_app in Hm, Hs. cbn [concat] in Hm, Hs.
  apply Forall_app in Hm as [_ [Hm _]%Forall_app].
  apply StronglySorted_app_1_r, StronglySorted_app_1_l in Hs.
  rewrite E in Hg. apply Forall_app in Hg as [_ [Hnes _]%Forall_cons].
  destruct (sr_Seek_block n icmp r verify' (frames n l) es post t)
    as (bi & bi' & F1 & F2 & F3); try done.
  rewrite F1. cbn [obind]. rewrite F2. cbn [obind].
  destruct (first_ge icmp t es) as [[k' v']|].
  2:{ by rewrite F3. }
  destruct F3 as [-> ->]. cbn [negb ofopt obind]. destruct (parsed k') as [uk' tag] eqn:Ek.
  unfold t. rewrite ExtractUserKey_MakeKey, parsed_MakeKey by done. cbn. by destruct (_ =? 0).
Qed.

(** The filter of a builder with a sensible block size has room. *)
Lemma new_filter_ok {F} `{WritableFile F} (file : F) block_size n approx :
  512 <= block_size < 2 ^ 32 -> block_size mod 4 = 0 -> 0 <= approx < 2 ^ 32 ->
  filter_ok (new_filter (NewSstTableBuilder file block_size n approx)).
Proof.
  intros Hb H4 Ha. apply NewFilter_ok; cbn [approximated_n_entries_ block_size_ NewSstTableBuilder];
    unfold ComputeBoomFilterSize; change (zlen kBloomFilterHashs) with 5.
  - destruct (Z.eqb_spec approx 0); [lia|]. unfold RoundUp, RoundDown.
    rewrite (wrap_small 64 (approx * _ + _)) by (unfold is_u; lia).
    set (q := (approx * (5 * 2) + 7) / 8). assert (0 <= q < 2 ^ 34) by (unfold q; split; [apply Z.div_pos; lia|apply Z.div_lt_upper_bound; lia]).
    rewrite (wrap_small 64 (q + _ - 1)) by (unfold is_u; lia).
    set (x := q + block_size - 1). assert (0 <= Z.land x (- block_size) <= x).
    { split; [apply Z.land_nonneg; lia|]. apply land_le. lia. }
    rewrite wrap_small by (unfold is_u; lia). lia.
  - destruct (Z.eqb_spec approx 0).
    + rewrite Zminus_mod, Zmult_mod, H4. done.
    + set (x := wrap 64 _ / 8). unfold RoundUp, RoundDown, wrap.
      set (y := (x + _ - 1) mod _).
      assert (Z.land y (- block_size) mod 4 = 0) as Hy.
      { change 4 with (2 ^ 2). rewrite <- !Z.land_ones, <- Z.land_assoc by lia.
        rewrite (Z.land_ones (- block_size)) by lia. change (2 ^ 2) with 4.
        rewrite Z.mod_opp_l_z by lia. apply Z.land_0_r. }
      rewrite Zminus_mod, Z.mod_mod_divide by (by exists (2 ^ 62)).
      rewrite Zplus_mod, Hy, H4. done.
Qed.

Lemma filter_of_spec f0 es e :
  filter_ok f0 -> e ∈ es ->
  let f := filter_of f0 es in filter_ok f /\ hashs_ f = hashs_ f0 /\ MayExist (fst (parsed (fst e))) f = true.
Proof.
  intros Hf He. cbn zeta. assert (filter_of f0 es =
    fold_left (fun f k => AddKey k f) (map (fun e => fst (parsed (fst e))) es) f0) as ->.
  { unfold filter_of. clear. revert f0. induction es as [|e es IH]; intros f0; [done|]. apply IH. }
  apply (fold_AddKey (fst (parsed (fst e)))); [done|]. left.
  apply list_elem_of_In, in_map_iff. exists e. split; [done | by apply list_elem_of_In].
Qed.

(** What a table is built from: a sensible block size, and entries in order. *)
Record sst_entries {F} `{WritableFile F} (ucmp : bytes -> bytes -> Z) (n : nat) (file : F)
    (block_size approx : Z) (es : list kv) : Prop := {
  in_restart : (0 < n)%nat;
  in_block_size : 512 <= block_size < 2 ^ 32;
  in_aligned : block_size mod 4 = 0;
  in_approx : 0 <= approx < 2 ^ 32;
  in_file : contents file = [];
  in_some : es <> [];
  in_count : zlen es < 2 ^ 32;
  in_keys : Forall (fun e => in_memory (fst e)) es;
  in_versions : Forall (fun e => exists u s, versioned u s e) es;
  in_sorted : StronglySorted (kv_lt (InternalCompare ucmp)) es;
}.

(** Whether the builders leave the tags out: when the first entry has the
    sequence number 0. *)
Definition untagged (es : list kv) : bool :=
  match es with e :: _ => sequence_number (snd (parsed (fst e))) =? 0 | [] => false end.

(** Entries of which a table with tags is built. *)
Record sst_input {F} `{WritableFile F} (ucmp : bytes -> bytes -> Z) (n : nat) (file : F)
    (block_size approx : Z) (es : list kv) : Prop := {
  in_entries :> sst_entries ucmp n file block_size approx es;
  in_first : forall e es', es = e :: es' -> exists u s, versioned u s e /\ s <> 0;
}.

Lemma tagged_input {F} `{WritableFile F} ucmp n (file : F) block_size approx es :
  sst_entries ucmp n file block_size approx es -> untagged es = false -> sst_input ucmp n file block_size approx es.
Proof.
  intros Hin Ht. split; [done|]. intros e es' ->. destruct Hin as [_ _ _ _ _ _ _ _ (u & s & Hv)%Forall_inv _].
  exists u, s. split; [done|]. intros ->. destruct Hv as (f & v & -> & Htag). cbn [untagged fst] in Ht. by rewrite parsed_MakeKey in Ht.
Qed.

(** The finished file is an image, and [Prepare] accepts it. *)
Lemma sst_build {F} `{WritableFile F, !WritableFileLaws F, !ReliableFile F} ucmp n (file : F)
    block_size approx es :
  sst_input ucmp n file block_size approx es ->
  let b0 := NewSstTableBuilder file block_size (Z.of_nat n) approx in
  let filter := fb_Finish (filter_of (new_filter b0) es) in
  exists b p blocks, sb_Finish (add_all ucmp es b0) = Done (kOk, b) /\
    contents (fw_file (sb_writer b)) = sst_image n p blocks filter /\
    concat blocks = es /\ Forall (fun g : list kv => g <> []) blocks /\ last_level p = false /\
    num_entries p = zlen es /\
    forall verify, zlen (sst_image n p blocks filter) < 2 ^ 32 ->
      Prepare (sst_image n p blocks filter) verify =
      Done (inr (mkSR (sst_image n p blocks filter) verify (final_props n p blocks filter)
        (NewKeyBloomFilter filter kBloomFilterHashs))).
Proof.
  intros [[Hn Hb H4 Ha Hc Hne Hlen Hm Hver Hs] Hfirst] b0 filter.
  destruct (add_all_inv ucmp n _ b0 es (sb_inv_new n file block_size approx Hc) Hver Hfirst)
    as (blocks & cur & Hv).
  destruct (sb_Finish_image n _ _ _ _ _ Hv Hne) as (blocks' & b & Hes & Hg & Hfin & Hcon).
  destruct Hv as [_ _ _ _ _ _ _ _ _ _ _ _ (P1 & P2 & P3 & P4 & P5)].
  assert (Hcount : num_entries (props_ (add_all ucmp es b0)) = zlen es)
    by (pose proof (zlen_nonneg es); rewrite P5, wrap_small; unfold is_u; lia).
  exists b, (props_ (add_all ucmp es b0)), blocks'. split_and!; [done..|].
  intros verify Hlt. apply Prepare_image; [done | | done]. apply final_props_ok; try done.
  pose proof (zlen_nonneg es). rewrite Hcount. unfold is_u. lia.
Qed.

(** ** Properties *)

Lemma sst_answers {F} `{WritableFile F, !WritableFileLaws F, !ReliableFile F} ucmp n (file : F)
    block_size approx es verify :
  ComparatorLaws ucmp -> sst_input ucmp n file block_size approx es ->
  exists b, sb_Finish (add_all ucmp es (NewSstTableBuilder file block_size (Z.of_nat n) approx)) =
      Done (kOk, b) /\
    (zlen (contents (fw_file (sb_writer b))) < 2 ^ 32 ->
     exists r, Prepare (contents (fw_file (sb_writer b))) verify = Done (inr r) /\
       (forall verify' uk sq fl, tag_ok (mkTag sq fl) ->
         sr_Get ucmp verify' (MakeKey uk sq fl) r = Done (table_get ucmp (MakeKey uk sq fl) es)) /\
       (forall e, e ∈ es -> MayExists (fst (parsed (fst e))) (sr_filter r) = true)).
Proof.
  intros Hl Hin. pose proof (sst_build _ _ _ _ _ _ Hin) as (b & p & blocks & Hfin & Hcon & Hes & Hg & _ & _ & Hprep).
  exists b. split; [exact Hfin|]. rewrite Hcon. intros Hlt. eexists. split; [by apply Hprep|].
  destruct Hin as [[Hn Hb H4 Ha _ Hne _ Hm _ Hs] _]. split.
  - intros verify' uk sq fl Ht. rewrite <- Hes. apply sr_Get_blocks; rewrite ?Hes; try done.
    intros ->. by apply Hne.
  - intros e He. cbn [sr_filter].
    destruct (filter_of_spec _ es e (new_filter_ok file block_size (Z.of_nat n) approx Hb H4 Ha) He) as (F1 & F2 & F3).
    pose proof (KeyBloomFilter_Finish (fst (parsed (fst e))) _ F1) as HK.
    rewrite F2, F3 in HK. exact HK.
Qed.

(** C36: a table built on a reliable file from a non-empty list of entries with
    increasing internal keys, of which the first does not have the sequence
    number 0, is finished without an error, and (below 4 GB) the file can be
    opened again; every lookup in it then returns what the list of entries
    answers, and the filter contains every user key. (When the first has the
    sequence number 0 the builder drops the tags without saying so, and lookups
    fail: [last_level_unreadable].) *)
Theorem SstTable_Get {F} `{WritableFile F, !WritableFileLaws F, !ReliableFile F} ucmp n (file : F)
    block_size approx es verify :
  ComparatorLaws ucmp -> sst_entries ucmp n file block_size approx es -> untagged es = false ->
  exists b, sb_Finish (add_all ucmp es (NewSstTableBuilder file block_size (Z.of_nat n) approx)) =
      Done (kOk, b) /\
    (zlen (contents (fw_file (sb_writer b))) < 2 ^ 32 ->
     exists r, Prepare (contents (fw_file (sb_writer b))) verify = Done (inr r) /\
       (forall verify' uk sq fl, tag_ok (mkTag sq fl) ->
         sr_Get ucmp verify' (MakeKey uk sq fl) r = Done (table_get ucmp (MakeKey uk sq fl) es)) /\
       (forall e, e ∈ es -> MayExists (fst (parsed (fst e))) (sr_filter r) = true)).
Proof. intros Hl Hin Ht. by apply sst_answers, tagged_input. Qed.

Definition sample_entries : list kv :=
  [(MakeKey [97] 7 0, [1]); (MakeKey [97] 5 0, [2]); (MakeKey [98] 6 1, [])].

Lemma sample_input : sst_entries lex 2 (mkMem []) 512 3 sample_entries.
Proof.
  constructor; try done.
  - lia.
  - by repeat constructor.
  - repeat apply Forall_cons_2; [exists [97], 7 | exists [97], 5 | exists [98], 6 | apply Forall_nil_2];
      eexists _, _; (split; [reflexivity | done]).
  - repeat first [apply SSorted_cons | apply SSorted_nil | apply Forall_cons_2
                  | apply Forall_nil_2 | reflexivity].
Qed.

Lemma SstTable_Get_witness :
  exists b, sb_Finish (add_all lex sample_entries (NewSstTableBuilder (mkMem []) 512 2 3)) = Done (kOk, b) /\
    (zlen (contents (fw_file (sb_writer b))) < 2 ^ 32 ->
     exists r, Prepare (contents (fw_file (sb_writer b))) true = Done (inr r) /\
       (forall verify' uk sq fl, tag_ok (mkTag sq fl) ->
         sr_Get lex verify' (MakeKey uk sq fl) r = Done (table_get lex (MakeKey uk sq fl) sample_entries)) /\
       (forall e, e ∈ sample_entries -> MayExists (fst (parsed (fst e))) (sr_filter r) = true)).
Proof. apply (SstTable_Get lex 2 (mkMem []) 512 3 sample_entries true); [apply _ | apply sample_input | reflexivity]. Defined.

(** A first key with sequence number 0 makes the builder drop the tags, but
    the properties do not say so: the key is in the file and cannot be found. *)
Example last_level_unreadable :
  match sb_Finish (sb_Add lex (MakeKey [97] 0 0) [1] (NewSstTableBuilder (mkMem []) 512 2 3)) with
  | Done (kOk, b) =>
    match Prepare (contents (fw_file (sb_writer b))) true with
    | Done (inr r) =>
      last_level (sr_props r) = false /\ sr_Get lex true (MakeKey [97] 5 0) r = Done (inl kNotFound)
    | _ => False
    end
  | _ => False
  end /\
  table_get lex (MakeKey [97] 5 0) [(MakeKey [97] 0 0, [1])] = inr (mkTag 0 0, [1]).
Proof. vm_compute. done. Qed.
