(* ===== verification/S1Table.v ===== *)
(** * S1Table

    src/table/plain-block-builder.{h,cc}, src/table/s1-table-builder.{h,cc} and
    src/table/s1-table-reader.{h,cc}: the table of a family with the option
    [use_unordered_table].  Its index is a hash table: for every bucket the
    places (block and offset) of its entries, in the order in which they were
    added.

    The reader opens blocks as [Sst.ReadBlock] does, to which the cache of
    blocks is related ([BlockCache]). *)

From S2P Require Import Prelude Varint Slice Hash IO Keys Entries Iterator Table Block Sst.

(** ** PlainBlockBuilder *)

Record PlainBlockBuilder := mkPlain { pb_last_level : bool; pb_buf : bytes; pb_last_key : bytes }.

Definition NewPlainBlockBuilder (last_level : bool) : PlainBlockBuilder := mkPlain last_level [] [].
Definition pb_Reset (b : PlainBlockBuilder) : PlainBlockBuilder := mkPlain (pb_last_level b) [] [].
Definition pb_Finish (b : PlainBlockBuilder) : bytes := pb_buf b.
Definition pb_CurrentSizeEstimate (b : PlainBlockBuilder) : Z := zlen (pb_buf b).

(** A key with a prefix of [shared] bytes that the key before it has. *)
Definition put_key (shared : Z) (private : bytes) : bytes := GetV64 shared ++ GetV64 (zlen private) ++ private.

(** [Add] returns the offset of the entry; a key without a tag is undefined
    unless tags are left out. *)
Definition pb_Add (ucmp : bytes -> bytes -> Z) (key value : bytes) (b : PlainBlockBuilder) : outcome (Z * PlainBlockBuilder) :=
  let internal_offset := wrap 32 (zlen (pb_buf b)) in
  let last_key := pb_last_key b in
  (do! k := (if pb_last_level b then
       Done (if negb (zlen last_key =? 0) && (ucmp last_key key =? 0) then put_key (zlen last_key) [] else put_key 0 key)
     else
       do! k1 := (if zlen last_key =? 0 then Done [] else ofopt (ExtractUserKey last_key)) in
       do! k2 := ofopt (ExtractUserKey key) in
       Done (if negb (zlen last_key =? 0) && (ucmp k1 k2 =? 0) then put_key (zlen k1) (drop (length k2) key) else put_key 0 key)) in
   Done (internal_offset, mkPlain (pb_last_level b) (pb_buf b ++ k ++ GetV64 (zlen value) ++ value) key))%out.

(** ** S1TableBuilder *)

(** The place of an entry: the block and the offset in it. *)
Record Index := mkIndex { block_idx : Z; offset : Z }.

Definition kInvalidIdx : Z := 2 ^ 64 - 1.

Record S1TableBuilder (F : Type) := mkS1 {
  s1_writer : FileWriter F;
  max_buckets_ : nat;
  s1_block_size : Z;
  s1_approximated_n_entries : Z;
  s1_error : error;
  s1_seen : bool;
  buckets_ : list (list Index);
  s1_props : TableProperties;
  s1_block_builder : option PlainBlockBuilder;
  s1_filter_builder : option FilterBlockBuilder;
  unbound_index_ : list nat;
  block_map_ : list BlockHandle;
}.
Arguments mkS1 {F}.
Arguments s1_writer {F}.
Arguments max_buckets_ {F}.
Arguments s1_block_size {F}.
Arguments s1_approximated_n_entries {F}.
Arguments s1_error {F}.
Arguments s1_seen {F}.
Arguments buckets_ {F}.
Arguments s1_props {F}.
Arguments s1_block_builder {F}.
Arguments s1_filter_builder {F}.
Arguments unbound_index_ {F}.
Arguments block_map_ {F}.

Section s1_builder.
(** [conflicts] is the test [conflict_factor > 3] of the numbers of entries and
    of buckets. *)
Context {F : Type} `{!WritableFile F} (ucmp : bytes -> bytes -> Z) (uhash : bytes -> Z) (conflicts : Z -> Z -> bool).

#[local] Abbreviation icmp := (InternalCompare ucmp).
#[local] Abbreviation S1 := (S1TableBuilder F).

(** [props_] of a new table. *)
Definition s1_new_props (block_size : Z) : TableProperties := mkProps true false (wrap 32 block_size) 0 0 0 0 0 0 [] [].

Definition NewS1TableBuilder (file : F) (max_hash_slots : nat) (block_size approximated_n_entries : Z) : S1 :=
  mkS1 (NewFileWriter file) max_hash_slots block_size approximated_n_entries kOk false (replicate max_hash_slots [])
    (s1_new_props block_size) None None [] [].

Definition s1_set_writer (w : FileWriter F) (e : error) (b : S1) : S1 :=
  mkS1 w (max_buckets_ b) (s1_block_size b) (s1_approximated_n_entries b) e (s1_seen b) (buckets_ b) (s1_props b)
    (s1_block_builder b) (s1_filter_builder b) (unbound_index_ b) (block_map_ b).

Definition s1_set_props (p : TableProperties) (b : S1) : S1 :=
  mkS1 (s1_writer b) (max_buckets_ b) (s1_block_size b) (s1_approximated_n_entries b) (s1_error b) (s1_seen b) (buckets_ b) p
    (s1_block_builder b) (s1_filter_builder b) (unbound_index_ b) (block_map_ b).

Definition s1_WriteBlock (block : bytes) (b : S1) : BlockHandle * S1 :=
  let handle := mkBH (written_position_ (s1_writer b)) (4 + zlen block) in
  let '(e, w) := fw_WriteFixed32 (crc32 0 block) (s1_writer b) in
  if negb (ok e) then (mkBH 0 0, s1_set_writer w e b)
  else
    let '(e, w) := fw_Write block w in
    if negb (ok e) then (mkBH 0 0, s1_set_writer w e b) else (handle, s1_set_writer w e b).

(** The entries of a bucket that have no block yet get it. *)
Definition bind_block (idx : Z) (ix : Index) : Index := if block_idx ix =? kInvalidIdx then mkIndex idx (offset ix) else ix.

Definition bind_buckets (unbound : list nat) (idx : Z) (buckets : list (list Index)) : list (list Index) :=
  imap (fun i l => if bool_decide (i ∈ unbound) then map (bind_block idx) l else l) buckets.

Definition FlushBlock (b : S1) : outcome S1 :=
  (do! bb := ofopt (s1_block_builder b) in
   let '(bh, b) := s1_WriteBlock (pb_Finish bb) b in
   if negb (ok (s1_error b)) then Done b
   else
     Done (mkS1 (s1_writer b) (max_buckets_ b) (s1_block_size b) (s1_approximated_n_entries b) (s1_error b) (s1_seen b)
       (bind_buckets (unbound_index_ b) (zlen (block_map_ b)) (buckets_ b)) (s1_props b) (Some (pb_Reset bb)) (s1_filter_builder b)
       [] (block_map_ b ++ [bh])))%out.

(** The properties after the first key, and after every key. *)
Definition s1_first_props (p : TableProperties) (key : bytes) : TableProperties :=
  mkProps (unordered p) (last_level p || (sequence_number (snd (parsed key)) =? 0)) (block_size p) (num_entries p) (index_position p) (index_size p)
    (filter_position p) (filter_size p) (last_version p) key key.

Definition s1_new_filter (b : S1) : FilterBlockBuilder :=
  NewFilterBlockBuilder (ComputeBoomFilterSize (s1_approximated_n_entries b) (s1_block_size b) (zlen kBloomFilterHashs) - 4) kBloomFilterHashs.

(** [push_back] to the bucket [slot]. *)
Definition push_index (slot : nat) (ix : Index) (buckets : list (list Index)) : outcome (list (list Index)) :=
  (do! l := ofopt (buckets !! slot : option (list Index)) in Done (<[slot := l ++ [ix]]> buckets))%out.

Definition s1_slot (key : bytes) (n : nat) : outcome nat :=
  if (n =? 0)%nat then Undef
  else (do! user_key := ofopt (ExtractUserKey key) in Done (Z.to_nat (uhash user_key mod Z.of_nat n)))%out.

Definition s1_Add (key value : bytes) (b : S1) : outcome S1 :=
  let '(user_key, tag) := parsed key in
  let props := if s1_seen b then s1_props b else s1_first_props (s1_props b) key in
  let bb := match s1_block_builder b with Some bb => bb | None => NewPlainBlockBuilder (last_level props) end in
  let fb := match s1_filter_builder b with Some fb => fb | None => s1_new_filter b end in
  (do! (off, bb) := pb_Add ucmp (if last_level props then user_key else key) value bb in
   do! slot := s1_slot key (max_buckets_ b) in
   do! buckets := push_index slot (mkIndex kInvalidIdx off) (buckets_ b) in
   let unbound := if bool_decide (slot ∈ unbound_index_ b) then unbound_index_ b else slot :: unbound_index_ b in
   let b := mkS1 (s1_writer b) (max_buckets_ b) (s1_block_size b) (s1_approximated_n_entries b) (s1_error b) true buckets props
     (Some bb) (Some (AddKey user_key fb)) unbound (block_map_ b) in
   let flush := s1_block_size b <=? pb_CurrentSizeEstimate bb in
   do! b := (if flush then FlushBlock b else Done b) in
   if flush && negb (ok (s1_error b)) then Done b
   else Done (s1_set_props (update_props ucmp (s1_props b) key (sequence_number tag)) b))%out.

(** The block of the index: the places of the blocks, then the buckets. *)
Definition put_index (ix : Index) : bytes := GetV64 (block_idx ix) ++ GetV32 (offset ix).
Definition put_bucket (l : list Index) : bytes := GetV64 (zlen l) ++ concat (map put_index l).
Definition index_block (map_ : list BlockHandle) (max_buckets : nat) (buckets : list (list Index)) : bytes :=
  (GetV64 (zlen map_) ++ concat (map bh_Encode map_)) ++ GetV64 (Z.of_nat max_buckets) ++ concat (map put_bucket buckets).

Definition WriteIndex (b : S1) : BlockHandle * S1 := s1_WriteBlock (index_block (block_map_ b) (max_buckets_ b) (buckets_ b)) b.

Definition WriteFilter (b : S1) : outcome (BlockHandle * S1) :=
  (do! fb := ofopt (s1_filter_builder b) in Done (s1_WriteBlock (fb_Finish fb) b))%out.

Definition index_props (p : TableProperties) (index : BlockHandle) : TableProperties :=
  mkProps (unordered p) (last_level p) (block_size p) (num_entries p) (bh_offset index) (bh_size index) (filter_position p) (filter_size p)
    (last_version p) (p_smallest_key p) (p_largest_key p).
Definition filter_props (p : TableProperties) (filter : BlockHandle) : TableProperties :=
  mkProps (unordered p) (last_level p) (block_size p) (num_entries p) (index_position p) (index_size p) (bh_offset filter) (bh_size filter)
    (last_version p) (p_smallest_key p) (p_largest_key p).

(** [Finish]; errors of the index and of the filter are looked at only after the
    properties have been written. *)
Definition s1_Finish (b : S1) : outcome (error * S1) :=
  (do! b' := (if (length (unbound_index_ b) =? 0)%nat then Done b else FlushBlock b) in
   if negb (length (unbound_index_ b) =? 0)%nat && negb (ok (s1_error b')) then Done (s1_error b', b') else
   let '(index, b) := WriteIndex b' in
   let b := s1_set_props (index_props (s1_props b) index) b in
   do! b := (if conflicts (num_entries (s1_props b)) (Z.of_nat (max_buckets_ b)) then
               do! (filter, b) := WriteFilter b in Done (s1_set_props (filter_props (s1_props b) filter) b)
             else Done b) in
   let '(props, b) := s1_WriteBlock (WriteProperties (s1_props b)) b in
   if negb (ok (s1_error b)) then Done (s1_error b, b) else
   let '(e, w) := fw_WriteFixed64 (bh_offset props) (s1_writer b) in
   let b := s1_set_writer w e b in
   if negb (ok e) then Done (e, b) else
   let '(e, w) := fw_WriteFixed32 kS1tMagicNumber (s1_writer b) in
   let b := s1_set_writer w e b in
   if negb (ok e) then Done (e, b) else
   let '(e, w) := fw_Flush (s1_writer b) in
   let b := s1_set_writer w e b in
   if negb (ok e) then Done (e, b) else Done (kOk, b))%out.

(** [Abandon]; [Truncate] is a method of the file. *)
Definition s1_Abandon (Truncate : F -> error * F) (b : S1) : S1 :=
  let w := s1_writer b in
  let '(e, file) := Truncate (fw_file w) in
  mkS1 (mkFW file (written_position_ w)) (max_buckets_ b) (s1_block_size b) (s1_approximated_n_entries b) e false
    (replicate (max_buckets_ b) []) (s1_new_props (s1_block_size b)) None None [] [].

Definition s1_NumEntries (b : S1) : Z := num_entries (s1_props b).

(** [FileSize]: 0 when the file cannot say. *)
Definition s1_FileSize (GetFileSize : F -> error + Z) (b : S1) : Z :=
  match GetFileSize (fw_file (s1_writer b)) with inr size => size | inl _ => 0 end.
End s1_builder.

(** ** S1TableReader *)

(** [filter_] is [KeyFilterImpl] when there is none. *)
Record S1TableReader := mkS1R {
  s1r_file : bytes; s1r_verify : bool; s1r_props : TableProperties;
  s1r_block_map : list BlockHandle; index_ : list (list Index); filter_ : option KeyBloomFilter
}.

(** [n] times. *)
Fixpoint read_n {A} (n : nat) (m : BR A) : BR (list A) :=
  match n with
  | O => br_ret []
  | S n => (let! x := m in let! l := read_n n m in br_ret (x :: l))%br
  end.

Definition read_handle : BR BlockHandle := (let! offset := ReadVarint64 in let! size := ReadVarint64 in br_ret (mkBH offset size))%br.
Definition read_index : BR Index := (let! idx := ReadVarint64 in let! offset := ReadVarint32 in br_ret (mkIndex idx offset))%br.
Definition read_bucket : BR (list Index) := (let! size := ReadVarint64 in read_n (Z.to_nat size) read_index)%br.

Definition read_index_block : BR (list BlockHandle * list (list Index)) :=
  (let! block_map_size := ReadVarint64 in
   let! block_map := read_n (Z.to_nat block_map_size) read_handle in
   let! index_size := ReadVarint64 in
   let! index := read_n (Z.to_nat index_size) read_bucket in
   br_ret (block_map, index))%br.

(** [Prepare]; here an error of [ReadBlock] is always looked at. *)
Definition s1_Prepare (data : bytes) (verify : bool) : outcome (error + S1TableReader) :=
  let file_size := zlen data in
  if file_size <? 12 then Done (inl kCorruption) else
  (do! (magic_num, e) := ofopt (rr_ReadFixed 4 data (file_size - 4)) in
   if negb (ok e) then Done (inl e) else
   if negb (magic_num =? kS1tMagicNumber) then Done (inl kCorruption) else
   do! (position, e) := ofopt (rr_ReadFixed 8 data (file_size - 12)) in
   if negb (ok e) then Done (inl e) else
   if file_size - 12 <=? position then Done (inl kCorruption) else
   do! (e, result) := ReadBlock data verify (mkBH position (file_size - 12 - position)) in
   if negb (ok e) then Done (inl e) else
   do! props := ofopt (ReadProperties result) in
   match props with
   | inl e => Done (inl e)
   | inr props =>
     if negb (unordered props) then Done (inl kCorruption) else
     do! (e, result) := ReadBlock data verify (mkBH (index_position props) (index_size props)) in
     if negb (ok e) then Done (inl e) else
     do! ((block_map, index), _) := ofopt (read_index_block {| Slice.buf_ := result; position_ := 0 |}) in
     if filter_size props =? 0 then Done (inr (mkS1R data verify props block_map index None)) else
     do! (e, filter) := ReadBlock data verify (mkBH (filter_position props) (filter_size props)) in
     if negb (ok e) then Done (inl e) else
     Done (inr (mkS1R data verify props block_map index (Some (NewKeyBloomFilter filter kBloomFilterHashs))))
   end)%out.

Definition s1_MayExists (key : bytes) (r : S1TableReader) : bool :=
  match filter_ r with Some f => MayExists key f | None => true end.

(** [PrepareRead]: the block from the entry on. *)
Definition PrepareRead (r : S1TableReader) (idx : Index) (verify_checksums : bool) : outcome (error + bytes) :=
  (do! bh := ofopt (s1r_block_map r !! Z.to_nat (block_idx idx) : option BlockHandle) in
   do! (e, block) := ReadBlock (s1r_file r) verify_checksums bh in
   if negb (ok e) then Done (inl e)
   else if zlen block <? offset idx then Undef
   else Done (inr (drop (Z.to_nat (offset idx)) block)))%out.

(** [ReadKey], and [ReadValue] behind it. *)
Definition ReadKey (buf : bytes) : option (Z * bytes * bytes) :=
  '((shared_len, result), rd) ← (let! shared_len := ReadVarint64 in let! private_len := ReadVarint64 in
     let! result := ReadStringN private_len in br_ret (shared_len, result))%br {| Slice.buf_ := buf; position_ := 0 |};
  Some (shared_len, result, drop (Z.to_nat (position_ rd)) buf).

Definition ReadValue (buf : bytes) : option bytes :=
  '(value, _) ← (let! value_len := ReadVarint64 in ReadStringN value_len)%br {| Slice.buf_ := buf; position_ := 0 |}; Some value.

(** The next key: its prefix is that of the key before it. *)
Definition next_key (saved_key : bytes) (shared_len : Z) (result : bytes) : bytes := take (Z.to_nat shared_len) saved_key ++ result.

(** [Get]: the loop over a bucket.  [ikey] is outside the loop: a key too short
    for a tag leaves the one before it there. *)
Fixpoint s1_find (ucmp : bytes -> bytes -> Z) (r : S1TableReader) (verify_checksums : bool) (lookup : bytes * Tag) (bucket : list Index)
    (saved_key : bytes) (ikey : bytes * Tag) : outcome (error + Tag * bytes) :=
  match bucket with
  | [] => Done (inl kNotFound)
  | idx :: bucket =>
    (do! buf := PrepareRead r idx verify_checksums in
     match buf with
     | inl e => Done (inl e)
     | inr buf =>
       do! (shared_len, result, buf) := ofopt (ReadKey buf) in
       let saved_key := next_key saved_key shared_len result in
       let last := last_level (s1r_props r) in
       let ikey := if last then ikey else match ParseTaggedKey saved_key with Some p => p | None => ikey end in
       if (if last then ucmp saved_key (fst lookup) =? 0
           else (ucmp (fst ikey) (fst lookup) =? 0) && (sequence_number (snd ikey) <=? sequence_number (snd lookup)))
       then
         do! value := ofopt (ReadValue buf) in
         do! tag := (if last then Done (mkTag 0 (flag_code kFlagValue)) else ofopt (ExtractTag saved_key)) in
         Done (inr (tag, value))
       else s1_find ucmp r verify_checksums lookup bucket saved_key ikey
     end)%out
  end.

Definition s1_Get (ucmp : bytes -> bytes -> Z) (uhash : bytes -> Z) (verify_checksums : bool) (key : bytes) (r : S1TableReader) : outcome (error + Tag * bytes) :=
  (do! slot := s1_slot uhash key (length (index_ r)) in
   do! bucket := ofopt (index_ r !! slot : option (list Index)) in
   s1_find ucmp r verify_checksums (parsed key) bucket [] ([], mkTag 0 0))%out.

(** *** The iterator *)

Record S1Iterator := mkS1I {
  s1i_reader : S1TableReader; s1i_verify : bool;
  s1i_slot : Z; s1i_current : Z; s1i_saved_key : bytes; s1i_value : bytes; s1i_error : error
}.

Definition s1_NewIterator (r : S1TableReader) (verify_checksums : bool) : S1Iterator := mkS1I r verify_checksums (-1) (-1) [] [] kOk.

(** [index_[slot]] *)
Definition s1i_bucket (it : S1Iterator) : list Index :=
  if s1i_slot it <? 0 then [] else default [] (index_ (s1i_reader it) !! Z.to_nat (s1i_slot it)).

Definition s1i_Valid (it : S1Iterator) : bool :=
  ok (s1i_error it) && (0 <=? s1i_slot it) && (0 <=? s1i_current it) && (s1i_current it <? zlen (s1i_bucket it)).

Definition s1i_at (slot current : Z) (saved_key : bytes) (it : S1Iterator) : S1Iterator :=
  mkS1I (s1i_reader it) (s1i_verify it) slot current saved_key (s1i_value it) (s1i_error it).
Definition s1i_fail (e : error) (it : S1Iterator) : S1Iterator :=
  mkS1I (s1i_reader it) (s1i_verify it) (s1i_slot it) (s1i_current it) (s1i_saved_key it) (s1i_value it) e.

(** [UpdateEntry]; its callers do not look at the error that it returns. *)
Definition UpdateEntry (it : S1Iterator) : outcome S1Iterator :=
  (do! idx := ofopt (s1i_bucket it !! Z.to_nat (s1i_current it) : option Index) in
   do! buf := PrepareRead (s1i_reader it) idx (s1i_verify it) in
   match buf with
   | inl _ => Done it
   | inr buf =>
     do! (shared_len, result, buf) := ofopt (ReadKey buf) in
     do! value := ofopt (ReadValue buf) in
     Done (mkS1I (s1i_reader it) (s1i_verify it) (s1i_slot it) (s1i_current it) (next_key (s1i_saved_key it) shared_len result) value (s1i_error it))
   end)%out.

Definition update_if_valid (it : S1Iterator) : outcome S1Iterator := if s1i_Valid it then UpdateEntry it else Done it.

(** The first bucket from [i] on that has entries. *)
Fixpoint used_slot (i : Z) (index : list (list Index)) : option Z :=
  match index with
  | [] => None
  | [] :: index => used_slot (i + 1) index
  | _ :: _ => Some i
  end.

Definition s1i_SeekToFirst (it : S1Iterator) : outcome S1Iterator :=
  let '(slot, current) := match used_slot 0 (index_ (s1i_reader it)) with Some i => (i, 0) | None => (-1, -1) end in
  update_if_valid (s1i_at slot current [] it).

(** When no bucket is left, [current_] stays. *)
Definition s1i_Next (it : S1Iterator) : outcome S1Iterator :=
  if s1i_current it =? zlen (s1i_bucket it) - 1 then
    match used_slot (s1i_slot it + 1) (drop (Z.to_nat (s1i_slot it + 1)) (index_ (s1i_reader it))) with
    | Some i => update_if_valid (s1i_at i 0 [] it)
    | None => update_if_valid (s1i_at (-1) (s1i_current it) (s1i_saved_key it) it)
    end
  else update_if_valid (s1i_at (s1i_slot it) (s1i_current it + 1) (s1i_saved_key it) it).

(** The loop of [Seek].  The value of an entry that is found is read into
    [saved_key_] too; in a table without tags a tag is put behind the key
    before, which the value then replaces. *)
Fixpoint s1i_find (ucmp : bytes -> bytes -> Z) (lookup : bytes * Tag) (i : Z) (bucket : list Index) (it : S1Iterator) : outcome S1Iterator :=
  match bucket with
  | [] => Done (s1i_fail kNotFound it)
  | idx :: bucket =>
    (do! buf := PrepareRead (s1i_reader it) idx (s1i_verify it) in
     match buf with
     | inl e => Done (s1i_fail e it)
     | inr buf =>
       do! (shared_len, result, buf) := ofopt (ReadKey buf) in
       let key := next_key (s1i_saved_key it) shared_len result in
       let it := s1i_fail kOk (s1i_at (s1i_slot it) (s1i_current it) key it) in
       let last := last_level (s1r_props (s1i_reader it)) in
       let '(user_key, tag) := if last then (key, mkTag 0 (flag_code kFlagValue)) else parsed key in
       if (ucmp user_key (fst lookup) =? 0) && (last || (sequence_number tag <=? sequence_number (snd lookup)))
       then
         do! value := ofopt (ReadValue buf) in
         Done (mkS1I (s1i_reader it) (s1i_verify it) (s1i_slot it) i value value kOk)
       else s1i_find ucmp lookup (i + 1) bucket it
     end)%out
  end.

Definition s1i_Seek (ucmp : bytes -> bytes -> Z) (uhash : bytes -> Z) (target : bytes) (it : S1Iterator) : outcome S1Iterator :=
  let it := s1i_at (-1) (-1) (s1i_saved_key it) it in
  match ParseTaggedKey target with
  | None => Done (s1i_fail kCorruption it)
  | Some lookup =>
    (do! slot := s1_slot uhash target (length (index_ (s1i_reader it))) in
     let it' := s1i_at (Z.of_nat slot) (-1) (s1i_saved_key it) it in
     match s1i_bucket it' with
     | [] => Done (s1i_fail kNotFound it)
     | bucket => s1i_find ucmp lookup 0 bucket it'
     end)%out
  end.

Definition S1Iterator_ops (ucmp : bytes -> bytes -> Z) (uhash : bytes -> Z) : Iterator S1Iterator := {|
  it_Valid := s1i_Valid;
  it_SeekToFirst := s1i_SeekToFirst;
  it_SeekToLast it := Done (s1i_fail kNotSupported (s1i_at (-1) (-1) (s1i_saved_key it) it));
  it_Seek := s1i_Seek ucmp uhash;
  it_Next := s1i_Next;
  it_Prev it := Done (s1i_fail kNotSupported it);
  it_current it := Some (s1i_saved_key it, s1i_value it);
  it_error := s1i_error;
|}.
