(* ===== verification/S1Get.v ===== *)
(** * S1Get

    The file that the builder of [S1Table] writes, and what the reader finds in
    it: every entry is in the bucket of its user key, behind the place of its
    predecessor of the same user key. *)

From S2P Require Import Prelude Varint Slice Hash IO Keys Entries Iterator Table Block Sst S1Table.

(** ** The format *)

(** An entry: the key before it in its block, itself, and its place. *)
Abbreviation placed := (bytes * kv * Index)%type.

Section format.
(** [last]: the table has no tags. *)
Context (ucmp : bytes -> bytes -> Z) (uhash : bytes -> Z) (last : bool) (n : nat).

Definition user (e : kv) : bytes := fst (parsed (fst e)).

(** The key of the file, and the user key in it. *)
Definition skey (key : bytes) : bytes := if last then fst (parsed key) else key.
Definition ukey (k : bytes) : bytes := if last then k else fst (parsed k).

(** Behind [prev] the entry shares the user key. *)
Definition shares (prev k : bytes) : bool := negb (zlen prev =? 0) && (ucmp (ukey prev) (ukey k) =? 0).

Definition key_bytes (prev k : bytes) : bytes :=
  if shares prev k then put_key (zlen (ukey prev)) (drop (length (ukey k)) k) else put_key 0 k.

Definition entry_bytes (prev : bytes) (e : kv) : bytes :=
  key_bytes prev (skey (fst e)) ++ GetV64 (zlen (snd e)) ++ snd e.

Fixpoint end_key (prev : bytes) (es : list kv) : bytes :=
  match es with [] => prev | e :: es => end_key (skey (fst e)) es end.

(** A block. *)
Fixpoint plain (prev : bytes) (es : list kv) : bytes :=
  match es with
  | [] => []
  | e :: es => entry_bytes prev e ++ plain (skey (fst e)) es
  end.

(** The places of the entries of the block [idx], from [off] on. *)
Fixpoint places (idx off : Z) (prev : bytes) (es : list kv) : list placed :=
  match es with
  | [] => []
  | e :: es => (prev, e, mkIndex idx (wrap 32 off)) :: places idx (off + zlen (entry_bytes prev e)) (skey (fst e)) es
  end.

Fixpoint all_places (idx : Z) (blocks : list (list kv)) : list placed :=
  match blocks with
  | [] => []
  | es :: blocks => places idx 0 [] es ++ all_places (idx + 1) blocks
  end.

Fixpoint handles (base : Z) (blocks : list (list kv)) : list BlockHandle :=
  match blocks with
  | [] => []
  | es :: blocks => mkBH base (4 + zlen (plain [] es)) :: handles (base + zlen (frame (plain [] es))) blocks
  end.

Definition s1_frames (blocks : list (list kv)) : bytes := concat (map (fun es => frame (plain [] es)) blocks).

Definition home_of (u : bytes) : nat := Z.to_nat (uhash u mod Z.of_nat n).

Definition in_slot (i : nat) (p : placed) : bool := (home_of (user (snd (fst p))) =? i)%nat.
Definition bucket (i : nat) (ps : list placed) : list Index := map snd (List.filter (in_slot i) ps).
Definition all_buckets (ps : list placed) : list (list Index) := map (fun i => bucket i ps) (seq 0 n).

Lemma plain_snoc prev es e : plain prev (es ++ [e]) = plain prev es ++ entry_bytes (end_key prev es) e.
Proof.
  revert prev. induction es as [|x es IH]; intros prev; cbn [plain end_key app]; [by rewrite app_nil_r|].
  by rewrite IH, app_assoc.
Qed.

Lemma end_key_snoc prev es e : end_key prev (es ++ [e]) = skey (fst e).
Proof. revert prev. induction es as [|x es IH]; intros prev; [done | apply IH]. Qed.

Lemma places_snoc idx off prev es e :
  places idx off prev (es ++ [e]) =
  places idx off prev es ++ [(end_key prev es, e, mkIndex idx (wrap 32 (off + zlen (plain prev es))))].
Proof.
  revert off prev. induction es as [|x es IH]; intros off prev; cbn [places plain end_key app].
  - by rewrite zlen_nil, Z.add_0_r.
  - rewrite IH, zlen_app. by rewrite (Z.add_assoc off).
Qed.

Lemma all_places_snoc idx blocks es :
  all_places idx (blocks ++ [es]) = all_places idx blocks ++ places (idx + zlen blocks) 0 [] es.
Proof.
  revert idx. induction blocks as [|b blocks IH]; intros idx; cbn [all_places app].
  - by rewrite app_nil_r, Z.add_0_r.
  - rewrite IH, zlen_cons, <- app_assoc. do 3 f_equal. lia.
Qed.

Lemma s1_frames_snoc blocks es : s1_frames (blocks ++ [es]) = s1_frames blocks ++ frame (plain [] es).
Proof. unfold s1_frames. rewrite map_app, concat_app. cbn. by rewrite app_nil_r. Qed.

Lemma handles_snoc base blocks es :
  handles base (blocks ++ [es]) =
  handles base blocks ++ [mkBH (base + zlen (s1_frames blocks)) (4 + zlen (plain [] es))].
Proof.
  revert base. induction blocks as [|b blocks IH]; intros base; cbn [handles app].
  - by rewrite Z.add_0_r.
  - rewrite IH. unfold s1_frames at 2. cbn [map concat]. by rewrite zlen_app, Z.add_assoc.
Qed.

Lemma zlen_handles base blocks : zlen (handles base blocks) = zlen blocks.
Proof. revert base. induction blocks as [|b blocks IH]; intros base; [done|]. cbn [handles]. by rewrite !zlen_cons, IH. Qed.

Lemma bucket_snoc i ps p : bucket i (ps ++ [p]) = bucket i ps ++ if in_slot i p then [snd p] else [].
Proof. unfold bucket. rewrite List.filter_app, map_app. cbn. by destruct (in_slot i p). Qed.

Lemma bucket_app i ps qs : bucket i (ps ++ qs) = bucket i ps ++ bucket i qs.
Proof. unfold bucket. by rewrite List.filter_app, map_app. Qed.

Lemma entries_places idx off prev es : map (fun p => snd (fst p)) (places idx off prev es) = es.
Proof. revert off prev. induction es as [|e es IH]; intros off prev; [done|]. cbn. by rewrite IH. Qed.

Lemma entries_all_places idx blocks : map (fun p => snd (fst p)) (all_places idx blocks) = concat blocks.
Proof. revert idx. induction blocks as [|b blocks IH]; intros idx; [done|]. cbn. by rewrite map_app, entries_places, IH. Qed.

(** ** The builder *)

Lemma length_concat_blocks (blocks : list (list kv)) :
  Forall (fun g : list kv => g <> []) blocks -> (length blocks <= length (concat blocks))%nat.
Proof.
  induction 1 as [|g blocks Hg _ IH]; [done|]. cbn [concat length]. rewrite length_app.
  destruct g; [done|]. cbn [length]. lia.
Qed.

(** A change of the buckets that is a change of each. *)
Lemma push_all_buckets ps p :
  (home_of (user (snd (fst p))) < n)%nat ->
  push_index (home_of (user (snd (fst p)))) (snd p) (all_buckets ps) = Done (all_buckets (ps ++ [p])).
Proof.
  intros Hlt. unfold push_index, all_buckets. set (slot := home_of _) in *.
  rewrite list_lookup_fmap, lookup_seq_lt by done. cbn [fmap option_fmap option_map ofopt obind]. f_equal.
  apply list_eq. intros i. destruct (decide (i = slot)) as [->|Hi].
  - rewrite list_lookup_insert_eq by (by rewrite length_map, length_seq).
    rewrite list_lookup_fmap, lookup_seq_lt by done. cbn. rewrite bucket_snoc. unfold in_slot. fold slot.
    by rewrite Nat.eqb_refl.
  - rewrite list_lookup_insert_ne by done. rewrite !list_lookup_fmap.
    destruct (seq 0 n !! i) as [j|] eqn:E; [|done]. apply lookup_seq in E as [-> _]. cbn. rewrite bucket_snoc.
    unfold in_slot. fold slot. rewrite (proj2 (Nat.eqb_neq _ _)) by done. by rewrite app_nil_r.
Qed.

Lemma bind_buckets_all (f : list placed -> list placed) unbound idx ps :
  (forall i, bucket i (f ps) = if bool_decide (i ∈ unbound) then map (bind_block idx) (bucket i ps) else bucket i ps) ->
  bind_buckets unbound idx (all_buckets ps) = all_buckets (f ps).
Proof.
  intros H. unfold bind_buckets, all_buckets. apply list_eq. intros i. rewrite list_lookup_imap, !list_lookup_fmap.
  destruct (seq 0 n !! i) as [j|] eqn:E; [|done]. apply lookup_seq in E as [-> _]. cbn. by rewrite H.
Qed.

Lemma bind_places idx off prev i es :
  map (bind_block idx) (bucket i (places kInvalidIdx off prev es)) = bucket i (places idx off prev es).
Proof.
  revert off prev. induction es as [|e es IH]; intros off prev; [done|]. cbn [places]. unfold bucket in *. cbn [List.filter].
  replace (in_slot i (prev, e, mkIndex kInvalidIdx (wrap 32 off))) with (in_slot i (prev, e, mkIndex idx (wrap 32 off))) by done.
  destruct (in_slot i _); cbn [map snd]; by rewrite IH.
Qed.

Lemma bind_bound idx i ps :
  Forall (fun p => block_idx (snd p) <> kInvalidIdx) ps -> map (bind_block idx) (bucket i ps) = bucket i ps.
Proof.
  induction 1 as [|p ps Hp _ IH]; [done|]. unfold bucket in *. cbn [List.filter].
  destruct (in_slot i p); [|done]. cbn [map]. rewrite IH. f_equal. unfold bind_block.
  by destruct (Z.eqb_spec (block_idx (snd p)) kInvalidIdx).
Qed.

Lemma block_idx_places idx off prev es : Forall (fun p => block_idx (snd p) = idx) (places idx off prev es).
Proof. revert off prev. induction es as [|e es IH]; intros off prev; constructor; [done | apply IH]. Qed.

Lemma block_idx_all idx blocks :
  Forall (fun p => idx <= block_idx (snd p) < idx + zlen blocks) (all_places idx blocks).
Proof.
  revert idx. induction blocks as [|b blocks IH]; intros idx; [constructor|]. cbn [all_places]. rewrite zlen_cons.
  pose proof (zlen_nonneg blocks). apply Forall_app. split.
  - eapply Forall_impl; [apply block_idx_places|]. cbn. lia.
  - eapply Forall_impl; [apply IH|]. cbn. lia.
Qed.

Lemma bucket_unused i idx off prev es :
  ~ (exists e, e ∈ es /\ home_of (user e) = i) -> bucket i (places idx off prev es) = [].
Proof.
  revert off prev. induction es as [|e es IH]; intros off prev H; [done|]. cbn [places]. unfold bucket in *. cbn [List.filter].
  destruct (in_slot i _) eqn:E.
  - exfalso. apply H. exists e. split; [left|]. by apply Nat.eqb_eq in E.
  - apply IH. intros (x & Hx & Hs). apply H. exists x. split; [by right | done].
Qed.

#[local] Abbreviation is_versioned := (fun e : kv => exists u s, versioned u s e).

Section build.
Context {F : Type} `{!WritableFile F, !WritableFileLaws F, !ReliableFile F}.

#[local] Abbreviation S1 := (S1TableBuilder F).

Lemma s1_WriteBlock_reliable block (b : S1) :
  written_position_ (s1_writer b) = zlen (contents (fw_file (s1_writer b))) ->
  exists w, s1_WriteBlock block b = (mkBH (written_position_ (s1_writer b)) (4 + zlen block), s1_set_writer w kOk b) /\
    contents (fw_file w) = contents (fw_file (s1_writer b)) ++ frame block /\
    written_position_ w = zlen (contents (fw_file w)).
Proof.
  intros Hpos. unfold s1_WriteBlock, fw_WriteFixed32.
  destruct (fw_Write_reliable (GetU32 (crc32 0 block)) (s1_writer b)) as (w1 & E1 & C1 & P1).
  destruct (fw_Write_reliable block w1) as (w2 & E2 & C2 & P2).
  rewrite E1. cbn -[GetU32 fw_Write]. rewrite E2. cbn. exists w2. split; [done|].
  rewrite P2, P1, C2, C1, Hpos. unfold frame. rewrite !zlen_app, <- app_assoc. split; [done | lia].
Qed.

Definition builder_or_new (b : S1) : PlainBlockBuilder := default (NewPlainBlockBuilder last) (s1_block_builder b).
Definition s1_filter_or_new (b : S1) : FilterBlockBuilder := default (s1_new_filter b) (s1_filter_builder b).

(** The state after adding [es]: [blocks] are written, [cur] is in the block
    builder.  [f0] is the empty filter. *)
Record s1_inv (f0 : FilterBlockBuilder) (es : list kv) (blocks : list (list kv)) (cur : list kv) (b : S1) : Prop := {
  h_entries : concat blocks ++ cur = es;
  h_error : s1_error b = kOk;
  h_max : max_buckets_ b = n;
  h_contents : contents (fw_file (s1_writer b)) = s1_frames blocks;
  h_pos : written_position_ (s1_writer b) = zlen (contents (fw_file (s1_writer b)));
  h_block : builder_or_new b = mkPlain last (plain [] cur) (end_key [] cur);
  h_filter : s1_filter_or_new b = filter_of f0 es;
  h_open : es <> [] -> is_Some (s1_block_builder b) /\ is_Some (s1_filter_builder b);
  h_buckets : buckets_ b = all_buckets (all_places 0 blocks ++ places kInvalidIdx 0 [] cur);
  h_unbound i : i ∈ unbound_index_ b <-> exists e, e ∈ cur /\ home_of (user e) = i;
  h_map : block_map_ b = handles 0 blocks;
  h_seen : s1_seen b = bool_decide (es <> []);
  h_groups : Forall (fun g : list kv => g <> []) blocks;
}.

(** Its properties. *)
Record s1_props_inv (es : list kv) (p : TableProperties) : Prop := {
  hp_unordered : unordered p = true;
  hp_last : es <> [] -> last_level p = last;
  hp_first : es = [] -> last_level p = false;
  hp_block_size : is_u 32 (block_size p);
  hp_version : is_u 64 (last_version p);
  hp_entries : num_entries p = wrap 64 (zlen es);
  hp_filter : filter_size p = 0 /\ filter_position p = 0;
}.

Lemma s1_inv_new file block_size approx :
  contents file = [] ->
  let b := NewS1TableBuilder file n block_size approx in s1_inv (s1_new_filter b) [] [] [] b.
Proof.
  intros Hf. constructor; cbn; try done.
  - by rewrite Hf.
  - unfold all_buckets, bucket. cbn. clear. generalize 0%nat. induction n as [|m IH]; intros k; [done|].
    cbn [replicate seq map]. f_equal. apply IH.
  - intros i. split; [by intros H%not_elem_of_nil | by intros (e & H%not_elem_of_nil & _)].
Qed.

Lemma s1_props_new block_size : s1_props_inv [] (s1_new_props block_size).
Proof. constructor; cbn; try done. by apply wrap_is_u. Qed.

Lemma set_props_inv f0 es blocks cur p b : s1_inv f0 es blocks cur b -> s1_inv f0 es blocks cur (s1_set_props p b).
Proof. intros []. by constructor. Qed.

Lemma FlushBlock_inv f0 es blocks cur b :
  s1_inv f0 es blocks cur b -> cur <> [] -> zlen es < 2 ^ 32 ->
  exists b', FlushBlock b = Done b' /\ s1_inv f0 es (blocks ++ [cur]) [] b' /\ s1_props b' = s1_props b /\ s1_error b' = kOk.
Proof.
  intros [] Hne Hlen. unfold FlushBlock.
  assert (Hes : es <> []) by (rewrite <- h_entries0; by destruct cur, (concat blocks)).
  destruct (h_open0 Hes) as [[bb Hbb] Hfb]. rewrite Hbb. cbn [ofopt obind].
  unfold builder_or_new in h_block0. rewrite Hbb in h_block0. cbn [default from_option id] in h_block0. subst bb.
  change (pb_Finish _) with (plain [] cur).
  destruct (s1_WriteBlock_reliable (plain [] cur) b h_pos0) as (w & E & Hc & Hp). rewrite E.
  cbn [s1_error s1_set_writer]. change (negb (ok kOk)) with false. cbn iota.
  eexists. split; [reflexivity|]. split; [|split; [done | reflexivity]].
  assert (Hz : zlen (block_map_ b) = zlen blocks) by (rewrite h_map0; apply zlen_handles).
  assert (Hsmall : zlen blocks < 2 ^ 32).
  { pose proof (length_concat_blocks blocks h_groups0). rewrite <- h_entries0, zlen_app in Hlen. unfold zlen in *. lia. }
  constructor; cbn [s1_writer max_buckets_ s1_error buckets_ s1_block_builder s1_filter_builder unbound_index_ block_map_ s1_seen s1_set_writer].
  - rewrite concat_app. cbn. by rewrite !app_nil_r.
  - done.
  - done.
  - by rewrite Hc, h_contents0, s1_frames_snoc.
  - done.
  - done.
  - done.
  - intros _. split; [done | exact Hfb].
  - rewrite h_buckets0, Hz. cbn [places]. rewrite app_nil_r, all_places_snoc, Z.add_0_l.
    apply (bind_buckets_all (fun _ => all_places 0 blocks ++ places (zlen blocks) 0 [] cur)).
    intros i. rewrite !bucket_app.
    destruct (decide (i ∈ unbound_index_ b)) as [Hi|Hi]; [rewrite bool_decide_true by done | rewrite bool_decide_false by done].
    + rewrite map_app, bind_places, bind_bound; [done|]. eapply Forall_impl; [apply block_idx_all|].
      cbn. unfold kInvalidIdx. lia.
    + rewrite h_unbound0 in Hi. by rewrite !(bucket_unused i) by done.
  - intros i. split; [by intros H%not_elem_of_nil | by intros (e & H%not_elem_of_nil & _)].
  - by rewrite h_map0, handles_snoc, Z.add_0_l, h_pos0, h_contents0.
  - done.
  - apply Forall_app. split; [done|]. by apply Forall_singleton.
Qed.

Lemma Extract_ukey k : 8 <= zlen k -> ExtractUserKey k = Some (fst (parsed k)).
Proof.
  intros H. unfold parsed. rewrite ParseTaggedKey_Extract. unfold ExtractUserKey, ExtractTag, kTagSize.
  by destruct (Z.ltb_spec (zlen k) 8); [lia|].
Qed.

Lemma skey_stored e : is_versioned e -> last = false -> 8 <= zlen (skey (fst e)).
Proof.
  intros (u & s & f & v & -> & _) Hl. unfold skey. rewrite Hl. cbn [fst]. rewrite zlen_MakeKey. pose proof (zlen_nonneg u). lia.
Qed.

Lemma end_key_stored es :
  Forall is_versioned es -> last = false -> end_key [] es = [] \/ 8 <= zlen (end_key [] es).
Proof.
  intros Hall Hl. induction es as [|e es _] using rev_ind; [by left|]. rewrite end_key_snoc. right.
  apply Forall_app in Hall as [_ He%Forall_inv]. by apply skey_stored.
Qed.

Lemma ukey_skey k : ukey (skey k) = fst (parsed k).
Proof. unfold ukey, skey. by destruct last. Qed.

Lemma pb_Add_entry buf prev e :
  is_versioned e -> (last = false -> prev = [] \/ 8 <= zlen prev) ->
  pb_Add ucmp (skey (fst e)) (snd e) (mkPlain last buf prev) =
  Done (wrap 32 (zlen buf), mkPlain last (buf ++ entry_bytes prev e) (skey (fst e))).
Proof.
  intros He Hp. unfold pb_Add. cbn [pb_buf pb_last_key pb_last_level]. unfold entry_bytes, key_bytes, shares.
  rewrite ukey_skey. unfold ukey. destruct last eqn:Hl.
  - cbn [obind]. unfold skey. rewrite Hl. by rewrite drop_all.
  - pose proof (skey_stored e He Hl) as H8. unfold skey in *. rewrite Hl in *. rewrite (Extract_ukey (fst e)) by done.
    destruct (Hp eq_refl) as [->|Hp8]; [done|].
    destruct (Z.eqb_spec (zlen prev) 0) as [E|E]; [lia|]. rewrite Extract_ukey by done. done.
Qed.

(** The properties that [Add] starts from. *)
Definition opened_props (b : S1) (key : bytes) : TableProperties :=
  if s1_seen b then s1_props b else s1_first_props (s1_props b) key.

Lemma Add_props es p p1 e :
  s1_props_inv es p -> is_versioned e -> (es = [] -> last = (sequence_number (snd (parsed (fst e))) =? 0)) ->
  p1 = (if bool_decide (es <> []) then p else s1_first_props p (fst e)) ->
  last_level p1 = last /\
  s1_props_inv (es ++ [e]) (update_props ucmp p1 (fst e) (sequence_number (snd (parsed (fst e))))).
Proof.
  intros [P1 P2 P2' P3 P4 P5 [P6 P7]] (u & s & f & v & -> & Htag) Hfirst ->. cbn [fst] in *.
  rewrite parsed_MakeKey in * by done. cbn [snd sequence_number] in *.
  assert (Hl : last_level (if bool_decide (es <> []) then p else s1_first_props p (MakeKey u s f)) = last).
  { case_bool_decide as Hes; [auto|]. destruct (decide (es = [])) as [->|]; [|done]. cbn.
    rewrite parsed_MakeKey by done. cbn. by rewrite P2', Hfirst. }
  split; [exact Hl|].
  set (p1 := if bool_decide (es <> []) then p else _) in *.
  assert (Heq : unordered p1 = true /\ is_u 32 (block_size p1) /\ is_u 64 (last_version p1) /\ num_entries p1 = wrap 64 (zlen es) /\
    filter_size p1 = 0 /\ filter_position p1 = 0) by (unfold p1; by case_bool_decide).
  destruct Heq as (Q1 & Q2 & Q3 & Q4 & Q5 & Q6). constructor; cbn; try done.
  - by destruct es.
  - destruct Htag as [Hs56 _]. cbn in Hs56. unfold is_u in *. destruct (_ <? _); [split; [lia|]|done].
    etransitivity; [apply Hs56|]. done.
  - rewrite Q4, zlen_app. unfold wrap. by rewrite Zplus_mod_idemp_l.
Qed.

Lemma s1_slot_MakeKey u s f : (0 < n)%nat -> s1_slot uhash (MakeKey u s f) n = Done (home_of u).
Proof.
  intros Hn. unfold s1_slot. rewrite (proj2 (Nat.eqb_neq n 0)) by lia. by rewrite ExtractUserKey_MakeKey.
Qed.

Lemma home_of_lt u : (0 < n)%nat -> (home_of u < n)%nat.
Proof. intros Hn. unfold home_of. pose proof (Z.mod_pos_bound (uhash u) (Z.of_nat n)). lia. Qed.

(** The part of [Add] before a block is written. *)
Lemma s1_Add_entry f0 es blocks cur e (b : S1) :
  s1_inv f0 es blocks cur b -> last_level (opened_props b (fst e)) = last -> Forall is_versioned (es ++ [e]) -> (0 < n)%nat ->
  exists b1, s1_inv f0 (es ++ [e]) blocks (cur ++ [e]) b1 /\ s1_props b1 = opened_props b (fst e) /\
    s1_Add ucmp uhash (fst e) (snd e) b =
    (let flush := s1_block_size b1 <=? zlen (plain [] (cur ++ [e])) in
     do! b2 := (if flush then FlushBlock b1 else Done b1) in
     if flush && negb (ok (s1_error b2)) then Done b2
     else Done (s1_set_props (update_props ucmp (s1_props b2) (fst e) (sequence_number (snd (parsed (fst e))))) b2))%out.
Proof.
  intros [] Hl Hall Hn.
  assert (Hcur : Forall is_versioned cur).
  { rewrite <- h_entries0 in Hall. by apply Forall_app in Hall as [[_ Hc]%Forall_app _]. }
  apply Forall_app in Hall as [_ He%Forall_inv]. pose proof (end_key_stored cur Hcur) as Hend.
  pose proof (pb_Add_entry (plain [] cur) _ e He Hend) as Hadd.
  destruct e as [key value]. cbn [fst snd] in *. unfold s1_Add. fold (opened_props b key). rewrite Hl.
  replace (match s1_block_builder b with Some bb => bb | None => NewPlainBlockBuilder last end) with (builder_or_new b) by done.
  replace (match s1_filter_builder b with Some fb => fb | None => s1_new_filter b end) with (s1_filter_or_new b) by done.
  rewrite h_block0, h_filter0, h_max0, h_buckets0.
  destruct He as (u & s & f & v & [= -> ->] & Htag).
  assert (Hk : (if last then u else MakeKey u s f) = skey (MakeKey u s f)) by (unfold skey; rewrite parsed_MakeKey by done; done).
  rewrite parsed_MakeKey by done. rewrite Hk, Hadd. cbn [obind]. rewrite s1_slot_MakeKey by done. cbn [obind].
  assert (Hp : push_index (home_of u) (mkIndex kInvalidIdx (wrap 32 (zlen (plain [] cur))))
      (all_buckets (all_places 0 blocks ++ places kInvalidIdx 0 [] cur)) =
    Done (all_buckets (all_places 0 blocks ++ places kInvalidIdx 0 [] (cur ++ [(MakeKey u s f, v)])))).
  { pose proof (push_all_buckets (all_places 0 blocks ++ places kInvalidIdx 0 [] cur)
      (end_key [] cur, (MakeKey u s f, v), mkIndex kInvalidIdx (wrap 32 (0 + zlen (plain [] cur))))) as H.
    unfold user in H. cbn [fst snd] in H. rewrite parsed_MakeKey in H by done. cbn [fst] in H.
    rewrite places_snoc, app_assoc. apply H. by apply home_of_lt. }
  rewrite Hp. cbn [obind]. eexists.
  split; [|split; [|cbn [pb_CurrentSizeEstimate pb_buf]; rewrite plain_snoc; reflexivity]]; [|reflexivity].
  constructor; cbn [s1_writer max_buckets_ s1_error buckets_ s1_block_builder s1_filter_builder unbound_index_ block_map_ s1_seen]; try done.
  - by rewrite app_assoc, h_entries0.
  - unfold builder_or_new. cbn [s1_block_builder default from_option id]. by rewrite plain_snoc, end_key_snoc.
  - unfold s1_filter_or_new, filter_of. cbn [s1_filter_builder default from_option id]. rewrite fold_left_app. cbn [fold_left fst].
    by rewrite parsed_MakeKey.
  - intros i. assert (Hu : user (MakeKey u s f, v) = u) by (unfold user; cbn [fst]; by rewrite parsed_MakeKey).
    transitivity (i = home_of u \/ i ∈ unbound_index_ b).
    { destruct (decide (home_of u ∈ unbound_index_ b)); [rewrite bool_decide_true by done | rewrite bool_decide_false by done].
      - split; [by right | by intros [->|]].
      - apply elem_of_cons. }
    rewrite h_unbound0. split.
    + intros [->|(x & Hx & Hs)]; [exists (MakeKey u s f, v); split; [apply elem_of_app; right; by left | by rewrite Hu]|].
      exists x. split; [apply elem_of_app; by left | done].
    + intros (x & [Hx| ->%list_elem_of_singleton]%elem_of_app & Hs); [right; by exists x | left; by rewrite <- Hs, Hu].
  - symmetry. apply bool_decide_eq_true_2. by destruct es.
Qed.

Lemma s1_Add_inv f0 es blocks cur e (b : S1) :
  s1_inv f0 es blocks cur b -> s1_props_inv es (s1_props b) -> Forall is_versioned (es ++ [e]) -> (0 < n)%nat ->
  zlen es + 1 < 2 ^ 32 -> (es = [] -> last = (sequence_number (snd (parsed (fst e))) =? 0)) ->
  exists b' blocks' cur', s1_Add ucmp uhash (fst e) (snd e) b = Done b' /\
    s1_inv f0 (es ++ [e]) blocks' cur' b' /\ s1_props_inv (es ++ [e]) (s1_props b').
Proof.
  intros Hb Hprops Hall Hn Hlen Hfirst. pose proof Hall as [_ He%Forall_inv]%Forall_app.
  destruct (Add_props es (s1_props b) (opened_props b (fst e)) e Hprops He Hfirst) as [Hl Hp].
  { unfold opened_props. by rewrite (h_seen _ _ _ _ _ Hb). }
  destruct (s1_Add_entry f0 es blocks cur e b Hb Hl Hall Hn) as (b1 & H1 & Hp1 & ->). cbn zeta.
  destruct (s1_block_size b1 <=? _).
  - destruct (FlushBlock_inv _ _ _ _ _ H1) as (b2 & -> & H2 & Hp2 & He2); [by destruct cur | by rewrite zlen_app|].
    cbn [obind]. rewrite He2. change (negb (ok kOk)) with false. cbn [andb].
    eexists _, _, _. split; [reflexivity|]. split; [by apply set_props_inv|]. cbn [s1_props s1_set_props]. by rewrite Hp2, Hp1.
  - cbn [obind andb]. eexists _, _, _. split; [reflexivity|]. split; [by apply set_props_inv|]. cbn [s1_props s1_set_props]. by rewrite Hp1.
Qed.

Definition s1_add_all (es : list kv) (b : S1) : outcome S1 :=
  fold_left (fun o e => obind o (s1_Add ucmp uhash (fst e) (snd e))) es (Done b).

Lemma s1_add_all_inv f0 (b : S1) es :
  s1_inv f0 [] [] [] b -> s1_props_inv [] (s1_props b) -> Forall is_versioned es -> (0 < n)%nat -> zlen es < 2 ^ 32 ->
  (forall e es', es = e :: es' -> last = (sequence_number (snd (parsed (fst e))) =? 0)) ->
  exists b' blocks cur, s1_add_all es b = Done b' /\ s1_inv f0 es blocks cur b' /\ s1_props_inv es (s1_props b').
Proof.
  intros Hb Hp. induction es as [|e es IH] using rev_ind; intros Hall Hn Hlen Hfirst; [by exists b, [], []|].
  rewrite zlen_app in Hlen. change (zlen [e]) with 1 in Hlen.
  destruct IH as (b1 & blocks & cur & E & H1 & Hp1); [by apply Forall_app in Hall as [? _] | done | lia | |].
  { intros x es' ->. by apply (Hfirst x (es' ++ [e])). }
  unfold s1_add_all. rewrite fold_left_app. fold (s1_add_all es b). rewrite E. cbn [fold_left obind].
  eapply s1_Add_inv; [done..|]. intros ->. by apply (Hfirst e []).
Qed.
End build.

(** The whole file; [filter] is there when there are many conflicts. *)
Definition s1_index (blocks : list (list kv)) : bytes := index_block (handles 0 blocks) n (all_buckets (all_places 0 blocks)).

Definition opt_frame (filter : option bytes) : bytes := match filter with Some f => frame f | None => [] end.

Definition s1_final_props (p : TableProperties) (blocks : list (list kv)) (filter : option bytes) : TableProperties :=
  let p := index_props p (mkBH (zlen (s1_frames blocks)) (4 + zlen (s1_index blocks))) in
  match filter with
  | Some f => filter_props p (mkBH (zlen (s1_frames blocks ++ frame (s1_index blocks))) (4 + zlen f))
  | None => p
  end.

Definition s1_body (blocks : list (list kv)) (filter : option bytes) : bytes :=
  (s1_frames blocks ++ frame (s1_index blocks)) ++ opt_frame filter.

Definition s1_image (p : TableProperties) (blocks : list (list kv)) (filter : option bytes) : bytes :=
  ((s1_body blocks filter ++ frame (WriteProperties (s1_final_props p blocks filter))) ++
   GetU64 (zlen (s1_body blocks filter))) ++ GetU32 kS1tMagicNumber.

Section finish.
Context {F : Type} `{!WritableFile F, !WritableFileLaws F, !ReliableFile F} (conflicts : Z -> Z -> bool).

#[local] Abbreviation S1 := (S1TableBuilder F).

(** The filter of [Finish]. *)
Definition s1_filter (f0 : FilterBlockBuilder) (es : list kv) (count : Z) : option bytes :=
  if conflicts count (Z.of_nat n) then Some (fb_Finish (filter_of f0 es)) else None.

Lemma s1_finish_last f0 es blocks cur (b : S1) :
  s1_inv f0 es blocks cur b -> zlen es < 2 ^ 32 ->
  exists b' blocks', (if (length (unbound_index_ b) =? 0)%nat then Done b else FlushBlock b) = Done b' /\
    s1_inv f0 es blocks' [] b' /\ s1_props b' = s1_props b.
Proof.
  intros Hb Hlen. destruct (Nat.eqb_spec (length (unbound_index_ b)) 0) as [E|E].
  - exists b, blocks. split; [done|]. split; [|done].
    assert (cur = []) as ->; [|exact Hb]. destruct cur as [|e cur]; [done|]. exfalso.
    apply nil_length_inv in E. apply (not_elem_of_nil (home_of (user e))). rewrite <- E. apply (h_unbound _ _ _ _ _ Hb).
    exists e. split; [by left | done].
  - destruct (FlushBlock_inv _ _ _ _ _ Hb) as (b' & Eb & Hb' & Hp & _); [|done|by eexists _, _].
    intros ->. apply E. destruct (unbound_index_ b) as [|i l] eqn:Hu; [done|]. exfalso.
    destruct (proj1 (h_unbound _ _ _ _ _ Hb i)) as (e & He%not_elem_of_nil & _); [rewrite Hu; by left | done].
Qed.

(** What [Finish] writes behind the body. *)
Lemma s1_finish_tail (p : TableProperties) (b : S1) body :
  contents (fw_file (s1_writer b)) = body -> written_position_ (s1_writer b) = zlen body -> s1_props b = p ->
  exists b', (let '(props, b) := s1_WriteBlock (WriteProperties (s1_props b)) b in
   if negb (ok (s1_error b)) then Done (s1_error b, b) else
   let '(e, w) := fw_WriteFixed64 (bh_offset props) (s1_writer b) in
   let b := s1_set_writer w e b in
   if negb (ok e) then Done (e, b) else
   let '(e, w) := fw_WriteFixed32 kS1tMagicNumber (s1_writer b) in
   let b := s1_set_writer w e b in
   if negb (ok e) then Done (e, b) else
   let '(e, w) := fw_Flush (s1_writer b) in
   let b := s1_set_writer w e b in
   if negb (ok e) then Done (e, b) else Done (kOk, b)) = Done (kOk, b') /\
  contents (fw_file (s1_writer b')) = ((body ++ frame (WriteProperties p)) ++ GetU64 (zlen body)) ++ GetU32 kS1tMagicNumber /\
  s1_props b' = p.
Proof.
  intros Hc Hpos Hp. destruct (s1_WriteBlock_reliable (WriteProperties (s1_props b)) b) as (w4 & E4 & C4 & P4); [by rewrite Hpos, Hc|].
  rewrite E4. cbn [s1_error s1_set_writer s1_writer bh_offset]. change (negb (ok kOk)) with false. cbn iota.
  unfold fw_WriteFixed64, fw_WriteFixed32.
  destruct (fw_Write_reliable (GetU64 (written_position_ (s1_writer b))) w4) as (w5 & E5 & C5 & P5).
  rewrite E5. change (negb (ok kOk)) with false. cbn [s1_writer s1_set_writer].
  destruct (fw_Write_reliable (GetU32 kS1tMagicNumber) w5) as (w6 & E6 & C6 & P6).
  cbn iota. rewrite E6. change (negb (ok kOk)) with false. cbn iota. cbn [s1_set_writer s1_writer]. unfold fw_Flush.
  destruct (rel_Flush (fw_file w6)) as [f7 E7]. rewrite E7. change (negb (ok kOk)) with false. cbn iota.
  eexists. split; [reflexivity|]. cbn [s1_set_writer s1_writer fw_file s1_props]. apply wf_Flush_ok in E7.
  by rewrite E7, C6, C5, C4, Hp, Hpos, Hc.
Qed.

Lemma s1_Finish_image f0 es blocks cur (b : S1) :
  s1_inv f0 es blocks cur b -> es <> [] -> zlen es < 2 ^ 32 ->
  exists blocks' b', concat blocks' = es /\ Forall (fun g : list kv => g <> []) blocks' /\
    s1_Finish conflicts b = Done (kOk, b') /\
    (let filter := s1_filter f0 es (num_entries (s1_props b)) in
     contents (fw_file (s1_writer b')) = s1_image (s1_props b) blocks' filter /\
     s1_props b' = s1_final_props (s1_props b) blocks' filter).
Proof.
  intros Hb Hne Hlen. destruct (s1_finish_last _ _ _ _ _ Hb Hlen) as (b1 & blocks' & E1 & Hb1 & Hp1).
  exists blocks'. unfold s1_Finish. rewrite E1. cbn [obind]. destruct Hb1. rewrite h_error0.
  change (negb (ok kOk)) with false. rewrite andb_false_r. cbn iota. unfold WriteIndex.
  rewrite h_map0, h_max0, h_buckets0. cbn [places]. rewrite app_nil_r. fold (s1_index blocks').
  destruct (s1_WriteBlock_reliable (s1_index blocks') b1 h_pos0) as (w2 & E2 & C2 & P2). rewrite E2.
  cbn [s1_props s1_set_props s1_set_writer max_buckets_]. rewrite h_max0. change (num_entries (index_props ?p _)) with (num_entries p).
  rewrite Hp1. unfold s1_filter. destruct (conflicts _ _) eqn:Econf.
  - destruct (h_open0 Hne) as [_ [fb Hfb]]. unfold WriteFilter. cbn [s1_filter_builder s1_set_props s1_set_writer]. rewrite Hfb.
    cbn [ofopt obind]. unfold s1_filter_or_new in h_filter0. rewrite Hfb in h_filter0. cbn [default from_option id] in h_filter0. subst fb.
    set (filter := fb_Finish (filter_of f0 es)).
    match goal with |- context [s1_WriteBlock filter ?b2] =>
      destruct (s1_WriteBlock_reliable filter b2) as (w3 & E3 & C3 & P3); [exact P2|] end.
    rewrite E3. cbn [obind]. cbn [s1_writer s1_set_writer s1_set_props s1_props] in *.
    match goal with |- context [s1_WriteBlock _ ?b3] =>
      destruct (s1_finish_tail (s1_final_props (s1_props b) blocks' (Some filter)) b3 (s1_body blocks' (Some filter)))
        as (b' & Et & Hc & Hpb) end.
    + cbn [s1_writer s1_set_writer s1_set_props]. unfold s1_body. by rewrite C3, C2, h_contents0.
    + cbn [s1_writer s1_set_writer s1_set_props]. unfold s1_body. by rewrite P3, C3, C2, h_contents0.
    + cbn [s1_props s1_set_props s1_set_writer]. unfold s1_final_props. by rewrite P2, C2, h_contents0, h_pos0, h_contents0.
    + exists b'. rewrite app_nil_r in h_entries0. split; [exact h_entries0|]. split; [exact h_groups0|]. by split; [exact Et|].
  - cbn [obind].
    match goal with |- context [s1_WriteBlock _ ?b3] =>
      destruct (s1_finish_tail (s1_final_props (s1_props b) blocks' None) b3 (s1_body blocks' None)) as (b' & Et & Hc & Hpb) end.
    + cbn [s1_writer s1_set_writer s1_set_props]. unfold s1_body. cbn [opt_frame]. by rewrite app_nil_r, C2, h_contents0.
    + cbn [s1_writer s1_set_writer s1_set_props]. unfold s1_body. cbn [opt_frame]. by rewrite app_nil_r, P2, C2, h_contents0.
    + cbn [s1_props s1_set_props s1_set_writer]. unfold s1_final_props. by rewrite h_pos0, h_contents0.
    + exists b'. rewrite app_nil_r in h_entries0. split; [exact h_entries0|]. split; [exact h_groups0|]. by split; [exact Et|].
Qed.
End finish.

(** ** The index in the file *)

(** A list whose elements can be read one by one. *)
Lemma read_n_at {A} (enc : A -> bytes) (rd : BR A) (good : A -> Prop) l pre rest :
  (forall x pre rest, good x -> in_memory (pre ++ enc x ++ rest) -> rd (at_ pre (enc x ++ rest)) = Some (x, at_ (pre ++ enc x) rest)) ->
  Forall good l -> in_memory (pre ++ concat (map enc l) ++ rest) ->
  read_n (length l) rd (at_ pre (concat (map enc l) ++ rest)) = Some (l, at_ (pre ++ concat (map enc l)) rest).
Proof.
  intros Hrd Hall. revert pre. induction Hall as [|x l Hx _ IH]; intros pre Hm; cbn [map concat length read_n app] in *.
  - by rewrite app_nil_r.
  - rewrite <- app_assoc in *. erewrite br_bind_Some by (by apply Hrd). rewrite app_assoc in Hm.
    erewrite br_bind_Some by (by apply IH). unfold br_ret. by rewrite <- app_assoc.
Qed.

Lemma read_handle_at h pre rest :
  is_u 64 (bh_offset h) /\ is_u 64 (bh_size h) -> in_memory (pre ++ bh_Encode h ++ rest) ->
  read_handle (at_ pre (bh_Encode h ++ rest)) = Some (h, at_ (pre ++ bh_Encode h) rest).
Proof.
  intros [H1 H2]. unfold bh_Encode, read_handle. rewrite <- app_assoc. intros Hm.
  erewrite br_bind_Some by (by apply ReadVarint64_at). rewrite app_assoc in Hm.
  erewrite br_bind_Some by (by apply ReadVarint64_at). unfold br_ret. rewrite <- app_assoc. by destruct h.
Qed.

Lemma read_index_at ix pre rest :
  is_u 64 (block_idx ix) /\ is_u 32 (offset ix) -> in_memory (pre ++ put_index ix ++ rest) ->
  read_index (at_ pre (put_index ix ++ rest)) = Some (ix, at_ (pre ++ put_index ix) rest).
Proof.
  intros [H1 H2]. unfold put_index, read_index. rewrite <- app_assoc. intros Hm.
  erewrite br_bind_Some by (by apply ReadVarint64_at). rewrite app_assoc in Hm.
  erewrite br_bind_Some by (by apply ReadVarint32_at). unfold br_ret. rewrite <- app_assoc. by destruct ix.
Qed.

#[local] Abbreviation index_ok := (fun ix : Index => is_u 64 (block_idx ix) /\ is_u 32 (offset ix)).

Lemma read_bucket_at l pre rest :
  is_u 64 (zlen l) /\ Forall index_ok l -> in_memory (pre ++ put_bucket l ++ rest) ->
  read_bucket (at_ pre (put_bucket l ++ rest)) = Some (l, at_ (pre ++ put_bucket l) rest).
Proof.
  intros [H1 H2]. unfold put_bucket, read_bucket. rewrite <- app_assoc. intros Hm.
  erewrite br_bind_Some by (by apply ReadVarint64_at). rewrite app_assoc in Hm.
  unfold zlen. rewrite Nat2Z.id. erewrite read_n_at; [by rewrite <- app_assoc | by apply read_index_at | done | done].
Qed.

Lemma read_index_block_at map_ buckets :
  is_u 64 (zlen map_) -> Forall (fun h => is_u 64 (bh_offset h) /\ is_u 64 (bh_size h)) map_ ->
  length buckets = n -> Z.of_nat n < 2 ^ 64 -> Forall (fun l => is_u 64 (zlen l) /\ Forall index_ok l) buckets ->
  in_memory (index_block map_ n buckets) ->
  exists r, read_index_block {| Slice.buf_ := index_block map_ n buckets; position_ := 0 |} = Some ((map_, buckets), r).
Proof.
  intros H1 H2 Hn H3 H4 Hm. change {| Slice.buf_ := ?s; position_ := 0 |} with (at_ [] s).
  unfold index_block in *. rewrite <- !app_assoc in *. change (?a ++ ?b) with ([] ++ a ++ b) in Hm at 1. unfold read_index_block.
  erewrite br_bind_Some by (by apply ReadVarint64_at). rewrite app_assoc in Hm. unfold zlen at 1. rewrite Nat2Z.id.
  erewrite br_bind_Some by (by eapply (read_n_at bh_Encode); [apply read_handle_at | | ]). rewrite app_assoc in Hm.
  erewrite br_bind_Some by (apply ReadVarint64_at; [unfold is_u; lia | done]). rewrite app_assoc in Hm. rewrite Nat2Z.id. rewrite <- Hn in Hm |- *.
  rewrite <- (app_nil_r (concat (map put_bucket buckets))) in Hm |- *.
  erewrite br_bind_Some by (by eapply (read_n_at put_bucket); [apply read_bucket_at | | ]).
  by eexists.
Qed.

Lemma offset_is_u idx off prev es : Forall (fun p => is_u 32 (offset (snd p))) (places idx off prev es).
Proof. revert off prev. induction es as [|e es IH]; intros off prev; constructor; [by apply wrap_is_u | apply IH]. Qed.

Lemma offset_is_u_all idx blocks : Forall (fun p => is_u 32 (offset (snd p))) (all_places idx blocks).
Proof. revert idx. induction blocks as [|b blocks IH]; intros idx; [constructor|]. apply Forall_app. split; [apply offset_is_u | apply IH]. Qed.

Lemma all_buckets_ok blocks :
  Forall (fun g : list kv => g <> []) blocks -> zlen (concat blocks) < 2 ^ 32 ->
  Forall (fun l => is_u 64 (zlen l) /\ Forall index_ok l) (all_buckets (all_places 0 blocks)).
Proof.
  intros Hg Hlen. pose proof (length_concat_blocks blocks Hg) as Hbl. apply Forall_map, Forall_forall. intros i _. cbn. split.
  - pose proof (List.filter_length_le (in_slot i) (all_places 0 blocks)) as Hf.
    pose proof (f_equal length (entries_all_places 0 blocks)) as He. rewrite length_map in He.
    unfold bucket, zlen in *. rewrite length_map. unfold is_u. lia.
  - unfold bucket. apply Forall_map, Forall_forall. intros p [Hp _]%list_elem_of_In%List.filter_In.
    pose proof (block_idx_all 0 blocks) as H1. pose proof (offset_is_u_all 0 blocks) as H2. rewrite Forall_forall in H1, H2.
    apply list_elem_of_In in Hp. split; [|by apply H2]. specialize (H1 p Hp). cbn in H1. unfold zlen in *. unfold is_u. lia.
Qed.

Lemma handles_ok base blocks :
  0 <= base -> base + zlen (s1_frames blocks) < 2 ^ 32 ->
  Forall (fun h => is_u 64 (bh_offset h) /\ is_u 64 (bh_size h)) (handles base blocks).
Proof.
  revert base. induction blocks as [|b blocks IH]; intros base H0 Hlt; [constructor|].
  unfold s1_frames in Hlt. cbn [map concat] in Hlt. fold (s1_frames blocks) in Hlt. rewrite zlen_app in Hlt.
  pose proof (zlen_frame (plain [] b)) as Hz. pose proof (zlen_nonneg (plain [] b)). pose proof (zlen_nonneg (s1_frames blocks)).
  cbn [handles]. constructor; [cbn; unfold is_u; lia|]. apply IH; lia.
Qed.

Section image.
Context (p : TableProperties) (blocks : list (list kv)) (filter : option bytes).

#[local] Abbreviation image := (s1_image p blocks filter).
#[local] Abbreviation fprops := (s1_final_props p blocks filter).

Lemma zlen_s1_image : zlen image = zlen (s1_body blocks filter) + (4 + zlen (WriteProperties fprops)) + 12.
Proof. unfold s1_image, GetU64, GetU32. rewrite !zlen_app, !zlen_le_bytes, zlen_frame. lia. Qed.

Lemma s1_image_index : exists post, image = s1_frames blocks ++ frame (s1_index blocks) ++ post.
Proof. unfold s1_image, s1_body. rewrite <- !app_assoc. by eexists. Qed.

Lemma s1_image_filter f :
  filter = Some f -> exists post, image = (s1_frames blocks ++ frame (s1_index blocks)) ++ frame f ++ post.
Proof. intros E. unfold s1_image. set (tail := frame (WriteProperties _)). unfold s1_body at 1. rewrite E. cbn [opt_frame]. eexists. rewrite <- !app_assoc. reflexivity. Qed.

Lemma s1_image_sizes :
  zlen image < 2 ^ 32 ->
  zlen (s1_frames blocks) + 4 + zlen (s1_index blocks) + zlen (opt_frame filter) + 4 + zlen (WriteProperties fprops) < 2 ^ 32.
Proof. intros H. rewrite zlen_s1_image in H. unfold s1_body in H. rewrite !zlen_app, zlen_frame in H. lia. Qed.

Lemma s1_props_ok :
  zlen image < 2 ^ 32 -> is_u 32 (block_size p) -> is_u 32 (num_entries p) -> is_u 64 (last_version p) ->
  filter_size p = 0 -> filter_position p = 0 -> props_ok fprops.
Proof.
  intros H%s1_image_sizes H1 H2 H3 H4 H5. pose proof (zlen_nonneg (s1_frames blocks)). pose proof (zlen_nonneg (opt_frame filter)).
  pose proof (zlen_nonneg (s1_index blocks)). pose proof (zlen_nonneg (WriteProperties fprops)).
  unfold s1_final_props. destruct filter as [f|]; cbn [opt_frame] in *.
  - rewrite zlen_frame in *. pose proof (zlen_nonneg f).
    constructor; cbn [block_size num_entries index_position index_size filter_position filter_size
      last_version bh_offset bh_size filter_props index_props]; try done; unfold is_u; rewrite ?zlen_app, ?zlen_frame; lia.
  - constructor; cbn [block_size num_entries index_position index_size filter_position filter_size
      last_version bh_offset bh_size index_props]; try done; unfold is_u; lia.
Qed.

(** The reader of the file. *)
Definition s1_reader (verify : bool) : S1TableReader :=
  mkS1R image verify fprops (handles 0 blocks) (all_buckets (all_places 0 blocks))
    (match filter with Some f => Some (NewKeyBloomFilter f kBloomFilterHashs) | None => None end).

Lemma s1_Prepare_image verify :
  zlen image < 2 ^ 32 -> props_ok fprops -> unordered p = true -> filter_size p = 0 ->
  Forall (fun g : list kv => g <> []) blocks -> zlen (concat blocks) < 2 ^ 32 -> Z.of_nat n < 2 ^ 64 ->
  s1_Prepare image verify = Done (inr (s1_reader verify)).
Proof.
  intros Hlt Hok Hu Hf0 Hg Hlen Hn. pose proof (s1_image_sizes Hlt) as Hsz. unfold s1_Prepare. cbn zeta.
  pose proof zlen_s1_image as Hz. pose proof (zlen_nonneg (WriteProperties fprops)).
  pose proof (zlen_nonneg (s1_body blocks filter)). pose proof (zlen_nonneg (opt_frame filter)).
  pose proof (zlen_nonneg (s1_index blocks)). pose proof (zlen_nonneg (s1_frames blocks)).
  destruct (Z.ltb_spec (zlen image) 12); [lia|].
  set (body := s1_body blocks filter) in *. set (fr := frame (WriteProperties fprops)).
  assert (Hfr : zlen fr = 4 + zlen (WriteProperties fprops)) by apply zlen_frame.
  assert (E1 : rr_ReadFixed 4 image (zlen image - 4) = Some (kS1tMagicNumber, kOk)).
  { replace (zlen image - 4) with (zlen ((body ++ fr) ++ GetU64 (zlen body)))
      by (rewrite Hz; unfold GetU64; rewrite !zlen_app, zlen_le_bytes; lia).
    unfold s1_image. fold body fr. unfold GetU32. rewrite <- (app_nil_r (le_bytes 4 _)).
    by rewrite rr_ReadFixed_at. }
  assert (E2 : rr_ReadFixed 8 image (zlen image - 12) = Some (zlen body, kOk)).
  { replace (zlen image - 12) with (zlen (body ++ fr)) by (rewrite Hz, zlen_app; lia).
    unfold s1_image. fold body fr. rewrite <- app_assoc. unfold GetU64 at 1.
    rewrite rr_ReadFixed_at, Z.mod_small; [done|]. change (256 ^ Z.of_nat 8) with (2 ^ 64). lia. }
  rewrite E1. cbn [ofopt obind]. change (negb (ok kOk)) with false. cbn iota. rewrite Z.eqb_refl.
  cbn [negb]. rewrite E2. cbn [ofopt obind]. change (negb (ok kOk)) with false. cbn iota.
  destruct (Z.leb_spec (zlen image - 12) (zlen body)); [lia|].
  replace (zlen image - 12 - zlen body) with (4 + zlen (WriteProperties fprops)) by lia.
  assert (E3 : ReadBlock image verify (mkBH (zlen body) (4 + zlen (WriteProperties fprops))) = Done (kOk, WriteProperties fprops)).
  { unfold s1_image. fold body. rewrite <- !app_assoc. apply ReadBlock_frame. }
  rewrite E3. cbn [obind]. change (negb (ok kOk)) with false. cbn iota.
  rewrite ReadProperties_Write by (try done; unfold in_memory; lia).
  assert (Hu' : unordered fprops = true) by (unfold s1_final_props; by destruct filter).
  cbn [ofopt obind]. rewrite Hu'. cbn [negb].
  assert (E4 : ReadBlock image verify (mkBH (index_position fprops) (index_size fprops)) = Done (kOk, s1_index blocks)).
  { destruct s1_image_index as [post E]. rewrite E. unfold s1_final_props. by destruct filter; apply ReadBlock_frame. }
  rewrite E4. cbn [obind]. change (negb (ok kOk)) with false. cbn iota.
  destruct (read_index_block_at (handles 0 blocks) (all_buckets (all_places 0 blocks))) as [r E5].
  { rewrite zlen_handles. pose proof (length_concat_blocks blocks Hg). unfold zlen in *. unfold is_u. lia. }
  { apply handles_ok; lia. }
  { unfold all_buckets. by rewrite length_map, length_seq. }
  { done. }
  { by apply all_buckets_ok. }
  { fold (s1_index blocks). unfold in_memory. lia. }
  fold (s1_index blocks) in E5. rewrite E5. cbn [ofopt obind]. unfold s1_reader.
  destruct filter as [f|] eqn:Ef.
  - destruct (Z.eqb_spec (filter_size (s1_final_props p blocks (Some f))) 0) as [E|_].
    { exfalso. cbn in E. pose proof (zlen_nonneg f). lia. }
    destruct (s1_image_filter f Ef) as [post E]. rewrite Ef in E. rewrite E at 1.
    unfold s1_final_props at 1 2. cbn [filter_position filter_size filter_props bh_offset bh_size].
    by rewrite ReadBlock_frame.
  - replace (filter_size (s1_final_props p blocks None)) with (filter_size p) by done. by rewrite Hf0.
Qed.
End image.

(** ** Reading an entry *)

Lemma places_find idx off prev es (q : placed) :
  q ∈ places idx off prev es ->
  exists pre post, plain prev es = pre ++ entry_bytes (fst (fst q)) (snd (fst q)) ++ post /\
    snd q = mkIndex idx (wrap 32 (off + zlen pre)).
Proof.
  revert off prev. induction es as [|e es IH]; intros off prev; cbn [places plain]; [by intros ?%not_elem_of_nil|].
  intros [->|Hq]%elem_of_cons.
  - exists [], (plain (skey (fst e)) es). split; [done|]. by rewrite zlen_nil, Z.add_0_r.
  - destruct (IH _ _ Hq) as (pre & post & E & Ei). exists (entry_bytes prev e ++ pre), post.
    rewrite E, <- app_assoc. split; [done|]. rewrite zlen_app, Ei. do 2 f_equal. lia.
Qed.

Lemma all_places_find idx blocks q :
  q ∈ all_places idx blocks -> exists l es r, blocks = l ++ es :: r /\ q ∈ places (idx + zlen l) 0 [] es.
Proof.
  revert idx. induction blocks as [|b blocks IH]; intros idx; cbn [all_places]; [by intros ?%not_elem_of_nil|].
  intros [Hq|Hq]%elem_of_app.
  - exists [], b, blocks. split; [done|]. by rewrite zlen_nil, Z.add_0_r.
  - destruct (IH _ Hq) as (l & es & r & -> & Hp). exists (b :: l), es, r. split; [done|].
    rewrite zlen_cons. by replace (idx + (1 + zlen l)) with (idx + 1 + zlen l) by lia.
Qed.

Lemma handles_lookup base l es r :
  handles base (l ++ es :: r) !! length l = Some (mkBH (base + zlen (s1_frames l)) (4 + zlen (plain [] es))).
Proof.
  revert base. induction l as [|b l IH]; intros base; cbn [handles app length].
  - cbn. by rewrite Z.add_0_r.
  - cbn [lookup list_lookup]. rewrite IH. unfold s1_frames at 2. cbn [map concat]. by rewrite zlen_app, Z.add_assoc.
Qed.

Lemma PrepareRead_place r blocks tail q verify :
  s1r_file r = s1_frames blocks ++ tail -> s1r_block_map r = handles 0 blocks -> zlen (s1r_file r) < 2 ^ 32 ->
  q ∈ all_places 0 blocks ->
  exists post, PrepareRead r (snd q) verify = Done (inr (entry_bytes (fst (fst q)) (snd (fst q)) ++ post)) /\
    in_memory (entry_bytes (fst (fst q)) (snd (fst q)) ++ post).
Proof.
  intros Hf Hm Hlt (l & es & rr & -> & Hq)%all_places_find.
  destruct (places_find _ _ _ _ _ Hq) as (pre & post & E & Ei). exists post. unfold PrepareRead. rewrite Ei. cbn [block_idx offset].
  rewrite Hm, Z.add_0_l. unfold zlen at 1. rewrite Nat2Z.id, handles_lookup. cbn [ofopt obind].
  assert (Ef : s1r_file r = s1_frames l ++ frame (plain [] es) ++ (s1_frames rr ++ tail)).
  { rewrite Hf. unfold s1_frames. rewrite map_app, concat_app. cbn [map concat]. by rewrite <- !app_assoc. }
  rewrite Ef in Hlt |- *. rewrite !zlen_app, zlen_frame, E, !zlen_app in Hlt. rewrite !Z.add_0_l, ReadBlock_frame. cbn [obind].
  change (negb (ok kOk)) with false. cbn iota. pose proof (zlen_nonneg (s1_frames l)). pose proof (zlen_nonneg pre).
  pose proof (zlen_nonneg post). pose proof (zlen_nonneg (s1_frames rr)). pose proof (zlen_nonneg tail).
  pose proof (zlen_nonneg (entry_bytes (fst (fst q)) (snd (fst q)))).
  rewrite wrap_small by (unfold is_u; lia). rewrite E, !zlen_app.
  destruct (Z.ltb_spec (zlen pre + (zlen (entry_bytes (fst (fst q)) (snd (fst q))) + zlen post)) (zlen pre)); [lia|].
  unfold zlen at 1. rewrite Nat2Z.id, drop_app_length. split; [done|]. unfold in_memory. rewrite zlen_app. lia.
Qed.

(** The key that an entry stores behind [prev]. *)
Definition stored_key (prev k : bytes) : Z * bytes :=
  if shares prev k then (zlen (ukey prev), drop (length (ukey k)) k) else (0, k).

Lemma ukey_prefix k : exists t, k = ukey k ++ t.
Proof.
  unfold ukey. destruct last; [exists []; by rewrite app_nil_r|]. unfold parsed, ParseTaggedKey. destruct (_ <? _); [by exists k|].
  cbn [fst]. eexists. symmetry. apply take_drop.
Qed.

Section exact.
Context `{!ComparatorExact ucmp}.

Lemma shares_ukey prev k : shares prev k = true -> ukey prev = ukey k.
Proof. intros [_ H%Z.eqb_eq]%andb_prop. by apply (cmp_exact (cmp := ucmp)). Qed.

Lemma next_key_stored saved prev k :
  (shares prev k = true -> saved = prev) -> next_key saved (fst (stored_key prev k)) (snd (stored_key prev k)) = k.
Proof.
  intros H. unfold stored_key, next_key. destruct (shares prev k) eqn:E; [|by rewrite take_0].
  rewrite (H eq_refl). cbn [fst snd]. pose proof (shares_ukey _ _ E) as Eu. destruct (ukey_prefix prev) as [t Ht].
  destruct (ukey_prefix k) as [t' Ht']. rewrite Ht at 2. unfold zlen. rewrite Nat2Z.id, take_app_length, Eu.
  rewrite Ht' at 3. by rewrite drop_app_length.
Qed.

Lemma ReadKey_entry prev e post :
  in_memory (fst e) -> in_memory (entry_bytes prev e ++ post) ->
  ReadKey (entry_bytes prev e ++ post) =
  Some (stored_key prev (skey (fst e)), GetV64 (zlen (snd e)) ++ snd e ++ post).
Proof.
  intros Hk Hm. unfold ReadKey, entry_bytes in *. set (k := skey (fst e)) in *. set (v := GetV64 (zlen (snd e)) ++ snd e) in *.
  assert (Hks : is_u 64 (zlen (ukey k))).
  { unfold k. rewrite ukey_skey. destruct (ukey_prefix (fst e)) as [t Ht]. unfold in_memory in Hk.
    unfold parsed, ParseTaggedKey. destruct (_ <? _); [done|]. cbn [fst]. unfold zlen in *. rewrite length_take. unfold is_u. lia. }
  assert (Hkb : exists sh res, stored_key prev k = (sh, res) /\ key_bytes prev k = put_key sh res /\ is_u 64 sh).
  { unfold stored_key, key_bytes. destruct (shares prev k) eqn:E; eexists _, _; (split; [reflexivity|]); split; try done.
    by rewrite (shares_ukey _ _ E). }
  destruct Hkb as (sh & res & -> & Ekb & Hsh). rewrite Ekb in *. unfold put_key in *. rewrite <- !app_assoc in *.
  change (in_memory ([] ++ GetV64 sh ++ GetV64 (zlen res) ++ res ++ v ++ post)) in Hm.
  change {| Slice.buf_ := ?s; position_ := 0 |} with (at_ [] s).
  assert (Hres : is_u 64 (zlen res)).
  { unfold in_memory in Hm. rewrite !zlen_app in Hm. pose proof (zlen_nonneg (GetV64 sh)). pose proof (zlen_nonneg (GetV64 (zlen res))).
    pose proof (zlen_nonneg res). pose proof (zlen_nonneg v). pose proof (zlen_nonneg post). change (zlen []) with 0 in Hm. unfold is_u. lia. }
  erewrite br_bind_Some by (by apply ReadVarint64_at). rewrite app_assoc in Hm.
  erewrite br_bind_Some by (by apply ReadVarint64_at). rewrite app_assoc in Hm.
  erewrite br_bind_Some by (by apply ReadStringN_at). unfold br_ret. cbn [mbind option_bind].
  pose proof (drop_at ((([] ++ GetV64 sh) ++ GetV64 (zlen res)) ++ res) (v ++ post)) as Hd. cbn [at_ position_ Slice.buf_] in Hd.
  rewrite <- !app_assoc in Hd. rewrite <- !app_assoc. cbn [at_ position_ app] in *. rewrite Hd. unfold v. by rewrite <- !app_assoc.
Qed.
End exact.

Lemma ReadValue_entry v post : in_memory (GetV64 (zlen v) ++ v ++ post) -> ReadValue (GetV64 (zlen v) ++ v ++ post) = Some v.
Proof.
  intros Hm. unfold ReadValue. change {| Slice.buf_ := ?s; position_ := 0 |} with (at_ [] s).
  change (in_memory ([] ++ GetV64 (zlen v) ++ v ++ post)) in Hm.
  assert (is_u 64 (zlen v)) by (by apply in_memory_is_u, (in_memory_app_l v post), (in_memory_app_r ([] ++ GetV64 (zlen v))); rewrite <- app_assoc).
  erewrite br_bind_Some by (by apply ReadVarint64_at). rewrite app_assoc in Hm.
  by rewrite ReadStringN_at.
Qed.

(** ** Lookups in a bucket *)

(** The places of a bucket are read in order: an entry that shares the user key
    of its predecessor in the block comes right behind it. *)
Fixpoint linked (prev : bytes) (ps : list placed) : Prop :=
  match ps with
  | [] => True
  | (q, e, _) :: ps => (q = [] \/ q = prev) /\ linked (skey (fst e)) ps
  end.

Fixpoint chained (saved : bytes) (ps : list placed) : Prop :=
  match ps with
  | [] => True
  | (q, e, _) :: ps => (shares q (skey (fst e)) = true -> saved = q) /\ chained (skey (fst e)) ps
  end.

Lemma linked_app prev ps qs : linked prev ps -> (forall k, linked k qs) -> linked prev (ps ++ qs).
Proof.
  revert prev. induction ps as [|[[q e] ix] ps IH]; intros prev H Hq; [apply Hq|]. destruct H as [H1 H2].
  split; [done | by apply IH].
Qed.

Lemma linked_places idx off prev es : linked prev (places idx off prev es).
Proof. revert off prev. induction es as [|e es IH]; intros off prev; [done|]. split; [by right | apply IH]. Qed.

Lemma linked_all idx blocks k : linked k (all_places idx blocks).
Proof.
  revert idx k. induction blocks as [|b blocks IH]; intros idx k; [done|]. cbn [all_places]. apply linked_app; [|intros; apply IH].
  destruct b as [|e b]; [done|]. cbn [places]. split; [by left | apply linked_places].
Qed.

Lemma chained_bucket `{!ComparatorExact ucmp} i ps prev saved :
  linked prev ps -> (home_of (ukey prev) = i -> saved = prev) -> chained saved (List.filter (in_slot i) ps).
Proof.
  revert prev saved. induction ps as [|[[q e] ix] ps IH]; intros prev saved; [done|]. intros [Hq Hl] Hs. cbn [List.filter].
  unfold in_slot at 1. cbn [fst snd]. unfold user. destruct (Nat.eqb_spec (home_of (fst (parsed (fst e)))) i) as [Hi|Hi].
  - cbn [chained]. split.
    + intros E. pose proof (shares_ukey _ _ E) as Eu. destruct Hq as [->| ->]; [done|]. apply Hs.
      by rewrite Eu, ukey_skey.
    + by apply (IH (skey (fst e))).
  - apply (IH (skey (fst e))); [done|]. rewrite ukey_skey. done.
Qed.

(** What a lookup of [lookup] answers: the first entry that it may see. *)
Definition visible_to (lookup : bytes * Tag) (e : kv) : bool :=
  (ucmp (user e) (fst lookup) =? 0) &&
  (last || (sequence_number (snd (parsed (fst e))) <=? sequence_number (snd lookup))).

Definition answer (lookup : bytes * Tag) (es : list kv) : error + Tag * bytes :=
  match find (visible_to lookup) es with
  | Some e => inr (if last then mkTag 0 (flag_code kFlagValue) else snd (parsed (fst e)), snd e)
  | None => inl kNotFound
  end.

Lemma answer_cons lookup e es :
  answer lookup (e :: es) =
  if visible_to lookup e then inr (if last then mkTag 0 (flag_code kFlagValue) else snd (parsed (fst e)), snd e) else answer lookup es.
Proof. unfold answer. cbn [find]. by destruct (visible_to lookup e). Qed.

Lemma s1_find_chained `{!ComparatorExact ucmp} r blocks tail verify lookup ps saved ikey :
  s1r_file r = s1_frames blocks ++ tail -> s1r_block_map r = handles 0 blocks -> zlen (s1r_file r) < 2 ^ 32 ->
  last_level (s1r_props r) = last ->
  (forall q, q ∈ ps -> q ∈ all_places 0 blocks) ->
  Forall (fun q : placed => (exists u s, versioned u s (snd (fst q))) /\ in_memory (fst (snd (fst q)))) ps ->
  chained saved ps ->
  s1_find ucmp r verify lookup (map snd ps) saved ikey = Done (answer lookup (map (fun q => snd (fst q)) ps)).
Proof.
  intros Hf Hm Hlt Hl Hin Hall. revert saved ikey. induction ps as [|q ps IH]; intros saved ikey Hch; [done|].
  destruct (PrepareRead_place r blocks tail q verify Hf Hm Hlt) as (post & E & Hmem); [apply Hin; by left|].
  apply Forall_cons in Hall as [[Hv Hk] Hall]. destruct q as [[prev e] ix]. cbn [fst snd map] in *. destruct Hch as [Hsh Hch].
  cbn [s1_find]. rewrite E. cbn [obind]. rewrite ReadKey_entry by done. pose proof (next_key_stored saved prev (skey (fst e)) Hsh) as Hnk.
  destruct (stored_key prev (skey (fst e))) as [sh res]. cbn [ofopt obind fst snd] in *. rewrite Hnk, Hl.
  assert (Hval : ReadValue (GetV64 (zlen (snd e)) ++ snd e ++ post) = Some (snd e)).
  { apply ReadValue_entry. unfold entry_bytes in Hmem. rewrite <- !app_assoc in Hmem. by apply in_memory_app_r in Hmem. }
  rewrite answer_cons. unfold visible_to.
  destruct Hv as (u & s & f & v & -> & Htag). unfold user in *. cbn [fst snd] in *. rewrite parsed_MakeKey by done. cbn [fst snd].
  unfold skey in *. cbn [fst] in *. destruct last eqn:Elast.
  - rewrite parsed_MakeKey in Hch |- * by done. cbn [orb fst] in *. rewrite andb_true_r. destruct (ucmp u (fst lookup) =? 0).
    + rewrite Hval. cbn [ofopt obind]. done.
    + apply IH; [intros q Hq; apply Hin; by right | done | done].
  - rewrite ParseTaggedKey_MakeKey by done. cbn [fst snd orb]. destruct (_ && _).
    + rewrite Hval. cbn [ofopt obind]. by rewrite ExtractTag_MakeKey.
    + apply IH; [intros q Hq; apply Hin; by right | done | done].
Qed.

(** A bucket answers like the whole list. *)
Lemma answer_bucket `{!ComparatorExact ucmp} lookup ps :
  answer lookup (map (fun q => snd (fst q)) (List.filter (in_slot (home_of (fst lookup))) ps)) =
  answer lookup (map (fun q => snd (fst q)) ps).
Proof.
  induction ps as [|[[prev e] ix] ps IH]; [done|]. cbn [List.filter map fst snd]. unfold in_slot at 1. cbn [fst snd].
  destruct (Nat.eqb_spec (home_of (user e)) (home_of (fst lookup))) as [Hi|Hi]; cbn [map fst snd]; rewrite !answer_cons.
  - destruct (visible_to lookup e); [done | exact IH].
  - destruct (visible_to lookup e) eqn:E; [|exact IH]. exfalso. apply Hi.
    apply andb_prop in E as [E%Z.eqb_eq _]. by rewrite (cmp_exact (cmp := ucmp) _ _ E).
Qed.

Lemma user_MakeKey u s f v : tag_ok (mkTag s f) -> user (MakeKey u s f, v) = u.
Proof. intros H. unfold user. cbn [fst]. by rewrite parsed_MakeKey. Qed.

(** With tags the answer is that of the sorted table. *)
Lemma answer_sorted `{!ComparatorLaws ucmp} uk sq fl es :
  last = false -> tag_ok (mkTag sq fl) -> StronglySorted (kv_lt (InternalCompare ucmp)) es -> Forall is_versioned es ->
  answer (uk, mkTag sq fl) es = table_get ucmp (MakeKey uk sq fl) es.
Proof.
  intros Hl Ht Hs Hall. induction Hall as [|e es He Hall IH]; [done|]. apply StronglySorted_inv in Hs as [Hs Hlt].
  destruct He as (k & s & f & v & -> & Htag). rewrite answer_cons, table_get_cons by done. unfold visible_to.
  rewrite user_MakeKey by done. cbn [fst snd]. rewrite parsed_MakeKey, Hl by done. cbn [fst snd sequence_number orb].
  destruct (Z.eqb_spec (ucmp k uk) 0) as [E|E].
  - rewrite E. cbn [Z.ltb Z.compare orb andb]. destruct (Z.leb_spec s sq), (Z.ltb_spec sq s); [lia | done | by apply IH | lia].
  - cbn [andb orb]. rewrite orb_false_r. destruct (Z.ltb_spec (ucmp k uk) 0); [by apply IH|].
    unfold answer. destruct (find _ es) as [x|] eqn:Ef; [|done]. exfalso. apply find_some in Ef as [Hin [Ex%Z.eqb_eq _]%andb_prop].
    apply list_elem_of_In in Hin. rewrite Forall_forall in Hlt, Hall. destruct (Hall x Hin) as (k' & s' & f' & v' & -> & Htag').
    specialize (Hlt _ Hin). unfold kv_lt in Hlt. cbn [fst] in Hlt. rewrite InternalCompare_MakeKey in Hlt by done.
    rewrite user_MakeKey in Ex by done. cbn [fst] in Ex.
    destruct (Z.eqb_spec (ucmp k k') 0) as [E0|E0]; cbn [negb] in Hlt.
    + apply E. by apply (cmp_eq_trans ucmp k k' uk).
    + pose proof (cmp_lt_le_trans ucmp k k' uk Hlt ltac:(lia)). lia.
Qed.

(** The reader of the file. *)
Lemma s1_Get_image `{!ComparatorExact ucmp} p blocks filter verify verify' uk sq fl :
  (0 < n)%nat -> last_level p = last -> zlen (s1_image p blocks filter) < 2 ^ 32 -> tag_ok (mkTag sq fl) ->
  Forall is_versioned (concat blocks) -> Forall (fun e => in_memory (fst e)) (concat blocks) ->
  s1_Get ucmp uhash verify' (MakeKey uk sq fl) (s1_reader p blocks filter verify) =
  Done (answer (uk, mkTag sq fl) (concat blocks)).
Proof.
  intros Hn Hl Hlt Ht Hv Hk. unfold s1_Get. cbn [index_ s1_reader].
  assert (length (all_buckets (all_places 0 blocks)) = n) as -> by (unfold all_buckets; by rewrite length_map, length_seq).
  rewrite s1_slot_MakeKey by done. cbn [obind]. unfold all_buckets. rewrite list_lookup_fmap, lookup_seq_lt by (by apply home_of_lt).
  cbn [fmap option_fmap option_map ofopt obind]. rewrite parsed_MakeKey by done. unfold bucket. cbn [Nat.add].
  rewrite <- (entries_all_places 0 blocks) in Hv, Hk |- *. rewrite <- (answer_bucket (uk, mkTag sq fl)).
  destruct (s1_image_index p blocks filter) as [post Ep].
  eapply (s1_find_chained _ blocks); [exact Ep | done | exact Hlt | by destruct filter | | |].
  - intros q Hq. apply list_elem_of_In, List.filter_In in Hq as [Hq _]. by apply list_elem_of_In.
  - rewrite Forall_forall in Hv, Hk. apply Forall_forall. intros q Hq. apply list_elem_of_In, List.filter_In in Hq as [Hq _].
    assert (snd (fst q) ∈ map (fun q : placed => snd (fst q)) (all_places 0 blocks)) as Hm
      by (apply list_elem_of_In, in_map_iff; by exists q).
    split; [by apply Hv | by apply Hk].
  - apply (chained_bucket _ _ []); [apply linked_all | done].
Qed.
End format.

(** What a table is built from: entries in order, as [Sst.sst_input]; the first
    one may have no version, for which the table has no tags. *)
Record s1_input {F} `{WritableFile F} (ucmp : bytes -> bytes -> Z) (n : nat) (file : F) (block_size approx : Z) (es : list kv) : Prop := {
  si_slots : (0 < n)%nat /\ Z.of_nat n < 2 ^ 64;
  si_block_size : 512 <= block_size < 2 ^ 32;
  si_aligned : block_size mod 4 = 0;
  si_approx : 0 <= approx < 2 ^ 32;
  si_file : contents file = [];
  si_some : es <> [];
  si_count : zlen es < 2 ^ 32;
  si_keys : Forall (fun e => in_memory (fst e)) es;
  si_versions : Forall (fun e => exists u s, versioned u s e) es;
  si_sorted : StronglySorted (kv_lt (InternalCompare ucmp)) es;
}.

(** The answer of a table without tags: a value, whatever was asked for. *)
Definition untagged_get (ucmp : bytes -> bytes -> Z) (uk : bytes) (es : list kv) : error + Tag * bytes :=
  match find (fun e => ucmp (user e) uk =? 0) es with
  | Some e => inr (mkTag 0 (flag_code kFlagValue), snd e)
  | None => inl kNotFound
  end.

Lemma answer_untagged ucmp lookup es : answer ucmp true lookup es = untagged_get ucmp (fst lookup) es.
Proof.
  induction es as [|e es IH]; [done|]. rewrite answer_cons. unfold visible_to, untagged_get. cbn [orb find]. rewrite andb_true_r.
  by destruct (_ =? 0).
Qed.

(** The finished file is an image, and [Prepare] accepts it. *)
Lemma s1_build {F} `{WritableFile F, !WritableFileLaws F, !ReliableFile F} ucmp uhash conflicts n (file : F) block_size approx es :
  s1_input ucmp n file block_size approx es ->
  let b0 := NewS1TableBuilder file n block_size approx in
  exists b p blocks filter, (do! b := s1_add_all ucmp uhash es b0 in s1_Finish conflicts b)%out = Done (kOk, b) /\
    contents (fw_file (s1_writer b)) = s1_image ucmp uhash (untagged es) n p blocks filter /\
    concat blocks = es /\ last_level p = untagged es /\
    filter = s1_filter n conflicts (s1_new_filter b0) es (zlen es) /\
    forall verify, zlen (s1_image ucmp uhash (untagged es) n p blocks filter) < 2 ^ 32 ->
      s1_Prepare (s1_image ucmp uhash (untagged es) n p blocks filter) verify =
      Done (inr (s1_reader ucmp uhash (untagged es) n p blocks filter verify)).
Proof.
  intros [[Hn Hn64] Hb H4 Ha Hf Hne Hlen Hk Hv Hs] b0. set (last := untagged es).
  destruct (s1_add_all_inv ucmp uhash last n (s1_new_filter b0) b0 es) as (b & blocks & cur & Eadd & Hinv & Hp);
    [by apply s1_inv_new | apply s1_props_new | done..| by intros e es' -> |].
  destruct (s1_Finish_image ucmp uhash last n conflicts _ _ _ _ _ Hinv Hne Hlen) as (blocks' & b' & Hes & Hg & Hfin & Hc & _).
  destruct Hp as [P1 P2 _ P3 P4 P5 [P6 P7]]. set (p := s1_props b) in *.
  assert (Hcount : num_entries p = zlen es) by (rewrite P5; pose proof (zlen_nonneg es); apply wrap_small; unfold is_u; lia).
  rewrite Hcount in Hc. exists b', p, blocks', (s1_filter n conflicts (s1_new_filter b0) es (zlen es)). rewrite Eadd. cbn [obind].
  split_and!; [exact Hfin | exact Hc | exact Hes | by apply P2 | done|]. intros verify Hlt.
  apply s1_Prepare_image; try done; [|by rewrite Hes]. apply s1_props_ok; try done. pose proof (zlen_nonneg es). rewrite Hcount. unfold is_u. lia.
Qed.

(** C37: a hash table built on a reliable file from a non-empty list of entries
    with increasing internal keys is finished without an error, and (below 4 GB)
    the file can be opened again.  Every lookup in it then returns what the list
    of entries answers, as a sorted table does; when the first entry has no
    version, the table has no tags, and a lookup returns the first value of the
    user key.  The filter, if there is one, contains every user key. *)
Theorem S1Table_Get {F} `{WritableFile F, !WritableFileLaws F, !ReliableFile F} ucmp uhash conflicts n (file : F) block_size approx es verify :
  ComparatorLaws ucmp -> ComparatorExact ucmp -> s1_input ucmp n file block_size approx es ->
  exists b, (do! b := s1_add_all ucmp uhash es (NewS1TableBuilder file n block_size approx) in s1_Finish conflicts b)%out = Done (kOk, b) /\
    (zlen (contents (fw_file (s1_writer b))) < 2 ^ 32 ->
     exists r, s1_Prepare (contents (fw_file (s1_writer b))) verify = Done (inr r) /\
       (forall verify' uk sq fl, tag_ok (mkTag sq fl) ->
         s1_Get ucmp uhash verify' (MakeKey uk sq fl) r =
         Done (if untagged es then untagged_get ucmp uk es else table_get ucmp (MakeKey uk sq fl) es)) /\
       (forall e, e ∈ es -> s1_MayExists (fst (parsed (fst e))) r = true)).
Proof.
  intros Hlaws Hex Hin. destruct (s1_build ucmp uhash conflicts n file block_size approx es Hin)
    as (b & p & blocks & filter & Hfin & Hc & Hes & Hl & Hfi & Hprep).
  exists b. split; [exact Hfin|]. rewrite Hc. clear Hc. intros Hlt. eexists. split; [by apply Hprep|].
  destruct Hin as [[Hn _] Hb H4 Ha _ _ _ Hk Hv Hs]. split.
  - intros verify' uk sq fl Ht. rewrite s1_Get_image by (rewrite ?Hes; auto). rewrite Hes. f_equal.
    destruct (untagged es) eqn:Eu; [apply answer_untagged | by apply answer_sorted].
  - intros e He. unfold s1_MayExists. cbn [filter_ s1_reader]. rewrite Hfi. unfold s1_filter. destruct (conflicts _ _); [|done].
    destruct (filter_of_spec _ es e (new_filter_ok file block_size 1 approx Hb H4 Ha) He) as (F1 & F2 & F3).
    pose proof (KeyBloomFilter_Finish (fst (parsed (fst e))) _ F1) as HK. rewrite F2, F3 in HK. exact HK.
Qed.

Lemma s1_sample_input : s1_input lex 3 (mkMem []) 512 3 sample_entries.
Proof.
  constructor; try done.
  - split; [lia | done].
  - by repeat constructor.
  - repeat apply Forall_cons_2; [exists [97], 7 | exists [97], 5 | exists [98], 6 | apply Forall_nil_2];
      eexists _, _; (split; [reflexivity | done]).
  - repeat first [apply SSorted_cons | apply SSorted_nil | apply Forall_cons_2
                  | apply Forall_nil_2 | reflexivity].
Qed.

(** The test of [Finish] with exact arithmetic. *)
Definition many_conflicts (count buckets : Z) : bool := 3 * buckets <? count.

Lemma S1Table_Get_witness :
  exists b, (do! b := s1_add_all lex BytewiseHash sample_entries (NewS1TableBuilder (mkMem []) 3 512 3) in s1_Finish many_conflicts b)%out = Done (kOk, b) /\
    (zlen (contents (fw_file (s1_writer b))) < 2 ^ 32 ->
     exists r, s1_Prepare (contents (fw_file (s1_writer b))) true = Done (inr r) /\
       (forall verify' uk sq fl, tag_ok (mkTag sq fl) ->
         s1_Get lex BytewiseHash verify' (MakeKey uk sq fl) r =
         Done (if untagged sample_entries then untagged_get lex uk sample_entries else table_get lex (MakeKey uk sq fl) sample_entries)) /\
       (forall e, e ∈ sample_entries -> s1_MayExists (fst (parsed (fst e))) r = true)).
Proof. apply (S1Table_Get lex BytewiseHash many_conflicts 3 (mkMem []) 512 3 sample_entries true); [apply _ | apply _ | apply s1_sample_input]. Defined.
