(* ===== verification/S1Scan.v ===== *)
(** * S1Scan

    The iterator of a hash table visits every entry once, bucket by bucket. *)

From S2P Require Import Prelude Varint Slice Hash IO Keys Entries Iterator HashMap Table Block Sst S1Table S1Get.

Section scan.
Context (ucmp : bytes -> bytes -> Z) (uhash : bytes -> Z) (last : bool) (n : nat) (blocks : list (list kv)).
Context (r : S1TableReader) (verify : bool) (tail : bytes).
Context `{!ComparatorExact ucmp}.
Context (Hfile : s1r_file r = s1_frames ucmp last blocks ++ tail).
Context (Hmap : s1r_block_map r = handles ucmp last 0 blocks).
Context (Hlt : zlen (s1r_file r) < 2 ^ 32).
Context (Hindex : index_ r = all_buckets uhash n (all_places ucmp last 0 blocks)).
Context (Hall : Forall (fun e => in_memory (fst e)) (concat blocks)).

#[local] Abbreviation ps := (all_places ucmp last 0 blocks).
#[local] Abbreviation slot i := (List.filter (in_slot uhash n i) ps).
#[local] Abbreviation ops := (S1Iterator_ops ucmp uhash).

(** The entry as the iterator shows it. *)
Definition shown (q : placed) : kv := (skey last (fst (snd (fst q))), snd (snd (fst q))).

(** Standing on the place [q], the [j]th of the bucket [i]. *)
Definition stands (i j : nat) (q : placed) (it : S1Iterator) : Prop :=
  s1i_reader it = r /\ s1i_verify it = verify /\ s1i_error it = kOk /\
  s1i_slot it = Z.of_nat i /\ s1i_current it = Z.of_nat j /\ (i < n)%nat /\ slot i !! j = Some q /\
  s1i_saved_key it = fst (shown q) /\ s1i_value it = snd (shown q).

Lemma slot_index i : (i < n)%nat -> index_ r !! i = Some (map snd (slot i)).
Proof. intros Hi. rewrite Hindex. unfold all_buckets. by rewrite list_lookup_fmap, lookup_seq_lt by done. Qed.

Lemma bucket_of it i : s1i_reader it = r -> s1i_slot it = Z.of_nat i -> (i < n)%nat -> s1i_bucket it = map snd (slot i).
Proof.
  intros Hr Hs Hi. unfold s1i_bucket. rewrite Hr, Hs. destruct (Z.ltb_spec (Z.of_nat i) 0); [lia|].
  by rewrite Nat2Z.id, slot_index.
Qed.

Lemma Valid_at it i j q :
  s1i_reader it = r -> s1i_error it = kOk -> s1i_slot it = Z.of_nat i -> s1i_current it = Z.of_nat j -> (i < n)%nat ->
  slot i !! j = Some q -> s1i_Valid it = true.
Proof.
  intros Hr He Hs Hc Hi Hq. unfold s1i_Valid. rewrite (bucket_of it i) by done. rewrite He, Hs, Hc. change (ok kOk) with true.
  apply lookup_lt_Some in Hq. unfold zlen. rewrite length_map.
  destruct (Z.leb_spec 0 (Z.of_nat i)), (Z.leb_spec 0 (Z.of_nat j)), (Z.ltb_spec (Z.of_nat j) (Z.of_nat (length (slot i)))); done || lia.
Qed.

(** [UpdateEntry] at a place whose predecessor's key is there. *)
Lemma update_stands it i j q :
  s1i_reader it = r -> s1i_verify it = verify -> s1i_error it = kOk -> s1i_slot it = Z.of_nat i -> s1i_current it = Z.of_nat j ->
  (i < n)%nat -> slot i !! j = Some q -> chained ucmp last (s1i_saved_key it) (drop j (slot i)) ->
  exists it', update_if_valid it = Done it' /\ stands i j q it'.
Proof.
  intros Hr Hv He Hs Hc Hi Hq Hch. unfold update_if_valid. rewrite (Valid_at it i j q) by done. unfold UpdateEntry.
  rewrite (bucket_of it i), Hc, Nat2Z.id, list_lookup_fmap, Hq by done. cbn [fmap option_fmap option_map ofopt obind].
  assert (Hin : q ∈ ps).
  { apply list_elem_of_lookup_2, list_elem_of_In, List.filter_In in Hq as [Hq _]. by apply list_elem_of_In. }
  rewrite Hr, Hv. destruct (PrepareRead_place ucmp last r blocks tail q verify Hfile Hmap Hlt Hin) as (post & E & Hm).
  rewrite E. cbn [obind]. rewrite (drop_S _ _ _ Hq) in Hch.
  assert (Hk : in_memory (fst (snd (fst q)))).
  { rewrite Forall_forall in Hall. apply Hall. rewrite <- (entries_all_places ucmp last 0 blocks).
    apply list_elem_of_In, in_map_iff. exists q. split; [done | by apply list_elem_of_In]. }
  destruct q as [[prev e] ix]. cbn [fst snd] in *. destruct Hch as [Hsh _]. rewrite ReadKey_entry by done.
  pose proof (next_key_stored ucmp last (s1i_saved_key it) prev (skey last (fst e)) Hsh) as Hn.
  destruct (stored_key ucmp last prev (skey last (fst e))) as [sh res]. cbn [fst snd ofopt obind] in *.
  assert (Hval : ReadValue (GetV64 (zlen (snd e)) ++ snd e ++ post) = Some (snd e)).
  { apply ReadValue_entry. unfold entry_bytes in Hm. rewrite <- !app_assoc in Hm. by apply in_memory_app_r in Hm. }
  rewrite Hval. cbn [ofopt obind]. eexists. split; [reflexivity|]. unfold stands. cbn. by split_and!.
Qed.

(** The next bucket with entries. *)
Lemma used_slot_spec k m :
  match used_slot (Z.of_nat k) (map (fun i => map snd (slot i)) (seq k m)) with
  | Some z => exists i q l, z = Z.of_nat i /\ (k <= i < k + m)%nat /\ slot i = q :: l /\
      concat (map (fun i => slot i) (seq k m)) = concat (map (fun i => slot i) (seq i (k + m - i)))
  | None => concat (map (fun i => slot i) (seq k m)) = []
  end.
Proof.
  revert k. induction m as [|m IH]; intros k; [done|]. cbn [seq map used_slot concat].
  destruct (slot k) as [|q l] eqn:E; cbn [map app].
  - specialize (IH (S k)). replace (Z.of_nat k + 1) with (Z.of_nat (S k)) by lia. destruct (used_slot _ _) as [z|]; [|done].
    destruct IH as (i & q & l & -> & Hi & El & Ec). exists i, q, l. split; [done|]. split; [lia|]. split; [done|].
    rewrite Ec. do 3 f_equal. lia.
  - exists k, q, l. split; [done|]. split; [lia|]. split; [done|]. replace (k + S m - k)%nat with (S m) by lia.
    cbn [seq map concat]. by rewrite E.
Qed.

(** The places from the bucket [i] on. *)
Definition places_from (i : nat) : list placed := concat (map (fun i => slot i) (seq i (n - i))).

Lemma places_from_S i : (i < n)%nat -> places_from i = slot i ++ places_from (S i).
Proof. intros Hi. unfold places_from. replace (n - i)%nat with (S (n - S i)) by lia. done. Qed.

Lemma drop_index i : (i <= n)%nat -> drop i (index_ r) = map (fun i => map snd (slot i)) (seq i (n - i)).
Proof. intros Hi. rewrite Hindex. unfold all_buckets. by rewrite skipn_map, drop_seq. Qed.

(** The step to the next bucket, with the key cleared. *)
Lemma next_bucket k it :
  (k <= n)%nat -> s1i_reader it = r -> s1i_verify it = verify -> s1i_error it = kOk ->
  match used_slot (Z.of_nat k) (drop k (index_ r)) with
  | Some z => exists i q it', (k <= i)%nat /\ update_if_valid (s1i_at z 0 [] it) = Done it' /\ stands i 0 q it' /\
      places_from k = q :: drop 1 (slot i) ++ places_from (S i)
  | None => places_from k = []
  end.
Proof.
  intros Hk Hr Hv He. rewrite drop_index by done. pose proof (used_slot_spec k (n - k)) as H.
  destruct (used_slot _ _) as [z|]; [|exact H]. destruct H as (i & q & l & -> & Hi & El & Ec).
  destruct (update_stands (s1i_at (Z.of_nat i) 0 [] it) i 0 q) as (it' & E & Hst); try done; [lia | by rewrite El | |].
  { apply (chained_bucket ucmp uhash last n i _ []); [apply linked_all | done]. }
  exists i, q, it'. split; [lia|]. split; [exact E|]. split; [exact Hst|]. unfold places_from at 1. rewrite Ec.
  replace (k + (n - k) - i)%nat with (n - i)%nat by lia. fold (places_from i). rewrite places_from_S by lia. by rewrite El.
Qed.

(** From a place on, [Next] goes through the rest of its bucket and the
    buckets behind it. *)
Lemma stands_runs m it i j q :
  (length (drop (S j) (slot i) ++ places_from (S i)) < m)%nat -> stands i j q it ->
  runs (I := S1Iterator) (Iterator0 := ops) (it_Next (Iterator := ops)) it (map shown (q :: drop (S j) (slot i) ++ places_from (S i))).
Proof.
  revert it i j q. induction m as [|m IH]; intros it i j q Hm Hst; [lia|].
  pose proof Hst as (Hr & Hv & He & Hs & Hc & Hi & Hq & Hk & Hval). cbn [map runs]. split.
  { by apply (Valid_at it i j q). }
  split. { cbn. rewrite Hk, Hval. by destruct (shown q). }
  change (it_Next (Iterator := ops) it) with (s1i_Next it). unfold s1i_Next. rewrite (bucket_of it i), Hs, Hc by done. unfold zlen. rewrite length_map.
  pose proof (lookup_lt_Some _ _ _ Hq) as Hj. destruct (Z.eqb_spec (Z.of_nat j) (Z.of_nat (length (slot i)) - 1)) as [Ej|Ej].
  - rewrite (drop_ge (slot i) (S j)) in Hm |- * by lia. cbn [app] in *. pose proof (next_bucket (S i) it ltac:(lia) Hr Hv He) as H.
    rewrite Hr. replace (Z.of_nat i + 1) with (Z.of_nat (S i)) by lia. rewrite Nat2Z.id. destruct (used_slot _ _) as [z|].
    + destruct H as (k & q' & it' & Hk' & E & Hst' & Ep). exists it'. split; [exact E|]. rewrite Ep in Hm |- *.
      apply IH; [|exact Hst']. cbn [length] in Hm. lia.
    + rewrite H. unfold update_if_valid.
      assert (s1i_Valid (s1i_at (-1) (Z.of_nat j) (s1i_saved_key it) it) = false) as -> by (unfold s1i_Valid; cbn; by rewrite andb_false_r).
      eexists. split; [reflexivity|]. cbn. unfold s1i_Valid. cbn. by rewrite andb_false_r.
  - destruct (lookup_lt_is_Some_2 (slot i) (S j)) as [q' Hq']; [lia|].
    destruct (update_stands (s1i_at (Z.of_nat i) (Z.of_nat j + 1) (s1i_saved_key it) it) i (S j) q') as (it' & E & Hst'); try done.
    { cbn. lia. }
    { cbn [s1i_saved_key s1i_at]. rewrite Hk.
      assert (Hch : chained ucmp last [] (slot i)) by (apply (chained_bucket ucmp uhash last n i _ []); [apply linked_all | done]).
      clear -Hq Hch. revert Hq Hch. generalize (slot i) (@nil Z). intros l. revert j.
      induction l as [|[[p e] ix] l IH]; intros [|j] saved Hq Hch; try done; destruct Hch as [_ Hch].
      - injection Hq as <-. exact Hch.
      - by apply (IH j (skey last (fst e))). }
    exists it'. split; [exact E|]. rewrite (drop_S _ _ _ Hq') in Hm |- *. cbn [app map]. apply IH; [|exact Hst']. cbn [app length] in Hm. lia.
Qed.

Lemma s1_first_runs :
  exists it, s1i_SeekToFirst (s1_NewIterator r verify) = Done it /\
    runs (I := S1Iterator) (Iterator0 := ops) (it_Next (Iterator := ops)) it (map shown (places_from 0)).
Proof.
  unfold s1i_SeekToFirst. pose proof (next_bucket 0 (s1_NewIterator r verify) ltac:(lia) eq_refl eq_refl eq_refl) as H.
  change (drop 0 ?l) with l in H. change (Z.of_nat 0) with 0 in H. cbn [s1i_reader s1_NewIterator]. destruct (used_slot _ _) as [z|].
  - destruct H as (i & q & it & _ & E & Hst & Ep). exists it. split; [exact E|]. rewrite Ep. eapply (stands_runs (S _)); [apply Nat.lt_succ_diag_r | exact Hst].
  - rewrite H. eexists. split; [reflexivity | done].
Qed.
End scan.

(** The buckets together hold every place once. *)
Lemma all_slots uhash n (l : list placed) :
  (0 < n)%nat -> in_buckets (fun i => List.filter (in_slot uhash n i) l) n ≡ₚ l.
Proof.
  intros Hn. induction l as [|q l IH]; [by unfold in_buckets; induction (seq 0 n)|].
  set (i := home_of uhash n (user (snd (fst q)))).
  etransitivity; [|apply Permutation_skip, IH].
  etransitivity; [|eapply (buckets_put (fun i => List.filter (in_slot uhash n i) l)); [by apply home_of_lt | reflexivity]].
  unfold in_buckets. apply reflexive_eq. f_equal. apply map_ext. intros j. cbn [List.filter]. unfold in_slot at 1.
  destruct (Nat.eqb_spec (home_of uhash n (user (snd (fst q)))) j) as [->|Hj]; [by rewrite decide_True | by rewrite decide_False].
Qed.

(** C38: on a hash table built as before, the loop [SeekToFirst], [Valid], [Next]
    goes through every entry exactly once, in the order of the buckets, and then
    ends without an error; the keys are those of the file: of a table without
    tags, the user keys. *)
Theorem S1Table_scan {F} `{WritableFile F, !WritableFileLaws F, !ReliableFile F} ucmp uhash conflicts n (file : F) block_size approx es verify verify' :
  ComparatorExact ucmp -> s1_input ucmp n file block_size approx es ->
  exists b, (do! b := s1_add_all ucmp uhash es (NewS1TableBuilder file n block_size approx) in s1_Finish conflicts b)%out = Done (kOk, b) /\
    (zlen (contents (fw_file (s1_writer b))) < 2 ^ 32 ->
     exists r it shown, s1_Prepare (contents (fw_file (s1_writer b))) verify = Done (inr r) /\
       s1i_SeekToFirst (s1_NewIterator r verify') = Done it /\
       scan (Iterator0 := S1Iterator_ops ucmp uhash) (length es) it = Done shown /\
       shown ≡ₚ map (fun e => (skey (untagged es) (fst e), snd e)) es).
Proof.
  intros Hex Hin. destruct (s1_build ucmp uhash conflicts n file block_size approx es Hin)
    as (b & p & blocks & filter & Hfin & Hc & Hes & Hl & _ & Hprep).
  exists b. split; [exact Hfin|]. rewrite Hc. clear Hc. intros Hlt.
  destruct (s1_image_index ucmp uhash (untagged es) n p blocks filter) as [post Ep].
  set (last := untagged es) in *. set (r := s1_reader ucmp uhash last n p blocks filter verify).
  destruct (s1_first_runs ucmp uhash last n blocks r verify' _ Ep eq_refl Hlt eq_refl) as (it & Hit & Hruns).
  { rewrite Hes. apply (si_keys _ _ _ _ _ _ Hin). }
  set (l := map (shown last) (places_from ucmp uhash last n blocks 0)) in *.
  assert (Hperm : l ≡ₚ map (fun e => (skey last (fst e), snd e)) es).
  { unfold l, places_from. rewrite Nat.sub_0_r. etransitivity; [apply Permutation_map, (all_slots uhash n _ (proj1 (si_slots _ _ _ _ _ _ Hin)))|].
    rewrite <- Hes at 1. rewrite <- (entries_all_places ucmp last 0 blocks), map_map. done. }
  exists r, it, l. split; [by apply Hprep|]. split; [exact Hit|]. split; [|exact Hperm].
  apply forward_scan; [exact Hruns|]. apply Permutation_length in Hperm. rewrite length_map in Hperm. lia.
Qed.

Lemma S1Table_scan_witness :
  exists b, (do! b := s1_add_all lex BytewiseHash sample_entries (NewS1TableBuilder (mkMem []) 3 512 3) in s1_Finish many_conflicts b)%out = Done (kOk, b) /\
    (zlen (contents (fw_file (s1_writer b))) < 2 ^ 32 ->
     exists r it shown, s1_Prepare (contents (fw_file (s1_writer b))) true = Done (inr r) /\
       s1i_SeekToFirst (s1_NewIterator r true) = Done it /\
       scan (Iterator0 := S1Iterator_ops lex BytewiseHash) (length sample_entries) it = Done shown /\
       shown ≡ₚ map (fun e => (skey (untagged sample_entries) (fst e), snd e)) sample_entries).
Proof. apply (S1Table_scan lex BytewiseHash many_conflicts 3 (mkMem []) 512 3 sample_entries true true); [apply _ | apply s1_sample_input]. Defined.

(** [Seek] reads the value that it found into [saved_key_] (the parameters of
    [ReadValue] at its end), so the key at hand is then the value. *)
Definition sample_s1 (es : list kv) : outcome S1TableReader :=
  (do! b := s1_add_all lex BytewiseHash es (NewS1TableBuilder (mkMem []) 3 512 3) in
   do! (_, b) := s1_Finish many_conflicts b in
   do! r := s1_Prepare (contents (fw_file (s1_writer b))) true in
   match r with inl _ => Undef | inr r => Done r end)%out.

Example Seek_key_is_value :
  (do! r := sample_s1 sample_entries in
   do! it := s1i_Seek lex BytewiseHash (MakeKey [97] 7 0) (s1_NewIterator r true) in
   Done (s1i_Valid it, it_current (Iterator := S1Iterator_ops lex BytewiseHash) it))%out = Done (true, Some ([1], [1])).
Proof. vm_compute. reflexivity. Qed.

(** The next key then takes its shared part from the value. *)
Example Next_after_Seek_is_wrong :
  (do! r := sample_s1 [(MakeKey [97] 7 0, [55]); (MakeKey [97] 5 0, [2])] in
   do! it := s1i_Seek lex BytewiseHash (MakeKey [97] 7 0) (s1_NewIterator r true) in
   do! it := s1i_Next it in
   Done (it_current (Iterator := S1Iterator_ops lex BytewiseHash) it))%out = Done (Some (MakeKey [55] 5 0, [2])).
Proof. vm_compute. reflexivity. Qed.

(** In a table without tags [Seek] puts one behind the key, [UpdateEntry] none. *)
Example untagged_keys :
  (do! r := sample_s1 [(MakeKey [97] 0 0, [1])] in
   do! it := s1i_SeekToFirst (s1_NewIterator r true) in
   Done (it_current (Iterator := S1Iterator_ops lex BytewiseHash) it))%out = Done (Some ([97], [1])).
Proof. vm_compute. reflexivity. Qed.

(** The error of a [Seek] that found nothing stays: the iterator is not valid
    after [SeekToFirst] either. *)
Example Seek_error_stays :
  (do! r := sample_s1 sample_entries in
   do! it := s1i_Seek lex BytewiseHash (MakeKey [99] 7 0) (s1_NewIterator r true) in
   do! it := s1i_SeekToFirst it in
   Done (s1i_Valid it, s1i_error it))%out = Done (false, kNotFound).
Proof. vm_compute. reflexivity. Qed.
