(* ===== verification/BlockCache.v ===== *)
(** * BlockCache

    [LRUCache] of src/core/lru-cache-v1.{h,cc}, shards of a cache by the hashes
    of the keys, and the cache of blocks above it, src/table/block-cache.{h,cc}.

    A shard is made when it is used first.  A handle belongs to the shard of its
    key, a pointer to it is the index of the shard with an index of its heap.
    The theorem [BlockCache_transparent] relates the cache to [Sst.ReadBlock]:
    the readers of table files ([Sst]) see the same blocks with the cache as
    without it. *)

From S2P Require Import Prelude Slice Hash IO Keys SkipList HashMap Iterator Table Block Sst LRU LRUSafe.

(** ** LRUCache *)

Record LRUCache (V : Type) := mkCache {
  lc_capacity : Z;
  lc_locks : LockGroup;
  shards_ : list (option (LRUCacheShard V));
}.
Arguments mkCache {V} _ _ _.
Arguments lc_capacity {V} _.
Arguments lc_locks {V} _.
Arguments shards_ {V} _.

Section cache.
(** See [LRU]: [raw] is what is found in the storage of a new shard. *)
Context {V : Type} (raw : LRUHandle V) (crowded : HashMap Entry -> bool) (scaled : HashMap Entry -> Z).

Definition NewLRUCache (max_shards : nat) (capacity : Z) : LRUCache V :=
  mkCache capacity (NewLockGroup (max_shards * 8) false) (replicate max_shards None).

(** The number of shards is [max_shards_]. *)
Definition HashNumber (n : Z) (c : LRUCache V) : outcome nat :=
  if (length (shards_ c) =? 0)%nat then Undef else Done (Z.to_nat (n mod zlen (shards_ c))).

Definition HashKey (key : bytes) (c : LRUCache V) : outcome nat :=
  if (length (shards_ c) =? 0)%nat then Undef else Done (Z.to_nat (Sdbm key mod zlen (shards_ c))).

Definition set_shard (idx : nat) (g : LockGroup) (s : option (LRUCacheShard V)) (c : LRUCache V) : LRUCache V :=
  mkCache (lc_capacity c) g (<[idx := s]> (shards_ c)).

(** [GetShard], which makes a shard that is not there ([NeedInit], [Install]). *)
Definition GetShard (idx : nat) (c : LRUCache V) : outcome (LRUCacheShard V * LRUCache V) :=
  (do! o := ofopt (shards_ c !! idx : option (option (LRUCacheShard V))) in
   match o with
   | Some s => Done (s, c)
   | None => let s := NewShard raw (lc_capacity c) in Done (s, set_shard idx (lc_locks c) (Some s) c)
   end)%out.

Definition cache_GetOrLoad (fuel : nat) (key : bytes) (result : option nat) (del : bool)
    (loader : bytes -> Heap V -> outcome ((error + nat) * Heap V)) (c : LRUCache V) : outcome (error * option nat * LRUCache V) :=
  (do! idx := HashKey key c in
   do! (s, c) := GetShard idx c in
   do! (e, r, g, s) := shard_GetOrLoad crowded scaled fuel key result del loader (lc_locks c) s in
   Done (e, r, set_shard idx g (Some s) c))%out.

Definition cache_Insert (key : bytes) (x : nat) (del : bool) (c : LRUCache V) : outcome (LRUCache V) :=
  (do! idx := HashKey key c in
   do! (s, c) := GetShard idx c in
   do! s := shard_Insert crowded scaled key x del s in Done (set_shard idx (lc_locks c) (Some s) c))%out.

Definition cache_Get (key : bytes) (c : LRUCache V) : outcome (option nat * LRUCache V) :=
  (do! idx := HashKey key c in
   do! (s, c) := GetShard idx c in
   do! (r, s) := shard_Get key s in Done (r, set_shard idx (lc_locks c) (Some s) c))%out.

Definition cache_Remove (key : bytes) (c : LRUCache V) : outcome (LRUCache V) :=
  (do! idx := HashKey key c in
   do! (s, c) := GetShard idx c in
   do! s := shard_Remove key s in Done (set_shard idx (lc_locks c) (Some s) c))%out.

(** A shard that is not there is taken away as well. *)
Definition cache_Delete (idx : nat) (c : LRUCache V) : outcome (bool * LRUCache V) :=
  (do! o := ofopt (shards_ c !! idx : option (option (LRUCacheShard V))) in
   do! _ := (match o with Some s => DeleteShard s | None => Done [] end) in
   Done (true, set_shard idx (lc_locks c) None c))%out.

Definition cache_Purge (idx : nat) (c : LRUCache V) : outcome (LRUCache V) :=
  (do! o := ofopt (shards_ c !! idx : option (option (LRUCacheShard V))) in
   match o with
   | Some s => do! s := PurgeIfNeeded crowded scaled true s in Done (set_shard idx (lc_locks c) (Some s) c)
   | None => Done c
   end)%out.

(** Holders of handles change the counts themselves. *)
Definition cache_upd (idx x : nat) (f : LRUHandle V -> LRUHandle V) (c : LRUCache V) : outcome (LRUCache V) :=
  (do! o := ofopt (shards_ c !! idx : option (option (LRUCacheShard V))) in
   do! s := ofopt o in
   do! hs := upd x f (heap_ s) in Done (set_shard idx (lc_locks c) (Some (with_heap hs s)) c))%out.
End cache.

(** ** BlockCache *)

Section blocks.
Context (raw : LRUHandle bytes) (crowded : HashMap Entry -> bool) (scaled : HashMap Entry -> Z).

Definition NewBlockCache (capacity : Z) : LRUCache bytes := NewLRUCache 7 capacity.

Definition block_key (file_number offset : Z) : bytes := GetU64 file_number ++ GetU64 offset.

(** [Loader]: what is too short for a checksum cannot be looked at, nor be
    copied without it. *)
Definition BlockLoader (file : bytes) (offset size : Z) (checksum_verify : bool) (key : bytes) (hs : Heap bytes) :
    outcome ((error + nat) * Heap bytes) :=
  let '(rs, buf) := ra_Read file offset size in
  if negb (ok rs) then Done (inl rs, hs)
  else if zlen buf <? 4 then Undef
  else
    (do! bad := (if checksum_verify
                 then do! checksum := ofopt (SetFixed32 (take 4 buf)) in Done (negb (checksum =? crc32 0 (drop 4 buf)))
                 else Done false) in
     if bad then Done (inl kIOError, hs)
     else let '(x, hs) := NewHandle key (drop 4 buf) 0 hs in Done (inr x, hs))%out.

Definition bc_GetOrLoad (fuel : nat) (file : bytes) (file_number offset size : Z) (checksum_verify : bool) (c : LRUCache bytes) :
    outcome (error * option nat * LRUCache bytes) :=
  cache_GetOrLoad raw crowded scaled fuel (block_key file_number offset) None false (BlockLoader file offset size checksum_verify) c.

Definition GetShardIdx (file_number : Z) (c : LRUCache bytes) : outcome nat := HashNumber file_number c.

Definition bc_Purge (file_number : Z) (c : LRUCache bytes) : outcome (LRUCache bytes) :=
  obind (GetShardIdx file_number c) (fun idx => cache_Purge crowded scaled idx c).

Definition bc_GetShard (file_number : Z) (c : LRUCache bytes) : outcome (LRUCacheShard bytes * LRUCache bytes) :=
  obind (GetShardIdx file_number c) (fun idx => GetShard raw idx c).

(** The block a reader gets: [NewBlockIterator] and [NewIndexIterator] of
    [SstTableReader] with the cache.  The iterator looks at [size - 4] bytes of
    the value, and holds a reference, that of [result] is given back. *)
Definition bc_NewBlockIterator (fuel : nat) (file : bytes) (file_number : Z) (h : BlockHandle) (checksum_verify : bool) (c : LRUCache bytes) :
    outcome ((error + BlockIterator) * LRUCache bytes) :=
  (do! (rs, handle, c) := bc_GetOrLoad fuel file file_number (bh_offset h) (bh_size h) checksum_verify c in
   if negb (ok rs) then Done (inl rs, c)
   else
     do! x := ofopt handle in
     do! idx := HashKey (block_key file_number (bh_offset h)) c in
     do! o := ofopt (shards_ c !! idx : option (option (LRUCacheShard bytes))) in
     do! s := ofopt o in
     do! lh := ofopt (LRU.handle x (heap_ s)) in
     do! block := ofopt (value lh) in
     if zlen block <? bh_size h - 4 then Undef
     else
       do! it := ofopt (NewBlockIterator (take (Z.to_nat (bh_size h - 4)) block)) in
       do! c := cache_upd idx x AddRef c in
       do! c := cache_upd idx x ReleaseRef c in
       Done (inr it, c))%out.
End blocks.

(** ** What the cache holds *)

Section transparent.
Context (raw : LRUHandle bytes) (crowded : HashMap Entry -> bool) (scaled : HashMap Entry -> Z).

(** The contents of the table files by their numbers, which do not change, and
    the sizes of the blocks by their places. *)
Context (files : Z -> bytes) (sizes : Z -> Z -> Z).

Definition block_at (file_number offset : Z) : BlockHandle := mkBH offset (sizes file_number offset).

(** A block as a reader without a cache sees it. *)
Definition direct (verify : bool) (file_number offset : Z) : outcome (error * bytes) :=
  ReadBlock (files file_number) verify (block_at file_number offset).

(** Every handle has the bytes of its block. *)
Definition holds_block (d : bool) (k : bytes) (v : option bytes) : Prop :=
  d = false /\ exists file_number offset b, is_u 64 file_number /\ is_u 64 offset /\ k = block_key file_number offset /\ v = Some b /\
    direct false file_number offset = Done (kOk, b).

Definition shard_good (s : LRUCacheShard bytes) : Prop := exists k lru use es, wf holds_block ∅ k s lru use es.

Definition cache_good (c : LRUCache bytes) : Prop :=
  (0 < length (shards_ c))%nat /\ forall i s, shards_ c !! i = Some (Some s) -> shard_good s.

Lemma holds_block_destroyed k v : holds_block true k v -> holds_block true k None.
Proof. by intros [? _]. Qed.

Lemma block_key_inj n o n' o' : is_u 64 n -> is_u 64 o -> is_u 64 n' -> is_u 64 o' -> block_key n o = block_key n' o' -> n = n' /\ o = o'.
Proof.
  unfold block_key, GetU64. intros Hn Ho Hn' Ho' E. apply app_inj_1 in E as [E1 E2]; [|by rewrite !length_le_bytes].
  assert (H : forall x y, is_u 64 x -> is_u 64 y -> le_bytes 8 x = le_bytes 8 y -> x = y).
  { intros x y Hx Hy E. pose proof (SetFixed_le_bytes 8 x []) as E3. pose proof (SetFixed_le_bytes 8 y []) as E4. rewrite E, E4 in E3.
    injection E3 as E3. change (256 ^ Z.of_nat 8) with (2 ^ 64) in E3. unfold is_u in *. rewrite !Z.mod_small in E3 by lia. lia. }
  split; by apply H.
Qed.

(** *** The loader *)

Lemma SetFixed_take n s v : SetFixed n s = Some v -> (n <= length s)%nat /\ SetFixed n (take n s) = Some v.
Proof.
  unfold SetFixed. rewrite length_take, take_take, Nat.min_id. destruct (Nat.ltb_spec (length s) n); [done|]. intros E. split; [done|].
  destruct (Nat.ltb_spec (n `min` length s) n); [lia | done].
Qed.

(** The loader gives what a reader without the cache gets. *)
Lemma BlockLoader_direct verify n o e b key hs :
  direct verify n o = Done (e, b) ->
  BlockLoader (files n) o (sizes n o) verify key hs =
    Done (if ok e then (inr (length hs), hs ++ [Some (mkHandle None None false 0 0 (Some b) key 0 0 0)]) else (inl e, hs)).
Proof.
  unfold direct, ReadBlock, BlockLoader, block_at. cbn [bh_offset bh_size]. destruct (ra_Read (files n) o (sizes n o)) as [rs buf].
  destruct (ok rs) eqn:Ers; cbn [negb]; [|by intros [= <- <-]; rewrite Ers].
  destruct (SetFixed32 buf) as [checksum|] eqn:Es; cbn [ofopt obind]; [|done]. apply SetFixed_take in Es as [Hlen Es].
  assert (Hz : (zlen buf <? 4) = false) by (apply Z.ltb_ge; unfold zlen; lia). rewrite Hz. unfold SetFixed32. rewrite Es.
  destruct verify; cbn [ofopt obind andb]; [|by intros [= <- <-]].
  destruct (checksum =? crc32 0 (drop 4 buf)); cbn [negb]; by intros [= <- <-].
Qed.

(** A block without errors is the same when its checksum is not looked at. *)
Lemma direct_unverified verify n o b : direct verify n o = Done (kOk, b) -> direct false n o = Done (kOk, b).
Proof.
  unfold direct, ReadBlock. destruct (ra_Read _ _ _) as [rs buf]. destruct (negb (ok rs)); [done|].
  destruct (SetFixed32 buf) as [checksum|]; cbn [ofopt obind]; [|done]. destruct (verify && _); [|done]. by intros [= ?].
Qed.

Lemma BlockLoader_loads verify n o e b hs :
  is_u 64 n -> is_u 64 o -> direct verify n o = Done (e, b) ->
  loads holds_block false (BlockLoader (files n) o (sizes n o) verify) (block_key n o) hs.
Proof.
  intros Hn Ho E. pose proof (BlockLoader_direct verify n o e b (block_key n o) hs E) as El. destruct (ok e) eqn:Ee; [|left; by exists e].
  assert (e = kOk) as -> by (by destruct e). apply direct_unverified in E.
  assert (HΦ : holds_block false (block_key n o) (Some b)) by (split; [done|]; by exists n, o, b).
  right. exists (mkHandle None None false 0 0 (Some b) (block_key n o) 0 0 0). done.
Qed.

(** *** What is done to it *)

(** A load keeps the reference of its result; references are given back and
    taken; the shard that belongs to the number of a file is purged. *)
Inductive block_op :=
  | BLoad (file_number offset : Z) (verify : bool)
  | BHold (idx x : nat)
  | BRelease (idx x : nat)
  | BPurge (file_number : Z).

Definition run_block (op : block_op) (c : LRUCache bytes) : outcome (LRUCache bytes) :=
  (match op with
   | BLoad n o verify => do! (_, _, c) := bc_GetOrLoad raw crowded scaled 1 (files n) n o (sizes n o) verify c in Done c
   | BHold idx x => cache_upd idx x AddRef c
   | BRelease idx x => cache_upd idx x ReleaseRef c
   | BPurge n => bc_Purge crowded scaled n c
   end)%out.

(** See [LRUSafe.allowed]; besides, the block can be read, or it is an error
    that says it cannot. *)
Definition may_load (n o : Z) (verify : bool) (c : LRUCache bytes) : Prop :=
  is_u 64 n /\ is_u 64 o /\ (exists e b, direct verify n o = Done (e, b)) /\
  exists idx s c1, HashKey (block_key n o) c = Done idx /\ GetShard raw idx c = Done (s, c1) /\
    allowed (OpLoad (block_key n o) false (inl kOk : error + bytes)) (lc_locks c, s).

Definition may (op : block_op) (c : LRUCache bytes) : Prop :=
  match op with
  | BLoad n o verify => may_load n o verify c
  | BHold idx x => exists s, shards_ c !! idx = Some (Some s) /\ allowed (OpHold x) (lc_locks c, s)
  | BRelease idx x => exists s, shards_ c !! idx = Some (Some s) /\ allowed (OpRelease x) (lc_locks c, s)
  | BPurge _ => True
  end.

Inductive blocks_to : LRUCache bytes -> LRUCache bytes -> Prop :=
  | blocks_nil c : blocks_to c c
  | blocks_cons op c c1 c2 : may op c -> run_block op c = Done c1 -> blocks_to c1 c2 -> blocks_to c c2.

Section good.
Hypothesis raw_refs : refs raw <= 0.

Lemma set_shard_good idx g s c : cache_good c -> shard_good s -> cache_good (set_shard idx g (Some s) c).
Proof.
  intros [Hn Hc] Hs. split; [cbn; by rewrite length_insert|]. intros i s' Hi. cbn in Hi. apply list_lookup_insert_Some in Hi as [(-> & Hi & _)|[_ Hi]]; [|by eapply Hc].
  by injection Hi as <-.
Qed.

Lemma GetShard_good idx c s c1 :
  cache_good c -> GetShard raw idx c = Done (s, c1) ->
  shard_good s /\ cache_good c1 /\ lc_locks c1 = lc_locks c /\ length (shards_ c1) = length (shards_ c) /\ (idx < length (shards_ c))%nat.
Proof.
  intros Hg. unfold GetShard. destruct (shards_ c !! idx) as [o|] eqn:Ei; cbn [ofopt obind]; [|done]. pose proof (lookup_lt_Some _ _ _ Ei) as Hlt.
  destruct o as [s0|]; intros E; apply Done_inj in E; injection E as <- <-.
  - split_and!; try done; by eapply Hg.
  - assert (Hs : shard_good (NewShard raw (lc_capacity c))) by (exists 0, [], [], []; by apply NewShard_wf).
    split_and!; [done | by apply set_shard_good | done | cbn; by rewrite length_insert | done].
Qed.

(** *** A load *)

Lemma bc_GetOrLoad_ok fuel n o verify c :
  cache_good c -> may_load n o verify c ->
  exists e r c', bc_GetOrLoad raw crowded scaled (S fuel) (files n) n o (sizes n o) verify c = Done (e, r, c') /\ cache_good c' /\
    match r with
    | Some x => e = kOk /\ exists idx s h b, HashKey (block_key n o) c' = Done idx /\ shards_ c' !! idx = Some (Some s) /\
        LRU.handle x (heap_ s) = Some h /\ value h = Some b /\ direct false n o = Done (kOk, b)
    | None => exists b, direct verify n o = Done (e, b) /\ ok e = false
    end.
Proof.
  intros Hg (Hn & Ho & (e0 & b0 & Ed) & idx & s & c1 & Hidx & Hs & ((i & Hi & Hfree) & Href & Hroom)).
  destruct (GetShard_good _ _ _ _ Hg Hs) as ((k & lru & use & es & W) & Hg1 & El & Elen & Hlt). unfold bc_GetOrLoad, cache_GetOrLoad. rewrite Hidx. cbn [obind]. rewrite Hs. cbn [obind].
  rewrite El. destruct (shard_GetOrLoad_ok crowded scaled holds_block ∅ holds_block_destroyed fuel k s lru use es (block_key n o) false
    (BlockLoader (files n) o (sizes n o) verify) (lc_locks c) i W Hi Hfree Href) as (e & r & g' & s' & lru' & use' & es' & -> & W' & Hr).
  { by eapply BlockLoader_loads. }
  { destruct Hroom as [Hroom|(a & b & Ha & Hb & Hna & Hnb)]; [left; by apply Z.leb_le | right; by eapply room_list]. }
  cbn [obind]. exists e, r, (set_shard idx g' (Some s') c1). split; [done|]. split; [apply set_shard_good; [done | by exists k, lru', use', es']|].
  destruct Hr as [(-> & _ & x & h & -> & Hh & Hk & Hr2 & Hx)|(-> & _ & Eload)].
  - split; [done|]. destruct (listed_entry _ _ _ _ _ _ _ (w_heap _ _ _ _ _ _ _ W') Hx) as (_ & _ & Hge & _).
    destruct (d_values _ _ _ _ _ (h_data _ _ _ _ _ _ (w_heap _ _ _ _ _ _ _ W')) x h Hge Hh) as (_ & n' & o' & b & Hn' & Ho' & Ek & Ev & Eb).
    rewrite Hk in Ek. apply block_key_inj in Ek as [<- <-]; [|done..]. exists idx, s', h, b. split_and!; try done.
    + unfold HashKey in *. cbn [shards_ set_shard]. unfold zlen in *. by rewrite length_insert, Elen.
    + cbn. rewrite list_lookup_insert_eq; [done | by rewrite Elen].
  - rewrite (BlockLoader_direct verify n o e0 b0 _ _ Ed) in Eload. destruct (ok e0) eqn:Ee0; [done|]. apply Done_inj in Eload. injection Eload as <-.
    by exists b0.
Qed.

Lemma run_block_good op c c' : cache_good c -> may op c -> run_block op c = Done c' -> cache_good c'.
Proof.
  intros Hg Hm. assert (Hupd : forall idx x f s, shards_ c !! idx = Some (Some s) ->
    (exists hs', upd x f (heap_ s) = Done hs' /\ shard_good (with_heap hs' s)) -> cache_upd idx x f c = Done c' -> cache_good c').
  { intros idx x f s Hi (hs' & Eu & Hs') E. unfold cache_upd in E. rewrite Hi in E. cbn [ofopt obind] in E. rewrite Eu in E. cbn [obind] in E.
    apply Done_inj in E. subst c'. by apply set_shard_good. }
  destruct op as [n o verify|idx x|idx x|n]; cbn [run_block may] in *.
  - destruct (bc_GetOrLoad_ok 0 n o verify c Hg Hm) as (e & r & c1 & -> & Hg1 & _). cbn [obind]. intros E. apply Done_inj in E. by subst c1.
  - destruct Hm as (s & Hi & Hx & h & Hh & Hr). destruct (proj2 Hg idx s Hi) as (k & lru & use & es & W).
    destruct (AddRef_ok _ _ _ _ _ _ _ _ _ W Hx Hh Hr) as (hs' & E & W' & _). apply (Hupd idx x _ s Hi). exists hs'. split; [done|]. by exists k, lru, use, es.
  - destruct Hm as (s & Hi & Hx & h & Hh & Hr). destruct (proj2 Hg idx s Hi) as (k & lru & use & es & W).
    destruct (ReleaseRef_ok _ _ _ _ _ _ _ _ _ W Hx Hh Hr eq_refl) as (hs' & E & W'). apply (Hupd idx x _ s Hi). exists hs'. split; [done|]. by exists k, lru, use, es.
  - unfold bc_Purge, GetShardIdx, cache_Purge. destruct (HashNumber n c) as [idx| |]; cbn [obind]; [|done..].
    destruct (shards_ c !! idx) as [[s|]|] eqn:Hi; cbn [ofopt obind]; [| |done].
    + destruct (proj2 Hg idx s Hi) as (k & lru & use & es & W).
      destruct (PurgeIfNeeded_ok crowded scaled holds_block ∅ holds_block_destroyed k true s lru use es W) as (s' & lru' & use' & es' & -> & W' & _). cbn [obind].
      intros E. apply Done_inj in E. subst c'. apply set_shard_good; [done|]. by exists k, lru', use', es'.
    + intros E. apply Done_inj in E. by subst c'.
Qed.

Lemma blocks_to_good c c' : cache_good c -> blocks_to c c' -> cache_good c'.
Proof. intros Hg Hr. induction Hr as [|op c c1 c2 Hm E Hr IH]; [done|]. apply IH. by eapply run_block_good. Qed.

Lemma NewBlockCache_good capacity : cache_good (NewBlockCache capacity).
Proof.
  split; [cbn; lia|]. intros i s Hi. unfold NewBlockCache, NewLRUCache in Hi. cbn [shards_] in Hi. apply lookup_replicate in Hi as [? _]. done.
Qed.
End good.

(** C22: The cache of blocks is transparent, as long as its calls are allowed
    ([may]): clients hold only handles that are in use or cached, give back only
    what they hold, and load ([may_load]) only while the stripe of locks of the
    key is free (a load that failed has left its stripe locked for good,
    [LRUSafe.failed_load_locks]), while the new handle is not the next one to go
    (there is room for one more, or two handles that nobody holds go before it;
    [LRUSafe.loaded_is_evicted] has what happens otherwise), at a place at which
    reading the file is defined, and with less than 2^31-1 references.  However
    blocks were loaded, held, given back and purged before in this way, a load
    that is allowed ends, and either returns a handle with exactly the bytes that
    are in the file at this place, or it fails and then reading the file without
    a cache fails with the same error.  [refs raw <= 0]: the reference count of
    the storage in which the heads of a shard are made, which only a debug build
    sets (to zero), is not positive ([LRUSafe.purge_of_nothing]). *)
Theorem BlockCache_transparent capacity c n o verify fuel :
  refs raw <= 0 -> blocks_to (NewBlockCache capacity) c -> may_load n o verify c ->
  exists e r c', bc_GetOrLoad raw crowded scaled (S fuel) (files n) n o (sizes n o) verify c = Done (e, r, c') /\
    match r with
    | Some x => e = kOk /\ exists idx s h b, HashKey (block_key n o) c' = Done idx /\ shards_ c' !! idx = Some (Some s) /\
        LRU.handle x (heap_ s) = Some h /\ value h = Some b /\ direct false n o = Done (kOk, b)
    | None => exists b, direct verify n o = Done (e, b) /\ ok e = false
    end.
Proof.
  intros Hraw Hr Hm. pose proof (blocks_to_good Hraw _ _ (NewBlockCache_good capacity) Hr) as Hg.
  destruct (bc_GetOrLoad_ok Hraw fuel n o verify c Hg Hm) as (e & r & c' & E & _ & H). by exists e, r, c'.
Qed.

Lemma cache_upd_done idx x f (c : LRUCache bytes) s h :
  shards_ c !! idx = Some (Some s) -> LRU.handle x (heap_ s) = Some h ->
  exists c' s', cache_upd idx x f c = Done c' /\ shards_ c' !! idx = Some (Some s') /\ LRU.handle x (heap_ s') = Some (f h).
Proof.
  intros Hi Hh. unfold cache_upd. rewrite Hi. cbn [ofopt obind]. destruct (upd_spec x f (heap_ s) h Hh) as (hs' & -> & _ & S). cbn [obind].
  eexists _, (with_heap hs' s). split; [done|]. cbn. rewrite list_lookup_insert_eq by (by eapply lookup_lt_Some). split; [done|]. by rewrite S, decide_True.
Qed.

(** A reader of a table gets the iterator that it gets without the cache. *)
Lemma bc_NewBlockIterator_direct capacity c n o verify fuel r it :
  refs raw <= 0 -> blocks_to (NewBlockCache capacity) c -> may_load n o verify c ->
  sr_file r = files n -> 0 <= o -> o + sizes n o <= zlen (files n) ->
  sr_NewBlockIterator r verify (block_at n o) = Done (inr it) ->
  exists c', bc_NewBlockIterator raw crowded scaled (S fuel) (files n) n (block_at n o) verify c = Done (inr it, c').
Proof.
  intros Hraw Hr Hm Ef Ho Hsize Eit. pose proof (blocks_to_good Hraw _ _ (NewBlockCache_good capacity) Hr) as Hg.
  destruct (bc_GetOrLoad_ok Hraw fuel n o verify c Hg Hm) as (e & rx & c' & E & _ & H). unfold sr_NewBlockIterator in Eit. rewrite Ef in Eit.
  fold (direct verify n o) in Eit. destruct (direct verify n o) as [[e1 b1]| |] eqn:Ed; cbn [obind] in Eit; [|done..].
  destruct (ok e1) eqn:Eok; cbn [negb] in Eit; [|done]. assert (e1 = kOk) as -> by (by destruct e1).
  unfold bc_NewBlockIterator. cbn [block_at bh_offset bh_size]. rewrite E. cbn [obind]. destruct rx as [x|].
  - destruct H as (-> & idx & s & h & b & Hidx & Hs & Hh & Hv & Hb). change (negb (ok kOk)) with false. cbn [ofopt obind]. rewrite Hidx. cbn [obind]. rewrite Hs. cbn [ofopt obind].
    rewrite Hh. cbn [ofopt obind]. rewrite Hv. cbn [ofopt obind].
    apply direct_unverified in Ed. rewrite Hb in Ed. injection Ed as <-.
    assert (Hlen : zlen b = sizes n o - 4).
    { unfold direct, ReadBlock, block_at, ra_Read in Hb. cbn [bh_offset bh_size] in Hb. destruct (Z.ltb_spec (zlen (files n)) o); [done|].
      change (negb (ok kOk)) with false in Hb. cbn iota in Hb. destruct (Z.ltb_spec (zlen (files n) - o) (sizes n o)); [lia|].
      destruct (SetFixed32 _) as [v|] eqn:Es; cbn [ofopt obind andb] in Hb; [|done]. injection Hb as <-.
      apply SetFixed_take in Es as [Hl _]. rewrite length_take, length_drop in Hl. unfold zlen in *. rewrite length_drop, length_take, length_drop. lia. }
    destruct (Z.ltb_spec (zlen b) (sizes n o - 4)); [lia|]. rewrite take_ge by (unfold zlen in *; lia).
    destruct (NewBlockIterator b) as [it'|]; cbn [ofopt obind] in *; [|done]. injection Eit as ->.
    destruct (cache_upd_done idx x AddRef c' s h Hs Hh) as (c1 & s1 & -> & Hs1 & Hh1). cbn [obind].
    destruct (cache_upd_done idx x ReleaseRef c1 s1 _ Hs1 Hh1) as (c2 & s2 & -> & _). cbn [obind]. by exists c2.
  - destruct H as (b & Hb & Hok). injection Hb as <- <-. done.
Qed.
End transparent.

(** ** Runs *)

Module CacheRuns.
Definition raw0 : LRUHandle bytes := mkHandle None None false 0 0 None [] 0 0 0.
Definition crowded (t : HashMap Entry) : bool := false.
Definition scaled (t : HashMap Entry) : Z := 0.

(** File 1 is one block, the checksum of file 2 is wrong. *)
Definition files (n : Z) : bytes := if n =? 1 then frame [1; 2; 3] else if n =? 2 then [0; 0; 0; 0; 1; 2; 3] else [].
Definition sizes (n o : Z) : Z := 7.

Definition may_load_b (n o : Z) (verify : bool) (c : LRUCache bytes) : bool :=
  match HashKey (block_key n o) c, GetByKey (block_key n o) (lc_locks c) with
  | Done idx, Done i =>
    match GetShard raw0 idx c with
    | Done (s, _) =>
      bool_decide (stripes_ (lc_locks c) !! i = Some false) &&
      forallb (fun o => match o with Some h => refs h <? 2 ^ 31 - 1 | None => true end) (heap_ s) && (wrap 64 (size_ s + 1) <=? capacity_ s)
    | _ => false
    end
  | _, _ => false
  end.

Lemma may_load_b_ok n o verify c :
  is_u 64 n -> is_u 64 o -> (exists e b, direct files sizes verify n o = Done (e, b)) -> may_load_b n o verify c = true ->
  may_load raw0 files sizes n o verify c.
Proof.
  intros Hn Ho Hd H. split; [done|]. split; [done|]. split; [done|]. unfold may_load_b in H.
  destruct (HashKey (block_key n o) c) as [idx| |]; [|done..]. destruct (GetByKey (block_key n o) (lc_locks c)) as [i| |] eqn:Hi; [|done..].
  destruct (GetShard raw0 idx c) as [[s c1]| |] eqn:Hs; [|done..]. apply andb_true_iff in H as [[H1 H2]%andb_true_iff H3%Z.leb_le].
  exists idx, s, c1. split_and!; [done | done |]. split; [|split].
  - exists i. split; [done|]. by apply bool_decide_eq_true in H1.
  - intros x h Hh. rewrite forallb_forall in H2. apply Z.ltb_lt. apply (H2 (Some h)). unfold LRU.handle in Hh.
    destruct (heap_ s !! x) as [oh|] eqn:E; [|done]. cbn in Hh. subst oh. by eapply list_elem_of_In, list_elem_of_lookup_2.
  - by left.
Qed.

Definition load (n : Z) (verify : bool) (c : LRUCache bytes) : outcome (error * option nat * LRUCache bytes) :=
  bc_GetOrLoad raw0 crowded scaled 1 (files n) n 0 (sizes n 0) verify c.

(** Block 0 of file 1 is loaded, and may be loaded once more. *)
Definition again : bool :=
  match load 1 true (NewBlockCache 4) with Done (_, _, c) => may_load_b 1 0 true c | _ => false end.

Lemma BlockCache_transparent_witness :
  exists c e r c', blocks_to raw0 crowded scaled files sizes (NewBlockCache 4) c /\
    bc_GetOrLoad raw0 crowded scaled 1 (files 1) 1 0 (sizes 1 0) true c = Done (e, r, c') /\
    match r with
    | Some x => e = kOk /\ exists idx s h, HashKey (block_key 1 0) c' = Done idx /\ shards_ c' !! idx = Some (Some s) /\
        LRU.handle x (heap_ s) = Some h /\ value h = Some [1; 2; 3]
    | None => False
    end.
Proof.
  assert (H0 : refs raw0 <= 0) by (vm_compute; discriminate).
  assert (H1 : is_u 64 1) by (by vm_compute). assert (H2 : is_u 64 0) by (by vm_compute).
  assert (Hd : direct files sizes true 1 0 = Done (kOk, [1; 2; 3])) by (vm_compute; reflexivity).
  assert (Hd' : direct files sizes false 1 0 = Done (kOk, [1; 2; 3])) by (vm_compute; reflexivity).
  assert (H3 : may_load_b 1 0 true (NewBlockCache 4) = true) by (vm_compute; reflexivity).
  assert (H4 : again = true) by (vm_compute; reflexivity). unfold again in H4.
  assert (Hex : exists e b, direct files sizes true 1 0 = Done (e, b)) by (exists kOk, [1; 2; 3]; exact Hd).
  pose proof (may_load_b_ok 1 0 true _ H1 H2 Hex H3) as Hm. destruct (load 1 true (NewBlockCache 4)) as [[[e1 r1] c]| |] eqn:E; [|discriminate H4..].
  assert (Hrun : blocks_to raw0 crowded scaled files sizes (NewBlockCache 4) c).
  { apply (blocks_cons raw0 crowded scaled files sizes (BLoad 1 0 true) _ c c Hm); [|constructor]. cbn [run_block]. unfold load in E. rewrite E. reflexivity. }
  destruct (BlockCache_transparent raw0 crowded scaled files sizes 4 c 1 0 true 0 H0 Hrun (may_load_b_ok 1 0 true c H1 H2 Hex H4)) as (e & r & c' & Ec & H).
  exists c, e, r, c'. split; [exact Hrun|]. split; [exact Ec|]. destruct r as [x|].
  - destruct H as (He & idx & s & h & b & A1 & A2 & A3 & A4 & A5). split; [exact He|]. exists idx, s, h. rewrite Hd' in A5. injection A5 as <-. exact (conj A1 (conj A2 (conj A3 A4))).
  - destruct H as (b & Hb & Hok). rewrite Hd in Hb. injection Hb as <- <-. discriminate Hok.
Defined.

(** A block that was loaded without its checksum is given to a reader that wants
    the checksum verified; without the cache this reader gets an error. *)
Example cached_unverified :
  (do! (e1, _, c) := load 2 false (NewBlockCache 4) in do! (e2, _, _) := load 2 true c in Done (e1, e2))%out = Done (kOk, kOk) /\
  direct files sizes true 2 0 = Done (kIOError, files 2).
Proof. split; vm_compute; reflexivity. Qed.

(** [Purge] of a file looks at the shard of its number; its blocks are in those
    of the hashes of their keys. *)
Example purged_elsewhere :
  (do! shard := GetShardIdx 1 (NewBlockCache 4) in do! block := HashKey (block_key 1 0) (NewBlockCache 4) in Done (bool_decide (shard = block)))%out = Done false.
Proof. vm_compute. reflexivity. Qed.
End CacheRuns.
