(* ===== verification/SstIterator.v ===== *)
(** * SstIterator

    SstTableReader::IteratorImpl of src/table/sst-table-reader.cc: an iterator
    of the index and, inside it, an iterator of the current block.  It shows the
    entries of a table with tags ([SstIterator_scan]); of a file from which the
    builder left the tags out it shows user keys ([untagged_scan]). *)

From S2P Require Import Prelude Varint Slice Hash IO Keys Entries Iterator Table Block Sst.

(** [direction_] is set and never read; it is left out. *)
Record SstIterator := mkSI {
  index_iter_ : error + BlockIterator; checksum_verify_ : bool; owns_ : SstTableReader;
  block_iter_ : option (error + BlockIterator); saved_key_ : bytes; si_error_ : error
}.

Section sst_iterator.
Context (ucmp : bytes -> bytes -> Z).

#[local] Instance block_ops : Iterator BlockIterator := Block_ops (InternalCompare ucmp).

Definition set_index (i : error + BlockIterator) (it : SstIterator) : SstIterator :=
  mkSI i (checksum_verify_ it) (owns_ it) (block_iter_ it) (saved_key_ it) (si_error_ it).

Definition set_block (b : error + BlockIterator) (it : SstIterator) : SstIterator :=
  mkSI (index_iter_ it) (checksum_verify_ it) (owns_ it) (Some b) (saved_key_ it) (si_error_ it).

(** [NewIterator] of a prepared reader. *)
Definition NewIterator (verify_checksums : bool) (r : SstTableReader) : outcome SstIterator :=
  obind (NewIndexIterator r) (fun index => Done (mkSI index verify_checksums r None [] kOk)).

Definition si_Valid (it : SstIterator) : bool :=
  ok (si_error_ it) && it_Valid (index_iter_ it) &&
  match block_iter_ it with Some b => it_Valid b | None => false end.

(** The private [Seek]: the block of a handle, at one of its ends. *)
Definition si_seek_block (bh : BlockHandle) (to_first : bool) (it : SstIterator) : outcome SstIterator :=
  (do! b := sr_NewBlockIterator (owns_ it) (checksum_verify_ it) bh in
   do! b := (if to_first then it_SeekToFirst b else it_SeekToLast b) in
   Done (set_block b it))%out.

Definition SaveKeyIfNeed (it : SstIterator) : SstIterator :=
  if si_Valid it && last_level (sr_props (owns_ it)) then
    match block_iter_ it ≫= it_current with
    | Some e => mkSI (index_iter_ it) (checksum_verify_ it) (owns_ it) (block_iter_ it)
                     (MakeKey (fst e) 0 (flag_code kFlagValue)) (si_error_ it)
    | None => it
    end
  else it.

(** The handle under the index, when there is one. *)
Definition si_open (to_first : bool) (it : SstIterator) : outcome SstIterator :=
  if it_Valid (index_iter_ it) then
    (do! e := ofopt (it_current (index_iter_ it)) in
     do! bh := ofopt (bh_Decode (snd e)) in
     si_seek_block bh to_first it)%out
  else Done it.

Definition si_SeekToFirst (it : SstIterator) : outcome SstIterator :=
  (do! i := it_SeekToFirst (index_iter_ it) in
   do! it := si_open true (set_index i it) in Done (SaveKeyIfNeed it))%out.

Definition si_SeekToLast (it : SstIterator) : outcome SstIterator :=
  (do! i := it_SeekToLast (index_iter_ it) in
   do! it := si_open false (set_index i it) in Done (SaveKeyIfNeed it))%out.

(** [Seek]; an index without the target leaves the old block in place. *)
Definition si_Seek (target : bytes) (it : SstIterator) : outcome SstIterator :=
  (do! i := it_Seek target (index_iter_ it) in
   let it := set_index i it in
   if negb (it_Valid i) then Done it else
   do! it := si_open true it in
   do! b := ofopt (block_iter_ it) in
   do! b := it_Seek target b in
   let it := set_block b it in
   let it := if it_Valid b then it
             else mkSI (index_iter_ it) (checksum_verify_ it) (owns_ it) (block_iter_ it)
                       (saved_key_ it) kNotFound in
   Done (SaveKeyIfNeed it))%out.

Definition si_Next (it : SstIterator) : outcome SstIterator :=
  (do! b := ofopt (block_iter_ it) in
   do! b := it_Next b in
   let it := set_block b it in
   do! it := (if it_Valid b then Done it
              else do! i := it_Next (index_iter_ it) in si_open true (set_index i it)) in
   Done (SaveKeyIfNeed it))%out.

(** [Prev]: the previous block is entered at its first entry, as by [Next]. *)
Definition si_Prev (it : SstIterator) : outcome SstIterator :=
  (do! b := ofopt (block_iter_ it) in
   do! b := it_Prev b in
   let it := set_block b it in
   do! it := (if it_Valid b then Done it
              else do! i := it_Prev (index_iter_ it) in si_open true (set_index i it)) in
   Done (SaveKeyIfNeed it))%out.

Definition si_current (it : SstIterator) : option kv :=
  e ← block_iter_ it ≫= it_current;
  Some (if last_level (sr_props (owns_ it)) then saved_key_ it else fst e, snd e).

#[local] Instance SstIterator_ops : Iterator SstIterator := {
  it_Valid := si_Valid;
  it_SeekToFirst := si_SeekToFirst;
  it_SeekToLast := si_SeekToLast;
  it_Seek := si_Seek;
  it_Next := si_Next;
  it_Prev := si_Prev;
  it_current := si_current;
  it_error := si_error_;
}.

(** ** Scanning a table *)

(** The iterator stands in a block: [index] is what is left of the index
    (from the current block on), [blocks] the blocks behind the current one,
    [rest] what is left of the current one. *)
Record in_block (n : nat) (r : SstTableReader) (it : SstIterator) (base : Z) (blocks : list (list kv))
    (key : bytes) (bh : bytes) (rest : list kv) : Prop := {
  b_index : runs it_Next (index_iter_ it) ((key, bh) :: index_of n base blocks);
  b_block : exists b, block_iter_ it = Some b /\ runs it_Next b rest;
  b_owns : owns_ it = r;
  b_error : si_error_ it = kOk;
}.

Section scanning.
Context (n : nat) (p : TableProperties) (all : list (list kv)) (filter : bytes) (verify : bool).
Context (Hn : (0 < n)%nat) (Hlt : zlen (sst_image n p all filter) < 2 ^ 32).
Context (Hne : Forall (fun g : list kv => g <> []) all).
Context (Hmem : Forall (fun e => in_memory (fst e)) (concat all)).
Context (Hll : last_level p = false).

#[local] Abbreviation r :=
  (mkSR (sst_image n p all filter) verify (final_props n p all filter)
        (NewKeyBloomFilter filter kBloomFilterHashs)).

(** Any block of the image, opened. *)
Lemma open_block vf pre es post :
  es <> [] -> Forall (fun e => in_memory (fst e)) es ->
  sst_image n p all filter = pre ++ frame (data_block n es) ++ post ->
  exists it it', sr_NewBlockIterator r vf (mkBH (zlen pre) (4 + zlen (data_block n es))) = Done (inr it) /\
    bi_SeekToFirst it = Done it' /\ runs it_Next it' es.
Proof.
  intros Hes Hk Hf. unfold sr_NewBlockIterator. cbn [sr_file]. rewrite Hf, ReadBlock_frame.
  destruct (build_block n es Hn Hes) as (gs & it & Hgs & Hgne & Hit & Hr & _); [|done|].
  { pose proof (Finish_size (build n es)) as Hsz. fold (data_block n es) in Hsz.
    rewrite Hf, !zlen_app, zlen_frame in Hlt. pose proof (zlen_nonneg pre). pose proof (zlen_nonneg post). lia. }
  destruct (block_SeekToFirst (InternalCompare ucmp) it gs Hr Hgne) as (it' & E & Hrun).
  exists it, it'. cbn [obind]. change (negb (ok kOk)) with false. cbn iota.
  unfold data_block. rewrite Hit. rewrite Hgs in Hrun. done.
Qed.

Lemma SaveKey_same it : owns_ it = r -> SaveKeyIfNeed it = it.
Proof.
  intros Ho. unfold SaveKeyIfNeed. rewrite Ho. cbn [sr_props]. unfold final_props, footer_props.
  cbn [last_level]. rewrite Hll. by rewrite andb_false_r.
Qed.

(** Opening the block under the index. *)
Lemma si_open_block l es rest it :
  all = l ++ es :: rest -> owns_ it = r -> si_error_ it = kOk ->
  runs it_Next (index_iter_ it) (index_of n (zlen (frames n l)) (es :: rest)) ->
  exists it' bh, si_open true it = Done it' /\
    in_block n r it' (zlen (frames n (l ++ [es]))) rest (last_key [] es) bh es.
Proof.
  intros Hall Ho He Hi. cbn [index_of runs] in Hi. destruct Hi as (Hv & Hc & i' & Hni & Hrun).
  destruct (image_block n p all filter l es rest Hall) as [post Hp].
  rewrite Hall in Hne, Hmem. rewrite concat_app in Hmem. cbn [concat] in Hmem.
  apply Forall_app in Hne as [_ [Hes _]%Forall_cons].
  apply Forall_app in Hmem as [_ [Hm _]%Forall_app].
  destruct (open_block (checksum_verify_ it) (frames n l) es post Hes Hm Hp) as (b & b' & Eb & Es & Hb).
  pose proof (f_equal zlen Hp) as Hz. rewrite !zlen_app, zlen_frame in Hz.
  pose proof (zlen_nonneg (frames n l)). pose proof (zlen_nonneg post). pose proof (zlen_nonneg (data_block n es)).
  eexists _, _. split.
  - unfold si_open. rewrite Hv, Hc. cbn [ofopt obind snd].
    rewrite <- (app_nil_r (bh_Encode _)), bh_Decode_Encode by (cbn [bh_offset bh_size]; unfold is_u; lia).
    cbn [ofopt obind]. unfold si_seek_block. rewrite Ho, Eb. cbn [obind it_SeekToFirst sum_Iterator either_Iterator either].
    change (it_SeekToFirst b) with (bi_SeekToFirst b). rewrite Es. reflexivity.
  - constructor; cbn [index_iter_ block_iter_ owns_ si_error_ set_block]; try done.
    + cbn [runs]. split_and!; [exact Hv | exact Hc |]. exists i'. split; [exact Hni|].
      rewrite frames_snoc, zlen_app. exact Hrun.
    + eexists. split; [reflexivity|]. by apply sum_runs.
Qed.

Lemma in_block_forward l blocks it key bh rest :
  all = l ++ blocks -> in_block n r it (zlen (frames n l)) blocks key bh rest -> rest <> [] ->
  forward it (rest ++ concat blocks).
Proof.
  remember (length (rest ++ concat blocks)) as m eqn:Hm.
  revert l blocks it key bh rest Hm. induction m as [|m IH]; intros l blocks it key bh rest Hm Hall Hin Hrest.
  { destruct rest; [done|]. cbn in Hm. lia. }
  destruct rest as [|e rest]; [done|]. destruct Hin as [Hi (b & Hb & Hvb & Hcb & b' & Hnb & Hrb) Ho He].
  cbn [app runs]. cbn [app length] in Hm. injection Hm as Hm.
  split_and!.
  - cbn [it_Valid SstIterator_ops]. unfold si_Valid. rewrite He, Hb, Hvb.
    cbn [runs] in Hi. destruct Hi as [-> _]. done.
  - cbn [it_current SstIterator_ops]. unfold si_current. rewrite Hb, Ho. cbn [mbind option_bind].
    rewrite Hcb. cbn [mbind option_bind sr_props]. unfold final_props, footer_props. cbn [last_level].
    rewrite Hll. by destruct e.
  - cbn [it_Next SstIterator_ops]. unfold si_Next. rewrite Hb. cbn [ofopt obind]. rewrite Hnb. cbn [obind].
    destruct rest as [|e' rest].
    + cbn [runs] in Hrb. rewrite Hrb. cbn [app set_block index_iter_] in *.
      cbn [runs] in Hi. destruct Hi as (_ & _ & i' & Hni & Hri). rewrite Hni. cbn [obind].
      destruct blocks as [|es blocks].
      * cbn [index_of runs] in Hri. unfold si_open. cbn [set_index index_iter_]. rewrite Hri. cbn [obind].
        eexists. split; [reflexivity|]. rewrite SaveKey_same by exact Ho.
        cbn [concat runs it_Valid SstIterator_ops]. unfold si_Valid. cbn [set_index set_block index_iter_].
        by rewrite Hri, andb_false_r.
      * destruct (si_open_block l es blocks (set_index i' (set_block b' it))) as (it' & bh' & Eo & Hin');
          [done..|]. rewrite Eo. cbn [obind]. eexists. split; [reflexivity|].
        rewrite SaveKey_same by apply (b_owns _ _ _ _ _ _ _ _ Hin'). cbn [concat].
        apply (IH (l ++ [es]) blocks it' (last_key [] es) bh' es); [done | by rewrite <- app_assoc | done |].
        rewrite Hall in Hne. apply Forall_app in Hne as [_ Hc]. by apply Forall_inv in Hc.
    + pose proof Hrb as [-> _]. cbn [obind]. eexists. split; [reflexivity|].
      rewrite SaveKey_same by exact Ho.
      apply (IH l blocks _ key bh (e' :: rest)); [done | done | | done].
      constructor; [exact Hi | by eexists | exact Ho | exact He].
Qed.

Lemma SeekToFirst_forward vf :
  all <> [] ->
  exists it it', NewIterator vf r = Done it /\ it_Valid it = false /\ it_SeekToFirst it = Done it' /\
    forward it' (concat all).
Proof.
  intros Hall. pose proof (image_sizes n p all filter Hlt) as Hsz.
  destruct (image_index n p all filter) as [pi Ei].
  pose proof (zlen_nonneg (frames n all)). pose proof (zlen_nonneg filter).
  destruct (index_of_keys n 0 all) as [Hi0 Hkeys].
  destruct (open_block verify (frames n all ++ frame filter) (index_of n 0 all) pi)
    as (ii & ii' & E1 & E2 & E3); [by destruct all | | exact Ei |].
  { apply Forall_forall. intros e He. rewrite Forall_forall in Hmem.
    destruct (Hkeys Hne e He) as (e' & He' & ->). by apply Hmem. }
  assert (exists es rest, all = es :: rest) as (es & rest & Ea) by (destruct all; [done | by eexists _, _]).
  set (it0 := mkSI (inr ii) vf r None [] kOk).
  destruct (si_open_block [] es rest (set_index (inr ii') it0)) as (it' & bh & Eo & Hin); [exact Ea | done..| |].
  { cbn [set_index index_iter_]. rewrite <- Ea. by apply sum_runs. }
  exists it0, it'. split_and!.
  - unfold NewIterator, NewIndexIterator. cbn [sr_verify sr_props].
    change (index_position _) with (zlen (frames n all ++ frame filter)).
    change (index_size _) with (4 + zlen (data_block n (index_of n 0 all))).
    by rewrite E1.
  - apply andb_false_r.
  - cbn [it_SeekToFirst SstIterator_ops]. unfold si_SeekToFirst. cbn [index_iter_ it0 it_SeekToFirst sum_Iterator either_Iterator either].
    change (it_SeekToFirst ii) with (bi_SeekToFirst ii). rewrite E2. cbn [obind]. rewrite Eo. cbn [obind].
    by rewrite SaveKey_same by apply (b_owns _ _ _ _ _ _ _ _ Hin).
  - rewrite Ea. apply (in_block_forward [es] rest it' (last_key [] es) bh es); [done | done |].
    pose proof Hne as Hne'. rewrite Ea in Hne'. by apply Forall_inv in Hne'.
Qed.
End scanning.

(** ** Properties *)

(** A reader whose iterator goes through the entries [es]. *)
Record readable (r : SstTableReader) (es : list kv) : Prop := {
  rd_count : num_entries (sr_props r) = zlen es;
  rd_scan : forall vf, exists it it', NewIterator vf r = Done it /\ si_error_ it = kOk /\
    it_SeekToFirst it = Done it' /\ forward it' es;
}.

(** A table that was built, opened again: it answers by its entries and its
    iterators go through them. *)
Lemma sst_opens {F} `{WritableFile F, !WritableFileLaws F, !ReliableFile F} n (file : F)
    block_size approx es b r verify :
  ComparatorLaws ucmp -> sst_input ucmp n file block_size approx es ->
  sb_Finish (add_all ucmp es (NewSstTableBuilder file block_size (Z.of_nat n) approx)) = Done (kOk, b) ->
  zlen (contents (fw_file (sb_writer b))) < 2 ^ 32 -> Prepare (contents (fw_file (sb_writer b))) verify = Done (inr r) ->
  readable r es.
Proof.
  intros Hl Hin Hfin Hlt Hr. pose proof (sst_build _ _ _ _ _ _ Hin) as (b' & p & blocks & Hfin' & Hcon & Hes & Hg & Hll & Hnum & Hprep).
  assert (b' = b) as -> by (rewrite Hfin in Hfin'; by injection Hfin').
  rewrite Hcon in Hlt, Hr. rewrite (Hprep verify Hlt) in Hr. injection Hr as <-.
  destruct Hin as [[Hn Hb H4 Ha _ Hne _ Hm _ Hs] _]. rewrite <- Hes in Hm. split; [exact Hnum|]. intros vf.
  destruct (SeekToFirst_forward n p blocks _ verify Hn Hlt Hg Hm Hll vf) as (it & it' & E1 & _ & E3 & E4).
  { intros ->. by apply Hne. }
  exists it, it'. rewrite Hes in E4. split_and!; [done | | done..].
  unfold NewIterator in E1. destruct (NewIndexIterator _) as [i| |]; [|done..]. cbn [obind] in E1. by injection E1 as <-.
Qed.

(** C39: an iterator of a table built from sorted entries, of which the first
    does not have the sequence number 0, moved to the first entry, goes with
    [Next] through exactly the entries of the table, in order, and then is not
    valid. (Otherwise the tags are not in the file, and the iterator shows user
    keys: [untagged_scan].) *)
Theorem SstIterator_scan {F} `{WritableFile F, !WritableFileLaws F, !ReliableFile F} n (file : F)
    block_size approx es verify vf :
  ComparatorLaws ucmp -> sst_entries ucmp n file block_size approx es -> untagged es = false ->
  exists b, sb_Finish (add_all ucmp es (NewSstTableBuilder file block_size (Z.of_nat n) approx)) =
      Done (kOk, b) /\
    (zlen (contents (fw_file (sb_writer b))) < 2 ^ 32 ->
     exists r it it', Prepare (contents (fw_file (sb_writer b))) verify = Done (inr r) /\
       NewIterator vf r = Done it /\ it_Valid it = false /\
       it_SeekToFirst it = Done it' /\ scan (length es) it' = Done es).
Proof.
  intros Hl Hent Ht. pose proof (tagged_input _ _ _ _ _ _ Hent Ht) as Hin.
  pose proof (sst_build _ _ _ _ _ _ Hin) as (b & p & blocks & Hfin & Hcon & Hes & Hg & Hll & _ & Hprep).
  exists b. split; [exact Hfin|]. rewrite Hcon. intros Hlt. destruct Hin as [[Hn Hb H4 Ha _ Hne _ Hm _ Hs] _].
  rewrite <- Hes in Hm.
  destruct (SeekToFirst_forward n p blocks _ verify Hn Hlt Hg Hm Hll vf) as (it & it' & E1 & E2 & E3 & E4).
  { intros ->. by apply Hne. }
  eexists _, it, it'. split; [by apply Hprep|]. split_and!; [done..|].
  rewrite Hes in E4. by apply forward_scan.
Qed.
End sst_iterator.

Lemma SstIterator_scan_witness :
  exists b, sb_Finish (add_all lex sample_entries (NewSstTableBuilder (mkMem []) 512 2 3)) = Done (kOk, b) /\
    (zlen (contents (fw_file (sb_writer b))) < 2 ^ 32 ->
     exists r it it', Prepare (contents (fw_file (sb_writer b))) true = Done (inr r) /\
       NewIterator true r = Done it /\ it_Valid (Iterator := SstIterator_ops lex) it = false /\
       it_SeekToFirst (Iterator := SstIterator_ops lex) it = Done it' /\
       scan (Iterator0 := SstIterator_ops lex) 3 it' = Done sample_entries).
Proof.
  apply (SstIterator_scan lex 2 (mkMem []) 512 3 sample_entries true true); [apply _ | apply sample_input | reflexivity].
Defined.

(** A table whose first entry has the sequence number 0: the iterator shows the
    user key where a table with tags shows the internal key. *)
Example untagged_scan :
  match sb_Finish (add_all lex [(MakeKey [97] 0 0, [1])] (NewSstTableBuilder (mkMem []) 512 2 3)) with
  | Done (kOk, b) =>
    match Prepare (contents (fw_file (sb_writer b))) true with
    | Done (inr r) => obind (NewIterator true r) (fun it => obind (si_SeekToFirst lex it) (fun it => Done (si_current lex it))) = Done (Some ([97], [1]))
    | _ => False
    end
  | _ => False
  end.
Proof. vm_compute. reflexivity. Qed.

(** Going backwards into the previous block lands on its first entry: the
    entries behind it are skipped. *)
Example Prev_skips_entries :
  let big := replicate 600 0 in
  let es := [(MakeKey [97] 3 0, []); (MakeKey [98] 3 0, big); (MakeKey [99] 3 0, big)] in
  match sb_Finish (add_all lex es (NewSstTableBuilder (mkMem []) 512 2 3)) with
  | Done (kOk, b) =>
    match Prepare (contents (fw_file (sb_writer b))) true with
    | Done (inr r) =>
      obind (NewIterator true r) (fun it =>
        obind (si_SeekToLast lex it) (fun it =>
          obind (si_Prev lex it) (fun it' =>
            Done (option_map fst (si_current lex it), option_map fst (si_current lex it')))))
      = Done (Some (MakeKey [99] 3 0), Some (MakeKey [97] 3 0))
    | _ => False
    end
  | _ => False
  end.
Proof. vm_compute. reflexivity. Qed.
