(* ===== verification/DBFlush.v ===== *)
(** * DBFlush

    src/db/db-impl.cc and src/db/table-cache.cc: the immutable memory tables of
    a family become table files of level 0 ([CompactMemoryTable],
    [WriteLevel0Table]), and tables are looked up in files ([TableCache]).

    Only families with [use_unordered_table] false are modelled: their tables
    are sorted tables.  The cache is transparent: a table is opened whenever it
    is asked.  The lock of the database is given up while a file is written;
    here nothing happens meanwhile. *)

From S2P Require Import Prelude Slice Keys Entries Iterator Merging IO Files WriteBatch WAL Patch Version VersionSet MemoryTable DBImpl DBSpec DBOpen Table Block Sst.

(** What is asked of the environment and of a file: the clock, the size of a
    file, cutting it to nothing, and closing the file that was opened under a
    name. *)
Class FlushOps (E F : Type) := {
  CurrentTimeMicros : E -> Z;
  FileSizeOf : F -> error + Z;
  Truncate0 : F -> error * F;
  CloseFile : bytes -> F -> E -> E;
}.

(** ["::mai::BitwiseComparator"] *)
Definition BitwiseComparatorName : bytes :=
  [58; 58; 109; 97; 105; 58; 58; 66; 105; 116; 119; 105; 115;
   101; 67; 111; 109; 112; 97; 114; 97; 116; 111; 114].

(** [ColumnFamilyOptions{}] *)
Definition DefaultOptions : ColumnFamilyOptions := mkOpts BitwiseComparatorName BytewiseCompare [] 4096 16.

Section db_flush.
Context {E F T I : Type} `{!WritableFile F, !EnvOps E F, !DirOps E, !FileOps E F, !FlushOps E F}.
Context `{!MemTable T, !Iterator I, !MemScan T I}.
Context (abs_db_path_ : bytes).

#[local] Abbreviation DB := (DBImpl E F T).

(** [ColumnFamilyImpl::GetTableFileName] *)
Definition GetTableFileName (f : ColumnFamilyImpl) (env : E) (file_number : Z) : bytes :=
  TableFileName (GetDir abs_db_path_ f env) kSST_Table file_number.

(** *** The table cache *)

(** [LoadTable] of a sorted table. *)
Definition LoadTable (f : ColumnFamilyImpl) (file_number : Z) (env : E) : outcome (error + SstTableReader) :=
  match NewRandomAccessFile (GetTableFileName f env file_number) env with
  | inl rs => Done (inl rs)
  | inr file => Prepare file true
  end.

(** [TableCache::Get] *)
Definition tc_Get (verify_checksums : bool) (f : ColumnFamilyImpl) (file_number : Z) (key : bytes) (env : E) :
    outcome (error + Tag * bytes) :=
  (do! table := LoadTable f file_number env in
   match table with
   | inl rs => Done (inl rs)
   | inr r => sr_Get (comparator_Compare (cf_options f)) verify_checksums key r
   end)%out.

(** *** Writing a table *)

(** The loop over the memory table: the error, the builder and the smallest
    and largest keys. *)
Fixpoint level0_loop (fuel : nat) (ucmp : bytes -> bytes -> Z) (iter : I) (builder : SstTableBuilder F)
    (smallest_key largest_key : bytes) : outcome (error * SstTableBuilder F * bytes * bytes) :=
  if it_Valid iter then
    match fuel with
    | O => OutOfFuel
    | S fuel =>
      (do! (key, value) := ofopt (it_current iter) in
       let builder := sb_Add ucmp key value builder in
       if negb (ok (error_ builder)) then Done (error_ builder, sb_Abandon Truncate0 builder, smallest_key, largest_key) else
       let largest_key :=
         if bool_decide (largest_key = []) || (0 <? InternalCompare ucmp key largest_key) then key else largest_key in
       let smallest_key :=
         if bool_decide (smallest_key = []) || (InternalCompare ucmp key smallest_key <? 0) then key else smallest_key in
       do! iter := it_Next iter in
       level0_loop fuel ucmp iter builder smallest_key largest_key)%out
    end
  else Done (kOk, builder, smallest_key, largest_key).

(** The closing of the builder's file when it goes out of scope. *)
Definition close_table (name : bytes) (builder : SstTableBuilder F) (db : DB) : DB :=
  set_env (CloseFile name (fw_file (sb_writer builder)) (env_ db)) db.

(** [WriteLevel0Table] for family [i]; the iterator takes as many turns as the
    table has entries. *)
Definition WriteLevel0Table (i : nat) (patch : VersionPatch) (table : T) (db : DB) :
    outcome (error * VersionPatch * DB) :=
  let iter := mt_NewIterator table : I in
  if negb (ok (it_error iter)) then Done (it_error iter, patch, db) else
  (do! cfd := ofopt (families (cfs (versions_ db)) !! i) in
   let o := cf_options cfd in
   let '(file_number, v) := GenerateFileNumber (versions_ db) in
   let db := set_versions v db in
   let table_file_name := GetTableFileName cfd (env_ db) file_number in
   match NewWritableFile table_file_name (env_ db) with
   | (inl rs, e) => Done (rs, patch, set_env e (set_versions (ReuseFileNumber file_number (versions_ db)) db))
   | (inr file, e) =>
     let db := set_env e db in
     let builder := NewSstTableBuilder file (options_block_size o) (block_restart_interval o) (mt_NumEntries (I := I) table) in
     do! iter := it_SeekToFirst iter in
     do! (rs, builder, smallest_key, largest_key) :=
       level0_loop (Z.to_nat (mt_NumEntries (I := I) table)) (comparator_Compare o) iter builder [] [] in
     if negb (ok rs) then Done (rs, patch, close_table table_file_name builder db) else
     do! (rs, builder) := sb_Finish builder in
     if negb (ok rs) then Done (rs, patch, close_table table_file_name builder db) else
     let fmd := mkFile file_number smallest_key largest_key (sb_FileSize FileSizeOf builder) (CurrentTimeMicros (env_ db)) in
     Done (kOk, CreateFile (cf_id cfd) 0 fmd patch, close_table table_file_name builder db)
   end)%out.

(** The loop of [CompactMemoryTable] over the pipeline of family [i]. *)
Fixpoint compact_loop (fuel : nat) (i : nat) (patch : VersionPatch) (db : DB) : outcome (error * DB) :=
  (do! cfd := ofopt (families (cfs (versions_ db)) !! i) in
   do! t := ofopt (tables_ db !! i) in
   match q_Peek (immutable_pipeline_ t) with
   | None => Done (kOk, db)
   | Some (imm, associated_file_number) =>
     match fuel with
     | O => OutOfFuel
     | S fuel =>
       do! (rs, patch, db) := WriteLevel0Table i patch imm db in
       if negb (ok rs) then Done (rs, db) else
       if shutting_down_ db then Done (kIOError, db) else
       let patch := SetRedoLog (cf_id cfd) associated_file_number (SetPrevLogNumber 0 patch) in
       do! (rs, v, e) := LogAndApply abs_db_path_ DefaultOptions patch (env_ db) (versions_ db) in
       let db := set_env e (set_versions v db) in
       if negb (ok rs) then Done (rs, db) else
       do! db := (match q_Take (immutable_pipeline_ t) with
                  | None => Done db
                  | Some (_, queue) => Done (update_tables i (fun t =>
                      mkTables (mutable_ t) queue (background_error_ t) (background_progress_ t)) db)
                  end) in
       compact_loop fuel i (Reset patch) db
     end
   end)%out.

(** [CompactMemoryTable]; every turn takes one table out of the pipeline. *)
Definition CompactMemoryTable (i : nat) (db : DB) : outcome (error * DB) :=
  (do! t := ofopt (tables_ db !! i) in
   compact_loop (length (immutable_pipeline_ t)) i NewVersionPatch db)%out.
End db_flush.

(** ** Building the table *)

Section level0.
Context {E F I : Type} `{!WritableFile F, !WritableFileLaws F, !ReliableFile F, !FlushOps E F, !Iterator I}.
Context (ucmp : bytes -> bytes -> Z) `{!ComparatorLaws ucmp}.

#[local] Abbreviation icmp := (InternalCompare ucmp).

Definition first_key (es : list kv) : bytes := match es with [] => [] | e :: _ => fst e end.
Definition final_key (es : list kv) : bytes := match last es with None => [] | Some e => fst e end.

Lemma versioned_not_nil u s e : versioned u s e -> fst e <> [].
Proof.
  intros (f & v & -> & _). cbn. unfold MakeKey. intros H%(f_equal length). rewrite length_app, length_le_bytes in H.
  cbn in H. lia.
Qed.

(** The next key of a sorted list is above the first and the last so far. *)
Lemma sorted_first_final pre e es :
  StronglySorted (kv_lt icmp) (pre ++ e :: es) -> pre <> [] ->
  icmp (first_key pre) (fst e) < 0 /\ icmp (final_key pre) (fst e) < 0.
Proof.
  intros Hs Hne.
  assert (H : forall x, x ∈ pre -> icmp (fst x) (fst e) < 0).
  { intros x Hx. apply (StronglySorted_app_1_elem_of _ _ _ _ _ Hs); [done | by left]. }
  split.
  - destruct pre as [|x pre]; [done|]. apply H. by left.
  - unfold final_key. destruct pre as [|x pre _] using rev_ind; [done|]. rewrite last_snoc. apply H.
    apply elem_of_app. right. by left.
Qed.

Lemma first_key_snoc pre e : first_key (pre ++ [e]) = match pre with [] => fst e | _ => first_key pre end.
Proof. by destruct pre. Qed.
Lemma final_key_snoc pre e : final_key (pre ++ [e]) = fst e.
Proof. unfold final_key. by rewrite last_snoc. Qed.

Lemma key_ends pre e es :
  StronglySorted (kv_lt icmp) (pre ++ e :: es) -> Forall (fun x => fst x <> []) (pre ++ e :: es) ->
  (if bool_decide (final_key pre = []) || (0 <? icmp (fst e) (final_key pre)) then fst e else final_key pre) =
    final_key (pre ++ [e]) /\
  (if bool_decide (first_key pre = []) || (icmp (fst e) (first_key pre) <? 0) then fst e else first_key pre) =
    first_key (pre ++ [e]).
Proof.
  intros Hs Hne. rewrite final_key_snoc, first_key_snoc. destruct pre as [|x pre]; [done|].
  destruct (sorted_first_final _ _ _ Hs ltac:(done)) as [H1 H2]. split.
  - assert (0 < icmp (fst e) (final_key (x :: pre))) as Hlt by (by apply cmp_sym).
    apply Z.ltb_lt in Hlt. by rewrite Hlt, orb_true_r.
  - assert (0 < icmp (fst e) (first_key (x :: pre))) as Hlt by (by apply cmp_sym).
    cbn [app] in Hne. apply Forall_inv in Hne. rewrite bool_decide_false by exact Hne. cbn [orb].
    destruct (Z.ltb_spec (icmp (fst e) (first_key (x :: pre))) 0); [lia | done].
Qed.

Lemma level0_loop_all (b0 : SstTableBuilder F) es pre fuel (it : I) :
  forward it es -> StronglySorted (kv_lt icmp) (pre ++ es) -> Forall (fun x => fst x <> []) (pre ++ es) ->
  (forall a b, pre ++ es = a ++ b -> error_ (add_all ucmp a b0) = kOk) -> (length es <= fuel)%nat ->
  level0_loop (E := E) fuel ucmp it (add_all ucmp pre b0) (first_key pre) (final_key pre) =
    Done (kOk, add_all ucmp (pre ++ es) b0, first_key (pre ++ es), final_key (pre ++ es)).
Proof.
  revert pre fuel it. induction es as [|e es IH]; intros pre fuel it Hr Hs Hne Hok Hf.
  { cbn in Hr. rewrite app_nil_r. destruct fuel; cbn [level0_loop]; by rewrite Hr. }
  destruct Hr as (Hv & Hc & it' & Hn & Hr). destruct fuel as [|fuel]; cbn in Hf; [lia|]. cbn [level0_loop].
  rewrite Hv, Hc, Hn. cbn [ofopt obind]. destruct e as [k v].
  assert (Eadd : sb_Add ucmp k v (add_all ucmp pre b0) = add_all ucmp (pre ++ [(k, v)]) b0)
    by (unfold add_all; by rewrite fold_left_app).
  rewrite Eadd, (Hok (pre ++ [(k, v)]) es) by (by rewrite <- app_assoc). change (negb (ok kOk)) with false. cbn iota.
  destruct (key_ends pre (k, v) es Hs Hne) as [E1 E2]. cbn [fst] in E1, E2. rewrite E1, E2.
  assert (Eapp : pre ++ (k, v) :: es = (pre ++ [(k, v)]) ++ es) by (by rewrite <- app_assoc).
  rewrite Eapp in *. apply IH; [done..|lia].
Qed.
End level0.

(** *** One table *)

(** Closing a file leaves what was written under its name, and the working
    directory stays. *)
Class FlushLaws (E F : Type) `{WritableFile F, !DirOps E, !FileOps E F, !FlushOps E F} : Prop := {
  close_reads name (f : F) (env : E) : NewRandomAccessFile (F := F) name (CloseFile name f env) = inr (contents f);
  abs_fixed name (env env' : E) : GetAbsolutePath name env = GetAbsolutePath name env';
}.

(** Options and records a sorted table can be made of. *)
Record flushable (o : ColumnFamilyOptions) (ps : list put_) : Prop := {
  fl_restart : 0 < block_restart_interval o;
  fl_block : 512 <= options_block_size o < 2 ^ 32 /\ options_block_size o mod 4 = 0;
  fl_some : ps <> [];
  fl_count : zlen ps < 2 ^ 32;
  fl_ok : Forall put_ok ps;
  fl_versions : Forall (fun p => p_version p <> 0) ps;
}.

Section write_table.
Context {E F T I : Type} `{!WritableFile F, !WritableFileLaws F, !ReliableFile F, !EnvOps E F, !EnvReliable E F}.
Context `{!DirOps E, !FileOps E F, !FlushOps E F, !FlushLaws E F}.
Context `{!MemTable T, !MemTableLaws T, !Iterator I, !MemScan T I, !MemScanLaws T I}.
Context (path : bytes).

#[local] Abbreviation DB := (DBImpl E F T).

(** A file that answers by the entries [es]. *)
Definition answers_by (ucmp : bytes -> bytes -> Z) (data : bytes) (es : list kv) : Prop :=
  zlen data < 2 ^ 32 -> exists r, Prepare data true = Done (inr r) /\
    forall verify uk sq fl, tag_ok (mkTag sq fl) ->
      sr_Get ucmp verify (MakeKey uk sq fl) r = Done (table_get ucmp (MakeKey uk sq fl) es).

Lemma flush_input ucmp o ps es (file : F) :
  ComparatorLaws ucmp -> flushable o ps -> es ≡ₚ map entry_of ps -> StronglySorted (kv_lt (InternalCompare ucmp)) es ->
  contents file = [] ->
  sst_input ucmp (Z.to_nat (block_restart_interval o)) file (options_block_size o) (zlen ps) es.
Proof.
  intros Hl [Hr [Hb H4] Hne Hc Hok Hv] Hp Hs Hf.
  assert (Hin : Forall (fun e => exists p, p ∈ ps /\ e = entry_of p) es).
  { apply Forall_forall. intros e He. rewrite Hp in He. apply list_elem_of_fmap in He as (p & -> & Hpp). by exists p. }
  assert (Hver : Forall (fun e => exists u s, versioned u s e /\ s <> 0) es).
  { eapply Forall_impl; [exact Hin|]. intros e (p & Hpp & ->). rewrite Forall_forall in Hok, Hv.
    exists (p_key p), (p_version p). split; [|by apply Hv]. exists (p_flag p), (p_value p). split; [done|]. by apply Hok. }
  split; [split; try done|].
  - lia.
  - pose proof (zlen_nonneg ps). lia.
  - intros ->. apply Hne. apply Permutation_nil_l in Hp. symmetry in Hp. by apply map_eq_nil in Hp.
  - unfold zlen. rewrite (Permutation_length Hp), length_map. exact Hc.
  - eapply Forall_impl; [exact Hin|]. intros e (p & Hpp & ->). rewrite Forall_forall in Hok. destruct (Hok p Hpp) as [_ Hk].
    unfold in_memory, entry_of, MakeKey. cbn [fst]. rewrite zlen_app, zlen_le_bytes. lia.
  - eapply Forall_impl; [exact Hver|]. intros e (u & s & H & _). by exists u, s.
  - intros e es' ->. by apply Forall_inv in Hver.
Qed.

Lemma prefix_ok ucmp n block_size approx (file : F) es a b :
  sst_input ucmp n file block_size approx es -> es = a ++ b ->
  error_ (add_all ucmp a (NewSstTableBuilder file block_size (Z.of_nat n) approx)) = kOk.
Proof.
  intros Hin ->. pose proof (in_versions _ _ _ _ _ _ Hin) as Hv. apply Forall_app in Hv as [Hv _].
  destruct (add_all_inv ucmp n _ _ a (sb_inv_new n file block_size approx (in_file _ _ _ _ _ _ Hin)) Hv) as (blocks & cur & H).
  - intros e es' ->. by apply (in_first _ _ _ _ _ _ Hin e (es' ++ b)).
  - apply (v_error _ _ _ _ _ _ H).
Qed.

(** The file that [WriteLevel0Table] makes of a table. *)
Lemma WriteLevel0Table_ok i patch (table : T) ps (db : DB) f :
  let ucmp := comparator_Compare (cf_options f) in
  let n := next_file_number (versions_ db) in
  families (cfs (versions_ db)) !! i = Some f -> ComparatorLaws ucmp -> mt_holds ucmp table ps ->
  flushable (cf_options f) ps ->
  exists es data size file e1 e2,
    WriteLevel0Table (I := I) path i patch table db =
      Done (kOk, CreateFile (cf_id f) 0 (mkFile n (first_key es) (final_key es) size (CurrentTimeMicros (F := F) e1)) patch,
            set_env e2 (set_versions (snd (GenerateFileNumber (versions_ db))) db)) /\
    NewWritableFile (F := F) (GetTableFileName path f (env_ db) n) (env_ db) = (inr file, e1) /\
    es ≡ₚ map entry_of ps /\ StronglySorted (kv_lt (InternalCompare ucmp)) es /\
    NewRandomAccessFile (F := F) (GetTableFileName path f e2 n) e2 = inr data /\ answers_by ucmp data es.
Proof.
  intros ucmp n Hf Hl Hm Hfl. destruct (mt_scan ucmp table ps Hl Hm) as (es & Hp & Hs & He & it & Hseek & Hfwd).
  pose proof (mt_count (I := I) ucmp table ps Hm) as Hcount.
  rewrite wrap_small in Hcount by (pose proof (zlen_nonneg ps); pose proof (fl_count _ _ Hfl); unfold is_u; lia).
  unfold WriteLevel0Table. rewrite He, Hf. change (negb (ok kOk)) with false. cbn iota. cbn [ofopt obind].
  unfold GenerateFileNumber. cbn [set_versions env_]. fold n.
  destruct (env_new (F := F) (GetTableFileName path f (env_ db) n) (env_ db)) as (file & e1 & Enew & Hfile). rewrite Enew.
  rewrite Hseek. cbn [obind]. pose proof (flush_input ucmp _ _ _ file Hl Hfl Hp Hs Hfile) as Hin.
  assert (Hr : Z.of_nat (Z.to_nat (block_restart_interval (cf_options f))) = block_restart_interval (cf_options f))
    by (pose proof (fl_restart _ _ Hfl); lia).
  rewrite Hcount. fold ucmp. set (b0 := NewSstTableBuilder file _ _ _).
  assert (Hb0 : b0 = NewSstTableBuilder file (options_block_size (cf_options f))
    (Z.of_nat (Z.to_nat (block_restart_interval (cf_options f)))) (zlen ps)) by (unfold b0; by rewrite Hr).
  rewrite (level0_loop_all ucmp b0 es [] _ it Hfwd Hs).
  - cbn [obind app]. change (negb (ok kOk)) with false. cbn iota.
    destruct (sst_answers ucmp _ file _ _ es true Hl Hin) as (b & Eb & Hb). rewrite <- Hb0 in Eb. rewrite Eb.
    cbn [obind]. change (negb (ok kOk)) with false. cbn iota.
    exists es, (contents (fw_file (sb_writer b))). eexists _, file, e1, _. split_and!; [reflexivity | done | done | done | |].
    + assert (Hdir : forall e, GetTableFileName path f e n = GetTableFileName path f (env_ db) n).
      { intros e. unfold GetTableFileName, GetDir. by rewrite (abs_fixed (F := F) (options_dir (cf_options f)) e (env_ db)). }
      rewrite Hdir. apply close_reads.
    + intros Hlt. destruct (Hb Hlt) as (r & Hprep & Hget & _). by exists r.
  - eapply Forall_impl; [exact (in_versions _ _ _ _ _ _ Hin)|]. intros e (u & s & H). by eapply versioned_not_nil.
  - intros a b Hab. rewrite Hb0. by eapply prefix_ok.
  - unfold zlen. rewrite Nat2Z.id, (Permutation_length Hp), length_map. done.
Qed.
End write_table.

(** ** The new version *)

Lemma build_level_kept e files : (forall x, x ∉ deletion e) -> build_level e files = files ++ creation e.
Proof. intros H. unfold build_level. by rewrite filter_all by (by apply Forall_forall). Qed.

(** A patch that creates one file of level 0. *)
Lemma new_version_create icmp p id fmd (v : Version) :
  file_deletion_ p = [] -> file_creation_ p = [mkCre id 0 fmd] -> length v = kMaxLevel ->
  new_version icmp p v = Some (alter (fun files => files ++ [fmd]) 0%nat v).
Proof.
  intros Hd Hc Hlen. unfold new_version.
  assert (Ha : Apply icmp p NewBuilder =
    Some (mkEntry (∅ ∖ {[ number fmd ]}) [fmd] :: replicate 3 (mkEntry ∅ []))) by (unfold Apply; rewrite Hd, Hc; reflexivity).
  rewrite Ha. cbn [mbind option_bind]. unfold Build.
  destruct v as [|l0 [|l1 [|l2 [|l3 [|]]]]]; try discriminate Hlen. cbn -[build_level].
  rewrite !build_level_kept by (intros x; cbn; by rewrite ?elem_of_difference, elem_of_empty; tauto). cbn. by rewrite !app_nil_r.
Qed.

Section log_flush.
Context {E F : Type} `{!WritableFile F, !WritableFileLaws F, !ReliableFile F, !EnvOps E F, !EnvReliable E F}.
Context (path : bytes) (options : ColumnFamilyOptions).

Definition flush_patch (id n : Z) (fmd : FileMetaData) : VersionPatch :=
  SetRedoLog id n (SetPrevLogNumber 0 (CreateFile id 0 fmd NewVersionPatch)).

(** What the family becomes. *)
Definition flushed (n : Z) (fmd : FileMetaData) (f : ColumnFamilyImpl) : ColumnFamilyImpl :=
  set_current (alter (fun files => files ++ [fmd]) 0%nat (current f)) (set_redo_log_number n f).

Lemma alter_alter {A} (g h : A -> A) i (l : list A) : alter g i (alter h i l) = alter (fun x => g (h x)) i l.
Proof.
  apply list_eq. intros j. destruct (decide (j = i)) as [->|Hne].
  - rewrite !list_lookup_alter_eq. by destruct (l !! i).
  - by rewrite !list_lookup_alter_ne.
Qed.

Lemma LogAndApply_flush i f id n fmd (env : E) (v : VersionSet F) ps :
  manifest v ps -> GetColumnFamily id (cfs v) = Some i -> families (cfs v) !! i = Some f -> length (current f) = kMaxLevel ->
  exists v' ps', LogAndApply path options (flush_patch id n fmd) env v = Done (kOk, v', env) /\
    manifest v' ps' /\ cfs v' = update_family i (flushed n fmd) (cfs v) /\
    last_sequence_number v' = last_sequence_number v /\ next_file_number v' = next_file_number v.
Proof.
  intros Hm Hid Hf Hlen. unfold LogAndApply. set (p := fill_patch v (flush_patch id n fmd)).
  assert (Hadd : add_family options p (cfs v) = (p, cfs v)) by reflexivity. rewrite Hadd.
  assert (Hredo : apply_redo_log p (cfs v) = Some (update_family i (set_redo_log_number n) (cfs v))).
  { unfold apply_redo_log. change (has_field kRedoLog p) with true. cbn iota.
    change (rl_cfid (redo_log_ p)) with id. rewrite Hid. reflexivity. }
  rewrite Hredo. cbn [ofopt obind]. set (s1 := update_family i _ (cfs v)).
  assert (Hdrop : apply_drop p s1 = Some s1) by reflexivity. rewrite Hdrop. cbn [ofopt obind].
  pose proof Hm as (w & Hw & _). cbn [set_cfs logger_ set_numbers]. rewrite Hw. cbn [obind]. change (negb (ok kOk)) with false. cbn iota.
  destruct (WritePatch_manifest p (set_cfs s1 v) ps Hm) as (v1 & -> & Hm1 & l & ->). cbn [obind].
  change (negb (ok kOk)) with false. cbn iota. cbn [set_logger set_cfs cfs].
  assert (Hf1 : families s1 !! i = Some (set_redo_log_number n f)) by (cbn; by rewrite list_lookup_alter_eq, Hf).
  assert (Hfiles : apply_files p s1 = Some (update_family i (flushed n fmd) (cfs v))).
  { unfold apply_files. change (has_field kDeletion p || has_field kCreation p) with true. cbn iota.
    assert (builder_cfd p s1 = Some i) as ->.
    { unfold builder_cfd. change (map fc_cfid (file_creation_ p) ++ map fd_cfid (file_deletion_ p)) with [id].
      cbn [omap list_omap]. change (GetColumnFamily id s1) with (GetColumnFamily id (cfs v)). by rewrite Hid. }
    cbn [mbind option_bind]. rewrite Hf1. cbn [mbind option_bind].
    rewrite (new_version_create _ p id fmd (current (set_redo_log_number n f)) eq_refl eq_refl Hlen). cbn [mbind option_bind].
    f_equal. unfold update_family, s1, set_families. cbn. f_equal. rewrite alter_alter.
    apply list_eq. intros j. destruct (decide (j = i)) as [->|Hne]; [|by rewrite !list_lookup_alter_ne].
    rewrite !list_lookup_alter_eq, Hf. done. }
  rewrite Hfiles. cbn [ofopt obind]. eexists _, _. split; [reflexivity|]. split; [exact Hm1|]. done.
Qed.
End log_flush.

(** ** The order of the files *)

Lemma newest_first (l : list FileMetaData) x :
  Forall (fun g => ctime g < ctime x) l -> NoDup (map ctime l) -> sort_newest (l ++ [x]) = x :: sort_newest l.
Proof.
  assert (Htr : Transitive newer) by (intros a b c H1 H2; unfold newer in *; lia).
  assert (Hto : Total newer) by (intros a b; unfold newer; destruct (Z.le_ge_cases (ctime a) (ctime b)); auto).
  intros Hx Hnd. assert (Hp : sort_newest l ≡ₚ l) by apply merge_sort_Permutation.
  apply (StronglySorted_unique_strong newer).
  - intros a b Ha Hb Hab Hba. unfold newer in *.
    assert (H : forall c, c ∈ x :: sort_newest l -> c = x \/ (c ∈ l /\ ctime c < ctime x)).
    { intros c [->|Hc]%elem_of_cons; [by left|]. right. rewrite Hp in Hc. rewrite Forall_forall in Hx. auto. }
    assert (Ha' : a ∈ x :: sort_newest l).
    { unfold sort_newest at 1 in Ha. rewrite (merge_sort_Permutation newer) in Ha. rewrite Hp.
      apply elem_of_app in Ha as [Ha|Ha%list_elem_of_singleton]; [by right | subst a; by left]. }
    destruct (H a Ha') as [->|[Ha1 Ha2]], (H b Hb) as [->|[Hb1 Hb2]]; [done | lia | lia |].
    apply list_elem_of_lookup in Ha1 as [i Hi]. apply list_elem_of_lookup in Hb1 as [j Hj].
    assert (i = j) as ->; [|congruence]. apply (NoDup_lookup _ _ _ (ctime a) Hnd).
    + by apply list_lookup_fmap_Some_2.
    + replace (ctime a) with (ctime b) by lia. by apply list_lookup_fmap_Some_2.
  - by apply StronglySorted_merge_sort.
  - constructor; [by apply StronglySorted_merge_sort|]. rewrite Hp. eapply Forall_impl; [exact Hx|].
    intros g Hg. cbn in Hg. unfold newer. lia.
  - unfold sort_newest at 1. rewrite (merge_sort_Permutation newer), Hp. by rewrite Permutation_app_comm.
Qed.

Lemma StronglySorted_impl_in {A} (R S : A -> A -> Prop) (l : list A) :
  (forall x y, x ∈ l -> y ∈ l -> R x y -> S x y) -> StronglySorted R l -> StronglySorted S l.
Proof.
  intros H Hs. induction Hs as [|x l Hs IH Hf]; constructor.
  - apply IH. intros y z Hy Hz. apply H; by right.
  - rewrite Forall_forall in *. intros y Hy. apply H; [by left | by right | by apply Hf].
Qed.

(** ** The family after a flush *)

Section family_flush.
Context {T : Type} `{!MemTable T, !MemTableLaws T}.
Context (ucmp : bytes -> bytes -> Z) `{!ComparatorLaws ucmp, !ComparatorExact ucmp}.

#[local] Abbreviation icmp := (InternalCompare ucmp).

Lemma entry_of_inj p q : put_ok p -> put_ok q -> entry_of p = entry_of q -> p = q.
Proof.
  intros [Hp _] [Hq _] H. unfold entry_of in H. injection H as Hk Hv.
  pose proof (ParseTaggedKey_MakeKey (p_key p) _ _ Hp) as E1. rewrite Hk, ParseTaggedKey_MakeKey in E1 by done.
  destruct p, q. cbn in *. by simplify_eq.
Qed.

(** The user key of an entry of a record is the record's. *)
Lemma versioned_key_short p u :
  put_ok p -> (exists s fl val, entry_of p = (MakeKey u s fl, val) /\ tag_ok (mkTag s fl)) -> zlen u < 2 ^ 32.
Proof.
  intros [Hp Hk] (s & fl & val & H & Ht). unfold entry_of in H. injection H as H _.
  pose proof (ParseTaggedKey_MakeKey (p_key p) _ _ Hp) as E1. rewrite H, ParseTaggedKey_MakeKey in E1 by done.
  injection E1 as -> _. exact Hk.
Qed.

Lemma level_files_alter (v : Version) g l :
  length v = kMaxLevel -> level_files (alter g 0%nat v) l = if decide (l = 0%nat) then g (level_files v 0) else level_files v l.
Proof.
  intros Hl. destruct v as [|l0 v]; [done|]. unfold level_files. destruct l; [by rewrite decide_True | by rewrite decide_False].
Qed.

Lemma concat_level0 (v : Version) x :
  length v = kMaxLevel -> concat (alter (fun files => files ++ [x]) 0%nat v) ≡ₚ x :: concat v.
Proof.
  intros Hl. destruct v as [|l0 v]; [done|]. cbn. rewrite <- app_assoc. cbn. by rewrite Permutation_middle.
Qed.

Context (cache_get cache' : Z -> bytes -> error + Tag * bytes) (contents : Z -> list kv) (n : Z) (es : list kv).

(** The entries of the files, and of the new one. *)
Definition with_file (k : Z) : list kv := if decide (k = n) then es else contents k.

Lemma with_file_new : with_file n = es.
Proof. unfold with_file. by rewrite decide_True. Qed.
Lemma with_file_old k : k <> n -> with_file k = contents k.
Proof. intros H. unfold with_file. by rewrite decide_False. Qed.

(** The bounds of the new file are its first and its last key. *)
Lemma fresh_file_ok fmd :
  StronglySorted (kv_lt icmp) es -> es <> [] -> Forall (fun e => exists u s, versioned u s e) es ->
  number fmd = n -> smallest_key fmd = first_key es -> largest_key fmd = final_key es ->
  (forall u s fl, tag_ok (mkTag s fl) -> cache' n (MakeKey u s fl) = table_get ucmp (MakeKey u s fl) es) ->
  file_ok ucmp cache' with_file fmd.
Proof.
  intros Hsort Hne Hver Hn Hsm Hlg Hnew. split.
  - rewrite Hsm, Hlg. destruct es as [|e es']; [done|].
    destruct es' as [|e' es'] using rev_ind; [cbn; rewrite cmp_refl; lia|].
    unfold final_key, first_key. change (e :: es' ++ [e']) with ((e :: es') ++ [e']). rewrite last_snoc.
    apply Z.lt_le_incl. apply (StronglySorted_app_1_elem_of _ (e :: es') [e'] e e' Hsort); by left.
  - by rewrite Hn, with_file_new.
  - by rewrite Hn, with_file_new.
  - intros u s fl Ht. rewrite Hn, with_file_new. by apply Hnew.
Qed.

(** What the file holds: the records [pi], newer than those of the older
    files [pf]. *)
Lemma files_flush v pf pi fmd :
  files_hold ucmp cache_get contents v pf -> Forall put_ok pi -> fresher_puts pi pf -> pi <> [] ->
  es ≡ₚ map entry_of pi -> StronglySorted (kv_lt icmp) es ->
  number fmd = n -> smallest_key fmd = first_key es -> largest_key fmd = final_key es ->
  Forall (fun g => ctime g < ctime fmd) (level_files v 0) -> NoDup (map ctime (level_files v 0)) ->
  Forall (fun g => number g <> n) (concat v) ->
  (forall k key, k <> n -> cache' k key = cache_get k key) ->
  (forall u s fl, tag_ok (mkTag s fl) -> cache' n (MakeKey u s fl) = table_get ucmp (MakeKey u s fl) es) ->
  files_hold ucmp cache' with_file (alter (fun files => files ++ [fmd]) 0%nat v) (pi ++ pf).
Proof.
  intros [Hlen Hok Hord Hall] Hpi Hfresh Hne Hes Hsort Hn Hsm Hlg Hct Hnd Hnum Hold Hnew.
  assert (Hin : forall e, e ∈ es -> exists p, p ∈ pi /\ put_ok p /\ e = entry_of p).
  { intros e He. rewrite Hes in He. apply list_elem_of_fmap in He as (p & -> & Hp). exists p. split; [done|].
    rewrite Forall_forall in Hpi. split; [by apply Hpi | done]. }
  rewrite Forall_forall in Hnum. split.
  - etransitivity; [apply length_alter | done].
  - rewrite concat_level0 by done. constructor.
    + apply fresh_file_ok; try done.
      * intros ->. by apply Permutation_nil_l, eq_sym, map_eq_nil in Hes.
      * apply Forall_forall. intros e He. destruct (Hin e He) as (p & _ & [Hp _] & ->).
        by exists (p_key p), (p_version p), (p_flag p), (p_value p).
    + rewrite Forall_forall in *. intros g Hg. destruct (Hok g Hg) as [H1 H2 H3 H4].
      assert (Hgn : number g <> n) by (by apply Hnum). split; rewrite ?with_file_old by done; [done..|].
      intros u s fl Ht. rewrite Hold by done. by apply H4.
  - unfold lookup_order. rewrite !level_files_alter by done. cbn [decide]. rewrite decide_True by done.
    rewrite newest_first by done.
    assert (Hmap : map (level_files (alter (fun files => files ++ [fmd]) 0%nat v)) (seq 1 (kMaxLevel - 1)) =
      map (level_files v) (seq 1 (kMaxLevel - 1))).
    { apply map_ext_in. intros l Hl%list_elem_of_In%elem_of_seq. rewrite level_files_alter by done.
      by rewrite decide_False by lia. }
    rewrite Hmap. cbn [app]. change (sort_newest (level_files v 0) ++ _) with (lookup_order v).
    assert (Hlo : forall g, g ∈ lookup_order v -> g ∈ concat v /\ number g <> n).
    { intros g Hg. rewrite lookup_order_perm in Hg by done. split; [done | by apply Hnum]. }
    constructor.
    + eapply StronglySorted_impl_in; [|exact Hord]. intros f g Hf Hg Hfg. unfold fresher in *.
      by rewrite !with_file_old by (by apply Hlo).
    + apply Forall_forall. intros g [Hg Hgn]%Hlo. intros u s e u' s' e' He He' Hv Hv' Hu.
      rewrite Hn, with_file_new in He. rewrite with_file_old in He' by done.
      destruct (Hin e He) as (p & Hp & Hpo & ->). apply cmp_exact in Hu. subst u'.
      destruct Hv as (fl & val & Hv & Ht). assert (Ep : p = mkPut u val s fl).
      { apply entry_of_inj; [done | | exact Hv]. split; [done|]. cbn. apply (versioned_key_short p); [done|].
        by exists s, fl, val. }
      destruct Hv' as (fl' & val' & -> & Ht'). subst p. destruct Hpo as [_ Hk].
      apply (Hfresh _ (mkPut u val' s' fl') Hp); [|done]. apply Hall; [by split|]. by exists g.
  - intros p Hp. rewrite elem_of_app, (Hall p Hp). setoid_rewrite concat_level0; [|done]. split.
    + intros [Hpin|(g & Hg & Hgin)].
      * exists fmd. split; [by left|]. rewrite Hn, with_file_new, Hes. by apply list_elem_of_fmap_2.
      * exists g. split; [by right|]. by rewrite with_file_old by (by apply Hnum).
    + intros (g & [->|Hg]%elem_of_cons & Hgin).
      * left. rewrite Hn, with_file_new in Hgin. destruct (Hin _ Hgin) as (q & Hq & Hqo & E).
        by rewrite (entry_of_inj p q Hp Hqo E).
      * right. exists g. split; [done|]. by rewrite with_file_old in Hgin by (by apply Hnum).
Qed.
End family_flush.

(** A new file [fmd], the number [n] being new, that answers by the entries
    [es]. *)
Record new_file (ucmp : bytes -> bytes -> Z) (cache_get cache' : Z -> bytes -> error + Tag * bytes) (n : Z) (es : list kv)
    (fmd : FileMetaData) (v : Version) : Prop := {
  nf_sorted : StronglySorted (kv_lt (InternalCompare ucmp)) es;
  nf_meta : number fmd = n /\ smallest_key fmd = first_key es /\ largest_key fmd = final_key es;
  nf_newest : Forall (fun g => ctime g < ctime fmd) (level_files v 0);
  nf_times : NoDup (map ctime (level_files v 0));
  nf_number : Forall (fun g => number g <> n) (concat v);
  nf_old : forall k key, k <> n -> cache' k key = cache_get k key;
  nf_new : forall u s fl, tag_ok (mkTag s fl) -> cache' n (MakeKey u s fl) = table_get ucmp (MakeKey u s fl) es;
}.

Lemma family_flush {T : Type} `{!MemTable T, !MemTableLaws T} ucmp `{!ComparatorLaws ucmp, !ComparatorExact ucmp}
    cache_get contents last v (t : Tables T) ps imm n0 :
  family_holds ucmp cache_get contents last v t ps -> immutable_pipeline_ t = [(imm, n0)] ->
  length v = kMaxLevel /\
  exists pi, mt_holds ucmp imm pi /\ Forall (fun p => p ∈ ps) pi /\ Forall put_ok pi /\ zlen pi <= zlen ps /\
    forall cache' n es fmd e b, pi <> [] -> es ≡ₚ map entry_of pi -> new_file ucmp cache_get cache' n es fmd v ->
      family_holds ucmp cache' (with_file contents n es) last (alter (fun files => files ++ [fmd]) 0%nat v)
        (mkTables (mutable_ t) [] e b) ps.
Proof.
  intros (pm & pis & pf & Hm & Him & Hone & Hfiles & -> & Hs & Hw & Hlast) Hq. split; [by destruct Hfiles|].
  rewrite Hq in Him. cbn in Him. apply Forall2_cons_inv_l in Him as (pi & l & Hpi & Hl & ->).
  apply Forall2_nil_inv_l in Hl as ->. cbn [concat app] in *. rewrite app_nil_r in *.
  pose proof Hw as Hw'. rewrite !Forall_app in Hw'. destruct Hw' as [[_ Hwi] _].
  apply StronglySorted_inv in Hs as [Hs Hf1]. apply StronglySorted_inv in Hs as [_ Hf2].
  apply Forall_inv in Hf2. pose proof (Forall_inv Hf1) as Hmi. apply Forall_inv_tail, Forall_inv in Hf1.
  assert (Hok : Forall put_ok pi) by (eapply Forall_impl; [exact Hwi|]; intros p H; apply H).
  exists pi. split_and!; [done | | done | |].
  - apply Forall_forall. intros p Hp. rewrite !elem_of_app. auto.
  - rewrite !zlen_app. pose proof (zlen_nonneg pm). pose proof (zlen_nonneg pf). lia.
  - intros cache' n es fmd e b Hne Hes [Hsort (Hn & Hsm & Hlg) Hct Hnd Hnum Hold Hnew].
    exists pm, [], (pi ++ pf). cbn [mutable_ immutable_pipeline_ map concat app]. rewrite app_nil_r, <- app_assoc in *.
    split_and!; [done | by apply Forall2_nil | cbn; lia | | done | | done | done].
    + by eapply files_flush.
    + constructor; [repeat constructor|]. apply Forall_cons_2; [|apply Forall_nil_2].
      intros p q Hp [Hq'|Hq']%elem_of_app; [by apply Hmi | by apply Hf1].
Qed.

(** ** The database after a flush *)

Section database_flush.
Context {E F T I : Type} `{!WritableFile F, !WritableFileLaws F, !ReliableFile F, !EnvOps E F, !EnvReliable E F}.
Context `{!DirOps E, !FileOps E F, !FlushOps E F, !FlushLaws E F}.
Context `{!MemTable T, !MemTableLaws T, !Iterator I, !MemScan T I, !MemScanLaws T I}.
Context (path : bytes) (cache_get : nat -> Z -> bytes -> error + Tag * bytes) (contents : nat -> Z -> list kv).

#[local] Abbreviation DB := (DBImpl E F T).

(** Family [i] has one immutable table, with records, to be written under a
    number that none of its files has and at a time later than theirs. *)
Record flush_ready (db : DB) (H : history) (i : nat) (f : ColumnFamilyImpl) (t : Tables T) (imm : T) (n0 : Z) : Prop := {
  fr_ready : ready db;
  fr_holds : db_holds cache_get contents db H;
  fr_running : shutting_down_ db = false;
  fr_family : families (cfs (versions_ db)) !! i = Some f;
  fr_id : GetColumnFamily (cf_id f) (cfs (versions_ db)) = Some i;
  fr_tables : tables_ db !! i = Some t;
  fr_pipeline : immutable_pipeline_ t = [(imm, n0)];
  fr_options : 0 < block_restart_interval (cf_options f) /\ 512 <= options_block_size (cf_options f) < 2 ^ 32 /\
    options_block_size (cf_options f) mod 4 = 0;
  fr_some : 0 < mt_NumEntries (I := I) imm;
  fr_count : zlen (H i) < 2 ^ 32;
  fr_versions : Forall (fun p => p_version p <> 0) (H i);
  fr_number : Forall (fun g => number g <> next_file_number (versions_ db)) (concat (current f));
  fr_times : NoDup (map ctime (level_files (current f) 0));
  fr_clock : forall name (file : F) e, NewWritableFile name (env_ db) = (inr file, e) ->
    Forall (fun g => ctime g < CurrentTimeMicros (F := F) e) (level_files (current f) 0);
}.

(** A cache that answers for the tables it knew as before, and for table [n] of
    family [i] what the table on the disk answers. *)
Definition cache_of (env : E) (i : nat) (n : Z) (f : ColumnFamilyImpl) (cache' : nat -> Z -> bytes -> error + Tag * bytes) :
    Prop :=
  (forall j m key, (j, m) <> (i, n) -> cache' j m key = cache_get j m key) /\
  forall key r, tc_Get (F := F) path true f n key env = Done r -> cache' i n key = r.

(** The family after the flush: its file, its first log, its pipeline. *)
Record flush_done (db db' : DB) (i : nat) (f : ColumnFamilyImpl) (t : Tables T) (n0 : Z) (fmd : FileMetaData) : Prop := {
  fd_ready : ready db';
  fd_cfs : cfs (versions_ db') = update_family i (flushed n0 fmd) (cfs (versions_ db));
  fd_last : last_sequence_number (versions_ db') = last_sequence_number (versions_ db);
  fd_next : next_file_number (versions_ db') = wrap 64 (next_file_number (versions_ db) + 1);
  fd_tables : tables_ db' =
    alter (fun t => mkTables (mutable_ t) [] (background_error_ t) (background_progress_ t)) i (tables_ db);
  fd_number : number fmd = next_file_number (versions_ db);
}.

Lemma flush_input_ok (db : DB) H i f t imm n0 pi :
  flush_ready db H i f t imm n0 -> mt_holds (comparator_Compare (cf_options f)) imm pi ->
  Forall (fun p => p ∈ H i) pi -> Forall put_ok pi -> zlen pi <= zlen (H i) -> flushable (cf_options f) pi.
Proof.
  intros [] Hm Hin Hok Hz. destruct fr_options0 as (O1 & O2 & O3). split; [done | done | | lia | done |].
  - intros ->. rewrite (mt_count _ _ _ Hm) in fr_some0. by vm_compute in fr_some0.
  - rewrite Forall_forall in *. intros p Hp. apply fr_versions0. by apply Hin.
Qed.

(** The table on the disk is what the cache answers by. *)
Lemma cache_answers env i n f cache' es data :
  NewRandomAccessFile (F := F) (GetTableFileName path f env n) env = inr data ->
  answers_by (comparator_Compare (cf_options f)) data es -> zlen data < 2 ^ 32 -> cache_of env i n f cache' ->
  forall u s fl, tag_ok (mkTag s fl) ->
    cache' i n (MakeKey u s fl) = table_get (comparator_Compare (cf_options f)) (MakeKey u s fl) es.
Proof.
  intros Hd Ha Hlt [_ Hc] u s fl Ht. destruct (Ha Hlt) as (r & Hp & Hg). apply Hc.
  unfold tc_Get, LoadTable. rewrite Hd, Hp. cbn [obind]. by apply Hg.
Qed.

(** The run, without what the families hold. *)
Lemma CompactMemoryTable_run (db : DB) H i f t imm n0 pi :
  flush_ready db H i f t imm n0 -> ComparatorLaws (comparator_Compare (cf_options f)) ->
  length (current f) = kMaxLevel -> mt_holds (comparator_Compare (cf_options f)) imm pi -> flushable (cf_options f) pi ->
  exists es data fmd db', CompactMemoryTable (I := I) path i db = Done (kOk, db') /\ flush_done db db' i f t n0 fmd /\
    es ≡ₚ map entry_of pi /\ StronglySorted (kv_lt (InternalCompare (comparator_Compare (cf_options f)))) es /\
    smallest_key fmd = first_key es /\ largest_key fmd = final_key es /\
    Forall (fun g => ctime g < ctime fmd) (level_files (current f) 0) /\
    NewRandomAccessFile (F := F) (GetTableFileName path f (env_ db') (number fmd)) (env_ db') = inr data /\
    answers_by (comparator_Compare (cf_options f)) data es.
Proof.
  intros [] Hl Hlen Hm Hfl. unfold CompactMemoryTable. rewrite fr_tables0. cbn [ofopt obind]. rewrite fr_pipeline0.
  cbn [length compact_loop]. rewrite fr_family0, fr_tables0. cbn [ofopt obind]. rewrite fr_pipeline0. cbn [q_Peek head].
  destruct (WriteLevel0Table_ok (I := I) path i NewVersionPatch imm pi db f fr_family0 Hl Hm Hfl)
    as (es & data & size & file & e1 & e2 & -> & Enew & Hes & Hs & Hdata & Hans).
  cbn [obind]. change (negb (ok kOk)) with false. cbn iota. cbn [set_env set_versions shutting_down_ env_ versions_].
  rewrite fr_running0. set (fmd := mkFile _ _ _ _ _).
  destruct (rd_manifest _ fr_ready0) as (ps & Hman).
  change (SetRedoLog (cf_id f) n0 (SetPrevLogNumber 0 (CreateFile (cf_id f) 0 fmd NewVersionPatch)))
    with (flush_patch (cf_id f) n0 fmd).
  destruct (LogAndApply_flush path DefaultOptions i f (cf_id f) n0 fmd e2 (snd (GenerateFileNumber (versions_ db))) ps
    Hman fr_id0 fr_family0 Hlen) as (v' & ps' & -> & Hman' & Hcfs' & Hlast' & Hnext').
  cbn [obind]. change (negb (ok kOk)) with false. cbn iota. cbn [q_Take obind].
  set (db' := update_tables i _ _).
  assert (Hf' : families (cfs (versions_ db')) !! i = Some (flushed n0 fmd f)).
  { cbn. rewrite Hcfs'. cbn. by rewrite list_lookup_alter_eq, fr_family0. }
  assert (Ht' : tables_ db' !! i = Some (mkTables (mutable_ t) [] (background_error_ t) (background_progress_ t))).
  { cbn. by rewrite lookup_alter_eq, fr_tables0. }
  rewrite Hf', Ht'. cbn [ofopt obind immutable_pipeline_ q_Peek head].
  exists es, data, fmd, db'. split_and!; try done; [|by eapply fr_clock0].
  destruct fr_ready0 as [R1 R2 R3 R4]. split; [|exact Hcfs' | exact Hlast' | exact Hnext' | done | done].
  split; [exact R1 | by exists ps' | exact R3 |]. intros j g Hg. cbn in Hg. rewrite Hcfs' in Hg. cbn in Hg.
  assert (Hj : is_Some (families (cfs (versions_ db)) !! j)).
  { apply lookup_lt_is_Some. apply lookup_lt_Some in Hg. by rewrite length_alter in Hg. }
  destruct Hj as [g0 Hg0]. destruct (R4 j g0 Hg0) as (t0 & Et0 & Hok0). cbn.
  destruct (decide (j = i)) as [->|Hne].
  - rewrite lookup_alter_eq, Et0. eexists. by split.
  - rewrite lookup_alter_ne by done. by exists t0.
Qed.

(** What the families hold stays. *)
Lemma flush_holds (db db' : DB) H i f t imm n0 fmd pi es cache' :
  flush_ready db H i f t imm n0 -> flush_done db db' i f t n0 fmd -> length (current f) = kMaxLevel ->
  (forall cache' n es fmd e b, pi <> [] -> es ≡ₚ map entry_of pi ->
    new_file (comparator_Compare (cf_options f)) (cache_get i) cache' n es fmd (current f) ->
    family_holds (comparator_Compare (cf_options f)) cache' (with_file (contents i) n es) (last_sequence_number (versions_ db))
      (alter (fun files => files ++ [fmd]) 0%nat (current f)) (mkTables (mutable_ t) [] e b) (H i)) ->
  pi <> [] -> es ≡ₚ map entry_of pi ->
  new_file (comparator_Compare (cf_options f)) (cache_get i) (cache' i) (number fmd) es fmd (current f) ->
  (forall j m key, (j, m) <> (i, number fmd) -> cache' j m key = cache_get j m key) ->
  db_holds cache' (fun j => if decide (j = i) then with_file (contents i) (number fmd) es else contents j) db' H.
Proof.
  intros [] [] Hlen Hfam Hne Hes Hnew Hold j g tj Hg Htj. rewrite fd_last0.
  rewrite fd_cfs0 in Hg. cbn in Hg. rewrite fd_tables0 in Htj. destruct (decide (j = i)) as [->|Hji].
  - rewrite list_lookup_alter_eq, fr_family0 in Hg. injection Hg as <-.
    rewrite lookup_alter_eq, fr_tables0 in Htj. injection Htj as <-.
    destruct (fr_holds0 i f t fr_family0 fr_tables0) as (H1 & H2 & _). split_and!; [done..|]. by apply Hfam.
  - rewrite list_lookup_alter_ne in Hg by done. rewrite lookup_alter_ne in Htj by done.
    destruct (fr_holds0 j g tj Hg Htj) as (H1 & H2 & H3). split_and!; [done..|].
    destruct H3 as (pm & pis & pf & A1 & A2 & A3 & [B1 B2 B3 B4] & A5). exists pm, pis, pf. split_and!; try apply A5; try done.
    split; [done | | done | done]. eapply Forall_impl; [exact B2|]. intros x [C1 C2 C3 C4]. split; [done..|].
    intros u s fl Ht. rewrite Hold by congruence. by apply C4.
Qed.

(** The run, and what the families hold: the new file has the records of the
    immutable table. *)
Lemma CompactMemoryTable_holds (db : DB) H i f t imm n0 :
  flush_ready db H i f t imm n0 ->
  exists db' fmd data pi es, CompactMemoryTable (I := I) path i db = Done (kOk, db') /\ flush_done db db' i f t n0 fmd /\
    NewRandomAccessFile (F := F) (GetTableFileName path f (env_ db') (number fmd)) (env_ db') = inr data /\
    Forall (fun p => p ∈ H i) pi /\ zlen pi = mt_NumEntries (I := I) imm /\
    es ≡ₚ map entry_of pi /\ StronglySorted (kv_lt (InternalCompare (comparator_Compare (cf_options f)))) es /\
    (zlen data < 2 ^ 32 -> forall cache', cache_of (env_ db') i (number fmd) f cache' ->
      db_holds cache' (fun j => if decide (j = i) then with_file (contents i) (number fmd) es else contents j) db' H).
Proof.
  intros Hfr. pose proof Hfr as [].
  destruct (fr_holds0 i f t fr_family0 fr_tables0) as (Hl & Hx & Hfam).
  destruct (family_flush _ _ _ _ _ t (H i) imm n0 Hfam fr_pipeline0) as (Hlen & pi & Hm & Hin & Hok & Hz & Hflush).
  assert (Hfl : flushable (cf_options f) pi) by (by eapply flush_input_ok).
  destruct (CompactMemoryTable_run db H i f t imm n0 pi Hfr Hl Hlen Hm Hfl)
    as (es & data & fmd & db' & Erun & Hdone & Hes & Hs & Hsm & Hlg & Hct & Hdata & Hans).
  exists db', fmd, data, pi, es. split_and!; [done..| | done | done |].
  { rewrite (mt_count _ _ _ Hm), wrap_small; [done|]. pose proof (zlen_nonneg pi). unfold is_u. lia. }
  intros Hlt cache' Hc.
  apply (flush_holds db db' H i f t imm n0 fmd pi es cache' Hfr Hdone Hlen Hflush (fl_some _ _ Hfl) Hes); [|apply Hc].
  pose proof (fd_number _ _ _ _ _ _ _ Hdone) as Hn. split; try done.
  - by rewrite Hn.
  - intros k key Hk. apply Hc. congruence.
  - by eapply cache_answers.
Qed.

(** C7: Writing an immutable memory table to disk loses and changes nothing.  On
    a reliable file system [CompactMemoryTable] succeeds, empties the pipeline,
    adds one file to level 0 and moves the first log of the family up to the
    one that was begun with the table; and with the file it wrote, opened
    through the table cache, every family holds the records it held before (so
    every [Get] answers as before).  The conditions are those of [flush_ready]:
    there is one immutable table and it has records, its file gets a number that
    no file has, and the clock has not been set back ([clock_set_back],
    [empty_table_is_undefined]). *)
Theorem CompactMemoryTable_keeps (db : DB) H i f t imm n0 :
  flush_ready db H i f t imm n0 ->
  exists db' fmd data, CompactMemoryTable (I := I) path i db = Done (kOk, db') /\ flush_done db db' i f t n0 fmd /\
    NewRandomAccessFile (F := F) (GetTableFileName path f (env_ db') (number fmd)) (env_ db') = inr data /\
    (zlen data < 2 ^ 32 -> forall cache', cache_of (env_ db') i (number fmd) f cache' ->
      exists contents', db_holds cache' contents' db' H).
Proof.
  intros Hfr. destruct (CompactMemoryTable_holds db H i f t imm n0 Hfr)
    as (db' & fmd & data & pi & es & Erun & Hdone & Hdata & _ & _ & _ & _ & Hh).
  exists db', fmd, data. split_and!; [done..|]. intros Hlt cache' Hc. eexists. by apply Hh.
Qed.
End database_flush.

(** ** A flush on a disk in memory *)

Import DBImpl.Sample.

#[export] Instance DiskFlush : FlushOps Disk MemFile := {
  CurrentTimeMicros _ := 100;
  FileSizeOf f := inr (zlen (mem_data f));
  Truncate0 _ := (kOk, mkMem []);
  CloseFile name f disk := <[name := mem_data f]> disk;
}.
#[export] Instance DiskFlush_laws : FlushLaws Disk MemFile.
Proof. split; [|done]. intros name f env. unfold NewRandomAccessFile. simpl. unfold Disk in *. by rewrite lookup_insert_eq. Qed.

(** A new database, three updates, and the table they are in made immutable. *)
Definition flush_created : DBImpl Disk MemFile OrderedTable :=
  match NewDB [47] sample_options [] (NewDBImpl kDefaultBlockSize (∅ : Disk)) with Done (_, db) => db | _ => disk_db end.
Definition flush_put : DBImpl Disk MemFile OrderedTable := write sample_batch flush_created.
Definition flush_full : DBImpl Disk MemFile OrderedTable :=
  match MakeImmutablePipeline 0 7 flush_put with Done db => db | _ => flush_put end.

Definition flush_family : ColumnFamilyImpl :=
  default (NewFamily [] 0 sample_options) (families (cfs (versions_ flush_full)) !! 0%nat).
Definition flush_tables : Tables OrderedTable := default new_tables (tables_ flush_full !! 0%nat).
Definition flush_imm : OrderedTable := match immutable_pipeline_ flush_tables with (m, _) :: _ => m | [] => mt_New lex end.
Definition flush_history : history :=
  abstract_write (cfs (versions_ flush_created)) sample_batch 2 (fun _ => []).

Lemma default_Some {A} (d : A) (o : option A) : bool_decide (is_Some o) = true -> o = Some (default d o).
Proof. intros [x ->]%bool_decide_eq_true. done. Qed.

Lemma flush_put_ok : ready flush_put /\ db_holds no_files no_contents flush_put flush_history.
Proof.
  destruct (NewDB_holds [47] sample_options no_files no_contents kDefaultBlockSize [] (∅ : Disk) ltac:(by split) sample_options_ok ltac:(constructor))
    as (db & E & Hr & Hl & _ & Hh).
  assert (Ec : flush_created = db) by (unfold flush_created; by rewrite E).
  rewrite <- Ec in Hr, Hl, Hh.
  assert (Hk : Forall (op_known (cfs (versions_ flush_created))) sample_batch).
  { assert (Hd : default_cfd_ (cfs (versions_ flush_created)) = Some 0%nat) by (by vm_compute).
    assert (Hf : bool_decide (is_Some (families (cfs (versions_ flush_created)) !! 0%nat)) = true) by (by vm_compute).
    apply bool_decide_eq_true in Hf as [f Hf].
    repeat (apply Forall_cons_2 || apply Forall_nil_2); exists 0%nat, f; unfold family_of; cbn [op_cfid Z.eqb];
      (split_and!; [exact Hd | exact Hf | done]). }
  destruct (WriteImpl_holds [47] sample_options no_compaction no_files no_contents true sample_batch flush_created
    (fun _ => []) Hr Hh sample_batch_ok Hk) as (db' & E' & Hr' & _ & _ & Hh'); [by rewrite Hl | by rewrite Hl; by vm_compute |].
  assert (Ep : flush_put = db') by (unfold flush_put, write; by rewrite E').
  rewrite Ep. split; [exact Hr'|]. rewrite Hl in Hh'. exact Hh'.
Qed.

Lemma flush_full_made : MakeImmutablePipeline 0 7 flush_put = Done flush_full.
Proof.
  unfold flush_full. assert (H : match MakeImmutablePipeline 0 7 flush_put with Done _ => true | _ => false end = true)
    by (by vm_compute).
  by destruct (MakeImmutablePipeline 0 7 flush_put).
Qed.

Lemma flush_put_pipeline : immutable_pipeline_ (default new_tables (tables_ flush_put !! 0%nat)) = [].
Proof.
  assert (H : length (immutable_pipeline_ (default new_tables (tables_ flush_put !! 0%nat))) = 0%nat) by (vm_compute; reflexivity).
  revert H. generalize (immutable_pipeline_ (default new_tables (tables_ flush_put !! 0%nat))). intros [|x l] H; [reflexivity | discriminate H].
Qed.

Lemma flush_full_ok : ready flush_full /\ db_holds no_files no_contents flush_full flush_history.
Proof.
  destruct flush_put_ok as [Hr Hh]. pose proof flush_full_made as E. unfold MakeImmutablePipeline in E.
  destruct (families (cfs (versions_ flush_put)) !! 0%nat) as [f|] eqn:Hf; [|discriminate E].
  destruct (tables_ flush_put !! 0%nat) as [t|] eqn:Ht; [|discriminate E]. cbn [ofopt obind] in E. apply Done_inj in E.
  rewrite <- E. split; [by apply update_tables_ready|].
  pose proof flush_put_pipeline as Hq. rewrite Ht in Hq. cbn in Hq.
  apply update_tables_holds; [|exact Hh]. intros f' t' ps Hf' Ht' Hl Hx Hfam. rewrite Hf in Hf'. rewrite Ht in Ht'.
  injection Hf' as <-. injection Ht' as <-. by apply family_roll.
Qed.

Lemma flush_pipeline : immutable_pipeline_ flush_tables = [(flush_imm, 7)].
Proof.
  assert (H1 : map snd (immutable_pipeline_ flush_tables) = [7]) by (by vm_compute). unfold flush_imm.
  destruct (immutable_pipeline_ flush_tables) as [|[m n] [|]]; [discriminate H1| |discriminate H1]. cbn in H1. injection H1 as ->. done.
Qed.

Lemma flush_full_ready :
  flush_ready no_files no_contents flush_full flush_history 0 flush_family flush_tables flush_imm 7.
Proof.
  destruct flush_full_ok as [Hr Hh]. split.
  - exact Hr.
  - exact Hh.
  - by vm_compute.
  - apply default_Some. by vm_compute.
  - by vm_compute.
  - apply default_Some. by vm_compute.
  - exact flush_pipeline.
  - by vm_compute.
  - by vm_compute.
  - by vm_compute.
  - by_compute.
  - by_compute.
  - by_compute.
  - intros name file e _. assert (H : level_files (current flush_family) 0 = []) by (by vm_compute). rewrite H. constructor.
Qed.

(** The table that is written answers as the memory table did. *)
Lemma CompactMemoryTable_keeps_witness :
  match CompactMemoryTable (I := OrderedIterator) [47] 0 flush_full with
  | Done (_, db) => tc_Get (F := MemFile) [47] true flush_family (next_file_number (versions_ flush_full)) (MakeKey [97] 4 0) (env_ db)
  | _ => Undef
  end = Done (inr (mkTag 4 0, [2])) /\
  exists db' fmd, CompactMemoryTable (I := OrderedIterator) [47] 0 flush_full = Done (kOk, db') /\
    flush_done flush_full db' 0 flush_family flush_tables 7 fmd.
Proof.
  split; [vm_compute; reflexivity|].
  destruct (CompactMemoryTable_keeps (I := OrderedIterator) [47] no_files no_contents flush_full flush_history 0 flush_family flush_tables
    flush_imm 7 flush_full_ready) as (db' & fmd & data & E & Hd & _).
  exists db', fmd. exact (conj E Hd).
Defined.

(** ** What goes wrong *)

(** Of two files of level 0 the one with the later clock is asked first, also
    when the clock was set back in between and the other file is newer. *)
Example clock_set_back :
  map number (sort_newest [mkFile 3 [97] [98] 10 200; mkFile 4 [97] [98] 10 100]) = [3; 4].
Proof. vm_compute. reflexivity. Qed.

(** A memory table without records cannot be written: its builder has no
    filter to finish. *)
Example empty_table_is_undefined :
  WriteLevel0Table (I := OrderedIterator) [47] 0 NewVersionPatch (mt_New lex) flush_full = Undef.
Proof. vm_compute. reflexivity. Qed.
