(* ===== verification/Compaction.v ===== *)
(** * Compaction

    src/db/compaction.h and src/db/compaction-impl.{h,cc}: the merge of the
    input tables of a compaction into one table, which leaves out the entries
    no reader needs.

    [Run] takes the inputs through a merging iterator.  An entry is dropped
    when a memory table has its user key, when an entry before it of the same
    user key is not newer than the oldest snapshot, or when it is an old
    deletion and [IsBaseLevelForKey] says that a lower level may have the
    key.  The last test is the wrong way round ([deletion_resurrects]), so the
    theorem on lookups ([Run_keeps_lookups]) asks that it never succeeds. *)

From S2P Require Import Prelude Slice Hash Keys Entries Iterator Merging DBIterator IO Files MemoryTable Patch Version Table Block Sst DBFlush.

(** The inputs and parameters of a compaction. *)
Record CompactionImpl (I T : Type) := mkCompaction {
  target_level : nat;
  target_file_number : Z;
  smallest_snapshot : Z;
  compaction_point : bytes;
  original_input : list I;
  input_version : Version;
  in_mem_ : list T
}.
Arguments mkCompaction {I T}.
Arguments target_level {I T}.
Arguments target_file_number {I T}.
Arguments smallest_snapshot {I T}.
Arguments compaction_point {I T}.
Arguments original_input {I T}.
Arguments input_version {I T}.
Arguments in_mem_ {I T}.

Record CompactionResult := mkResult {
  result_smallest_key : bytes;
  result_largest_key : bytes;
  deletion_keys : Z;
  deletion_size : Z;
  compacted_size : Z;
  compacted_n_entries : Z
}.

Definition NewResult : CompactionResult := mkResult [] [] 0 0 0 0.

(** ** CompactionImpl *)

Section compaction.
Context {F I T : Type} `{!WritableFile F, !Iterator I, !MemTable T}.
Context (ucmp : bytes -> bytes -> Z).

(** [TableCache::GetKeyFilter], by the number of the table. *)
Context (GetKeyFilter : Z -> outcome (error + KeyBloomFilter)).

#[local] Abbreviation icmp := (InternalCompare ucmp).
#[local] Instance merged_ops : Iterator (Merged (I := I)) := Merged_ops icmp.

Fixpoint IsBaseMemoryForKey (key : bytes) (in_mem : list T) : outcome bool :=
  match in_mem with
  | [] => Done false
  | table :: in_mem =>
    obind (mt_KeyExists key kMaxSequenceNumber table) (fun exists_ =>
      if exists_ then Done true else IsBaseMemoryForKey key in_mem)
  end.

(** The loop over the files of the levels; a hit is noted and the search goes
    on (the statement [Error::OK();] returns nothing). *)
Fixpoint base_files (key : bytes) (files : list FileMetaData) (may_exists : bool) : outcome (error * bool) :=
  match files with
  | [] => Done (kOk, may_exists)
  | fmd :: files =>
    if (0 <? icmp key (largest_key fmd)) || (icmp key (smallest_key fmd) <? 0) then base_files key files may_exists
    else
      obind (GetKeyFilter (number fmd)) (fun filter =>
        match filter with
        | inl rs => Done (rs, true)
        | inr filter => base_files key files (may_exists || MayExists key filter)
        end)
  end.

Definition IsBaseLevelForKey (start_level : nat) (key : bytes) (v : Version) : outcome (error * bool) :=
  if (start_level =? kMaxLevel - 1)%nat then Done (kOk, false)
  else base_files key (concat (map (level_files v) (seq start_level (kMaxLevel - start_level)))) false.

(** The variables of the loop of [Run]; [has_current_user_key] is whether there
    is a [current_user_key]. *)
Record RunState := mkRun {
  current_user_key : option bytes;
  last_sequence_for_key : Z;
  run_ikey : bytes * Tag;
  run_builder : SstTableBuilder F;
  run_result : CompactionResult
}.

(** Whether the entry is dropped, when [last_sequence_for_key] is [last]. *)
Definition drop_entry (c : CompactionImpl I T) (last : Z) (key user_key : bytes) (tag : Tag) : outcome (error * bool) :=
  obind (IsBaseMemoryForKey user_key (in_mem_ c)) (fun in_memory =>
    if in_memory then Done (kOk, true)
    else if last <=? smallest_snapshot c then Done (kOk, true)
    else if (flag tag =? flag_code kFlagDeletion) && (sequence_number tag <=? smallest_snapshot c) then
      IsBaseLevelForKey (target_level c + 1) key (input_version c)
    else Done (kOk, false)).

Definition count_dropped (key value : bytes) (r : CompactionResult) : CompactionResult :=
  mkResult (result_smallest_key r) (result_largest_key r) (wrap 64 (deletion_keys r + 1))
    (wrap 64 (wrap 64 (deletion_size r + zlen key) + zlen value)) (compacted_size r) (compacted_n_entries r).

(** The size of the entry written under [key'], and the bounds, which are of
    the keys as they were read. *)
Definition count_kept (key key' value : bytes) (r : CompactionResult) : CompactionResult :=
  mkResult
    (if bool_decide (result_smallest_key r = []) || (icmp key (result_smallest_key r) <? 0) then key else result_smallest_key r)
    (if bool_decide (result_largest_key r = []) || (0 <? icmp key (result_largest_key r)) then key else result_largest_key r)
    (deletion_keys r) (deletion_size r) (wrap 64 (compacted_size r + (zlen key' + zlen value))) (compacted_n_entries r).

(** One turn of the loop.  In the last level an entry loses its version, and a
    deletion its flag. *)
Definition run_entry (c : CompactionImpl I T) (e : kv) (st : RunState) : outcome (error * RunState) :=
  let '(key, value) := e in
  let '(user_key, tag) as ikey := parse_into (run_ikey st) key in
  let same := match current_user_key st with Some k => ucmp k user_key =? 0 | None => false end in
  let current := if same then current_user_key st else Some user_key in
  let last := if same then last_sequence_for_key st else kMaxSequenceNumber in
  obind (drop_entry c last key user_key tag) (fun '(rs, drop) =>
    if negb (ok rs) then Done (rs, mkRun current last ikey (run_builder st) (run_result st))
    else
      let to_last_level := (target_level c =? kMaxLevel - 1)%nat in
      let key' := if to_last_level then MakeKey user_key 0 (flag_code kFlagValue) else key in
      let '(builder, result) :=
        if drop then (run_builder st, count_dropped key value (run_result st))
        else (sb_Add ucmp key' value (run_builder st), count_kept key key' value (run_result st)) in
      Done (kOk, mkRun current (sequence_number tag) ikey builder result)).

Fixpoint run_loop (fuel : nat) (c : CompactionImpl I T) (merger : Merged (I := I)) (st : RunState) :
    outcome (error * RunState) :=
  if it_Valid merger then
    match fuel with
    | O => OutOfFuel
    | S fuel =>
      (do! e := ofopt (it_current merger) in
       do! (rs, st) := run_entry c e st in
       if negb (ok rs) then Done (rs, st) else
       do! merger := it_Next merger in
       run_loop fuel c merger st)%out
    end
  else Done (kOk, st).

Definition set_n_entries (n : Z) (r : CompactionResult) : CompactionResult :=
  mkResult (result_smallest_key r) (result_largest_key r) (deletion_keys r) (deletion_size r) (compacted_size r) n.

(** [Run]: the error, the builder and the result. *)
Definition Run (fuel : nat) (c : CompactionImpl I T) (builder : SstTableBuilder F) :
    outcome (error * SstTableBuilder F * CompactionResult) :=
  let merger := NewMergingIterator (original_input c) : Merged (I := I) in
  if negb (ok (it_error merger)) then Done (it_error merger, builder, NewResult) else
  (do! merger := it_SeekToFirst merger in
   do! (rs, st) := run_loop fuel c merger (mkRun None kMaxSequenceNumber ([], mkTag 0 0) builder NewResult) in
   if negb (ok rs) then Done (rs, run_builder st, run_result st) else
   let result := set_n_entries (sb_NumEntries (run_builder st)) (run_result st) in
   do! (rs, builder) := sb_Finish (run_builder st) in
   if negb (ok rs) then Done (rs, builder, result) else Done (error_ builder, builder, result))%out.
End compaction.

(** ** What is kept *)

Section kept.
Context (ucmp : bytes -> bytes -> Z).

Definition user (e : kv) : bytes := fst (parsed (fst e)).
Definition seq_of (e : kv) : Z := sequence_number (snd (parsed (fst e))).
Definition is_deletion (e : kv) : bool := flag (snd (parsed (fst e))) =? flag_code kFlagDeletion.

(** [in_mem]: the user keys of the memory tables; [may]: the internal keys the
    filters of lower levels do not exclude. *)
Context (in_mem : bytes -> bool) (smallest : Z) (may : bytes -> bool).

(** A newer entry of the user key, which every snapshot sees. *)
Definition superseded (es : list kv) (e : kv) : bool :=
  existsb (fun e' => (ucmp (user e') (user e) =? 0) && (seq_of e <? seq_of e') && (seq_of e' <=? smallest)) es.

Definition old_deletion (e : kv) : bool := is_deletion e && (seq_of e <=? smallest).

Definition dropped_entry (es : list kv) (e : kv) : bool :=
  in_mem (user e) || superseded es e || (old_deletion e && may (fst e)).

Definition kept_of (es part : list kv) : list kv := filter (fun e => dropped_entry es e = false) part.
Definition kept (es : list kv) : list kv := kept_of es es.
End kept.

Section kept_facts.
Context (ucmp : bytes -> bytes -> Z) `{!ComparatorLaws ucmp}.

#[local] Abbreviation icmp := (InternalCompare ucmp).

Lemma icmp_lt (a b : kv) :
  kv_lt icmp a b <-> ucmp (user a) (user b) < 0 \/ (ucmp (user a) (user b) = 0 /\ seq_of b < seq_of a).
Proof.
  unfold kv_lt, InternalCompare, user, seq_of. destruct (parsed (fst a)) as [ka ta], (parsed (fst b)) as [kb tb]. cbn [fst snd].
  destruct (Z.eqb_spec (ucmp ka kb) 0) as [E|E]; cbn [negb]; [rewrite E; case_cmps | lia].
Qed.

Lemma sorted_before pre e rest p :
  StronglySorted (kv_lt icmp) (pre ++ e :: rest) -> p ∈ pre -> kv_lt icmp p e.
Proof. intros Hs Hp. apply (StronglySorted_app_1_elem_of _ _ _ _ _ Hs); [done | by left]. Qed.

(** Only the entry just before can tell whether an entry is superseded. *)
Lemma superseded_last smallest pre e rest :
  StronglySorted (kv_lt icmp) (pre ++ e :: rest) -> smallest < kMaxSequenceNumber ->
  superseded ucmp smallest (pre ++ e :: rest) e =
  match last pre with
  | Some p => if ucmp (user p) (user e) =? 0 then seq_of p <=? smallest else kMaxSequenceNumber <=? smallest
  | None => kMaxSequenceNumber <=? smallest
  end.
Proof.
  intros Hs Hsm. assert (Hmax : (kMaxSequenceNumber <=? smallest) = false) by (by apply Z.leb_gt). rewrite Hmax.
  assert (Hin : forall e', e' ∈ pre ++ e :: rest -> ucmp (user e') (user e) = 0 -> seq_of e < seq_of e' -> e' ∈ pre).
  { intros e' [He|[->|He]%elem_of_cons]%elem_of_app Hu Hlt; [done | lia |].
    apply StronglySorted_app in Hs as (_ & _ & Hs). apply StronglySorted_inv in Hs as [_ Hs].
    rewrite Forall_forall in Hs. specialize (Hs e' He). apply icmp_lt in Hs as [Hs|[_ Hs]]; [|lia].
    apply (cmp_eq_sym ucmp) in Hu. lia. }
  destruct pre as [|p pre _] using rev_ind.
  { cbn [last]. apply not_true_iff_false. intros Hx. apply existsb_exists in Hx as (e' & He' & Hc).
    rewrite !andb_true_iff in Hc. destruct Hc as [[Hu%Z.eqb_eq Hlt%Z.ltb_lt] _].
    apply list_elem_of_In in He'. by apply (Hin e' He' Hu), not_elem_of_nil in Hlt. }
  rewrite last_snoc. pose proof (sorted_before _ _ _ p Hs ltac:(apply elem_of_app; right; by left)) as Hpe.
  apply icmp_lt in Hpe. apply eq_true_iff_eq. unfold superseded. rewrite existsb_exists. split.
  - intros (e' & He' & Hc). rewrite !andb_true_iff in Hc. destruct Hc as [[Hu%Z.eqb_eq Hlt%Z.ltb_lt] Hle%Z.leb_le].
    apply list_elem_of_In in He'. specialize (Hin e' He' Hu Hlt). apply elem_of_app in Hin as [Hin|Hin%list_elem_of_singleton].
    2:{ subst e'. rewrite Hu. cbn. by apply Z.leb_le. }
    rewrite <- app_assoc in Hs. pose proof (sorted_before _ _ _ e' Hs Hin) as Hep. apply icmp_lt in Hep.
    assert (Hup : ucmp (user p) (user e) = 0).
    { destruct Hpe as [Hpe|[Hpe _]]; [|done]. destruct Hep as [Hep|[Hep _]].
      - pose proof (cmp_lt_le_trans ucmp (user e') (user p) (user e) Hep ltac:(lia)). lia.
      - pose proof (cmp_le_lt_trans ucmp (user e') (user p) (user e) ltac:(lia) Hpe). lia. }
    rewrite Hup. cbn. apply Z.leb_le. destruct Hep as [Hep|[_ Hep]]; [|lia].
    pose proof (cmp_eq_sym ucmp _ _ Hup). pose proof (cmp_lt_le_trans ucmp (user e') (user p) (user e) Hep ltac:(lia)). lia.
  - intros Hc. destruct (Z.eqb_spec (ucmp (user p) (user e)) 0) as [Hu|]; [|done].
    exists p. split.
    { apply list_elem_of_In. rewrite !elem_of_app. left. right. by left. }
    rewrite Hu, Hc. destruct Hpe as [Hpe|[_ Hpe]]; [lia|].
    apply Z.ltb_lt in Hpe. by rewrite Hpe.
Qed.

Lemma kept_of_snoc in_mem smallest may es pre e :
  kept_of ucmp in_mem smallest may es (pre ++ [e]) =
  kept_of ucmp in_mem smallest may es pre ++ (if dropped_entry ucmp in_mem smallest may es e then [] else [e]).
Proof. unfold kept_of. rewrite filter_app, filter_cons. f_equal. by destruct (dropped_entry _ _ _ _ _ _). Qed.
End kept_facts.

(** ** The loop *)

Section running.
Context {F I T : Type} `{!WritableFile F, !WritableFileLaws F, !ReliableFile F, !Iterator I, !MemTable T}.
Context (ucmp : bytes -> bytes -> Z) `{!ComparatorLaws ucmp}.
Context (GetKeyFilter : Z -> outcome (error + KeyBloomFilter)).
Context (c : CompactionImpl I T) (in_mem : bytes -> bool) (may : bytes -> bool) (es : list kv).

#[local] Abbreviation icmp := (InternalCompare ucmp).
#[local] Abbreviation smallest := (smallest_snapshot c).
#[local] Existing Instance merged_ops.

(** [in_mem] and [may] are what the memory tables and the filters answer for
    the entries [es], which are sorted and go to a level above the last. *)
Record run_ok : Prop := {
  ro_sorted : StronglySorted (kv_lt icmp) es;
  ro_versions : Forall (fun e => exists u s, versioned u s e) es;
  ro_level : target_level c <> (kMaxLevel - 1)%nat;
  ro_snapshot : smallest < kMaxSequenceNumber;
  ro_mem : forall e, e ∈ es -> IsBaseMemoryForKey (user e) (in_mem_ c) = Done (in_mem (user e));
  ro_may : forall e, e ∈ es -> old_deletion smallest e = true ->
    IsBaseLevelForKey ucmp GetKeyFilter (target_level c + 1) (fst e) (input_version c) = Done (kOk, may (fst e));
}.

#[local] Abbreviation keep := (kept_of ucmp in_mem smallest may es).

(** The state of the loop behind the entries [pre]. *)
Record after (b0 : SstTableBuilder F) (pre : list kv) (st : RunState (F := F)) : Prop := {
  af_last : match last pre with
            | None => current_user_key st = None
            | Some p => (exists k, current_user_key st = Some k /\ ucmp k (user p) = 0) /\ last_sequence_for_key st = seq_of p
            end;
  af_builder : run_builder st = add_all ucmp (keep pre) b0;
  af_smallest : result_smallest_key (run_result st) = first_key (keep pre);
  af_largest : result_largest_key (run_result st) = final_key (keep pre);
  af_dropped : deletion_keys (run_result st) = wrap 64 (zlen pre - zlen (keep pre));
}.

Lemma drop_entry_ok pre e rest key uk tag :
  run_ok -> es = pre ++ e :: rest -> key = fst e -> uk = user e -> tag = snd (parsed (fst e)) ->
  drop_entry ucmp GetKeyFilter c
    match last pre with
    | Some p => if ucmp (user p) (user e) =? 0 then seq_of p else kMaxSequenceNumber
    | None => kMaxSequenceNumber
    end key uk tag =
  Done (kOk, dropped_entry ucmp in_mem smallest may es e).
Proof.
  intros [] Hes -> -> ->. assert (Hin : e ∈ es) by (rewrite Hes; apply elem_of_app; right; by left).
  unfold drop_entry, dropped_entry. rewrite ro_mem0 by done. cbn [obind].
  destruct (in_mem (user e)); cbn [orb]; [done|].
  rewrite Hes in ro_sorted0. rewrite Hes, (superseded_last ucmp _ pre e rest ro_sorted0 ro_snapshot0).
  replace (match last pre with
    | Some p => if ucmp (user p) (user e) =? 0 then seq_of p else kMaxSequenceNumber
    | None => kMaxSequenceNumber end <=? smallest)
    with (match last pre with
    | Some p => if ucmp (user p) (user e) =? 0 then seq_of p <=? smallest else kMaxSequenceNumber <=? smallest
    | None => kMaxSequenceNumber <=? smallest end)
    by (destruct (last pre) as [p|]; [by destruct (ucmp (user p) (user e) =? 0) | done]).
  destruct (match last pre with Some _ => _ | None => _ end); cbn [orb]; [done|].
  change ((flag (snd (parsed (fst e))) =? flag_code kFlagDeletion) && (sequence_number (snd (parsed (fst e))) <=? smallest))
    with (old_deletion smallest e).
  destruct (old_deletion smallest e) eqn:Ed; cbn [andb]; [|done]. by apply ro_may0.
Qed.

Lemma run_entry_after b0 pre e rest st :
  run_ok -> es = pre ++ e :: rest -> after b0 pre st ->
  exists st', run_entry ucmp GetKeyFilter c e st = Done (kOk, st') /\ after b0 (pre ++ [e]) st'.
Proof.
  intros Hok Hes [Hl Hb Hsm Hlg Hdr]. destruct e as [key value].
  assert (Hin : (key, value) ∈ es) by (rewrite Hes; apply elem_of_app; right; by left).
  pose proof (ro_versions Hok) as Hv. rewrite Forall_forall in Hv. destruct (Hv _ Hin) as (u & s & f & v & Ekey & Ht).
  injection Ekey as -> ->.
  unfold run_entry, parse_into. rewrite ParseTaggedKey_MakeKey by done.
  assert (Hp : parsed (MakeKey u s f) = (u, mkTag s f)) by (by apply parsed_MakeKey).
  set (e := (MakeKey u s f, v)) in *.
  assert (Hu : user e = u) by (unfold user, e; cbn; by rewrite Hp).
  assert (Hs : seq_of e = s) by (unfold seq_of, e; cbn; by rewrite Hp).
  set (same := match current_user_key st with Some k => ucmp k u =? 0 | None => false end).
  assert (Hsame : same = match last pre with Some p => ucmp (user p) u =? 0 | None => false end).
  { unfold same. destruct (last pre) as [p|]; [|by rewrite Hl]. destruct Hl as [(k & -> & Hk) _].
    destruct (Z.eqb_spec (ucmp k u) 0) as [E1|E1], (Z.eqb_spec (ucmp (user p) u) 0) as [E2|E2]; try done; exfalso.
    - apply E2. apply (cmp_eq_trans ucmp _ k); [by apply cmp_eq_sym | done].
    - apply E1. by apply (cmp_eq_trans ucmp _ (user p)). }
  assert (Hlast : (if same then last_sequence_for_key st else kMaxSequenceNumber) =
    match last pre with
    | Some p => if ucmp (user p) (user e) =? 0 then seq_of p else kMaxSequenceNumber
    | None => kMaxSequenceNumber
    end).
  { rewrite Hsame, Hu. destruct (last pre) as [p|]; [|done]. destruct Hl as [_ ->]. done. }
  rewrite Hlast, (drop_entry_ok pre e rest (MakeKey u s f) u (mkTag s f) Hok Hes eq_refl (eq_sym Hu))
    by (unfold e; cbn; by rewrite Hp). cbn [obind].
  change (negb (ok kOk)) with false. cbn iota.
  assert (Hlev : (target_level c =? kMaxLevel - 1)%nat = false) by (apply Nat.eqb_neq, (ro_level Hok)). rewrite Hlev.
  assert (Hcur : exists k, (if same then current_user_key st else Some u) = Some k /\ ucmp k (user e) = 0).
  { rewrite Hu. unfold same. destruct (current_user_key st) as [k|]; [|by exists u; rewrite (cmp_refl (cmp := ucmp))].
    destruct (Z.eqb_spec (ucmp k u) 0); [by exists k | by exists u; rewrite (cmp_refl (cmp := ucmp))]. }
  pose proof (kept_of_snoc ucmp in_mem smallest may es pre e) as Hk.
  assert (Hes' : es = (pre ++ [e]) ++ rest) by (rewrite <- app_assoc; exact Hes).
  assert (Hsub : StronglySorted (kv_lt icmp) (keep (pre ++ [e]))).
  { apply (StronglySorted_sublist _ _ es); [|apply (ro_sorted Hok)]. unfold kept_of. etransitivity; [apply sublist_filter|].
    rewrite Hes'. apply sublist_inserts_r. reflexivity. }
  assert (Hne : Forall (fun x => fst x <> []) (keep (pre ++ [e]))).
  { apply Forall_forall. intros x Hx. apply list_elem_of_filter in Hx as [_ Hx].
    destruct (Hv x) as (u' & s' & Hx'); [|by eapply versioned_not_nil].
    rewrite Hes'. apply elem_of_app. by left. }
  destruct (dropped_entry ucmp in_mem smallest may es e); cbn [app] in Hk.
  - eexists. split; [reflexivity|]. rewrite app_nil_r in Hk.
    split; cbn [current_user_key last_sequence_for_key run_builder run_result count_dropped result_smallest_key
      result_largest_key deletion_keys]; rewrite ?Hk; try done.
    + rewrite last_snoc. by split.
    + rewrite Hdr, zlen_app, zlen_cons, zlen_nil. unfold wrap. rewrite Zplus_mod_idemp_l. f_equal. lia.
  - eexists. split; [reflexivity|]. rewrite Hk in Hsub, Hne.
    destruct (key_ends ucmp (keep pre) e [] Hsub Hne) as [E1 E2]. cbn [fst] in E1, E2.
    split; cbn [current_user_key last_sequence_for_key run_builder run_result count_kept result_smallest_key
      result_largest_key deletion_keys]; rewrite ?Hk.
    + rewrite last_snoc. by split.
    + rewrite Hb. unfold add_all. by rewrite fold_left_app.
    + rewrite Hsm. exact E2.
    + rewrite Hlg. exact E1.
    + rewrite Hdr, !zlen_app, !zlen_cons, !zlen_nil. f_equal. lia.
Qed.
Lemma run_loop_after b0 pre rest st fuel (merger : Merged (I := I)) :
  run_ok -> es = pre ++ rest -> after b0 pre st ->
  runs (Iterator0 := merged_ops ucmp) (it_Next (Iterator := merged_ops ucmp)) merger rest -> (length rest <= fuel)%nat ->
  exists st', run_loop ucmp GetKeyFilter fuel c merger st = Done (kOk, st') /\ after b0 es st'.
Proof.
  intros Hok. revert pre st fuel merger. induction rest as [|e rest IH]; intros pre st fuel merger Hes Ha Hr Hf.
  { cbn [runs] in Hr. rewrite app_nil_r in Hes. subst pre. exists st. split; [|done]. destruct fuel; cbn [run_loop]; by rewrite Hr. }
  destruct Hr as (Hv & Hc & m' & Hn & Hr). destruct fuel as [|fuel]; cbn in Hf; [lia|]. cbn [run_loop].
  rewrite Hv, Hc. cbn [ofopt obind]. destruct (run_entry_after b0 pre e rest st Hok Hes Ha) as (st1 & -> & Ha1). cbn [obind].
  change (negb (ok kOk)) with false. cbn iota. rewrite Hn. cbn [obind].
  apply (IH (pre ++ [e]) st1 fuel m'); [by rewrite <- app_assoc | done | done | lia].
Qed.
End running.

(** ** Lookups in what is kept *)

Section lookups.
Context (ucmp : bytes -> bytes -> Z) `{!ComparatorLaws ucmp, !ComparatorExact ucmp}.

#[local] Abbreviation icmp := (InternalCompare ucmp).

Lemma sorted_same (l : list kv) a b :
  StronglySorted (kv_lt icmp) l -> a ∈ l -> b ∈ l -> icmp (fst a) (fst b) = 0 -> a = b.
Proof.
  intros Hs [i Ha]%list_elem_of_lookup [j Hb]%list_elem_of_lookup E0.
  destruct (Nat.lt_trichotomy i j) as [Hij|[->|Hij]]; [exfalso | congruence | exfalso].
  - pose proof (sorted_lookup icmp l i j a b Hs Hij Ha Hb) as Hlt. unfold kv_lt in Hlt. lia.
  - pose proof (sorted_lookup icmp l j i b a Hs Hij Hb Ha) as Hlt. unfold kv_lt in Hlt.
    apply (cmp_eq_sym icmp) in E0. lia.
Qed.

(** The newest entry of its user key that a late snapshot sees is kept. *)
Lemma newest_kept in_mem smallest may es sq e :
  Forall (fun e => exists u s, versioned u s e) es ->
  Forall (fun e => old_deletion smallest e = true -> may (fst e) = false) es ->
  e ∈ es -> in_mem (user e) = false -> smallest <= sq ->
  (forall u s e', e' ∈ es -> versioned u s e' -> ucmp u (user e) = 0 -> s <= sq -> s <= seq_of e) ->
  e ∈ kept ucmp in_mem smallest may es.
Proof.
  intros Hv Hmay He Hm Hsq Hmax. apply list_elem_of_filter. split; [|done]. unfold dropped_entry. rewrite Hm. cbn [orb].
  apply orb_false_iff. rewrite Forall_forall in Hv, Hmay. split.
  - apply not_true_iff_false. intros Hx. apply existsb_exists in Hx as (e' & He' & Hc). rewrite !andb_true_iff in Hc.
    destruct Hc as [[Hu%Z.eqb_eq Hlt%Z.ltb_lt] Hsm%Z.leb_le]. apply list_elem_of_In in He'.
    destruct (Hv e' He') as (u' & s' & Hv'). pose proof Hv' as (f' & w' & Ee & Ht').
    assert (Hp : parsed (fst e') = (u', mkTag s' f')) by (rewrite Ee; cbn [fst]; by rewrite parsed_MakeKey).
    assert (Hu' : user e' = u') by (unfold user; by rewrite Hp).
    assert (Hs' : seq_of e' = s') by (unfold seq_of; by rewrite Hp).
    rewrite Hu' in Hu. rewrite Hs' in Hlt, Hsm. specialize (Hmax u' s' e' He' Hv' Hu ltac:(lia)). lia.
  - specialize (Hmay e He). destruct (old_deletion smallest e); [|done]. cbn [andb]. by apply Hmay.
Qed.

(** Two entries of a sorted list for the same user key and version. *)
Lemma same_entry (es : list kv) u t1 t2 (v1 v2 : bytes) :
  StronglySorted (kv_lt icmp) es -> tag_ok t1 -> tag_ok t2 -> sequence_number t1 = sequence_number t2 ->
  (MakeKey u (sequence_number t1) (flag t1), v1) ∈ es -> (MakeKey u (sequence_number t2) (flag t2), v2) ∈ es ->
  (t1, v1) = (t2, v2).
Proof.
  intros Hs [H1 H1'] [H2 H2'] Es Hin1 Hin2. destruct t1 as [s1 f1], t2 as [s2 f2]. cbn in *. subst s2.
  assert (Ee : (MakeKey u s1 f1, v1) = (MakeKey u s1 f2, v2)).
  { apply (sorted_same es); [done..|]. cbn [fst]. rewrite InternalCompare_MakeKey by done.
    rewrite (cmp_refl (cmp := ucmp)). cbn [Z.eqb negb]. case_cmps. }
  injection Ee as Ek Ev. pose proof (parsed_MakeKey u s1 f1 (conj H1 H1')) as Ep. rewrite Ek, parsed_MakeKey in Ep by done.
  injection Ep as Ef. by subst.
Qed.

Lemma kept_lookup in_mem smallest may es uk sq fl :
  StronglySorted (kv_lt icmp) es -> Forall (fun e => exists u s, versioned u s e) es ->
  Forall (fun e => old_deletion smallest e = true -> may (fst e) = false) es ->
  tag_ok (mkTag sq fl) -> in_mem uk = false -> smallest <= sq ->
  table_get ucmp (MakeKey uk sq fl) (kept ucmp in_mem smallest may es) = table_get ucmp (MakeKey uk sq fl) es.
Proof.
  intros Hs Hv Hmay Ht Hm Hsq. set (ks := kept ucmp in_mem smallest may es).
  assert (Hsub : forall e, e ∈ ks -> e ∈ es) by (intros e He; by apply list_elem_of_filter in He as [_ He]).
  assert (Hsk : StronglySorted (kv_lt icmp) ks) by (eapply StronglySorted_sublist; [apply sublist_filter | done]).
  assert (Hvk : Forall (fun e => exists u s, versioned u s e) ks).
  { rewrite Forall_forall in *. intros e He. by apply Hv, Hsub. }
  assert (Hver : forall t v, tag_ok t -> versioned uk (sequence_number t) (MakeKey uk (sequence_number t) (flag t), v))
    by (intros t v Hok; exists (flag t), v; by destruct t).
  pose proof (table_get_visible ucmp uk sq fl es Ht Hs Hv) as H1.
  pose proof (table_get_visible ucmp uk sq fl ks Ht Hsk Hvk) as H2.
  destruct (table_get ucmp (MakeKey uk sq fl) es) as [e1|[t1 v1]], (table_get ucmp (MakeKey uk sq fl) ks) as [e2|[t2 v2]].
  - by destruct H1 as [-> _], H2 as [-> _].
  - destruct H1 as [_ Hn], H2 as ((u & Ht2 & Hin & Hu) & Hle & _). apply cmp_exact in Hu. subst u.
    specialize (Hn uk _ _ (Hsub _ Hin) (Hver t2 v2 Ht2) ltac:(by apply cmp_refl)). lia.
  - destruct H1 as ((u & Ht1 & Hin & Hu) & Hle & Hmax), H2 as [_ Hn]. apply cmp_exact in Hu. subst u.
    assert (Hp : parsed (MakeKey uk (sequence_number t1) (flag t1)) = (uk, t1)) by (rewrite parsed_MakeKey; by destruct t1).
    assert (Hk : (MakeKey uk (sequence_number t1) (flag t1), v1) ∈ ks).
    { apply (newest_kept in_mem smallest may es sq); try done; unfold user, seq_of; cbn [fst]; by rewrite Hp. }
    specialize (Hn uk _ _ Hk (Hver t1 v1 Ht1) ltac:(by apply cmp_refl)). lia.
  - destruct H1 as ((u & Ht1 & Hin & Hu) & Hle & Hmax). apply cmp_exact in Hu. subst u.
    destruct H2 as ((u & Ht2 & Hin2 & Hu) & Hle2 & Hmax2). apply cmp_exact in Hu. subst u.
    assert (Hp : parsed (MakeKey uk (sequence_number t1) (flag t1)) = (uk, t1)) by (rewrite parsed_MakeKey; by destruct t1).
    assert (Hk : (MakeKey uk (sequence_number t1) (flag t1), v1) ∈ ks).
    { apply (newest_kept in_mem smallest may es sq); try done; unfold user, seq_of; cbn [fst]; by rewrite Hp. }
    pose proof (Hmax uk _ _ (Hsub _ Hin2) (Hver t2 v2 Ht2) ltac:(by apply cmp_refl) Hle2).
    pose proof (Hmax2 uk _ _ Hk (Hver t1 v1 Ht1) ltac:(by apply cmp_refl) Hle).
    f_equal. symmetry. apply (same_entry es uk); [done..| lia | done | by apply Hsub].
Qed.
End lookups.

(** ** The run *)

Section run.
Context {F I T : Type} `{!WritableFile F, !WritableFileLaws F, !ReliableFile F, !Iterator I, !MemTable T}.
Context (ucmp : bytes -> bytes -> Z) `{!ComparatorLaws ucmp}.
Context (GetKeyFilter : Z -> outcome (error + KeyBloomFilter)).

#[local] Abbreviation icmp := (InternalCompare ucmp).

(** A finished builder has no error. *)
Lemma sb_Finish_error (b b' : SstTableBuilder F) : sb_Finish b = Done (kOk, b') -> error_ b' = kOk.
Proof.
  assert (Hfail : forall e (x y : SstTableBuilder F), e <> kOk -> Done (e, x) = Done (kOk, y) -> error_ y = kOk)
    by (intros e x y He Hx; by injection Hx as ->).
  unfold sb_Finish. destruct (block_builder_ b), (index_builder_ b), (filter_builder_ b); try (intros H; discriminate H).
  repeat match goal with
  | |- context [let '(_, _) := ?x in _] => destruct x as [? ?]
  | |- (if negb _ && negb (ok ?e) then _ else _) = _ -> _ => rewrite <- negb_orb; destruct (ok_spec e); rewrite ?orb_true_r, ?orb_false_r
  | |- (if negb (ok ?e) then _ else _) = _ -> _ => destruct (ok_spec e)
  | |- (if negb (zlen ?x =? 0) then _ else _) = _ -> _ => destruct (zlen x =? 0)
  | |- Done (?e, _) = _ -> _ => first [by apply Hfail | intros H; apply Done_inj in H; injection H as <-; done]
  | |- (if negb true then _ else _) = _ -> _ => cbn [negb]
  | |- (if negb false then _ else _) = _ -> _ => cbn [negb]
  | |- _ => progress cbv zeta
  end.
Qed.

Context (c : CompactionImpl I T) (in_mem : bytes -> bool) (may : bytes -> bool) (es : list kv).
Context (n : nat) (file : F) (block_size approx : Z) (fuel : nat).

#[local] Abbreviation smallest := (smallest_snapshot c).
#[local] Abbreviation keep := (kept ucmp in_mem smallest may es).
#[local] Abbreviation b0 := (NewSstTableBuilder file block_size (Z.of_nat n) approx).

(** The inputs can be read: each is placed before its own sorted entries, [es]
    are all of them, and a table can be made of them. *)
Record run_input (ess : list (list kv)) : Prop := {
  ri_error : Forall (fun i => it_error i = kOk) (original_input c);
  ri_some : original_input c <> [];
  ri_places : Forall2 (places it_SeekToFirst) (original_input c) ess;
  ri_sorted : Forall (StronglySorted (kv_lt icmp)) ess;
  ri_all : es ≡ₚ concat ess;
  ri_table : sst_input ucmp n file block_size approx es;
  ri_versions : Forall (fun e => seq_of e <> 0) es;
  ri_fuel : (length es <= fuel)%nat;
  ri_kept : keep <> [];
}.

Lemma kept_input ess : run_input ess -> sst_input ucmp n file block_size approx keep.
Proof.
  intros [_ _ _ _ _ [[I1 I2 I3 I4 I5 I6 I7 I8 I9 I11] I10] Hne _ Hk].
  assert (Hsub : sublist keep es) by apply sublist_filter.
  assert (Hin : forall e, e ∈ keep -> e ∈ es) by (intros e He; by apply list_elem_of_filter in He as [_ He]).
  rewrite Forall_forall in I8, I9, Hne. split; [split; try done|].
  - unfold zlen in *. pose proof (sublist_length _ _ Hsub). lia.
  - apply Forall_forall. intros e He. by apply I8, Hin.
  - apply Forall_forall. intros e He. by apply I9, Hin.
  - by eapply StronglySorted_sublist.
  - intros e es' E. assert (He : e ∈ keep) by (rewrite E; by left). apply Hin in He. destruct (I9 e He) as (u & s & Hv).
    exists u, s. split; [done|]. intros ->. apply (Hne e He). destruct Hv as (f & v & -> & Ht).
    unfold seq_of. cbn [fst]. by rewrite parsed_MakeKey.
Qed.

Lemma merger_error ess : run_input ess -> it_error (Iterator := merged_ops ucmp) (NewMergingIterator (original_input c)) = kOk.
Proof.
  intros Hri. exact (NewMerging_error _ _ (ri_some _ Hri) (ri_error _ Hri)).
Qed.

Lemma Run_kept ess :
  run_ok ucmp GetKeyFilter c in_mem may es -> run_input ess ->
  exists b result, Run ucmp GetKeyFilter fuel c b0 = Done (kOk, b, result) /\
    sb_Finish (add_all ucmp keep b0) = Done (kOk, b) /\
    result_smallest_key result = first_key keep /\ result_largest_key result = final_key keep /\
    compacted_n_entries result = zlen keep /\ deletion_keys result = zlen es - zlen keep.
Proof.
  intros Hok Hri. pose proof (kept_input ess Hri) as Hin. pose proof (merger_error ess Hri) as He.
  pose proof Hri as [_ Hsome Hpl Hss Hp Htab _ Hf _]. pose proof (InternalCompare_laws ucmp) as Hl.
  destruct (merged_places icmp (fun J H => @it_SeekToFirst J H) (original_input c) ess ltac:(by left) Hsome Hpl)
    as (l & Hpl' & Hsl & it & Hseek & Hfw).
  { eapply Forall_impl; [exact Hss|]. intros x Hx. eapply StronglySorted_impl; [|exact Hx]. unfold kv_lt, kv_le. lia. }
  rewrite <- Hp in Hpl'. rewrite (sorted_unique ucmp es l (in_sorted _ _ _ _ _ _ Htab) Hsl Hpl') in *.
  unfold Run. rewrite He. change (negb (ok kOk)) with false. cbn iota.
  change (it_SeekToFirst (Iterator := merged_ops ucmp) (NewMergingIterator (original_input c)) = Done it) in Hseek.
  rewrite Hseek. cbn [obind].
  set (st0 := mkRun None kMaxSequenceNumber ([], mkTag 0 0) b0 NewResult).
  assert (Ha0 : after ucmp c in_mem may es b0 [] st0) by (by split).
  destruct (run_loop_after ucmp GetKeyFilter c in_mem may es b0 [] es st0 fuel it Hok eq_refl Ha0 Hfw Hf)
    as (st & -> & [_ Hb Hsm Hlg Hdr]). cbn [obind]. change (negb (ok kOk)) with false. cbn iota.
  change (kept_of ucmp in_mem smallest may es es) with keep in *.
  destruct (sst_answers ucmp n file block_size approx keep true _ Hin) as (b & Eb & _). rewrite Hb, Eb. cbn [obind].
  change (negb (ok kOk)) with false. cbn iota. rewrite (sb_Finish_error _ _ Eb).
  eexists _, _. split; [reflexivity|]. cbn [set_n_entries result_smallest_key result_largest_key compacted_n_entries deletion_keys].
  pose proof (in_count _ _ _ _ _ _ Hin) as Hc1. pose proof (in_count _ _ _ _ _ _ Htab) as Hc2.
  pose proof (zlen_nonneg keep). assert (Hle : zlen keep <= zlen es).
  { unfold zlen. pose proof (sublist_length keep es ltac:(apply sublist_filter)). lia. }
  split_and!; [done..| |].
  - destruct (add_all_inv ucmp n _ b0 keep (sb_inv_new n file block_size approx (in_file _ _ _ _ _ _ Hin))
      (in_versions _ _ _ _ _ _ Hin) (in_first _ _ _ _ _ _ Hin)) as (bs & cur & Hinv).
    unfold sb_NumEntries. destruct (v_props _ _ _ _ _ _ Hinv) as (_ & _ & _ & _ & ->). apply wrap_small. unfold is_u. lia.
  - rewrite Hdr. apply wrap_small. unfold is_u. lia.
Qed.

(** C16: A compaction leaves out no entry a reader may need, provided that its
    target is not the last level ([last_level_deletion]) and that no filter of a
    lower level admits the key of an old deletion: of the old deletions the code
    drops just those that a lower level may still need ([deletion_resurrects]).
    The inputs are sorted, their entries have versions from 1 on, and some entry
    is kept.  On a reliable file [Run] succeeds; its result has the first and the
    last key and the number of the entries it kept; and the table it writes, when
    it is smaller than 4 GiB, answers a lookup at a version not older than the
    oldest snapshot as the merge of the inputs does, for every user key that no
    memory table has. *)
Theorem Run_keeps_lookups `{!ComparatorExact ucmp} ess :
  run_ok ucmp GetKeyFilter c in_mem may es -> run_input ess ->
  Forall (fun e => old_deletion smallest e = true -> may (fst e) = false) es ->
  exists b result, Run ucmp GetKeyFilter fuel c b0 = Done (kOk, b, result) /\
    result_smallest_key result = first_key keep /\ result_largest_key result = final_key keep /\
    compacted_n_entries result = zlen keep /\ deletion_keys result = zlen es - zlen keep /\
    (zlen (contents (fw_file (sb_writer b))) < 2 ^ 32 ->
     exists r, Prepare (contents (fw_file (sb_writer b))) true = Done (inr r) /\
       forall verify uk sq fl, tag_ok (mkTag sq fl) -> in_mem uk = false -> smallest <= sq ->
         sr_Get ucmp verify (MakeKey uk sq fl) r = Done (table_get ucmp (MakeKey uk sq fl) es)).
Proof.
  intros Hok Hri Hmay. destruct (Run_kept ess Hok Hri) as (b & result & Erun & Eb & H1 & H2 & H3 & H4).
  exists b, result. split_and!; [done..|]. intros Hlt. pose proof (kept_input ess Hri) as Hin.
  destruct (sst_answers ucmp n file block_size approx keep true _ Hin) as (b' & Eb' & Hb').
  rewrite Eb in Eb'. apply Done_inj in Eb'. injection Eb' as <-.
  destruct (Hb' Hlt) as (r & Hp & Hg & _). exists r. split; [done|]. intros verify uk sq fl Ht Hm Hsq. rewrite Hg by done. f_equal.
  destruct Hok. by apply kept_lookup.
Qed.
End run.

(** ** Two inputs *)

#[local] Instance sample_ops : MemTable OrderedTable := Ordered_ops [3; 0; 1; 2; 4; 0; 0; 1] (fun _ => true).
#[local] Instance sample_cursor : Iterator Cursor := Cursor_ops (InternalCompare lex).

(** A memory table with the key [99]. *)
Definition compaction_mem : OrderedTable :=
  match mt_Put [99] [7] 8 0 (mt_New lex) with Done t => t | _ => mt_New lex end.

Definition compaction_inputs : list (list kv) :=
  [[(MakeKey [97] 5 0, [2]); (MakeKey [98] 4 1, [])]; [(MakeKey [97] 3 0, [1]); (MakeKey [99] 2 0, [4])]].

Definition compaction_entries : list kv :=
  [(MakeKey [97] 5 0, [2]); (MakeKey [97] 3 0, [1]); (MakeKey [98] 4 1, []); (MakeKey [99] 2 0, [4])].

Definition compaction_to (level : nat) (v : Version) (inputs : list (list kv)) (mem : list OrderedTable) :
    CompactionImpl Cursor OrderedTable :=
  mkCompaction level 12 9 [] (map (fun es => mkCursor es None) inputs) v mem.

Definition no_filter (n : Z) : outcome (error + KeyBloomFilter) := Done (inl kIOError).

Lemma compaction_run_ok :
  run_ok lex no_filter (compaction_to 1 NewVersion compaction_inputs [compaction_mem])
    (fun k => bool_decide (k = [99])) (fun _ => false) compaction_entries.
Proof.
  split; [| |done|done| |].
  - repeat first [apply SSorted_cons | apply SSorted_nil | apply Forall_cons_2 | apply Forall_nil_2 | reflexivity].
  - repeat apply Forall_cons_2; [..|apply Forall_nil_2]; by eexists _, _, _, _.
  - intros e He. unfold compaction_entries in He. rewrite !elem_of_cons in He.
    destruct He as [->|[->|[->|[->|He%not_elem_of_nil]]]]; [..|done]; by vm_compute.
  - intros e He. unfold compaction_entries in He. rewrite !elem_of_cons in He.
    destruct He as [->|[->|[->|[->|He%not_elem_of_nil]]]]; [..|done]; by vm_compute.
Qed.

Lemma compaction_run_input :
  run_input lex (compaction_to 1 NewVersion compaction_inputs [compaction_mem])
    (fun k => bool_decide (k = [99])) (fun _ => false) compaction_entries 2 (mkMem []) 512 4 4 compaction_inputs.
Proof.
  split; [by repeat constructor | done | | | | | | cbn; lia | by vm_compute].
  - constructor; [apply cursor_SeekToFirst|]. constructor; [apply cursor_SeekToFirst|constructor].
  - repeat first [apply SSorted_cons | apply SSorted_nil | apply Forall_cons_2 | apply Forall_nil_2 | reflexivity].
  - by_compute.
  - apply tagged_input; [split; try done | reflexivity].
    + lia.
    + by repeat constructor.
    + repeat apply Forall_cons_2; [..|apply Forall_nil_2]; by eexists _, _, _, _.
    + repeat first [apply SSorted_cons | apply SSorted_nil | apply Forall_cons_2 | apply Forall_nil_2 | reflexivity].
  - by_compute.
Qed.

Lemma Run_keeps_lookups_witness :
  kept lex (fun k => bool_decide (k = [99])) 9 (fun _ => false) compaction_entries =
    [(MakeKey [97] 5 0, [2]); (MakeKey [98] 4 1, [])] /\
  exists b result,
    Run lex no_filter 4 (compaction_to 1 NewVersion compaction_inputs [compaction_mem])
      (NewSstTableBuilder (mkMem []) 512 2 4) = Done (kOk, b, result) /\
    result_smallest_key result = MakeKey [97] 5 0 /\ compacted_n_entries result = 2 /\ deletion_keys result = 2.
Proof.
  split; [by vm_compute|].
  destruct (Run_keeps_lookups lex no_filter (compaction_to 1 NewVersion compaction_inputs [compaction_mem])
    (fun k => bool_decide (k = [99])) (fun _ => false) compaction_entries 2 (mkMem []) 512 4 4 compaction_inputs
    compaction_run_ok compaction_run_input) as (b & result & E1 & E2 & _ & E3 & E4 & _).
  { repeat apply Forall_cons_2; done || apply Forall_nil_2. }
  exists b, result. split; [exact E1|]. split; [exact E2|]. split; [exact E3 | exact E4].
Defined.

(** ** What goes wrong *)

(** When the filter of a lower level admits an old deletion, the deletion is
    dropped, and the value it hid shows again.  (The filters hold user keys
    but are asked for internal keys, so that they mostly say no by mistake.) *)
Example deletion_resurrects :
  let full := mkBloom [0xffffffff] kBloomFilterHashs in
  let below := mkFile 3 (MakeKey [98] 4 0) (MakeKey [98] 2 0) 100 1 in
  let v : Version := [[]; []; [below]; []] in
  kept lex (fun _ => false) 9 (fun k => MayExists k full) [(MakeKey [98] 4 1, []); (MakeKey [99] 2 0, [4])] =
    [(MakeKey [99] 2 0, [4])] /\
  IsBaseLevelForKey lex (fun _ => Done (inr full)) 2 (MakeKey [98] 4 1) v = Done (kOk, true) /\
  MayExists (MakeKey [98] 4 1) (NewKeyBloomFilter (fb_Finish (AddKey [98] (NewFilterBlockBuilder 508 kBloomFilterHashs))) kBloomFilterHashs) = false.
Proof. vm_compute. done. Qed.

(** In the last level a deletion that is kept becomes an empty value. *)
Example last_level_deletion :
  match run_entry (F := MemFile) lex no_filter (compaction_to 3 NewVersion [] []) (MakeKey [98] 4 1, [])
    (mkRun None kMaxSequenceNumber ([], mkTag 0 0) (NewSstTableBuilder (mkMem []) 512 2 4) NewResult) with
  | Done (kOk, st) => bb_buf <$> block_builder_ (run_builder st) =
      bb_buf <$> block_builder_ (sb_Add lex (MakeKey [98] 0 0) [] (NewSstTableBuilder (mkMem []) 512 2 4))
  | _ => False
  end.
Proof. vm_compute. reflexivity. Qed.

(** When the memory tables have every key of the inputs nothing is added to the
    builder, and its [Finish] is not defined. *)
Example all_in_memory :
  Run lex no_filter 2 (compaction_to 1 NewVersion [[(MakeKey [99] 2 0, [4])]] [compaction_mem])
    (NewSstTableBuilder (mkMem []) 512 2 1) = Undef.
Proof. vm_compute. reflexivity. Qed.
