(* ===== verification/DBCompact.v ===== *)
(** * DBCompact

    src/db/db-impl.cc, src/db/table-cache.cc and src/db/snapshot-impl.h: the
    background work of a family.  [BackgroundCompaction] flushes the immutable
    tables, picks the files of one compaction, merges them ([CompactFileTable])
    and records the result in the manifest; [SnapshotList] says which versions
    readers may still ask for.

    The tables of the families are sorted tables ([Sst]).  The score of a version is a [double];
    whether it reached 1 and the level that goes with it are the parameter
    [score]. *)

From S2P Require Import Prelude Slice Keys Entries Iterator Merging IO Files WriteBatch WAL Patch Version VersionSet MemoryTable DBImpl DBSpec DBOpen Table Block Sst SstIterator DBFlush Compaction.

(** ** SnapshotList

    The nodes behind [dummy_], the oldest first.  A node stands for its
    address. *)
Record SnapshotImpl := mkSnapshot { snapshot_node : nat; snapshot_sequence_number : Z; unix_time_ : Z }.
Record SnapshotList := mkSnapshots { next_node : nat; snapshots : list SnapshotImpl }.

Definition NewSnapshotList : SnapshotList := mkSnapshots 0 [].

Definition NewSnapshot (sequence_number unix_time : Z) (l : SnapshotList) : SnapshotImpl * SnapshotList :=
  let x := mkSnapshot (next_node l) sequence_number unix_time in (x, mkSnapshots (S (next_node l)) (snapshots l ++ [x])).

Definition DeleteSnapshot (x : SnapshotImpl) (l : SnapshotList) : SnapshotList :=
  mkSnapshots (next_node l) (filter (fun y => snapshot_node y <> snapshot_node x) (snapshots l)).

(** [oldest]; of an empty list it is [dummy_], with version 0. *)
Definition oldest (l : SnapshotList) : Z :=
  match snapshots l with x :: _ => snapshot_sequence_number x | [] => 0 end.

Definition snapshots_empty (l : SnapshotList) : bool := bool_decide (snapshots l = []).

(** The snapshots are in the order of their versions, all of them up to
    [last]. *)
Definition snapshots_ok (last : Z) (l : SnapshotList) : Prop :=
  StronglySorted (fun x y => snapshot_sequence_number x <= snapshot_sequence_number y) (snapshots l) /\
  Forall (fun x => snapshot_sequence_number x <= last) (snapshots l).

Lemma NewSnapshot_ok last seq time l :
  snapshots_ok last l -> last <= seq -> snapshots_ok seq (snd (NewSnapshot seq time l)).
Proof.
  intros [Hs Hl] Hle. split; cbn.
  - apply StronglySorted_app_2; [|done|by repeat constructor]. intros x y Hx Hy%list_elem_of_singleton. subst y. cbn.
    rewrite Forall_forall in Hl. specialize (Hl x Hx). lia.
  - apply Forall_app. split; [|by repeat constructor; cbn; lia]. eapply Forall_impl; [exact Hl|]. cbn. lia.
Qed.

Lemma DeleteSnapshot_ok last x l : snapshots_ok last l -> snapshots_ok last (DeleteSnapshot x l).
Proof.
  intros [Hs Hl]. split; cbn.
  - eapply StronglySorted_sublist; [apply sublist_filter | exact Hs].
  - apply Forall_forall. intros y [_ Hy]%list_elem_of_filter. rewrite Forall_forall in Hl. by apply Hl.
Qed.

Lemma oldest_least last l x : snapshots_ok last l -> x ∈ snapshots l -> oldest l <= snapshot_sequence_number x.
Proof.
  intros [Hs _] Hx. unfold oldest. destruct (snapshots l) as [|y ys]; [by apply not_elem_of_nil in Hx|].
  apply elem_of_cons in Hx as [->|Hx]; [done|]. apply StronglySorted_inv in Hs as [_ Hf]. rewrite Forall_forall in Hf.
  by apply Hf.
Qed.

Section db_compact.
Context {E F T I : Type} `{!WritableFile F, !EnvOps E F, !DirOps E, !FileOps E F, !FlushOps E F}.
Context `{!MemTable T, !Iterator I, !MemScan T I}.
Context (abs_db_path_ : bytes) (options_ : ColumnFamilyOptions).
Context (score : Version -> bool * nat).

#[local] Abbreviation DB := (DBImpl E F T).

(** [GetSnapshot], [ReleaseSnapshot] *)
Definition GetSnapshot (l : SnapshotList) (db : DB) : SnapshotImpl * SnapshotList :=
  NewSnapshot (last_sequence_number (versions_ db)) (CurrentTimeMicros (F := F) (env_ db) / 1000) l.
Definition ReleaseSnapshot (x : SnapshotImpl) (l : SnapshotList) : SnapshotList := DeleteSnapshot x l.

(** *** The table cache *)

(** [TableCache::NewIterator]; a table that cannot be loaded is an error
    iterator. *)
Definition tc_NewIterator (verify_checksums : bool) (f : ColumnFamilyImpl) (file_number : Z) (env : E) :
    outcome (error + SstIterator) :=
  (do! table := LoadTable (F := F) abs_db_path_ f file_number env in
   match table with
   | inl rs => Done (inl rs)
   | inr r => do! it := NewIterator verify_checksums r in Done (inr it)
   end)%out.

Definition tc_GetTableProperties (f : ColumnFamilyImpl) (file_number : Z) (env : E) : outcome (error + TableProperties) :=
  (do! table := LoadTable (F := F) abs_db_path_ f file_number env in
   match table with inl rs => Done (inl rs) | inr r => Done (inr (sr_props r)) end)%out.

Definition tc_GetKeyFilter (f : ColumnFamilyImpl) (env : E) (file_number : Z) : outcome (error + KeyBloomFilter) :=
  (do! table := LoadTable (F := F) abs_db_path_ f file_number env in
   match table with inl rs => Done (inl rs) | inr r => Done (inr (sr_filter r)) end)%out.

(** *** CompactFileTable *)

(** The number of entries of the inputs. *)
Fixpoint count_entries (f : ColumnFamilyImpl) (files : list FileMetaData) (env : E) (n_entries : Z) :
    outcome (error + Z) :=
  match files with
  | [] => Done (inr n_entries)
  | fmd :: files =>
    (do! boundle := tc_GetTableProperties f (number fmd) env in
     match boundle with
     | inl rs => Done (inl rs)
     | inr props => count_entries f files env (wrap 64 (n_entries + num_entries props))
     end)%out
  end.

(** The iterators over the inputs of a level, and the patch that deletes the
    files. *)
Fixpoint add_inputs (f : ColumnFamilyImpl) (level : nat) (files : list FileMetaData) (env : E) (patch : VersionPatch)
    (inputs : list (error + SstIterator)) : outcome (error * VersionPatch * list (error + SstIterator)) :=
  match files with
  | [] => Done (kOk, patch, inputs)
  | fmd :: files =>
    (do! iter := tc_NewIterator true f (number fmd) env in
     let rs := it_error (Iterator := sum_Iterator (H := SstIterator_ops (comparator_Compare (cf_options f)))) iter in
     if negb (ok rs) then Done (rs, patch, inputs)
     else add_inputs f level files env (Patch.DeleteFile (cf_id f) (Z.of_nat level) (number fmd) patch) (inputs ++ [iter]))%out
  end.

(** [CompactFileTable] of family [i]: the error, the patch of the context and
    the database.  The merge takes a turn for every entry of its inputs. *)
Definition CompactFileTable (l : SnapshotList) (i : nat) (ctx : CompactionContext) (patch : VersionPatch) (db : DB) :
    outcome (error * VersionPatch * DB) :=
  (do! cfd := ofopt (families (cfs (versions_ db)) !! i) in
   do! t := ofopt (tables_ db !! i) in
   let ucmp := comparator_Compare (cf_options cfd) in
   do! n0 := count_entries cfd (inputs0 ctx) (env_ db) 0 in
   match n0 with inl rs => Done (rs, patch, db) | inr n0 =>
   do! n1 := count_entries cfd (inputs1 ctx) (env_ db) n0 in
   match n1 with inl rs => Done (rs, patch, db) | inr n_entries =>
   let '(file_number, v) := GenerateFileNumber (versions_ db) in
   let db := set_versions v db in
   let smallest := if snapshots_empty l then last_sequence_number (versions_ db) else oldest l in
   do! (rs, patch, inputs) := add_inputs cfd (ctx_level ctx) (inputs0 ctx) (env_ db) patch [] in
   if negb (ok rs) then Done (rs, patch, db) else
   do! (rs, patch, inputs) := add_inputs cfd (ctx_level ctx + 1) (inputs1 ctx) (env_ db) patch inputs in
   if negb (ok rs) then Done (rs, patch, db) else
   let job := mkCompaction (ctx_level ctx + 1) file_number smallest
     (default [] (cf_compaction_point cfd !! ctx_level ctx)) inputs (current cfd)
     (q_PeekAll (map fst (immutable_pipeline_ t)) [mutable_ t]) in
   let name := GetTableFileName abs_db_path_ cfd (env_ db) file_number in
   match NewWritableFile name (env_ db) with
   | (inl rs, e) => Done (rs, patch, set_env e (set_versions (ReuseFileNumber file_number (versions_ db)) db))
   | (inr file, e) =>
     let db := set_env e db in
     let builder := NewSstTableBuilder file (options_block_size (cf_options cfd))
       (block_restart_interval (cf_options cfd)) n_entries in
     do! (rs, builder, result) := Run (Iterator0 := sum_Iterator (H := SstIterator_ops ucmp)) ucmp (tc_GetKeyFilter cfd e)
       (Z.to_nat n_entries) job builder in
     if negb (ok rs) then Done (rs, patch, close_table name (sb_Abandon Truncate0 builder) db) else
     let fmd := mkFile file_number (result_smallest_key result) (result_largest_key result)
       (sb_FileSize FileSizeOf builder) (CurrentTimeMicros (F := F) (env_ db)) in
     Done (kOk, CreateFile (cf_id cfd) (Z.of_nat (target_level job)) fmd patch, close_table name builder db)
   end end end)%out.

(** [set_background_error] of family [i]. *)
Definition set_background_error (i : nat) (rs : error) (db : DB) : DB :=
  update_tables i (fun t => mkTables (mutable_ t) (immutable_pipeline_ t) rs (background_progress_ t)) db.

(** [PickCompaction] of family [i]: the context with the compaction point in its
    patch, and the family with its new point. *)
Definition pick (i : nat) (db : DB) : outcome (option (CompactionContext * VersionPatch) * DB) :=
  (do! cfd := ofopt (families (cfs (versions_ db)) !! i) in
   let '(needs, level) := score (current cfd) in
   do! r := PickCompaction (comparator_Compare (cf_options cfd)) needs level (current cfd) (cf_compaction_point cfd) in
   match r with
   | None => Done (None, db)
   | Some (ctx, points) =>
     Done (Some (ctx, SetCompactionPoint (cf_id cfd) (Z.of_nat (ctx_level ctx)) (ctx_point ctx) NewVersionPatch),
       set_versions (set_cfs (update_family i (set_points points) (cfs (versions_ db))) (versions_ db)) db)
   end)%out.

(** A compaction: the tables, then the manifest; [None] when the background
    work ends there with an error. *)
Definition compact_files (l : SnapshotList) (i : nat) (ctx : CompactionContext) (patch : VersionPatch) (db : DB) :
    outcome (bool * DB) :=
  (do! (rs, patch, db) := CompactFileTable l i ctx patch db in
   if negb (ok rs) then Done (false, set_background_error i rs db) else
   do! (rs, v, e) := LogAndApply abs_db_path_ DefaultOptions patch (env_ db) (versions_ db) in
   let db := set_env e (set_versions v db) in
   if negb (ok rs) then Done (false, set_background_error i rs db) else Done (true, db))%out.

Definition set_bkg_error (rs : error) (db : DB) : DB :=
  mkDB (env_ db) (versions_ db) (tables_ db) (db_logger_ db) (log_file_number_ db) (flush_request_ db) (bkg_active_ db)
    rs (shutting_down_ db) (total_wal_size_ db).

Definition BackgroundCompaction (l : SnapshotList) (i : nat) (db : DB) : outcome DB :=
  (do! t := ofopt (tables_ db !! i) in
   do! (rs, db) := (if q_InProgress (immutable_pipeline_ t) then CompactMemoryTable (I := I) abs_db_path_ i db
                    else Done (kOk, db)) in
   if negb (ok rs) then Done (set_background_error i rs db) else
   do! (ctx, db) := pick i db in
   do! (more, db) := match ctx with
                     | Some (ctx, patch) => compact_files l i ctx patch db
                     | None => Done (true, db)
                     end in
   if negb more then Done db else
   do! db := DeleteObsoleteFiles abs_db_path_ i db in
   match GetTotalWalSize abs_db_path_ (env_ db) with
   | inl rs => Done (set_bkg_error rs db)
   | inr wal_size => Done (set_wal_size wal_size (set_bkg_error kOk db))
   end)%out.

(** [BackgroundWork]: the work, unless the database shuts down, and the next. *)
Definition BackgroundWork (needs_compaction : Version -> bool) (l : SnapshotList) (i : nat) (db : DB) : outcome DB :=
  (do! db := (if shutting_down_ db then Done db else BackgroundCompaction l i db) in
   let db := mkDB (env_ db) (versions_ db) (tables_ db) (db_logger_ db) (log_file_number_ db) (flush_request_ db)
     (bkg_active_ db - 1) (bkg_error_ db) (shutting_down_ db) (total_wal_size_ db) in
   let db := update_tables i (fun t => mkTables (mutable_ t) (immutable_pipeline_ t) (background_error_ t) false) db in
   MaybeScheduleCompaction needs_compaction i db)%out.
End db_compact.

(** ** Reading the inputs *)

Lemma sum_places {J} `{Iterator J} (it : J) es :
  places it_SeekToFirst it es -> places it_SeekToFirst (inr it : error + J) es.
Proof. intros (it' & E & Hf). exists (inr it'). split; [cbn; by rewrite E | by apply sum_runs]. Qed.

Section inputs.
Context {E F : Type} `{!WritableFile F, !EnvOps E F, !DirOps E, !FileOps E F, !FlushOps E F}.
Context (path : bytes) (f : ColumnFamilyImpl) (env : E).

#[local] Abbreviation ucmp := (comparator_Compare (cf_options f)).

(** The table with number [n] can be opened and holds the entries [es]. *)
Definition table_reads (n : Z) (es : list kv) : Prop :=
  exists r, LoadTable (F := F) path f n env = Done (inr r) /\ readable ucmp r es.

Lemma count_entries_ok contents files n :
  Forall (fun g => table_reads (number g) (contents (number g))) files -> 0 <= n ->
  n + zlen (concat (map (fun g => contents (number g)) files)) < 2 ^ 64 ->
  count_entries (F := F) path f files env n = Done (inr (n + zlen (concat (map (fun g => contents (number g)) files)))).
Proof.
  intros Hf. revert n. induction Hf as [|g files (r & Er & Hr) _ IH]; intros n Hn Hlt; cbn [count_entries map concat] in *.
  { by rewrite zlen_nil, Z.add_0_r. }
  rewrite zlen_app in *. unfold tc_GetTableProperties. rewrite Er. cbn [obind]. rewrite (rd_count _ _ _ Hr).
  pose proof (zlen_nonneg (contents (number g))). pose proof (zlen_nonneg (concat (map (fun g => contents (number g)) files))).
  rewrite wrap_small by (unfold is_u; lia). rewrite IH by lia. do 2 f_equal. lia.
Qed.

(** The patch that deletes files of a level. *)
Definition delete_files (level : nat) (files : list FileMetaData) (p : VersionPatch) : VersionPatch :=
  fold_left (fun p g => Patch.DeleteFile (cf_id f) (Z.of_nat level) (number g) p) files p.

#[local] Instance input_ops : Iterator (error + SstIterator) := sum_Iterator (H := SstIterator_ops ucmp).

Lemma add_inputs_ok contents level files p its :
  Forall (fun g => table_reads (number g) (contents (number g))) files ->
  exists news, add_inputs (F := F) path f level files env p its = Done (kOk, delete_files level files p, its ++ news) /\
    Forall2 (places it_SeekToFirst) news (map (fun g => contents (number g)) files) /\
    Forall (fun i => it_error i = kOk) news.
Proof.
  intros Hf. revert p its. induction Hf as [|g files (r & Er & Hr) _ IH]; intros p its; cbn [add_inputs map].
  { exists []. rewrite app_nil_r. by split_and!. }
  unfold tc_NewIterator. rewrite Er. cbn [obind]. destruct (rd_scan _ _ _ Hr true) as (it & it' & -> & He & Hs & Hfw). cbn [obind].
  cbv zeta. change (it_error (inr it)) with (si_error_ it). rewrite He. change (negb (ok kOk)) with false. cbn iota.
  destruct (IH (Patch.DeleteFile (cf_id f) (Z.of_nat level) (number g) p) (its ++ [inr it])) as (news & -> & Hp & Hne).
  exists (inr it :: news). rewrite <- app_assoc. split; [done|]. split; [|by constructor]. constructor; [|done].
  apply (sum_places (H := SstIterator_ops ucmp)). by exists it'.
Qed.

Lemma delete_files_fields level files p :
  file_deletion_ (delete_files level files p) =
    file_deletion_ p ++ map (fun g => mkDel (cf_id f) (Z.of_nat level) (number g)) files /\
  file_creation_ (delete_files level files p) = file_creation_ p /\
  (forall k, k <> kDeletion -> has_field k (delete_files level files p) = has_field k p).
Proof.
  unfold delete_files. revert p. induction files as [|g files IH]; intros p; cbn [fold_left map].
  { rewrite app_nil_r. by split_and!. }
  destruct (IH (Patch.DeleteFile (cf_id f) (Z.of_nat level) (number g) p)) as (-> & -> & Hk). cbn [Patch.DeleteFile file_deletion_ file_creation_].
  rewrite <- app_assoc. split_and!; [done..|]. intros k Hne. rewrite Hk by done. unfold has_field.
  cbn [Patch.DeleteFile fields_]. rewrite testbit_set_field by (by unfold kDeletion).
  destruct (Z.eqb_spec k kDeletion); [done | by rewrite orb_false_r].
Qed.
End inputs.

(** ** The new version *)

Section log_files.
Context {E F : Type} `{!WritableFile F, !WritableFileLaws F, !ReliableFile F, !EnvOps E F, !EnvReliable E F}.
Context (path : bytes) (options : ColumnFamilyOptions).

Lemma new_version_files icmp p q (v : Version) :
  file_creation_ p = file_creation_ q -> file_deletion_ p = file_deletion_ q -> new_version icmp p v = new_version icmp q v.
Proof. intros Hc Hd. unfold new_version, Apply. by rewrite Hc, Hd. Qed.

(** A patch that only changes files, of family [i]. *)
Lemma LogAndApply_files i f p (env : E) (v : VersionSet F) ps c cs w :
  manifest v ps -> has_field kRedoLog p = false -> has_field kDropColumnFamily p = false ->
  has_field kAddColumnFamily p = false -> has_field kCreation p = true -> file_creation_ p = c :: cs ->
  GetColumnFamily (fc_cfid c) (cfs v) = Some i -> families (cfs v) !! i = Some f ->
  new_version (InternalCompare (comparator_Compare (cf_options f))) p (current f) = Some w ->
  exists v' ps', LogAndApply path options p env v = Done (kOk, v', env) /\ manifest v' ps' /\
    cfs v' = update_family i (set_current w) (cfs v) /\
    last_sequence_number v' = last_sequence_number v /\ next_file_number v' = next_file_number v.
Proof.
  intros Hm Hr Hd Ha Hc Hcs Hid Hf Hw. unfold LogAndApply. set (q := fill_patch v p).
  destruct (fill_patch_keeps v p) as (_ & _ & _ & _ & Qc & Qd & _). fold q in Qc, Qd.
  assert (Q1 : has_field kAddColumnFamily q = false) by (unfold q; by rewrite has_field_fill, Ha).
  assert (Q2 : has_field kRedoLog q = false) by (unfold q; by rewrite has_field_fill, Hr).
  assert (Q3 : has_field kDropColumnFamily q = false) by (unfold q; by rewrite has_field_fill, Hd).
  assert (Q4 : has_field kCreation q = true) by (unfold q; by rewrite has_field_fill, Hc).
  unfold add_family. rewrite Q1. unfold apply_redo_log. rewrite Q2. cbn [ofopt obind]. unfold apply_drop. rewrite Q3.
  cbn [ofopt obind].
  pose proof Hm as (lw & Hlw & _). cbn [set_cfs logger_ set_numbers]. rewrite Hlw. cbn [obind].
  change (negb (ok kOk)) with false. cbn iota.
  destruct (WritePatch_manifest q (set_cfs (cfs v) v) ps Hm) as (v1 & -> & Hm1 & l & ->). cbn [obind].
  change (negb (ok kOk)) with false. cbn iota. cbn [set_logger set_cfs cfs].
  assert (Hfiles : apply_files q (cfs v) = Some (update_family i (set_current w) (cfs v))).
  { unfold apply_files. rewrite Q4, orb_true_r. unfold builder_cfd. rewrite Qc, Hcs. cbn [map app omap list_omap]. rewrite Hid. cbn [head mbind option_bind].
    rewrite Hf. cbn [mbind option_bind]. rewrite (new_version_files _ q p _ Qc Qd), Hw. done. }
  rewrite Hfiles. cbn [ofopt obind]. eexists _, _. split; [reflexivity|]. split; [exact Hm1|]. done.
Qed.
End log_files.

(** The numbers of the files that a compaction removes from a level. *)
Definition gone (ctx : CompactionContext) (l : nat) : list Z :=
  if decide (l = ctx_level ctx) then map number (inputs0 ctx)
  else if decide (l = S (ctx_level ctx)) then map number (inputs1 ctx) else [].

(** The version behind a compaction that made the file [fmd]. *)
Record compacted (ctx : CompactionContext) (fmd : FileMetaData) (v v' : Version) : Prop := {
  cv_length : length v' = kMaxLevel;
  cv_files : forall l, (l < kMaxLevel)%nat ->
    level_files v' l = filter (fun g => number g ∉ gone ctx l) (level_files v l) ++
                       (if decide (l = S (ctx_level ctx)) then [fmd] else []);
}.

Definition compact_patch (f : ColumnFamilyImpl) (ctx : CompactionContext) (fmd : FileMetaData) (p : VersionPatch) :
    VersionPatch :=
  CreateFile (cf_id f) (Z.of_nat (ctx_level ctx + 1)) fmd
    (delete_files f (ctx_level ctx + 1) (inputs1 ctx) (delete_files f (ctx_level ctx) (inputs0 ctx) p)).

Lemma map_filter_del (l : Z) (id lev : Z) (files : list FileMetaData) :
  map Patch.fd_number (filter (fun d => fd_level d = l) (map (fun g => mkDel id lev (number g)) files)) =
  if decide (lev = l) then map number files else [].
Proof.
  induction files as [|g files IH]; cbn [map]; [by destruct (decide _)|]. rewrite filter_cons. cbn [fd_level].
  destruct (decide (lev = l)); cbn [map]; by rewrite IH.
Qed.

Lemma new_version_compact icmp `{!ComparatorLaws icmp} (f : ColumnFamilyImpl) ctx fmd p (v : Version) :
  file_deletion_ p = [] -> file_creation_ p = [] -> length v = kMaxLevel -> (S (ctx_level ctx) < kMaxLevel)%nat ->
  Forall (fun g => number g <> number fmd) (concat v) ->
  exists v', new_version icmp (compact_patch f ctx fmd p) v = Some v' /\ compacted ctx fmd v v'.
Proof.
  intros Hd Hc Hlen Hlev Hnum. set (q := compact_patch f ctx fmd p).
  destruct (delete_files_fields f (ctx_level ctx) (inputs0 ctx) p) as (D1 & C1 & _). rewrite Hd, Hc in *.
  destruct (delete_files_fields f (ctx_level ctx + 1) (inputs1 ctx) (delete_files f (ctx_level ctx) (inputs0 ctx) p)) as (D2 & C2 & _).
  rewrite D1 in D2. rewrite C1 in C2.
  assert (Hcre : file_creation_ q = [mkCre (cf_id f) (Z.of_nat (ctx_level ctx + 1)) fmd]) by (unfold q, compact_patch; cbn; by rewrite C2).
  assert (Hdel : forall l, deleted_at q (Z.of_nat l) = gone ctx l).
  { intros l. unfold deleted_at, q, compact_patch. cbn [CreateFile file_deletion_]. rewrite D2. cbn [app].
    rewrite filter_app, map_app, !map_filter_del. unfold gone.
    destruct (decide (l = ctx_level ctx)) as [->|N1]; [rewrite decide_True by done; rewrite decide_False by lia; by rewrite app_nil_r|].
    rewrite (decide_False (P := Z.of_nat (ctx_level ctx) = Z.of_nat l)) by lia. cbn [app].
    destruct (decide (l = S (ctx_level ctx))); [by rewrite decide_True by lia | by rewrite decide_False by lia]. }
  assert (Hcr : forall l, created_at q (Z.of_nat l) = if decide (l = S (ctx_level ctx)) then [fmd] else []).
  { intros l. unfold created_at. rewrite Hcre, filter_cons. cbn [fc_level].
    destruct (decide (l = S (ctx_level ctx))); [by rewrite decide_True by lia | by rewrite decide_False by lia]. }
  destruct (new_version_spec icmp q v) as (v' & E & Hlen' & Hf); [split | exact Hlen |].
  - unfold q, compact_patch. cbn [CreateFile file_deletion_]. rewrite D2. cbn [app]. unfold in_levels, kMaxLevel in *.
    apply Forall_app. split; apply Forall_map, Forall_forall; intros g _; cbn; lia.
  - rewrite Hcre. unfold in_levels, kMaxLevel in *. repeat constructor; cbn; lia.
  - intros l. unfold created_at. rewrite Hcre, filter_cons. destruct (decide _); cbn; [apply NoDup_singleton | constructor].
  - exists v'. split; [exact E|]. split; [exact Hlen'|]. intros l Hl. destruct (Hf l Hl) as (sorted & Hp & _ & ->).
    rewrite Hcr in *. assert (sorted = if decide (l = S (ctx_level ctx)) then [fmd] else []) as ->.
    { destruct (decide _); [by apply Permutation_singleton_r | by apply Permutation_nil_r]. }
    f_equal. apply filter_iff_in. rewrite Hdel. intros g Hg. split; [|by left]. intros [Hn|Hn]; [done|].
    rewrite Forall_forall in Hnum. specialize (Hnum g (level_files_concat v l g Hg)).
    destruct (decide _); [by apply list_elem_of_singleton in Hn | by apply not_elem_of_nil in Hn].
Qed.

(** ** The order of the files *)

Lemma sort_filter (P : FileMetaData -> Prop) `{!forall x, Decision (P x)} (l : list FileMetaData) :
  NoDup (map ctime l) -> sort_newest (filter P l) = filter P (sort_newest l).
Proof.
  intros Hnd. assert (Htr : Transitive newer) by (intros a b c H1 H2; unfold newer in *; lia).
  assert (Hto : Total newer) by (intros a b; unfold newer; destruct (Z.le_ge_cases (ctime a) (ctime b)); auto).
  assert (Hp : sort_newest l ≡ₚ l) by apply merge_sort_Permutation.
  assert (Hpf : sort_newest (filter P l) ≡ₚ filter P l) by apply merge_sort_Permutation.
  apply (StronglySorted_unique_strong newer).
  - intros a b Ha Hb Hab Hba. unfold newer in *. rewrite Hpf in Ha. rewrite Hp in Hb.
    apply list_elem_of_filter in Ha as [_ [i Ha]%list_elem_of_lookup], Hb as [_ [j Hb]%list_elem_of_lookup].
    assert (i = j) as ->; [|congruence]. apply (NoDup_lookup _ _ _ (ctime a) Hnd).
    + by apply list_lookup_fmap_Some_2.
    + replace (ctime a) with (ctime b) by lia. by apply list_lookup_fmap_Some_2.
  - by apply StronglySorted_merge_sort.
  - eapply StronglySorted_sublist; [apply sublist_filter | by apply StronglySorted_merge_sort].
  - by rewrite Hpf, Hp.
Qed.

Lemma StronglySorted_insert {A} (R : A -> A -> Prop) (l1 : list A) x l2 :
  StronglySorted R (l1 ++ l2) -> Forall (fun y => R y x) l1 -> Forall (R x) l2 -> StronglySorted R (l1 ++ x :: l2).
Proof.
  intros Hs H1 H2. apply StronglySorted_app in Hs as (Ha & Hs1 & Hs2). apply StronglySorted_app_2; [|done|by constructor].
  intros y z Hy [->|Hz]%elem_of_cons; [rewrite Forall_forall in H1; by apply H1 | by apply Ha].
Qed.

Lemma concat_before {A} (R : A -> A -> Prop) (ls : list (list A)) i j x y :
  StronglySorted R (concat ls) -> (i < j)%nat -> x ∈ default [] (ls !! i) -> y ∈ default [] (ls !! j) -> R x y.
Proof.
  revert i j. induction ls as [|l ls IH]; intros i j Hs Hij Hx Hy; [by apply not_elem_of_nil in Hy|].
  cbn [concat] in Hs. destruct j as [|j]; [lia|]. cbn in Hy. destruct i as [|i]; cbn in Hx.
  - apply (StronglySorted_app_1_elem_of _ _ _ _ _ Hs Hx). apply list_elem_of_In, in_concat.
    destruct (ls !! j) as [l'|] eqn:El; [|by apply not_elem_of_nil in Hy]. exists l'.
    split; apply list_elem_of_In; [by eapply list_elem_of_lookup_2 | exact Hy].
  - apply StronglySorted_app in Hs as (_ & _ & Hs). apply (IH i j Hs); [lia | done..].
Qed.

Lemma lookup_order_concat (v : Version) :
  length v = kMaxLevel -> lookup_order v = concat (alter sort_newest 0%nat v).
Proof. by destruct v as [|l0 [|l1 [|l2 [|l3 [|]]]]]. Qed.

(** Files of an upper level are asked before those of a lower one. *)
Lemma levels_before (R : FileMetaData -> FileMetaData -> Prop) (v : Version) l l' x y :
  StronglySorted R (lookup_order v) -> length v = kMaxLevel -> (l < l')%nat -> x ∈ level_files v l -> y ∈ level_files v l' -> R x y.
Proof.
  intros Hs Hlen Hl Hx Hy. rewrite lookup_order_concat in Hs by done.
  apply (concat_before R (alter sort_newest 0%nat v) l l' x y Hs Hl).
  - unfold level_files in Hx. destruct l as [|l].
    + destruct v as [|l0 v]; [done|]. cbn in *. unfold sort_newest. by rewrite (merge_sort_Permutation newer).
    + by destruct v.
  - unfold level_files in Hy. destruct l' as [|l']; [lia|]. by destruct v.
Qed.

(** The new file takes its place behind the files of its level. *)
Lemma order_compact v v' ctx fmd :
  length v = kMaxLevel -> (ctx_level ctx < 2)%nat -> compacted ctx fmd v v' -> NoDup (map ctime (level_files v 0)) ->
  exists l1 l2, lookup_order v' = l1 ++ fmd :: l2 /\ sublist (l1 ++ l2) (lookup_order v) /\
    (forall x, x ∈ l1 -> exists l, (l <= S (ctx_level ctx))%nat /\ x ∈ level_files v l /\ number x ∉ gone ctx l) /\
    (forall x, x ∈ l2 -> exists l, (S (ctx_level ctx) < l)%nat /\ x ∈ level_files v l).
Proof.
  intros Hlen Hlev [Hlen' Hf] Hnd.
  assert (F0 := Hf 0%nat ltac:(unfold kMaxLevel; lia)). assert (F1 := Hf 1%nat ltac:(unfold kMaxLevel; lia)).
  assert (F2 := Hf 2%nat ltac:(unfold kMaxLevel; lia)). assert (F3 := Hf 3%nat ltac:(unfold kMaxLevel; lia)).
  destruct v as [|l0 [|l1 [|l2 [|l3 [|]]]]]; try discriminate Hlen.
  destruct v' as [|m0 [|m1 [|m2 [|m3 [|]]]]]; try discriminate Hlen'.
  unfold level_files in F0, F1, F2, F3, Hnd. cbn in F0, F1, F2, F3, Hnd.
  unfold lookup_order, level_files. cbn.
  assert (Hnone : forall (l : list FileMetaData), filter (fun g => number g ∉ []) l = l).
  { intros l. apply filter_all, Forall_forall. intros g _. apply not_elem_of_nil. }
  assert (Hs0 : forall x, x ∈ sort_newest l0 <-> x ∈ l0) by (intros x; unfold sort_newest; by rewrite (merge_sort_Permutation newer)).
  destruct (ctx_level ctx) as [|[|]] eqn:El; [| |lia].
  - rewrite F0, F1, F2, F3. unfold gone. rewrite El. cbn. rewrite !Hnone, !app_nil_r.
    exists (filter (fun g => number g ∉ map number (inputs0 ctx)) (sort_newest l0) ++ filter (fun g => number g ∉ map number (inputs1 ctx)) l1),
      (l2 ++ l3). rewrite sort_filter by done. rewrite <- !app_assoc. split_and!; [done | | |].
    + apply sublist_app; [apply sublist_filter|]. apply sublist_app; [apply sublist_filter | done].
    + intros x [Hx|Hx]%elem_of_app; apply list_elem_of_filter in Hx as [Hn Hx]; [exists 0%nat | exists 1%nat]; cbn.
      * apply Hs0 in Hx. split_and!; [lia | done..].
      * split_and!; [lia | done..].
    + intros x [Hx|Hx]%elem_of_app; [exists 2%nat | exists 3%nat]; split; (lia || done).
  - rewrite F0, F1, F2, F3. unfold gone. rewrite El. cbn. rewrite !Hnone, !app_nil_r.
    exists (sort_newest l0 ++ filter (fun g => number g ∉ map number (inputs0 ctx)) l1 ++ filter (fun g => number g ∉ map number (inputs1 ctx)) l2), l3.
    rewrite <- !app_assoc. split_and!; [done | | |].
    + apply sublist_app; [done|]. apply sublist_app; [apply sublist_filter|]. apply sublist_app; [apply sublist_filter | done].
    + intros x Hx. rewrite !elem_of_app in Hx. destruct Hx as [Hx|[Hx|Hx]].
      * exists 0%nat. apply Hs0 in Hx. split_and!; [lia | done | cbn; by apply not_elem_of_nil].
      * apply list_elem_of_filter in Hx as [Hn Hx]. exists 1%nat. cbn. split_and!; [lia | done..].
      * apply list_elem_of_filter in Hx as [Hn Hx]. exists 2%nat. cbn. split_and!; [lia | done..].
    + intros x Hx. exists 3%nat. split; [lia | done].
Qed.

(** ** The family after a compaction *)

(** What a compaction relies on: its inputs are files of two levels above the
    last, the files have different numbers, those of level 0 different times,
    and a file that stays in the two levels has of the user keys of an input
    only newer versions (none, when the two do not overlap). *)
Record ctx_ok (ucmp : bytes -> bytes -> Z) (contents : Z -> list kv) (v : Version) (ctx : CompactionContext) : Prop := {
  cx_level : (ctx_level ctx < 2)%nat;
  cx_inputs0 : forall g, g ∈ inputs0 ctx -> g ∈ level_files v (ctx_level ctx);
  cx_inputs1 : forall g, g ∈ inputs1 ctx -> g ∈ level_files v (S (ctx_level ctx));
  cx_numbers : NoDup (map number (concat v));
  cx_times : NoDup (map ctime (level_files v 0));
  cx_older : forall l x g, l = ctx_level ctx \/ l = S (ctx_level ctx) -> x ∈ level_files v l -> number x ∉ gone ctx l ->
    g ∈ inputs0 ctx ++ inputs1 ctx -> fresher ucmp contents x g;
}.

Section family_compact.
Context (ucmp : bytes -> bytes -> Z) `{!ComparatorLaws ucmp, !ComparatorExact ucmp}.
Context (cache_get cache' : Z -> bytes -> error + Tag * bytes) (contents : Z -> list kv) (n : Z) (ks : list kv).
Context (v v' : Version) (ctx : CompactionContext) (fmd : FileMetaData).

#[local] Abbreviation icmp := (InternalCompare ucmp).
#[local] Abbreviation contents' := (with_file contents n ks).

(** Whether a file of the new version has the record. *)
Definition held (p : put_) : bool := existsb (fun g => bool_decide (entry_of p ∈ contents' (number g))) (concat v').

Lemma held_spec p : held p = true <-> exists g, g ∈ concat v' /\ entry_of p ∈ contents' (number g).
Proof.
  unfold held. rewrite existsb_exists. split; intros (g & Hg & Hp); exists g.
  - split; [by apply list_elem_of_In | by apply bool_decide_eq_true in Hp].
  - split; [by apply list_elem_of_In | by apply bool_decide_eq_true].
Qed.

Lemma compacted_files g :
  compacted ctx fmd v v' -> (ctx_level ctx < 2)%nat -> length v = kMaxLevel ->
  g ∈ concat v' <-> g = fmd \/ exists l, g ∈ level_files v l /\ number g ∉ gone ctx l.
Proof.
  intros [Hlen' Hf] Hlev Hlen.
  assert (Hcat : forall (w : Version), length w = kMaxLevel -> g ∈ concat w <-> exists l, (l < kMaxLevel)%nat /\ g ∈ level_files w l).
  { intros w Hw. split; [|intros (l & _ & Hg); by apply (level_files_concat w l)].
    destruct w as [|l0 [|l1 [|l2 [|l3 [|]]]]]; try discriminate Hw. cbn [concat]. rewrite !elem_of_app. unfold kMaxLevel.
    intros [Hg|[Hg|[Hg|[Hg|Hg]]]]; [exists 0%nat | exists 1%nat | exists 2%nat | exists 3%nat | by apply not_elem_of_nil in Hg];
      (split; [lia | done]). }
  rewrite Hcat by done. split.
  - intros (l & Hl & Hg). rewrite Hf in Hg by done. apply elem_of_app in Hg as [[Hn Hg]%list_elem_of_filter|Hg].
    + right. by exists l.
    + left. destruct (decide _); [by apply list_elem_of_singleton in Hg | by apply not_elem_of_nil in Hg].
  - intros [->|(l & Hg & Hn)].
    + exists (S (ctx_level ctx)). unfold kMaxLevel in *. split; [lia|]. rewrite Hf by lia. rewrite decide_True by done.
      apply elem_of_app. right. by left.
    + assert (Hl : (l < kMaxLevel)%nat).
      { destruct (Nat.lt_ge_cases l kMaxLevel); [done|]. rewrite level_files_ge in Hg by lia. by apply not_elem_of_nil in Hg. }
      exists l. split; [done|]. rewrite Hf by done. apply elem_of_app. left. by apply list_elem_of_filter.
Qed.

(** The new file [fmd] holds the entries [ks], of the inputs. *)
Record merged_file : Prop := {
  mf_sorted : StronglySorted (kv_lt icmp) ks;
  mf_some : ks <> [];
  mf_inputs : forall e, e ∈ ks -> exists g, g ∈ inputs0 ctx ++ inputs1 ctx /\ e ∈ contents (number g);
  mf_meta : number fmd = n /\ smallest_key fmd = first_key ks /\ largest_key fmd = final_key ks;
  mf_number : Forall (fun g => number g <> n) (concat v);
  mf_old : forall k key, k <> n -> cache' k key = cache_get k key;
  mf_new : forall u s fl, tag_ok (mkTag s fl) -> cache' n (MakeKey u s fl) = table_get ucmp (MakeKey u s fl) ks;
}.

Lemma input_level g :
  ctx_ok ucmp contents v ctx -> g ∈ inputs0 ctx ++ inputs1 ctx ->
  exists l, (l = ctx_level ctx \/ l = S (ctx_level ctx)) /\ g ∈ level_files v l.
Proof.
  intros Hc [Hg|Hg]%elem_of_app; [exists (ctx_level ctx) | exists (S (ctx_level ctx))]; (split; [by auto|]);
    [by apply (cx_inputs0 _ _ _ _ Hc) | by apply (cx_inputs1 _ _ _ _ Hc)].
Qed.

Lemma files_compact pf :
  files_hold ucmp cache_get contents v pf -> ctx_ok ucmp contents v ctx -> compacted ctx fmd v v' -> merged_file ->
  files_hold ucmp cache' contents' v' (filter (fun p => held p = true) pf).
Proof.
  intros [Hlen Hok Hord Hall] Hc Hcv [Ms Mne Min (Mn & Msm & Mlg) Mnum Mold Mnew].
  pose proof (cx_level _ _ _ _ Hc) as Hlev.
  assert (Hfiles : forall g, g ∈ concat v' <-> g = fmd \/ exists l, g ∈ level_files v l /\ number g ∉ gone ctx l)
    by (intros g; by apply compacted_files).
  rewrite Forall_forall in Mnum, Hok.
  assert (Hold : forall l g, g ∈ level_files v l -> contents' (number g) = contents (number g)).
  { intros l g Hg. apply with_file_old. by apply Mnum, (level_files_concat v l). }
  assert (Hnew : contents' (number fmd) = ks) by (rewrite Mn; apply with_file_new).
  assert (Hver : Forall (fun e => exists u s, versioned u s e) ks).
  { apply Forall_forall. intros e He. destruct (Min e He) as (g & Hg & Heg). destruct (input_level g Hc Hg) as (l & _ & Hgl).
    destruct (Hok g (level_files_concat v l g Hgl)) as [_ _ Hv _]. rewrite Forall_forall in Hv. by apply Hv. }
  split.
  - apply Hcv.
  - apply Forall_forall. intros g [->|(l & Hg & _)]%Hfiles; [by apply fresh_file_ok|].
    destruct (Hok g (level_files_concat v l g Hg)) as [H1 H2 H3 H4]. split; rewrite ?(Hold l) by done; [done..|].
    intros u s fl Ht. rewrite Mold by (by apply Mnum, (level_files_concat v l)). by apply H4.
  - destruct (order_compact v v' ctx fmd Hlen Hlev Hcv (cx_times _ _ _ _ Hc)) as (l1 & l2 & -> & Hsub & H1 & H2).
    assert (Hin : forall x, x ∈ l1 ++ l2 -> exists l, x ∈ level_files v l).
    { intros x [Hx|Hx]%elem_of_app; [destruct (H1 x Hx) as (l & _ & Hl & _) | destruct (H2 x Hx) as (l & _ & Hl)]; by exists l. }
    apply StronglySorted_insert.
    + eapply StronglySorted_impl_in; [|eapply StronglySorted_sublist; [exact Hsub | exact Hord]].
      intros x y Hx Hy Hxy. destruct (Hin x Hx) as (lx & Hlx), (Hin y Hy) as (ly & Hly). unfold fresher in *.
      by rewrite (Hold lx), (Hold ly).
    + apply Forall_forall. intros x Hx. destruct (H1 x Hx) as (l & Hle & Hxl & Hng). intros u s e u' s' e' He He'.
      rewrite (Hold l) in He by done. rewrite Hnew in He'. destruct (Min e' He') as (g & Hg & Heg).
      assert (Hfr : fresher ucmp contents x g); [|by apply Hfr].
      destruct (decide (l = ctx_level ctx \/ l = S (ctx_level ctx))) as [Hl|Hl]; [by eapply cx_older|].
      destruct (input_level g Hc Hg) as (lg & Hlg & Hgl). apply (levels_before _ v l lg); [done | done | lia | done..].
    + apply Forall_forall. intros y Hy. destruct (H2 y Hy) as (l & Hle & Hyl). intros u s e u' s' e' He He'.
      rewrite Hnew in He. rewrite (Hold l) in He' by done. destruct (Min e He) as (g & Hg & Heg).
      destruct (input_level g Hc Hg) as (lg & Hlg & Hgl).
      assert (Hfr : fresher ucmp contents g y) by (apply (levels_before _ v lg l); [done | done | lia | done..]).
      by apply Hfr.
  - intros p Hp. rewrite list_elem_of_filter, held_spec, (Hall p Hp). split; [by intros [Hg _]|].
    intros (g & Hg & Hpg). split; [by exists g|]. apply Hfiles in Hg as [->|(l & Hg & _)].
    + rewrite Hnew in Hpg. destruct (Min _ Hpg) as (g & Hg & Heg). destruct (input_level g Hc Hg) as (lg & _ & Hgl).
      exists g. split; [by apply (level_files_concat v lg) | done].
    + exists g. rewrite (Hold l) in Hpg by done. split; [by apply (level_files_concat v l) | done].
Qed.
End family_compact.

Lemma IsBaseMemory_has {T} `{!MemTable T, !MemTableLaws T} ucmp `{!ComparatorLaws ucmp, !ComparatorExact ucmp}
    (tables : list T) pss key :
  Forall2 (mt_holds ucmp) tables pss -> zlen key < 2 ^ 32 ->
  IsBaseMemoryForKey key tables = Done (has_key (concat pss) key kMaxSequenceNumber).
Proof.
  intros Ht Hk. induction Ht as [|t ps tables pss Hps _ IH]; cbn [IsBaseMemoryForKey concat]; [done|].
  rewrite (mt_KeyExists_has ucmp t ps key kMaxSequenceNumber) by done. cbn [obind]. unfold has_key in *.
  rewrite existsb_app. by destruct (existsb _ ps).
Qed.

(** ** What readers see *)

Section views.
Context (ucmp : bytes -> bytes -> Z) `{!ComparatorLaws ucmp, !ComparatorExact ucmp}.
Context (cache_get : Z -> bytes -> error + Tag * bytes) (contents : Z -> list kv) (v v' : Version) (ctx : CompactionContext).
Context (fmd : FileMetaData) (n : Z) (in_mem : bytes -> bool) (smallest last : Z) (es : list kv).
Context (mem pf : list put_).

#[local] Abbreviation ks := (kept ucmp in_mem smallest (fun _ => false) es).

(** The records of the memory tables are newer than those of the files; no two
    records of a key have the same version. *)
Record records_ok : Prop := {
  rc_fresh : fresher_puts mem pf;
  rc_unique : forall p q, p ∈ mem ++ pf -> q ∈ mem ++ pf -> p_key p = p_key q -> p_version p = p_version q -> p = q;
  rc_last : Forall (fun p => p_version p <= last) (mem ++ pf);
  rc_ok : Forall put_ok (mem ++ pf);
  rc_mem : forall p, p ∈ mem ++ pf -> in_mem (p_key p) = has_key mem (p_key p) kMaxSequenceNumber;
}.

Lemma has_key_true ps uk sq : has_key ps uk sq = true <-> exists p, p ∈ ps /\ p_key p = uk /\ p_version p <= sq.
Proof.
  unfold has_key. rewrite existsb_exists. split.
  - intros (p & Hp & [Hk%bool_decide_eq_true Hv%Z.leb_le]%andb_true_iff). exists p. split_and!; [by apply list_elem_of_In | done..].
  - intros (p & Hp & Hk & Hv). exists p. split; [by apply list_elem_of_In|]. apply andb_true_iff.
    split; [by apply bool_decide_eq_true | by apply Z.leb_le].
Qed.

Lemma answers_subset ps ps' uk sq r :
  answers ps uk sq r -> (forall p, p ∈ ps' -> p ∈ ps) ->
  (forall p, p ∈ ps -> p_key p = uk -> p_version p <= sq ->
    (forall q, q ∈ ps -> p_key q = uk -> p_version q <= sq -> p_version q <= p_version p) -> p ∈ ps') ->
  answers ps' uk sq r.
Proof.
  intros Ha Hsub Hnew. destruct r as [e|[tag w]]; cbn in *.
  - destruct Ha as [-> Hn]. split; [done|]. intros q Hq. by apply Hn, Hsub.
  - destruct Ha as (p & Hp & Hk & Hv & Ht & Hw & Hmax). exists p. split_and!; [by apply Hnew | done..|].
    intros q Hq. by apply Hmax, Hsub.
Qed.

Lemma concat_level (w : Version) g : g ∈ concat w -> exists l, g ∈ level_files w l.
Proof.
  intros Hg. apply list_elem_of_In, in_concat in Hg as (fs & Hfs & Hg). apply list_elem_of_In in Hfs, Hg.
  apply list_elem_of_lookup in Hfs as [l Hl]. exists l.
  assert (El : level_files w l = fs) by exact (f_equal (default []) Hl). by rewrite El.
Qed.

Lemma not_gone g l :
  ctx_ok ucmp contents v ctx -> g ∈ level_files v l -> g ∉ inputs0 ctx ++ inputs1 ctx -> number g ∉ gone ctx l.
Proof.
  intros Hc Hg Hni. assert (Hinj : forall h lh, h ∈ level_files v lh -> number g = number h -> g = h).
  { intros h lh Hh En. pose proof (cx_numbers _ _ _ _ Hc) as Hnd.
    apply level_files_concat in Hg, Hh. apply list_elem_of_lookup in Hg as [i Hi], Hh as [j Hj].
    assert (i = j) as ->; [|congruence]. apply (NoDup_lookup _ _ _ (number g) Hnd); [by apply list_lookup_fmap_Some_2|].
    rewrite En. by apply list_lookup_fmap_Some_2. }
  unfold gone. destruct (decide (l = ctx_level ctx)) as [->|]; [|destruct (decide (l = S (ctx_level ctx))) as [->|]];
    [| |by apply not_elem_of_nil]; intros (h & En & Hh)%list_elem_of_fmap; apply Hni, elem_of_app; [left|right].
  - by rewrite (Hinj h _ (cx_inputs0 _ _ _ _ Hc h Hh) En).
  - by rewrite (Hinj h _ (cx_inputs1 _ _ _ _ Hc h Hh) En).
Qed.

(** The newest record that a late reader sees is still there. *)
Lemma newest_held p sq :
  files_hold ucmp cache_get contents v pf -> ctx_ok ucmp contents v ctx -> compacted ctx fmd v v' -> records_ok ->
  number fmd = n -> Forall (fun g => number g <> n) (concat v) ->
  (forall e, e ∈ es <-> exists g, g ∈ inputs0 ctx ++ inputs1 ctx /\ e ∈ contents (number g)) ->
  p ∈ mem ++ pf -> p_version p <= sq -> smallest <= sq -> (in_mem (p_key p) = false \/ last <= sq) ->
  (forall q, q ∈ mem ++ pf -> p_key q = p_key p -> p_version q <= sq -> p_version q <= p_version p) ->
  p ∈ mem ++ filter (fun p => held contents n ks v' p = true) pf.
Proof.
  intros [Hlen Hok Hord Hall] Hc Hcv [Rf Ru Rl Ro Rm] Hn Hnum Hes Hp Hv Hsm Hmem Hmax.
  pose proof (cx_level _ _ _ _ Hc) as Hlev. rewrite Forall_forall in Rl, Ro. rewrite Forall_forall in Hnum, Hok.
  assert (Hfiles : forall g, g ∈ concat v' <-> g = fmd \/ exists l, g ∈ level_files v l /\ number g ∉ gone ctx l)
    by (intros g; by apply compacted_files).
  apply elem_of_app. apply elem_of_app in Hp as Hp'. destruct Hp' as [|Hpf]; [by left|].
  destruct (in_mem (p_key p)) eqn:Em.
  { left. destruct Hmem as [Hmem|Hlast]; [done|]. rewrite Rm in Em by done. apply has_key_true in Em as (q & Hq & Hqk & _).
    assert (Hqin : q ∈ mem ++ pf) by (by apply elem_of_app; left). specialize (Rl q Hqin) as Hql.
    specialize (Hmax q Hqin Hqk ltac:(lia)). specialize (Rf q p Hq Hpf Hqk).
    by rewrite (Ru p q Hp Hqin (eq_sym Hqk) ltac:(lia)). }
  right. apply list_elem_of_filter. split; [|done]. apply held_spec.
  pose proof (Ro p Hp) as Hpo. apply Hall in Hpf as (g & Hg & Hpg); [|done].
  destruct (decide (g ∈ inputs0 ctx ++ inputs1 ctx)) as [Hgi|Hgi].
  - exists fmd. split; [apply Hfiles; by left|]. rewrite Hn, with_file_new. destruct Hpo as [Ht Hk].
    assert (Hpar : parsed (fst (entry_of p)) = (p_key p, mkTag (p_version p) (p_flag p))) by (by apply parsed_MakeKey).
    assert (Hsub : forall e, e ∈ es -> exists g, g ∈ concat v /\ e ∈ contents (number g)).
    { intros e (h & Hh & He)%Hes. destruct (input_level ucmp contents v ctx h Hc Hh) as (l & _ & Hl). exists h.
      split; [by apply (level_files_concat v l) | done]. }
    apply (newest_kept ucmp in_mem smallest (fun _ => false) es sq).
    + apply Forall_forall. intros e (h & Hh & He)%Hsub. destruct (Hok h Hh) as [_ _ Hvs _]. rewrite Forall_forall in Hvs. by apply Hvs.
    + by apply Forall_forall.
    + apply Hes. by exists g.
    + unfold user. by rewrite Hpar.
    + done.
    + intros u s e' He' (f & w & -> & Ht') Hu Hs. unfold user, seq_of in *. rewrite Hpar in *. cbn [fst snd sequence_number] in *.
      apply cmp_exact in Hu. subst u. destruct (Hsub _ He') as (h & Hh & Heh).
      assert (Hq : mkPut (p_key p) w s f ∈ pf) by (apply Hall; [by split | by exists h]).
      apply (Hmax (mkPut (p_key p) w s f)); [by apply elem_of_app; right | done | done].
  - exists g. assert (Hl : exists l, g ∈ level_files v l /\ number g ∉ gone ctx l).
    { destruct (concat_level v g Hg) as [l Hl]. exists l. split; [done|]. by eapply not_gone. }
    split; [apply Hfiles; by right|]. by rewrite with_file_old by (by apply Hnum).
Qed.
End views.

(** ** The database after a compaction *)

(** The user keys of the memory tables, and the oldest version that readers
    may ask for. *)
Definition mem_has {T} `{MemTable T} (t : Tables T) (key : bytes) : bool :=
  match IsBaseMemoryForKey key (q_PeekAll (map fst (immutable_pipeline_ t)) [mutable_ t]) with Done b => b | _ => false end.

Definition smallest_of {E F T} (l : SnapshotList) (db : DBImpl E F T) : Z :=
  if snapshots_empty l then last_sequence_number (versions_ db) else oldest l.

Section database_compact.
Context {E F T : Type} `{!WritableFile F, !WritableFileLaws F, !ReliableFile F, !EnvOps E F, !EnvReliable E F}.
Context `{!DirOps E, !FileOps E F, !FlushOps E F, !FlushLaws E F, !MemTable T, !MemTableLaws T}.
Context (path : bytes) (cache_get : nat -> Z -> bytes -> error + Tag * bytes) (contents : nat -> Z -> list kv).

#[local] Abbreviation DB := (DBImpl E F T).

(** Family [i] is ready for the compaction [ctx], whose inputs have the entries
    [es]: they can be read and are records of the family, and no filter of the
    lower levels admits an old deletion. *)
Record compact_ready (db : DB) (H : history) (l : SnapshotList) (i : nat) (f : ColumnFamilyImpl) (t : Tables T)
    (ctx : CompactionContext) (es : list kv) : Prop := {
  cr_ready : ready db;
  cr_holds : db_holds cache_get contents db H;
  cr_family : families (cfs (versions_ db)) !! i = Some f;
  cr_id : GetColumnFamily (cf_id f) (cfs (versions_ db)) = Some i;
  cr_tables : tables_ db !! i = Some t;
  cr_options : 0 < block_restart_interval (cf_options f) /\ 512 <= options_block_size (cf_options f) < 2 ^ 32 /\
    options_block_size (cf_options f) mod 4 = 0;
  cr_last : last_sequence_number (versions_ db) < kMaxSequenceNumber;
  cr_snapshots : snapshots_ok (last_sequence_number (versions_ db)) l;
  cr_ctx : ctx_ok (comparator_Compare (cf_options f)) (contents i) (current f) ctx;
  cr_inputs : inputs0 ctx ++ inputs1 ctx <> [];
  cr_reads : Forall (fun g => table_reads (F := F) path f (env_ db) (number g) (contents i (number g))) (inputs0 ctx ++ inputs1 ctx);
  cr_entries : es ≡ₚ concat (map (fun g => contents i (number g)) (inputs0 ctx ++ inputs1 ctx));
  cr_sorted : StronglySorted (kv_lt (InternalCompare (comparator_Compare (cf_options f)))) es;
  cr_records : Forall (fun e => exists p, p ∈ H i /\ e = entry_of p) es;
  cr_unique : forall p q, p ∈ H i -> q ∈ H i -> p_key p = p_key q -> p_version p = p_version q -> p = q;
  cr_versions : Forall (fun p => p_version p <> 0) (H i);
  cr_count : zlen es < 2 ^ 32;
  cr_number : Forall (fun g => number g <> next_file_number (versions_ db)) (concat (current f));
  cr_kept : kept (comparator_Compare (cf_options f)) (mem_has t) (smallest_of l db) (fun _ => false) es <> [];
  cr_below : forall name (file : F) e, NewWritableFile name (env_ db) = (inr file, e) ->
    forall x, x ∈ es -> old_deletion (smallest_of l db) x = true ->
      IsBaseLevelForKey (comparator_Compare (cf_options f)) (tc_GetKeyFilter (F := F) path f e) (ctx_level ctx + 2) (fst x)
        (current f) = Done (kOk, false);
}.

#[local] Abbreviation keep db l f t es :=
  (kept (comparator_Compare (cf_options f)) (mem_has t) (smallest_of l db) (fun _ => false) es).

Lemma smallest_bound (db : DB) l :
  snapshots_ok (last_sequence_number (versions_ db)) l -> smallest_of l db <= last_sequence_number (versions_ db).
Proof.
  intros [_ Hl]. unfold smallest_of, snapshots_empty. case_bool_decide as Hn; [done|]. unfold oldest.
  destruct (snapshots l) as [|x xs]; [done|]. by apply Forall_inv in Hl.
Qed.

(** What the memory tables answer. *)
Lemma mem_has_ok (db : DB) H l i f t ctx es :
  compact_ready db H l i f t ctx es ->
  exists mem pf pm pis, H i = mem ++ pf /\ mem = pm ++ concat pis /\
    (forall key, zlen key < 2 ^ 32 ->
      IsBaseMemoryForKey key (q_PeekAll (map fst (immutable_pipeline_ t)) [mutable_ t]) = Done (mem_has t key) /\
      mem_has t key = has_key mem key kMaxSequenceNumber) /\
    mt_holds (comparator_Compare (cf_options f)) (mutable_ t) pm /\
    Forall2 (mt_holds (comparator_Compare (cf_options f))) (map fst (immutable_pipeline_ t)) pis /\ (length pis <= 1)%nat /\
    files_hold (comparator_Compare (cf_options f)) (cache_get i) (contents i) (current f) pf /\
    StronglySorted fresher_puts ((pm :: pis) ++ [pf]) /\ Forall written_ok (H i) /\
    Forall (fun p => p_version p <= last_sequence_number (versions_ db)) (H i).
Proof.
  intros []. destruct (cr_holds0 i f t cr_family0 cr_tables0) as (Hl & Hx & pm & pis & pf & Hm & Him & Hone & Hf & Hps & Hs & Hw & Hlast).
  exists (pm ++ concat pis), pf, pm, pis. split_and!; try done. intros key Hk.
  assert (Ht : Forall2 (mt_holds (comparator_Compare (cf_options f))) (q_PeekAll (map fst (immutable_pipeline_ t)) [mutable_ t]) (pm :: pis))
    by (unfold q_PeekAll; cbn; by constructor).
  pose proof (IsBaseMemory_has _ _ _ key Ht Hk) as Eh. unfold mem_has. rewrite Eh. cbn [concat]. done.
Qed.

(** A table can be made of the entries. *)
Lemma compact_input (db : DB) H l i f t ctx es (file : F) :
  compact_ready db H l i f t ctx es -> IO.contents file = [] ->
  sst_input (comparator_Compare (cf_options f)) (Z.to_nat (block_restart_interval (cf_options f))) file
    (options_block_size (cf_options f)) (zlen es) es /\
  Forall (fun e => exists u s, versioned u s e) es /\ Forall (fun e => seq_of e <> 0) es /\
  forall e, e ∈ es -> zlen (user e) < 2 ^ 32.
Proof.
  intros Hcr Hfile. destruct (mem_has_ok db H l i f t ctx es Hcr) as (_ & _ & _ & _ & _ & _ & _ & _ & _ & _ & _ & _ & Hw & _).
  destruct Hcr. destruct cr_options0 as (O1 & O2 & O3).
  assert (Hin : forall e, e ∈ es -> exists p, p ∈ H i /\ put_ok p /\ e = entry_of p).
  { intros e He. rewrite Forall_forall in cr_records0. destruct (cr_records0 e He) as (p & Hp & ->). exists p. split; [done|].
    rewrite Forall_forall in Hw. split; [by apply Hw | done]. }
  assert (Hpar : forall p, put_ok p -> parsed (fst (entry_of p)) = (p_key p, mkTag (p_version p) (p_flag p)))
    by (intros p [Ht _]; by apply parsed_MakeKey).
  assert (Hver : Forall (fun e => exists u s, versioned u s e) es).
  { apply Forall_forall. intros e He. destruct (Hin e He) as (p & _ & [Ht _] & ->). by exists (p_key p), (p_version p), (p_flag p), (p_value p). }
  assert (Hseq : Forall (fun e => seq_of e <> 0) es).
  { apply Forall_forall. intros e He. destruct (Hin e He) as (p & Hp & Hok & ->). unfold seq_of. rewrite Hpar by done.
    rewrite Forall_forall in cr_versions0. by apply cr_versions0. }
  split_and!; [|done|done|].
  - split; [split; try done|].
    + lia.
    + pose proof (zlen_nonneg es). lia.
    + intros ->. by apply cr_kept0.
    + apply Forall_forall. intros e He. destruct (Hin e He) as (p & _ & [_ Hk] & ->).
      unfold in_memory, entry_of, MakeKey. cbn [fst]. rewrite zlen_app, zlen_le_bytes. lia.
    + intros e es' E0. assert (He : e ∈ es) by (rewrite E0; by left). rewrite Forall_forall in Hver. destruct (Hver e He) as (u & s & Hv).
      exists u, s. split; [done|]. intros ->. rewrite Forall_forall in Hseq. apply (Hseq e He).
      destruct Hv as (fl & w & -> & Ht). unfold seq_of. cbn [fst]. by rewrite parsed_MakeKey.
  - intros e He. destruct (Hin e He) as (p & _ & Hok & ->). unfold user. rewrite Hpar by done. apply Hok.
Qed.

Lemma job_run_ok (db : DB) H l i f t ctx es name (file : F) e1 target point (inputs : list (error + SstIterator)) :
  compact_ready db H l i f t ctx es -> NewWritableFile name (env_ db) = (inr file, e1) ->
  IO.contents file = [] ->
  run_ok (comparator_Compare (cf_options f)) (tc_GetKeyFilter (F := F) path f e1)
    (mkCompaction (ctx_level ctx + 1) target (smallest_of l db) point inputs (current f)
      (q_PeekAll (map fst (immutable_pipeline_ t)) [mutable_ t]))
    (mem_has t) (fun _ => false) es.
Proof.
  intros Hcr Enew Hfile. destruct (mem_has_ok db H l i f t ctx es Hcr) as (mem & _ & _ & _ & _ & _ & Hmem & _).
  destruct (compact_input db H l i f t ctx es file Hcr Hfile) as (_ & Hver & _ & Huser).
  destruct Hcr. pose proof (smallest_bound db l cr_snapshots0). split; cbn [target_level smallest_snapshot in_mem_ input_version].
  - done.
  - done.
  - pose proof (cx_level _ _ _ _ cr_ctx0). unfold kMaxLevel. lia.
  - lia.
  - intros e He. by apply Hmem, Huser.
  - intros e He Hold. rewrite <- Nat.add_assoc. by apply (cr_below0 name file e1 Enew).
Qed.

(** The run of [CompactFileTable]. *)
Lemma CompactFileTable_ok (db : DB) H l i f t ctx es p :
  compact_ready db H l i f t ctx es ->
  let n := next_file_number (versions_ db) in let ks := keep db l f t es in
  exists data size file e1 e2,
    let fmd := mkFile n (first_key ks) (final_key ks) size (CurrentTimeMicros (F := F) e1) in
    CompactFileTable path l i ctx p db =
      Done (kOk, compact_patch f ctx fmd p, set_env e2 (set_versions (snd (GenerateFileNumber (versions_ db))) db)) /\
    NewWritableFile (F := F) (GetTableFileName path f (env_ db) n) (env_ db) = (inr file, e1) /\
    NewRandomAccessFile (F := F) (GetTableFileName path f e2 n) e2 = inr data /\
    answers_by (comparator_Compare (cf_options f)) data ks.
Proof.
  intros Hcr n ks. pose proof Hcr as []. set (ucmp := comparator_Compare (cf_options f)).
  destruct (cr_holds0 i f t cr_family0 cr_tables0) as (Hl & Hx & _).
  rewrite map_app, concat_app in cr_entries0. apply Forall_app in cr_reads0 as [Hr0 Hr1].
  assert (Hz : zlen es = zlen (concat (map (fun g => contents i (number g)) (inputs0 ctx))) + zlen (concat (map (fun g => contents i (number g)) (inputs1 ctx)))).
  { unfold zlen. rewrite (Permutation_length cr_entries0), length_app. lia. }
  pose proof (zlen_nonneg (concat (map (fun g => contents i (number g)) (inputs0 ctx)))). pose proof (zlen_nonneg (concat (map (fun g => contents i (number g)) (inputs1 ctx)))).
  unfold CompactFileTable. rewrite cr_family0, cr_tables0. cbn [ofopt obind].
  rewrite (count_entries_ok path f (env_ db) (contents i) (inputs0 ctx) 0 Hr0) by lia. cbn [obind]. 
  rewrite Z.add_0_l.
  rewrite (count_entries_ok path f (env_ db) (contents i) (inputs1 ctx) _ Hr1) by lia. cbn [obind].  rewrite <- Hz.
  unfold GenerateFileNumber. cbn [fst snd set_versions env_ versions_]. fold n. cbv zeta.
  destruct (add_inputs_ok path f (env_ db) (contents i) (ctx_level ctx) (inputs0 ctx) p [] Hr0) as (is0 & E0 & P0 & K0). rewrite E0. cbn [obind].
  change (negb (ok kOk)) with false. cbn iota. cbn [app].
  destruct (add_inputs_ok path f (env_ db) (contents i) (ctx_level ctx + 1) (inputs1 ctx) (delete_files f (ctx_level ctx) (inputs0 ctx) p) is0 Hr1)
    as (is1 & E1 & P1 & K1). rewrite E1. cbn [obind]. change (negb (ok kOk)) with false. cbn iota.
  destruct (env_new (F := F) (GetTableFileName path f (env_ db) n) (env_ db)) as (file & e1 & Enew & Hfile). rewrite Enew.
  destruct (compact_input db H l i f t ctx es file Hcr Hfile) as (Hin & Hver & Hseq & _).
  assert (Hn : Z.of_nat (Z.to_nat (block_restart_interval (cf_options f))) = block_restart_interval (cf_options f)) by lia.
  cbn [set_next last_sequence_number]. change (if snapshots_empty l then _ else _) with (smallest_of l db).
  set (job := mkCompaction _ _ _ _ _ _ _).
  pose proof (job_run_ok db H l i f t ctx es _ file e1 n (default [] (cf_compaction_point f !! ctx_level ctx)) (is0 ++ is1) Hcr Enew Hfile) as Hok.
  fold job in Hok.
  assert (Hri : run_input (Iterator0 := sum_Iterator (H := SstIterator_ops ucmp)) ucmp job (mem_has t) (fun _ => false) es
    (Z.to_nat (block_restart_interval (cf_options f))) file (options_block_size (cf_options f)) (zlen es) (Z.to_nat (zlen es))
    (map (fun g => contents i (number g)) (inputs0 ctx) ++ map (fun g => contents i (number g)) (inputs1 ctx))).
  { split; cbn [job original_input smallest_snapshot]; try done.
    - by apply Forall_app.
    - intros Enil. apply app_eq_nil in Enil as [-> ->]. apply Forall2_nil_inv_l, map_eq_nil in P0. apply Forall2_nil_inv_l, map_eq_nil in P1.
      by rewrite P0, P1 in cr_inputs0.
    - by apply Forall2_app.
    - apply Forall_forall. intros x Hx'. rewrite <- map_app in Hx'. apply list_elem_of_fmap in Hx' as (g & -> & Hg).
      assert (Hfo : file_ok ucmp (cache_get i) (contents i) g).
      { destruct (cr_holds0 i f t cr_family0 cr_tables0) as (_ & _ & pm & pis & pf & _ & _ & _ & [_ Hfo _ _] & _).
        rewrite Forall_forall in Hfo. destruct (input_level _ _ _ _ g cr_ctx0 Hg) as (lg & _ & Hlg).
        by apply Hfo, (level_files_concat (current f) lg). }
      apply Hfo.
    - by rewrite concat_app.
    - unfold zlen. lia. }
  destruct (Run_kept (Iterator0 := sum_Iterator (H := SstIterator_ops ucmp)) ucmp (tc_GetKeyFilter (F := F) path f e1) job (mem_has t) (fun _ => false) es
    (Z.to_nat (block_restart_interval (cf_options f))) file (options_block_size (cf_options f)) (zlen es) (Z.to_nat (zlen es)) _ Hok Hri)
    as (b & result & Erun & Efin & Rs & Rl & _ & _).
  rewrite Hn in Erun. cbn [set_env env_]. fold ucmp. rewrite Erun. cbn [obind]. change (negb (ok kOk)) with false. cbn iota.
  rewrite Rs, Rl. exists (IO.contents (fw_file (sb_writer b))). eexists _, file, e1, _. split_and!; [reflexivity | done | |].
  - assert (Hdir : forall e, GetTableFileName path f e n = GetTableFileName path f (env_ db) n).
    { intros e. unfold GetTableFileName, GetDir. by rewrite (abs_fixed (F := F) (options_dir (cf_options f)) e (env_ db)). }
    rewrite Hdir. apply close_reads.
  - intros Hlt. pose proof (kept_input (Iterator0 := sum_Iterator (H := SstIterator_ops ucmp)) ucmp job _ _ _ _ _ _ _ _ _ Hri) as Hk.
    destruct (sst_answers ucmp _ file _ _ _ true Hl Hk) as (b' & Eb' & Hb').
    assert (b' = b) as -> by (pose proof (eq_trans (eq_sym Efin) Eb') as Eb; apply Done_inj in Eb; by injection Eb).
    destruct (Hb' Hlt) as (r & Hp & Hg & _). by exists r.
Qed.

(** The database behind the compaction: the family has the version [w], with
    the file [fmd]. *)
Record compact_done (db db' : DB) (i : nat) (f : ColumnFamilyImpl) (ctx : CompactionContext) (fmd : FileMetaData)
    (w : Version) : Prop := {
  cd_ready : ready db';
  cd_cfs : cfs (versions_ db') = update_family i (set_current w) (cfs (versions_ db));
  cd_version : compacted ctx fmd (current f) w;
  cd_last : last_sequence_number (versions_ db') = last_sequence_number (versions_ db);
  cd_next : next_file_number (versions_ db') = wrap 64 (next_file_number (versions_ db) + 1);
  cd_tables : tables_ db' = tables_ db;
  cd_number : number fmd = next_file_number (versions_ db);
}.

(** The records [ps'] are of [ps], and answer alike at a version not older than
    [smallest], for a key of a memory table at one not older than [last]. *)
Definition same_view (t : Tables T) (smallest last : Z) (ps ps' : list put_) : Prop :=
  (forall p, p ∈ ps' -> p ∈ ps) /\
  forall key sq r, smallest <= sq -> (mem_has t key = false \/ last <= sq) -> answers ps key sq r -> answers ps' key sq r.

Lemma ready_update (db db' : DB) i f w ps :
  ready db -> families (cfs (versions_ db)) !! i = Some f -> cfs (versions_ db') = update_family i (set_current w) (cfs (versions_ db)) ->
  db_logger_ db' = db_logger_ db -> bkg_error_ db' = bkg_error_ db -> tables_ db' = tables_ db -> manifest (versions_ db') ps -> ready db'.
Proof.
  intros [R1 R2 R3 R4] Hf Hcfs Hlog Hbkg Ht Hm. rewrite <- Hbkg in R1. rewrite <- Hlog in R3. rewrite <- Ht in R4.
  split; [done | by exists ps | done |]. intros j g Hg. rewrite Hcfs in Hg.
  destruct (families (cfs (versions_ db)) !! j) as [h|] eqn:Hj; [by apply (R4 j h)|].
  cbn in Hg. destruct (decide (j = i)) as [->|Hne]; [congruence|]. rewrite list_lookup_alter_ne in Hg by done. congruence.
Qed.

(** The run, without what the families hold. *)
Lemma compact_files_run (db : DB) H l i f t ctx es level key :
  compact_ready db H l i f t ctx es ->
  exists db' fmd w data,
    compact_files path l i ctx (SetCompactionPoint (cf_id f) level key NewVersionPatch) db = Done (true, db') /\
    compact_done db db' i f ctx fmd w /\
    smallest_key fmd = first_key (keep db l f t es) /\ largest_key fmd = final_key (keep db l f t es) /\
    NewRandomAccessFile (F := F) (GetTableFileName path f (env_ db') (number fmd)) (env_ db') = inr data /\
    answers_by (comparator_Compare (cf_options f)) data (keep db l f t es).
Proof.
  intros Hcr. set (p := SetCompactionPoint (cf_id f) level key NewVersionPatch).
  destruct (CompactFileTable_ok db H l i f t ctx es p Hcr) as (data & size & file & e1 & e2 & Erun & Enew & Hdata & Hans).
  pose proof Hcr as []. destruct (cr_holds0 i f t cr_family0 cr_tables0) as (Hl & Hx & pm & pis & pf & _ & _ & _ & Hfh & _).
  set (fmd := mkFile _ _ _ _ _) in *. unfold compact_files. rewrite Erun. cbn [obind]. change (negb (ok kOk)) with false. cbn iota.
  cbn [set_env set_versions env_ versions_].
  pose proof (InternalCompare_laws (comparator_Compare (cf_options f))) as Hil.
  destruct (new_version_compact (InternalCompare (comparator_Compare (cf_options f))) f ctx fmd p (current f) eq_refl eq_refl
    (fh_levels _ _ _ _ _ Hfh)) as (w & Ew & Hcv); [pose proof (cx_level _ _ _ _ cr_ctx0); unfold kMaxLevel; lia | exact cr_number0 |].
  destruct (rd_manifest _ cr_ready0) as (ps & Hman).
  assert (Hfields : forall k, k <> kDeletion -> k <> kCreation -> has_field k (compact_patch f ctx fmd p) = has_field k p).
  { intros k H1 H2. unfold compact_patch.
    destruct (delete_files_fields f (ctx_level ctx) (inputs0 ctx) p) as (_ & _ & F1).
    destruct (delete_files_fields f (ctx_level ctx + 1) (inputs1 ctx) (delete_files f (ctx_level ctx) (inputs0 ctx) p)) as (_ & _ & F2).
    rewrite <- F1, <- F2 by done. unfold has_field. cbn [CreateFile fields_]. rewrite testbit_set_field by (by unfold kCreation).
    destruct (Z.eqb_spec k kCreation); [done | by rewrite orb_false_r]. }
  assert (Hcre : file_creation_ (compact_patch f ctx fmd p) = [mkCre (cf_id f) (Z.of_nat (ctx_level ctx + 1)) fmd]).
  { unfold compact_patch. cbn [CreateFile file_creation_].
    destruct (delete_files_fields f (ctx_level ctx + 1) (inputs1 ctx) (delete_files f (ctx_level ctx) (inputs0 ctx) p)) as (_ & -> & _).
    by destruct (delete_files_fields f (ctx_level ctx) (inputs0 ctx) p) as (_ & -> & _). }
  destruct (LogAndApply_files path DefaultOptions i f (compact_patch f ctx fmd p) e2 (snd (GenerateFileNumber (versions_ db))) ps
    (mkCre (cf_id f) (Z.of_nat (ctx_level ctx + 1)) fmd) [] w Hman) as (v' & ps' & -> & Hman' & Hcfs' & Hlast' & Hnext');
    try (rewrite Hfields by done; done); try done.
  { unfold compact_patch, has_field. cbn [CreateFile fields_]. rewrite testbit_set_field by (by unfold kCreation).
    by rewrite Z.eqb_refl, orb_true_r. }
  cbn [obind]. change (negb (ok kOk)) with false. cbn iota. eexists _, fmd, w, data. split; [reflexivity|].
  split; [|by split_and!]. split; try done.
  by eapply (ready_update db).
Qed.

(** Of what the family holds, the memory tables and the files. *)
Lemma views_ok (db : DB) H l i f t ctx es :
  compact_ready db H l i f t ctx es ->
  exists mem pf, H i = mem ++ pf /\
    records_ok (mem_has t) (last_sequence_number (versions_ db)) mem pf /\
    files_hold (comparator_Compare (cf_options f)) (cache_get i) (contents i) (current f) pf /\
    forall (g : put_ -> bool) cache' contents' w,
      files_hold (comparator_Compare (cf_options f)) cache' contents' w (filter (fun p => g p = true) pf) ->
      family_holds (comparator_Compare (cf_options f)) cache' contents' (last_sequence_number (versions_ db)) w t
        (mem ++ filter (fun p => g p = true) pf).
Proof.
  intros Hcr. destruct (mem_has_ok db H l i f t ctx es Hcr)
    as (mem & pf & pm & pis & EH & Em & Hmem & Hm & Him & Hone & Hf & Hs & Hw & Hlast).
  pose proof (cr_unique _ _ _ _ _ _ _ _ Hcr) as Hu. rewrite EH in Hw, Hlast, Hu.
  assert (Hfresh : Forall (fun ps => fresher_puts ps pf) (pm :: pis)).
  { apply StronglySorted_app in Hs as (Ha & _ & _). apply Forall_forall. intros ps Hps. apply Ha; [done | by left]. }
  assert (Hput : Forall put_ok (mem ++ pf)) by (eapply Forall_impl; [exact Hw|]; intros p Hp; apply Hp).
  exists mem, pf. split_and!; [done | | done |].
  - split; [|done..|].
    + rewrite Em. rewrite Forall_forall in Hfresh. intros p q Hp. change (pm ++ concat pis) with (concat (pm :: pis)) in Hp.
      apply list_elem_of_In, in_concat in Hp as (ps & Hps & Hp). apply list_elem_of_In in Hps, Hp. by apply (Hfresh ps Hps p q).
    + intros p Hp. apply Hmem. rewrite Forall_forall in Hput. by apply Hput.
  - intros g cache' contents' w Hf'. exists pm, pis, (filter (fun p => g p = true) pf).
    assert (Hsub : forall P : put_ -> Prop, Forall P (mem ++ pf) -> Forall P (mem ++ filter (fun p => g p = true) pf)).
    { intros P [HP HQ]%Forall_app. apply Forall_app. split; [done|]. by apply Forall_filter. }
    split_and!; [done..| by rewrite Em | | by apply Hsub | by apply Hsub].
    apply StronglySorted_app in Hs as (_ & Hs & _). apply StronglySorted_app_2; [|done | by repeat constructor].
    intros ps qs Hps ->%list_elem_of_singleton p q Hp [_ Hq]%list_elem_of_filter. rewrite Forall_forall in Hfresh.
    by apply (Hfresh ps Hps p q).
Qed.

(** The new file holds what the run kept. *)
Lemma merged_ok (db db' : DB) H l i f t ctx es fmd w cache' :
  compact_ready db H l i f t ctx es -> compact_done db db' i f ctx fmd w ->
  smallest_key fmd = first_key (keep db l f t es) -> largest_key fmd = final_key (keep db l f t es) ->
  (forall j m key, (j, m) <> (i, number fmd) -> cache' j m key = cache_get j m key) ->
  (forall u s fl, tag_ok (mkTag s fl) ->
    cache' i (number fmd) (MakeKey u s fl) = table_get (comparator_Compare (cf_options f)) (MakeKey u s fl) (keep db l f t es)) ->
  merged_file (comparator_Compare (cf_options f)) (cache_get i) (cache' i) (contents i) (number fmd) (keep db l f t es)
    (current f) ctx fmd.
Proof.
  intros Hcr Hcd Hsm Hlg Hold Hnew. split; try done.
  - eapply StronglySorted_sublist; [apply sublist_filter | apply (cr_sorted _ _ _ _ _ _ _ _ Hcr)].
  - apply (cr_kept _ _ _ _ _ _ _ _ Hcr).
  - intros e [_ He]%list_elem_of_filter. rewrite (cr_entries _ _ _ _ _ _ _ _ Hcr) in He.
    apply list_elem_of_In, in_concat in He as (x & Hx & He). apply list_elem_of_In in Hx, He.
    apply list_elem_of_fmap in Hx as (g & -> & Hg). by exists g.
  - rewrite (cd_number _ _ _ _ _ _ _ Hcd). apply (cr_number _ _ _ _ _ _ _ _ Hcr).
  - intros k key Hk. apply Hold. congruence.
Qed.

(** What the families hold, and what readers see of it. *)
Lemma compact_holds (db db' : DB) H l i f t ctx es fmd w cache' :
  compact_ready db H l i f t ctx es -> compact_done db db' i f ctx fmd w ->
  merged_file (comparator_Compare (cf_options f)) (cache_get i) (cache' i) (contents i) (number fmd) (keep db l f t es)
    (current f) ctx fmd ->
  (forall j m key, j <> i -> cache' j m key = cache_get j m key) ->
  exists contents' H', db_holds cache' contents' db' H' /\ (forall j, j <> i -> H' j = H j) /\
    same_view t (smallest_of l db) (last_sequence_number (versions_ db)) (H i) (H' i).
Proof.
  intros Hcr Hcd Hmf Hold. destruct (views_ok db H l i f t ctx es Hcr) as (mem & pf & EH & Hrec & Hfh & Hfam).
  pose proof Hcr as []. destruct (cr_holds0 i f t cr_family0 cr_tables0) as (Hl & Hx & _).
  set (g := held (contents i) (number fmd) (keep db l f t es) w). set (ps' := mem ++ filter (fun p => g p = true) pf).
  exists (fun j => if decide (j = i) then with_file (contents i) (number fmd) (keep db l f t es) else contents j),
    (fun j => if decide (j = i) then ps' else H j).
  assert (Hfc := files_compact _ _ _ _ _ _ _ _ _ _ pf Hfh cr_ctx0 (cd_version _ _ _ _ _ _ _ Hcd) Hmf).
  split_and!; [|by intros j Hj; rewrite decide_False by done|].
  - intros j h tj Hg Htj. rewrite (cd_last _ _ _ _ _ _ _ Hcd). rewrite (cd_cfs _ _ _ _ _ _ _ Hcd) in Hg. cbn in Hg.
    rewrite (cd_tables _ _ _ _ _ _ _ Hcd) in Htj. destruct (decide (j = i)) as [->|Hji].
    + rewrite list_lookup_alter_eq, cr_family0 in Hg. injection Hg as <-. rewrite cr_tables0 in Htj. injection Htj as <-.
      split_and!; [done..|]. by apply Hfam.
    + rewrite list_lookup_alter_ne in Hg by done. destruct (cr_holds0 j h tj Hg Htj) as (H1 & H2 & H3). split_and!; [done..|].
      destruct H3 as (pm & pis & qf & A1 & A2 & A3 & [B1 B2 B3 B4] & A5). exists pm, pis, qf. split_and!; try apply A5; try done.
      split; [done | | done | done]. eapply Forall_impl; [exact B2|]. intros x [C1 C2 C3 C4]. split; [done..|].
      intros u s fl Ht. rewrite Hold by done. by apply C4.
  - rewrite decide_True by done. rewrite EH. split.
    + intros p [Hp|[_ Hp]%list_elem_of_filter]%elem_of_app; apply elem_of_app; [by left | by right].
    + intros key sq r Hsq Hk Ha. apply (answers_subset _ _ _ _ _ Ha).
      * intros p [Hp|[_ Hp]%list_elem_of_filter]%elem_of_app; apply elem_of_app; [by left | by right].
      * intros p Hp <- Hv Hmax. eapply (newest_held (comparator_Compare (cf_options f))); try done.
        -- apply (cd_version _ _ _ _ _ _ _ Hcd).
        -- apply Hmf.
        -- intros e. rewrite cr_entries0. split.
           ++ intros He. apply list_elem_of_In, in_concat in He as (x & Hx' & He). apply list_elem_of_In in Hx', He.
              apply list_elem_of_fmap in Hx' as (y & -> & Hy). by exists y.
           ++ intros (y & Hy & He). apply list_elem_of_In, in_concat. exists (contents i (number y)).
              split; apply list_elem_of_In; [apply list_elem_of_fmap; by exists y | done].
Qed.

(** C15: A compaction changes nothing that its readers see, under the conditions
    [compact_ready].  The file system is reliable; the compaction is of level 0
    or 1 (the file goes to level 1 or 2); its inputs can be read, their entries
    are different records of the family, and at least one is kept; of a key that
    is in an input and in a file that stays in the two levels, the file that
    stays has the newer records ([cx_older]); and no filter of a level below
    admits the key of a deletion that no snapshot can tell from the newest one
    ([cr_below]: the code drops just those deletions that something below may
    still need, [Compaction.deletion_resurrects]).  Then the inputs leave the two
    levels and one file of the lower level takes their place; and with that
    file, when it is smaller than 4 GiB and opened through the table cache, the
    families hold records (of those they held) that answer as before: every
    lookup at a version not older than the oldest snapshot, of a key that is in
    no memory table, and every lookup at the last version or later of a key that
    is.  (At an older snapshot the lookup of a key that is in a memory table may
    fail: its records in the inputs are all dropped.) *)
Theorem compact_files_keeps_views (db : DB) H l i f t ctx es level key :
  compact_ready db H l i f t ctx es ->
  exists db' fmd w data,
    compact_files path l i ctx (SetCompactionPoint (cf_id f) level key NewVersionPatch) db = Done (true, db') /\
    compact_done db db' i f ctx fmd w /\
    NewRandomAccessFile (F := F) (GetTableFileName path f (env_ db') (number fmd)) (env_ db') = inr data /\
    (zlen data < 2 ^ 32 -> forall cache', cache_of (F := F) path cache_get (env_ db') i (number fmd) f cache' ->
      exists contents' H', db_holds cache' contents' db' H' /\ (forall j, j <> i -> H' j = H j) /\
        same_view t (smallest_of l db) (last_sequence_number (versions_ db)) (H i) (H' i)).
Proof.
  intros Hcr. destruct (compact_files_run db H l i f t ctx es level key Hcr) as (db' & fmd & w & data & Erun & Hdone & Hsm & Hlg & Hdata & Hans).
  exists db', fmd, w, data. split_and!; [done..|]. intros Hlt cache' Hcache.
  apply (compact_holds db db' H l i f t ctx es fmd w cache' Hcr Hdone).
  - apply (merged_ok db db' H l i f t ctx es fmd w cache' Hcr Hdone Hsm Hlg); [apply Hcache|]. by eapply cache_answers.
  - intros j m k Hj. apply Hcache. congruence.
Qed.
End database_compact.
(** ** A compaction on a disk in memory *)

Import DBImpl.Sample.

(** The flushed database: one file of level 0 with three records of two keys. *)
Definition flushed_db : DBImpl Disk MemFile OrderedTable :=
  match CompactMemoryTable (I := OrderedIterator) [47] 0 flush_full with Done (_, db) => db | _ => flush_full end.
Definition flushed_family : ColumnFamilyImpl :=
  default (NewFamily [] 0 sample_options) (families (cfs (versions_ flushed_db)) !! 0%nat).
Definition flushed_tables : Tables OrderedTable := default new_tables (tables_ flushed_db !! 0%nat).
Definition flushed_file : FileMetaData := default (mkFile 0 [] [] 0 0) (head (level_files (current flushed_family) 0)).

(** Its records in the order of the table. *)
Definition flushed_entries : list kv :=
  map entry_of [mkPut [97] [2] 4 0; mkPut [97] [1] 2 0; mkPut [98] [] 3 1].

Definition flushed_contents (i : nat) : Z -> list kv :=
  if decide (i = 0%nat) then with_file (no_contents 0%nat) 2 flushed_entries else no_contents i.

Definition flushed_cache (i : nat) (n : Z) (key : bytes) : error + Tag * bytes :=
  if decide ((i, n) = (0%nat, 2)) then
    match tc_Get (F := MemFile) [47] true flush_family 2 key (env_ flushed_db) with Done r => r | _ => inl kIOError end
  else no_files i n key.

(** Sorted lists with the same elements. *)
Lemma kv_sorted_unique icmp `{!ComparatorLaws icmp} (l k : list kv) :
  StronglySorted (kv_lt icmp) l -> StronglySorted (kv_lt icmp) k -> l ≡ₚ k -> l = k.
Proof.
  intros Hl Hk. apply (StronglySorted_unique_strong (kv_lt icmp)); [|done..]. intros a b _ _ Hab Hba. unfold kv_lt in *.
  pose proof (proj1 (cmp_sym (fst a) (fst b)) Hab). lia.
Qed.

Lemma sorted_NoDup icmp `{!ComparatorLaws icmp} (l : list kv) : StronglySorted (kv_lt icmp) l -> NoDup l.
Proof.
  induction 1 as [|x l Hs IH Hf]; constructor; [|done]. intros Hx. rewrite Forall_forall in Hf. specialize (Hf x Hx).
  unfold kv_lt in Hf. rewrite cmp_refl in Hf. lia.
Qed.

Lemma Done_pair {A B} (a c : A) (b d : B) : Done (a, b) = Done (c, d) -> b = d.
Proof. by intros [= _ ->]. Qed.

Lemma flushed_run : CompactMemoryTable (I := OrderedIterator) [47] 0 flush_full = Done (kOk, flushed_db).
Proof.
  unfold flushed_db.
  assert (H : match CompactMemoryTable (I := OrderedIterator) [47] 0 flush_full with Done (rs, _) => ok rs | _ => false end = true)
    by (by vm_compute).
  destruct (CompactMemoryTable (I := OrderedIterator) [47] 0 flush_full) as [[[] db]| |]; (reflexivity || discriminate H).
Qed.

Lemma flushed_holds : ready flushed_db /\ db_holds flushed_cache flushed_contents flushed_db flush_history.
Proof.
  destruct (CompactMemoryTable_holds (I := OrderedIterator) [47] no_files no_contents flush_full flush_history 0 flush_family flush_tables
    flush_imm 7 flush_full_ready) as (db & fmd & data & pi & es & E & Hd & Hdata & Hpi & Hz & Hes & Hs & Hh).
  pose proof (Done_pair _ _ _ _ (eq_trans (eq_sym flushed_run) E)) as Edb. clear E. subst db.
  assert (Hn : number fmd = 2) by (rewrite (fd_number _ _ _ _ _ _ _ Hd); by vm_compute). rewrite Hn in Hdata, Hh.
  assert (Hlt : zlen data < 2 ^ 32).
  { assert (H : match NewRandomAccessFile (F := MemFile) (GetTableFileName [47] flush_family (env_ flushed_db) 2) (env_ flushed_db)
      with inr d => zlen d <? 2 ^ 32 | inl _ => false end = true) by (by vm_compute). rewrite Hdata in H. by apply Z.ltb_lt. }
  assert (Ees : es = flushed_entries).
  { apply (kv_sorted_unique (InternalCompare lex)).
    - exact Hs.
    - repeat constructor; by vm_compute.
    - assert (Hpi' : pi ≡ₚ flush_history 0%nat).
      { assert (Hnd : NoDup pi).
        { apply (NoDup_fmap_1 entry_of). rewrite <- Hes. by apply (sorted_NoDup (InternalCompare lex)). }
        apply submseteq_length_Permutation.
        - apply NoDup_submseteq; [done|]. rewrite Forall_forall in Hpi. done.
        - assert (Hc : mt_NumEntries (I := OrderedIterator) flush_imm = 3) by (by vm_compute). rewrite Hc in Hz. unfold zlen in Hz.
          assert (Hl : length (flush_history 0%nat) = 3%nat) by (by vm_compute). lia. }
      rewrite Hes, Hpi'. assert (Hh0 : flush_history 0%nat = [mkPut [97] [2] 4 0; mkPut [98] [] 3 1; mkPut [97] [1] 2 0]) by (by vm_compute).
      rewrite Hh0. unfold flushed_entries. cbn [map]. apply perm_skip, perm_swap. }
  subst es. split; [apply Hd|]. apply (Hh Hlt flushed_cache). split.
  - intros j m key Hj. unfold flushed_cache. by rewrite decide_False.
  - intros key r Hr. unfold flushed_cache. rewrite decide_True by done. by rewrite Hr.
Qed.

Definition compact_ctx : CompactionContext := mkCtx 0 [flushed_file] [] [].

Lemma flushed_reads : table_reads (F := MemFile) [47] flushed_family (env_ flushed_db) 2 flushed_entries.
Proof.
  assert (H : match LoadTable (F := MemFile) [47] flushed_family 2 (env_ flushed_db) with
    | Done (inr r) => bool_decide (num_entries (sr_props r) = 3) &&
      forallb (fun vf => match NewIterator vf r with
        | Done it => ok (si_error_ it) && match it_SeekToFirst (Iterator := SstIterator_ops lex) it with
          | Done it' => match scan (Iterator0 := SstIterator_ops lex) 3 it' with
            | Done es => bool_decide (es = flushed_entries) | _ => false end | _ => false end | _ => false end) [true; false]
    | _ => false end = true) by (vm_compute; reflexivity).
  destruct (LoadTable (F := MemFile) [47] flushed_family 2 (env_ flushed_db)) as [[rs|r]| |] eqn:Er; try discriminate H.
  apply andb_true_iff in H as [Hn Hf]. apply bool_decide_eq_true in Hn. exists r. split; [done|]. split; [exact Hn|].
  intros vf. rewrite forallb_forall in Hf. specialize (Hf vf ltac:(destruct vf; cbn; auto)).
  destruct (NewIterator vf r) as [it| |] eqn:Ei; [|discriminate Hf..]. apply andb_true_iff in Hf as [He Hf].
  destruct (it_SeekToFirst (Iterator := SstIterator_ops lex) it) as [it'| |] eqn:Es; [|discriminate Hf..].
  destruct (scan (Iterator0 := SstIterator_ops lex) 3 it') as [es| |] eqn:Esc; [|discriminate Hf..].
  apply bool_decide_eq_true in Hf. subst es. exists it, it'. split_and!; [done | by destruct (si_error_ it) | done |].
  by apply (scan_forward (Iterator0 := SstIterator_ops lex) it' flushed_entries 3).
Qed.

Lemma flushed_ready :
  compact_ready [47] flushed_cache flushed_contents flushed_db flush_history NewSnapshotList 0 flushed_family flushed_tables compact_ctx
    flushed_entries.
Proof.
  destruct flushed_holds as [Hr Hh]. split.
  - exact Hr.
  - exact Hh.
  - apply default_Some. by vm_compute.
  - by vm_compute.
  - apply default_Some. by vm_compute.
  - by vm_compute.
  - by vm_compute.
  - split; constructor.
  - assert (Hf : level_files (current flushed_family) 0 = [flushed_file]) by (by vm_compute).
    assert (Hc : concat (current flushed_family) = [flushed_file]) by (by vm_compute).
    split; cbn [compact_ctx ctx_level inputs0 inputs1].
    + lia.
    + by rewrite Hf.
    + intros g Hg. destruct (not_elem_of_nil g Hg).
    + rewrite Hc. apply NoDup_singleton.
    + rewrite Hf. apply NoDup_singleton.
    + intros l x g [->| ->] Hx Hg; [rewrite Hf in Hx; apply list_elem_of_singleton in Hx; subst x; exfalso; apply Hg; by left|].
      assert (H1 : level_files (current flushed_family) 1 = []) by (by vm_compute). rewrite H1 in Hx. destruct (not_elem_of_nil x Hx).
  - done.
  - apply Forall_singleton. assert (Hn : number flushed_file = 2) by (by vm_compute). rewrite Hn. exact flushed_reads.
  - by vm_compute.
  - repeat constructor; by vm_compute.
  - assert (Hh0 : flush_history 0%nat = [mkPut [97] [2] 4 0; mkPut [98] [] 3 1; mkPut [97] [1] 2 0]) by (by vm_compute).
    rewrite Hh0. apply Forall_forall. intros e (p & -> & Hp)%list_elem_of_fmap. exists p. split; [|reflexivity].
    revert Hp. rewrite !elem_of_cons. clear. tauto.
  - assert (Hh0 : flush_history 0%nat = [mkPut [97] [2] 4 0; mkPut [98] [] 3 1; mkPut [97] [1] 2 0]) by (by vm_compute).
    rewrite Hh0. clear. intros p q Hp Hq. rewrite !elem_of_cons in Hp, Hq.
    destruct Hp as [->|[->|[->|Hp%not_elem_of_nil]]], Hq as [->|[->|[->|Hq%not_elem_of_nil]]]; done.
  - by_compute.
  - by vm_compute.
  - by_compute.
  - by vm_compute.
  - intros name file e _ x Hx _. repeat (apply elem_of_cons in Hx as [->|Hx]; [vm_compute; reflexivity|]). destruct (not_elem_of_nil x Hx).
Qed.

Definition compact_patch0 : VersionPatch := SetCompactionPoint (cf_id flushed_family) 0 [] NewVersionPatch.
Definition compacted_db : DBImpl Disk MemFile OrderedTable :=
  match compact_files [47] NewSnapshotList 0 compact_ctx compact_patch0 flushed_db with Done (_, db) => db | _ => flushed_db end.

(** The file moves to level 1 and answers by the newest version of a key. *)
Lemma compact_files_keeps_views_witness :
  map (fun l => map number (level_files (current (default flushed_family (families (cfs (versions_ compacted_db)) !! 0%nat))) l))
    [0; 1]%nat = [[]; [3]] /\
  tc_Get (F := MemFile) [47] true flushed_family 3 (MakeKey [97] 4 0) (env_ compacted_db) = Done (inr (mkTag 4 0, [2])) /\
  exists db' fmd w, compact_files [47] NewSnapshotList 0 compact_ctx compact_patch0 flushed_db = Done (true, db') /\
    compact_done flushed_db db' 0 flushed_family compact_ctx fmd w.
Proof.
  split; [vm_compute; reflexivity|]. split; [vm_compute; reflexivity|].
  destruct (compact_files_keeps_views [47] flushed_cache flushed_contents flushed_db flush_history NewSnapshotList 0 flushed_family
    flushed_tables compact_ctx flushed_entries 0 [] flushed_ready) as (db' & fmd & w & data & E & Hd & _).
  exists db', fmd, w. exact (conj E Hd).
Defined.
