(* ===== verification/DBScan.v ===== *)
(** * DBScan

    [DBImpl::NewIterator], [NewInternalIterator] (src/db/db-impl.cc) and
    [ColumnFamilyImpl::AddIterators] (src/db/column-family.cc): the iterator of
    a reader, over the memory tables and all files of a family.

    [NewIterator_scans] puts the parts together: what the iterator shows from
    its first entry on is exactly what [Get] answers at the same snapshot. *)

From S2P Require Import Prelude Slice Keys Entries Iterator Merging DBIterator IO MemoryTable WriteBatch Patch Version VersionSet DBImpl DBSpec.
From S2P Require Import Sst SstIterator DBOpen DBFlush DBCompact.

Section db_scan.
Context {E F T I : Type} `{!WritableFile F, !EnvOps E F, !DirOps E, !FileOps E F}.
Context `{!MemTable T, !Iterator I, !MemScan T I}.
Context (abs_db_path_ : bytes) (verify_checksums : bool).

#[local] Abbreviation DB := (DBImpl E F T).

(** The iterator of a memory table, or one of the table cache. *)
#[local] Abbreviation Source := (I + (error + SstIterator))%type.

Definition Source_ops (ucmp : bytes -> bytes -> Z) : Iterator Source :=
  either_Iterator (H0 := sum_Iterator (H := SstIterator_ops ucmp)).

#[local] Abbreviation source_error ucmp := (it_error (Iterator := sum_Iterator (H := SstIterator_ops ucmp))).

(** [AddIterators]: the loop over the files of all levels. *)
Fixpoint add_iterators (f : ColumnFamilyImpl) (files : list FileMetaData) (env : E) (result : list Source) :
    outcome (error * list Source) :=
  match files with
  | [] => Done (kOk, result)
  | fmd :: files =>
    (do! iter := tc_NewIterator (F := F) abs_db_path_ verify_checksums f (number fmd) env in
     let rs := source_error (comparator_Compare (cf_options f)) iter in
     if negb (ok rs) then Done (rs, result) else add_iterators f files env (result ++ [inr iter]))%out
  end.

Definition AddIterators (f : ColumnFamilyImpl) (env : E) (result : list Source) : outcome (error * list Source) :=
  add_iterators f (concat (map (level_files (current f)) (seq 0 kMaxLevel))) env result.

Definition NewInternalIterator (i : nat) (db : DB) : outcome (Merged (I := Source)) :=
  (do! f := ofopt (families (cfs (versions_ db)) !! i) in
   do! t := ofopt (tables_ db !! i) in
   let in_mem := q_PeekAll (map fst (immutable_pipeline_ t)) [] in
   let iters := map (fun table => inl (mt_NewIterator table)) (mutable_ t :: in_mem) in
   do! (rs, iters) := AddIterators f (env_ db) iters in
   Done (if negb (ok rs) then inl rs else NewMergingIterator iters))%out.

(** [NewIterator]: the internal iterator when that has failed, or the iterator
    over it with the last version it shows. *)
Definition NewIterator (snapshot : option Z) (cf : option ColumnFamilyHandle) (db : DB) :
    outcome (Merged (I := Source) + DBIterator (Merged (I := Source)) * Z) :=
  (do! ctx := PrepareForGet snapshot cf db in
   match ctx with
   | inl rs => Done (inl (inl rs))
   | inr ctx =>
     do! f := ofopt (families (cfs (versions_ db)) !! gc_cfd ctx) in
     do! internal := NewInternalIterator (gc_cfd ctx) db in
     let ops := Source_ops (comparator_Compare (cf_options f)) in
     if negb (ok (it_error (Iterator := Merged_ops (Iterator0 := ops) (InternalCompare (comparator_Compare (cf_options f)))) internal))
     then Done (inl internal)
     else Done (inr (NewDBIterator internal, gc_last_sequence_number ctx))
   end)%out.
End db_scan.

(** ** Records and answers *)

(** Every record has its own version of its key. *)
Definition distinct (ps : list put_) : Prop := NoDup (map (fun p => (p_key p, p_version p)) ps).

Lemma distinct_inj ps p q : distinct ps -> p ∈ ps -> q ∈ ps -> p_key p = p_key q -> p_version p = p_version q -> p = q.
Proof.
  unfold distinct. intros Hd Hp Hq Hk Hv. induction ps as [|x ps IH]; [by apply not_elem_of_nil in Hp|].
  cbn [map] in Hd. apply NoDup_cons in Hd as [Hx Hd].
  assert (Hin : forall y, y ∈ ps -> p_key x = p_key y -> p_version x = p_version y -> False).
  { intros y Hy Hxy Hxy'. apply Hx. rewrite Hxy, Hxy'. apply list_elem_of_In, (in_map (fun p => (p_key p, p_version p))). by apply list_elem_of_In. }
  apply elem_of_cons in Hp as [->|Hp], Hq as [->|Hq]; [done | | | by apply IH].
  - by destruct (Hin q Hq).
  - by destruct (Hin p Hp).
Qed.

Lemma distinct_NoDup ps : distinct ps -> NoDup ps.
Proof. apply NoDup_fmap_1. Qed.

Lemma answers_unique ps uk sq r r' : distinct ps -> answers ps uk sq r -> answers ps uk sq r' -> r = r'.
Proof.
  intros Hd. destruct r as [e|[tag v]], r' as [e'|[tag' v']]; cbn.
  - by intros [-> _] [-> _].
  - intros [_ Hn] (p & Hp & Hk & Hv & _). specialize (Hn p Hp Hk). lia.
  - intros (p & Hp & Hk & Hv & _) [_ Hn]. specialize (Hn p Hp Hk). lia.
  - intros (p & Hp & Hk & Hv & -> & -> & Hn) (q & Hq & Hqk & Hqv & -> & -> & Hn').
    assert (p = q) as ->; [|done]. apply (distinct_inj ps); [done.. | congruence |].
    specialize (Hn q Hq Hqk Hqv). specialize (Hn' p Hp Hk Hv). lia.
Qed.

(** New updates of a database get versions of their own. *)
Lemma abstract_write_distinct s os sn H last i :
  (forall j, distinct (H j) /\ Forall (fun p => p_version p <= last) (H j)) -> last < sn -> distinct (abstract_write s os sn H i).
Proof.
  revert sn H last. induction os as [|o os IH]; intros sn H last HH Hl; cbn [abstract_write]; [apply HH|].
  apply (IH (sn + 1) _ sn); [|lia]. intros j. destruct (HH j) as [Hd Hb].
  assert (Hb' : Forall (fun p => p_version p <= sn) (H j)) by (eapply Forall_impl; [exact Hb|]; cbn; lia).
  destruct (family_of s o) as [k|]; [|done]. unfold prepend. destruct (decide (j = k)) as [->|]; [|done].
  split; [|constructor; [destruct o; cbn; lia | done]]. unfold distinct. cbn [map]. apply NoDup_cons. split; [|done].
  intros (p & E & Hp)%list_elem_of_fmap. injection E as _ E. rewrite Forall_forall in Hb. specialize (Hb p Hp).
  destruct o; cbn in E; lia.
Qed.

(** A sorted list without ties. *)
Lemma sorted_lt icmp (l : list kv) :
  StronglySorted (kv_le icmp) l -> NoDup l -> (forall a b, a ∈ l -> b ∈ l -> icmp (fst a) (fst b) = 0 -> a = b) ->
  StronglySorted (kv_lt icmp) l.
Proof.
  induction 1 as [|x l Hs IH Hx]; intros Hnd Hinj; constructor; apply NoDup_cons in Hnd as [Hnx Hnd].
  - apply IH; [done|]. intros a b Ha Hb. apply Hinj; by right.
  - rewrite Forall_forall in *. intros y Hy. specialize (Hx y Hy). unfold kv_le, kv_lt in *.
    destruct (Z.eq_dec (icmp (fst x) (fst y)) 0) as [E|E]; [|lia]. exfalso. apply Hnx.
    rewrite (Hinj x y); [done | by left | by right | done].
Qed.

Lemma entries_inj ucmp `{!ComparatorLaws ucmp, !ComparatorExact ucmp} ps p q :
  distinct ps -> Forall put_ok ps -> p ∈ ps -> q ∈ ps ->
  InternalCompare ucmp (fst (entry_of p)) (fst (entry_of q)) = 0 -> p = q.
Proof.
  intros Hd Hok Hp Hq E. rewrite Forall_forall in Hok. unfold entry_of in E. cbn [fst] in E.
  rewrite InternalCompare_MakeKey in E by apply Hok, Hp || apply Hok, Hq.
  destruct (Z.eqb_spec (ucmp (p_key p) (p_key q)) 0) as [E0|E0]; cbn [negb] in E; [|done].
  apply (distinct_inj ps); [done.. | by apply cmp_exact |]. revert E. case_cmps.
Qed.

(** Entries that are those of records. *)
Lemma records_of (P : put_ -> Prop) (es : list kv) :
  Forall (fun e => exists p, P p /\ e = entry_of p) es -> exists ps, es = map entry_of ps /\ Forall P ps.
Proof.
  induction 1 as [|e es (p & Hp & ->) _ (ps & -> & Hps)]; [by exists []|]. exists (p :: ps). by split; [|constructor].
Qed.

(** ** What a scan shows *)

Section scan_spec.
Context {E F T I : Type} `{!WritableFile F, !EnvOps E F, !DirOps E, !FileOps E F}.
Context `{!MemTable T, !MemTableLaws T, !Iterator I, !MemScan T I, !MemScanLaws T I}.
Context (path : bytes) (vf : bool).
Context (cache_get : nat -> Z -> bytes -> error + Tag * bytes) (contents : nat -> Z -> list kv).

#[local] Abbreviation DB := (DBImpl E F T).
#[local] Abbreviation Source := (I + (error + SstIterator))%type.
#[local] Abbreviation src ucmp := (Source_ops (I := I) ucmp).

Lemma inl_places {A B} `{Iterator A, Iterator B} (a : A) es :
  places it_SeekToFirst a es -> places (H := either_Iterator) (it_SeekToFirst (Iterator := either_Iterator)) (inl a : A + B) es.
Proof. intros (a' & Ea & Hf). exists (inl a'). split; [cbn; by rewrite Ea | by apply inl_runs]. Qed.

Lemma inr_places {A B} `{Iterator A, Iterator B} (b : B) es :
  places it_SeekToFirst b es -> places (H := either_Iterator) (it_SeekToFirst (Iterator := either_Iterator)) (inr b : A + B) es.
Proof. intros (b' & Eb & Hf). exists (inr b'). split; [cbn; by rewrite Eb | by apply inr_runs]. Qed.

Lemma add_iterators_ok f files env cont its :
  Forall (fun g => table_reads (F := F) path f env (number g) (cont (number g))) files ->
  exists news, add_iterators (I := I) path vf f files env its = Done (kOk, its ++ news) /\
    Forall2 (places (H := src (comparator_Compare (cf_options f))) (it_SeekToFirst (Iterator := src (comparator_Compare (cf_options f))))) news (map (fun g => cont (number g)) files) /\
    Forall (fun c => it_error (Iterator := src (comparator_Compare (cf_options f))) c = kOk) news.
Proof.
  intros Hf. revert its. induction Hf as [|g files (r & Er & Hr) _ IH]; intros its; cbn [add_iterators map].
  { exists []. rewrite app_nil_r. by split_and!. }
  unfold tc_NewIterator. rewrite Er. cbn [obind]. destruct (rd_scan _ _ _ Hr vf) as (it & it' & -> & He & Hs & Hfw). cbn [obind].
  cbv zeta. change (it_error (Iterator := sum_Iterator (H := SstIterator_ops (comparator_Compare (cf_options f)))) (inr it)) with (si_error_ it).
  rewrite He. change (negb (ok kOk)) with false. cbn iota.
  destruct (IH (its ++ [inr (inr it)])) as (news & -> & Hp & Hne). exists (inr (inr it) :: news). rewrite <- app_assoc.
  split; [done|]. split; [|by constructor]. constructor; [|done].
  apply inr_places, (sum_places (H := SstIterator_ops (comparator_Compare (cf_options f)))). by exists it'.
Qed.

Lemma mem_iterators ucmp (tables : list T) pss :
  ComparatorLaws ucmp -> Forall2 (mt_holds ucmp) tables pss ->
  exists ess, Forall2 (places (H := src ucmp) (it_SeekToFirst (Iterator := src ucmp))) (map (fun t => inl (mt_NewIterator t)) tables) ess /\
    Forall (fun c => it_error (Iterator := src ucmp) c = kOk) (map (fun t => inl (mt_NewIterator t)) tables) /\
    concat ess ≡ₚ map entry_of (concat pss) /\ Forall (StronglySorted (kv_lt (InternalCompare ucmp))) ess.
Proof.
  intros Hl. induction 1 as [|t ps tables pss Ht _ (ess & H1 & H2 & H3 & H4)]; [by exists []|].
  destruct (mt_scan ucmp t ps Hl Ht) as (es & Hes & Hs & He & Hp). exists (es :: ess). cbn [map concat]. split_and!.
  - constructor; [by apply inl_places | done].
  - by constructor.
  - by rewrite map_app, Hes, H3.
  - by constructor.
Qed.

Lemma levels_all (v : Version) : length v = kMaxLevel -> concat (map (level_files v) (seq 0 kMaxLevel)) = concat v.
Proof. unfold kMaxLevel. destruct v as [|a [|b [|c [|d [|e v]]]]]; cbn; try done. Qed.

(** The tables of family [i] can be opened; every entry of a file is that of a
    record, and is in one file; no two records share a version of a key. *)
Record scan_ready (db : DB) (H : history) (i : nat) (f : ColumnFamilyImpl) : Prop := {
  sr_reads : Forall (fun g => table_reads (F := F) path f (env_ db) (number g) (contents i (number g))) (concat (current f));
  sr_records : Forall (fun e => exists p, p ∈ H i /\ e = entry_of p) (concat (map (fun g => contents i (number g)) (concat (current f))));
  sr_files : NoDup (concat (map (fun g => contents i (number g)) (concat (current f))));
  sr_distinct : distinct (H i);
}.

(** The entries of all sources, sorted, are those of the records. *)
Lemma source_entries ucmp `{!ComparatorLaws ucmp, !ComparatorExact ucmp} v pm pf qs cont cg (l : list kv) :
  files_hold ucmp cg cont v pf -> Forall written_ok (pm ++ pf) -> distinct (pm ++ pf) ->
  concat (map (fun g => cont (number g)) (concat v)) = map entry_of qs -> Forall (fun q => q ∈ pm ++ pf) qs -> NoDup qs ->
  l ≡ₚ map entry_of pm ++ map entry_of qs -> StronglySorted (kv_le (InternalCompare ucmp)) l ->
  StronglySorted (kv_lt (InternalCompare ucmp)) l /\ (forall e, e ∈ l <-> exists p, p ∈ pm ++ pf /\ e = entry_of p) /\
  Forall entry_ok l /\ (length l <= length (pm ++ pf))%nat.
Proof.
  intros Hfh Hw Hd Hfe Hqs Hnq Hp Hs.
  assert (Hok : Forall put_ok (pm ++ pf)) by (eapply Forall_impl; [exact Hw|]; by intros p []).
  assert (Hinj : forall p q, p ∈ pm ++ pf -> q ∈ pm ++ pf -> entry_of p = entry_of q -> p = q).
  { intros p q Hpi Hqi Ee. apply (entries_inj ucmp (pm ++ pf)); [done..|]. rewrite Ee. by apply cmp_refl. }
  assert (Hfiles : forall e, e ∈ map entry_of qs <-> exists g, g ∈ concat v /\ e ∈ cont (number g)).
  { intros e. rewrite <- Hfe, list_elem_of_In, in_concat. split.
    - intros (es & (g & <- & Hg)%in_map_iff & He). exists g. by split; apply list_elem_of_In.
    - intros (g & Hg & He). exists (cont (number g)). split; [apply in_map_iff; exists g; split; [done|]|]; by apply list_elem_of_In. }
  assert (Hq : forall p, p ∈ qs <-> p ∈ pf).
  { rewrite !Forall_forall in *. intros p. split.
    - intros Hpq. apply (fh_all _ _ _ _ _ Hfh); [by apply Hok, Hqs|]. apply Hfiles. by apply list_elem_of_fmap_2.
    - intros Hpf. pose proof Hpf as Hpf'. apply (fh_all _ _ _ _ _ Hfh) in Hpf'; [|apply Hok, elem_of_app; by right].
      apply Hfiles, list_elem_of_fmap in Hpf' as (q & Ee & Hq'). rewrite (Hinj p q); [done | | by apply Hqs | done].
      apply elem_of_app. by right. }
  assert (Hps : forall p, p ∈ pm ++ qs <-> p ∈ pm ++ pf) by (intros p; by rewrite !elem_of_app, Hq).
  assert (Hnd : NoDup (pm ++ qs)).
  { apply distinct_NoDup, NoDup_app in Hd as (H1 & H2 & _). apply NoDup_app. split_and!; [done | | done].
    intros p Hpm Hpq. apply (H2 p Hpm). by apply Hq. }
  rewrite <- map_app in Hp.
  assert (Hel : forall e, e ∈ l <-> exists p, p ∈ pm ++ pf /\ e = entry_of p).
  { intros e. rewrite Hp, list_elem_of_fmap. split; intros (p & H1 & H2); exists p; by rewrite Hps in * || rewrite <- Hps in *. }
  split; [|split; [exact Hel | split]].
  - apply sorted_lt; [done | |].
    + rewrite Hp. apply NoDup_fmap_2_strong; [|done]. intros p q Hpi Hqi. apply Hinj; by apply Hps.
    + intros a b (p & Hpi & ->)%Hel (q & Hqi & ->)%Hel Ee. f_equal. by apply (entries_inj ucmp (pm ++ pf)).
  - apply Forall_forall. intros e (p & Hpi & ->)%Hel. rewrite Forall_forall in Hw. destruct (Hw p Hpi) as [[Ht _] Hf].
    by exists (p_key p), (p_version p), (p_flag p), (p_value p).
  - rewrite Hp, length_map. apply submseteq_length, NoDup_submseteq; [done|]. intros p. apply Hps.
Qed.

Lemma NewIterator_ok (db : DB) H snapshot i f t fuel :
  db_holds cache_get contents db H -> families (cfs (versions_ db)) !! i = Some f -> tables_ db !! i = Some t -> dropped f = false ->
  scan_ready db H i f -> (length (H i) <= fuel)%nat ->
  let ucmp := comparator_Compare (cf_options f) in
  let sq := default (last_sequence_number (versions_ db)) snapshot in
  let merged := Merged_ops (Iterator0 := src ucmp) (InternalCompare ucmp) in
  is_u 56 sq ->
  exists d0 d out, NewIterator path vf snapshot (Some (mkCFHandle true i)) db = Done (inr (d0, sq)) /\
    db_SeekToFirst (Iterator0 := merged) ucmp sq fuel d0 = Done d /\
    scan (Iterator0 := DBIterator_ops (Iterator0 := merged) ucmp sq fuel) (length out) d = Done out /\
    StronglySorted (user_lt ucmp) out /\
    forall u v, (u, v) ∈ out <->
      zlen u < 2 ^ 32 /\ db_Get cache_get snapshot (Some (mkCFHandle true i)) u db = Done (inr (Some v)).
Proof.
  intros Hdb Hf Ht Hd [Hreads Hrec Hnd Hdis] Hfuel ucmp sq merged Hsq. pose proof (Hdb i f t Hf Ht) as (Hl & He & Hfam).
  destruct Hfam as (pm & pis & pf & Hm & Him & _ & Hfh & EH & _ & Hw & _). fold ucmp in Hl, He, Hm, Him, Hfh. pose proof (InternalCompare_laws ucmp) as Hil.
  unfold NewIterator, PrepareForGet. cbn [h_mine h_impl negb]. rewrite Hf. cbn [ofopt obind]. rewrite Hd, Ht. cbn [ofopt obind gc_cfd gc_last_sequence_number].
  rewrite Hf. cbn [ofopt obind]. unfold NewInternalIterator. rewrite Hf, Ht. cbn [ofopt obind]. unfold q_PeekAll. cbn [app].
  destruct (mem_iterators ucmp (mutable_ t :: map fst (immutable_pipeline_ t)) (pm :: pis) Hl ltac:(by constructor)) as (ess & Hp1 & He1 & Hc1 & Hs1).
  unfold AddIterators. rewrite (levels_all _ (fh_levels _ _ _ _ _ Hfh)).
  destruct (add_iterators_ok f (concat (current f)) (env_ db) (contents i)
    (map (fun table => inl (mt_NewIterator table)) (mutable_ t :: map fst (immutable_pipeline_ t))) Hreads) as (news & -> & Hp2 & He2).
  cbn [obind]. change (negb (ok kOk)) with false. cbn iota.
  set (cs := map (fun table => inl (mt_NewIterator table)) (mutable_ t :: map fst (immutable_pipeline_ t)) ++ news). fold ucmp in Hp2, He2 |- *. fold sq.
  assert (Hne : cs <> []) by done.
  assert (Hpl : Forall2 (places (H := src ucmp) (it_SeekToFirst (Iterator := src ucmp))) cs (ess ++ map (fun g => contents i (number g)) (concat (current f))))
    by by apply Forall2_app.
  assert (Herr : it_error (Iterator := merged) (NewMergingIterator cs) = kOk) by (apply NewMerging_error; [done | by apply Forall_app]).
  unfold merged in Herr. rewrite Herr. change (negb (ok kOk)) with false. cbn iota. exists (NewDBIterator (NewMergingIterator cs)).
  assert (Hsorted : Forall (StronglySorted (kv_le (InternalCompare ucmp))) (ess ++ map (fun g => contents i (number g)) (concat (current f)))).
  { apply Forall_app. split.
    - eapply Forall_impl; [exact Hs1|]. intros x. apply StronglySorted_impl. unfold kv_lt, kv_le. lia.
    - apply Forall_map. eapply Forall_impl; [exact (fh_ok _ _ _ _ _ Hfh)|]. intros g Hg. eapply StronglySorted_impl; [|exact (ok_sorted _ _ _ _ Hg)].
      unfold kv_lt, kv_le. lia. }
  destruct (merged_places (Iterator0 := src ucmp) (InternalCompare ucmp) (fun J HJ => @it_SeekToFirst J HJ) cs _ ltac:(by left) Hne Hpl Hsorted)
    as (l & Hperm & Hsl & Hplace).
  rewrite concat_app, Hc1 in Hperm. destruct (records_of _ _ Hrec) as (qs & Hqs & Hqin). rewrite Hqs in Hperm, Hnd. rewrite EH in *. cbn [concat] in Hperm.
  destruct (source_entries ucmp (current f) (pm ++ concat pis) pf qs (contents i) (cache_get i) l Hfh Hw Hdis Hqs Hqin (NoDup_fmap_1 _ _ Hnd) Hperm Hsl)
    as (Hlt & Hel & Hok & Hlen).
  destruct (db_SeekToFirst_snapshot (Iterator0 := merged) ucmp sq fuel Hsq _ l Hplace Hlt Hok ltac:(lia)) as (d & out & Ed & Hfw & Hsort & Hout).
  exists d, out. split; [done|]. split; [exact Ed|]. split; [by apply (forward_scan (Iterator0 := DBIterator_ops (Iterator0 := merged) ucmp sq fuel))|].
  split; [exact Hsort|]. rewrite <- EH in *. intros u v. rewrite Hout. unfold shows, lookup_key.
  assert (Hput : Forall put_ok (H i)) by (eapply Forall_impl; [exact Hw|]; by intros p []).
  pose proof (table_get_answers ucmp (H i) l u sq Hel Hput Hlt Hsq) as Hans.
  assert (Hget : zlen u < 2 ^ 32 -> exists r, db_Get cache_get snapshot (Some (mkCFHandle true i)) u db = Done (shown r) /\ answers (H i) u sq r)
    by (intros Hu; by apply (db_Get_answers cache_get contents db H snapshot i f t u Hdb Hf Ht Hd Hsq Hu)).
  split.
  - intros [s Es]. rewrite Es in Hans. cbn [flag] in Hans. rewrite Z.eqb_refl in Hans.
    assert (Hu : zlen u < 2 ^ 32) by (destruct Hans as (p & Hp & <- & _); rewrite Forall_forall in Hput; by apply Hput).
    split; [done|]. destruct (Hget Hu) as (r & -> & Hr). by rewrite (answers_unique _ _ _ _ _ Hdis Hr Hans).
  - intros [Hu Hg]. destruct (Hget Hu) as (r & Er & Hr). rewrite Er in Hg. pose proof (answers_unique _ _ _ _ _ Hdis Hr Hans) as E1.
    destruct (table_get _ _ l) as [e|[tag w]]; subst r; cbn [shown] in Hg; [by injection Hg|].
    destruct tag as [s fl]. cbn [flag] in *. destruct Hr as (p & Hp & _ & _ & Etag & _). injection Etag as -> ->.
    rewrite Forall_forall in Hw. destruct (Hw p Hp) as [_ [Efl|Efl]]; rewrite Efl in *; cbn in Hg.
    + injection Hg as <-. by exists (p_version p).
    + by injection Hg.
Qed.

(** C6: The iterator of a reader, at a snapshot or at the last version, shows
    from its first entry on exactly the keys that [Get] finds there, in order
    and with the values [Get] finds, however the records are spread over the
    mutable table, the immutable one and the files of all levels: when the files
    can be read, have the entries of the records of the family, each in one
    file, and no two records share a version of a key ([scan_ready]). *)
Theorem NewIterator_scans (db : DB) H snapshot i f t fuel :
  db_holds cache_get contents db H -> families (cfs (versions_ db)) !! i = Some f -> tables_ db !! i = Some t -> dropped f = false ->
  scan_ready db H i f -> (length (H i) <= fuel)%nat ->
  let ucmp := comparator_Compare (cf_options f) in
  let sq := default (last_sequence_number (versions_ db)) snapshot in
  let merged := Merged_ops (Iterator0 := src ucmp) (InternalCompare ucmp) in
  is_u 56 sq ->
  exists d0 d out, NewIterator path vf snapshot (Some (mkCFHandle true i)) db = Done (inr (d0, sq)) /\
    db_SeekToFirst (Iterator0 := merged) ucmp sq fuel d0 = Done d /\
    scan (Iterator0 := DBIterator_ops (Iterator0 := merged) ucmp sq fuel) (length out) d = Done out /\
    StronglySorted (user_lt ucmp) out /\
    forall u v, (u, v) ∈ out <->
      zlen u < 2 ^ 32 /\ db_Get cache_get snapshot (Some (mkCFHandle true i)) u db = Done (inr (Some v)).
Proof. apply NewIterator_ok. Qed.
End scan_spec.

(** ** A scan over a file and a memory table *)

Import DBImpl.Sample.

Definition more_batch : list op := [OpPut 0 [99] [7]].
Definition scanned_db : DBImpl Disk MemFile OrderedTable := write more_batch flushed_db.
Definition scanned_history : history :=
  abstract_write (cfs (versions_ flushed_db)) more_batch (last_sequence_number (versions_ flushed_db) + 1) flush_history.

(** What the first [n] steps of an iterator show. *)
Definition shown_by (n : nat) (snapshot : option Z) (db : DBImpl Disk MemFile OrderedTable) : outcome (list kv) :=
  let merged := Merged_ops (Iterator0 := Source_ops (I := OrderedIterator) lex) (InternalCompare lex) in
  match NewIterator (I := OrderedIterator) [47] true snapshot (Some (mkCFHandle true 0)) db with
  | Done (inr (d0, sq)) =>
    obind (db_SeekToFirst (Iterator0 := merged) lex sq 4 d0) (scan (Iterator0 := DBIterator_ops (Iterator0 := merged) lex sq 4) n)
  | _ => Undef
  end.

Example scan_at_snapshots :
  shown_by 2 None scanned_db = Done [([97], [2]); ([99], [7])] /\ shown_by 1 (Some 3) scanned_db = Done [([97], [1])].
Proof. split; vm_compute; reflexivity. Qed.

Lemma more_ok : batch_ok more_batch /\ 0 <= last_sequence_number (versions_ flushed_db) /\
  last_sequence_number (versions_ flushed_db) + 1 + zlen more_batch <= 2 ^ 56.
Proof. split; [split; [repeat (apply Forall_cons_2 || apply Forall_nil_2) | split] | split]; by vm_compute. Qed.

Lemma more_known : Forall (op_known (cfs (versions_ flushed_db))) more_batch.
Proof.
  assert (Hk : match default_cfd_ (cfs (versions_ flushed_db)) with Some i => bool_decide (is_Some (families (cfs (versions_ flushed_db)) !! i)) | None => false end = true)
    by (vm_compute; reflexivity).
  apply Forall_cons_2; [|apply Forall_nil_2]. destruct (default_cfd_ (cfs (versions_ flushed_db))) as [i|] eqn:Ei; [|discriminate Hk].
  apply bool_decide_eq_true in Hk as [f Hf]. exists i, f. split; [exact Ei | split; [exact Hf | reflexivity]].
Qed.

Lemma scanned_holds : db_holds flushed_cache flushed_contents scanned_db scanned_history.
Proof.
  destruct flushed_holds as [Hr Hh]. destruct more_ok as (Hb & Hl0 & Hl).
  destruct (WriteImpl_holds [47] sample_options no_compaction flushed_cache flushed_contents true more_batch flushed_db flush_history Hr Hh Hb more_known Hl0 Hl)
    as (db' & E1 & _ & _ & _ & Hh').
  assert (Edb : scanned_db = db') by (unfold scanned_db, write; rewrite E1; exact eq_refl). rewrite Edb. exact Hh'.
Qed.

Lemma scanned_records :
  scanned_history 0%nat = [mkPut [99] [7] 5 0; mkPut [97] [2] 4 0; mkPut [98] [] 3 1; mkPut [97] [1] 2 0].
Proof. vm_compute. reflexivity. Qed.

Lemma scanned_family : families (cfs (versions_ scanned_db)) !! 0%nat = Some flushed_family.
Proof.
  assert (H : families (cfs (versions_ scanned_db)) = families (cfs (versions_ flushed_db))) by (vm_compute; reflexivity).
  rewrite H. apply default_Some. by vm_compute.
Qed.

Lemma scanned_env : env_ scanned_db = env_ flushed_db.
Proof. vm_compute. reflexivity. Qed.

Lemma scanned_ready : scan_ready (F := MemFile) [47] flushed_contents scanned_db scanned_history 0 flushed_family.
Proof.
  assert (Hc : concat (current flushed_family) = [flushed_file]) by (by vm_compute).
  assert (Hn : number flushed_file = 2) by (by vm_compute).
  assert (He : flushed_contents 0%nat 2 = flushed_entries) by (by vm_compute).
  split; rewrite ?Hc; cbn [map concat]; rewrite ?Hn, ?He, ?scanned_env, ?scanned_records, ?app_nil_r.
  - repeat (apply Forall_cons_2 || apply Forall_nil_2). rewrite Hn, He. exact flushed_reads.
  - apply Forall_forall. intros e (p & -> & Hp)%list_elem_of_fmap. exists p. split; [|done]. right. revert Hp. rewrite !elem_of_cons. tauto.
  - apply (bool_decide_unpack (NoDup _)). by vm_compute.
  - unfold distinct. apply (bool_decide_unpack (NoDup _)). by vm_compute.
Qed.

Lemma NewIterator_scans_witness :
  exists d0 d out,
    NewIterator (I := OrderedIterator) [47] true (Some 3) (Some (mkCFHandle true 0)) scanned_db = Done (inr (d0, 3)) /\
    db_SeekToFirst (Iterator0 := Merged_ops (Iterator0 := Source_ops lex) (InternalCompare lex)) lex 3 4 d0 = Done d /\
    scan (Iterator0 := DBIterator_ops (Iterator0 := Merged_ops (Iterator0 := Source_ops lex) (InternalCompare lex)) lex 3 4) (length out) d = Done out.
Proof.
  assert (Ht : is_Some (tables_ scanned_db !! 0%nat)) by (apply (bool_decide_unpack (is_Some _)); by vm_compute).
  destruct Ht as [t Ht].
  assert (Hd : dropped flushed_family = false) by (by vm_compute).
  assert (Hlen : (length (scanned_history 0%nat) <= 4)%nat) by (rewrite scanned_records; cbn; lia).
  assert (Hsq : is_u 56 (default (last_sequence_number (versions_ scanned_db)) (Some 3))) by (cbn; unfold is_u; lia).
  destruct (NewIterator_scans [47] true flushed_cache flushed_contents scanned_db scanned_history (Some 3) 0 flushed_family t 4
    scanned_holds scanned_family Ht Hd scanned_ready Hlen Hsq) as (d0 & d & out & E1 & E2 & E3 & _).
  exists d0, d, out. exact (conj E1 (conj E2 E3)).
Defined.
