(* ===== verification/TxnWait.v ===== *)
(** * TxnWait

    src/txn/transaction-lock-mgr.cc: who waits for whom.  A transaction that is
    about to wait for the holders of a lock enters them in the wait graph
    ([IncrementWaiters]), which is searched breadth first for a way back; the
    cycles that were found are kept in a ring buffer ([DeadLockInfoBuffer]).

    The graph of all waiting transactions never has a cycle
    ([IncrementWaiters_acyclic]); the buffer holds the latest deadlocks
    ([DeadLockInfoBuffer_latest]).  The counts of [rev_wait_txn_map_] are
    unbounded here (an [int] in the code, it counts elements of vectors). *)

From stdpp Require Import relations.
From S2P Require Import Prelude Slice.

(** ** Data *)

Record TrackedTxnInfo := mkTracked {
  neighbors : list Z;
  tr_cfid : Z;
  waiting_key : bytes;
  tr_exclusive : bool
}.

Record DeadLockInfo := mkDead { dl_txn_id : Z; dl_cfid : Z; dl_exclusive : bool; dl_waiting_key : bytes }.

(** The constructor of a path leaves [limit_exceeded] uninitialised. *)
Record DeadLockPath := mkPath { path : list DeadLockInfo; deadlock_time : Z; limit_exceeded : option bool }.

Definition path_of (entry : list DeadLockInfo) (dl_time : Z) : DeadLockPath := mkPath entry dl_time None.
Definition no_path (dl_time : Z) (limit : bool) : DeadLockPath := mkPath [] dl_time (Some limit).

Definition path_empty (p : DeadLockPath) : outcome bool :=
  match path p with
  | [] => (do! limit := ofopt (limit_exceeded p) in Done (negb limit))%out
  | _ => Done false
  end.

(** ** DeadLockInfoBuffer *)

Record DeadLockInfoBuffer := mkBuffer { paths_buffer_ : list DeadLockPath; buffer_idx_ : nat }.

Definition NewDeadLockInfoBuffer (n_latest_dlocks : nat) : DeadLockInfoBuffer :=
  mkBuffer (replicate n_latest_dlocks (no_path 0 false)) 0.

(** An index behind the end is not defined. *)
Definition AddNewPath (p : DeadLockPath) (b : DeadLockInfoBuffer) : outcome DeadLockInfoBuffer :=
  if bool_decide (paths_buffer_ b = []) then Done b else
  if (buffer_idx_ b <? length (paths_buffer_ b))%nat then
    Done (mkBuffer (<[buffer_idx_ b := p]> (paths_buffer_ b)) ((buffer_idx_ b + 1) mod length (paths_buffer_ b)))
  else Undef.

Definition Normalize (b : DeadLockInfoBuffer) : outcome (list DeadLockPath) :=
  if bool_decide (paths_buffer_ b = []) then Done [] else
  (do! p := ofopt (paths_buffer_ b !! buffer_idx_ b) in
   do! e := path_empty p in
   Done (if e then take (buffer_idx_ b) (paths_buffer_ b)
         else drop (buffer_idx_ b) (paths_buffer_ b) ++ take (buffer_idx_ b) (paths_buffer_ b)))%out.

Definition Resize (size : nat) (b : DeadLockInfoBuffer) : outcome DeadLockInfoBuffer :=
  (do! ps := Normalize b in
   if (size <? length ps)%nat then Done (mkBuffer (drop (length ps - size) ps) 0)
   else Done (mkBuffer (ps ++ replicate (size - length ps) (no_path 0 false)) (length ps)))%out.

Definition PrepareBuffer (b : DeadLockInfoBuffer) : outcome (list DeadLockPath) :=
  (do! working := Normalize b in Done (reverse working))%out.

(** ** The wait graph *)

Record WaitState := mkWait {
  wait_txn_map_ : gmap Z TrackedTxnInfo;
  rev_wait_txn_map_ : gmap Z Z;
  dlock_buffer_ : DeadLockInfoBuffer
}.

Definition NewWaitState (max_num_deadlocks : nat) : WaitState := mkWait ∅ ∅ (NewDeadLockInfoBuffer max_num_deadlocks).

(** [rev_wait_txn_map_[wid]++] *)
Definition count_up (m : gmap Z Z) (wid : Z) : gmap Z Z :=
  match m !! wid with Some n => <[wid := n + 1]> m | None => <[wid := 1]> m end.

(** [rev_wait_txn_map_[wid]--]; a count of 0 is erased. *)
Definition count_down (m : gmap Z Z) (wid : Z) : gmap Z Z :=
  let n := default 0 (m !! wid) - 1 in if n =? 0 then delete wid m else <[wid := n]> m.

Definition DecrementWaitersLockless (txn_id : Z) (wait_ids : list Z) (s : WaitState) : WaitState :=
  mkWait (delete txn_id (wait_txn_map_ s)) (fold_left count_down wait_ids (rev_wait_txn_map_ s)) (dlock_buffer_ s).

Definition DecrementWaiters := DecrementWaitersLockless.

(** [wait_txn_map_.insert]: an entry that is there stays. *)
Definition insert_new {A} (k : Z) (x : A) (m : gmap Z A) : gmap Z A :=
  match m !! k with Some _ => m | None => <[k := x]> m end.

(** The queue of the search: the transactions with the place of their parent
    ([None] for -1). *)
Abbreviation queue := (list (Z * option nat)).

(** The way from a place of the queue up to the root. *)
Fixpoint dead_path (fuel : nat) (m : gmap Z TrackedTxnInfo) (q : queue) (head : option nat) : outcome (list DeadLockInfo) :=
  match head with
  | None => Done []
  | Some head =>
    match fuel with
    | O => OutOfFuel
    | S fuel =>
      (do! (id, parent) := ofopt (q !! head) in
       do! info := ofopt (m !! id) in
       do! rest := dead_path fuel m q parent in
       Done (mkDead id (tr_cfid info) (tr_exclusive info) (waiting_key info) :: rest))%out
    end
  end.

(** What the search ends with. *)
Inductive verdict := NoCycle | Cycle (p : list DeadLockInfo) | TooDeep.

(** The loop from [head] on, [fuel] being [depth - head]. *)
Fixpoint search (fuel depth : nat) (m : gmap Z TrackedTxnInfo) (txn_id : Z) (next_ids : list Z) (parent : option nat)
    (head : nat) (q : queue) : outcome verdict :=
  match fuel with
  | O => Done TooDeep
  | S fuel =>
    let q := q ++ map (fun id => (id, parent)) (take (depth - length q) next_ids) in
    if (length q =? head)%nat then Done NoCycle else
    (do! (next, _) := ofopt (q !! head) in
     if next =? txn_id then
       do! p := dead_path (length q) m q (Some head) in Done (Cycle (reverse p))
     else
       match m !! next with
       | None => search fuel depth m txn_id [] parent (S head) q
       | Some info => search fuel depth m txn_id (neighbors info) (Some head) (S head) q
       end)%out
  end.

(** [IncrementWaiters] of transaction [txn_id], whose search goes [depth] deep,
    at the time [now]: whether there is a deadlock. *)
Definition IncrementWaiters (txn_id : Z) (depth : nat) (now : Z) (wait_ids : list Z) (key : bytes) (cfid : Z)
    (exclusive : bool) (s : WaitState) : outcome (bool * WaitState) :=
  let s := mkWait (insert_new txn_id (mkTracked wait_ids cfid key exclusive) (wait_txn_map_ s))
    (fold_left count_up wait_ids (rev_wait_txn_map_ s)) (dlock_buffer_ s) in
  if bool_decide (rev_wait_txn_map_ s !! txn_id = None) then Done (false, s) else
  let found p :=
    (do! b := AddNewPath p (dlock_buffer_ s) in
     Done (true, DecrementWaitersLockless txn_id wait_ids (mkWait (wait_txn_map_ s) (rev_wait_txn_map_ s) b)))%out in
  (do! r := search depth depth (wait_txn_map_ s) txn_id wait_ids None 0 [] in
   match r with
   | NoCycle => Done (false, s)
   | Cycle p => found (path_of p now)
   | TooDeep => found (no_path now true)
   end)%out.

(** ** The latest deadlocks *)

(** A path that a deadlock or a search that went too deep gives. *)
Definition is_found (p : DeadLockPath) : Prop := path_empty p = Done false.

(** The buffer of size [n] after the paths [ps] were added, the oldest first. *)
Record buffer_holds (n : nat) (ps : list DeadLockPath) (b : DeadLockInfoBuffer) : Prop := {
  bh_length : length (paths_buffer_ b) = n;
  bh_some : Forall is_found ps;
  bh_paths : if decide (length ps < n)%nat
    then paths_buffer_ b = ps ++ replicate (n - length ps) (no_path 0 false) /\ buffer_idx_ b = length ps
    else exists l x r, paths_buffer_ b = l ++ x :: r /\ buffer_idx_ b = length l /\ x :: r ++ l = drop (length ps - n) ps;
}.

Lemma NewBuffer_holds n : (0 < n)%nat -> buffer_holds n [] (NewDeadLockInfoBuffer n).
Proof.
  intros Hn. split; cbn; [by rewrite length_replicate | constructor |]. rewrite decide_True by done. by rewrite Nat.sub_0_r.
Qed.

(** The place is taken by the new path. *)
Lemma AddNewPath_at p l x r : AddNewPath p (mkBuffer (l ++ x :: r) (length l)) =
  Done (mkBuffer (l ++ p :: r) ((length l + 1) mod (length l + S (length r)))).
Proof.
  unfold AddNewPath. cbn [paths_buffer_ buffer_idx_]. rewrite bool_decide_false by (by destruct l).
  rewrite length_app. cbn [length]. destruct (Nat.ltb_spec (length l) (length l + S (length r))); [|lia].
  replace (length l) with (length l + 0)%nat at 1 by lia. by rewrite insert_app_r.
Qed.

Lemma AddNewPath_holds n ps b p :
  (0 < n)%nat -> buffer_holds n ps b -> is_found p -> exists b', AddNewPath p b = Done b' /\ buffer_holds n (ps ++ [p]) b'.
Proof.
  intros Hn [Hlen Hps Hb] Hp. destruct b as [buf idx]. cbn [paths_buffer_ buffer_idx_] in *.
  assert (Hps' : Forall is_found (ps ++ [p])) by (apply Forall_app; split; [done | by constructor]).
  assert (Hsplit : exists l x r, buf = l ++ x :: r /\ idx = length l).
  { destruct (decide _) as [Hlt|]; [|by destruct Hb as (l & x & r & ? & ? & _); exists l, x, r].
    destruct Hb as [-> ->]. exists ps, (no_path 0 false), (replicate (n - S (length ps)) (no_path 0 false)).
    by replace (n - length ps)%nat with (S (n - S (length ps))) by lia. }
  destruct Hsplit as (l & x & r & -> & ->). rewrite AddNewPath_at. eexists. split; [reflexivity|].
  rewrite length_app in Hlen. cbn [length] in Hlen. split; cbn [paths_buffer_ buffer_idx_]; [by rewrite length_app | done |].
  rewrite length_app. cbn [length]. destruct (decide (length ps < n)%nat) as [Hlt|Hge].
  - destruct Hb as [Hb Hl]. apply app_inj_1 in Hb as [-> Hb]; [|done].
    assert (Hr : r = replicate (n - S (length ps)) (no_path 0 false)).
    { replace (n - length ps)%nat with (S (n - S (length ps))) in Hb by lia. by injection Hb as _ ->. }
    destruct (decide (length ps + 1 < n)%nat).
    + rewrite Nat.mod_small by lia. split; [|lia]. rewrite <- app_assoc. cbn. subst r. repeat f_equal. lia.
    + assert (r = []) as -> by (destruct r; [done | cbn in Hlen; lia]). cbn [length] in *.
      replace (length ps + 1)%nat with n by lia. rewrite Nat.Div0.mod_same, Nat.sub_diag, drop_0.
      destruct ps as [|q ps']; [by exists [], p, []|]. exists [], q, (ps' ++ [p]). by rewrite app_nil_r.
  - destruct Hb as (l0 & x0 & r0 & Hb & Hl & Hd). apply app_inj_1 in Hb as [<- [= <- <-]]; [|done].
    rewrite decide_False by lia.
    assert (Hd' : drop (length ps + 1 - n) (ps ++ [p]) = r ++ l ++ [p]).
    { replace (length ps + 1 - n)%nat with (S (length ps - n)) by lia. rewrite skipn_app.
      replace (S (length ps - n) - length ps)%nat with 0%nat by lia. rewrite drop_0, app_assoc. f_equal.
      replace (S (length ps - n)) with (1 + (length ps - n))%nat by lia. by rewrite Nat.add_comm, <- drop_drop, <- Hd. }
    rewrite Hd'. destruct r as [|y r]; cbn [length] in *.
    + rewrite Nat.add_1_r, Nat.Div0.mod_same. destruct l as [|z l]; [by exists [], p, []|].
      exists [], z, (l ++ [p]). by rewrite app_nil_r.
    + rewrite Nat.mod_small by lia. exists (l ++ [p]), y, r. rewrite <- app_assoc. split_and!; [done | | done].
      rewrite length_app. done.
Qed.

Lemma Normalize_holds n ps b : (0 < n)%nat -> buffer_holds n ps b -> Normalize b = Done (drop (length ps - n) ps).
Proof.
  intros Hn [Hlen Hps Hb]. unfold Normalize. rewrite bool_decide_false by (intros E; rewrite E in Hlen; cbn in Hlen; lia).
  destruct (decide _) as [Hlt|Hge].
  - destruct Hb as [-> ->]. replace (n - length ps)%nat with (S (n - S (length ps))) by lia. cbn [replicate].
    rewrite list_lookup_middle by done. cbn [ofopt obind path_empty no_path path limit_exceeded negb].
    rewrite take_app_length. by replace (length ps - n)%nat with 0%nat by lia.
  - destruct Hb as (l & x & r & -> & -> & Hd). rewrite list_lookup_middle by done. cbn [ofopt obind].
    assert (Hx : is_found x).
    { rewrite Forall_forall in Hps. apply Hps. assert (Hin : x ∈ drop (length ps - n) ps) by (rewrite <- Hd; by left).
      rewrite <- (take_drop (length ps - n) ps). apply elem_of_app. by right. }
    rewrite Hx. cbn [obind]. by rewrite drop_app_length, take_app_length, <- Hd.
Qed.

Definition AddNewPaths (ps : list DeadLockPath) (b : DeadLockInfoBuffer) : outcome DeadLockInfoBuffer :=
  fold_left (fun b p => obind b (AddNewPath p)) ps (Done b).

Lemma AddNewPaths_holds n ps b qs :
  (0 < n)%nat -> buffer_holds n ps b -> Forall is_found qs ->
  exists b', AddNewPaths qs b = Done b' /\ buffer_holds n (ps ++ qs) b'.
Proof.
  intros Hn Hb Hq. revert ps b Hb. unfold AddNewPaths. induction Hq as [|q qs Hq _ IH]; intros ps b Hb.
  { exists b. by rewrite app_nil_r. }
  destruct (AddNewPath_holds n ps b q Hn Hb Hq) as (b' & E & Hb'). cbn [fold_left obind]. rewrite E.
  destruct (IH _ _ Hb') as (b'' & E' & Hb''). exists b''. by rewrite <- app_assoc in Hb''.
Qed.

(** The buffer keeps the latest deadlocks: of the paths that were added to
    a buffer of size [n], [PrepareBuffer] gives the last [n], the newest first. *)
Theorem DeadLockInfoBuffer_latest n ps :
  (0 < n)%nat -> Forall is_found ps ->
  exists b, AddNewPaths ps (NewDeadLockInfoBuffer n) = Done b /\ PrepareBuffer b = Done (take n (reverse ps)).
Proof.
  intros Hn Hps. destruct (AddNewPaths_holds n [] _ ps Hn (NewBuffer_holds n Hn) Hps) as (b & E & Hb).
  exists b. split; [exact E|]. unfold PrepareBuffer. rewrite (Normalize_holds n ps b Hn Hb). cbn [obind].
  by rewrite take_reverse.
Qed.

Lemma DeadLockInfoBuffer_latest_witness :
  exists b, AddNewPaths (map (fun t => no_path t true) [1; 2; 3]) (NewDeadLockInfoBuffer 2) = Done b /\
    PrepareBuffer b = Done [no_path 3 true; no_path 2 true].
Proof. apply (DeadLockInfoBuffer_latest 2 (map (fun t => no_path t true) [1; 2; 3])); [lia | by repeat constructor]. Defined.

(** A buffer that is full and keeps its size has its index behind the end: the
    next deadlock is written out of range. *)
Example resize_to_full :
  (do! b := AddNewPaths [no_path 1 true] (NewDeadLockInfoBuffer 1) in
   do! b := Resize 1 b in AddNewPath (no_path 2 true) b)%out = Undef.
Proof. reflexivity. Qed.

(** ** The graph *)

(** [a] waits for [b]. *)
Definition waits (m : gmap Z TrackedTxnInfo) (a b : Z) : Prop := exists info, m !! a = Some info /\ b ∈ neighbors info.

Definition acyclic (m : gmap Z TrackedTxnInfo) : Prop := forall t, ~ tc (waits m) t t.

Definition occurs (id : Z) (l : list Z) : Z := zlen (filter (fun x => x = id) l).

(** How often [id] is waited for. *)
Definition waited (m : gmap Z TrackedTxnInfo) (id : Z) : Z :=
  map_fold (fun _ info n => occurs id (neighbors info) + n) 0 m.

(** The counts are those of the graph, and there is no cycle. *)
Record wait_ok (s : WaitState) : Prop := {
  wo_counts : forall id, rev_wait_txn_map_ s !! id =
    if decide (waited (wait_txn_map_ s) id = 0) then None else Some (waited (wait_txn_map_ s) id);
  wo_acyclic : acyclic (wait_txn_map_ s);
  wo_buffer : (buffer_idx_ (dlock_buffer_ s) < length (paths_buffer_ (dlock_buffer_ s)))%nat \/
    paths_buffer_ (dlock_buffer_ s) = [];
}.

Lemma occurs_nonneg id l : 0 <= occurs id l.
Proof. apply zlen_nonneg. Qed.

Lemma occurs_cons id x l : occurs id (x :: l) = (if decide (x = id) then 1 else 0) + occurs id l.
Proof. unfold occurs. rewrite filter_cons. destruct (decide (x = id)); [by rewrite zlen_cons | lia]. Qed.

Lemma occurs_elem id l : occurs id l = 0 <-> id ∉ l.
Proof.
  induction l as [|x l IH]; [split; [intros _; apply not_elem_of_nil | done]|]. rewrite occurs_cons, not_elem_of_cons.
  pose proof (occurs_nonneg id l). destruct (decide (x = id)) as [->|]; [split; [lia | tauto]|]. rewrite Z.add_0_l, IH.
  split; [by split | tauto].
Qed.

Lemma waited_insert m t info id : m !! t = None -> waited (<[t := info]> m) id = occurs id (neighbors info) + waited m id.
Proof. intros Ht. unfold waited. rewrite map_fold_insert_L; [done | lia | done]. Qed.

Lemma waited_delete m t info id : m !! t = Some info -> waited m id = occurs id (neighbors info) + waited (delete t m) id.
Proof. intros Ht. rewrite <- (insert_delete_id m t info Ht) at 1. apply waited_insert. by rewrite lookup_delete_eq. Qed.

Lemma waited_nonneg m id : 0 <= waited m id.
Proof.
  induction m as [|t info m Ht IH] using map_ind; [done|]. rewrite waited_insert by done. pose proof (occurs_nonneg id (neighbors info)). lia.
Qed.

Lemma waited_0 m id : waited m id = 0 -> forall a, ~ waits m a id.
Proof.
  intros Hw a (info & Ha & Hid). rewrite (waited_delete m a info id Ha) in Hw.
  pose proof (occurs_nonneg id (neighbors info)). pose proof (waited_nonneg (delete a m) id).
  apply (occurs_elem id (neighbors info)); [lia | done].
Qed.

(** The counts under the loops. *)
Definition counts (m : gmap Z Z) (f : Z -> Z) : Prop := forall id, m !! id = if decide (f id = 0) then None else Some (f id).

Lemma counts_up l m f : counts m f -> (forall id, 0 <= f id) -> counts (fold_left count_up l m) (fun id => occurs id l + f id).
Proof.
  revert m f. induction l as [|x l IH]; intros m f Hm Hf; cbn [fold_left]; [exact Hm|].
  assert (Hm' : counts (count_up m x) (fun id => (if decide (x = id) then 1 else 0) + f id)).
  { intros id. unfold count_up. specialize (Hf id). rewrite (Hm x). destruct (decide (x = id)) as [->|Hne].
    - rewrite (decide_False (P := 1 + f id = 0)) by lia. destruct (decide (f id = 0)); rewrite lookup_insert_eq; f_equal; lia.
    - rewrite Z.add_0_l. destruct (decide (f x = 0)); rewrite lookup_insert_ne by done; apply Hm. }
  intros id. rewrite (IH _ _ Hm'); [|intros y; specialize (Hf y); destruct (decide _); lia].
  rewrite occurs_cons. by replace (occurs id l + ((if decide (x = id) then 1 else 0) + f id))
    with ((if decide (x = id) then 1 else 0) + occurs id l + f id) by lia.
Qed.

Lemma counts_down l m f : counts m f -> (forall id, occurs id l <= f id) -> counts (fold_left count_down l m) (fun id => f id - occurs id l).
Proof.
  revert m f. induction l as [|x l IH]; intros m f Hm Hf; cbn [fold_left].
  { intros id. unfold occurs. cbn. rewrite Z.sub_0_r. apply Hm. }
  assert (Hm' : counts (count_down m x) (fun id => f id - if decide (x = id) then 1 else 0)).
  { intros id. pose proof (Hf id) as Hid. pose proof (occurs_nonneg id l). rewrite occurs_cons in Hid.
    pose proof (Hf x) as Hx. rewrite occurs_cons, decide_True in Hx by done. pose proof (occurs_nonneg x l).
    unfold count_down. cbv zeta. rewrite (Hm x). rewrite (decide_False (P := f x = 0)) by lia. change (default 0 (Some (f x))) with (f x).
    destruct (decide (x = id)) as [->|Hne].
    - destruct (Z.eqb_spec (f id - 1) 0) as [E|E].
      + rewrite lookup_delete_eq. by rewrite decide_True by lia.
      + rewrite lookup_insert_eq. by rewrite decide_False by lia.
    - rewrite Z.sub_0_r. destruct (f x - 1 =? 0); [rewrite lookup_delete_ne by done | rewrite lookup_insert_ne by done]; apply Hm. }
  intros id. rewrite (IH _ _ Hm').
  - rewrite occurs_cons. by replace (f id - (if decide (x = id) then 1 else 0) - occurs id l)
      with (f id - ((if decide (x = id) then 1 else 0) + occurs id l)) by lia.
  - intros y. specialize (Hf y). rewrite occurs_cons in Hf. lia.
Qed.

(** *** The search *)

Section search.
Context (m : gmap Z TrackedTxnInfo) (txn_id : Z) (wait_ids : list Z) (depth : nat).

(** Who is in the queue. *)
Definition ids (q : list (Z * option nat)) : list Z := map fst q.

(** What is known of an element with parent [p], before place [n] of [q]. *)
Definition rooted (q : list (Z * option nat)) (n : nat) (id : Z) (p : option nat) : Prop :=
  match p with
  | None => id ∈ wait_ids
  | Some j => (j < n)%nat /\ exists a p', q !! j = Some (a, p') /\ waits m a id
  end.

(** What holds at the head of the loop: the places before [head] are not the
    transaction itself, and, as long as the queue is not full, whoever they
    wait for is in it or about to be; a parent comes before its child and waits
    for it, a root is one of [wait_ids]. *)
Record searching (next_ids : list Z) (parent : option nat) (head : nat) (q : list (Z * option nat)) : Prop := {
  se_head : (head <= length q <= depth)%nat;
  se_roots : (length q < depth)%nat -> forall id, id ∈ wait_ids -> id ∈ ids q ++ next_ids;
  se_done : forall i id p, (i < head)%nat -> q !! i = Some (id, p) -> id <> txn_id;
  se_closed : (length q < depth)%nat ->
    forall i id p b, (i < head)%nat -> q !! i = Some (id, p) -> waits m id b -> b ∈ ids q ++ next_ids;
  se_parent : forall i id p, q !! i = Some (id, p) -> rooted q i id p;
  se_next : forall id, id ∈ next_ids -> rooted q (length q) id parent;
}.

(** A set closed under waiting, with the roots, without the transaction. *)
Definition blocked_off (C : list Z) : Prop :=
  (forall id, id ∈ wait_ids -> id ∈ C) /\ (txn_id ∉ C) /\ (forall a b, a ∈ C -> waits m a b -> b ∈ C).

(** A way from [txn_id] back to it, over the listed transactions. *)
Definition closes (p : list DeadLockInfo) : Prop :=
  let l := map dl_txn_id p in
  last l = Some txn_id /\ (exists x, head l = Some x /\ x ∈ wait_ids) /\
  forall i a b, l !! i = Some a -> l !! S i = Some b -> waits m a b.

Definition search_spec (r : verdict) : Prop :=
  match r with
  | NoCycle => exists C, blocked_off C
  | Cycle p => closes p
  | TooDeep => True
  end.

Lemma dead_path_ok q fuel h id p :
  (forall i id p, q !! i = Some (id, p) -> rooted q i id p) -> q !! h = Some (id, p) -> is_Some (m !! id) -> (h < fuel)%nat ->
  exists l, dead_path fuel m q (Some h) = Done l /\ head (map dl_txn_id l) = Some id /\
    (exists x, last (map dl_txn_id l) = Some x /\ x ∈ wait_ids) /\
    forall i a b, map dl_txn_id l !! i = Some a -> map dl_txn_id l !! S i = Some b -> waits m b a.
Proof.
  intros Hq. revert h id p. induction fuel as [|fuel IH]; intros h id p Hh [info Hi] Hf; [lia|].
  cbn [dead_path]. rewrite Hh. cbn [ofopt obind]. rewrite Hi. cbn [ofopt obind].
  pose proof (Hq h id p Hh) as Hr. destruct p as [j|].
  - destruct Hr as (Hj & a & p' & Ha & Hw). destruct Hw as (ai & Hai & Hin).
    destruct (IH j a p' Ha ltac:(by exists ai) ltac:(lia)) as (l & -> & Hhd & (x & Hl & Hx) & Hc). cbn [obind].
    eexists. split; [reflexivity|]. cbn [map dl_txn_id]. destruct l as [|y l]; [done|]. cbn [map] in *. injection Hhd as Hy.
    split_and!; [done | by exists x |]. intros [|i] u v Hu Hv; cbn in Hu, Hv.
    + injection Hu as <-. injection Hv as <-. rewrite Hy. by exists ai.
    + by apply (Hc i).
  - destruct fuel; cbn [dead_path obind]; (eexists; split; [reflexivity|]); cbn; (split_and!; [done | by exists id | by intros [|i] u v]).
Qed.

Lemma reverse_closes q h p :
  (forall i id p, q !! i = Some (id, p) -> rooted q i id p) -> q !! h = Some (txn_id, p) -> is_Some (m !! txn_id) ->
  exists l, dead_path (length q) m q (Some h) = Done l /\ closes (reverse l).
Proof.
  intros Hq Hh Ht. destruct (dead_path_ok q (length q) h txn_id p Hq Hh Ht) as (l & E & Hhd & (x & Hl & Hx) & Hc);
    [by eapply lookup_lt_Some|].
  exists l. split; [exact E|].
  assert (Hrev : map dl_txn_id (reverse l) = reverse (map dl_txn_id l)) by apply fmap_reverse.
  unfold closes. cbv zeta. rewrite Hrev. split_and!.
  - by rewrite last_reverse.
  - exists x. by rewrite head_reverse.
  - intros i a b Ha Hb. apply lookup_lt_Some in Hb as Hlt. rewrite length_reverse in Hlt.
    rewrite reverse_lookup in Ha by lia. rewrite reverse_lookup in Hb by lia.
    apply (Hc (length (map dl_txn_id l) - S (S i))%nat); [done|].
    by replace (S (length (map dl_txn_id l) - S (S i))) with (length (map dl_txn_id l) - S i)%nat by lia.
Qed.
(** The queue takes the next ones. *)
Definition enqueue (next_ids : list Z) (parent : option nat) (q : list (Z * option nat)) : list (Z * option nat) :=
  q ++ map (fun id => (id, parent)) (take (depth - length q) next_ids).

Lemma enqueue_ok next_ids parent head q :
  searching next_ids parent head q -> (head < depth)%nat -> searching [] None head (enqueue next_ids parent q).
Proof.
  intros [[Hh Hd] Hr Hdone Hcl Hp Hn] Hlt.
  assert (Hlen : length (enqueue next_ids parent q) = (length q + Nat.min (depth - length q) (length next_ids))%nat).
  { unfold enqueue. rewrite length_app, length_map, length_take. done. }
  assert (Hall : (length (enqueue next_ids parent q) < depth)%nat -> ids (enqueue next_ids parent q) = ids q ++ next_ids).
  { intros Hl. unfold ids, enqueue. rewrite map_app, map_map. cbn [fst]. rewrite map_id, take_ge by lia. done. }
  assert (Hold : forall i id p, (i < head)%nat -> enqueue next_ids parent q !! i = Some (id, p) -> q !! i = Some (id, p)).
  { intros i id p Hi E. unfold enqueue in E. by rewrite lookup_app_l in E by lia. }
  split.
  - lia.
  - intros Hl id Hid. rewrite app_nil_r, Hall by done. apply Hr; [lia | done].
  - intros i id p Hi E. by apply (Hdone i id p Hi), Hold.
  - intros Hl i id p b Hi E Hw. rewrite app_nil_r, Hall by done. apply (Hcl ltac:(lia) i id p); [done | by apply Hold | done].
  - assert (Hr' : forall n n' id p, (n <= n')%nat -> rooted q n id p -> rooted (enqueue next_ids parent q) n' id p).
    { intros n n' id [j|] Hle; [|done]. intros (Hj & a & p' & Ha & Hw). split; [lia|]. exists a, p'. split; [|done].
      unfold enqueue. by apply lookup_app_l_Some. }
    intros i id p E. unfold enqueue in E. apply lookup_app_Some in E as [E|[Hi E]].
    + by apply (Hr' i i), Hp.
    + apply list_lookup_fmap_Some in E as (x & [= -> ->] & E). apply (Hr' (length q)); [done|]. apply Hn.
      apply list_elem_of_lookup_2 in E. rewrite <- (take_drop (depth - length q) next_ids). apply elem_of_app. by left.
  - intros id Hid. by apply not_elem_of_nil in Hid.
Qed.

Lemma search_ok next_ids parent head q fuel :
  is_Some (m !! txn_id) -> searching next_ids parent head q -> (fuel + head = depth)%nat ->
  exists r, search fuel depth m txn_id next_ids parent head q = Done r /\ search_spec r.
Proof.
  intros Ht. revert next_ids parent head q. induction fuel as [|fuel IH]; intros next_ids parent head q Hs Hf.
  { by exists TooDeep. }
  cbn [search]. pose proof (enqueue_ok _ _ _ _ Hs ltac:(lia)) as Hs'. fold (enqueue next_ids parent q).
  set (q' := enqueue next_ids parent q) in *. destruct Hs' as [[Hh Hd] Hr Hdone Hcl Hp _].
  destruct (Nat.eqb_spec (length q') head) as [E|E].
  - exists NoCycle. split; [done|]. exists (ids q'). rewrite app_nil_r in *. split_and!.
    + intros id Hid. apply Hr; [lia | done].
    + intros (x & Ex & [i Hi]%list_elem_of_lookup)%list_elem_of_fmap. destruct x as [id p]. cbn in Ex. subst id.
      by apply (Hdone i txn_id p); [apply lookup_lt_Some in Hi; lia | |].
    + intros a b (x & Ex & [i Hi]%list_elem_of_lookup)%list_elem_of_fmap Hw. destruct x as [id p]. cbn in Ex. subst id.
      apply (Hcl ltac:(lia) i a p); [apply lookup_lt_Some in Hi; lia | done..].
  - destruct (lookup_lt_is_Some_2 q' head) as [[next p] Hq]; [lia|]. rewrite Hq. cbn [ofopt obind].
    destruct (Z.eqb_spec next txn_id) as [->|Hne].
    { destruct (reverse_closes q' head p Hp Hq Ht) as (l & -> & Hc). by exists (Cycle (reverse l)). }
    assert (Hnext : forall ns par, (forall b, waits m next b -> b ∈ ns) -> (forall id, id ∈ ns -> rooted q' (length q') id par) ->
      searching ns par (S head) q').
    { intros ns par Hns Hpar. split; [lia | | | | done | done].
      - intros Hl id Hid. specialize (Hr Hl id Hid). rewrite app_nil_r in Hr. apply elem_of_app. by left.
      - intros i id p' Hi Ei. destruct (decide (i = head)) as [->|]; [congruence|]. apply (Hdone i id p'); [lia | done].
      - intros Hl i id p' b Hi Ei Hw. apply elem_of_app. destruct (decide (i = head)) as [->|].
        + assert (id = next) as -> by congruence. right. by apply Hns.
        + left. rewrite <- (app_nil_r (ids q')). apply (Hcl Hl i id p'); [lia | done..]. }
    destruct (m !! next) as [info|] eqn:Em; apply IH; try lia; apply Hnext.
    + intros b (info' & E' & Hb). congruence.
    + intros id Hid. split; [lia|]. exists next, p. split; [done|]. by exists info.
    + intros b (info' & E' & Hb). congruence.
    + intros id Hid. by apply not_elem_of_nil in Hid.
Qed.

(** What is blocked off is on no cycle. *)
Lemma blocked_off_no_cycle C :
  blocked_off C -> (forall b, waits m txn_id b -> b ∈ wait_ids) -> ~ tc (waits m) txn_id txn_id.
Proof.
  intros (Hr & Ht & Hc) Hw Hcyc.
  assert (H : forall a b, tc (waits m) a b -> a = txn_id \/ a ∈ C -> b ∈ C).
  { assert (H1 : forall a b, waits m a b -> a = txn_id \/ a ∈ C -> b ∈ C).
    { intros a b Hab [->|Ha]; [by apply Hr, Hw | by apply (Hc a)]. }
    intros a b Hab. induction Hab as [a b Hab|a x b Hax Hxb IH]; intros Ha; [by apply (H1 a)|].
    apply IH. right. by apply (H1 a). }
  apply Ht, (H txn_id txn_id Hcyc). by left.
Qed.
End search.

(** ** No cycle *)

Lemma waits_delete m t a b : waits (delete t m) a b -> waits m a b.
Proof. intros (info & [_ Ha]%lookup_delete_Some & Hb). by exists info. Qed.

Lemma acyclic_delete m t : acyclic m -> acyclic (delete t m).
Proof.
  intros Hm x Hx. apply (Hm x). revert Hx. generalize x at 1 3. intros y Hy.
  induction Hy as [a b H|a b c H _ IH]; [apply tc_once | eapply tc_l; [|exact IH]]; by eapply waits_delete.
Qed.

Lemma waits_insert m t info a b : a <> t -> waits (<[t := info]> m) a b -> waits m a b.
Proof. intros Hne (i & Ha & Hb). rewrite lookup_insert_ne in Ha by done. by exists i. Qed.

(** A new cycle goes through the new transaction. *)
Lemma acyclic_insert m t info :
  acyclic m -> ~ tc (waits (<[t := info]> m)) t t -> acyclic (<[t := info]> m).
Proof.
  intros Hm Ht x Hx.
  assert (H : forall a b, tc (waits (<[t := info]> m)) a b ->
    tc (waits m) a b \/ (rtc (waits (<[t := info]> m)) a t /\ tc (waits (<[t := info]> m)) t b)).
  { intros a b Hab. induction Hab as [a b H|a y b H Hyb IH]; destruct (decide (a = t)) as [->|Hne].
    - right. split; [done | by apply tc_once].
    - left. by apply tc_once, (waits_insert m t info).
    - right. split; [done | by eapply tc_l].
    - destruct IH as [IH|[I1 I2]].
      + left. eapply tc_l; [by apply (waits_insert m t info) | done].
      + right. split; [by eapply rtc_l | done]. }
  destruct (H x x Hx) as [H1|[H1 H2]]; [by apply (Hm x)|]. by apply Ht, (tc_rtc_r t x t).
Qed.

Lemma insert_new_fresh {A} k (x : A) m : m !! k = None -> insert_new k x m = <[k := x]> m.
Proof. unfold insert_new. by intros ->. Qed.

(** Taking the waiting back. *)
Lemma DecrementWaiters_ok t wait_ids info s :
  wait_ok s -> wait_txn_map_ s !! t = Some info -> neighbors info = wait_ids -> wait_ok (DecrementWaiters t wait_ids s).
Proof.
  intros [Hc Ha Hb] Ht <-. split; cbn; [|by apply acyclic_delete|done].
  intros id. rewrite (counts_down _ _ _ Hc).
  - rewrite (waited_delete _ t info id Ht). by replace (occurs id (neighbors info) + waited (delete t (wait_txn_map_ s)) id -
      occurs id (neighbors info)) with (waited (delete t (wait_txn_map_ s)) id) by lia.
  - intros id'. rewrite (waited_delete _ t info id' Ht). pose proof (waited_nonneg (delete t (wait_txn_map_ s)) id'). lia.
Qed.

Lemma AddNewPath_ok p b :
  (buffer_idx_ b < length (paths_buffer_ b))%nat \/ paths_buffer_ b = [] ->
  exists b', AddNewPath p b = Done b' /\ ((buffer_idx_ b' < length (paths_buffer_ b'))%nat \/ paths_buffer_ b' = []).
Proof.
  unfold AddNewPath. case_bool_decide as Hn; [intros _; exists b; auto|]. intros [Hlt|]; [|done].
  apply Nat.ltb_lt in Hlt as Hlt'. rewrite Hlt'. eexists. split; [done|]. left. cbn. rewrite length_insert.
  apply Nat.mod_upper_bound. lia.
Qed.

(** The way back that was found, or the search went too deep. *)
Definition deadlock_found (m : gmap Z TrackedTxnInfo) (t : Z) (wait_ids : list Z) (now : Z) (p : DeadLockPath) : Prop :=
  p = no_path now true \/ exists l, p = path_of l now /\ closes m t wait_ids l.

Lemma search_top m t wait_ids key cfid ex depth :
  let m' := <[t := mkTracked wait_ids cfid key ex]> m in
  exists r, search depth depth m' t wait_ids None 0 [] = Done r /\ search_spec m' t wait_ids r.
Proof.
  intros m'. apply search_ok; [by apply lookup_insert_is_Some; left | | lia]. split; cbn.
  - lia.
  - done.
  - lia.
  - lia.
  - done.
  - done.
Qed.

Lemma add_waiter_ok t wait_ids key cfid ex s :
  wait_ok s -> wait_txn_map_ s !! t = None ->
  let m := <[t := mkTracked wait_ids cfid key ex]> (wait_txn_map_ s) in
  counts (fold_left count_up wait_ids (rev_wait_txn_map_ s)) (waited m).
Proof.
  intros [Hc _ _] Ht m id. unfold m. rewrite (counts_up _ _ _ Hc) by (intros; apply waited_nonneg).
  by rewrite waited_insert by done.
Qed.

(** A deadlock: the path is recorded and the waiting taken back. *)
Lemma drop_waiter_ok t wait_ids key cfid ex s p :
  wait_ok s -> wait_txn_map_ s !! t = None ->
  let m := <[t := mkTracked wait_ids cfid key ex]> (wait_txn_map_ s) in
  exists b', AddNewPath p (dlock_buffer_ s) = Done b' /\
    let s' := DecrementWaitersLockless t wait_ids (mkWait m (fold_left count_up wait_ids (rev_wait_txn_map_ s)) b') in
    wait_ok s' /\ wait_txn_map_ s' = wait_txn_map_ s.
Proof.
  intros Hok Ht m. pose proof Hok as [_ Ha Hb]. pose proof (add_waiter_ok t wait_ids key cfid ex s Hok Ht) as Hc'. fold m in Hc'.
  destruct (AddNewPath_ok p _ Hb) as (b' & E & Hb'). exists b'. split; [exact E|]. cbn.
  assert (Hm : delete t m = wait_txn_map_ s) by (unfold m; by apply delete_insert_id). rewrite Hm. split; [|done].
  assert (Hw : forall id, waited m id = occurs id wait_ids + waited (wait_txn_map_ s) id) by (intros id; by apply waited_insert).
  split; cbn; [|by rewrite Hm|exact Hb']. rewrite Hm. intros id. rewrite (counts_down _ _ _ Hc').
  - rewrite Hw. by replace (occurs id wait_ids + waited (wait_txn_map_ s) id - occurs id wait_ids) with (waited (wait_txn_map_ s) id) by lia.
  - intros id'. rewrite Hw. pose proof (waited_nonneg (wait_txn_map_ s) id'). lia.
Qed.

(** Nobody waits for the transaction. *)
Lemma not_waited_no_cycle m t : waited m t = 0 -> ~ tc (waits m) t t.
Proof.
  intros E Hcyc. assert (Hin : forall a b, tc (waits m) a b -> exists c, waits m c b) by (intros a b H; induction H; eauto).
  destruct (Hin t t Hcyc) as (c & Hx). by apply (waited_0 m t E c).
Qed.

(** [IncrementWaiters] on every branch. *)
Lemma IncrementWaiters_ok t depth now wait_ids key cfid ex s :
  wait_ok s -> wait_txn_map_ s !! t = None ->
  let m := <[t := mkTracked wait_ids cfid key ex]> (wait_txn_map_ s) in
  exists deadlock s', IncrementWaiters t depth now wait_ids key cfid ex s = Done (deadlock, s') /\ wait_ok s' /\
    if deadlock then wait_txn_map_ s' = wait_txn_map_ s /\
      exists p, AddNewPath p (dlock_buffer_ s) = Done (dlock_buffer_ s') /\ deadlock_found m t wait_ids now p
    else wait_txn_map_ s' = m /\ dlock_buffer_ s' = dlock_buffer_ s.
Proof.
  intros Hok Ht m. pose proof Hok as [Hc Ha Hb]. pose proof (add_waiter_ok t wait_ids key cfid ex s Hok Ht) as Hc'. fold m in Hc'.
  assert (Hw : forall b, waits m t b -> b ∈ wait_ids).
  { intros b (info & Hi & Hin). unfold m in Hi. rewrite lookup_insert_eq in Hi. by injection Hi as <-. }
  assert (Hadd : ~ tc (waits m) t t -> wait_ok (mkWait m (fold_left count_up wait_ids (rev_wait_txn_map_ s)) (dlock_buffer_ s))).
  { intros Hcyc. split; cbn; [exact Hc' | by apply acyclic_insert | exact Hb]. }
  unfold IncrementWaiters. rewrite insert_new_fresh by done. fold m. cbn [rev_wait_txn_map_ wait_txn_map_ dlock_buffer_]. cbv zeta.
  case_bool_decide as Hnone.
  { eexists false, _. split; [done|]. split; [|done]. apply Hadd, not_waited_no_cycle. rewrite (Hc' t) in Hnone.
    by destruct (decide (waited m t = 0)). }
  destruct (search_top (wait_txn_map_ s) t wait_ids key cfid ex depth) as (r & E & Hr). fold m in E, Hr. rewrite E. cbn [obind].
  assert (Hfound : forall p, deadlock_found m t wait_ids now p -> exists b', AddNewPath p (dlock_buffer_ s) = Done b' /\ _)
    by (intros p _; exact (drop_waiter_ok t wait_ids key cfid ex s p Hok Ht)).
  fold m in Hfound. destruct r as [|l|].
  - destruct Hr as (C & HC). eexists false, _. split; [done|]. split; [|done]. by apply Hadd, (blocked_off_no_cycle m t wait_ids C).
  - assert (Hd : deadlock_found m t wait_ids now (path_of l now)) by (right; by exists l).
    destruct (Hfound _ Hd) as (b' & Eb & Hs' & Em). rewrite Eb. cbn [obind]. eexists true, _. split; [done|].
    split; [exact Hs'|]. split; [exact Em|]. by exists (path_of l now).
  - assert (Hd : deadlock_found m t wait_ids now (no_path now true)) by (by left).
    destruct (Hfound _ Hd) as (b' & Eb & Hs' & Em). rewrite Eb. cbn [obind]. eexists true, _. split; [done|].
    split; [exact Hs'|]. split; [exact Em|]. by exists (no_path now true).
Qed.

(** Transaction 1 waits for 2 and 2 for 3: when 3 is to wait for 1, that is a
    deadlock. *)
Definition sample_waiting : WaitState :=
  match IncrementWaiters 1 50 0 [2] [97] 0 true (NewWaitState 5) with
  | Done (_, s) => match IncrementWaiters 2 50 0 [3] [98] 0 true s with Done (_, s) => s | _ => s end
  | _ => NewWaitState 5
  end.

Lemma NewWaitState_ok n : wait_ok (NewWaitState n).
Proof.
  split; cbn; [done | |].
  - assert (H : forall a b, ~ tc (waits ∅) a b) by (intros a b H; induction H as [a b (info & [=] & _)|]; done). intros t. apply H.
  - destruct n; [by right | left; cbn; lia].
Qed.

Lemma sample_waiting_ok : wait_ok sample_waiting /\ wait_txn_map_ sample_waiting !! 3 = None.
Proof.
  destruct (IncrementWaiters_ok 1 50 0 [2] [97] 0 true (NewWaitState 5) (NewWaitState_ok 5) eq_refl) as (b1 & s1 & E1 & H1 & M1).
  assert (Hb : b1 = false) by (by vm_compute in E1; injection E1 as <- <-). subst b1. destruct M1 as [M1 _].
  destruct (IncrementWaiters_ok 2 50 0 [3] [98] 0 true s1 H1) as (b2 & s2 & E2 & H2 & _).
  { rewrite M1. by vm_compute. }
  assert (Es : sample_waiting = s2) by (unfold sample_waiting; by rewrite E1, E2). rewrite Es. split; [exact H2|].
  rewrite <- Es. by vm_compute.
Qed.

(** C14: no transaction of the wait graph waits, over any number of others, for
    itself.  [IncrementWaiters] keeps the graph free of cycles: it enters the
    transaction only when that closes no cycle, and otherwise leaves the graph
    as it was and records the cycle (or that the search went too deep). *)
Theorem IncrementWaiters_acyclic t depth now wait_ids key cfid ex s :
  wait_ok s -> wait_txn_map_ s !! t = None ->
  let m := <[t := mkTracked wait_ids cfid key ex]> (wait_txn_map_ s) in
  exists deadlock s', IncrementWaiters t depth now wait_ids key cfid ex s = Done (deadlock, s') /\ wait_ok s' /\
    if deadlock then wait_txn_map_ s' = wait_txn_map_ s /\
      exists p, AddNewPath p (dlock_buffer_ s) = Done (dlock_buffer_ s') /\ deadlock_found m t wait_ids now p
    else wait_txn_map_ s' = m /\ dlock_buffer_ s' = dlock_buffer_ s.
Proof. apply IncrementWaiters_ok. Qed.

Lemma IncrementWaiters_acyclic_witness :
  match IncrementWaiters 3 50 7 [1] [99] 0 true sample_waiting with
  | Done (deadlock, s) => Some (deadlock, PrepareBuffer (dlock_buffer_ s)) | _ => None
  end = Some (true, Done [path_of [mkDead 1 0 true [97]; mkDead 2 0 true [98]; mkDead 3 0 true [99]] 7]) /\
  exists deadlock s', IncrementWaiters 3 50 7 [1] [99] 0 true sample_waiting = Done (deadlock, s') /\ wait_ok s'.
Proof.
  split; [by vm_compute|].
  destruct (IncrementWaiters_acyclic 3 50 7 [1] [99] 0 true sample_waiting (proj1 sample_waiting_ok) (proj2 sample_waiting_ok))
    as (b & s' & E & H & _). exists b, s'. exact (conj E H).
Defined.
