(* ===== verification/TxnLock.v ===== *)
(** * TxnLock

    src/txn/transaction-lock-mgr.{h,cc}: the locks of the pessimistic
    transactions.  Every column family has a [LockMap], split in stripes by the
    hash of the key; a key is locked by one transaction exclusively, or shared.

    A [LockMap] is shared between the manager and the caches of the threads: it
    is an index of [lock_map_store].  The mutex of a stripe is held from
    [AcquireWithTimeout]'s first line to its wait, and from the end of a wait to
    the next one or the return: these two are one step each ([TryLock], [Wake]),
    and [TxnLock.step] interleaves them.  The clock is read once in a step.
    What the transactions are to the manager is [Locker]; whether the locks of
    one may be taken away is asked of the class [LockOwners]. *)

From stdpp Require Import relations.
From S2P Require Import Prelude Slice Hash TxnWait.

(** ** Data *)

Record LockInfo := mkLock { li_exclusive : bool; li_txn_ids : list Z; li_expiration_time : Z }.

(** [LockInfo::LockInfo] *)
Definition NewLockInfo (id time : Z) (ex : bool) : LockInfo := mkLock ex [id] time.

(** The keys of a stripe. *)
Abbreviation LockMapStripe := (gmap bytes LockInfo).

Record LockMap := mkLockMap { n_stripes : nat; lock_count : Z; lock_map_stripes : list LockMapStripe }.

Definition NewLockMap (n : nat) : LockMap := mkLockMap n 0 (replicate n ∅).

(** [LockMap::GetStripe]; the remainder by 0 is not defined. *)
Definition GetStripe (key : bytes) (m : LockMap) : outcome nat :=
  if (n_stripes m =? 0)%nat then Undef else Done (Z.to_nat (Js key mod Z.of_nat (n_stripes m))).

(** The members of a transaction that the manager uses; [waiting_key_] is the
    key pointed at. *)
Record Locker := mkLocker {
  lk_id : Z;
  lock_timeout_ : Z;
  expiration_time_ : Z;
  deadlock_detect_ : bool;
  deadlock_detect_depth_ : Z;
  waiting_txn_ids_ : list Z;
  waiting_cfid_ : Z;
  waiting_key_ : option bytes
}.

Definition SetWaitingTxn (wait_ids : list Z) (cfid : Z) (key : bytes) (t : Locker) : Locker :=
  mkLocker (lk_id t) (lock_timeout_ t) (expiration_time_ t) (deadlock_detect_ t) (deadlock_detect_depth_ t) wait_ids cfid (Some key).
Definition ClearWaitingTxn (t : Locker) : Locker :=
  mkLocker (lk_id t) (lock_timeout_ t) (expiration_time_ t) (deadlock_detect_ t) (deadlock_detect_depth_ t) [] 0 None.
Definition GetWaitingTxn (t : Locker) : list Z * Z * bytes := (waiting_txn_ids_ t, waiting_cfid_ t, default [] (waiting_key_ t)).

(** [PessimisticTransactionDB::TryStealingExpiredTransactionLocks], by the id
    of the transaction. *)
Class LockOwners (U : Type) := TryStealing : Z -> U -> bool * U.

Record TransactionLockMgr := mkMgr {
  default_num_stripes_ : nat;
  max_num_locks_ : Z;
  lock_map_store : list LockMap;
  lock_maps_ : gmap Z nat;
  lock_maps_cache_ : gmap nat (gmap Z nat);
  wait_state : WaitState
}.

Definition NewTransactionLockMgr (num_stripes : nat) (max_num_locks : Z) (max_num_deadlocks : nat) : TransactionLockMgr :=
  mkMgr num_stripes max_num_locks [] ∅ ∅ (NewWaitState max_num_deadlocks).

Definition set_lock_map (a : nat) (m : LockMap) (g : TransactionLockMgr) : TransactionLockMgr :=
  mkMgr (default_num_stripes_ g) (max_num_locks_ g) (<[a := m]> (lock_map_store g)) (lock_maps_ g) (lock_maps_cache_ g) (wait_state g).
Definition set_wait_state (s : WaitState) (g : TransactionLockMgr) : TransactionLockMgr :=
  mkMgr (default_num_stripes_ g) (max_num_locks_ g) (lock_map_store g) (lock_maps_ g) (lock_maps_cache_ g) s.
Definition set_lock_maps (ms : gmap Z nat) (g : TransactionLockMgr) : TransactionLockMgr :=
  mkMgr (default_num_stripes_ g) (max_num_locks_ g) (lock_map_store g) ms (lock_maps_cache_ g) (wait_state g).

(** ** The lock maps *)

(** [AddColumnFamily]; the map is inserted only when there is none. *)
Definition AddColumnFamily (cfid : Z) (g : TransactionLockMgr) : TransactionLockMgr :=
  mkMgr (default_num_stripes_ g) (max_num_locks_ g) (lock_map_store g ++ [NewLockMap (default_num_stripes_ g)])
    (insert_new cfid (length (lock_map_store g)) (lock_maps_ g)) (lock_maps_cache_ g) (wait_state g).

(** [RemoveColumnFamily]; erasing what is not there is not defined. *)
Definition RemoveColumnFamily (cfid : Z) (g : TransactionLockMgr) : outcome TransactionLockMgr :=
  match lock_maps_ g !! cfid with
  | None => Undef
  | Some _ => Done (set_lock_maps (delete cfid (lock_maps_ g)) g)
  end.

(** [GetLockMap], by the cache of the thread. *)
Definition GetLockMap (thread : nat) (cfid : Z) (g : TransactionLockMgr) : option nat * TransactionLockMgr :=
  let cache := default ∅ (lock_maps_cache_ g !! thread) in
  match cache !! cfid with
  | Some a => (Some a, g)
  | None =>
    let with_cache c := mkMgr (default_num_stripes_ g) (max_num_locks_ g) (lock_map_store g) (lock_maps_ g)
      (<[thread := c]> (lock_maps_cache_ g)) (wait_state g) in
    match lock_maps_ g !! cfid with
    | None => (None, with_cache cache)
    | Some a => (Some a, with_cache (<[cfid := a]> cache))
    end
  end.

(** ** Unlocking *)

(** The id at place [i] is overwritten with the last one, which goes. *)
Definition remove_id (i : nat) (ids : list Z) : list Z :=
  match last ids with Some z => take (length ids - 1) (<[i := z]> ids) | None => ids end.

(** [UnlockKey] in a stripe: the stripe and the count of locks. *)
Definition unlock_key (max txn_id : Z) (key : bytes) (keys : LockMapStripe) (count : Z) : LockMapStripe * Z :=
  match keys !! key with
  | None => (keys, count)
  | Some info =>
    match list_find (fun id => id = txn_id) (li_txn_ids info) with
    | None => (keys, count)
    | Some (i, _) =>
      (if (length (li_txn_ids info) =? 1)%nat then delete key keys
       else <[key := mkLock (li_exclusive info) (remove_id i (li_txn_ids info)) (li_expiration_time info)]> keys,
       if 0 <? max then count - 1 else count)
    end
  end.

Definition UnlockKey (txn_id : Z) (key : bytes) (a stripe : nat) (g : TransactionLockMgr) : outcome TransactionLockMgr :=
  (do! m := ofopt (lock_map_store g !! a) in
   do! keys := ofopt (lock_map_stripes m !! stripe) in
   let '(keys, count) := unlock_key (max_num_locks_ g) txn_id key keys (lock_count m) in
   Done (set_lock_map a (mkLockMap (n_stripes m) count (<[stripe := keys]> (lock_map_stripes m))) g))%out.

(** The keys of one stripe, under its mutex. *)
Definition UnlockStripe (txn_id : Z) (a : nat) (part : nat * list bytes) (g : TransactionLockMgr) : outcome TransactionLockMgr :=
  fold_left (fun g key => obind g (UnlockKey txn_id key a (fst part))) (snd part) (Done g).

(** [keys_by_stripe]: the keys in the order of their stripes' first one. *)
Fixpoint add_to_stripe (stripe : nat) (key : bytes) (parts : list (nat * list bytes)) : list (nat * list bytes) :=
  match parts with
  | [] => [(stripe, [key])]
  | (s, keys) :: parts => if (s =? stripe)%nat then (s, keys ++ [key]) :: parts else (s, keys) :: add_to_stripe stripe key parts
  end.

Definition keys_by_stripe (keys : list bytes) (m : LockMap) : outcome (list (nat * list bytes)) :=
  fold_left (fun parts key => (do! parts := parts in do! stripe := GetStripe key m in Done (add_to_stripe stripe key parts))%out)
    keys (Done []).

(** [Unlock]: the tracked keys by family, in the order of the iteration; a
    family without a lock map ends it. *)
Fixpoint Unlock (thread : nat) (txn_id : Z) (tracked_keys : list (Z * list bytes)) (g : TransactionLockMgr) :
    outcome TransactionLockMgr :=
  match tracked_keys with
  | [] => Done g
  | (cfid, keys) :: tracked_keys =>
    let '(a, g) := GetLockMap thread cfid g in
    match a with
    | None => Done g
    | Some a =>
      (do! m := ofopt (lock_map_store g !! a) in
       do! parts := keys_by_stripe keys m in
       do! g := fold_left (fun g part => obind g (UnlockStripe txn_id a part)) parts (Done g) in
       Unlock thread txn_id tracked_keys g)%out
    end
  end.

(** ** Locking *)

Section locking.
Context {U : Type} `{!LockOwners U}.

(** The holders other than [txn_id] are asked for their locks, up to the first
    that keeps them: whether the lock has expired, and the hint. *)
Fixpoint steal_all (txn_id : Z) (ids : list Z) (expired : bool) (expire_time : Z) (o : U) : bool * Z * U :=
  match ids with
  | [] => (expired, expire_time, o)
  | id :: ids =>
    if txn_id =? id then steal_all txn_id ids expired expire_time o
    else
      let '(success, o) := TryStealing id o in
      if success then steal_all txn_id ids expired 0 o else (false, expire_time, o)
  end.

Definition IsLockExpired (txn_id now : Z) (info : LockInfo) (expire_time : Z) (o : U) : bool * Z * U :=
  let expired := (0 <? li_expiration_time info) && (li_expiration_time info <=? now) in
  if negb expired && (0 <? li_expiration_time info) then (expired, li_expiration_time info, o)
  else steal_all txn_id (li_txn_ids info) expired expire_time o.

(** [AcquireLocked] in a stripe, for the one id of [txn_info]: the error, the
    stripe, the count, the hint and the ids to wait for. *)
Definition acquire_locked (max txn_id now : Z) (key : bytes) (txn_info : LockInfo) (keys : LockMapStripe) (count : Z)
    (expire_time : Z) (txn_ids : list Z) (o : U) : error * LockMapStripe * Z * Z * list Z * U :=
  match keys !! key with
  | Some info =>
    if li_exclusive info || li_exclusive txn_info then
      if bool_decide (li_txn_ids info = [txn_id]) then
        (kOk, <[key := mkLock (li_exclusive txn_info) (li_txn_ids info) (li_expiration_time txn_info)]> keys,
         count, expire_time, txn_ids, o)
      else
        let '(expired, expire_time, o) := IsLockExpired txn_id now info expire_time o in
        if expired then (kOk, <[key := txn_info]> keys, count, expire_time, txn_ids, o)
        else (kTimeout, keys, count, expire_time, li_txn_ids info, o)
    else
      (kOk, <[key := mkLock (li_exclusive info) (li_txn_ids info ++ [txn_id])
                     (Z.max (li_expiration_time info) (li_expiration_time txn_info))]> keys,
       count, expire_time, txn_ids, o)
  | None =>
    if (0 <? max) && (max <=? count) then (kBusy, keys, count, expire_time, txn_ids, o)
    else (kOk, <[key := txn_info]> keys, if negb (max =? 0) then count + 1 else count, expire_time, txn_ids, o)
  end.

Definition AcquireLocked (txn_id now : Z) (a stripe : nat) (key : bytes) (txn_info : LockInfo) (expire_time : Z)
    (txn_ids : list Z) (g : TransactionLockMgr) (o : U) : outcome (error * Z * list Z * TransactionLockMgr * U) :=
  (do! m := ofopt (lock_map_store g !! a) in
   do! keys := ofopt (lock_map_stripes m !! stripe) in
   let '(rs, keys, count, expire_time, txn_ids, o) :=
     acquire_locked (max_num_locks_ g) txn_id now key txn_info keys (lock_count m) expire_time txn_ids o in
   Done (rs, expire_time, txn_ids, set_lock_map a (mkLockMap (n_stripes m) count (<[stripe := keys]> (lock_map_stripes m))) g, o))%out.

(** The variables of [AcquireWithTimeout]. *)
Record Acquiring := mkAcq {
  aq_map : nat;
  aq_stripe : nat;
  aq_cfid : Z;
  aq_key : bytes;
  aq_timeout : Z;
  aq_end_time : Z;
  aq_info : LockInfo;
  aq_rs : error;
  aq_hint : Z;
  aq_wait_ids : list Z
}.

Definition set_acquired (rs : error) (hint : Z) (wait_ids : list Z) (q : Acquiring) : Acquiring :=
  mkAcq (aq_map q) (aq_stripe q) (aq_cfid q) (aq_key q) (aq_timeout q) (aq_end_time q) (aq_info q) rs hint wait_ids.

(** It returns, or waits for the condition variable of the stripe, until a time
    if there is one. *)
Inductive Acquired := Returns (rs : error) | Blocks (cv_end_time : option Z) (q : Acquiring).

(** [cv_end_time]; a negative one waits without end. *)
Definition cv_end (q : Acquiring) : option Z :=
  let t :=
    if (0 <? aq_hint q) && ((aq_timeout q <? 0) || ((0 <? aq_timeout q) && (aq_hint q <? aq_end_time q))) then sgn 64 (aq_hint q)
    else if 0 <=? aq_timeout q then sgn 64 (aq_end_time q) else -1 in
  if t <? 0 then None else Some t.

(** The turn of the loop up to the wait: whether there is a deadlock. *)
Definition before_wait (now : Z) (t : Locker) (q : Acquiring) (g : TransactionLockMgr) : outcome (bool * Locker * TransactionLockMgr) :=
  if bool_decide (aq_wait_ids q = []) then Done (false, t, g)
  else
    (do! (deadlock, g) :=
       (if deadlock_detect_ t then
          do! (deadlock, s) := IncrementWaiters (lk_id t) (Z.to_nat (deadlock_detect_depth_ t)) now (aq_wait_ids q) (aq_key q)
            (aq_cfid q) (li_exclusive (aq_info q)) (wait_state g) in
          Done (deadlock, set_wait_state s g)
        else Done (false, g)) in
     if deadlock then Done (true, t, g) else Done (false, SetWaitingTxn (aq_wait_ids q) (aq_cfid q) (aq_key q) t, g))%out.

(** The turn behind the wait, which ended with [rs]: the error, whether the
    loop ends, and what has changed. *)
Definition after_wait (now : Z) (rs : error) (t : Locker) (q : Acquiring) (g : TransactionLockMgr) (o : U) :
    outcome (error * bool * Locker * Acquiring * TransactionLockMgr * U) :=
  let '(t, g) :=
    if bool_decide (aq_wait_ids q = []) then (t, g)
    else (ClearWaitingTxn t,
      if deadlock_detect_ t then set_wait_state (DecrementWaiters (lk_id t) (aq_wait_ids q) (wait_state g)) g else g) in
  let timed_out := bool_decide (rs = kTimeout) in
  (do! (rs, hint, ids, g, o) :=
     (if ok rs || timed_out then
        AcquireLocked (lk_id t) now (aq_map q) (aq_stripe q) (aq_key q) (aq_info q) (aq_hint q) (aq_wait_ids q) g o
      else Done (rs, aq_hint q, aq_wait_ids q, g, o)) in
   Done (rs, ok rs || timed_out, t, set_acquired rs hint ids q, g, o))%out.

(** The turns of the loop until it waits or ends.  A turn that does not wait
    (its end has passed) is the last one, unless the limit of locks is reached:
    that loop takes no end. *)
Fixpoint acquire_turns (fuel : nat) (now : Z) (t : Locker) (q : Acquiring) (g : TransactionLockMgr) (o : U) :
    outcome (Acquired * Locker * TransactionLockMgr * U) :=
  match fuel with
  | O => OutOfFuel
  | S fuel =>
    (do! (deadlock, t, g) := before_wait now t q g in
     if deadlock then Done (Returns kBusy, t, g, o) else
     match cv_end q with
     | None => Done (Blocks None q, t, g, o)
     | Some e =>
       if now <? e then Done (Blocks (Some e) q, t, g, o)
       else
         do! (rs, done, t, q, g, o) := after_wait now (aq_rs q) t q g o in
         if done : bool then Done (Returns rs, t, g, o) else acquire_turns fuel now t q g o
     end)%out
  end.

(** The wait of [t] ends with [rs]; without a time it leaves the error as it
    was. *)
Definition Wake (now : Z) (rs : error) (t : Locker) (cv : option Z) (q : Acquiring) (g : TransactionLockMgr) (o : U) :
    outcome (Acquired * Locker * TransactionLockMgr * U) :=
  (do! (rs, done, t, q, g, o) := after_wait now (match cv with Some _ => rs | None => aq_rs q end) t q g o in
   if done : bool then Done (Returns rs, t, g, o) else acquire_turns 2 now t q g o)%out.

(** [AcquireWithTimeout] up to its first wait; [free] is whether the mutex of
    the stripe is, when the timeout is 0. *)
Definition AcquireWithTimeout (free : bool) (now : Z) (t : Locker) (a stripe : nat) (cfid : Z) (key : bytes) (timeout : Z)
    (info : LockInfo) (g : TransactionLockMgr) (o : U) : outcome (Acquired * Locker * TransactionLockMgr * U) :=
  let end_time := if 0 <? timeout then wrap 64 (now + timeout) else 0 in
  if (timeout =? 0) && negb free then Done (Returns kTimeout, t, g, o) else
  (do! (rs, hint, ids, g, o) := AcquireLocked (lk_id t) now a stripe key info 0 [] g o in
   if ok rs || (timeout =? 0) then Done (Returns rs, t, g, o)
   else acquire_turns 2 now t (mkAcq a stripe cfid key timeout end_time info rs hint ids) g o)%out.

Definition TryLock (thread : nat) (free : bool) (now : Z) (t : Locker) (cfid : Z) (key : bytes) (exclusive : bool)
    (g : TransactionLockMgr) (o : U) : outcome (Acquired * Locker * TransactionLockMgr * U) :=
  let '(a, g) := GetLockMap thread cfid g in
  match a with
  | None => Done (Returns kCorruption, t, g, o)
  | Some a =>
    (do! m := ofopt (lock_map_store g !! a) in
     do! stripe := GetStripe key m in
     AcquireWithTimeout free now t a stripe cfid key (lock_timeout_ t) (NewLockInfo (lk_id t) (expiration_time_ t) exclusive) g o)%out
  end.
End locking.

(** ** The locks *)

(** A lock has a holder, and only one when it is exclusive. *)
Definition lock_ok (info : LockInfo) : Prop :=
  li_txn_ids info <> [] /\ (li_exclusive info = true -> length (li_txn_ids info) = 1%nat).

(** The keys of stripe [i] of [m]. *)
Definition stripe_ok (m : LockMap) (i : nat) (keys : LockMapStripe) : Prop :=
  map_Forall (fun key info => GetStripe key m = Done i /\ lock_ok info) keys.

Record map_ok (m : LockMap) : Prop := {
  mo_length : length (lock_map_stripes m) = n_stripes m;
  mo_some : (0 < n_stripes m)%nat;
  mo_stripes : forall i keys, lock_map_stripes m !! i = Some keys -> stripe_ok m i keys;
}.

Lemma NewLockMap_ok n : (0 < n)%nat -> map_ok (NewLockMap n).
Proof.
  intros Hn. split; cbn; [by rewrite length_replicate | done |].
  intros i keys [-> _]%lookup_replicate. by apply map_Forall_empty.
Qed.

Lemma GetStripe_ok key m : map_ok m -> exists i, GetStripe key m = Done i /\ (i < length (lock_map_stripes m))%nat.
Proof.
  intros [Hl Hn _]. unfold GetStripe. destruct (Nat.eqb_spec (n_stripes m) 0); [lia|]. eexists. split; [done|]. rewrite Hl.
  pose proof (Z.mod_pos_bound (Js key) (Z.of_nat (n_stripes m)) ltac:(lia)). lia.
Qed.

(** The other stripes stay. *)
Lemma map_ok_insert m i keys count :
  map_ok m -> stripe_ok m i keys -> map_ok (mkLockMap (n_stripes m) count (<[i := keys]> (lock_map_stripes m))).
Proof.
  intros [Hl Hn Hs] Hk. split; cbn; [by rewrite length_insert | done |].
  intros j keys' [(-> & <- & _)|[_ Hj]]%list_lookup_insert_Some; [exact Hk | by apply Hs].
Qed.

(** The one who holds a key in the stripe of [m] it belongs to. *)
Definition lock_of (m : LockMap) (key : bytes) : option LockInfo :=
  match GetStripe key m with Done i => default ∅ (lock_map_stripes m !! i) !! key | _ => None end.

Lemma stripe_ok_insert m i keys key info :
  stripe_ok m i keys -> GetStripe key m = Done i -> lock_ok info -> stripe_ok m i (<[key := info]> keys).
Proof. intros Hk Hi Hl. by apply map_Forall_insert_2. Qed.

Lemma length_remove_id i ids : (i < length ids)%nat -> length (remove_id i ids) = (length ids - 1)%nat.
Proof.
  intros Hi. unfold remove_id. destruct (last ids) as [z|] eqn:El; [|by apply last_None in El as ->].
  rewrite length_take, length_insert. lia.
Qed.

Lemma unlock_key_ok m i max txn_id key keys count :
  stripe_ok m i keys -> stripe_ok m i (fst (unlock_key max txn_id key keys count)).
Proof.
  intros Hk. unfold unlock_key. destruct (keys !! key) as [info|] eqn:Ek; [|done].
  destruct (list_find _ _) as [[j x]|] eqn:Ef; [|done]. cbn [fst]. destruct (map_Forall_lookup_1 _ _ _ _ Hk Ek) as [Hs [Hne He]].
  apply list_find_Some in Ef as (Hj & _ & _). apply lookup_lt_Some in Hj.
  destruct (Nat.eqb_spec (length (li_txn_ids info)) 1) as [E1|E1]; [by apply map_Forall_delete|].
  apply stripe_ok_insert; [done..|]. split; cbn.
  - intros E%(f_equal length). rewrite length_remove_id in E by done. cbn in E. lia.
  - intros Hx. by apply He in Hx.
Qed.

(** ** AcquireLocked *)

Section acquire.
Context {U : Type} `{!LockOwners U}.

(** The lock [txn_id] has when it asked for [txn_info] and was given it. *)
Definition granted (txn_id : Z) (txn_info info : LockInfo) : Prop :=
  txn_id ∈ li_txn_ids info /\
  (li_exclusive txn_info = true -> li_txn_ids info = [txn_id] /\ li_exclusive info = true).

(** Some other transaction, which is not done with it, has the lock in a way
    that keeps [txn_info] out. *)
Definition in_conflict (txn_id : Z) (txn_info info : LockInfo) : Prop :=
  li_txn_ids info <> [txn_id] /\ (li_exclusive info = true \/ li_exclusive txn_info = true).

Record acquired_spec (max txn_id now : Z) (key : bytes) (txn_info : LockInfo) (keys keys' : LockMapStripe) (count : Z)
    (ids : list Z) (rs : error) : Prop := {
  as_others : forall k, k <> key -> keys' !! k = keys !! k;
  as_result :
    rs = kOk /\ (exists info, keys' !! key = Some info /\ granted txn_id txn_info info) /\
      (forall info, keys !! key = Some info -> in_conflict txn_id txn_info info ->
        0 < li_expiration_time info <= now /\ keys' !! key = Some txn_info) \/
    rs = kTimeout /\ keys' = keys /\
      (exists info, keys !! key = Some info /\ in_conflict txn_id txn_info info /\ ids = li_txn_ids info) \/
    rs = kBusy /\ keys' = keys /\ keys !! key = None /\ 0 < max <= count;
}.

Lemma steal_all_expired txn_id ids expired hint (o : U) : fst (fst (steal_all txn_id ids expired hint o)) = true -> expired = true.
Proof.
  revert hint o. induction ids as [|id ids IH]; intros hint o; cbn [steal_all fst]; [done|].
  destruct (txn_id =? id); [apply IH|]. destruct (TryStealing id o) as [[] o']; [apply IH | done].
Qed.

Lemma IsLockExpired_time txn_id now info hint (o : U) :
  fst (fst (IsLockExpired txn_id now info hint o)) = true -> 0 < li_expiration_time info <= now.
Proof.
  unfold IsLockExpired. cbv zeta. destruct (Z.ltb_spec 0 (li_expiration_time info)), (Z.leb_spec (li_expiration_time info) now);
    cbn [andb negb fst]; [done | done | |]; intros E; by apply steal_all_expired in E.
Qed.

Lemma acquire_locked_ok m i max txn_id now key txn_info keys count hint ids (o : U) :
  stripe_ok m i keys -> GetStripe key m = Done i -> li_txn_ids txn_info = [txn_id] ->
  exists rs keys' count' hint' ids' o',
    acquire_locked max txn_id now key txn_info keys count hint ids o = (rs, keys', count', hint', ids', o') /\
    stripe_ok m i keys' /\ acquired_spec max txn_id now key txn_info keys keys' count ids' rs.
Proof.
  intros Hk Hi Hids.
  assert (Hnew : lock_ok txn_info) by (unfold lock_ok; by rewrite Hids).
  assert (Hin : granted txn_id txn_info txn_info) by (split; [rewrite Hids; by left | by intros Hx]).
  assert (Hoth : forall info k, k <> key -> <[key := info]> keys !! k = keys !! k) by (intros; by rewrite lookup_insert_ne).
  unfold acquire_locked. destruct (keys !! key) as [info|] eqn:Ek.
  - destruct (map_Forall_lookup_1 _ _ _ _ Hk Ek) as [_ Hl].
    destruct (li_exclusive info || li_exclusive txn_info) eqn:Ex.
    + apply orb_true_iff in Ex. case_bool_decide as Eme.
      * eexists _, _, _, _, _, _. split; [done|]. split; [apply stripe_ok_insert; [done..|]; unfold lock_ok; cbn; by rewrite Eme|].
        split; [by apply Hoth|]. left. split_and!; [done | |].
        -- eexists. split; [by rewrite lookup_insert_eq|]. split; cbn; [rewrite Eme; by left | by rewrite Eme].
        -- intros info' E [Hne _]. assert (info' = info) as -> by congruence. done.
      * destruct (IsLockExpired txn_id now info hint o) as [[expired hint'] o'] eqn:Ee. destruct expired.
        -- eexists _, _, _, _, _, _. split; [done|]. split; [by apply stripe_ok_insert|]. split; [by apply Hoth|]. left. split_and!; [done | |].
           ++ exists txn_info. by rewrite lookup_insert_eq.
           ++ intros info' E _. assert (info' = info) as -> by congruence. split; [|by rewrite lookup_insert_eq]. eapply (IsLockExpired_time txn_id now info hint o). by rewrite Ee.
        -- eexists _, _, _, _, _, _. split; [done|]. split; [done|]. split; [done|]. right. left. split_and!; [done..|].
           exists info. split_and!; [done | by split | done].
    + apply orb_false_iff in Ex as [E1 E2]. eexists _, _, _, _, _, _. split; [done|]. split.
      * apply stripe_ok_insert; [done..|]. split; cbn; [by destruct (li_txn_ids info) | by rewrite E1].
      * split; [by apply Hoth|]. left. split_and!; [done | |].
        -- eexists. split; [by rewrite lookup_insert_eq|]. split; cbn; [apply elem_of_app; right; by left | by rewrite E2].
        -- intros info' E [_ [?|?]]; congruence.
  - destruct ((0 <? max) && (max <=? count)) eqn:Em.
    + apply andb_true_iff in Em as [E1%Z.ltb_lt E2%Z.leb_le]. eexists _, _, _, _, _, _. split; [done|]. split; [done|]. split; [done|].
      right. right. done.
    + eexists _, _, _, _, _, _. split; [done|]. split; [by apply stripe_ok_insert|]. split; [by apply Hoth|]. left. split_and!; [done | |].
      * exists txn_info. by rewrite lookup_insert_eq.
      * intros info E. congruence.
Qed.
End acquire.

(** ** The manager *)

Record mgr_ok (g : TransactionLockMgr) : Prop := {
  mg_stripes : (0 < default_num_stripes_ g)%nat;
  mg_maps : Forall map_ok (lock_map_store g);
  mg_known : forall cfid a, lock_maps_ g !! cfid = Some a -> (a < length (lock_map_store g))%nat;
  mg_cached : forall th c cfid a, lock_maps_cache_ g !! th = Some c -> c !! cfid = Some a -> (a < length (lock_map_store g))%nat;
  mg_wait : wait_ok (wait_state g);
}.

(** Lock maps stay, with their stripes; new ones are added. *)
Definition grows (g g' : TransactionLockMgr) : Prop :=
  forall a m, lock_map_store g !! a = Some m -> exists m', lock_map_store g' !! a = Some m' /\ n_stripes m' = n_stripes m.

#[export] Instance grows_preorder : PreOrder grows.
Proof.
  split.
  - intros g a m Hm. by exists m.
  - intros g1 g2 g3 H12 H23 a m Hm. destruct (H12 a m Hm) as (m2 & H2 & E2). destruct (H23 a m2 H2) as (m3 & H3 & E3).
    exists m3. split; [done | congruence].
Qed.

Lemma GetStripe_n key m m' : n_stripes m' = n_stripes m -> GetStripe key m' = GetStripe key m.
Proof. intros E. unfold GetStripe. by rewrite E. Qed.

(** The place of a key in the store. *)
Definition placed (g : TransactionLockMgr) (a : nat) (key : bytes) (stripe : nat) : Prop :=
  exists m, lock_map_store g !! a = Some m /\ GetStripe key m = Done stripe.

Lemma placed_grows g g' a key stripe : grows g g' -> placed g a key stripe -> placed g' a key stripe.
Proof.
  intros Hg (m & Hm & Hs). destruct (Hg a m Hm) as (m' & Hm' & E). exists m'. split; [done|]. by rewrite (GetStripe_n key m m').
Qed.

Lemma set_wait_ok s g : mgr_ok g -> wait_ok s -> mgr_ok (set_wait_state s g).
Proof. by intros []. Qed.

Lemma set_lock_map_ok g a m m' :
  mgr_ok g -> lock_map_store g !! a = Some m -> map_ok m' -> n_stripes m' = n_stripes m ->
  mgr_ok (set_lock_map a m' g) /\ grows g (set_lock_map a m' g).
Proof.
  intros [H1 H2 H3 H4 H5] Hm Hm' En. split.
  - split; cbn; [done | by apply Forall_insert | rewrite length_insert; done | rewrite length_insert; done | done].
  - intros b mb Hb. cbn. destruct (decide (b = a)) as [->|Hne].
    + exists m'. split; [|congruence]. apply list_lookup_insert_eq. by eapply lookup_lt_Some.
    + exists mb. by rewrite list_lookup_insert_ne.
Qed.

Lemma AddColumnFamily_ok cfid g : mgr_ok g -> mgr_ok (AddColumnFamily cfid g) /\ grows g (AddColumnFamily cfid g).
Proof.
  intros [H1 H2 H3 H4 H5]. split.
  - split; cbn; [done | | | | done].
    + apply Forall_app. split; [done|]. constructor; [by apply NewLockMap_ok | constructor].
    + intros c a. rewrite length_app. cbn. unfold insert_new. destruct (lock_maps_ g !! cfid) eqn:E.
      * intros Hc. specialize (H3 c a Hc). lia.
      * intros [[-> <-]|[_ Hc]]%lookup_insert_Some; [lia|]. specialize (H3 c a Hc). lia.
    + intros th c cf a Hc Ha. rewrite length_app. specialize (H4 th c cf a Hc Ha). lia.
  - intros a m Hm. exists m. split; [|done]. cbn. by apply lookup_app_l_Some.
Qed.

Lemma RemoveColumnFamily_ok cfid g g' : mgr_ok g -> RemoveColumnFamily cfid g = Done g' -> mgr_ok g' /\ grows g g'.
Proof.
  intros [H1 H2 H3 H4 H5]. unfold RemoveColumnFamily. destruct (lock_maps_ g !! cfid); [|done]. intros [= <-]. split.
  - split; cbn; try done. intros c a [_ Hc]%lookup_delete_Some. by apply (H3 c).
  - intros a m Hm. by exists m.
Qed.

(** A lock map that is found is one of the store; nothing else changes. *)
Lemma GetLockMap_ok th cfid g :
  mgr_ok g -> exists a g', GetLockMap th cfid g = (a, g') /\ mgr_ok g' /\ lock_map_store g' = lock_map_store g /\
    wait_state g' = wait_state g /\ max_num_locks_ g' = max_num_locks_ g /\
    match a with Some a => exists m, lock_map_store g !! a = Some m /\ map_ok m | None => True end.
Proof.
  intros Hok. pose proof Hok as [H1 H2 H3 H4 H5].
  assert (Hin : forall a, (a < length (lock_map_store g))%nat -> exists m, lock_map_store g !! a = Some m /\ map_ok m).
  { intros a [m Hm]%lookup_lt_is_Some. exists m. split; [done|]. by eapply (Forall_lookup_1 map_ok). }
  assert (Hcache : forall cf a, default ∅ (lock_maps_cache_ g !! th) !! cf = Some a -> (a < length (lock_map_store g))%nat).
  { intros cf a. destruct (lock_maps_cache_ g !! th) as [c|] eqn:Ec; [by apply (H4 th)|]. cbn. by rewrite lookup_empty. }
  unfold GetLockMap. cbv zeta. destruct (default ∅ (lock_maps_cache_ g !! th) !! cfid) as [a|] eqn:Ea.
  { exists (Some a), g. split_and!; try done. by apply Hin, (Hcache cfid). }
  destruct (lock_maps_ g !! cfid) as [a|] eqn:Em; (eexists _, _; split; [done|]; split; [|split_and!; try done]).
  - split; cbn; try done. intros th' c cf b [[<- <-]|[_ Hc]]%lookup_insert_Some Hb; [|by apply (H4 th' c cf b)].
    apply lookup_insert_Some in Hb as [[-> ->]|[_ Hb]]; [by apply (H3 cf) | by apply (Hcache cf)].
  - by apply Hin, (H3 cfid).
  - split; cbn; try done. intros th' c cf b [[<- <-]|[_ Hc]]%lookup_insert_Some Hb; [by apply (Hcache cf) | by apply (H4 th' c cf b)].
Qed.

(** ** Acquiring *)

Section acquiring.
Context {U : Type} `{!LockOwners U}.

(** The lock of a key. *)
Definition lock_at (g : TransactionLockMgr) (a : nat) (key : bytes) : option LockInfo :=
  match lock_map_store g !! a with Some m => lock_of m key | None => None end.

(** What [AcquireLocked] ends with, at the lock of the key. *)
Definition lock_result (max txn_id now : Z) (txn_info : LockInfo) (old new : option LockInfo) (ids : list Z) (rs : error) : Prop :=
  rs = kOk /\ (exists info, new = Some info /\ granted txn_id txn_info info) /\
    (forall info, old = Some info -> in_conflict txn_id txn_info info -> 0 < li_expiration_time info <= now /\ new = Some txn_info) \/
  rs = kTimeout /\ new = old /\ (exists info, old = Some info /\ in_conflict txn_id txn_info info /\ ids = li_txn_ids info) \/
  rs = kBusy /\ new = old /\ old = None /\ 0 < max.

Lemma AcquireLocked_ok g a stripe txn_id now key txn_info hint ids (o : U) :
  mgr_ok g -> placed g a key stripe -> li_txn_ids txn_info = [txn_id] ->
  exists rs hint' ids' g' o', AcquireLocked txn_id now a stripe key txn_info hint ids g o = Done (rs, hint', ids', g', o') /\
    mgr_ok g' /\ grows g g' /\ wait_state g' = wait_state g /\ max_num_locks_ g' = max_num_locks_ g /\
    lock_result (max_num_locks_ g) txn_id now txn_info (lock_at g a key) (lock_at g' a key) ids' rs.
Proof.
  intros Hok (m & Hm & Hs) Hids. pose proof (Forall_lookup_1 _ _ _ _ (mg_maps _ Hok) Hm) as Hmok.
  destruct (GetStripe_ok key m Hmok) as (i & Ei & Hi). assert (i = stripe) as -> by congruence.
  apply lookup_lt_is_Some in Hi as [keys Hkeys].
  destruct (acquire_locked_ok m stripe (max_num_locks_ g) txn_id now key txn_info keys (lock_count m) hint ids o
    (mo_stripes _ Hmok _ _ Hkeys) Hs Hids) as (rs & keys' & count' & hint' & ids' & o' & E & Hk' & [Hoth Hres]).
  unfold AcquireLocked. rewrite Hm. cbn [ofopt obind]. rewrite Hkeys. cbn [ofopt obind]. rewrite E.
  set (m' := mkLockMap (n_stripes m) count' (<[stripe := keys']> (lock_map_stripes m))).
  destruct (set_lock_map_ok g a m m' Hok Hm) as [Hok' Hg]; [by apply map_ok_insert | done |].
  eexists rs, hint', ids', _, o'. split; [done|]. split_and!; [done..|].
  assert (Hold : lock_at g a key = keys !! key) by (unfold lock_at, lock_of; rewrite Hm, Hs, Hkeys; done).
  assert (Hnew : lock_at (set_lock_map a m' g) a key = keys' !! key).
  { unfold lock_at, lock_of. cbn. rewrite list_lookup_insert_eq by (by eapply lookup_lt_Some).
    rewrite (GetStripe_n key m m') by done. rewrite Hs. cbn. rewrite list_lookup_insert_eq by (by eapply lookup_lt_Some). done. }
  rewrite Hold, Hnew. destruct Hres as [H1|[(-> & -> & H2)|(-> & -> & H3 & H4)]]; [by left | right; left; by split_and! | right; right].
  split_and!; [done..|]. lia.
Qed.

(** The parts of a transaction that waiting does not change. *)
Definition same_locker (t t' : Locker) : Prop :=
  lk_id t' = lk_id t /\ lock_timeout_ t' = lock_timeout_ t /\ expiration_time_ t' = expiration_time_ t /\
  deadlock_detect_ t' = deadlock_detect_ t /\ deadlock_detect_depth_ t' = deadlock_detect_depth_ t.

(** The entry of the wait graph of a transaction that waits. *)
Definition entry_for (t : Locker) (q : Acquiring) : option TrackedTxnInfo :=
  if deadlock_detect_ t && negb (bool_decide (aq_wait_ids q = [])) then
    Some (mkTracked (aq_wait_ids q) (aq_cfid q) (aq_key q) (li_exclusive (aq_info q)))
  else None.

Definition entry_of_result (t : Locker) (r : Acquired) : option TrackedTxnInfo :=
  match r with Returns _ => None | Blocks _ q => entry_for t q end.

Record acq_ok (t : Locker) (g : TransactionLockMgr) (q : Acquiring) : Prop := {
  aq_placed : placed g (aq_map q) (aq_key q) (aq_stripe q);
  aq_id : li_txn_ids (aq_info q) = [lk_id t];
}.

(** The wait graph with the entry of [t], if there is one. *)
Definition put_entry (t : Locker) (e : option TrackedTxnInfo) (m : gmap Z TrackedTxnInfo) : gmap Z TrackedTxnInfo :=
  partial_alter (fun _ => e) (lk_id t) m.

Lemma before_wait_ok now t q g :
  mgr_ok g -> wait_txn_map_ (wait_state g) !! lk_id t = None ->
  exists deadlock t' g', before_wait now t q g = Done (deadlock, t', g') /\ same_locker t t' /\ mgr_ok g' /\
    lock_map_store g' = lock_map_store g /\ max_num_locks_ g' = max_num_locks_ g /\
    wait_txn_map_ (wait_state g') = put_entry t (if deadlock : bool then None else entry_for t q) (wait_txn_map_ (wait_state g)).
Proof.
  intros Hok Hnone.
  assert (Hid : put_entry t None (wait_txn_map_ (wait_state g)) = wait_txn_map_ (wait_state g))
    by (unfold put_entry; rewrite <- Hnone; apply partial_alter_self).
  unfold before_wait, entry_for. case_bool_decide as Hw.
  { exists false, t, g. rewrite andb_false_r. split_and!; done. }
  cbn [negb]. rewrite andb_true_r. destruct (deadlock_detect_ t).
  - destruct (IncrementWaiters_ok (lk_id t) (Z.to_nat (deadlock_detect_depth_ t)) now (aq_wait_ids q) (aq_key q) (aq_cfid q)
      (li_exclusive (aq_info q)) (wait_state g) (mg_wait _ Hok) Hnone) as (d & s' & -> & Hs' & Hd). cbn [obind].
    destruct d; destruct Hd as [Em _].
    + eexists true, t, _. split; [done|]. split; [done|]. split; [by apply set_wait_ok|]. split_and!; [done..|]. by rewrite Hid.
    + eexists false, _, _. split; [done|]. split; [done|]. split; [by apply set_wait_ok|]. split_and!; [done..|]. exact Em.
  - cbn [obind]. eexists false, _, g. split; [done|]. split_and!; done.
Qed.

(** The end of a turn: the lock is asked for again, unless the limit of locks
    was the reason to wait. *)
Lemma after_wait_ok now rs t q g (o : U) :
  mgr_ok g -> acq_ok t g q -> wait_txn_map_ (wait_state g) !! lk_id t = entry_for t q ->
  exists rs' hint ids t' g' o',
    after_wait now rs t q g o = Done (rs', ok rs' || bool_decide (rs = kTimeout), t', set_acquired rs' hint ids q, g', o') /\
    same_locker t t' /\ mgr_ok g' /\ grows g g' /\ max_num_locks_ g' = max_num_locks_ g /\
    wait_txn_map_ (wait_state g') = delete (lk_id t) (wait_txn_map_ (wait_state g)) /\
    if ok rs || bool_decide (rs = kTimeout) then
      lock_result (max_num_locks_ g) (lk_id t) now (aq_info q) (lock_at g (aq_map q) (aq_key q)) (lock_at g' (aq_map q) (aq_key q)) ids rs'
    else rs' = rs.
Proof.
  intros Hok [Hp Hi] He. unfold after_wait.
  set (x := if bool_decide (aq_wait_ids q = []) then (t, g) else _).
  assert (Hx : same_locker t (fst x) /\ mgr_ok (snd x) /\ lock_map_store (snd x) = lock_map_store g /\
    max_num_locks_ (snd x) = max_num_locks_ g /\ wait_txn_map_ (wait_state (snd x)) = delete (lk_id t) (wait_txn_map_ (wait_state g))).
  { unfold x, entry_for in *. case_bool_decide as Hw.
    - rewrite andb_false_r in He. split_and!; try done. by rewrite delete_id.
    - cbn [negb] in He. rewrite andb_true_r in He. cbn [fst snd]. destruct (deadlock_detect_ t).
      + split_and!; try done. apply set_wait_ok; [done|]. eapply DecrementWaiters_ok; [apply (mg_wait _ Hok) | exact He | done].
      + split_and!; try done. by rewrite delete_id. }
  destruct x as [t1 g1]. cbn [fst snd] in Hx. destruct Hx as (Ht1 & Hok1 & Es & Em & Ew).
  assert (Hg1 : forall a key s, placed g a key s -> placed g1 a key s) by (unfold placed; by rewrite Es).
  assert (Hgr : grows g g1) by (intros a m Hm; exists m; by rewrite Es).
  assert (Hla : forall a key, lock_at g1 a key = lock_at g a key) by (intros; unfold lock_at; by rewrite Es).
  pose proof Ht1 as (Eid & _). destruct (ok rs || bool_decide (rs = kTimeout)) eqn:Er.
  - destruct (AcquireLocked_ok g1 (aq_map q) (aq_stripe q) (lk_id t1) now (aq_key q) (aq_info q) (aq_hint q) (aq_wait_ids q) o)
      as (rs' & hint' & ids' & g' & o' & -> & Hok' & Hg' & Ew' & Em' & Hres); [done | by apply Hg1 | by rewrite Eid|].
    cbn [obind]. eexists _, _, _, _, g', o'. split; [done|]. split_and!; try done; [by transitivity g1 | congruence | congruence |].
    rewrite <- Em, <- Eid, <- Hla. exact Hres.
  - cbn [obind]. by eexists _, _, _, _, g1, o.
Qed.

(** A request that has been given its lock, or waits for it. *)
Definition result_ok (t : Locker) (a : nat) (key : bytes) (info : LockInfo) (r : Acquired) (g : TransactionLockMgr) : Prop :=
  match r with
  | Returns rs => rs = kOk -> exists i, lock_at g a key = Some i /\ granted (lk_id t) info i
  | Blocks _ q => acq_ok t g q /\ (aq_rs q = kTimeout \/ 0 < max_num_locks_ g) /\ aq_map q = a /\ aq_key q = key /\ aq_info q = info
  end.

(** What a step of a transaction leaves. *)
Record stepped (t t' : Locker) (a : nat) (key : bytes) (info : LockInfo) (r : Acquired) (g g' : TransactionLockMgr) : Prop := {
  st_locker : same_locker t t';
  st_ok : mgr_ok g';
  st_grows : grows g g';
  st_max : max_num_locks_ g' = max_num_locks_ g;
  st_result : result_ok t a key info r g';
  st_wait : wait_txn_map_ (wait_state g') = put_entry t (entry_of_result t r) (wait_txn_map_ (wait_state g));
}.

Lemma partial_alter_compose_const {A} (f : option A -> option A) e k (m : gmap Z A) :
  (forall x, f x = f e) -> partial_alter f k (partial_alter (fun _ => e) k m) = partial_alter f k m.
Proof.
  intros Hf. apply map_eq. intros i. destruct (decide (i = k)) as [->|].
  - rewrite !lookup_partial_alter_eq, (Hf (m !! k)). apply Hf.
  - by rewrite !lookup_partial_alter_ne.
Qed.

Lemma put_entry_delete t e m : put_entry t e (delete (lk_id t) m) = put_entry t e m.
Proof. by apply partial_alter_compose_const. Qed.

Lemma put_entry_same t t' e m : same_locker t t' -> put_entry t' e m = put_entry t e m.
Proof. intros (E & _). unfold put_entry. by rewrite E. Qed.

Lemma put_entry_put t e e' m : put_entry t e (put_entry t e' m) = put_entry t e m.
Proof. by apply partial_alter_compose_const. Qed.

Lemma put_entry_none t m : put_entry t None m = delete (lk_id t) m.
Proof. done. Qed.

Lemma entry_for_same t t' q : same_locker t t' -> entry_for t' q = entry_for t q.
Proof. intros (_ & _ & _ & E & _). unfold entry_for. by rewrite E. Qed.

Lemma stepped_trans t t1 t2 a key info r g g1 g2 e :
  same_locker t t1 -> grows g g1 -> max_num_locks_ g1 = max_num_locks_ g ->
  wait_txn_map_ (wait_state g1) = put_entry t e (wait_txn_map_ (wait_state g)) ->
  stepped t1 t2 a key info r g1 g2 -> stepped t t2 a key info r g g2.
Proof.
  intros Ht Hg Hm Hw [S1 S2 S3 S4 S5 S6]. pose proof Ht as (Eid & E1 & E2 & E3 & E4). split; [| done | by transitivity g1 | congruence | |].
  - unfold same_locker in *. destruct S1 as (F0 & F1 & F2 & F3 & F4). split_and!; congruence.
  - unfold result_ok in *. rewrite <- Eid. destruct r; [done|]. destruct S5 as ([P1 P2] & S5). split; [|done]. split; [done | congruence].
  - rewrite S6, Hw, (put_entry_same t t1) by done. rewrite put_entry_put. f_equal.
    destruct r; [done|]. by apply entry_for_same.
Qed.

(** The turns end, but for the limit of locks. *)
Lemma acquire_turns_ok fuel now t q g (o : U) :
  (0 < fuel)%nat -> mgr_ok g -> acq_ok t g q -> wait_txn_map_ (wait_state g) !! lk_id t = None ->
  aq_rs q = kTimeout \/ 0 < max_num_locks_ g ->
  (acquire_turns fuel now t q g o = OutOfFuel /\ 0 < max_num_locks_ g) \/
  exists r t' g' o', acquire_turns fuel now t q g o = Done (r, t', g', o') /\
    stepped t t' (aq_map q) (aq_key q) (aq_info q) r g g'.
Proof.
  revert t q g o. induction fuel as [|fuel IH]; intros t q g o Hf Hok Hacq Hnone Hrs; [lia|]. clear Hf. cbn [acquire_turns].
  destruct (before_wait_ok now t q g Hok Hnone) as (dead & t1 & g1 & -> & Ht1 & Hok1 & Es & Em & Ew). cbn [obind].
  assert (Hgr : grows g g1) by (intros a m Hm; exists m; by rewrite Es).
  destruct dead; [right; exists (Returns kBusy), t1, g1, o; by split|].
  assert (Hacq1 : acq_ok t g1 q) by (destruct Hacq as [P1 P2]; split; [by eapply placed_grows | done]).
  assert (Hrs1 : aq_rs q = kTimeout \/ 0 < max_num_locks_ g1) by (destruct Hrs; [by left | right; lia]).
  destruct (cv_end q) as [e|]; [destruct (now <? e)|]; [right; exists (Blocks (Some e) q), t1, g1, o; by split | |
    right; exists (Blocks None q), t1, g1, o; by split].
  pose proof Ht1 as (Eid & _).
  destruct (after_wait_ok now (aq_rs q) t1 q g1 o Hok1) as (rs' & hint & ids & t2 & g2 & o2 & -> & Ht2 & Hok2 & Hg2 & Em2 & Ew2 & Hres).
  { destruct Hacq1 as [P1 P2]. split; [done | congruence]. }
  { rewrite Ew, Eid, (entry_for_same t t1) by done. apply lookup_partial_alter_eq. }
  cbn [obind]. assert (Hs2 : same_locker t t2) by (unfold same_locker in *; intuition congruence).
  assert (Hw2 : wait_txn_map_ (wait_state g2) = put_entry t None (wait_txn_map_ (wait_state g))).
  { rewrite Ew2, Ew, Eid, <- put_entry_none. apply put_entry_put. }
  destruct (ok rs' || bool_decide (aq_rs q = kTimeout)) eqn:Ed.
  - right. exists (Returns rs'), t2, g2, o2. split; [done|]. split; [done | done | by transitivity g1 | congruence | | exact Hw2].
    intros ->. destruct (ok (aq_rs q) || bool_decide (aq_rs q = kTimeout)) eqn:Er.
    + destruct Hres as [(_ & Hg & _)|[(? & _)|(? & _)]]; [by rewrite <- Eid | done..].
    + rewrite <- Hres in Er. done.
  - apply orb_false_iff in Ed as [_ Hd%bool_decide_eq_false]. destruct Hrs as [|Hmax]; [done|].
    destruct fuel as [|fuel]; [by left|].
    assert (Hg02 : grows g g2) by (by transitivity g1). assert (Em02 : max_num_locks_ g2 = max_num_locks_ g) by congruence.
    destruct (IH t2 (set_acquired rs' hint ids q) g2 o2) as [[-> H]|(r & t3 & g3 & o3 & -> & Hst)]; try done.
    + lia.
    + destruct Hacq1 as [P1 P2]. split; cbn; [by apply (placed_grows g1) | destruct Hs2 as [-> _]; exact P2].
    + rewrite Hw2. destruct Hs2 as (-> & _). apply lookup_partial_alter_eq.
    + right. lia.
    + left. split; [done | lia].
    + right. exists r, t3, g3, o3. split; [done|]. by apply (stepped_trans t t2 t3 _ _ _ r g g2 g3 None).
Qed.
(** The first call of a request. *)
Lemma TryLock_ok th free now t cfid key ex g (o : U) :
  mgr_ok g -> wait_txn_map_ (wait_state g) !! lk_id t = None ->
  (TryLock th free now t cfid key ex g o = OutOfFuel /\ 0 < max_num_locks_ g) \/
  exists r t' g' o' a, TryLock th free now t cfid key ex g o = Done (r, t', g', o') /\
    stepped t t' a key (NewLockInfo (lk_id t) (expiration_time_ t) ex) r g g'.
Proof.
  intros Hok Hnone. unfold TryLock. destruct (GetLockMap_ok th cfid g Hok) as (a & g1 & -> & Hok1 & Es & Ew & Em & Ha).
  assert (Hgr : grows g g1) by (intros b m Hm; exists m; by rewrite Es).
  assert (Hn : put_entry t None (wait_txn_map_ (wait_state g)) = wait_txn_map_ (wait_state g)) by (rewrite put_entry_none; by apply delete_id).
  destruct a as [a|]; [|right; exists (Returns kCorruption), t, g1, o, 0%nat; split; [done|]; split; try done; by rewrite Ew].
  destruct Ha as (m & Hm & Hmok). rewrite Es, Hm. cbn [ofopt obind]. destruct (GetStripe_ok key m Hmok) as (stripe & Est & _).
  rewrite Est. cbn [obind]. unfold AcquireWithTimeout. destruct ((lock_timeout_ t =? 0) && negb free).
  { right. exists (Returns kTimeout), t, g1, o, a. split; [done|]. split; try done. by rewrite Ew. }
  destruct (AcquireLocked_ok g1 a stripe (lk_id t) now key (NewLockInfo (lk_id t) (expiration_time_ t) ex) 0 [] o)
    as (rs & hint & ids & g2 & o2 & -> & Hok2 & Hg2 & Ew2 & Em2 & Hres); [done | exists m; by rewrite Es | done |]. cbn [obind].
  assert (Hw2 : wait_txn_map_ (wait_state g2) = put_entry t None (wait_txn_map_ (wait_state g))) by (by rewrite Ew2, Ew).
  assert (Hg02 : grows g g2) by (by transitivity g1). assert (Em02 : max_num_locks_ g2 = max_num_locks_ g) by congruence.
  destruct (ok rs || (lock_timeout_ t =? 0)) eqn:Er.
  - right. exists (Returns rs), t, g2, o2, a. split; [done|]. split; try done. intros ->.
    destruct Hres as [(_ & Hg & _)|[(? & _)|(? & _)]]; done.
  - apply orb_false_iff in Er as [Er _].
    match goal with |- context [acquire_turns 2 now t ?q g2 o2] =>
      destruct (acquire_turns_ok 2 now t q g2 o2) as [[-> H]|(r & t3 & g3 & o3 & -> & Hst)] end; try done.
    + lia.
    + split; cbn; [|done]. apply (placed_grows g1 g2); [done|]. exists m. by rewrite Es.
    + by rewrite Ew2, Ew.
    + cbn. destruct Hres as [(-> & _)|[(-> & _)|(-> & _ & _ & H)]]; [done | by left | right; lia].
    + left. split; [done | lia].
    + right. exists r, t3, g3, o3, a. split; [done|]. by apply (stepped_trans t t t3 _ _ _ r g g2 g3 None).
Qed.

(** A wait that ends. *)
Lemma Wake_ok now rs t cv q g (o : U) :
  mgr_ok g -> acq_ok t g q -> wait_txn_map_ (wait_state g) !! lk_id t = entry_for t q ->
  aq_rs q = kTimeout \/ 0 < max_num_locks_ g -> rs = kOk \/ rs = kTimeout ->
  (Wake now rs t cv q g o = OutOfFuel /\ 0 < max_num_locks_ g) \/
  exists r t' g' o', Wake now rs t cv q g o = Done (r, t', g', o') /\ stepped t t' (aq_map q) (aq_key q) (aq_info q) r g g'.
Proof.
  intros Hok Hacq He Hq Hrs. unfold Wake. set (rs0 := match cv with Some _ => rs | None => aq_rs q end).
  destruct (after_wait_ok now rs0 t q g o Hok Hacq He) as (rs' & hint & ids & t1 & g1 & o1 & -> & Ht1 & Hok1 & Hg1 & Em1 & Ew1 & Hres).
  cbn [obind]. pose proof Ht1 as (Eid & _).
  assert (Hw1 : wait_txn_map_ (wait_state g1) = put_entry t None (wait_txn_map_ (wait_state g))) by done.
  destruct (ok rs' || bool_decide (rs0 = kTimeout)) eqn:Ed.
  - right. exists (Returns rs'), t1, g1, o1. split; [done|]. split; try done. intros ->.
    destruct (ok rs0 || bool_decide (rs0 = kTimeout)) eqn:Er; [|by rewrite <- Hres in Er].
    destruct Hres as [(_ & Hg & _)|[(? & _)|(? & _)]]; done.
  - apply orb_false_iff in Ed as [Ed Hd%bool_decide_eq_false].
    destruct (acquire_turns_ok 2 now t1 (set_acquired rs' hint ids q) g1 o1) as [[-> H]|(r & t3 & g3 & o3 & -> & Hst)]; try done.
    + lia.
    + destruct Hacq as [P1 P2]. split; cbn; [by apply (placed_grows g) | rewrite Eid; exact P2].
    + rewrite Ew1, Eid. apply lookup_delete_eq.
    + cbn. destruct (ok rs0 || bool_decide (rs0 = kTimeout)) eqn:Er.
      * destruct Hres as [(-> & _)|[(-> & _)|(-> & _ & _ & H)]]; [done | by left | right; lia].
      * right. apply orb_false_iff in Er as [Er1 _]. destruct Hq as [Hq|]; [|lia].
        subst rs0. destruct cv; [by destruct Hrs as [-> | ->] | by rewrite Hq in Hd].
    + left. split; [done | lia].
    + right. exists r, t3, g3, o3. split; [done|]. by apply (stepped_trans t t1 t3 _ _ _ r g g1 g3 None).
Qed.
End acquiring.

(** ** Unlocking *)

(** Unlocking changes nothing but locks. *)
Definition only_locks (g g' : TransactionLockMgr) : Prop :=
  mgr_ok g' /\ grows g g' /\ wait_state g' = wait_state g /\ max_num_locks_ g' = max_num_locks_ g.

Lemma UnlockKey_ok txn_id key a stripe g g' : mgr_ok g -> UnlockKey txn_id key a stripe g = Done g' -> only_locks g g'.
Proof.
  intros Hok. unfold UnlockKey. destruct (lock_map_store g !! a) as [m|] eqn:Hm; [|done]. cbn [ofopt obind].
  destruct (lock_map_stripes m !! stripe) as [keys|] eqn:Hk; [|done]. cbn [ofopt obind].
  pose proof (Forall_lookup_1 _ _ _ _ (mg_maps _ Hok) Hm) as Hmok.
  pose proof (unlock_key_ok m stripe (max_num_locks_ g) txn_id key keys (lock_count m) (mo_stripes _ Hmok _ _ Hk)) as Hs.
  destruct (unlock_key _ _ _ _ _) as [keys' count']. intros [= <-].
  destruct (set_lock_map_ok g a m (mkLockMap (n_stripes m) count' (<[stripe := keys']> (lock_map_stripes m))) Hok Hm) as [H1 H2];
    [by apply map_ok_insert | done | by split_and!].
Qed.

Lemma only_locks_refl g : mgr_ok g -> only_locks g g.
Proof. intros H. unfold only_locks. by split_and!. Qed.

Lemma only_locks_trans g1 g2 g3 : only_locks g1 g2 -> only_locks g2 g3 -> only_locks g1 g3.
Proof. intros (A1 & A2 & A3 & A4) (B1 & B2 & B3 & B4). split_and!; [done | by transitivity g2 | congruence | congruence]. Qed.

Lemma fold_Undef {A B} (f : A -> B -> outcome B) (l : list A) (x : outcome B) y :
  fold_left (fun b a => obind b (f a)) l x = Done y -> exists z, x = Done z.
Proof.
  revert x. induction l as [|a l IH]; intros x; cbn [fold_left]; [by exists y|]. intros H. apply IH in H as (z & Hz).
  destruct x; [by eexists | done..].
Qed.

Lemma UnlockStripe_ok txn_id a part g g' : mgr_ok g -> UnlockStripe txn_id a part g = Done g' -> only_locks g g'.
Proof.
  destruct part as [stripe keys]. unfold UnlockStripe. cbn [fst snd]. revert g. induction keys as [|key keys IH]; intros g Hok; cbn [fold_left obind].
  - intros [= <-]. by apply only_locks_refl.
  - intros E. destruct (fold_Undef (fun key => UnlockKey txn_id key a stripe) _ _ _ E) as (g1 & E1). rewrite E1 in E.
    pose proof (UnlockKey_ok _ _ _ _ _ _ Hok E1) as H1. eapply only_locks_trans; [exact H1|]. apply IH; [apply H1 | done].
Qed.
