(* ===== verification/TxnSteps.v ===== *)
(** * TxnSteps

    The transactions and their lock manager together, as a step relation.  A
    step is one of the parts of src/txn/transaction-lock-mgr.cc that hold the
    mutex of a stripe throughout: a request up to its return or its wait
    ([TxnLock.TryLock]), the end of a wait ([TxnLock.Wake], which may come at any
    time, as a condition variable allows) and the unlocking of the keys of a
    stripe; or a transaction begins or ends, a lock map is added or removed, or
    anything happens to the owners of expired locks.  The clock of a step is
    arbitrary.

    In every state that is reached an exclusive lock has one holder
    ([exclusive_locks]), and the transactions that detect deadlocks never wait
    in a circle ([no_deadlock]). *)

From stdpp Require Import relations.
From S2P Require Import Prelude Slice Hash TxnWait TxnLock.

Section steps.
Context {U : Type} `{!LockOwners U}.

(** The manager, the owners of expired locks, the transactions by their address
    and the requests that wait. *)
Record System := mkSys {
  sys_mgr : TransactionLockMgr;
  sys_owners : U;
  sys_txns : gmap nat Locker;
  sys_acq : gmap nat (option Z * Acquiring)
}.

Definition NewSystem (num_stripes : nat) (max_num_locks : Z) (max_num_deadlocks : nat) (o : U) : System :=
  mkSys (NewTransactionLockMgr num_stripes max_num_locks max_num_deadlocks) o ∅ ∅.

Definition set_mgr (g : TransactionLockMgr) (s : System) : System := mkSys g (sys_owners s) (sys_txns s) (sys_acq s).

(** The state behind a step of transaction [i]. *)
Definition stepped_to (i : nat) (r : Acquired) (t : Locker) (g : TransactionLockMgr) (o : U) (s : System) : System :=
  mkSys g o (<[i := t]> (sys_txns s))
    (match r with Returns _ => delete i (sys_acq s) | Blocks cv q => <[i := (cv, q)]> (sys_acq s) end).

Inductive step (s : System) : System -> Prop :=
| step_begin i t :
    sys_txns s !! i = None -> (forall j t', sys_txns s !! j = Some t' -> lk_id t' <> lk_id t) ->
    step s (mkSys (sys_mgr s) (sys_owners s) (<[i := t]> (sys_txns s)) (sys_acq s))
| step_end i :
    sys_acq s !! i = None -> step s (mkSys (sys_mgr s) (sys_owners s) (delete i (sys_txns s)) (sys_acq s))
| step_lock i t th free now cfid key ex r t' g' o' :
    sys_txns s !! i = Some t -> sys_acq s !! i = None ->
    TryLock th free now t cfid key ex (sys_mgr s) (sys_owners s) = Done (r, t', g', o') -> step s (stepped_to i r t' g' o' s)
| step_wake i t cv q now rs r t' g' o' :
    sys_txns s !! i = Some t -> sys_acq s !! i = Some (cv, q) -> rs = kOk \/ rs = kTimeout ->
    Wake now rs t cv q (sys_mgr s) (sys_owners s) = Done (r, t', g', o') -> step s (stepped_to i r t' g' o' s)
| step_unlock i t a part g' :
    sys_txns s !! i = Some t -> UnlockStripe (lk_id t) a part (sys_mgr s) = Done g' -> step s (set_mgr g' s)
| step_add cfid : step s (set_mgr (AddColumnFamily cfid (sys_mgr s)) s)
| step_remove cfid g' : RemoveColumnFamily cfid (sys_mgr s) = Done g' -> step s (set_mgr g' s)
| step_owners o : step s (mkSys (sys_mgr s) o (sys_txns s) (sys_acq s)).

(** ** The invariant *)

Record sys_ok (s : System) : Prop := {
  so_mgr : mgr_ok (sys_mgr s);
  so_ids : forall i j t t', sys_txns s !! i = Some t -> sys_txns s !! j = Some t' -> lk_id t = lk_id t' -> i = j;
  so_acq : forall i cv q, sys_acq s !! i = Some (cv, q) -> exists t, sys_txns s !! i = Some t /\ acq_ok t (sys_mgr s) q /\
    (aq_rs q = kTimeout \/ 0 < max_num_locks_ (sys_mgr s));
  so_entry : forall i t cv q, sys_txns s !! i = Some t -> sys_acq s !! i = Some (cv, q) ->
    wait_txn_map_ (wait_state (sys_mgr s)) !! lk_id t = entry_for t q;
  so_waiting : forall id info, wait_txn_map_ (wait_state (sys_mgr s)) !! id = Some info ->
    exists i t cv q, sys_txns s !! i = Some t /\ sys_acq s !! i = Some (cv, q) /\ lk_id t = id;
}.

Lemma NewSystem_ok n max d (o : U) : (0 < n)%nat -> sys_ok (NewSystem n max d o).
Proof.
  intros Hn. split; cbn; [|done..]. split; cbn; [done | constructor | done | done | apply NewWaitState_ok].
Qed.

(** A transaction that does not wait is not in the wait graph. *)
Lemma not_waiting s i t :
  sys_ok s -> sys_txns s !! i = Some t -> sys_acq s !! i = None -> wait_txn_map_ (wait_state (sys_mgr s)) !! lk_id t = None.
Proof.
  intros Hok Ht Ha. destruct (wait_txn_map_ _ !! _) as [info|] eqn:E; [|done].
  apply (so_waiting _ Hok) in E as (j & t' & cv & q & Hj & Hq & Eid).
  assert (i = j) by (by eapply (so_ids _ Hok)). congruence.
Qed.

(** A step of a transaction. *)
Lemma stepped_ok s i t r t' g' o' a key info :
  sys_ok s -> sys_txns s !! i = Some t -> stepped t t' a key info r (sys_mgr s) g' -> sys_ok (stepped_to i r t' g' o' s).
Proof.
  intros [H1 H2 H3 H4 H5] Ht [S1 S2 S3 S4 S5 S6]. pose proof S1 as (Eid & _).
  assert (Hids : forall j u, <[i := t']> (sys_txns s) !! j = Some u -> exists u', sys_txns s !! j = Some u' /\ lk_id u = lk_id u').
  { intros j u [[<- <-]|[_ Hj]]%lookup_insert_Some; [by exists t | by exists u]. }
  assert (Hacq : forall j cv q, sys_acq (stepped_to i r t' g' o' s) !! j = Some (cv, q) ->
    (j = i /\ r = Blocks cv q) \/ (j <> i /\ sys_acq s !! j = Some (cv, q))).
  { intros j cv q. cbn. destruct r as [rs|cv' q'].
    - intros [Hne Hj]%lookup_delete_Some. right. split; [congruence | done].
    - intros [[<- [= <- <-]]|[Hne Hj]]%lookup_insert_Some; [by left | right; split; [congruence | done]]. }
  split; cbn.
  - done.
  - intros j k u v Hj Hk E. destruct (Hids j u Hj) as (u' & Hu & E1), (Hids k v Hk) as (v' & Hv & E2). by apply (H2 j k u' v'); [..|congruence].
  - intros j cv q [[-> ->]|[Hne Hj]]%Hacq.
    + exists t'. rewrite lookup_insert_eq. split; [done|]. destruct S5 as ([P1 P2] & Hr & _). split; [|done]. by split; [|rewrite Eid].
    + destruct (H3 j cv q Hj) as (u & Hu & [P1 P2] & Hr). exists u. rewrite lookup_insert_ne by done. split; [done|].
      split; [split; [by eapply placed_grows | done]|]. by rewrite S4.
  - intros j u cv q Hu Hj%Hacq. rewrite S6. destruct Hj as [[-> ->]|[Hne Hj]].
    + rewrite lookup_insert_eq in Hu. injection Hu as <-. rewrite Eid. unfold put_entry. rewrite lookup_partial_alter_eq. cbn.
      symmetry. by apply entry_for_same.
    + rewrite lookup_insert_ne in Hu by done. unfold put_entry. rewrite lookup_partial_alter_ne; [by apply (H4 j u cv)|].
      intros E. apply Hne. by apply (H2 j i u t).
  - intros id x Hx. rewrite S6 in Hx. unfold put_entry in Hx. destruct (decide (id = lk_id t)) as [->|Hne].
    + rewrite lookup_partial_alter_eq in Hx. destruct r as [rs|cv q]; [done|]. exists i, t', cv, q. rewrite !lookup_insert_eq. done.
    + rewrite lookup_partial_alter_ne in Hx by done. destruct (H5 id x Hx) as (j & u & cv & q & Hu & Hj & E).
      assert (j <> i) by congruence. exists j, u, cv, q. rewrite lookup_insert_ne by done. split; [done|]. split; [|done].
      destruct r; [by rewrite lookup_delete_ne | by rewrite lookup_insert_ne].
Qed.
(** What leaves the waiting as it is. *)
Lemma set_mgr_ok s g' : sys_ok s -> only_locks (sys_mgr s) g' -> sys_ok (set_mgr g' s).
Proof.
  intros [H1 H2 H3 H4 H5] (G1 & G2 & G3 & G4). split; cbn; [done | done | | by rewrite G3 | by rewrite G3].
  intros i cv q Hq. destruct (H3 i cv q Hq) as (t & Ht & [P1 P2] & Hr). exists t. split; [done|].
  split; [split; [by eapply placed_grows | done] | by rewrite G4].
Qed.

Lemma step_ok s s' : sys_ok s -> step s s' -> sys_ok s'.
Proof.
  intros Hok Hstep. pose proof Hok as [H1 H2 H3 H4 H5]. destruct Hstep as
    [i t Hi Hnew|i Hi|i t th free now cfid key ex r t' g' o' Ht Hi E|i t cv q now rs r t' g' o' Ht Hq Hrs E|i t a part g' Ht E|cfid|cfid g' E|o].
  - split; cbn; [done | | | |].
    + intros j k u v [[<- <-]|[? Hj]]%lookup_insert_Some [[<- <-]|[? Hk]]%lookup_insert_Some E; [done | | |by apply (H2 j k u v)].
      * by apply (eq_sym) in E; apply (Hnew k v) in E.
      * by apply (Hnew j u) in E.
    + intros j cv q Hq. destruct (H3 j cv q Hq) as (u & Hu & Hr). exists u. rewrite lookup_insert_ne by congruence. done.
    + intros j u cv q [[<- <-]|[? Hj]]%lookup_insert_Some Hq; [|by apply (H4 j u cv)].
      destruct (H3 i cv q Hq) as (u & Hu & _). congruence.
    + intros id x Hx. destruct (H5 id x Hx) as (j & u & cv & q & Hu & Hj & E). exists j, u, cv, q. rewrite lookup_insert_ne by congruence. done.
  - split; cbn; [done | | | |].
    + intros j k u v [_ Hj]%lookup_delete_Some [_ Hk]%lookup_delete_Some. by apply H2.
    + intros j cv q Hq. destruct (H3 j cv q Hq) as (u & Hu & Hr). exists u. rewrite lookup_delete_ne by congruence. done.
    + intros j u cv q [_ Hj]%lookup_delete_Some. by apply H4.
    + intros id x Hx. destruct (H5 id x Hx) as (j & u & cv & q & Hu & Hj & E). exists j, u, cv, q. rewrite lookup_delete_ne by congruence. done.
  - destruct (TryLock_ok th free now t cfid key ex (sys_mgr s) (sys_owners s) H1 (not_waiting s i t Hok Ht Hi))
      as [[E' _]|(r0 & t0 & g0 & o0 & a & E' & Hst)]; rewrite E' in E; [done|]. injection E as <- <- <- <-. by eapply stepped_ok.
  - destruct (H3 i cv q Hq) as (t0 & Ht0 & Hacq & Hr). assert (t0 = t) as -> by congruence.
    destruct (Wake_ok now rs t cv q (sys_mgr s) (sys_owners s) H1 Hacq (H4 i t cv q Ht Hq) Hr Hrs)
      as [[E' _]|(r0 & t1 & g0 & o0 & E' & Hst)]; rewrite E' in E; [done|]. injection E as <- <- <- <-. by eapply stepped_ok.
  - apply set_mgr_ok; [done|]. by eapply UnlockStripe_ok.
  - apply set_mgr_ok; [done|]. destruct (AddColumnFamily_ok cfid _ H1). by split_and!.
  - apply set_mgr_ok; [done|]. destruct (RemoveColumnFamily_ok cfid _ _ H1 E). split_and!; try done;
      unfold RemoveColumnFamily in E; destruct (_ !! cfid); by simplify_eq.
  - by split.
Qed.

Lemma reachable_ok n max d (o : U) s : (0 < n)%nat -> rtc step (NewSystem n max d o) s -> sys_ok s.
Proof.
  intros Hn Hr. remember (NewSystem n max d o) as s0 eqn:E. assert (Hok : sys_ok s0) by (subst; by apply NewSystem_ok).
  clear E. induction Hr as [s|s s1 s2 Hs _ IH]; [done|]. apply IH. by eapply step_ok.
Qed.

(** The limit of locks does not change. *)
Lemma step_max s s' : sys_ok s -> step s s' -> max_num_locks_ (sys_mgr s') = max_num_locks_ (sys_mgr s).
Proof.
  intros Hok Hstep. pose proof Hok as [H1 H2 H3 H4 H5]. destruct Hstep as
    [i t Hi Hnew|i Hi|i t th free now cfid key ex r t' g' o' Ht Hi E|i t cv q now rs r t' g' o' Ht Hq Hrs E|i t a part g' Ht E|cfid|cfid g' E|o];
    try done.
  - destruct (TryLock_ok th free now t cfid key ex (sys_mgr s) (sys_owners s) H1 (not_waiting s i t Hok Ht Hi))
      as [[E' _]|(r0 & t0 & g0 & o0 & a & E' & Hst)]; rewrite E' in E; [done|]. injection E as <- <- <- <-. apply Hst.
  - destruct (H3 i cv q Hq) as (t0 & Ht0 & Hacq & Hr). assert (t0 = t) as -> by congruence.
    destruct (Wake_ok now rs t cv q (sys_mgr s) (sys_owners s) H1 Hacq (H4 i t cv q Ht Hq) Hr Hrs)
      as [[E' _]|(r0 & t1 & g0 & o0 & E' & Hst)]; rewrite E' in E; [done|]. injection E as <- <- <- <-. apply Hst.
  - by eapply UnlockStripe_ok.
  - unfold RemoveColumnFamily in E. destruct (_ !! cfid); by simplify_eq.
Qed.

Lemma reachable_max n max d (o : U) s : (0 < n)%nat -> rtc step (NewSystem n max d o) s -> max_num_locks_ (sys_mgr s) = max.
Proof.
  intros Hn Hr. assert (H : forall s1 s2, rtc step s1 s2 -> sys_ok s1 -> max_num_locks_ (sys_mgr s2) = max_num_locks_ (sys_mgr s1)).
  { intros s1 s2 H12. induction H12 as [s1|s1 s2 s3 Hs _ IH]; intros Hok; [done|].
    rewrite IH by (by eapply step_ok). by apply step_max. }
  by apply (H _ _ Hr), NewSystem_ok.
Qed.

(** ** Exclusion *)

(** C8: in every state of the lock manager that is reached from the empty one, a
    key that is locked exclusively has exactly one holder, and a key that is
    locked has one at least, whatever requests, waits, wake-ups, unlocks and
    expirations came before, in any order. *)
Theorem exclusive_locks n max d (o : U) s a key info :
  (0 < n)%nat -> rtc step (NewSystem n max d o) s -> lock_at (sys_mgr s) a key = Some info ->
  li_txn_ids info <> [] /\ (li_exclusive info = true -> exists id, li_txn_ids info = [id]).
Proof.
  intros Hn Hr Hl. pose proof (reachable_ok n max d o s Hn Hr) as Hok. unfold lock_at, lock_of in Hl.
  destruct (lock_map_store _ !! a) as [m|] eqn:Hm; [|done]. destruct (GetStripe key m) as [i| |]; [|done..].
  pose proof (Forall_lookup_1 _ _ _ _ (mg_maps _ (so_mgr _ Hok)) Hm) as Hmok.
  destruct (lock_map_stripes m !! i) as [keys|] eqn:Hk; cbn in Hl; [|by rewrite lookup_empty in Hl].
  destruct (map_Forall_lookup_1 _ _ _ _ (mo_stripes _ Hmok i keys Hk) Hl) as [_ [Hne He]]. split; [done|].
  intros Hx%He. destruct (li_txn_ids info) as [|id [|]]; [done | by exists id | done].
Qed.

(** ** Deadlocks *)

(** Transaction [i], which detects deadlocks, waits for a lock that [j] held
    when it was asked for. *)
Definition waits_for (s : System) (i j : nat) : Prop :=
  exists t u cv q, sys_txns s !! i = Some t /\ deadlock_detect_ t = true /\ sys_acq s !! i = Some (cv, q) /\
    sys_txns s !! j = Some u /\ lk_id u ∈ aq_wait_ids q.

Lemma waits_for_edge s i j :
  sys_ok s -> waits_for s i j ->
  exists t u, sys_txns s !! i = Some t /\ sys_txns s !! j = Some u /\ waits (wait_txn_map_ (wait_state (sys_mgr s))) (lk_id t) (lk_id u).
Proof.
  intros Hok (t & u & cv & q & Ht & Hd & Hq & Hu & Hin). exists t, u. split_and!; [done..|].
  pose proof (so_entry _ Hok i t cv q Ht Hq) as E. unfold entry_for in E. rewrite Hd in E. cbn [andb] in E.
  rewrite bool_decide_false in E by (intros E'; rewrite E' in Hin; by apply not_elem_of_nil in Hin). eexists. by split; [exact E|].
Qed.

(** C11: transactions that detect deadlocks never wait in a circle: in no state
    that is reached does one of them wait, over others that do as well, for
    itself. *)
Theorem no_deadlock n max d (o : U) s i : (0 < n)%nat -> rtc step (NewSystem n max d o) s -> ~ tc (waits_for s) i i.
Proof.
  intros Hn Hr Hcyc. pose proof (reachable_ok n max d o s Hn Hr) as Hok.
  set (m := wait_txn_map_ (wait_state (sys_mgr s))).
  assert (H : forall i j, tc (waits_for s) i j -> exists t u, sys_txns s !! i = Some t /\ sys_txns s !! j = Some u /\ tc (waits m) (lk_id t) (lk_id u)).
  { intros x y Hxy. induction Hxy as [x y Hxy|x y z Hxy _ (t & u & Ht & Hu & Hc)].
    - destruct (waits_for_edge s x y Hok Hxy) as (t & u & Ht & Hu & Hw). exists t, u. split_and!; [done..|]. by apply tc_once.
    - destruct (waits_for_edge s x y Hok Hxy) as (t' & u' & Ht' & Hu' & Hw). exists t', u. split_and!; [done..|].
      assert (u' = t) as -> by congruence. by eapply tc_l. }
  destruct (H i i Hcyc) as (t & u & Ht & Hu & Hc). assert (u = t) as -> by congruence.
  by apply (wo_acyclic _ (mg_wait _ (so_mgr _ Hok)) (lk_id t)).
Qed.

(** C12: without a limit of locks every request comes to an end or a wait, and
    one that returns no error has its lock: exclusively, with no other holder,
    when it was asked for exclusively; and so has a wait that ends. *)
Theorem requests_end n max d (o : U) s i t :
  (0 < n)%nat -> max <= 0 -> rtc step (NewSystem n max d o) s -> sys_txns s !! i = Some t ->
  match sys_acq s !! i with
  | None => forall th free now cfid key ex, exists r t' g' o' a,
      TryLock th free now t cfid key ex (sys_mgr s) (sys_owners s) = Done (r, t', g', o') /\
      result_ok t a key (NewLockInfo (lk_id t) (expiration_time_ t) ex) r g'
  | Some (cv, q) => forall now rs, rs = kOk \/ rs = kTimeout -> exists r t' g' o',
      Wake now rs t cv q (sys_mgr s) (sys_owners s) = Done (r, t', g', o') /\ result_ok t (aq_map q) (aq_key q) (aq_info q) r g'
  end.
Proof.
  intros Hn Hmax Hr Ht. pose proof (reachable_ok n max d o s Hn Hr) as Hok.
  assert (Hm : max_num_locks_ (sys_mgr s) <= 0) by (by rewrite (reachable_max n max d o s Hn Hr)).
  destruct (sys_acq s !! i) as [[cv q]|] eqn:Hq.
  - intros now rs Hrs. destruct (so_acq _ Hok i cv q Hq) as (t0 & Ht0 & Hacq & Hr0). assert (t0 = t) as -> by congruence.
    destruct (Wake_ok now rs t cv q (sys_mgr s) (sys_owners s) (so_mgr _ Hok) Hacq (so_entry _ Hok i t cv q Ht Hq) Hr0 Hrs)
      as [[_ H]|(r & t1 & g1 & o1 & E & Hst)]; [lia|]. exists r, t1, g1, o1. split; [done | apply Hst].
  - intros th free now cfid key ex.
    destruct (TryLock_ok th free now t cfid key ex (sys_mgr s) (sys_owners s) (so_mgr _ Hok) (not_waiting s i t Hok Ht Hq))
      as [[_ H]|(r & t1 & g1 & o1 & a & E & Hst)]; [lia|]. exists r, t1, g1, o1, a. split; [done | apply Hst].
Qed.
End steps.

(** ** A run *)

(** Owners that give up every lock. *)
#[export] Instance unit_owners : LockOwners unit := fun _ _ => (true, tt).

Section run.
Context {U : Type} `{!LockOwners U}.

(** A request of transaction [i], as a function on states. *)
Definition request (i : nat) (now cfid : Z) (key : bytes) (ex : bool) (s : System (U := U)) : System :=
  match sys_txns s !! i, sys_acq s !! i with
  | Some t, None =>
    match TryLock 0 true now t cfid key ex (sys_mgr s) (sys_owners s) with
    | Done (r, t', g', o') => stepped_to i r t' g' o' s
    | _ => s
    end
  | _, _ => s
  end.

Lemma request_step i now cfid key ex s : rtc step s (request i now cfid key ex s).
Proof.
  unfold request. destruct (sys_txns s !! i) as [t|] eqn:Ht; [|done]. destruct (sys_acq s !! i) eqn:Hi; [done|].
  destruct (TryLock 0 true now t cfid key ex (sys_mgr s) (sys_owners s)) as [[[[r t'] g'] o']| |] eqn:E; [|done..].
  apply rtc_once. by eapply step_lock.
Qed.

Definition begin (i : nat) (t : Locker) (s : System (U := U)) : System :=
  mkSys (sys_mgr s) (sys_owners s) (<[i := t]> (sys_txns s)) (sys_acq s).
End run.

Definition sample_locker (id timeout : Z) : Locker := mkLocker id timeout 0 true 50 [] 0 None.

(** Two transactions, which detect deadlocks, in one family. *)
Definition two_txns : System :=
  begin 1 (sample_locker 2 1000) (begin 0 (sample_locker 1 1000)
    (set_mgr (AddColumnFamily 0 (sys_mgr (NewSystem 4 (-1) 5 tt))) (NewSystem 4 (-1) 5 tt))).

(** Each locks a key and then asks for the other's. *)
Definition crossed : System :=
  request 1 7 0 [97] true (request 0 6 0 [98] true (request 1 5 0 [98] true (request 0 4 0 [97] true two_txns))).

Lemma two_txns_reached : rtc step (NewSystem 4 (-1) 5 tt) two_txns.
Proof.
  eapply rtc_l; [apply (step_add _ 0)|]. eapply rtc_l; [apply (step_begin _ 0 (sample_locker 1 1000)); [done | by intros j t' Hj]|].
  apply rtc_once. apply (step_begin _ 1 (sample_locker 2 1000)); [done|].
  intros j t' Hj. cbn in Hj. apply lookup_insert_Some in Hj as [[<- <-]|[_ Hj]]; [done | by rewrite lookup_empty in Hj].
Qed.

Lemma crossed_reached : rtc step (NewSystem 4 (-1) 5 tt) crossed.
Proof. etransitivity; [exact two_txns_reached|]. unfold crossed. do 3 (etransitivity; [|apply request_step]). apply request_step. Qed.

Lemma exclusive_locks_witness :
  lock_at (sys_mgr crossed) 0 [98] = Some (mkLock true [2] 0) /\ exists id, li_txn_ids (mkLock true [2] 0) = [id].
Proof.
  assert (H : lock_at (sys_mgr crossed) 0 [98] = Some (mkLock true [2] 0)) by (by vm_compute). split; [exact H|].
  exact (proj2 (exclusive_locks 4 (-1) 5 tt crossed 0 [98] _ ltac:(lia) crossed_reached H) eq_refl).
Defined.

(** The first waits for the second; the second is told of the deadlock. *)
Lemma no_deadlock_witness :
  waits_for crossed 0 1 /\ sys_acq crossed !! 1%nat = None /\ ~ tc (waits_for crossed) 1%nat 1%nat.
Proof.
  split; [|split; [by vm_compute | exact (no_deadlock 4 (-1) 5 tt crossed 1 ltac:(lia) crossed_reached)]].
  eexists _, _, _, _. split; [by vm_compute|]. split; [by vm_compute|]. split; [by vm_compute|]. split; [by vm_compute|]. by left.
Defined.

Lemma requests_end_witness :
  exists t cv q, sys_txns crossed !! 0%nat = Some t /\ sys_acq crossed !! 0%nat = Some (cv, q) /\
    exists r t' g' o', Wake 8 kOk t cv q (sys_mgr crossed) (sys_owners crossed) = Done (r, t', g', o') /\
      result_ok t (aq_map q) (aq_key q) (aq_info q) r g'.
Proof.
  destruct (sys_txns crossed !! 0%nat) as [t|] eqn:Ht; [|by vm_compute in Ht].
  destruct (sys_acq crossed !! 0%nat) as [[cv q]|] eqn:Hq; [|by vm_compute in Hq].
  exists t, cv, q. split; [done|]. split; [done|].
  pose proof (requests_end 4 (-1) 5 tt crossed 0 t ltac:(lia) ltac:(lia) crossed_reached Ht) as H. rewrite Hq in H.
  exact (H 8 kOk (or_introl eq_refl)).
Defined.

(** ** What goes wrong *)

(** A request without a timeout gives up at the first wake-up that finds the
    lock still held: the wait leaves the error of the first try, a timeout. *)
Definition patient : System :=
  request 1 5 0 [97] true (request 0 4 0 [97] true
    (begin 1 (sample_locker 2 (-1)) (begin 0 (sample_locker 1 (-1))
      (set_mgr (AddColumnFamily 0 (sys_mgr (NewSystem 4 (-1) 5 tt))) (NewSystem 4 (-1) 5 tt))))).

Example endless_wait_times_out :
  match sys_txns patient !! 1%nat, sys_acq patient !! 1%nat with
  | Some t, Some (None, q) =>
    match Wake 6 kOk t None q (sys_mgr patient) tt with Done (Returns rs, _, _, _) => Some rs | _ => None end
  | _, _ => None
  end = Some kTimeout.
Proof. vm_compute. reflexivity. Qed.

(** When the limit of locks is reached a wake-up does not try again: the
    request waits for ever, though a lock has become free. *)
Definition limited : System :=
  request 1 5 0 [98] true (request 0 4 0 [97] true
    (begin 1 (sample_locker 2 (-1)) (begin 0 (sample_locker 1 (-1))
      (set_mgr (AddColumnFamily 0 (sys_mgr (NewSystem 4 1 5 tt))) (NewSystem 4 1 5 tt))))).

Example limit_is_not_tried_again :
  match sys_txns limited !! 1%nat, sys_acq limited !! 1%nat, UnlockStripe 1 0 (Z.to_nat (Js [97] mod 4), [[97]]) (sys_mgr limited) with
  | Some t, Some (None, q), Done g =>
    match Wake 6 kOk t None q g tt with Done (Blocks None q', _, g', _) => Some (lock_at g' 0 [97], lock_at g' 0 [98], aq_rs q') | _ => None end
  | _, _, _ => None
  end = Some (None, None, kBusy).
Proof. vm_compute. reflexivity. Qed.

(** A shared lock expires with the last of its holders, and is then taken from
    all of them, also from one that never expires. *)
Example shared_lock_is_stolen :
  let '(rs, keys, _, _, _, _) := acquire_locked (-1) 3 20 [97] (NewLockInfo 3 0 true)
    {[ [97] := mkLock false [1; 2] 10 ]} 0 0 [] tt in
  rs = kOk /\ keys !! [97] = Some (NewLockInfo 3 0 true).
Proof. by split. Qed.

(** A shared lock that is asked for twice has its holder twice, and is still
    held when it is unlocked. *)
Example shared_twice :
  fst (unlock_key (-1) 1 [97] {[ [97] := mkLock false [1; 1] 0 ]} 0) = {[ [97] := mkLock false [1] 0 ]}.
Proof. by vm_compute. Qed.

(** Of a lock that two share one is counted and two are taken off. *)
Example shared_count :
  let '(_, keys, count, _, _, _) := acquire_locked 10 1 0 [97] (NewLockInfo 1 0 false) ∅ 0 0 [] tt in
  let '(_, keys, count, _, _, _) := acquire_locked 10 2 0 [97] (NewLockInfo 2 0 false) keys count 0 [] tt in
  let '(keys, count) := unlock_key 10 1 [97] keys count in snd (unlock_key 10 2 [97] keys count) = -1.
Proof. by vm_compute. Qed.
