(* ===== verification/LockFrame.v ===== *)
(** * LockFrame

    What the operations of [TxnLock] do to the locks of all keys, seen from
    outside: a request of a transaction changes the lock of its own key at most,
    and that only when it is given the lock ([won]); until then it can only have
    asked other holders for their locks ([asks]).  Unlocking takes one holder off
    the keys it is called with and leaves every other lock ([without]).  A family
    keeps its lock map ([steady]). *)

From stdpp Require Import relations.
From S2P Require Import Prelude Slice Hash TxnWait TxnLock.

Section frame.
Context {U : Type} `{!LockOwners U}.

(** ** A request at one lock *)

(** A holder other than [id] is asked for the lock, at [now]. *)
Definition ask (now id : Z) (info : LockInfo) (o o' : U) : Prop :=
  exists i, i ∈ li_txn_ids info /\ i <> id /\ (li_expiration_time info <= 0 \/ li_expiration_time info <= now) /\
    o' = snd (TryStealing i o).

Definition asks (now id : Z) (old : option LockInfo) : U -> U -> Prop :=
  rtc (fun o o' => exists info, old = Some info /\ ask now id info o o').

(** Every holder of [ids] other than [id] gives up the lock. *)
Inductive yields (id : Z) : list Z -> U -> U -> Prop :=
| yields_nil o : yields id [] o o
| yields_me ids o o' : yields id ids o o' -> yields id (id :: ids) o o'
| yields_next i ids o o1 o' : i <> id -> TryStealing i o = (true, o1) -> yields id ids o1 o' -> yields id (i :: ids) o o'.

(** How transaction [id] gets the lock it wants. *)
Inductive won (now id : Z) (want : LockInfo) : option LockInfo -> option LockInfo -> U -> U -> Prop :=
| won_free o : won now id want None (Some want) o o
| won_own info o :
    li_txn_ids info = [id] -> li_exclusive info || li_exclusive want = true ->
    won now id want (Some info) (Some (mkLock (li_exclusive want) [id] (li_expiration_time want))) o o
| won_shared info o :
    li_exclusive info = false -> li_exclusive want = false ->
    won now id want (Some info)
      (Some (mkLock false (li_txn_ids info ++ [id]) (Z.max (li_expiration_time info) (li_expiration_time want)))) o o
| won_stolen info o o' :
    li_txn_ids info <> [id] -> 0 < li_expiration_time info <= now -> yields id (li_txn_ids info) o o' ->
    won now id want (Some info) (Some want) o o'.

Lemma won_granted now id want old new (o o' : U) :
  won now id want old new o o' -> li_txn_ids want = [id] -> exists info, new = Some info /\ granted id want info.
Proof.
  intros Hw Hids. destruct Hw; (eexists; split; [reflexivity|]); split; cbn; rewrite ?Hids; try (by left); try done.
  - apply elem_of_app. right. by left.
  - intros Hx. congruence.
Qed.

Lemma steal_all_frame now txn_id info ids expired hint (o : U) :
  (forall i, i ∈ ids -> i ∈ li_txn_ids info) -> li_expiration_time info <= 0 \/ li_expiration_time info <= now ->
  let '(e, _, o') := steal_all txn_id ids expired hint o in
  asks now txn_id (Some info) o o' /\ (e = true -> yields txn_id ids o o').
Proof.
  intros Hin Ht. revert hint o. induction ids as [|i ids IH]; intros hint o; cbn [steal_all].
  { split; [done|]. intros _. constructor. }
  destruct (Z.eqb_spec txn_id i) as [<-|Hne].
  { specialize (IH ltac:(intros j Hj; apply Hin; by right) hint o). destruct (steal_all _ _ _ _ _) as [[e h] o'].
    destruct IH as [IH1 IH2]. split; [done|]. intros He. constructor. by apply IH2. }
  assert (Hask : ask now txn_id info o (snd (TryStealing i o))) by (exists i; split_and!; [apply Hin; by left | done..]).
  destruct (TryStealing i o) as [success o1] eqn:Es. cbn [snd] in Hask. destruct success.
  - specialize (IH ltac:(intros j Hj; apply Hin; by right) 0 o1). destruct (steal_all _ _ _ _ _) as [[e h] o'].
    destruct IH as [IH1 IH2]. split; [eapply rtc_l; [by exists info | done]|]. intros He. econstructor; [done..|]. by apply IH2.
  - split; [|done]. apply rtc_once. by exists info.
Qed.

Lemma IsLockExpired_frame txn_id now info hint (o : U) :
  let '(e, _, o') := IsLockExpired txn_id now info hint o in
  asks now txn_id (Some info) o o' /\ (e = true -> 0 < li_expiration_time info <= now /\ yields txn_id (li_txn_ids info) o o').
Proof.
  pose proof (IsLockExpired_time txn_id now info hint o) as Ht. unfold IsLockExpired in *. cbv zeta in *.
  destruct (Z.ltb_spec 0 (li_expiration_time info)), (Z.leb_spec (li_expiration_time info) now); cbn [andb negb] in *;
    try (split; [apply rtc_refl | done]).
  all: match goal with |- context [steal_all ?a ?b ?c ?d ?e] =>
      pose proof (steal_all_frame now txn_id info b c d e (fun i Hi => Hi) ltac:(lia)) as Hs;
      destruct (steal_all a b c d e) as [[x h] o'] end;
    destruct Hs as [H1 H2]; (split; [done|]); intros Hx; (split; [by apply Ht | by apply H2]).
Qed.

(** The key of the request, and the others. *)
Lemma acquire_locked_frame max txn_id now key want keys count hint ids (o : U) :
  let '(rs, keys', _, _, _, o') := acquire_locked max txn_id now key want keys count hint ids o in
  (forall k, k <> key -> keys' !! k = keys !! k) /\
  if ok rs then won now txn_id want (keys !! key) (keys' !! key) o o'
  else keys' = keys /\ asks now txn_id (keys !! key) o o'.
Proof.
  unfold acquire_locked. assert (Hoth : forall info k, k <> key -> <[key := info]> keys !! k = keys !! k) by (intros; by rewrite lookup_insert_ne).
  destruct (keys !! key) as [info|] eqn:Ek.
  - destruct (li_exclusive info || li_exclusive want) eqn:Ex.
    + case_bool_decide as Eme.
      * split; [by apply Hoth|]. change (ok kOk) with true. cbn iota. rewrite lookup_insert_eq, Eme. by constructor.
      * pose proof (IsLockExpired_frame txn_id now info hint o) as He. destruct (IsLockExpired _ _ _ _ _) as [[e h] o'].
        destruct He as [H1 H2]. destruct e.
        -- split; [by apply Hoth|]. change (ok kOk) with true. cbn iota. rewrite lookup_insert_eq. destruct (H2 eq_refl). by constructor.
        -- split; [done|]. by change (ok kTimeout) with false.
    + split; [by apply Hoth|]. change (ok kOk) with true. cbn iota. rewrite lookup_insert_eq.
      apply orb_false_iff in Ex as [E1 E2]. rewrite E1. by constructor.
  - destruct (_ && _).
    + split; [done|]. by change (ok kBusy) with false.
    + split; [by apply Hoth|]. change (ok kOk) with true. cbn iota. rewrite lookup_insert_eq. constructor.
Qed.

(** ** The locks of the manager *)

(** The maps of the threads are those of the manager. *)
Definition caches_ok (g : TransactionLockMgr) : Prop :=
  forall th c cfid a, lock_maps_cache_ g !! th = Some c -> c !! cfid = Some a -> lock_maps_ g !! cfid = Some a.

(** The same locks, and the same maps for the families. *)
Record same_locks (g g' : TransactionLockMgr) : Prop := {
  sl_at : forall a k, lock_at g' a k = lock_at g a k;
  sl_maps : lock_maps_ g' = lock_maps_ g;
  sl_caches : caches_ok g -> caches_ok g';
}.

#[export] Instance same_locks_preorder : PreOrder same_locks.
Proof. split; [done|]. intros g1 g2 g3 [A1 A2 A3] [B1 B2 B3]. split; [intros; by rewrite B1 | congruence | auto]. Qed.

Lemma same_store g g' :
  lock_map_store g' = lock_map_store g -> lock_maps_ g' = lock_maps_ g -> lock_maps_cache_ g' = lock_maps_cache_ g -> same_locks g g'.
Proof.
  intros Hs Hm Hc. split; [intros a k; unfold lock_at; by rewrite Hs | done |]. unfold caches_ok. by rewrite Hm, Hc.
Qed.

(** What a request of [id] for the lock [want] of [key] in map [a] has done when
    it has ended with [rs]. *)
Record requested (now id : Z) (a : nat) (key : bytes) (want : LockInfo) (rs : error) (g g' : TransactionLockMgr) (o o' : U) : Prop := {
  rq_others : forall b k, (b, k) <> (a, key) -> lock_at g' b k = lock_at g b k;
  rq_maps : lock_maps_ g' = lock_maps_ g;
  rq_caches : caches_ok g -> caches_ok g';
  rq_lock : exists o1, asks now id (lock_at g a key) o o1 /\
    if ok rs then won now id want (lock_at g a key) (lock_at g' a key) o1 o'
    else lock_at g' a key = lock_at g a key /\ o' = o1;
}.

Lemma requested_refl now id a key want rs g g' o : ok rs = false -> same_locks g g' -> requested now id a key want rs g g' o o.
Proof. intros Hr [H1 H2 H3]. split; [by intros | done | done |]. exists o. rewrite Hr. by split. Qed.

(** A request that is tried again. *)
Lemma requested_again now id a key want rs rs' g g1 g2 o o1 o2 :
  ok rs = false -> requested now id a key want rs g g1 o o1 -> requested now id a key want rs' g1 g2 o1 o2 ->
  requested now id a key want rs' g g2 o o2.
Proof.
  intros Hr [A1 A2 A0 (p1 & A3 & A4)] [B1 B2 B0 (p2 & B3 & B4)]. rewrite Hr in A4. destruct A4 as [El ->]. rewrite El in *.
  split; [intros b k Hbk; by rewrite B1, A1 | congruence | auto |]. exists p2. split; [by etransitivity|]. done.
Qed.

Lemma requested_same now id a key want rs g g1 g2 g3 o o' :
  same_locks g g1 -> requested now id a key want rs g1 g2 o o' -> same_locks g2 g3 -> requested now id a key want rs g g3 o o'.
Proof.
  intros [A1 A2 A3] [B1 B2 B0 B3] [C1 C2 C3]. split; [intros b k Hbk; by rewrite C1, B1, A1 | congruence | auto |]. by rewrite C1, <- A1.
Qed.

Lemma AcquireLocked_frame g a stripe txn_id now key want hint ids (o : U) rs hint' ids' g' o' :
  mgr_ok g -> placed g a key stripe ->
  AcquireLocked txn_id now a stripe key want hint ids g o = Done (rs, hint', ids', g', o') ->
  requested now txn_id a key want rs g g' o o'.
Proof.
  intros Hok (m & Hm & Hs). unfold AcquireLocked. rewrite Hm. cbn [ofopt obind].
  destruct (lock_map_stripes m !! stripe) as [keys|] eqn:Hk; cbn [ofopt obind]; [|done].
  pose proof (acquire_locked_frame (max_num_locks_ g) txn_id now key want keys (lock_count m) hint ids o) as Hf.
  destruct (acquire_locked _ _ _ _ _ _ _ _ _ _) as [[[[[rs0 keys'] count'] hint0] ids0] o0]. intros [= <- <- <- <- <-].
  destruct Hf as [Hoth Hres].
  set (m' := mkLockMap (n_stripes m) count' (<[stripe := keys']> (lock_map_stripes m))).
  assert (Hold : lock_at g a key = keys !! key) by (unfold lock_at, lock_of; rewrite Hm, Hs, Hk; done).
  assert (Hin : forall k, GetStripe k m = Done stripe -> lock_at (set_lock_map a m' g) a k = keys' !! k).
  { intros k Ek. unfold lock_at, lock_of. cbn. rewrite list_lookup_insert_eq by (by eapply lookup_lt_Some).
    rewrite (GetStripe_n k m m') by done. rewrite Ek. cbn. by rewrite list_lookup_insert_eq by (by eapply lookup_lt_Some). }
  split; [|done|done|].
  - intros b k Hbk. destruct (decide (b = a)) as [->|Hne].
    + destruct (GetStripe k m) as [j| |] eqn:Ek; [destruct (decide (j = stripe)) as [->|Hne] | |].
      { rewrite (Hin k Ek), Hoth by congruence. unfold lock_at, lock_of. by rewrite Hm, Ek, Hk. }
      all: unfold lock_at, lock_of; cbn; rewrite list_lookup_insert_eq by (by eapply lookup_lt_Some); rewrite Hm;
        rewrite (GetStripe_n k m m') by done; rewrite Ek; cbn; first [done | by rewrite list_lookup_insert_ne by congruence].
    + unfold lock_at. cbn. by rewrite list_lookup_insert_ne.
  - rewrite Hold, (Hin key Hs). destruct (ok rs0); [by exists o|]. destruct Hres as [-> Ha]. by exists o0.
Qed.

(** ** Requests *)

Lemma before_wait_same now t q g d t' g' : before_wait now t q g = Done (d, t', g') -> same_locks g g'.
Proof.
  unfold before_wait. case_bool_decide; [by intros [= <- <- <-]|]. destruct (deadlock_detect_ t); cbn [obind].
  - destruct (IncrementWaiters _ _ _ _ _ _ _ _) as [[x s]| |]; cbn [obind]; [|done..].
    destruct x; intros [= <- <- <-]; by apply same_store.
  - by intros [= <- <- <-].
Qed.

Lemma after_wait_frame now rs t q g (o : U) rs' d t' q' g' o' :
  mgr_ok g -> placed g (aq_map q) (aq_key q) (aq_stripe q) ->
  wait_txn_map_ (wait_state g) !! lk_id t = entry_for t q ->
  after_wait now rs t q g o = Done (rs', d, t', q', g', o') ->
  requested now (lk_id t) (aq_map q) (aq_key q) (aq_info q) rs' g g' o o' /\ (ok rs' = true -> d = true).
Proof.
  intros Hok Hp He. unfold after_wait.
  set (x := if bool_decide (aq_wait_ids q = []) then (t, g) else _).
  assert (Hx : lk_id (fst x) = lk_id t /\ lock_map_store (snd x) = lock_map_store g /\ lock_maps_ (snd x) = lock_maps_ g /\
    lock_maps_cache_ (snd x) = lock_maps_cache_ g /\ mgr_ok (snd x)).
  { unfold x, entry_for in *. case_bool_decide as Hw; [done|]. cbn [negb fst snd] in *. rewrite andb_true_r in He.
    destruct (deadlock_detect_ t); [|done]. split_and!; try done. apply set_wait_ok; [done|].
    eapply DecrementWaiters_ok; [apply (mg_wait _ Hok) | exact He | done]. }
  destruct x as [t1 g1]. cbn [fst snd] in Hx. destruct Hx as (Eid & Es & Em & Ec & Hok1). rewrite Eid.
  assert (Hs : same_locks g g1) by (by apply same_store).
  assert (Hp1 : placed g1 (aq_map q) (aq_key q) (aq_stripe q)) by (unfold placed; by rewrite Es).
  destruct (ok rs || bool_decide (rs = kTimeout)) eqn:Er.
  - destruct (AcquireLocked _ _ _ _ _ _ _ _ g1 o) as [[[[[rs2 hint] ids] g2] o2]| |] eqn:Ea; cbn [obind]; [|done..].
    intros [= <- <- <- <- <- <-]. split; [|by intros ->].
    eapply requested_same; [exact Hs | by eapply AcquireLocked_frame | done].
  - cbn [obind]. intros [= <- <- <- <- <- <-]. apply orb_false_iff in Er as [E1 E2].
    split; [by apply requested_refl | by rewrite E1].
Qed.

(** The error of a request; one that waits has none of its lock yet. *)
Definition rs_of (r : Acquired) : error := match r with Returns rs => rs | Blocks _ _ => kTimeout end.

(** A request that is going on asks for the lock [want] of [key] in [a]. *)
Definition asks_for (a : nat) (key : bytes) (want : LockInfo) (q : Acquiring) : Prop :=
  aq_map q = a /\ aq_key q = key /\ aq_info q = want.

Lemma acquire_turns_frame fuel now t q g (o : U) r t' g' o' :
  mgr_ok g -> acq_ok t g q -> wait_txn_map_ (wait_state g) !! lk_id t = None ->
  acquire_turns fuel now t q g o = Done (r, t', g', o') ->
  requested now (lk_id t) (aq_map q) (aq_key q) (aq_info q) (rs_of r) g g' o o'.
Proof.
  revert t q g o. induction fuel as [|fuel IH]; intros t q g o Hok Hacq Hnone; cbn [acquire_turns]; [done|].
  destruct (before_wait_ok now t q g Hok Hnone) as (dead & t1 & g1 & Eb & Ht1 & Hok1 & Es & Em & Ew). rewrite Eb. cbn [obind].
  apply before_wait_same in Eb. destruct dead; [intros [= <- <- <- <-]; by apply requested_refl|].
  destruct (cv_end q) as [e|]; [destruct (now <? e)|]; [intros [= <- <- <- <-]; by apply requested_refl | |
    intros [= <- <- <- <-]; by apply requested_refl].
  pose proof Ht1 as (Eid & _). assert (Hgr : grows g g1) by (intros a m Hm; exists m; by rewrite Es).
  assert (Hacq1 : acq_ok t1 g1 q) by (destruct Hacq as [P1 P2]; split; [by eapply placed_grows | congruence]).
  assert (He1 : wait_txn_map_ (wait_state g1) !! lk_id t1 = entry_for t1 q)
    by (rewrite Ew, Eid, (entry_for_same t t1) by done; apply lookup_partial_alter_eq).
  destruct (after_wait_ok now (aq_rs q) t1 q g1 o Hok1 Hacq1 He1) as (rs' & hint & ids & t2 & g2 & o2 & Ea & Ht2 & Hok2 & Hg2 & Em2 & Ew2 & _).
  pose proof Ea as Ef. rewrite Ea. cbn [obind]. apply after_wait_frame in Ef as [Ef Hd]; [|done|by destruct Hacq1|done].
  rewrite Eid in Ef. destruct (ok rs' || bool_decide (aq_rs q = kTimeout)) eqn:Ed.
  - intros [= <- <- <- <-]. eapply requested_same; [exact Eb | exact Ef | done].
  - intros E. apply orb_false_iff in Ed as [Ed _]. eapply requested_again; [exact Ed | eapply requested_same; [exact Eb | exact Ef | done]|].
    destruct Ht2 as (Eid2 & _). rewrite <- Eid, <- Eid2. apply (IH t2 (set_acquired rs' hint ids q) g2 o2); [done | | | exact E].
    + destruct Hacq1 as [P1 P2]. split; cbn; [by apply (placed_grows g1) | congruence].
    + rewrite Ew2, Eid2. apply lookup_delete_eq.
Qed.

(** The maps of the families, by the cache of a thread. *)
Lemma GetLockMap_cached th cfid g :
  caches_ok g -> fst (GetLockMap th cfid g) = lock_maps_ g !! cfid /\ same_locks g (snd (GetLockMap th cfid g)).
Proof.
  intros Hc. assert (Hd : forall cf a, default ∅ (lock_maps_cache_ g !! th) !! cf = Some a -> lock_maps_ g !! cf = Some a).
  { intros cf a. destruct (lock_maps_cache_ g !! th) as [c|] eqn:Ec; [by apply (Hc th)|]. cbn. by rewrite lookup_empty. }
  unfold GetLockMap. cbv zeta. destruct (default ∅ (lock_maps_cache_ g !! th) !! cfid) as [a|] eqn:Ea.
  { cbn [fst snd]. split; [symmetry; by apply Hd | done]. }
  destruct (lock_maps_ g !! cfid) as [a|] eqn:Em; cbn [fst snd]; (split; [done|]); (split; [done | done |]); intros _ t c cf b; cbn;
    intros [[<- <-]|[_ Hx]]%lookup_insert_Some Hb; try (by apply (Hc t c)); [|by apply Hd].
  apply lookup_insert_Some in Hb as [[<- <-]|[_ Hb]]; [done | by apply Hd].
Qed.

(** The first call of a request; [a] is the lock map of the family. *)
Lemma TryLock_frame th free now t cfid key ex a g (o : U) r t' g' o' :
  mgr_ok g -> caches_ok g -> lock_maps_ g !! cfid = Some a -> wait_txn_map_ (wait_state g) !! lk_id t = None ->
  TryLock th free now t cfid key ex g o = Done (r, t', g', o') ->
  requested now (lk_id t) a key (NewLockInfo (lk_id t) (expiration_time_ t) ex) (rs_of r) g g' o o'.
Proof.
  intros Hok Hc Ha Hnone. unfold TryLock. destruct (GetLockMap_ok th cfid g Hok) as (a1 & g1 & Eg & Hok1 & Es & Ew & Em & Hm).
  destruct (GetLockMap_cached th cfid g Hc) as [Hf Hs]. rewrite Eg in *. cbn [fst snd] in *. rewrite Ha in Hf. subst a1.
  destruct Hm as (m & Hm & Hmok). rewrite Es, Hm. cbn [ofopt obind]. destruct (GetStripe_ok key m Hmok) as (stripe & Est & _).
  rewrite Est. cbn [obind]. unfold AcquireWithTimeout. destruct (_ && negb free); [intros [= <- <- <- <-]; by apply requested_refl|].
  assert (Hp1 : placed g1 a key stripe) by (exists m; by rewrite Es).
  set (want := NewLockInfo _ _ _).
  destruct (AcquireLocked_ok g1 a stripe (lk_id t) now key want 0 [] o Hok1 Hp1 eq_refl)
    as (rs & hint & ids & g2 & o2 & Ea & Hok2 & Hg2 & Ew2 & Em2 & _). rewrite Ea. cbn [obind].
  apply AcquireLocked_frame in Ea; [|done..].
  destruct (ok rs) eqn:Er; cbn [orb].
  { intros [= <- <- <- <-]. eapply requested_same; [exact Hs | exact Ea | done]. }
  destruct (lock_timeout_ t =? 0).
  { intros [= <- <- <- <-]. eapply requested_same; [exact Hs | exact Ea | done]. }
  intros E. eapply requested_same; [exact Hs | | reflexivity]. eapply requested_again; [exact Er | exact Ea |].
  apply acquire_turns_frame in E; [done | done | | by rewrite Ew2, Ew].
  split; cbn; [by apply (placed_grows g1) | done].
Qed.

(** There is no lock map. *)
Lemma TryLock_nowhere th free now t cfid key ex g (o : U) r t' g' o' :
  caches_ok g -> lock_maps_ g !! cfid = None -> TryLock th free now t cfid key ex g o = Done (r, t', g', o') ->
  r = Returns kCorruption /\ t' = t /\ same_locks g g' /\ o' = o.
Proof.
  intros Hc Ha. unfold TryLock. destruct (GetLockMap_cached th cfid g Hc) as [Hf Hs]. destruct (GetLockMap th cfid g) as [a1 g1].
  cbn [fst snd] in *. rewrite Ha in Hf. subst a1. by intros [= <- <- <- <-].
Qed.

(** A wait that ends. *)
Lemma Wake_frame now rs t cv q g (o : U) r t' g' o' :
  mgr_ok g -> acq_ok t g q -> wait_txn_map_ (wait_state g) !! lk_id t = entry_for t q ->
  Wake now rs t cv q g o = Done (r, t', g', o') ->
  requested now (lk_id t) (aq_map q) (aq_key q) (aq_info q) (rs_of r) g g' o o'.
Proof.
  intros Hok Hacq He. unfold Wake. set (rs0 := match cv with Some _ => rs | None => aq_rs q end).
  destruct (after_wait_ok now rs0 t q g o Hok Hacq He) as (rs' & hint & ids & t1 & g1 & o1 & Ea & Ht1 & Hok1 & Hg1 & Em1 & Ew1 & _).
  pose proof Ea as Ef. rewrite Ea. cbn [obind]. apply after_wait_frame in Ef as [Ef Hd]; [|done|by destruct Hacq|done].
  destruct (ok rs' || bool_decide (rs0 = kTimeout)) eqn:Ed; [by intros [= <- <- <- <-]|].
  intros E. apply orb_false_iff in Ed as [Ed _]. eapply requested_again; [exact Ed | exact Ef |].
  destruct Ht1 as (Eid & _). rewrite <- Eid. apply acquire_turns_frame in E; [exact E | done | |].
  - destruct Hacq as [P1 P2]. split; cbn; [by apply (placed_grows g) | rewrite Eid; exact P2].
  - rewrite Ew1, Eid. apply lookup_delete_eq.
Qed.

(** What a request waits for. *)
Lemma acquire_turns_asks fuel now t q g (o : U) r t' g' o' :
  acquire_turns fuel now t q g o = Done (r, t', g', o') ->
  match r with Blocks _ q' => asks_for (aq_map q) (aq_key q) (aq_info q) q' | Returns _ => True end.
Proof.
  revert t q g o. induction fuel as [|fuel IH]; intros t q g o; cbn [acquire_turns]; [done|].
  destruct (before_wait now t q g) as [[[d t1] g1]| |]; cbn [obind]; [|done..]. destruct d; [by intros [= <- <- <- <-]|].
  destruct (cv_end q) as [e|]; [destruct (now <? e)|]; [by intros [= <- <- <- <-] | | by intros [= <- <- <- <-]].
  destruct (after_wait _ _ _ _ _ _) as [[[[[[rs1 d1] t2] q2] g2] o2]| |] eqn:Ea; cbn [obind]; [|done..].
  destruct d1; [by intros [= <- <- <- <-]|]. intros E. apply IH in E.
  assert (Hq : asks_for (aq_map q) (aq_key q) (aq_info q) q2).
  { unfold after_wait in Ea. destruct (if bool_decide _ then _ else _) as [t3 g3].
    destruct (if _ || _ then _ else _) as [[[[[x1 x2] x3] x4] x5]| |]; cbn [obind] in Ea; [|done..]. by injection Ea as <- _ <- <- <- <-. }
  destruct r; [done|]. destruct Hq as (<- & <- & <-). exact E.
Qed.

Lemma Wake_asks now rs t cv q g (o : U) r t' g' o' :
  Wake now rs t cv q g o = Done (r, t', g', o') ->
  match r with Blocks _ q' => asks_for (aq_map q) (aq_key q) (aq_info q) q' | Returns _ => True end.
Proof.
  unfold Wake. destruct (after_wait _ _ _ _ _ _) as [[[[[[rs1 d1] t2] q2] g2] o2]| |] eqn:Ea; cbn [obind]; [|done..].
  destruct d1; [by intros [= <- <- <- <-]|]. intros E. apply acquire_turns_asks in E.
  assert (Hq : asks_for (aq_map q) (aq_key q) (aq_info q) q2).
  { unfold after_wait in Ea. destruct (if bool_decide _ then _ else _) as [t3 g3].
    destruct (if _ || _ then _ else _) as [[[[[x1 x2] x3] x4] x5]| |]; cbn [obind] in Ea; [|done..]. by injection Ea as <- _ <- <- <- <-. }
  destruct r; [done|]. destruct Hq as (<- & <- & <-). exact E.
Qed.

Lemma TryLock_asks th free now t cfid key ex a g (o : U) r t' g' o' :
  caches_ok g -> lock_maps_ g !! cfid = Some a -> TryLock th free now t cfid key ex g o = Done (r, t', g', o') ->
  match r with Blocks _ q' => asks_for a key (NewLockInfo (lk_id t) (expiration_time_ t) ex) q' | Returns _ => True end.
Proof.
  intros Hc Ha. unfold TryLock. destruct (GetLockMap_cached th cfid g Hc) as [Hf _]. destruct (GetLockMap th cfid g) as [a1 g1].
  cbn [fst] in Hf. rewrite Ha in Hf. subst a1. destruct (lock_map_store g1 !! a) as [m|]; cbn [ofopt obind]; [|done].
  destruct (GetStripe key m) as [stripe| |]; cbn [obind]; [|done..]. unfold AcquireWithTimeout.
  destruct (_ && negb free); [by intros [= <- <- <- <-]|].
  destruct (AcquireLocked _ _ _ _ _ _ _ _ _ _) as [[[[[rs hint] ids] g2] o2]| |]; cbn [obind]; [|done..].
  destruct (ok rs || _); [by intros [= <- <- <- <-]|]. intros E. by apply acquire_turns_asks in E.
Qed.
End frame.

(** ** Unlocking *)

(** The lock without the holder [id]. *)
Definition without (id : Z) (old new : option LockInfo) : Prop :=
  match old, new with
  | None, None => True
  | None, Some _ => False
  | Some i, None => forall x, x ∈ li_txn_ids i -> x = id
  | Some i, Some j => li_exclusive j = li_exclusive i /\ li_expiration_time j = li_expiration_time i /\ NoDup (li_txn_ids j) /\
      forall x, x ∈ li_txn_ids j <-> x ∈ li_txn_ids i /\ x <> id
  end.

Definition distinct (old : option LockInfo) : Prop := match old with Some i => NoDup (li_txn_ids i) | None => True end.

Lemma without_trans id x y z : without id x y -> without id y z -> without id x z.
Proof.
  destruct x as [i|], y as [j|], z as [k|]; cbn; try done.
  - intros (E1 & E2 & _ & H) (F1 & F2 & Hn & K). split_and!; [congruence | congruence | done |]. intros v. rewrite K, H. tauto.
  - intros (_ & _ & _ & H) K v Hv. destruct (decide (v = id)); [done|]. apply K. by apply H.
Qed.

Lemma without_distinct id x y : without id x y -> distinct y.
Proof. destruct x, y; cbn; try done. by intros (_ & _ & ? & _). Qed.

Lemma remove_id_perm i ids id : ids !! i = Some id -> id :: remove_id i ids ≡ₚ ids.
Proof.
  intros Hi. unfold remove_id. destruct (last ids) as [z|] eqn:El; [|by apply last_None in El as ->].
  apply last_Some in El as [l ->]. rewrite length_app. cbn [length]. replace (length l + 1 - 1)%nat with (length l) by lia.
  apply lookup_app_Some in Hi as [Hi|[Hge Hi]].
  - rewrite insert_app_l by (by eapply lookup_lt_Some). rewrite take_app_le by (by rewrite length_insert).
    rewrite take_ge by (by rewrite length_insert). apply list_elem_of_split_length in Hi as (l1 & l2 & -> & ->).
    rewrite insert_app_r_alt, Nat.sub_diag by done. cbn. solve_Permutation.
  - apply list_lookup_singleton_Some in Hi as [Hi ->]. assert (i = length l) as -> by lia.
    rewrite insert_app_r_alt, Nat.sub_diag by done. cbn [list_insert insert]. rewrite take_app_length. solve_Permutation.
Qed.

Lemma unlock_key_frame max id key keys count :
  let keys' := fst (unlock_key max id key keys count) in
  (forall k, k <> key -> keys' !! k = keys !! k) /\ (distinct (keys !! key) -> without id (keys !! key) (keys' !! key)).
Proof.
  assert (Hsame : forall info, NoDup (li_txn_ids info) -> id ∉ li_txn_ids info -> without id (Some info) (Some info)).
  { intros info Hn Hid. split_and!; [done..|]. intros x. split; [|by intros []]. intros Hx. split; [done|]. by intros ->. }
  unfold unlock_key. destruct (keys !! key) as [info|] eqn:Ek; cbn [distinct]; [|cbn; split; [done|]; by rewrite Ek].
  destruct (list_find _ _) as [[i x]|] eqn:Ef; cbn [fst].
  2:{ split; [done|]. intros Hn. rewrite Ek. apply Hsame; [done|]. apply list_find_None in Ef. rewrite Forall_forall in Ef.
      intros Hin. by apply (Ef id). }
  apply list_find_Some in Ef as (Hi & -> & _). destruct (Nat.eqb_spec (length (li_txn_ids info)) 1) as [E1|E1]; cbn.
  - split; [intros k Hk; by rewrite lookup_delete_ne|]. intros _. rewrite lookup_delete_eq. intros y Hy.
    destruct (li_txn_ids info) as [|a [|]]; try done. apply list_elem_of_singleton in Hy as ->.
    by apply list_lookup_singleton_Some in Hi as [_ <-].
  - split; [intros k Hk; by rewrite lookup_insert_ne|]. intros Hn. rewrite lookup_insert_eq. cbn.
    pose proof (remove_id_perm i _ id Hi) as Hp. generalize dependent (remove_id i (li_txn_ids info)). intros ids Hp.
    rewrite <- Hp in Hn. apply NoDup_cons in Hn as [Hid Hn]. split_and!; [done..|].
    intros y. rewrite <- Hp, elem_of_cons. split; [intros Hy; split; [by right | by intros ->] | tauto].
Qed.

(** Transaction [id] has given up the locks of the places [l], and the other
    locks are what they were. *)
Record unlocked (id : Z) (l : list (nat * bytes)) (g g' : TransactionLockMgr) : Prop := {
  ul_others : forall b k, (b, k) ∉ l -> lock_at g' b k = lock_at g b k;
  ul_lock : forall b k, (b, k) ∈ l -> without id (lock_at g b k) (lock_at g' b k);
  ul_maps : lock_maps_ g' = lock_maps_ g;
  ul_caches : caches_ok g -> caches_ok g';
}.

Definition all_distinct (g : TransactionLockMgr) : Prop := forall b k, distinct (lock_at g b k).

Lemma unlocked_distinct id l g g' : all_distinct g -> unlocked id l g g' -> all_distinct g'.
Proof.
  intros Hd [H1 H2 _ _] b k. destruct (decide ((b, k) ∈ l)) as [Hin|Hin]; [eapply without_distinct; by apply H2 | by rewrite H1].
Qed.

Lemma unlocked_trans id l1 l2 g g1 g2 : unlocked id l1 g g1 -> unlocked id l2 g1 g2 -> unlocked id (l1 ++ l2) g g2.
Proof.
  intros [A1 A2 A3 A4] [B1 B2 B3 B4]. split; [| | congruence | auto].
  - intros b k Hbk. rewrite B1, A1; [done | |]; intros H; apply Hbk, elem_of_app; auto.
  - intros b k Hbk. destruct (decide ((b, k) ∈ l1)) as [H1|H1], (decide ((b, k) ∈ l2)) as [H2|H2].
    + eapply without_trans; [by apply A2 | by apply B2].
    + rewrite B1 by done. by apply A2.
    + rewrite <- (A1 b k H1). by apply B2.
    + by apply elem_of_app in Hbk as [].
Qed.

Lemma unlocked_nil id g g' : same_locks g g' -> unlocked id [] g g'.
Proof. intros [H1 H2 H3]. split; [intros; apply H1 | by intros b k ?%not_elem_of_nil | done | done]. Qed.

Lemma UnlockKey_frame id key a stripe g g' :
  all_distinct g -> placed g a key stripe -> UnlockKey id key a stripe g = Done g' -> unlocked id [(a, key)] g g'.
Proof.
  intros Hd (m & Hm & Hs). unfold UnlockKey. rewrite Hm. cbn [ofopt obind].
  destruct (lock_map_stripes m !! stripe) as [keys|] eqn:Hk; cbn [ofopt obind]; [|done].
  pose proof (unlock_key_frame (max_num_locks_ g) id key keys (lock_count m)) as Hf. destruct (unlock_key _ _ _ _ _) as [keys' count'].
  intros [= <-]. cbn zeta in Hf. cbn [fst] in Hf. destruct Hf as [Hoth Hres].
  set (m' := mkLockMap (n_stripes m) count' (<[stripe := keys']> (lock_map_stripes m))).
  assert (Hnew : forall k, lock_at (set_lock_map a m' g) a k = match GetStripe k m with
    | Done j => if decide (j = stripe) then keys' !! k else lock_at g a k | _ => None end).
  { intros k. unfold lock_at, lock_of. cbn. rewrite list_lookup_insert_eq by (by eapply lookup_lt_Some). rewrite Hm.
    rewrite (GetStripe_n k m m') by done. destruct (GetStripe k m) as [j| |]; [|done..]. cbn. destruct (decide (j = stripe)) as [->|Hne].
    - by rewrite list_lookup_insert_eq by (by eapply lookup_lt_Some).
    - by rewrite list_lookup_insert_ne by congruence. }
  assert (Hold : forall k, GetStripe k m = Done stripe -> lock_at g a k = keys !! k).
  { intros k Ek. unfold lock_at, lock_of. by rewrite Hm, Ek, Hk. }
  split; [| |done|done].
  - intros b k Hbk. destruct (decide (b = a)) as [->|Hne].
    + rewrite Hnew. destruct (GetStripe k m) as [j| |] eqn:Ek; [|by unfold lock_at, lock_of; rewrite Hm, Ek..].
      destruct (decide (j = stripe)) as [->|]; [|done]. rewrite (Hold k Ek). apply Hoth. intros ->. apply Hbk. by left.
    + unfold lock_at. cbn. by rewrite list_lookup_insert_ne.
  - intros b k [= -> ->]%list_elem_of_singleton. rewrite Hnew, Hs, decide_True by done. specialize (Hd a key).
    rewrite (Hold key Hs) in *. by apply Hres.
Qed.

Lemma unlock_all_frame {A} (f : A -> TransactionLockMgr -> outcome TransactionLockMgr) (place : A -> list (nat * bytes)) (I : TransactionLockMgr -> Prop) id l g g' :
  (forall x g1 g2, x ∈ l -> I g1 -> all_distinct g1 -> f x g1 = Done g2 -> unlocked id (place x) g1 g2 /\ I g2) ->
  I g -> all_distinct g -> fold_left (fun g x => obind g (f x)) l (Done g) = Done g' ->
  unlocked id (flat_map place l) g g' /\ I g'.
Proof.
  intros Hf. revert g. induction l as [|x l IH]; intros g Hi Hd; cbn [fold_left flat_map obind].
  - intros [= <-]. split; [by apply unlocked_nil | done].
  - intros E. destruct (fold_Undef f _ _ _ E) as (g1 & E1). rewrite E1 in E.
    destruct (Hf x g g1 ltac:(by left) Hi Hd E1) as [H1 Hi1].
    destruct (IH ltac:(intros y g2 g3 Hy; apply Hf; by right) g1 Hi1 (unlocked_distinct _ _ _ _ Hd H1) E) as [H2 Hi2].
    split; [by eapply unlocked_trans | done].
Qed.

Lemma flat_map_single {A B} (f : A -> B) (l : list A) : flat_map (fun x => [f x]) l = map f l.
Proof. induction l as [|x l IH]; [done|]. cbn. by rewrite IH. Qed.

Lemma UnlockStripe_frame id a part g g' :
  mgr_ok g -> all_distinct g -> Forall (fun key => placed g a key (fst part)) (snd part) ->
  UnlockStripe id a part g = Done g' ->
  unlocked id (map (pair a) (snd part)) g g' /\ mgr_ok g' /\ grows g g'.
Proof.
  intros Hok Hd Hp E. unfold UnlockStripe in E.
  destruct (unlock_all_frame (fun key => UnlockKey id key a (fst part)) (fun key => [(a, key)]) (fun h => mgr_ok h /\ grows g h)
    id (snd part) g g') as [H1 [H2 H3]]; [| by split | done | exact E |].
  - intros key g1 g2 Hin [Hok1 Hg1] Hd1 E1. rewrite Forall_forall in Hp.
    destruct (UnlockKey_ok _ _ _ _ _ _ Hok1 E1) as (Hok2 & Hg2 & _).
    split; [|split; [done | by transitivity g1]]. eapply UnlockKey_frame; [done | | exact E1]. eapply placed_grows; [done | by apply Hp].
  - split; [|by split]. by rewrite flat_map_single in H1.
Qed.

(** The keys by stripe are the keys. *)
Definition parts_ok (m : LockMap) (keys : list bytes) (parts : list (nat * list bytes)) : Prop :=
  Forall (fun part => Forall (fun key => GetStripe key m = Done (fst part)) (snd part)) parts /\
  forall key, key ∈ keys <-> Exists (fun part => key ∈ snd part) parts.

Lemma add_to_stripe_ok m keys stripe key parts :
  GetStripe key m = Done stripe -> parts_ok m keys parts -> parts_ok m (keys ++ [key]) (add_to_stripe stripe key parts).
Proof.
  intros Hs [Hp Hk].
  assert (H : Forall (fun part => Forall (fun key => GetStripe key m = Done (fst part)) (snd part)) (add_to_stripe stripe key parts) /\
    forall k, Exists (fun part => k ∈ snd part) (add_to_stripe stripe key parts) <-> Exists (fun part => k ∈ snd part) parts \/ k = key).
  { clear Hk keys. induction Hp as [|[s ks] parts Hs0 Hp IH]; cbn [add_to_stripe].
    - split; [by repeat constructor|]. intros k. rewrite Exists_cons, Exists_nil. cbn. rewrite list_elem_of_singleton. tauto.
    - cbn [fst snd] in Hs0. destruct (Nat.eqb_spec s stripe) as [->|Hne].
      + split; [constructor; [cbn; apply Forall_app; split; [done | by repeat constructor] | done]|].
        intros k. rewrite !Exists_cons. cbn. rewrite elem_of_app, list_elem_of_singleton. tauto.
      + destruct IH as [IH1 IH2]. split; [by constructor|]. intros k. rewrite !Exists_cons, IH2. cbn. tauto. }
  destruct H as [H1 H2]. split; [done|]. intros k. rewrite H2, elem_of_app, list_elem_of_singleton, Hk. done.
Qed.

Lemma keys_by_stripe_ok m keys parts : keys_by_stripe keys m = Done parts -> parts_ok m keys parts.
Proof.
  unfold keys_by_stripe. cut (forall l before parts0, parts_ok m before parts0 ->
    fold_left (fun parts key => (do! parts := parts in do! stripe := GetStripe key m in Done (add_to_stripe stripe key parts))%out)
      l (Done parts0) = Done parts -> parts_ok m (before ++ l) parts).
  { intros Hc. apply (Hc keys [] []). split; [constructor|]. intros key. by rewrite Exists_nil, elem_of_nil. }
  induction l as [|key l IH]; intros before parts0 Hp; cbn [fold_left obind].
  - intros [= <-]. by rewrite app_nil_r.
  - destruct (GetStripe key m) as [stripe| |] eqn:Es; cbn [obind].
    + intros E. apply (IH (before ++ [key])) in E; [by rewrite <- app_assoc in E|]. by apply add_to_stripe_ok.
    + clear IH. intros E. by destruct (fold_Undef (fun key parts => obind (GetStripe key m) (fun stripe => Done (add_to_stripe stripe key parts))) _ _ _ E).
    + clear IH. intros E. by destruct (fold_Undef (fun key parts => obind (GetStripe key m) (fun stripe => Done (add_to_stripe stripe key parts))) _ _ _ E).
Qed.

(** The places of the locks of keys. *)
Definition places (g : TransactionLockMgr) (tracked_keys : list (Z * list bytes)) : list (nat * bytes) :=
  flat_map (fun '(cfid, keys) => match lock_maps_ g !! cfid with Some a => map (pair a) keys | None => [] end) tracked_keys.

Lemma elem_of_places g tracked_keys a key :
  (a, key) ∈ places g tracked_keys <-> exists cfid keys, (cfid, keys) ∈ tracked_keys /\ lock_maps_ g !! cfid = Some a /\ key ∈ keys.
Proof.
  unfold places. rewrite list_elem_of_In, in_flat_map. split.
  - intros ([cfid keys] & Hin%list_elem_of_In & Hk). destruct (lock_maps_ g !! cfid) as [b|] eqn:Eb; [|done].
    apply in_map_iff in Hk as (k & [= -> ->] & Hk%list_elem_of_In). by exists cfid, keys.
  - intros (cfid & keys & Hin & Ha & Hk). exists (cfid, keys). split; [by apply list_elem_of_In|]. rewrite Ha. apply in_map_iff.
    exists key. split; [done | by apply list_elem_of_In].
Qed.

Lemma same_elements id (l l' : list (nat * bytes)) g g' : (forall x, x ∈ l <-> x ∈ l') -> unlocked id l g g' -> unlocked id l' g g'.
Proof. intros Hl [H1 H2 H3 H4]. split; [| | done | done]; intros b k Hbk; [apply H1 | apply H2]; by rewrite Hl. Qed.

(** [Unlock] takes the transaction off the keys it is called with. *)
Lemma Unlock_frame th id tracked_keys g g' :
  mgr_ok g -> caches_ok g -> all_distinct g -> Forall (fun x => is_Some (lock_maps_ g !! fst x)) tracked_keys ->
  Unlock th id tracked_keys g = Done g' ->
  unlocked id (places g tracked_keys) g g' /\ mgr_ok g' /\ grows g g' /\ wait_state g' = wait_state g /\ max_num_locks_ g' = max_num_locks_ g.
Proof.
  revert g. induction tracked_keys as [|[cfid keys] tracked_keys IH]; intros g Hok Hc Hd Hm; cbn [Unlock places flat_map].
  { intros [= <-]. split; [by apply unlocked_nil | done]. }
  apply Forall_cons in Hm as [[a Ha] Hm]. cbn [fst] in Ha.
  destruct (GetLockMap_ok th cfid g Hok) as (a1 & g1 & Eg & Hok1 & Es & Ew & Em & Hmap).
  destruct (GetLockMap_cached th cfid g Hc) as [Hf Hs]. rewrite Eg in *. cbn [fst snd] in *. rewrite Ha in Hf. subst a1.
  destruct Hmap as (m & Hl & Hmok). rewrite Es, Hl. cbn [ofopt obind].
  destruct (keys_by_stripe keys m) as [parts| |] eqn:Ep; cbn [obind]; [|done..]. apply keys_by_stripe_ok in Ep as [Hparts Hkeys].
  destruct (fold_left _ parts (Done g1)) as [g2| |] eqn:E2; cbn [obind]; [|done..]. intros E.
  assert (Hd1 : all_distinct g1) by (intros b k; rewrite (sl_at _ _ Hs); apply Hd).
  destruct (unlock_all_frame (fun part => UnlockStripe id a part) (fun part => map (pair a) (snd part))
    (fun h => only_locks g1 h) id parts g1 g2) as [H1 (Hok2 & Hg2 & Ew2 & Em2)]; [| by apply only_locks_refl | done | exact E2 |].
  { intros part h1 h2 Hin Ho Hd2 E3. pose proof Ho as (Hoh & Hgh & _). rewrite Forall_forall in Hparts.
    pose proof (UnlockStripe_ok _ _ _ _ _ Hoh E3) as Ho2.
    split; [|by eapply only_locks_trans]. eapply UnlockStripe_frame; [done | done | | exact E3].
    eapply Forall_impl; [by apply Hparts|]. intros key Hkey. apply (placed_grows g1); [done|]. exists m. by rewrite Es. }
  assert (Eh : lock_maps_ g2 = lock_maps_ g) by (by rewrite (ul_maps _ _ _ _ H1), (sl_maps _ _ Hs)).
  destruct (IH g2) as (H2 & Hok3 & Hg3 & Ew3 & Em3); [done | | by eapply unlocked_distinct | by rewrite Eh | exact E |].
  { by apply (ul_caches _ _ _ _ H1), (sl_caches _ _ Hs). }
  split; [|split_and!; [done | | congruence | congruence]].
  - rewrite Ha. eapply unlocked_trans.
    + eapply (same_elements id ([] ++ flat_map (fun part => map (pair a) (snd part)) parts)); [|eapply unlocked_trans; [by apply unlocked_nil | exact H1]].
      cbn [app]. intros [b k]. rewrite !list_elem_of_In, in_flat_map, in_map_iff. split.
      * intros (part & Hin & Hk). apply in_map_iff in Hk as (k' & [= <- <-] & Hk). exists k'. split; [done|].
        apply list_elem_of_In, Hkeys, Exists_exists. exists part. by rewrite !list_elem_of_In.
      * intros (k' & [= <- <-] & Hk%list_elem_of_In%Hkeys%Exists_exists). destruct Hk as (part & Hin%list_elem_of_In & Hk).
        exists part. split; [done|]. apply in_map_iff. exists k'. by rewrite <- list_elem_of_In.
    + unfold places in *. by rewrite Eh in H2.
  - transitivity g1; [intros b mb Hb; exists mb; by rewrite Es|]. by transitivity g2.
Qed.
