(* ===== verification/PessTxn.v ===== *)
(** * PessTxn

    src/txn/pessimistic-transaction.{h,cc} and
    src/txn/pessimistic-transaction-db.{h,cc}: the transactions that hold the
    locks of the keys they read for update and write.

    A transaction is an object of a store, [transactions], that the operations
    get the address of: the table of the expirable transactions and the table of
    the names point at it too, and an operation of one transaction may take the
    locks of another away ([TryStealingLocks]).  A look-up that waits gives back
    its [job], which is what is left to do when the wait ends ([TryLock_wake]).
    The clock is read once in an operation.  [PessSteps] interleaves them, and
    has the discipline under which they are safe. *)

From S2P Require Import Prelude Slice Keys IO SkipList WriteBatch BatchIndex WAL Version VersionSet MemoryTable DBImpl DBOpen TxnWait TxnLock Txn.

(** ** The data *)

Record TransactionDBOptions := mkTxnDBOptions {
  o_max_num_locks : Z; transaction_lock_timeout : Z; default_lock_timeout : Z; num_stripes : nat; max_num_deadlocks : nat
}.

Record TransactionOptions := mkTxnOptions {
  deadlock_detect : bool; o_lock_timeout : Z; o_expiration : Z; deadlock_detect_depth : Z
}.

(** [TransactionOptions{}] *)
Definition DefaultTransactionOptions : TransactionOptions := mkTxnOptions false 1000 (-1) 50.

Record PessimisticTransaction := mkPess { base_ : TransactionBase; locker : Locker; name_ : bytes }.

Definition set_base (b : TransactionBase) (t : PessimisticTransaction) : PessimisticTransaction := mkPess b (locker t) (name_ t).
Definition set_locker (l : Locker) (t : PessimisticTransaction) : PessimisticTransaction := mkPess (base_ t) l (name_ t).
Definition set_name (n : bytes) (t : PessimisticTransaction) : PessimisticTransaction := mkPess (base_ t) (locker t) n.

Definition state (t : PessimisticTransaction) : State := state_ (base_ t).
Definition expiration_time (t : PessimisticTransaction) : Z := expiration_time_ (locker t).
Definition txn_id (t : PessimisticTransaction) : Z := lk_id (locker t).

(** [TransactionBase::update_state] *)
Definition update_state (expected new_val : State) (t : PessimisticTransaction) : bool * PessimisticTransaction :=
  if bool_decide (state t = expected) then (true, set_base (set_state new_val (base_ t)) t) else (false, t).

Definition TryStealingLocks (t : PessimisticTransaction) : bool * PessimisticTransaction := update_state STARTED LOCKS_STOLEN t.

(** The tables the lock manager calls back into, and whether a pointer to a
    transaction that is gone has been followed. *)
Record Owners := mkOwners { ow_expirable : gmap Z nat; ow_transactions : gmap nat PessimisticTransaction; ow_dangling : bool }.

Definition TryStealingExpiredTransactionLocks (id : Z) (o : Owners) : bool * Owners :=
  match ow_expirable o !! id with
  | None => (true, o)
  | Some a =>
    match ow_transactions o !! a with
    | None => (false, mkOwners (ow_expirable o) (ow_transactions o) true)
    | Some t =>
      let '(success, t) := TryStealingLocks t in
      (success, mkOwners (ow_expirable o) (<[a := t]> (ow_transactions o)) (ow_dangling o))
    end
  end.

#[export] Instance pess_owners : LockOwners Owners := TryStealingExpiredTransactionLocks.

(** What is left of [TryLock] behind the call of the lock manager. *)
Record job := mkJob { j_cfid : Z; j_key : bytes; j_seq : Z; j_read_only : bool; j_exclusive : bool; j_validate : bool }.

(** It returns, or waits. *)
Inductive reply := Ends (rs : error) | Waits (cv : option Z) (q : Acquiring) (j : job).

(** [IsExpired] *)
Definition IsExpired (now : Z) (t : PessimisticTransaction) : bool :=
  (0 <? expiration_time t) && (expiration_time t <=? now).

Section operations.
Context {E F T : Type} `{!WritableFile F, !EnvOps E F, !MemTable T}.
Context (path : bytes) (cf_options : ColumnFamilyOptions) (needs_compaction : Version -> bool).
Context (cache_get : nat -> Z -> bytes -> error + Tag * bytes).
Context (comparator : Z -> bytes -> bytes -> Z) (freed : bytes -> option bytes).
Context (order_families : TxnKeyMaps -> list (Z * TxnKeyMap)) (order_keys : TxnKeyMap -> list (bytes * TxnKeyInfo)).

#[local] Abbreviation DB := (DBImpl E F T).

Record PessimisticTransactionDB := mkPDB {
  options_ : TransactionDBOptions;
  lock_mgr_ : TransactionLockMgr;
  next_txn_id_ : Z;
  expirable_txns_ : gmap Z nat;
  txns_ : gmap bytes nat;
  transactions : gmap nat PessimisticTransaction;
  db_ : DB
}.

#[local] Abbreviation PDB := PessimisticTransactionDB.

Definition NewPessimisticTransactionDB (opts : TransactionDBOptions) (db : DB) : PDB :=
  mkPDB opts (NewTransactionLockMgr (num_stripes opts) (o_max_num_locks opts) (max_num_deadlocks opts)) 1 ∅ ∅ ∅ db.

Definition set_lock_mgr (g : TransactionLockMgr) (d : PDB) : PDB :=
  mkPDB (options_ d) g (next_txn_id_ d) (expirable_txns_ d) (txns_ d) (transactions d) (db_ d).
Definition set_expirable (m : gmap Z nat) (d : PDB) : PDB :=
  mkPDB (options_ d) (lock_mgr_ d) (next_txn_id_ d) m (txns_ d) (transactions d) (db_ d).
Definition set_names (m : gmap bytes nat) (d : PDB) : PDB :=
  mkPDB (options_ d) (lock_mgr_ d) (next_txn_id_ d) (expirable_txns_ d) m (transactions d) (db_ d).
Definition set_transactions (m : gmap nat PessimisticTransaction) (d : PDB) : PDB :=
  mkPDB (options_ d) (lock_mgr_ d) (next_txn_id_ d) (expirable_txns_ d) (txns_ d) m (db_ d).
Definition set_db (db : DB) (d : PDB) : PDB :=
  mkPDB (options_ d) (lock_mgr_ d) (next_txn_id_ d) (expirable_txns_ d) (txns_ d) (transactions d) db.

(** The transaction at an address; [put_txn] is an assignment to its members. *)
Definition get_txn (a : nat) (d : PDB) : outcome PessimisticTransaction := ofopt (transactions d !! a).
Definition put_txn (a : nat) (t : PessimisticTransaction) (d : PDB) : PDB := set_transactions (<[a := t]> (transactions d)) d.

(** ** The transaction database *)

Definition db_AddColumnFamily (cfid : Z) (d : PDB) : PDB := set_lock_mgr (AddColumnFamily cfid (lock_mgr_ d)) d.

Definition GenerateTxnID (d : PDB) : Z * PDB :=
  (next_txn_id_ d, mkPDB (options_ d) (lock_mgr_ d) (wrap 64 (next_txn_id_ d + 1)) (expirable_txns_ d) (txns_ d) (transactions d) (db_ d)).

Definition InsertExpirableTransaction (id : Z) (a : nat) (d : PDB) : PDB := set_expirable (VersionSet.insert_new id a (expirable_txns_ d)) d.
Definition RemoveExpirableTransaction (id : Z) (d : PDB) : PDB := set_expirable (delete id (expirable_txns_ d)) d.

Definition GetTransactionByName (name : bytes) (d : PDB) : option nat := txns_ d !! name.

Definition RegisterTransaction (a : nat) (d : PDB) : outcome PDB :=
  (do! t := get_txn a d in Done (set_names (VersionSet.insert_new (name_ t) a (txns_ d)) d))%out.

(** Erasing what is not there is not defined. *)
Definition UnregisterTransaction (a : nat) (d : PDB) : outcome PDB :=
  (do! t := get_txn a d in
   match txns_ d !! name_ t with None => Undef | Some _ => Done (set_names (delete (name_ t) (txns_ d)) d) end)%out.

(** The state behind a call of the lock manager. *)
Definition with_owners (a : nat) (l : Locker) (g : TransactionLockMgr) (o : Owners) (d : PDB) : outcome PDB :=
  if ow_dangling o then Undef
  else
    (do! t := ofopt (ow_transactions o !! a) in
     Done (put_txn a (set_locker l t) (set_transactions (ow_transactions o) (set_lock_mgr g d))))%out.

Definition owners_of (d : PDB) : Owners := mkOwners (expirable_txns_ d) (transactions d) false.

(** [PessimisticTransactionDB::TryLock] *)
Definition db_TryLock (thread : nat) (free : bool) (now : Z) (a : nat) (cfid : Z) (hold_key : bytes) (exclusive : bool) (d : PDB) :
    outcome (Acquired * PDB) :=
  (do! t := get_txn a d in
   do! (r, l, g, o) := TxnLock.TryLock thread free now (locker t) cfid hold_key exclusive (lock_mgr_ d) (owners_of d) in
   do! d := with_owners a l g o d in Done (r, d))%out.

(** The end of a wait in it. *)
Definition db_Wake (now : Z) (rs : error) (a : nat) (cv : option Z) (q : Acquiring) (d : PDB) : outcome (Acquired * PDB) :=
  (do! t := get_txn a d in
   do! (r, l, g, o) := Wake now rs (locker t) cv q (lock_mgr_ d) (owners_of d) in
   do! d := with_owners a l g o d in Done (r, d))%out.

(** The keys of a map, in the order of its iteration. *)
Definition keys_of (m : TxnKeyMaps) : list (Z * list bytes) :=
  map (fun '(cfid, keys) => (cfid, map fst (order_keys keys))) (order_families m).

(** [PessimisticTransactionDB::UnLock] *)
Definition UnLock (thread : nat) (a : nat) (tracked_keys : TxnKeyMaps) (d : PDB) : outcome PDB :=
  (do! t := get_txn a d in
   do! g := Unlock thread (txn_id t) (keys_of tracked_keys) (lock_mgr_ d) in Done (set_lock_mgr g d))%out.

(** ** PessimisticTransaction *)

Definition Initialize (opts : TransactionOptions) (a : nat) (d : PDB) : outcome PDB :=
  (do! t := get_txn a d in
   let '(id, d) := GenerateTxnID d in
   let timeout := sgn 64 (o_lock_timeout opts * 1000) in
   let timeout := if timeout <? 0 then sgn 64 (transaction_lock_timeout (options_ d) * 1000) else timeout in
   let expiration := if 0 <=? o_expiration opts then wrap 64 (start_time_ (base_ t) + o_expiration opts * 1000) else 0 in
   let l := mkLocker id timeout expiration (deadlock_detect opts) (deadlock_detect_depth opts)
     (waiting_txn_ids_ (locker t)) (waiting_cfid_ (locker t)) (waiting_key_ (locker t)) in
   let d := put_txn a (set_locker l (set_base (set_state STARTED (base_ t)) t)) d in
   Done (if 0 <? expiration then InsertExpirableTransaction id a d else d))%out.

(** The constructor, at the address [a]. *)
Definition NewPessimisticTransaction (opts : TransactionOptions) (wr_opts : bool) (now : Z) (a : nat) (d : PDB) : outcome PDB :=
  Initialize opts a (put_txn a (mkPess (NewTransactionBase wr_opts now) (mkLocker 0 (-1) 0 false 50 [] 0 None) []) d).

Definition unregister_named (a : nat) (d : PDB) : outcome PDB :=
  (do! t := get_txn a d in
   if negb (bool_decide (name_ t = [])) && negb (bool_decide (state t = COMMITED)) then UnregisterTransaction a d else Done d)%out.

(** The destructor. *)
Definition DeletePessimisticTransaction (thread : nat) (a : nat) (d : PDB) : outcome PDB :=
  (do! t := get_txn a d in
   do! d := UnLock thread a (txn_keys_ (base_ t)) d in
   let d := if 0 <? expiration_time t then RemoveExpirableTransaction (txn_id t) d else d in
   do! d := unregister_named a d in
   Done (set_transactions (delete a (transactions d)) d))%out.

Definition pt_Reinitialize (opts : TransactionOptions) (wr_opts : bool) (now : Z) (a : nat) (d : PDB) : outcome PDB :=
  (do! d := unregister_named a d in
   do! t := get_txn a d in
   Initialize opts a (put_txn a (set_base (Reinitialize wr_opts now (base_ t)) t) d))%out.

Definition pt_Clear (thread : nat) (a : nat) (d : PDB) : outcome PDB :=
  (do! t := get_txn a d in
   do! d := UnLock thread a (txn_keys_ (base_ t)) d in
   Done (put_txn a (set_base (txn_Clear (base_ t)) t) d))%out.

Definition set_txn_state (s : State) (a : nat) (d : PDB) : outcome PDB :=
  (do! t := get_txn a d in Done (put_txn a (set_base (set_state s (base_ t)) t) d))%out.

Definition SetName (name : bytes) (a : nat) (d : PDB) : outcome (error * PDB) :=
  (do! t := get_txn a d in
   if bool_decide (state t = STARTED) then
     if negb (bool_decide (name_ t = [])) then Done (kCorruption, d)
     else if bool_decide (is_Some (GetTransactionByName name d)) then Done (kCorruption, d)
     else if (zlen name <? 1) || (512 <? zlen name) then Done (kCorruption, d)
     else do! d := RegisterTransaction a (put_txn a (set_name name t) d) in Done (kOk, d)
   else Done (kCorruption, d))%out.

Definition pt_Rollback (thread : nat) (a : nat) (d : PDB) : outcome (error * PDB) :=
  (do! t := get_txn a d in
   match state t with
   | STARTED => do! d := pt_Clear thread a d in do! d := set_txn_state ROLLEDBACK a d in Done (kOk, d)
   | _ => Done (kCorruption, d)
   end)%out.

(** [Commit] up to the write: whether it may write, with the state set. *)
Definition commit_begin (now : Z) (a : nat) (d : PDB) : outcome (bool * PDB) :=
  (do! t := get_txn a d in
   if IsExpired now t then Done (false, d) else
   let '(ready_for_commit, t) :=
     if 0 <? expiration_time t then update_state STARTED AWAITING_COMMIT t else (bool_decide (state t = STARTED), t) in
   if ready_for_commit then Done (true, put_txn a (set_base (set_state AWAITING_COMMIT (base_ t)) t) d)
   else Done (false, d))%out.

(** The write. *)
Definition commit_write (a : nat) (d : PDB) : outcome (error * PDB) :=
  (do! t := get_txn a d in
   do! (rs, db) := WriteImpl path cf_options needs_compaction (write_opts_ (base_ t)) (wi_batch (write_batch_ (base_ t))) None (db_ d) in
   Done (rs, set_db db d))%out.

(** What is done behind it. *)
Definition commit_end (thread : nat) (rs : error) (a : nat) (d : PDB) : outcome PDB :=
  (do! t := get_txn a d in
   do! d := if negb (bool_decide (name_ t = [])) then UnregisterTransaction a d else Done d in
   do! d := pt_Clear thread a d in
   if ok rs then set_txn_state COMMITED a d else Done d)%out.

(** Every error of [Commit] but that of the write is a corruption. *)
Definition pt_Commit (thread : nat) (now : Z) (a : nat) (d : PDB) : outcome (error * PDB) :=
  (do! (ready, d) := commit_begin now a d in
   if negb ready then Done (kCorruption, d) else
   do! (rs, d) := commit_write a d in
   do! d := commit_end thread rs a d in Done (rs, d))%out.

(** ** Locks *)

(** Whether a key is locked, whether that is to be made exclusive, and the
    version it was tracked with. *)
Definition prev_locked (cfid : Z) (key : bytes) (exclusive : bool) (keys : TxnKeyMaps) : bool * bool * Z :=
  match keys !! cfid with
  | None => (false, false, kMaxSequenceNumber)
  | Some keys =>
    match keys !! key with
    | None => (false, false, kMaxSequenceNumber)
    | Some info => (true, negb (ti_exclusive info) && exclusive, ti_seq info)
    end
  end.

(** [TryLock] behind the lock manager. *)
Definition TryLock_end (rs : error) (j : job) (a : nat) (d : PDB) : outcome PDB :=
  let seq :=
    if negb (j_validate j) then if j_seq j =? kMaxSequenceNumber then GetLatestSequenceNumber (db_ d) else j_seq j else j_seq j in
  if ok rs then
    (do! t := get_txn a d in
     let keys := TrackKey (j_cfid j) (j_key j) seq (j_read_only j) (j_exclusive j) (txn_keys_ (base_ t)) in
     Done (put_txn a (set_base (set_keys keys (base_ t)) t) d))%out
  else Done d.

Definition TryLock_reply (r : Acquired) (j : job) (a : nat) (d : PDB) : outcome (reply * PDB) :=
  match r with
  | Returns rs => (do! d := TryLock_end rs j a d in Done (Ends rs, d))%out
  | Blocks cv q => Done (Waits cv q j, d)
  end.

(** [PessimisticTransaction::TryLock] *)
Definition pt_TryLock (thread : nat) (free : bool) (now : Z) (cf : ColumnFamilyHandle) (key : bytes)
    (read_only exclusive do_validate : bool) (a : nat) (d : PDB) : outcome (reply * PDB) :=
  (do! t := get_txn a d in
   do! cfid := handle_id cf (db_ d) in
   let '(prev, lock_upgrade, tracked_at_seq) := prev_locked cfid key exclusive (txn_keys_ (base_ t)) in
   let j := mkJob cfid key tracked_at_seq read_only exclusive do_validate in
   if negb prev || lock_upgrade then
     do! (r, d) := db_TryLock thread free now a cfid key exclusive d in TryLock_reply r j a d
   else TryLock_reply (Returns kOk) j a d)%out.

(** The end of a wait in it. *)
Definition TryLock_wake (now : Z) (rs : error) (cv : option Z) (q : Acquiring) (j : job) (a : nat) (d : PDB) : outcome (reply * PDB) :=
  (do! (r, d) := db_Wake now rs a cv q d in TryLock_reply r j a d)%out.

(** ** TransactionBase *)

(** The four updates behind [TryLock]. *)
Definition update_end (rs : error) (flag : Z) (rand : list Z) (cf : ColumnFamilyHandle) (key value : bytes) (a : nat) (d : PDB) :
    outcome (error * PDB) :=
  if ok rs then
    (do! t := get_txn a d in
     do! cfid := handle_id cf (db_ d) in
     do! w := AddOrUpdate comparator rand cfid flag key value (write_batch_ (base_ t)) in
     Done (rs, put_txn a (set_base (set_batch w (base_ t)) t) d))%out
  else Done (rs, d).

(** [Put], [Delete], [PutUntracked] and [DeleteUntracked]; when the lock is
    waited for, [update_end] follows the wait. *)
Definition pt_update (validate : bool) (flag : Z) (thread : nat) (free : bool) (now : Z) (rand : list Z) (cf : ColumnFamilyHandle)
    (key value : bytes) (a : nat) (d : PDB) : outcome (reply * PDB) :=
  (do! (r, d) := pt_TryLock thread free now cf key false true validate a d in
   match r with
   | Ends rs => do! (rs, d) := update_end rs flag rand cf key value a d in Done (Ends rs, d)
   | Waits cv q j => Done (Waits cv q j, d)
   end)%out.

(** [Get] *)
Definition pt_Get (opts : option Z) (cf : ColumnFamilyHandle) (key : bytes) (a : nat) (d : PDB) : outcome (error + option bytes) :=
  (do! t := get_txn a d in txn_Get cache_get comparator freed opts cf key (base_ t) (db_ d))%out.

(** [GetForUpdate]; the answer is behind the lock. *)
Definition GetForUpdate_end (rs : error) (opts : option Z) (cf : ColumnFamilyHandle) (key : bytes) (a : nat) (d : PDB) :
    outcome (error + option bytes) :=
  if ok rs then pt_Get opts cf key a d else Done (inl rs).

Definition pt_GetForUpdate (thread : nat) (free : bool) (now : Z) (opts : option Z) (cf : ColumnFamilyHandle) (key : bytes)
    (exclusive do_validate : bool) (a : nat) (d : PDB) :
    outcome (((error + option bytes) + option Z * Acquiring * job) * PDB) :=
  if negb do_validate && bool_decide (is_Some opts) then Done (inl (inl kCorruption), d) else
  (do! (r, d) := pt_TryLock thread free now cf key true exclusive do_validate a d in
   match r with
   | Ends rs => do! x := GetForUpdate_end rs opts cf key a d in Done (inl x, d)
   | Waits cv q j => Done (inr (cv, q, j), d)
   end)%out.

(** ** Whole batches *)

(** [std::set::insert] *)
Fixpoint set_insert (key : bytes) (keys : list bytes) : list bytes :=
  match keys with
  | [] => [key]
  | k :: keys' => if lex key k =? 0 then keys else if lex key k <? 0 then key :: keys else k :: set_insert key keys'
  end.

(** [RecordHandler::RecordKey]: the keys by family, both in order. *)
Fixpoint RecordKey (cfid : Z) (key : bytes) (keys_ : list (Z * list bytes)) : list (Z * list bytes) :=
  match keys_ with
  | [] => [(cfid, [key])]
  | (c, keys) :: rest =>
    if cfid =? c then (c, set_insert key keys) :: rest
    else if cfid <? c then (cfid, [key]) :: keys_ else (c, keys) :: RecordKey cfid key rest
  end.

(** The loops of [LockBatch] take the keys in this order. *)
Definition recorded (os : list op) : list (Z * bytes) :=
  flat_map (fun '(cfid, keys) => map (pair cfid) keys) (fold_left (fun keys_ o => RecordKey (op_cfid o) (op_key o) keys_) os []).

(** It ends, with the keys it has locked, or waits for one. *)
Inductive batch_reply :=
  | BEnds (rs : error) (keys_to_unlock : TxnKeyMaps)
  | BWaits (cv : option Z) (q : Acquiring) (cfid : Z) (key : bytes) (todo : list (Z * bytes)) (keys_to_unlock : TxnKeyMaps).

Fixpoint lock_keys (thread : nat) (free : bool) (now : Z) (a : nat) (todo : list (Z * bytes)) (keys : TxnKeyMaps) (d : PDB) :
    outcome (batch_reply * PDB) :=
  match todo with
  | [] => Done (BEnds kOk keys, d)
  | (cfid, key) :: todo =>
    (do! (r, d) := db_TryLock thread free now a cfid key true d in
     match r with
     | Returns rs =>
       if ok rs then lock_keys thread free now a todo (TrackKey cfid key kMaxSequenceNumber false true keys) d
       else do! d := UnLock thread a keys d in Done (BEnds rs keys, d)
     | Blocks cv q => Done (BWaits cv q cfid key todo keys, d)
     end)%out
  end.

(** The end of a wait in it. *)
Definition lock_keys_wake (thread : nat) (free : bool) (now : Z) (rs : error) (a : nat) (cv : option Z) (q : Acquiring) (cfid : Z)
    (key : bytes) (todo : list (Z * bytes)) (keys : TxnKeyMaps) (d : PDB) : outcome (batch_reply * PDB) :=
  (do! (r, d) := db_Wake now rs a cv q d in
   match r with
   | Returns rs =>
     if ok rs then lock_keys thread free now a todo (TrackKey cfid key kMaxSequenceNumber false true keys) d
     else do! d := UnLock thread a keys d in Done (BEnds rs keys, d)
   | Blocks cv q => Done (BWaits cv q cfid key todo keys, d)
   end)%out.

(** [LockBatch] *)
Definition LockBatch (thread : nat) (free : bool) (now : Z) (updates : WriteBatch) (a : nat) (d : PDB) : outcome (batch_reply * PDB) :=
  (do! os := ofopt (IterateBatch updates) in lock_keys thread free now a (recorded os) ∅ d)%out.

(** [CommitBatch] behind it. *)
Definition commit_batch (thread : nat) (now : Z) (updates : WriteBatch) (keys_to_unlock : TxnKeyMaps) (a : nat) (d : PDB) :
    outcome (error * PDB) :=
  (do! t := get_txn a d in
   let '(can_commit, t) :=
     if IsExpired now t then (false, t)
     else if 0 <? expiration_time t then update_state STARTED AWAITING_COMMIT t
     else (bool_decide (state t = STARTED), t) in
   let d := put_txn a t d in
   do! (rs, d) :=
     (if can_commit then
        do! (rs, db) := WriteImpl path cf_options needs_compaction (write_opts_ (base_ t)) updates None (db_ d) in
        let d := set_db db d in
        if ok rs then do! d := set_txn_state COMMITED a d in Done (rs, d) else Done (rs, d)
      else Done (kCorruption, d)) in
   do! d := UnLock thread a keys_to_unlock d in
   Done (rs, d))%out.

(** [CommitBatch]; when a lock is waited for, [lock_keys_wake] and
    [commit_batch] follow. *)
Definition CommitBatch (thread : nat) (free : bool) (now : Z) (updates : WriteBatch) (a : nat) (d : PDB) : outcome (batch_reply * PDB) :=
  (do! (r, d) := LockBatch thread free now updates a d in
   match r with
   | BEnds rs keys => if ok rs then do! (rs, d) := commit_batch thread now updates keys a d in Done (BEnds rs keys, d) else Done (r, d)
   | _ => Done (r, d)
   end)%out.

(** ** The operations of the database *)

Definition pt_BeginTransaction (wr_opts : bool) (txn_opts : TransactionOptions) (now : Z) (old_txn : option nat) (a : nat) (d : PDB) :
    outcome (nat * PDB) :=
  match old_txn with
  | Some b => (do! d := pt_Reinitialize txn_opts wr_opts now b d in Done (b, d))%out
  | None => (do! d := NewPessimisticTransaction txn_opts wr_opts now a d in Done (a, d))%out
  end.

Definition set_lock_timeout (timeout : Z) (a : nat) (d : PDB) : outcome PDB :=
  (do! t := get_txn a d in
   let l := locker t in
   Done (put_txn a (set_locker (mkLocker (lk_id l) timeout (expiration_time_ l) (deadlock_detect_ l) (deadlock_detect_depth_ l)
     (waiting_txn_ids_ l) (waiting_cfid_ l) (waiting_key_ l)) t) d))%out.

Definition NewAutoTransaction (wr_opts : bool) (now : Z) (a : nat) (d : PDB) : outcome PDB :=
  (do! (x, d) := pt_BeginTransaction wr_opts DefaultTransactionOptions now None a d in
   set_lock_timeout (sgn 64 (default_lock_timeout (options_ d) * 1000)) x d)%out.

(** [Put] and [Delete] behind the lock: the commit and the end of the
    transaction. *)
Definition auto_end (thread : nat) (now : Z) (rs : error) (a : nat) (d : PDB) : outcome (error * PDB) :=
  (do! (rs, d) := (if ok rs then pt_Commit thread now a d else Done (rs, d)) in
   do! d := DeletePessimisticTransaction thread a d in Done (rs, d))%out.

(** [Put] and [Delete], by a transaction at the free address [a]. *)
Definition pdb_update (flag : Z) (thread : nat) (free : bool) (now : Z) (rand : list Z) (opts : bool) (cf : ColumnFamilyHandle)
    (key value : bytes) (a : nat) (d : PDB) : outcome (reply * PDB) :=
  (do! d := NewAutoTransaction opts now a d in
   do! (r, d) := pt_update false flag thread free now rand cf key value a d in
   match r with
   | Ends rs => do! (rs, d) := auto_end thread now rs a d in Done (Ends rs, d)
   | Waits cv q j => Done (r, d)
   end)%out.

(** [Write] *)
Definition pdb_Write (thread : nat) (free : bool) (now : Z) (opts : bool) (updates : WriteBatch) (a : nat) (d : PDB) :
    outcome (batch_reply * PDB) :=
  (do! d := NewAutoTransaction opts now a d in
   do! (r, d) := CommitBatch thread free now updates a d in
   match r with
   | BEnds rs _ => do! d := DeletePessimisticTransaction thread a d in Done (r, d)
   | _ => Done (r, d)
   end)%out.
End operations.

(** ** Column families *)

Section families.
Context {E F T : Type} `{!WritableFile F, !DirOps E, !EnvOps E F, !MemTable T}.
Context (abs_db_path_ : bytes).

#[local] Abbreviation PDB := (PessimisticTransactionDB (E := E) (F := F) (T := T)).

Definition pdb_NewColumnFamily (name : bytes) (options : ColumnFamilyOptions) (d : PDB) : outcome (error * option nat * PDB) :=
  (do! (rs, result, db) := db_NewColumnFamily abs_db_path_ name options (db_ d) in
   let d := set_db db d in
   if negb (ok rs) then Done (rs, None, d) else
   do! i := ofopt result in
   do! f := ofopt (families (cfs (versions_ db)) !! i) in
   Done (rs, Some i, db_AddColumnFamily (cf_id f) d))%out.

(** [DropColumnFamily] of the database deletes the handle, whose id is read
    afterwards: [stale] is what is then found where an id was. *)
Definition pdb_DropColumnFamily (stale : Z -> option Z) (cf : ColumnFamilyHandle) (d : PDB) : outcome (error * PDB) :=
  (do! (rs, db) := DropColumnFamilyOf abs_db_path_ (Some cf) (db_ d) in
   let d := set_db db d in
   if negb (ok rs) then Done (rs, d) else
   do! cfid := handle_id cf db in
   do! cfid := ofopt (stale cfid) in
   do! g := RemoveColumnFamily cfid (lock_mgr_ d) in
   Done (rs, set_lock_mgr g d))%out.

(** [TransactionDB::Open] on a database that is open: the families get their
    lock maps. *)
Fixpoint add_families (column_families : list ColumnFamilyHandle) (d : PDB) : outcome PDB :=
  match column_families with
  | [] => Done d
  | cf :: column_families => (do! cfid := handle_id cf (db_ d) in add_families column_families (db_AddColumnFamily cfid d))%out
  end.

Definition pess_Open (txn_db_opts : TransactionDBOptions) (column_families : option (list ColumnFamilyHandle)) (db : DBImpl E F T) :
    outcome PDB :=
  let txn_db := NewPessimisticTransactionDB txn_db_opts db in
  match column_families with
  | Some (cf :: cfs) => add_families (cf :: cfs) txn_db
  | _ => add_families (GetAllColumnFamilies db) txn_db
  end.
End families.

(** ** The keys of a batch *)

Definition lex_lt (x y : bytes) : Prop := lex x y < 0.

#[export] Instance lex_lt_strict : StrictOrder lex_lt.
Proof.
  split.
  - intros x Hx. unfold lex_lt in Hx. rewrite cmp_refl in Hx. lia.
  - intros x y z. unfold lex_lt. intros H1 H2. apply (cmp_lt_le_trans lex x y z); [done | lia].
Qed.

Lemma elem_of_set_insert k l x : x ∈ set_insert k l <-> x = k \/ x ∈ l.
Proof.
  induction l as [|y l IH]; cbn [set_insert]; [by rewrite list_elem_of_singleton, elem_of_nil; tauto|].
  destruct (Z.eqb_spec (lex k y) 0) as [E|E].
  - apply cmp_exact in E as ->. rewrite elem_of_cons. tauto.
  - destruct (lex k y <? 0); rewrite !elem_of_cons, ?IH, ?elem_of_cons; tauto.
Qed.

Lemma set_insert_sorted k l : StronglySorted lex_lt l -> StronglySorted lex_lt (set_insert k l).
Proof.
  induction 1 as [|y l Hs IH Hy]; cbn [set_insert]; [repeat constructor|].
  destruct (Z.eqb_spec (lex k y) 0) as [E|E]; [by constructor|]. destruct (Z.ltb_spec (lex k y) 0) as [Hlt|Hge].
  - constructor; [by constructor|]. constructor; [done|]. eapply Forall_impl; [exact Hy|]. intros z Hz. by transitivity y.
  - constructor; [done|]. apply Forall_forall. intros z [->|Hz]%elem_of_set_insert; [|rewrite Forall_forall in Hy; by apply Hy].
    unfold lex_lt. pose proof (cmp_ge lex k y Hge). pose proof (cmp_eq_sym lex y k). lia.
Qed.

(** The keys by family, with both in order. *)
Record keys_ordered (m : list (Z * list bytes)) : Prop := {
  ko_families : StronglySorted (fun x y => fst x < fst y) m;
  ko_keys : Forall (fun x => StronglySorted lex_lt (snd x)) m;
}.

Lemma RecordKey_families cfid key m c ks : (c, ks) ∈ RecordKey cfid key m -> c = cfid \/ exists ks', (c, ks') ∈ m.
Proof.
  induction m as [|[c' ks'] m IH]; cbn [RecordKey]; [intros [= -> _]%list_elem_of_singleton; by left|].
  destruct (Z.eqb_spec cfid c') as [->|]; [|destruct (cfid <? c')].
  - intros [[= -> _]|Hin]%elem_of_cons; [by left | right; exists ks; by right].
  - intros [[= -> _]|Hin]%elem_of_cons; [by left | right; by exists ks].
  - intros [[= -> ->]|Hin]%elem_of_cons; [right; exists ks'; by left|]. destruct (IH Hin) as [|(k & Hk)]; [by left | right; exists k; by right].
Qed.

Lemma RecordKey_ordered cfid key m : keys_ordered m -> keys_ordered (RecordKey cfid key m).
Proof.
  intros [Hf Hk]. induction Hf as [|[c ks] m Hf IH Hc]; cbn [RecordKey].
  { split; repeat constructor. }
  apply Forall_cons in Hk as [Hks Hk]. specialize (IH Hk). destruct IH as [IH1 IH2]. destruct (Z.eqb_spec cfid c) as [->|Hne].
  { split; [by constructor|]. constructor; [by apply set_insert_sorted | done]. }
  destruct (Z.ltb_spec cfid c) as [Hlt|Hge].
  - split; [constructor; [by constructor|] | constructor; [repeat constructor | by constructor]].
    constructor; [done|]. eapply Forall_impl; [exact Hc|]. intros [c' ks'] H. cbn in *. lia.
  - split; [|by constructor]. constructor; [done|]. apply Forall_forall. intros [c' ks'] Hin. cbn.
    apply RecordKey_families in Hin as [->|(ks2 & Hin)]; [lia|]. rewrite Forall_forall in Hc. apply (Hc _ Hin).
Qed.

Lemma elem_of_RecordKey cfid key m c k :
  (exists ks, (c, ks) ∈ RecordKey cfid key m /\ k ∈ ks) <-> (c, k) = (cfid, key) \/ exists ks, (c, ks) ∈ m /\ k ∈ ks.
Proof.
  induction m as [|[c' ks'] m IH]; cbn [RecordKey].
  { split.
    - intros (ks & [= -> ->]%list_elem_of_singleton & ->%list_elem_of_singleton). by left.
    - intros [[= -> ->]|(ks & Hin & _)]; [|by apply elem_of_nil in Hin]. exists [key]. split; by left. }
  assert (Hcons : forall (x : Z * list bytes) l, (exists ks, (c, ks) ∈ x :: l /\ k ∈ ks) <-> (c = fst x /\ k ∈ snd x) \/ exists ks, (c, ks) ∈ l /\ k ∈ ks).
  { intros [c2 ks2] l. cbn. split.
    - intros (ks & [[= -> ->]|Hin]%elem_of_cons & Hk); [by left | right; by exists ks].
    - intros [[-> Hk]|(ks & Hin & Hk)]; [exists ks2; split; [by left | done] | exists ks; split; [by right | done]]. }
  destruct (Z.eqb_spec cfid c') as [->|Hne]; [|destruct (cfid <? c')]; rewrite !Hcons; cbn [fst snd]; rewrite ?IH.
  - rewrite elem_of_set_insert. split; [intros [[-> [->|]]|]|intros [[= -> ->]|[[-> ?]|]]]; auto.
  - rewrite list_elem_of_singleton. split; [intros [[-> ->]|[|]]|intros [[= -> ->]|[|]]]; auto.
  - tauto.
Qed.

Lemma NoDup_ordered (ks : list bytes) : StronglySorted lex_lt ks -> NoDup ks.
Proof.
  induction 1 as [|k ks _ IH Hk]; constructor; [|done]. intros Hin. rewrite Forall_forall in Hk. by apply (irreflexivity lex_lt k), Hk.
Qed.

(** [LockBatch] takes every key of the batch once. *)
Lemma recorded_spec os : NoDup (recorded os) /\ forall c k, (c, k) ∈ recorded os <-> exists o, o ∈ os /\ (op_cfid o, op_key o) = (c, k).
Proof.
  unfold recorded. cut (forall m, keys_ordered m -> let m' := fold_left (fun keys_ o => RecordKey (op_cfid o) (op_key o) keys_) os m in
    keys_ordered m' /\ forall c k, (exists ks, (c, ks) ∈ m' /\ k ∈ ks) <->
      (exists ks, (c, ks) ∈ m /\ k ∈ ks) \/ exists o, o ∈ os /\ (op_cfid o, op_key o) = (c, k)).
  { intros Hcut. destruct (Hcut []) as [[H1 H2] H3]; [by split; constructor|]. set (m := fold_left _ os []) in *. split.
    - clear H3 Hcut. induction H1 as [|[c ks] m0 Hf IH Hc]; cbn; [constructor|]. apply Forall_cons in H2 as [Hks H2].
      apply NoDup_app. split_and!; [| | by apply IH].
      + apply (NoDup_fmap_2 (pair c)). by apply NoDup_ordered.
      + intros x (k & -> & Hk)%list_elem_of_fmap Hin. apply list_elem_of_In, in_flat_map in Hin as ([c' ks'] & Hin%list_elem_of_In & Hx).
        apply list_elem_of_In, list_elem_of_fmap in Hx as (k' & [= <- _] & _). rewrite Forall_forall in Hc. specialize (Hc _ Hin). cbn in Hc. lia.
    - intros c k. transitivity (exists ks, (c, ks) ∈ m /\ k ∈ ks).
      + rewrite list_elem_of_In, in_flat_map. split.
        * intros ([c' ks] & Hin%list_elem_of_In & Hx). apply list_elem_of_In, list_elem_of_fmap in Hx as (k' & [= -> ->] & Hk). by exists ks.
        * intros (ks & Hin & Hk). exists (c, ks). split; [by apply list_elem_of_In|]. apply list_elem_of_In, list_elem_of_fmap. by exists k.
      + rewrite H3. split; [|auto]. intros [(ks & Hin & _)|]; [by apply elem_of_nil in Hin | done]. }
  induction os as [|o os IH]; intros m Hm; cbn [fold_left].
  - split; [done|]. intros c k. split; [auto|]. intros [|(o & Ho & _)]; [done | by apply elem_of_nil in Ho].
  - destruct (IH (RecordKey (op_cfid o) (op_key o) m) (RecordKey_ordered _ _ _ Hm)) as [H1 H2]. split; [done|]. intros c k.
    rewrite H2, elem_of_RecordKey. split.
    + intros [[Hk|Hk]|(o' & Ho & Hk)]; [right; exists o; split; [by left | done] | by left | right; exists o'; split; [by right | done]].
    + intros [Hk|(o' & [->|Ho]%elem_of_cons & Hk)]; [left; by right | left; by left | right; by exists o'].
Qed.
