(* ===== verification/PessLocks.v ===== *)
(** * PessLocks

    What the pessimistic transactions of [PessTxn] own.  [held_ok] relates the
    locks of the manager to the keys that the transactions hold: every holder of
    a lock is a transaction that holds the key, and a transaction that has not
    lost its locks has the lock of every key it holds, exclusively if it asked
    for that.  A request keeps it and adds the key that was asked for when it
    succeeds, also when it takes the lock from others, whose state then tells
    ([db_request_held]); unlocking takes the keys away ([UnLock_held]).

    A transaction that never expires and shares a lock with one that does may
    lose it without being told, so a shared lock counts for the transactions
    that expire only. *)

From stdpp Require Import relations.
From S2P Require Import Prelude Slice Keys IO SkipList WriteBatch BatchIndex WAL Version VersionSet MemoryTable DBImpl TxnWait TxnLock LockFrame Txn PessTxn.

(** ** Taking locks away *)

Definition stolen_txn (t : PessimisticTransaction) : PessimisticTransaction := set_base (set_state LOCKS_STOLEN (base_ t)) t.

(** Some of the transactions that satisfy [P] have lost their locks. *)
Record stole (P : PessimisticTransaction -> Prop) (o o' : Owners) : Prop := {
  st_expirable : ow_expirable o' = ow_expirable o;
  st_dangling : ow_dangling o' = ow_dangling o;
  st_txns : forall a, ow_transactions o' !! a = ow_transactions o !! a \/
    exists t, ow_transactions o !! a = Some t /\ state t = STARTED /\ P t /\ ow_transactions o' !! a = Some (stolen_txn t);
}.

#[export] Instance stole_preorder P : PreOrder (stole P).
Proof.
  split; [split; [done | done | by left]|]. intros o1 o2 o3 [A1 A2 A3] [B1 B2 B3]. split; [congruence | congruence |].
  intros a. destruct (A3 a) as [Ea|(t & Ht & Hs & Hp & Ea)], (B3 a) as [Eb|(u & Hu & Hs' & Hp' & Eb)].
  - left. congruence.
  - right. exists u. rewrite <- Ea. done.
  - right. exists t. rewrite Eb. done.
  - exfalso. rewrite Ea in Hu. injection Hu as <-. done.
Qed.

(** The holders of a lock are live transactions that expire no later than it. *)
Definition owned (o : Owners) (info : LockInfo) : Prop :=
  forall id, id ∈ li_txn_ids info -> exists a t, ow_transactions o !! a = Some t /\ txn_id t = id /\
    expiration_time t <= li_expiration_time info /\
    (0 < expiration_time t -> ow_expirable o !! id = Some a) /\
    (forall b, ow_expirable o !! id = Some b -> b = a /\ 0 < expiration_time t).

Lemma stole_lookup P o o' a t : stole P o o' -> ow_transactions o !! a = Some t ->
  exists t', ow_transactions o' !! a = Some t' /\ txn_id t' = txn_id t /\ expiration_time t' = expiration_time t /\
    (state t = LOCKS_STOLEN -> state t' = LOCKS_STOLEN).
Proof.
  intros [_ _ H] Ha. destruct (H a) as [E|(u & Hu & Hs & _ & E)].
  - exists t. rewrite E. done.
  - assert (u = t) as -> by congruence. exists (stolen_txn t). done.
Qed.

Lemma stole_owned P o o' info : stole P o o' -> owned o info -> owned o' info.
Proof.
  intros Hs Ho id Hid. destruct (Ho id Hid) as (a & t & Ha & <- & He & H1 & H2).
  destruct (stole_lookup _ _ _ _ _ Hs Ha) as (t' & Ha' & Ei & Ex & _). exists a, t'. rewrite Ex, (st_expirable _ _ _ Hs). done.
Qed.

(** The ones that a request at [now] may take the lock [info] from. *)
Definition loser (now id : Z) (info : LockInfo) (t : PessimisticTransaction) : Prop :=
  txn_id t ∈ li_txn_ids info /\ txn_id t <> id /\ 0 < expiration_time t <= now.

(** One holder is asked; one that is expirable gives up its locks if it has
    started. *)
Lemma TryStealing_effect now id info i (o : Owners) :
  owned o info -> i ∈ li_txn_ids info -> i <> id -> li_expiration_time info <= 0 \/ li_expiration_time info <= now ->
  let '(success, o') := TryStealing i o in
  stole (loser now id info) o o' /\
  (success = true -> forall a t, ow_transactions o !! a = Some t -> txn_id t = i -> 0 < expiration_time t ->
     ow_expirable o !! i = Some a -> exists t', ow_transactions o' !! a = Some t' /\ state t' = LOCKS_STOLEN).
Proof.
  intros Ho Hin Hne Hexp. unfold TryStealing, pess_owners, TryStealingExpiredTransactionLocks.
  destruct (ow_expirable o !! i) as [a|] eqn:Ee; [|split; [done|]; intros _ a t _ _ _ E; congruence].
  destruct (Ho i Hin) as (b & t & Hb & Eid & Hle & _ & Hx). destruct (Hx a Ee) as [-> Hpos]. rewrite Hb.
  unfold TryStealingLocks, update_state. case_bool_decide as Hs.
  - split.
    + split; cbn; [done | done |]. intros c. destruct (decide (c = b)) as [->|Hc]; [|left; by rewrite lookup_insert_ne].
      right. exists t. rewrite lookup_insert_eq. split_and!; [done | done | | done]. unfold loser. rewrite Eid. split_and!; [done | done | done | lia].
    + intros _ c u Hc _ _ [= <-]. cbn. exists (stolen_txn t). by rewrite lookup_insert_eq.
  - split; [|done]. split; cbn; [done | done |]. intros c. left. by rewrite insert_id.
Qed.

Lemma asks_stole now id info (o o' : Owners) : owned o info -> asks now id (Some info) o o' -> stole (loser now id info) o o'.
Proof.
  intros Ho Ha. induction Ha as [o|o o1 o2 (info' & [= <-] & i & Hi & Hne & Ht & ->) _ IH]; [done|].
  pose proof (TryStealing_effect now id info i o Ho Hi Hne Ht) as He. destruct (TryStealing i o) as [s o1]. destruct He as [He _]. cbn [snd] in IH.
  etransitivity; [exact He|]. apply IH. by eapply stole_owned.
Qed.

Lemma yields_stole now id info ids (o o' : Owners) :
  owned o info -> (forall i, i ∈ ids -> i ∈ li_txn_ids info) -> li_expiration_time info <= now -> yields id ids o o' ->
  stole (loser now id info) o o' /\
  forall a t, ow_transactions o !! a = Some t -> txn_id t ∈ ids -> txn_id t <> id -> 0 < expiration_time t ->
    ow_expirable o !! txn_id t = Some a -> exists t', ow_transactions o' !! a = Some t' /\ state t' = LOCKS_STOLEN.
Proof.
  intros Ho Hin Ht Hy. induction Hy as [o|ids o o' Hy IH|i ids o o1 o' Hne Hs Hy IH].
  - split; [done|]. by intros a t _ ?%not_elem_of_nil.
  - destruct IH as [IH1 IH2]; [done | intros j Hj; apply Hin; by right |]. split; [done|].
    intros a t Ha [Hi|Hi]%elem_of_cons; [done|]. by apply IH2.
  - pose proof (TryStealing_effect now id info i o Ho ltac:(apply Hin; by left) Hne ltac:(by right)) as He. rewrite Hs in He.
    destruct He as [He1 He2]. destruct IH as [IH1 IH2]; [by eapply stole_owned | intros j Hj; apply Hin; by right |].
    split; [by etransitivity|]. intros a t Ha Hi Hne' Hpos Hex. apply elem_of_cons in Hi as [Hi|Hi].
    + rewrite Hi in Hex. destruct (He2 eq_refl a t Ha Hi Hpos Hex) as (t1 & Ht1 & Hs1).
      destruct (stole_lookup _ _ _ _ _ IH1 Ht1) as (t2 & Ht2 & _ & _ & Hk). exists t2. auto.
    + destruct (stole_lookup _ _ _ _ _ He1 Ha) as (t1 & Ht1 & Ei & Ex & _). apply (IH2 a t1); rewrite ?Ei, ?Ex, ?(st_expirable _ _ _ He1); done.
Qed.

(** ** Keys that are held *)

(** A transaction that still has its locks. *)
Definition active (t : PessimisticTransaction) : Prop := state t = STARTED \/ state t = AWAITING_COMMIT.

Lemma stolen_not_active t : state t = LOCKS_STOLEN -> ~ active t.
Proof. unfold active. intros -> [|]; done. Qed.

Section held.
Context {E F T : Type}.
#[local] Abbreviation PDB := (PessimisticTransactionDB (E := E) (F := F) (T := T)).

(** [hd a c k ex]: the transaction at [a] has locked key [k] of family [c]. *)
Abbreviation holding := (nat -> Z -> bytes -> bool -> Prop).

Definition also (hd : holding) (a : nat) (c : Z) (k : bytes) (ex : bool) : holding :=
  fun b c' k' ex' => hd b c' k' ex' \/ (b = a /\ c' = c /\ k' = k /\ ex' = ex).

(** [id] is one of the holders of lock [info] of [k] in [c]. *)
Definition holder_ok (ts : gmap nat PessimisticTransaction) (hd : holding) (c : Z) (k : bytes) (info : LockInfo) (id : Z) : Prop :=
  exists a t, ts !! a = Some t /\ txn_id t = id /\ (exists ex, hd a c k ex) /\ expiration_time t <= li_expiration_time info /\
    (li_exclusive info = true -> li_expiration_time info = expiration_time t).

(** Transaction [t] is a holder of the lock of [k] in [c]. *)
Definition has_lock (g : TransactionLockMgr) (c : Z) (k : bytes) (ex : bool) (t : PessimisticTransaction) : Prop :=
  exists am info, lock_maps_ g !! c = Some am /\ lock_at g am k = Some info /\ txn_id t ∈ li_txn_ids info /\
    (ex = true -> li_exclusive info = true).

Record held_ok (d : PDB) (hd : holding) : Prop := {
  ho_caches : caches_ok (lock_mgr_ d);
  ho_inj : forall c c' am, lock_maps_ (lock_mgr_ d) !! c = Some am -> lock_maps_ (lock_mgr_ d) !! c' = Some am -> c = c';
  ho_known : forall am k info, lock_at (lock_mgr_ d) am k = Some info -> exists c, lock_maps_ (lock_mgr_ d) !! c = Some am;
  ho_map : forall a c k ex, hd a c k ex -> is_Some (lock_maps_ (lock_mgr_ d) !! c);
  ho_ids : forall a t, transactions d !! a = Some t -> txn_id t < next_txn_id_ d;
  ho_expirable : forall a t, transactions d !! a = Some t -> 0 < expiration_time t -> expirable_txns_ d !! txn_id t = Some a;
  ho_pointed : forall id b, expirable_txns_ d !! id = Some b -> id < next_txn_id_ d /\
    forall a t, transactions d !! a = Some t -> txn_id t = id -> b = a /\ 0 < expiration_time t;
  ho_holders : forall c am k info, lock_maps_ (lock_mgr_ d) !! c = Some am -> lock_at (lock_mgr_ d) am k = Some info ->
    NoDup (li_txn_ids info) /\ forall id, id ∈ li_txn_ids info -> holder_ok (transactions d) hd c k info id;
  ho_locked : forall a t c k ex, transactions d !! a = Some t -> active t -> hd a c k ex -> ex = true \/ 0 < expiration_time t ->
    has_lock (lock_mgr_ d) c k ex t;
}.

(** Holding the same keys, at most in the same ways, is enough. *)
Lemma held_ok_sub d hd hd' :
  (forall a c k ex, hd' a c k ex -> hd a c k ex) -> (forall a c k ex, hd a c k ex -> exists ex', hd' a c k ex') ->
  held_ok d hd -> held_ok d hd'.
Proof.
  intros Hs Hx [H1 H2 H3 H4 H5 H6 H7 H8 H9]. split; try done.
  - intros a c k ex Hh%Hs. by eapply H4.
  - intros c am k info Hm Hl. destruct (H8 c am k info Hm Hl) as [Hn Hi]. split; [done|].
    intros id Hid. destruct (Hi id Hid) as (a & t & Ha & Ei & (ex & Hh) & Hr). exists a, t. split_and!; [done | done | by eapply Hx | apply Hr..].
  - intros a t c k ex Ha Hact Hh%Hs. by eapply H9.
Qed.

(** Different transactions have different ids. *)
Definition ids_differ (ts : gmap nat PessimisticTransaction) : Prop :=
  forall a b t u, ts !! a = Some t -> ts !! b = Some u -> txn_id t = txn_id u -> a = b.

Lemma held_owned d hd c am k info :
  held_ok d hd -> lock_maps_ (lock_mgr_ d) !! c = Some am -> lock_at (lock_mgr_ d) am k = Some info -> owned (owners_of d) info.
Proof.
  intros Hd Hm Hl id Hid. destruct (ho_holders _ _ Hd c am k info Hm Hl) as [_ Hh].
  destruct (Hh id Hid) as (a & t & Ha & <- & _ & Hle & _). exists a, t. split_and!; [done | done | done | |].
  - by apply (ho_expirable _ _ Hd).
  - intros b Hb. destruct (ho_pointed _ _ Hd _ _ Hb) as [_ H]. by apply (H a t).
Qed.

(** ** A request *)

(** Some transactions but [a] have lost their locks, being expired at [now];
    [a] waits for something else. *)
Record moved (now : Z) (a : nat) (d d' : PDB) : Prop := {
  mv_others : forall b, b <> a -> transactions d' !! b = transactions d !! b \/
    exists t, transactions d !! b = Some t /\ state t = STARTED /\ 0 < expiration_time t <= now /\ transactions d' !! b = Some (stolen_txn t);
  mv_self : exists t l, transactions d !! a = Some t /\ same_locker (locker t) l /\ transactions d' !! a = Some (set_locker l t);
  mv_next : next_txn_id_ d' = next_txn_id_ d;
  mv_expirable : expirable_txns_ d' = expirable_txns_ d;
  mv_names : txns_ d' = txns_ d;
  mv_db : db_ d' = db_ d;
  mv_options : options_ d' = options_ d;
}.

(** What a move leaves of a transaction. *)
Lemma moved_back now a d d' b t' :
  moved now a d d' -> transactions d' !! b = Some t' ->
  exists t, transactions d !! b = Some t /\ txn_id t' = txn_id t /\ expiration_time t' = expiration_time t /\
    txn_keys_ (base_ t') = txn_keys_ (base_ t) /\ (active t' -> base_ t' = base_ t).
Proof.
  intros [H1 (t & l & Ha & Hl & Ha') _ _ _ _ _] Hb. destruct (decide (b = a)) as [->|Hne].
  - exists t. rewrite Ha' in Hb. injection Hb as <-. destruct Hl as (E1 & _ & E2 & _). split_and!; try done.
  - destruct (H1 b Hne) as [Eb|(u & Hu & Hs & _ & Eb)]; [exists t'; by rewrite <- Eb|].
    exists u. rewrite Eb in Hb. injection Hb as <-. split_and!; try done. intros Hact. by destruct (stolen_not_active (stolen_txn u) eq_refl Hact).
Qed.

Lemma moved_forth now a d d' b t :
  moved now a d d' -> transactions d !! b = Some t ->
  exists t', transactions d' !! b = Some t' /\ txn_id t' = txn_id t /\ expiration_time t' = expiration_time t.
Proof.
  intros [H1 (u & l & Ha & Hl & Ha') _ _ _ _ _] Hb. destruct (decide (b = a)) as [->|Hne].
  - exists (set_locker l u). assert (u = t) as -> by congruence. destruct Hl as (E1 & _ & E2 & _). done.
  - destruct (H1 b Hne) as [Eb|(u' & Hu & Hs & _ & Eb)]; [exists t; by rewrite Eb|].
    exists (stolen_txn u'). assert (u' = t) as -> by congruence. done.
Qed.

Lemma moved_ids now a d d' : moved now a d d' -> ids_differ (transactions d) -> ids_differ (transactions d').
Proof.
  intros Hm Hd b b' t u Hb Hb' Eid. destruct (moved_back _ _ _ _ _ _ Hm Hb) as (t0 & H0 & E0 & _), (moved_back _ _ _ _ _ _ Hm Hb') as (u0 & H1 & E1 & _).
  apply (Hd b b' t0 u0); [done | done | congruence].
Qed.

(** [with_owners] behind some stealing. *)
Lemma with_owners_moved P now a t l g (o : Owners) d d' :
  transactions d !! a = Some t -> same_locker (locker t) l -> stole P (owners_of d) o ->
  (forall b u, transactions d !! b = Some u -> P u -> b <> a /\ 0 < expiration_time u <= now) ->
  with_owners a l g o d = Done d' -> moved now a d d' /\ lock_mgr_ d' = g.
Proof.
  intros Ha Hl [S1 S2 S3] Hp. unfold with_owners. rewrite S2. cbn [owners_of ow_dangling].
  assert (Eo : ow_transactions o !! a = Some t).
  { destruct (S3 a) as [Ea|(u & Hu & _ & Hpu & _)]; [by rewrite Ea|]. by destruct (Hp a u Hu Hpu). }
  rewrite Eo. cbn [ofopt obind]. intros [= <-]. split; [|done]. split; cbn; try done.
  - intros b Hne. rewrite lookup_insert_ne by done. destruct (S3 b) as [Eb|(u & Hu & Hs & Hpu & Eb)]; [by left|].
    right. exists u. split_and!; try done. all: by apply (Hp b u).
  - exists t, l. by rewrite lookup_insert_eq.
Qed.

(** What is left of [held_ok] when some locks have been taken away and the
    locks of the manager are still to be looked at. *)
Lemma held_moved now a d d' hd hd' :
  ids_differ (transactions d) -> held_ok d hd -> moved now a d d' -> lock_maps_ (lock_mgr_ d') = lock_maps_ (lock_mgr_ d) ->
  caches_ok (lock_mgr_ d') ->
  (forall am k info, lock_at (lock_mgr_ d') am k = Some info -> exists c, lock_maps_ (lock_mgr_ d') !! c = Some am) ->
  (forall b c k ex, hd' b c k ex -> is_Some (lock_maps_ (lock_mgr_ d) !! c)) ->
  (forall c am k info, lock_maps_ (lock_mgr_ d) !! c = Some am -> lock_at (lock_mgr_ d') am k = Some info ->
    NoDup (li_txn_ids info) /\ forall id, id ∈ li_txn_ids info -> holder_ok (transactions d) hd' c k info id) ->
  (forall b t c k ex, transactions d !! b = Some t -> active t -> (b <> a -> transactions d' !! b = Some t) ->
    hd' b c k ex -> ex = true \/ 0 < expiration_time t -> has_lock (lock_mgr_ d') c k ex t) ->
  held_ok d' hd'.
Proof.
  intros Hids Hd Hm Emaps Hc Hknown Hmap Hh Hl. destruct Hd as [_ H2 _ _ H5 H6 H7 _ _]. split; try done.
  - rewrite Emaps. exact H2.
  - intros b c k ex Hb. rewrite Emaps. by eapply Hmap.
  - intros b t' Hb. destruct (moved_back _ _ _ _ _ _ Hm Hb) as (t & Ht & -> & _). rewrite (mv_next _ _ _ _ Hm). by apply (H5 b).
  - intros b t' Hb. destruct (moved_back _ _ _ _ _ _ Hm Hb) as (t & Ht & -> & -> & _). rewrite (mv_expirable _ _ _ _ Hm). by apply H6.
  - intros id b. rewrite (mv_expirable _ _ _ _ Hm), (mv_next _ _ _ _ Hm). intros Hi. destruct (H7 id b Hi) as [Hlt Hp]. split; [done|].
    intros b' t' Hb' E1. destruct (moved_back _ _ _ _ _ _ Hm Hb') as (t & Ht & E2 & -> & _). apply (Hp b' t); [done | congruence].
  - intros c am k info Hcm Hk. rewrite Emaps in Hcm. destruct (Hh c am k info Hcm Hk) as [Hn Hx]. split; [done|]. intros id Hid.
    destruct (Hx id Hid) as (b & t & Hb & Ei & Hhd & Hle & He). destruct (moved_forth _ _ _ _ _ _ Hm Hb) as (t' & Hb' & Ei' & Ex').
    exists b, t'. rewrite Ex'. split_and!; [done | congruence | done..].
  - intros b t' c k ex Hb Hact Hhd Hp. destruct (moved_back _ _ _ _ _ _ Hm Hb) as (t & Ht & Ei & Ex & _ & Hbase).
    assert (Hact0 : active t) by (specialize (Hbase Hact); unfold active, state in *; by rewrite <- Hbase).
    rewrite Ex in Hp. destruct (Hl b t c k ex Ht Hact0) as (am & info & R); [ | done | done | exists am, info; by rewrite Ei].
    intros Hne. destruct (mv_others _ _ _ _ Hm b Hne) as [Eb|(u & Hu & _ & _ & Eb)]; [congruence|].
    exfalso. rewrite Eb in Hb. injection Hb as <-. by apply (stolen_not_active (stolen_txn u) eq_refl).
Qed.

Lemma holder_also ts (hd : holding) a c' k' ex c k info id : holder_ok ts hd c k info id -> holder_ok ts (also hd a c' k' ex) c k info id.
Proof. intros (b & t & Hb & Ei & (x & Hx) & Hr). exists b, t. split_and!; [done | done | exists x; by left | apply Hr..]. Qed.

(** Some of the transactions that may lose lock [old] have lost their locks. *)
Definition may_lose (now id : Z) (old : option LockInfo) (t : PessimisticTransaction) : Prop :=
  exists info, old = Some info /\ loser now id info t.

Lemma requested_stole now id want rs c am k g (o : Owners) d hd :
  held_ok d hd -> lock_maps_ (lock_mgr_ d) !! c = Some am ->
  requested now id am k want rs (lock_mgr_ d) g (owners_of d) o -> stole (may_lose now id (lock_at (lock_mgr_ d) am k)) (owners_of d) o.
Proof.
  intros Hd Hm [_ _ _ (o1 & Ha & Hr)]. destruct (lock_at (lock_mgr_ d) am k) as [info|] eqn:El.
  - pose proof (held_owned d hd c am k info Hd Hm El) as Ho. pose proof (asks_stole _ _ _ _ _ Ho Ha) as Hs1.
    assert (Hw : forall o o', stole (loser now id info) o o' -> stole (may_lose now id (Some info)) o o').
    { intros p p' [S1 S2 S3]. split; [done | done |]. intros b. destruct (S3 b) as [|(t & H1 & H2 & H3 & H4)]; [by left|].
      right. exists t. split_and!; [done | done | by exists info | done]. }
    apply Hw. destruct (ok rs); [|by destruct Hr as [_ ->]]. inversion Hr; subst; try done.
    etransitivity; [exact Hs1|]. eapply yields_stole; [by eapply stole_owned | done | lia | done].
  - assert (o1 = owners_of d) as ->.
    { clear -Ha. remember (owners_of d) as o0 eqn:Eo. clear Eo. inversion Ha as [|? ? ? (i & Hi & _)]; [done | discriminate Hi]. }
    destruct (ok rs); [by inversion Hr | by destruct Hr as [_ ->]].
Qed.

(** The lock that [a] has won. *)
Lemma won_held now a t c k ex am l g (o1 o : Owners) d d' hd new :
  ids_differ (transactions d) -> held_ok d hd -> transactions d !! a = Some t -> lock_maps_ (lock_mgr_ d) !! c = Some am ->
  (forall x, hd a c k x -> x = false /\ ex = true) -> mgr_ok (lock_mgr_ d) ->
  stole (may_lose now (txn_id t) (lock_at (lock_mgr_ d) am k)) (owners_of d) o1 ->
  won now (txn_id t) (NewLockInfo (txn_id t) (expiration_time t) ex) (lock_at (lock_mgr_ d) am k) new o1 o ->
  with_owners a l g o d = Done d' ->
  exists info, new = Some info /\
    NoDup (li_txn_ids info) /\ (forall id, id ∈ li_txn_ids info -> holder_ok (transactions d) (also hd a c k ex) c k info id) /\
    txn_id t ∈ li_txn_ids info /\ (ex = true -> li_exclusive info = true) /\
    forall b u x, transactions d !! b = Some u -> active u -> b <> a -> transactions d' !! b = Some u -> hd b c k x ->
      x = true \/ 0 < expiration_time u -> txn_id u ∈ li_txn_ids info /\ (x = true -> li_exclusive info = true).
Proof.
  intros Hids Hd Ha Hm Hfree Hmgr Hst Hw Ed. set (id := txn_id t) in *. set (want := NewLockInfo id (expiration_time t) ex) in *.
  assert (Hme : forall info, expiration_time t <= li_expiration_time info ->
    (li_exclusive info = true -> li_expiration_time info = expiration_time t) -> holder_ok (transactions d) (also hd a c k ex) c k info id).
  { intros info H1 H2. exists a, t. split_and!; [done | done | exists ex; right; done | done | done]. }
  assert (Hlocked : forall b u x, transactions d !! b = Some u -> active u -> hd b c k x -> x = true \/ 0 < expiration_time u ->
    exists info, lock_at (lock_mgr_ d) am k = Some info /\ txn_id u ∈ li_txn_ids info /\ (x = true -> li_exclusive info = true)).
  { intros b u x Hb Hact Hx Hp. destruct (ho_locked _ _ Hd b u c k x Hb Hact Hx Hp) as (am' & info & Hm' & Hl & Hr).
    rewrite Hm in Hm'. injection Hm' as <-. by exists info. }
  assert (Hold : forall info, lock_at (lock_mgr_ d) am k = Some info -> NoDup (li_txn_ids info) /\
    forall i, i ∈ li_txn_ids info -> holder_ok (transactions d) hd c k info i) by (intros info; by apply (ho_holders _ _ Hd)).
  inversion Hw as [p Eo En|info p Ei Hx Eo En|info p Hx Hx' Eo En|info p q Hne Ht Hy Eo En]; subst; rewrite <- Eo in *.
  - exists want. split_and!; [done | apply NoDup_singleton | | by left | done |].
    + intros i ->%list_elem_of_singleton. apply Hme; cbn; [lia | done].
    + intros b u x Hb Hact _ _ Hhd Hp. by destruct (Hlocked b u x Hb Hact Hhd Hp) as (info & [=] & _).
  - eexists. split; [done|]. cbn [li_txn_ids li_exclusive li_expiration_time]. split_and!; [apply NoDup_singleton | | by left | done |].
    + intros i ->%list_elem_of_singleton. apply Hme; cbn; [lia | done].
    + intros b u x Hb Hact Hne _ Hhd Hp. destruct (Hlocked b u x Hb Hact Hhd Hp) as (info' & [= <-] & Hi & _).
      rewrite Ei in Hi. apply list_elem_of_singleton in Hi. by destruct (Hne (Hids b a u t Hb Ha Hi)).
  - eexists. split; [done|]. cbn [li_txn_ids li_exclusive li_expiration_time]. destruct (Hold info eq_refl) as [Hn Hh].
    assert (Hni : id ∉ li_txn_ids info).
    { intros Hi. destruct (Hh id Hi) as (b & u & Hb & Eu & (x & Hx0) & _). assert (b = a) as -> by (by apply (Hids b a u t)).
      destruct (Hfree x Hx0) as [_ Hex]. cbn in Hx'. congruence. }
    split_and!.
    + apply NoDup_app. split_and!; [done | by intros i Hi ->%list_elem_of_singleton | apply NoDup_singleton].
    + intros i [Hi| ->%list_elem_of_singleton]%elem_of_app; [|apply Hme; cbn; [lia | done]].
      apply holder_also. destruct (Hh i Hi) as (b & u & Hb & Eu & Hhd & Hle & _). exists b, u. split_and!; [done..| cbn; lia | done].
    + apply elem_of_app. right. by left.
    + intros Hex. cbn in Hx'. congruence.
    + intros b u x Hb Hact Hne _ Hhd Hp. destruct (Hlocked b u x Hb Hact Hhd Hp) as (info' & [= <-] & Hi & He).
      split; [apply elem_of_app; by left|]. intros Ex. specialize (He Ex). congruence.
  - exists want. split_and!; [done | apply NoDup_singleton | | by left | done |].
    + intros i ->%list_elem_of_singleton. apply Hme; cbn; [lia | done].
    + intros b u x Hb Hact Hba Hb' Hhd Hp. exfalso. destruct (Hlocked b u x Hb Hact Hhd Hp) as (info' & [= <-] & Hi & He).
      assert (Hui : txn_id u <> id) by (intros Eu; apply Hba; by apply (Hids b a u t)).
      pose proof (held_owned d hd c am k info Hd Hm (eq_sym Eo)) as Hown.
      assert (Hpos : 0 < expiration_time u).
      { destruct Hp as [->|]; [|done]. destruct (Hold info eq_refl) as [_ Hh]. destruct (Hh _ Hi) as (b2 & u2 & Hb2 & Eu2 & _ & _ & Hex).
        assert (b2 = b) as -> by (by apply (Hids b2 b u2 u)). assert (u2 = u) as -> by congruence. rewrite <- (Hex (He eq_refl)). lia. }
      destruct (stole_lookup _ _ _ b u Hst Hb) as (u1 & Hu1 & Ei1 & Ex1 & _).
      destruct (yields_stole now id info (li_txn_ids info) o1 o) as [Hs2 Hy2]; [by eapply stole_owned | done | lia | done |].
      destruct (Hy2 b u1 Hu1) as (u2 & Hu2 & Hs3); rewrite ?Ei1, ?Ex1, ?(st_expirable _ _ _ Hst); try done.
      { by apply (ho_expirable _ _ Hd). }
      revert Ed. unfold with_owners. destruct (ow_dangling o); [done|]. destruct (ow_transactions o !! a) as [ta|]; cbn [ofopt obind]; [|done].
      intros [= <-]. cbn in Hb'. rewrite lookup_insert_ne in Hb' by congruence. assert (u2 = u) as -> by congruence.
      by apply (stolen_not_active u).
Qed.

(** The lock of another key is what it was. *)
Lemma other_place d hd c am k g c' am' k' :
  held_ok d hd -> lock_maps_ (lock_mgr_ d) !! c = Some am -> lock_maps_ (lock_mgr_ d) !! c' = Some am' -> (c', k') <> (c, k) ->
  (forall b k0, (b, k0) <> (am, k) -> lock_at g b k0 = lock_at (lock_mgr_ d) b k0) -> lock_at g am' k' = lock_at (lock_mgr_ d) am' k'.
Proof.
  intros Hd Hc Hc' Hne Ho. apply Ho. intros [= -> ->]. apply Hne. f_equal. by apply (ho_inj _ _ Hd c' c am).
Qed.

(** A request keeps [held_ok]; when it succeeds its key is held. *)
Lemma request_held now a t c k ex am rs l g (o : Owners) d d' hd :
  mgr_ok (lock_mgr_ d) -> ids_differ (transactions d) -> held_ok d hd -> transactions d !! a = Some t ->
  lock_maps_ (lock_mgr_ d) !! c = Some am -> (forall x, hd a c k x -> x = false /\ ex = true) ->
  requested now (txn_id t) am k (NewLockInfo (txn_id t) (expiration_time t) ex) rs (lock_mgr_ d) g (owners_of d) o ->
  same_locker (locker t) l -> with_owners a l g o d = Done d' ->
  moved now a d d' /\ lock_mgr_ d' = g /\ held_ok d' (if ok rs then also hd a c k ex else hd).
Proof.
  intros Hmgr Hids Hd Ha Hm Hfree Hreq Hl Ed. pose proof (requested_stole _ _ _ _ _ _ _ _ _ _ _ Hd Hm Hreq) as Hst.
  destruct (with_owners_moved _ now a t l g o d d' Ha Hl Hst) as [Hmv Eg]; [|exact Ed|].
  { intros b u Hb (info & _ & Hi & Hne & Ht). split; [|done]. intros ->. apply Hne. congruence. }
  split; [done|]. split; [done|]. pose proof Hreq as [Hoth Emaps Hcache (o1 & Has & Hr)].
  assert (Hst1 : stole (may_lose now (txn_id t) (lock_at (lock_mgr_ d) am k)) (owners_of d) o1).
  { eapply (requested_stole now (txn_id t) (NewLockInfo 0 0 false) kTimeout c am k (lock_mgr_ d)); [done | done |]. split; [done..|]. exists o1. by split. }
  assert (Hkeep : forall am' k', lock_at (lock_mgr_ d) am' k' <> None \/ ok rs = false \/ (am', k') <> (am, k) ->
    forall info, lock_at g am' k' = Some info -> exists c, lock_maps_ (lock_mgr_ d) !! c = Some am').
  { intros am' k' Hc info Hi. destruct (lock_at (lock_mgr_ d) am' k') as [info0|] eqn:E0; [by eapply (ho_known _ _ Hd)|].
    destruct Hc as [Hc|[Hc|Hc]]; [done | | rewrite Hoth in Hi by done; congruence].
    rewrite Hc in Hr. destruct Hr as [Hr _]. destruct (decide ((am', k') = (am, k))) as [[= -> ->]|Hne]; [congruence | rewrite Hoth in Hi by done; congruence]. }
  set (hd' := if ok rs then also hd a c k ex else hd).
  assert (Hsub : forall b c' k' x, hd b c' k' x -> hd' b c' k' x) by (intros; unfold hd'; destruct (ok rs); [by left | done]).
  assert (Hinv : forall b c' k' x, hd' b c' k' x -> hd b c' k' x \/ (ok rs = true /\ b = a /\ c' = c /\ k' = k /\ x = ex)).
  { unfold hd'. intros b c' k' x Hx. destruct (ok rs); [|by left]. destruct Hx as [|(-> & -> & -> & ->)]; [by left | by right]. }
  assert (Hmono : forall c' k' info id, holder_ok (transactions d) hd c' k' info id -> holder_ok (transactions d) hd' c' k' info id).
  { intros c' k' info id (b & u & Hb & Eu & (x & Hx) & Hrest). exists b, u. split_and!; [done | done | exists x; by apply Hsub | apply Hrest..]. }
  apply (held_moved now a d d' hd hd'); rewrite ?Eg; try done.
  - by apply Hcache, (ho_caches _ _ Hd).
  - intros am' k' info Hi. rewrite Emaps. destruct (decide ((am', k') = (am, k))) as [[= -> ->]|Hne]; [by exists c|].
    apply (Hkeep am' k' ltac:(by right; right) info Hi).
  - intros b c' k' x [Hx|(_ & _ & -> & _)]%Hinv; [by eapply (ho_map _ _ Hd) | by exists am].
  - intros c' am' k' info Hc' Hi. destruct (decide ((c', k') = (c, k))) as [[= -> ->]|Hne].
    + rewrite Hm in Hc'. injection Hc' as <-. destruct (ok rs) eqn:Er; unfold hd'.
      * destruct (won_held now a t c k ex am l g o1 o d d' hd (lock_at g am k)) as (info' & Ei & Hn & Hh & _); try done.
        assert (info' = info) as -> by congruence. done.
      * destruct Hr as [Hr _]. rewrite Hr in Hi. by apply (ho_holders _ _ Hd c am).
    + rewrite (other_place d hd c am k g c' am' k' Hd Hm Hc' Hne Hoth) in Hi. destruct (ho_holders _ _ Hd c' am' k' info Hc' Hi) as [Hn Hh].
      split; [done|]. intros id Hid. by apply Hmono, Hh.
  - intros b u c' k' x Hb Hact Hb' Hx Hp. unfold has_lock. rewrite Emaps. destruct (decide ((c', k') = (c, k))) as [[= -> ->]|Hne].
    + destruct (ok rs) eqn:Er.
      * destruct (won_held now a t c k ex am l g o1 o d d' hd (lock_at g am k)) as (info & Ei & Hn & Hh & Hin & Hex & Hoth'); try done.
        exists am, info. split; [done|]. split; [done|]. destruct (decide (b = a)) as [->|Hba].
        -- assert (u = t) as -> by congruence. split; [done|]. intros ->. apply Hex.
           apply Hinv in Hx as [Hx|(_ & _ & _ & _ & <-)]; [by destruct (Hfree true Hx) | done].
        -- apply Hinv in Hx as [Hx|(_ & -> & _)]; [|done]. by apply (Hoth' b u x Hb Hact Hba (Hb' Hba) Hx Hp).
      * apply Hinv in Hx as [Hx|(? & _)]; [|done]. destruct (ho_locked _ _ Hd b u c k x Hb Hact Hx Hp) as (am' & info & Hm' & Hl' & Hrest).
        rewrite Hm in Hm'. injection Hm' as <-. exists am, info. destruct Hr as [-> _]. done.
    + apply Hinv in Hx as [Hx|(_ & _ & -> & -> & _)]; [|done]. destruct (ho_locked _ _ Hd b u c' k' x Hb Hact Hx Hp) as (am' & info & Hm' & Hl' & Hrest).
      exists am', info. rewrite (other_place d hd c am k g c' am' k' Hd Hm Hm' Hne Hoth). done.
Qed.

(** ** Unlocking *)

Context (order_families : TxnKeyMaps -> list (Z * TxnKeyMap)) (order_keys : TxnKeyMap -> list (bytes * TxnKeyInfo)).
Context (Hfamilies : forall m, order_families m ≡ₚ map_to_list m) (Hkeys : forall m, order_keys m ≡ₚ map_to_list m).

Lemma elem_of_keys_of m c k :
  (exists keys, (c, keys) ∈ keys_of order_families order_keys m /\ k ∈ keys) <-> exists info, tracked m c k info.
Proof.
  unfold keys_of, tracked. split.
  - intros (keys & Hin & Hk). apply list_elem_of_fmap in Hin as ([c' ks] & [= -> ->] & Hin). rewrite Hfamilies in Hin.
    apply elem_of_map_to_list in Hin. apply list_elem_of_fmap in Hk as ([k' info] & -> & Hk). rewrite Hkeys in Hk.
    apply elem_of_map_to_list in Hk. by exists info, ks.
  - intros (info & ks & Hc & Hk). exists (map fst (order_keys ks)). split.
    + apply list_elem_of_fmap. exists (c, ks). split; [done|]. rewrite Hfamilies. by apply elem_of_map_to_list.
    + apply list_elem_of_fmap. exists (k, info). split; [done|]. rewrite Hkeys. by apply elem_of_map_to_list.
Qed.

Definition except (hd : holding) (a : nat) (m : TxnKeyMaps) : holding :=
  fun b c k ex => hd b c k ex /\ ~ (b = a /\ exists info, tracked m c k info).

Lemma moved_refl now a t d d' :
  transactions d !! a = Some t -> transactions d' = transactions d -> next_txn_id_ d' = next_txn_id_ d ->
  expirable_txns_ d' = expirable_txns_ d -> txns_ d' = txns_ d -> db_ d' = db_ d -> options_ d' = options_ d -> moved now a d d'.
Proof.
  intros Ha Ht ? ? ? ? ?. split; try done; rewrite Ht; [by left|]. exists t, (locker t). split_and!; try done. by destruct t.
Qed.

Lemma distinct_held d hd : held_ok d hd -> all_distinct (lock_mgr_ d).
Proof.
  intros Hd b k. destruct (lock_at (lock_mgr_ d) b k) as [info|] eqn:El; [|done].
  destruct (ho_known _ _ Hd b k info El) as [c Hc]. by apply (ho_holders _ _ Hd c b k info).
Qed.

(** Unlocking the keys [m] of [a]. *)
Lemma UnLock_held thread a t m d d' hd :
  mgr_ok (lock_mgr_ d) -> ids_differ (transactions d) -> held_ok d hd -> transactions d !! a = Some t ->
  (forall c keys, m !! c = Some keys -> is_Some (lock_maps_ (lock_mgr_ d) !! c)) ->
  UnLock order_families order_keys thread a m d = Done d' ->
  held_ok d' (except hd a m) /\ d' = set_lock_mgr (lock_mgr_ d') d /\ only_locks (lock_mgr_ d) (lock_mgr_ d') /\
  lock_maps_ (lock_mgr_ d') = lock_maps_ (lock_mgr_ d).
Proof.
  intros Hmgr Hids Hd Ha Hmaps. unfold UnLock, get_txn. rewrite Ha. cbn [ofopt obind].
  destruct (Unlock thread (txn_id t) _ (lock_mgr_ d)) as [g| |] eqn:Eu; cbn [obind]; [|done..]. intros [= <-]. cbn [lock_mgr_ set_lock_mgr].
  destruct (Unlock_frame thread (txn_id t) (keys_of order_families order_keys m) (lock_mgr_ d) g Hmgr (ho_caches _ _ Hd) (distinct_held d hd Hd))
    as (Hul & Hok & Hg & Hw & Hx); [| exact Eu |].
  { apply Forall_forall. intros [c keys] Hin. apply list_elem_of_fmap in Hin as ([c' ks] & [= -> ->] & Hin). rewrite Hfamilies in Hin.
    apply elem_of_map_to_list in Hin. cbn. by eapply Hmaps. }
  split; [|split; [done | split; [by split_and! | apply Hul]]]. pose proof Hul as [Hoth Hlock Em Hc].
  assert (Hplace : forall c am k, lock_maps_ (lock_mgr_ d) !! c = Some am ->
    ((am, k) ∈ places (lock_mgr_ d) (keys_of order_families order_keys m) <-> exists info, tracked m c k info)).
  { intros c am k Hm. rewrite elem_of_places, <- elem_of_keys_of. split.
    - intros (c' & keys & Hin & Hm' & Hk). assert (c' = c) as -> by (by apply (ho_inj _ _ Hd c' c am)). by exists keys.
    - intros (keys & Hin & Hk). by exists c, keys. }
  set (d' := set_lock_mgr g d). assert (Hmv : moved 0 a d d') by (by eapply moved_refl).
  apply (held_moved 0 a d d' hd (except hd a m)); try done.
  - by apply Hc, (ho_caches _ _ Hd).
  - intros am k info Hi. cbn in Hi. cbn. rewrite Em. destruct (lock_at (lock_mgr_ d) am k) as [info0|] eqn:E0; [by apply (ho_known _ _ Hd am k info0)|].
    destruct (decide ((am, k) ∈ places (lock_mgr_ d) (keys_of order_families order_keys m))) as [Hin|Hin].
    + specialize (Hlock am k Hin). by rewrite E0, Hi in Hlock.
    + rewrite Hoth in Hi by done. congruence.
  - intros b c k ex [Hb _]. by eapply (ho_map _ _ Hd).
  - intros c am k info Hm Hi. cbn in Hi. destruct (decide ((am, k) ∈ places (lock_mgr_ d) (keys_of order_families order_keys m))) as [Hin|Hin].
    + specialize (Hlock am k Hin). rewrite Hi in Hlock. destruct (lock_at (lock_mgr_ d) am k) as [info0|] eqn:E0; [|done].
      destruct Hlock as (Hex & Hexp & Hn & Hel). split; [done|]. intros id [Hid Hne]%Hel.
      destruct (ho_holders _ _ Hd c am k info0 Hm E0) as [_ Hh]. destruct (Hh id Hid) as (b & u & Hb & Eu' & (x & Hhd) & Hle & He).
      exists b, u. rewrite Hex, Hexp. split_and!; [done | done | | done | done]. exists x. split; [done|]. intros (-> & _). congruence.
    + rewrite Hoth in Hi by done. destruct (ho_holders _ _ Hd c am k info Hm Hi) as [Hn Hh]. split; [done|]. intros id Hid.
      destruct (Hh id Hid) as (b & u & Hb & Eu' & (x & Hhd) & Hrest). exists b, u. split_and!; [done | done | | apply Hrest..].
      exists x. split; [done|]. intros (_ & Htr). apply Hin. by apply (Hplace c).
  - intros b u c k ex Hb Hact _ [Hhd Hnot] Hp. destruct (ho_locked _ _ Hd b u c k ex Hb Hact Hhd Hp) as (am & info & Hm & Hl & Hin & Hex).
    cbn [lock_mgr_ set_lock_mgr d']. unfold has_lock. rewrite Em.
    destruct (decide ((am, k) ∈ places (lock_mgr_ d) (keys_of order_families order_keys m))) as [Hpl|Hpl].
    + specialize (Hlock am k Hpl). rewrite Hl in Hlock. assert (Hne : txn_id u <> txn_id t).
      { intros Ei. apply Hnot. split; [by apply (Hids b a u t) | by apply (Hplace c am)]. }
      destruct (lock_at g am k) as [info'|] eqn:El'; [|exfalso; by apply Hne, Hlock]. destruct Hlock as (E1 & E2 & E3 & Hel).
      exists am, info'. split_and!; [done | done | by apply Hel | by rewrite E1].
    + exists am, info. by rewrite Hoth.
Qed.

(** ** Exclusion *)

Lemma lock_at_ok g am k info : mgr_ok g -> lock_at g am k = Some info -> lock_ok info.
Proof.
  intros Hok Hl. unfold lock_at, lock_of in Hl.
  destruct (lock_map_store g !! am) as [m|] eqn:Hm; [|done]. destruct (GetStripe k m) as [i| |]; [|done..].
  pose proof (Forall_lookup_1 _ _ _ _ (mg_maps _ Hok) Hm) as Hmok.
  destruct (lock_map_stripes m !! i) as [keys|] eqn:Hk; cbn in Hl; [|by rewrite lookup_empty in Hl].
  by apply (map_Forall_lookup_1 _ _ _ _ (mo_stripes _ Hmok i keys Hk) Hl).
Qed.

(** Two that hold the same key, one of them exclusively, are the same. *)
Lemma held_exclusively d hd a b t u c k x :
  mgr_ok (lock_mgr_ d) -> ids_differ (transactions d) -> held_ok d hd ->
  transactions d !! a = Some t -> active t -> hd a c k true ->
  transactions d !! b = Some u -> active u -> hd b c k x -> x = true \/ 0 < expiration_time u -> a = b.
Proof.
  intros Hmgr Hids Hd Ha Hact Hhd Hb Hactb Hhdb Hp.
  destruct (ho_locked _ _ Hd a t c k true Ha Hact Hhd ltac:(by left)) as (am & info & Hm & Hl & Hin & Hex).
  destruct (ho_locked _ _ Hd b u c k x Hb Hactb Hhdb Hp) as (am' & info' & Hm' & Hl' & Hin' & _).
  assert (am' = am) as -> by congruence. assert (info' = info) as -> by congruence.
  destruct (lock_at_ok _ _ _ _ Hmgr Hl) as [_ Hone]. specialize (Hone (Hex eq_refl)).
  destruct (li_txn_ids info) as [|i [|]]; [done | | done]. apply list_elem_of_singleton in Hin, Hin'. apply (Hids a b t u); congruence.
Qed.
End held.
