(* ===== verification/PessSteps.v ===== *)
(** * PessSteps

    Pessimistic transactions that run at the same time, as a step relation over
    the operations of [PessTxn].  A look-up that waits ends its step, a commit
    takes three (the state is set, the batch is written, the locks are given
    back), and between any two of them all others may move: lock, wait, read,
    write, take locks of expired transactions away, begin and end; the
    background work may change the files.  [Get] behind the lock and the update
    of the batch behind the lock are steps of their own; unlocking is one step
    (giving a lock back earlier or later cannot be told apart by its owner).

    The steps keep to a discipline that the code neither states nor enforces
    ([PessSafe] has what goes wrong without it):
    - a transaction is begun again ([Reinitialize]: [step_again]), has its lock
      timeout set ([step_timeout]) or is given a batch ([CommitBatch], also behind
      [Write] of the database: [step_batch]) only while it holds no key;
    - an update is made while an exclusive lock of its key is held
      ([step_update]);
    - the reads that are kept account of ([step_read]) are of keys that the
      transaction has not updated itself, under a lock that is exclusive or
      belongs to a transaction that expires ([protected]);
    - a request that waits is woken by a notification or by its deadline;
    - column families are neither created nor dropped, and handles are of
      families of the database;
    - all writes come from transactions of the system; the background work
      changes files only, and leaves records and versions as they are
      ([step_background]).

    In every state that is reached under it, two transactions that still have
    their locks never hold a key that one of them holds exclusively
    ([exclusive_keys]); what a transaction has read under a protected lock is
    still so when it writes ([pess_Commit_serializes]). *)

From stdpp Require Import relations.
From S2P Require Import Prelude Slice Keys Entries IO SkipList WriteBatch BatchIndex WAL Version VersionSet MemoryTable DBImpl DBSpec TxnWait TxnLock TxnSteps LockFrame Txn PessTxn PessLocks.

(** ** The system *)

(** Where a transaction is. *)
Inductive phase :=
  | Idle
  | Locking (cv : option Z) (q : Acquiring) (j : job)
  | Writing
  | Clearing (rs : error)
  | Batching (os : list op) (cv : option Z) (q : Acquiring) (cfid : Z) (key : bytes) (todo : list (Z * bytes)) (keys : TxnKeyMaps)
  | Batched (os : list op) (keys : TxnKeyMaps).

(** The updates a transaction has made and the reads under its locks: the
    family, the key and the answer. *)
Record client := mkClient { c_ops : list op; c_reads : list (nat * bytes * (error + option bytes)); c_phase : phase }.

Definition idle_client (os : list op) (rs : list (nat * bytes * (error + option bytes))) : client := mkClient os rs Idle.

(** The keys that [CommitBatch] has locked. *)
Definition batch_keys (p : phase) : TxnKeyMaps :=
  match p with Batching _ _ _ _ _ _ keys => keys | Batched _ keys => keys | _ => ∅ end.

(** What a transaction waits for. *)
Definition acq_of (cl : client) : option (option Z * Acquiring) :=
  match c_phase cl with
  | Locking cv q _ => Some (cv, q)
  | Batching _ cv q _ _ _ _ => Some (cv, q)
  | _ => None
  end.

(** A key that a transaction has locked, for itself or for a batch. *)
Definition locked_key (t : PessimisticTransaction) (p : phase) (c : Z) (k : bytes) (info : TxnKeyInfo) : Prop :=
  tracked (txn_keys_ (base_ t)) c k info \/ tracked (batch_keys p) c k info.

(** A lock that is not lost without the transaction being told. *)
Definition protected (t : PessimisticTransaction) (info : TxnKeyInfo) : Prop :=
  ti_exclusive info = true \/ 0 < expiration_time t.

Section steps.
Context {E F T : Type} `{!WritableFile F, !WritableFileLaws F, !ReliableFile F, !EnvOps E F, !EnvReliable E F}.
Context `{!MemTable T, !MemTableLaws T}.
Context (path : bytes) (options : ColumnFamilyOptions) (needs_compaction : Version -> bool).
Context (cache_get : nat -> Z -> bytes -> error + Tag * bytes) (contents : nat -> Z -> list kv).
Context (order_families : TxnKeyMaps -> list (Z * TxnKeyMap)) (order_keys : TxnKeyMap -> list (bytes * TxnKeyInfo)).
Context (Hfamilies : forall m, order_families m ≡ₚ map_to_list m) (Hkeys : forall m, order_keys m ≡ₚ map_to_list m).
Context (comparator : Z -> bytes -> bytes -> Z) (freed : bytes -> option bytes).

#[local] Abbreviation DB := (DBImpl E F T).
#[local] Abbreviation PDB := (PessimisticTransactionDB (E := E) (F := F) (T := T)).
#[local] Abbreviation db_holds := (db_holds cache_get contents).
#[local] Abbreviation last_of db := (last_sequence_number (versions_ db)).
#[local] Abbreviation cfs_of d := (cfs (versions_ (db_ d))).

(** The database with its transactions, the records it holds and what the
    transactions have done. *)
Record system := mkSystem { y_d : PDB; y_hist : history; y_clients : gmap nat client }.

Definition set_client (a : nat) (cl : client) (d : PDB) (y : system) : system := mkSystem d (y_hist y) (<[a := cl]> (y_clients y)).

(** What a write of [os] makes of the records. *)
Definition written (os : list op) (d : PDB) (H : history) : history := abstract_write (cfs_of d) os (last_of (db_ d) + 1) H.

(** The phase behind a reply. *)
Definition replied (r : reply) : phase := match r with Ends _ => Idle | Waits cv q j => Locking cv q j end.
Definition batch_replied (os : list op) (r : batch_reply) : phase :=
  match r with
  | BEnds rs keys => if ok rs then Batched os keys else Idle
  | BWaits cv q cfid key todo keys => Batching os cv q cfid key todo keys
  end.

Inductive step (y : system) : system -> Prop :=
  | step_begin a opts wr_opts now d :
      transactions (y_d y) !! a = None -> is_u 64 (next_txn_id_ (y_d y) + 1) ->
      NewPessimisticTransaction opts wr_opts now a (y_d y) = Done d -> step y (set_client a (idle_client [] []) d y)
  | step_again a cl t opts wr_opts now d :
      y_clients y !! a = Some cl -> c_phase cl = Idle -> transactions (y_d y) !! a = Some t -> txn_keys_ (base_ t) = ∅ ->
      is_u 64 (next_txn_id_ (y_d y) + 1) ->
      pt_Reinitialize opts wr_opts now a (y_d y) = Done d -> step y (set_client a (idle_client [] []) d y)
  | step_timeout a t timeout d :
      y_clients y !! a = Some (idle_client [] []) -> transactions (y_d y) !! a = Some t -> txn_keys_ (base_ t) = ∅ ->
      set_lock_timeout timeout a (y_d y) = Done d -> step y (set_client a (idle_client [] []) d y)
  | step_delete thread a cl d :
      y_clients y !! a = Some cl -> c_phase cl = Idle ->
      DeletePessimisticTransaction order_families order_keys thread a (y_d y) = Done d ->
      step y (mkSystem d (y_hist y) (delete a (y_clients y)))
  | step_name a cl name rs d :
      y_clients y !! a = Some cl -> c_phase cl = Idle -> SetName name a (y_d y) = Done (rs, d) -> step y (set_client a cl d y)
  | step_lock a cl thread free now i f key read_only exclusive validate r d :
      y_clients y !! a = Some cl -> c_phase cl = Idle -> usable (db_ (y_d y)) i f key ->
      pt_TryLock thread free now (mkCFHandle true i) key read_only exclusive validate a (y_d y) = Done (r, d) ->
      step y (set_client a (mkClient (c_ops cl) (c_reads cl) (replied r)) d y)
  | step_wake a cl cv q j now rs r d :
      y_clients y !! a = Some cl -> c_phase cl = Locking cv q j -> rs = kOk \/ rs = kTimeout ->
      TryLock_wake now rs cv q j a (y_d y) = Done (r, d) ->
      step y (set_client a (mkClient (c_ops cl) (c_reads cl) (replied r)) d y)
  | step_update a cl t i f o rand info d :
      y_clients y !! a = Some cl -> c_phase cl = Idle -> transactions (y_d y) !! a = Some t ->
      usable (db_ (y_d y)) i f (op_key o) -> op_cfid o = cf_id f ->
      tracked (txn_keys_ (base_ t)) (op_cfid o) (op_key o) info -> ti_exclusive info = true ->
      update_end comparator kOk (op_flag o) rand (mkCFHandle true i) (op_key o) (op_value o) a (y_d y) = Done (kOk, d) ->
      step y (set_client a (idle_client (c_ops cl ++ [o]) (c_reads cl)) d y)
  | step_read a cl t i f key info x :
      y_clients y !! a = Some cl -> c_phase cl = Idle -> transactions (y_d y) !! a = Some t ->
      usable (db_ (y_d y)) i f key -> tracked (txn_keys_ (base_ t)) (cf_id f) key info -> protected t info ->
      RawGet comparator freed (cf_id f) key (write_batch_ (base_ t)) = Done (inl kNotFound) ->
      pt_Get cache_get comparator freed None (mkCFHandle true i) key a (y_d y) = Done x ->
      step y (set_client a (idle_client (c_ops cl) ((i, key, x) :: c_reads cl)) (y_d y) y)
  | step_rollback thread a cl rs d :
      y_clients y !! a = Some cl -> c_phase cl = Idle ->
      pt_Rollback order_families order_keys thread a (y_d y) = Done (rs, d) ->
      step y (set_client a (if ok rs then idle_client [] [] else cl) d y)
  | step_commit now a cl ready d :
      y_clients y !! a = Some cl -> c_phase cl = Idle -> commit_begin now a (y_d y) = Done (ready, d) ->
      step y (set_client a (mkClient (c_ops cl) (c_reads cl) (if ready : bool then Writing else Idle)) d y)
  | step_write a cl rs d :
      y_clients y !! a = Some cl -> c_phase cl = Writing -> fits (c_ops cl) (db_ (y_d y)) ->
      commit_write path options needs_compaction a (y_d y) = Done (rs, d) ->
      step y (mkSystem d (if ok rs then written (c_ops cl) (y_d y) (y_hist y) else y_hist y)
        (<[a := mkClient (c_ops cl) [] (Clearing rs)]> (y_clients y)))
  | step_clear thread a cl rs d :
      y_clients y !! a = Some cl -> c_phase cl = Clearing rs ->
      commit_end order_families order_keys thread rs a (y_d y) = Done d -> step y (set_client a (idle_client [] []) d y)
  | step_batch a cl t thread free now os r d :
      y_clients y !! a = Some cl -> cl = idle_client [] [] -> transactions (y_d y) !! a = Some t -> txn_keys_ (base_ t) = ∅ ->
      fits os (db_ (y_d y)) ->
      LockBatch order_families order_keys thread free now (batch_of os) a (y_d y) = Done (r, d) ->
      step y (set_client a (mkClient [] [] (batch_replied os r)) d y)
  | step_batch_wake a cl os cv q cfid key todo keys thread free now rs r d :
      y_clients y !! a = Some cl -> c_phase cl = Batching os cv q cfid key todo keys -> rs = kOk \/ rs = kTimeout ->
      lock_keys_wake order_families order_keys thread free now rs a cv q cfid key todo keys (y_d y) = Done (r, d) ->
      step y (set_client a (mkClient [] [] (batch_replied os r)) d y)
  | step_batch_commit a cl os keys thread now rs d :
      y_clients y !! a = Some cl -> c_phase cl = Batched os keys -> fits os (db_ (y_d y)) ->
      commit_batch path options needs_compaction order_families order_keys thread now (batch_of os) keys a (y_d y) = Done (rs, d) ->
      step y (mkSystem d (if ok rs then written os (y_d y) (y_hist y) else y_hist y) (<[a := idle_client [] []]> (y_clients y)))
  | step_background db :
      ready db -> db_holds db (y_hist y) -> last_of db = last_of (db_ (y_d y)) ->
      column_family_impls_ (cfs (versions_ db)) = column_family_impls_ (cfs_of (y_d y)) ->
      default_cfd_ (cfs (versions_ db)) = default_cfd_ (cfs_of (y_d y)) ->
      length (families (cfs (versions_ db))) = length (families (cfs_of (y_d y))) ->
      step y (mkSystem (set_db db (y_d y)) (y_hist y) (y_clients y)).

(** ** The invariant *)

(** The lock manager with the transactions, as a state of [TxnSteps]. *)
Definition lock_system (y : system) : System :=
  mkSys (lock_mgr_ (y_d y)) (owners_of (y_d y)) (locker <$> transactions (y_d y)) (omap acq_of (y_clients y)).

(** Who holds what. *)
Definition held (y : system) (a : nat) (c : Z) (k : bytes) (ex : bool) : Prop :=
  exists t cl info, transactions (y_d y) !! a = Some t /\ y_clients y !! a = Some cl /\
    locked_key t (c_phase cl) c k info /\ ti_exclusive info = ex.

(** A request of [t] for key [k] of family [c] that is going on. *)
Definition wants (lm : gmap Z nat) (t : PessimisticTransaction) (c : Z) (k : bytes) (ex : bool) (q : Acquiring) : Prop :=
  exists am, lm !! c = Some am /\ asks_for am k (NewLockInfo (txn_id t) (expiration_time t) ex) q.

(** A batch of which the keys [todo] are still to be locked. *)
Record batch_todo (s : ColumnFamilySet) (os : list op) (todo : list (Z * bytes)) (keys : TxnKeyMaps) : Prop := {
  bt_once : NoDup todo;
  bt_todo : forall c k, (c, k) ∈ todo -> (forall info, ~ tracked keys c k info) /\ exists i, located s c k i;
  bt_ops : forall o, o ∈ os -> (op_cfid o, op_key o) ∈ todo \/
    exists info, tracked keys (op_cfid o) (op_key o) info /\ ti_exclusive info = true;
}.

Definition phase_ok (lm : gmap Z nat) (s : ColumnFamilySet) (t : PessimisticTransaction) (cl : client) : Prop :=
  match c_phase cl with
  | Idle => True
  | Locking _ q j => wants lm t (j_cfid j) (j_key j) (j_exclusive j) q /\ (exists i, located s (j_cfid j) (j_key j) i) /\
      forall info, tracked (txn_keys_ (base_ t)) (j_cfid j) (j_key j) info -> ti_exclusive info = false /\ j_exclusive j = true
  | Writing => state t = AWAITING_COMMIT
  | Clearing _ => c_reads cl = []
  | Batching os _ q c k todo keys => wants lm t c k true q /\ txn_keys_ (base_ t) = ∅ /\ c_ops cl = [] /\ c_reads cl = [] /\
      batch_todo s os ((c, k) :: todo) keys
  | Batched os keys => txn_keys_ (base_ t) = ∅ /\ c_ops cl = [] /\ c_reads cl = [] /\ batch_todo s os [] keys
  end.

Record client_ok (lm : gmap Z nat) (s : ColumnFamilySet) (H : history) (last : Z) (t : PessimisticTransaction) (cl : client) : Prop := {
  co_batch : wi_batch (write_batch_ (base_ t)) = batch_of (c_ops cl);
  co_some : forall c, txn_keys_ (base_ t) !! c <> Some ∅ /\ batch_keys (c_phase cl) !! c <> Some ∅;
  co_located : forall c k info, locked_key t (c_phase cl) c k info -> exists i, located s c k i;
  co_ops : forall o, o ∈ c_ops cl -> exists info, tracked (txn_keys_ (base_ t)) (op_cfid o) (op_key o) info /\ ti_exclusive info = true;
  co_reads : forall i key x, (i, key, x) ∈ c_reads cl -> exists c info, GetColumnFamily c s = Some i /\
    tracked (txn_keys_ (base_ t)) c key info /\ protected t info /\ (active t -> current_answer H last i key x);
  co_phase : phase_ok lm s t cl;
}.

(** The families are found by their ids, each by one. *)
Record directory_ok (s : ColumnFamilySet) : Prop := {
  dk_default : default_cfd_ s = GetColumnFamily 0 s;
  dk_inj : forall c c' i, GetColumnFamily c s = Some i -> GetColumnFamily c' s = Some i -> c = c';
}.

Record system_ok (y : system) : Prop := {
  yk_locks : sys_ok (lock_system y);
  yk_held : held_ok (y_d y) (held y);
  yk_ready : ready (db_ (y_d y));
  yk_holds : db_holds (db_ (y_d y)) (y_hist y);
  yk_last : is_u 56 (last_of (db_ (y_d y)));
  yk_directory : directory_ok (cfs_of (y_d y));
  yk_clients : forall a cl, y_clients y !! a = Some cl -> exists t, transactions (y_d y) !! a = Some t /\
    client_ok (lock_maps_ (lock_mgr_ (y_d y))) (cfs_of (y_d y)) (y_hist y) (last_of (db_ (y_d y))) t cl;
  yk_all : forall a t, transactions (y_d y) !! a = Some t -> is_Some (y_clients y !! a);
}.

(** ** What is kept *)

Lemma sys_ok_same (s s' : System (U := Owners)) :
  sys_mgr s' = sys_mgr s -> sys_txns s' = sys_txns s -> sys_acq s' = sys_acq s -> sys_ok s -> sys_ok s'.
Proof. intros Em Et Ea [H1 H2 H3 H4 H5]. split; rewrite ?Em, ?Et, ?Ea; done. Qed.

Lemma locker_at y a t : transactions (y_d y) !! a = Some t -> sys_txns (lock_system y) !! a = Some (locker t).
Proof. intros Ha. cbn. by rewrite lookup_fmap, Ha. Qed.

Lemma acq_at y a cl : y_clients y !! a = Some cl -> sys_acq (lock_system y) !! a = acq_of cl.
Proof. intros Ha. cbn. by rewrite lookup_omap, Ha. Qed.

Lemma system_ids y : system_ok y -> ids_differ (transactions (y_d y)).
Proof.
  intros Hok a b t u Ha Hb Eid. apply (so_ids _ (yk_locks _ Hok) a b (locker t) (locker u)); [by apply locker_at.. | done].
Qed.

(** The other transactions are where they were, or have lost their locks. *)
Definition others_kept (a : nat) (d d' : PDB) : Prop :=
  forall b, b <> a -> transactions d' !! b = transactions d !! b \/
    exists t, transactions d !! b = Some t /\ state t = STARTED /\ transactions d' !! b = Some (stolen_txn t).

Lemma moved_others now a d d' : moved now a d d' -> others_kept a d d'.
Proof. intros [H _ _ _ _ _ _] b Hb. destruct (H b Hb) as [|(t & ? & ? & _ & ?)]; [by left | right; by exists t]. Qed.

Lemma put_others a t d d' : transactions d' = <[a := t]> (transactions d) -> others_kept a d d'.
Proof. intros Et b Hb. left. by rewrite Et, lookup_insert_ne. Qed.

Lemma others_trans a d1 d2 d3 : others_kept a d1 d2 -> (forall b, b <> a -> transactions d3 !! b = transactions d2 !! b) -> others_kept a d1 d3.
Proof. intros H12 H23 b Hb. rewrite (H23 b Hb). by apply H12. Qed.

(** What is held after transaction [a] has moved. *)
Lemma held_set y a d cl t b c k ex :
  others_kept a (y_d y) d -> transactions d !! a = Some t ->
  held (set_client a cl d y) b c k ex <->
  b <> a /\ held y b c k ex \/ b = a /\ exists info, locked_key t (c_phase cl) c k info /\ ti_exclusive info = ex.
Proof.
  intros Ho Ha. unfold held. cbn [set_client y_d y_clients]. destruct (decide (b = a)) as [->|Hne].
  - rewrite lookup_insert_eq. split.
    + intros (t' & cl' & info & Ht & [= <-] & Hk & He). right. split; [done|]. exists info. by simplify_eq.
    + intros [[? _]|[_ (info & Hk & He)]]; [done|]. by exists t, cl, info.
  - rewrite lookup_insert_ne by done. split.
    + intros (t' & cl' & info & Ht & Hcl & Hk & He). left. split; [done|]. destruct (Ho b Hne) as [Eb|(u & Hu & _ & Eb)].
      * exists t', cl', info. by rewrite <- Eb.
      * rewrite Eb in Ht. injection Ht as <-. by exists u, cl', info.
    + intros [[_ (t' & cl' & info & Ht & Hcl & Hk & He)]|[? _]]; [|done]. destruct (Ho b Hne) as [Eb|(u & Hu & _ & Eb)].
      * exists t', cl', info. by rewrite Eb.
      * exists (stolen_txn u), cl', info. rewrite Eb. by simplify_eq.
Qed.

Lemma held_at y a t cl c k ex :
  transactions (y_d y) !! a = Some t -> y_clients y !! a = Some cl ->
  held y a c k ex <-> exists info, locked_key t (c_phase cl) c k info /\ ti_exclusive info = ex.
Proof.
  intros Ha Hc. unfold held. split.
  - intros (t' & cl' & info & Ht & Hcl & Hk & He). simplify_eq. by exists info.
  - intros (info & Hk & He). by exists t, cl, info.
Qed.

(** A client beside a step of another. *)
Lemma client_other lm s s' H H' last last' t t' cl :
  t' = t \/ (state t = STARTED /\ t' = stolen_txn t) -> same_directory s s' ->
  (forall i key x, (i, key, x) ∈ c_reads cl -> active t' -> current_answer H last i key x -> current_answer H' last' i key x) ->
  client_ok lm s H last t cl -> client_ok lm s' H' last' t' cl.
Proof.
  intros Ht [Ed El] Hr [C1 C2 C3 C4 C5 C6].
  assert (Eb : base_ t' = base_ t \/ ~ active t') by (destruct Ht as [->|[_ ->]]; [by left | right; by apply stolen_not_active]).
  assert (Hact : active t' -> active t) by (destruct Ht as [->|[_ ->]]; [done | intros Hx; by destruct (stolen_not_active (stolen_txn t) eq_refl)]).
  assert (Ek : txn_keys_ (base_ t') = txn_keys_ (base_ t)) by (by destruct Ht as [->|[_ ->]]).
  assert (Ew : write_batch_ (base_ t') = write_batch_ (base_ t)) by (by destruct Ht as [->|[_ ->]]).
  assert (Ei : txn_id t' = txn_id t /\ expiration_time t' = expiration_time t) by (by destruct Ht as [->|[_ ->]]). destruct Ei as [Ei Ex].
  assert (Hloc : forall c k i, located s c k i -> located s' c k i) by (unfold located, GetColumnFamily; intros *; by rewrite Ed, El).
  split; rewrite ?Ek, ?Ew; try done.
  - unfold locked_key. rewrite Ek. intros c k info Hk. destruct (C3 c k info Hk) as [i Hi]. exists i. by apply Hloc.
  - intros i key x Hx. destruct (C5 i key x Hx) as (c & info & Hc & Htr & Hp & Hcur). exists c, info. unfold GetColumnFamily, protected in *.
    rewrite Ed, Ex. split_and!; try done. intros Ha. apply (Hr i key x Hx Ha). by apply Hcur, Hact.
  - unfold phase_ok in *. destruct (c_phase cl); unfold wants; rewrite ?Ek, ?Ei, ?Ex; try done.
    + destruct C6 as (W1 & (i & W2) & W3). split_and!; [done | exists i; by apply Hloc | done].
    + destruct Ht as [->|[Hs ->]]; [done | congruence].
    + destruct C6 as (W1 & W2 & W3 & W4 & [B1 B2 B3]). split_and!; [done..|]. split; [done | | done].
      intros c k Hck. destruct (B2 c k Hck) as [N (i & Hi)]. split; [done|]. exists i. by apply Hloc.
    + destruct C6 as (W2 & W3 & W4 & [B1 B2 B3]). split_and!; [done..|]. split; [done | | done].
      intros c k Hck. destruct (B2 c k Hck) as [N (i & Hi)]. split; [done|]. exists i. by apply Hloc.
Qed.

Lemma same_directory_refl s : same_directory s s.
Proof. done. Qed.

(** A step of [a] that leaves the database alone. *)
Lemma system_set y a d t cl :
  system_ok y -> others_kept a (y_d y) d -> transactions d !! a = Some t -> db_ d = db_ (y_d y) ->
  lock_maps_ (lock_mgr_ d) = lock_maps_ (lock_mgr_ (y_d y)) ->
  sys_ok (lock_system (set_client a cl d y)) -> held_ok d (held (set_client a cl d y)) ->
  client_ok (lock_maps_ (lock_mgr_ (y_d y))) (cfs_of (y_d y)) (y_hist y) (last_of (db_ (y_d y))) t cl ->
  system_ok (set_client a cl d y).
Proof.
  intros [K1 K2 K3 K4 K5 K6 K7 K8] Ho Ha Edb Elm Hs Hh Hc. split; cbn [set_client y_d y_hist y_clients]; rewrite ?Edb, ?Elm; try done.
  - intros b clb [[<- <-]|[Hne Hb]]%lookup_insert_Some; [by exists t|]. destruct (K7 b clb Hb) as (u & Hu & Hcb).
    destruct (Ho b ltac:(congruence)) as [Eb|(u' & Hu' & Hs' & Eb)].
    + exists u. by rewrite Eb.
    + assert (u' = u) as -> by congruence. exists (stolen_txn u). split; [done|]. eapply client_other; [right; done | done | done | done].
  - intros b u Hb. destruct (decide (b = a)) as [->|Hne]; [by rewrite lookup_insert_eq|]. rewrite lookup_insert_ne by done.
    destruct (Ho b Hne) as [Eb|(u' & Hu' & _)]; [apply (K8 b u); congruence | by apply (K8 b u')].
Qed.

(** The transactions have changed in nothing that the locks depend on. *)
Record same_locking (d d' : PDB) : Prop := {
  sm_mgr : lock_mgr_ d' = lock_mgr_ d;
  sm_next : next_txn_id_ d' = next_txn_id_ d;
  sm_expirable : expirable_txns_ d' = expirable_txns_ d;
  sm_db : db_ d' = db_ d;
  sm_back : forall b u', transactions d' !! b = Some u' -> exists u, transactions d !! b = Some u /\ locker u' = locker u /\ (active u' -> active u);
  sm_forth : forall b u, transactions d !! b = Some u -> exists u', transactions d' !! b = Some u' /\ locker u' = locker u;
}.

Lemma same_locking_put d d' a t t' :
  transactions d !! a = Some t -> transactions d' = <[a := t']> (transactions d) -> locker t' = locker t -> (active t' -> active t) ->
  lock_mgr_ d' = lock_mgr_ d -> next_txn_id_ d' = next_txn_id_ d -> expirable_txns_ d' = expirable_txns_ d -> db_ d' = db_ d ->
  same_locking d d'.
Proof.
  intros Ha Et El Hact ? ? ? ?. split; try done; rewrite Et; intros b u.
  - intros [[<- <-]|[Hne Hb]]%lookup_insert_Some; [by exists t | by exists u].
  - intros Hb. destruct (decide (b = a)) as [->|Hne]; [|exists u; by rewrite lookup_insert_ne].
    exists t'. rewrite lookup_insert_eq. split; [done|]. congruence.
Qed.

Lemma same_locking_held d d' hd : same_locking d d' -> held_ok d hd -> held_ok d' hd.
Proof.
  intros [Em En Ee _ Hb Hf] [H1 H2 H3 H4 H5 H6 H7 H8 H9]. split; rewrite ?Em, ?En, ?Ee; try done.
  - intros a t' Ha. destruct (Hb a t' Ha) as (t & Ht & El & _). unfold txn_id. rewrite El. by apply (H5 a).
  - intros a t' Ha. destruct (Hb a t' Ha) as (t & Ht & El & _). unfold txn_id, expiration_time. rewrite El. by apply H6.
  - intros id b Hp. destruct (H7 id b Hp) as [Hlt Hx]. split; [done|]. intros a t' Ha. destruct (Hb a t' Ha) as (t & Ht & El & _).
    unfold txn_id, expiration_time. rewrite El. by apply Hx.
  - intros c am k info Hm Hl. destruct (H8 c am k info Hm Hl) as [Hn Hh]. split; [done|]. intros id Hid.
    destruct (Hh id Hid) as (a & t & Ha & Ei & Hr). destruct (Hf a t Ha) as (t' & Ht' & El). exists a, t'.
    unfold txn_id, expiration_time in *. by rewrite El.
  - intros a t' c k ex Ha Hact. destruct (Hb a t' Ha) as (t & Ht & El & Hact'). unfold has_lock, txn_id, expiration_time in *. rewrite El.
    apply H9; [done | by apply Hact'].
Qed.

Lemma same_locking_system y a cl cl' d :
  same_locking (y_d y) d -> y_clients y !! a = Some cl -> acq_of cl' = acq_of cl -> sys_ok (lock_system y) -> sys_ok (lock_system (set_client a cl' d y)).
Proof.
  intros [Em En Ee _ Hb Hf] Ha Eq. apply sys_ok_same; cbn.
  - done.
  - apply map_eq. intros b. rewrite !lookup_fmap. destruct (transactions d !! b) as [u'|] eqn:E1.
    + destruct (Hb b u' E1) as (u & -> & El & _). cbn. by rewrite El.
    + destruct (transactions (y_d y) !! b) as [u|] eqn:E2; [|done]. destruct (Hf b u E2) as (u' & Hu' & _). congruence.
  - apply map_eq. intros b. rewrite !lookup_omap. destruct (decide (b = a)) as [->|Hne]; [|by rewrite lookup_insert_ne].
    rewrite lookup_insert_eq, Ha. done.
Qed.

(** A step of [a] that takes and gives back no lock. *)
Lemma system_own y a t t' cl cl' d :
  system_ok y -> transactions (y_d y) !! a = Some t -> y_clients y !! a = Some cl ->
  transactions d = <[a := t']> (transactions (y_d y)) -> same_locking (y_d y) d -> acq_of cl' = acq_of cl ->
  (forall c k ex, (exists info, locked_key t' (c_phase cl') c k info /\ ti_exclusive info = ex) <->
    exists info, locked_key t (c_phase cl) c k info /\ ti_exclusive info = ex) ->
  client_ok (lock_maps_ (lock_mgr_ (y_d y))) (cfs_of (y_d y)) (y_hist y) (last_of (db_ (y_d y))) t' cl' ->
  system_ok (set_client a cl' d y).
Proof.
  intros Hok Ha Hcl Et Hsame Eacq Hkeys' Hc. assert (Ha' : transactions d !! a = Some t') by (by rewrite Et, lookup_insert_eq).
  assert (Ho : others_kept a (y_d y) d) by (by eapply put_others). pose proof Hsame as [Em _ _ Edb _ _].
  apply (system_set y a d t' cl'); try done; [by rewrite Em | by apply (same_locking_system y a cl cl' d Hsame Hcl Eacq), Hok |].
  eapply (held_ok_sub _ (held y)); [| | by eapply same_locking_held, yk_held].
  - intros b c k ex Hx%(held_set y a d cl' t' b c k ex Ho Ha'). destruct Hx as [[_ Hx]|[-> Hx]]; [done|].
    apply (held_at y a t cl c k ex Ha Hcl). by apply Hkeys'.
  - intros b c k ex Hx. exists ex. apply (held_set y a d cl' t' b c k ex Ho Ha'). destruct (decide (b = a)) as [->|Hne]; [right | by left].
    split; [done|]. apply Hkeys'. by apply (held_at y a t cl c k ex Ha Hcl).
Qed.

(** ** Requests *)

(** The locks alone, with the requests that wait and the keys that are held. *)
Record core_ok (d : PDB) (acqs : gmap nat (option Z * Acquiring)) (hd : nat -> Z -> bytes -> bool -> Prop) : Prop := {
  ck_sys : sys_ok (mkSys (lock_mgr_ d) (owners_of d) (locker <$> transactions d) acqs);
  ck_held : held_ok d hd;
}.

Lemma core_ids (d : PDB) acqs hd : core_ok d acqs hd -> ids_differ (transactions d).
Proof.
  intros [Hs _] a b t u Ha Hb Eid. apply (so_ids _ Hs a b (locker t) (locker u)); cbn; [by rewrite lookup_fmap, Ha | by rewrite lookup_fmap, Hb | done].
Qed.

Definition acqs_after (a : nat) (r : Acquired) (acqs : gmap nat (option Z * Acquiring)) : gmap nat (option Z * Acquiring) :=
  match r with Returns _ => delete a acqs | Blocks cv q => <[a := (cv, q)]> acqs end.

(** What a call of the lock manager for [k] of [c] has done. *)
Record called (now : Z) (a : nat) (t : PessimisticTransaction) (c : Z) (k : bytes) (ex : bool) (r : Acquired) (d d1 : PDB)
    (acqs : gmap nat (option Z * Acquiring)) (hd : nat -> Z -> bytes -> bool -> Prop) : Prop := {
  cd_moved : moved now a d d1;
  cd_maps : lock_maps_ (lock_mgr_ d1) = lock_maps_ (lock_mgr_ d);
  cd_core : core_ok d1 (acqs_after a r acqs) (if ok (rs_of r) then also hd a c k ex else hd);
  cd_wants : match r with Blocks _ q => wants (lock_maps_ (lock_mgr_ d)) t c k ex q | Returns _ => True end;
}.

Lemma moved_lockers now a (d d1 : PDB) l :
  moved now a d d1 -> (forall t', transactions d1 !! a = Some t' -> locker t' = l) -> locker <$> transactions d1 = <[a := l]> (locker <$> transactions d).
Proof.
  intros [H1 (t & l' & Ha & _ & Ha') _ _ _ _ _] Hl. apply map_eq. intros b. rewrite lookup_fmap. destruct (decide (b = a)) as [->|Hne].
  - rewrite lookup_insert_eq, Ha'. cbn. f_equal. by apply (Hl _ Ha').
  - rewrite lookup_insert_ne, lookup_fmap by done. destruct (H1 b Hne) as [->|(u & -> & _ & _ & ->)]; done.
Qed.

Lemma with_owners_locker a l g (o : Owners) (d d1 : PDB) t' : with_owners a l g o d = Done d1 -> transactions d1 !! a = Some t' -> locker t' = l.
Proof.
  unfold with_owners. destruct (ow_dangling o); [done|]. destruct (ow_transactions o !! a); cbn [ofopt obind]; [|done].
  intros [= <-]. cbn. rewrite lookup_insert_eq. by intros [= <-].
Qed.

(** The end of both calls. *)
Lemma call_core now a t c k ex am r l g (o : Owners) (d d1 : PDB) acqs hd :
  core_ok d acqs hd -> transactions d !! a = Some t -> lock_maps_ (lock_mgr_ d) !! c = Some am ->
  (forall x, hd a c k x -> x = false /\ ex = true) ->
  requested now (txn_id t) am k (NewLockInfo (txn_id t) (expiration_time t) ex) (rs_of r) (lock_mgr_ d) g (owners_of d) o ->
  stepped (locker t) l am k (NewLockInfo (txn_id t) (expiration_time t) ex) r (lock_mgr_ d) g ->
  match r with Blocks _ q => asks_for am k (NewLockInfo (txn_id t) (expiration_time t) ex) q | Returns _ => True end ->
  with_owners a l g o d = Done d1 -> called now a t c k ex r d d1 acqs hd.
Proof.
  intros Hcore Ha Hm Hfree Hreq Hst Hasks Ed. pose proof Hcore as [Hs Hd].
  destruct (request_held now a t c k ex am (rs_of r) l g o d d1 hd (so_mgr _ Hs) (core_ids _ _ _ Hcore) Hd Ha Hm Hfree Hreq (st_locker _ _ _ _ _ _ _ _ Hst) Ed)
    as (Hmv & Eg & Hh). split; [done | rewrite Eg; apply (rq_maps _ _ _ _ _ _ _ _ _ _ Hreq) | |].
  - split; [|done]. assert (Ha' : sys_txns (mkSys (lock_mgr_ d) (owners_of d) (locker <$> transactions d) acqs) !! a = Some (locker t)) by (cbn; by rewrite lookup_fmap, Ha).
    eapply sys_ok_same; [| | | exact (stepped_ok _ a (locker t) r l g o am k _ Hs Ha' Hst)]; cbn; [by rewrite Eg | | done].
    apply (moved_lockers now); [done|]. intros t' Ht'. by eapply with_owners_locker.
  - destruct r; [done|]. by exists am.
Qed.

Lemma db_TryLock_called th free now a t c k ex r (d d1 : PDB) acqs hd :
  core_ok d acqs hd -> transactions d !! a = Some t -> acqs !! a = None -> (forall x, hd a c k x -> x = false /\ ex = true) ->
  db_TryLock th free now a c k ex d = Done (r, d1) -> called now a t c k ex r d d1 acqs hd.
Proof.
  intros Hcore Ha Hq Hfree. pose proof Hcore as [Hs Hd]. unfold db_TryLock, get_txn. rewrite Ha. cbn [ofopt obind].
  destruct (TxnLock.TryLock _ _ _ _ _ _ _ _ _) as [[[[r0 l] g] o]| |] eqn:El; cbn [obind]; [|done..].
  destruct (with_owners a l g o d) as [d2| |] eqn:Ed; cbn [obind]; [|done..]. intros [= <- <-].
  assert (Hnone : wait_txn_map_ (wait_state (lock_mgr_ d)) !! lk_id (locker t) = None)
    by (apply (not_waiting _ a (locker t) Hs); [cbn; by rewrite lookup_fmap, Ha | done]).
  destruct (lock_maps_ (lock_mgr_ d) !! c) as [am|] eqn:Em.
  - destruct (TryLock_ok th free now (locker t) c k ex (lock_mgr_ d) (owners_of d) (so_mgr _ Hs) Hnone) as [[E1 _]|(r1 & t1 & g1 & o1 & am' & E1 & Hst)];
      [by rewrite E1 in El|]. rewrite E1 in El. injection El as -> -> -> ->.
    pose proof (TryLock_frame _ _ _ _ _ _ _ _ _ _ _ _ _ _ (so_mgr _ Hs) (ho_caches _ _ Hd) Em Hnone E1) as Hreq.
    pose proof (TryLock_asks _ _ _ _ _ _ _ _ _ _ _ _ _ _ (ho_caches _ _ Hd) Em E1) as Hasks.
    eapply (call_core now a t c k ex am r0 l g o); try done. destruct Hst as [S1 S2 S3 S4 S5 S6]. split; try done.
    unfold result_ok in *. destruct r0 as [rs|cv q].
    + intros ->. destruct Hreq as [_ _ _ (o2 & _ & Hw)]. cbn [rs_of] in Hw. change (ok kOk) with true in Hw. cbn iota in Hw.
      by eapply won_granted.
    + destruct S5 as (? & ? & _). done.
  - destruct (TryLock_nowhere _ _ _ _ _ _ _ _ _ _ _ _ _ (ho_caches _ _ Hd) Em El) as (-> & -> & Hsl & ->).
    destruct (TryLock_ok th free now (locker t) c k ex (lock_mgr_ d) (owners_of d) (so_mgr _ Hs) Hnone) as [[E1 _]|(r1 & t1 & g1 & o1 & am' & E1 & Hst)];
      [by rewrite E1 in El|]. rewrite E1 in El. injection El as -> -> -> _.
    destruct (with_owners_moved (fun _ => False) now a t (locker t) g (owners_of d) d d2) as [Hmv Eg]; try done.
    assert (Hh : held_ok d2 hd).
    { apply (held_moved now a d d2 hd hd); rewrite ?Eg; try done; [by eapply core_ids | apply Hsl | apply Hsl, (ho_caches _ _ Hd) | | | |].
      - intros am k0 info Hi. rewrite (sl_at _ _ Hsl) in Hi. rewrite (sl_maps _ _ Hsl). by eapply (ho_known _ _ Hd).
      - intros b c0 k0 x. apply (ho_map _ _ Hd).
      - intros c0 am k0 info Hm Hi. rewrite (sl_at _ _ Hsl) in Hi. by apply (ho_holders _ _ Hd c0 am k0 info).
      - intros b u c0 k0 x Hb Hact _ Hx Hp. destruct (ho_locked _ _ Hd b u c0 k0 x Hb Hact Hx Hp) as (am & info & R). exists am, info.
        by rewrite (sl_maps _ _ Hsl), (sl_at _ _ Hsl). }
    split; [done | rewrite Eg; apply Hsl | | done]. cbn [rs_of]. change (ok kCorruption) with false. cbn iota. split; [|done].
    assert (Ha' : sys_txns (mkSys (lock_mgr_ d) (owners_of d) (locker <$> transactions d) acqs) !! a = Some (locker t)) by (cbn; by rewrite lookup_fmap, Ha).
    eapply sys_ok_same; [| | | exact (stepped_ok _ a (locker t) _ (locker t) g (owners_of d) am' k _ Hs Ha' Hst)]; cbn; [by rewrite Eg | | done].
    apply (moved_lockers now); [done|]. intros t' Ht'. by eapply with_owners_locker.
Qed.

Lemma db_Wake_called now rs0 cv q a t c k ex r (d d1 : PDB) acqs hd :
  core_ok d acqs hd -> transactions d !! a = Some t -> acqs !! a = Some (cv, q) -> (forall x, hd a c k x -> x = false /\ ex = true) ->
  wants (lock_maps_ (lock_mgr_ d)) t c k ex q -> rs0 = kOk \/ rs0 = kTimeout ->
  db_Wake now rs0 a cv q d = Done (r, d1) -> called now a t c k ex r d d1 acqs hd.
Proof.
  intros Hcore Ha Hq Hfree (am & Em & Eq1 & Eq2 & Eq3) Hrs. pose proof Hcore as [Hs Hd]. unfold db_Wake, get_txn. rewrite Ha. cbn [ofopt obind].
  destruct (Wake _ _ _ _ _ _ _) as [[[[r0 l] g] o]| |] eqn:El; cbn [obind]; [|done..].
  destruct (with_owners a l g o d) as [d2| |] eqn:Ed; cbn [obind]; [|done..]. intros [= <- <-].
  destruct (so_acq _ Hs a cv q Hq) as (l0 & Hl0 & Hacq & Hmax). cbn in Hl0. rewrite lookup_fmap, Ha in Hl0. injection Hl0 as <-. cbn [sys_mgr] in *.
  assert (Hentry : wait_txn_map_ (wait_state (lock_mgr_ d)) !! lk_id (locker t) = entry_for (locker t) q)
    by (apply (so_entry _ Hs a (locker t) cv q); [cbn; by rewrite lookup_fmap, Ha | exact Hq]).
  destruct (Wake_ok now rs0 (locker t) cv q (lock_mgr_ d) (owners_of d) (so_mgr _ Hs) Hacq Hentry Hmax Hrs)
    as [[E1 _]|(r1 & t1 & g1 & o1 & E1 & Hst)]; [by rewrite E1 in El|]. rewrite E1 in El. injection El as -> -> -> ->.
  pose proof (Wake_frame _ _ _ _ _ _ _ _ _ _ _ (so_mgr _ Hs) Hacq Hentry E1) as Hreq. pose proof (Wake_asks _ _ _ _ _ _ _ _ _ _ _ E1) as Hasks.
  rewrite Eq1, Eq2, Eq3 in *. by eapply (call_core now a t c k ex am r0 l g o).
Qed.

(** A key to be locked is not locked yet, or is locked in a weaker way. *)
Definition weaker (t : PessimisticTransaction) (j : job) : Prop :=
  forall info, tracked (txn_keys_ (base_ t)) (j_cfid j) (j_key j) info -> ti_exclusive info = false /\ j_exclusive j = true.

Lemma omap_insert_after a r cl (m : gmap nat client) :
  acq_of cl = match r with Returns _ => None | Blocks cv q => Some (cv, q) end ->
  omap acq_of (<[a := cl]> m) = acqs_after a r (omap acq_of m).
Proof.
  intros Hcl. apply map_eq. intros b. rewrite lookup_omap. destruct (decide (b = a)) as [->|Hne].
  - rewrite lookup_insert_eq. cbn. rewrite Hcl. destruct r; cbn; [by rewrite lookup_delete_eq | by rewrite lookup_insert_eq].
  - rewrite lookup_insert_ne by done. destruct r; cbn; [rewrite lookup_delete_ne by done | rewrite lookup_insert_ne by done]; by rewrite lookup_omap.
Qed.

(** The lock system behind a call, when the database of locks is as the call
    left it. *)
Lemma called_system now a t c k ex r d1 d2 y cl :
  called now a t c k ex r (y_d y) d1 (omap acq_of (y_clients y)) (held y) ->
  acq_of cl = match r with Returns _ => None | Blocks cv q => Some (cv, q) end ->
  lock_mgr_ d2 = lock_mgr_ d1 -> locker <$> transactions d2 = locker <$> transactions d1 -> sys_ok (lock_system (set_client a cl d2 y)).
Proof.
  intros [_ _ [Hs _] _] Hcl Em El. eapply sys_ok_same; [| | | exact Hs]; cbn; [done | done |]. by apply omap_insert_after.
Qed.

Lemma moved_self now a (d d1 : PDB) t :
  moved now a d d1 -> transactions d !! a = Some t -> exists l, same_locker (locker t) l /\ transactions d1 !! a = Some (set_locker l t).
Proof. intros [_ (t0 & l & H0 & Hl & H1) _ _ _ _ _] Ha. assert (t0 = t) as -> by congruence. by exists l. Qed.

Lemma system_core y : system_ok y -> core_ok (y_d y) (omap acq_of (y_clients y)) (held y).
Proof. intros Hok. split; [apply (yk_locks _ Hok) | apply (yk_held _ Hok)]. Qed.

(** The keys of a transaction that has locked another one. *)
Lemma track_client lm s H last t cl l j seq ph :
  client_ok lm s H last t cl -> same_locker (locker t) l ->
  (exists i, located s (j_cfid j) (j_key j) i) -> ph = Idle ->
  client_ok lm s H last
    (set_base (set_keys (TrackKey (j_cfid j) (j_key j) seq (j_read_only j) (j_exclusive j) (txn_keys_ (base_ t))) (base_ t)) (set_locker l t))
    (mkClient (c_ops cl) (c_reads cl) ph).
Proof.
  intros [C1 C2 C3 C4 C5 C6] (Ei & _ & Ex & _) Hloc ->. set (m := TrackKey _ _ _ _ _ _).
  assert (Hkeep : forall c k info, tracked (txn_keys_ (base_ t)) c k info -> exists info', tracked m c k info' /\ (ti_exclusive info = true -> ti_exclusive info' = true)).
  { intros c k info Hti. destruct (decide ((c, k) = (j_cfid j, j_key j))) as [[= -> ->]|Hne].
    - destruct (TrackKey_same (j_cfid j) (j_key j) seq (j_read_only j) (j_exclusive j) (txn_keys_ (base_ t))) as (info' & Hi' & [[Hn _]|(info0 & H0 & He)]).
      { by destruct (Hn info). }
      exists info'. split; [done|]. intros Hx. assert (info0 = info) as -> by (by eapply tracked_inj). by rewrite He, Hx.
    - exists info. split; [by apply TrackKey_other | done]. }
  split; cbn [base_ set_base write_batch_ set_keys txn_keys_ c_phase c_ops c_reads batch_keys]; try done.
  - intros c. split; [|done]. apply TrackKey_not_empty. intros c'. apply C2.
  - intros c k info [Hti|Hti]; cbn in Hti; [|by destruct Hti as (? & [=] & _)].
    destruct (decide ((c, k) = (j_cfid j, j_key j))) as [[= -> ->]|Hne]; [done|]. eapply C3. left. eapply TrackKey_other; [exact Hne | exact Hti].
  - intros o Ho. destruct (C4 o Ho) as (info & Hti & Hx). destruct (Hkeep _ _ _ Hti) as (info' & Hti' & Hx'). exists info'. auto.
  - intros i key x Hx. destruct (C5 i key x Hx) as (c & info & Hc & Hti & Hp & Hcur). destruct (Hkeep _ _ _ Hti) as (info' & Hti' & Hx').
    exists c, info'. split_and!; [done | done | | done]. destruct Hp as [Hp|Hp]; [left; auto | right]. unfold expiration_time in *. cbn. by rewrite Ex.
Qed.

Lemma set_own_locker t : set_locker (locker t) t = t.
Proof. by destruct t. Qed.

(** A phase in which no key is locked for a batch. *)
Definition plain (p : phase) : Prop := match p with Idle | Locking _ _ _ => True | _ => False end.

(** What a client is when its transaction waits or has got an error. *)
Lemma replied_client lm s H last t l cl rep :
  client_ok lm s H last t cl -> same_locker (locker t) l -> plain (c_phase cl) ->
  phase_ok lm s (set_locker l t) (mkClient (c_ops cl) (c_reads cl) (replied rep)) ->
  client_ok lm s H last (set_locker l t) (mkClient (c_ops cl) (c_reads cl) (replied rep)).
Proof.
  intros [C1 C2 C3 C4 C5 C6] (Ei & _ & Ex & _) Hp Hph.
  assert (Eb : batch_keys (replied rep) = ∅) by (by destruct rep).
  split; cbn [base_ set_locker c_phase c_ops c_reads]; rewrite ?Eb; try done.
  - intros c. split; [apply C2 | done].
  - intros c k info [Hti|Hti]; [apply (C3 c k info); by left|]. cbn in Hti. rewrite Eb in Hti. by destruct Hti as (? & [=] & _).
  - intros i key x Hx. destruct (C5 i key x Hx) as (c & info & Hc & Hti & Hpr & Hcur). exists c, info. split_and!; [done | done | | done].
    unfold protected, expiration_time in *. cbn. by rewrite Ex.
Qed.

(** [TryLock] behind the call of the lock manager. *)
Lemma reply_step y a t cl j now r d1 rep d2 :
  system_ok y -> y_clients y !! a = Some cl -> transactions (y_d y) !! a = Some t -> plain (c_phase cl) -> weaker t j ->
  (exists i, located (cfs_of (y_d y)) (j_cfid j) (j_key j) i) ->
  called now a t (j_cfid j) (j_key j) (j_exclusive j) r (y_d y) d1 (omap acq_of (y_clients y)) (held y) ->
  TryLock_reply r j a d1 = Done (rep, d2) ->
  system_ok (set_client a (mkClient (c_ops cl) (c_reads cl) (replied rep)) d2 y).
Proof.
  intros Hok Hcl Ha Hpl Hw Hloc Hcd Hrep. pose proof Hcd as [Hmv Emap [Hs Hh] Hwants].
  destruct (yk_clients _ Hok a cl Hcl) as (t0 & Ht0 & Hc). assert (t0 = t) as -> by congruence. clear Ht0.
  destruct (moved_self now a _ _ t Hmv Ha) as (l & Hl & Ha1). pose proof Hl as (Eid & _ & Eex & _).
  assert (Hbk : batch_keys (c_phase cl) = ∅) by (by destruct (c_phase cl)).
  assert (Hheld : forall c k ex, held y a c k ex <-> exists info, tracked (txn_keys_ (base_ t)) c k info /\ ti_exclusive info = ex).
  { intros c k ex. rewrite (held_at y a t cl c k ex Ha Hcl). unfold locked_key. rewrite Hbk. split; intros (info & Hk & He); exists info; [|tauto].
    destruct Hk as [|(? & [=] & _)]; done. }
  assert (Hsame : forall cl', plain (c_phase cl') -> held_ok d1 (held y) -> held_ok d1 (held (set_client a cl' d1 y))).
  { intros cl' Hpl' Hh1. assert (Hb' : batch_keys (c_phase cl') = ∅) by (by destruct (c_phase cl')).
    assert (Hiff : forall b c k ex, held (set_client a cl' d1 y) b c k ex <-> held y b c k ex).
    { intros b c k ex. rewrite (held_set y a d1 cl' (set_locker l t) b c k ex (moved_others _ _ _ _ Hmv) Ha1).
      unfold locked_key. rewrite Hb'. cbn [base_ set_locker]. destruct (decide (b = a)) as [->|Hne]; [|tauto]. rewrite Hheld.
      split; [|intros (info & Hk & He); right; split; [done|]; exists info; tauto].
      intros [[? _]|(_ & info & [Hk|(? & [=] & _)] & He)]; [done | by exists info]. }
    eapply held_ok_sub; [| | exact Hh1]; intros b c k ex Hx; [by apply Hiff | exists ex; by apply Hiff]. }
  assert (Hclient : forall rep', phase_ok (lock_maps_ (lock_mgr_ (y_d y))) (cfs_of (y_d y)) (set_locker l t) (mkClient (c_ops cl) (c_reads cl) (replied rep')) ->
    held_ok d1 (held y) -> acq_of (mkClient (c_ops cl) (c_reads cl) (replied rep')) = match r with Returns _ => None | Blocks cv q => Some (cv, q) end ->
    system_ok (set_client a (mkClient (c_ops cl) (c_reads cl) (replied rep')) d1 y)).
  { intros rep' Hph Hh1 Hacq. eapply (system_set y a d1 (set_locker l t)); [done | by eapply moved_others | done | apply Hmv | done | | |].
    - by eapply called_system.
    - apply Hsame; [by destruct rep' | done].
    - by apply replied_client. }
  destruct r as [rs|cv q]; cbn [TryLock_reply] in Hrep.
  2:{ injection Hrep as <- <-. cbn [rs_of] in Hh. change (ok kTimeout) with false in Hh. cbn iota in Hh.
      apply Hclient; [|exact Hh|done]. cbn. split_and!; [|done|].
      - unfold wants in *. unfold txn_id, expiration_time in *. cbn. by rewrite Eid, Eex.
      - exact Hw. }
  unfold TryLock_end in Hrep. cbn [rs_of] in Hh. destruct (ok rs) eqn:Er.
  2:{ cbn [obind] in Hrep. injection Hrep as <- <-. by apply (Hclient (Ends rs)). }
  cbv zeta in Hrep. unfold get_txn in Hrep. rewrite Ha1 in Hrep. cbn [ofopt obind] in Hrep. injection Hrep as <- <-.
  set (seq := if negb (j_validate j) then _ else _). set (m := TrackKey _ _ _ _ _ _).
  set (t2 := set_base (set_keys m (base_ (set_locker l t))) (set_locker l t)). set (d2 := put_txn a t2 d1).
  assert (Ha2 : transactions d2 !! a = Some t2) by apply lookup_insert_eq.
  assert (Hsl : same_locking d1 d2) by (by eapply (same_locking_put d1 d2 a (set_locker l t) t2)).
  assert (Ho2 : others_kept a (y_d y) d2).
  { eapply others_trans; [by eapply moved_others|]. intros b Hb. cbn. by rewrite lookup_insert_ne. }
  eapply (system_set y a d2 t2); [done | done | done | by rewrite (sm_db _ _ Hsl), (mv_db _ _ _ _ Hmv) | by rewrite (sm_mgr _ _ Hsl) | | |].
  - eapply called_system; [exact Hcd | done | done |]. apply map_eq. intros b. rewrite !lookup_fmap. cbn.
    destruct (decide (b = a)) as [->|Hne]; [by rewrite lookup_insert_eq, Ha1 | by rewrite lookup_insert_ne].
  - eapply (held_ok_sub _ (also (held y) a (j_cfid j) (j_key j) (j_exclusive j))); [| | eapply same_locking_held; [exact Hsl | exact Hh]].
    + intros b c k ex. rewrite (held_set y a d2 _ t2 b c k ex Ho2 Ha2). intros [[_ Hx]|(-> & info & [Hk|(? & [=] & _)] & He)]; [by left|].
      cbn in Hk. destruct (decide ((c, k) = (j_cfid j, j_key j))) as [[= -> ->]|Hne].
      * right. split_and!; [done..|]. destruct (TrackKey_same (j_cfid j) (j_key j) seq (j_read_only j) (j_exclusive j) (txn_keys_ (base_ t)))
          as (info' & Hi' & Hx). assert (info' = info) as -> by (by eapply tracked_inj).
        destruct Hx as [[_ Hx]|(info0 & H0 & Hx)]; [congruence|]. destruct (Hw info0 H0) as [E0 _]. rewrite Hx, E0 in He. by rewrite <- He.
      * left. apply Hheld. exists info. split; [|done]. by eapply TrackKey_other.
    + intros b c k ex Hx. destruct (decide (b = a)) as [->|Hne].
      2:{ exists ex. apply (held_set y a d2 _ t2 b c k ex Ho2 Ha2). left. split; [done|]. destruct Hx as [|(? & _)]; done. }
      assert (Htr : exists info, tracked m c k info).
      { destruct (decide ((c, k) = (j_cfid j, j_key j))) as [[= -> ->]|Hne].
        - destruct (TrackKey_same (j_cfid j) (j_key j) seq (j_read_only j) (j_exclusive j) (txn_keys_ (base_ t))) as (info' & Hi' & _). by exists info'.
        - destruct Hx as [Hx|(_ & -> & -> & _)]; [|done]. apply Hheld in Hx as (info & Hk & _). exists info. by apply TrackKey_other. }
      destruct Htr as (info & Hti). exists (ti_exclusive info). apply (held_set y a d2 _ t2 a c k _ Ho2 Ha2). right. split; [done|].
      exists info. split; [by left | done].
  - exact (track_client _ _ _ _ t cl l j seq (replied (Ends rs)) Hc Hl Hloc eq_refl).
Qed.

Lemma prev_locked_spec c k ex m :
  let '(prev, upgrade, _) := prev_locked c k ex m in
  if negb prev || upgrade then forall info, tracked m c k info -> ti_exclusive info = false /\ ex = true
  else exists info, tracked m c k info /\ (ti_exclusive info = true \/ ex = false).
Proof.
  unfold prev_locked, tracked. destruct (m !! c) as [keys|] eqn:Em; cbn; [|by intros info (? & [=] & _)].
  destruct (keys !! k) as [info|] eqn:Ek; cbn; [|intros info (? & [= <-] & ?); congruence].
  destruct (ti_exclusive info) eqn:Ex; cbn; [exists info; split; [by exists keys | by left]|].
  destruct ex; [|exists info; split; [by exists keys | by right]].
  intros info' (keys' & [= <-] & Hk). split; [congruence | done].
Qed.

(** A transaction that does nothing else asks for a key that it has not locked
    yet, or in a weaker way. *)
Lemma request_called y a cl t thread free now c k ex r d1 :
  system_ok y -> y_clients y !! a = Some cl -> c_phase cl = Idle -> transactions (y_d y) !! a = Some t ->
  (forall info, tracked (txn_keys_ (base_ t)) c k info -> ti_exclusive info = false /\ ex = true) ->
  db_TryLock thread free now a c k ex (y_d y) = Done (r, d1) ->
  called now a t c k ex r (y_d y) d1 (omap acq_of (y_clients y)) (held y).
Proof.
  intros Hok Hcl Hid Ha Hprev E1. eapply (db_TryLock_called thread free now); [by apply system_core | done | | | exact E1].
  - rewrite lookup_omap, Hcl. cbn. unfold acq_of. by rewrite Hid.
  - intros x (info & Hx & <-)%(held_at y a t cl _ _ _ Ha Hcl). rewrite Hid in Hx. destruct Hx as [Hx|(? & [=] & _)]. by apply Hprev.
Qed.

Lemma lock_step y a cl thread free now i f key ro ex validate r d :
  system_ok y -> y_clients y !! a = Some cl -> c_phase cl = Idle -> usable (db_ (y_d y)) i f key ->
  pt_TryLock thread free now (mkCFHandle true i) key ro ex validate a (y_d y) = Done (r, d) ->
  system_ok (set_client a (mkClient (c_ops cl) (c_reads cl) (replied r)) d y).
Proof.
  intros Hok Hcl Hid (Hf & _ & Hi & Hk). destruct (yk_clients _ Hok a cl Hcl) as (t & Ha & Hc).
  unfold pt_TryLock, get_txn, handle_id. rewrite Ha. cbn [ofopt obind h_impl]. rewrite Hf. cbn [ofopt obind].
  pose proof (prev_locked_spec (cf_id f) key ex (txn_keys_ (base_ t))) as Hprev.
  destruct (prev_locked _ _ _ _) as [[prev upgrade] seq]. set (j := mkJob (cf_id f) key seq ro ex validate).
  assert (Hloc : exists i, located (cfs_of (y_d y)) (j_cfid j) (j_key j) i) by (exists i; split_and!; [done | by eapply lookup_lt_Some | done]).
  destruct (negb prev || upgrade).
  - destruct (db_TryLock _ _ _ _ _ _ _ _) as [[r0 d1]| |] eqn:E1; cbn [obind]; [|done..]. intros Hrep.
    eapply (reply_step y a t cl j now r0 d1); try done; [by rewrite Hid|].
    by eapply (request_called y a cl t thread free now).
  - cbn [TryLock_reply]. unfold TryLock_end. change (ok kOk) with true. cbn iota zeta. unfold get_txn. rewrite Ha. cbn [ofopt obind].
    set (seq' := if negb (j_validate j) then _ else _). intros [= <- <-].
    destruct Hprev as (info & Hti & Hex). eapply (system_own y a t _ cl); [done | done | done | reflexivity | by eapply same_locking_put | | |].
    + unfold acq_of. by rewrite Hid.
    + intros c k x. rewrite Hid. unfold locked_key. cbn [base_ set_base txn_keys_ set_keys replied c_phase batch_keys].
      destruct (decide ((c, k) = (cf_id f, key))) as [[= -> ->]|Hne].
      * destruct (TrackKey_same (cf_id f) key seq' ro ex (txn_keys_ (base_ t))) as (info' & Hi' & [[Hn _]|(info0 & H0 & Hx)]); [by destruct (Hn info)|].
        assert (info0 = info) as -> by (by eapply tracked_inj).
        assert (Ee : ti_exclusive info' = ti_exclusive info) by (rewrite Hx; destruct Hex as [->| ->]; [done | by rewrite orb_false_r]).
        split; intros (z & [Hz|(? & [=] & _)] & Hze).
        -- assert (z = info') as -> by (by eapply tracked_inj). exists info. split; [by left | congruence].
        -- assert (z = info) as -> by (by eapply tracked_inj). exists info'. split; [by left | congruence].
      * split; intros (z & [Hz|(? & [=] & _)] & Hze); exists z; (split; [left | done]); by eapply TrackKey_other.
    + pose proof (track_client _ _ _ _ t cl (locker t) j seq' Idle Hc) as Htc. rewrite set_own_locker in Htc. by apply Htc.
Qed.

Lemma wake_step y a cl cv q j now rs r d :
  system_ok y -> y_clients y !! a = Some cl -> c_phase cl = Locking cv q j -> rs = kOk \/ rs = kTimeout ->
  TryLock_wake now rs cv q j a (y_d y) = Done (r, d) -> system_ok (set_client a (mkClient (c_ops cl) (c_reads cl) (replied r)) d y).
Proof.
  intros Hok Hcl Hph Hrs. destruct (yk_clients _ Hok a cl Hcl) as (t & Ha & Hc). pose proof (co_phase _ _ _ _ _ _ Hc) as Hp.
  unfold phase_ok in Hp. rewrite Hph in Hp. destruct Hp as (Hwants & Hloc & Hweak). unfold TryLock_wake.
  destruct (db_Wake _ _ _ _ _ _) as [[r0 d1]| |] eqn:E1; cbn [obind]; [|done..]. intros Hrep.
  eapply (reply_step y a t cl j now r0 d1); try done; [by rewrite Hph|].
  eapply (db_Wake_called now rs cv q); [by apply system_core | done | | | exact Hwants | exact Hrs | exact E1].
  - rewrite lookup_omap, Hcl. cbn. unfold acq_of. by rewrite Hph.
  - intros x (info & Hx & <-)%(held_at y a t cl _ _ _ Ha Hcl). rewrite Hph in Hx. destruct Hx as [Hx|(? & [=] & _)]. by apply Hweak.
Qed.

(** ** The operations of one transaction *)

Lemma update_step y a cl t i f o rand info d :
  system_ok y -> y_clients y !! a = Some cl -> c_phase cl = Idle -> transactions (y_d y) !! a = Some t ->
  usable (db_ (y_d y)) i f (op_key o) -> op_cfid o = cf_id f ->
  tracked (txn_keys_ (base_ t)) (op_cfid o) (op_key o) info -> ti_exclusive info = true ->
  update_end comparator kOk (op_flag o) rand (mkCFHandle true i) (op_key o) (op_value o) a (y_d y) = Done (kOk, d) ->
  system_ok (set_client a (idle_client (c_ops cl ++ [o]) (c_reads cl)) d y).
Proof.
  intros Hok Hcl Hid Ha (Hf & _) Ef Hti Hex. destruct (yk_clients _ Hok a cl Hcl) as (t0 & Ha0 & Hc). assert (t0 = t) as -> by congruence.
  unfold update_end, get_txn, handle_id. change (ok kOk) with true. cbn iota. rewrite Ha. cbn [ofopt obind h_impl]. rewrite Hf. cbn [ofopt obind].
  rewrite <- Ef. destruct (AddOrUpdate _ _ _ _ _ _ _) as [w| |] eqn:Ew; cbn [obind]; [|done..]. intros [= <-].
  eapply (system_own y a t _ cl); [done | done | done | reflexivity | by eapply same_locking_put | by unfold acq_of; rewrite Hid | by rewrite Hid |].
  destruct Hc as [C1 C2 C3 C4 C5 C6]. rewrite Hid in *. split; cbn; try done.
  - rewrite (AddOrUpdate_batch comparator _ _ _ _ Ew), C1. unfold batch_of. by rewrite fold_left_app.
  - intros o' [Ho|Ho%list_elem_of_singleton]%elem_of_app; [by apply C4 | subst o'; by exists info].
Qed.

Lemma read_step y a cl t i f key info x :
  system_ok y -> y_clients y !! a = Some cl -> c_phase cl = Idle -> transactions (y_d y) !! a = Some t ->
  usable (db_ (y_d y)) i f key -> tracked (txn_keys_ (base_ t)) (cf_id f) key info -> protected t info ->
  RawGet comparator freed (cf_id f) key (write_batch_ (base_ t)) = Done (inl kNotFound) ->
  pt_Get cache_get comparator freed None (mkCFHandle true i) key a (y_d y) = Done x ->
  system_ok (set_client a (idle_client (c_ops cl) ((i, key, x) :: c_reads cl)) (y_d y) y).
Proof.
  intros Hok Hcl Hid Ha (Hf & Hd & Hi & Hk) Hti Hp Hraw. destruct (yk_clients _ Hok a cl Hcl) as (t0 & Ha0 & Hc). assert (t0 = t) as -> by congruence.
  unfold pt_Get, get_txn. rewrite Ha. cbn [ofopt obind]. unfold txn_Get, handle_id. cbn [h_impl]. rewrite Hf. cbn [ofopt obind]. rewrite Hraw. cbn [obind].
  destruct (rd_tables _ (yk_ready _ Hok) i f Hf) as (tb & Htb & _).
  destruct (db_Get_answers cache_get contents (db_ (y_d y)) (y_hist y) None i f tb key (yk_holds _ Hok) Hf Htb Hd (yk_last _ Hok) Hk) as (r & Eg & Hans).
  rewrite Eg. intros [= <-].
  eapply (system_own y a t t cl); [done | done | done | by rewrite insert_id | | by unfold acq_of; rewrite Hid | by rewrite Hid |].
  - eapply (same_locking_put _ _ a t t); try done. by rewrite insert_id.
  - destruct Hc as [C1 C2 C3 C4 C5 C6]. rewrite Hid in *. split; cbn; try done.
    intros j k y0 [[= -> -> ->]|Hy]%elem_of_cons; [|by apply C5]. exists (cf_id f), info. split_and!; [done..|]. intros _. by exists r.
Qed.

(** The phase only. *)
Lemma phase_step y a cl t ph :
  system_ok y -> y_clients y !! a = Some cl -> transactions (y_d y) !! a = Some t ->
  acq_of (mkClient (c_ops cl) (c_reads cl) ph) = acq_of cl -> batch_keys ph = batch_keys (c_phase cl) ->
  phase_ok (lock_maps_ (lock_mgr_ (y_d y))) (cfs_of (y_d y)) t (mkClient (c_ops cl) (c_reads cl) ph) ->
  system_ok (set_client a (mkClient (c_ops cl) (c_reads cl) ph) (y_d y) y).
Proof.
  intros Hok Hcl Ha Hq Hb Hph. destruct (yk_clients _ Hok a cl Hcl) as (t0 & Ha0 & Hc). assert (t0 = t) as -> by congruence.
  eapply (system_own y a t t cl); [done | done | done | by rewrite insert_id | | done | |].
  - eapply (same_locking_put _ _ a t t); try done. by rewrite insert_id.
  - unfold locked_key. cbn [c_phase]. by rewrite Hb.
  - destruct Hc as [C1 C2 C3 C4 C5 C6]. split; unfold locked_key; cbn [c_phase c_ops c_reads]; rewrite ?Hb; done.
Qed.

(** The state of a transaction, or a name. *)
Lemma state_step y a cl t t' d :
  system_ok y -> y_clients y !! a = Some cl -> transactions (y_d y) !! a = Some t ->
  transactions d = <[a := t']> (transactions (y_d y)) -> same_locking (y_d y) d -> locker t' = locker t ->
  txn_keys_ (base_ t') = txn_keys_ (base_ t) -> write_batch_ (base_ t') = write_batch_ (base_ t) -> (active t' -> active t) ->
  phase_ok (lock_maps_ (lock_mgr_ (y_d y))) (cfs_of (y_d y)) t' cl -> system_ok (set_client a cl d y).
Proof.
  intros Hok Hcl Ha Et Hsame El Ek Ew Hact Hph. destruct (yk_clients _ Hok a cl Hcl) as (t0 & Ha0 & Hc). assert (t0 = t) as -> by congruence.
  eapply (system_own y a t t' cl cl); try done.
  - unfold locked_key. by rewrite Ek.
  - destruct Hc as [C1 C2 C3 C4 C5 C6]. split; unfold locked_key, protected, expiration_time; rewrite ?Ek, ?Ew, ?El; try done.
    intros i key x Hx. destruct (C5 i key x Hx) as (c & info & R1 & R2 & R3 & R4). exists c, info. split_and!; try done. auto.
Qed.

Lemma same_put a t t' (d : PDB) :
  transactions d !! a = Some t -> locker t' = locker t -> (active t' -> active t) -> same_locking d (put_txn a t' d).
Proof. intros Ha El Hact. by eapply (same_locking_put d _ a t t'). Qed.

Lemma commit_step y a cl now ready0 d :
  system_ok y -> y_clients y !! a = Some cl -> c_phase cl = Idle -> commit_begin now a (y_d y) = Done (ready0, d) ->
  system_ok (set_client a (mkClient (c_ops cl) (c_reads cl) (if ready0 : bool then Writing else Idle)) d y).
Proof.
  intros Hok Hcl Hid. destruct (yk_clients _ Hok a cl Hcl) as (t & Ha & Hc).
  assert (Hsame : system_ok (set_client a (mkClient (c_ops cl) (c_reads cl) Idle) (y_d y) y)).
  { eapply (phase_step y a cl t Idle); try done; [by unfold acq_of; rewrite Hid | by rewrite Hid]. }
  unfold commit_begin, get_txn. rewrite Ha. cbn [ofopt obind].
  destruct (IsExpired now t); [by intros [= <- <-]|].
  set (x := if 0 <? expiration_time t then _ else _).
  assert (Hx : fst x = true -> state t = STARTED /\ set_base (set_state AWAITING_COMMIT (base_ (snd x))) (snd x) = set_base (set_state AWAITING_COMMIT (base_ t)) t).
  { unfold x. destruct (0 <? expiration_time t).
    - unfold update_state. case_bool_decide; cbn; [|done]. intros _. split; [done|]. by destruct t as [[] ? ?].
    - cbn. by intros ?%bool_decide_eq_true. }
  destruct x as [rdy t1]. cbn [fst snd] in Hx. destruct rdy; [|by intros [= <- <-]]. destruct (Hx eq_refl) as [Hst Ee]. rewrite Ee. intros [= <- <-].
  set (t' := set_base (set_state AWAITING_COMMIT (base_ t)) t). set (d := put_txn a t' (y_d y)).
  assert (Hsl : same_locking (y_d y) d) by (eapply same_put; [exact Ha | done | intros _; by left]).
  assert (H1 : system_ok (set_client a cl d y)).
  { eapply (state_step y a cl t t' d); try done; [intros _; by left|]. unfold phase_ok. by rewrite Hid. }
  assert (H2 : system_ok (set_client a (mkClient (c_ops cl) (c_reads cl) Writing) d (set_client a cl d y))).
  { eapply (phase_step (set_client a cl d y) a cl t' Writing); [done | apply lookup_insert_eq | apply lookup_insert_eq | by unfold acq_of; rewrite Hid | by rewrite Hid | done]. }
  unfold set_client in *. cbn [y_clients y_hist] in H2. by rewrite insert_insert_eq in H2.
Qed.

(** ** Giving locks back *)

Lemma UnLock_core thread a t m (d d1 : PDB) acqs hd :
  core_ok d acqs hd -> transactions d !! a = Some t -> (forall c, m !! c <> Some ∅) ->
  (forall c k info, tracked m c k info -> exists ex, hd a c k ex) -> UnLock order_families order_keys thread a m d = Done d1 ->
  core_ok d1 acqs (except hd a m) /\ d1 = set_lock_mgr (lock_mgr_ d1) d /\ lock_maps_ (lock_mgr_ d1) = lock_maps_ (lock_mgr_ d).
Proof.
  intros Hcore Ha Hne Hm Hu. pose proof Hcore as [Hs Hd].
  destruct (UnLock_held order_families order_keys Hfamilies Hkeys thread a t m d d1 hd (so_mgr _ Hs) (core_ids _ _ _ Hcore) Hd Ha) as (Hh & Ed & Ho & Em); [|exact Hu|].
  { intros c keys Hc. destruct (map_choose keys) as (k & info & Hk); [intros ->; by apply (Hne c)|].
    destruct (Hm c k info) as [ex Hx]; [by exists keys|]. by eapply (ho_map _ _ Hd). }
  split; [|done]. split; [|done]. pose proof (set_mgr_ok _ (lock_mgr_ d1) Hs Ho) as Hs1.
  eapply sys_ok_same; [| | | exact Hs1]; cbn; [done | by rewrite Ed | done].
Qed.

(** All locks of [a] are given back. *)
Lemma release_step thread y a cl t m d0 d1 t' d2 cl' :
  system_ok y -> y_clients y !! a = Some cl -> transactions (y_d y) !! a = Some t -> acq_of cl = None -> acq_of cl' = None ->
  (forall c, m !! c <> Some ∅) -> (forall c k info, locked_key t (c_phase cl) c k info <-> tracked m c k info) ->
  same_locking (y_d y) d0 -> transactions d0 = transactions (y_d y) -> UnLock order_families order_keys thread a m d0 = Done d1 ->
  same_locking d1 d2 -> transactions d2 = <[a := t']> (transactions d1) -> txn_keys_ (base_ t') = ∅ -> batch_keys (c_phase cl') = ∅ ->
  client_ok (lock_maps_ (lock_mgr_ (y_d y))) (cfs_of (y_d y)) (y_hist y) (last_of (db_ (y_d y))) t' cl' ->
  system_ok (set_client a cl' d2 y).
Proof.
  intros Hok Hcl Ha Hq Hq' Hne Hm Hs0 Et0 Hu Hs2 Et2 Hk' Hb' Hc.
  assert (Hcore0 : core_ok d0 (omap acq_of (y_clients y)) (held y)).
  { destruct (system_core y Hok) as [K1 K2]. split; [|by eapply same_locking_held].
    eapply sys_ok_same; [| | | exact K1]; cbn; [apply Hs0 | by rewrite Et0 | done]. }
  destruct (UnLock_core thread a t m d0 d1 _ _ Hcore0) as ([K1 K2] & Ed1 & Em); [by rewrite Et0 | done | | exact Hu |].
  { intros c k info Hti%Hm. exists (ti_exclusive info). apply (held_at y a t cl c k _ Ha Hcl). by exists info. }
  assert (Et1 : transactions d1 = transactions (y_d y)) by (by rewrite Ed1).
  assert (Ho : others_kept a (y_d y) d2) by (eapply put_others; by rewrite Et2, Et1).
  assert (Ha2 : transactions d2 !! a = Some t') by (by rewrite Et2, lookup_insert_eq).
  assert (El : locker t' = locker t).
  { destruct (sm_forth _ _ Hs2 a t) as (u & Hu' & El); [by rewrite Et1|]. congruence. }
  eapply (system_set y a d2 t' cl'); try done.
  - rewrite (sm_db _ _ Hs2), Ed1. apply Hs0.
  - by rewrite (sm_mgr _ _ Hs2), Em, (sm_mgr _ _ Hs0).
  - eapply sys_ok_same; [| | | exact K1]; cbn; [apply Hs2 | |].
    + rewrite Et2, fmap_insert, El, Et1. apply insert_id. by rewrite lookup_fmap, Ha.
    + apply map_eq. intros b. rewrite !lookup_omap. destruct (decide (b = a)) as [->|Hne']; [|by rewrite lookup_insert_ne].
      by rewrite lookup_insert_eq, Hcl; cbn; rewrite Hq, Hq'.
  - eapply held_ok_sub; [| | eapply same_locking_held; [exact Hs2 | exact K2]].
    + intros b c k ex [[Hba Hx]|(-> & info & [(? & Hx & _)|(? & Hx & _)] & _)]%(held_set y a d2 cl' t' b c k ex Ho Ha2).
      * split; [done|]. by intros [? _].
      * by rewrite Hk' in Hx.
      * by rewrite Hb' in Hx.
    + intros b c k ex [Hx Hnot]. exists ex. apply (held_set y a d2 cl' t' b c k ex Ho Ha2). left. split; [|done]. intros ->. apply Hnot.
      split; [done|]. apply (held_at y a t cl c k ex Ha Hcl) in Hx as (info & Hx & _). exists info. by apply Hm.
Qed.

(** What a transaction is when it has been cleared. *)
Lemma cleared_client lm s H last t cl t' :
  client_ok lm s H last t cl -> txn_keys_ (base_ t') = ∅ -> write_batch_ (base_ t') = wi_Clear (write_batch_ (base_ t)) ->
  client_ok lm s H last t' (idle_client [] []).
Proof.
  intros Hc Hk Hw. split; cbn; rewrite ?Hk, ?Hw; try done.
  - cbn. by rewrite (co_batch _ _ _ _ _ _ Hc), Clear_batch_of.
  - intros c k info [Hti|Hti]; [cbn in Hti; rewrite Hk in Hti|]; by destruct Hti as (? & [=] & _).
  - by intros o ?%not_elem_of_nil.
  - by intros i key x ?%not_elem_of_nil.
Qed.

(** [pt_Clear] and a new state. *)
Lemma clear_with thread y a cl t d0 d2 d3 st :
  system_ok y -> y_clients y !! a = Some cl -> transactions (y_d y) !! a = Some t -> acq_of cl = None -> batch_keys (c_phase cl) = ∅ ->
  same_locking (y_d y) d0 -> transactions d0 = transactions (y_d y) ->
  pt_Clear order_families order_keys thread a d0 = Done d2 ->
  d3 = put_txn a (set_base (set_state st (txn_Clear (base_ t))) t) d2 -> (st = state t \/ st = COMMITED \/ st = ROLLEDBACK) ->
  system_ok (set_client a (idle_client [] []) d3 y).
Proof.
  intros Hok Hcl Ha Hq Hb Hs0 Et0. destruct (yk_clients _ Hok a cl Hcl) as (t0 & Ha0 & Hc). assert (t0 = t) as -> by congruence. clear Ha0.
  unfold pt_Clear, get_txn. rewrite Et0, Ha. cbn [ofopt obind]. destruct (UnLock _ _ _ _ _ _) as [d1| |] eqn:Eu; cbn [obind]; [|done..].
  intros [= <-] -> Hst. assert (Et1 : transactions d1 = transactions (y_d y)).
  { unfold UnLock, get_txn in Eu. rewrite Et0, Ha in Eu. cbn [ofopt obind] in Eu. destruct (Unlock _ _ _ _) as [g| |]; cbn [obind] in Eu; [|done..].
    by injection Eu as <-. }
  eapply (release_step thread y a cl t (txn_keys_ (base_ t)) d0 d1); try done.
  - intros c. apply (co_some _ _ _ _ _ _ Hc).
  - intros c k info. unfold locked_key. rewrite Hb. split; [|by left]. by intros [|(? & [=] & _)].
  - eapply (same_locking_put d1 _ a t); [by rewrite Et1 | cbn; by rewrite insert_insert_eq | done | | done..].
    unfold active, state. cbn. destruct Hst as [->|[->| ->]]; [done | by intros [] | by intros []].
  - cbn. by rewrite insert_insert_eq.
  - done.
  - by eapply cleared_client.
Qed.

Lemma rollback_step thread y a cl rs d :
  system_ok y -> y_clients y !! a = Some cl -> c_phase cl = Idle ->
  pt_Rollback order_families order_keys thread a (y_d y) = Done (rs, d) ->
  system_ok (set_client a (if ok rs then idle_client [] [] else cl) d y).
Proof.
  intros Hok Hcl Hid. destruct (yk_clients _ Hok a cl Hcl) as (t & Ha & Hc).
  assert (Hself : system_ok (set_client a cl (y_d y) y)).
  { destruct cl as [os reads ph]. cbn in Hid. subst ph. by apply (phase_step y a (mkClient os reads Idle) t Idle). }
  unfold pt_Rollback, get_txn. rewrite Ha. cbn [ofopt obind]. destruct (state t) eqn:Est; try (by intros [= <- <-]).
  destruct (pt_Clear _ _ _ _ _) as [d2| |] eqn:Ec; cbn [obind]; [|done..]. unfold set_txn_state, get_txn.
  assert (Ha2 : transactions d2 !! a = Some (set_base (txn_Clear (base_ t)) t)).
  { unfold pt_Clear, get_txn in Ec. rewrite Ha in Ec. cbn [ofopt obind] in Ec. destruct (UnLock _ _ _ _ _ _) as [d1| |]; cbn [obind] in Ec; [|done..].
    injection Ec as <-. cbn. by rewrite lookup_insert_eq. }
  rewrite Ha2. cbn [ofopt obind]. intros [= <- <-]. change (ok kOk) with true. cbn iota.
  eapply (clear_with thread y a cl t (y_d y) d2 _ ROLLEDBACK); try done; [by unfold acq_of; rewrite Hid | by rewrite Hid | | by right; right].
  eapply (same_locking_put _ _ a t t); try done. by rewrite insert_id.
Qed.

Lemma same_locking_refl y a t : transactions (y_d y) !! a = Some t -> same_locking (y_d y) (y_d y).
Proof. intros Ha. eapply (same_locking_put _ _ a t t); try done. by rewrite insert_id. Qed.

(** Names do not matter. *)
Lemma same_locking_names (d d' : PDB) : d' = set_names (txns_ d') d -> same_locking d d'.
Proof. intros ->. split; try done; cbn; intros b u Hb; by exists u. Qed.

Lemma Unregister_names a (d d' : PDB) : UnregisterTransaction a d = Done d' -> d' = set_names (txns_ d') d.
Proof.
  unfold UnregisterTransaction. destruct (get_txn a d) as [t| |]; cbn [obind]; [|done..]. destruct (txns_ d !! name_ t); [|done]. by intros [= <-].
Qed.

Lemma pt_Clear_at thread a t (d d' : PDB) :
  transactions d !! a = Some t -> pt_Clear order_families order_keys thread a d = Done d' ->
  transactions d' !! a = Some (set_base (txn_Clear (base_ t)) t).
Proof.
  unfold pt_Clear, get_txn. intros ->. cbn [ofopt obind]. destruct (UnLock _ _ _ _ _ _) as [d1| |]; cbn [obind]; [|done..].
  intros [= <-]. cbn. by rewrite lookup_insert_eq.
Qed.

Lemma set_base_twice b b' t : set_base b (set_base b' t) = set_base b t.
Proof. done. Qed.

Lemma clear_step thread y a cl rs d :
  system_ok y -> y_clients y !! a = Some cl -> c_phase cl = Clearing rs ->
  commit_end order_families order_keys thread rs a (y_d y) = Done d -> system_ok (set_client a (idle_client [] []) d y).
Proof.
  intros Hok Hcl Hph. destruct (yk_clients _ Hok a cl Hcl) as (t & Ha & Hc). unfold commit_end, get_txn. rewrite Ha. cbn [ofopt obind].
  set (x := if negb (bool_decide (name_ t = [])) then _ else _). destruct x as [d0| |] eqn:Ex; cbn [obind]; [|done..].
  assert (Hn : d0 = set_names (txns_ d0) (y_d y)).
  { subst x. destruct (negb _); [by eapply Unregister_names | injection Ex as <-; by destruct (y_d y)]. }
  assert (Et0 : transactions d0 = transactions (y_d y)) by (by rewrite Hn).
  destruct (pt_Clear _ _ _ _ _) as [d2| |] eqn:Ec; cbn [obind]; [|done..].
  pose proof (pt_Clear_at thread a t d0 d2 ltac:(by rewrite Et0) Ec) as Ha2.
  assert (Hfin : forall st d3, (st = state t \/ st = COMMITED \/ st = ROLLEDBACK) ->
    d3 = put_txn a (set_base (set_state st (txn_Clear (base_ t))) t) d2 -> system_ok (set_client a (idle_client [] []) d3 y)).
  { intros st d3 Hst ->. eapply (clear_with thread y a cl t d0 d2 _ st); try done; [by unfold acq_of; rewrite Hph | by rewrite Hph | by apply same_locking_names]. }
  destruct (ok rs); [|intros [= <-]].
  - unfold set_txn_state, get_txn. rewrite Ha2. cbn [ofopt obind]. intros [= <-]. apply (Hfin COMMITED); [by right; left | done].
  - apply (Hfin (state t)); [by left|]. unfold put_txn, set_transactions. rewrite insert_id; [by destruct d2|].
    rewrite Ha2. by destruct t as [[] ? ?].
Qed.

(** ** Writing *)

(** The records of a key that is not written. *)
Lemma abstract_write_other s os sn H i key :
  (forall o, o ∈ os -> family_of s o = Some i -> op_key o <> key) ->
  forall p, p_key p = key -> p ∈ abstract_write s os sn H i <-> p ∈ H i.
Proof.
  revert sn H. induction os as [|o os IH]; intros sn H Ho p Hp; cbn [abstract_write]; [done|].
  rewrite (IH (sn + 1) _ ltac:(intros o' Ho'; apply Ho; by right) p Hp).
  destruct (family_of s o) as [j|] eqn:Ef; [|done]. unfold prepend. destruct (decide (i = j)) as [<-|]; [|done].
  rewrite elem_of_cons. split; [|by right]. intros [->|]; [|done]. exfalso. apply (Ho o ltac:(by left) Ef). rewrite <- Hp. by destruct o.
Qed.

Lemma current_kept s os (H : history) last last' i key x :
  (forall o, o ∈ os -> family_of s o = Some i -> op_key o <> key) -> Forall (fun p => p_version p <= last) (H i) -> last <= last' ->
  current_answer H last i key x -> current_answer (abstract_write s os (last + 1) H) last' i key x.
Proof.
  intros Ho Hv Hl (r & -> & Hr). exists r. split; [done|]. rewrite Forall_forall in Hv.
  assert (Hin : forall p, p_key p = key -> p ∈ abstract_write s os (last + 1) H i <-> p ∈ H i) by (by apply abstract_write_other).
  destruct r as [err|[tag v]]; cbn in *.
  - destruct Hr as [-> Hn]. split; [done|]. intros q Hq Hqk. apply (Hin q Hqk) in Hq. specialize (Hn q Hq Hqk). specialize (Hv q Hq). lia.
  - destruct Hr as (p & Hp & Hpk & Hpv & Htag & Hval & Hn). exists p. split_and!; [by apply Hin | done | lia | done | done |].
    intros q Hq Hqk _. apply (Hin q Hqk) in Hq. apply Hn; [done | done | by apply Hv].
Qed.

Lemma set_db_held db (d : PDB) hd : held_ok d hd -> held_ok (set_db db d) hd.
Proof. by intros []. Qed.

(** The batch of a transaction that holds all its keys is written. *)
Lemma write_system y a cl t os sync rs db :
  system_ok y -> y_clients y !! a = Some cl -> transactions (y_d y) !! a = Some t -> active t ->
  (forall o, o ∈ os -> held y a (op_cfid o) (op_key o) true) -> fits os (db_ (y_d y)) ->
  WriteImpl path options needs_compaction sync (batch_of os) None (db_ (y_d y)) = Done (rs, db) ->
  rs = kOk /\ system_ok (mkSystem (set_db db (y_d y)) (written os (y_d y) (y_hist y))
    (<[a := mkClient (c_ops cl) [] (c_phase cl)]> (y_clients y))).
Proof.
  intros Hok Hcl Ha Hact Hops Hfits Hw. pose proof Hok as [K1 K2 K3 K4 K5 K6 K7 K8]. pose proof Hfits as (Hb & Hkn & Hl0 & Hl).
  destruct (WriteImpl_holds path options needs_compaction cache_get contents sync os (db_ (y_d y)) (y_hist y) K3 K4 Hb Hkn Hl0 Hl)
    as (db' & E1 & Hr' & Hc' & Hl' & Hh'). rewrite Hw in E1. injection E1 as -> <-. split; [done|].
  set (cl' := mkClient (c_ops cl) [] (c_phase cl)). set (d := set_db db (y_d y)).
  assert (Hdir : same_directory (cfs_of (y_d y)) (cfs_of d)) by (by apply same_directory_eq).
  split; cbn [y_d y_hist y_clients]; try done.
  - eapply sys_ok_same; [| | | exact K1]; cbn; [done | done |]. apply map_eq. intros b. rewrite !lookup_omap.
    destruct (decide (b = a)) as [->|Hne]; [by rewrite lookup_insert_eq, Hcl | by rewrite lookup_insert_ne].
  - eapply held_ok_sub; [| | apply set_db_held; exact K2].
    + intros b c k ex (u & clu & info & Hu & Hclu & Hk & He). cbn in *. apply lookup_insert_Some in Hclu as [[<- <-]|[Hne Hclu]]; [by exists u, cl, info | by exists u, clu, info].
    + intros b c k ex (u & clu & info & Hu & Hclu & Hk & He). exists ex. destruct (decide (b = a)) as [->|Hne].
      * exists u, cl', info. cbn. rewrite lookup_insert_eq. assert (clu = cl) as -> by congruence. done.
      * exists u, clu, info. cbn. by rewrite lookup_insert_ne.
  - cbn. rewrite Hl'. by eapply fits_last.
  - cbn. by rewrite Hc'.
  - intros b clb [[<- <-]|[Hne Hclb]]%lookup_insert_Some.
    + exists t. split; [done|]. destruct (K7 a cl Hcl) as (t0 & Ht0 & Hc). assert (t0 = t) as -> by congruence.
      assert (Hc2 : client_ok (lock_maps_ (lock_mgr_ (y_d y))) (cfs_of (y_d y)) (y_hist y) (last_of (db_ (y_d y))) t cl').
      { destruct Hc as [C1 C2 C3 C4 C5 C6]. split; try done; cbn; [by intros i k x ?%not_elem_of_nil|].
        unfold phase_ok in *. cbn. destruct (c_phase cl); try exact C6; [done | |]; destruct_and!; by split_and!. }
      eapply (client_other _ _ _ (y_hist y) _ (last_of (db_ (y_d y))) _ t); [by left | exact Hdir | by intros i k x ?%not_elem_of_nil | exact Hc2].
    + destruct (K7 b clb Hclb) as (u & Hu & Hcb). exists u. split; [done|]. eapply (client_other _ _ _ (y_hist y) _ (last_of (db_ (y_d y))) _ u); [by left | exact Hdir | | exact Hcb].
      intros i key x Hx Hactu. cbn. rewrite Hl'. destruct (co_reads _ _ _ _ _ _ Hcb i key x Hx) as (c & info & Hci & Hti & Hp & _).
      destruct (co_located _ _ _ _ _ _ Hcb c key info ltac:(by left)) as (i' & Hi' & Hlt & _). assert (i' = i) as -> by congruence.
      apply current_kept.
      * intros o Ho Hfo Hk. assert (Eo : op_cfid o = c).
        { apply (dk_inj _ K6 _ _ i); [|done]. unfold family_of in Hfo. destruct (Z.eqb_spec (op_cfid o) 0) as [->|]; [by rewrite <- (dk_default _ K6) | done]. }
        apply Hne. eapply (held_exclusively (y_d y) (held y) a b t u c key (ti_exclusive info)); try done.
        -- apply (so_mgr _ K1).
        -- by apply system_ids.
        -- rewrite <- Eo, <- Hk. by apply Hops.
        -- apply (held_at y b u clb c key _ Hu Hclb). exists info. split; [by left | done].
      * destruct (lookup_lt_is_Some_2 _ _ Hlt) as [f Hf]. destruct (rd_tables _ K3 i f Hf) as (tb & Htb & _).
        destruct (K4 i f tb Hf Htb) as (_ & _ & pm & pis & pf & _ & _ & _ & _ & _ & _ & _ & Hv). exact Hv.
      * pose proof (zlen_nonneg os). lia.
  - intros b u Hu. destruct (decide (b = a)) as [->|Hne]; [by rewrite lookup_insert_eq | rewrite lookup_insert_ne by done; by apply (K8 b u)].
Qed.

Lemma write_step y a cl rs d :
  system_ok y -> y_clients y !! a = Some cl -> c_phase cl = Writing -> fits (c_ops cl) (db_ (y_d y)) ->
  commit_write path options needs_compaction a (y_d y) = Done (rs, d) ->
  system_ok (mkSystem d (if ok rs then written (c_ops cl) (y_d y) (y_hist y) else y_hist y)
    (<[a := mkClient (c_ops cl) [] (Clearing rs)]> (y_clients y))).
Proof.
  intros Hok Hcl Hph Hfits. destruct (yk_clients _ Hok a cl Hcl) as (t & Ha & Hc). unfold commit_write, get_txn. rewrite Ha. cbn [ofopt obind].
  pose proof (co_phase _ _ _ _ _ _ Hc) as Hst. unfold phase_ok in Hst. rewrite Hph in Hst. rewrite (co_batch _ _ _ _ _ _ Hc).
  destruct (WriteImpl _ _ _ _ _ _ _) as [[rs0 db]| |] eqn:Ew; cbn [obind]; [|done..]. intros [= <- <-].
  destruct (write_system y a cl t (c_ops cl) (write_opts_ (base_ t)) rs0 db) as [-> Hok']; try done; [by right | |].
  { intros o Ho. destruct (co_ops _ _ _ _ _ _ Hc o Ho) as (info & Hti & Hx). apply (held_at y a t cl _ _ _ Ha Hcl). exists info. split; [by left | done]. }
  change (ok kOk) with true. cbn iota. set (y1 := mkSystem _ _ _) in Hok'.
  pose proof (phase_step y1 a (mkClient (c_ops cl) [] (c_phase cl)) t (Clearing kOk) Hok' (lookup_insert_eq _ _ _) Ha) as Hp.
  unfold set_client in Hp. subst y1. cbn [y_d y_hist y_clients c_ops c_reads] in Hp. rewrite insert_insert_eq in Hp. apply Hp; [by unfold acq_of; cbn; rewrite Hph | by cbn; rewrite Hph | done].
Qed.

(** ** Batches *)

Lemma others_both a (d1 d2 d3 : PDB) : others_kept a d1 d2 -> others_kept a d2 d3 -> others_kept a d1 d3.
Proof.
  intros H12 H23 b Hb. destruct (H12 b Hb) as [E1|(t & Ht & Hs & E1)], (H23 b Hb) as [E2|(u & Hu & Hs' & E2)].
  - left. congruence.
  - right. exists u. rewrite <- E1. done.
  - right. exists t. rewrite E2. done.
  - rewrite E1 in Hu. by injection Hu as <-.
Qed.

(** The keys that are held when [a] has locked [keys] for its batch. *)
Definition batch_held (y : system) (a : nat) (keys : TxnKeyMaps) (b : nat) (c : Z) (k : bytes) (ex : bool) : Prop :=
  b <> a /\ held y b c k ex \/ b = a /\ exists info, tracked keys c k info /\ ti_exclusive info = ex.

(** Transaction [a], which has no keys of its own, is locking those of a batch. *)
Record batch_at (y : system) (a : nat) (t : PessimisticTransaction) (os : list op) (todo : list (Z * bytes)) (keys : TxnKeyMaps)
    (acqs : gmap nat (option Z * Acquiring)) (d : PDB) : Prop := {
  ba_core : core_ok d acqs (batch_held y a keys);
  ba_others : others_kept a (y_d y) d;
  ba_self : exists l, same_locker (locker t) l /\ transactions d !! a = Some (set_locker l t);
  ba_maps : lock_maps_ (lock_mgr_ d) = lock_maps_ (lock_mgr_ (y_d y));
  ba_db : db_ d = db_ (y_d y);
  ba_todo : batch_todo (cfs_of (y_d y)) os todo keys;
  ba_some : forall c, keys !! c <> Some ∅;
  ba_located : forall c k info, tracked keys c k info -> exists i, located (cfs_of (y_d y)) c k i;
}.

Lemma same_locker_trans l1 l2 l3 : same_locker l1 l2 -> same_locker l2 l3 -> same_locker l1 l3.
Proof. unfold same_locker. intros (?&?&?&?&?) (?&?&?&?&?). split_and!; congruence. Qed.

(** The next key, once the lock manager has been called for it. *)
Lemma batch_called now y a t os c k todo keys acqs acqs' r d d1 :
  batch_at y a t os ((c, k) :: todo) keys acqs d -> (forall t', transactions d !! a = Some t' -> called now a t' c k true r d d1 acqs (batch_held y a keys)) ->
  acqs_after a r acqs = acqs' ->
  match r with
  | Returns rs =>
    if ok rs then batch_at y a t os todo (TrackKey c k kMaxSequenceNumber false true keys) acqs' d1
    else batch_at y a t os ((c, k) :: todo) keys acqs' d1
  | Blocks cv q => batch_at y a t os ((c, k) :: todo) keys acqs' d1 /\ wants (lock_maps_ (lock_mgr_ (y_d y))) t c k true q
  end.
Proof.
  intros [B1 B2 (l & Hl & Ha) B4 B5 B6 B7 B8] Hcd <-. destruct (Hcd _ Ha) as [Hmv Em Hcore Hw]. clear Hcd.
  destruct (moved_self _ _ _ _ _ Hmv Ha) as (l2 & Hl2 & Ha2). cbn [locker set_locker] in Hl2.
  assert (Hself : exists l, same_locker (locker t) l /\ transactions d1 !! a = Some (set_locker l t)).
  { exists l2. split; [by eapply same_locker_trans | done]. }
  assert (Ho : others_kept a (y_d y) d1) by (eapply others_both; [exact B2 | by eapply moved_others]).
  assert (Hstay : forall acqs', core_ok d1 acqs' (batch_held y a keys) -> batch_at y a t os ((c, k) :: todo) keys acqs' d1).
  { intros acqs'' Hc. split; try done; [by rewrite Em | by rewrite (mv_db _ _ _ _ Hmv)]. }
  destruct r as [rs|cv q]; cbn [rs_of] in Hcore.
  - destruct (ok rs) eqn:Er; [|by apply Hstay].
    destruct (bt_todo _ _ _ _ B6 c k ltac:(by left)) as [Hno Hloc].
    destruct (TrackKey_same c k kMaxSequenceNumber false true keys) as (info1 & Hi1 & [[_ Hx1]|(info0 & H0 & _)]); [|by destruct (Hno info0)].
    set (keys' := TrackKey c k kMaxSequenceNumber false true keys) in *.
    assert (Htr : forall c' k' info, tracked keys' c' k' info -> (c', k') = (c, k) /\ info = info1 \/ (c', k') <> (c, k) /\ tracked keys c' k' info).
    { intros c' k' info Hi. destruct (decide ((c', k') = (c, k))) as [[= -> ->]|Hne]; [left; split; [done | by eapply tracked_inj] | right; split; [done|]].
      by eapply TrackKey_other. }
    split; try done; [ | by rewrite Em | by rewrite (mv_db _ _ _ _ Hmv) | | by apply TrackKey_not_empty | ].
    + destruct Hcore as [K1 K2]. split; [done|]. eapply held_ok_sub; [| | exact K2].
      * intros b c' k' ex [[Hne Hx]|(-> & info & Hi & He)]; [left; by left|].
        destruct (Htr _ _ _ Hi) as [[[= -> ->] ->]|[_ Hi']]; [right; split_and!; [done..|congruence] | left; right; split; [done | by exists info]].
      * intros b c' k' ex [[[Hne Hx]|(-> & info & Hi & He)]|(-> & -> & -> & ->)].
        -- exists ex. by left.
        -- exists ex. right. split; [done|]. exists info. split; [|done]. apply TrackKey_other; [|done]. intros [= -> ->]. by apply (Hno info).
        -- exists true. right. split; [done|]. by exists info1.
    + destruct B6 as [N1 N2 N3]. apply NoDup_cons in N1 as [Hnin N1]. split; [done | |].
      * intros c' k' Hin. destruct (N2 c' k' ltac:(by right)) as [Hn Hl']. split; [|done]. intros info Hi.
        destruct (Htr _ _ _ Hi) as [[[= -> ->] _]|[_ Hi']]; [done | by apply (Hn info)].
      * intros o Hin. destruct (N3 o Hin) as [[Eo|Hin']%elem_of_cons|(info & Hi & Hx)]; [| by left |].
        -- injection Eo as Ec Ek. rewrite Ec, Ek. right. by exists info1.
        -- right. exists info. split; [|done]. apply TrackKey_other; [|done]. intros [= Ec Ek]. apply (Hno info). by rewrite <- Ec, <- Ek.
    + intros c' k' info Hi. destruct (Htr _ _ _ Hi) as [[[= -> ->] _]|[_ Hi']]; [done | by eapply B8].
  - split; [by apply Hstay|]. unfold wants, txn_id, expiration_time in *. cbn in Hw. destruct Hl as (E1 & _ & E2 & _). rewrite B4 in Hw. by rewrite E1, E2 in Hw.
Qed.

(** The end of the loop, or of the wait in it. *)
Definition batch_end (y : system) (a : nat) (t : PessimisticTransaction) (os : list op) (acqs : gmap nat (option Z * Acquiring))
    (r : batch_reply) (d : PDB) : Prop :=
  match r with
  | BEnds rs keys => if ok rs then batch_at y a t os [] keys acqs d else batch_at y a t [] [] ∅ acqs d
  | BWaits cv q c k todo keys =>
    batch_at y a t os ((c, k) :: todo) keys (<[a := (cv, q)]> acqs) d /\ wants (lock_maps_ (lock_mgr_ (y_d y))) t c k true q
  end.

Lemma batch_given_up thread y a t os todo keys acqs d d' :
  batch_at y a t os todo keys acqs d -> UnLock order_families order_keys thread a keys d = Done d' -> batch_at y a t [] [] ∅ acqs d'.
Proof.
  intros [B1 B2 (l & Hl & Ha) B4 B5 B6 B7 B8] Hu.
  destruct (UnLock_core thread a _ keys d d' _ _ B1 Ha B7) as ([K1 K2] & Ed & Em); [|exact Hu|].
  { intros c k info Hi. exists (ti_exclusive info). right. split; [done|]. by exists info. }
  assert (Et : transactions d' = transactions d) by (by rewrite Ed).
  split; try done.
  - split; [done|]. eapply held_ok_sub; [| | exact K2].
    + intros b c k ex [[Hne Hx]|(_ & info & (? & [=] & _) & _)]. split; [by left|]. by intros [? _].
    + intros b c k ex [[[Hne Hx]|(-> & info & Hi & He)] Hnot]; [exists ex; by left|]. exfalso. apply Hnot. split; [done|]. by exists info.
  - intros b Hb. rewrite Et. by apply B2.
  - exists l. by rewrite Et.
  - congruence.
  - by rewrite Ed.
  - split; [constructor | by intros c k ?%not_elem_of_nil | by intros o ?%not_elem_of_nil].
  - by intros c k info (? & [=] & _).
Qed.

Lemma lock_keys_at thread free now y a t os acqs todo keys d r d' :
  batch_at y a t os todo keys acqs d -> acqs !! a = None ->
  lock_keys order_families order_keys thread free now a todo keys d = Done (r, d') -> batch_end y a t os acqs r d'.
Proof.
  intros Hb Hq. revert keys d Hb. induction todo as [|[c k] todo IH]; intros keys d Hb; cbn [lock_keys].
  { intros [= <- <-]. done. }
  destruct (db_TryLock _ _ _ _ _ _ _ _) as [[r0 d1]| |] eqn:E1; cbn [obind]; [|done..].
  assert (Hcd : forall t', transactions d !! a = Some t' -> called now a t' c k true r0 d d1 acqs (batch_held y a keys)).
  { intros t' Ht'. eapply (db_TryLock_called thread free now); [apply (ba_core _ _ _ _ _ _ _ _ Hb) | done | done | | exact E1].
    intros x [[? _]|(_ & info & Hi & _)]; [done|]. by destruct (bt_todo _ _ _ _ (ba_todo _ _ _ _ _ _ _ _ Hb) c k ltac:(by left)) as [Hn _]; destruct (Hn info). }
  pose proof (batch_called now y a t os c k todo keys acqs _ r0 d d1 Hb Hcd eq_refl) as Hres. destruct r0 as [rs|cv q]; cbn [acqs_after] in Hres.
  - rewrite delete_id in Hres by done. destruct (ok rs) eqn:Er.
    + intros E2. by eapply IH.
    + destruct (UnLock _ _ _ _ _ _) as [d2| |] eqn:Eu; cbn [obind]; [|done..]. intros [= <- <-]. cbn [batch_end]. rewrite Er. by eapply batch_given_up.
  - intros [= <- <-]. exact Hres.
Qed.

(** The system behind it. *)
Lemma batch_system y a cl t os r d :
  system_ok y -> y_clients y !! a = Some cl -> transactions (y_d y) !! a = Some t -> txn_keys_ (base_ t) = ∅ ->
  wi_batch (write_batch_ (base_ t)) = batch_of [] -> batch_end y a t os (delete a (omap acq_of (y_clients y))) r d ->
  system_ok (set_client a (mkClient [] [] (batch_replied os r)) d y).
Proof.
  intros Hok Hcl Ha Hk Hw Hend.
  assert (Hgen : forall ph os' todo keys acqs, batch_at y a t os' todo keys acqs d -> batch_keys ph = keys ->
    acqs = omap acq_of (<[a := mkClient [] [] ph]> (y_clients y)) ->
    (forall l, same_locker (locker t) l -> phase_ok (lock_maps_ (lock_mgr_ (y_d y))) (cfs_of (y_d y)) (set_locker l t) (mkClient [] [] ph)) ->
    system_ok (set_client a (mkClient [] [] ph) d y)).
  { intros ph os' todo keys acqs [[K1 K2] B2 (l & Hl & Ha') B4 B5 B6 B7 B8] Eph Eacq Hph.
    apply (system_set y a d (set_locker l t)); try done.
    - eapply sys_ok_same; [| | | exact K1]; cbn; [done | done | by rewrite Eacq].
    - eapply held_ok_sub; [| | exact K2]; intros b c k ex Hx.
      + apply (held_set y a d _ _ b c k ex B2 Ha') in Hx as [Hx|(-> & info & [Hi|Hi] & He)]; [by left | | right; split; [done|]; exists info; by rewrite <- Eph].
        cbn in Hi. rewrite Hk in Hi. by destruct Hi as (? & [=] & _).
      + exists ex. apply (held_set y a d _ _ b c k ex B2 Ha'). destruct Hx as [Hx|(-> & info & Hi & He)]; [by left|].
        right. split; [done|]. exists info. split; [right; cbn; by rewrite Eph | done].
    - split; cbn; rewrite ?Hk, ?Hw; try done.
      + intros c. rewrite Eph. done.
      + intros c k info [Hi|Hi]; cbn in Hi; [rewrite Hk in Hi; by destruct Hi as (? & [=] & _)|]. rewrite Eph in Hi. by eapply B8.
      + by intros o ?%not_elem_of_nil.
      + by intros i key x ?%not_elem_of_nil.
      + by apply Hph. }
  assert (Hnone : forall ph, acq_of (mkClient [] [] ph) = None -> delete a (omap acq_of (y_clients y)) = omap acq_of (<[a := mkClient [] [] ph]> (y_clients y))).
  { intros ph Hq. by rewrite (omap_insert_after a (Returns kOk)). }
  destruct r as [rs keys|cv q c k todo keys]; cbn [batch_end batch_replied] in *.
  - destruct (ok rs).
    + eapply (Hgen _ os [] keys); [exact Hend | done | by apply Hnone |]. intros l Hl. cbn. split_and!; [done..|]. apply (ba_todo _ _ _ _ _ _ _ _ Hend).
    + eapply (Hgen _ [] [] ∅); [exact Hend | done | by apply Hnone | done].
  - destruct Hend as [Hend Hwants]. eapply (Hgen _ os); [exact Hend | done | |].
    + rewrite (omap_insert_after a (Blocks cv q)) by done. cbn. by rewrite insert_delete_eq.
    + intros l (E1 & _ & E2 & _). cbn. split_and!; try done; [|apply (ba_todo _ _ _ _ _ _ _ _ Hend)].
      unfold wants, txn_id, expiration_time in *. cbn. by rewrite E1, E2.
Qed.

Lemma batch_held_none y a t cl :
  transactions (y_d y) !! a = Some t -> y_clients y !! a = Some cl -> txn_keys_ (base_ t) = ∅ ->
  forall b c k ex, batch_held y a (batch_keys (c_phase cl)) b c k ex <-> held y b c k ex.
Proof.
  intros Ha Hcl Hk b c k ex. unfold batch_held. destruct (decide (b = a)) as [->|Hne].
  - rewrite (held_at y a t cl c k ex Ha Hcl). unfold locked_key. rewrite Hk. split.
    + intros [[? _]|(_ & info & Hi & He)]; [done|]. exists info. tauto.
    + intros (info & [(? & [=] & _)|Hi] & He). right. split; [done|]. by exists info.
  - split; [intros [[_ ?]|[? _]]; done | by left].
Qed.

Lemma held_ext (d : PDB) hd hd' : (forall a c k ex, hd a c k ex <-> hd' a c k ex) -> held_ok d hd -> held_ok d hd'.
Proof. intros He. apply held_ok_sub; [intros a c k ex; apply He | intros a c k ex Hx; exists ex; by apply He]. Qed.

Lemma directory_family s o i : directory_ok s -> family_of s o = Some i -> GetColumnFamily (op_cfid o) s = Some i.
Proof. intros Hd. unfold family_of. destruct (Z.eqb_spec (op_cfid o) 0) as [->|]; [by rewrite (dk_default _ Hd) | done]. Qed.

Lemma batch_step y a cl t thread free now os r d :
  system_ok y -> y_clients y !! a = Some cl -> cl = idle_client [] [] -> transactions (y_d y) !! a = Some t -> txn_keys_ (base_ t) = ∅ ->
  fits os (db_ (y_d y)) -> LockBatch order_families order_keys thread free now (batch_of os) a (y_d y) = Done (r, d) ->
  system_ok (set_client a (mkClient [] [] (batch_replied os r)) d y).
Proof.
  intros Hok Hcl Ecl Ha Hk (Hb & Hkn & Hl0 & Hl). destruct (yk_clients _ Hok a cl Hcl) as (t0 & Ha0 & Hc). assert (t0 = t) as -> by congruence.
  unfold LockBatch. pose proof Hb as (Hb1 & Hb2 & Hb3). destruct (batch_parts os 0 Hb1 Hb2 Hb3 ltac:(done)) as (Eit & _).
  unfold batch_of. rewrite Eit. cbn [ofopt obind]. intros E1.
  assert (Hq : omap acq_of (y_clients y) !! a = None) by (by rewrite lookup_omap, Hcl, Ecl).
  apply (batch_system y a cl t); try done; [by rewrite (co_batch _ _ _ _ _ _ Hc), Ecl|].
  eapply (lock_keys_at thread free now y a t os _ (recorded os) ∅ (y_d y)); [|by apply lookup_delete_eq | exact E1].
  rewrite (delete_id _ a Hq). destruct (recorded_spec os) as [Hnd Hel]. split; try done.
  - split; [apply (yk_locks _ Hok)|]. eapply held_ext; [|apply (yk_held _ Hok)]. intros b c k ex.
    pose proof (batch_held_none y a t cl Ha Hcl Hk b c k ex) as Hx. rewrite Ecl in Hx. cbn in Hx. by rewrite Hx.
  - intros b Hb'. by left.
  - exists (locker t). split; [done|]. by rewrite set_own_locker.
  - split; [done | |].
    + intros c k (o & Ho & [= <- <-])%Hel. split; [by intros info (? & [=] & _)|]. rewrite Forall_forall in Hkn.
      destruct (Hkn o Ho) as (i & f & Hi & Hf & Hlen). exists i. split_and!; [by apply directory_family; [apply (yk_directory _ Hok)|] | by eapply lookup_lt_Some | by destruct o].
    + intros o Ho. left. apply Hel. by exists o.
  - by intros c k info (? & [=] & _).
Qed.

Lemma batch_wake_step y a cl os cv q c k todo keys thread free now rs r d :
  system_ok y -> y_clients y !! a = Some cl -> c_phase cl = Batching os cv q c k todo keys -> rs = kOk \/ rs = kTimeout ->
  lock_keys_wake order_families order_keys thread free now rs a cv q c k todo keys (y_d y) = Done (r, d) ->
  system_ok (set_client a (mkClient [] [] (batch_replied os r)) d y).
Proof.
  intros Hok Hcl Hph Hrs. destruct (yk_clients _ Hok a cl Hcl) as (t & Ha & Hc). pose proof (co_phase _ _ _ _ _ _ Hc) as Hp.
  unfold phase_ok in Hp. rewrite Hph in Hp. destruct Hp as (Hwants & Hk & Hops & Hreads & Htodo). unfold lock_keys_wake.
  destruct (db_Wake _ _ _ _ _ _) as [[r0 d1]| |] eqn:E1; cbn [obind]; [|done..]. intros E2.
  assert (Hq : omap acq_of (y_clients y) !! a = Some (cv, q)) by (rewrite lookup_omap, Hcl; cbn; unfold acq_of; by rewrite Hph).
  assert (Hat : batch_at y a t os ((c, k) :: todo) keys (omap acq_of (y_clients y)) (y_d y)).
  { split; try done.
    - split; [apply (yk_locks _ Hok)|]. eapply held_ext; [|apply (yk_held _ Hok)]. intros b c' k' ex.
      pose proof (batch_held_none y a t cl Ha Hcl Hk b c' k' ex) as Hx. rewrite Hph in Hx. cbn in Hx. by rewrite Hx.
    - intros b Hb'. by left.
    - exists (locker t). split; [done|]. by rewrite set_own_locker.
    - intros c'. pose proof (co_some _ _ _ _ _ _ Hc c') as [_ Hs]. by rewrite Hph in Hs.
    - intros c' k' info Hi. apply (co_located _ _ _ _ _ _ Hc c' k' info). rewrite Hph. by right. }
  apply (batch_system y a cl t); try done; [by rewrite (co_batch _ _ _ _ _ _ Hc), Hops|].
  assert (Hcd : forall t', transactions (y_d y) !! a = Some t' -> called now a t' c k true r0 (y_d y) d1 (omap acq_of (y_clients y)) (batch_held y a keys)).
  { intros t' Ht'. assert (t' = t) as -> by congruence.
    eapply (db_Wake_called now rs cv q); [apply (ba_core _ _ _ _ _ _ _ _ Hat) | done | done | | exact Hwants | exact Hrs | exact E1].
    intros x [[? _]|(_ & info & Hi & _)]; [done|]. by destruct (bt_todo _ _ _ _ Htodo c k ltac:(by left)) as [Hn _]; destruct (Hn info). }
  pose proof (batch_called now y a t os c k todo keys _ _ r0 (y_d y) d1 Hat Hcd eq_refl) as Hres.
  destruct r0 as [rs0|cv' q']; cbn [acqs_after] in Hres.
  - destruct (ok rs0) eqn:Er.
    + eapply lock_keys_at; [exact Hres | apply lookup_delete_eq | exact E2].
    + destruct (UnLock _ _ _ _ _ _) as [d2| |] eqn:Eu; cbn [obind] in E2; [|done..]. injection E2 as <- <-. cbn [batch_end]. rewrite Er. by eapply batch_given_up.
  - injection E2 as <- <-. cbn [batch_end]. by rewrite insert_delete_eq.
Qed.

Lemma batch_commit_step y a cl os keys thread now rs d :
  system_ok y -> y_clients y !! a = Some cl -> c_phase cl = Batched os keys -> fits os (db_ (y_d y)) ->
  commit_batch path options needs_compaction order_families order_keys thread now (batch_of os) keys a (y_d y) = Done (rs, d) ->
  system_ok (mkSystem d (if ok rs then written os (y_d y) (y_hist y) else y_hist y) (<[a := idle_client [] []]> (y_clients y))).
Proof.
  intros Hok Hcl Hph Hfits. destruct (yk_clients _ Hok a cl Hcl) as (t & Ha & Hc). pose proof (co_phase _ _ _ _ _ _ Hc) as Hp.
  unfold phase_ok in Hp. rewrite Hph in Hp. destruct Hp as (Hk & Hops & Hreads & Htodo).
  unfold commit_batch, get_txn at 1. rewrite Ha. cbn [ofopt obind].
  set (x := if IsExpired now t then _ else _).
  assert (Hx : (fst x = true /\ state t = STARTED \/ fst x = false) /\
    (snd x = t \/ fst x = true /\ snd x = set_base (set_state AWAITING_COMMIT (base_ t)) t)).
  { unfold x. destruct (IsExpired now t); [by split; [right | left]|]. destruct (0 <? expiration_time t).
    - unfold update_state. case_bool_decide; cbn; split; auto.
    - cbn. split; [|by left]. case_bool_decide; auto. }
  destruct x as [can t1]. cbn [fst snd] in Hx. destruct Hx as [Hcan Ht1].
  assert (E1 : locker t1 = locker t /\ txn_keys_ (base_ t1) = ∅ /\ write_batch_ (base_ t1) = write_batch_ (base_ t) /\ write_opts_ (base_ t1) = write_opts_ (base_ t))
    by (destruct Ht1 as [->|[_ ->]]; done). destruct E1 as (El1 & Ek1 & Ew1 & Eo1).
  assert (Hact1 : active t1 -> active t).
  { destruct Ht1 as [->|[Hc1 ->]]; [done|]. intros _. destruct Hcan as [[_ Hs]|?]; [by left | congruence]. }
  (* the release, on a system whose transaction is [t1] *)
  assert (Hrel : forall y1 d1 t2 d2, system_ok y1 -> y_clients y1 !! a = Some (mkClient [] [] (Batched os keys)) -> transactions (y_d y1) !! a = Some t2 ->
    txn_keys_ (base_ t2) = ∅ -> wi_batch (write_batch_ (base_ t2)) = batch_of [] -> d1 = y_d y1 ->
    UnLock order_families order_keys thread a keys d1 = Done d2 -> system_ok (set_client a (idle_client [] []) d2 y1)).
  { intros y1 d1 t2 d2 Hok1 Hcl1 Ha1 Hk2 Hw2 -> Hu. destruct (yk_clients _ Hok1 a _ Hcl1) as (t2' & Ha2' & Hc2). assert (t2' = t2) as -> by congruence.
    assert (Et : transactions d2 = transactions (y_d y1)).
    { unfold UnLock, get_txn in Hu. rewrite Ha1 in Hu. cbn [ofopt obind] in Hu. destruct (Unlock _ _ _ _) as [g| |]; cbn [obind] in Hu; [|done..]. by injection Hu as <-. }
    eapply (release_step thread y1 a _ t2 keys (y_d y1) d2 t2 d2); try done.
    - intros c. apply (co_some _ _ _ _ _ _ Hc2).
    - intros c k info. unfold locked_key. rewrite Hk2. cbn. split; [intros [(? & [=] & _)|]; done | by right].
    - by eapply same_locking_refl.
    - eapply (same_locking_put d2 d2 a t2 t2); try done; [by rewrite Et | by rewrite insert_id by (by rewrite Et)].
    - by rewrite insert_id by (by rewrite Et).
    - split; cbn; rewrite ?Hk2, ?Hw2; try done.
      + intros c k info [Hi|Hi]; [cbn in Hi; rewrite Hk2 in Hi|]; by destruct Hi as (? & [=] & _).
      + by intros o ?%not_elem_of_nil.
      + by intros i key z ?%not_elem_of_nil. }
  assert (Ecl : cl = mkClient [] [] (Batched os keys)) by (destruct cl; cbn in *; congruence).
  assert (Hok1 : system_ok (set_client a cl (put_txn a t1 (y_d y)) y)).
  { eapply (state_step y a cl t t1); try done; [by apply (same_put a t t1) | by rewrite Ek1 |]. unfold phase_ok. rewrite Hph. done. }
  set (y1 := set_client a cl (put_txn a t1 (y_d y)) y) in *.
  assert (Ha1 : transactions (y_d y1) !! a = Some t1) by apply lookup_insert_eq.
  assert (Hcl1 : y_clients y1 !! a = Some cl) by apply lookup_insert_eq.
  assert (Hw1 : wi_batch (write_batch_ (base_ t1)) = batch_of []) by (by rewrite Ew1, (co_batch _ _ _ _ _ _ Hc), Hops).
  destruct can.
  - destruct (WriteImpl _ _ _ _ _ _ _) as [[rs0 db]| |] eqn:Ew; cbn [obind]; [|done..]. rewrite Eo1 in Ew.
    assert (Hst : active t1) by (destruct Hcan as [[_ Hs]|?]; [destruct Ht1 as [->|[_ ->]]; [by left | by right] | done]).
    destruct (write_system y1 a cl t1 os (write_opts_ (base_ t)) rs0 db) as [-> Hok2]; try done.
    { intros o Ho. apply (held_at y1 a t1 cl _ _ _ Ha1 Hcl1). destruct (bt_ops _ _ _ _ Htodo o Ho) as [?%not_elem_of_nil|(info & Hi & He)]; [done|].
      exists info. split; [|done]. right. by rewrite Hph. }
    change (ok kOk) with true. cbn iota. unfold set_txn_state, get_txn. cbn [transactions set_db put_txn set_transactions]. rewrite lookup_insert_eq. cbn [ofopt obind].
    set (t2 := set_base (set_state COMMITED (base_ t1)) t1). set (d2 := put_txn a t2 _).
    destruct (UnLock _ _ _ _ _ d2) as [d3| |] eqn:Eu; cbn [obind]; [|done..]. intros [= <- <-]. change (ok kOk) with true. cbn iota.
    set (y2 := mkSystem _ _ _) in Hok2.
    assert (Hcl2 : y_clients y2 !! a = Some cl) by (unfold y2; cbn [y_clients]; by rewrite lookup_insert_eq, Ecl).
    assert (Ha2 : transactions (y_d y2) !! a = Some t1) by apply lookup_insert_eq.
    assert (Hok3 : system_ok (set_client a cl d2 y2)).
    { eapply (state_step y2 a cl t1 t2); try done; [by apply (same_put a t1 t2) |].
      destruct (yk_clients _ Hok2 a cl Hcl2) as (t1' & Ha1' & Hc1'). assert (t1' = t1) as -> by congruence.
      pose proof (co_phase _ _ _ _ _ _ Hc1') as Hp1. unfold phase_ok in *. by rewrite Hph in *. }
    pose proof (Hrel (set_client a cl d2 y2) d2 t2 d3 Hok3) as Hfin. unfold set_client in Hfin. cbn [y_clients y_d y_hist] in Hfin.
    rewrite !insert_insert_eq in Hfin. subst y2 y1. cbn [y_clients y_d y_hist set_client] in *. rewrite !insert_insert_eq in Hfin.
    apply Hfin; try done; [by rewrite lookup_insert_eq, Ecl | apply lookup_insert_eq].
  - cbn [obind]. destruct (UnLock _ _ _ _ _ _) as [d3| |] eqn:Eu; cbn [obind]; [|done..]. intros [= <- <-]. change (ok kCorruption) with false. cbn iota.
    pose proof (Hrel y1 (y_d y1) t1 d3 Hok1) as Hfin. unfold set_client in Hfin. subst y1. cbn [y_clients y_d y_hist set_client] in *.
    rewrite !insert_insert_eq in Hfin. apply Hfin; try done. by rewrite lookup_insert_eq, Ecl.
Qed.

(** ** Beginning and ending *)

(** A transaction that holds nothing is replaced, by nothing or by one with a
    new id or its own. *)
Lemma held_replaced a (d d' : PDB) hd :
  held_ok d hd -> (forall c k ex, ~ hd a c k ex) -> lock_mgr_ d' = lock_mgr_ d ->
  (forall b, b <> a -> transactions d' !! b = transactions d !! b) -> next_txn_id_ d <= next_txn_id_ d' ->
  (forall t, transactions d' !! a = Some t -> txn_id t < next_txn_id_ d' /\ (0 < expiration_time t -> expirable_txns_ d' !! txn_id t = Some a)) ->
  (forall b t, b <> a -> transactions d !! b = Some t -> 0 < expiration_time t -> expirable_txns_ d' !! txn_id t = Some b) ->
  (forall id b, expirable_txns_ d' !! id = Some b -> id < next_txn_id_ d' /\
    forall x t, transactions d' !! x = Some t -> txn_id t = id -> b = x /\ 0 < expiration_time t) ->
  held_ok d' hd.
Proof.
  intros [H1 H2 H3 H4 H5 H6 H7 H8 H9] Hno Em Hoth Hn Hself Hexp Hptr. split; rewrite ?Em; try done.
  - intros b t Hb. destruct (decide (b = a)) as [->|Hne]; [by apply Hself|]. rewrite Hoth in Hb by done. specialize (H5 b t Hb). lia.
  - intros b t Hb. destruct (decide (b = a)) as [->|Hne]; [by apply Hself|]. rewrite Hoth in Hb by done. by apply Hexp.
  - intros c am k info Hm Hl. destruct (H8 c am k info Hm Hl) as [Hnd Hh]. split; [done|]. intros id Hid.
    destruct (Hh id Hid) as (b & t & Hb & Ei & (ex & Hx) & Hr). exists b, t. rewrite Hoth by (intros ->; by apply (Hno c k ex)). split_and!; try done; [by exists ex | apply Hr..].
  - intros b t c k ex Hb Hact Hx. apply (H9 b t c k ex); [|done..]. rewrite <- Hoth; [done|]. intros ->. by apply (Hno c k ex).
Qed.

(** What [Initialize] makes of a transaction. *)
Lemma Initialize_at opts a t (d d' : PDB) :
  transactions d !! a = Some t -> Initialize opts a d = Done d' ->
  exists t', transactions d' = <[a := t']> (transactions d) /\ txn_id t' = next_txn_id_ d /\ base_ t' = set_state STARTED (base_ t) /\
    lock_mgr_ d' = lock_mgr_ d /\ next_txn_id_ d' = wrap 64 (next_txn_id_ d + 1) /\ db_ d' = db_ d /\
    expirable_txns_ d' = (if 0 <? expiration_time t' then VersionSet.insert_new (next_txn_id_ d) a (expirable_txns_ d) else expirable_txns_ d).
Proof.
  intros Ha. unfold Initialize, get_txn. rewrite Ha. cbn [ofopt obind GenerateTxnID]. intros [= <-].
  set (l := mkLocker _ _ _ _ _ _ _ _). exists (set_locker l (set_base (set_state STARTED (base_ t)) t)). unfold expiration_time. cbn [locker set_locker].
  change (if 0 <=? o_expiration opts then _ else 0) with (expiration_time_ l). by destruct (0 <? expiration_time_ l).
Qed.

(** The system with a new transaction at [a], where there is none or one that
    holds nothing. *)
Lemma begin_system y a d t' :
  system_ok y -> (forall c k ex, ~ held y a c k ex) -> (forall cl, y_clients y !! a = Some cl -> acq_of cl = None) ->
  transactions d = <[a := t']> (transactions (y_d y)) -> lock_mgr_ d = lock_mgr_ (y_d y) -> db_ d = db_ (y_d y) ->
  next_txn_id_ (y_d y) <= next_txn_id_ d -> txn_id t' < next_txn_id_ d ->
  (forall b u, b <> a -> transactions (y_d y) !! b = Some u -> txn_id u <> txn_id t') ->
  expirable_txns_ d = (if 0 <? expiration_time t' then VersionSet.insert_new (txn_id t') a (expirable_txns_ (y_d y)) else expirable_txns_ (y_d y)) ->
  (forall b, expirable_txns_ (y_d y) !! txn_id t' = Some b -> b = a /\ 0 < expiration_time t') ->
  txn_keys_ (base_ t') = ∅ -> wi_batch (write_batch_ (base_ t')) = batch_of [] ->
  system_ok (set_client a (idle_client [] []) d y).
Proof.
  intros Hok Hno Hq Et Em Edb Hn Hid Hdiff Hexp Hptr Hk Hw. pose proof (yk_held _ Hok) as Hh.
  assert (Ho : others_kept a (y_d y) d) by (by eapply put_others).
  assert (Ha : transactions d !! a = Some t') by (by rewrite Et, lookup_insert_eq).
  assert (Hexp' : forall id, expirable_txns_ d !! id = expirable_txns_ (y_d y) !! id \/
    (id = txn_id t' /\ 0 < expiration_time t' /\ expirable_txns_ d !! id = Some a)).
  { intros id. rewrite Hexp. destruct (Z.ltb_spec 0 (expiration_time t')); [|by left]. unfold VersionSet.insert_new.
    destruct (expirable_txns_ (y_d y) !! txn_id t') as [b|] eqn:Eb; [by left|].
    destruct (decide (id = txn_id t')) as [->|Hne]; [right; by rewrite lookup_insert_eq | left; by rewrite lookup_insert_ne]. }
  assert (Hself : 0 < expiration_time t' -> expirable_txns_ d !! txn_id t' = Some a).
  { intros Hpos. rewrite Hexp. destruct (Z.ltb_spec 0 (expiration_time t')); [|lia]. unfold VersionSet.insert_new.
    destruct (expirable_txns_ (y_d y) !! txn_id t') as [b|] eqn:Eb; [|by rewrite lookup_insert_eq]. destruct (Hptr b eq_refl) as [-> _]. exact Eb. }
  apply (system_set y a d t'); try done; [by rewrite Em | | |].
  - eapply (sys_ok_same (mkSys (lock_mgr_ (y_d y)) (owners_of (y_d y)) (<[a := locker t']> (delete a (locker <$> transactions (y_d y)))) (omap acq_of (y_clients y)))); cbn.
    + done.
    + by rewrite Et, fmap_insert, insert_delete_eq.
    + apply map_eq. intros b. rewrite !lookup_omap. destruct (decide (b = a)) as [->|Hne]; [|by rewrite lookup_insert_ne].
      rewrite lookup_insert_eq. destruct (y_clients y !! a) as [cl|] eqn:Ecl; cbn; [by rewrite (Hq cl eq_refl) | done].
    + assert (Hs : sys_ok (mkSys (lock_mgr_ (y_d y)) (owners_of (y_d y)) (delete a (locker <$> transactions (y_d y))) (omap acq_of (y_clients y)))).
      { eapply step_ok; [apply (yk_locks _ Hok)|]. apply (TxnSteps.step_end (lock_system y) a). cbn. rewrite lookup_omap.
        destruct (y_clients y !! a) as [cl|] eqn:Ecl; cbn; [by apply Hq | done]. }
      eapply step_ok; [exact Hs|]. refine (TxnSteps.step_begin _ a (locker t') _ _); cbn; [apply lookup_delete_eq|].
      intros b l [Hne Hb]%lookup_delete_Some. rewrite lookup_fmap in Hb. destruct (transactions (y_d y) !! b) as [u|] eqn:Eu; [|done].
      injection Hb as <-. apply (Hdiff b u); [congruence | done].
  - eapply (held_ok_sub _ (held y)).
    + intros b c k ex [[_ Hx]|(-> & info & [(? & Hi & _)|(? & [=] & _)] & _)]%(held_set y a d _ t' b c k ex Ho Ha); [done|]. by rewrite Hk in Hi.
    + intros b c k ex Hx. exists ex. apply (held_set y a d _ t' b c k ex Ho Ha). left. split; [|done]. intros ->. by apply (Hno c k ex).
    + eapply (held_replaced a (y_d y)); try done.
      * intros b Hb. by rewrite Et, lookup_insert_ne.
      * intros t Ht. rewrite Ha in Ht. injection Ht as <-. done.
      * intros b u Hb Hu Hpos. destruct (Hexp' (txn_id u)) as [->|(Ei & _)]; [by apply (ho_expirable _ _ Hh)|]. by destruct (Hdiff b u Hb Hu).
      * intros id b Hb. destruct (Hexp' id) as [E1|(-> & Hpos & E1)].
        -- rewrite E1 in Hb. destruct (ho_pointed _ _ Hh id b Hb) as [Hlt Hp]. split; [lia|]. intros x u. rewrite Et.
           intros [[<- <-]|[Hne Hx]]%lookup_insert_Some Eid; [apply Hptr; by rewrite Eid | by apply (Hp x u)].
        -- rewrite E1 in Hb. injection Hb as <-. split; [done|]. intros x u. rewrite Et. intros [[<- <-]|[Hne Hx]]%lookup_insert_Some Eid; [done|].
           destruct (Hdiff x u ltac:(congruence) Hx Eid).
  - split; cbn; rewrite ?Hk, ?Hw; try done.
    + intros c k info [Hi|Hi]; [cbn in Hi; rewrite Hk in Hi|]; by destruct Hi as (? & [=] & _).
    + by intros o ?%not_elem_of_nil.
    + by intros i key z ?%not_elem_of_nil.
Qed.

Lemma not_held_absent y a : transactions (y_d y) !! a = None -> forall c k ex, ~ held y a c k ex.
Proof. intros Ha c k ex (t & cl & info & Ht & _). congruence. Qed.

Lemma not_held_empty y a cl t :
  y_clients y !! a = Some cl -> c_phase cl = Idle -> transactions (y_d y) !! a = Some t -> txn_keys_ (base_ t) = ∅ ->
  forall c k ex, ~ held y a c k ex.
Proof.
  intros Hcl Hid Ha Hk c k ex (info & [Hi|Hi] & _)%(held_at y a t cl c k ex Ha Hcl); [rewrite Hk in Hi | rewrite Hid in Hi]; by destruct Hi as (? & [=] & _).
Qed.

Lemma Initialize_system y a opts t d0 d :
  system_ok y -> (forall c k ex, ~ held y a c k ex) -> (forall cl, y_clients y !! a = Some cl -> acq_of cl = None) ->
  transactions d0 = <[a := t]> (transactions (y_d y)) -> lock_mgr_ d0 = lock_mgr_ (y_d y) -> db_ d0 = db_ (y_d y) ->
  next_txn_id_ d0 = next_txn_id_ (y_d y) -> expirable_txns_ d0 = expirable_txns_ (y_d y) -> is_u 64 (next_txn_id_ (y_d y) + 1) ->
  txn_keys_ (base_ t) = ∅ -> wi_batch (write_batch_ (base_ t)) = batch_of [] -> Initialize opts a d0 = Done d ->
  system_ok (set_client a (idle_client [] []) d y).
Proof.
  intros Hok Hno Hq Et Em Edb En Ee Hu Hk Hw Hi. pose proof (yk_held _ Hok) as Hh.
  destruct (Initialize_at opts a t d0 d ltac:(by rewrite Et, lookup_insert_eq) Hi) as (t' & Et' & Eid & Eb & Em' & En' & Edb' & Ee').
  rewrite Et, insert_insert_eq in Et'. rewrite Em in Em'. rewrite Edb in Edb'. rewrite En in Eid, En', Ee'. rewrite Ee in Ee'.
  rewrite wrap_small in En' by exact Hu. apply (begin_system y a d t'); rewrite ?Eid, ?En', ?Eb; try done; [lia | lia | |].
  - intros b u _ Hb. pose proof (ho_ids _ _ Hh b u Hb). lia.
  - intros b Hb. destruct (ho_pointed _ _ Hh _ b Hb). lia.
Qed.

Lemma begin_step y a opts wr_opts now d :
  system_ok y -> transactions (y_d y) !! a = None -> is_u 64 (next_txn_id_ (y_d y) + 1) ->
  NewPessimisticTransaction opts wr_opts now a (y_d y) = Done d -> system_ok (set_client a (idle_client [] []) d y).
Proof.
  intros Hok Ha Hu. eapply Initialize_system; try done; [by apply not_held_absent |].
  intros cl Hcl. destruct (yk_clients _ Hok a cl Hcl) as (t & Ht & _). congruence.
Qed.

Lemma unregister_named_names a (d d' : PDB) : unregister_named a d = Done d' -> d' = set_names (txns_ d') d.
Proof.
  unfold unregister_named. destruct (get_txn a d) as [t| |]; cbn [obind]; [|done..]. case_match; [apply Unregister_names|].
  intros [= <-]. by destruct d.
Qed.

Lemma again_step y a cl t opts wr_opts now d :
  system_ok y -> y_clients y !! a = Some cl -> c_phase cl = Idle -> transactions (y_d y) !! a = Some t -> txn_keys_ (base_ t) = ∅ ->
  is_u 64 (next_txn_id_ (y_d y) + 1) -> pt_Reinitialize opts wr_opts now a (y_d y) = Done d ->
  system_ok (set_client a (idle_client [] []) d y).
Proof.
  intros Hok Hcl Hid Ha Hk Hu. destruct (yk_clients _ Hok a cl Hcl) as (t' & Ha' & Hc). assert (t' = t) as -> by congruence.
  unfold pt_Reinitialize. destruct (unregister_named a (y_d y)) as [d0| |] eqn:E0; cbn [obind]; [|done..].
  apply unregister_named_names in E0. unfold get_txn. rewrite E0. cbn [transactions set_names]. rewrite Ha. cbn [ofopt obind].
  eapply Initialize_system; try done; [by eapply not_held_empty | |].
  - intros cl' Hcl'. assert (cl' = cl) as -> by congruence. unfold acq_of. by rewrite Hid.
  - cbn. rewrite (co_batch _ _ _ _ _ _ Hc). apply Clear_batch_of.
Qed.

Lemma timeout_step y a t timeout d :
  system_ok y -> y_clients y !! a = Some (idle_client [] []) -> transactions (y_d y) !! a = Some t -> txn_keys_ (base_ t) = ∅ ->
  set_lock_timeout timeout a (y_d y) = Done d -> system_ok (set_client a (idle_client [] []) d y).
Proof.
  intros Hok Hcl Ha Hk. destruct (yk_clients _ Hok a _ Hcl) as (t' & Ha' & Hc). assert (t' = t) as -> by congruence. pose proof (yk_held _ Hok) as Hh.
  unfold set_lock_timeout, get_txn. rewrite Ha. cbn [ofopt obind]. intros [= <-]. eapply begin_system; try done.
  - by eapply not_held_empty.
  - intros cl Hcl'. by assert (cl = idle_client [] []) as -> by congruence.
  - by apply (ho_ids _ _ Hh a t).
  - intros b u Hne Hb Eid. apply Hne. by apply (system_ids y Hok b a u t).
  - unfold txn_id, expiration_time. cbn. destruct (Z.ltb_spec 0 (expiration_time_ (locker t))) as [Hpos|]; [|done].
    unfold VersionSet.insert_new. change (lk_id (locker t)) with (txn_id t). by rewrite (ho_expirable _ _ Hh a t Ha Hpos).
  - intros b Hb. by apply (proj2 (ho_pointed _ _ Hh _ b Hb) a t).
  - apply (co_batch _ _ _ _ _ _ Hc).
Qed.

Lemma set_client_id y a cl : y_clients y !! a = Some cl -> set_client a cl (y_d y) y = y.
Proof. intros Hcl. unfold set_client. rewrite insert_id by done. by destruct y. Qed.

Lemma name_step y a cl name rs d :
  system_ok y -> y_clients y !! a = Some cl -> c_phase cl = Idle -> SetName name a (y_d y) = Done (rs, d) -> system_ok (set_client a cl d y).
Proof.
  intros Hok Hcl Hid. destruct (yk_clients _ Hok a cl Hcl) as (t & Ha & Hc). unfold SetName, get_txn. rewrite Ha. cbn [ofopt obind].
  assert (Hsame : system_ok (set_client a cl (y_d y) y)) by (by rewrite set_client_id).
  case_bool_decide as Hs; [|by intros [= <- <-]]. destruct (negb _); [by intros [= <- <-]|]. case_bool_decide; [by intros [= <- <-]|].
  destruct (_ || _); [by intros [= <- <-]|]. unfold RegisterTransaction, get_txn. cbn [transactions put_txn set_transactions].
  rewrite lookup_insert_eq. cbn [ofopt obind]. intros [= <- <-].
  eapply (state_step y a cl t (set_name name t)); try done; [by apply (same_locking_put _ _ a t (set_name name t)) |].
  unfold phase_ok. by rewrite Hid.
Qed.

(** The system without transaction [a], which holds nothing. *)
Lemma end_system y a t d :
  system_ok y -> y_clients y !! a = Some (idle_client [] []) -> transactions (y_d y) !! a = Some t -> txn_keys_ (base_ t) = ∅ ->
  transactions d = delete a (transactions (y_d y)) -> lock_mgr_ d = lock_mgr_ (y_d y) -> db_ d = db_ (y_d y) ->
  next_txn_id_ d = next_txn_id_ (y_d y) ->
  expirable_txns_ d = (if 0 <? expiration_time t then delete (txn_id t) (expirable_txns_ (y_d y)) else expirable_txns_ (y_d y)) ->
  system_ok (mkSystem d (y_hist y) (delete a (y_clients y))).
Proof.
  intros Hok Hcl Ha Hk Et Em Edb En Ee. pose proof (yk_held _ Hok) as Hh. pose proof Hok as [K1 K2 K3 K4 K5 K6 K7 K8].
  assert (Hno : forall c k ex, ~ held y a c k ex) by (by eapply not_held_empty).
  assert (Hoth : forall b, b <> a -> transactions d !! b = transactions (y_d y) !! b) by (intros b Hb; by rewrite Et, lookup_delete_ne).
  assert (Hgone : forall b u, transactions d !! b = Some u -> b <> a /\ transactions (y_d y) !! b = Some u)
    by (intros b u Hb; rewrite Et in Hb; apply lookup_delete_Some in Hb as [? ?]; done).
  assert (Hexp : forall id b, expirable_txns_ d !! id = Some b -> expirable_txns_ (y_d y) !! id = Some b)
    by (intros id b; rewrite Ee; destruct (0 <? _); [by intros [_ ?]%lookup_delete_Some | done]).
  split; cbn [y_d y_hist y_clients]; rewrite ?Em, ?Edb; try done.
  - eapply (sys_ok_same (mkSys (lock_mgr_ (y_d y)) (owners_of (y_d y)) (delete a (locker <$> transactions (y_d y))) (omap acq_of (y_clients y)))); cbn; try done.
    + by rewrite Et, fmap_delete.
    + apply map_eq. intros b. rewrite !lookup_omap. destruct (decide (b = a)) as [->|Hne]; [by rewrite lookup_delete_eq, Hcl | by rewrite lookup_delete_ne].
    + eapply step_ok; [exact K1|]. apply (TxnSteps.step_end (lock_system y) a). cbn. by rewrite lookup_omap, Hcl.
  - apply (held_ext _ (held y)).
    + intros b c k ex. split.
      * intros (u & cl & info & Hu & Hb & R). exists u, cl, info. cbn [y_d y_clients].
        assert (b <> a) as Hne by (intros ->; apply (Hno c k ex); by exists u, cl, info). by rewrite Hoth, lookup_delete_ne.
      * intros (u & cl & info & Hu & Hb & R). cbn [y_d y_clients] in *. destruct (Hgone b u Hu) as [_ Hu'].
        apply lookup_delete_Some in Hb as [_ Hb]. by exists u, cl, info.
    + eapply (held_replaced a (y_d y)); try done; [by rewrite En | | |].
      * intros u Hu. by destruct (Hgone a u Hu).
      * intros b u Hb Hu Hpos. pose proof (ho_expirable _ _ Hh b u Hu Hpos) as Hx. rewrite Ee. destruct (0 <? _); [|done].
        rewrite lookup_delete_ne; [done|]. intros Eid. apply Hb. by apply (system_ids y Hok b a u t).
      * intros id b Hb%Hexp. rewrite En. destruct (ho_pointed _ _ Hh id b Hb) as [? Hp]. split; [done|]. intros x u [_ Hu]%Hgone. by apply Hp.
  - intros b cl [Hne Hb]%lookup_delete_Some. destruct (K7 b cl Hb) as (u & Hu & Hc). exists u. by rewrite Hoth.
  - intros b u [Hne Hu]%Hgone. rewrite lookup_delete_ne by done. by apply (K8 b u).
Qed.

Lemma delete_step thread y a cl d :
  system_ok y -> y_clients y !! a = Some cl -> c_phase cl = Idle ->
  DeletePessimisticTransaction order_families order_keys thread a (y_d y) = Done d ->
  system_ok (mkSystem d (y_hist y) (delete a (y_clients y))).
Proof.
  intros Hok Hcl Hid. destruct (yk_clients _ Hok a cl Hcl) as (t & Ha & Hc). unfold DeletePessimisticTransaction, get_txn at 1. rewrite Ha. cbn [ofopt obind].
  destruct (UnLock _ _ _ _ _ _) as [d1| |] eqn:Eu; cbn [obind]; [|done..]. set (d2 := if 0 <? _ then _ else d1).
  destruct (unregister_named a d2) as [d3| |] eqn:E3; cbn [obind]; [|done..]. apply unregister_named_names in E3. intros [= <-].
  (* the state in which the keys are gone *)
  assert (Et : transactions d1 = transactions (y_d y) /\ expirable_txns_ d1 = expirable_txns_ (y_d y) /\ next_txn_id_ d1 = next_txn_id_ (y_d y) /\
    db_ d1 = db_ (y_d y)).
  { unfold UnLock, get_txn in Eu. rewrite Ha in Eu. cbn [ofopt obind] in Eu. destruct (Unlock _ _ _ _); cbn [obind] in Eu; [|done..]. by injection Eu as <-. }
  destruct Et as (Et & Ee & En & Edb).
  set (t' := set_base (set_state (state t) (txn_Clear (base_ t))) t).
  assert (Hok' : system_ok (set_client a (idle_client [] []) (put_txn a t' d1) y)).
  { eapply (clear_with thread y a cl t (y_d y) (put_txn a (set_base (txn_Clear (base_ t)) t) d1)); try done.
    - unfold acq_of. by rewrite Hid.
    - by rewrite Hid.
    - by eapply same_locking_refl.
    - unfold pt_Clear, get_txn. rewrite Ha. cbn [ofopt obind]. rewrite Eu. cbn [obind]. done.
    - unfold put_txn. cbn. unfold set_transactions. cbn. by rewrite insert_insert_eq.
    - by left. }
  set (y' := set_client a _ _ _) in Hok'.
  pose proof (end_system y' a t' (set_transactions (delete a (transactions d3)) d3) Hok') as Hend.
  unfold y', set_client in Hend. cbn [y_d y_hist y_clients] in Hend. rewrite delete_insert_eq in Hend.
  assert (Ed2 : transactions d2 = transactions d1 /\ lock_mgr_ d2 = lock_mgr_ d1 /\ next_txn_id_ d2 = next_txn_id_ d1 /\ db_ d2 = db_ d1 /\
    expirable_txns_ d2 = if 0 <? expiration_time t then delete (txn_id t) (expirable_txns_ d1) else expirable_txns_ d1)
    by (unfold d2; by destruct (0 <? _)).
  destruct Ed2 as (G1 & G2 & G3 & G4 & G5). rewrite E3 in Hend |- *. cbn in Hend |- *. apply Hend; rewrite ?lookup_insert_eq; try done.
  by rewrite G1, delete_insert_eq.
Qed.

Lemma background_step y db :
  system_ok y -> ready db -> db_holds db (y_hist y) -> last_of db = last_of (db_ (y_d y)) ->
  column_family_impls_ (cfs (versions_ db)) = column_family_impls_ (cfs_of (y_d y)) ->
  default_cfd_ (cfs (versions_ db)) = default_cfd_ (cfs_of (y_d y)) ->
  length (families (cfs (versions_ db))) = length (families (cfs_of (y_d y))) ->
  system_ok (mkSystem (set_db db (y_d y)) (y_hist y) (y_clients y)).
Proof.
  intros Hok Hr Hh El Ei Ed Hlen. pose proof Hok as [K1 K2 K3 K4 K5 [D1 D2] K7 K8]. split; cbn [y_d y_hist y_clients db_ lock_mgr_ transactions set_db]; rewrite ?El; try done.
  - apply set_db_held. exact K2.
  - split; [unfold GetColumnFamily; by rewrite Ed, Ei|]. intros c c' i. unfold GetColumnFamily. rewrite Ei. apply D2.
  - intros a cl Ha. destruct (K7 a cl Ha) as (t & Ht & Hc). exists t. split; [done|].
    eapply client_other; [by left | | done | exact Hc]. done.
Qed.

Lemma pess_step_ok y y' : system_ok y -> step y y' -> system_ok y'.
Proof.
  intros Hok Hs. destruct Hs.
  - by eapply begin_step.
  - by eapply again_step.
  - by eapply timeout_step.
  - by eapply delete_step.
  - by eapply name_step.
  - by eapply lock_step.
  - by eapply wake_step.
  - by eapply update_step.
  - by eapply read_step.
  - by eapply rollback_step.
  - by eapply commit_step.
  - by eapply write_step.
  - by eapply clear_step.
  - by eapply batch_step.
  - by eapply batch_wake_step.
  - by eapply batch_commit_step.
  - by apply background_step.
Qed.

Lemma pess_steps_ok y y' : system_ok y -> rtc step y y' -> system_ok y'.
Proof. intros Hok Hs. induction Hs as [|y1 y2 y3 H1 _ IH]; [done|]. by apply IH, (pess_step_ok y1). Qed.
End steps.
