(* ===== verification/PessSafe.v ===== *)
(** * PessSafe

    What holds of the pessimistic transactions that run at the same time on a
    database that has been opened for them, as long as their clients keep to the
    discipline of [PessSteps] (which also has the steps and the invariant): two
    that still have their locks never hold a key that one of them holds
    exclusively ([exclusive_keys]); only the locks of expired transactions are
    taken away ([stolen_expired]); what a transaction has read under a protected
    lock is still so when it writes ([pess_Commit_serializes]).  A race of two
    transactions shows the steps.  The last part shows what the discipline is
    for: what goes wrong when a transaction that holds keys is reused, named or
    given a batch, or reads under a shared lock that it loses untold
    ([Reinitialize_keeps_the_id], [named_twice], [batch_unlocks_tracked],
    [shared_lock_is_stolen]). *)

From stdpp Require Import relations.
From S2P Require Import Prelude Slice Keys Entries IO SkipList WriteBatch BatchIndex WAL Version VersionSet MemoryTable DBImpl DBSpec TxnWait TxnLock TxnSteps LockFrame Txn PessTxn PessLocks PessSteps.

Section safe.
Context {E F T : Type} `{!WritableFile F, !WritableFileLaws F, !ReliableFile F, !EnvOps E F, !EnvReliable E F}.
Context `{!MemTable T, !MemTableLaws T}.
Context (path : bytes) (options : ColumnFamilyOptions) (needs_compaction : Version -> bool).
Context (cache_get : nat -> Z -> bytes -> error + Tag * bytes) (contents : nat -> Z -> list kv).
Context (order_families : TxnKeyMaps -> list (Z * TxnKeyMap)) (order_keys : TxnKeyMap -> list (bytes * TxnKeyInfo)).
Context (Hfamilies : forall m, order_families m ≡ₚ map_to_list m) (Hkeys : forall m, order_keys m ≡ₚ map_to_list m).
Context (comparator : Z -> bytes -> bytes -> Z) (freed : bytes -> option bytes).

#[local] Abbreviation DB := (DBImpl E F T).
#[local] Abbreviation PDB := (PessimisticTransactionDB (E := E) (F := F) (T := T)).
#[local] Abbreviation db_holds := (db_holds cache_get contents).
#[local] Abbreviation last_of db := (last_sequence_number (versions_ db)).
#[local] Abbreviation cfs_of d := (cfs (versions_ (db_ d))).

#[local] Abbreviation system := (system (E := E) (F := F) (T := T)).
#[local] Abbreviation step := (step path options needs_compaction cache_get contents order_families order_keys comparator freed).
#[local] Abbreviation system_ok := (system_ok cache_get contents).

(** ** Where it starts *)

(** No key is locked and nothing is cached that is not so. *)
Record unlocked_mgr (g : TransactionLockMgr) : Prop := {
  un_caches : caches_ok g;
  un_inj : forall c c' am, lock_maps_ g !! c = Some am -> lock_maps_ g !! c' = Some am -> c = c';
  un_known : forall c am, lock_maps_ g !! c = Some am -> (am < length (lock_map_store g))%nat;
  un_locks : forall am k, lock_at g am k = None;
}.

Lemma NewLockMap_empty n key : lock_of (NewLockMap n) key = None.
Proof.
  unfold lock_of. destruct (GetStripe key (NewLockMap n)) as [i| |]; [|done..]. cbn. destruct (replicate n (∅ : gmap bytes LockInfo) !! i) as [m|] eqn:E1; [|done].
  by apply lookup_replicate in E1 as [-> _].
Qed.

Lemma AddColumnFamily_unlocked c g : unlocked_mgr g -> unlocked_mgr (AddColumnFamily c g).
Proof.
  intros [U1 U2 U3 U4].
  assert (Hnew : forall c' am, VersionSet.insert_new c (length (lock_map_store g)) (lock_maps_ g) !! c' = Some am ->
    lock_maps_ g !! c' = Some am \/ (c' = c /\ am = length (lock_map_store g))).
  { intros c' am. unfold VersionSet.insert_new. destruct (lock_maps_ g !! c); [by left|]. intros [[<- <-]|[_ ?]]%lookup_insert_Some; auto. }
  split; cbn.
  - intros th m c' am Hth Hm. specialize (U1 th m c' am Hth Hm). cbn. unfold TxnWait.insert_new. destruct (lock_maps_ g !! c) eqn:Ec; [done|].
    rewrite lookup_insert_ne; [done|]. congruence.
  - intros c1 c2 am [H1|[-> ->]]%Hnew [H2|[-> E2]]%Hnew; [by eapply U2 | | | done].
    + specialize (U3 _ _ H1). lia.
    + specialize (U3 _ _ H2). lia.
  - intros c' am [H1|[_ ->]]%Hnew; rewrite length_app; cbn; [specialize (U3 _ _ H1)|]; lia.
  - intros am k. specialize (U4 am k). unfold lock_at in *. cbn. rewrite lookup_app. destruct (lock_map_store g !! am); [done|].
    destruct (am - _)%nat; cbn; [apply NewLockMap_empty | done].
Qed.

(** A database that transactions have not begun on. *)
Record unused (d : PDB) : Prop := {
  us_sys : sys_ok (mkSys (lock_mgr_ d) (owners_of d) ∅ ∅);
  us_locks : unlocked_mgr (lock_mgr_ d);
  us_transactions : transactions d = ∅;
  us_expirable : expirable_txns_ d = ∅;
}.

Lemma unused_ok d H :
  unused d -> ready (db_ d) -> db_holds (db_ d) H -> is_u 56 (last_of (db_ d)) -> directory_ok (cfs_of d) -> system_ok (mkSystem d H ∅).
Proof.
  intros [U1 [V1 V2 V3 V4] U3 U4] Hr Hh Hl Hd.
  assert (Hno : forall b u, transactions d !! b = Some u -> False) by (intros b u; rewrite U3; by rewrite lookup_empty).
  split; cbn [y_d y_hist y_clients]; try done.
  - unfold lock_system. cbn [y_d y_clients]. by rewrite U3, fmap_empty, omap_empty.
  - split; try done.
    + intros am k info E1. by rewrite V4 in E1.
    + by intros a c k ex (t & cl & info & []%Hno & _).
    + by intros a t []%Hno.
    + by intros a t []%Hno.
    + intros id b. by rewrite U4, lookup_empty.
    + intros c am k info _ E1. by rewrite V4 in E1.
    + by intros a t c k ex []%Hno.
  - intros a t Ha. by destruct (Hno a t).
Qed.

Lemma add_families_unused hs (d d' : PDB) : add_families hs d = Done d' -> unused d -> unused d' /\ db_ d' = db_ d.
Proof.
  revert d. induction hs as [|h hs IH]; intros d; cbn [add_families]; [by intros [= <-]|].
  destruct (handle_id h (db_ d)) as [c| |]; cbn [obind]; [|done..]. intros Hd [U1 U2 U3 U4]. apply IH in Hd; [done|].
  split; cbn; [|by apply AddColumnFamily_unlocked | done | done]. eapply sys_ok_same; [| | |exact (TxnSteps.step_ok _ _ U1 (TxnSteps.step_add _ c))]; done.
Qed.

Lemma pess_Open_unused opts hs db (d : PDB) : (0 < num_stripes opts)%nat -> pess_Open opts hs db = Done d -> unused d /\ db_ d = db.
Proof.
  intros Hn Hd. assert (Hu : unused (NewPessimisticTransactionDB (E := E) (F := F) (T := T) opts db)).
  { split; cbn; [by apply (NewSystem_ok (U := Owners)) | | done | done]. split; cbn; [| | |done].
    - intros th m cfid am Hth. cbn in Hth. by rewrite lookup_empty in Hth.
    - intros c c' am. by rewrite lookup_empty.
    - intros c am. by rewrite lookup_empty. }
  unfold pess_Open in Hd. destruct hs as [[|h hs]|]; by apply add_families_unused in Hd.
Qed.

(** What is reached from a database that has just been opened for
    transactions. *)
Definition reached (opts : TransactionDBOptions) (hs : option (list ColumnFamilyHandle)) (db : DB) (H : history) (y : system) : Prop :=
  (0 < num_stripes opts)%nat /\ ready db /\ db_holds db H /\ is_u 56 (last_of db) /\ directory_ok (cfs (versions_ db)) /\
  exists d, pess_Open opts hs db = Done d /\ rtc step (mkSystem d H ∅) y.

Lemma reached_ok opts hs db H y : reached opts hs db H y -> system_ok y.
Proof.
  intros (Hn & Hr & Hh & Hl & Hd & d & Ed & Hs). destruct (pess_Open_unused opts hs db d Hn Ed) as [Hu <-].
  eapply (pess_steps_ok _ _ _ _ _ _ _ Hfamilies Hkeys); [|exact Hs]. by apply unused_ok.
Qed.

Lemma TryLock_reply_others r j a (d d' : PDB) rep b : TryLock_reply r j a d = Done (rep, d') -> b <> a -> transactions d' !! b = transactions d !! b.
Proof.
  intros Hd Hne. destruct r as [rs|cv q]; cbn [TryLock_reply] in Hd; [|by injection Hd as _ <-].
  unfold TryLock_end, get_txn in Hd. destruct (ok rs); [|by injection Hd as _ <-].
  destruct (transactions d !! a) as [t|]; cbn [ofopt obind] in Hd; [|done]. injection Hd as _ <-. cbn. by rewrite lookup_insert_ne.
Qed.

(** ** What holds *)

(** C9: While one transaction holds a key of a family exclusively and still has its
    locks, no other transaction that still has its locks holds that key: not
    exclusively, and not shared either if it is one that expires (the others may
    lose a shared lock without being told, [shared_lock_is_stolen]). This is so in
    every state that transactions running at the same time reach from an open
    database under the discipline of [PessSteps]: they may lock, wait, write,
    take locks of expired ones, batch, commit and roll back in any order, but a
    transaction is begun again, has its lock timeout set or is given a batch only
    while it holds no key ([Reinitialize_keeps_the_id] and [batch_unlocks_tracked]
    show that it is false otherwise). *)
Theorem exclusive_keys opts hs db H y a b t u c k ex :
  reached opts hs db H y -> a <> b ->
  transactions (y_d y) !! a = Some t -> active t -> held y a c k true ->
  transactions (y_d y) !! b = Some u -> active u -> ex = true \/ 0 < expiration_time u -> ~ held y b c k ex.
Proof.
  intros Hr%reached_ok Hne. intros. intros Hh. apply Hne.
  eapply (held_exclusively (y_d y) (held y)); try done; [| by eapply system_ids | eapply yk_held; exact Hr].
  apply (so_mgr _ (yk_locks _ _ _ Hr)).
Qed.

(** C10: When a transaction asks for a lock, every other transaction is left as it
    was, or had started, has expired and is told that its locks are gone, in every
    state that is reached from an open database under the discipline of
    [PessSteps]: then the assertion of [TryStealingLocks] holds, whichever ids the
    lock and the table of the expirable transactions have. A transaction that
    holds keys must not be begun again or get another lock timeout: its old id
    would stay in that table, and it would lose its locks without having expired
    ([Reinitialize_keeps_the_id]). *)
Theorem stolen_expired opts hs db H y a cl thread free now i f key ro ex validate r d b u :
  reached opts hs db H y -> y_clients y !! a = Some cl -> c_phase cl = Idle -> usable (db_ (y_d y)) i f key ->
  pt_TryLock thread free now (mkCFHandle true i) key ro ex validate a (y_d y) = Done (r, d) ->
  b <> a -> transactions (y_d y) !! b = Some u ->
  transactions d !! b = Some u \/ IsExpired now u = true /\ fst (TryStealingLocks u) = true /\ transactions d !! b = Some (snd (TryStealingLocks u)).
Proof.
  intros Hr%reached_ok Hcl Hid (Hf & _) Hrun Hne Hb. destruct (yk_clients _ _ _ Hr a cl Hcl) as (t & Ha & _). revert Hrun.
  unfold pt_TryLock, get_txn, handle_id. rewrite Ha. cbn [ofopt obind h_impl]. rewrite Hf. cbn [ofopt obind].
  pose proof (prev_locked_spec (cf_id f) key ex (txn_keys_ (base_ t))) as Hprev. destruct (prev_locked _ _ _ _) as [[prev upgrade] seq].
  destruct (negb prev || upgrade).
  - destruct (db_TryLock _ _ _ _ _ _ _ _) as [[r0 d1]| |] eqn:E1; cbn [obind]; [|done..]. intros Hrep%(fun Hx => TryLock_reply_others _ _ _ _ _ _ b Hx Hne).
    destruct (request_called cache_get contents y a cl t thread free now _ _ _ r0 d1 Hr Hcl Hid Ha Hprev E1) as [Hmv _ _ _]. rewrite Hrep.
    destruct (mv_others _ _ _ _ Hmv b Hne) as [->|(u' & Hu' & Hs & He & Hd)]; [by left|]. right. assert (u' = u) as -> by congruence.
    unfold IsExpired, TryStealingLocks, update_state. rewrite bool_decide_eq_true_2 by done. split_and!; [lia | done | exact Hd].
  - intros Hrep%(fun Hx => TryLock_reply_others _ _ _ _ _ _ b Hx Hne). left. congruence.
Qed.

(** C4: A transaction that has reached the write of its commit writes, however it and
    the others have run since it began under the discipline of [PessSteps]: the
    write succeeds, every answer it was given for a key of which it held a
    protected lock and that it had not updated itself is still the answer of the
    database, and behind it the database holds the records of before with its
    updates in front, in order, at the next versions. So the transactions take
    effect in the order of their writes. A lock is protected if it is exclusive,
    or if the transaction expires (then it is told of a theft and does not get to
    the write); a read under a shared lock of another transaction is not covered
    ([shared_lock_is_stolen]). Updates are made under exclusive locks; a
    transaction is begun again, has its lock timeout set or is given a batch only
    while it holds no key ([batch_unlocks_tracked]); families are neither created
    nor dropped, all writes come from these transactions, and the batch fits the
    range of versions. *)
Theorem pess_Commit_serializes opts hs db H y a cl :
  reached opts hs db H y -> y_clients y !! a = Some cl -> c_phase cl = Writing -> fits (c_ops cl) (db_ (y_d y)) ->
  (forall i key x, (i, key, x) ∈ c_reads cl -> current_answer (y_hist y) (last_of (db_ (y_d y))) i key x) /\
  exists d, commit_write path options needs_compaction a (y_d y) = Done (kOk, d) /\
    db_holds (db_ d) (written (c_ops cl) (y_d y) (y_hist y)) /\ last_of (db_ d) = last_of (db_ (y_d y)) + zlen (c_ops cl) /\ ready (db_ d).
Proof.
  intros Hr%reached_ok Hcl Hph Hfits. destruct (yk_clients _ _ _ Hr a cl Hcl) as (t & Ha & Hc).
  pose proof (co_phase _ _ _ _ _ _ Hc) as Hp. unfold phase_ok in Hp. rewrite Hph in Hp. split.
  - intros i key x Hx. destruct (co_reads _ _ _ _ _ _ Hc i key x Hx) as (c & info & _ & _ & _ & Hcur). apply Hcur. by right.
  - destruct Hfits as (Hb & Hkn & Hl0 & Hl). unfold commit_write, get_txn. rewrite Ha. cbn [ofopt obind]. rewrite (co_batch _ _ _ _ _ _ Hc).
    destruct (WriteImpl_holds path options needs_compaction cache_get contents (write_opts_ (base_ t)) (c_ops cl) (db_ (y_d y)) (y_hist y)
      (yk_ready _ _ _ Hr) (yk_holds _ _ _ Hr) Hb Hkn Hl0 Hl) as (db' & E1 & Hr' & Hc' & Hl' & Hh').
    rewrite E1. cbn [obind]. by exists (set_db db' (y_d y)).
Qed.
End safe.

(** ** A race *)

Import DBImpl.Sample.

Module Race.
Definition the {A} (default : A) (o : outcome A) : A := match o with Done x => x | _ => default end.
Definition is_done {A} (p : A -> bool) (o : outcome A) : bool := match o with Done x => p x | _ => false end.

#[local] Abbreviation PDB := (PessimisticTransactionDB (E := bytes) (F := IO.MemFile) (T := OrderedTable)).

Definition options : TransactionDBOptions := mkTxnDBOptions 1000 1000 1000 4 5.
Definition unopened : PDB := NewPessimisticTransactionDB options sample_created.
Definition d0 : PDB := the unopened (pess_Open options None sample_created).

(** Two transactions; the second expires after 5 milliseconds. *)
Definition expiring : TransactionOptions := mkTxnOptions false 1000 5 50.
Definition d1 : PDB := the d0 (NewPessimisticTransaction DefaultTransactionOptions true 0 0 d0).
Definition d2 : PDB := the d1 (NewPessimisticTransaction expiring true 0 1 d1).

(** The second takes the lock of the key, and another later; the first waits
    for nothing, since the second has expired. *)
Definition lock_of_1 : outcome (reply * PDB) := pt_TryLock 0 true 1000 Beside.here [97] false true true 1 d2.
Definition d3 : PDB := (the (Ends kOk, d2) lock_of_1).2.
Definition early : outcome (reply * PDB) := pt_TryLock 0 true 2000 Beside.here [97] true true true 0 d3.
Definition lock_of_0 : outcome (reply * PDB) := pt_TryLock 0 true 9000 Beside.here [97] true true true 0 d3.
Definition d4 : PDB := (the (Ends kOk, d3) lock_of_0).2.

(** It reads the key, puts it and begins its commit. *)
Definition read_of_0 : outcome (error + option bytes) := pt_Get no_files Beside.cmp_of Some None Beside.here [97] 0 d4.
Definition put_op : op := OpPut 0 [97] [9].
Definition put_of_0 : outcome (error * PDB) := update_end Beside.cmp_of kOk (op_flag put_op) [] Beside.here [97] [9] 0 d4.
Definition d5 : PDB := (the (kOk, d4) put_of_0).2.
Definition commit_of_0 : outcome (bool * PDB) := commit_begin 9000 0 d5.
Definition d6 : PDB := (the (true, d5) commit_of_0).2.

Definition ends_ok (r : reply * PDB) : bool := match r.1 with Ends rs => ok rs | _ => false end.
Definition waits (r : reply * PDB) : bool := match r.1 with Waits _ _ _ => true | _ => false end.
Definition state_of (a : nat) (d : PDB) : option State := state <$> transactions d !! a.
End Race.

(** The lock is waited for while its owner has not expired, and taken when it
    has; the owner cannot commit then, and the other one can. *)
Example race_outcome :
  Race.is_done Race.ends_ok Race.lock_of_1 = true /\ Race.is_done Race.waits Race.early = true /\
  Race.is_done Race.ends_ok Race.lock_of_0 = true /\ Race.state_of 1 Race.d4 = Some LOCKS_STOLEN /\
  Race.is_done fst (commit_begin 4000 1 Race.d3) = true /\ Race.is_done fst (commit_begin 4000 1 Race.d4) = false /\
  Race.read_of_0 = Done (inl kNotFound) /\ Race.is_done fst Race.commit_of_0 = true.
Proof. split_and!; vm_compute; reflexivity. Qed.

Module Race_ok.
Import Race.

(** The states are unfolded by evaluation only. *)
#[local] Strategy 1000 [d0 d1 d2 d3 d4 d5 d6 lock_of_1 lock_of_0 put_of_0 commit_of_0 sample_created].

Lemma done_the {A} (p : A -> bool) (default : A) (o : outcome A) :
  is_done p o = true -> o = Done (the default o) /\ p (the default o) = true.
Proof. by destruct o. Qed.

Lemma done_pair {A B} (p : A * B -> bool) (x : A * B) (o : outcome (A * B)) :
  is_done p o = true -> o = Done ((the x o).1, (the x o).2) /\ p (the x o) = true.
Proof. intros [E H]%(done_the p x). split; [|done]. rewrite E at 1. by destruct (the x o). Qed.

#[local] Abbreviation system := (system (E := bytes) (F := IO.MemFile) (T := OrderedTable)).

Definition y0 : system := mkSystem d0 (fun _ => []) ∅.
Definition y2 : system := set_client 1 (idle_client [] []) d2 (set_client 0 (idle_client [] []) d1 y0).
Definition y3 : system := set_client 1 (idle_client [] []) d3 y2.
Definition y4 : system := set_client 0 (idle_client [] []) d4 y3.
Definition the_read : nat * bytes * (error + option bytes) := (0%nat, [97], inl kNotFound).
Definition y5 : system := set_client 0 (idle_client [] [the_read]) d4 y4.
Definition y6 : system := set_client 0 (idle_client [put_op] [the_read]) d5 y5.
Definition y7 : system := set_client 0 (mkClient [put_op] [the_read] Writing) d6 y6.

#[local] Abbreviation step :=
  (step [47] sample_options no_compaction no_files no_contents Beside.order_f Beside.order_k Beside.cmp_of Some).
#[local] Abbreviation reached :=
  (reached [47] sample_options no_compaction no_files no_contents Beside.order_f Beside.order_k Beside.cmp_of Some).

Lemma sample_directory : directory_ok (cfs (versions_ sample_created)).
Proof.
  assert (Ei : column_family_impls_ (cfs (versions_ sample_created)) = {[0 := 0%nat]}) by (vm_compute; reflexivity).
  split.
  - vm_compute. reflexivity.
  - intros c c' i. unfold GetColumnFamily. rewrite Ei. repeat case_match; rewrite ?lookup_singleton_Some; lia.
Qed.

Lemma opened_for_all : pess_Open options None sample_created = Done d0.
Proof. destruct (done_the (fun _ => true) unopened (pess_Open options None sample_created)) as [E _]; [vm_compute; reflexivity | exact E]. Qed.

Lemma begun : rtc step y0 y2.
Proof.
  eapply rtc_l; [|apply rtc_once].
  - apply (step_begin _ _ _ _ _ _ _ _ _ y0 0 DefaultTransactionOptions true 0 d1); [vm_compute; reflexivity | by vm_compute |].
    apply (done_the (fun _ => true)). vm_compute. reflexivity.
  - apply (step_begin _ _ _ _ _ _ _ _ _ (set_client 0 (idle_client [] []) d1 y0) 1 expiring true 0 d2); [vm_compute; reflexivity | by vm_compute |].
    apply (done_the (fun _ => true)). vm_compute. reflexivity.
Qed.

Lemma replied_ok x : ends_ok x = true -> replied x.1 = Idle.
Proof. by destruct x as [[] ?]. Qed.

(** The files are those of the sample, at every stage. *)
Lemma usable_here (d : PessimisticTransactionDB) : families (cfs (versions_ (db_ d))) = families (cfs (versions_ sample_created)) ->
  column_family_impls_ (cfs (versions_ (db_ d))) = column_family_impls_ (cfs (versions_ sample_created)) ->
  exists f, usable (E := bytes) (F := IO.MemFile) (T := OrderedTable) (db_ d) 0 f [97] /\ cf_id f = 0.
Proof. apply Beside_ok.opened. Qed.

Lemma locked_first : step y2 y3.
Proof.
  destruct (usable_here d2) as (f & Hf & _); [vm_compute; reflexivity..|].
  destruct (done_pair ends_ok (Ends kOk, d2) lock_of_1) as [E1 E2]; [vm_compute; reflexivity|].
  pose proof (step_lock [47] sample_options no_compaction no_files no_contents Beside.order_f Beside.order_k Beside.cmp_of Some
    y2 1 (idle_client [] []) 0 true 1000 0 f [97] false true true _ _ (lookup_insert_eq _ _ _) eq_refl Hf E1) as Hs.
  rewrite (replied_ok _ E2) in Hs. exact Hs.
Qed.

Lemma locked_then : step y3 y4.
Proof.
  destruct (usable_here d3) as (f & Hf & _); [vm_compute; reflexivity..|].
  destruct (done_pair ends_ok (Ends kOk, d3) lock_of_0) as [E1 E2]; [vm_compute; reflexivity|].
  assert (Hcl : y_clients y3 !! 0%nat = Some (idle_client [] [])) by (vm_compute; reflexivity).
  pose proof (step_lock [47] sample_options no_compaction no_files no_contents Beside.order_f Beside.order_k Beside.cmp_of Some
    y3 0 (idle_client [] []) 0 true 9000 0 f [97] true true true _ _ Hcl eq_refl Hf E1) as Hs.
  rewrite (replied_ok _ E2) in Hs. exact Hs.
Qed.

Lemma locked : rtc step y2 y4.
Proof. transitivity y3; apply rtc_once; [apply locked_first | apply locked_then]. Qed.

(** Transaction [a] has locked the key exclusively and still has its locks. *)
Definition has_key (a : nat) (d : PessimisticTransactionDB (E := bytes) (F := IO.MemFile) (T := OrderedTable)) : bool :=
  match transactions d !! a with
  | Some t => match txn_keys_ (base_ t) !! 0 with
    | Some keys => match keys !! [97] with Some info => ti_exclusive info && bool_decide (state t = STARTED) | None => false end
    | None => false end
  | None => false end.

Lemma has_key_spec a d : has_key a d = true ->
  exists t info, transactions d !! a = Some t /\ tracked (txn_keys_ (base_ t)) 0 [97] info /\ ti_exclusive info = true /\ active t.
Proof.
  unfold has_key. destruct (transactions d !! a) as [t|]; [|done]. destruct (txn_keys_ (base_ t) !! 0) as [keys|] eqn:Ek; [|done].
  destruct (keys !! [97]) as [info|] eqn:Ei; [|done]. intros [He Hs%bool_decide_eq_true]%andb_true_iff. exists t, info.
  split_and!; [done | by exists keys | done | by left].
Qed.

Lemma race_finished : rtc step y4 y7.
Proof.
  destruct (has_key_spec 0 d4) as (t & info & Ht & Hi & He & _); [vm_compute; reflexivity|].
  destruct (usable_here d4) as (f & Hf & Eid); [vm_compute; reflexivity..|].
  transitivity y5; [|transitivity y6]; apply rtc_once.
  - assert (E1 : (t ← transactions d4 !! 0%nat; Some (RawGet Beside.cmp_of Some 0 [97] (write_batch_ (base_ t)))) = Some (Done (inl kNotFound)))
      by (vm_compute; reflexivity).
    rewrite Ht in E1. cbn in E1. apply (inj Some) in E1.
    assert (E2 : pt_Get no_files Beside.cmp_of Some None (mkCFHandle true 0) [97] 0 (y_d y4) = Done (inl kNotFound)) by (vm_compute; reflexivity).
    refine (step_read _ _ _ _ _ _ _ _ _ y4 0 (idle_client [] []) t 0 f [97] info (inl kNotFound) (lookup_insert_eq _ _ _) eq_refl Ht Hf _ (or_introl He) _ E2);
      rewrite Eid; [exact Hi | exact E1].
  - destruct (done_pair (fun x => ok x.1) (kOk, d4) put_of_0) as [E1 _]; [vm_compute; reflexivity|].
    assert (E3 : (the (kOk, d4) put_of_0).1 = kOk) by (vm_compute; reflexivity). rewrite E3 in E1.
    assert (E2 : update_end Beside.cmp_of kOk (op_flag put_op) [] (mkCFHandle true 0) (op_key put_op) (op_value put_op) 0 (y_d y5) = Done (kOk, d5)) by exact E1.
    exact (step_update _ _ _ _ _ _ _ _ _ y5 0 (idle_client [] [the_read]) t 0 f put_op [] info d5 (lookup_insert_eq _ _ _) eq_refl Ht Hf (eq_sym Eid) Hi He E2).
  - destruct (done_pair fst (true, d5) commit_of_0) as [E1 E2]; [vm_compute; reflexivity|]. rewrite E2 in E1.
    exact (step_commit _ _ _ _ _ _ _ _ _ y6 9000 0 (idle_client [put_op] [the_read]) true d6 (lookup_insert_eq _ _ _) eq_refl E1).
Qed.

Lemma reached_from (y : system) : rtc step y0 y -> reached options None sample_created (fun _ => []) y.
Proof.
  intros Hs. destruct sample_created_ok as (_ & Hr & Hh). split_and!; [cbn; lia | exact Hr | exact Hh | rewrite sample_last; by vm_compute | apply sample_directory |].
  exists d0. split; [apply opened_for_all | exact Hs].
Qed.
End Race_ok.

Lemma exclusive_keys_witness :
  held Race_ok.y3 1 0 [97] true /\ Race.state_of 0 Race.d3 = Some STARTED /\ ~ held Race_ok.y3 0 0 [97] true.
Proof.
  destruct (Race_ok.has_key_spec 1 Race.d3) as (t & info & Ht & Hi & He & Hact); [vm_compute; reflexivity|].
  assert (Hh : held Race_ok.y3 1 0 [97] true) by (exists t, (idle_client [] []), info; split_and!; [exact Ht | apply lookup_insert_eq | by left | exact He]).
  assert (Hs : Race.state_of 0 Race.d3 = Some STARTED) by (vm_compute; reflexivity).
  split_and!; [exact Hh | exact Hs |]. unfold Race.state_of in Hs.
  destruct (transactions Race.d3 !! 0%nat) as [u|] eqn:Hu; [|discriminate Hs]. apply (inj Some) in Hs.
  eapply (exclusive_keys [47] sample_options no_compaction no_files no_contents Beside.order_f Beside.order_k Beside_ok.order_f_perm Beside_ok.order_k_perm
    Beside.cmp_of Some Race.options None sample_created (fun _ => []) Race_ok.y3 1 0 t u 0 [97] true); [|discriminate | exact Ht | exact Hact | exact Hh | exact Hu | by left | by left].
  apply Race_ok.reached_from. etransitivity; [apply Race_ok.begun | apply rtc_once, Race_ok.locked_first].
Defined.

Lemma stolen_expired_witness :
  exists d, Race.lock_of_0 = Done (Ends kOk, d) /\ Race.state_of 1 d = Some LOCKS_STOLEN.
Proof.
  destruct (Race_ok.usable_here Race.d3) as (f & Hf & _); [vm_compute; reflexivity..|].
  destruct (Race_ok.done_pair Race.ends_ok (Ends kOk, Race.d3) Race.lock_of_0) as [E1 _]; [vm_compute; reflexivity|].
  assert (E2 : (Race.the (Ends kOk, Race.d3) Race.lock_of_0).1 = Ends kOk) by (vm_compute; reflexivity). rewrite E2 in E1.
  assert (Hcl : y_clients Race_ok.y3 !! 0%nat = Some (idle_client [] [])) by (vm_compute; reflexivity).
  destruct (transactions Race.d3 !! 1%nat) as [u|] eqn:Hu; [|assert (H : bool_decide (is_Some (transactions Race.d3 !! 1%nat)) = true)
    by (vm_compute; reflexivity); rewrite Hu in H; discriminate H].
  exists Race.d4. split; [exact E1|].
  destruct (stolen_expired [47] sample_options no_compaction no_files no_contents Beside.order_f Beside.order_k Beside_ok.order_f_perm Beside_ok.order_k_perm
    Beside.cmp_of Some Race.options None sample_created (fun _ => []) Race_ok.y3 0 (idle_client [] []) 0 true 9000 0 f [97] true true true (Ends kOk) Race.d4 1 u)
    as [H|(_ & _ & H)].
  - apply Race_ok.reached_from. etransitivity; [apply Race_ok.begun | apply rtc_once, Race_ok.locked_first].
  - exact Hcl.
  - reflexivity.
  - exact Hf.
  - exact E1.
  - done.
  - exact Hu.
  - vm_compute. reflexivity.
  - vm_compute. reflexivity.
Defined.

Lemma pess_Commit_serializes_witness :
  exists d, commit_write [47] sample_options no_compaction 0 Race.d6 = Done (kOk, d) /\ last_sequence_number (versions_ (db_ d)) = 2.
Proof.
  destruct (pess_Commit_serializes [47] sample_options no_compaction no_files no_contents Beside.order_f Beside.order_k Beside_ok.order_f_perm
    Beside_ok.order_k_perm Beside.cmp_of Some Race.options None sample_created (fun _ => []) Race_ok.y7 0 (mkClient [Race.put_op] [Race_ok.the_read] Writing))
    as (_ & d & Ed & _ & Hl & _).
  - apply Race_ok.reached_from. etransitivity; [apply Race_ok.begun|]. etransitivity; [apply Race_ok.locked | apply Race_ok.race_finished].
  - apply lookup_insert_eq.
  - reflexivity.
  - apply Beside_ok.fits_one; by vm_compute.
  - exists d. split; [exact Ed|]. rewrite Hl. vm_compute. reflexivity.
Defined.

(** ** What goes wrong *)

Module Misused.
Import Race.
#[local] Abbreviation PDB := (PessimisticTransactionDB (E := bytes) (F := IO.MemFile) (T := OrderedTable)).

(** [BeginTransaction] with the second transaction, which has not been ended,
    and an exclusive request of the first for the key it has locked. *)
Definition reused : PDB := (the (0%nat, d3) (pt_BeginTransaction true DefaultTransactionOptions 1500 (Some 1%nat) 2 d3)).2.
Definition asked : outcome (reply * PDB) := pt_TryLock 0 true 9000 Beside.here [97] true true true 0 reused.

(** The second is named, committed, begun again and committed again. *)
Definition named : PDB := (the (kOk, d3) (SetName [110] 1 d3)).2.
Definition committed : PDB :=
  (the (kOk, d3) (pt_Commit [47] sample_options no_compaction Beside.order_f Beside.order_k 0 1000 1 named)).2.
Definition again : PDB := (the (0%nat, d3) (pt_BeginTransaction true DefaultTransactionOptions 1500 (Some 1%nat) 2 committed)).2.
Definition twice : outcome (error * PDB) := pt_Commit [47] sample_options no_compaction Beside.order_f Beside.order_k 0 2000 1 again.

(** A batch of two keys: the first is one that the second transaction has locked
    before, the other is locked by the first transaction. *)
Definition other_key : PDB := (the (Ends kOk, d3) (pt_TryLock 0 true 1000 Beside.here [98] true true true 0 d3)).2.
Definition two : WriteBatch := batch_of [OpPut 0 [97] [1]; OpPut 0 [98] [1]].
Definition batch : outcome (batch_reply * PDB) := CommitBatch [47] sample_options no_compaction Beside.order_f Beside.order_k 0 true 1000 two 1 other_key.
Definition timed_out : PDB :=
  match batch with
  | Done (BWaits cv q cfid key todo keys, d) =>
    (the (BEnds kOk ∅, d) (lock_keys_wake Beside.order_f Beside.order_k 0 true 2000 kTimeout 1 cv q cfid key todo keys d)).2
  | _ => d3
  end.
Definition both : outcome (reply * PDB) := pt_TryLock 0 true 2000 Beside.here [97] true true true 0 timed_out.

Definition has_exclusive (a : nat) (d : PDB) : bool :=
  match transactions d !! a with
  | Some t => bool_decide (state t = STARTED) && match txn_keys_ (base_ t) !! 0 with
      Some keys => match keys !! [97] with Some info => ti_exclusive info | None => false end | None => false end
  | None => false
  end.
End Misused.

(** [Reinitialize] neither gives the locks back nor takes the old id out of the
    table of the expirable transactions: a transaction that never expires loses
    its locks when the one that it was before would have expired. *)
Example Reinitialize_keeps_the_id :
  Race.state_of 1 Misused.reused = Some STARTED /\
  expiration_time <$> transactions Misused.reused !! 1%nat = Some 0 /\
  Race.is_done Race.ends_ok Misused.asked = true /\
  (d ← (match Misused.asked with Done x => Some x.2 | _ => None end); Race.state_of 1 d) = Some LOCKS_STOLEN.
Proof. split_and!; vm_compute; reflexivity. Qed.

(** The name outlives the commit that has given it back, and is given back
    again: the iterator that is erased is the end. *)
Example named_twice : Race.state_of 1 Misused.committed = Some COMMITED /\ Misused.twice = Undef.
Proof. split; vm_compute; reflexivity. Qed.

(** [LockBatch] gives back every key of the batch that it has got to, also those
    that the transaction had before: another transaction locks one of them
    exclusively, and both are under way. *)
Example batch_unlocks_tracked :
  Race.is_done Race.ends_ok Misused.both = true /\
  Race.is_done (fun x => Misused.has_exclusive 0 x.2 && Misused.has_exclusive 1 x.2) Misused.both = true.
Proof. split; vm_compute; reflexivity. Qed.
